(* ===== verification/_CoqProject ===== *)
-Q . S2P
Prelude.v
Bits.v
Registers.v
Csr.v
Instr.v
Parser.v
Encoding.v
ParserSpec.v
ParserRoundTrip.v
ParserSpecC.v
Instruction.v
Constructors.v
Tagged.v
Icb.v
Integer.v
Interpreter.v
Buddy.v
BuddySpec.v
BuddyTree.v
Memory.v
MemorySpec.v
AllocSpec.v
Core.v
Run.v
Step.v
Cranelift.v
StateAccess.v
JitBuilder.v
Hash.v
MerkleProof.v
Merkle.v
MerkleSpec.v
Backend.v
BackendSpec.v
DynBackendSpec.v
Deserialiser.v
Layouts.v
LayoutsSpec.v
ProofRun.v
EventsSpec.v
Revealed.v
AllocatedSpec.v
AllocatedState.v
PartialHashSpec.v
ProofsSpec.v
Loader.v
LoaderSpec.v
LinuxParams.v
Linux.v
Pvm.v
Stepper.v
BlockCache.v
Jit.v
StepChunks.v
IsaSpec.v
CoreSpec.v
IntegerSpec.v
ControlSpec.v
IsaRefinement.v
IsaTheorems.v
ZicsrSpec.v
Frame.v
StepSpec.v
BlockCacheSpec.v
BlockCacheOps.v
BlockCacheRun.v
StepTheorems.v
PvmSpec.v
LinuxSpec.v
StepperSpec.v
Storage.v
StorageSpec.v
JitRuns.v
JitSim.v
JitInstr.v
JitTyped.v
JitSpec.v
DispatchSpec.v
JitTheorems.v
