(* ===== verification/Prelude.v ===== *)
(** * The RISC-V PVM: a verification development

    This library models the RISC-V proof-generating virtual machine of
    [src/riscv/lib] and proves what makes its parts correct.  The program runs an
    RV64 kernel for a Tezos smart rollup: an interpreter with a block cache executes
    instructions on a machine core, a small Linux supervisor answers the system
    calls of the kernel, and the PVM feeds it inputs and counts its steps.  Blocks of
    instructions may be compiled to machine code and run in place of the interpreter.
    Paths below are relative to [src/riscv/lib/src].

    ** Conventions

    A definition has the name of the Rust item it translates where Rocq allows it.
    An integer of [w] bits is a [Z] in its range, with [wrap] and [sext] for the
    casts.  Code that mutates its arguments is a function of the monad [M S]:
    from a state to a value and a state, or to [None].  [None] is a panic, undefined
    behaviour (a wrong view of a union, an unchecked access out of bounds), or an
    opcode without a model (floating point); errors that the code returns are values
    of [result].  Theorems that say an operation "succeeds" show that it is not
    [None].  Arithmetic follows the release build: it wraps where the source uses
    a plain operator that cannot be shown to stay in range.  A state cell of the
    backend is a field of a record in the files about the machine.  The backend itself,
    with hashing and proofs, has files of its own, over any state and any program of
    operations on it.

    ** The parts

    - This file: machine integers, [result], the monad with its notation (scope
      [pvm_scope]), properties kept by a computation ([keeps] with its hint database
      and tactic), and what the parts share.
    - [Bits], [Registers], [Csr] model [bits.rs], [machine_state/registers.rs] with
      the reservation set, and [machine_state/csregisters.rs].
    - [Instr], [Parser] model [parser/instruction.rs] and [parser.rs].  [Encoding]
      is a reference assembler, written from the format tables of the manual;
      [ParserSpec], [ParserRoundTrip] and [ParserSpecC] compare the decoder with it
      in both directions, for 32-bit and for 16-bit words.
    - [Instruction], [Constructors], [Run], [Tagged] model [machine_state/
      instruction.rs] and its submodules: the opcodes with flat arguments, how a
      decoded instruction becomes one, its dispatch, its serialised form.
    - [Icb] models the interface [ICB] of [instruction_context.rs], a class over
      which [Integer] models [interpreter/integer.rs], and [Interpreter] models
      [branching.rs], [load_store.rs] and [atomics.rs].  [Core] gives the interpreter's
      instance, on the machine core; [Run] begins with the instructions that have only an
      interpreter's form.
    - [Buddy] models the page allocator [machine_state/memory/buddy/], the class
      [Buddy] with the leaf, the branch and the trees of every layout.  [BuddySpec]
      states its contract (class [BuddyLaws]) and proves it of leaf and branch,
      [BuddyTree] of every tree.
    - [Memory] models [machine_state/memory/], the class [Memory] and its
      implementation over any [Buddy].  [MemorySpec] states the contract the machine
      relies on (class [MemoryLaws]) and proves the implementation keeps it, for runs of
      bytes too; [AllocSpec] is about allocation, over [BuddyLaws].
    - [Step] models the loops of [machine_state.rs] and [range_utils.rs] over the
      class [BlockCache]; the file [BlockCache] models its implementation in
      [machine_state/block_cache/].  [Frame], [StepSpec], [BlockCacheSpec],
      [BlockCacheOps], [BlockCacheRun], [StepChunks] and [StepTheorems] build the
      proofs about stepping.
    - [IsaSpec] is a reference semantics of the integer, memory and atomic
      instructions; [CoreSpec], [IntegerSpec], [ControlSpec], [IsaRefinement]
      and [IsaTheorems] relate the interpreter to it, and [ZicsrSpec] does so for the CSR
      instructions.
    - [Loader] models [kernel_loader.rs] and [program.rs]; [LoaderSpec] is about it.
    - [LinuxParams] and [Linux] model [pvm/linux.rs] and [pvm/linux/]: parameters and
      errors, the handlers with their dispatch, and the start of a process.  [LinuxSpec]
      bounds what any call changes and shows what single calls do.
    - [Pvm] models [pvm/tezos.rs], [pvm/reveals.rs] and [pvm/common.rs];
      [PvmSpec] is about evaluation.
    - [Stepper] models [stepper.rs], [stepper/pvm.rs] and [stepper/pvm/reveals.rs]: a PVM
      stepped over an inbox and reveals; [StepperSpec] is about it.
    - [Storage] models [storage.rs] and [storage/]: files named by hashes, commits,
      checkouts and snapshots, over a map of files; [StorageSpec] is about it.
    - [Hash], [MerkleProof] and [Merkle] model [state_backend/hash.rs] and
      [state_backend/proof_backend/] with [tree.rs], [proof.rs] and [merkle.rs]: trees with
      their traversal, hashes of chunks, proofs with their encoding, and the Merkle
      trees of an execution; [MerkleSpec] is about the last.
    - [Backend] models the managers of [owned_backend.rs], [proof_backend.rs] and
      [verify_backend.rs]: the record [Manager] of operations on regions, with its three
      instances.  [BackendSpec] and [DynBackendSpec] relate them, operation by operation.
    - [Deserialiser] models the two parsers of proofs in [proof_backend/proof/], the
      class [Deserialiser] with its instances; [Layouts] models [layout.rs],
      [commitment_layout.rs], [proof_layout.rs] and the registers' layout in
      [machine_state/csregisters/values.rs]: layouts are the data type [Layout], and
      [Allocated M L] is the state of a manager.  It ends with how [pvm/common.rs] and
      [stepper/pvm.rs] make and verify the proof of a step, the step being any program of
      operations ([Prog]).  [LayoutsSpec], [ProofRun], [EventsSpec], [Revealed],
      [AllocatedSpec], [AllocatedState] and [PartialHashSpec] build the proofs, and
      [ProofsSpec] has the theorems.
    - [Cranelift] has the part of the [cranelift] crates that the compiler uses, from
      their documentation: the intermediate representation, the calls that build it, the
      verifier, and what a function does when it runs, over the class [Host] of what the
      host gives it.  [StateAccess] models [jit/state_access.rs] with its submodules, and
      is that host for the machine core; [JitBuilder] models [jit/builder.rs] with its
      submodules, the instance of [ICB] that emits code; [Jit] models [jit.rs], the
      compiler, and then [block/dispatch.rs] and [block/jitted.rs], the blocks that are run
      through a dispatch target and the two compilers, of which one works in a thread of
      its own.  [JitRuns] is about runs of emitted code; [JitSim] and [JitInstr] show that
      every instruction's code over [ICB] does the same through the builder and in the
      interpreter; [JitTyped] that the builder never fails an assertion and the verifier
      accepts what it emits; [JitSpec] is about whole functions and the compiler,
      [DispatchSpec] about blocks and cells, and [JitTheorems] has the theorems.

    A client is proved against the class of what it uses: the interpreter against
    [Memory] with [MemoryLaws], the loops against [BlockCache], memory against
    [Buddy] with [BuddyLaws], compiled code against [JitStateAccess] with [AccessLaws] and
    [AccessTyped], blocks with a target against [DispatchCompiler] with
    [DispatchCompilerLaws]; the instances are at the end of the files that
    implement them.

    ** What the theorems show

    - Instructions ([IsaTheorems], [ZicsrSpec], [Frame]): every decoded instruction that has
      a reference meaning, but [mulw] to [x0], runs without a panic on a well-formed core
      and ends as the reference semantics says, through the constructors, the dispatch and
      the instruction context; any decoded instruction keeps cores well formed; the CSR
      instructions respect the [fcsr] windows and the permissions.
    - Decoder ([ParserSpec], [ParserSpecC], [ParserRoundTrip], [Tagged]): decoding
      and encoding are inverse, up to the bits that the decoder does not look at
      ([unchecked]) and [divuw] to [x0], which it rejects; and so is the serialised form of
      an instruction.
    - Memory ([MemorySpec], [AllocSpec], [BuddyTree]): accesses refine an array
      of bytes under page permissions; reset, protection, allocation and
      deallocation act on exactly their pages; the allocator refines a map of pages
      with first-fit allocation.
    - Stepping ([StepTheorems], [PvmSpec]): the block cache is transparent; its blocks
      are the code of memory in every reachable state, as long as the supervisor leaves the
      code on pages that are not writable in place (otherwise they need not be:
      [unmapped_code_runs]); invalidation leaves none; a step does what the architecture
      says of the instruction at the program counter; running [a + b] steps
      is running [a] and then [b]; the loops terminate within their bound; and
      evaluating a PVM many steps at once is evaluating it one step at a time, on
      its whole state.  The stepper ([StepperSpec]) takes single steps through inputs and
      reveals, and may take one more than its bound.
    - Loading and system calls ([LoaderSpec], [LinuxSpec]): an
      executable is loaded byte for byte; a system call stays within its bounds, and
      [write] does what its manual page says, but for empty writes from beyond memory,
      which panic.
    - Proofs ([MerkleProof], [ProofsSpec]): the encoding of a proof can be read back;
      an honest proof of a step is made and accepted; an accepted proof that starts
      from the hash of a state ends with the hash of the state after the step, or two
      different inputs with one digest are among those hashed.  Both are for layouts whose
      vectors have a power of four of elements, the shape on which the two ways the
      code groups them agree, and for steps that leave the control and status registers
      as they are: their leaf is made from the final values, as two theorems show.
    - Storage ([StorageSpec]): what is committed is checked out again, in one piece or
      through chunks, unless stored contents collide; a snapshot has its commit.
    - Compiled blocks ([JitTheorems]): a block of decoded instructions is lowered without a
      panic, to code that the verifier accepts; the code, run on a core, ends and leaves
      the steps, the core and the error that the interpreted block leaves; and a block run
      through its dispatch target does what the interpreted block does, for both compilers
      and under every interleaving of creations, changes and runs of blocks with the thread
      that compiles, which never panics.  All of it is for instructions that have the
      registers their functions read, which is what the decoder gives but for [mulw] to
      [x0]; the last two are up to another sequence of instructions, among those that were
      run, with the hash that names the block's code.  The block cache is modelled with interpreted blocks; a run
      through a target gives what its theorems rely on, the outcome of the interpreted
      block, but the two are not put together here.
    - Errors: the theorems of kind error give inputs on which the code does not do
      what it means to; each is a finding of the manifest.

    ** Fuel and bounds

    Functions on lists and numbers are structural.  Some loops of the source have no
    structural measure: [step_max] and [step_max_handle] take fuel, one unit per
    turn, and every turn either takes a step off the bound or ends; a fuel greater
    than the bound is enough ([step_max_handle_terminates], [step_max_bounded]).  The
    loop of the stepper ends within twice its bound and two turns
    ([stepper_max_is_single_steps]).
    The decoding of byte streams takes the length of the input.  Traversals of trees take
    twice the size of the tree.  Parsing a proof and hashing a partial state take fuel
    for the depth of vectors and the number of events of the queue, and [fuel_for]
    of a layout is enough for both ([proof_complete]).  A call of compiled code takes fuel for
    its instructions: three more than the code has are enough, as it has no loops
    ([compiled_code_refines_interpreted]).  [call_dispatch] takes two, for the call of the
    target and the call of what a compiler gives.

    ** Not modelled

    - Of the compiler: what Cranelift makes of a verified function.  Its machine code is the
      parameter [NativeCode], with the law that it does what the function means
      ([NativeLaws]); so are the encoding of instructions and of names ([JitCrates]).  The
      settings of the module and the release of its memory are left out.  The steps of two
      threads on a cell are taken one at a time; a run reads its block's cell once and
      writes it at most once, at a time when no request names it.
    - Floating-point arithmetic ([interpreter/float.rs], [rv64f.rs], [rv64d.rs]) is the
      [rustc_apfloat] crate; only the rounding modes and the decoding of these
      instructions are modelled, and [to_run] has no function for them.
    - Of the state backend: the typed wrappers of [region.rs], cloning, and the layout of
      the PVM written out; the theorems on proofs are for all layouts and programs.
    - Failures of the host's file system, other than missing and existing files.
    - Drivers: the node's interface, the sandbox, the benchmarks; and the device tree of
      [setup_boot], written by the [vm-fdt] crate.
    - Code outside the repository is a parameter: the parsed ELF file ([ElfBytes]),
      the constants, error codes and cryptography of the rollup ([TezosEnv]), BLAKE2b
      ([Blake2b], with digests of 32 bytes), bincode ([Serde], with the law that reading the
      encoding of a value gives it back) and range sets ([RangeSets]), the inbox and the
      names of preimages ([StepperEnv]), the names of hashes and the encoding of lists of
      hashes ([StorageEnv]). *)

From Stdlib Require Export ZArith Lia.
From stdpp Require Export base list option decidable list_numbers.
#[export] Set Default Goal Selector "!".
Open Scope Z_scope.

(** ** Machine integers

    A [w]-bit unsigned integer ([u8], [u16], [u32], [u64], [usize]) is a [Z] in
    [0 .. 2^w - 1]; a signed one ([i16], [i32], [i64]) is a [Z] in
    [-2^(w-1) .. 2^(w-1) - 1].  [wrap w z] is the cast [z as uw] and [sext w z]
    is the cast [z as iw], for any [Z]. *)
Definition wrap (w z : Z) : Z := z mod 2 ^ w.

Definition sext (w z : Z) : Z :=
  let u := wrap w z in if u <? 2 ^ (w - 1) then u else u - 2 ^ w.

Definition urange (w z : Z) : Prop := 0 <= z < 2 ^ w.
Definition srange (w z : Z) : Prop := - 2 ^ (w - 1) <= z < 2 ^ (w - 1).

Definition unsigned (w z : Z) : bool := (0 <=? z) && (z <? 2 ^ w).

(** The length of [vec![0; len]]; one beyond [isize::MAX] panics. *)
Definition zero_vec (len : Z) : option Z := if 2 ^ 63 <=? len then None else Some len.

(** Saturating arithmetic on [u64] and [usize]. *)
Definition usize_MAX : Z := 2 ^ 64 - 1.
Definition saturating_sub (a b : Z) : Z := Z.max 0 (a - b).
Definition saturating_add (a b : Z) : Z := Z.min usize_MAX (a + b).

(** The bit field [n] wide starting at bit [p]: the notation of the RISC-V
    manual's [x[p+n-1:p]]. *)
Definition field (p n z : Z) : Z := Z.land (Z.shiftr z p) (Z.ones n).

Declare Scope pvm_scope.
Delimit Scope pvm_scope with pvm.
Open Scope pvm_scope.

(** ** Fallible values: Rust's [Result] *)
Inductive result (A E : Type) : Type :=
| Ok (a : A)
| Err (e : E).
Arguments Ok {A E} a.
Arguments Err {A E} e.

#[export] Instance result_eq_dec `{EqDecision A, EqDecision E} : EqDecision (result A E).
Proof. solve_decision. Defined.

Definition result_map {A B E} (r : result A E) (f : A -> B) : result B E :=
  match r with Ok a => Ok (f a) | Err e => Err e end.

Definition result_bind {A B E} (r : result A E) (f : A -> result B E) : result B E :=
  match r with Ok a => f a | Err e => Err e end.

Definition result_map_err {A E F} (r : result A E) (f : E -> F) : result A F :=
  match r with Ok a => Ok a | Err e => Err (f e) end.

(** ** Code over a mutable state

    [M S A] is a Rust function that takes [&mut S] and returns an [A]: it
    returns the value and the new state, or [None] when the Rust code panics,
    indexes out of bounds or reads an invalid bit pattern. *)
Definition M (S A : Type) : Type := S -> option (A * S).

Definition mret {S A} (a : A) : M S A := fun s => Some (a, s).
Definition mpanic {S A} : M S A := fun _ => None.
Definition mbind {S A B} (m : M S A) (k : A -> M S B) : M S B :=
  fun s => match m s with Some (a, s') => k a s' | None => None end.
Definition mget {S A} (f : S -> A) : M S A := fun s => Some (f s, s).
Definition mput {S} (f : S -> S) : M S unit := fun s => Some (tt, f s).
(** A pure computation that may panic. *)
Definition mlift {S A} (o : option A) : M S A := fun s => match o with Some a => Some (a, s) | None => None end.

Notation "x <- m ;; k" := (mbind m (fun x => k))
  (at level 100, m at next level, right associativity) : pvm_scope.
Notation "m ;;; k" := (mbind m (fun _ => k))
  (at level 100, right associativity) : pvm_scope.

(** Rust's [?] on a fallible operation. *)
Definition try_bind {S A B E} (m : M S (result A E)) (k : A -> M S (result B E)) : M S (result B E) :=
  mbind m (fun r => match r with Ok a => k a | Err e => mret (Err e) end).
Notation "x <-? m ;; k" := (try_bind m (fun x => k))
  (at level 100, m at next level, right associativity) : pvm_scope.

(** ** Shared lemmas *)
Create HintDb pvm.
Create Rewrite HintDb pvm.

Lemma pow2_pos w : 0 <= w -> 0 < 2 ^ w.
Proof. intros; apply Z.pow_pos_nonneg; lia. Qed.

Lemma wrap_range w z : 0 <= w -> urange w (wrap w z).
Proof. intros; unfold urange, wrap; apply Z.mod_pos_bound, pow2_pos; lia. Qed.

Lemma wrap_small w z : urange w z -> wrap w z = z.
Proof. intros; unfold wrap; apply Z.mod_small; assumption. Qed.

Lemma wrap_wrap w z : 0 <= w -> wrap w (wrap w z) = wrap w z.
Proof. intros; apply wrap_small, wrap_range; lia. Qed.

Lemma pow2_half w : 0 < w -> 2 ^ w = 2 * 2 ^ (w - 1).
Proof. intros; rewrite <- Z.pow_succ_r by lia; f_equal; lia. Qed.

Lemma sext_range w z : 0 < w -> srange w (sext w z).
Proof.
  intros Hw. pose proof (wrap_range w z ltac:(lia)) as H; unfold urange in H.
  pose proof (pow2_half w Hw). unfold srange, sext.
  destruct (Z.ltb_spec (wrap w z) (2 ^ (w - 1))); lia.
Qed.

Lemma sext_small w z : 0 < w -> srange w z -> sext w z = z.
Proof.
  intros Hw H; unfold srange in H. pose proof (pow2_half w Hw).
  unfold sext, wrap. destruct (Z.ltb_spec z 0).
  - replace (z mod 2 ^ w) with (z + 2 ^ w).
    2: { apply (Z.mod_unique _ _ (-1)); lia. }
    destruct (Z.ltb_spec (z + 2 ^ w) (2 ^ (w - 1))); lia.
  - rewrite (Z.mod_small z) by lia.
    destruct (Z.ltb_spec z (2 ^ (w - 1))); lia.
Qed.

Lemma wrap_sext w z : 0 <= w -> wrap w (sext w z) = wrap w z.
Proof.
  intros Hw. pose proof (pow2_pos w Hw). unfold sext.
  destruct (_ <? _); [apply wrap_wrap; lia|].
  unfold wrap. rewrite Zminus_mod, Z.mod_mod, Z_mod_same_full, Z.sub_0_r, Z.mod_mod by lia.
  reflexivity.
Qed.

Lemma sext_wrap w z : 0 <= w -> sext w (wrap w z) = sext w z.
Proof. intros; unfold sext; rewrite wrap_wrap by lia; reflexivity. Qed.

Lemma sext_congr w a b : wrap w a = wrap w b -> sext w a = sext w b.
Proof. unfold sext; intros ->; reflexivity. Qed.

#[export] Hint Resolve wrap_range sext_range pow2_pos : pvm.

(** A property of every integer of a small range is checked by enumeration. *)
Lemma Forall_range (P : Z -> Prop) lo n : Forall P (seqZ lo n) -> forall z, lo <= z < lo + n -> P z.
Proof. intros H z Hz. rewrite list.Forall_forall in H. apply H, elem_of_seqZ. lia. Qed.

(** ** Shifts at a machine width

    A shift by at least the width of its operand panics in a debug build and
    masks the amount in a release build; [shl], [shr] and [sar] are the release
    behaviour, equal to the mathematical shift when the amount is in range. *)
Definition shl (w z n : Z) : Z := wrap w (Z.shiftl z (n mod w)).
Definition shr (w z n : Z) : Z := Z.shiftr z (n mod w).
Definition sar (w z n : Z) : Z := wrap w (Z.shiftr (sext w z) (n mod w)).

(** ** Bit extensionality *)
Lemma testbit_wrap w z i : 0 <= w -> 0 <= i ->
  Z.testbit (wrap w z) i = (i <? w) && Z.testbit z i.
Proof.
  intros Hw Hi; unfold wrap. destruct (Z.ltb_spec i w) as [H|H]; simpl.
  - apply Z.mod_pow2_bits_low; lia.
  - apply Z.mod_pow2_bits_high; lia.
Qed.

Lemma testbit_above w z i : 0 <= w <= i -> urange w z -> Z.testbit z i = false.
Proof.
  intros Hw Hz. rewrite <- (wrap_small w z Hz).
  rewrite testbit_wrap by lia. destruct (Z.ltb_spec i w); [lia|reflexivity].
Qed.

Lemma testbit_field p n z i : 0 <= p -> 0 <= n -> 0 <= i ->
  Z.testbit (field p n z) i = (i <? n) && Z.testbit z (i + p).
Proof.
  intros; unfold field. rewrite Z.land_spec, Z.shiftr_spec, Z.testbit_ones by lia.
  replace (0 <=? i) with true by (symmetry; apply Z.leb_le; lia).
  simpl. apply andb_comm.
Qed.

Lemma field_mod p n z : 0 <= n -> 0 <= p -> field p n z = (z / 2 ^ p) mod 2 ^ n.
Proof. intros; unfold field. rewrite Z.land_ones, Z.shiftr_div_pow2 by lia. reflexivity. Qed.

Lemma field_range p n z : 0 <= n -> urange n (field p n z).
Proof. intros; unfold field; rewrite Z.land_ones by lia. apply Z.mod_pos_bound, pow2_pos; lia. Qed.

Lemma field_wrap p n z : 0 <= n -> 0 <= p -> field p n z = wrap n (Z.shiftr z p).
Proof. intros; unfold field, wrap; rewrite Z.land_ones by lia; reflexivity. Qed.

(** The sign bit decides [sext]. *)
Lemma sext_testbit_sign w z : 0 < w ->
  sext w z = if Z.testbit z (w - 1) then wrap w z - 2 ^ w else wrap w z.
Proof.
  intros Hw. unfold sext.
  assert (Hs : Z.testbit z (w - 1) = negb (wrap w z <? 2 ^ (w - 1))).
  { replace (Z.testbit z (w - 1)) with (Z.testbit (wrap w z) (w - 1)).
    2: { rewrite testbit_wrap by lia. destruct (Z.ltb_spec (w - 1) w); [reflexivity|lia]. }
    pose proof (wrap_range w z ltac:(lia)) as Hr; unfold urange in Hr.
    pose proof (pow2_half w Hw) as Hp.
    rewrite Z.testbit_eqb by lia.
    destruct (Z.ltb_spec (wrap w z) (2 ^ (w - 1))).
    - rewrite Z.div_small by lia. reflexivity.
    - replace (wrap w z / 2 ^ (w - 1)) with 1; [reflexivity|].
      apply (Z.div_unique _ _ _ (wrap w z - 2 ^ (w - 1))); lia. }
  rewrite Hs. destruct (_ <? _); reflexivity.
Qed.

Lemma testbit_sext w z i : 0 < w -> 0 <= i ->
  Z.testbit (sext w z) i = Z.testbit z (if i <? w then i else w - 1).
Proof.
  intros Hw Hi.
  pose proof (pow2_pos w ltac:(lia)) as Hp.
  destruct (Z.ltb_spec i w) as [Hlt|Hge].
  - rewrite <- (andb_true_l (Z.testbit z i)).
    replace true with (i <? w) by (apply Z.ltb_lt; lia).
    rewrite <- testbit_wrap by lia. rewrite <- (wrap_sext w z) by lia.
    rewrite testbit_wrap by lia.
    destruct (Z.ltb_spec i w); [reflexivity|lia].
  - rewrite sext_testbit_sign by lia.
    destruct (Z.testbit z (w - 1)).
    + replace (wrap w z - 2 ^ w) with (Z.lnot (2 ^ w - 1 - wrap w z)) by (unfold Z.lnot; lia).
      rewrite Z.lnot_spec by lia.
      rewrite (testbit_above w) by (try lia; pose proof (wrap_range w z ltac:(lia)); unfold urange in *; lia).
      reflexivity.
    + apply (testbit_above w); [lia|]. apply wrap_range; lia.
Qed.

(** Masks that are contiguous runs of ones. *)
Lemma testbit_mask p n i : 0 <= p -> 0 <= n -> 0 <= i ->
  Z.testbit (Z.shiftl (Z.ones n) p) i = (p <=? i) && (i <? p + n).
Proof.
  intros. rewrite Z.shiftl_spec by lia.
  destruct (Z.leb_spec p i).
  - rewrite Z.testbit_ones by lia.
    destruct (Z.leb_spec 0 (i - p)), (Z.ltb_spec (i - p) n), (Z.ltb_spec i (p + n)); simpl; lia.
  - rewrite Z.testbit_neg_r by lia. reflexivity.
Qed.

(** [bitwise] proves equalities between bit expressions: it compares them bit by
    bit, rewrites each bit to a bit of a variable, and splits on the index. *)
Ltac bit_rw :=
  repeat first
    [ rewrite testbit_wrap by lia | rewrite testbit_field by lia
    | rewrite testbit_sext by lia | rewrite testbit_mask by lia
    | rewrite Z.land_spec | rewrite Z.lor_spec | rewrite Z.lxor_spec
    | rewrite Z.lnot_spec by lia
    | rewrite Z.shiftr_spec by lia | rewrite Z.shiftl_spec by lia
    | rewrite Z.bits_0 | rewrite Z.testbit_ones_nonneg by lia
    | rewrite Z.testbit_neg_r by lia ].

Ltac bit_split :=
  repeat match goal with
  | |- context [?a <? ?b] =>
      first [ replace (a <? b) with true by (symmetry; apply Z.ltb_lt; lia)
            | replace (a <? b) with false by (symmetry; apply Z.ltb_ge; lia)
            | destruct (Z.ltb_spec a b) ]
  | |- context [?a <=? ?b] =>
      first [ replace (a <=? b) with true by (symmetry; apply Z.leb_le; lia)
            | replace (a <=? b) with false by (symmetry; apply Z.leb_gt; lia)
            | destruct (Z.leb_spec a b) ]
  | _ => progress (rewrite ?andb_false_r, ?andb_true_r, ?andb_false_l, ?andb_true_l,
                     ?orb_false_r, ?orb_true_r, ?orb_false_l, ?orb_true_l)
  | |- context [Z.testbit ?z ?i] =>
      match i with
      | context [if _ then _ else _] => fail 1
      | _ => rewrite (Z.testbit_neg_r z i) by lia
      end
  end.

Ltac bit_finish :=
  try reflexivity;
  try solve [f_equal; lia | repeat f_equal; lia].

Ltac bitwise :=
  apply Z.bits_inj'; intros ?i ?Hi; bit_rw; bit_split; bit_rw; bit_split; bit_finish.

(** [bitwise] for nested shifts and sign extensions, whose indices may be negative. *)
Lemma testbit_shiftl_any a n i : 0 <= n -> Z.testbit (Z.shiftl a n) i = Z.testbit a (i - n).
Proof.
  intros Hn. destruct (Z.ltb_spec i 0).
  - rewrite !Z.testbit_neg_r by lia. reflexivity.
  - apply Z.shiftl_spec. lia.
Qed.
Lemma testbit_field_any p n z i : 0 <= p -> 0 <= n ->
  Z.testbit (field p n z) i = (0 <=? i) && ((i <? n) && Z.testbit z (i + p)).
Proof.
  intros. destruct (Z.leb_spec 0 i).
  - apply testbit_field; lia.
  - apply Z.testbit_neg_r. lia.
Qed.
Lemma testbit_sext_any w z i : 0 < w ->
  Z.testbit (sext w z) i = (0 <=? i) && Z.testbit z (if i <? w then i else w - 1).
Proof.
  intros. destruct (Z.leb_spec 0 i).
  - apply testbit_sext; lia.
  - apply Z.testbit_neg_r. lia.
Qed.

Ltac bit_step :=
  match goal with
  | |- context [Z.testbit (Z.shiftl _ _) _] => rewrite testbit_shiftl_any by lia
  | |- context [Z.testbit (field _ _ _) _] => rewrite testbit_field_any by lia
  | |- context [Z.testbit (sext _ _) _] => rewrite testbit_sext_any by lia
  end.
Ltac bitwise_deep :=
  apply Z.bits_inj'; intros ?i ?Hi;
  do 4 (bit_rw; repeat bit_step; bit_split); bit_finish.

(** Bit operations keep the width. *)
Lemma land_range w a b : 0 <= w -> urange w a -> urange w b -> urange w (Z.land a b).
Proof.
  intros Hw Ha Hb. rewrite <- (wrap_small w a), <- (wrap_small w b) by assumption.
  replace (Z.land (wrap w a) (wrap w b)) with (wrap w (Z.land a b)); [apply wrap_range; lia|].
  bitwise.
Qed.

Lemma lor_range w a b : 0 <= w -> urange w a -> urange w b -> urange w (Z.lor a b).
Proof.
  intros Hw Ha Hb. rewrite <- (wrap_small w a), <- (wrap_small w b) by assumption.
  replace (Z.lor (wrap w a) (wrap w b)) with (wrap w (Z.lor a b)); [apply wrap_range; lia|].
  bitwise.
Qed.

Lemma lxor_range w a b : 0 <= w -> urange w a -> urange w b -> urange w (Z.lxor a b).
Proof.
  intros Hw Ha Hb. rewrite <- (wrap_small w a), <- (wrap_small w b) by assumption.
  replace (Z.lxor (wrap w a) (wrap w b)) with (wrap w (Z.lxor a b)); [apply wrap_range; lia|].
  bitwise.
Qed.

(** ** What code leaves alone

    [keeps f m]: wherever [m] ends, [f] of the state is what it was. *)
Definition keeps {S A T} (f : S -> T) (m : M S A) : Prop := forall s a s', m s = Some (a, s') -> f s' = f s.

Section Keeps.
Context {S T : Type} (f : S -> T).
Lemma keeps_ret {A} (a : A) : keeps f (mret a).
Proof. intros s a' s' [= <- <-]. reflexivity. Qed.
Lemma keeps_panic {A} : keeps f (mpanic (A := A)).
Proof. intros s a s' [=]. Qed.
Lemma keeps_get {A} (g : S -> A) : keeps f (mget g).
Proof. intros s a s' [= <- <-]. reflexivity. Qed.
Lemma keeps_lift {A} (o : option A) : keeps f (mlift o).
Proof. intros s a s'. destruct o; [intros [= <- <-]; reflexivity | discriminate]. Qed.
Lemma keeps_put (g : S -> S) : (forall s, f (g s) = f s) -> keeps f (mput g).
Proof. intros Hg s a s' [= <- <-]. apply Hg. Qed.
Lemma keeps_bind {A B} (m : M S A) (k : A -> M S B) : keeps f m -> (forall a, keeps f (k a)) -> keeps f (mbind m k).
Proof.
  intros Hm Hk s b s'. unfold mbind. destruct (m s) as [[a s1]|] eqn:E; [|discriminate].
  intros E'. rewrite (Hk a _ _ _ E'). exact (Hm _ _ _ E).
Qed.
End Keeps.

Create HintDb keeps.
#[export] Hint Resolve keeps_ret keeps_panic keeps_get keeps_lift : keeps.

(** Goes through code built from the combinators, cases included. *)
Ltac keeps_step :=
  match goal with
  | |- forall _, _ => intro
  | |- keeps _ (mbind _ _) => apply keeps_bind
  | |- keeps _ (match ?x with _ => _ end) => destruct x
  | |- keeps _ (let '_ := ?x in _) => destruct x
  | |- keeps _ (mput _) => apply keeps_put; intros; reflexivity
  | |- keeps _ _ => solve [auto with keeps]
  end.
Ltac keeps := repeat keeps_step.
