(* ===== verification/Bits.v ===== *)
(** * Bit manipulation helpers

    Models [src/riscv/lib/src/bits.rs]: the functions that [bits_builtin!]
    generates for [u16] and [u64] (here parameterised by the width [w]), the
    [Bits64] conversions and [ones].  The [debug_assert!]s are the
    precondition [subset_ok]; outside it the definitions follow the release
    build. *)

From S2P Require Import Prelude.

Definition mask_subset (w start fin : Z) : Z :=
  let top := shl w 1 (1 + start - fin) in
  shl w (wrap w (top - 1)) fin.

Definition mask (w start fin : Z) : Z :=
  if (start =? w - 1) && (fin =? 0) then 2 ^ w - 1 else mask_subset w start fin.

Definition bit (w v b : Z) : bool := negb (Z.land (shr w v b) 1 =? 0).

Definition bits_subset (w v start fin : Z) : Z :=
  shr w (Z.land v (mask_subset w start fin)) fin.

(** [!mask] of an unsigned value. *)
Definition unot (w m : Z) : Z := wrap w (Z.lnot m).

Definition set_bit (w v b : Z) (value : bool) : Z :=
  let m := shl w 1 b in
  Z.lor (Z.land v (unot w m)) (shl w (if value then 1 else 0) b).

Definition replace_subset (w v start fin bits : Z) : Z :=
  let m := mask_subset w start fin in
  Z.lor (Z.land v (unot w m)) (Z.land (shl w bits fin) m).

(** [FixedWidthBits<WIDTH>]: [from_bits] and [to_bits] both keep the low
    [WIDTH] bits of a [u64]. *)
Definition fixed_width_from_bits (width value : Z) : Z := bits_subset 64 value (width - 1) 0.
Definition fixed_width_to_bits (width v : Z) : Z := bits_subset 64 v (width - 1) 0.

Definition ones (n : Z) : Z :=
  let sh_amt := Z.max 0 (64 - n) in
  if n =? 0 then 0 else shr 64 (2 ^ 64 - 1) sh_amt.

(** The preconditions the [debug_assert!]s of [mask_subset] check. *)
Definition subset_ok (w start fin : Z) : Prop :=
  0 <= fin /\ start < w /\ fin <= start /\ ~ (start = w - 1 /\ fin = 0).

(** ** Lemmas *)
Lemma shl_small w z n : 0 <= n < w -> shl w z n = wrap w (Z.shiftl z n).
Proof. intros; unfold shl; rewrite Z.mod_small by lia; reflexivity. Qed.

Lemma shr_small w z n : 0 <= n < w -> shr w z n = Z.shiftr z n.
Proof. intros; unfold shr; rewrite Z.mod_small by lia; reflexivity. Qed.

Lemma mask_subset_ones w start fin : subset_ok w start fin ->
  mask_subset w start fin = Z.shiftl (Z.ones (1 + start - fin)) fin.
Proof.
  intros (Hf & Hs & Hle & Hne). unfold mask_subset.
  rewrite (shl_small w 1) by lia. rewrite Z.shiftl_1_l.
  assert (Hlt : 2 ^ (1 + start - fin) < 2 ^ w) by (apply Z.pow_lt_mono_r; lia).
  pose proof (pow2_pos (1 + start - fin) ltac:(lia)).
  rewrite (wrap_small w (2 ^ _)) by (unfold urange; lia).
  rewrite wrap_small by (unfold urange; lia).
  rewrite shl_small by lia.
  replace (2 ^ (1 + start - fin) - 1) with (Z.ones (1 + start - fin))
    by (rewrite Z.ones_equiv; lia).
  bitwise.
Qed.

Lemma mask_subset_is_mask w start fin : subset_ok w start fin ->
  mask w start fin = mask_subset w start fin.
Proof.
  intros (?&?&?&Hne). unfold mask.
  destruct (Z.eqb_spec start (w - 1)), (Z.eqb_spec fin 0); simpl; try reflexivity.
  exfalso; apply Hne; split; assumption.
Qed.

(** [bits_subset] is the bit field the name promises. *)
Lemma bits_subset_field w v start fin : subset_ok w start fin ->
  bits_subset w v start fin = field fin (1 + start - fin) v.
Proof.
  intros H; pose proof H as (?&?&?&?). unfold bits_subset.
  rewrite mask_subset_ones, shr_small by (assumption || lia). bitwise.
Qed.

Lemma bit_testbit w v b : 0 <= b < w -> bit w v b = Z.testbit v b.
Proof.
  intros H. unfold bit. rewrite shr_small by lia.
  rewrite Z.testbit_eqb by lia. change 1 with (Z.ones 1) at 1.
  rewrite Z.land_ones, Z.shiftr_div_pow2 by lia. change (2 ^ 1) with 2.
  pose proof (Z.mod_pos_bound (v / 2 ^ b) 2 ltac:(lia)).
  destruct (Z.eqb_spec ((v / 2 ^ b) mod 2) 0), (Z.eqb_spec ((v / 2 ^ b) mod 2) 1); simpl; lia.
Qed.

Lemma replace_subset_same w v start fin bits : subset_ok w start fin -> urange w v ->
  bits_subset w (replace_subset w v start fin bits) start fin
  = wrap (1 + start - fin) bits.
Proof.
  intros H Hv; pose proof H as (?&?&?&?). rewrite bits_subset_field by assumption.
  unfold replace_subset, unot. rewrite mask_subset_ones, shl_small by (assumption || lia).
  bitwise.
Qed.

Lemma replace_subset_other w v start fin bits i : subset_ok w start fin -> urange w v ->
  0 <= i -> (i < fin \/ start < i) ->
  Z.testbit (replace_subset w v start fin bits) i = Z.testbit v i.
Proof.
  intros H Hv Hi Hout; pose proof H as (?&?&?&?).
  unfold replace_subset, unot. rewrite mask_subset_ones, shl_small by (assumption || lia).
  destruct (Z.ltb_spec i w).
  - bit_rw. bit_split; try lia; bit_finish.
  - rewrite (testbit_above w v) by (assumption || lia). bit_rw. bit_split; try lia; bit_finish.
Qed.

(** [set_bit] writes bit [b] and no other. *)
Lemma set_bit_testbit w v b value i : 0 <= b < w -> urange w v -> 0 <= i ->
  Z.testbit (set_bit w v b value) i = if i =? b then value else Z.testbit v i.
Proof.
  intros Hb Hv Hi. unfold set_bit, unot. rewrite !shl_small by lia.
  replace (Z.shiftl 1 b) with (Z.shiftl (Z.ones 1) b) by reflexivity.
  replace (Z.shiftl (if value then 1 else 0) b)
    with (if value then Z.shiftl (Z.ones 1) b else 0)
    by (destruct value; [reflexivity | symmetry; apply Z.shiftl_0_l]).
  destruct (Z.ltb_spec i w).
  2: rewrite (testbit_above w v i) by (assumption || lia).
  all: destruct (Z.eqb_spec i b), value; subst; bit_rw; bit_split; try lia; bit_finish.
Qed.

Lemma ones_is_ones n : 0 <= n <= 64 -> ones n = Z.ones n.
Proof.
  intros H. unfold ones. destruct (Z.eqb_spec n 0); [subst; reflexivity|].
  rewrite Z.max_r, shr_small by lia. change (2 ^ 64 - 1) with (Z.ones 64). bitwise.
Qed.
