(* ===== verification/Registers.v ===== *)
(** * Registers

    Models [src/riscv/lib/src/machine_state/registers.rs]: the register index
    enumerations with their [repr(u8)] representation, the register files, and
    the reservation set of [machine_state/reservation_set.rs].

    A register file is the array of its cells; reading or writing a cell out of
    the array's bounds is [None] (the Rust code panics). *)

From S2P Require Import Prelude.

(** ** Integer register indices *)
Inductive XRegister : Type :=
  | x0 | x1 | x2 | x3 | x4 | x5 | x6 | x7 | x8 | x9 | x10 | x11 | x12 | x13 | x14 | x15
  | x16 | x17 | x18 | x19 | x20 | x21 | x22 | x23 | x24 | x25 | x26 | x27 | x28 | x29
  | x30 | x31.

Module NZ.
Inductive NonZeroXRegister : Type :=
  | x1 | x2 | x3 | x4 | x5 | x6 | x7 | x8 | x9 | x10 | x11 | x12 | x13 | x14 | x15
  | x16 | x17 | x18 | x19 | x20 | x21 | x22 | x23 | x24 | x25 | x26 | x27 | x28 | x29
  | x30 | x31.
End NZ.
Notation NonZeroXRegister := NZ.NonZeroXRegister.

(** [reg as u8]: [x0] is [u8::MAX], [xk] is [k - 1]. *)
Definition xreg_repr (r : XRegister) : Z :=
  match r with
  | x0 => 255 | x1 => 0 | x2 => 1 | x3 => 2 | x4 => 3 | x5 => 4 | x6 => 5 | x7 => 6
  | x8 => 7 | x9 => 8 | x10 => 9 | x11 => 10 | x12 => 11 | x13 => 12 | x14 => 13
  | x15 => 14 | x16 => 15 | x17 => 16 | x18 => 17 | x19 => 18 | x20 => 19 | x21 => 20
  | x22 => 21 | x23 => 22 | x24 => 23 | x25 => 24 | x26 => 25 | x27 => 26 | x28 => 27
  | x29 => 28 | x30 => 29 | x31 => 30
  end.

Definition nz_repr (r : NonZeroXRegister) : Z :=
  match r with
  | NZ.x1 => 0 | NZ.x2 => 1 | NZ.x3 => 2 | NZ.x4 => 3 | NZ.x5 => 4 | NZ.x6 => 5
  | NZ.x7 => 6 | NZ.x8 => 7 | NZ.x9 => 8 | NZ.x10 => 9 | NZ.x11 => 10 | NZ.x12 => 11
  | NZ.x13 => 12 | NZ.x14 => 13 | NZ.x15 => 14 | NZ.x16 => 15 | NZ.x17 => 16
  | NZ.x18 => 17 | NZ.x19 => 18 | NZ.x20 => 19 | NZ.x21 => 20 | NZ.x22 => 21
  | NZ.x23 => 22 | NZ.x24 => 23 | NZ.x25 => 24 | NZ.x26 => 25 | NZ.x27 => 26
  | NZ.x28 => 27 | NZ.x29 => 28 | NZ.x30 => 29 | NZ.x31 => 30
  end.

(** [std::mem::transmute] of a byte: [None] where the byte is not a value of the
    enumeration, which is undefined behaviour in Rust. *)
Definition xreg_of_repr (b : Z) : option XRegister :=
  match b with
  | 255 => Some x0 | 0 => Some x1 | 1 => Some x2 | 2 => Some x3 | 3 => Some x4
  | 4 => Some x5 | 5 => Some x6 | 6 => Some x7 | 7 => Some x8 | 8 => Some x9
  | 9 => Some x10 | 10 => Some x11 | 11 => Some x12 | 12 => Some x13 | 13 => Some x14
  | 14 => Some x15 | 15 => Some x16 | 16 => Some x17 | 17 => Some x18 | 18 => Some x19
  | 19 => Some x20 | 20 => Some x21 | 21 => Some x22 | 22 => Some x23 | 23 => Some x24
  | 24 => Some x25 | 25 => Some x26 | 26 => Some x27 | 27 => Some x28 | 28 => Some x29
  | 29 => Some x30 | 30 => Some x31
  | _ => None
  end.

Definition nz_of_repr (b : Z) : option NonZeroXRegister :=
  match b with
  | 0 => Some NZ.x1 | 1 => Some NZ.x2 | 2 => Some NZ.x3 | 3 => Some NZ.x4
  | 4 => Some NZ.x5 | 5 => Some NZ.x6 | 6 => Some NZ.x7 | 7 => Some NZ.x8
  | 8 => Some NZ.x9 | 9 => Some NZ.x10 | 10 => Some NZ.x11 | 11 => Some NZ.x12
  | 12 => Some NZ.x13 | 13 => Some NZ.x14 | 14 => Some NZ.x15 | 15 => Some NZ.x16
  | 16 => Some NZ.x17 | 17 => Some NZ.x18 | 18 => Some NZ.x19 | 19 => Some NZ.x20
  | 20 => Some NZ.x21 | 21 => Some NZ.x22 | 22 => Some NZ.x23 | 23 => Some NZ.x24
  | 24 => Some NZ.x25 | 25 => Some NZ.x26 | 26 => Some NZ.x27 | 27 => Some NZ.x28
  | 28 => Some NZ.x29 | 29 => Some NZ.x30 | 30 => Some NZ.x31
  | _ => None
  end.

(** [parse_xregister], for a [u5]; the lemma [parse_xregister_defined] shows that
    the transmute is never out of the enumeration there. *)
Definition parse_xregister (r : Z) : XRegister :=
  default x0 (xreg_of_repr (wrap 8 (r - 1))).

Definition is_zero (r : XRegister) : bool := match r with x0 => true | _ => false end.

(** [impl From<NonZeroXRegister> for XRegister]. *)
Definition xreg_of_nz (r : NonZeroXRegister) : XRegister :=
  match r with
  | NZ.x1 => x1 | NZ.x2 => x2 | NZ.x3 => x3 | NZ.x4 => x4 | NZ.x5 => x5 | NZ.x6 => x6
  | NZ.x7 => x7 | NZ.x8 => x8 | NZ.x9 => x9 | NZ.x10 => x10 | NZ.x11 => x11
  | NZ.x12 => x12 | NZ.x13 => x13 | NZ.x14 => x14 | NZ.x15 => x15 | NZ.x16 => x16
  | NZ.x17 => x17 | NZ.x18 => x18 | NZ.x19 => x19 | NZ.x20 => x20 | NZ.x21 => x21
  | NZ.x22 => x22 | NZ.x23 => x23 | NZ.x24 => x24 | NZ.x25 => x25 | NZ.x26 => x26
  | NZ.x27 => x27 | NZ.x28 => x28 | NZ.x29 => x29 | NZ.x30 => x30 | NZ.x31 => x31
  end.

(** [NonZeroXRegister::assert_from]: [None] is the panic on [x0]. *)
Definition assert_from (r : XRegister) : option NonZeroXRegister :=
  match r with
  | x0 => None
  | r => nz_of_repr (xreg_repr r)
  end.

(** The architectural register number, 0 to 31. *)
Definition xreg_num (r : XRegister) : Z := (xreg_repr r + 1) mod 256.
Definition nz_num (r : NonZeroXRegister) : Z := nz_repr r + 1.

(** ** Floating-point register indices *)
Inductive FRegister : Type :=
  | f0 | f1 | f2 | f3 | f4 | f5 | f6 | f7 | f8 | f9 | f10 | f11 | f12 | f13 | f14 | f15
  | f16 | f17 | f18 | f19 | f20 | f21 | f22 | f23 | f24 | f25 | f26 | f27 | f28 | f29
  | f30 | f31.

Definition freg_repr (r : FRegister) : Z :=
  match r with
  | f0 => 0 | f1 => 1 | f2 => 2 | f3 => 3 | f4 => 4 | f5 => 5 | f6 => 6 | f7 => 7
  | f8 => 8 | f9 => 9 | f10 => 10 | f11 => 11 | f12 => 12 | f13 => 13 | f14 => 14
  | f15 => 15 | f16 => 16 | f17 => 17 | f18 => 18 | f19 => 19 | f20 => 20 | f21 => 21
  | f22 => 22 | f23 => 23 | f24 => 24 | f25 => 25 | f26 => 26 | f27 => 27 | f28 => 28
  | f29 => 29 | f30 => 30 | f31 => 31
  end.

Definition freg_of_repr (b : Z) : option FRegister :=
  match b with
  | 0 => Some f0 | 1 => Some f1 | 2 => Some f2 | 3 => Some f3 | 4 => Some f4
  | 5 => Some f5 | 6 => Some f6 | 7 => Some f7 | 8 => Some f8 | 9 => Some f9
  | 10 => Some f10 | 11 => Some f11 | 12 => Some f12 | 13 => Some f13 | 14 => Some f14
  | 15 => Some f15 | 16 => Some f16 | 17 => Some f17 | 18 => Some f18 | 19 => Some f19
  | 20 => Some f20 | 21 => Some f21 | 22 => Some f22 | 23 => Some f23 | 24 => Some f24
  | 25 => Some f25 | 26 => Some f26 | 27 => Some f27 | 28 => Some f28 | 29 => Some f29
  | 30 => Some f30 | 31 => Some f31
  | _ => None
  end.

Definition parse_fregister (r : Z) : FRegister := default f0 (freg_of_repr r).

(** ** Register files *)
Definition XRegisters : Type := list Z.
Definition FRegisters : Type := list Z.

(** [Cells::read] and [Cells::write]. *)
Definition cells_read (cells : list Z) (i : Z) : option Z :=
  if i <? 0 then None else cells !! Z.to_nat i.
Definition cells_write (cells : list Z) (i v : Z) : option (list Z) :=
  if (0 <=? i) && (i <? Z.of_nat (length cells)) then Some (<[Z.to_nat i := v]> cells) else None.

Definition xregisters_read (xs : XRegisters) (reg : XRegister) : option Z :=
  if is_zero reg then Some 0 else cells_read xs (xreg_repr reg).
Definition xregisters_write (xs : XRegisters) (reg : XRegister) (val : Z) : option XRegisters :=
  if is_zero reg then Some xs else cells_write xs (xreg_repr reg) val.
Definition xregisters_read_nz (xs : XRegisters) (reg : NonZeroXRegister) : option Z :=
  cells_read xs (nz_repr reg).
Definition xregisters_write_nz (xs : XRegisters) (reg : NonZeroXRegister) (val : Z)
  : option XRegisters := cells_write xs (nz_repr reg) val.

(** [XRegisters::reset] writes every one of the 31 cells. *)
Fixpoint cells_reset (n : nat) (cells : list Z) : list Z :=
  match n with O => cells | S n => <[n := 0]> (cells_reset n cells) end.
Definition xregisters_reset (xs : XRegisters) : XRegisters := cells_reset 31 xs.
Definition xregisters_new : XRegisters := replicate 31 0.

Definition fregisters_read (fs : FRegisters) (reg : FRegister) : option Z :=
  cells_read fs (freg_repr reg).
Definition fregisters_write (fs : FRegisters) (reg : FRegister) (val : Z) : option FRegisters :=
  cells_write fs (freg_repr reg) val.
Definition fregisters_reset (fs : FRegisters) : FRegisters := cells_reset 32 fs.
Definition fregisters_new : FRegisters := replicate 32 0.

(** ** Reservation set *)
Definition RES_SET_BITMASK : Z := wrap 64 (Z.lnot 7).
Definition UNSET_VALUE : Z := 2 ^ 64 - 1.

(** [ReservationSet]: its state is the cell [start_addr]. *)
Definition reservation_reset (start_addr : Z) : Z := UNSET_VALUE.
Definition reservation_set (start_addr addr : Z) : Z := Z.land addr RES_SET_BITMASK.
Definition reservation_test_and_unset (start_addr addr : Z) : bool * Z :=
  let old := start_addr in
  (negb (old =? UNSET_VALUE) && (old =? Z.land addr RES_SET_BITMASK),
   reservation_reset start_addr).

(** ** Lemmas *)

#[export] Instance XRegister_eq_dec : EqDecision XRegister.
Proof.
  intros a b. destruct (decide (xreg_repr a = xreg_repr b)) as [H|H].
  - left. apply (f_equal xreg_of_repr) in H. destruct a, b; cbn in H; congruence.
  - right; congruence.
Defined.
#[export] Instance NonZeroXRegister_eq_dec : EqDecision NonZeroXRegister.
Proof.
  intros a b. destruct (decide (nz_repr a = nz_repr b)) as [H|H].
  - left. apply (f_equal nz_of_repr) in H. destruct a, b; cbn in H; congruence.
  - right; congruence.
Defined.
#[export] Instance FRegister_eq_dec : EqDecision FRegister.
Proof.
  intros a b. destruct (decide (freg_repr a = freg_repr b)) as [H|H].
  - left. apply (f_equal freg_of_repr) in H. destruct a, b; cbn in H; congruence.
  - right; congruence.
Defined.

Lemma xreg_of_to_repr r : xreg_of_repr (xreg_repr r) = Some r.
Proof. destruct r; reflexivity. Qed.
Lemma nz_of_to_repr r : nz_of_repr (nz_repr r) = Some r.
Proof. destruct r; reflexivity. Qed.
Lemma freg_of_to_repr r : freg_of_repr (freg_repr r) = Some r.
Proof. destruct r; reflexivity. Qed.

#[export] Instance xreg_repr_inj : Inj (=) (=) xreg_repr.
Proof. intros a b H. apply (f_equal xreg_of_repr) in H. rewrite !xreg_of_to_repr in H. congruence. Qed.
#[export] Instance nz_repr_inj : Inj (=) (=) nz_repr.
Proof. intros a b H. apply (f_equal nz_of_repr) in H. rewrite !nz_of_to_repr in H. congruence. Qed.
#[export] Instance freg_repr_inj : Inj (=) (=) freg_repr.
Proof. intros a b H. apply (f_equal freg_of_repr) in H. rewrite !freg_of_to_repr in H. congruence. Qed.

(** The representation of a non-zero register is the same byte in both enums. *)
Lemma xreg_of_nz_repr r : xreg_repr (xreg_of_nz r) = nz_repr r.
Proof. destruct r; reflexivity. Qed.
Lemma xreg_of_nz_not_zero r : is_zero (xreg_of_nz r) = false.
Proof. destruct r; reflexivity. Qed.
Lemma nz_repr_range r : 0 <= nz_repr r < 31.
Proof. destruct r; cbn; lia. Qed.
Lemma xreg_repr_range r : r <> x0 -> 0 <= xreg_repr r < 31.
Proof. destruct r; cbn; intros; (congruence || lia). Qed.
Lemma freg_repr_range r : 0 <= freg_repr r < 32.
Proof. destruct r; cbn; lia. Qed.
Lemma is_zero_spec r : is_zero r = true <-> r = x0.
Proof. destruct r; cbn; split; congruence. Qed.
Lemma assert_from_nz r : assert_from (xreg_of_nz r) = Some r.
Proof. destruct r; reflexivity. Qed.
Lemma assert_from_spec r nz : assert_from r = Some nz <-> r = xreg_of_nz nz.
Proof. destruct r, nz; cbn; split; congruence. Qed.
#[export] Hint Rewrite xreg_of_to_repr nz_of_to_repr freg_of_to_repr
  xreg_of_nz_repr xreg_of_nz_not_zero assert_from_nz : pvm.

(** The [u5] argument of [parse_xregister] never leaves the enumeration. *)
Lemma parse_xregister_defined r : urange 5 r ->
  xreg_of_repr (wrap 8 (r - 1)) = Some (parse_xregister r) /\ xreg_num (parse_xregister r) = r.
Proof.
  intros H. refine (Forall_range (fun r => xreg_of_repr (wrap 8 (r - 1)) = Some (parse_xregister r)
                     /\ xreg_num (parse_xregister r) = r) 0 32 _ r H). repeat constructor.
Qed.
Lemma parse_xregister_num r : parse_xregister (xreg_num r) = r.
Proof. destruct r; reflexivity. Qed.
Lemma xreg_num_range r : urange 5 (xreg_num r).
Proof. unfold urange; destruct r; vm_compute; split; congruence. Qed.
Lemma xreg_num_of_nz r : xreg_num (xreg_of_nz r) = nz_num r.
Proof. destruct r; reflexivity. Qed.
Lemma parse_fregister_defined r : urange 5 r ->
  freg_of_repr r = Some (parse_fregister r) /\ freg_repr (parse_fregister r) = r.
Proof.
  intros H. refine (Forall_range (fun r => freg_of_repr r = Some (parse_fregister r)
                     /\ freg_repr (parse_fregister r) = r) 0 32 _ r H). repeat constructor.
Qed.
Lemma parse_fregister_num r : parse_fregister (freg_repr r) = r.
Proof. destruct r; reflexivity. Qed.

(** *** Well-formed register files *)
Definition cells_ok (n : nat) (cells : list Z) : Prop :=
  length cells = n /\ Forall (urange 64) cells.
Definition xregisters_ok : XRegisters -> Prop := cells_ok 31.
Definition fregisters_ok : FRegisters -> Prop := cells_ok 32.

Lemma cells_read_ok n cells i : cells_ok n cells -> 0 <= i < Z.of_nat n ->
  exists v, cells_read cells i = Some v /\ urange 64 v.
Proof.
  intros [Hlen Hall] Hi. unfold cells_read. rewrite (proj2 (Z.ltb_ge i 0)) by lia.
  destruct (lookup_lt_is_Some_2 cells (Z.to_nat i)) as [v Hv]; [lia|].
  exists v; split; [assumption|]. eapply Forall_lookup_1; eassumption.
Qed.

Lemma cells_write_ok n cells i v : cells_ok n cells -> 0 <= i < Z.of_nat n -> urange 64 v ->
  exists cells', cells_write cells i v = Some cells' /\ cells_ok n cells'
    /\ (forall j, cells_read cells' j = if j =? i then Some v else cells_read cells j).
Proof.
  intros [Hlen Hall] Hi Hv. unfold cells_write.
  rewrite (proj2 (Z.leb_le 0 i)), (proj2 (Z.ltb_lt i _)) by lia. cbn [andb].
  eexists; split; [reflexivity|]. split.
  - split; [rewrite length_insert; assumption | apply Forall_insert; assumption].
  - intros j. unfold cells_read. destruct (Z.ltb_spec j 0), (Z.eqb_spec j i); try lia; try reflexivity.
    + subst j. apply list_lookup_insert_eq. lia.
    + apply list_lookup_insert_ne. lia.
Qed.

Lemma xregisters_read_ok xs r : xregisters_ok xs ->
  exists v, xregisters_read xs r = Some v /\ urange 64 v.
Proof.
  intros H. unfold xregisters_read. destruct (is_zero r) eqn:Hz.
  - exists 0; split; [reflexivity | unfold urange; lia].
  - apply (cells_read_ok 31); [assumption|]. apply xreg_repr_range.
    intros ->; discriminate.
Qed.

(** Reading back: the register written holds the value, every other register
    keeps its own, and [x0] stays zero. *)
Lemma xregisters_write_ok xs r v : xregisters_ok xs -> urange 64 v ->
  exists xs', xregisters_write xs r v = Some xs' /\ xregisters_ok xs'
    /\ (forall q, xregisters_read xs' q
          = if decide (q = r /\ r <> x0) then Some v else xregisters_read xs q).
Proof.
  intros H Hv. unfold xregisters_write. destruct (is_zero r) eqn:Hz.
  - apply is_zero_spec in Hz; subst r. exists xs; split; [reflexivity|]. split; [assumption|].
    intros q. case_decide; [naive_solver | reflexivity].
  - assert (Hr : r <> x0) by (intros ->; discriminate).
    destruct (cells_write_ok 31 xs (xreg_repr r) v H (xreg_repr_range r Hr) Hv)
      as (xs' & Hw & Hok & Hread).
    exists xs'; split; [assumption|]. split; [assumption|]. intros q. unfold xregisters_read.
    destruct (is_zero q) eqn:Hq.
    { apply is_zero_spec in Hq; subst q. case_decide; [naive_solver | reflexivity]. }
    rewrite Hread. destruct (Z.eqb_spec (xreg_repr q) (xreg_repr r)) as [E|E]; case_decide as D.
    + reflexivity.
    + exfalso; apply D; split; [apply xreg_repr_inj; assumption | assumption].
    + destruct D; subst; congruence.
    + reflexivity.
Qed.

(** The unchecked accessors agree with the checked ones. *)
Lemma xregisters_read_nz_eq xs r : xregisters_read_nz xs r = xregisters_read xs (xreg_of_nz r).
Proof. unfold xregisters_read. rewrite xreg_of_nz_not_zero, xreg_of_nz_repr. reflexivity. Qed.
Lemma xregisters_write_nz_eq xs r v :
  xregisters_write_nz xs r v = xregisters_write xs (xreg_of_nz r) v.
Proof. unfold xregisters_write. rewrite xreg_of_nz_not_zero, xreg_of_nz_repr. reflexivity. Qed.

Lemma cells_reset_replicate n cells : (n <= length cells)%nat ->
  cells_reset n cells = replicate n 0 ++ drop n cells.
Proof.
  induction n as [|n IH]; intros Hn; [reflexivity|].
  cbn [cells_reset]. rewrite IH by lia.
  rewrite insert_app_r_alt by (rewrite length_replicate; lia).
  rewrite length_replicate, Nat.sub_diag.
  destruct (drop n cells) as [|c rest] eqn:E.
  { apply (f_equal length) in E. rewrite length_drop in E. cbn in E. lia. }
  replace (drop (S n) cells) with rest.
  2: { replace (S n) with (n + 1)%nat by lia. rewrite <- drop_drop, E. reflexivity. }
  cbn [list_insert insert]. rewrite replicate_S_end, <- app_assoc. reflexivity.
Qed.

Lemma xregisters_reset_new xs : xregisters_ok xs -> xregisters_reset xs = xregisters_new.
Proof.
  intros [Hl _]. unfold xregisters_reset. rewrite cells_reset_replicate, drop_ge, app_nil_r by lia.
  reflexivity.
Qed.
Lemma fregisters_reset_new fs : fregisters_ok fs -> fregisters_reset fs = fregisters_new.
Proof.
  intros [Hl _]. unfold fregisters_reset. rewrite cells_reset_replicate, drop_ge, app_nil_r by lia.
  reflexivity.
Qed.

(** A reservation on [a] is honoured at [b] exactly when both lie in the same
    aligned double word (and the reservation is not the reserved value). *)
Lemma reservation_test_spec s a b : urange 64 a -> urange 64 b ->
  reservation_test_and_unset (reservation_set s a) b
  = (Z.shiftr a 3 =? Z.shiftr b 3, UNSET_VALUE).
Proof.
  intros Ha Hb. unfold reservation_test_and_unset, reservation_set, reservation_reset. f_equal.
  assert (Hmask : forall z, urange 64 z -> Z.land z RES_SET_BITMASK = Z.shiftl (Z.shiftr z 3) 3).
  { intros z Hz. unfold RES_SET_BITMASK. change 7 with (Z.ones 3).
    apply Z.bits_inj'; intros i Hi. rewrite Z.land_spec, testbit_wrap by lia.
    assert (i < 3 \/ 3 <= i < 64 \/ 64 <= i) as [?|[?|?]] by lia.
    - bit_rw. bit_split. bit_finish.
    - bit_rw. bit_split. bit_finish.
    - rewrite (testbit_above 64 z) by (assumption || lia). bit_rw.
      replace (i - 3 + 3) with i by lia.
      rewrite (testbit_above 64 z) by (assumption || lia). reflexivity. }
  rewrite !Hmask by assumption. rewrite !Z.shiftl_mul_pow2 by lia. change (2 ^ 3) with 8.
  unfold UNSET_VALUE. destruct (Z.eqb_spec (Z.shiftr a 3 * 8) (2 ^ 64 - 1)); [lia|]. cbn [negb andb].
  destruct (Z.eqb_spec (Z.shiftr a 3) (Z.shiftr b 3)), (Z.eqb_spec (Z.shiftr a 3 * 8) (Z.shiftr b 3 * 8));
    lia || reflexivity.
Qed.
