(* ===== verification/Csr.v ===== *)
(** * Control and status registers

    Models [src/riscv/lib/src/machine_state/csregisters.rs] with its [root.rs]
    and [values.rs]: the CSR indices, their access rules and the CSR file, where
    [fflags] and [frm] are windows into [fcsr]. *)

From S2P Require Import Prelude.

Module Csrs.
Inductive CSRegister : Type :=
  | fflags | frm | fcsr | cycle | time | instret | hpmcounter3 | hpmcounter4
  | hpmcounter5 | hpmcounter6 | hpmcounter7 | hpmcounter8 | hpmcounter9 | hpmcounter10
  | hpmcounter11 | hpmcounter12 | hpmcounter13 | hpmcounter14 | hpmcounter15
  | hpmcounter16 | hpmcounter17 | hpmcounter18 | hpmcounter19 | hpmcounter20
  | hpmcounter21 | hpmcounter22 | hpmcounter23 | hpmcounter24 | hpmcounter25
  | hpmcounter26 | hpmcounter27 | hpmcounter28 | hpmcounter29 | hpmcounter30
  | hpmcounter31.
End Csrs.
Notation CSRegister := Csrs.CSRegister.

(** [self as usize]. *)
Definition csr_repr (r : CSRegister) : Z :=
  match r with
  | Csrs.fflags => 0x1 | Csrs.frm => 0x2 | Csrs.fcsr => 0x3 | Csrs.cycle => 0xC00
  | Csrs.time => 0xC01 | Csrs.instret => 0xC02 | Csrs.hpmcounter3 => 0xC03
  | Csrs.hpmcounter4 => 0xC04 | Csrs.hpmcounter5 => 0xC05 | Csrs.hpmcounter6 => 0xC06
  | Csrs.hpmcounter7 => 0xC07 | Csrs.hpmcounter8 => 0xC08 | Csrs.hpmcounter9 => 0xC09
  | Csrs.hpmcounter10 => 0xC0A | Csrs.hpmcounter11 => 0xC0B
  | Csrs.hpmcounter12 => 0xC0C | Csrs.hpmcounter13 => 0xC0D
  | Csrs.hpmcounter14 => 0xC0E | Csrs.hpmcounter15 => 0xC0F
  | Csrs.hpmcounter16 => 0xC10 | Csrs.hpmcounter17 => 0xC11
  | Csrs.hpmcounter18 => 0xC12 | Csrs.hpmcounter19 => 0xC13
  | Csrs.hpmcounter20 => 0xC14 | Csrs.hpmcounter21 => 0xC15
  | Csrs.hpmcounter22 => 0xC16 | Csrs.hpmcounter23 => 0xC17
  | Csrs.hpmcounter24 => 0xC18 | Csrs.hpmcounter25 => 0xC19
  | Csrs.hpmcounter26 => 0xC1A | Csrs.hpmcounter27 => 0xC1B
  | Csrs.hpmcounter28 => 0xC1C | Csrs.hpmcounter29 => 0xC1D
  | Csrs.hpmcounter30 => 0xC1E | Csrs.hpmcounter31 => 0xC1F
  end.

(** [CSRegister::try_parse]. *)
Definition try_parse (r : Z) : option CSRegister :=
  match r with
  | 0x1 => Some Csrs.fflags | 0x2 => Some Csrs.frm | 0x3 => Some Csrs.fcsr
  | 0xC00 => Some Csrs.cycle | 0xC01 => Some Csrs.time | 0xC02 => Some Csrs.instret
  | 0xC03 => Some Csrs.hpmcounter3 | 0xC04 => Some Csrs.hpmcounter4
  | 0xC05 => Some Csrs.hpmcounter5 | 0xC06 => Some Csrs.hpmcounter6
  | 0xC07 => Some Csrs.hpmcounter7 | 0xC08 => Some Csrs.hpmcounter8
  | 0xC09 => Some Csrs.hpmcounter9 | 0xC0A => Some Csrs.hpmcounter10
  | 0xC0B => Some Csrs.hpmcounter11 | 0xC0C => Some Csrs.hpmcounter12
  | 0xC0D => Some Csrs.hpmcounter13 | 0xC0E => Some Csrs.hpmcounter14
  | 0xC0F => Some Csrs.hpmcounter15 | 0xC10 => Some Csrs.hpmcounter16
  | 0xC11 => Some Csrs.hpmcounter17 | 0xC12 => Some Csrs.hpmcounter18
  | 0xC13 => Some Csrs.hpmcounter19 | 0xC14 => Some Csrs.hpmcounter20
  | 0xC15 => Some Csrs.hpmcounter21 | 0xC16 => Some Csrs.hpmcounter22
  | 0xC17 => Some Csrs.hpmcounter23 | 0xC18 => Some Csrs.hpmcounter24
  | 0xC19 => Some Csrs.hpmcounter25 | 0xC1A => Some Csrs.hpmcounter26
  | 0xC1B => Some Csrs.hpmcounter27 | 0xC1C => Some Csrs.hpmcounter28
  | 0xC1D => Some Csrs.hpmcounter29 | 0xC1E => Some Csrs.hpmcounter30
  | 0xC1F => Some Csrs.hpmcounter31
  | _ => None
  end.

Module Privileges.
Inductive Privilege : Type := Unprivileged | Supervisor | Hypervisor | Machine.
End Privileges.
Notation Privilege := Privileges.Privilege.

Definition in_ranges (z : Z) (l : list (Z * Z)) : bool :=
  existsb (fun '(lo, hi) => (lo <=? z) && (z <=? hi)) l.

(** [CSRegister::privilege]; [None] is the [unreachable!] branch. *)
Definition privilege (r : CSRegister) : option Privilege :=
  let n := csr_repr r in
  if in_ranges n [(0x000, 0x0FF); (0x400, 0x4FF); (0x800, 0x8FF); (0xC00, 0xC7F);
                  (0xC80, 0xCBF); (0xCC0, 0xCFF)] then Some Privileges.Unprivileged
  else if in_ranges n [(0x100, 0x1FF); (0x500, 0x57F); (0x580, 0x5BF); (0x5C0, 0x5FF);
                  (0x900, 0x97F); (0x980, 0x9BF); (0x9C0, 0x9FF); (0xD00, 0xD7F);
                  (0xD80, 0xDBF); (0xDC0, 0xDFF)] then Some Privileges.Supervisor
  else if in_ranges n [(0x200, 0x2FF); (0x600, 0x67F); (0x680, 0x6BF); (0x6C0, 0x6FF);
                  (0xA00, 0xA7F); (0xA80, 0xABF); (0xAC0, 0xAFF); (0xE00, 0xE7F);
                  (0xE80, 0xEBF); (0xEC0, 0xEFF)] then Some Privileges.Hypervisor
  else if in_ranges n [(0x300, 0x3FF); (0x700, 0x77F); (0x780, 0x79F); (0x7A0, 0x7AF);
                  (0x7B0, 0x7BF); (0x7C0, 0x7FF); (0xB00, 0xB7F); (0xB80, 0xBBF);
                  (0xBC0, 0xBFF); (0xF00, 0xF7F); (0xF80, 0xFBF); (0xFC0, 0xFFF)]
       then Some Privileges.Machine
  else None.

Definition is_read_only (r : CSRegister) : bool := Z.land (Z.shiftr (csr_repr r) 10) 3 =? 3.

Definition FRM_SHIFT : Z := 5.
Definition FRM_MASK : Z := Z.shiftl 7 FRM_SHIFT.
Definition FFLAGS_MASK : Z := 31.
Definition FCSR_MASK : Z := Z.lor FRM_MASK FFLAGS_MASK.
Definition WPRI_MASK_EMPTY : Z := 2 ^ 64 - 1.

Definition wpri_mask (r : CSRegister) : Z := WPRI_MASK_EMPTY.
Definition clear_wpri_fields (r : CSRegister) (new_value : Z) : Z := Z.land new_value (wpri_mask r).
Definition is_legal (r : CSRegister) (new_value : Z) : bool := true.
Definition transform_warl_fields (r : CSRegister) (new_value : Z) : option Z := Some new_value.

Definition make_value_writable (r : CSRegister) (value : Z) : option Z :=
  let value := clear_wpri_fields r value in
  match transform_warl_fields r value with
  | None => None
  | Some value => if is_legal r value then Some value else None
  end.

(** [default_value]: [fcsr] combines the defaults of [fflags] and [frm]. *)
Definition default_value (r : CSRegister) : Z :=
  match r with
  | Csrs.fflags => 0
  | Csrs.frm => 0
  | Csrs.fcsr => Z.land 0 (Z.shiftl 0 5)
  | _ => 0
  end.

(** [check_write]: [false] is [Err(Exception::IllegalInstruction)]. *)
Definition check_write (r : CSRegister) : bool := negb (is_read_only r).

(** ** Root registers and the CSR file *)
Module Roots.
Inductive RootCSRegister : Type :=
  | fcsr | cycle | time | instret | hpmcounter3 | hpmcounter4 | hpmcounter5
  | hpmcounter6 | hpmcounter7 | hpmcounter8 | hpmcounter9 | hpmcounter10 | hpmcounter11
  | hpmcounter12 | hpmcounter13 | hpmcounter14 | hpmcounter15 | hpmcounter16
  | hpmcounter17 | hpmcounter18 | hpmcounter19 | hpmcounter20 | hpmcounter21
  | hpmcounter22 | hpmcounter23 | hpmcounter24 | hpmcounter25 | hpmcounter26
  | hpmcounter27 | hpmcounter28 | hpmcounter29 | hpmcounter30 | hpmcounter31.
End Roots.
Notation RootCSRegister := Roots.RootCSRegister.

(** [impl From<CSRegister> for RootCSRegister]. *)
Definition root_of (r : CSRegister) : RootCSRegister :=
  match r with
  | Csrs.fflags => Roots.fcsr | Csrs.frm => Roots.fcsr | Csrs.fcsr => Roots.fcsr
  | Csrs.cycle => Roots.cycle | Csrs.time => Roots.time | Csrs.instret => Roots.instret
  | Csrs.hpmcounter3 => Roots.hpmcounter3 | Csrs.hpmcounter4 => Roots.hpmcounter4
  | Csrs.hpmcounter5 => Roots.hpmcounter5 | Csrs.hpmcounter6 => Roots.hpmcounter6
  | Csrs.hpmcounter7 => Roots.hpmcounter7 | Csrs.hpmcounter8 => Roots.hpmcounter8
  | Csrs.hpmcounter9 => Roots.hpmcounter9 | Csrs.hpmcounter10 => Roots.hpmcounter10
  | Csrs.hpmcounter11 => Roots.hpmcounter11 | Csrs.hpmcounter12 => Roots.hpmcounter12
  | Csrs.hpmcounter13 => Roots.hpmcounter13 | Csrs.hpmcounter14 => Roots.hpmcounter14
  | Csrs.hpmcounter15 => Roots.hpmcounter15 | Csrs.hpmcounter16 => Roots.hpmcounter16
  | Csrs.hpmcounter17 => Roots.hpmcounter17 | Csrs.hpmcounter18 => Roots.hpmcounter18
  | Csrs.hpmcounter19 => Roots.hpmcounter19 | Csrs.hpmcounter20 => Roots.hpmcounter20
  | Csrs.hpmcounter21 => Roots.hpmcounter21 | Csrs.hpmcounter22 => Roots.hpmcounter22
  | Csrs.hpmcounter23 => Roots.hpmcounter23 | Csrs.hpmcounter24 => Roots.hpmcounter24
  | Csrs.hpmcounter25 => Roots.hpmcounter25 | Csrs.hpmcounter26 => Roots.hpmcounter26
  | Csrs.hpmcounter27 => Roots.hpmcounter27 | Csrs.hpmcounter28 => Roots.hpmcounter28
  | Csrs.hpmcounter29 => Roots.hpmcounter29 | Csrs.hpmcounter30 => Roots.hpmcounter30
  | Csrs.hpmcounter31 => Roots.hpmcounter31
  end.

(** [CSRValuesF<CSRRepr>]: its 33 fields, in their order of declaration. *)
Definition CSRValues : Type := list Z.
Definition csr_field (r : RootCSRegister) : nat :=
  match r with
  | Roots.cycle => 0 | Roots.time => 1 | Roots.instret => 2 | Roots.hpmcounter3 => 3
  | Roots.hpmcounter4 => 4 | Roots.hpmcounter5 => 5 | Roots.hpmcounter6 => 6
  | Roots.hpmcounter7 => 7 | Roots.hpmcounter8 => 8 | Roots.hpmcounter9 => 9
  | Roots.hpmcounter10 => 10 | Roots.hpmcounter11 => 11 | Roots.hpmcounter12 => 12
  | Roots.hpmcounter13 => 13 | Roots.hpmcounter14 => 14 | Roots.hpmcounter15 => 15
  | Roots.hpmcounter16 => 16 | Roots.hpmcounter17 => 17 | Roots.hpmcounter18 => 18
  | Roots.hpmcounter19 => 19 | Roots.hpmcounter20 => 20 | Roots.hpmcounter21 => 21
  | Roots.hpmcounter22 => 22 | Roots.hpmcounter23 => 23 | Roots.hpmcounter24 => 24
  | Roots.hpmcounter25 => 25 | Roots.hpmcounter26 => 26 | Roots.hpmcounter27 => 27
  | Roots.hpmcounter28 => 28 | Roots.hpmcounter29 => 29 | Roots.hpmcounter30 => 30
  | Roots.hpmcounter31 => 31 | Roots.fcsr => 32
  end%nat.

(** [CSRValuesF::select_ref] and [select_mut]. *)
Definition select_ref (vs : CSRValues) (r : RootCSRegister) : Z := default 0 (vs !! csr_field r).
Definition select_mut (vs : CSRValues) (r : RootCSRegister) (v : Z) : CSRValues :=
  <[csr_field r := v]> vs.

(** [NoEffect] makes [handle_csr_effect] the identity. *)
Definition general_raw_read (vs : CSRValues) (r : RootCSRegister) : Z := select_ref vs r.
Definition general_raw_write (vs : CSRValues) (r : RootCSRegister) (v : Z) : CSRValues :=
  select_mut vs r v.
Definition general_raw_replace (vs : CSRValues) (r : RootCSRegister) (v : Z) : Z * CSRValues :=
  (select_ref vs r, select_mut vs r v).

Definition transform_write (vs : CSRValues) (r : CSRegister) (value : Z) : Z :=
  match r with
  | Csrs.fcsr => Z.land value FCSR_MASK
  | Csrs.frm =>
      let fcsr := select_ref vs Roots.fcsr in
      let fcsr := Z.land fcsr (wrap 64 (Z.lnot FRM_MASK)) in
      Z.lor (Z.land (shl 64 value FRM_SHIFT) FRM_MASK) fcsr
  | Csrs.fflags =>
      let fcsr := select_ref vs Roots.fcsr in
      let fcsr := Z.land fcsr (wrap 64 (Z.lnot FFLAGS_MASK)) in
      Z.lor (Z.land value FFLAGS_MASK) fcsr
  | _ => value
  end.

Definition transform_read (vs : CSRValues) (r : CSRegister) (source_reg_value : option Z) : Z :=
  let source_reg_value :=
    match source_reg_value with Some v => v | None => general_raw_read vs (root_of r) end in
  match r with
  | Csrs.fcsr => Z.land source_reg_value FCSR_MASK
  | Csrs.frm => Z.shiftr (Z.land source_reg_value FRM_MASK) FRM_SHIFT
  | Csrs.fflags => Z.land source_reg_value FFLAGS_MASK
  | _ => source_reg_value
  end.

(** [CSRegisters::write], [read], [replace], [set_bits] and [clear_bits], for
    values of type [CSRRepr] or [CSRValue] (both 64 bits wide). *)
Definition csr_write (vs : CSRValues) (r : CSRegister) (value : Z) : CSRValues :=
  match make_value_writable r value with
  | Some value =>
      let value := transform_write vs r value in
      general_raw_write vs (root_of r) value
  | None => vs
  end.

Definition csr_read (vs : CSRValues) (r : CSRegister) : Z := transform_read vs r None.

Definition csr_replace (vs : CSRValues) (r : CSRegister) (value : Z) : Z * CSRValues :=
  match make_value_writable r value with
  | Some value =>
      let value := transform_write vs r value in
      let '(old_value, vs') := general_raw_replace vs (root_of r) value in
      (transform_read vs' r (Some old_value), vs')
  | None => (csr_read vs r, vs)
  end.

Definition csr_set_bits (vs : CSRValues) (r : CSRegister) (bits : Z) : Z * CSRValues :=
  let old_value := csr_read vs r in
  let new_value := Z.lor old_value bits in
  (old_value, csr_write vs r new_value).

Definition csr_clear_bits (vs : CSRValues) (r : CSRegister) (bits : Z) : Z * CSRValues :=
  let old_value := csr_read vs r in
  let new_value := Z.land old_value (wrap 64 (Z.lnot bits)) in
  (old_value, csr_write vs r new_value).

(** [CSRegister::iter()]. *)
Definition all_csrs : list CSRegister :=
  [Csrs.fflags; Csrs.frm; Csrs.fcsr; Csrs.cycle; Csrs.time; Csrs.instret;
   Csrs.hpmcounter3; Csrs.hpmcounter4; Csrs.hpmcounter5; Csrs.hpmcounter6;
   Csrs.hpmcounter7; Csrs.hpmcounter8; Csrs.hpmcounter9; Csrs.hpmcounter10;
   Csrs.hpmcounter11; Csrs.hpmcounter12; Csrs.hpmcounter13; Csrs.hpmcounter14;
   Csrs.hpmcounter15; Csrs.hpmcounter16; Csrs.hpmcounter17; Csrs.hpmcounter18;
   Csrs.hpmcounter19; Csrs.hpmcounter20; Csrs.hpmcounter21; Csrs.hpmcounter22;
   Csrs.hpmcounter23; Csrs.hpmcounter24; Csrs.hpmcounter25; Csrs.hpmcounter26;
   Csrs.hpmcounter27; Csrs.hpmcounter28; Csrs.hpmcounter29; Csrs.hpmcounter30;
   Csrs.hpmcounter31].

Definition csregisters_reset (vs : CSRValues) : CSRValues :=
  fold_left (fun vs r => general_raw_write vs (root_of r) (default_value r)) all_csrs vs.
Definition csregisters_new : CSRValues := replicate 33 0.

(** ** Lemmas *)
Lemma try_parse_repr r : try_parse (csr_repr r) = Some r.
Proof. destruct r; reflexivity. Qed.

#[export] Instance csr_repr_inj : Inj (=) (=) csr_repr.
Proof. intros a b H. apply (f_equal try_parse) in H. rewrite !try_parse_repr in H. congruence. Qed.
#[export] Instance CSRegister_eq_dec : EqDecision CSRegister.
Proof.
  intros a b. destruct (decide (csr_repr a = csr_repr b)) as [H|H].
  - left. apply (f_equal try_parse) in H. destruct a, b; cbn in H; congruence.
  - right; congruence.
Defined.

(** [try_parse] accepts exactly the indices of the enumeration. *)
Lemma try_parse_spec z r : urange 12 z -> try_parse z = Some r <-> csr_repr r = z.
Proof.
  intros Hz. split.
  - revert r. refine (Forall_range
      (fun z => forall r, try_parse z = Some r -> csr_repr r = z) 0 4096 _ z Hz).
    rewrite list.Forall_forall. intros y _ r.
    unfold try_parse. repeat case_match; intros [= <-]; reflexivity.
  - intros <-. apply try_parse_repr.
Qed.

(** No CSR of the machine needs a privilege, and [privilege] never panics. *)
Lemma privilege_unprivileged r : privilege r = Some Privileges.Unprivileged.
Proof. destruct r; reflexivity. Qed.
(** Only the floating-point CSRs are writable. *)
Lemma check_write_fp r : check_write r = true <-> root_of r = Roots.fcsr.
Proof. destruct r; vm_compute; split; congruence. Qed.

Definition csregisters_ok (vs : CSRValues) : Prop := length vs = 33%nat /\ Forall (urange 64) vs.

Lemma csr_field_lt r : (csr_field r < 33)%nat.
Proof. destruct r; cbn; lia. Qed.

Lemma select_ref_mut vs r q v : length vs = 33%nat ->
  select_ref (select_mut vs r v) q = if decide (csr_field q = csr_field r) then v else select_ref vs q.
Proof.
  intros Hl. unfold select_ref, select_mut, CSRValues in *. case_decide as E.
  - rewrite E, list_lookup_insert_eq; [reflexivity|]. rewrite Hl. apply csr_field_lt.
  - rewrite list_lookup_insert_ne by congruence. reflexivity.
Qed.

Lemma select_ref_range vs r : csregisters_ok vs -> urange 64 (select_ref vs r).
Proof.
  intros [Hl Hall]. unfold select_ref, CSRValues in *.
  destruct (lookup_lt_is_Some_2 vs (csr_field r)) as [v Hv]; [rewrite Hl; apply csr_field_lt|].
  rewrite Hv. cbn. eapply Forall_lookup_1; eassumption.
Qed.

Lemma make_value_writable_id r v : urange 64 v -> make_value_writable r v = Some v.
Proof.
  intros H. unfold make_value_writable, clear_wpri_fields, wpri_mask, WPRI_MASK_EMPTY. cbn -[Z.pow].
  f_equal. change (2 ^ 64 - 1) with (Z.ones 64). rewrite Z.land_ones by lia. apply wrap_small, H.
Qed.

(** The three floating-point CSRs as fields of [fcsr]. *)
Lemma csr_read_fcsr vs : csr_read vs Csrs.fcsr = field 0 8 (select_ref vs Roots.fcsr).
Proof. reflexivity. Qed.
Lemma csr_read_frm vs : csr_read vs Csrs.frm = field 5 3 (select_ref vs Roots.fcsr).
Proof.
  unfold csr_read, transform_read, general_raw_read, root_of.
  change FRM_MASK with (Z.shiftl (Z.ones 3) 5). change FRM_SHIFT with 5. bitwise.
Qed.
Lemma csr_read_fflags vs : csr_read vs Csrs.fflags = field 0 5 (select_ref vs Roots.fcsr).
Proof. reflexivity. Qed.

Lemma csr_write_select vs r v : urange 64 v ->
  csr_write vs r v = select_mut vs (root_of r) (transform_write vs r v).
Proof. intros H. unfold csr_write. rewrite make_value_writable_id by assumption. reflexivity. Qed.

Lemma transform_write_field vs r v : csregisters_ok vs -> urange 64 v ->
  transform_write vs r v =
    match r with
    | Csrs.fcsr => field 0 8 v
    | Csrs.frm => let old := select_ref vs Roots.fcsr in
        Z.lor (Z.shiftl (field 0 3 v) 5) (Z.lor (field 0 5 old) (Z.shiftl (field 8 56 old) 8))
    | Csrs.fflags => Z.lor (field 0 5 v) (Z.shiftl (field 5 59 (select_ref vs Roots.fcsr)) 5)
    | _ => v
    end.
Proof.
  intros Hok Hv. pose proof (select_ref_range vs Roots.fcsr Hok) as Hr.
  destruct r; try reflexivity; cbv zeta; unfold transform_write, shl;
    change (FRM_SHIFT mod 64) with 5; change FRM_MASK with (Z.shiftl (Z.ones 3) 5);
    change FFLAGS_MASK with (Z.ones 5); apply Z.bits_inj'; intros i Hi;
    (assert (i < 64 \/ 64 <= i) as [?|?] by lia;
     [| rewrite ?Z.lor_spec, ?Z.land_spec, ?testbit_wrap by lia;
        rewrite ?(testbit_above 64 (select_ref _ _) i), ?(testbit_above 64 v i) by (assumption || lia)]).
  all: bit_rw; bit_split; bit_rw; bit_split; bit_finish.
Qed.
