(* ===== verification/Instr.v ===== *)
(** * Instruction data

    Models [src/riscv/lib/src/parser/instruction.rs]: the arguments of each
    instruction format, the decoded instructions and their width.  An [i64]
    immediate is a [Z] in the signed 64-bit range.  The fields of the argument
    structs carry a prefix per struct ([r_rd] is [RTypeArgs::rd]). *)

From S2P Require Import Prelude.
From S2P Require Import Registers.
From S2P Require Import Csr.

(** [XRegisterParsed] of [parser.rs]: whether a register field is [x0]. *)
Inductive XRegisterParsed : Type :=
| X0
| NonZero (r : NonZeroXRegister).

(** [RoundingMode] of [interpreter/float.rs]. *)
Inductive RoundingMode : Type := RNE | RTZ | RDN | RUP | RMM.

(** [RoundingMode::from_csrrepr]; [None] is the illegal instruction exception. *)
Definition from_csrrepr (value : Z) : option RoundingMode :=
  match value with
  | 0 => Some RNE | 1 => Some RTZ | 2 => Some RDN | 3 => Some RUP | 4 => Some RMM
  | _ => None
  end.

Inductive InstrRoundingMode : Type := Dynamic | Static (rm : RoundingMode).

Definition from_rm (rm : Z) : option InstrRoundingMode :=
  if rm =? 7 then Some Dynamic
  else match from_csrrepr rm with Some rm => Some (Static rm) | None => None end.

(** ** Arguments of each instruction format *)
Record RTypeArgs : Type := mkRTypeArgs
  { r_rd : XRegister; r_rs1 : XRegister; r_rs2 : XRegister }.
Record NonZeroRdRTypeArgs : Type := mkNonZeroRdRTypeArgs
  { nzr_rd : NonZeroXRegister; nzr_rs1 : XRegister; nzr_rs2 : XRegister }.
Record ITypeArgs : Type := mkITypeArgs
  { it_rd : XRegister; it_rs1 : XRegister; it_imm : Z }.
Record NonZeroITypeArgs : Type := mkNonZeroITypeArgs
  { nzi_rd : NonZeroXRegister; nzi_rs1 : NonZeroXRegister; nzi_imm : Z }.
Record SplitITypeArgs : Type := mkSplitITypeArgs
  { si_rd : XRegisterParsed; si_rs1 : XRegisterParsed; si_imm : Z }.
Record NonZeroRdITypeArgs : Type := mkNonZeroRdITypeArgs
  { nzri_rd : NonZeroXRegister; nzri_rs1 : XRegister; nzri_imm : Z }.
Record SBTypeArgs : Type := mkSBTypeArgs
  { sb_rs1 : XRegister; sb_rs2 : XRegister; sb_imm : Z }.
Record NonZeroSBTypeArgs : Type := mkNonZeroSBTypeArgs
  { nzsb_rs1 : NonZeroXRegister; nzsb_rs2 : NonZeroXRegister; nzsb_imm : Z }.
Record UJTypeArgs : Type := mkUJTypeArgs
  { uj_rd : XRegister; uj_imm : Z }.
Record NonZeroRdUJTypeArgs : Type := mkNonZeroRdUJTypeArgs
  { nzuj_rd : NonZeroXRegister; nzuj_imm : Z }.
Record CsrArgs : Type := mkCsrArgs
  { csr_rd : XRegister; csr_rs1 : XRegister; csr_csr : CSRegister }.
Record CsriArgs : Type := mkCsriArgs
  { csri_rd : XRegister; csri_imm : Z; csri_csr : CSRegister }.
Record FenceSet : Type := mkFenceSet
  { fs_i : bool; fs_o : bool; fs_r : bool; fs_w : bool }.
Record FenceArgs : Type := mkFenceArgs
  { fence_pred : FenceSet; fence_succ : FenceSet }.
Record FRegToXRegArgs : Type := mkFRegToXRegArgs
  { fx_rd : XRegister; fx_rs1 : FRegister }.
Record XRegToFRegArgs : Type := mkXRegToFRegArgs
  { xf_rd : FRegister; xf_rs1 : XRegister }.
Record XRegToFRegArgsWithRounding : Type := mkXRegToFRegArgsWithRounding
  { xfr_rd : FRegister; xfr_rs1 : XRegister; xfr_rm : InstrRoundingMode }.
Record FRegToXRegArgsWithRounding : Type := mkFRegToXRegArgsWithRounding
  { fxr_rd : XRegister; fxr_rs1 : FRegister; fxr_rm : InstrRoundingMode }.
Record FCmpArgs : Type := mkFCmpArgs
  { fcmp_rs1 : FRegister; fcmp_rs2 : FRegister; fcmp_rd : XRegister }.
Record FRArgs : Type := mkFRArgs
  { fr_rs1 : FRegister; fr_rs2 : FRegister; fr_rd : FRegister }.
Record FR1ArgWithRounding : Type := mkFR1ArgWithRounding
  { fr1_rs1 : FRegister; fr1_rm : InstrRoundingMode; fr1_rd : FRegister }.
Record FR2ArgsWithRounding : Type := mkFR2ArgsWithRounding
  { fr2_rs1 : FRegister; fr2_rs2 : FRegister; fr2_rm : InstrRoundingMode; fr2_rd : FRegister }.
Record FR3ArgsWithRounding : Type := mkFR3ArgsWithRounding
  { fr3_rs1 : FRegister; fr3_rs2 : FRegister; fr3_rs3 : FRegister; fr3_rm : InstrRoundingMode; fr3_rd : FRegister }.
Record FStoreArgs : Type := mkFStoreArgs
  { fst_rs1 : XRegister; fst_rs2 : FRegister; fst_imm : Z }.
Record FLoadArgs : Type := mkFLoadArgs
  { fld_rs1 : XRegister; fld_rd : FRegister; fld_imm : Z }.
Record AmoArgs : Type := mkAmoArgs
  { amo_rd : XRegister; amo_rs1 : XRegister; amo_rs2 : XRegister; amo_aq : bool; amo_rl : bool }.
Record CRTypeArgs : Type := mkCRTypeArgs
  { cr_rd_rs1 : XRegister; cr_rs2 : XRegister }.
Record CNZRTypeArgs : Type := mkCNZRTypeArgs
  { cnzr_rd_rs1 : NonZeroXRegister; cnzr_rs2 : NonZeroXRegister }.
Record CRJTypeArgs : Type := mkCRJTypeArgs
  { crj_rs1 : NonZeroXRegister }.
Record CJTypeArgs : Type := mkCJTypeArgs
  { cjt_imm : Z }.
Record CIBTypeArgs : Type := mkCIBTypeArgs
  { cib_rd_rs1 : XRegister; cib_imm : Z }.
Record CIBNZTypeArgs : Type := mkCIBNZTypeArgs
  { cibnz_rd_rs1 : NonZeroXRegister; cibnz_imm : Z }.
Record CIBDTypeArgs : Type := mkCIBDTypeArgs
  { cibd_rd_rs1 : FRegister; cibd_imm : Z }.
Record CSSTypeArgs : Type := mkCSSTypeArgs
  { css_rs2 : XRegister; css_imm : Z }.
Record CSSDTypeArgs : Type := mkCSSDTypeArgs
  { cssd_rs2 : FRegister; cssd_imm : Z }.

(** ** Decoded instructions *)
Module Instrs.
Inductive InstrCacheable : Type :=
| Add (args : NonZeroRdRTypeArgs)
| Sub (args : NonZeroRdRTypeArgs)
| Xor (args : NonZeroRdRTypeArgs)
| Or (args : NonZeroRdRTypeArgs)
| And (args : NonZeroRdRTypeArgs)
| Sll (args : NonZeroRdRTypeArgs)
| Srl (args : NonZeroRdRTypeArgs)
| Sra (args : NonZeroRdRTypeArgs)
| Slt (args : NonZeroRdRTypeArgs)
| Sltu (args : NonZeroRdRTypeArgs)
| Addw (args : NonZeroRdRTypeArgs)
| Subw (args : NonZeroRdRTypeArgs)
| Sllw (args : NonZeroRdRTypeArgs)
| Srlw (args : NonZeroRdRTypeArgs)
| Sraw (args : NonZeroRdRTypeArgs)
| Addi (args : SplitITypeArgs)
| Addiw (args : NonZeroRdITypeArgs)
| Xori (args : NonZeroRdITypeArgs)
| Ori (args : NonZeroRdITypeArgs)
| Andi (args : NonZeroRdITypeArgs)
| Slli (args : NonZeroRdITypeArgs)
| Srli (args : NonZeroRdITypeArgs)
| Srai (args : NonZeroRdITypeArgs)
| Slliw (args : NonZeroRdITypeArgs)
| Srliw (args : NonZeroRdITypeArgs)
| Sraiw (args : NonZeroRdITypeArgs)
| Slti (args : NonZeroRdITypeArgs)
| Sltiu (args : NonZeroRdITypeArgs)
| Lb (args : ITypeArgs)
| Lh (args : ITypeArgs)
| Lw (args : ITypeArgs)
| Lbu (args : ITypeArgs)
| Lhu (args : ITypeArgs)
| Lwu (args : ITypeArgs)
| Ld (args : ITypeArgs)
| Sb (args : SBTypeArgs)
| Sh (args : SBTypeArgs)
| Sw (args : SBTypeArgs)
| Sd (args : SBTypeArgs)
| Beq (args : SBTypeArgs)
| Bne (args : SBTypeArgs)
| Blt (args : SBTypeArgs)
| Bge (args : SBTypeArgs)
| Bltu (args : SBTypeArgs)
| Bgeu (args : SBTypeArgs)
| Lui (args : NonZeroRdUJTypeArgs)
| Auipc (args : NonZeroRdUJTypeArgs)
| Jal (args : UJTypeArgs)
| Jalr (args : ITypeArgs)
| Lrw (args : AmoArgs)
| Scw (args : AmoArgs)
| Amoswapw (args : AmoArgs)
| Amoaddw (args : AmoArgs)
| Amoxorw (args : AmoArgs)
| Amoandw (args : AmoArgs)
| Amoorw (args : AmoArgs)
| Amominw (args : AmoArgs)
| Amomaxw (args : AmoArgs)
| Amominuw (args : AmoArgs)
| Amomaxuw (args : AmoArgs)
| Lrd (args : AmoArgs)
| Scd (args : AmoArgs)
| Amoswapd (args : AmoArgs)
| Amoaddd (args : AmoArgs)
| Amoxord (args : AmoArgs)
| Amoandd (args : AmoArgs)
| Amoord (args : AmoArgs)
| Amomind (args : AmoArgs)
| Amomaxd (args : AmoArgs)
| Amominud (args : AmoArgs)
| Amomaxud (args : AmoArgs)
| Rem (args : RTypeArgs)
| Remu (args : RTypeArgs)
| Remw (args : RTypeArgs)
| Remuw (args : RTypeArgs)
| Div (args : RTypeArgs)
| Divu (args : RTypeArgs)
| Divw (args : RTypeArgs)
| Divuw (args : RTypeArgs)
| Mul (args : RTypeArgs)
| Mulh (args : RTypeArgs)
| Mulhsu (args : RTypeArgs)
| Mulhu (args : RTypeArgs)
| Mulw (args : RTypeArgs)
| FclassS (args : FRegToXRegArgs)
| Feqs (args : FCmpArgs)
| Fles (args : FCmpArgs)
| Flts (args : FCmpArgs)
| Fadds (args : FR2ArgsWithRounding)
| Fsubs (args : FR2ArgsWithRounding)
| Fmuls (args : FR2ArgsWithRounding)
| Fdivs (args : FR2ArgsWithRounding)
| Fsqrts (args : FR1ArgWithRounding)
| Fmins (args : FRArgs)
| Fmaxs (args : FRArgs)
| Fmadds (args : FR3ArgsWithRounding)
| Fmsubs (args : FR3ArgsWithRounding)
| Fnmsubs (args : FR3ArgsWithRounding)
| Fnmadds (args : FR3ArgsWithRounding)
| Flw (args : FLoadArgs)
| Fsw (args : FStoreArgs)
| Fcvtsw (args : XRegToFRegArgsWithRounding)
| Fcvtswu (args : XRegToFRegArgsWithRounding)
| Fcvtsl (args : XRegToFRegArgsWithRounding)
| Fcvtslu (args : XRegToFRegArgsWithRounding)
| Fcvtws (args : FRegToXRegArgsWithRounding)
| Fcvtwus (args : FRegToXRegArgsWithRounding)
| Fcvtls (args : FRegToXRegArgsWithRounding)
| Fcvtlus (args : FRegToXRegArgsWithRounding)
| Fsgnjs (args : FRArgs)
| Fsgnjns (args : FRArgs)
| Fsgnjxs (args : FRArgs)
| FmvXW (args : FRegToXRegArgs)
| FmvWX (args : XRegToFRegArgs)
| FclassD (args : FRegToXRegArgs)
| Feqd (args : FCmpArgs)
| Fled (args : FCmpArgs)
| Fltd (args : FCmpArgs)
| Faddd (args : FR2ArgsWithRounding)
| Fsubd (args : FR2ArgsWithRounding)
| Fmuld (args : FR2ArgsWithRounding)
| Fdivd (args : FR2ArgsWithRounding)
| Fsqrtd (args : FR1ArgWithRounding)
| Fmind (args : FRArgs)
| Fmaxd (args : FRArgs)
| Fmaddd (args : FR3ArgsWithRounding)
| Fmsubd (args : FR3ArgsWithRounding)
| Fnmsubd (args : FR3ArgsWithRounding)
| Fnmaddd (args : FR3ArgsWithRounding)
| Fld (args : FLoadArgs)
| Fsd (args : FStoreArgs)
| Fcvtdw (args : XRegToFRegArgsWithRounding)
| Fcvtdwu (args : XRegToFRegArgsWithRounding)
| Fcvtdl (args : XRegToFRegArgsWithRounding)
| Fcvtdlu (args : XRegToFRegArgsWithRounding)
| Fcvtds (args : FR1ArgWithRounding)
| Fcvtsd (args : FR1ArgWithRounding)
| Fcvtwd (args : FRegToXRegArgsWithRounding)
| Fcvtwud (args : FRegToXRegArgsWithRounding)
| Fcvtld (args : FRegToXRegArgsWithRounding)
| Fcvtlud (args : FRegToXRegArgsWithRounding)
| Fsgnjd (args : FRArgs)
| Fsgnjnd (args : FRArgs)
| Fsgnjxd (args : FRArgs)
| FmvXD (args : FRegToXRegArgs)
| FmvDX (args : XRegToFRegArgs)
| Csrrw (args : CsrArgs)
| Csrrs (args : CsrArgs)
| Csrrc (args : CsrArgs)
| Csrrwi (args : CsriArgs)
| Csrrsi (args : CsriArgs)
| Csrrci (args : CsriArgs)
| CLw (args : NonZeroITypeArgs)
| CLwsp (args : CIBNZTypeArgs)
| CSw (args : NonZeroSBTypeArgs)
| CSwsp (args : CSSTypeArgs)
| CJ (args : CJTypeArgs)
| CJr (args : CRJTypeArgs)
| CJalr (args : CRJTypeArgs)
| CBeqz (args : CIBTypeArgs)
| CBnez (args : CIBTypeArgs)
| CLi (args : CIBNZTypeArgs)
| CLui (args : CIBNZTypeArgs)
| CAddi (args : CIBNZTypeArgs)
| CAddi16sp (args : CJTypeArgs)
| CAddi4spn (args : CIBTypeArgs)
| CSlli (args : CIBNZTypeArgs)
| CSrli (args : CIBTypeArgs)
| CSrai (args : CIBTypeArgs)
| CAndi (args : CIBTypeArgs)
| CMv (args : CNZRTypeArgs)
| CAdd (args : CNZRTypeArgs)
| CAnd (args : CRTypeArgs)
| COr (args : CRTypeArgs)
| CXor (args : CRTypeArgs)
| CSub (args : CRTypeArgs)
| CAddw (args : CRTypeArgs)
| CSubw (args : CRTypeArgs)
| CNop
| CLd (args : NonZeroITypeArgs)
| CLdsp (args : CIBNZTypeArgs)
| CSd (args : NonZeroSBTypeArgs)
| CSdsp (args : CSSTypeArgs)
| CAddiw (args : CIBNZTypeArgs)
| CFld (args : FLoadArgs)
| CFldsp (args : CIBDTypeArgs)
| CFsd (args : FStoreArgs)
| CFsdsp (args : CSSDTypeArgs)
| Unknown (instr : Z)
| UnknownCompressed (instr : Z)
| Hint (instr : Z)
| HintCompressed (instr : Z)
| Wfi
| Ecall.

Inductive InstrUncacheable : Type :=
| Fence (args : FenceArgs)
| FenceTso (args : FenceArgs)
| Ebreak
| CEbreak
| FenceI.
End Instrs.
Notation InstrCacheable := Instrs.InstrCacheable.
Notation InstrUncacheable := Instrs.InstrUncacheable.

Inductive Instr : Type :=
| Cacheable (i : InstrCacheable)
| Uncacheable (i : InstrUncacheable).

Inductive InstrWidth : Type := Compressed | Uncompressed.

#[export] Instance InstrWidth_eq_dec : EqDecision InstrWidth.
Proof. solve_decision. Defined.

(** [InstrWidth as u64]. *)
Definition width_bytes (w : InstrWidth) : Z :=
  match w with Compressed => 2 | Uncompressed => 4 end.

(** [InstrCacheable::width]: the match of the source, its two arms of patterns
    written with the shorter one first. *)
Definition cacheable_width (i : InstrCacheable) : InstrWidth :=
  match i with
  | Instrs.CLw _ | Instrs.CLwsp _ | Instrs.CSw _ | Instrs.CSwsp _ | Instrs.CJ _
  | Instrs.CJr _ | Instrs.CJalr _ | Instrs.CBeqz _ | Instrs.CBnez _ | Instrs.CLi _
  | Instrs.CLui _ | Instrs.CAddi _ | Instrs.CAddi16sp _ | Instrs.CAddi4spn _
  | Instrs.CSlli _ | Instrs.CSrli _ | Instrs.CSrai _ | Instrs.CAndi _ | Instrs.CMv _
  | Instrs.CAdd _ | Instrs.CAnd _ | Instrs.COr _ | Instrs.CXor _ | Instrs.CSub _
  | Instrs.CAddw _ | Instrs.CSubw _ | Instrs.CNop | Instrs.CLd _ | Instrs.CLdsp _
  | Instrs.CSd _ | Instrs.CSdsp _ | Instrs.CAddiw _ | Instrs.CFld _ | Instrs.CFldsp _
  | Instrs.CFsd _ | Instrs.CFsdsp _ | Instrs.UnknownCompressed _
  | Instrs.HintCompressed _ => Compressed
  | _ => Uncompressed
  end.

Definition uncacheable_width (i : InstrUncacheable) : InstrWidth :=
  match i with
  | Instrs.FenceI | Instrs.Fence _ | Instrs.FenceTso _ | Instrs.Ebreak => Uncompressed
  | Instrs.CEbreak => Compressed
  end.

Definition instr_width (i : Instr) : InstrWidth :=
  match i with
  | Cacheable i => cacheable_width i
  | Uncacheable i => uncacheable_width i
  end.
