(* ===== verification/Parser.v ===== *)
(** * Instruction decoder

    Models [src/riscv/lib/src/parser.rs]: the decoding of 32-bit and 16-bit
    instruction words, and of byte streams.  The arms of each [match] are kept
    in order; a [match] on constants is a chain of tests against them.  The two
    arms [(F, X0) => Hint] and [(F, NonZero(rd)) => r_instr!(C, instr, rd)],
    which the source repeats for every integer instruction, are the helper
    [r_nz] ([i_nz], [u_nz] for the other formats). *)

From S2P Require Import Prelude.
From S2P Require Import Bits.
From S2P Require Import Registers.
From S2P Require Import Csr.
From S2P Require Import Instr.
Import Instrs.

(** ** Fields of a 32-bit instruction word *)
Definition bits (bytes pos n : Z) : Z :=
  Z.land (Z.shiftr bytes pos) (Z.shiftr (2 ^ 32 - 1) (32 - n)).
Definition instr_bit (bytes pos : Z) : bool := negb (Z.land bytes (shl 32 1 pos) =? 0).

(** [u5::extract_u32] and [u5::extract_u16] of the [arbitrary-int] crate: the
    five bits from [pos] (its documented behaviour). *)
Definition u5_extract (instr pos : Z) : Z := field pos 5 instr.

Definition opcode (instr : Z) : Z := bits instr 0 7.
Definition funct3 (instr : Z) : Z := bits instr 12 3.
Definition funct5 (instr : Z) : Z := bits instr 27 5.
Definition funct7 (instr : Z) : Z := bits instr 25 7.
Definition rd (instr : Z) : XRegister := parse_xregister (u5_extract instr 7).
Definition rd_f (instr : Z) : FRegister := parse_fregister (u5_extract instr 7).
Definition rs1_bits (instr : Z) : Z := bits instr 15 5.
Definition rs1_bits_u5 (instr : Z) : Z := u5_extract instr 15.
Definition rs1 (instr : Z) : XRegister := parse_xregister (rs1_bits_u5 instr).
Definition rs1_f (instr : Z) : FRegister := parse_fregister (rs1_bits_u5 instr).
Definition rs2_bits (instr : Z) : Z := bits instr 20 5.
Definition rs2_bits_u5 (instr : Z) : Z := u5_extract instr 20.
Definition rs2 (instr : Z) : XRegister := parse_xregister (rs2_bits_u5 instr).
Definition rs2_f (instr : Z) : FRegister := parse_fregister (rs2_bits_u5 instr).
Definition rs3_f (instr : Z) : FRegister := parse_fregister (u5_extract instr 27).
Definition imm_11_6 (instr : Z) : Z := shl 32 (bits instr 26 6) 1.
Definition fm (instr : Z) : Z := bits instr 28 4.
Definition fmt (instr : Z) : Z := bits instr 25 2.
Definition width (instr : Z) : Z := bits instr 12 3.
Definition csr (instr : Z) : option CSRegister := try_parse (bits instr 20 12).

(** *** Immediates

    [as_i32 instr m] is [(instr & m) as i32]; an [i32] is a signed [Z], so its
    [>>] and [|] are [Z.shiftr] and [Z.lor], and its [<<] wraps. *)
Definition as_i32 (instr m : Z) : Z := sext 32 (Z.land instr m).

Definition SHIFT_BITMASK : Z := 0x3F.

Definition i_imm (instr : Z) : Z := Z.shiftr (as_i32 instr 0xFFF00000) 20.
Definition shift_imm (instr : Z) : Z := let imm := i_imm instr in Z.land imm SHIFT_BITMASK.
Definition s_imm (instr : Z) : Z :=
  let instr_31_25 := as_i32 instr 0xFE000000 in
  let instr_11_7 := as_i32 instr 0x00000F80 in
  Z.lor (Z.shiftr instr_31_25 20) (Z.shiftr instr_11_7 7).
Definition b_imm (instr : Z) : Z :=
  let instr_31 := as_i32 instr 0x80000000 in
  let instr_7 := as_i32 instr 0x00000080 in
  let instr_30_25 := as_i32 instr 0x7E000000 in
  let instr_11_8 := as_i32 instr 0x00000F00 in
  Z.lor (Z.lor (Z.lor (Z.shiftr instr_31 19) (sext 32 (Z.shiftl instr_7 4)))
    (Z.shiftr instr_30_25 20)) (Z.shiftr instr_11_8 7).
Definition u_imm (instr : Z) : Z := as_i32 instr 0xFFFFF000.
Definition j_imm (instr : Z) : Z :=
  let instr_31 := as_i32 instr 0x80000000 in
  let instr_19_12 := as_i32 instr 0x000FF000 in
  let instr_20 := as_i32 instr 0x00100000 in
  let instr_30_21 := as_i32 instr 0x7FE00000 in
  Z.lor (Z.lor (Z.lor (Z.shiftr instr_31 11) instr_19_12) (Z.shiftr instr_20 9))
    (Z.shiftr instr_30_21 20).

(** [split_x0]; [assert_from] cannot panic on a non-zero register. *)
Definition split_x0 (r : XRegister) : XRegisterParsed :=
  match r with
  | x0 => X0
  | r => match assert_from r with Some nz => NonZero nz | None => X0 end
  end.

(** ** The instruction macros *)
Definition r_instr (enum_variant : RTypeArgs -> InstrCacheable) (instr : Z) : InstrCacheable :=
  enum_variant {| r_rd := rd instr; r_rs1 := rs1 instr; r_rs2 := rs2 instr |}.
Definition r_nz (enum_variant : NonZeroRdRTypeArgs -> InstrCacheable) (instr : Z)
  : InstrCacheable :=
  match split_x0 (rd instr) with
  | X0 => Hint instr
  | NonZero rd => enum_variant {| nzr_rd := rd; nzr_rs1 := rs1 instr; nzr_rs2 := rs2 instr |}
  end.
Definition i_instr (enum_variant : ITypeArgs -> InstrCacheable) (instr : Z) : InstrCacheable :=
  enum_variant {| it_rd := rd instr; it_rs1 := rs1 instr; it_imm := i_imm instr |}.
Definition i_nz (enum_variant : NonZeroRdITypeArgs -> InstrCacheable) (instr : Z)
  : InstrCacheable :=
  match split_x0 (rd instr) with
  | X0 => Hint instr
  | NonZero rd =>
      enum_variant {| nzri_rd := rd; nzri_rs1 := rs1 instr; nzri_imm := i_imm instr |}
  end.
Definition s_instr (enum_variant : SBTypeArgs -> InstrCacheable) (instr : Z) : InstrCacheable :=
  enum_variant {| sb_rs1 := rs1 instr; sb_rs2 := rs2 instr; sb_imm := s_imm instr |}.
Definition b_instr (enum_variant : SBTypeArgs -> InstrCacheable) (instr : Z) : InstrCacheable :=
  enum_variant {| sb_rs1 := rs1 instr; sb_rs2 := rs2 instr; sb_imm := b_imm instr |}.
Definition u_nz (enum_variant : NonZeroRdUJTypeArgs -> InstrCacheable) (instr : Z)
  : InstrCacheable :=
  match split_x0 (rd instr) with
  | X0 => Hint instr
  | NonZero rd => enum_variant {| nzuj_rd := rd; nzuj_imm := u_imm instr |}
  end.
Definition j_instr (enum_variant : UJTypeArgs -> InstrCacheable) (instr : Z) : InstrCacheable :=
  enum_variant {| uj_rd := rd instr; uj_imm := j_imm instr |}.
Definition fl_instr (enum_variant : FLoadArgs -> InstrCacheable) (instr : Z) : InstrCacheable :=
  enum_variant {| fld_rd := rd_f instr; fld_rs1 := rs1 instr; fld_imm := i_imm instr |}.
Definition fs_instr (enum_variant : FStoreArgs -> InstrCacheable) (instr : Z) : InstrCacheable :=
  enum_variant {| fst_rs1 := rs1 instr; fst_rs2 := rs2_f instr; fst_imm := s_imm instr |}.
Definition f_cmp_instr (enum_variant : FCmpArgs -> InstrCacheable) (instr rs2_bits : Z)
  : InstrCacheable :=
  enum_variant {| fcmp_rd := rd instr; fcmp_rs1 := rs1_f instr;
                  fcmp_rs2 := parse_fregister rs2_bits |}.
Definition f_r_instr (enum_variant : FRArgs -> InstrCacheable) (instr rs2_bits : Z)
  : InstrCacheable :=
  enum_variant {| fr_rd := rd_f instr; fr_rs1 := rs1_f instr;
                  fr_rs2 := parse_fregister rs2_bits |}.
Definition f_r_rm_1_instr (enum_variant : FR1ArgWithRounding -> InstrCacheable) (instr rm : Z)
  : InstrCacheable :=
  match from_rm rm with
  | Some rounding => enum_variant {| fr1_rd := rd_f instr; fr1_rs1 := rs1_f instr; fr1_rm := rounding |}
  | None => Unknown instr
  end.
Definition f_r_fmt_int_instr (enum_variant : XRegToFRegArgsWithRounding -> InstrCacheable)
  (instr rm : Z) : InstrCacheable :=
  match from_rm rm with
  | Some rounding => enum_variant {| xfr_rd := rd_f instr; xfr_rs1 := rs1 instr; xfr_rm := rounding |}
  | None => Unknown instr
  end.
Definition f_r_int_fmt_instr (enum_variant : FRegToXRegArgsWithRounding -> InstrCacheable)
  (instr rm : Z) : InstrCacheable :=
  match from_rm rm with
  | Some rounding => enum_variant {| fxr_rd := rd instr; fxr_rs1 := rs1_f instr; fxr_rm := rounding |}
  | None => Unknown instr
  end.
Definition f_r_rm_2_instr (enum_variant : FR2ArgsWithRounding -> InstrCacheable)
  (instr rs2_bits rm : Z) : InstrCacheable :=
  match from_rm rm with
  | Some rounding => enum_variant {| fr2_rd := rd_f instr; fr2_rs1 := rs1_f instr;
                                     fr2_rs2 := parse_fregister rs2_bits; fr2_rm := rounding |}
  | None => Unknown instr
  end.
Definition f_r_rm_3_instr (enum_variant : FR3ArgsWithRounding -> InstrCacheable) (instr : Z)
  : InstrCacheable :=
  match from_rm (funct3 instr) with
  | Some rounding => enum_variant {| fr3_rd := rd_f instr; fr3_rs1 := rs1_f instr;
      fr3_rs2 := rs2_f instr; fr3_rs3 := rs3_f instr; fr3_rm := rounding |}
  | None => Unknown instr
  end.
Definition fence_instr (enum_variant : FenceArgs -> InstrUncacheable) (instr : Z)
  : InstrUncacheable :=
  enum_variant
    {| fence_pred := {| fs_i := instr_bit instr 27; fs_o := instr_bit instr 26;
                        fs_r := instr_bit instr 25; fs_w := instr_bit instr 24 |};
       fence_succ := {| fs_i := instr_bit instr 23; fs_o := instr_bit instr 22;
                        fs_r := instr_bit instr 21; fs_w := instr_bit instr 20 |} |}.
Definition amo_instr (enum_variant : AmoArgs -> InstrCacheable) (instr : Z) : InstrCacheable :=
  enum_variant {| amo_rd := rd instr; amo_rs1 := rs1 instr; amo_rs2 := rs2 instr;
                  amo_aq := instr_bit instr 26; amo_rl := instr_bit instr 25 |}.
Definition csr_instr (enum_variant : CsrArgs -> InstrCacheable) (instr : Z) : InstrCacheable :=
  match csr instr with
  | Some csr => enum_variant {| csr_rd := rd instr; csr_rs1 := rs1 instr; csr_csr := csr |}
  | None => Unknown instr
  end.
Definition csri_instr (enum_variant : CsriArgs -> InstrCacheable) (instr : Z) : InstrCacheable :=
  match csr instr with
  | Some csr => enum_variant {| csri_rd := rd instr; csri_imm := bits instr 15 5; csri_csr := csr |}
  | None => Unknown instr
  end.

(** ** Constants *)
Definition OP_ARITH : Z := 0x33.
Definition OP_ARITH_W : Z := 0x3B.
Definition OP_ARITH_I : Z := 0x13.
Definition OP_LOAD : Z := 0x03.
Definition OP_ARITH_IW : Z := 0x1B.
Definition OP_SYNCH : Z := 0x0F.
Definition OP_SYS : Z := 0x73.
Definition OP_STORE : Z := 0x23.
Definition OP_BRANCH : Z := 0x63.
Definition OP_LUI : Z := 0x37.
Definition OP_AUIPC : Z := 0x17.
Definition OP_JAL : Z := 0x6F.
Definition OP_JALR : Z := 0x67.
Definition OP_FP : Z := 0x53.
Definition OP_FP_LOAD : Z := 0x07.
Definition OP_FMADD : Z := 0x43.
Definition OP_FMSUB : Z := 0x47.
Definition OP_FNMSUB : Z := 0x4B.
Definition OP_FNMADD : Z := 0x4F.
Definition OP_FP_STORE : Z := 0x27.
Definition OP_AMO : Z := 0x2F.

Definition F3_0 : Z := 0.
Definition F3_1 : Z := 1.
Definition F3_2 : Z := 2.
Definition F3_3 : Z := 3.
Definition F3_4 : Z := 4.
Definition F3_5 : Z := 5.
Definition F3_6 : Z := 6.
Definition F3_7 : Z := 7.
Definition F7_0 : Z := 0.
Definition F7_1 : Z := 1.
Definition F7_8 : Z := 8.
Definition F7_20 : Z := 0x20.
Definition FMT_S : Z := 0.
Definition FMT_D : Z := 1.
Definition WIDTH_W : Z := 2.
Definition WIDTH_D : Z := 3.
Definition RM_EQ : Z := 2.
Definition RM_LT : Z := 1.
Definition RM_LE : Z := 0.
Definition RM_MIN : Z := 0.
Definition RM_MAX : Z := 1.
Definition FM_0 : Z := 0.
Definition FM_8 : Z := 8.

(** ** Uncompressed instructions: one definition per major opcode *)

Definition parse_op_arith (instr : Z) : InstrCacheable :=
  let f3 := funct3 instr in
  let f7 := funct7 instr in
  if f3 =? F3_0 then
    if f7 =? F7_0 then r_nz Add instr
    else if f7 =? F7_1 then r_instr Mul instr
    else if f7 =? F7_20 then r_nz Sub instr
    else Unknown instr
  else if f3 =? F3_4 then
    if f7 =? F7_0 then r_nz Xor instr
    else if f7 =? F7_1 then r_instr Div instr
    else Unknown instr
  else if f3 =? F3_6 then
    if f7 =? F7_0 then r_nz Or instr
    else if f7 =? F7_1 then r_instr Rem instr
    else Unknown instr
  else if f3 =? F3_7 then
    if f7 =? F7_0 then r_nz And instr
    else if f7 =? F7_1 then r_instr Remu instr
    else Unknown instr
  else if f3 =? F3_1 then
    if f7 =? F7_0 then r_nz Sll instr
    else if f7 =? F7_1 then r_instr Mulh instr
    else Unknown instr
  else if f3 =? F3_5 then
    if f7 =? F7_0 then r_nz Srl instr
    else if f7 =? F7_1 then r_instr Divu instr
    else if f7 =? F7_20 then r_nz Sra instr
    else Unknown instr
  else if f3 =? F3_2 then
    if f7 =? F7_0 then r_nz Slt instr
    else if f7 =? F7_1 then r_instr Mulhsu instr
    else Unknown instr
  else if f3 =? F3_3 then
    if f7 =? F7_0 then r_nz Sltu instr
    else if f7 =? F7_1 then r_instr Mulhu instr
    else Unknown instr
  else Unknown instr.

Definition parse_op_arith_w (instr : Z) : InstrCacheable :=
  let f3 := funct3 instr in
  let f7 := funct7 instr in
  if f3 =? F3_0 then
    if f7 =? F7_0 then r_nz Addw instr
    else if f7 =? F7_1 then r_instr Mulw instr
    else if f7 =? F7_20 then r_nz Subw instr
    else Unknown instr
  else if f3 =? F3_1 then r_nz Sllw instr
  else if f3 =? F3_4 then
    if f7 =? F7_1 then r_instr Divw instr else Unknown instr
  else if f3 =? F3_5 then
    if f7 =? F7_0 then r_nz Srlw instr
    else match f7 =? F7_1, split_x0 (rd instr) with
         | true, NonZero _ => r_instr Divuw instr
         | _, _ => if f7 =? F7_20 then r_nz Sraw instr else Unknown instr
         end
  else if f3 =? F3_6 then
    if f7 =? F7_1 then r_instr Remw instr else Unknown instr
  else if f3 =? F3_7 then
    if f7 =? F7_1 then r_instr Remuw instr else Unknown instr
  else Unknown instr.

Definition parse_op_arith_i (instr : Z) : InstrCacheable :=
  let f3 := funct3 instr in
  if f3 =? F3_0 then
    match split_x0 (rd instr) with
    | X0 =>
        match split_x0 (rs1 instr), i_imm instr with
        | X0, _ | _, 0 => Hint instr
        | rs1, imm => Addi {| si_rd := X0; si_rs1 := rs1; si_imm := imm |}
        end
    | rd => Addi {| si_rd := rd; si_rs1 := split_x0 (rs1 instr); si_imm := i_imm instr |}
    end
  else if f3 =? F3_4 then i_nz Xori instr
  else if f3 =? F3_6 then i_nz Ori instr
  else if f3 =? F3_7 then i_nz Andi instr
  else if f3 =? F3_1 then
    if imm_11_6 instr =? F7_0 then i_nz Slli instr else Unknown instr
  else if f3 =? F3_5 then
    if imm_11_6 instr =? F7_0 then i_nz Srli instr
    else if imm_11_6 instr =? F7_20 then
      match split_x0 (rd instr) with
      | X0 => Hint instr
      | NonZero rd => Srai {| nzri_rd := rd; nzri_rs1 := rs1 instr; nzri_imm := shift_imm instr |}
      end
    else Unknown instr
  else if f3 =? F3_2 then i_nz Slti instr
  else if f3 =? F3_3 then i_nz Sltiu instr
  else Unknown instr.

Definition parse_op_load (instr : Z) : InstrCacheable :=
  let f3 := funct3 instr in
  if f3 =? F3_0 then i_instr Lb instr
  else if f3 =? F3_1 then i_instr Lh instr
  else if f3 =? F3_2 then i_instr Lw instr
  else if f3 =? F3_3 then i_instr Ld instr
  else if f3 =? F3_4 then i_instr Lbu instr
  else if f3 =? F3_5 then i_instr Lhu instr
  else if f3 =? F3_6 then i_instr Lwu instr
  else Unknown instr.

Definition parse_op_arith_iw (instr : Z) : InstrCacheable :=
  let f3 := funct3 instr in
  if f3 =? F3_0 then i_nz Addiw instr
  else if f3 =? F3_1 then
    if imm_11_6 instr =? F7_0 then i_nz Slliw instr else Unknown instr
  else if f3 =? F3_5 then
    if imm_11_6 instr =? F7_0 then i_nz Srliw instr
    else if imm_11_6 instr =? F7_20 then i_nz Sraiw instr
    else Unknown instr
  else Unknown instr.

Definition parse_op_synch (instr : Z) : Instr :=
  let f3 := funct3 instr in
  if f3 =? F3_0 then
    if fm instr =? FM_0 then
      if bits instr 20 4 =? 0 then Cacheable (Hint instr)
      else if bits instr 24 4 =? 0 then Cacheable (Hint instr)
      else Uncacheable (fence_instr Fence instr)
    else if fm instr =? FM_8 then Uncacheable (fence_instr FenceTso instr)
    else Cacheable (Unknown instr)
  else if f3 =? F3_1 then Uncacheable FenceI
  else Cacheable (Unknown instr).

Definition parse_op_sys (instr : Z) : Instr :=
  let f3 := funct3 instr in
  if f3 =? F3_0 then
    if funct7 instr =? F7_0 then
      if (rs1_bits instr =? 0) && (rs2_bits instr =? 0) then Cacheable Ecall
      else if (rs1_bits instr =? 0) && (rs2_bits instr =? 1) then Uncacheable Ebreak
      else Cacheable (Unknown instr)
    else if funct7 instr =? F7_8 then
      if (rs1_bits instr =? 0) && (rs2_bits instr =? 5) then Cacheable Wfi
      else Cacheable (Unknown instr)
    else Cacheable (Unknown instr)
  else if f3 =? F3_1 then Cacheable (csr_instr Csrrw instr)
  else if f3 =? F3_2 then Cacheable (csr_instr Csrrs instr)
  else if f3 =? F3_3 then Cacheable (csr_instr Csrrc instr)
  else if f3 =? F3_5 then Cacheable (csri_instr Csrrwi instr)
  else if f3 =? F3_6 then Cacheable (csri_instr Csrrsi instr)
  else if f3 =? F3_7 then Cacheable (csri_instr Csrrci instr)
  else Cacheable (Unknown instr).

Definition parse_op_amo (instr : Z) : InstrCacheable :=
  let f3 := funct3 instr in
  let f5 := funct5 instr in
  if f3 =? F3_2 then
    if f5 =? 2 then (if rs2_bits instr =? 0 then amo_instr Lrw instr else Unknown instr)
    else if f5 =? 3 then amo_instr Scw instr
    else if f5 =? 1 then amo_instr Amoswapw instr
    else if f5 =? 0 then amo_instr Amoaddw instr
    else if f5 =? 4 then amo_instr Amoxorw instr
    else if f5 =? 12 then amo_instr Amoandw instr
    else if f5 =? 8 then amo_instr Amoorw instr
    else if f5 =? 16 then amo_instr Amominw instr
    else if f5 =? 20 then amo_instr Amomaxw instr
    else if f5 =? 24 then amo_instr Amominuw instr
    else if f5 =? 28 then amo_instr Amomaxuw instr
    else Unknown instr
  else if f3 =? F3_3 then
    if f5 =? 2 then (if rs2_bits instr =? 0 then amo_instr Lrd instr else Unknown instr)
    else if f5 =? 3 then amo_instr Scd instr
    else if f5 =? 1 then amo_instr Amoswapd instr
    else if f5 =? 0 then amo_instr Amoaddd instr
    else if f5 =? 4 then amo_instr Amoxord instr
    else if f5 =? 12 then amo_instr Amoandd instr
    else if f5 =? 8 then amo_instr Amoord instr
    else if f5 =? 16 then amo_instr Amomind instr
    else if f5 =? 20 then amo_instr Amomaxd instr
    else if f5 =? 24 then amo_instr Amominud instr
    else if f5 =? 28 then amo_instr Amomaxud instr
    else Unknown instr
  else Unknown instr.

Definition parse_op_store (instr : Z) : InstrCacheable :=
  let f3 := funct3 instr in
  if f3 =? F3_0 then s_instr Sb instr
  else if f3 =? F3_1 then s_instr Sh instr
  else if f3 =? F3_2 then s_instr Sw instr
  else if f3 =? F3_3 then s_instr Sd instr
  else Unknown instr.

Definition parse_op_branch (instr : Z) : InstrCacheable :=
  let f3 := funct3 instr in
  if f3 =? F3_0 then b_instr Beq instr
  else if f3 =? F3_1 then b_instr Bne instr
  else if f3 =? F3_4 then b_instr Blt instr
  else if f3 =? F3_5 then b_instr Bge instr
  else if f3 =? F3_6 then b_instr Bltu instr
  else if f3 =? F3_7 then b_instr Bgeu instr
  else Unknown instr.

(** [OP_FP], format S. *)
Definition parse_op_fp_s (instr : Z) : InstrCacheable :=
  let f5 := funct5 instr in
  let rm := funct3 instr in
  let rs2_bits := rs2_bits_u5 instr in
  if f5 =? 0 then f_r_rm_2_instr Fadds instr rs2_bits rm
  else if f5 =? 1 then f_r_rm_2_instr Fsubs instr rs2_bits rm
  else if f5 =? 2 then f_r_rm_2_instr Fmuls instr rs2_bits rm
  else if f5 =? 3 then f_r_rm_2_instr Fdivs instr rs2_bits rm
  else if (f5 =? 4) && (rm =? 0) then f_r_instr Fsgnjs instr rs2_bits
  else if (f5 =? 4) && (rm =? 1) then f_r_instr Fsgnjns instr rs2_bits
  else if (f5 =? 4) && (rm =? 2) then f_r_instr Fsgnjxs instr rs2_bits
  else if (f5 =? 5) && (rm =? RM_MIN) then f_r_instr Fmins instr rs2_bits
  else if (f5 =? 5) && (rm =? RM_MAX) then f_r_instr Fmaxs instr rs2_bits
  else if (f5 =? 8) && (rs2_bits =? 1) then f_r_rm_1_instr Fcvtsd instr rm
  else if (f5 =? 11) && (rs2_bits =? 0) then f_r_rm_1_instr Fsqrts instr rm
  else if (f5 =? 20) && (rm =? RM_EQ) then f_cmp_instr Feqs instr rs2_bits
  else if (f5 =? 20) && (rm =? RM_LE) then f_cmp_instr Fles instr rs2_bits
  else if (f5 =? 20) && (rm =? RM_LT) then f_cmp_instr Flts instr rs2_bits
  else if (f5 =? 24) && (rs2_bits =? 0) then f_r_int_fmt_instr Fcvtws instr rm
  else if (f5 =? 24) && (rs2_bits =? 1) then f_r_int_fmt_instr Fcvtwus instr rm
  else if (f5 =? 24) && (rs2_bits =? 2) then f_r_int_fmt_instr Fcvtls instr rm
  else if (f5 =? 24) && (rs2_bits =? 3) then f_r_int_fmt_instr Fcvtlus instr rm
  else if (f5 =? 26) && (rs2_bits =? 0) then f_r_fmt_int_instr Fcvtsw instr rm
  else if (f5 =? 26) && (rs2_bits =? 1) then f_r_fmt_int_instr Fcvtswu instr rm
  else if (f5 =? 26) && (rs2_bits =? 2) then f_r_fmt_int_instr Fcvtsl instr rm
  else if (f5 =? 26) && (rs2_bits =? 3) then f_r_fmt_int_instr Fcvtslu instr rm
  else if (f5 =? 28) && (rm =? 0) && (rs2_bits =? 0) then
    FmvXW {| fx_rd := rd instr; fx_rs1 := rs1_f instr |}
  else if (f5 =? 28) && (rm =? 1) && (rs2_bits =? 0) then
    FclassS {| fx_rd := rd instr; fx_rs1 := rs1_f instr |}
  else if (f5 =? 30) && (rm =? 0) && (rs2_bits =? 0) then
    FmvWX {| xf_rd := rd_f instr; xf_rs1 := rs1 instr |}
  else Unknown instr.

(** [OP_FP], format D. *)
Definition parse_op_fp_d (instr : Z) : InstrCacheable :=
  let f5 := funct5 instr in
  let rm := funct3 instr in
  let rs2_bits := rs2_bits_u5 instr in
  if f5 =? 0 then f_r_rm_2_instr Faddd instr rs2_bits rm
  else if f5 =? 1 then f_r_rm_2_instr Fsubd instr rs2_bits rm
  else if f5 =? 2 then f_r_rm_2_instr Fmuld instr rs2_bits rm
  else if f5 =? 3 then f_r_rm_2_instr Fdivd instr rs2_bits rm
  else if (f5 =? 4) && (rm =? 0) then f_r_instr Fsgnjd instr rs2_bits
  else if (f5 =? 4) && (rm =? 1) then f_r_instr Fsgnjnd instr rs2_bits
  else if (f5 =? 4) && (rm =? 2) then f_r_instr Fsgnjxd instr rs2_bits
  else if (f5 =? 5) && (rm =? RM_MIN) then f_r_instr Fmind instr rs2_bits
  else if (f5 =? 5) && (rm =? RM_MAX) then f_r_instr Fmaxd instr rs2_bits
  else if (f5 =? 8) && (rs2_bits =? 0) then f_r_rm_1_instr Fcvtds instr rm
  else if (f5 =? 11) && (rs2_bits =? 0) then f_r_rm_1_instr Fsqrtd instr rm
  else if (f5 =? 20) && (rm =? RM_EQ) then f_cmp_instr Feqd instr rs2_bits
  else if (f5 =? 20) && (rm =? RM_LE) then f_cmp_instr Fled instr rs2_bits
  else if (f5 =? 20) && (rm =? RM_LT) then f_cmp_instr Fltd instr rs2_bits
  else if (f5 =? 24) && (rs2_bits =? 0) then f_r_int_fmt_instr Fcvtwd instr rm
  else if (f5 =? 24) && (rs2_bits =? 1) then f_r_int_fmt_instr Fcvtwud instr rm
  else if (f5 =? 24) && (rs2_bits =? 2) then f_r_int_fmt_instr Fcvtld instr rm
  else if (f5 =? 24) && (rs2_bits =? 3) then f_r_int_fmt_instr Fcvtlud instr rm
  else if (f5 =? 26) && (rs2_bits =? 0) then f_r_fmt_int_instr Fcvtdw instr rm
  else if (f5 =? 26) && (rs2_bits =? 1) then f_r_fmt_int_instr Fcvtdwu instr rm
  else if (f5 =? 26) && (rs2_bits =? 2) then f_r_fmt_int_instr Fcvtdl instr rm
  else if (f5 =? 26) && (rs2_bits =? 3) then f_r_fmt_int_instr Fcvtdlu instr rm
  else if (f5 =? 28) && (rm =? 0) && (rs2_bits =? 0) then
    FmvXD {| fx_rd := rd instr; fx_rs1 := rs1_f instr |}
  else if (f5 =? 28) && (rm =? 1) && (rs2_bits =? 0) then
    FclassD {| fx_rd := rd instr; fx_rs1 := rs1_f instr |}
  else if (f5 =? 30) && (rm =? 0) && (rs2_bits =? 0) then
    FmvDX {| xf_rd := rd_f instr; xf_rs1 := rs1 instr |}
  else Unknown instr.

Definition parse_op_fp (instr : Z) : InstrCacheable :=
  if fmt instr =? FMT_S then parse_op_fp_s instr
  else if fmt instr =? FMT_D then parse_op_fp_d instr
  else Unknown instr.

(** The fused multiply-add opcodes. *)
Definition parse_op_fma (s d : FR3ArgsWithRounding -> InstrCacheable) (instr : Z)
  : InstrCacheable :=
  if fmt instr =? FMT_S then f_r_rm_3_instr s instr
  else if fmt instr =? FMT_D then f_r_rm_3_instr d instr
  else Unknown instr.

Definition parse_op_fp_load (instr : Z) : InstrCacheable :=
  if width instr =? WIDTH_W then fl_instr Flw instr
  else if width instr =? WIDTH_D then fl_instr Fld instr
  else Unknown instr.

Definition parse_op_fp_store (instr : Z) : InstrCacheable :=
  if width instr =? WIDTH_W then fs_instr Fsw instr
  else if width instr =? WIDTH_D then fs_instr Fsd instr
  else Unknown instr.

Definition parse_op_jalr (instr : Z) : InstrCacheable :=
  if funct3 instr =? F3_0 then i_instr Jalr instr else Unknown instr.

Definition parse_uncompressed_instruction (instr : Z) : Instr :=
  let op := opcode instr in
  if op =? OP_ARITH then Cacheable (parse_op_arith instr)
  else if op =? OP_ARITH_W then Cacheable (parse_op_arith_w instr)
  else if op =? OP_ARITH_I then Cacheable (parse_op_arith_i instr)
  else if op =? OP_LOAD then Cacheable (parse_op_load instr)
  else if op =? OP_ARITH_IW then Cacheable (parse_op_arith_iw instr)
  else if op =? OP_SYNCH then parse_op_synch instr
  else if op =? OP_SYS then parse_op_sys instr
  else if op =? OP_AMO then Cacheable (parse_op_amo instr)
  else if op =? OP_STORE then Cacheable (parse_op_store instr)
  else if op =? OP_BRANCH then Cacheable (parse_op_branch instr)
  else if op =? OP_LUI then Cacheable (u_nz Lui instr)
  else if op =? OP_AUIPC then Cacheable (u_nz Auipc instr)
  else if op =? OP_FP then Cacheable (parse_op_fp instr)
  else if op =? OP_FMADD then Cacheable (parse_op_fma Fmadds Fmaddd instr)
  else if op =? OP_FMSUB then Cacheable (parse_op_fma Fmsubs Fmsubd instr)
  else if op =? OP_FNMSUB then Cacheable (parse_op_fma Fnmsubs Fnmsubd instr)
  else if op =? OP_FNMADD then Cacheable (parse_op_fma Fnmadds Fnmaddd instr)
  else if op =? OP_FP_LOAD then Cacheable (parse_op_fp_load instr)
  else if op =? OP_FP_STORE then Cacheable (parse_op_fp_store instr)
  else if op =? OP_JAL then Cacheable (j_instr Jal instr)
  else if op =? OP_JALR then Cacheable (parse_op_jalr instr)
  else Cacheable (Unknown instr).

(** ** Fields of a 16-bit instruction word *)
Definition c_bits (bytes pos n : Z) : Z :=
  Z.land (Z.shiftr bytes pos) (Z.shiftr (2 ^ 16 - 1) (16 - n)).
Definition c_rd_rs1 (instr : Z) : XRegister := parse_xregister (u5_extract instr 7).
Definition c_f_rd_rs1 (instr : Z) : FRegister := parse_fregister (u5_extract instr 7).
Definition c_rs2 (instr : Z) : XRegister := parse_xregister (u5_extract instr 2).
Definition c_f_rs2 (instr : Z) : FRegister := parse_fregister (u5_extract instr 2).
(** The three bits of a register field name [x8] to [x15]. *)
Definition c_reg_prime (instr pos : Z) : Z := wrap 5 (field pos 3 instr + 8).
Definition c_rs1p (instr : Z) : XRegister := parse_xregister (c_reg_prime instr 7).
Definition c_rdp_rs2p (instr : Z) : XRegister := parse_xregister (c_reg_prime instr 2).
Definition c_f_rdp_rs2p (instr : Z) : FRegister := parse_fregister (c_reg_prime instr 2).
(** [assert_from]; the lemma [c_reg_prime_nz] shows that it does not panic. *)
Definition c_rs1p_nz (instr : Z) : NonZeroXRegister :=
  default NZ.x1 (assert_from (parse_xregister (c_reg_prime instr 7))).
Definition c_rdp_rs2p_nz (instr : Z) : NonZeroXRegister :=
  default NZ.x1 (assert_from (parse_xregister (c_reg_prime instr 2))).
Definition c_opcode (instr : Z) : Z := c_bits instr 0 2.
Definition c_funct3 (instr : Z) : Z := c_bits instr 13 3.
Definition c_q1_10 (instr : Z) : Z := c_bits instr 10 2.
Definition c_q1_5 (instr : Z) : Z := c_bits instr 5 2.

Definition sign_extend_u16 (value size : Z) : Z :=
  let shift := 16 - size in
  Z.shiftr (sext 16 (Z.shiftl (sext 16 value) shift)) shift.

(** [u16::bits_subset(instr, start, end)] moved to bit [p], as a [u16]. *)
Definition seg (instr start fin p : Z) : Z := wrap 16 (Z.shiftl (bits_subset 16 instr start fin) p).

Definition clw_imm (instr : Z) : Z :=
  Z.lor (Z.lor (seg instr 5 5 6) (seg instr 12 10 3)) (seg instr 6 6 2).
Definition cld_imm (instr : Z) : Z := Z.lor (seg instr 6 5 6) (seg instr 12 10 3).
Definition ci_imm (instr : Z) : Z :=
  let res := Z.lor (seg instr 12 12 5) (seg instr 6 2 0) in sign_extend_u16 res 6.
Definition cslli_imm (instr : Z) : Z := Z.lor (seg instr 12 12 5) (seg instr 6 2 0).
Definition ci_addi16sp_imm (instr : Z) : Z :=
  let res := Z.lor (Z.lor (Z.lor (Z.lor (seg instr 12 12 9) (seg instr 4 3 7))
    (seg instr 5 5 6)) (seg instr 2 2 5)) (seg instr 6 6 4) in sign_extend_u16 res 10.
Definition ci_lwsp_imm (instr : Z) : Z :=
  Z.lor (Z.lor (seg instr 3 2 6) (seg instr 12 12 5)) (seg instr 6 4 2).
Definition ci_ldsp_imm (instr : Z) : Z :=
  Z.lor (Z.lor (seg instr 4 2 6) (seg instr 12 12 5)) (seg instr 6 5 3).
Definition css_swsp_imm (instr : Z) : Z := Z.lor (seg instr 8 7 6) (seg instr 12 9 2).
Definition css_sdsp_imm (instr : Z) : Z := Z.lor (seg instr 9 7 6) (seg instr 12 10 3).
Definition ciw_imm (instr : Z) : Z :=
  Z.lor (Z.lor (Z.lor (seg instr 10 7 6) (seg instr 12 11 4)) (seg instr 5 5 3)) (seg instr 6 6 2).
Definition cb_imm (instr : Z) : Z :=
  let res := Z.lor (Z.lor (Z.lor (Z.lor (seg instr 12 12 8) (seg instr 6 5 6))
    (seg instr 2 2 5)) (seg instr 11 10 3)) (seg instr 4 3 1) in sign_extend_u16 res 9.
Definition cb_shamt_imm (instr : Z) : Z := Z.lor (seg instr 12 12 5) (seg instr 6 2 0).
Definition cb_andi_imm (instr : Z) : Z :=
  let res := Z.lor (seg instr 12 12 5) (seg instr 6 2 0) in sign_extend_u16 res 6.
Definition cj_imm (instr : Z) : Z :=
  let res := Z.lor (Z.lor (Z.lor (Z.lor (Z.lor (Z.lor (Z.lor (seg instr 12 12 11)
    (seg instr 8 8 10)) (seg instr 10 9 8)) (seg instr 6 6 7)) (seg instr 7 7 6))
    (seg instr 2 2 5)) (seg instr 11 11 4)) (seg instr 5 3 1) in sign_extend_u16 res 12.

Definition OP_C0 : Z := 0.
Definition OP_C1 : Z := 1.
Definition OP_C2 : Z := 2.
Definition C_F3_0 : Z := 0.
Definition C_F3_1 : Z := 1.
Definition C_F3_2 : Z := 2.
Definition C_F3_3 : Z := 3.
Definition C_F3_4 : Z := 4.
Definition C_F3_5 : Z := 5.
Definition C_F3_6 : Z := 6.
Definition C_F3_7 : Z := 7.
Definition C_Q1_0 : Z := 0.
Definition C_Q1_1 : Z := 1.
Definition C_Q1_2 : Z := 2.
Definition C_Q1_3 : Z := 3.

Definition cr_instr (enum_variant : CRTypeArgs -> InstrCacheable) (instr : Z) : InstrCacheable :=
  enum_variant {| cr_rd_rs1 := c_rs1p instr; cr_rs2 := c_rdp_rs2p instr |}.
Definition cc_instr (enum_variant : CIBTypeArgs -> InstrCacheable) (imm instr : Z)
  : InstrCacheable :=
  enum_variant {| cib_rd_rs1 := c_rs1p instr; cib_imm := imm |}.

(** ** Compressed instructions: one definition per quadrant *)
Definition parse_c0 (instr : Z) : InstrCacheable :=
  let f3 := c_funct3 instr in
  if f3 =? C_F3_1 then
    CFld {| fld_rd := c_f_rdp_rs2p instr; fld_rs1 := c_rs1p instr; fld_imm := cld_imm instr |}
  else if f3 =? C_F3_0 then
    match ciw_imm instr with
    | 0 => UnknownCompressed instr
    | imm => CAddi4spn {| cib_rd_rs1 := c_rdp_rs2p instr; cib_imm := imm |}
    end
  else if f3 =? C_F3_2 then
    CLw {| nzi_rd := c_rdp_rs2p_nz instr; nzi_rs1 := c_rs1p_nz instr; nzi_imm := clw_imm instr |}
  else if f3 =? C_F3_3 then
    CLd {| nzi_rd := c_rdp_rs2p_nz instr; nzi_rs1 := c_rs1p_nz instr; nzi_imm := cld_imm instr |}
  else if f3 =? C_F3_5 then
    CFsd {| fst_rs1 := c_rs1p instr; fst_rs2 := c_f_rdp_rs2p instr; fst_imm := cld_imm instr |}
  else if f3 =? C_F3_6 then
    CSw {| nzsb_rs1 := c_rs1p_nz instr; nzsb_rs2 := c_rdp_rs2p_nz instr; nzsb_imm := clw_imm instr |}
  else if f3 =? C_F3_7 then
    CSd {| nzsb_rs1 := c_rs1p_nz instr; nzsb_rs2 := c_rdp_rs2p_nz instr; nzsb_imm := cld_imm instr |}
  else UnknownCompressed instr.

Definition parse_c1 (instr : Z) : InstrCacheable :=
  let f3 := c_funct3 instr in
  if f3 =? C_F3_0 then
    match ci_imm instr, split_x0 (c_rd_rs1 instr) with
    | 0, X0 => CNop
    | 0, _ | _, X0 => HintCompressed instr
    | imm, NonZero rd_rs1 => CAddi {| cibnz_rd_rs1 := rd_rs1; cibnz_imm := imm |}
    end
  else if f3 =? C_F3_1 then
    match ci_imm instr, split_x0 (c_rd_rs1 instr) with
    | _, X0 => UnknownCompressed instr
    | imm, NonZero rd_rs1 => CAddiw {| cibnz_rd_rs1 := rd_rs1; cibnz_imm := imm |}
    end
  else if f3 =? C_F3_2 then
    match split_x0 (c_rd_rs1 instr) with
    | X0 => HintCompressed instr
    | NonZero rd_rs1 => CLi {| cibnz_rd_rs1 := rd_rs1; cibnz_imm := ci_imm instr |}
    end
  else if f3 =? C_F3_3 then
    if (bits_subset 16 instr 6 2 =? 0) && negb (bit 16 instr 12) then UnknownCompressed instr
    else match split_x0 (c_rd_rs1 instr), ci_imm instr with
         | NonZero NZ.x2, _ => CAddi16sp {| cjt_imm := ci_addi16sp_imm instr |}
         | _, 0 => UnknownCompressed instr
         | X0, _ => HintCompressed instr
         | NonZero rd_rs1, _ =>
             CLui {| cibnz_rd_rs1 := rd_rs1; cibnz_imm := sext 64 (Z.shiftl (ci_imm instr) 12) |}
         end
  else if f3 =? C_F3_4 then
    let q := c_q1_10 instr in
    let imm := cb_shamt_imm instr in
    if (q =? C_Q1_0) && (imm =? 0) then HintCompressed instr
    else if q =? C_Q1_0 then cc_instr CSrli imm instr
    else if (q =? C_Q1_1) && (imm =? 0) then HintCompressed instr
    else if q =? C_Q1_1 then cc_instr CSrai imm instr
    else if q =? C_Q1_2 then cc_instr CAndi (cb_andi_imm instr) instr
    else if q =? C_Q1_3 then
      let b12 := bit 16 instr 12 in
      let q5 := c_q1_5 instr in
      if negb b12 && (q5 =? C_Q1_0) then cr_instr CSub instr
      else if negb b12 && (q5 =? C_Q1_1) then cr_instr CXor instr
      else if negb b12 && (q5 =? C_Q1_2) then cr_instr COr instr
      else if negb b12 && (q5 =? C_Q1_3) then cr_instr CAnd instr
      else if b12 && (q5 =? C_Q1_0) then cr_instr CSubw instr
      else if b12 && (q5 =? C_Q1_1) then cr_instr CAddw instr
      else UnknownCompressed instr
    else UnknownCompressed instr
  else if f3 =? C_F3_5 then CJ {| cjt_imm := cj_imm instr |}
  else if f3 =? C_F3_6 then cc_instr CBeqz (cb_imm instr) instr
  else if f3 =? C_F3_7 then cc_instr CBnez (cb_imm instr) instr
  else UnknownCompressed instr.

Definition parse_c2 (instr : Z) : Instr :=
  let f3 := c_funct3 instr in
  if f3 =? C_F3_0 then
    Cacheable
      match cslli_imm instr, split_x0 (c_rd_rs1 instr) with
      | _, X0 | 0, _ => HintCompressed instr
      | imm, NonZero rd_rs1 => CSlli {| cibnz_rd_rs1 := rd_rs1; cibnz_imm := imm |}
      end
  else if f3 =? C_F3_1 then
    Cacheable (CFldsp {| cibd_rd_rs1 := c_f_rd_rs1 instr; cibd_imm := ci_ldsp_imm instr |})
  else if f3 =? C_F3_2 then
    Cacheable
      match split_x0 (c_rd_rs1 instr) with
      | X0 => UnknownCompressed instr
      | NonZero rd_rs1 => CLwsp {| cibnz_rd_rs1 := rd_rs1; cibnz_imm := ci_lwsp_imm instr |}
      end
  else if f3 =? C_F3_3 then
    Cacheable
      match split_x0 (c_rd_rs1 instr) with
      | X0 => UnknownCompressed instr
      | NonZero rd_rs1 => CLdsp {| cibnz_rd_rs1 := rd_rs1; cibnz_imm := ci_ldsp_imm instr |}
      end
  else if f3 =? C_F3_4 then
    match bit 16 instr 12, split_x0 (c_rd_rs1 instr), split_x0 (c_rs2 instr) with
    | true, X0, X0 => Uncacheable CEbreak
    | _, X0, X0 => Cacheable (UnknownCompressed instr)
    | _, X0, NonZero _ => Cacheable (HintCompressed instr)
    | true, NonZero rs1, X0 => Cacheable (CJalr {| crj_rs1 := rs1 |})
    | true, NonZero rd_rs1, NonZero rs2 =>
        Cacheable (CAdd {| cnzr_rd_rs1 := rd_rs1; cnzr_rs2 := rs2 |})
    | false, NonZero rs1, X0 => Cacheable (CJr {| crj_rs1 := rs1 |})
    | false, NonZero rd_rs1, NonZero rs2 =>
        Cacheable (CMv {| cnzr_rd_rs1 := rd_rs1; cnzr_rs2 := rs2 |})
    end
  else if f3 =? C_F3_5 then
    Cacheable (CFsdsp {| cssd_rs2 := c_f_rs2 instr; cssd_imm := css_sdsp_imm instr |})
  else if f3 =? C_F3_6 then
    Cacheable (CSwsp {| css_rs2 := c_rs2 instr; css_imm := css_swsp_imm instr |})
  else if f3 =? C_F3_7 then
    Cacheable (CSdsp {| css_rs2 := c_rs2 instr; css_imm := css_sdsp_imm instr |})
  else Cacheable (UnknownCompressed instr).

Definition parse_compressed_instruction_inner (instr : Z) : Instr :=
  let op := c_opcode instr in
  if op =? OP_C0 then Cacheable (parse_c0 instr)
  else if op =? OP_C1 then Cacheable (parse_c1 instr)
  else if op =? OP_C2 then parse_c2 instr
  else Cacheable (UnknownCompressed instr).

(** ** Instruction streams *)
Definition NUM_COMPRESSED_INSTRUCTIONS : Z := 2 ^ 16.

(** [COMPRESSED_JUMP_TABLE]: the [while] loop fills index [0] to [u16::MAX - 1],
    and the statement after it index [u16::MAX]. *)
Definition COMPRESSED_JUMP_TABLE : list Instr :=
  parse_compressed_instruction_inner <$> seqZ 0 NUM_COMPRESSED_INSTRUCTIONS.

(** The index is in bounds for every [u16] ([parse_compressed_instruction_inner_eq]);
    out of bounds Rust panics. *)
Definition parse_compressed_instruction (bytes : Z) : option Instr :=
  COMPRESSED_JUMP_TABLE !! Z.to_nat bytes.

Definition is_compressed (bytes : Z) : bool := negb (Z.land bytes 3 =? 3).

(** [parse]: [more] is the closure that produces the upper half, as a computation
    over the caller's state. *)
Definition parse {S E} (bytes : Z) (more : M S (result Z E)) : M S (result Instr E) :=
  if negb (Z.land bytes 3 =? 3) then
    i <- mlift (parse_compressed_instruction bytes) ;; mret (Ok i)
  else
    upper <- more ;;
    match upper with
    | Err e => mret (Err e)
    | Ok upper =>
        let combined := Z.lor (shl 32 upper 16) bytes in
        mret (Ok (parse_uncompressed_instruction combined))
    end.

(** [u16_iter_from_u8_iter], run to exhaustion: a trailing odd byte is dropped. *)
Fixpoint u16_iter_from_u8_iter (iter : list Z) : list Z :=
  match iter with
  | lower :: upper :: rest => Z.lor lower (Z.shiftl upper 8) :: u16_iter_from_u8_iter rest
  | _ => []
  end.

(** One step of [instr_iter_from_u16_iter]: [None] ends the iteration. *)
Definition next_u16 : M (list Z) (result Z unit) :=
  fun iter => match iter with [] => Some (Err tt, []) | h :: t => Some (Ok h, t) end.

Definition instr_iter_next : M (list Z) (option Instr) :=
  h <- next_u16 ;;
  match h with
  | Err _ => mret None
  | Ok bytes => r <- parse bytes next_u16 ;; mret (match r with Ok i => Some i | Err _ => None end)
  end.

(** [collect]: every step that yields an instruction consumes a half word, so
    the number of half words is enough fuel. *)
Fixpoint collect_instrs (fuel : nat) (iter : list Z) : option (list Instr) :=
  match fuel with
  | O => None
  | S fuel =>
      match instr_iter_next iter with
      | None => None
      | Some (None, _) => Some []
      | Some (Some i, rest) =>
          match collect_instrs fuel rest with Some instrs => Some (i :: instrs) | None => None end
      end
  end.

Definition instr_iter_from_u16_iter (iter : list Z) : option (list Instr) :=
  collect_instrs (S (length iter)) iter.

Definition parse_block (bytes : list Z) : option (list Instr) :=
  instr_iter_from_u16_iter (u16_iter_from_u8_iter bytes).

(** [&contents[range]]: [None] is the panic on a range out of bounds. *)
Definition slice {A} (l : list A) (start fin : nat) : option (list A) :=
  if (start <=? fin)%nat && (fin <=? length l)%nat then Some (take (fin - start) (drop start l))
  else None.

Definition parse_segment (contents : list Z) (start fin : nat) : option (list Instr) :=
  match slice contents start fin with Some bytes => parse_block bytes | None => None end.

(** ** Lemmas *)

Lemma bits_field bytes pos n : 0 <= n <= 32 -> 0 <= pos ->
  bits bytes pos n = field pos n bytes.
Proof.
  intros. unfold bits, field. f_equal. change (2 ^ 32 - 1) with (Z.ones 32). bitwise.
Qed.
Lemma c_bits_field bytes pos n : 0 <= n <= 16 -> 0 <= pos ->
  c_bits bytes pos n = field pos n bytes.
Proof.
  intros. unfold c_bits, field. f_equal. change (2 ^ 16 - 1) with (Z.ones 16). bitwise.
Qed.

Lemma c_reg_prime_range instr pos : 0 <= pos -> 8 <= c_reg_prime instr pos <= 15.
Proof.
  intros. unfold c_reg_prime. pose proof (field_range pos 3 instr ltac:(lia)) as Hr.
  unfold urange in Hr. rewrite wrap_small by (unfold urange; lia). lia.
Qed.

(** [c_rs1p_nz] and [c_rdp_rs2p_nz] never panic: the register is [x8] to [x15]. *)
Lemma c_reg_prime_nz instr pos : 0 <= pos ->
  exists r, assert_from (parse_xregister (c_reg_prime instr pos)) = Some r
    /\ nz_num r = c_reg_prime instr pos.
Proof.
  intros Hp. pose proof (c_reg_prime_range instr pos Hp) as Hr.
  revert Hr; generalize (c_reg_prime instr pos); intros z Hr.
  refine (Forall_range (fun z => exists r, assert_from (parse_xregister z) = Some r /\ nz_num r = z)
    8 8 _ z _); [|lia].
  repeat constructor; eexists; split; reflexivity.
Qed.

Lemma split_x0_nz r : split_x0 (xreg_of_nz r) = NonZero r.
Proof. destruct r; reflexivity. Qed.
Lemma split_x0_inv r : match split_x0 r with X0 => r = x0 | NonZero nz => r = xreg_of_nz nz end.
Proof. destruct r; reflexivity. Qed.

(** The jump table holds the decoding of every 16-bit word. *)
Lemma parse_compressed_instruction_inner_eq bytes : urange 16 bytes ->
  parse_compressed_instruction bytes = Some (parse_compressed_instruction_inner bytes).
Proof.
  intros [H0 H1]. unfold parse_compressed_instruction, COMPRESSED_JUMP_TABLE.
  rewrite list_lookup_fmap.
  assert (Hlen : 0 <= bytes < NUM_COMPRESSED_INSTRUCTIONS) by (split; assumption).
  clear H0 H1. revert Hlen. generalize NUM_COMPRESSED_INSTRUCTIONS. intros n [? ?].
  rewrite lookup_seqZ_lt by lia. rewrite Z2Nat.id, Z.add_0_l by lia. reflexivity.
Qed.

#[export] Hint Rewrite split_x0_nz : pvm.
