(* ===== verification/Encoding.v ===== *)
(** * A reference encoder

    The instruction formats of the RISC-V manual, as the words an assembler
    would emit for each instruction of the decoder: written from the format
    tables of the manual, without the fields and masks of [parser.rs].  The
    theorems of [ParserSpec] and [ParserSpecC] compare the decoder with it. *)

From S2P Require Import Prelude.
From S2P Require Import Bits.
From S2P Require Import Registers.
From S2P Require Import Csr.
From S2P Require Import Instr.

Definition flag (b : bool) : Z := if b then 1 else 0.

Definition parsed_num (r : XRegisterParsed) : Z :=
  match r with X0 => 0 | NonZero r => nz_num r end.

Definition rm_num (rm : InstrRoundingMode) : Z :=
  match rm with
  | Dynamic => 7
  | Static RNE => 0 | Static RTZ => 1 | Static RDN => 2 | Static RUP => 3 | Static RMM => 4
  end.

(** ** 32-bit formats *)
Definition enc_r (f7 rs2 rs1 f3 rd op : Z) : Z :=
  op + rd * 2 ^ 7 + f3 * 2 ^ 12 + rs1 * 2 ^ 15 + rs2 * 2 ^ 20 + f7 * 2 ^ 25.
Definition enc_i (imm rs1 f3 rd op : Z) : Z :=
  enc_r (field 5 7 imm) (field 0 5 imm) rs1 f3 rd op.
Definition enc_s (imm rs2 rs1 f3 op : Z) : Z :=
  enc_r (field 5 7 imm) rs2 rs1 f3 (field 0 5 imm) op.
Definition enc_b (imm rs2 rs1 f3 op : Z) : Z :=
  enc_r (field 12 1 imm * 2 ^ 6 + field 5 6 imm) rs2 rs1 f3
    (field 1 4 imm * 2 + field 11 1 imm) op.
Definition enc_u (imm rd op : Z) : Z :=
  enc_r (field 25 7 imm) (field 20 5 imm) (field 15 5 imm) (field 12 3 imm) rd op.
Definition enc_j (imm rd op : Z) : Z :=
  enc_r (field 20 1 imm * 2 ^ 6 + field 5 6 imm) (field 1 4 imm * 2 + field 11 1 imm)
    (field 15 5 imm) (field 12 3 imm) rd op.

Definition enc_rr (f7 f3 op : Z) (a : RTypeArgs) : Z :=
  enc_r f7 (xreg_num (r_rs2 a)) (xreg_num (r_rs1 a)) f3 (xreg_num (r_rd a)) op.
Definition enc_nzr (f7 f3 op : Z) (a : NonZeroRdRTypeArgs) : Z :=
  enc_r f7 (xreg_num (nzr_rs2 a)) (xreg_num (nzr_rs1 a)) f3 (nz_num (nzr_rd a)) op.
Definition enc_it (f3 op : Z) (a : ITypeArgs) : Z :=
  enc_i (it_imm a) (xreg_num (it_rs1 a)) f3 (xreg_num (it_rd a)) op.
Definition enc_nzi (f3 op : Z) (a : NonZeroRdITypeArgs) : Z :=
  enc_i (nzri_imm a) (xreg_num (nzri_rs1 a)) f3 (nz_num (nzri_rd a)) op.
Definition enc_amo (f5 f3 : Z) (a : AmoArgs) : Z :=
  enc_r (f5 * 4 + flag (amo_aq a) * 2 + flag (amo_rl a)) (xreg_num (amo_rs2 a))
    (xreg_num (amo_rs1 a)) f3 (xreg_num (amo_rd a)) 0x2F.
Definition enc_csr (csr : CSRegister) (src f3 : Z) (rd : XRegister) : Z :=
  enc_i (csr_repr csr) src f3 (xreg_num rd) 0x73.

(** Floating point: [rs2] is a register or selects the operation. *)
Definition enc_op_fp (f5 fmt rs2 rs1 f3 rd : Z) : Z := enc_r (f5 * 4 + fmt) rs2 rs1 f3 rd 0x53.
Definition enc_fl (f3 : Z) (a : FLoadArgs) : Z :=
  enc_i (fld_imm a) (xreg_num (fld_rs1 a)) f3 (freg_repr (fld_rd a)) 0x07.
Definition enc_fs (f3 : Z) (a : FStoreArgs) : Z :=
  enc_s (fst_imm a) (freg_repr (fst_rs2 a)) (xreg_num (fst_rs1 a)) f3 0x27.
Definition enc_fr3 (fmt op : Z) (a : FR3ArgsWithRounding) : Z :=
  enc_r (freg_repr (fr3_rs3 a) * 4 + fmt) (freg_repr (fr3_rs2 a)) (freg_repr (fr3_rs1 a))
    (rm_num (fr3_rm a)) (freg_repr (fr3_rd a)) op.
Definition enc_fr2 (f5 fmt : Z) (a : FR2ArgsWithRounding) : Z :=
  enc_op_fp f5 fmt (freg_repr (fr2_rs2 a)) (freg_repr (fr2_rs1 a)) (rm_num (fr2_rm a))
    (freg_repr (fr2_rd a)).
Definition enc_fr1 (f5 fmt sel : Z) (a : FR1ArgWithRounding) : Z :=
  enc_op_fp f5 fmt sel (freg_repr (fr1_rs1 a)) (rm_num (fr1_rm a)) (freg_repr (fr1_rd a)).
Definition enc_fr (f5 fmt f3 : Z) (a : FRArgs) : Z :=
  enc_op_fp f5 fmt (freg_repr (fr_rs2 a)) (freg_repr (fr_rs1 a)) f3 (freg_repr (fr_rd a)).
Definition enc_fcmp (fmt f3 : Z) (a : FCmpArgs) : Z :=
  enc_op_fp 20 fmt (freg_repr (fcmp_rs2 a)) (freg_repr (fcmp_rs1 a)) f3 (xreg_num (fcmp_rd a)).
Definition enc_fxr (fmt sel : Z) (a : FRegToXRegArgsWithRounding) : Z :=
  enc_op_fp 24 fmt sel (freg_repr (fxr_rs1 a)) (rm_num (fxr_rm a)) (xreg_num (fxr_rd a)).
Definition enc_xfr (fmt sel : Z) (a : XRegToFRegArgsWithRounding) : Z :=
  enc_op_fp 26 fmt sel (xreg_num (xfr_rs1 a)) (rm_num (xfr_rm a)) (freg_repr (xfr_rd a)).
Definition enc_fx (fmt f3 : Z) (a : FRegToXRegArgs) : Z :=
  enc_op_fp 28 fmt 0 (freg_repr (fx_rs1 a)) f3 (xreg_num (fx_rd a)).

Definition fence_bits (s : FenceSet) : Z :=
  flag (fs_i s) * 8 + flag (fs_o s) * 4 + flag (fs_r s) * 2 + flag (fs_w s).
Definition enc_fence (fm : Z) (a : FenceArgs) : Z :=
  0x0F + fence_bits (fence_succ a) * 2 ^ 20 + fence_bits (fence_pred a) * 2 ^ 24 + fm * 2 ^ 28.

(** ** 16-bit formats: the registers of three bits are [x8] to [x15] *)
Definition enc_ci_bits (b12 rd low f3 op : Z) : Z :=
  op + low * 2 ^ 2 + rd * 2 ^ 7 + b12 * 2 ^ 12 + f3 * 2 ^ 13.
Definition enc_ci (imm rd f3 op : Z) : Z :=
  enc_ci_bits (field 5 1 imm) rd (field 0 5 imm) f3 op.
Definition enc_css (imm6 rs2 f3 : Z) : Z := 2 + rs2 * 2 ^ 2 + imm6 * 2 ^ 7 + f3 * 2 ^ 13.
Definition enc_ldsp (imm rd f3 : Z) : Z :=
  enc_ci_bits (field 5 1 imm) rd (field 3 2 imm * 8 + field 6 3 imm) f3 2.
Definition enc_sdsp (imm rs2 f3 : Z) : Z :=
  enc_css (field 3 3 imm * 8 + field 6 3 imm) rs2 f3.
Definition enc_ciw (imm rd f3 op : Z) : Z :=
  op + (rd - 8) * 2 ^ 2 + field 3 1 imm * 2 ^ 5 + field 2 1 imm * 2 ^ 6
  + field 6 4 imm * 2 ^ 7 + field 4 2 imm * 2 ^ 11 + f3 * 2 ^ 13.
(** The offset of [CL] and [CS]: bits [12:10] and bits [6:5]. *)
Definition scatter_w (imm : Z) : Z := field 3 3 imm * 2 ^ 10 + field 2 1 imm * 2 ^ 6 + field 6 1 imm * 2 ^ 5.
Definition scatter_d (imm : Z) : Z := field 3 3 imm * 2 ^ 10 + field 6 2 imm * 2 ^ 5.
Definition enc_cl (offset rs1 rd f3 : Z) : Z :=
  (rd - 8) * 2 ^ 2 + (rs1 - 8) * 2 ^ 7 + offset + f3 * 2 ^ 13.
Definition enc_cb_alu (imm f2 rd : Z) : Z :=
  1 + field 0 5 imm * 2 ^ 2 + (rd - 8) * 2 ^ 7 + f2 * 2 ^ 10 + field 5 1 imm * 2 ^ 12 + 4 * 2 ^ 13.
Definition enc_ca (b12 f2 : Z) (a : CRTypeArgs) : Z :=
  1 + (xreg_num (cr_rs2 a) - 8) * 2 ^ 2 + f2 * 2 ^ 5 + (xreg_num (cr_rd_rs1 a) - 8) * 2 ^ 7
  + 3 * 2 ^ 10 + b12 * 2 ^ 12 + 4 * 2 ^ 13.
Definition enc_cb (imm rs1 f3 : Z) : Z :=
  1 + field 5 1 imm * 2 ^ 2 + field 1 2 imm * 2 ^ 3 + field 6 2 imm * 2 ^ 5 + (rs1 - 8) * 2 ^ 7
  + field 3 2 imm * 2 ^ 10 + field 8 1 imm * 2 ^ 12 + f3 * 2 ^ 13.
Definition enc_cj (imm : Z) : Z :=
  1 + field 5 1 imm * 2 ^ 2 + field 1 3 imm * 2 ^ 3 + field 7 1 imm * 2 ^ 6 + field 6 1 imm * 2 ^ 7
  + field 10 1 imm * 2 ^ 8 + field 8 2 imm * 2 ^ 9 + field 4 1 imm * 2 ^ 11
  + field 11 1 imm * 2 ^ 12 + 5 * 2 ^ 13.

(** ** The encoder: words without a meaning stand for themselves *)
Definition encode_cacheable (i : InstrCacheable) : Z :=
  match i with
  | Instrs.Add a => enc_nzr 0x00 0 0x33 a
  | Instrs.Sub a => enc_nzr 0x20 0 0x33 a
  | Instrs.Sll a => enc_nzr 0x00 1 0x33 a
  | Instrs.Slt a => enc_nzr 0x00 2 0x33 a
  | Instrs.Sltu a => enc_nzr 0x00 3 0x33 a
  | Instrs.Xor a => enc_nzr 0x00 4 0x33 a
  | Instrs.Srl a => enc_nzr 0x00 5 0x33 a
  | Instrs.Sra a => enc_nzr 0x20 5 0x33 a
  | Instrs.Or a => enc_nzr 0x00 6 0x33 a
  | Instrs.And a => enc_nzr 0x00 7 0x33 a
  | Instrs.Addw a => enc_nzr 0x00 0 0x3B a
  | Instrs.Subw a => enc_nzr 0x20 0 0x3B a
  | Instrs.Sllw a => enc_nzr 0x00 1 0x3B a
  | Instrs.Srlw a => enc_nzr 0x00 5 0x3B a
  | Instrs.Sraw a => enc_nzr 0x20 5 0x3B a
  | Instrs.Mul a => enc_rr 0x01 0 0x33 a
  | Instrs.Mulh a => enc_rr 0x01 1 0x33 a
  | Instrs.Mulhsu a => enc_rr 0x01 2 0x33 a
  | Instrs.Mulhu a => enc_rr 0x01 3 0x33 a
  | Instrs.Div a => enc_rr 0x01 4 0x33 a
  | Instrs.Divu a => enc_rr 0x01 5 0x33 a
  | Instrs.Rem a => enc_rr 0x01 6 0x33 a
  | Instrs.Remu a => enc_rr 0x01 7 0x33 a
  | Instrs.Mulw a => enc_rr 0x01 0 0x3B a
  | Instrs.Divw a => enc_rr 0x01 4 0x3B a
  | Instrs.Divuw a => enc_rr 0x01 5 0x3B a
  | Instrs.Remw a => enc_rr 0x01 6 0x3B a
  | Instrs.Remuw a => enc_rr 0x01 7 0x3B a
  | Instrs.Addi a => enc_i (si_imm a) (parsed_num (si_rs1 a)) 0 (parsed_num (si_rd a)) 0x13
  | Instrs.Slti a => enc_nzi 2 0x13 a
  | Instrs.Sltiu a => enc_nzi 3 0x13 a
  | Instrs.Xori a => enc_nzi 4 0x13 a
  | Instrs.Ori a => enc_nzi 6 0x13 a
  | Instrs.Andi a => enc_nzi 7 0x13 a
  | Instrs.Slli a => enc_nzi 1 0x13 a
  | Instrs.Srli a => enc_nzi 5 0x13 a
  | Instrs.Srai a => enc_i (0x400 + nzri_imm a) (xreg_num (nzri_rs1 a)) 5 (nz_num (nzri_rd a)) 0x13
  | Instrs.Addiw a => enc_nzi 0 0x1B a
  | Instrs.Slliw a => enc_nzi 1 0x1B a
  | Instrs.Srliw a => enc_nzi 5 0x1B a
  | Instrs.Sraiw a => enc_nzi 5 0x1B a
  | Instrs.Lb a => enc_it 0 0x03 a
  | Instrs.Lh a => enc_it 1 0x03 a
  | Instrs.Lw a => enc_it 2 0x03 a
  | Instrs.Ld a => enc_it 3 0x03 a
  | Instrs.Lbu a => enc_it 4 0x03 a
  | Instrs.Lhu a => enc_it 5 0x03 a
  | Instrs.Lwu a => enc_it 6 0x03 a
  | Instrs.Jalr a => enc_it 0 0x67 a
  | Instrs.Sb a => enc_s (sb_imm a) (xreg_num (sb_rs2 a)) (xreg_num (sb_rs1 a)) 0 0x23
  | Instrs.Sh a => enc_s (sb_imm a) (xreg_num (sb_rs2 a)) (xreg_num (sb_rs1 a)) 1 0x23
  | Instrs.Sw a => enc_s (sb_imm a) (xreg_num (sb_rs2 a)) (xreg_num (sb_rs1 a)) 2 0x23
  | Instrs.Sd a => enc_s (sb_imm a) (xreg_num (sb_rs2 a)) (xreg_num (sb_rs1 a)) 3 0x23
  | Instrs.Beq a => enc_b (sb_imm a) (xreg_num (sb_rs2 a)) (xreg_num (sb_rs1 a)) 0 0x63
  | Instrs.Bne a => enc_b (sb_imm a) (xreg_num (sb_rs2 a)) (xreg_num (sb_rs1 a)) 1 0x63
  | Instrs.Blt a => enc_b (sb_imm a) (xreg_num (sb_rs2 a)) (xreg_num (sb_rs1 a)) 4 0x63
  | Instrs.Bge a => enc_b (sb_imm a) (xreg_num (sb_rs2 a)) (xreg_num (sb_rs1 a)) 5 0x63
  | Instrs.Bltu a => enc_b (sb_imm a) (xreg_num (sb_rs2 a)) (xreg_num (sb_rs1 a)) 6 0x63
  | Instrs.Bgeu a => enc_b (sb_imm a) (xreg_num (sb_rs2 a)) (xreg_num (sb_rs1 a)) 7 0x63
  | Instrs.Lui a => enc_u (nzuj_imm a) (nz_num (nzuj_rd a)) 0x37
  | Instrs.Auipc a => enc_u (nzuj_imm a) (nz_num (nzuj_rd a)) 0x17
  | Instrs.Jal a => enc_j (uj_imm a) (xreg_num (uj_rd a)) 0x6F
  | Instrs.Lrw a => enc_amo 2 2 a
  | Instrs.Scw a => enc_amo 3 2 a
  | Instrs.Amoswapw a => enc_amo 1 2 a
  | Instrs.Amoaddw a => enc_amo 0 2 a
  | Instrs.Amoxorw a => enc_amo 4 2 a
  | Instrs.Amoandw a => enc_amo 12 2 a
  | Instrs.Amoorw a => enc_amo 8 2 a
  | Instrs.Amominw a => enc_amo 16 2 a
  | Instrs.Amomaxw a => enc_amo 20 2 a
  | Instrs.Amominuw a => enc_amo 24 2 a
  | Instrs.Amomaxuw a => enc_amo 28 2 a
  | Instrs.Lrd a => enc_amo 2 3 a
  | Instrs.Scd a => enc_amo 3 3 a
  | Instrs.Amoswapd a => enc_amo 1 3 a
  | Instrs.Amoaddd a => enc_amo 0 3 a
  | Instrs.Amoxord a => enc_amo 4 3 a
  | Instrs.Amoandd a => enc_amo 12 3 a
  | Instrs.Amoord a => enc_amo 8 3 a
  | Instrs.Amomind a => enc_amo 16 3 a
  | Instrs.Amomaxd a => enc_amo 20 3 a
  | Instrs.Amominud a => enc_amo 24 3 a
  | Instrs.Amomaxud a => enc_amo 28 3 a
  | Instrs.Csrrw a => enc_csr (csr_csr a) (xreg_num (csr_rs1 a)) 1 (csr_rd a)
  | Instrs.Csrrs a => enc_csr (csr_csr a) (xreg_num (csr_rs1 a)) 2 (csr_rd a)
  | Instrs.Csrrc a => enc_csr (csr_csr a) (xreg_num (csr_rs1 a)) 3 (csr_rd a)
  | Instrs.Csrrwi a => enc_csr (csri_csr a) (csri_imm a) 5 (csri_rd a)
  | Instrs.Csrrsi a => enc_csr (csri_csr a) (csri_imm a) 6 (csri_rd a)
  | Instrs.Csrrci a => enc_csr (csri_csr a) (csri_imm a) 7 (csri_rd a)
  | Instrs.Flw a => enc_fl 2 a
  | Instrs.Fld a => enc_fl 3 a
  | Instrs.Fsw a => enc_fs 2 a
  | Instrs.Fsd a => enc_fs 3 a
  | Instrs.Fmadds a => enc_fr3 0 0x43 a
  | Instrs.Fmsubs a => enc_fr3 0 0x47 a
  | Instrs.Fnmsubs a => enc_fr3 0 0x4B a
  | Instrs.Fnmadds a => enc_fr3 0 0x4F a
  | Instrs.Fadds a => enc_fr2 0 0 a
  | Instrs.Fsubs a => enc_fr2 1 0 a
  | Instrs.Fmuls a => enc_fr2 2 0 a
  | Instrs.Fdivs a => enc_fr2 3 0 a
  | Instrs.Fsgnjs a => enc_fr 4 0 0 a
  | Instrs.Fsgnjns a => enc_fr 4 0 1 a
  | Instrs.Fsgnjxs a => enc_fr 4 0 2 a
  | Instrs.Fmins a => enc_fr 5 0 0 a
  | Instrs.Fmaxs a => enc_fr 5 0 1 a
  | Instrs.Fsqrts a => enc_fr1 11 0 0 a
  | Instrs.Fcvtsd a => enc_fr1 8 0 1 a
  | Instrs.Fles a => enc_fcmp 0 0 a
  | Instrs.Flts a => enc_fcmp 0 1 a
  | Instrs.Feqs a => enc_fcmp 0 2 a
  | Instrs.Fcvtws a => enc_fxr 0 0 a
  | Instrs.Fcvtsw a => enc_xfr 0 0 a
  | Instrs.Fcvtwus a => enc_fxr 0 1 a
  | Instrs.Fcvtswu a => enc_xfr 0 1 a
  | Instrs.Fcvtls a => enc_fxr 0 2 a
  | Instrs.Fcvtsl a => enc_xfr 0 2 a
  | Instrs.Fcvtlus a => enc_fxr 0 3 a
  | Instrs.Fcvtslu a => enc_xfr 0 3 a
  | Instrs.FmvXW a => enc_fx 0 0 a
  | Instrs.FclassS a => enc_fx 0 1 a
  | Instrs.FmvWX a => enc_op_fp 30 0 0 (xreg_num (xf_rs1 a)) 0 (freg_repr (xf_rd a))
  | Instrs.Fmaddd a => enc_fr3 1 0x43 a
  | Instrs.Fmsubd a => enc_fr3 1 0x47 a
  | Instrs.Fnmsubd a => enc_fr3 1 0x4B a
  | Instrs.Fnmaddd a => enc_fr3 1 0x4F a
  | Instrs.Faddd a => enc_fr2 0 1 a
  | Instrs.Fsubd a => enc_fr2 1 1 a
  | Instrs.Fmuld a => enc_fr2 2 1 a
  | Instrs.Fdivd a => enc_fr2 3 1 a
  | Instrs.Fsgnjd a => enc_fr 4 1 0 a
  | Instrs.Fsgnjnd a => enc_fr 4 1 1 a
  | Instrs.Fsgnjxd a => enc_fr 4 1 2 a
  | Instrs.Fmind a => enc_fr 5 1 0 a
  | Instrs.Fmaxd a => enc_fr 5 1 1 a
  | Instrs.Fsqrtd a => enc_fr1 11 1 0 a
  | Instrs.Fcvtds a => enc_fr1 8 1 0 a
  | Instrs.Fled a => enc_fcmp 1 0 a
  | Instrs.Fltd a => enc_fcmp 1 1 a
  | Instrs.Feqd a => enc_fcmp 1 2 a
  | Instrs.Fcvtwd a => enc_fxr 1 0 a
  | Instrs.Fcvtdw a => enc_xfr 1 0 a
  | Instrs.Fcvtwud a => enc_fxr 1 1 a
  | Instrs.Fcvtdwu a => enc_xfr 1 1 a
  | Instrs.Fcvtld a => enc_fxr 1 2 a
  | Instrs.Fcvtdl a => enc_xfr 1 2 a
  | Instrs.Fcvtlud a => enc_fxr 1 3 a
  | Instrs.Fcvtdlu a => enc_xfr 1 3 a
  | Instrs.FmvXD a => enc_fx 1 0 a
  | Instrs.FclassD a => enc_fx 1 1 a
  | Instrs.FmvDX a => enc_op_fp 30 1 0 (xreg_num (xf_rs1 a)) 0 (freg_repr (xf_rd a))
  | Instrs.Ecall => 0x00000073
  | Instrs.Wfi => 0x10500073
  | Instrs.CAddi4spn a => enc_ciw (cib_imm a) (xreg_num (cib_rd_rs1 a)) 0 0
  | Instrs.CFld a => enc_cl (scatter_d (fld_imm a)) (xreg_num (fld_rs1 a)) (freg_repr (fld_rd a)) 1
  | Instrs.CLw a => enc_cl (scatter_w (nzi_imm a)) (nz_num (nzi_rs1 a)) (nz_num (nzi_rd a)) 2
  | Instrs.CLd a => enc_cl (scatter_d (nzi_imm a)) (nz_num (nzi_rs1 a)) (nz_num (nzi_rd a)) 3
  | Instrs.CFsd a => enc_cl (scatter_d (fst_imm a)) (xreg_num (fst_rs1 a)) (freg_repr (fst_rs2 a)) 5
  | Instrs.CSw a => enc_cl (scatter_w (nzsb_imm a)) (nz_num (nzsb_rs1 a)) (nz_num (nzsb_rs2 a)) 6
  | Instrs.CSd a => enc_cl (scatter_d (nzsb_imm a)) (nz_num (nzsb_rs1 a)) (nz_num (nzsb_rs2 a)) 7
  | Instrs.CNop => 0x0001
  | Instrs.CAddi a => enc_ci (cibnz_imm a) (nz_num (cibnz_rd_rs1 a)) 0 1
  | Instrs.CAddiw a => enc_ci (cibnz_imm a) (nz_num (cibnz_rd_rs1 a)) 1 1
  | Instrs.CLi a => enc_ci (cibnz_imm a) (nz_num (cibnz_rd_rs1 a)) 2 1
  | Instrs.CAddi16sp a => enc_ci_bits (field 9 1 (cjt_imm a)) 2
      (field 4 1 (cjt_imm a) * 16 + field 6 1 (cjt_imm a) * 8 + field 7 2 (cjt_imm a) * 2
       + field 5 1 (cjt_imm a)) 3 1
  | Instrs.CLui a => enc_ci (Z.shiftr (cibnz_imm a) 12) (nz_num (cibnz_rd_rs1 a)) 3 1
  | Instrs.CSrli a => enc_cb_alu (cib_imm a) 0 (xreg_num (cib_rd_rs1 a))
  | Instrs.CSrai a => enc_cb_alu (cib_imm a) 1 (xreg_num (cib_rd_rs1 a))
  | Instrs.CAndi a => enc_cb_alu (cib_imm a) 2 (xreg_num (cib_rd_rs1 a))
  | Instrs.CSub a => enc_ca 0 0 a
  | Instrs.CXor a => enc_ca 0 1 a
  | Instrs.COr a => enc_ca 0 2 a
  | Instrs.CAnd a => enc_ca 0 3 a
  | Instrs.CSubw a => enc_ca 1 0 a
  | Instrs.CAddw a => enc_ca 1 1 a
  | Instrs.CJ a => enc_cj (cjt_imm a)
  | Instrs.CBeqz a => enc_cb (cib_imm a) (xreg_num (cib_rd_rs1 a)) 6
  | Instrs.CBnez a => enc_cb (cib_imm a) (xreg_num (cib_rd_rs1 a)) 7
  | Instrs.CSlli a => enc_ci (cibnz_imm a) (nz_num (cibnz_rd_rs1 a)) 0 2
  | Instrs.CFldsp a => enc_ldsp (cibd_imm a) (freg_repr (cibd_rd_rs1 a)) 1
  | Instrs.CLwsp a => enc_ci_bits (field 5 1 (cibnz_imm a)) (nz_num (cibnz_rd_rs1 a))
      (field 2 3 (cibnz_imm a) * 4 + field 6 2 (cibnz_imm a)) 2 2
  | Instrs.CLdsp a => enc_ldsp (cibnz_imm a) (nz_num (cibnz_rd_rs1 a)) 3
  | Instrs.CJr a => enc_ci_bits 0 (nz_num (crj_rs1 a)) 0 4 2
  | Instrs.CMv a => enc_ci_bits 0 (nz_num (cnzr_rd_rs1 a)) (nz_num (cnzr_rs2 a)) 4 2
  | Instrs.CJalr a => enc_ci_bits 1 (nz_num (crj_rs1 a)) 0 4 2
  | Instrs.CAdd a => enc_ci_bits 1 (nz_num (cnzr_rd_rs1 a)) (nz_num (cnzr_rs2 a)) 4 2
  | Instrs.CFsdsp a => enc_sdsp (cssd_imm a) (freg_repr (cssd_rs2 a)) 5
  | Instrs.CSwsp a => enc_css (field 2 4 (css_imm a) * 4 + field 6 2 (css_imm a)) (xreg_num (css_rs2 a)) 6
  | Instrs.CSdsp a => enc_sdsp (css_imm a) (xreg_num (css_rs2 a)) 7
  | Instrs.Unknown w | Instrs.Hint w | Instrs.UnknownCompressed w | Instrs.HintCompressed w => w
  end.

Definition encode (i : Instr) : Z :=
  match i with
  | Cacheable i => encode_cacheable i
  | Uncacheable (Instrs.Fence a) => enc_fence 0 a
  | Uncacheable (Instrs.FenceTso a) => enc_fence 8 a
  | Uncacheable Instrs.FenceI => 0x0000100F
  | Uncacheable Instrs.Ebreak => 0x00100073
  | Uncacheable Instrs.CEbreak => 0x9002
  end.
