(* ===== verification/ParserSpec.v ===== *)
(** * The decoder of 32-bit instructions against the reference encoder

    The fields and immediates of [Parser] as bit fields of the word, and the theorem
    that encoding what a word decodes to gives the word back, up to the bits that the
    decoder does not look at ([unchecked]). *)

From S2P Require Import Prelude.
From S2P Require Import Bits.
From S2P Require Import Registers.
From S2P Require Import Csr.
From S2P Require Import Instr.
From S2P Require Import Parser.
From S2P Require Import Encoding.

(** ** Fields *)

(** A word that is a value at bit [p] between a lower and a higher part. *)
Lemma field_place lo v hi p n : 0 <= p -> 0 <= n -> 0 <= lo < 2 ^ p -> urange n v ->
  field p n (lo + v * 2 ^ p + hi * 2 ^ (p + n)) = v.
Proof.
  unfold urange. intros Hp Hn Hlo Hv. pose proof (pow2_pos p Hp).
  rewrite field_mod by lia. rewrite Z.pow_add_r by lia.
  replace ((lo + v * 2 ^ p + hi * (2 ^ p * 2 ^ n)) / 2 ^ p) with (v + hi * 2 ^ n).
  2: { apply Z.div_unique with lo; [lia | ring]. }
  rewrite Z_mod_plus_full. apply Z.mod_small. lia.
Qed.

(** Peeling the lowest field off a word. *)
Lemma field_peel p n z : 0 <= p -> 0 <= n -> z / 2 ^ p = field p n z + z / 2 ^ (p + n) * 2 ^ n.
Proof.
  intros. rewrite field_mod, Z.pow_add_r by lia.
  pose proof (pow2_pos n ltac:(lia)). rewrite <- Z.div_div by lia.
  rewrite (Z.div_mod (z / 2 ^ p) (2 ^ n)) at 1 by lia. lia.
Qed.

Lemma field_field p n q m z : 0 <= p -> 0 <= n -> 0 <= q -> p + n <= m ->
  field p n (field q m z) = field (p + q) n z.
Proof. intros. bitwise. Qed.

Lemma field_top p n z : 0 <= p -> 0 <= n -> urange (p + n) z -> field p n z = z / 2 ^ p.
Proof.
  unfold urange. intros Hp Hn Hz. pose proof (pow2_pos p Hp).
  rewrite field_mod by lia. apply Z.mod_small. rewrite Z.pow_add_r in Hz by lia.
  split; [apply Z.div_pos; lia | apply Z.div_lt_upper_bound; lia].
Qed.

(** The fields of [enc_r]. *)
Record r_ranges (f7 rs2 rs1 f3 rd op : Z) : Prop := mkRRanges
  { rr_f7 : urange 7 f7; rr_rs2 : urange 5 rs2; rr_rs1 : urange 5 rs1;
    rr_f3 : urange 3 f3; rr_rd : urange 5 rd; rr_op : urange 7 op }.

Ltac place lo v hi :=
  match goal with |- field ?p ?n ?w = _ =>
    replace w with (lo + v * 2 ^ p + hi * 2 ^ (p + n));
    [ apply field_place; unfold urange in *; lia | unfold enc_r; lia ]
  end.

Lemma enc_r_fields f7 rs2 rs1 f3 rd op : r_ranges f7 rs2 rs1 f3 rd op ->
  let w := enc_r f7 rs2 rs1 f3 rd op in
  urange 32 w /\ field 0 7 w = op /\ field 7 5 w = rd /\ field 12 3 w = f3 /\
  field 15 5 w = rs1 /\ field 20 5 w = rs2 /\ field 25 7 w = f7.
Proof.
  intros [H7 H2 H1 H3 Hd Ho] w. subst w. split_and!.
  - unfold urange, enc_r in *. lia.
  - place 0 op (rd + f3 * 2 ^ 5 + rs1 * 2 ^ 8 + rs2 * 2 ^ 13 + f7 * 2 ^ 18).
  - place op rd (f3 + rs1 * 2 ^ 3 + rs2 * 2 ^ 8 + f7 * 2 ^ 13).
  - place (op + rd * 2 ^ 7) f3 (rs1 + rs2 * 2 ^ 5 + f7 * 2 ^ 10).
  - place (op + rd * 2 ^ 7 + f3 * 2 ^ 12) rs1 (rs2 + f7 * 2 ^ 5).
  - place (op + rd * 2 ^ 7 + f3 * 2 ^ 12 + rs1 * 2 ^ 15) rs2 f7.
  - place (op + rd * 2 ^ 7 + f3 * 2 ^ 12 + rs1 * 2 ^ 15 + rs2 * 2 ^ 20) f7 0.
Qed.

(** A word is the encoding of its fields. *)
Lemma word_enc_r w : urange 32 w ->
  enc_r (field 25 7 w) (field 20 5 w) (field 15 5 w) (field 12 3 w) (field 7 5 w) (field 0 7 w) = w.
Proof.
  intros Hw. unfold enc_r.
  pose proof (field_peel 0 7 w ltac:(lia) ltac:(lia) : _ = _ + w / 2 ^ 7 * _) as H0.
  pose proof (field_peel 7 5 w ltac:(lia) ltac:(lia) : _ = _ + w / 2 ^ 12 * _).
  pose proof (field_peel 12 3 w ltac:(lia) ltac:(lia) : _ = _ + w / 2 ^ 15 * _).
  pose proof (field_peel 15 5 w ltac:(lia) ltac:(lia) : _ = _ + w / 2 ^ 20 * _).
  pose proof (field_peel 20 5 w ltac:(lia) ltac:(lia) : _ = _ + w / 2 ^ 25 * _).
  pose proof (field_top 25 7 w ltac:(lia) ltac:(lia) Hw).
  rewrite Z.div_1_r in H0. lia.
Qed.

(** ** The accessors of the parser *)
Lemma opcode_field w : opcode w = field 0 7 w. Proof. apply bits_field; lia. Qed.
Lemma funct3_field w : funct3 w = field 12 3 w. Proof. apply bits_field; lia. Qed.
Lemma funct5_field w : funct5 w = field 27 5 w. Proof. apply bits_field; lia. Qed.
Lemma funct7_field w : funct7 w = field 25 7 w. Proof. apply bits_field; lia. Qed.
Lemma fmt_field w : fmt w = field 25 2 w. Proof. apply bits_field; lia. Qed.
Lemma rs1_bits_field w : rs1_bits w = field 15 5 w. Proof. apply bits_field; lia. Qed.
Lemma rs2_bits_field w : rs2_bits w = field 20 5 w. Proof. apply bits_field; lia. Qed.
Lemma csr_field_bits w : csr w = try_parse (field 20 12 w).
Proof. unfold csr. rewrite bits_field by lia. reflexivity. Qed.
Lemma imm_11_6_field w : imm_11_6 w = field 26 6 w * 2.
Proof.
  unfold imm_11_6. rewrite bits_field, shl_small, Z.shiftl_mul_pow2 by lia.
  apply wrap_small. pose proof (field_range 26 6 w ltac:(lia)). unfold urange in *. lia.
Qed.
Lemma instr_bit_testbit w p : 0 <= p < 32 -> instr_bit w p = Z.testbit w p.
Proof.
  intros. unfold instr_bit. rewrite shl_small by lia.
  rewrite Z.shiftl_mul_pow2, Z.mul_1_l by lia.
  rewrite wrap_small by (split; [apply Z.pow_nonneg | apply Z.pow_lt_mono_r]; lia).
  destruct (Z.testbit w p) eqn:E.
  - apply negb_true_iff, Z.eqb_neq. intros H0. apply (f_equal (fun z => Z.testbit z p)) in H0.
    rewrite Z.land_spec, E, Z.pow2_bits_true, Z.bits_0 in H0 by lia. discriminate.
  - apply negb_false_iff, Z.eqb_eq. apply Z.bits_inj'. intros i Hi.
    rewrite Z.land_spec, Z.bits_0, Z.pow2_bits_eqb by lia.
    destruct (Z.eqb_spec p i); [subst; rewrite E|]; auto using andb_false_r.
Qed.
Lemma flag_instr_bit w p : 0 <= p < 32 -> flag (instr_bit w p) = field p 1 w.
Proof.
  intros. rewrite instr_bit_testbit, field_mod, <- Z.testbit_spec' by lia.
  destruct (Z.testbit w p); reflexivity.
Qed.

(** Register numbers are the fields of the word. *)
Lemma u5_reg z p : xreg_num (parse_xregister (field p 5 z)) = field p 5 z.
Proof. apply parse_xregister_defined, field_range. lia. Qed.
Lemma u5_freg z p : freg_repr (parse_fregister (field p 5 z)) = field p 5 z.
Proof. apply parse_fregister_defined, field_range. lia. Qed.
Lemma rd_num w : xreg_num (rd w) = field 7 5 w. Proof. apply u5_reg. Qed.
Lemma rs1_num w : xreg_num (rs1 w) = field 15 5 w. Proof. apply u5_reg. Qed.
Lemma rs2_num w : xreg_num (rs2 w) = field 20 5 w. Proof. apply u5_reg. Qed.
Lemma rd_f_num w : freg_repr (rd_f w) = field 7 5 w. Proof. apply u5_freg. Qed.
Lemma rs1_f_num w : freg_repr (rs1_f w) = field 15 5 w. Proof. apply u5_freg. Qed.
Lemma rs2_f_num w : freg_repr (rs2_f w) = field 20 5 w. Proof. apply u5_freg. Qed.
Lemma rs3_f_num w : freg_repr (rs3_f w) = field 27 5 w. Proof. apply u5_freg. Qed.
Lemma rs2_u5_num w : freg_repr (parse_fregister (rs2_bits_u5 w)) = field 20 5 w.
Proof. apply u5_freg. Qed.
Lemma split_x0_num r : parsed_num (split_x0 r) = xreg_num r.
Proof. destruct r; reflexivity. Qed.
Lemma split_x0_NonZero r nz : split_x0 r = NonZero nz -> nz_num nz = xreg_num r.
Proof. intros E. rewrite <- split_x0_num, E. reflexivity. Qed.

Create Rewrite HintDb word.
#[export] Hint Rewrite opcode_field funct3_field funct5_field funct7_field fmt_field
  rs1_bits_field rs2_bits_field csr_field_bits imm_11_6_field
  rd_num rs1_num rs2_num rd_f_num rs1_f_num rs2_f_num rs3_f_num rs2_u5_num split_x0_num : word.

(** ** Immediates *)

Lemma as_i32_field w m p n : 0 <= p -> 0 < n -> p + n < 32 -> m = Z.shiftl (Z.ones n) p ->
  as_i32 w m = Z.shiftl (field p n w) p.
Proof.
  intros Hp Hn Hs ->. unfold as_i32.
  replace (Z.land w (Z.shiftl (Z.ones n) p)) with (Z.shiftl (field p n w) p) by bitwise.
  pose proof (field_range p n w ltac:(lia)) as Hr. unfold urange in Hr.
  apply sext_small; [lia|]. rewrite Z.shiftl_mul_pow2 by lia. unfold srange.
  assert (2 ^ n * 2 ^ p <= 2 ^ 31) by (rewrite <- Z.pow_add_r by lia; apply Z.pow_le_mono_r; lia).
  pose proof (pow2_pos p Hp). nia.
Qed.
Lemma as_i32_signed w m p n : 0 <= p -> 0 < n -> p + n = 32 -> m = Z.shiftl (Z.ones n) p ->
  as_i32 w m = Z.shiftl (sext n (field p n w)) p.
Proof.
  intros Hp Hn Hs ->. unfold as_i32. bitwise_deep.
Qed.

(** The immediates as the concatenations of the manual. *)
Lemma i_imm_fields w : i_imm w = sext 12 (field 20 12 w).
Proof. unfold i_imm. rewrite (as_i32_signed w _ 20 12) by (lia || reflexivity). bitwise_deep. Qed.
Lemma shift_imm_fields w : shift_imm w = field 20 6 w.
Proof.
  unfold shift_imm, SHIFT_BITMASK. rewrite i_imm_fields. change 0x3F with (Z.ones 6). bitwise_deep.
Qed.
Lemma s_imm_fields w : s_imm w = sext 12 (Z.lor (Z.shiftl (field 25 7 w) 5) (field 7 5 w)).
Proof.
  unfold s_imm. rewrite (as_i32_signed w 0xFE000000 25 7), (as_i32_field w 0xF80 7 5)
    by (lia || reflexivity). bitwise_deep.
Qed.
Lemma b_imm_fields w : b_imm w = sext 13 (Z.lor (Z.shiftl (field 31 1 w) 12)
  (Z.lor (Z.shiftl (field 7 1 w) 11) (Z.lor (Z.shiftl (field 25 6 w) 5) (Z.shiftl (field 8 4 w) 1)))).
Proof.
  unfold b_imm. rewrite (as_i32_signed w 0x80000000 31 1), (as_i32_field w 0x80 7 1),
    (as_i32_field w 0x7E000000 25 6), (as_i32_field w 0xF00 8 4) by (lia || reflexivity). bitwise_deep.
Qed.
Lemma u_imm_fields w : u_imm w = sext 32 (Z.shiftl (field 12 20 w) 12).
Proof. unfold u_imm. rewrite (as_i32_signed w _ 12 20) by (lia || reflexivity). bitwise_deep. Qed.
Lemma j_imm_fields w : j_imm w = sext 21 (Z.lor (Z.shiftl (field 31 1 w) 20)
  (Z.lor (Z.shiftl (field 12 8 w) 12) (Z.lor (Z.shiftl (field 20 1 w) 11) (Z.shiftl (field 21 10 w) 1)))).
Proof.
  unfold j_imm. rewrite (as_i32_signed w 0x80000000 31 1), (as_i32_field w 0xFF000 12 8),
    (as_i32_field w 0x100000 20 1), (as_i32_field w 0x7FE00000 21 10) by (lia || reflexivity). bitwise_deep.
Qed.

(** ** Encoding a decoded word: one lemma per instruction macro *)

(** The words that [enc_r] rebuilds, in the form a macro leaves them. *)
Lemma enc_r_word w f7 rs2 rs1 f3 rd op : urange 32 w ->
  field 25 7 w = f7 -> field 20 5 w = rs2 -> field 15 5 w = rs1 -> field 12 3 w = f3 ->
  field 7 5 w = rd -> field 0 7 w = op -> enc_r f7 rs2 rs1 f3 rd op = w.
Proof. intros Hw <- <- <- <- <- <-. apply word_enc_r, Hw. Qed.

Lemma field_i_imm p n w : 0 <= p -> 0 <= n -> p + n <= 12 ->
  field p n (i_imm w) = field (20 + p) n w.
Proof. intros. rewrite i_imm_fields. bitwise_deep. Qed.
Lemma field_s_imm_high w : field 5 7 (s_imm w) = field 25 7 w.
Proof. rewrite s_imm_fields. bitwise_deep. Qed.
Lemma field_s_imm_low w : field 0 5 (s_imm w) = field 7 5 w.
Proof. rewrite s_imm_fields. bitwise_deep. Qed.
Lemma field_u_imm p n w : 12 <= p -> 0 <= n -> p + n <= 32 -> field p n (u_imm w) = field p n w.
Proof. intros. rewrite u_imm_fields. bitwise_deep. Qed.

(** A field is the sum of its halves. *)
Lemma field_split p n m w : 0 <= p -> 0 <= n -> 0 <= m ->
  field (p + n) m w * 2 ^ n + field p n w = field p (n + m) w.
Proof.
  intros. rewrite !field_mod, !Z.pow_add_r by lia.
  pose proof (pow2_pos p ltac:(lia)). pose proof (pow2_pos n ltac:(lia)).
  pose proof (pow2_pos m ltac:(lia)).
  rewrite <- Z.div_div by lia. generalize (w / 2 ^ p). intros z.
  rewrite Z.rem_mul_r by lia. lia.
Qed.

Ltac enc_word := eapply enc_r_word; autorewrite with word; try assumption; try congruence.

Section Macros.
Context (w : Z) (Hw : urange 32 w).

Lemma r_instr_enc f7 f3 op C : (forall a, encode_cacheable (C a) = enc_rr f7 f3 op a) ->
  opcode w = op -> funct3 w = f3 -> funct7 w = f7 -> encode_cacheable (r_instr C w) = w.
Proof.
  intros HC <- <- <-. unfold r_instr. rewrite HC. unfold enc_rr. cbn [r_rd r_rs1 r_rs2]. enc_word; reflexivity.
Qed.
Lemma r_nz_enc f7 f3 op C : (forall a, encode_cacheable (C a) = enc_nzr f7 f3 op a) ->
  opcode w = op -> funct3 w = f3 -> funct7 w = f7 -> encode_cacheable (r_nz C w) = w.
Proof.
  intros HC <- <- <-. unfold r_nz. destruct (split_x0 _) eqn:E; [reflexivity|].
  apply split_x0_NonZero in E. rewrite HC. unfold enc_nzr. cbn. rewrite E. enc_word; reflexivity.
Qed.

Lemma enc_i_word rs1 f3 rd op : field 15 5 w = rs1 -> field 12 3 w = f3 -> field 7 5 w = rd ->
  field 0 7 w = op -> enc_i (i_imm w) rs1 f3 rd op = w.
Proof. intros. apply enc_r_word; rewrite ?field_i_imm by lia; auto. Qed.

Lemma i_instr_enc f3 op C : (forall a, encode_cacheable (C a) = enc_it f3 op a) ->
  opcode w = op -> funct3 w = f3 -> encode_cacheable (i_instr C w) = w.
Proof.
  intros HC <- <-. unfold i_instr. rewrite HC. unfold enc_it. cbn.
  apply enc_i_word; autorewrite with word; reflexivity.
Qed.
Lemma i_nz_enc f3 op C : (forall a, encode_cacheable (C a) = enc_nzi f3 op a) ->
  opcode w = op -> funct3 w = f3 -> encode_cacheable (i_nz C w) = w.
Proof.
  intros HC <- <-. unfold i_nz. destruct (split_x0 _) eqn:E; [reflexivity|].
  apply split_x0_NonZero in E. rewrite HC. unfold enc_nzi. cbn. rewrite E.
  apply enc_i_word; autorewrite with word; reflexivity.
Qed.
Lemma s_instr_enc f3 C :
  (forall a, encode_cacheable (C a) = enc_s (sb_imm a) (xreg_num (sb_rs2 a)) (xreg_num (sb_rs1 a)) f3 0x23) ->
  opcode w = 0x23 -> funct3 w = f3 -> encode_cacheable (s_instr C w) = w.
Proof.
  intros HC Ho <-. unfold s_instr. rewrite HC. cbn. rewrite opcode_field in Ho.
  apply enc_r_word; rewrite ?field_s_imm_high, ?field_s_imm_low; autorewrite with word; auto.
Qed.
Lemma b_instr_enc f3 C :
  (forall a, encode_cacheable (C a) = enc_b (sb_imm a) (xreg_num (sb_rs2 a)) (xreg_num (sb_rs1 a)) f3 0x63) ->
  opcode w = 0x63 -> funct3 w = f3 -> encode_cacheable (b_instr C w) = w.
Proof.
  intros HC Ho <-. unfold b_instr. rewrite HC. cbn. rewrite opcode_field in Ho.
  assert (H12 : field 12 1 (b_imm w) = field 31 1 w) by (rewrite b_imm_fields; bitwise_deep).
  assert (H5 : field 5 6 (b_imm w) = field 25 6 w) by (rewrite b_imm_fields; bitwise_deep).
  assert (H1 : field 1 4 (b_imm w) = field 8 4 w) by (rewrite b_imm_fields; bitwise_deep).
  assert (H11 : field 11 1 (b_imm w) = field 7 1 w) by (rewrite b_imm_fields; bitwise_deep).
  apply enc_r_word; rewrite ?H12, ?H5, ?H1, ?H11; autorewrite with word; auto;
    symmetry; [apply (field_split 25 6 1) | apply (field_split 7 1 4)]; lia.
Qed.
Lemma u_nz_enc op C : (forall a, encode_cacheable (C a) = enc_u (nzuj_imm a) (nz_num (nzuj_rd a)) op) ->
  opcode w = op -> encode_cacheable (u_nz C w) = w.
Proof.
  intros HC <-. unfold u_nz. destruct (split_x0 _) eqn:E; [reflexivity|].
  apply split_x0_NonZero in E. rewrite HC. cbn. rewrite E.
  apply enc_r_word; rewrite ?field_u_imm by lia; autorewrite with word; auto.
Qed.
Lemma j_instr_enc C : (forall a, encode_cacheable (C a) = enc_j (uj_imm a) (xreg_num (uj_rd a)) 0x6F) ->
  opcode w = 0x6F -> encode_cacheable (j_instr C w) = w.
Proof.
  intros HC Ho. unfold j_instr. rewrite HC. cbn. rewrite opcode_field in Ho.
  assert (H20 : field 20 1 (j_imm w) = field 31 1 w) by (rewrite j_imm_fields; bitwise_deep).
  assert (H5 : field 5 6 (j_imm w) = field 25 6 w) by (rewrite j_imm_fields; bitwise_deep).
  assert (H1 : field 1 4 (j_imm w) = field 21 4 w) by (rewrite j_imm_fields; bitwise_deep).
  assert (H11 : field 11 1 (j_imm w) = field 20 1 w) by (rewrite j_imm_fields; bitwise_deep).
  assert (H15 : field 15 5 (j_imm w) = field 15 5 w) by (rewrite j_imm_fields; bitwise_deep).
  assert (H12 : field 12 3 (j_imm w) = field 12 3 w) by (rewrite j_imm_fields; bitwise_deep).
  apply enc_r_word; rewrite ?H20, ?H5, ?H1, ?H11, ?H15, ?H12; autorewrite with word; auto;
    symmetry; [apply (field_split 25 6 1) | apply (field_split 20 1 4)]; lia.
Qed.

(** *** System, atomic and floating-point macros *)
Lemma enc_csr_word r src f3 r' : try_parse (field 20 12 w) = Some r -> field 15 5 w = src ->
  field 12 3 w = f3 -> xreg_num r' = field 7 5 w -> field 0 7 w = 0x73 ->
  enc_csr r src f3 r' = w.
Proof.
  intros Hc ? ? Hd ?. apply try_parse_spec in Hc; [|apply field_range; lia].
  unfold enc_csr. rewrite Hc, Hd. apply enc_r_word; rewrite ?field_field by lia; auto.
Qed.
Lemma csr_instr_enc f3 C :
  (forall a, encode_cacheable (C a) = enc_csr (csr_csr a) (xreg_num (csr_rs1 a)) f3 (csr_rd a)) ->
  opcode w = 0x73 -> funct3 w = f3 -> encode_cacheable (csr_instr C w) = w.
Proof.
  intros HC Ho <-. unfold csr_instr. destruct (csr w) eqn:E; [|reflexivity].
  rewrite HC. cbn. rewrite csr_field_bits in E. rewrite opcode_field in Ho.
  apply enc_csr_word; autorewrite with word; auto.
Qed.
Lemma csri_instr_enc f3 C :
  (forall a, encode_cacheable (C a) = enc_csr (csri_csr a) (csri_imm a) f3 (csri_rd a)) ->
  opcode w = 0x73 -> funct3 w = f3 -> encode_cacheable (csri_instr C w) = w.
Proof.
  intros HC Ho <-. unfold csri_instr. destruct (csr w) eqn:E; [|reflexivity].
  rewrite HC. cbn. rewrite csr_field_bits in E. rewrite opcode_field in Ho.
  apply enc_csr_word; autorewrite with word; rewrite ?bits_field by lia; auto.
Qed.
Lemma amo_instr_enc f5 f3 C : (forall a, encode_cacheable (C a) = enc_amo f5 f3 a) ->
  opcode w = 0x2F -> funct3 w = f3 -> funct5 w = f5 -> encode_cacheable (amo_instr C w) = w.
Proof.
  intros HC Ho <- <-. unfold amo_instr. rewrite HC. unfold enc_amo. cbn.
  rewrite opcode_field in Ho. rewrite !flag_instr_bit by lia.
  apply enc_r_word; autorewrite with word; auto.
  pose proof (field_split 25 1 1 w ltac:(lia) ltac:(lia) ltac:(lia)
    : field 26 1 w * 2 + field 25 1 w = field 25 2 w).
  pose proof (field_split 25 2 5 w ltac:(lia) ltac:(lia) ltac:(lia)
    : field 27 5 w * 4 + field 25 2 w = field 25 7 w). lia.
Qed.

(** [funct7] of a floating-point instruction. *)
Lemma f7_split a b : funct5 w = a -> fmt w = b -> field 25 7 w = a * 4 + b.
Proof.
  intros <- <-. rewrite funct5_field, fmt_field. symmetry. apply (field_split 25 2 5); lia.
Qed.
Lemma rm_from_rm rm r : from_rm rm = Some r -> rm_num r = rm.
Proof.
  unfold from_rm. destruct (Z.eqb_spec rm 7); [intros [= <-]; auto|].
  intros H. destruct (from_csrrepr rm) as [m|] eqn:E; [injection H as <-|discriminate].
  unfold from_csrrepr in E. repeat case_match; simplify_eq; reflexivity.
Qed.
Lemma enc_op_fp_word f5 f rs2 rs1 f3 rd : funct5 w = f5 -> fmt w = f -> field 20 5 w = rs2 ->
  field 15 5 w = rs1 -> field 12 3 w = f3 -> field 7 5 w = rd -> opcode w = 0x53 ->
  enc_op_fp f5 f rs2 rs1 f3 rd = w.
Proof.
  intros H5 Hf ? ? ? ? Ho. rewrite opcode_field in Ho.
  apply enc_r_word; auto. apply f7_split; auto.
Qed.

Ltac enc_fp HC := rewrite HC; apply enc_op_fp_word; cbn; autorewrite with word in *; auto.
Ltac enc_rm HC := case_match; [|reflexivity];
  match goal with E : from_rm _ = Some _ |- _ => apply rm_from_rm in E; subst end; enc_fp HC.

Lemma f_r_rm_2_enc f5 f C : (forall a, encode_cacheable (C a) = enc_fr2 f5 f a) ->
  opcode w = 0x53 -> funct5 w = f5 -> fmt w = f ->
  encode_cacheable (f_r_rm_2_instr C w (rs2_bits_u5 w) (funct3 w)) = w.
Proof. intros HC Ho H5 Hf. unfold f_r_rm_2_instr. enc_rm HC. Qed.
Lemma f_r_rm_1_enc f5 f sel C : (forall a, encode_cacheable (C a) = enc_fr1 f5 f sel a) ->
  opcode w = 0x53 -> funct5 w = f5 -> fmt w = f -> field 20 5 w = sel ->
  encode_cacheable (f_r_rm_1_instr C w (funct3 w)) = w.
Proof. intros HC Ho H5 Hf <-. unfold f_r_rm_1_instr. enc_rm HC. Qed.
Lemma f_r_enc f5 f f3 C : (forall a, encode_cacheable (C a) = enc_fr f5 f f3 a) ->
  opcode w = 0x53 -> funct5 w = f5 -> fmt w = f -> funct3 w = f3 ->
  encode_cacheable (f_r_instr C w (rs2_bits_u5 w)) = w.
Proof. intros HC Ho H5 Hf <-. unfold f_r_instr. enc_fp HC. Qed.
Lemma f_cmp_enc f f3 C : (forall a, encode_cacheable (C a) = enc_fcmp f f3 a) ->
  opcode w = 0x53 -> funct5 w = 20 -> fmt w = f -> funct3 w = f3 ->
  encode_cacheable (f_cmp_instr C w (rs2_bits_u5 w)) = w.
Proof. intros HC Ho H5 Hf <-. unfold f_cmp_instr. enc_fp HC. Qed.
Lemma f_r_int_fmt_enc f sel C : (forall a, encode_cacheable (C a) = enc_fxr f sel a) ->
  opcode w = 0x53 -> funct5 w = 24 -> fmt w = f -> field 20 5 w = sel ->
  encode_cacheable (f_r_int_fmt_instr C w (funct3 w)) = w.
Proof. intros HC Ho H5 Hf <-. unfold f_r_int_fmt_instr. enc_rm HC. Qed.
Lemma f_r_fmt_int_enc f sel C : (forall a, encode_cacheable (C a) = enc_xfr f sel a) ->
  opcode w = 0x53 -> funct5 w = 26 -> fmt w = f -> field 20 5 w = sel ->
  encode_cacheable (f_r_fmt_int_instr C w (funct3 w)) = w.
Proof. intros HC Ho H5 Hf <-. unfold f_r_fmt_int_instr. enc_rm HC. Qed.
Lemma f_r_rm_3_enc f op C : (forall a, encode_cacheable (C a) = enc_fr3 f op a) ->
  opcode w = op -> fmt w = f -> encode_cacheable (f_r_rm_3_instr C w) = w.
Proof.
  intros HC <- <-. unfold f_r_rm_3_instr. case_match; [|reflexivity].
  match goal with E : from_rm _ = Some _ |- _ => apply rm_from_rm in E end.
  rewrite HC. apply enc_r_word; cbn; autorewrite with word in *; auto.
  symmetry. apply (field_split 25 2 5); lia.
Qed.
Lemma fl_instr_enc f3 C : (forall a, encode_cacheable (C a) = enc_fl f3 a) ->
  opcode w = 0x07 -> width w = f3 -> encode_cacheable (fl_instr C w) = w.
Proof.
  intros HC Ho <-. unfold fl_instr. rewrite HC. unfold enc_fl, width. cbn.
  rewrite bits_field by lia. rewrite opcode_field in Ho.
  apply enc_i_word; autorewrite with word; auto.
Qed.
Lemma fs_instr_enc f3 C : (forall a, encode_cacheable (C a) = enc_fs f3 a) ->
  opcode w = 0x27 -> width w = f3 -> encode_cacheable (fs_instr C w) = w.
Proof.
  intros HC Ho <-. unfold fs_instr. rewrite HC. unfold enc_fs, width. cbn.
  rewrite bits_field by lia. rewrite opcode_field in Ho.
  apply enc_r_word; rewrite ?field_s_imm_high, ?field_s_imm_low; autorewrite with word; auto.
Qed.
End Macros.

(** ** Encoding a decoded word: one lemma per opcode *)

(** Follows the tests of the decoder and turns them into equations. *)
Ltac tests :=
  repeat match goal with
  | |- context [if ?b then _ else _] => destruct b eqn:?
  end;
  repeat match goal with
  | H : _ && _ = true |- _ => apply andb_true_iff in H as [? ?]
  | H : (_ =? _) = true |- _ => apply Z.eqb_eq in H
  end.
Ltac macro L := eapply L; [assumption | intros; reflexivity | assumption ..].
Ltac by_macro :=
  match goal with
  | |- encode_cacheable (r_instr _ _) = _ => macro r_instr_enc
  | |- encode_cacheable (r_nz _ _) = _ => macro r_nz_enc
  | |- encode_cacheable (i_instr _ _) = _ => macro i_instr_enc
  | |- encode_cacheable (i_nz _ _) = _ => macro i_nz_enc
  | |- encode_cacheable (s_instr _ _) = _ => macro s_instr_enc
  | |- encode_cacheable (b_instr _ _) = _ => macro b_instr_enc
  | |- encode_cacheable (csr_instr _ _) = _ => macro csr_instr_enc
  | |- encode_cacheable (csri_instr _ _) = _ => macro csri_instr_enc
  | |- encode_cacheable (amo_instr _ _) = _ => macro amo_instr_enc
  | |- encode_cacheable (f_r_rm_2_instr _ _ _ _) = _ => macro f_r_rm_2_enc
  | |- encode_cacheable (f_r_rm_1_instr _ _ _) = _ => macro f_r_rm_1_enc
  | |- encode_cacheable (f_r_instr _ _ _) = _ => macro f_r_enc
  | |- encode_cacheable (f_cmp_instr _ _ _) = _ => macro f_cmp_enc
  | |- encode_cacheable (f_r_int_fmt_instr _ _ _) = _ => macro f_r_int_fmt_enc
  | |- encode_cacheable (f_r_fmt_int_instr _ _ _) = _ => macro f_r_fmt_int_enc
  | |- encode_cacheable (f_r_rm_3_instr _ _) = _ => macro f_r_rm_3_enc
  | |- encode_cacheable (fl_instr _ _) = _ => macro fl_instr_enc
  | |- encode_cacheable (fs_instr _ _) = _ => macro fs_instr_enc
  | _ => reflexivity
  end.

(** The instructions whose word the decoded form determines: [Sllw] is decoded
    whatever its [funct7], [Ecall] and [Wfi] whatever their [rd]. *)
Definition faithful (i : InstrCacheable) : bool :=
  match i with Instrs.Sllw _ | Instrs.Ecall | Instrs.Wfi => false | _ => true end.

Section Opcodes.
Context (w : Z) (Hw : urange 32 w).

Lemma parse_op_arith_enc : opcode w = 0x33 -> encode_cacheable (parse_op_arith w) = w.
Proof. intros. unfold parse_op_arith. tests; by_macro. Qed.
Lemma parse_op_arith_w_enc : opcode w = 0x3B -> faithful (parse_op_arith_w w) = true ->
  encode_cacheable (parse_op_arith_w w) = w.
Proof.
  intros ?. unfold parse_op_arith_w. tests; intros Hf; try by_macro.
  unfold r_nz in *. destruct (split_x0 _); [reflexivity | discriminate].
Qed.
Lemma enc_nz_reg nz r : split_x0 r = nz -> parsed_num nz = xreg_num r.
Proof. intros <-. apply split_x0_num. Qed.
Lemma parse_op_arith_i_enc : opcode w = 0x13 -> encode_cacheable (parse_op_arith_i w) = w.
Proof.
  intros Ho. unfold parse_op_arith_i. tests; try by_macro.
  - assert (Ha : forall rd1 rs, parsed_num rd1 = xreg_num (rd w) -> parsed_num rs = xreg_num (rs1 w) ->
      encode_cacheable (Instrs.Addi {| si_rd := rd1; si_rs1 := rs; si_imm := i_imm w |}) = w).
    { intros rd1 rs Hd Hs. cbn [encode_cacheable si_rd si_rs1 si_imm]. rewrite Hd, Hs.
      apply enc_i_word; autorewrite with word in *; auto. }
    destruct (split_x0 (rd w)) eqn:Ed; [|apply Ha; auto using enc_nz_reg, split_x0_num].
    destruct (split_x0 (rs1 w)) eqn:Es; [reflexivity|].
    case_match; [reflexivity| |]; apply Ha; auto using enc_nz_reg.
  - destruct (split_x0 _) eqn:E; [reflexivity|]. apply split_x0_NonZero in E.
    cbn [encode_cacheable nzri_rd nzri_rs1 nzri_imm]. rewrite E, shift_imm_fields.
    autorewrite with word in *.
    pose proof (field_split 25 1 6 w ltac:(lia) ltac:(lia) ltac:(lia)
      : field 26 6 w * 2 + field 25 1 w = field 25 7 w).
    pose proof (field_split 20 5 1 w ltac:(lia) ltac:(lia) ltac:(lia)
      : field 25 1 w * 32 + field 20 5 w = field 20 6 w).
    pose proof (field_range 20 5 w ltac:(lia)). pose proof (field_range 25 1 w ltac:(lia)).
    assert (F7_20 = 32) by reflexivity.
    apply enc_r_word; auto; symmetry.
    + place (field 20 5 w) (field 25 7 w) 0.
    + place 0 (field 20 5 w) (32 + field 25 1 w).
Qed.
Lemma parse_op_load_enc : opcode w = 0x03 -> encode_cacheable (parse_op_load w) = w.
Proof. intros. unfold parse_op_load. tests; by_macro. Qed.
Lemma parse_op_arith_iw_enc : opcode w = 0x1B -> encode_cacheable (parse_op_arith_iw w) = w.
Proof. intros. unfold parse_op_arith_iw. tests; by_macro. Qed.
Lemma parse_op_amo_enc : opcode w = 0x2F -> encode_cacheable (parse_op_amo w) = w.
Proof. intros. unfold parse_op_amo. tests; by_macro. Qed.
Lemma parse_op_store_enc : opcode w = 0x23 -> encode_cacheable (parse_op_store w) = w.
Proof. intros. unfold parse_op_store. tests; by_macro. Qed.
Lemma parse_op_branch_enc : opcode w = 0x63 -> encode_cacheable (parse_op_branch w) = w.
Proof. intros. unfold parse_op_branch. tests; by_macro. Qed.
Lemma parse_op_jalr_enc : opcode w = 0x67 -> encode_cacheable (parse_op_jalr w) = w.
Proof. intros. unfold parse_op_jalr. tests; by_macro. Qed.
Lemma parse_op_fp_load_enc : opcode w = 0x07 -> encode_cacheable (parse_op_fp_load w) = w.
Proof. intros. unfold parse_op_fp_load. tests; by_macro. Qed.
Lemma parse_op_fp_store_enc : opcode w = 0x27 -> encode_cacheable (parse_op_fp_store w) = w.
Proof. intros. unfold parse_op_fp_store. tests; by_macro. Qed.
Lemma parse_op_fma_enc op s d : opcode w = op ->
  (forall a, encode_cacheable (s a) = enc_fr3 0 op a) ->
  (forall a, encode_cacheable (d a) = enc_fr3 1 op a) ->
  encode_cacheable (parse_op_fma s d w) = w.
Proof. intros. unfold parse_op_fma. tests; try reflexivity; eapply f_r_rm_3_enc; eauto. Qed.
Lemma parse_op_sys_enc i : opcode w = 0x73 -> parse_op_sys w = Cacheable i -> faithful i = true ->
  encode_cacheable i = w.
Proof.
  intros ?. unfold parse_op_sys. tests; intros [= <-] Hf; try discriminate; by_macro.
Qed.
Lemma parse_op_synch_enc i : parse_op_synch w = Cacheable i -> encode_cacheable i = w.
Proof. unfold parse_op_synch. tests; intros [= <-]; reflexivity. Qed.

Lemma enc_fx_word f f3 : opcode w = 0x53 -> funct5 w = 28 -> fmt w = f -> funct3 w = f3 ->
  rs2_bits_u5 w = 0 -> enc_fx f f3 {| fx_rd := rd w; fx_rs1 := rs1_f w |} = w.
Proof.
  intros ? ? ? ? H2. unfold enc_fx. unfold rs2_bits_u5, u5_extract in H2.
  apply enc_op_fp_word; cbn; autorewrite with word in *; auto.
Qed.
Lemma enc_xf_word f : opcode w = 0x53 -> funct5 w = 30 -> fmt w = f -> funct3 w = 0 ->
  rs2_bits_u5 w = 0 -> enc_op_fp 30 f 0 (xreg_num (rs1 w)) 0 (freg_repr (rd_f w)) = w.
Proof.
  intros ? ? ? ? H2. unfold rs2_bits_u5, u5_extract in H2.
  apply enc_op_fp_word; autorewrite with word in *; auto.
Qed.
Lemma parse_op_fp_s_enc : opcode w = 0x53 -> fmt w = 0 -> encode_cacheable (parse_op_fp_s w) = w.
Proof.
  intros. unfold parse_op_fp_s. tests;
    first [by_macro | apply enc_fx_word; assumption | apply enc_xf_word; assumption].
Qed.
Lemma parse_op_fp_d_enc : opcode w = 0x53 -> fmt w = 1 -> encode_cacheable (parse_op_fp_d w) = w.
Proof.
  intros. unfold parse_op_fp_d. tests;
    first [by_macro | apply enc_fx_word; assumption | apply enc_xf_word; assumption].
Qed.
Lemma parse_op_fp_enc : opcode w = 0x53 -> encode_cacheable (parse_op_fp w) = w.
Proof.
  intros. unfold parse_op_fp. tests.
  - apply parse_op_fp_s_enc; assumption.
  - apply parse_op_fp_d_enc; assumption.
  - reflexivity.
Qed.
End Opcodes.

(** ** The decoder *)

Ltac by_opcode :=
  match goal with
  | |- encode_cacheable (parse_op_arith_w _) = _ => apply parse_op_arith_w_enc; assumption
  | |- encode_cacheable (u_nz _ _) = _ => eapply u_nz_enc; [assumption | reflexivity | assumption]
  | |- encode_cacheable (j_instr _ _) = _ => eapply j_instr_enc; [assumption | reflexivity | assumption]
  | |- encode_cacheable (parse_op_fma _ _ _) = _ =>
      eapply parse_op_fma_enc; [assumption | eassumption | reflexivity | reflexivity]
  | |- encode_cacheable (parse_op_arith _) = _ => apply parse_op_arith_enc; assumption
  | |- encode_cacheable (parse_op_arith_i _) = _ => apply parse_op_arith_i_enc; assumption
  | |- encode_cacheable (parse_op_load _) = _ => apply parse_op_load_enc; assumption
  | |- encode_cacheable (parse_op_arith_iw _) = _ => apply parse_op_arith_iw_enc; assumption
  | |- encode_cacheable (parse_op_amo _) = _ => apply parse_op_amo_enc; assumption
  | |- encode_cacheable (parse_op_store _) = _ => apply parse_op_store_enc; assumption
  | |- encode_cacheable (parse_op_branch _) = _ => apply parse_op_branch_enc; assumption
  | |- encode_cacheable (parse_op_fp _) = _ => apply parse_op_fp_enc; assumption
  | |- encode_cacheable (parse_op_fp_load _) = _ => apply parse_op_fp_load_enc; assumption
  | |- encode_cacheable (parse_op_fp_store _) = _ => apply parse_op_fp_store_enc; assumption
  | |- encode_cacheable (parse_op_jalr _) = _ => apply parse_op_jalr_enc; assumption
  | _ => reflexivity
  end.

(** ** The fields that are not checked *)
Definition field_mask (p n : Z) : Z := Z.shiftl (Z.ones n) p.

(** The bits of a word that the decoder does not look at: [funct7] of [sllw], the register
    fields of the system instructions and of fences, and all but the opcode and [funct3]
    of [fence.i]. *)
Definition unchecked (i : Instr) : Z :=
  match i with
  | Cacheable (Instrs.Sllw _) => field_mask 25 7
  | Cacheable Instrs.Ecall | Cacheable Instrs.Wfi | Uncacheable Instrs.Ebreak => field_mask 7 5
  | Uncacheable (Instrs.Fence _) | Uncacheable (Instrs.FenceTso _) => Z.lor (field_mask 7 5) (field_mask 15 5)
  | Uncacheable Instrs.FenceI => Z.lor (field_mask 7 5) (field_mask 15 17)
  | _ => 0
  end.

Lemma field_ldiff p n w m : 0 <= p -> 0 <= n -> field p n (Z.ldiff w m) = Z.ldiff (field p n w) (field p n m).
Proof.
  intros. apply Z.bits_inj'. intros i Hi. rewrite Z.ldiff_spec, !testbit_field, Z.ldiff_spec by lia.
  destruct (i <? n); [reflexivity|]. cbn. reflexivity.
Qed.
Lemma field_kept p n w m : 0 <= p -> 0 <= n -> field p n m = 0 -> field p n (Z.ldiff w m) = field p n w.
Proof. intros ? ? E. rewrite field_ldiff, E, Z.ldiff_0_r by lia. reflexivity. Qed.
Lemma field_dropped p n w m : 0 <= p -> 0 <= n -> field p n m = Z.ones n -> field p n (Z.ldiff w m) = 0.
Proof.
  intros ? ? E. rewrite field_ldiff, E by lia. pose proof (field_range p n w ltac:(lia)) as Hr.
  apply Z.bits_inj'. intros i Hi. rewrite Z.ldiff_spec, Z.bits_0.
  destruct (Z.ltb_spec i n).
  - rewrite Z.ones_spec_low by lia. apply andb_false_r.
  - rewrite (testbit_above n) by (assumption || lia). reflexivity.
Qed.
Lemma ldiff_range w m : urange 32 w -> urange 32 (Z.ldiff w m).
Proof.
  intros Hw. replace (Z.ldiff w m) with (field 0 32 (Z.ldiff w m)); [apply field_range; lia|].
  apply Z.bits_inj'. intros i Hi. rewrite testbit_field, Z.add_0_r, !Z.ldiff_spec by lia.
  destruct (Z.ltb_spec i 32); [reflexivity|]. rewrite (testbit_above 32 w) by (assumption || lia). reflexivity.
Qed.

(** A word without the fields that [m] covers. *)
Ltac masked := repeat first [rewrite field_kept by (lia || reflexivity) | rewrite field_dropped by (lia || reflexivity)].

Section Unchecked.
Context (w : Z) (Hw : urange 32 w).

Lemma sllw_masked a : opcode w = 0x3B -> funct3 w = 1 -> r_nz Instrs.Sllw w = Instrs.Sllw a ->
  encode_cacheable (Instrs.Sllw a) = Z.ldiff w (field_mask 25 7).
Proof.
  intros Ho H3. unfold r_nz. destruct (split_x0 _) eqn:E; intros [= <-]. apply split_x0_NonZero in E.
  cbn [encode_cacheable]. unfold enc_nzr. cbn [nzr_rd nzr_rs1 nzr_rs2]. rewrite E.
  apply enc_r_word; [apply ldiff_range, Hw | masked; autorewrite with word in *; auto ..].
Qed.

(** System instructions are given by [funct7], [rs2], [rs1] and [funct3]. *)
Lemma sys_masked f7 n2 : opcode w = 0x73 -> funct3 w = 0 -> funct7 w = f7 -> rs1_bits w = 0 -> rs2_bits w = n2 ->
  enc_r f7 n2 0 0 0 0x73 = Z.ldiff w (field_mask 7 5).
Proof.
  intros Ho H3 H7 H1 H2. apply enc_r_word; [apply ldiff_range, Hw | masked; autorewrite with word in *; auto ..].
Qed.

Lemma fence_fields C : fence_instr C w = C (mkFenceArgs
  (mkFenceSet (instr_bit w 27) (instr_bit w 26) (instr_bit w 25) (instr_bit w 24))
  (mkFenceSet (instr_bit w 23) (instr_bit w 22) (instr_bit w 21) (instr_bit w 20))).
Proof. reflexivity. Qed.
Lemma nibble p : 0 <= p -> p + 4 <= 32 ->
  flag (instr_bit w (p + 3)) * 8 + flag (instr_bit w (p + 2)) * 4 + flag (instr_bit w (p + 1)) * 2 + flag (instr_bit w p)
  = field p 4 w.
Proof.
  intros. rewrite !flag_instr_bit by lia.
  pose proof (field_split p 3 1 w ltac:(lia) ltac:(lia) ltac:(lia)) as E3.
  pose proof (field_split p 2 1 w ltac:(lia) ltac:(lia) ltac:(lia)) as E2.
  pose proof (field_split p 1 1 w ltac:(lia) ltac:(lia) ltac:(lia)) as E1.
  change (3 + 1) with 4 in E3. change (2 + 1) with 3 in E2. change (1 + 1) with 2 in E1. lia.
Qed.
Lemma fence_masked f a : opcode w = 0x0F -> funct3 w = 0 -> fm w = f ->
  a = mkFenceArgs (mkFenceSet (instr_bit w 27) (instr_bit w 26) (instr_bit w 25) (instr_bit w 24))
    (mkFenceSet (instr_bit w 23) (instr_bit w 22) (instr_bit w 21) (instr_bit w 20)) ->
  enc_fence f a = Z.ldiff w (Z.lor (field_mask 7 5) (field_mask 15 5)).
Proof.
  intros Ho H3 Hf ->. unfold enc_fence, fence_bits. cbn [fence_pred fence_succ fs_i fs_o fs_r fs_w].
  rewrite (nibble 20 ltac:(lia) ltac:(lia) : flag (instr_bit w 23) * 8 + flag (instr_bit w 22) * 4
    + flag (instr_bit w 21) * 2 + flag (instr_bit w 20) = field 20 4 w),
    (nibble 24 ltac:(lia) ltac:(lia) : flag (instr_bit w 27) * 8 + flag (instr_bit w 26) * 4
    + flag (instr_bit w 25) * 2 + flag (instr_bit w 24) = field 24 4 w).
  rewrite <- (word_enc_r (Z.ldiff _ _)) by (apply ldiff_range, Hw). masked.
  rewrite opcode_field in Ho. rewrite funct3_field in H3. unfold fm in Hf. rewrite bits_field in Hf by lia.
  rewrite Ho, H3, <- Hf. unfold enc_r.
  pose proof (field_split 20 5 7 w ltac:(lia) ltac:(lia) ltac:(lia)) as E1.
  pose proof (field_split 20 4 8 w ltac:(lia) ltac:(lia) ltac:(lia)) as E2.
  pose proof (field_split 24 4 4 w ltac:(lia) ltac:(lia) ltac:(lia)) as E3.
  change (20 + 5) with 25 in E1. change (5 + 7) with 12 in E1. change (20 + 4) with 24 in E2. change (4 + 8) with 12 in E2.
  change (24 + 4) with 28 in E3. change (4 + 4) with 8 in E3. lia.
Qed.
Lemma fence_i_masked : opcode w = 0x0F -> funct3 w = 1 ->
  0x0000100F = Z.ldiff w (Z.lor (field_mask 7 5) (field_mask 15 17)).
Proof.
  intros Ho H3. rewrite <- (word_enc_r (Z.ldiff _ _)) by (apply ldiff_range, Hw). masked.
  rewrite opcode_field in Ho. rewrite funct3_field in H3. rewrite Ho, H3. reflexivity.
Qed.

(** The other opcodes give instructions whose word is checked whole. *)
Ltac checked_whole :=
  tests; unfold r_instr, r_nz, i_instr, i_nz, s_instr, b_instr, u_nz, j_instr, fl_instr, fs_instr,
    f_cmp_instr, f_r_instr, f_r_rm_1_instr, f_r_fmt_int_instr, f_r_int_fmt_instr, f_r_rm_2_instr,
    f_r_rm_3_instr, amo_instr; repeat case_match; reflexivity.
Lemma arith_checked : faithful (parse_op_arith w) = true.
Proof. unfold parse_op_arith. checked_whole. Qed.
Lemma arith_i_checked : faithful (parse_op_arith_i w) = true.
Proof. unfold parse_op_arith_i. checked_whole. Qed.
Lemma arith_iw_checked : faithful (parse_op_arith_iw w) = true.
Proof. unfold parse_op_arith_iw. checked_whole. Qed.
Lemma load_checked : faithful (parse_op_load w) = true.
Proof. unfold parse_op_load. checked_whole. Qed.
Lemma store_checked : faithful (parse_op_store w) = true.
Proof. unfold parse_op_store. checked_whole. Qed.
Lemma branch_checked : faithful (parse_op_branch w) = true.
Proof. unfold parse_op_branch. checked_whole. Qed.
Lemma jalr_checked : faithful (parse_op_jalr w) = true.
Proof. unfold parse_op_jalr. checked_whole. Qed.
Lemma amo_checked : faithful (parse_op_amo w) = true.
Proof. unfold parse_op_amo. checked_whole. Qed.
Lemma fp_checked : faithful (parse_op_fp w) = true.
Proof. unfold parse_op_fp, parse_op_fp_s, parse_op_fp_d. checked_whole. Qed.
Lemma fp_load_checked : faithful (parse_op_fp_load w) = true.
Proof. unfold parse_op_fp_load. checked_whole. Qed.
Lemma fp_store_checked : faithful (parse_op_fp_store w) = true.
Proof. unfold parse_op_fp_store. checked_whole. Qed.
Lemma fma_checked s d : (forall a, faithful (s a) = true) -> (forall a, faithful (d a) = true) ->
  faithful (parse_op_fma s d w) = true.
Proof. intros Hs Hd. unfold parse_op_fma. tests; unfold f_r_rm_3_instr; repeat case_match; auto. Qed.
Lemma u_nz_checked C : (forall a, faithful (C a) = true) -> faithful (u_nz C w) = true.
Proof. intros HC. unfold u_nz. case_match; auto. Qed.

Lemma masked_whole i : encode_cacheable i = w -> faithful i = true -> encode (Cacheable i) = Z.ldiff w (unchecked (Cacheable i)).
Proof. intros E Hf. cbn [encode]. rewrite E. destruct i; try discriminate Hf; symmetry; apply Z.ldiff_0_r. Qed.

Lemma parse_op_synch_masked : opcode w = 0x0F ->
  encode (parse_op_synch w) = Z.ldiff w (unchecked (parse_op_synch w)).
Proof.
  intros Ho. unfold parse_op_synch. tests; cbn [encode unchecked encode_cacheable]; rewrite ?Z.ldiff_0_r; try reflexivity.
  - eapply fence_masked; eauto.
  - eapply fence_masked; eauto.
  - apply fence_i_masked; assumption.
Qed.
Lemma parse_op_sys_masked : opcode w = 0x73 ->
  encode (parse_op_sys w) = Z.ldiff w (unchecked (parse_op_sys w)).
Proof.
  intros Ho. destruct (parse_op_sys w) as [i|i] eqn:E.
  - destruct (faithful i) eqn:Hf.
    + cbn [encode]. rewrite (parse_op_sys_enc w Hw i Ho E Hf). destruct i; try discriminate Hf; symmetry; apply Z.ldiff_0_r.
    + unfold parse_op_sys in E. revert E. tests; intros [= <-]; try discriminate Hf;
        try (unfold csr_instr, csri_instr in Hf; destruct (csr w); discriminate Hf).
      * eapply (sys_masked 0 0); eauto.
      * eapply (sys_masked 8 5); eauto.
  - unfold parse_op_sys in E. revert E. tests; intros [= <-]. eapply (sys_masked 0 1); eauto.
Qed.
Lemma parse_op_arith_w_masked : opcode w = 0x3B ->
  encode_cacheable (parse_op_arith_w w) = Z.ldiff w (unchecked (Cacheable (parse_op_arith_w w))).
Proof.
  intros Ho. destruct (faithful (parse_op_arith_w w)) eqn:Hf.
  - rewrite (parse_op_arith_w_enc w Hw Ho Hf). destruct (parse_op_arith_w w); try discriminate Hf; symmetry; apply Z.ldiff_0_r.
  - unfold parse_op_arith_w in *. revert Hf. tests; intros Hf;
      try (unfold r_instr, r_nz in Hf; repeat case_match; discriminate Hf).
    destruct (r_nz Instrs.Sllw w) eqn:E; try discriminate Hf;
      try (unfold r_nz in E; destruct (split_x0 (rd w)); discriminate E).
    cbn [unchecked]. apply sllw_masked; assumption.
Qed.
End Unchecked.

(** C11: encoding is the inverse of decoding, for every 32-bit word.  The reference
    encoder gives the word back from what it decodes to, legal, hint or unknown,
    cacheable or not, up to the bits that the decoder does not look at, which it leaves
    zero: the decoder reads every register, immediate and function field where the
    manual puts it and checks all the others, but for those of [unchecked]. *)
Theorem decode_uncompressed_encode w : urange 32 w ->
  let i := parse_uncompressed_instruction w in encode i = Z.ldiff w (unchecked i).
Proof.
  intros Hw. cbv zeta. unfold parse_uncompressed_instruction.
  repeat match goal with |- context [if opcode w =? ?op then _ else _] =>
    destruct (Z.eqb_spec (opcode w) op) end;
  first [apply parse_op_sys_masked; assumption | apply parse_op_synch_masked; assumption
        | apply parse_op_arith_w_masked; assumption | apply masked_whole; [by_opcode|]];
  auto using arith_checked, arith_i_checked, arith_iw_checked, load_checked, store_checked, branch_checked,
    jalr_checked, amo_checked, fp_checked, fp_load_checked, fp_store_checked;
  first [apply fma_checked; reflexivity | apply u_nz_checked; reflexivity | reflexivity].
Qed.

(** The words of [jal x1, -8], of [sllw x1, x2, x3] with a [funct7] that the manual does not
    give it, and of a fence with registers. *)
Lemma decode_uncompressed_encode_witness :
  encode (parse_uncompressed_instruction 0xFF9FF0EF) = 0xFF9FF0EF /\
  encode (parse_uncompressed_instruction 0x403110BB) = 0x003110BB /\
  encode (parse_uncompressed_instruction 0x0FF1018F) = 0x0FF0000F.
Proof.
  split; [|split].
  - exact (decode_uncompressed_encode 0xFF9FF0EF ltac:(unfold urange; lia)).
  - exact (decode_uncompressed_encode 0x403110BB ltac:(unfold urange; lia)).
  - exact (decode_uncompressed_encode 0x0FF1018F ltac:(unfold urange; lia)).
Defined.
