(* ===== verification/ParserRoundTrip.v ===== *)
(** * Decoding an encoded 32-bit instruction gives it back

    The other direction of [ParserSpec]: every instruction whose operands fit
    its format is decoded from the word of the reference encoder. *)

From S2P Require Import Prelude.
From S2P Require Import Bits.
From S2P Require Import Registers.
From S2P Require Import Csr.
From S2P Require Import Instr.
From S2P Require Import Parser.
From S2P Require Import Encoding.
From S2P Require Import ParserSpec.

(** ** The operands that fit *)
Definition within (lo z hi : Z) : bool := (lo <=? z) && (z <? hi).
Definition imm12_ok (imm : Z) : bool := within (-2048) imm 2048.

(** The instructions with an encoding of their own in the decoder: the others
    are hints ([Addi] to [x0]), and [Divuw] to [x0], which is rejected
    ([divuw_x0_rejected]). *)
Definition encodable32 (i : InstrCacheable) : bool :=
  match i with
  | Instrs.Addi a => imm12_ok (si_imm a) &&
      match si_rd a, si_rs1 a with
      | NonZero _, _ => true
      | X0, NonZero _ => negb (si_imm a =? 0)
      | X0, X0 => false
      end
  | Instrs.Addiw a | Instrs.Xori a | Instrs.Ori a | Instrs.Andi a | Instrs.Slti a
  | Instrs.Sltiu a => imm12_ok (nzri_imm a)
  | Instrs.Slli a | Instrs.Srli a | Instrs.Srai a => within 0 (nzri_imm a) 64
  | Instrs.Slliw a | Instrs.Srliw a => within 0 (nzri_imm a) 32
  | Instrs.Sraiw a => within 0x400 (nzri_imm a) 0x420
  | Instrs.Lb a | Instrs.Lh a | Instrs.Lw a | Instrs.Ld a | Instrs.Lbu a | Instrs.Lhu a
  | Instrs.Lwu a | Instrs.Jalr a => imm12_ok (it_imm a)
  | Instrs.Sb a | Instrs.Sh a | Instrs.Sw a | Instrs.Sd a => imm12_ok (sb_imm a)
  | Instrs.Beq a | Instrs.Bne a | Instrs.Blt a | Instrs.Bge a | Instrs.Bltu a | Instrs.Bgeu a =>
      within (-4096) (sb_imm a) 4096 && (field 0 1 (sb_imm a) =? 0)
  | Instrs.Lui a | Instrs.Auipc a =>
      within (- 2 ^ 31) (nzuj_imm a) (2 ^ 31) && (field 0 12 (nzuj_imm a) =? 0)
  | Instrs.Jal a => within (- 2 ^ 20) (uj_imm a) (2 ^ 20) && (field 0 1 (uj_imm a) =? 0)
  | Instrs.Lrw a | Instrs.Lrd a => is_zero (amo_rs2 a)
  | Instrs.Divuw a => negb (is_zero (r_rd a))
  | Instrs.Csrrwi a | Instrs.Csrrsi a | Instrs.Csrrci a => within 0 (csri_imm a) 32
  | Instrs.Flw a | Instrs.Fld a => imm12_ok (fld_imm a)
  | Instrs.Fsw a | Instrs.Fsd a => imm12_ok (fst_imm a)
  | Instrs.Unknown _ | Instrs.Hint _ => false
  | i => match cacheable_width i with Uncompressed => true | Compressed => false end
  end.

(** ** A word with given fields *)
Definition has_fields (w f7 rs2 rs1 f3 rd op : Z) : Prop :=
  urange 32 w /\ field 0 7 w = op /\ field 7 5 w = rd /\ field 12 3 w = f3 /\
  field 15 5 w = rs1 /\ field 20 5 w = rs2 /\ field 25 7 w = f7.

Lemma nz_num_range r : urange 5 (nz_num r).
Proof. rewrite <- xreg_num_of_nz. apply xreg_num_range. Qed.
Lemma freg_num_range r : urange 5 (freg_repr r).
Proof. exact (freg_repr_range r). Qed.
Lemma parsed_num_range r : urange 5 (parsed_num r).
Proof. destruct r; [unfold urange; cbn; lia | apply nz_num_range]. Qed.
Lemma rm_num_range r : urange 3 (rm_num r).
Proof. destruct r as [|[]]; unfold urange; cbn; lia. Qed.
Lemma flag_range b : 0 <= flag b <= 1.
Proof. destruct b; cbn; lia. Qed.

(** Two adjacent fields, given apart. *)
Lemma join_range a n b m : 0 <= n -> 0 <= m -> urange m a -> urange n b ->
  urange (m + n) (a * 2 ^ n + b).
Proof. unfold urange. intros Hn Hm Ha Hb. rewrite Z.pow_add_r by lia. nia. Qed.

Ltac ranges :=
  first
    [ assumption | apply xreg_num_range | apply nz_num_range | apply freg_num_range | apply parsed_num_range
    | apply rm_num_range | apply field_range; lia | (unfold urange; lia)
    | apply (join_range _ 6 _ 1); ranges | apply (join_range _ 1 _ 4); ranges
    | apply (join_range _ 2 _ 5); ranges ].

Lemma field_bound p n z : 0 <= n -> 0 <= field p n z < 2 ^ n.
Proof. apply field_range. Qed.

Lemma parse_reg_of w p r : field p 5 w = xreg_num r -> parse_xregister (field p 5 w) = r.
Proof. intros ->. apply parse_xregister_num. Qed.
Lemma parse_freg_of w p r : field p 5 w = freg_repr r -> parse_fregister (field p 5 w) = r.
Proof. intros ->. apply parse_fregister_num. Qed.
Lemma split_reg_of w p r : field p 5 w = nz_num r ->
  split_x0 (parse_xregister (field p 5 w)) = NonZero r.
Proof.
  intros ->. rewrite <- xreg_num_of_nz, parse_xregister_num. apply split_x0_nz.
Qed.
Lemma split_parsed_of w p r : field p 5 w = parsed_num r ->
  split_x0 (parse_xregister (field p 5 w)) = r.
Proof.
  destruct r as [|r]; cbn [parsed_num]; [intros ->; reflexivity | apply split_reg_of].
Qed.
Lemma from_rm_num rm : from_rm (rm_num rm) = Some rm.
Proof. destruct rm as [|[]]; reflexivity. Qed.

(** An immediate is determined by its low bits. *)
Lemma sext_field0 n imm : 0 < n -> srange n imm -> sext n (field 0 n imm) = imm.
Proof. intros Hn Hr. rewrite <- (sext_small n imm Hn Hr) at 2. bitwise_deep. Qed.
Lemma imm12_srange imm : imm12_ok imm = true -> srange 12 imm.
Proof. unfold imm12_ok, within, srange. rewrite andb_true_iff, Z.leb_le, Z.ltb_lt. lia. Qed.
Lemma within_spec lo z hi : within lo z hi = true <-> lo <= z < hi.
Proof. unfold within. rewrite andb_true_iff, Z.leb_le, Z.ltb_lt. lia. Qed.

(** ** The macros on a word with given fields *)
(** Adjacent fields agree when both parts do. *)
Lemma field_join p q n m w z : 0 <= p -> 0 <= q -> 0 <= n -> 0 <= m ->
  field p n w = field q n z -> field (p + n) m w = field (q + n) m z ->
  field p (n + m) w = field q (n + m) z.
Proof.
  intros ? ? ? ? E1 E2. rewrite <- (field_split p n m w), <- (field_split q n m z) by lia.
  rewrite E1, E2. reflexivity.
Qed.

(** A word without low bits is compared from bit 1 (or [n]) on. *)
Lemma low_bits n z i : field 0 n z = 0 -> 0 <= i < n -> Z.testbit z i = false.
Proof.
  intros H0 Hi. apply (f_equal (fun v => Z.testbit v i)) in H0.
  rewrite testbit_field, Z.bits_0, Z.add_0_r in H0 by lia.
  replace (i <? n) with true in H0 by (symmetry; apply Z.ltb_lt; lia). exact H0.
Qed.
Lemma sext_low_bits w n a z : 0 < w -> 0 <= n -> n <= w -> field 0 n a = 0 -> field 0 n z = 0 ->
  field n (w - n) a = field n (w - n) z -> sext w a = sext w z.
Proof.
  intros Hw Hn Hnw Ha Hz E. apply sext_congr. apply Z.bits_inj'. intros i Hi.
  rewrite !testbit_wrap by lia. destruct (Z.ltb_spec i w); [cbn|reflexivity].
  destruct (Z.ltb_spec i n).
  - rewrite (low_bits n a), (low_bits n z) by (auto; lia). reflexivity.
  - apply (f_equal (fun v => Z.testbit v (i - n))) in E. rewrite !testbit_field in E by lia.
    replace (i - n <? w - n) with true in E by (symmetry; apply Z.ltb_lt; lia).
    cbn in E. replace (i - n + n) with i in E by lia. exact E.
Qed.

Section Macros.
Context (w f7 n2 n1 f3 nd op : Z) (Hw : has_fields w f7 n2 n1 f3 nd op).

Lemma opcode_of : opcode w = op. Proof. rewrite opcode_field. apply Hw. Qed.
Lemma funct3_of : funct3 w = f3. Proof. rewrite funct3_field. apply Hw. Qed.
Lemma width_of_word : width w = f3. Proof. unfold width. rewrite bits_field by lia. apply Hw. Qed.
Lemma funct7_of : funct7 w = f7. Proof. rewrite funct7_field. apply Hw. Qed.
Lemma rs1_bits_of : rs1_bits w = n1. Proof. rewrite rs1_bits_field. apply Hw. Qed.
Lemma rs2_bits_of : rs2_bits w = n2. Proof. rewrite rs2_bits_field. apply Hw. Qed.
Lemma rs2_u5_of : rs2_bits_u5 w = n2. Proof. apply Hw. Qed.
Lemma rd_of r : nd = xreg_num r -> rd w = r.
Proof. intros ->. apply parse_reg_of, Hw. Qed.
Lemma rs1_of r : n1 = xreg_num r -> rs1 w = r.
Proof. intros ->. apply parse_reg_of, Hw. Qed.
Lemma rs2_of r : n2 = xreg_num r -> rs2 w = r.
Proof. intros ->. apply parse_reg_of, Hw. Qed.
Lemma rd_f_of r : nd = freg_repr r -> rd_f w = r.
Proof. intros ->. apply parse_freg_of, Hw. Qed.
Lemma rs1_f_of r : n1 = freg_repr r -> rs1_f w = r.
Proof. intros ->. apply parse_freg_of, Hw. Qed.
Lemma rs2_f_of r : n2 = freg_repr r -> rs2_f w = r.
Proof. intros ->. apply parse_freg_of, Hw. Qed.
Lemma rs2_parse_of r : n2 = freg_repr r -> parse_fregister n2 = r.
Proof. intros ->. apply parse_fregister_num. Qed.
Lemma rd_nz_of r : nd = nz_num r -> split_x0 (rd w) = NonZero r.
Proof. intros ->. apply split_reg_of, Hw. Qed.
Lemma rd_parsed_of r : nd = parsed_num r -> split_x0 (rd w) = r.
Proof. intros ->. apply split_parsed_of, Hw. Qed.
Lemma rs1_parsed_of r : n1 = parsed_num r -> split_x0 (rs1 w) = r.
Proof. intros ->. apply split_parsed_of, Hw. Qed.

(** Parts of [funct7]. *)
Lemma funct7_parts hi lo n : 0 <= n <= 7 -> urange n lo -> f7 = hi * 2 ^ n + lo -> 0 <= hi < 2 ^ (7 - n) ->
  field 25 n w = lo /\ field (25 + n) (7 - n) w = hi.
Proof.
  intros Hn Hlo E Hhi. assert (H7 : field 25 7 w = f7) by apply Hw.
  replace (field 25 n w) with (field 0 n (field 25 7 w)) by (rewrite field_field by lia; f_equal; lia).
  replace (field (25 + n) (7 - n) w) with (field n (7 - n) (field 25 7 w))
    by (rewrite field_field by lia; f_equal; lia).
  rewrite H7, E. split.
  - replace (hi * 2 ^ n + lo) with (0 + lo * 2 ^ 0 + hi * 2 ^ (0 + n)) by (rewrite Z.pow_0_r, !Z.add_0_l; ring).
    apply field_place; auto; lia.
  - replace (hi * 2 ^ n + lo) with (lo + hi * 2 ^ n + 0 * 2 ^ (n + (7 - n))) by ring.
    apply field_place; auto; lia.
Qed.
Lemma funct5_of hi lo : urange 2 lo -> 0 <= hi < 32 -> f7 = hi * 4 + lo -> funct5 w = hi /\ fmt w = lo.
Proof.
  intros Hlo Hhi E. rewrite funct5_field, fmt_field.
  destruct (funct7_parts hi lo 2) as [? ?]; auto; lia.
Qed.

(** Immediates. *)
Lemma i_imm_of imm : imm12_ok imm = true -> f7 = field 5 7 imm -> n2 = field 0 5 imm -> i_imm w = imm.
Proof.
  intros Hi%imm12_srange E7 E2. destruct Hw as (_ & _ & _ & _ & _ & H2 & H7).
  rewrite i_imm_fields. rewrite <- (field_split 20 5 7) by lia.
  change (20 + 5) with 25. rewrite H7, H2, E7, E2.
  rewrite (field_split 0 5 7) by lia. apply sext_field0; auto; lia.
Qed.
Lemma s_imm_of imm : imm12_ok imm = true -> f7 = field 5 7 imm -> nd = field 0 5 imm -> s_imm w = imm.
Proof.
  intros Hi%imm12_srange E7 Ed. destruct Hw as (_ & _ & Hd & _ & _ & _ & H7).
  rewrite s_imm_fields, H7, Hd, E7, Ed, <- (sext_small 12 imm) by (auto; lia). bitwise_deep.
Qed.
Lemma b_imm_of imm : within (-4096) imm 4096 = true -> field 0 1 imm = 0 ->
  f7 = field 12 1 imm * 2 ^ 6 + field 5 6 imm -> nd = field 1 4 imm * 2 + field 11 1 imm -> b_imm w = imm.
Proof.
  intros Hi%within_spec H0 E7 Ed. assert (Hd : field 7 5 w = nd) by apply Hw.
  destruct (funct7_parts (field 12 1 imm) (field 5 6 imm) 6) as [H5 H12];
    [lia | ranges | assumption | apply field_bound; lia |].
  assert (H11 : field 7 1 w = field 11 1 imm).
  { replace (field 7 1 w) with (field 0 1 (field 7 5 w)) by (apply field_field; lia).
    pose proof (field_bound 11 1 imm ltac:(lia)).
    rewrite Hd, Ed. place 0 (field 11 1 imm) (field 1 4 imm). }
  assert (H1 : field 8 4 w = field 1 4 imm).
  { replace (field 8 4 w) with (field 1 4 (field 7 5 w)) by (apply field_field; lia).
    pose proof (field_bound 11 1 imm ltac:(lia)). pose proof (field_bound 1 4 imm ltac:(lia)).
    rewrite Hd, Ed. place (field 11 1 imm) (field 1 4 imm) 0. }
  rewrite b_imm_fields. change (25 + 6) with 31 in H12. change (7 - 6) with 1 in H12.
  rewrite H5, H12, H11, H1. transitivity (sext 13 imm); [|apply sext_small; unfold srange; lia].
  apply (sext_low_bits _ 1); try lia; try assumption; bitwise_deep.
Qed.
Lemma j_imm_of imm : within (- 2 ^ 20) imm (2 ^ 20) = true -> field 0 1 imm = 0 ->
  f7 = field 20 1 imm * 2 ^ 6 + field 5 6 imm -> n2 = field 1 4 imm * 2 + field 11 1 imm ->
  n1 = field 15 5 imm -> f3 = field 12 3 imm -> j_imm w = imm.
Proof.
  intros Hi%within_spec H0 E7 E2 E1 E3.
  destruct Hw as (_ & _ & _ & H3 & H1w & H2 & _).
  destruct (funct7_parts (field 20 1 imm) (field 5 6 imm) 6) as [H5 H20];
    [lia | ranges | assumption | apply field_bound; lia |].
  pose proof (field_bound 11 1 imm ltac:(lia)) as B11. pose proof (field_bound 1 4 imm ltac:(lia)) as B1.
  assert (H11 : field 20 1 w = field 11 1 imm).
  { replace (field 20 1 w) with (field 0 1 (field 20 5 w)) by (apply field_field; lia).
    rewrite H2, E2. place 0 (field 11 1 imm) (field 1 4 imm). }
  assert (H1 : field 21 4 w = field 1 4 imm).
  { replace (field 21 4 w) with (field 1 4 (field 20 5 w)) by (apply field_field; lia).
    rewrite H2, E2. place (field 11 1 imm) (field 1 4 imm) 0. }
  rewrite j_imm_fields. change (25 + 6) with 31 in H20. change (7 - 6) with 1 in H20.
  assert (H12 : field 12 8 w = field 12 8 imm).
  { apply (field_join 12 12 3 5); try lia. exact (eq_trans H1w E1). }
  assert (H21 : field 21 10 w = field 1 10 imm).
  { apply (field_join 21 1 4 6); try lia. exact H5. }
  rewrite H20, H12, H11, H21.
  transitivity (sext 21 imm); [|apply sext_small; unfold srange; lia].
  apply (sext_low_bits _ 1); try lia; try assumption; bitwise_deep.
Qed.
Lemma u_imm_of imm : within (- 2 ^ 31) imm (2 ^ 31) = true -> field 0 12 imm = 0 ->
  f7 = field 25 7 imm -> n2 = field 20 5 imm -> n1 = field 15 5 imm -> f3 = field 12 3 imm -> u_imm w = imm.
Proof.
  intros Hi%within_spec H0 E7 E2 E1 E3. destruct Hw as (_ & _ & _ & H3 & H1w & H2 & H7).
  rewrite u_imm_fields.
  assert (H12 : field 12 20 w = field 12 20 imm).
  { apply (field_join 12 12 3 17); try lia.
    apply (field_join 15 15 5 12); try lia.
    apply (field_join 20 20 5 7); try lia. exact (eq_trans H7 E7). }
  rewrite H12.
  transitivity (sext 32 imm); [|apply sext_small; unfold srange; lia].
  apply (sext_low_bits _ 12); try lia; try assumption; bitwise_deep.
Qed.
End Macros.

(** ** The macros give the instruction back *)
Section RoundTrips.
Context (w : Z).

Ltac fields H :=
  rewrite ?(rd_nz_of _ _ _ _ _ _ _ H _ eq_refl), ?(rd_of _ _ _ _ _ _ _ H _ eq_refl),
    ?(rs1_of _ _ _ _ _ _ _ H _ eq_refl), ?(rs2_of _ _ _ _ _ _ _ H _ eq_refl),
    ?(rd_f_of _ _ _ _ _ _ _ H _ eq_refl), ?(rs1_f_of _ _ _ _ _ _ _ H _ eq_refl),
    ?(rs2_f_of _ _ _ _ _ _ _ H _ eq_refl), ?(rs2_u5_of _ _ _ _ _ _ _ H), ?parse_fregister_num,
    ?(funct3_of _ _ _ _ _ _ _ H), ?from_rm_num.

Lemma r_instr_of C a f7 f3 op :
  has_fields w f7 (xreg_num (r_rs2 a)) (xreg_num (r_rs1 a)) f3 (xreg_num (r_rd a)) op ->
  r_instr C w = C a.
Proof. intros H. unfold r_instr. fields H. destruct a; reflexivity. Qed.
Lemma r_nz_of C a f7 f3 op :
  has_fields w f7 (xreg_num (nzr_rs2 a)) (xreg_num (nzr_rs1 a)) f3 (nz_num (nzr_rd a)) op ->
  r_nz C w = C a.
Proof. intros H. unfold r_nz. fields H. destruct a; reflexivity. Qed.
Lemma i_instr_of C a f3 op : imm12_ok (it_imm a) = true ->
  has_fields w (field 5 7 (it_imm a)) (field 0 5 (it_imm a)) (xreg_num (it_rs1 a)) f3
    (xreg_num (it_rd a)) op -> i_instr C w = C a.
Proof.
  intros Hi H. unfold i_instr. fields H.
  rewrite (i_imm_of _ _ _ _ _ _ _ H _ Hi eq_refl eq_refl). destruct a; reflexivity.
Qed.
Lemma i_nz_of C a f3 op : imm12_ok (nzri_imm a) = true ->
  has_fields w (field 5 7 (nzri_imm a)) (field 0 5 (nzri_imm a)) (xreg_num (nzri_rs1 a)) f3
    (nz_num (nzri_rd a)) op -> i_nz C w = C a.
Proof.
  intros Hi H. unfold i_nz. fields H.
  rewrite (i_imm_of _ _ _ _ _ _ _ H _ Hi eq_refl eq_refl). destruct a; reflexivity.
Qed.
Lemma s_instr_of C a f3 op : imm12_ok (sb_imm a) = true ->
  has_fields w (field 5 7 (sb_imm a)) (xreg_num (sb_rs2 a)) (xreg_num (sb_rs1 a)) f3
    (field 0 5 (sb_imm a)) op -> s_instr C w = C a.
Proof.
  intros Hi H. unfold s_instr. fields H.
  rewrite (s_imm_of _ _ _ _ _ _ _ H _ Hi eq_refl eq_refl). destruct a; reflexivity.
Qed.
Lemma b_instr_of C a f3 op : within (-4096) (sb_imm a) 4096 && (field 0 1 (sb_imm a) =? 0) = true ->
  has_fields w (field 12 1 (sb_imm a) * 2 ^ 6 + field 5 6 (sb_imm a)) (xreg_num (sb_rs2 a))
    (xreg_num (sb_rs1 a)) f3 (field 1 4 (sb_imm a) * 2 + field 11 1 (sb_imm a)) op ->
  b_instr C w = C a.
Proof.
  intros [Hi H0%Z.eqb_eq]%andb_true_iff H. unfold b_instr. fields H.
  rewrite (b_imm_of _ _ _ _ _ _ _ H _ Hi H0 eq_refl eq_refl). destruct a; reflexivity.
Qed.
Lemma u_nz_of C a op : within (- 2 ^ 31) (nzuj_imm a) (2 ^ 31) && (field 0 12 (nzuj_imm a) =? 0) = true ->
  has_fields w (field 25 7 (nzuj_imm a)) (field 20 5 (nzuj_imm a)) (field 15 5 (nzuj_imm a))
    (field 12 3 (nzuj_imm a)) (nz_num (nzuj_rd a)) op -> u_nz C w = C a.
Proof.
  intros [Hi H0%Z.eqb_eq]%andb_true_iff H. unfold u_nz. fields H.
  rewrite (u_imm_of _ _ _ _ _ _ _ H _ Hi H0 eq_refl eq_refl eq_refl eq_refl). destruct a; reflexivity.
Qed.
Lemma j_instr_of C a op : within (- 2 ^ 20) (uj_imm a) (2 ^ 20) && (field 0 1 (uj_imm a) =? 0) = true ->
  has_fields w (field 20 1 (uj_imm a) * 2 ^ 6 + field 5 6 (uj_imm a))
    (field 1 4 (uj_imm a) * 2 + field 11 1 (uj_imm a)) (field 15 5 (uj_imm a))
    (field 12 3 (uj_imm a)) (xreg_num (uj_rd a)) op -> j_instr C w = C a.
Proof.
  intros [Hi H0%Z.eqb_eq]%andb_true_iff H. unfold j_instr. fields H.
  rewrite (j_imm_of _ _ _ _ _ _ _ H _ Hi H0 eq_refl eq_refl eq_refl eq_refl). destruct a; reflexivity.
Qed.

Lemma csr_of c src f3 nd op :
  has_fields w (field 5 7 (csr_repr c)) (field 0 5 (csr_repr c)) src f3 nd op -> csr w = Some c.
Proof.
  intros (_ & _ & _ & _ & _ & H2 & H7). rewrite csr_field_bits.
  replace (field 20 12 w) with (field 0 12 (csr_repr c)).
  2: { symmetry. apply (field_join 20 0 5 7); try lia. exact H7. }
  replace (field 0 12 (csr_repr c)) with (csr_repr c) by (destruct c; reflexivity).
  apply try_parse_repr.
Qed.
Lemma csr_instr_of C a f3 op :
  has_fields w (field 5 7 (csr_repr (csr_csr a))) (field 0 5 (csr_repr (csr_csr a)))
    (xreg_num (csr_rs1 a)) f3 (xreg_num (csr_rd a)) op -> csr_instr C w = C a.
Proof.
  intros H. unfold csr_instr. rewrite (csr_of _ _ _ _ _ H). fields H. destruct a; reflexivity.
Qed.
Lemma csri_instr_of C a f3 op :
  has_fields w (field 5 7 (csr_repr (csri_csr a))) (field 0 5 (csr_repr (csri_csr a)))
    (csri_imm a) f3 (xreg_num (csri_rd a)) op -> csri_instr C w = C a.
Proof.
  intros H. unfold csri_instr. rewrite (csr_of _ _ _ _ _ H). fields H.
  replace (bits w 15 5) with (csri_imm a) by (symmetry; apply (rs1_bits_of _ _ _ _ _ _ _ H)).
  destruct a; reflexivity.
Qed.

Lemma flag_bit b : negb (flag b =? 0) = b. Proof. destruct b; reflexivity. Qed.
Lemma bit_field p : 0 <= p < 32 -> instr_bit w p = negb (field p 1 w =? 0).
Proof. intros. rewrite <- flag_instr_bit by lia. symmetry. apply flag_bit. Qed.
Lemma amo_instr_of C a f5 f3 op : 0 <= f5 < 32 ->
  has_fields w (f5 * 4 + flag (amo_aq a) * 2 + flag (amo_rl a)) (xreg_num (amo_rs2 a))
    (xreg_num (amo_rs1 a)) f3 (xreg_num (amo_rd a)) op ->
  amo_instr C w = C a /\ funct5 w = f5.
Proof.
  intros H5 H. pose proof (flag_range (amo_aq a)). pose proof (flag_range (amo_rl a)).
  destruct (funct7_parts _ _ _ _ _ _ _ H f5 (flag (amo_aq a) * 2 + flag (amo_rl a)) 2)
    as [Hq Hf]; [lia | unfold urange; lia | lia | lia |].
  split; [|rewrite funct5_field; exact Hf].
  unfold amo_instr. fields H.
  assert (Hl : field 25 1 w = flag (amo_rl a)).
  { replace (field 25 1 w) with (field 0 1 (field 25 2 w)) by (apply field_field; lia).
    rewrite Hq. place 0 (flag (amo_rl a)) (flag (amo_aq a)). }
  assert (Ha : field 26 1 w = flag (amo_aq a)).
  { replace (field 26 1 w) with (field 1 1 (field 25 2 w)) by (apply field_field; lia).
    rewrite Hq. place (flag (amo_rl a)) (flag (amo_aq a)) 0. }
  rewrite !bit_field, Hl, Ha, !flag_bit by lia. destruct a; reflexivity.
Qed.

Lemma f_r_rm_2_of C a f7 op :
  has_fields w f7 (freg_repr (fr2_rs2 a)) (freg_repr (fr2_rs1 a)) (rm_num (fr2_rm a))
    (freg_repr (fr2_rd a)) op -> f_r_rm_2_instr C w (rs2_bits_u5 w) (funct3 w) = C a.
Proof. intros H. unfold f_r_rm_2_instr. fields H. destruct a; reflexivity. Qed.
Lemma f_r_rm_1_of C a f7 n2 op :
  has_fields w f7 n2 (freg_repr (fr1_rs1 a)) (rm_num (fr1_rm a)) (freg_repr (fr1_rd a)) op ->
  f_r_rm_1_instr C w (funct3 w) = C a.
Proof. intros H. unfold f_r_rm_1_instr. fields H. destruct a; reflexivity. Qed.
Lemma f_r_of C a f7 f3 op :
  has_fields w f7 (freg_repr (fr_rs2 a)) (freg_repr (fr_rs1 a)) f3 (freg_repr (fr_rd a)) op ->
  f_r_instr C w (rs2_bits_u5 w) = C a.
Proof. intros H. unfold f_r_instr. fields H. destruct a; reflexivity. Qed.
Lemma f_cmp_of C a f7 f3 op :
  has_fields w f7 (freg_repr (fcmp_rs2 a)) (freg_repr (fcmp_rs1 a)) f3 (xreg_num (fcmp_rd a)) op ->
  f_cmp_instr C w (rs2_bits_u5 w) = C a.
Proof. intros H. unfold f_cmp_instr. fields H. destruct a; reflexivity. Qed.
Lemma f_r_int_fmt_of C a f7 n2 op :
  has_fields w f7 n2 (freg_repr (fxr_rs1 a)) (rm_num (fxr_rm a)) (xreg_num (fxr_rd a)) op ->
  f_r_int_fmt_instr C w (funct3 w) = C a.
Proof. intros H. unfold f_r_int_fmt_instr. fields H. destruct a; reflexivity. Qed.
Lemma f_r_fmt_int_of C a f7 n2 op :
  has_fields w f7 n2 (xreg_num (xfr_rs1 a)) (rm_num (xfr_rm a)) (freg_repr (xfr_rd a)) op ->
  f_r_fmt_int_instr C w (funct3 w) = C a.
Proof. intros H. unfold f_r_fmt_int_instr. fields H. destruct a; reflexivity. Qed.
Lemma fx_of (C : FRegToXRegArgs -> InstrCacheable) a f7 n2 f3 op :
  has_fields w f7 n2 (freg_repr (fx_rs1 a)) f3 (xreg_num (fx_rd a)) op ->
  C {| fx_rd := rd w; fx_rs1 := rs1_f w |} = C a.
Proof. intros H. fields H. destruct a; reflexivity. Qed.
Lemma xf_of (C : XRegToFRegArgs -> InstrCacheable) a f7 n2 f3 op :
  has_fields w f7 n2 (xreg_num (xf_rs1 a)) f3 (freg_repr (xf_rd a)) op ->
  C {| xf_rd := rd_f w; xf_rs1 := rs1 w |} = C a.
Proof. intros H. fields H. destruct a; reflexivity. Qed.
Lemma fl_instr_of C a f3 op : imm12_ok (fld_imm a) = true ->
  has_fields w (field 5 7 (fld_imm a)) (field 0 5 (fld_imm a)) (xreg_num (fld_rs1 a)) f3
    (freg_repr (fld_rd a)) op -> fl_instr C w = C a.
Proof.
  intros Hi H. unfold fl_instr. fields H.
  rewrite (i_imm_of _ _ _ _ _ _ _ H _ Hi eq_refl eq_refl). destruct a; reflexivity.
Qed.
Lemma fs_instr_of C a f3 op : imm12_ok (fst_imm a) = true ->
  has_fields w (field 5 7 (fst_imm a)) (freg_repr (fst_rs2 a)) (xreg_num (fst_rs1 a)) f3
    (field 0 5 (fst_imm a)) op -> fs_instr C w = C a.
Proof.
  intros Hi H. unfold fs_instr. fields H.
  rewrite (s_imm_of _ _ _ _ _ _ _ H _ Hi eq_refl eq_refl). destruct a; reflexivity.
Qed.
Lemma f_r_rm_3_of C a fm op : urange 2 fm ->
  has_fields w (freg_repr (fr3_rs3 a) * 4 + fm) (freg_repr (fr3_rs2 a)) (freg_repr (fr3_rs1 a))
    (rm_num (fr3_rm a)) (freg_repr (fr3_rd a)) op -> f_r_rm_3_instr C w = C a /\ fmt w = fm.
Proof.
  intros Hf H. pose proof (freg_num_range (fr3_rs3 a)) as Hr.
  destruct (funct7_parts _ _ _ _ _ _ _ H (freg_repr (fr3_rs3 a)) fm 2) as [Hq H3];
    [lia | assumption | lia | exact Hr |].
  split; [|rewrite fmt_field; exact Hq].
  unfold f_r_rm_3_instr. fields H.
  replace (rs3_f w) with (fr3_rs3 a) by (symmetry; exact (parse_freg_of w 27 _ H3)).
  destruct a; reflexivity.
Qed.
End RoundTrips.

(** ** The decoder *)

(** Evaluates the tests of the decoder on constants. *)
Ltac eval_tests :=
  cbv beta iota zeta delta
    [Z.eqb Pos.eqb andb OP_ARITH OP_ARITH_W OP_ARITH_I OP_LOAD OP_ARITH_IW OP_SYNCH OP_SYS OP_STORE
     OP_BRANCH OP_LUI OP_AUIPC OP_JAL OP_JALR OP_FP OP_FP_LOAD OP_FMADD OP_FMSUB OP_FNMSUB OP_FNMADD
     OP_FP_STORE OP_AMO F3_0 F3_1 F3_2 F3_3 F3_4 F3_5 F3_6 F3_7 F7_0 F7_1 F7_8 F7_20 FMT_S FMT_D
     WIDTH_W WIDTH_D RM_EQ RM_LT RM_LE RM_MIN RM_MAX].

(** Abstracts the word of the goal, keeping its fields. *)
Ltac abstract_word H :=
  match goal with |- context [enc_r ?f7 ?n2 ?n1 ?f3 ?nd ?op] =>
    assert (H : has_fields (enc_r f7 n2 n1 f3 nd op) f7 n2 n1 f3 nd op)
      by (apply enc_r_fields; constructor; ranges);
    generalize dependent (enc_r f7 n2 n1 f3 nd op); intros ?w H
  end.

Definition decodes_to (w : Z) (i : InstrCacheable) : Prop :=
  urange 32 w /\ field 0 2 w = 3 /\ parse_uncompressed_instruction w = Cacheable i.

Lemma decodes_intro w f7 n2 n1 f3 nd op i : has_fields w f7 n2 n1 f3 nd op -> field 0 2 op = 3 ->
  parse_uncompressed_instruction w = Cacheable i -> decodes_to w i.
Proof.
  intros (Hw & Ho & _) H3 Hp. split_and!; [assumption | | assumption].
  replace (field 0 2 w) with (field 0 2 (field 0 7 w)) by (apply field_field; lia).
  rewrite Ho. exact H3.
Qed.

(** Brings the goal to the equation of a macro. *)
Ltac to_macro H :=
  apply (decodes_intro _ _ _ _ _ _ _ _ H eq_refl);
  unfold parse_uncompressed_instruction; rewrite (opcode_of _ _ _ _ _ _ _ H); eval_tests.
Ltac by_f3 H := rewrite ?(funct3_of _ _ _ _ _ _ _ H), ?(funct7_of _ _ _ _ _ _ _ H); eval_tests; f_equal.

(** The macro that is left, given the fields of the word. *)
Ltac macro_of H :=
  match goal with
  | |- r_instr _ _ = _ => exact (r_instr_of _ _ _ _ _ _ H)
  | |- r_nz _ _ = _ => exact (r_nz_of _ _ _ _ _ _ H)
  | |- i_instr _ _ = _ => apply (i_instr_of _ _ _ _ _ ltac:(eassumption) H)
  | |- i_nz _ _ = _ => apply (i_nz_of _ _ _ _ _ ltac:(eassumption) H)
  | |- s_instr _ _ = _ => apply (s_instr_of _ _ _ _ _ ltac:(eassumption) H)
  | |- b_instr _ _ = _ => apply (b_instr_of _ _ _ _ _ ltac:(eassumption) H)
  | |- u_nz _ _ = _ => apply (u_nz_of _ _ _ _ ltac:(eassumption) H)
  | |- j_instr _ _ = _ => apply (j_instr_of _ _ _ _ ltac:(eassumption) H)
  | |- csr_instr _ _ = _ => exact (csr_instr_of _ _ _ _ _ H)
  | |- csri_instr _ _ = _ => exact (csri_instr_of _ _ _ _ _ H)
  | |- f_r_rm_2_instr _ _ _ _ = _ => exact (f_r_rm_2_of _ _ _ _ _ H)
  | |- f_r_rm_1_instr _ _ _ = _ => exact (f_r_rm_1_of _ _ _ _ _ _ H)
  | |- f_r_instr _ _ _ = _ => exact (f_r_of _ _ _ _ _ _ H)
  | |- f_cmp_instr _ _ _ = _ => exact (f_cmp_of _ _ _ _ _ _ H)
  | |- f_r_int_fmt_instr _ _ _ = _ => exact (f_r_int_fmt_of _ _ _ _ _ _ H)
  | |- f_r_fmt_int_instr _ _ _ = _ => exact (f_r_fmt_int_of _ _ _ _ _ _ H)
  | |- fl_instr _ _ = _ => apply (fl_instr_of _ _ _ _ _ ltac:(eassumption) H)
  | |- fs_instr _ _ = _ => apply (fs_instr_of _ _ _ _ _ ltac:(eassumption) H)
  | |- _ {| fx_rd := _; fx_rs1 := _ |} = _ => exact (fx_of _ _ _ _ _ _ _ H)
  | |- _ {| xf_rd := _; xf_rs1 := _ |} = _ => exact (xf_of _ _ _ _ _ _ _ H)
  end.

(** An instruction of a format without [funct5]. *)
Ltac roundtrip :=
  let He := fresh "He" in let H := fresh "H" in
  intros He; cbn [encode_cacheable encodable32] in *;
  unfold enc_nzr, enc_rr, enc_it, enc_nzi, enc_csr, enc_fl, enc_fs, enc_i, enc_s, enc_b, enc_u, enc_j;
  try (pose proof (proj1 (within_spec _ _ _) He) as ?Hr); abstract_word H; to_macro H;
  unfold parse_op_arith, parse_op_arith_w, parse_op_arith_i, parse_op_load, parse_op_arith_iw, parse_op_sys,
    parse_op_store, parse_op_branch, parse_op_jalr, parse_op_fp_load, parse_op_fp_store;
  rewrite ?(width_of_word _ _ _ _ _ _ _ H); by_f3 H; try macro_of H.

Section Instructions.
Notation roundtrips C := (forall a, encodable32 (C a) = true -> decodes_to (encode_cacheable (C a)) (C a)).
Lemma Add_roundtrip : roundtrips Instrs.Add. Proof. intros a. roundtrip. Qed.
Lemma Sub_roundtrip : roundtrips Instrs.Sub. Proof. intros a. roundtrip. Qed.
Lemma Sll_roundtrip : roundtrips Instrs.Sll. Proof. intros a. roundtrip. Qed.
Lemma Slt_roundtrip : roundtrips Instrs.Slt. Proof. intros a. roundtrip. Qed.
Lemma Sltu_roundtrip : roundtrips Instrs.Sltu. Proof. intros a. roundtrip. Qed.
Lemma Xor_roundtrip : roundtrips Instrs.Xor. Proof. intros a. roundtrip. Qed.
Lemma Srl_roundtrip : roundtrips Instrs.Srl. Proof. intros a. roundtrip. Qed.
Lemma Sra_roundtrip : roundtrips Instrs.Sra. Proof. intros a. roundtrip. Qed.
Lemma Or_roundtrip : roundtrips Instrs.Or. Proof. intros a. roundtrip. Qed.
Lemma And_roundtrip : roundtrips Instrs.And. Proof. intros a. roundtrip. Qed.
Lemma Mul_roundtrip : roundtrips Instrs.Mul. Proof. intros a. roundtrip. Qed.
Lemma Mulh_roundtrip : roundtrips Instrs.Mulh. Proof. intros a. roundtrip. Qed.
Lemma Mulhsu_roundtrip : roundtrips Instrs.Mulhsu. Proof. intros a. roundtrip. Qed.
Lemma Mulhu_roundtrip : roundtrips Instrs.Mulhu. Proof. intros a. roundtrip. Qed.
Lemma Div_roundtrip : roundtrips Instrs.Div. Proof. intros a. roundtrip. Qed.
Lemma Divu_roundtrip : roundtrips Instrs.Divu. Proof. intros a. roundtrip. Qed.
Lemma Rem_roundtrip : roundtrips Instrs.Rem. Proof. intros a. roundtrip. Qed.
Lemma Remu_roundtrip : roundtrips Instrs.Remu. Proof. intros a. roundtrip. Qed.
Lemma Addw_roundtrip : roundtrips Instrs.Addw. Proof. intros a. roundtrip. Qed.
Lemma Subw_roundtrip : roundtrips Instrs.Subw. Proof. intros a. roundtrip. Qed.
Lemma Sllw_roundtrip : roundtrips Instrs.Sllw. Proof. intros a. roundtrip. Qed.
Lemma Srlw_roundtrip : roundtrips Instrs.Srlw. Proof. intros a. roundtrip. Qed.
Lemma Sraw_roundtrip : roundtrips Instrs.Sraw. Proof. intros a. roundtrip. Qed.
Lemma Mulw_roundtrip : roundtrips Instrs.Mulw. Proof. intros a. roundtrip. Qed.
Lemma Divw_roundtrip : roundtrips Instrs.Divw. Proof. intros a. roundtrip. Qed.
Lemma Remw_roundtrip : roundtrips Instrs.Remw. Proof. intros a. roundtrip. Qed.
Lemma Remuw_roundtrip : roundtrips Instrs.Remuw. Proof. intros a. roundtrip. Qed.
Lemma Lb_roundtrip : roundtrips Instrs.Lb. Proof. intros a. roundtrip. Qed.
Lemma Lh_roundtrip : roundtrips Instrs.Lh. Proof. intros a. roundtrip. Qed.
Lemma Lw_roundtrip : roundtrips Instrs.Lw. Proof. intros a. roundtrip. Qed.
Lemma Ld_roundtrip : roundtrips Instrs.Ld. Proof. intros a. roundtrip. Qed.
Lemma Lbu_roundtrip : roundtrips Instrs.Lbu. Proof. intros a. roundtrip. Qed.
Lemma Lhu_roundtrip : roundtrips Instrs.Lhu. Proof. intros a. roundtrip. Qed.
Lemma Lwu_roundtrip : roundtrips Instrs.Lwu. Proof. intros a. roundtrip. Qed.
Lemma Jalr_roundtrip : roundtrips Instrs.Jalr. Proof. intros a. roundtrip. Qed.
Lemma Sb_roundtrip : roundtrips Instrs.Sb. Proof. intros a. roundtrip. Qed.
Lemma Sh_roundtrip : roundtrips Instrs.Sh. Proof. intros a. roundtrip. Qed.
Lemma Sw_roundtrip : roundtrips Instrs.Sw. Proof. intros a. roundtrip. Qed.
Lemma Sd_roundtrip : roundtrips Instrs.Sd. Proof. intros a. roundtrip. Qed.
Lemma Beq_roundtrip : roundtrips Instrs.Beq. Proof. intros a. roundtrip. Qed.
Lemma Bne_roundtrip : roundtrips Instrs.Bne. Proof. intros a. roundtrip. Qed.
Lemma Blt_roundtrip : roundtrips Instrs.Blt. Proof. intros a. roundtrip. Qed.
Lemma Bge_roundtrip : roundtrips Instrs.Bge. Proof. intros a. roundtrip. Qed.
Lemma Bltu_roundtrip : roundtrips Instrs.Bltu. Proof. intros a. roundtrip. Qed.
Lemma Bgeu_roundtrip : roundtrips Instrs.Bgeu. Proof. intros a. roundtrip. Qed.
Lemma Lui_roundtrip : roundtrips Instrs.Lui. Proof. intros a. roundtrip. Qed.
Lemma Auipc_roundtrip : roundtrips Instrs.Auipc. Proof. intros a. roundtrip. Qed.
Lemma Jal_roundtrip : roundtrips Instrs.Jal. Proof. intros a. roundtrip. Qed.
Lemma Csrrw_roundtrip : roundtrips Instrs.Csrrw. Proof. intros a. roundtrip. Qed.
Lemma Csrrs_roundtrip : roundtrips Instrs.Csrrs. Proof. intros a. roundtrip. Qed.
Lemma Csrrc_roundtrip : roundtrips Instrs.Csrrc. Proof. intros a. roundtrip. Qed.
Lemma Csrrwi_roundtrip : roundtrips Instrs.Csrrwi. Proof. intros a. roundtrip. Qed.
Lemma Csrrsi_roundtrip : roundtrips Instrs.Csrrsi. Proof. intros a. roundtrip. Qed.
Lemma Csrrci_roundtrip : roundtrips Instrs.Csrrci. Proof. intros a. roundtrip. Qed.
Lemma Flw_roundtrip : roundtrips Instrs.Flw. Proof. intros a. roundtrip. Qed.
Lemma Fld_roundtrip : roundtrips Instrs.Fld. Proof. intros a. roundtrip. Qed.
Lemma Fsw_roundtrip : roundtrips Instrs.Fsw. Proof. intros a. roundtrip. Qed.
Lemma Fsd_roundtrip : roundtrips Instrs.Fsd. Proof. intros a. roundtrip. Qed.
Lemma Addiw_roundtrip : roundtrips Instrs.Addiw. Proof. intros a. roundtrip. Qed.
Lemma Slti_roundtrip : roundtrips Instrs.Slti. Proof. intros a. roundtrip. Qed.
Lemma Sltiu_roundtrip : roundtrips Instrs.Sltiu. Proof. intros a. roundtrip. Qed.
Lemma Xori_roundtrip : roundtrips Instrs.Xori. Proof. intros a. roundtrip. Qed.
Lemma Ori_roundtrip : roundtrips Instrs.Ori. Proof. intros a. roundtrip. Qed.
Lemma Andi_roundtrip : roundtrips Instrs.Andi. Proof. intros a. roundtrip. Qed.

(** Instructions with a field of their own. *)
Lemma Addi_roundtrip : roundtrips Instrs.Addi.
Proof.
  intros a He. cbn [encode_cacheable encodable32] in *. unfold enc_i.
  apply andb_true_iff in He as [Hi He]. abstract_word H. to_macro H.
  unfold parse_op_arith_i. by_f3 H.
  rewrite (rd_parsed_of _ _ _ _ _ _ _ H _ eq_refl), (rs1_parsed_of _ _ _ _ _ _ _ H _ eq_refl),
    (i_imm_of _ _ _ _ _ _ _ H _ Hi eq_refl eq_refl).
  destruct a as [rd rs1 imm]; cbn in *. destruct rd; [|reflexivity].
  destruct rs1; [discriminate|]. destruct imm; [discriminate|reflexivity..].
Qed.

(** The top six bits of the immediate select the kind of shift. *)
Lemma imm_11_6_of w imm lo n1 f3 nd op : lo * 64 <= imm < lo * 64 + 64 -> 0 <= lo < 64 ->
  has_fields w (field 5 7 imm) (field 0 5 imm) n1 f3 nd op -> imm_11_6 w = lo * 2.
Proof.
  intros Hi Hlo H. rewrite imm_11_6_field. f_equal.
  replace (field 26 6 w) with (field 1 6 (field 25 7 w)) by (apply field_field; lia).
  replace (field 25 7 w) with (field 5 7 imm) by (symmetry; apply H).
  rewrite field_field by lia. place (imm - lo * 64) lo 0.
Qed.
Lemma imm12_within lo imm hi : within lo imm hi = true -> -2048 <= lo -> hi <= 2048 -> imm12_ok imm = true.
Proof. rewrite within_spec. unfold imm12_ok. rewrite within_spec. lia. Qed.

Ltac shift lo v :=
  let He := fresh "He" in let H := fresh "H" in let Ht := fresh "Ht" in
  intros He; cbn [encode_cacheable encodable32] in *; unfold enc_nzi, enc_i;
  pose proof (proj1 (within_spec _ _ _) He) as ?Hr; abstract_word H; to_macro H;
  unfold parse_op_arith_i, parse_op_arith_iw; by_f3 H;
  assert (Ht : imm_11_6 _ = v) by (unshelve eapply (imm_11_6_of _ _ lo _ _ _ _ _ _ H); lia);
  rewrite Ht; eval_tests;
  try (assert (imm12_ok (nzri_imm _) = true) by (eapply imm12_within; [eassumption | lia | lia]);
       macro_of H).
Lemma Slli_roundtrip : roundtrips Instrs.Slli. Proof. intros a. shift 0 0. Qed.
Lemma Srli_roundtrip : roundtrips Instrs.Srli. Proof. intros a. shift 0 0. Qed.
Lemma Slliw_roundtrip : roundtrips Instrs.Slliw. Proof. intros a. shift 0 0. Qed.
Lemma Srliw_roundtrip : roundtrips Instrs.Srliw. Proof. intros a. shift 0 0. Qed.
Lemma Sraiw_roundtrip : roundtrips Instrs.Sraiw. Proof. intros a. shift 16 32. Qed.
Lemma Srai_roundtrip : roundtrips Instrs.Srai.
Proof.
  intros a. shift 16 32. rewrite (rd_nz_of _ _ _ _ _ _ _ H _ eq_refl),
    (rs1_of _ _ _ _ _ _ _ H _ eq_refl), shift_imm_fields.
  destruct H as (_ & _ & _ & _ & _ & H2 & H7).
  replace (field 20 6 w) with (field 0 6 (1024 + nzri_imm a)).
  2: { symmetry. apply (field_join 20 0 5 1); try lia.
       change (20 + 5) with (0 + 25). rewrite <- (field_field 0 1 25 7), H7 by lia.
       apply field_field; lia. }
  replace (field 0 6 (1024 + nzri_imm a)) with (nzri_imm a)
    by (symmetry; place 0 (nzri_imm a) 16).
  destruct a; reflexivity.
Qed.
Lemma Divuw_roundtrip : roundtrips Instrs.Divuw.
Proof.
  intros a He. cbn [encode_cacheable encodable32] in *. unfold enc_rr. abstract_word H. to_macro H.
  unfold parse_op_arith_w. by_f3 H. rewrite (rd_of _ _ _ _ _ _ _ H _ eq_refl).
  pose proof (split_x0_inv (r_rd a)) as Hs. destruct (split_x0 (r_rd a)); [|macro_of H].
  rewrite Hs in He. discriminate.
Qed.
Lemma Ecall_roundtrip : encodable32 Instrs.Ecall = true -> decodes_to (encode_cacheable Instrs.Ecall) Instrs.Ecall.
Proof. intros _. split_and!; [unfold urange; cbn; lia | reflexivity..]. Qed.
Lemma Wfi_roundtrip : encodable32 Instrs.Wfi = true -> decodes_to (encode_cacheable Instrs.Wfi) Instrs.Wfi.
Proof. intros _. split_and!; [unfold urange; cbn; lia | reflexivity..]. Qed.

(** Atomics: the operation is in [funct5]. *)
Ltac atomic f5v :=
  let He := fresh "He" in let H := fresh "H" in let H5 := fresh "H5" in let Hm := fresh "Hm" in
  intros a He; cbn [encode_cacheable encodable32] in *; unfold enc_amo;
  pose proof (flag_range (amo_aq a)) as ?Hq; pose proof (flag_range (amo_rl a)) as ?Hl;
  abstract_word H; to_macro H; unfold parse_op_amo; by_f3 H;
  match goal with |- _ = ?C a =>
    destruct (amo_instr_of _ C _ f5v _ _ ltac:(lia) H) as [Hm H5]; rewrite H5; eval_tests;
    rewrite ?(rs2_bits_of _ _ _ _ _ _ _ H)
  end;
  first [exact Hm | apply is_zero_spec in He; rewrite He in *; exact Hm].
Lemma Lrw_roundtrip : roundtrips Instrs.Lrw. Proof. atomic 2. Qed.
Lemma Scw_roundtrip : roundtrips Instrs.Scw. Proof. atomic 3. Qed.
Lemma Amoswapw_roundtrip : roundtrips Instrs.Amoswapw. Proof. atomic 1. Qed.
Lemma Amoaddw_roundtrip : roundtrips Instrs.Amoaddw. Proof. atomic 0. Qed.
Lemma Amoxorw_roundtrip : roundtrips Instrs.Amoxorw. Proof. atomic 4. Qed.
Lemma Amoandw_roundtrip : roundtrips Instrs.Amoandw. Proof. atomic 12. Qed.
Lemma Amoorw_roundtrip : roundtrips Instrs.Amoorw. Proof. atomic 8. Qed.
Lemma Amominw_roundtrip : roundtrips Instrs.Amominw. Proof. atomic 16. Qed.
Lemma Amomaxw_roundtrip : roundtrips Instrs.Amomaxw. Proof. atomic 20. Qed.
Lemma Amominuw_roundtrip : roundtrips Instrs.Amominuw. Proof. atomic 24. Qed.
Lemma Amomaxuw_roundtrip : roundtrips Instrs.Amomaxuw. Proof. atomic 28. Qed.
Lemma Lrd_roundtrip : roundtrips Instrs.Lrd. Proof. atomic 2. Qed.
Lemma Scd_roundtrip : roundtrips Instrs.Scd. Proof. atomic 3. Qed.
Lemma Amoswapd_roundtrip : roundtrips Instrs.Amoswapd. Proof. atomic 1. Qed.
Lemma Amoaddd_roundtrip : roundtrips Instrs.Amoaddd. Proof. atomic 0. Qed.
Lemma Amoxord_roundtrip : roundtrips Instrs.Amoxord. Proof. atomic 4. Qed.
Lemma Amoandd_roundtrip : roundtrips Instrs.Amoandd. Proof. atomic 12. Qed.
Lemma Amoord_roundtrip : roundtrips Instrs.Amoord. Proof. atomic 8. Qed.
Lemma Amomind_roundtrip : roundtrips Instrs.Amomind. Proof. atomic 16. Qed.
Lemma Amomaxd_roundtrip : roundtrips Instrs.Amomaxd. Proof. atomic 20. Qed.
Lemma Amominud_roundtrip : roundtrips Instrs.Amominud. Proof. atomic 24. Qed.
Lemma Amomaxud_roundtrip : roundtrips Instrs.Amomaxud. Proof. atomic 28. Qed.

(** Floating point: the operation is in [funct5] and the format in [fmt]. *)
Ltac floating f5 f :=
  let He := fresh "He" in let H := fresh "H" in let H5 := fresh "H5" in let Hf := fresh "Hf" in
  intros a He; cbn [encode_cacheable encodable32] in *;
  unfold enc_fr2, enc_fr1, enc_fr, enc_fcmp, enc_fxr, enc_xfr, enc_fx, enc_op_fp;
  abstract_word H; to_macro H;
  destruct (funct5_of _ _ _ _ _ _ _ H f5 f ltac:(unfold urange; lia) ltac:(lia) eq_refl) as [H5 Hf];
  unfold parse_op_fp; rewrite Hf; eval_tests; unfold parse_op_fp_s, parse_op_fp_d; rewrite H5; eval_tests;
  f_equal; try (macro_of H);
  rewrite ?(rs2_u5_of _ _ _ _ _ _ _ H); eval_tests; try (macro_of H);
  rewrite <- ?(rs2_u5_of _ _ _ _ _ _ _ H), ?(funct3_of _ _ _ _ _ _ _ H); eval_tests; macro_of H.
Ltac fused f :=
  let He := fresh "He" in let H := fresh "H" in let Hf := fresh "Hf" in let Hm := fresh "Hm" in
  intros a He; cbn [encode_cacheable]; unfold enc_fr3;
  abstract_word H; to_macro H; unfold parse_op_fma;
  match goal with |- _ = Cacheable (?C a) =>
    destruct (f_r_rm_3_of _ C _ f _ ltac:(unfold urange; lia) H) as [Hm Hf]; rewrite Hf; eval_tests
  end; f_equal; exact Hm.
Lemma Fmadds_roundtrip : roundtrips Instrs.Fmadds. Proof. fused 0. Qed.
Lemma Fmsubs_roundtrip : roundtrips Instrs.Fmsubs. Proof. fused 0. Qed.
Lemma Fnmsubs_roundtrip : roundtrips Instrs.Fnmsubs. Proof. fused 0. Qed.
Lemma Fnmadds_roundtrip : roundtrips Instrs.Fnmadds. Proof. fused 0. Qed.
Lemma Fadds_roundtrip : roundtrips Instrs.Fadds. Proof. floating 0 0. Qed.
Lemma Fsubs_roundtrip : roundtrips Instrs.Fsubs. Proof. floating 1 0. Qed.
Lemma Fmuls_roundtrip : roundtrips Instrs.Fmuls. Proof. floating 2 0. Qed.
Lemma Fdivs_roundtrip : roundtrips Instrs.Fdivs. Proof. floating 3 0. Qed.
Lemma Fsgnjs_roundtrip : roundtrips Instrs.Fsgnjs. Proof. floating 4 0. Qed.
Lemma Fsgnjns_roundtrip : roundtrips Instrs.Fsgnjns. Proof. floating 4 0. Qed.
Lemma Fsgnjxs_roundtrip : roundtrips Instrs.Fsgnjxs. Proof. floating 4 0. Qed.
Lemma Fmins_roundtrip : roundtrips Instrs.Fmins. Proof. floating 5 0. Qed.
Lemma Fmaxs_roundtrip : roundtrips Instrs.Fmaxs. Proof. floating 5 0. Qed.
Lemma Fsqrts_roundtrip : roundtrips Instrs.Fsqrts. Proof. floating 11 0. Qed.
Lemma Fcvtsd_roundtrip : roundtrips Instrs.Fcvtsd. Proof. floating 8 0. Qed.
Lemma Fles_roundtrip : roundtrips Instrs.Fles. Proof. floating 20 0. Qed.
Lemma Flts_roundtrip : roundtrips Instrs.Flts. Proof. floating 20 0. Qed.
Lemma Feqs_roundtrip : roundtrips Instrs.Feqs. Proof. floating 20 0. Qed.
Lemma Fcvtws_roundtrip : roundtrips Instrs.Fcvtws. Proof. floating 24 0. Qed.
Lemma Fcvtsw_roundtrip : roundtrips Instrs.Fcvtsw. Proof. floating 26 0. Qed.
Lemma Fcvtwus_roundtrip : roundtrips Instrs.Fcvtwus. Proof. floating 24 0. Qed.
Lemma Fcvtswu_roundtrip : roundtrips Instrs.Fcvtswu. Proof. floating 26 0. Qed.
Lemma Fcvtls_roundtrip : roundtrips Instrs.Fcvtls. Proof. floating 24 0. Qed.
Lemma Fcvtsl_roundtrip : roundtrips Instrs.Fcvtsl. Proof. floating 26 0. Qed.
Lemma Fcvtlus_roundtrip : roundtrips Instrs.Fcvtlus. Proof. floating 24 0. Qed.
Lemma Fcvtslu_roundtrip : roundtrips Instrs.Fcvtslu. Proof. floating 26 0. Qed.
Lemma FmvXW_roundtrip : roundtrips Instrs.FmvXW. Proof. floating 28 0. Qed.
Lemma FclassS_roundtrip : roundtrips Instrs.FclassS. Proof. floating 28 0. Qed.
Lemma FmvWX_roundtrip : roundtrips Instrs.FmvWX. Proof. floating 30 0. Qed.
Lemma Fmaddd_roundtrip : roundtrips Instrs.Fmaddd. Proof. fused 1. Qed.
Lemma Fmsubd_roundtrip : roundtrips Instrs.Fmsubd. Proof. fused 1. Qed.
Lemma Fnmsubd_roundtrip : roundtrips Instrs.Fnmsubd. Proof. fused 1. Qed.
Lemma Fnmaddd_roundtrip : roundtrips Instrs.Fnmaddd. Proof. fused 1. Qed.
Lemma Faddd_roundtrip : roundtrips Instrs.Faddd. Proof. floating 0 1. Qed.
Lemma Fsubd_roundtrip : roundtrips Instrs.Fsubd. Proof. floating 1 1. Qed.
Lemma Fmuld_roundtrip : roundtrips Instrs.Fmuld. Proof. floating 2 1. Qed.
Lemma Fdivd_roundtrip : roundtrips Instrs.Fdivd. Proof. floating 3 1. Qed.
Lemma Fsgnjd_roundtrip : roundtrips Instrs.Fsgnjd. Proof. floating 4 1. Qed.
Lemma Fsgnjnd_roundtrip : roundtrips Instrs.Fsgnjnd. Proof. floating 4 1. Qed.
Lemma Fsgnjxd_roundtrip : roundtrips Instrs.Fsgnjxd. Proof. floating 4 1. Qed.
Lemma Fmind_roundtrip : roundtrips Instrs.Fmind. Proof. floating 5 1. Qed.
Lemma Fmaxd_roundtrip : roundtrips Instrs.Fmaxd. Proof. floating 5 1. Qed.
Lemma Fsqrtd_roundtrip : roundtrips Instrs.Fsqrtd. Proof. floating 11 1. Qed.
Lemma Fcvtds_roundtrip : roundtrips Instrs.Fcvtds. Proof. floating 8 1. Qed.
Lemma Fled_roundtrip : roundtrips Instrs.Fled. Proof. floating 20 1. Qed.
Lemma Fltd_roundtrip : roundtrips Instrs.Fltd. Proof. floating 20 1. Qed.
Lemma Feqd_roundtrip : roundtrips Instrs.Feqd. Proof. floating 20 1. Qed.
Lemma Fcvtwd_roundtrip : roundtrips Instrs.Fcvtwd. Proof. floating 24 1. Qed.
Lemma Fcvtdw_roundtrip : roundtrips Instrs.Fcvtdw. Proof. floating 26 1. Qed.
Lemma Fcvtwud_roundtrip : roundtrips Instrs.Fcvtwud. Proof. floating 24 1. Qed.
Lemma Fcvtdwu_roundtrip : roundtrips Instrs.Fcvtdwu. Proof. floating 26 1. Qed.
Lemma Fcvtld_roundtrip : roundtrips Instrs.Fcvtld. Proof. floating 24 1. Qed.
Lemma Fcvtdl_roundtrip : roundtrips Instrs.Fcvtdl. Proof. floating 26 1. Qed.
Lemma Fcvtlud_roundtrip : roundtrips Instrs.Fcvtlud. Proof. floating 24 1. Qed.
Lemma Fcvtdlu_roundtrip : roundtrips Instrs.Fcvtdlu. Proof. floating 26 1. Qed.
Lemma FmvXD_roundtrip : roundtrips Instrs.FmvXD. Proof. floating 28 1. Qed.
Lemma FclassD_roundtrip : roundtrips Instrs.FclassD. Proof. floating 28 1. Qed.
Lemma FmvDX_roundtrip : roundtrips Instrs.FmvDX. Proof. floating 30 1. Qed.
End Instructions.

Create HintDb roundtrip.
#[export] Hint Resolve
  Add_roundtrip Sub_roundtrip Sll_roundtrip Slt_roundtrip Sltu_roundtrip
  Xor_roundtrip Srl_roundtrip Sra_roundtrip Or_roundtrip And_roundtrip
  Mul_roundtrip Mulh_roundtrip Mulhsu_roundtrip Mulhu_roundtrip Div_roundtrip
  Divu_roundtrip Rem_roundtrip Remu_roundtrip Addw_roundtrip Subw_roundtrip
  Sllw_roundtrip Srlw_roundtrip Sraw_roundtrip Mulw_roundtrip Divw_roundtrip
  Remw_roundtrip Remuw_roundtrip Lb_roundtrip Lh_roundtrip Lw_roundtrip
  Ld_roundtrip Lbu_roundtrip Lhu_roundtrip Lwu_roundtrip Jalr_roundtrip
  Sb_roundtrip Sh_roundtrip Sw_roundtrip Sd_roundtrip Beq_roundtrip
  Bne_roundtrip Blt_roundtrip Bge_roundtrip Bltu_roundtrip Bgeu_roundtrip
  Lui_roundtrip Auipc_roundtrip Jal_roundtrip Csrrw_roundtrip Csrrs_roundtrip
  Csrrc_roundtrip Csrrwi_roundtrip Csrrsi_roundtrip Csrrci_roundtrip Flw_roundtrip
  Fld_roundtrip Fsw_roundtrip Fsd_roundtrip Addiw_roundtrip Slti_roundtrip
  Sltiu_roundtrip Xori_roundtrip Ori_roundtrip Andi_roundtrip Addi_roundtrip
  Slli_roundtrip Srli_roundtrip Slliw_roundtrip Srliw_roundtrip Sraiw_roundtrip
  Srai_roundtrip Divuw_roundtrip Ecall_roundtrip Wfi_roundtrip Lrw_roundtrip
  Scw_roundtrip Amoswapw_roundtrip Amoaddw_roundtrip Amoxorw_roundtrip Amoandw_roundtrip
  Amoorw_roundtrip Amominw_roundtrip Amomaxw_roundtrip Amominuw_roundtrip Amomaxuw_roundtrip
  Lrd_roundtrip Scd_roundtrip Amoswapd_roundtrip Amoaddd_roundtrip Amoxord_roundtrip
  Amoandd_roundtrip Amoord_roundtrip Amomind_roundtrip Amomaxd_roundtrip Amominud_roundtrip
  Amomaxud_roundtrip Fmadds_roundtrip Fmsubs_roundtrip Fnmsubs_roundtrip Fnmadds_roundtrip
  Fadds_roundtrip Fsubs_roundtrip Fmuls_roundtrip Fdivs_roundtrip Fsgnjs_roundtrip
  Fsgnjns_roundtrip Fsgnjxs_roundtrip Fmins_roundtrip Fmaxs_roundtrip Fsqrts_roundtrip
  Fcvtsd_roundtrip Fles_roundtrip Flts_roundtrip Feqs_roundtrip Fcvtws_roundtrip
  Fcvtsw_roundtrip Fcvtwus_roundtrip Fcvtswu_roundtrip Fcvtls_roundtrip Fcvtsl_roundtrip
  Fcvtlus_roundtrip Fcvtslu_roundtrip FmvXW_roundtrip FclassS_roundtrip FmvWX_roundtrip
  Fmaddd_roundtrip Fmsubd_roundtrip Fnmsubd_roundtrip Fnmaddd_roundtrip Faddd_roundtrip
  Fsubd_roundtrip Fmuld_roundtrip Fdivd_roundtrip Fsgnjd_roundtrip Fsgnjnd_roundtrip
  Fsgnjxd_roundtrip Fmind_roundtrip Fmaxd_roundtrip Fsqrtd_roundtrip Fcvtds_roundtrip
  Fled_roundtrip Fltd_roundtrip Feqd_roundtrip Fcvtwd_roundtrip Fcvtdw_roundtrip
  Fcvtwud_roundtrip Fcvtdwu_roundtrip Fcvtld_roundtrip Fcvtdl_roundtrip Fcvtlud_roundtrip
  Fcvtdlu_roundtrip FmvXD_roundtrip FclassD_roundtrip FmvDX_roundtrip : roundtrip.

(** ** Properties *)

(** *** Instructions that are not cached *)
Definition no_set (f : FenceSet) : bool := negb (fs_i f || fs_o f || fs_r f || fs_w f).

(** The operands of a 32-bit instruction fit its format.  A fence with an empty set is a
    hint, as [addi] to [x0] is; hints and unknown words stand for themselves. *)
Definition operands_fit (i : Instr) : bool :=
  match i with
  | Cacheable (Instrs.Divuw _) => true
  | Cacheable i => encodable32 i
  | Uncacheable (Instrs.Fence a) => negb (no_set (fence_pred a)) && negb (no_set (fence_succ a))
  | Uncacheable Instrs.CEbreak => false
  | Uncacheable _ => true
  end.
Definition divuw_x0 (i : Instr) : bool :=
  match i with Cacheable (Instrs.Divuw a) => is_zero (r_rd a) | _ => false end.

Lemma divuw_rejected a : is_zero (r_rd a) = true -> let w := encode_cacheable (Instrs.Divuw a) in
  urange 32 w /\ field 0 2 w = 3 /\ parse_uncompressed_instruction w = Cacheable (Instrs.Unknown w).
Proof.
  destruct a as [rd rs1 rs2]; cbn [r_rd]. intros Hz%is_zero_spec. subst rd.
  destruct rs1, rs2; (split_and!; [unfold urange; vm_compute; intuition congruence | reflexivity | reflexivity]).
Qed.
Lemma fence_roundtrip a : no_set (fence_pred a) = false -> no_set (fence_succ a) = false ->
  let w := encode (Uncacheable (Instrs.Fence a)) in
  urange 32 w /\ field 0 2 w = 3 /\ parse_uncompressed_instruction w = Uncacheable (Instrs.Fence a).
Proof.
  destruct a as [[[] [] [] []] [[] [] [] []]]; cbn; intros Hp Hs; try discriminate Hp; try discriminate Hs;
    (split_and!; [unfold urange; vm_compute; intuition congruence | reflexivity | reflexivity]).
Qed.
Lemma fence_tso_roundtrip a : let w := encode (Uncacheable (Instrs.FenceTso a)) in
  urange 32 w /\ field 0 2 w = 3 /\ parse_uncompressed_instruction w = Uncacheable (Instrs.FenceTso a).
Proof.
  destruct a as [[[] [] [] []] [[] [] [] []]];
    (split_and!; [unfold urange; vm_compute; intuition congruence | reflexivity | reflexivity]).
Qed.

Lemma cacheable_roundtrip i : encodable32 i = true -> decodes_to (encode_cacheable i) i.
Proof. destruct i; intros He; try discriminate He; auto with roundtrip. Qed.

(** C15: decoding is the inverse of encoding.  Every 32-bit instruction whose operands
    fit its format, integer, atomic, CSR, floating point, fence or breakpoint, is
    encoded as a 32-bit word with low bits [11], and the decoder gives back exactly
    that instruction; only [divuw] to [x0] gives an unknown instruction.  Not counted
    as instructions are the hints, which the decoder gives as their word. *)
Theorem encode_decode_uncompressed i : operands_fit i = true ->
  let w := encode i in urange 32 w /\ field 0 2 w = 3 /\
  parse_uncompressed_instruction w = if divuw_x0 i then Cacheable (Instrs.Unknown w) else i.
Proof.
  intros Hf. destruct i as [i|i].
  - assert (He : encodable32 i = true -> let w := encode_cacheable i in urange 32 w /\ field 0 2 w = 3 /\
      parse_uncompressed_instruction w = Cacheable i) by (intros He; apply cacheable_roundtrip, He).
    destruct i; try (exact (He Hf)). cbn [divuw_x0]. destruct (is_zero (r_rd args)) eqn:Hz.
    + exact (divuw_rejected args Hz).
    + apply He. cbn. rewrite Hz. reflexivity.
  - destruct i; try discriminate Hf.
    + cbn in Hf. apply andb_true_iff in Hf as [Hp%negb_true_iff Hs%negb_true_iff]. exact (fence_roundtrip args Hp Hs).
    + exact (fence_tso_roundtrip args).
    + split_and!; [unfold urange; vm_compute; intuition congruence | reflexivity | reflexivity].
    + split_and!; [unfold urange; vm_compute; intuition congruence | reflexivity | reflexivity].
Qed.

Lemma encode_decode_uncompressed_witness :
  let i := Cacheable (Instrs.Addi (mkSplitITypeArgs (NonZero NZ.x10) (NonZero NZ.x2) (-16))) in
  operands_fit i = true /\ encode i = 0xFF010513 /\ parse_uncompressed_instruction (encode i) = i.
Proof.
  split_and!; [reflexivity | reflexivity|].
  apply (encode_decode_uncompressed (Cacheable (Instrs.Addi (mkSplitITypeArgs (NonZero NZ.x10) (NonZero NZ.x2) (-16)))) eq_refl).
Defined.

(** [divuw] to [x0] is rejected as unknown, whatever its operands, while
    [divw], [remw] and [remuw] to [x0] are decoded. *)
Theorem divuw_x0_rejected rs1 rs2 :
  let a := mkRTypeArgs x0 rs1 rs2 in
  let w := encode_cacheable (Instrs.Divuw a) in
  parse_uncompressed_instruction w = Cacheable (Instrs.Unknown w) /\
  decodes_to (encode_cacheable (Instrs.Divw a)) (Instrs.Divw a) /\
  decodes_to (encode_cacheable (Instrs.Remw a)) (Instrs.Remw a) /\
  decodes_to (encode_cacheable (Instrs.Remuw a)) (Instrs.Remuw a).
Proof.
  intros a w. split_and!; auto with roundtrip.
  subst w. cbn [encode_cacheable]. unfold enc_rr. abstract_word H.
  unfold parse_uncompressed_instruction. rewrite (opcode_of _ _ _ _ _ _ _ H). eval_tests.
  unfold parse_op_arith_w. rewrite (rd_of _ _ _ _ _ _ _ H _ eq_refl). by_f3 H.
Qed.

(** The decoder accepts words that the manual reserves: [sllw] with any
    [funct7], and 32-bit shifts whose amount has bit 5 set. *)
Theorem reserved_shifts_accepted a f7 b : urange 7 f7 -> within 32 (nzri_imm b) 64 = true ->
  parse_uncompressed_instruction (enc_nzr f7 1 0x3B a) = Cacheable (Instrs.Sllw a) /\
  parse_uncompressed_instruction (enc_nzi 1 0x1B b) = Cacheable (Instrs.Slliw b) /\
  parse_uncompressed_instruction (enc_nzi 5 0x1B b) = Cacheable (Instrs.Srliw b).
Proof.
  intros Hf Hb. pose proof (proj1 (within_spec _ _ _) Hb) as Hr. unfold enc_nzi, enc_i, enc_nzr.
  split_and!; abstract_word H; unfold parse_uncompressed_instruction;
    rewrite (opcode_of _ _ _ _ _ _ _ H); eval_tests;
    unfold parse_op_arith_w, parse_op_arith_iw; by_f3 H; try macro_of H;
    (assert (Ht : imm_11_6 w = 0) by (unshelve eapply (imm_11_6_of _ _ 0 _ _ _ _ _ _ H); lia));
    rewrite Ht; eval_tests;
    (assert (Hi : imm12_ok (nzri_imm b) = true) by (eapply imm12_within; [eassumption | lia | lia]));
    macro_of H.
Qed.

Lemma reserved_shifts_accepted_witness :
  let a := mkNonZeroRdRTypeArgs NZ.x1 x2 x3 in
  let b := mkNonZeroRdITypeArgs NZ.x1 x2 33 in
  urange 7 0x55 /\ within 32 (nzri_imm b) 64 = true /\
  parse_uncompressed_instruction (enc_nzr 0x55 1 0x3B a) = Cacheable (Instrs.Sllw a) /\
  parse_uncompressed_instruction (enc_nzi 1 0x1B b) = Cacheable (Instrs.Slliw b) /\
  parse_uncompressed_instruction (enc_nzi 5 0x1B b) = Cacheable (Instrs.Srliw b).
Proof.
  intros a b. split; [unfold urange; lia | split; [reflexivity |]].
  apply (reserved_shifts_accepted a 0x55 b); [unfold urange; lia | reflexivity].
Defined.
