(* ===== verification/ParserSpecC.v ===== *)
(** * The decoder of 16-bit instructions against the reference encoder

    Every 16-bit word is the encoding of what it decodes to. *)

From S2P Require Import Prelude.
From S2P Require Import Bits.
From S2P Require Import Registers.
From S2P Require Import Csr.
From S2P Require Import Instr.
From S2P Require Import Parser.
From S2P Require Import Encoding.
From S2P Require Import ParserSpec.

(** ** Fields of a 16-bit word *)
Lemma c_opcode_field w : c_opcode w = field 0 2 w. Proof. apply c_bits_field; lia. Qed.
Lemma c_funct3_field w : c_funct3 w = field 13 3 w. Proof. apply c_bits_field; lia. Qed.
Lemma c_q1_10_field w : c_q1_10 w = field 10 2 w. Proof. apply c_bits_field; lia. Qed.
Lemma c_q1_5_field w : c_q1_5 w = field 5 2 w. Proof. apply c_bits_field; lia. Qed.

Lemma c_rd_rs1_num w : xreg_num (c_rd_rs1 w) = field 7 5 w. Proof. apply u5_reg. Qed.
Lemma c_rs2_num w : xreg_num (c_rs2 w) = field 2 5 w. Proof. apply u5_reg. Qed.
Lemma c_f_rd_rs1_num w : freg_repr (c_f_rd_rs1 w) = field 7 5 w. Proof. apply u5_freg. Qed.
Lemma c_f_rs2_num w : freg_repr (c_f_rs2 w) = field 2 5 w. Proof. apply u5_freg. Qed.

Lemma c_reg_prime_eq w p : 0 <= p -> c_reg_prime w p = field p 3 w + 8.
Proof.
  intros. unfold c_reg_prime. pose proof (field_range p 3 w ltac:(lia)) as Hr.
  unfold urange in Hr. apply wrap_small. unfold urange. lia.
Qed.
Lemma c_reg_prime_u5 w p : 0 <= p -> urange 5 (c_reg_prime w p).
Proof. intros. pose proof (c_reg_prime_range w p ltac:(lia)). unfold urange. lia. Qed.
Lemma c_rs1p_num w : xreg_num (c_rs1p w) = field 7 3 w + 8.
Proof. rewrite <- c_reg_prime_eq by lia. apply parse_xregister_defined, c_reg_prime_u5. lia. Qed.
Lemma c_rdp_rs2p_num w : xreg_num (c_rdp_rs2p w) = field 2 3 w + 8.
Proof. rewrite <- c_reg_prime_eq by lia. apply parse_xregister_defined, c_reg_prime_u5. lia. Qed.
Lemma c_f_rdp_rs2p_num w : freg_repr (c_f_rdp_rs2p w) = field 2 3 w + 8.
Proof. rewrite <- c_reg_prime_eq by lia. apply parse_fregister_defined, c_reg_prime_u5. lia. Qed.
Lemma c_rs1p_nz_num w : nz_num (c_rs1p_nz w) = field 7 3 w + 8.
Proof.
  rewrite <- c_reg_prime_eq by lia. unfold c_rs1p_nz.
  destruct (c_reg_prime_nz w 7 ltac:(lia)) as (r & -> & <-). reflexivity.
Qed.
Lemma c_rdp_rs2p_nz_num w : nz_num (c_rdp_rs2p_nz w) = field 2 3 w + 8.
Proof.
  rewrite <- c_reg_prime_eq by lia. unfold c_rdp_rs2p_nz.
  destruct (c_reg_prime_nz w 2 ltac:(lia)) as (r & -> & <-). reflexivity.
Qed.
Lemma c_bit12 w b : bit 16 w 12 = b -> field 12 1 w = flag b.
Proof.
  intros <-. rewrite bit_testbit, field_mod, <- Z.testbit_spec' by lia.
  destruct (Z.testbit w 12); reflexivity.
Qed.

(** ** Immediates *)
Lemma sign_extend_u16_sext v size : 0 < size <= 16 -> sign_extend_u16 v size = sext size v.
Proof. intros. unfold sign_extend_u16. bitwise_deep. Qed.
Lemma seg_field w start fin p : 0 <= fin <= start -> start < 15 ->
  seg w start fin p = wrap 16 (Z.shiftl (field fin (1 + start - fin) w) p).
Proof. intros. unfold seg. rewrite bits_subset_field by (unfold subset_ok; lia). reflexivity. Qed.

(** Each field of an immediate is a field of the word. *)
Ltac imm_fields :=
  unfold clw_imm, cld_imm, ci_imm, cslli_imm, ci_addi16sp_imm, ci_lwsp_imm, ci_ldsp_imm,
    css_swsp_imm, css_sdsp_imm, ciw_imm, cb_imm, cb_shamt_imm, cb_andi_imm, cj_imm;
  rewrite ?sign_extend_u16_sext, ?seg_field by lia; bitwise_deep.

Section Immediates.
Context (w : Z).
Lemma clw_imm_3 : field 3 3 (clw_imm w) = field 10 3 w. Proof. imm_fields. Qed.
Lemma clw_imm_2 : field 2 1 (clw_imm w) = field 6 1 w. Proof. imm_fields. Qed.
Lemma clw_imm_6 : field 6 1 (clw_imm w) = field 5 1 w. Proof. imm_fields. Qed.
Lemma cld_imm_3 : field 3 3 (cld_imm w) = field 10 3 w. Proof. imm_fields. Qed.
Lemma cld_imm_6 : field 6 2 (cld_imm w) = field 5 2 w. Proof. imm_fields. Qed.
Lemma ci_imm_5 : field 5 1 (ci_imm w) = field 12 1 w. Proof. imm_fields. Qed.
Lemma ci_imm_0 : field 0 5 (ci_imm w) = field 2 5 w. Proof. imm_fields. Qed.
Lemma cslli_imm_5 : field 5 1 (cslli_imm w) = field 12 1 w. Proof. imm_fields. Qed.
Lemma cslli_imm_0 : field 0 5 (cslli_imm w) = field 2 5 w. Proof. imm_fields. Qed.
Lemma ci_addi16sp_imm_9 : field 9 1 (ci_addi16sp_imm w) = field 12 1 w. Proof. imm_fields. Qed.
Lemma ci_addi16sp_imm_4 : field 4 1 (ci_addi16sp_imm w) = field 6 1 w. Proof. imm_fields. Qed.
Lemma ci_addi16sp_imm_6 : field 6 1 (ci_addi16sp_imm w) = field 5 1 w. Proof. imm_fields. Qed.
Lemma ci_addi16sp_imm_7 : field 7 2 (ci_addi16sp_imm w) = field 3 2 w. Proof. imm_fields. Qed.
Lemma ci_addi16sp_imm_5 : field 5 1 (ci_addi16sp_imm w) = field 2 1 w. Proof. imm_fields. Qed.
Lemma ci_lwsp_imm_5 : field 5 1 (ci_lwsp_imm w) = field 12 1 w. Proof. imm_fields. Qed.
Lemma ci_lwsp_imm_2 : field 2 3 (ci_lwsp_imm w) = field 4 3 w. Proof. imm_fields. Qed.
Lemma ci_lwsp_imm_6 : field 6 2 (ci_lwsp_imm w) = field 2 2 w. Proof. imm_fields. Qed.
Lemma ci_ldsp_imm_5 : field 5 1 (ci_ldsp_imm w) = field 12 1 w. Proof. imm_fields. Qed.
Lemma ci_ldsp_imm_3 : field 3 2 (ci_ldsp_imm w) = field 5 2 w. Proof. imm_fields. Qed.
Lemma ci_ldsp_imm_6 : field 6 3 (ci_ldsp_imm w) = field 2 3 w. Proof. imm_fields. Qed.
Lemma css_swsp_imm_2 : field 2 4 (css_swsp_imm w) = field 9 4 w. Proof. imm_fields. Qed.
Lemma css_swsp_imm_6 : field 6 2 (css_swsp_imm w) = field 7 2 w. Proof. imm_fields. Qed.
Lemma css_sdsp_imm_3 : field 3 3 (css_sdsp_imm w) = field 10 3 w. Proof. imm_fields. Qed.
Lemma css_sdsp_imm_6 : field 6 3 (css_sdsp_imm w) = field 7 3 w. Proof. imm_fields. Qed.
Lemma ciw_imm_3 : field 3 1 (ciw_imm w) = field 5 1 w. Proof. imm_fields. Qed.
Lemma ciw_imm_2 : field 2 1 (ciw_imm w) = field 6 1 w. Proof. imm_fields. Qed.
Lemma ciw_imm_6 : field 6 4 (ciw_imm w) = field 7 4 w. Proof. imm_fields. Qed.
Lemma ciw_imm_4 : field 4 2 (ciw_imm w) = field 11 2 w. Proof. imm_fields. Qed.
Lemma cb_imm_5 : field 5 1 (cb_imm w) = field 2 1 w. Proof. imm_fields. Qed.
Lemma cb_imm_1 : field 1 2 (cb_imm w) = field 3 2 w. Proof. imm_fields. Qed.
Lemma cb_imm_6 : field 6 2 (cb_imm w) = field 5 2 w. Proof. imm_fields. Qed.
Lemma cb_imm_3 : field 3 2 (cb_imm w) = field 10 2 w. Proof. imm_fields. Qed.
Lemma cb_imm_8 : field 8 1 (cb_imm w) = field 12 1 w. Proof. imm_fields. Qed.
Lemma cb_shamt_imm_5 : field 5 1 (cb_shamt_imm w) = field 12 1 w. Proof. imm_fields. Qed.
Lemma cb_shamt_imm_0 : field 0 5 (cb_shamt_imm w) = field 2 5 w. Proof. imm_fields. Qed.
Lemma cb_andi_imm_5 : field 5 1 (cb_andi_imm w) = field 12 1 w. Proof. imm_fields. Qed.
Lemma cb_andi_imm_0 : field 0 5 (cb_andi_imm w) = field 2 5 w. Proof. imm_fields. Qed.
Lemma cj_imm_5 : field 5 1 (cj_imm w) = field 2 1 w. Proof. imm_fields. Qed.
Lemma cj_imm_1 : field 1 3 (cj_imm w) = field 3 3 w. Proof. imm_fields. Qed.
Lemma cj_imm_7 : field 7 1 (cj_imm w) = field 6 1 w. Proof. imm_fields. Qed.
Lemma cj_imm_6 : field 6 1 (cj_imm w) = field 7 1 w. Proof. imm_fields. Qed.
Lemma cj_imm_10 : field 10 1 (cj_imm w) = field 8 1 w. Proof. imm_fields. Qed.
Lemma cj_imm_8 : field 8 2 (cj_imm w) = field 9 2 w. Proof. imm_fields. Qed.
Lemma cj_imm_4 : field 4 1 (cj_imm w) = field 11 1 w. Proof. imm_fields. Qed.
Lemma cj_imm_11 : field 11 1 (cj_imm w) = field 12 1 w. Proof. imm_fields. Qed.
End Immediates.

Create Rewrite HintDb cword.
#[export] Hint Rewrite c_opcode_field c_funct3_field c_q1_10_field c_q1_5_field
  c_rd_rs1_num c_rs2_num c_f_rd_rs1_num c_f_rs2_num c_rs1p_num c_rdp_rs2p_num
  c_f_rdp_rs2p_num c_rs1p_nz_num c_rdp_rs2p_nz_num
  clw_imm_3 clw_imm_2 clw_imm_6 cld_imm_3 cld_imm_6 ci_imm_5
  ci_imm_0 cslli_imm_5 cslli_imm_0 ci_addi16sp_imm_9 ci_addi16sp_imm_4 ci_addi16sp_imm_6
  ci_addi16sp_imm_7 ci_addi16sp_imm_5 ci_lwsp_imm_5 ci_lwsp_imm_2 ci_lwsp_imm_6 ci_ldsp_imm_5
  ci_ldsp_imm_3 ci_ldsp_imm_6 css_swsp_imm_2 css_swsp_imm_6 css_sdsp_imm_3 css_sdsp_imm_6
  ciw_imm_3 ciw_imm_2 ciw_imm_6 ciw_imm_4 cb_imm_5 cb_imm_1
  cb_imm_6 cb_imm_3 cb_imm_8 cb_shamt_imm_5 cb_shamt_imm_0 cb_andi_imm_5
  cb_andi_imm_0 cj_imm_5 cj_imm_1 cj_imm_7 cj_imm_6 cj_imm_10
  cj_imm_8 cj_imm_4 cj_imm_11 : cword.

(** ** Putting a word together from its fields *)
Definition upper (w k : Z) : Z := w / 2 ^ k.
Lemma upper_peel w p n q : 0 <= p -> 0 <= n -> q = p + n ->
  upper w p = field p n w + upper w q * 2 ^ n.
Proof. intros ? ? ->. apply field_peel; lia. Qed.
Lemma upper_0 w : upper w 0 = w. Proof. apply Z.div_1_r. Qed.
Lemma upper_16 w : urange 16 w -> upper w 16 = 0. Proof. apply Z.div_small. Qed.

(** Proves that a word is the sum of its fields, known ones given as equations. *)
Ltac peel w :=
  repeat match goal with |- context [field ?p ?n w] =>
    let q := eval cbv in (p + n) in
    lazymatch goal with
    | _ : upper w p = field p n w + upper w q * _ |- _ => fail
    | _ => pose proof (upper_peel w p n q ltac:(lia) ltac:(lia) eq_refl)
    end
  end.
Ltac recombine w Hw :=
  autorewrite with cword in *;
  repeat match goal with H : field _ _ w = _ |- _ => revert H end;
  peel w; pose proof (upper_0 w); pose proof (upper_16 w Hw); intros; lia.

Ltac encode_c :=
  cbn [encode_cacheable];
  unfold enc_ciw, enc_cl, scatter_w, scatter_d, enc_ci, enc_cb_alu, enc_ca, enc_cj, enc_cb, enc_ldsp,
    enc_sdsp, enc_css, enc_ci_bits;
  cbn [fld_rd fld_rs1 fld_imm cib_rd_rs1 cib_imm nzi_rd nzi_rs1 nzi_imm fst_rs1 fst_rs2
    fst_imm nzsb_rs1 nzsb_rs2 nzsb_imm cibnz_rd_rs1 cibnz_imm cjt_imm cr_rd_rs1 cr_rs2 crj_rs1
    cnzr_rd_rs1 cnzr_rs2 cibd_rd_rs1 cibd_imm cssd_rs2 cssd_imm css_rs2 css_imm].

Section Quadrants.
Context (w : Z) (Hw : urange 16 w).

Lemma parse_c0_enc : c_opcode w = OP_C0 -> encode_cacheable (parse_c0 w) = w.
Proof.
  intros Ho. unfold parse_c0, OP_C0, C_F3_0, C_F3_1, C_F3_2, C_F3_3, C_F3_5, C_F3_6, C_F3_7 in *.
  tests; try reflexivity; try (encode_c; recombine w Hw).
  destruct (ciw_imm w) eqn:E; [reflexivity | rewrite <- E; encode_c; recombine w Hw ..].
Qed.

(** The destination of a compressed instruction: [x0], or the register of the field. *)
Lemma c_rd_split : match split_x0 (c_rd_rs1 w) with
  | X0 => field 7 5 w = 0 | NonZero r => field 7 5 w = nz_num r end.
Proof. rewrite <- c_rd_rs1_num, <- split_x0_num. destruct (split_x0 _); reflexivity. Qed.
Lemma c_rs2_split : match split_x0 (c_rs2 w) with
  | X0 => field 2 5 w = 0 | NonZero r => field 2 5 w = nz_num r end.
Proof. rewrite <- c_rs2_num, <- split_x0_num. destruct (split_x0 _); reflexivity. Qed.

Ltac splits :=
  pose proof c_rd_split; pose proof c_rs2_split;
  repeat match goal with
  | E : split_x0 ?r = _, H : context [split_x0 ?r] |- _ => lazymatch H with E => fail | _ => rewrite E in H end
  | |- context [split_x0 ?r] => destruct (split_x0 r) eqn:?
  end.
(** The case analysis on an immediate, which keeps its equation. *)
Ltac imm_cases :=
  match goal with
  | |- context [match ?i with 0 => _ | Zpos _ => _ | Zneg _ => _ end] =>
      let E := fresh "E" in destruct i eqn:E; try reflexivity; try (rewrite <- E)
  end.

Lemma ci_imm_zero : ci_imm w = 0 -> field 12 1 w = 0 /\ field 2 5 w = 0.
Proof. intros E. rewrite <- (ci_imm_5 w), <- (ci_imm_0 w), E. split; reflexivity. Qed.
Lemma shamt_zero : cb_shamt_imm w = 0 -> field 12 1 w = 0 /\ field 2 5 w = 0.
Proof. intros E. rewrite <- (cb_shamt_imm_5 w), <- (cb_shamt_imm_0 w), E. split; reflexivity. Qed.

(** The upper immediate keeps the bits of the field. *)
Lemma clui_field p n : 0 <= p -> 0 < n -> p + n <= 6 ->
  field p n (Z.shiftr (sext 64 (Z.shiftl (ci_imm w) 12)) 12) = field p n (ci_imm w).
Proof.
  intros. unfold ci_imm. rewrite sign_extend_u16_sext by lia.
  generalize (Z.lor (seg w 12 12 5) (seg w 6 2 0)). intros z. bitwise_deep.
Qed.

Ltac zeros :=
  repeat match goal with
  | H : ci_imm w = 0 |- _ => apply ci_imm_zero in H as [? ?]
  | H : cb_shamt_imm w = 0 |- _ => apply shamt_zero in H as [? ?]
  end.
Ltac bit12 :=
  repeat match goal with
  | H : negb (bit 16 w 12) = true |- _ => apply negb_true_iff in H
  | H : bit 16 w 12 = ?b |- _ => apply c_bit12 in H; cbn [flag] in H
  end.
Ltac quadrant := unfold cc_instr, cr_instr; bit12; splits; repeat imm_cases; try reflexivity; encode_c;
  rewrite ?clui_field by lia; zeros; recombine w Hw.

Lemma clui_enc r : c_opcode w = 1 -> c_funct3 w = 3 -> field 7 5 w = nz_num r ->
  encode_cacheable (Instrs.CLui {| cibnz_rd_rs1 := r; cibnz_imm := sext 64 (Z.shiftl (ci_imm w) 12) |}) = w.
Proof.
  intros. encode_c. rewrite !clui_field by lia. recombine w Hw.
Qed.

Lemma parse_c1_enc : c_opcode w = OP_C1 -> encode_cacheable (parse_c1 w) = w.
Proof.
  intros Ho. unfold parse_c1, OP_C1, C_F3_0, C_F3_1, C_F3_2, C_F3_3, C_F3_4, C_F3_5, C_F3_6, C_F3_7,
    C_Q1_0, C_Q1_1, C_Q1_2, C_Q1_3 in *.
  tests; try reflexivity; try quadrant.
  splits; [imm_cases|].
  match goal with |- context [match ?r with NZ.x1 => _ | _ => _ end] => destruct r end;
    try (imm_cases; apply clui_enc; assumption).
  encode_c. change (nz_num NZ.x2) with 2 in *. recombine w Hw.
Qed.

Lemma parse_c2_enc i : c_opcode w = OP_C2 -> parse_c2 w = Cacheable i -> encode_cacheable i = w.
Proof.
  intros Ho. unfold parse_c2, OP_C2, C_F3_0, C_F3_1, C_F3_2, C_F3_3, C_F3_4, C_F3_5, C_F3_6, C_F3_7 in *.
  tests; splits; intros E; try discriminate E; injection E as <-; try reflexivity; try quadrant.
Qed.
Lemma parse_c2_uncacheable i : c_opcode w = OP_C2 -> parse_c2 w = Uncacheable i ->
  i = Instrs.CEbreak /\ w = 0x9002.
Proof.
  intros Ho. unfold parse_c2, OP_C2, C_F3_0, C_F3_1, C_F3_2, C_F3_3, C_F3_4, C_F3_5, C_F3_6, C_F3_7 in *.
  tests; splits; intros E; try discriminate E. injection E as <-.
  split; [reflexivity|]. bit12. symmetry. change 0x9002 with (2 + 0 * 4 + 0 * 128 + 4096 + 4 * 8192).
  recombine w Hw.
Qed.

Lemma inner_encode : encode (parse_compressed_instruction_inner w) = w.
Proof.
  unfold parse_compressed_instruction_inner.
  destruct (Z.eqb_spec (c_opcode w) OP_C0); [apply parse_c0_enc; assumption|].
  destruct (Z.eqb_spec (c_opcode w) OP_C1); [apply parse_c1_enc; assumption|].
  destruct (Z.eqb_spec (c_opcode w) OP_C2) as [Ho|]; [|reflexivity].
  destruct (parse_c2 w) as [i|i] eqn:E; [apply parse_c2_enc; assumption|].
  apply parse_c2_uncacheable in E as [-> Ew]; [symmetry; exact Ew | assumption].
Qed.
End Quadrants.

(** C12: every 16-bit word is the encoding of what it decodes to.  The decoder has
    a total result on half words (its jump table is never indexed out of bounds,
    and the register conversions of its macros never panic), reads the scattered
    immediates of the compressed formats as the manual lays them out, and gives
    two different words two different instructions. *)
Theorem decode_compressed_encode w : urange 16 w ->
  exists i, parse_compressed_instruction w = Some i /\ encode i = w.
Proof.
  intros Hw. exists (parse_compressed_instruction_inner w).
  split; [apply parse_compressed_instruction_inner_eq, Hw | apply inner_encode, Hw].
Qed.

Lemma decode_compressed_encode_witness :
  urange 16 0x7139 /\ exists i, parse_compressed_instruction 0x7139 = Some i /\ encode i = 0x7139.
Proof.
  assert (H : urange 16 0x7139) by (unfold urange; lia).
  split; [exact H | exact (decode_compressed_encode 0x7139 H)].
Defined.
