(* ===== verification/Instruction.v ===== *)
(** * Instructions as opcode and flat arguments

    Models the data of [src/riscv/lib/src/machine_state/instruction.rs]: the
    opcodes the interpreter dispatches on, the [Register] union, [Args] and the
    conversions of the parser's argument structs into [Args]. *)

From S2P Require Import Prelude.
From S2P Require Import Registers.
From S2P Require Import Csr.
From S2P Require Import Instr.

Module OpCodes.
Inductive OpCode : Type :=
  | Unknown | Add | Sub | X64Xor | Or | And | ShiftLeft | ShiftRightUnsigned
  | ShiftRightSigned | SetLessThanSigned | SetLessThanUnsigned | AddWord | SubWord
  | X32ShiftLeft | X32ShiftRightSigned | X32ShiftRightUnsigned | Addi
  | AddWordImmediate | X64XorImm | X64OrImm | Andi | ShiftLeftImmediate
  | ShiftRightImmediateUnsigned | ShiftRightImmediateSigned | X32ShiftLeftImm
  | X32ShiftRightImmSigned | X32ShiftRightImmUnsigned | SetLessThanImmediateSigned
  | SetLessThanImmediateUnsigned | X8LoadSigned | X16LoadSigned | X32LoadSigned
  | X8LoadUnsigned | X16LoadUnsigned | X32LoadUnsigned | X64LoadSigned | X8Store
  | X16Store | X32Store | X64Store | BranchEqual | BranchNotEqual
  | BranchLessThanSigned | BranchGreaterThanOrEqualSigned | BranchLessThanUnsigned
  | BranchGreaterThanOrEqualUnsigned | AddImmediateToPC | Jal | JalrImm | X32AtomicLoad
  | X32AtomicStore | X32AtomicSwap | Amoaddw | Amoxorw | Amoandw | Amoorw | Amominw
  | Amomaxw | Amominuw | Amomaxuw | X64AtomicLoad | X64AtomicStore | X64AtomicSwap
  | X64AtomicAdd | Amoxord | Amoandd | Amoord | X64AtomicMinSigned | Amomaxd | Amominud
  | Amomaxud | X64RemSigned | X64RemUnsigned | X32RemSigned | X32RemUnsigned
  | X64DivSigned | X64DivUnsigned | X32DivSigned | X32DivUnsigned | Mul
  | X64MulHighSigned | X64MulHighSignedUnsigned | X64MulHighUnsigned | X32Mul | FclassS
  | Feqs | Fles | Flts | Fadds | Fsubs | Fmuls | Fdivs | Fsqrts | Fmins | Fmaxs
  | Fmadds | Fmsubs | Fnmsubs | Fnmadds | Flw | Fsw | Fcvtsw | Fcvtswu | Fcvtsl
  | Fcvtslu | Fcvtws | Fcvtwus | Fcvtls | Fcvtlus | Fsgnjs | Fsgnjns | Fsgnjxs | FmvXW
  | FmvWX | FclassD | Feqd | Fled | Fltd | Faddd | Fsubd | Fmuld | Fdivd | Fsqrtd
  | Fmind | Fmaxd | Fmaddd | Fmsubd | Fnmsubd | Fnmaddd | Fld | Fsd | Fcvtdw | Fcvtdwu
  | Fcvtdl | Fcvtdlu | Fcvtds | Fcvtsd | Fcvtwd | Fcvtwud | Fcvtld | Fcvtlud | Fsgnjd
  | Fsgnjnd | Fsgnjxd | FmvXD | FmvDX | Csrrw | Csrrs | Csrrc | Csrrwi | Csrrsi
  | Csrrci | Jr | Jalr | CFld | CFldsp | CFsd | CFsdsp | BranchEqualZero
  | BranchNotEqualZero | J | Mv | Li | Nop | Neg | JAbsolute | JalrAbsolute | JrImm
  | BranchLessThanZero | BranchGreaterThanOrEqualZero | BranchLessThanOrEqualZero
  | BranchGreaterThanZero | ECall.
End OpCodes.
Notation OpCode := OpCodes.OpCode.

(** ** The register union

    [union Register { x, f, nzx }] is the byte its three views share.  Reading
    the byte through a view it is not a value of is undefined behaviour in
    Rust: [None]. *)
Definition Register : Type := Z.
Definition register_default : Register := nz_repr NZ.x1.
Definition register_x (r : Register) : option XRegister := xreg_of_repr r.
Definition register_f (r : Register) : option FRegister := freg_of_repr r.
Definition register_nzx (r : Register) : option NonZeroXRegister := nz_of_repr r.

(** [impl From<_> for Register]. *)
Class IntoRegister (A : Type) : Type := into : A -> Register.
#[export] Instance into_x : IntoRegister XRegister := xreg_repr.
#[export] Instance into_f : IntoRegister FRegister := freg_repr.
#[export] Instance into_nzx : IntoRegister NonZeroXRegister := nz_repr.

Record Args : Type := mkArgs {
  a_rd : Register;
  a_rs1 : Register;
  a_rs2 : Register;
  a_imm : Z;
  a_csr : CSRegister;
  a_rs3f : FRegister;
  a_rm : InstrRoundingMode;
  a_aq : bool;
  a_rl : bool;
  a_width : InstrWidth }.

(** [Args::DEFAULT]. *)
Definition DEFAULT : Args :=
  {| a_rd := register_default; a_rs1 := register_default; a_rs2 := register_default;
     a_imm := 0; a_csr := Csrs.fflags; a_rs3f := f0; a_rm := Dynamic;
     a_aq := false; a_rl := false; a_width := Uncompressed |}.

(** Rust's struct update [Args { rd, width, ..Args::DEFAULT }] is written
    [DEFAULT |> rd_ rd |> width_ width]. *)
Definition rd_ {A} `{IntoRegister A} (v : A) (a : Args) : Args :=
  {| a_rd := into v; a_rs1 := a_rs1 a; a_rs2 := a_rs2 a; a_imm := a_imm a; a_csr := a_csr a; a_rs3f := a_rs3f a; a_rm := a_rm a; a_aq := a_aq a; a_rl := a_rl a; a_width := a_width a |}.
Definition rs1_ {A} `{IntoRegister A} (v : A) (a : Args) : Args :=
  {| a_rd := a_rd a; a_rs1 := into v; a_rs2 := a_rs2 a; a_imm := a_imm a; a_csr := a_csr a; a_rs3f := a_rs3f a; a_rm := a_rm a; a_aq := a_aq a; a_rl := a_rl a; a_width := a_width a |}.
Definition rs2_ {A} `{IntoRegister A} (v : A) (a : Args) : Args :=
  {| a_rd := a_rd a; a_rs1 := a_rs1 a; a_rs2 := into v; a_imm := a_imm a; a_csr := a_csr a; a_rs3f := a_rs3f a; a_rm := a_rm a; a_aq := a_aq a; a_rl := a_rl a; a_width := a_width a |}.
Definition imm_ (v : Z) (a : Args) : Args :=
  {| a_rd := a_rd a; a_rs1 := a_rs1 a; a_rs2 := a_rs2 a; a_imm := v; a_csr := a_csr a; a_rs3f := a_rs3f a; a_rm := a_rm a; a_aq := a_aq a; a_rl := a_rl a; a_width := a_width a |}.
Definition csr_ (v : CSRegister) (a : Args) : Args :=
  {| a_rd := a_rd a; a_rs1 := a_rs1 a; a_rs2 := a_rs2 a; a_imm := a_imm a; a_csr := v; a_rs3f := a_rs3f a; a_rm := a_rm a; a_aq := a_aq a; a_rl := a_rl a; a_width := a_width a |}.
Definition rs3f_ (v : FRegister) (a : Args) : Args :=
  {| a_rd := a_rd a; a_rs1 := a_rs1 a; a_rs2 := a_rs2 a; a_imm := a_imm a; a_csr := a_csr a; a_rs3f := v; a_rm := a_rm a; a_aq := a_aq a; a_rl := a_rl a; a_width := a_width a |}.
Definition rm_ (v : InstrRoundingMode) (a : Args) : Args :=
  {| a_rd := a_rd a; a_rs1 := a_rs1 a; a_rs2 := a_rs2 a; a_imm := a_imm a; a_csr := a_csr a; a_rs3f := a_rs3f a; a_rm := v; a_aq := a_aq a; a_rl := a_rl a; a_width := a_width a |}.
Definition aq_ (v : bool) (a : Args) : Args :=
  {| a_rd := a_rd a; a_rs1 := a_rs1 a; a_rs2 := a_rs2 a; a_imm := a_imm a; a_csr := a_csr a; a_rs3f := a_rs3f a; a_rm := a_rm a; a_aq := v; a_rl := a_rl a; a_width := a_width a |}.
Definition rl_ (v : bool) (a : Args) : Args :=
  {| a_rd := a_rd a; a_rs1 := a_rs1 a; a_rs2 := a_rs2 a; a_imm := a_imm a; a_csr := a_csr a; a_rs3f := a_rs3f a; a_rm := a_rm a; a_aq := a_aq a; a_rl := v; a_width := a_width a |}.
Definition width_ (v : InstrWidth) (a : Args) : Args :=
  {| a_rd := a_rd a; a_rs1 := a_rs1 a; a_rs2 := a_rs2 a; a_imm := a_imm a; a_csr := a_csr a; a_rs3f := a_rs3f a; a_rm := a_rm a; a_aq := a_aq a; a_rl := a_rl a; a_width := v |}.
Notation "a |> f" := (f a) (at level 50, left associativity, only parsing) : pvm_scope.

Record Instruction : Type := mkInstruction { i_opcode : OpCode; i_args : Args }.

(** ** The parser's argument structs as [Args] *)
Class IntoArgs (A : Type) : Type := into_args : A -> Args.
Definition args_of_RTypeArgs (value : RTypeArgs) : Args :=
  DEFAULT |> rd_ (r_rd value) |> rs1_ (r_rs1 value) |> rs2_ (r_rs2 value)
    |> width_ Uncompressed.
#[export] Instance into_RTypeArgs : IntoArgs RTypeArgs := args_of_RTypeArgs.
Definition args_of_NonZeroRdRTypeArgs (value : NonZeroRdRTypeArgs) : Args :=
  DEFAULT |> rd_ (nzr_rd value) |> rs1_ (nzr_rs1 value) |> rs2_ (nzr_rs2 value)
    |> width_ Uncompressed.
#[export] Instance into_NonZeroRdRTypeArgs : IntoArgs NonZeroRdRTypeArgs := args_of_NonZeroRdRTypeArgs.
Definition args_of_UJTypeArgs (value : UJTypeArgs) : Args :=
  DEFAULT |> rd_ (uj_rd value) |> imm_ (uj_imm value) |> width_ Uncompressed.
#[export] Instance into_UJTypeArgs : IntoArgs UJTypeArgs := args_of_UJTypeArgs.
Definition args_of_NonZeroRdUJTypeArgs (value : NonZeroRdUJTypeArgs) : Args :=
  DEFAULT |> rd_ (nzuj_rd value) |> imm_ (nzuj_imm value) |> width_ Uncompressed.
#[export] Instance into_NonZeroRdUJTypeArgs : IntoArgs NonZeroRdUJTypeArgs := args_of_NonZeroRdUJTypeArgs.
Definition args_of_AmoArgs (value : AmoArgs) : Args :=
  DEFAULT |> rd_ (amo_rd value) |> rs1_ (amo_rs1 value) |> rs2_ (amo_rs2 value)
    |> aq_ (amo_aq value) |> rl_ (amo_rl value) |> width_ Uncompressed.
#[export] Instance into_AmoArgs : IntoArgs AmoArgs := args_of_AmoArgs.
Definition args_of_CIBTypeArgs (value : CIBTypeArgs) : Args :=
  DEFAULT |> rd_ (cib_rd_rs1 value) |> imm_ (cib_imm value) |> rs1_ (cib_rd_rs1 value)
    |> width_ Compressed.
#[export] Instance into_CIBTypeArgs : IntoArgs CIBTypeArgs := args_of_CIBTypeArgs.
Definition args_of_CIBNZTypeArgs (value : CIBNZTypeArgs) : Args :=
  DEFAULT |> rd_ (cibnz_rd_rs1 value) |> imm_ (cibnz_imm value) |> width_ Compressed.
#[export] Instance into_CIBNZTypeArgs : IntoArgs CIBNZTypeArgs := args_of_CIBNZTypeArgs.
Definition args_of_CRTypeArgs (value : CRTypeArgs) : Args :=
  DEFAULT |> rd_ (cr_rd_rs1 value) |> rs2_ (cr_rs2 value) |> width_ Compressed.
#[export] Instance into_CRTypeArgs : IntoArgs CRTypeArgs := args_of_CRTypeArgs.
Definition args_of_CNZRTypeArgs (value : CNZRTypeArgs) : Args :=
  DEFAULT |> rd_ (cnzr_rd_rs1 value) |> rs2_ (cnzr_rs2 value) |> width_ Compressed.
#[export] Instance into_CNZRTypeArgs : IntoArgs CNZRTypeArgs := args_of_CNZRTypeArgs.
Definition args_of_CJTypeArgs (value : CJTypeArgs) : Args :=
  DEFAULT |> imm_ (cjt_imm value) |> width_ Compressed.
#[export] Instance into_CJTypeArgs : IntoArgs CJTypeArgs := args_of_CJTypeArgs.
Definition args_of_CRJTypeArgs (value : CRJTypeArgs) : Args :=
  DEFAULT |> rs1_ (crj_rs1 value) |> width_ Compressed.
#[export] Instance into_CRJTypeArgs : IntoArgs CRJTypeArgs := args_of_CRJTypeArgs.
Definition args_of_CSSTypeArgs (value : CSSTypeArgs) : Args :=
  DEFAULT |> rs2_ (css_rs2 value) |> imm_ (css_imm value) |> width_ Compressed.
#[export] Instance into_CSSTypeArgs : IntoArgs CSSTypeArgs := args_of_CSSTypeArgs.
Definition args_of_CsrArgs (value : CsrArgs) : Args :=
  DEFAULT |> rd_ (csr_rd value) |> rs1_ (csr_rs1 value) |> csr_ (csr_csr value)
    |> width_ Uncompressed.
#[export] Instance into_CsrArgs : IntoArgs CsrArgs := args_of_CsrArgs.
Definition args_of_CsriArgs (value : CsriArgs) : Args :=
  DEFAULT |> rd_ (csri_rd value) |> imm_ (csri_imm value) |> csr_ (csri_csr value)
    |> width_ Uncompressed.
#[export] Instance into_CsriArgs : IntoArgs CsriArgs := args_of_CsriArgs.
Definition args_of_CSSDTypeArgs (value : CSSDTypeArgs) : Args :=
  DEFAULT |> imm_ (cssd_imm value) |> rs2_ (cssd_rs2 value) |> width_ Compressed.
#[export] Instance into_CSSDTypeArgs : IntoArgs CSSDTypeArgs := args_of_CSSDTypeArgs.
Definition args_of_CIBDTypeArgs (value : CIBDTypeArgs) : Args :=
  DEFAULT |> imm_ (cibd_imm value) |> rd_ (cibd_rd_rs1 value) |> width_ Compressed.
#[export] Instance into_CIBDTypeArgs : IntoArgs CIBDTypeArgs := args_of_CIBDTypeArgs.
Definition args_of_XRegToFRegArgs (value : XRegToFRegArgs) : Args :=
  DEFAULT |> rd_ (xf_rd value) |> rs1_ (xf_rs1 value) |> width_ Uncompressed.
#[export] Instance into_XRegToFRegArgs : IntoArgs XRegToFRegArgs := args_of_XRegToFRegArgs.
Definition args_of_XRegToFRegArgsWithRounding (value : XRegToFRegArgsWithRounding) : Args :=
  DEFAULT |> rd_ (xfr_rd value) |> rs1_ (xfr_rs1 value) |> rm_ (xfr_rm value)
    |> width_ Uncompressed.
#[export] Instance into_XRegToFRegArgsWithRounding : IntoArgs XRegToFRegArgsWithRounding := args_of_XRegToFRegArgsWithRounding.
Definition args_of_FRegToXRegArgs (value : FRegToXRegArgs) : Args :=
  DEFAULT |> rd_ (fx_rd value) |> rs1_ (fx_rs1 value) |> width_ Uncompressed.
#[export] Instance into_FRegToXRegArgs : IntoArgs FRegToXRegArgs := args_of_FRegToXRegArgs.
Definition args_of_FRegToXRegArgsWithRounding (value : FRegToXRegArgsWithRounding) : Args :=
  DEFAULT |> rd_ (fxr_rd value) |> rs1_ (fxr_rs1 value) |> rm_ (fxr_rm value)
    |> width_ Uncompressed.
#[export] Instance into_FRegToXRegArgsWithRounding : IntoArgs FRegToXRegArgsWithRounding := args_of_FRegToXRegArgsWithRounding.
Definition args_of_FR3ArgsWithRounding (value : FR3ArgsWithRounding) : Args :=
  DEFAULT |> rd_ (fr3_rd value) |> rs1_ (fr3_rs1 value) |> rs2_ (fr3_rs2 value)
    |> rs3f_ (fr3_rs3 value) |> rm_ (fr3_rm value) |> width_ Uncompressed.
#[export] Instance into_FR3ArgsWithRounding : IntoArgs FR3ArgsWithRounding := args_of_FR3ArgsWithRounding.
Definition args_of_FRArgs (value : FRArgs) : Args :=
  DEFAULT |> rd_ (fr_rd value) |> rs1_ (fr_rs1 value) |> rs2_ (fr_rs2 value)
    |> width_ Uncompressed.
#[export] Instance into_FRArgs : IntoArgs FRArgs := args_of_FRArgs.
Definition args_of_FR1ArgWithRounding (value : FR1ArgWithRounding) : Args :=
  DEFAULT |> rd_ (fr1_rd value) |> rs1_ (fr1_rs1 value) |> rm_ (fr1_rm value)
    |> width_ Uncompressed.
#[export] Instance into_FR1ArgWithRounding : IntoArgs FR1ArgWithRounding := args_of_FR1ArgWithRounding.
Definition args_of_FR2ArgsWithRounding (value : FR2ArgsWithRounding) : Args :=
  DEFAULT |> rd_ (fr2_rd value) |> rs1_ (fr2_rs1 value) |> rs2_ (fr2_rs2 value)
    |> rm_ (fr2_rm value) |> width_ Uncompressed.
#[export] Instance into_FR2ArgsWithRounding : IntoArgs FR2ArgsWithRounding := args_of_FR2ArgsWithRounding.
Definition args_of_FCmpArgs (value : FCmpArgs) : Args :=
  DEFAULT |> rd_ (fcmp_rd value) |> rs1_ (fcmp_rs1 value) |> rs2_ (fcmp_rs2 value)
    |> width_ Uncompressed.
#[export] Instance into_FCmpArgs : IntoArgs FCmpArgs := args_of_FCmpArgs.
Definition FLoadArgs_to_args (value : FLoadArgs) (width : InstrWidth) : Args :=
  DEFAULT |> rd_ (fld_rd value) |> rs1_ (fld_rs1 value) |> imm_ (fld_imm value)
    |> width_ width.
Definition FStoreArgs_to_args (value : FStoreArgs) (width : InstrWidth) : Args :=
  DEFAULT |> rs1_ (fst_rs1 value) |> rs2_ (fst_rs2 value) |> imm_ (fst_imm value)
    |> width_ width.
