(* ===== verification/Constructors.v ===== *)
(** * Constructing instructions

    Models [src/riscv/lib/src/machine_state/instruction/constructors.rs] and the
    conversion [From<&InstrCacheable> for Instruction] of [instruction.rs]: each
    decoded instruction becomes an opcode with flat arguments, specialised on
    which of its registers are [x0]. *)

From S2P Require Import Prelude.
From S2P Require Import Registers.
From S2P Require Import Csr.
From S2P Require Import Instr.
From S2P Require Import Parser.
From S2P Require Import Instruction.

Definition new_add (rd rs1 rs2 : NonZeroXRegister) (width : InstrWidth) : Instruction :=
  mkInstruction OpCodes.Add (
    DEFAULT |> rd_ rd |> rs1_ rs1 |> rs2_ rs2 |> width_ width).
Definition new_add_word (rd : NonZeroXRegister) (rs1 rs2 : XRegister) (width : InstrWidth) : Instruction :=
  mkInstruction OpCodes.AddWord (
    DEFAULT |> rd_ rd |> rs1_ rs1 |> rs2_ rs2 |> width_ width).
Definition new_add_word_immediate (rd : NonZeroXRegister) (rs1 : XRegister) (imm : Z) (width : InstrWidth) : Instruction :=
  mkInstruction OpCodes.AddWordImmediate (
    DEFAULT |> rd_ rd |> rs1_ rs1 |> imm_ imm |> width_ width).
Definition new_sub (rd rs1 rs2 : NonZeroXRegister) (width : InstrWidth) : Instruction :=
  mkInstruction OpCodes.Sub (
    DEFAULT |> rd_ rd |> rs1_ rs1 |> rs2_ rs2 |> width_ width).
Definition new_sub_word (rd : NonZeroXRegister) (rs1 rs2 : XRegister) (width : InstrWidth) : Instruction :=
  mkInstruction OpCodes.SubWord (
    DEFAULT |> rd_ rd |> rs1_ rs1 |> rs2_ rs2 |> width_ width).
Definition new_neg (rd rs2 : NonZeroXRegister) (width : InstrWidth) : Instruction :=
  mkInstruction OpCodes.Neg (
    DEFAULT |> rd_ rd |> rs2_ rs2 |> width_ width).
Definition new_mv (rd rs2 : NonZeroXRegister) (width : InstrWidth) : Instruction :=
  mkInstruction OpCodes.Mv (
    DEFAULT |> rd_ rd |> rs2_ rs2 |> width_ width).
Definition new_li (rd : NonZeroXRegister) (imm : Z) (width : InstrWidth) : Instruction :=
  mkInstruction OpCodes.Li (
    DEFAULT |> rd_ rd |> imm_ imm |> width_ width).
Definition new_nop (width : InstrWidth) : Instruction :=
  mkInstruction OpCodes.Nop (
    DEFAULT |> width_ width).
Definition new_unknown (width : InstrWidth) : Instruction :=
  mkInstruction OpCodes.Unknown (
    DEFAULT |> width_ width).
Definition new_addi (rd rs1 : NonZeroXRegister) (imm : Z) (width : InstrWidth) : Instruction :=
  mkInstruction OpCodes.Addi (
    DEFAULT |> rd_ rd |> rs1_ rs1 |> imm_ imm |> width_ width).
Definition new_andi (rd rs1 : NonZeroXRegister) (imm : Z) (width : InstrWidth) : Instruction :=
  mkInstruction OpCodes.Andi (
    DEFAULT |> rd_ rd |> rs1_ rs1 |> imm_ imm |> width_ width).
Definition new_x64_or_immediate (rd rs1 : NonZeroXRegister) (imm : Z) (width : InstrWidth) : Instruction :=
  mkInstruction OpCodes.X64OrImm (
    DEFAULT |> rd_ rd |> rs1_ rs1 |> imm_ imm |> width_ width).
Definition new_x64_xor_immediate (rd rs1 : NonZeroXRegister) (imm : Z) (width : InstrWidth) : Instruction :=
  mkInstruction OpCodes.X64XorImm (
    DEFAULT |> rd_ rd |> rs1_ rs1 |> imm_ imm |> width_ width).
Definition new_shift_left_immediate (rd rs1 : NonZeroXRegister) (imm : Z) (width : InstrWidth) : Instruction :=
  mkInstruction OpCodes.ShiftLeftImmediate (
    DEFAULT |> rd_ rd |> rs1_ rs1 |> imm_ imm |> width_ width).
Definition new_shift_right_immediate_unsigned (rd rs1 : NonZeroXRegister) (imm : Z) (width : InstrWidth) : Instruction :=
  mkInstruction OpCodes.ShiftRightImmediateUnsigned (
    DEFAULT |> rd_ rd |> rs1_ rs1 |> imm_ imm |> width_ width).
Definition new_shift_right_immediate_signed (rd rs1 : NonZeroXRegister) (imm : Z) (width : InstrWidth) : Instruction :=
  mkInstruction OpCodes.ShiftRightImmediateSigned (
    DEFAULT |> rd_ rd |> rs1_ rs1 |> imm_ imm |> width_ width).
Definition new_x32_shift_left (rd : NonZeroXRegister) (rs1 rs2 : XRegister) (width : InstrWidth) : Instruction :=
  mkInstruction OpCodes.X32ShiftLeft (
    DEFAULT |> rd_ rd |> rs1_ rs1 |> rs2_ rs2 |> width_ width).
Definition new_x32_shift_right_unsigned (rd : NonZeroXRegister) (rs1 rs2 : XRegister) (width : InstrWidth) : Instruction :=
  mkInstruction OpCodes.X32ShiftRightUnsigned (
    DEFAULT |> rd_ rd |> rs1_ rs1 |> rs2_ rs2 |> width_ width).
Definition new_x32_shift_right_signed (rd : NonZeroXRegister) (rs1 rs2 : XRegister) (width : InstrWidth) : Instruction :=
  mkInstruction OpCodes.X32ShiftRightSigned (
    DEFAULT |> rd_ rd |> rs1_ rs1 |> rs2_ rs2 |> width_ width).
Definition new_x32_shift_left_immediate (rd rs1 : NonZeroXRegister) (imm : Z) (width : InstrWidth) : Instruction :=
  mkInstruction OpCodes.X32ShiftLeftImm (
    DEFAULT |> rd_ rd |> rs1_ rs1 |> imm_ imm |> width_ width).
Definition new_x32_shift_right_immediate_unsigned (rd rs1 : NonZeroXRegister) (imm : Z) (width : InstrWidth) : Instruction :=
  mkInstruction OpCodes.X32ShiftRightImmUnsigned (
    DEFAULT |> rd_ rd |> rs1_ rs1 |> imm_ imm |> width_ width).
Definition new_x32_shift_right_immediate_signed (rd rs1 : NonZeroXRegister) (imm : Z) (width : InstrWidth) : Instruction :=
  mkInstruction OpCodes.X32ShiftRightImmSigned (
    DEFAULT |> rd_ rd |> rs1_ rs1 |> imm_ imm |> width_ width).
Definition new_set_less_than_signed (rd : NonZeroXRegister) (rs1 rs2 : XRegister) : Instruction :=
  mkInstruction OpCodes.SetLessThanSigned (
    DEFAULT |> rd_ rd |> rs1_ rs1 |> rs2_ rs2 |> width_ Uncompressed).
Definition new_set_less_than_unsigned (rd : NonZeroXRegister) (rs1 rs2 : XRegister) : Instruction :=
  mkInstruction OpCodes.SetLessThanUnsigned (
    DEFAULT |> rd_ rd |> rs1_ rs1 |> rs2_ rs2 |> width_ Uncompressed).
Definition new_set_less_than_immediate_signed (rd : NonZeroXRegister) (rs1 : XRegister) (imm : Z) : Instruction :=
  mkInstruction OpCodes.SetLessThanImmediateSigned (
    DEFAULT |> rd_ rd |> rs1_ rs1 |> imm_ imm |> width_ Uncompressed).
Definition new_set_less_than_immediate_unsigned (rd : NonZeroXRegister) (rs1 : XRegister) (imm : Z) : Instruction :=
  mkInstruction OpCodes.SetLessThanImmediateUnsigned (
    DEFAULT |> rd_ rd |> rs1_ rs1 |> imm_ imm |> width_ Uncompressed).
Definition new_and (rd rs1 rs2 : NonZeroXRegister) (width : InstrWidth) : Instruction :=
  mkInstruction OpCodes.And (
    DEFAULT |> rd_ rd |> rs1_ rs1 |> rs2_ rs2 |> width_ width).
Definition new_or (rd rs1 rs2 : NonZeroXRegister) (width : InstrWidth) : Instruction :=
  mkInstruction OpCodes.Or (
    DEFAULT |> rd_ rd |> rs1_ rs1 |> rs2_ rs2 |> width_ width).
Definition new_x64_xor (rd rs1 rs2 : NonZeroXRegister) (width : InstrWidth) : Instruction :=
  mkInstruction OpCodes.X64Xor (
    DEFAULT |> rd_ rd |> rs1_ rs1 |> rs2_ rs2 |> width_ width).
Definition new_shift_left (rd rs1 rs2 : NonZeroXRegister) (width : InstrWidth) : Instruction :=
  mkInstruction OpCodes.ShiftLeft (
    DEFAULT |> rd_ rd |> rs1_ rs1 |> rs2_ rs2 |> width_ width).
Definition new_shift_right_unsigned (rd rs1 rs2 : NonZeroXRegister) (width : InstrWidth) : Instruction :=
  mkInstruction OpCodes.ShiftRightUnsigned (
    DEFAULT |> rd_ rd |> rs1_ rs1 |> rs2_ rs2 |> width_ width).
Definition new_shift_right_signed (rd rs1 rs2 : NonZeroXRegister) (width : InstrWidth) : Instruction :=
  mkInstruction OpCodes.ShiftRightSigned (
    DEFAULT |> rd_ rd |> rs1_ rs1 |> rs2_ rs2 |> width_ width).
Definition new_j (imm : Z) (width : InstrWidth) : Instruction :=
  mkInstruction OpCodes.J (
    DEFAULT |> imm_ imm |> width_ width).
Definition new_jal (rd : NonZeroXRegister) (imm : Z) (width : InstrWidth) : Instruction :=
  mkInstruction OpCodes.Jal (
    DEFAULT |> rd_ rd |> imm_ imm |> width_ width).
Definition new_branch_equal (rs1 rs2 : NonZeroXRegister) (imm : Z) (width : InstrWidth) : Instruction :=
  mkInstruction OpCodes.BranchEqual (
    DEFAULT |> rs1_ rs1 |> rs2_ rs2 |> imm_ imm |> width_ width).
Definition new_branch_equal_zero (rs1 : NonZeroXRegister) (imm : Z) (width : InstrWidth) : Instruction :=
  mkInstruction OpCodes.BranchEqualZero (
    DEFAULT |> rs1_ rs1 |> imm_ imm |> width_ width).
Definition new_branch_not_equal (rs1 rs2 : NonZeroXRegister) (imm : Z) (width : InstrWidth) : Instruction :=
  mkInstruction OpCodes.BranchNotEqual (
    DEFAULT |> rs1_ rs1 |> rs2_ rs2 |> imm_ imm |> width_ width).
Definition new_branch_not_equal_zero (rs1 : NonZeroXRegister) (imm : Z) (width : InstrWidth) : Instruction :=
  mkInstruction OpCodes.BranchNotEqualZero (
    DEFAULT |> rs1_ rs1 |> imm_ imm |> width_ width).
Definition new_j_absolute (imm : Z) (width : InstrWidth) : Instruction :=
  mkInstruction OpCodes.JAbsolute (
    DEFAULT |> imm_ imm |> width_ width).
Definition new_jalr_imm (rd rs1 : NonZeroXRegister) (imm : Z) (width : InstrWidth) : Instruction :=
  mkInstruction OpCodes.JalrImm (
    DEFAULT |> rd_ rd |> rs1_ rs1 |> imm_ imm |> width_ width).
Definition new_jalr_absolute (rd : NonZeroXRegister) (imm : Z) (width : InstrWidth) : Instruction :=
  mkInstruction OpCodes.JalrAbsolute (
    DEFAULT |> rd_ rd |> imm_ imm |> width_ width).
Definition new_jr_imm (rs1 : NonZeroXRegister) (imm : Z) (width : InstrWidth) : Instruction :=
  mkInstruction OpCodes.JrImm (
    DEFAULT |> rs1_ rs1 |> imm_ imm |> width_ width).
Definition new_jr (rs1 : NonZeroXRegister) (width : InstrWidth) : Instruction :=
  mkInstruction OpCodes.Jr (
    DEFAULT |> rs1_ rs1 |> width_ width).
Definition new_jalr (rd rs1 : NonZeroXRegister) (width : InstrWidth) : Instruction :=
  mkInstruction OpCodes.Jalr (
    DEFAULT |> rd_ rd |> rs1_ rs1 |> width_ width).
Definition new_x64_load_signed (rd rs1 : XRegister) (imm : Z) (width : InstrWidth) : Instruction :=
  mkInstruction OpCodes.X64LoadSigned (
    DEFAULT |> rd_ rd |> rs1_ rs1 |> imm_ imm |> width_ width).
Definition new_x64_store (rs1 rs2 : XRegister) (imm : Z) (width : InstrWidth) : Instruction :=
  mkInstruction OpCodes.X64Store (
    DEFAULT |> rs1_ rs1 |> rs2_ rs2 |> imm_ imm |> width_ width).
Definition new_x32_load_signed (rd rs1 : XRegister) (imm : Z) (width : InstrWidth) : Instruction :=
  mkInstruction OpCodes.X32LoadSigned (
    DEFAULT |> rd_ rd |> rs1_ rs1 |> imm_ imm |> width_ width).
Definition new_x32_load_unsigned (rd rs1 : XRegister) (imm : Z) (width : InstrWidth) : Instruction :=
  mkInstruction OpCodes.X32LoadUnsigned (
    DEFAULT |> rd_ rd |> rs1_ rs1 |> imm_ imm |> width_ width).
Definition new_x32_store (rs1 rs2 : XRegister) (imm : Z) (width : InstrWidth) : Instruction :=
  mkInstruction OpCodes.X32Store (
    DEFAULT |> rs1_ rs1 |> rs2_ rs2 |> imm_ imm |> width_ width).
Definition new_x16_load_signed (rd rs1 : XRegister) (imm : Z) (width : InstrWidth) : Instruction :=
  mkInstruction OpCodes.X16LoadSigned (
    DEFAULT |> rd_ rd |> rs1_ rs1 |> imm_ imm |> width_ width).
Definition new_x16_load_unsigned (rd rs1 : XRegister) (imm : Z) (width : InstrWidth) : Instruction :=
  mkInstruction OpCodes.X16LoadUnsigned (
    DEFAULT |> rd_ rd |> rs1_ rs1 |> imm_ imm |> width_ width).
Definition new_x16_store (rs1 rs2 : XRegister) (imm : Z) (width : InstrWidth) : Instruction :=
  mkInstruction OpCodes.X16Store (
    DEFAULT |> rs1_ rs1 |> rs2_ rs2 |> imm_ imm |> width_ width).
Definition new_x8_load_signed (rd rs1 : XRegister) (imm : Z) (width : InstrWidth) : Instruction :=
  mkInstruction OpCodes.X8LoadSigned (
    DEFAULT |> rd_ rd |> rs1_ rs1 |> imm_ imm |> width_ width).
Definition new_x8_load_unsigned (rd rs1 : XRegister) (imm : Z) (width : InstrWidth) : Instruction :=
  mkInstruction OpCodes.X8LoadUnsigned (
    DEFAULT |> rd_ rd |> rs1_ rs1 |> imm_ imm |> width_ width).
Definition new_x8_store (rs1 rs2 : XRegister) (imm : Z) (width : InstrWidth) : Instruction :=
  mkInstruction OpCodes.X8Store (
    DEFAULT |> rs1_ rs1 |> rs2_ rs2 |> imm_ imm |> width_ width).
Definition new_branch_less_than_signed (rs1 rs2 : NonZeroXRegister) (imm : Z) (width : InstrWidth) : Instruction :=
  mkInstruction OpCodes.BranchLessThanSigned (
    DEFAULT |> rs1_ rs1 |> rs2_ rs2 |> imm_ imm |> width_ width).
Definition new_branch_less_than_zero (rs1 : NonZeroXRegister) (imm : Z) (width : InstrWidth) : Instruction :=
  mkInstruction OpCodes.BranchLessThanZero (
    DEFAULT |> rs1_ rs1 |> imm_ imm |> width_ width).
Definition new_branch_less_than_or_equal_zero (rs1 : NonZeroXRegister) (imm : Z) (width : InstrWidth) : Instruction :=
  mkInstruction OpCodes.BranchLessThanOrEqualZero (
    DEFAULT |> rs1_ rs1 |> imm_ imm |> width_ width).
Definition new_branch_greater_than_or_equal_signed (rs1 rs2 : NonZeroXRegister) (imm : Z) (width : InstrWidth) : Instruction :=
  mkInstruction OpCodes.BranchGreaterThanOrEqualSigned (
    DEFAULT |> rs1_ rs1 |> rs2_ rs2 |> imm_ imm |> width_ width).
Definition new_branch_greater_than_or_equal_zero (rs1 : NonZeroXRegister) (imm : Z) (width : InstrWidth) : Instruction :=
  mkInstruction OpCodes.BranchGreaterThanOrEqualZero (
    DEFAULT |> rs1_ rs1 |> imm_ imm |> width_ width).
Definition new_branch_greater_than_zero (rs1 : NonZeroXRegister) (imm : Z) (width : InstrWidth) : Instruction :=
  mkInstruction OpCodes.BranchGreaterThanZero (
    DEFAULT |> rs1_ rs1 |> imm_ imm |> width_ width).
Definition new_branch_less_than_unsigned (rs1 rs2 : NonZeroXRegister) (imm : Z) (width : InstrWidth) : Instruction :=
  mkInstruction OpCodes.BranchLessThanUnsigned (
    DEFAULT |> rs1_ rs1 |> rs2_ rs2 |> imm_ imm |> width_ width).
Definition new_branch_greater_than_or_equal_unsigned (rs1 rs2 : NonZeroXRegister) (imm : Z) (width : InstrWidth) : Instruction :=
  mkInstruction OpCodes.BranchGreaterThanOrEqualUnsigned (
    DEFAULT |> rs1_ rs1 |> rs2_ rs2 |> imm_ imm |> width_ width).
Definition new_add_immediate_to_pc (rd : NonZeroXRegister) (imm : Z) (width : InstrWidth) : Instruction :=
  mkInstruction OpCodes.AddImmediateToPC (
    DEFAULT |> rd_ rd |> imm_ imm |> width_ width).
Definition new_mul (rd rs1 rs2 : NonZeroXRegister) (width : InstrWidth) : Instruction :=
  mkInstruction OpCodes.Mul (
    DEFAULT |> rd_ rd |> rs1_ rs1 |> rs2_ rs2 |> width_ width).
Definition new_x32_mul (rd rs1 rs2 : XRegister) (width : InstrWidth) : Instruction :=
  mkInstruction OpCodes.X32Mul (
    DEFAULT |> rd_ rd |> rs1_ rs1 |> rs2_ rs2 |> width_ width).
Definition new_x64_mul_high_signed (rd rs1 rs2 : NonZeroXRegister) (width : InstrWidth) : Instruction :=
  mkInstruction OpCodes.X64MulHighSigned (
    DEFAULT |> rd_ rd |> rs1_ rs1 |> rs2_ rs2 |> width_ width).
Definition new_x64_mul_high_signed_unsigned (rd rs1 rs2 : NonZeroXRegister) (width : InstrWidth) : Instruction :=
  mkInstruction OpCodes.X64MulHighSignedUnsigned (
    DEFAULT |> rd_ rd |> rs1_ rs1 |> rs2_ rs2 |> width_ width).
Definition new_x64_mul_high_unsigned (rd rs1 rs2 : NonZeroXRegister) (width : InstrWidth) : Instruction :=
  mkInstruction OpCodes.X64MulHighUnsigned (
    DEFAULT |> rd_ rd |> rs1_ rs1 |> rs2_ rs2 |> width_ width).
Definition new_x64_div_signed (rd : NonZeroXRegister) (rs1 rs2 : XRegister) (width : InstrWidth) : Instruction :=
  mkInstruction OpCodes.X64DivSigned (
    DEFAULT |> rd_ rd |> rs1_ rs1 |> rs2_ rs2 |> width_ width).
Definition new_x64_div_unsigned (rd : NonZeroXRegister) (rs1 rs2 : XRegister) (width : InstrWidth) : Instruction :=
  mkInstruction OpCodes.X64DivUnsigned (
    DEFAULT |> rd_ rd |> rs1_ rs1 |> rs2_ rs2 |> width_ width).
Definition new_x32_div_signed (rd : NonZeroXRegister) (rs1 rs2 : XRegister) (width : InstrWidth) : Instruction :=
  mkInstruction OpCodes.X32DivSigned (
    DEFAULT |> rd_ rd |> rs1_ rs1 |> rs2_ rs2 |> width_ width).
Definition new_x32_div_unsigned (rd : NonZeroXRegister) (rs1 rs2 : XRegister) (width : InstrWidth) : Instruction :=
  mkInstruction OpCodes.X32DivUnsigned (
    DEFAULT |> rd_ rd |> rs1_ rs1 |> rs2_ rs2 |> width_ width).
Definition new_ecall : Instruction :=
  mkInstruction OpCodes.ECall (
    DEFAULT |> width_ Uncompressed).
Definition new_x64_atomic_add (rd rs1 rs2 : XRegister) (aq rl : bool) (width : InstrWidth) : Instruction :=
  mkInstruction OpCodes.X64AtomicAdd (
    DEFAULT |> rd_ rd |> rs1_ rs1 |> rs2_ rs2 |> aq_ aq |> rl_ rl |> width_ width).
Definition new_x64_atomic_min_signed (rd rs1 rs2 : XRegister) (aq rl : bool) (width : InstrWidth) : Instruction :=
  mkInstruction OpCodes.X64AtomicMinSigned (
    DEFAULT |> rd_ rd |> rs1_ rs1 |> rs2_ rs2 |> aq_ aq |> rl_ rl |> width_ width).
Definition new_x32_atomic_load (rd rs1 : XRegister) (aq rl : bool) (width : InstrWidth) : Instruction :=
  mkInstruction OpCodes.X32AtomicLoad (
    DEFAULT |> rd_ rd |> rs1_ rs1 |> aq_ aq |> rl_ rl |> width_ width).
Definition new_x32_atomic_store (rd rs1 rs2 : XRegister) (aq rl : bool) (width : InstrWidth) : Instruction :=
  mkInstruction OpCodes.X32AtomicStore (
    DEFAULT |> rd_ rd |> rs1_ rs1 |> rs2_ rs2 |> aq_ aq |> rl_ rl |> width_ width).
Definition new_x64_atomic_load (rd rs1 : XRegister) (aq rl : bool) (width : InstrWidth) : Instruction :=
  mkInstruction OpCodes.X64AtomicLoad (
    DEFAULT |> rd_ rd |> rs1_ rs1 |> aq_ aq |> rl_ rl |> width_ width).
Definition new_x64_atomic_store (rd rs1 rs2 : XRegister) (aq rl : bool) (width : InstrWidth) : Instruction :=
  mkInstruction OpCodes.X64AtomicStore (
    DEFAULT |> rd_ rd |> rs1_ rs1 |> rs2_ rs2 |> aq_ aq |> rl_ rl |> width_ width).
Definition new_x64_rem_signed (rd : NonZeroXRegister) (rs1 rs2 : XRegister) (width : InstrWidth) : Instruction :=
  mkInstruction OpCodes.X64RemSigned (
    DEFAULT |> rd_ rd |> rs1_ rs1 |> rs2_ rs2 |> width_ width).
Definition new_x64_rem_unsigned (rd : NonZeroXRegister) (rs1 rs2 : XRegister) (width : InstrWidth) : Instruction :=
  mkInstruction OpCodes.X64RemUnsigned (
    DEFAULT |> rd_ rd |> rs1_ rs1 |> rs2_ rs2 |> width_ width).
Definition new_x32_rem_signed (rd : NonZeroXRegister) (rs1 rs2 : XRegister) (width : InstrWidth) : Instruction :=
  mkInstruction OpCodes.X32RemSigned (
    DEFAULT |> rd_ rd |> rs1_ rs1 |> rs2_ rs2 |> width_ width).
Definition new_x32_rem_unsigned (rd : NonZeroXRegister) (rs1 rs2 : XRegister) (width : InstrWidth) : Instruction :=
  mkInstruction OpCodes.X32RemUnsigned (
    DEFAULT |> rd_ rd |> rs1_ rs1 |> rs2_ rs2 |> width_ width).
Definition new_x32_atomic_swap (rd rs1 rs2 : XRegister) (aq rl : bool) (width : InstrWidth) : Instruction :=
  mkInstruction OpCodes.X32AtomicSwap (
    DEFAULT |> rd_ rd |> rs1_ rs1 |> rs2_ rs2 |> aq_ aq |> rl_ rl |> width_ width).
Definition new_x64_atomic_swap (rd rs1 rs2 : XRegister) (aq rl : bool) (width : InstrWidth) : Instruction :=
  mkInstruction OpCodes.X64AtomicSwap (
    DEFAULT |> rd_ rd |> rs1_ rs1 |> rs2_ rs2 |> aq_ aq |> rl_ rl |> width_ width).

(** ** Specialising on the registers *)
Definition from_ic_add (args : NonZeroRdRTypeArgs) : Instruction :=
  match split_x0 (nzr_rs1 args), split_x0 (nzr_rs2 args) with
  | X0, X0 => new_li (nzr_rd args) 0 Uncompressed
  | NonZero rs1, X0 | X0, NonZero rs1 => new_mv (nzr_rd args) rs1 Uncompressed
  | NonZero rs1, NonZero rs2 => new_add (nzr_rd args) rs1 rs2 Uncompressed
  end.
Definition from_ic_caddw (args : CRTypeArgs) : Instruction :=
  match split_x0 (cr_rd_rs1 args) with
  | X0 => new_nop Compressed
  | NonZero rd_rs1 => new_add_word rd_rs1 (cr_rd_rs1 args) (cr_rs2 args) Compressed
  end.
Definition from_ic_sub (args : NonZeroRdRTypeArgs) : Instruction :=
  match split_x0 (nzr_rs1 args), split_x0 (nzr_rs2 args) with
  | X0, X0 => new_li (nzr_rd args) 0 Uncompressed
  | NonZero rs2, X0 => new_mv (nzr_rd args) rs2 Uncompressed
  | X0, NonZero rs2 => new_neg (nzr_rd args) rs2 Uncompressed
  | NonZero rs1, NonZero rs2 => new_sub (nzr_rd args) rs1 rs2 Uncompressed
  end.
Definition from_ic_csub (args : CRTypeArgs) : Instruction :=
  match split_x0 (cr_rd_rs1 args), split_x0 (cr_rs2 args) with
  | X0, _ | _, X0 => new_nop Compressed
  | NonZero rd_rs1, NonZero rs2 => new_sub rd_rs1 rd_rs1 rs2 Compressed
  end.
Definition from_ic_csubw (args : CRTypeArgs) : Instruction :=
  match split_x0 (cr_rd_rs1 args) with
  | X0 => new_nop Compressed
  | NonZero rd_rs1 => new_sub_word rd_rs1 (cr_rd_rs1 args) (cr_rs2 args) Compressed
  end.
Definition from_ic_addi (args : SplitITypeArgs) : Instruction :=
  match (si_rd args), (si_rs1 args) with
  | X0, _ => new_nop Uncompressed
  | NonZero rd, X0 => new_li rd (si_imm args) Uncompressed
  | NonZero rd, NonZero rs1 => new_addi rd rs1 (si_imm args) Uncompressed
  end.
Definition from_ic_caddi4spn (args : CIBTypeArgs) : Instruction :=
  match split_x0 (cib_rd_rs1 args) with
  | X0 => new_nop Compressed
  | NonZero rd_rs1 => new_addi rd_rs1 NZ.x2 (cib_imm args) Compressed
  end.
Definition from_ic_andi (args : NonZeroRdITypeArgs) : Instruction :=
  match split_x0 (nzri_rs1 args) with
  | X0 => new_li (nzri_rd args) 0 Uncompressed
  | NonZero rs1 => new_andi (nzri_rd args) rs1 (nzri_imm args) Uncompressed
  end.
Definition from_ic_candi (args : CIBTypeArgs) : Instruction :=
  match split_x0 (cib_rd_rs1 args) with
  | X0 => new_nop Compressed
  | NonZero rd_rs1 => new_andi rd_rs1 rd_rs1 (cib_imm args) Compressed
  end.
Definition from_ic_ori (args : NonZeroRdITypeArgs) : Instruction :=
  match split_x0 (nzri_rs1 args) with
  | X0 => new_li (nzri_rd args) (nzri_imm args) Uncompressed
  | NonZero rs1 => new_x64_or_immediate (nzri_rd args) rs1 (nzri_imm args) Uncompressed
  end.
Definition from_ic_xori (args : NonZeroRdITypeArgs) : Instruction :=
  match split_x0 (nzri_rs1 args) with
  | X0 => new_li (nzri_rd args) (nzri_imm args) Uncompressed
  | NonZero rs1 => new_x64_xor_immediate (nzri_rd args) rs1 (nzri_imm args) Uncompressed
  end.
Definition from_ic_slli (args : NonZeroRdITypeArgs) : Instruction :=
  match split_x0 (nzri_rs1 args) with
  | X0 => new_li (nzri_rd args) 0 Uncompressed
  | NonZero rs1 => new_shift_left_immediate (nzri_rd args) rs1 (nzri_imm args) Uncompressed
  end.
Definition from_ic_srli (args : NonZeroRdITypeArgs) : Instruction :=
  match split_x0 (nzri_rs1 args) with
  | X0 => new_li (nzri_rd args) 0 Uncompressed
  | NonZero rs1 =>
      new_shift_right_immediate_unsigned (nzri_rd args) rs1 (nzri_imm args) Uncompressed
  end.
Definition from_ic_csrli (args : CIBTypeArgs) : Instruction :=
  match split_x0 (cib_rd_rs1 args) with
  | X0 => new_nop Compressed
  | NonZero rd_rs1 =>
      new_shift_right_immediate_unsigned rd_rs1 rd_rs1 (cib_imm args) Compressed
  end.
Definition from_ic_srai (args : NonZeroRdITypeArgs) : Instruction :=
  match split_x0 (nzri_rs1 args) with
  | X0 => new_li (nzri_rd args) 0 Uncompressed
  | NonZero rs1 =>
      new_shift_right_immediate_signed (nzri_rd args) rs1 (nzri_imm args) Uncompressed
  end.
Definition from_ic_csrai (args : CIBTypeArgs) : Instruction :=
  match split_x0 (cib_rd_rs1 args) with
  | X0 => new_nop Compressed
  | NonZero rd_rs1 =>
      new_shift_right_immediate_signed rd_rs1 rd_rs1 (cib_imm args) Compressed
  end.
Definition from_ic_x32_shift_left_immediate (args : NonZeroRdITypeArgs) : Instruction :=
  match split_x0 (nzri_rs1 args) with
  | X0 => new_li (nzri_rd args) 0 Uncompressed
  | NonZero rs1 =>
      new_x32_shift_left_immediate (nzri_rd args) rs1 (nzri_imm args) Uncompressed
  end.
Definition from_ic_x32_shift_right_immediate_unsigned (args : NonZeroRdITypeArgs) : Instruction :=
  match split_x0 (nzri_rs1 args) with
  | X0 => new_li (nzri_rd args) 0 Uncompressed
  | NonZero rs1 =>
      new_x32_shift_right_immediate_unsigned (nzri_rd args) rs1 (nzri_imm args) Uncompressed
  end.
Definition from_ic_x32_shift_right_immediate_signed (args : NonZeroRdITypeArgs) : Instruction :=
  match split_x0 (nzri_rs1 args) with
  | X0 => new_li (nzri_rd args) 0 Uncompressed
  | NonZero rs1 =>
      new_x32_shift_right_immediate_signed (nzri_rd args) rs1 (nzri_imm args) Uncompressed
  end.
Definition from_ic_and (args : NonZeroRdRTypeArgs) : Instruction :=
  match split_x0 (nzr_rs1 args), split_x0 (nzr_rs2 args) with
  | X0, _ | _, X0 => new_li (nzr_rd args) 0 Uncompressed
  | NonZero rs1, NonZero rs2 => new_and (nzr_rd args) rs1 rs2 Uncompressed
  end.
Definition from_ic_cand (args : CRTypeArgs) : Instruction :=
  match split_x0 (cr_rd_rs1 args), split_x0 (cr_rs2 args) with
  | X0, _ => new_nop Compressed
  | NonZero rd_rs1, X0 => new_li rd_rs1 0 Compressed
  | NonZero rd_rs1, NonZero rs2 => new_and rd_rs1 rd_rs1 rs2 Compressed
  end.
Definition from_ic_or (args : NonZeroRdRTypeArgs) : Instruction :=
  match split_x0 (nzr_rs1 args), split_x0 (nzr_rs2 args) with
  | X0, X0 => new_li (nzr_rd args) 0 Uncompressed
  | NonZero rs1, X0 | X0, NonZero rs1 => new_mv (nzr_rd args) rs1 Uncompressed
  | NonZero rs1, NonZero rs2 => new_or (nzr_rd args) rs1 rs2 Uncompressed
  end.
Definition from_ic_cor (args : CRTypeArgs) : Instruction :=
  match split_x0 (cr_rd_rs1 args), split_x0 (cr_rs2 args) with
  | X0, _ | _, X0 => new_nop Compressed
  | NonZero rd_rs1, NonZero rs2 => new_or rd_rs1 rd_rs1 rs2 Compressed
  end.
Definition from_ic_xor (args : NonZeroRdRTypeArgs) : Instruction :=
  match split_x0 (nzr_rs1 args), split_x0 (nzr_rs2 args) with
  | X0, X0 => new_li (nzr_rd args) 0 Uncompressed
  | NonZero rs1, X0 | X0, NonZero rs1 => new_mv (nzr_rd args) rs1 Uncompressed
  | NonZero rs1, NonZero rs2 => new_x64_xor (nzr_rd args) rs1 rs2 Uncompressed
  end.
Definition from_ic_cxor (args : CRTypeArgs) : Instruction :=
  match split_x0 (cr_rd_rs1 args), split_x0 (cr_rs2 args) with
  | X0, _ | _, X0 => new_nop Compressed
  | NonZero rd_rs1, NonZero rs2 => new_x64_xor rd_rs1 rd_rs1 rs2 Compressed
  end.
Definition from_ic_sll (args : NonZeroRdRTypeArgs) : Instruction :=
  match split_x0 (nzr_rs1 args), split_x0 (nzr_rs2 args) with
  | X0, _ => new_li (nzr_rd args) 0 Uncompressed
  | NonZero rs1, X0 => new_mv (nzr_rd args) rs1 Uncompressed
  | NonZero rs1, NonZero rs2 => new_shift_left (nzr_rd args) rs1 rs2 Uncompressed
  end.
Definition from_ic_srl (args : NonZeroRdRTypeArgs) : Instruction :=
  match split_x0 (nzr_rs1 args), split_x0 (nzr_rs2 args) with
  | X0, _ => new_li (nzr_rd args) 0 Uncompressed
  | NonZero rs1, X0 => new_mv (nzr_rd args) rs1 Uncompressed
  | NonZero rs1, NonZero rs2 => new_shift_right_unsigned (nzr_rd args) rs1 rs2 Uncompressed
  end.
Definition from_ic_sra (args : NonZeroRdRTypeArgs) : Instruction :=
  match split_x0 (nzr_rs1 args), split_x0 (nzr_rs2 args) with
  | X0, _ => new_li (nzr_rd args) 0 Uncompressed
  | NonZero rs1, X0 => new_mv (nzr_rd args) rs1 Uncompressed
  | NonZero rs1, NonZero rs2 => new_shift_right_signed (nzr_rd args) rs1 rs2 Uncompressed
  end.
Definition from_ic_jal (args : UJTypeArgs) : Instruction :=
  match split_x0 (uj_rd args) with
  | X0 => new_j (uj_imm args) Uncompressed
  | NonZero rd => new_jal rd (uj_imm args) Uncompressed
  end.
Definition from_ic_beq (args : SBTypeArgs) : Instruction :=
  match split_x0 (sb_rs1 args), split_x0 (sb_rs2 args) with
  | X0, X0 => new_j (sb_imm args) Uncompressed
  | NonZero rs1, X0 | X0, NonZero rs1 =>
      new_branch_equal_zero rs1 (sb_imm args) Uncompressed
  | NonZero rs1, NonZero rs2 =>
      if decide (rs1 = rs2) then new_j (sb_imm args) Uncompressed
      else new_branch_equal rs1 rs2 (sb_imm args) Uncompressed
  end.
Definition from_ic_cbeqz (args : CIBTypeArgs) : Instruction :=
  match split_x0 (cib_rd_rs1 args) with
  | X0 => new_j (cib_imm args) Compressed
  | NonZero rd_rs1 => new_branch_equal_zero rd_rs1 (cib_imm args) Compressed
  end.
Definition from_ic_bne (args : SBTypeArgs) : Instruction :=
  match split_x0 (sb_rs1 args), split_x0 (sb_rs2 args) with
  | X0, X0 => new_nop Uncompressed
  | NonZero rs1, X0 | X0, NonZero rs1 =>
      new_branch_not_equal_zero rs1 (sb_imm args) Uncompressed
  | NonZero rs1, NonZero rs2 =>
      if decide (rs1 = rs2) then new_nop Uncompressed
      else new_branch_not_equal rs1 rs2 (sb_imm args) Uncompressed
  end.
Definition from_ic_cbnez (args : CIBTypeArgs) : Instruction :=
  match split_x0 (cib_rd_rs1 args) with
  | X0 => new_nop Compressed
  | NonZero rd_rs1 => new_branch_not_equal_zero rd_rs1 (cib_imm args) Compressed
  end.
Definition from_ic_jalr (args : ITypeArgs) : Instruction :=
  match split_x0 (it_rd args), split_x0 (it_rs1 args), (it_imm args) with
  | X0, X0, imm => new_j_absolute imm Uncompressed
  | X0, NonZero rs1, 0 => new_jr rs1 Uncompressed
  | X0, NonZero rs1, imm => new_jr_imm rs1 imm Uncompressed
  | NonZero rd, X0, imm => new_jalr_absolute rd imm Uncompressed
  | NonZero rd, NonZero rs1, 0 => new_jalr rd rs1 Uncompressed
  | NonZero rd, NonZero rs1, imm => new_jalr_imm rd rs1 imm Uncompressed
  end.
Definition from_ic_blt (args : SBTypeArgs) : Instruction :=
  match split_x0 (sb_rs1 args), split_x0 (sb_rs2 args) with
  | X0, X0 => new_nop Uncompressed
  | X0, NonZero rs1 => new_branch_greater_than_zero rs1 (sb_imm args) Uncompressed
  | NonZero rs1, X0 => new_branch_less_than_zero rs1 (sb_imm args) Uncompressed
  | NonZero rs1, NonZero rs2 =>
      if decide (rs1 = rs2) then new_nop Uncompressed
      else new_branch_less_than_signed rs1 rs2 (sb_imm args) Uncompressed
  end.
Definition from_ic_bge (args : SBTypeArgs) : Instruction :=
  match split_x0 (sb_rs1 args), split_x0 (sb_rs2 args) with
  | X0, X0 => new_j (sb_imm args) Uncompressed
  | X0, NonZero rs1 => new_branch_less_than_or_equal_zero rs1 (sb_imm args) Uncompressed
  | NonZero rs1, X0 => new_branch_greater_than_or_equal_zero rs1 (sb_imm args) Uncompressed
  | NonZero rs1, NonZero rs2 =>
      if decide (rs1 = rs2) then new_j (sb_imm args) Uncompressed
      else new_branch_greater_than_or_equal_signed rs1 rs2 (sb_imm args) Uncompressed
  end.
Definition from_ic_bltu (args : SBTypeArgs) : Instruction :=
  match split_x0 (sb_rs1 args), split_x0 (sb_rs2 args) with
  | _, X0 => new_nop Uncompressed
  | X0, NonZero rs1 => new_branch_not_equal_zero rs1 (sb_imm args) Uncompressed
  | NonZero rs1, NonZero rs2 =>
      if decide (rs1 = rs2) then new_nop Uncompressed
      else new_branch_less_than_unsigned rs1 rs2 (sb_imm args) Uncompressed
  end.
Definition from_ic_bgeu (args : SBTypeArgs) : Instruction :=
  match split_x0 (sb_rs1 args), split_x0 (sb_rs2 args) with
  | _, X0 => new_j (sb_imm args) Uncompressed
  | X0, NonZero rs1 => new_branch_equal_zero rs1 (sb_imm args) Uncompressed
  | NonZero rs1, NonZero rs2 =>
      if decide (rs1 = rs2) then new_j (sb_imm args) Uncompressed
      else new_branch_greater_than_or_equal_unsigned rs1 rs2 (sb_imm args) Uncompressed
  end.
Definition from_ic_mul (args : RTypeArgs) : Instruction :=
  match split_x0 (r_rd args), split_x0 (r_rs1 args), split_x0 (r_rs2 args) with
  | X0, _, _ => new_nop Uncompressed
  | NonZero rd, X0, _ | NonZero rd, _, X0 => new_li rd 0 Uncompressed
  | NonZero rd, NonZero rs1, NonZero rs2 => new_mul rd rs1 rs2 Uncompressed
  end.
Definition from_ic_mulh (args : RTypeArgs) : Instruction :=
  match split_x0 (r_rd args), split_x0 (r_rs1 args), split_x0 (r_rs2 args) with
  | X0, _, _ => new_nop Uncompressed
  | NonZero rd, X0, _ | NonZero rd, _, X0 => new_li rd 0 Uncompressed
  | NonZero rd, NonZero rs1, NonZero rs2 => new_x64_mul_high_signed rd rs1 rs2 Uncompressed
  end.
Definition from_ic_mulhsu (args : RTypeArgs) : Instruction :=
  match split_x0 (r_rd args), split_x0 (r_rs1 args), split_x0 (r_rs2 args) with
  | X0, _, _ => new_nop Uncompressed
  | NonZero rd, X0, _ | NonZero rd, _, X0 => new_li rd 0 Uncompressed
  | NonZero rd, NonZero rs1, NonZero rs2 =>
      new_x64_mul_high_signed_unsigned rd rs1 rs2 Uncompressed
  end.
Definition from_ic_mulhu (args : RTypeArgs) : Instruction :=
  match split_x0 (r_rd args), split_x0 (r_rs1 args), split_x0 (r_rs2 args) with
  | X0, _, _ => new_nop Uncompressed
  | NonZero rd, X0, _ | NonZero rd, _, X0 => new_li rd 0 Uncompressed
  | NonZero rd, NonZero rs1, NonZero rs2 =>
      new_x64_mul_high_unsigned rd rs1 rs2 Uncompressed
  end.
Definition from_ic_div (args : RTypeArgs) : Instruction :=
  match split_x0 (r_rd args) with
  | X0 => new_nop Uncompressed
  | NonZero rd => new_x64_div_signed rd (r_rs1 args) (r_rs2 args) Uncompressed
  end.
Definition from_ic_divu (args : RTypeArgs) : Instruction :=
  match split_x0 (r_rd args) with
  | X0 => new_nop Uncompressed
  | NonZero rd => new_x64_div_unsigned rd (r_rs1 args) (r_rs2 args) Uncompressed
  end.
Definition from_ic_divw (args : RTypeArgs) : Instruction :=
  match split_x0 (r_rd args) with
  | X0 => new_nop Uncompressed
  | NonZero rd => new_x32_div_signed rd (r_rs1 args) (r_rs2 args) Uncompressed
  end.
Definition from_ic_divuw (args : RTypeArgs) : Instruction :=
  match split_x0 (r_rd args) with
  | X0 => new_nop Uncompressed
  | NonZero rd => new_x32_div_unsigned rd (r_rs1 args) (r_rs2 args) Uncompressed
  end.
Definition from_ic_rem (args : RTypeArgs) : Instruction :=
  match split_x0 (r_rd args) with
  | X0 => new_nop Uncompressed
  | NonZero rd => new_x64_rem_signed rd (r_rs1 args) (r_rs2 args) Uncompressed
  end.
Definition from_ic_remu (args : RTypeArgs) : Instruction :=
  match split_x0 (r_rd args) with
  | X0 => new_nop Uncompressed
  | NonZero rd => new_x64_rem_unsigned rd (r_rs1 args) (r_rs2 args) Uncompressed
  end.
Definition from_ic_remw (args : RTypeArgs) : Instruction :=
  match split_x0 (r_rd args) with
  | X0 => new_nop Uncompressed
  | NonZero rd => new_x32_rem_signed rd (r_rs1 args) (r_rs2 args) Uncompressed
  end.
Definition from_ic_remuw (args : RTypeArgs) : Instruction :=
  match split_x0 (r_rd args) with
  | X0 => new_nop Uncompressed
  | NonZero rd => new_x32_rem_unsigned rd (r_rs1 args) (r_rs2 args) Uncompressed
  end.

(** ** [impl From<&InstrCacheable> for Instruction]

    The [debug_assert!]s on the immediates of the compressed loads and stores
    are proved of the decoder. *)
Definition instruction_of_cacheable (value : InstrCacheable) : Instruction :=
  match value with
  | Instrs.Add args => from_ic_add args
  | Instrs.Sub args => from_ic_sub args
  | Instrs.Xor args => from_ic_xor args
  | Instrs.Or args => from_ic_or args
  | Instrs.And args => from_ic_and args
  | Instrs.Sll args => from_ic_sll args
  | Instrs.Srl args => from_ic_srl args
  | Instrs.Sra args => from_ic_sra args
  | Instrs.Slt args => new_set_less_than_signed (nzr_rd args) (nzr_rs1 args) (nzr_rs2 args)
  | Instrs.Sltu args =>
      new_set_less_than_unsigned (nzr_rd args) (nzr_rs1 args) (nzr_rs2 args)
  | Instrs.Addw args => new_add_word (nzr_rd args) (nzr_rs1 args) (nzr_rs2 args) Uncompressed
  | Instrs.Subw args => new_sub_word (nzr_rd args) (nzr_rs1 args) (nzr_rs2 args) Uncompressed
  | Instrs.Sllw args =>
      new_x32_shift_left (nzr_rd args) (nzr_rs1 args) (nzr_rs2 args) Uncompressed
  | Instrs.Srlw args =>
      new_x32_shift_right_unsigned (nzr_rd args) (nzr_rs1 args) (nzr_rs2 args) Uncompressed
  | Instrs.Sraw args =>
      new_x32_shift_right_signed (nzr_rd args) (nzr_rs1 args) (nzr_rs2 args) Uncompressed
  | Instrs.Addi args => from_ic_addi args
  | Instrs.Addiw args =>
      new_add_word_immediate (nzri_rd args) (nzri_rs1 args) (nzri_imm args) Uncompressed
  | Instrs.Xori args => from_ic_xori args
  | Instrs.Ori args => from_ic_ori args
  | Instrs.Andi args => from_ic_andi args
  | Instrs.Slli args => from_ic_slli args
  | Instrs.Srli args => from_ic_srli args
  | Instrs.Srai args => from_ic_srai args
  | Instrs.Slliw args => from_ic_x32_shift_left_immediate args
  | Instrs.Srliw args => from_ic_x32_shift_right_immediate_unsigned args
  | Instrs.Sraiw args => from_ic_x32_shift_right_immediate_signed args
  | Instrs.Slti args =>
      new_set_less_than_immediate_signed (nzri_rd args) (nzri_rs1 args) (nzri_imm args)
  | Instrs.Sltiu args =>
      new_set_less_than_immediate_unsigned (nzri_rd args) (nzri_rs1 args) (nzri_imm args)
  | Instrs.Lb args =>
      new_x8_load_signed (it_rd args) (it_rs1 args) (it_imm args) Uncompressed
  | Instrs.Lh args =>
      new_x16_load_signed (it_rd args) (it_rs1 args) (it_imm args) Uncompressed
  | Instrs.Lw args =>
      new_x32_load_signed (it_rd args) (it_rs1 args) (it_imm args) Uncompressed
  | Instrs.Lbu args =>
      new_x8_load_unsigned (it_rd args) (it_rs1 args) (it_imm args) Uncompressed
  | Instrs.Lhu args =>
      new_x16_load_unsigned (it_rd args) (it_rs1 args) (it_imm args) Uncompressed
  | Instrs.Lwu args =>
      new_x32_load_unsigned (it_rd args) (it_rs1 args) (it_imm args) Uncompressed
  | Instrs.Ld args =>
      new_x64_load_signed (it_rd args) (it_rs1 args) (it_imm args) Uncompressed
  | Instrs.Sb args => new_x8_store (sb_rs1 args) (sb_rs2 args) (sb_imm args) Uncompressed
  | Instrs.Sh args => new_x16_store (sb_rs1 args) (sb_rs2 args) (sb_imm args) Uncompressed
  | Instrs.Sw args => new_x32_store (sb_rs1 args) (sb_rs2 args) (sb_imm args) Uncompressed
  | Instrs.Sd args => new_x64_store (sb_rs1 args) (sb_rs2 args) (sb_imm args) Uncompressed
  | Instrs.Beq args => from_ic_beq args
  | Instrs.Bne args => from_ic_bne args
  | Instrs.Blt args => from_ic_blt args
  | Instrs.Bge args => from_ic_bge args
  | Instrs.Bltu args => from_ic_bltu args
  | Instrs.Bgeu args => from_ic_bgeu args
  | Instrs.Lui args => new_li (nzuj_rd args) (nzuj_imm args) Uncompressed
  | Instrs.Auipc args => new_add_immediate_to_pc (nzuj_rd args) (nzuj_imm args) Uncompressed
  | Instrs.Jal args => from_ic_jal args
  | Instrs.Jalr args => from_ic_jalr args
  | Instrs.Lrw args =>
      new_x32_atomic_load (amo_rd args) (amo_rs1 args) (amo_aq args) (amo_rl args) Uncompressed
  | Instrs.Scw args =>
      new_x32_atomic_store (amo_rd args) (amo_rs1 args) (amo_rs2 args) (amo_aq args) (amo_rl args) Uncompressed
  | Instrs.Amoswapw args =>
      new_x32_atomic_swap (amo_rd args) (amo_rs1 args) (amo_rs2 args) (amo_aq args) (amo_rl args) Uncompressed
  | Instrs.Amoaddw args => mkInstruction OpCodes.Amoaddw (into_args args)
  | Instrs.Amoxorw args => mkInstruction OpCodes.Amoxorw (into_args args)
  | Instrs.Amoandw args => mkInstruction OpCodes.Amoandw (into_args args)
  | Instrs.Amoorw args => mkInstruction OpCodes.Amoorw (into_args args)
  | Instrs.Amominw args => mkInstruction OpCodes.Amominw (into_args args)
  | Instrs.Amomaxw args => mkInstruction OpCodes.Amomaxw (into_args args)
  | Instrs.Amominuw args => mkInstruction OpCodes.Amominuw (into_args args)
  | Instrs.Amomaxuw args => mkInstruction OpCodes.Amomaxuw (into_args args)
  | Instrs.Lrd args =>
      new_x64_atomic_load (amo_rd args) (amo_rs1 args) (amo_aq args) (amo_rl args) Uncompressed
  | Instrs.Scd args =>
      new_x64_atomic_store (amo_rd args) (amo_rs1 args) (amo_rs2 args) (amo_aq args) (amo_rl args) Uncompressed
  | Instrs.Amoswapd args =>
      new_x64_atomic_swap (amo_rd args) (amo_rs1 args) (amo_rs2 args) (amo_aq args) (amo_rl args) Uncompressed
  | Instrs.Amoaddd args =>
      new_x64_atomic_add (amo_rd args) (amo_rs1 args) (amo_rs2 args) (amo_aq args) (amo_rl args) Uncompressed
  | Instrs.Amoxord args => mkInstruction OpCodes.Amoxord (into_args args)
  | Instrs.Amoandd args => mkInstruction OpCodes.Amoandd (into_args args)
  | Instrs.Amoord args => mkInstruction OpCodes.Amoord (into_args args)
  | Instrs.Amomind args =>
      new_x64_atomic_min_signed (amo_rd args) (amo_rs1 args) (amo_rs2 args) (amo_aq args) (amo_rl args) Uncompressed
  | Instrs.Amomaxd args => mkInstruction OpCodes.Amomaxd (into_args args)
  | Instrs.Amominud args => mkInstruction OpCodes.Amominud (into_args args)
  | Instrs.Amomaxud args => mkInstruction OpCodes.Amomaxud (into_args args)
  | Instrs.Rem args => from_ic_rem args
  | Instrs.Remu args => from_ic_remu args
  | Instrs.Remw args => from_ic_remw args
  | Instrs.Remuw args => from_ic_remuw args
  | Instrs.Div args => from_ic_div args
  | Instrs.Divu args => from_ic_divu args
  | Instrs.Divw args => from_ic_divw args
  | Instrs.Divuw args => from_ic_divuw args
  | Instrs.Mul args => from_ic_mul args
  | Instrs.Mulh args => from_ic_mulh args
  | Instrs.Mulhsu args => from_ic_mulhsu args
  | Instrs.Mulhu args => from_ic_mulhu args
  | Instrs.Mulw args => new_x32_mul (r_rd args) (r_rs1 args) (r_rs2 args) Uncompressed
  | Instrs.Flw args => mkInstruction OpCodes.Flw (FLoadArgs_to_args args Uncompressed)
  | Instrs.Fsw args => mkInstruction OpCodes.Fsw (FStoreArgs_to_args args Uncompressed)
  | Instrs.Feqs args => mkInstruction OpCodes.Feqs (into_args args)
  | Instrs.Fles args => mkInstruction OpCodes.Fles (into_args args)
  | Instrs.Flts args => mkInstruction OpCodes.Flts (into_args args)
  | Instrs.Fadds args => mkInstruction OpCodes.Fadds (into_args args)
  | Instrs.Fsubs args => mkInstruction OpCodes.Fsubs (into_args args)
  | Instrs.Fmuls args => mkInstruction OpCodes.Fmuls (into_args args)
  | Instrs.Fdivs args => mkInstruction OpCodes.Fdivs (into_args args)
  | Instrs.Fsqrts args => mkInstruction OpCodes.Fsqrts (into_args args)
  | Instrs.Fmins args => mkInstruction OpCodes.Fmins (into_args args)
  | Instrs.Fmaxs args => mkInstruction OpCodes.Fmaxs (into_args args)
  | Instrs.Fsgnjs args => mkInstruction OpCodes.Fsgnjs (into_args args)
  | Instrs.Fsgnjns args => mkInstruction OpCodes.Fsgnjns (into_args args)
  | Instrs.Fsgnjxs args => mkInstruction OpCodes.Fsgnjxs (into_args args)
  | Instrs.Fmadds args => mkInstruction OpCodes.Fmadds (into_args args)
  | Instrs.Fmsubs args => mkInstruction OpCodes.Fmsubs (into_args args)
  | Instrs.Fnmsubs args => mkInstruction OpCodes.Fnmsubs (into_args args)
  | Instrs.Fnmadds args => mkInstruction OpCodes.Fnmadds (into_args args)
  | Instrs.FclassS args => mkInstruction OpCodes.FclassS (into_args args)
  | Instrs.FmvXW args => mkInstruction OpCodes.FmvXW (into_args args)
  | Instrs.FmvWX args => mkInstruction OpCodes.FmvWX (into_args args)
  | Instrs.Fcvtsw args => mkInstruction OpCodes.Fcvtsw (into_args args)
  | Instrs.Fcvtswu args => mkInstruction OpCodes.Fcvtswu (into_args args)
  | Instrs.Fcvtsl args => mkInstruction OpCodes.Fcvtsl (into_args args)
  | Instrs.Fcvtslu args => mkInstruction OpCodes.Fcvtslu (into_args args)
  | Instrs.Fcvtws args => mkInstruction OpCodes.Fcvtws (into_args args)
  | Instrs.Fcvtwus args => mkInstruction OpCodes.Fcvtwus (into_args args)
  | Instrs.Fcvtls args => mkInstruction OpCodes.Fcvtls (into_args args)
  | Instrs.Fcvtlus args => mkInstruction OpCodes.Fcvtlus (into_args args)
  | Instrs.Fld args => mkInstruction OpCodes.Fld (FLoadArgs_to_args args Uncompressed)
  | Instrs.Fsd args => mkInstruction OpCodes.Fsd (FStoreArgs_to_args args Uncompressed)
  | Instrs.Feqd args => mkInstruction OpCodes.Feqd (into_args args)
  | Instrs.Fled args => mkInstruction OpCodes.Fled (into_args args)
  | Instrs.Fltd args => mkInstruction OpCodes.Fltd (into_args args)
  | Instrs.Faddd args => mkInstruction OpCodes.Faddd (into_args args)
  | Instrs.Fsubd args => mkInstruction OpCodes.Fsubd (into_args args)
  | Instrs.Fmuld args => mkInstruction OpCodes.Fmuld (into_args args)
  | Instrs.Fdivd args => mkInstruction OpCodes.Fdivd (into_args args)
  | Instrs.Fsqrtd args => mkInstruction OpCodes.Fsqrtd (into_args args)
  | Instrs.Fmind args => mkInstruction OpCodes.Fmind (into_args args)
  | Instrs.Fmaxd args => mkInstruction OpCodes.Fmaxd (into_args args)
  | Instrs.Fsgnjd args => mkInstruction OpCodes.Fsgnjd (into_args args)
  | Instrs.Fsgnjnd args => mkInstruction OpCodes.Fsgnjnd (into_args args)
  | Instrs.Fsgnjxd args => mkInstruction OpCodes.Fsgnjxd (into_args args)
  | Instrs.Fcvtds args => mkInstruction OpCodes.Fcvtds (into_args args)
  | Instrs.Fcvtsd args => mkInstruction OpCodes.Fcvtsd (into_args args)
  | Instrs.Fmaddd args => mkInstruction OpCodes.Fmaddd (into_args args)
  | Instrs.Fmsubd args => mkInstruction OpCodes.Fmsubd (into_args args)
  | Instrs.Fnmsubd args => mkInstruction OpCodes.Fnmsubd (into_args args)
  | Instrs.Fnmaddd args => mkInstruction OpCodes.Fnmaddd (into_args args)
  | Instrs.FclassD args => mkInstruction OpCodes.FclassD (into_args args)
  | Instrs.Fcvtdw args => mkInstruction OpCodes.Fcvtdw (into_args args)
  | Instrs.Fcvtdwu args => mkInstruction OpCodes.Fcvtdwu (into_args args)
  | Instrs.Fcvtdl args => mkInstruction OpCodes.Fcvtdl (into_args args)
  | Instrs.Fcvtdlu args => mkInstruction OpCodes.Fcvtdlu (into_args args)
  | Instrs.Fcvtwd args => mkInstruction OpCodes.Fcvtwd (into_args args)
  | Instrs.Fcvtwud args => mkInstruction OpCodes.Fcvtwud (into_args args)
  | Instrs.Fcvtld args => mkInstruction OpCodes.Fcvtld (into_args args)
  | Instrs.Fcvtlud args => mkInstruction OpCodes.Fcvtlud (into_args args)
  | Instrs.FmvXD args => mkInstruction OpCodes.FmvXD (into_args args)
  | Instrs.FmvDX args => mkInstruction OpCodes.FmvDX (into_args args)
  | Instrs.Csrrw args => mkInstruction OpCodes.Csrrw (into_args args)
  | Instrs.Csrrs args => mkInstruction OpCodes.Csrrs (into_args args)
  | Instrs.Csrrc args => mkInstruction OpCodes.Csrrc (into_args args)
  | Instrs.Csrrwi args => mkInstruction OpCodes.Csrrwi (into_args args)
  | Instrs.Csrrsi args => mkInstruction OpCodes.Csrrsi (into_args args)
  | Instrs.Csrrci args => mkInstruction OpCodes.Csrrci (into_args args)
  | Instrs.CLw args =>
      new_x32_load_signed (xreg_of_nz (nzi_rd args)) (xreg_of_nz (nzi_rs1 args)) (nzi_imm args) Compressed
  | Instrs.CLwsp args =>
      new_x32_load_signed (xreg_of_nz (cibnz_rd_rs1 args)) x2 (cibnz_imm args) Compressed
  | Instrs.CSw args =>
      new_x32_store (xreg_of_nz (nzsb_rs1 args)) (xreg_of_nz (nzsb_rs2 args)) (nzsb_imm args) Compressed
  | Instrs.CSwsp args => new_x32_store x2 (css_rs2 args) (css_imm args) Compressed
  | Instrs.CJ args => new_j (cjt_imm args) Compressed
  | Instrs.CJr args => new_jr (crj_rs1 args) Compressed
  | Instrs.CJalr args => new_jalr NZ.x1 (crj_rs1 args) Compressed
  | Instrs.CBeqz args => from_ic_cbeqz args
  | Instrs.CBnez args => from_ic_cbnez args
  | Instrs.CLi args => new_li (cibnz_rd_rs1 args) (cibnz_imm args) Compressed
  | Instrs.CLui args => new_li (cibnz_rd_rs1 args) (cibnz_imm args) Compressed
  | Instrs.CAddi args =>
      new_addi (cibnz_rd_rs1 args) (cibnz_rd_rs1 args) (cibnz_imm args) Compressed
  | Instrs.CAddi16sp args => new_addi NZ.x2 NZ.x2 (cjt_imm args) Compressed
  | Instrs.CAddi4spn args => from_ic_caddi4spn args
  | Instrs.CSlli args =>
      new_shift_left_immediate (cibnz_rd_rs1 args) (cibnz_rd_rs1 args) (cibnz_imm args) Compressed
  | Instrs.CSrli args => from_ic_csrli args
  | Instrs.CSrai args => from_ic_csrai args
  | Instrs.CAndi args => from_ic_candi args
  | Instrs.CMv args => new_mv (cnzr_rd_rs1 args) (cnzr_rs2 args) Compressed
  | Instrs.CAdd args =>
      new_add (cnzr_rd_rs1 args) (cnzr_rd_rs1 args) (cnzr_rs2 args) Compressed
  | Instrs.CAnd args => from_ic_cand args
  | Instrs.CXor args => from_ic_cxor args
  | Instrs.COr args => from_ic_cor args
  | Instrs.CSub args => from_ic_csub args
  | Instrs.CNop => new_nop Compressed
  | Instrs.CLd args =>
      new_x64_load_signed (xreg_of_nz (nzi_rd args)) (xreg_of_nz (nzi_rs1 args)) (nzi_imm args) Compressed
  | Instrs.CLdsp args =>
      new_x64_load_signed (xreg_of_nz (cibnz_rd_rs1 args)) x2 (cibnz_imm args) Compressed
  | Instrs.CSd args =>
      new_x64_store (xreg_of_nz (nzsb_rs1 args)) (xreg_of_nz (nzsb_rs2 args)) (nzsb_imm args) Compressed
  | Instrs.CSdsp args => new_x64_store x2 (css_rs2 args) (css_imm args) Compressed
  | Instrs.CAddiw args =>
      new_add_word_immediate (cibnz_rd_rs1 args) (xreg_of_nz (cibnz_rd_rs1 args)) (cibnz_imm args) Compressed
  | Instrs.CAddw args => from_ic_caddw args
  | Instrs.CSubw args => from_ic_csubw args
  | Instrs.CFld args => mkInstruction OpCodes.CFld (FLoadArgs_to_args args Compressed)
  | Instrs.CFldsp args => mkInstruction OpCodes.CFldsp (into_args args)
  | Instrs.CFsd args => mkInstruction OpCodes.CFsd (FStoreArgs_to_args args Compressed)
  | Instrs.CFsdsp args => mkInstruction OpCodes.CFsdsp (into_args args)
  | Instrs.Unknown _ => new_unknown Uncompressed
  | Instrs.UnknownCompressed _ => new_unknown Compressed
  | Instrs.Hint _ => new_nop Uncompressed
  | Instrs.HintCompressed _ => new_nop Compressed
  | Instrs.Wfi => new_nop Uncompressed
  | Instrs.Ecall => new_ecall
  end.
