(* ===== verification/Tagged.v ===== *)
(** * Tagged instructions

    Models [src/riscv/lib/src/machine_state/instruction/tagged_instruction.rs]:
    the form in which an [Instruction] is serialised, where each register says
    which view of the [Register] union it is.  [None] is reading a byte through
    a view it is not a value of (undefined behaviour in Rust).  The
    conversions are inverse to each other, and every instruction built from a decoded
    one can be serialised. *)

From S2P Require Import Prelude.
From S2P Require Import Registers.
From S2P Require Import Csr.
From S2P Require Import Instr.
From S2P Require Import Parser.
From S2P Require Import Instruction.
From S2P Require Import Constructors.

Inductive TaggedRegister : Type :=
| X (r : XRegister)
| F (r : FRegister)
| NonZeroX (r : NonZeroXRegister).

Inductive TaggedError : Type :=
| UnwrapX (r : TaggedRegister)
| UnwrapF (r : TaggedRegister)
| UnwrapNZX (r : TaggedRegister).

Record TaggedArgs : Type := mkTaggedArgs {
  t_rd : TaggedRegister;
  t_rs1 : TaggedRegister;
  t_rs2 : TaggedRegister;
  t_imm : Z;
  t_csr : CSRegister;
  t_rs3f : FRegister;
  t_rm : InstrRoundingMode;
  t_aq : bool;
  t_rl : bool;
  t_width : InstrWidth }.

(** [TaggedArgs::DEFAULT]. *)
Definition TAGGED_DEFAULT : TaggedArgs :=
  {| t_rd := NonZeroX NZ.x1; t_rs1 := NonZeroX NZ.x1; t_rs2 := NonZeroX NZ.x1; t_imm := 0;
     t_csr := Csrs.fflags; t_rs3f := f0; t_rm := Dynamic; t_aq := false; t_rl := false;
     t_width := Uncompressed |}.

Record TaggedInstruction : Type := mkTaggedInstruction { t_opcode : OpCode; t_args : TaggedArgs }.

Inductive ArgsShape : Type :=
| XSrcXDest
| FSrcFDest
| XSrcFDest
| FSrcXDest
| XSrcFSrc
| NZXSrcNZXDest
| XSrcNZXDest.

Definition opcode_to_argsshape (opcode : OpCode) : ArgsShape :=
  match opcode with
  | OpCodes.X8LoadSigned | OpCodes.X16LoadSigned | OpCodes.X32LoadSigned
  | OpCodes.X8LoadUnsigned | OpCodes.X16LoadUnsigned | OpCodes.X32LoadUnsigned
  | OpCodes.X64LoadSigned | OpCodes.X8Store | OpCodes.X16Store | OpCodes.X32Store
  | OpCodes.X64Store | OpCodes.X32AtomicLoad | OpCodes.X32AtomicStore
  | OpCodes.X32AtomicSwap | OpCodes.Amoaddw | OpCodes.Amoxorw | OpCodes.Amoandw
  | OpCodes.Amoorw | OpCodes.Amominw | OpCodes.Amomaxw | OpCodes.Amominuw
  | OpCodes.Amomaxuw | OpCodes.X64AtomicLoad | OpCodes.X64AtomicStore
  | OpCodes.X64AtomicSwap | OpCodes.X64AtomicAdd | OpCodes.Amoxord | OpCodes.Amoandd
  | OpCodes.Amoord | OpCodes.X64AtomicMinSigned | OpCodes.Amomaxd | OpCodes.Amominud
  | OpCodes.Amomaxud | OpCodes.X32Mul | OpCodes.Csrrw | OpCodes.Csrrs | OpCodes.Csrrc
  | OpCodes.Csrrwi | OpCodes.Csrrsi | OpCodes.Csrrci =>
      XSrcXDest
  | OpCodes.Fadds | OpCodes.Fsubs | OpCodes.Fmuls | OpCodes.Fdivs | OpCodes.Fsqrts
  | OpCodes.Fmins | OpCodes.Fmaxs | OpCodes.Fsgnjs | OpCodes.Fsgnjns | OpCodes.Fsgnjxs
  | OpCodes.Fmadds | OpCodes.Fmsubs | OpCodes.Fnmsubs | OpCodes.Fnmadds | OpCodes.Faddd
  | OpCodes.Fsubd | OpCodes.Fmuld | OpCodes.Fdivd | OpCodes.Fsqrtd | OpCodes.Fmind
  | OpCodes.Fmaxd | OpCodes.Fsgnjd | OpCodes.Fsgnjnd | OpCodes.Fsgnjxd | OpCodes.Fcvtsd
  | OpCodes.Fcvtds | OpCodes.Fmaddd | OpCodes.Fmsubd | OpCodes.Fnmsubd | OpCodes.Fnmaddd =>
      FSrcFDest
  | OpCodes.Flw | OpCodes.Fld | OpCodes.FmvWX | OpCodes.Fcvtsw | OpCodes.Fcvtswu
  | OpCodes.Fcvtsl | OpCodes.Fcvtslu | OpCodes.FmvDX | OpCodes.Fcvtdw | OpCodes.Fcvtdwu
  | OpCodes.Fcvtdl | OpCodes.Fcvtdlu | OpCodes.CFld | OpCodes.CFldsp =>
      XSrcFDest
  | OpCodes.Feqs | OpCodes.Fles | OpCodes.Flts | OpCodes.Feqd | OpCodes.Fled
  | OpCodes.Fltd | OpCodes.FclassS | OpCodes.FmvXW | OpCodes.Fcvtws | OpCodes.Fcvtwus
  | OpCodes.Fcvtls | OpCodes.Fcvtlus | OpCodes.FclassD | OpCodes.FmvXD | OpCodes.Fcvtwd
  | OpCodes.Fcvtwud | OpCodes.Fcvtld | OpCodes.Fcvtlud =>
      FSrcXDest
  | OpCodes.Fsw | OpCodes.Fsd | OpCodes.CFsd | OpCodes.CFsdsp =>
      XSrcFSrc
  | OpCodes.Addi | OpCodes.Andi | OpCodes.X64OrImm | OpCodes.X64XorImm
  | OpCodes.ShiftLeftImmediate | OpCodes.ShiftRightImmediateUnsigned
  | OpCodes.ShiftRightImmediateSigned | OpCodes.Add | OpCodes.Sub | OpCodes.Mul
  | OpCodes.X64MulHighSigned | OpCodes.X64MulHighSignedUnsigned
  | OpCodes.X64MulHighUnsigned | OpCodes.Mv | OpCodes.Neg | OpCodes.And | OpCodes.Or
  | OpCodes.X64Xor | OpCodes.ShiftLeft | OpCodes.ShiftRightUnsigned
  | OpCodes.ShiftRightSigned | OpCodes.X32ShiftLeftImm
  | OpCodes.X32ShiftRightImmUnsigned | OpCodes.X32ShiftRightImmSigned | OpCodes.Jal
  | OpCodes.J | OpCodes.JrImm | OpCodes.JAbsolute | OpCodes.JalrAbsolute | OpCodes.Jr
  | OpCodes.Jalr | OpCodes.Li | OpCodes.BranchEqual | OpCodes.BranchEqualZero
  | OpCodes.BranchNotEqual | OpCodes.BranchNotEqualZero | OpCodes.BranchLessThanSigned
  | OpCodes.BranchGreaterThanOrEqualSigned | OpCodes.BranchLessThanUnsigned
  | OpCodes.BranchGreaterThanOrEqualUnsigned | OpCodes.BranchLessThanZero
  | OpCodes.BranchGreaterThanOrEqualZero | OpCodes.BranchLessThanOrEqualZero
  | OpCodes.BranchGreaterThanZero | OpCodes.JalrImm | OpCodes.Nop | OpCodes.ECall
  | OpCodes.Unknown =>
      NZXSrcNZXDest
  | OpCodes.AddWordImmediate | OpCodes.AddWord | OpCodes.SubWord | OpCodes.X32ShiftLeft
  | OpCodes.X32ShiftRightUnsigned | OpCodes.X32ShiftRightSigned
  | OpCodes.SetLessThanSigned | OpCodes.SetLessThanUnsigned
  | OpCodes.SetLessThanImmediateSigned | OpCodes.SetLessThanImmediateUnsigned
  | OpCodes.AddImmediateToPC | OpCodes.X64RemSigned | OpCodes.X64RemUnsigned
  | OpCodes.X32RemSigned | OpCodes.X32RemUnsigned | OpCodes.X64DivSigned
  | OpCodes.X64DivUnsigned | OpCodes.X32DivSigned | OpCodes.X32DivUnsigned =>
      XSrcNZXDest
  end.

(** [TaggedRegister::unwrap_x], [unwrap_f] and [unwrap_nzx]. *)
Definition unwrap_x (r : TaggedRegister) : result XRegister TaggedError :=
  match r with X x => Ok x | _ => Err (UnwrapX r) end.
Definition unwrap_f (r : TaggedRegister) : result FRegister TaggedError :=
  match r with F f => Ok f | _ => Err (UnwrapF r) end.
Definition unwrap_nzx (r : TaggedRegister) : result NonZeroXRegister TaggedError :=
  match r with NonZeroX nzx => Ok nzx | _ => Err (UnwrapNZX r) end.

(** One of the seven arms of the two conversions: the registers through the
    views of the shape, the other arguments copied. *)
Definition untag_args {D S1 S2 : Type} `{IntoRegister D} `{IntoRegister S1} `{IntoRegister S2}
    (unwrap_rd : TaggedRegister -> result D TaggedError)
    (unwrap_rs1 : TaggedRegister -> result S1 TaggedError)
    (unwrap_rs2 : TaggedRegister -> result S2 TaggedError) (args : TaggedArgs)
  : result Args TaggedError :=
  result_bind (unwrap_rd (t_rd args)) (fun rd =>
  result_bind (unwrap_rs1 (t_rs1 args)) (fun rs1 =>
  result_bind (unwrap_rs2 (t_rs2 args)) (fun rs2 =>
  Ok {| a_rd := into rd; a_rs1 := into rs1; a_rs2 := into rs2; a_imm := t_imm args;
        a_csr := t_csr args; a_rs3f := t_rs3f args; a_rm := t_rm args; a_aq := t_aq args;
        a_rl := t_rl args; a_width := t_width args |}))).

(** [impl TryFrom<TaggedInstruction> for Instruction]. *)
Definition instruction_of_tagged (value : TaggedInstruction) : result Instruction TaggedError :=
  let args := t_args value in
  result_map
    match opcode_to_argsshape (t_opcode value) with
    | XSrcXDest => untag_args unwrap_x unwrap_x unwrap_x args
    | FSrcFDest => untag_args unwrap_f unwrap_f unwrap_f args
    | XSrcFDest => untag_args unwrap_f unwrap_x unwrap_x args
    | FSrcXDest => untag_args unwrap_x unwrap_f unwrap_f args
    | XSrcFSrc => untag_args unwrap_x unwrap_x unwrap_f args
    | NZXSrcNZXDest => untag_args unwrap_nzx unwrap_nzx unwrap_nzx args
    | XSrcNZXDest => untag_args unwrap_nzx unwrap_x unwrap_x args
    end (mkInstruction (t_opcode value)).

(** The registers of [Args] through a view, tagged. *)
Definition tag_x (r : Register) : option TaggedRegister := X <$> register_x r.
Definition tag_f (r : Register) : option TaggedRegister := F <$> register_f r.
Definition tag_nzx (r : Register) : option TaggedRegister := NonZeroX <$> register_nzx r.

Definition tag_args (tag_rd tag_rs1 tag_rs2 : Register -> option TaggedRegister) (args : Args)
  : option TaggedArgs :=
  match tag_rd (a_rd args), tag_rs1 (a_rs1 args), tag_rs2 (a_rs2 args) with
  | Some rd, Some rs1, Some rs2 =>
      Some {| t_rd := rd; t_rs1 := rs1; t_rs2 := rs2; t_imm := a_imm args; t_csr := a_csr args;
              t_rs3f := a_rs3f args; t_rm := a_rm args; t_aq := a_aq args; t_rl := a_rl args;
              t_width := a_width args |}
  | _, _, _ => None
  end.

(** [impl From<Instruction> for TaggedInstruction]. *)
Definition tagged_of_instruction (value : Instruction) : option TaggedInstruction :=
  let args := i_args value in
  mkTaggedInstruction (i_opcode value) <$>
    match opcode_to_argsshape (i_opcode value) with
    | XSrcXDest => tag_args tag_x tag_x tag_x args
    | FSrcFDest => tag_args tag_f tag_f tag_f args
    | XSrcFDest => tag_args tag_f tag_x tag_x args
    | FSrcXDest => tag_args tag_x tag_f tag_f args
    | XSrcFSrc => tag_args tag_x tag_x tag_f args
    | NZXSrcNZXDest => tag_args tag_nzx tag_nzx tag_nzx args
    | XSrcNZXDest => tag_args tag_nzx tag_x tag_x args
    end.

(** ** Lemmas *)

(** Each register byte of the instruction is a value of the view its opcode's
    shape prescribes. *)
Definition shape_ok (i : Instruction) : bool :=
  let is_x r := bool_decide (is_Some (register_x r)) in
  let is_f r := bool_decide (is_Some (register_f r)) in
  let is_nzx r := bool_decide (is_Some (register_nzx r)) in
  let a := i_args i in
  match opcode_to_argsshape (i_opcode i) with
  | XSrcXDest => is_x (a_rd a) && is_x (a_rs1 a) && is_x (a_rs2 a)
  | FSrcFDest => is_f (a_rd a) && is_f (a_rs1 a) && is_f (a_rs2 a)
  | XSrcFDest => is_f (a_rd a) && is_x (a_rs1 a) && is_x (a_rs2 a)
  | FSrcXDest => is_x (a_rd a) && is_f (a_rs1 a) && is_f (a_rs2 a)
  | XSrcFSrc => is_x (a_rd a) && is_x (a_rs1 a) && is_f (a_rs2 a)
  | NZXSrcNZXDest => is_nzx (a_rd a) && is_nzx (a_rs1 a) && is_nzx (a_rs2 a)
  | XSrcNZXDest => is_nzx (a_rd a) && is_x (a_rs1 a) && is_x (a_rs2 a)
  end.

(** The transmutes are partial inverses of the representations. *)
Lemma xreg_of_repr_inv b r : xreg_of_repr b = Some r -> xreg_repr r = b.
Proof. unfold xreg_of_repr; repeat case_match; intros [= <-]; reflexivity. Qed.
Lemma nz_of_repr_inv b r : nz_of_repr b = Some r -> nz_repr r = b.
Proof. unfold nz_of_repr; repeat case_match; intros [= <-]; reflexivity. Qed.
Lemma freg_of_repr_inv b r : freg_of_repr b = Some r -> freg_repr r = b.
Proof. unfold freg_of_repr; repeat case_match; intros [= <-]; reflexivity. Qed.

(** A tagged view of a register byte: tagging succeeds exactly on the bytes of
    the view, and unwrapping the tag gives the byte back. *)
Definition view_ok {D} `{IntoRegister D} (unwrap : TaggedRegister -> result D TaggedError)
    (tag : Register -> option TaggedRegister) : Prop :=
  forall r t, tag r = Some t <-> exists d, unwrap t = Ok d /\ into d = r.

Lemma view_ok_x : view_ok unwrap_x tag_x.
Proof.
  intros r t. unfold tag_x, register_x. split.
  - destruct (xreg_of_repr r) as [x|] eqn:E; intros [= <-].
    exists x; split; [reflexivity | apply xreg_of_repr_inv; assumption].
  - intros (d & Hd & <-). destruct t; try discriminate. injection Hd as ->.
    unfold into, into_x. rewrite xreg_of_to_repr. reflexivity.
Qed.
Lemma view_ok_f : view_ok unwrap_f tag_f.
Proof.
  intros r t. unfold tag_f, register_f. split.
  - destruct (freg_of_repr r) as [x|] eqn:E; intros [= <-].
    exists x; split; [reflexivity | apply freg_of_repr_inv; assumption].
  - intros (d & Hd & <-). destruct t; try discriminate. injection Hd as ->.
    unfold into, into_f. rewrite freg_of_to_repr. reflexivity.
Qed.
Lemma view_ok_nzx : view_ok unwrap_nzx tag_nzx.
Proof.
  intros r t. unfold tag_nzx, register_nzx. split.
  - destruct (nz_of_repr r) as [x|] eqn:E; intros [= <-].
    exists x; split; [reflexivity | apply nz_of_repr_inv; assumption].
  - intros (d & Hd & <-). destruct t; try discriminate. injection Hd as ->.
    unfold into, into_nzx. rewrite nz_of_to_repr. reflexivity.
Qed.

Lemma tag_untag_args {D S1 S2} `{IntoRegister D} `{IntoRegister S1} `{IntoRegister S2}
    (u0 : _ -> result D _) (u1 : _ -> result S1 _) (u2 : _ -> result S2 _) t0 t1 t2 a t :
  view_ok u0 t0 -> view_ok u1 t1 -> view_ok u2 t2 ->
  tag_args t0 t1 t2 a = Some t <-> untag_args u0 u1 u2 t = Ok a.
Proof.
  intros V0 V1 V2. unfold tag_args, untag_args. split.
  - destruct (t0 (a_rd a)) as [r0|] eqn:E0, (t1 (a_rs1 a)) as [r1|] eqn:E1,
      (t2 (a_rs2 a)) as [r2|] eqn:E2; intros Heq; inversion Heq; subst t; cbn.
    apply V0 in E0 as (d0 & -> & Q0). apply V1 in E1 as (d1 & -> & Q1).
    apply V2 in E2 as (d2 & -> & Q2). cbn. rewrite Q0, Q1, Q2. destruct a; reflexivity.
  - destruct (u0 (t_rd t)) as [d0|] eqn:E0; [cbn|discriminate].
    destruct (u1 (t_rs1 t)) as [d1|] eqn:E1; [cbn|discriminate].
    destruct (u2 (t_rs2 t)) as [d2|] eqn:E2; [cbn|discriminate].
    intros [= <-]; cbn.
    rewrite (proj2 (V0 (into d0) (t_rd t))), (proj2 (V1 (into d1) (t_rs1 t))),
      (proj2 (V2 (into d2) (t_rs2 t))) by eauto.
    destruct t; reflexivity.
Qed.

#[export] Hint Resolve view_ok_x view_ok_f view_ok_nzx : pvm.

Lemma tag_untag_arm {D S1 S2} `{IntoRegister D} `{IntoRegister S1} `{IntoRegister S2}
    (u0 : _ -> result D _) (u1 : _ -> result S1 _) (u2 : _ -> result S2 _) t0 t1 t2 op a ta :
  view_ok u0 t0 -> view_ok u1 t1 -> view_ok u2 t2 ->
  mkTaggedInstruction op <$> tag_args t0 t1 t2 a = Some (mkTaggedInstruction op ta) <->
  result_map (untag_args u0 u1 u2 ta) (mkInstruction op) = Ok (mkInstruction op a).
Proof.
  intros V0 V1 V2. pose proof (fun t => tag_untag_args u0 u1 u2 t0 t1 t2 a t V0 V1 V2) as Hiff.
  split.
  - destruct (tag_args t0 t1 t2 a) as [ta'|]; [|discriminate]. intros [= ->].
    rewrite (proj1 (Hiff ta) eq_refl). reflexivity.
  - destruct (untag_args u0 u1 u2 ta) as [a'|] eqn:E; [|discriminate]. intros [= ->].
    rewrite (proj2 (Hiff ta) E). reflexivity.
Qed.

(** Neither conversion changes the opcode. *)
Lemma tagged_of_instruction_opcode i t :
  tagged_of_instruction i = Some t -> t_opcode t = i_opcode i.
Proof. intros H. apply fmap_Some in H as (ta & _ & ->). reflexivity. Qed.
Lemma instruction_of_tagged_opcode i t :
  instruction_of_tagged t = Ok i -> t_opcode t = i_opcode i.
Proof.
  unfold instruction_of_tagged, result_map. intros H.
  destruct (match opcode_to_argsshape (t_opcode t) with XSrcXDest => _ | _ => _ end);
    inversion H; reflexivity.
Qed.

(** Tagging is defined on well-shaped instructions only, and on all of them. *)
Lemma tagged_of_instruction_shape i :
  is_Some (tagged_of_instruction i) <-> shape_ok i = true.
Proof.
  unfold tagged_of_instruction, shape_ok, tag_args, tag_x, tag_f, tag_nzx.
  destruct (opcode_to_argsshape (i_opcode i));
    rewrite !andb_true_iff, !bool_decide_eq_true;
    repeat match goal with |- context [?v (?f (i_args i))] =>
      match v with register_x => idtac | register_f => idtac | register_nzx => idtac end;
      destruct (v (f (i_args i))); cbn end;
    split; intros Hs; destruct_and?;
    repeat match goal with H : is_Some None |- _ => destruct H; discriminate end; eauto.
Qed.

(** The bytes that constructors put in the union are valid through the views
    the shapes use. *)
Lemma register_x_into_x r : register_x (into_x r) = Some r.
Proof. apply xreg_of_to_repr. Qed.
Lemma register_x_into_nzx r : register_x (into_nzx r) = Some (xreg_of_nz r).
Proof. destruct r; reflexivity. Qed.
Lemma register_nzx_into_nzx r : register_nzx (into_nzx r) = Some r.
Proof. apply nz_of_to_repr. Qed.
Lemma register_f_into_f r : register_f (into_f r) = Some r.
Proof. apply freg_of_to_repr. Qed.
#[export] Hint Rewrite register_x_into_x register_x_into_nzx register_nzx_into_nzx
  register_f_into_f : pvm.

Lemma constructed_shape_ok c : shape_ok (instruction_of_cacheable c) = true.
Proof.
  destruct c; cbn [instruction_of_cacheable];
    match goal with |- shape_ok (?f ?a) = true => try unfold f | _ => idtac end;
    repeat case_match; try reflexivity.
  all: unfold shape_ok; cbn.
  all: unfold into; autorewrite with pvm; reflexivity.
Qed.

(** [TaggedInstruction] and [Instruction] are two representations of the same
    values: serialising gives [t] exactly when deserialising [t] gives the
    instruction back.  So serialisation is injective, and deserialisation
    accepts nothing but the serialisation of its result. *)
Lemma tagged_inverse i t : tagged_of_instruction i = Some t <-> instruction_of_tagged t = Ok i.
Proof.
  enough (Hsame : t_opcode t = i_opcode i ->
            tagged_of_instruction i = Some t <-> instruction_of_tagged t = Ok i).
  { split; intros H; (apply Hsame; [|exact H]);
      [eapply tagged_of_instruction_opcode | eapply instruction_of_tagged_opcode]; exact H. }
  destruct i as [op a], t as [op' ta]; cbn; intros ->.
  unfold tagged_of_instruction, instruction_of_tagged; cbn [i_opcode i_args t_opcode t_args].
  destruct (opcode_to_argsshape op); apply tag_untag_arm; auto with pvm.
Qed.

(** C32: every instruction built from a decoded one is well shaped: each register
    byte it carries is valid through the view that its opcode's serialisation
    uses, so that serialising it reads no invalid union member; and
    deserialising what was serialised gives that instruction and no other. *)
Theorem constructed_roundtrip c :
  exists t, tagged_of_instruction (instruction_of_cacheable c) = Some t
    /\ forall i, instruction_of_tagged t = Ok i <-> i = instruction_of_cacheable c.
Proof.
  destruct (proj2 (tagged_of_instruction_shape (instruction_of_cacheable c)) (constructed_shape_ok c))
    as [t Ht].
  exists t; split; [exact Ht|]. apply tagged_inverse in Ht. intros i; split; congruence.
Qed.
