(* ===== verification/Icb.v ===== *)
(** * The instruction context

    Models [src/riscv/lib/src/instruction_context.rs] with its [arithmetic.rs],
    [comparable.rs] and [value.rs], and the exceptions of [traps.rs].

    [ICB] is the interface over which every instruction is written once, for the
    interpreter and for the compiler: a type class of operations on a mutable
    context [I].  The arithmetic of [u64] and [u32] is [arithmetic_uint], at the
    two widths; an operation that panics in Rust (division by zero or
    overflow, a shift by the width or more under overflow checks) is [mpanic]. *)

From S2P Require Import Prelude.
From S2P Require Import Registers.
From S2P Require Import Instr.
From S2P Require Import Parser.

(** ** Exceptions *)
Inductive Exception : Type :=
| InstructionAccessFault (addr : Z)
| IllegalInstruction
| Breakpoint
| LoadAccessFault (addr : Z)
| StoreAMOAccessFault (addr : Z)
| EnvCall
| InstructionPageFault (addr : Z)
| LoadPageFault (addr : Z)
| StoreAMOPageFault (addr : Z).

#[export] Instance Exception_eq_dec : EqDecision Exception.
Proof. solve_decision. Defined.

Inductive EnvironException : Type := EnvironEnvCall.

(** [impl TryFrom<&Exception> for EnvironException]; [None] is the error. *)
Definition environ_of_exception (value : Exception) : option EnvironException :=
  match value with
  | EnvCall => Some EnvironEnvCall
  | Breakpoint | IllegalInstruction | InstructionAccessFault _ | LoadAccessFault _
  | StoreAMOAccessFault _ | InstructionPageFault _ | LoadPageFault _ | StoreAMOPageFault _ => None
  end.

(** [ProgramCounterUpdate] of [machine_state.rs]. *)
Inductive ProgramCounterUpdate (A : Type) : Type :=
| Set_ (address : A)
| Next (width : InstrWidth).
Arguments Set_ {A} address.
Arguments Next {A} width.

(** ** Operators *)
Inductive Predicate : Type :=
| Equal
| NotEqual
| LessThanSigned
| LessThanUnsigned
| LessThanOrEqualSigned
| GreaterThanSigned
| GreaterThanOrEqualSigned
| GreaterThanOrEqualUnsigned.

Inductive Shift : Type := Left | RightUnsigned | RightSigned.

Inductive MulHighType : Type := MulSigned | MulUnsigned | MulSignedUnsigned.

Inductive LoadStoreWidth : Type := Byte | Half | Word | Double.
Definition width_of (w : LoadStoreWidth) : Z :=
  match w with Byte => 1 | Half => 2 | Word => 4 | Double => 8 end.

(** [StoreLoadInt]: the integer types [u8] to [i64], by width and signedness. *)
Record StoreLoadInt : Type := mkStoreLoadInt { WIDTH : LoadStoreWidth; SIGNED : bool }.
Definition u8 : StoreLoadInt := mkStoreLoadInt Byte false.
Definition u16 : StoreLoadInt := mkStoreLoadInt Half false.
Definition u32 : StoreLoadInt := mkStoreLoadInt Word false.
Definition u64 : StoreLoadInt := mkStoreLoadInt Double false.
Definition i8 : StoreLoadInt := mkStoreLoadInt Byte true.
Definition i16 : StoreLoadInt := mkStoreLoadInt Half true.
Definition i32 : StoreLoadInt := mkStoreLoadInt Word true.
Definition i64 : StoreLoadInt := mkStoreLoadInt Double true.

Definition bits_of (V : StoreLoadInt) : Z := 8 * width_of (WIDTH V).
(** A cast into the type, and the type's values. *)
Definition cast_to (V : StoreLoadInt) (z : Z) : Z :=
  if SIGNED V then sext (bits_of V) z else wrap (bits_of V) z.
(** [to_xvalue] ([self as u64]) and [from_xvalue] ([xvalue as Self]). *)
Definition to_xvalue (V : StoreLoadInt) (v : Z) : Z := wrap 64 v.
Definition from_xvalue (V : StoreLoadInt) (xvalue : Z) : Z := cast_to V xvalue.

Inductive ReservationSetOption : Type := NoReset | Reset.

(** ** The traits *)
Class Arithmetic (I V : Type) : Type := {
  add : V -> V -> M I V;
  sub : V -> V -> M I V;
  and : V -> V -> M I V;
  or : V -> V -> M I V;
  xor : V -> V -> M I V;
  mul : V -> V -> M I V;
  div_unsigned : V -> V -> M I V;
  div_signed : V -> V -> M I V;
  negate : V -> M I V;
  shift : V -> Shift -> V -> M I V;
  modulus_unsigned : V -> V -> M I V;
  modulus_signed : V -> V -> M I V;
  min_signed : V -> V -> M I V }.

Class Comparable (I B V : Type) : Type := compare : V -> V -> Predicate -> M I B.

(** [PhiValue] of [value.rs]: the types of the values that the branches of
    [branch_merge] give, one constructor per implementation ([()], [XValue],
    [XValue32] and [Result<(), E>]); and [IcbValue], the type in a context. *)
Inductive PhiValue : Type := PhiUnit | PhiXValue | PhiXValue32 | PhiResult.
Definition IcbValue (XValue XValue32 : Type) (IResult : Type -> Type) (Phi : PhiValue) : Type :=
  match Phi with
  | PhiUnit => unit
  | PhiXValue => XValue
  | PhiXValue32 => XValue32
  | PhiResult => IResult unit
  end.

Class ICB (I : Type) : Type := {
  XValue : Type;
  XValue32 : Type;
  Bool : Type;
  IResult : Type -> Type;
  xvalue_arithmetic : Arithmetic I XValue;
  xvalue32_arithmetic : Arithmetic I XValue32;
  xvalue_comparable : Comparable I Bool XValue;
  xvalue32_comparable : Comparable I Bool XValue32;
  xregister_read_nz : NonZeroXRegister -> M I XValue;
  xregister_write_nz : NonZeroXRegister -> XValue -> M I unit;
  xregister_read : XRegister -> M I XValue;
  xregister_write : XRegister -> XValue -> M I unit;
  xvalue_of_imm : Z -> M I XValue;
  xvalue32_of_imm : Z -> M I XValue32;
  pc_read : M I XValue;
  bool_and : Bool -> Bool -> M I Bool;
  narrow : XValue -> M I XValue32;
  extend_signed : XValue32 -> M I XValue;
  extend_unsigned : XValue32 -> M I XValue;
  mul_high : XValue -> XValue -> MulHighType -> M I XValue;
  xvalue_from_bool : Bool -> M I XValue;
  branch : Bool -> Z -> InstrWidth -> M I (ProgramCounterUpdate XValue);
  branch_merge : forall (Phi : PhiValue), let A := IcbValue XValue XValue32 IResult Phi in
    Bool -> M I A -> M I A -> M I A;
  ok : forall {A}, A -> M I (IResult A);
  err_illegal_instruction : forall {A}, M I (IResult A);
  atomic_access_fault_guard :
    StoreLoadInt -> XValue -> ReservationSetOption -> M I (IResult unit);
  ires_map : forall {A B}, IResult A -> (A -> B) -> IResult B;
  (** The closure of [and_then] uses the context. *)
  and_then : forall {A B}, IResult A -> (A -> M I (IResult B)) -> M I (IResult B);
  ecall : M I (IResult (ProgramCounterUpdate XValue));
  main_memory_store : StoreLoadInt -> XValue -> XValue -> M I (IResult unit);
  main_memory_load : StoreLoadInt -> XValue -> M I (IResult XValue);
  reservation_set_write : XValue -> M I unit;
  reservation_set_read : M I XValue }.
#[export] Existing Instances xvalue_arithmetic xvalue32_arithmetic
  xvalue_comparable xvalue32_comparable.

(** The provided methods, for an implementation that does not override them. *)
Definition xregister_read_default {I V} (of_imm : Z -> M I V) (read_nz : NonZeroXRegister -> M I V)
    (reg : XRegister) : M I V :=
  match split_x0 reg with X0 => of_imm 0 | NonZero reg => read_nz reg end.
Definition xregister_write_default {I V} (write_nz : NonZeroXRegister -> V -> M I unit)
    (reg : XRegister) (value : V) : M I unit :=
  match split_x0 reg with X0 => mret tt | NonZero reg => write_nz reg value end.

(** ** The integers of the interpreter *)
Section Uint.
Context {I : Type} (w : Z).

Definition uint_div_unsigned (a b : Z) : M I Z := if b =? 0 then mpanic else mret (a / b).
Definition uint_div_signed (a b : Z) : M I Z :=
  if (sext w b =? 0) || ((sext w a =? - 2 ^ (w - 1)) && (sext w b =? -1)) then mpanic
  else mret (wrap w (Z.quot (sext w a) (sext w b))).
Definition uint_shift (a : Z) (s : Shift) (amount : Z) : M I Z :=
  if amount <? w then
    mret match s with
         | Left => wrap w (Z.shiftl a amount)
         | RightUnsigned => Z.shiftr a amount
         | RightSigned => wrap w (Z.shiftr (sext w a) amount)
         end
  else mpanic.
Definition uint_modulus_unsigned (a b : Z) : M I Z := if b =? 0 then mpanic else mret (a mod b).
Definition uint_modulus_signed (a b : Z) : M I Z :=
  if sext w b =? 0 then mpanic else mret (wrap w (Z.rem (sext w a) (sext w b))).

(** [impl Arithmetic for XValue] ([w = 64]) and [for XValue32] ([w = 32]). *)
Definition arithmetic_uint : Arithmetic I Z := {|
  add a b := mret (wrap w (a + b));
  sub a b := mret (wrap w (a - b));
  and a b := mret (Z.land a b);
  or a b := mret (Z.lor a b);
  xor a b := mret (Z.lxor a b);
  mul a b := mret (wrap w (a * b));
  div_unsigned := uint_div_unsigned;
  div_signed := uint_div_signed;
  negate a := mret (wrap w (0 - a));
  shift := uint_shift;
  modulus_unsigned := uint_modulus_unsigned;
  modulus_signed := uint_modulus_signed;
  min_signed a b := mret (wrap w (Z.min (sext w a) (sext w b))) |}.

(** [impl Comparable]. *)
Definition uint_compare (a b : Z) (p : Predicate) : bool :=
  match p with
  | Equal => a =? b
  | NotEqual => negb (a =? b)
  | LessThanSigned => sext w a <? sext w b
  | LessThanUnsigned => a <? b
  | LessThanOrEqualSigned => sext w a <=? sext w b
  | GreaterThanSigned => sext w b <? sext w a
  | GreaterThanOrEqualSigned => sext w b <=? sext w a
  | GreaterThanOrEqualUnsigned => b <=? a
  end.
Definition comparable_uint : Comparable I bool Z := fun a b p => mret (uint_compare a b p).
End Uint.

(** [mul_high]: through [u128]. *)
Definition mul_high_u128 (lhs rhs : Z) (t : MulHighType) : Z :=
  let '(lhs, rhs) :=
    match t with
    | MulSigned => (wrap 128 (sext 64 lhs), wrap 128 (sext 64 rhs))
    | MulUnsigned => (lhs, rhs)
    | MulSignedUnsigned => (wrap 128 (sext 64 lhs), rhs)
    end in
  let res := wrap 128 (lhs * rhs) in
  wrap 64 (Z.shiftr res 64).
