(* ===== verification/Integer.v ===== *)
(** * Integer instructions

    Models [src/riscv/lib/src/interpreter/integer.rs], over any instruction
    context. *)

From S2P Require Import Prelude.
From S2P Require Import Registers.
From S2P Require Import Instr.
From S2P Require Import Parser.
From S2P Require Import Icb.

Section Integer.
Context {I : Type} `{ICB I}.

Definition run_neg (rd rs1 : NonZeroXRegister) : M I unit :=
  rs1_val <- xregister_read_nz rs1 ;;
  res <- negate rs1_val ;;
  xregister_write_nz rd res.

Definition run_mv (rd_rs1 rs2 : NonZeroXRegister) : M I unit :=
  rs2_val <- xregister_read_nz rs2 ;;
  xregister_write_nz rd_rs1 rs2_val.

Definition run_nop : M I unit := mret tt.

Definition run_add (rs1 rs2 rd : NonZeroXRegister) : M I unit :=
  lhs <- xregister_read_nz rs1 ;;
  rhs <- xregister_read_nz rs2 ;;
  res <- add lhs rhs ;;
  xregister_write_nz rd res.

Definition run_add_word (rs1 rs2 : XRegister) (rd : NonZeroXRegister) : M I unit :=
  lhs <- xregister_read rs1 ;;
  rhs <- xregister_read rs2 ;;
  sum <- add lhs rhs ;;
  res <- narrow sum ;;
  res <- extend_signed res ;;
  xregister_write_nz rd res.

Definition run_sub (rs1 rs2 rd : NonZeroXRegister) : M I unit :=
  lhs <- xregister_read_nz rs1 ;;
  rhs <- xregister_read_nz rs2 ;;
  res <- sub lhs rhs ;;
  xregister_write_nz rd res.

Definition run_sub_word (rs1 rs2 : XRegister) (rd : NonZeroXRegister) : M I unit :=
  lhs <- xregister_read rs1 ;;
  rhs <- xregister_read rs2 ;;
  subtraction <- sub lhs rhs ;;
  res <- narrow subtraction ;;
  res <- extend_signed res ;;
  xregister_write_nz rd res.

Definition run_and (rs1 rs2 rd : NonZeroXRegister) : M I unit :=
  lhs <- xregister_read_nz rs1 ;;
  rhs <- xregister_read_nz rs2 ;;
  res <- and lhs rhs ;;
  xregister_write_nz rd res.

Definition run_or (rs1 rs2 rd : NonZeroXRegister) : M I unit :=
  lhs <- xregister_read_nz rs1 ;;
  rhs <- xregister_read_nz rs2 ;;
  res <- or lhs rhs ;;
  xregister_write_nz rd res.

Definition run_x64_or_immediate (imm : Z) (rs1 rd : NonZeroXRegister) : M I unit :=
  lhs <- xregister_read_nz rs1 ;;
  rhs <- xvalue_of_imm imm ;;
  res <- or lhs rhs ;;
  xregister_write_nz rd res.

Definition run_x64_xor (rs1 rs2 rd : NonZeroXRegister) : M I unit :=
  lhs <- xregister_read_nz rs1 ;;
  rhs <- xregister_read_nz rs2 ;;
  res <- xor lhs rhs ;;
  xregister_write_nz rd res.

Definition run_x64_xor_immediate (imm : Z) (rs1 rd : NonZeroXRegister) : M I unit :=
  lhs <- xregister_read_nz rs1 ;;
  rhs <- xvalue_of_imm imm ;;
  res <- xor lhs rhs ;;
  xregister_write_nz rd res.

Definition run_addi (imm : Z) (rs1 rd : NonZeroXRegister) : M I unit :=
  lhs <- xregister_read_nz rs1 ;;
  rhs <- xvalue_of_imm imm ;;
  res <- add lhs rhs ;;
  xregister_write_nz rd res.

Definition run_add_word_immediate (imm : Z) (rs1 : XRegister) (rd : NonZeroXRegister) : M I unit :=
  lhs <- xregister_read rs1 ;;
  rhs <- xvalue_of_imm imm ;;
  sum <- add lhs rhs ;;
  res <- narrow sum ;;
  res <- extend_signed res ;;
  xregister_write_nz rd res.

Definition run_andi (imm : Z) (rs1 rd : NonZeroXRegister) : M I unit :=
  lhs <- xregister_read_nz rs1 ;;
  rhs <- xvalue_of_imm imm ;;
  res <- and lhs rhs ;;
  xregister_write_nz rd res.

Definition run_set_less_than_immediate_signed (imm : Z) (rs1 : XRegister) (rd : NonZeroXRegister) : M I unit :=
  lhs <- xregister_read rs1 ;;
  rhs <- xvalue_of_imm imm ;;
  cmp <- compare lhs rhs LessThanSigned ;;
  res <- xvalue_from_bool cmp ;;
  xregister_write_nz rd res.

Definition run_set_less_than_immediate_unsigned (imm : Z) (rs1 : XRegister) (rd : NonZeroXRegister) : M I unit :=
  lhs <- xregister_read rs1 ;;
  rhs <- xvalue_of_imm imm ;;
  cmp <- compare lhs rhs LessThanUnsigned ;;
  res <- xvalue_from_bool cmp ;;
  xregister_write_nz rd res.

Definition run_set_less_than_signed (rs1 rs2 : XRegister) (rd : NonZeroXRegister) : M I unit :=
  lhs <- xregister_read rs1 ;;
  rhs <- xregister_read rs2 ;;
  cmp <- compare lhs rhs LessThanSigned ;;
  res <- xvalue_from_bool cmp ;;
  xregister_write_nz rd res.

Definition run_set_less_than_unsigned (rs1 rs2 : XRegister) (rd : NonZeroXRegister) : M I unit :=
  lhs <- xregister_read rs1 ;;
  rhs <- xregister_read rs2 ;;
  cmp <- compare lhs rhs LessThanUnsigned ;;
  res <- xvalue_from_bool cmp ;;
  xregister_write_nz rd res.

Definition run_mul (rs1 rs2 rd : NonZeroXRegister) : M I unit :=
  lhs <- xregister_read_nz rs1 ;;
  rhs <- xregister_read_nz rs2 ;;
  res <- mul lhs rhs ;;
  xregister_write_nz rd res.

Definition run_x32_mul (rs1 rs2 : XRegister) (rd : NonZeroXRegister) : M I unit :=
  lhs <- xregister_read rs1 ;;
  lhs <- narrow lhs ;;
  rhs <- xregister_read rs2 ;;
  rhs <- narrow rhs ;;
  res <- mul lhs rhs ;;
  res <- extend_signed res ;;
  xregister_write_nz rd res.

Definition run_x64_mul_high (rs1 rs2 rd : NonZeroXRegister) (mul_high_type : MulHighType)
  : M I unit :=
  lhs <- xregister_read_nz rs1 ;;
  rhs <- xregister_read_nz rs2 ;;
  res <- mul_high lhs rhs mul_high_type ;;
  xregister_write_nz rd res.

(** [i64::MIN] and [i32::MIN]. *)
Definition i64_MIN : Z := - 2 ^ 63.
Definition i32_MIN : Z := - 2 ^ 31.

Definition run_x64_div_signed (rs1 rs2 : XRegister) (rd : NonZeroXRegister) : M I unit :=
  rval1 <- xregister_read rs1 ;;
  rval2 <- xregister_read rs2 ;;
  zero <- xvalue_of_imm 0 ;;
  cond <- compare rval2 zero Equal ;;
  res <- branch_merge PhiXValue cond
    (xvalue_of_imm (-1))
    (minimum <- xvalue_of_imm i64_MIN ;;
     minus_one <- xvalue_of_imm (-1) ;;
     cond1 <- compare rval2 minus_one Equal ;;
     cond2 <- compare rval1 minimum Equal ;;
     cond <- bool_and cond1 cond2 ;;
     branch_merge PhiXValue cond (xvalue_of_imm i64_MIN) (div_signed rval1 rval2)) ;;
  xregister_write_nz rd res.

Definition run_x64_div_unsigned (rs1 rs2 : XRegister) (rd : NonZeroXRegister) : M I unit :=
  rval1 <- xregister_read rs1 ;;
  rval2 <- xregister_read rs2 ;;
  zero <- xvalue_of_imm 0 ;;
  cond <- compare rval2 zero Equal ;;
  res <- branch_merge PhiXValue cond
    (xvalue_of_imm (Z.lnot 0))
    (div_unsigned rval1 rval2) ;;
  xregister_write_nz rd res.

Definition run_x32_div_signed (rs1 rs2 : XRegister) (rd : NonZeroXRegister) : M I unit :=
  rval1 <- xregister_read rs1 ;;
  rval2 <- xregister_read rs2 ;;
  rval1 <- narrow rval1 ;;
  rval2 <- narrow rval2 ;;
  zero <- xvalue32_of_imm 0 ;;
  cond <- compare rval2 zero Equal ;;
  res <- branch_merge PhiXValue32 cond
    (xvalue32_of_imm (-1))
    (minimum <- xvalue32_of_imm i32_MIN ;;
     minus_one <- xvalue32_of_imm (-1) ;;
     cond1 <- compare rval2 minus_one Equal ;;
     cond2 <- compare rval1 minimum Equal ;;
     cond <- bool_and cond1 cond2 ;;
     branch_merge PhiXValue32 cond (xvalue32_of_imm i32_MIN) (div_signed rval1 rval2)) ;;
  res <- extend_signed res ;;
  xregister_write_nz rd res.

Definition run_x32_div_unsigned (rs1 rs2 : XRegister) (rd : NonZeroXRegister) : M I unit :=
  rval1 <- xregister_read rs1 ;;
  rval2 <- xregister_read rs2 ;;
  rval1 <- narrow rval1 ;;
  rval2 <- narrow rval2 ;;
  zero <- xvalue32_of_imm 0 ;;
  cond <- compare rval2 zero Equal ;;
  res <- branch_merge PhiXValue32 cond
    (xvalue32_of_imm (Z.lnot 0))
    (div_unsigned rval1 rval2) ;;
  res <- extend_signed res ;;
  xregister_write_nz rd res.

Definition run_shift (s : Shift) (rs1 rs2 rd : NonZeroXRegister) : M I unit :=
  bitmask <- xvalue_of_imm SHIFT_BITMASK ;;
  lhs <- xregister_read_nz rs2 ;;
  shift_amount <- and lhs bitmask ;;
  lhs <- xregister_read_nz rs1 ;;
  res <- shift lhs s shift_amount ;;
  xregister_write_nz rd res.

Definition run_shift_immediate (s : Shift) (imm : Z) (rs1 rd : NonZeroXRegister) : M I unit :=
  shift_amount <- xvalue_of_imm imm ;;
  lhs <- xregister_read_nz rs1 ;;
  res <- shift lhs s shift_amount ;;
  xregister_write_nz rd res.

Definition run_x32_shift (s : Shift) (rs1 rs2 : XRegister) (rd : NonZeroXRegister) : M I unit :=
  lhs <- xregister_read rs1 ;;
  shift_amount <- xregister_read rs2 ;;
  mask <- xvalue_of_imm 0x1F ;;
  shift_amount <- and shift_amount mask ;;
  shift_amount <- narrow shift_amount ;;
  lhs <- narrow lhs ;;
  res <- shift lhs s shift_amount ;;
  res <- extend_signed res ;;
  xregister_write_nz rd res.

Definition run_x32_shift_immediate (s : Shift) (rs1 : NonZeroXRegister) (imm : Z)
    (rd : NonZeroXRegister) : M I unit :=
  lhs <- xregister_read_nz rs1 ;;
  shift_amount <- xvalue_of_imm imm ;;
  mask <- xvalue_of_imm 0x1F ;;
  shift_amount <- and shift_amount mask ;;
  shift_amount <- narrow shift_amount ;;
  lhs <- narrow lhs ;;
  res <- shift lhs s shift_amount ;;
  res <- extend_signed res ;;
  xregister_write_nz rd res.

Definition run_x64_rem_signed (rs1 rs2 : XRegister) (rd : NonZeroXRegister) : M I unit :=
  rval1 <- xregister_read rs1 ;;
  rval2 <- xregister_read rs2 ;;
  zero <- xvalue_of_imm 0 ;;
  cond <- compare rval2 zero Equal ;;
  res <- branch_merge PhiXValue cond
    (mret rval1)
    (minimum <- xvalue_of_imm i64_MIN ;;
     minus_one <- xvalue_of_imm (-1) ;;
     cond1 <- compare rval2 minus_one Equal ;;
     cond2 <- compare rval1 minimum Equal ;;
     cond <- bool_and cond1 cond2 ;;
     branch_merge PhiXValue cond (mret zero) (modulus_signed rval1 rval2)) ;;
  xregister_write_nz rd res.

Definition run_x64_rem_unsigned (rs1 rs2 : XRegister) (rd : NonZeroXRegister) : M I unit :=
  rval1 <- xregister_read rs1 ;;
  rval2 <- xregister_read rs2 ;;
  zero <- xvalue_of_imm 0 ;;
  cond <- compare rval2 zero Equal ;;
  res <- branch_merge PhiXValue cond (mret rval1) (modulus_unsigned rval1 rval2) ;;
  xregister_write_nz rd res.

Definition run_x32_rem_signed (rs1 rs2 : XRegister) (rd : NonZeroXRegister) : M I unit :=
  rval1 <- xregister_read rs1 ;;
  rval2 <- xregister_read rs2 ;;
  rval1 <- narrow rval1 ;;
  rval2 <- narrow rval2 ;;
  zero <- xvalue32_of_imm 0 ;;
  cond <- compare rval2 zero Equal ;;
  res <- branch_merge PhiXValue32 cond
    (mret rval1)
    (minimum <- xvalue32_of_imm i32_MIN ;;
     minus_one <- xvalue32_of_imm (-1) ;;
     cond1 <- compare rval2 minus_one Equal ;;
     cond2 <- compare rval1 minimum Equal ;;
     cond <- bool_and cond1 cond2 ;;
     branch_merge PhiXValue32 cond (mret zero) (modulus_signed rval1 rval2)) ;;
  res <- extend_signed res ;;
  xregister_write_nz rd res.

Definition run_x32_rem_unsigned (rs1 rs2 : XRegister) (rd : NonZeroXRegister) : M I unit :=
  rval1 <- xregister_read rs1 ;;
  rval2 <- xregister_read rs2 ;;
  rval1 <- narrow rval1 ;;
  rval2 <- narrow rval2 ;;
  zero <- xvalue32_of_imm 0 ;;
  cond <- compare rval2 zero Equal ;;
  res <- branch_merge PhiXValue32 cond (mret rval1) (modulus_unsigned rval1 rval2) ;;
  res <- extend_signed res ;;
  xregister_write_nz rd res.
End Integer.
