(* ===== verification/Interpreter.v ===== *)
(** * Jumps, branches, memory and atomic instructions

    Models [src/riscv/lib/src/interpreter/branching.rs], [load_store.rs] and the generic
    part of [atomics.rs], over any instruction context.  A jump returns its target; the
    caller updates the program counter.  The generic atomic instructions are
    load-reserved, store-conditional, swap and the 64-bit read-modify-write operations. *)

From S2P Require Import Prelude.
From S2P Require Import Registers.
From S2P Require Import Instr.
From S2P Require Import Icb.

Section Branching.
Context {I : Type} `{ICB I}.

Definition run_j (imm : Z) : M I XValue :=
  imm <- xvalue_of_imm imm ;;
  current_pc <- pc_read ;;
  add current_pc imm.

Definition run_jr (rs1 : NonZeroXRegister) : M I XValue :=
  lhs <- xregister_read_nz rs1 ;;
  rhs <- xvalue_of_imm (Z.lnot 1) ;;
  and lhs rhs.

Definition run_jr_imm (imm : Z) (rs1 : NonZeroXRegister) : M I XValue :=
  lhs <- xregister_read_nz rs1 ;;
  rhs <- xvalue_of_imm imm ;;
  lhs <- add lhs rhs ;;
  rhs <- xvalue_of_imm (Z.lnot 1) ;;
  and lhs rhs.

Definition run_j_absolute (imm : Z) : M I XValue :=
  imm <- xvalue_of_imm imm ;;
  mask <- xvalue_of_imm (Z.lnot 1) ;;
  and imm mask.

Definition run_jal (imm : Z) (rd : NonZeroXRegister) (width : InstrWidth) : M I XValue :=
  current_pc <- pc_read ;;
  width <- xvalue_of_imm (width_bytes width) ;;
  return_address <- add current_pc width ;;
  imm <- xvalue_of_imm imm ;;
  target_address <- add current_pc imm ;;
  xregister_write_nz rd return_address ;;;
  mret target_address.

Definition run_jalr (rd rs1 : NonZeroXRegister) (width : InstrWidth) : M I XValue :=
  current_pc <- pc_read ;;
  width <- xvalue_of_imm (width_bytes width) ;;
  return_address <- add current_pc width ;;
  target_address <- xregister_read_nz rs1 ;;
  mask <- xvalue_of_imm (Z.lnot 1) ;;
  target_address <- and target_address mask ;;
  xregister_write_nz rd return_address ;;;
  mret target_address.

Definition run_jalr_imm (imm : Z) (rs1 rd : NonZeroXRegister) (width : InstrWidth) : M I XValue :=
  current_pc <- pc_read ;;
  width <- xvalue_of_imm (width_bytes width) ;;
  return_address <- add current_pc width ;;
  target_address <- xregister_read_nz rs1 ;;
  imm <- xvalue_of_imm imm ;;
  target_address <- add target_address imm ;;
  mask <- xvalue_of_imm (Z.lnot 1) ;;
  target_address <- and target_address mask ;;
  xregister_write_nz rd return_address ;;;
  mret target_address.

Definition run_jalr_absolute (imm : Z) (rd : NonZeroXRegister) (width : InstrWidth) : M I XValue :=
  current_pc <- pc_read ;;
  width <- xvalue_of_imm (width_bytes width) ;;
  return_address <- add current_pc width ;;
  target_address <- xvalue_of_imm imm ;;
  mask <- xvalue_of_imm (Z.lnot 1) ;;
  target_address <- and target_address mask ;;
  xregister_write_nz rd return_address ;;;
  mret target_address.

Definition run_add_immediate_to_pc (imm : Z) (rd : NonZeroXRegister) : M I unit :=
  lhs <- pc_read ;;
  rhs <- xvalue_of_imm imm ;;
  lhs <- add lhs rhs ;;
  xregister_write_nz rd lhs.

Definition run_branch (predicate : Predicate) (imm : Z) (rs1 rs2 : NonZeroXRegister)
    (width : InstrWidth) : M I (ProgramCounterUpdate XValue) :=
  lhs <- xregister_read_nz rs1 ;;
  rhs <- xregister_read_nz rs2 ;;
  cond <- compare lhs rhs predicate ;;
  branch cond imm width.

Definition run_branch_compare_zero (predicate : Predicate) (imm : Z) (rs1 : NonZeroXRegister)
    (width : InstrWidth) : M I (ProgramCounterUpdate XValue) :=
  lhs <- xregister_read_nz rs1 ;;
  rhs <- xvalue_of_imm 0 ;;
  cond <- compare lhs rhs predicate ;;
  branch cond imm width.

End Branching.

Section LoadStore.
Context {I : Type} `{ICB I}.

Definition run_li (imm : Z) (rd_rs1 : NonZeroXRegister) : M I unit :=
  imm <- xvalue_of_imm imm ;;
  xregister_write_nz rd_rs1 imm.

Definition run_store (V : StoreLoadInt) (imm : Z) (rs1 rs2 : XRegister) : M I (IResult unit) :=
  base_address <- xregister_read rs1 ;;
  offset <- xvalue_of_imm imm ;;
  address <- add base_address offset ;;
  value <- xregister_read rs2 ;;
  main_memory_store V address value.

Definition run_load (V : StoreLoadInt) (imm : Z) (rs1 rd : XRegister) : M I (IResult unit) :=
  base_address <- xregister_read rs1 ;;
  offset <- xvalue_of_imm imm ;;
  address <- add base_address offset ;;
  value <- main_memory_load V address ;;
  and_then value (fun value =>
    xregister_write rd value ;;;
    ok tt).

End LoadStore.

Definition SC_SUCCESS : Z := 0.
Definition SC_FAILURE : Z := 1.

Section Atomics.
Context {I : Type} `{ICB I}.

(** [UNSET_VALUE as i64] and [RES_SET_BITMASK as i64]. *)
Definition reset_reservation_set : M I unit :=
  unset <- xvalue_of_imm (sext 64 UNSET_VALUE) ;;
  reservation_set_write unset.

Definition reservation_set_align_address (address : XValue) : M I XValue :=
  bitmask <- xvalue_of_imm (sext 64 RES_SET_BITMASK) ;;
  and address bitmask.

Definition test_and_unset_reservation_set (address : XValue) : M I Bool :=
  start_addr <- reservation_set_read ;;
  reset_reservation_set ;;;
  unset_value <- xvalue_of_imm (sext 64 UNSET_VALUE) ;;
  is_set <- compare start_addr unset_value NotEqual ;;
  aligned_address <- reservation_set_align_address address ;;
  in_reservation_set <- compare aligned_address start_addr Equal ;;
  bool_and is_set in_reservation_set.

Definition run_x64_atomic (rs1 rs2 rd : XRegister) (f : XValue -> XValue -> M I XValue)
  : M I (IResult unit) :=
  address_rs1 <- xregister_read rs1 ;;
  res <- atomic_access_fault_guard u64 address_rs1 NoReset ;;
  val_rs1_result <- and_then res (fun _ => main_memory_load u64 address_rs1) ;;
  and_then val_rs1_result (fun val_rs1 =>
    val_rs2 <- xregister_read rs2 ;;
    res <- f val_rs1 val_rs2 ;;
    xregister_write rd val_rs1 ;;;
    main_memory_store u64 address_rs1 res).

Definition run_x64_atomic_add (rs1 rs2 rd : XRegister) (_aq _rl : bool) : M I (IResult unit) :=
  run_x64_atomic rs1 rs2 rd (fun x y => add x y).

Definition run_x64_atomic_min_signed (rs1 rs2 rd : XRegister) (_aq _rl : bool)
  : M I (IResult unit) :=
  run_x64_atomic rs1 rs2 rd (fun x y => min_signed x y).

Definition run_atomic_load (V : StoreLoadInt) (rs1 rd : XRegister) : M I (IResult unit) :=
  address_rs1 <- xregister_read rs1 ;;
  res <- atomic_access_fault_guard V address_rs1 NoReset ;;
  val_rs1_result <- and_then res (fun _ => main_memory_load V address_rs1) ;;
  and_then val_rs1_result (fun val_rs1 =>
    aligned_address_rs1 <- reservation_set_align_address address_rs1 ;;
    reservation_set_write aligned_address_rs1 ;;;
    xregister_write rd val_rs1 ;;;
    ok tt).

Definition run_atomic_store (V : StoreLoadInt) (rs1 rs2 rd : XRegister) : M I (IResult unit) :=
  address_rs1 <- xregister_read rs1 ;;
  res <- atomic_access_fault_guard V address_rs1 Reset ;;
  and_then res (fun _ =>
    cond <- test_and_unset_reservation_set address_rs1 ;;
    branch_merge PhiResult cond
      (value_rs2 <- xregister_read rs2 ;;
       sc_success_imm <- xvalue_of_imm SC_SUCCESS ;;
       xregister_write rd sc_success_imm ;;;
       main_memory_store V address_rs1 value_rs2)
      (sc_failure_imm <- xvalue_of_imm SC_FAILURE ;;
       xregister_write rd sc_failure_imm ;;;
       ok tt)).

Definition run_atomic_swap (V : StoreLoadInt) (rs1 rs2 rd : XRegister) : M I (IResult unit) :=
  address_rs1 <- xregister_read rs1 ;;
  res <- atomic_access_fault_guard V address_rs1 NoReset ;;
  val_rs1_result <- and_then res (fun _ => main_memory_load V address_rs1) ;;
  and_then val_rs1_result (fun val_rs1 =>
    val_rs2 <- xregister_read rs2 ;;
    xregister_write rd val_rs1 ;;;
    main_memory_store V address_rs1 val_rs2).

Definition run_x32_atomic_swap (rs1 rs2 rd : XRegister) (_rl _aq : bool) : M I (IResult unit) :=
  run_atomic_swap i32 rs1 rs2 rd.
Definition run_x64_atomic_swap (rs1 rs2 rd : XRegister) (_rl _aq : bool) : M I (IResult unit) :=
  run_atomic_swap i64 rs1 rs2 rd.
Definition run_x32_atomic_load (rs1 _rs2 rd : XRegister) (_rl _aq : bool) : M I (IResult unit) :=
  run_atomic_load i32 rs1 rd.
Definition run_x64_atomic_load (rs1 _rs2 rd : XRegister) (_rl _aq : bool) : M I (IResult unit) :=
  run_atomic_load i64 rs1 rd.
Definition run_x32_atomic_store (rs1 rs2 rd : XRegister) (_rl _aq : bool) : M I (IResult unit) :=
  run_atomic_store i32 rs1 rs2 rd.
Definition run_x64_atomic_store (rs1 rs2 rd : XRegister) (_rl _aq : bool) : M I (IResult unit) :=
  run_atomic_store i64 rs1 rs2 rd.

End Atomics.
