(* ===== verification/Buddy.v ===== *)
(** * The page allocator

    Models [src/riscv/lib/src/machine_state/memory/buddy.rs] and its parts: the
    interface [Buddy], the leaf of up to 64 pages ([buddy/leaf.rs]), the branch
    over two buddies ([buddy/branch.rs]), the larger branches made of it
    ([buddy/branch_combinations.rs]) and the tree for each number of pages
    ([buddy/proxy.rs]).  The cells of the state are fields; hashing and
    serialisation belong to the state backend. *)

From S2P Require Import Prelude.
From S2P Require Import Bits.

(** The trait [Buddy], by page indices.  Methods on [&self] that may panic give an
    option. *)
Class Buddy (B : Type) : Type := {
  buddy_PAGES : Z;
  buddy_new : B;
  buddy_allocate : Z -> M B (option Z);
  buddy_allocate_fixed : Z -> Z -> bool -> M B (option unit);
  buddy_deallocate : Z -> Z -> M B unit;
  longest_free_sequence : B -> option Z;
  count_free_start : B -> option Z;
  count_free_end : B -> option Z }.

(** [self.field.op()], for an operation on a part of the state. *)
Definition on_part {S P A} (get : S -> P) (put : P -> S -> S) (f : M P A) : M S A :=
  fun s => match f (get s) with Some (a, p) => Some (a, put p s) | None => None end.

(** [u64::trailing_zeros] and [u64::leading_zeros]: zeros from bit [i] up, and from
    bit [n - 1] down. *)
Fixpoint zeros_up (n : nat) (i v : Z) : Z :=
  match n with O => 0 | S n => if Z.testbit v i then 0 else 1 + zeros_up n (i + 1) v end.
Fixpoint zeros_down (n : nat) (v : Z) : Z :=
  match n with O => 0 | S n => if Z.testbit v (Z.of_nat n) then 0 else 1 + zeros_down n v end.
Definition trailing_zeros (v : Z) : Z := zeros_up 64 0 v.
Definition leading_zeros (v : Z) : Z := zeros_down 64 v.

(** ** Leaves *)
Record BuddyLeaf (PAGES : Z) : Type := mkLeaf { set : Z }.
Arguments mkLeaf {PAGES} set.
Arguments set {PAGES} _.

Section Leaf.
Context {PAGES : Z}.
Notation Leaf := (BuddyLeaf PAGES).

Definition leaf_new : Leaf := mkLeaf 0.
Definition set_write (v : Z) : M Leaf unit := mput (fun _ => mkLeaf v).
Definition page_mask (start pages : Z) : Z := shl 64 (ones pages) start.

(** The loop of [allocate], over the starts left. *)
Fixpoint leaf_find (starts : list Z) (pages set : Z) : M Leaf (option Z) :=
  match starts with
  | [] => mret None
  | start :: starts =>
      let mask := page_mask start pages in
      if Z.land set mask =? 0 then set_write (Z.lor set mask) ;;; mret (Some start)
      else leaf_find starts pages set
  end.

Definition leaf_allocate (pages : Z) : M Leaf (option Z) :=
  if (pages =? 0) || (PAGES <? pages) then mret None
  else
    set <- mget set ;;
    leaf_find (seqZ 0 (PAGES - pages + 1)) pages set.

Definition leaf_allocate_fixed (idx pages : Z) (replace : bool) : M Leaf (option unit) :=
  if (pages =? 0) || (saturating_sub PAGES idx <? pages) then mret None
  else if (idx =? 0) && (pages =? PAGES) && replace then
    set_write (unot 64 0) ;;; mret (Some tt)
  else
    let mask := page_mask idx pages in
    set <- mget set ;;
    if negb replace && negb (Z.land set mask =? 0) then mret None
    else set_write (Z.lor set mask) ;;; mret (Some tt).

Definition leaf_deallocate (idx pages : Z) : M Leaf unit :=
  if (pages =? 0) || (saturating_sub PAGES idx <? pages) then mret tt
  else if (idx =? 0) && (pages =? PAGES) then set_write 0
  else
    let mask := page_mask idx pages in
    set <- mget set ;;
    set_write (Z.land set (unot 64 mask)).

Definition leaf_longest_free_sequence (self : Leaf) : Z :=
  if set self =? 0 then PAGES
  else
    foldl (fun longest_seq shift =>
             let free_max_pages := PAGES - shift in
             let free_end := trailing_zeros (shr 64 (set self) shift) in
             Z.max (Z.min free_end free_max_pages) longest_seq) 0 (seqZ 0 PAGES).

Definition leaf_count_free_start (self : Leaf) : Z := Z.min PAGES (trailing_zeros (set self)).

Definition leaf_count_free_end (self : Leaf) : option Z :=
  if 64 <? PAGES then None
  else
    let leading_unused_bits := 64 - PAGES in
    Some (saturating_sub (leading_zeros (set self)) leading_unused_bits).

#[export] Instance leaf_buddy : Buddy Leaf := {|
  buddy_PAGES := PAGES;
  buddy_new := leaf_new;
  buddy_allocate := leaf_allocate;
  buddy_allocate_fixed := leaf_allocate_fixed;
  buddy_deallocate := leaf_deallocate;
  longest_free_sequence self := Some (leaf_longest_free_sequence self);
  count_free_start self := Some (leaf_count_free_start self);
  count_free_end := leaf_count_free_end |}.
End Leaf.

(** ** Branches *)
Record FreeInfo : Type := mkFreeInfo {
  left_longest_free_sequence : Z; left_free_start : Z; left_free_end : Z;
  right_longest_free_sequence : Z; right_free_start : Z; right_free_end : Z }.

Record BuddyBranch2 (B : Type) : Type := mkBranch {
  free_info : FreeInfo; left_buddy : B; right_buddy : B }.
Arguments mkBranch {B}.
Arguments free_info {B}.
Arguments left_buddy {B}.
Arguments right_buddy {B}.

Section Branch.
Context {B : Type} `{Buddy B}.
Notation Branch := (BuddyBranch2 B).
#[local] Notation PAGES := (buddy_PAGES (B := B)).

Definition on_left {A} : M B A -> M Branch A :=
  on_part left_buddy (fun b s => mkBranch (free_info s) b (right_buddy s)).
Definition on_right {A} : M B A -> M Branch A :=
  on_part right_buddy (fun b s => mkBranch (free_info s) (left_buddy s) b).
Definition read_left (f : B -> option Z) : M Branch Z := fun s => mlift (f (left_buddy s)) s.
Definition read_right (f : B -> option Z) : M Branch Z := fun s => mlift (f (right_buddy s)) s.

Definition refresh : M Branch unit :=
  l1 <- read_left longest_free_sequence ;;
  l2 <- read_left count_free_start ;;
  l3 <- read_left count_free_end ;;
  r1 <- read_right longest_free_sequence ;;
  r2 <- read_right count_free_start ;;
  r3 <- read_right count_free_end ;;
  mput (fun s => mkBranch (mkFreeInfo l1 l2 l3 r1 r2 r3) (left_buddy s) (right_buddy s)).

Definition branch_new : Branch :=
  mkBranch (mkFreeInfo PAGES PAGES PAGES PAGES PAGES PAGES) buddy_new buddy_new.

Definition branch_PAGES : Z := PAGES * 2.

Definition branch_allocate (pages : Z) : M Branch (option Z) :=
  if negb ((1 <=? pages) && (pages <=? branch_PAGES)) then mret None
  else
    info <- mget free_info ;;
    if pages <=? left_longest_free_sequence info then
      r <- on_left (buddy_allocate pages) ;;
      match r with
      | None => mret None
      | Some idx => refresh ;;; mret (Some idx)
      end
    else
      let left_free_end := left_free_end info in
      let right_free_start := right_free_start info in
      let overlap := saturating_add left_free_end right_free_start in
      if (pages <=? overlap) && (0 <? left_free_end) then
        if PAGES <? left_free_end then mret None
        else
          let idx := PAGES - left_free_end in
          l <- on_left (buddy_allocate_fixed idx left_free_end true) ;;
          match l with
          | None => mret None
          | Some _ =>
              let right_pages := saturating_sub pages left_free_end in
              r <- (if 0 <? right_pages
                    then on_right (buddy_allocate_fixed 0 right_pages true)
                    else mret (Some tt)) ;;
              match r with
              | None => on_left (buddy_deallocate idx left_free_end) ;;; mret None
              | Some _ => refresh ;;; mret (Some idx)
              end
          end
      else if pages <=? right_longest_free_sequence info then
        r <- on_right (buddy_allocate pages) ;;
        match r with
        | None => mret None
        | Some idx => refresh ;;; mret (Some (wrap 64 (idx + PAGES)))
        end
      else mret None.

Definition branch_allocate_fixed (idx pages : Z) (replace : bool) : M Branch (option unit) :=
  if (pages =? 0) || (saturating_sub branch_PAGES idx <? pages) then mret None
  else
    let left_pages := Z.min (saturating_sub PAGES idx) pages in
    let right_pages := saturating_sub pages left_pages in
    l <- (if 0 <? left_pages then on_left (buddy_allocate_fixed idx left_pages replace)
          else mret (Some tt)) ;;
    match l with
    | None => mret None
    | Some _ =>
        right_res <- (if 0 <? right_pages then
                        let right_idx := saturating_sub idx PAGES in
                        on_right (buddy_allocate_fixed right_idx right_pages replace)
                      else mret (Some tt)) ;;
        match right_res with
        | None =>
            (if 0 <? left_pages then on_left (buddy_deallocate idx left_pages) else mret tt) ;;;
            mret None
        | Some _ => refresh ;;; mret (Some tt)
        end
    end.

Definition branch_deallocate (idx pages : Z) : M Branch unit :=
  (if PAGES <=? idx then on_right (buddy_deallocate (idx - PAGES) pages)
   else
     let end_ := saturating_add pages idx in
     pages <- (if PAGES <? end_ then
                 let overhang := saturating_sub end_ PAGES in
                 on_right (buddy_deallocate 0 overhang) ;;;
                 mret (saturating_sub pages overhang)
               else mret pages) ;;
     on_left (buddy_deallocate idx pages)) ;;;
  refresh.

Definition branch_longest_free_sequence (self : Branch) : Z :=
  let info := free_info self in
  Z.max (Z.max (saturating_add (left_free_end info) (right_free_start info))
           (left_longest_free_sequence info)) (right_longest_free_sequence info).

Definition branch_count_free_start (self : Branch) : Z :=
  let free_start := left_free_start (free_info self) in
  if free_start <? PAGES then free_start
  else saturating_add (right_free_start (free_info self)) PAGES.

Definition branch_count_free_end (self : Branch) : Z :=
  let free_end := right_free_end (free_info self) in
  if free_end <? PAGES then free_end
  else saturating_add (left_free_end (free_info self)) PAGES.

#[export] Instance branch_buddy : Buddy Branch := {|
  buddy_PAGES := branch_PAGES;
  buddy_new := branch_new;
  buddy_allocate := branch_allocate;
  buddy_allocate_fixed := branch_allocate_fixed;
  buddy_deallocate := branch_deallocate;
  longest_free_sequence self := Some (branch_longest_free_sequence self);
  count_free_start self := Some (branch_count_free_start self);
  count_free_end self := Some (branch_count_free_end self) |}.
End Branch.

(** ** Larger branches: their operations are those of the nested branches *)
Definition BuddyBranch4 (B : Type) : Type := BuddyBranch2 (BuddyBranch2 B).
Definition BuddyBranch8 (B : Type) : Type := BuddyBranch4 (BuddyBranch2 B).
Definition BuddyBranch16 (B : Type) : Type := BuddyBranch4 (BuddyBranch4 B).
Definition BuddyBranch32 (B : Type) : Type := BuddyBranch4 (BuddyBranch8 B).
Definition BuddyBranch256 (B : Type) : Type := BuddyBranch16 (BuddyBranch16 B).
Definition BuddyBranch1Ki (B : Type) : Type := BuddyBranch32 (BuddyBranch32 B).
#[export] Hint Unfold BuddyBranch4 BuddyBranch8 BuddyBranch16 BuddyBranch32 BuddyBranch256
  BuddyBranch1Ki : typeclass_instances.

(** ** The tree for a number of pages: [BuddyLayoutProxy]

    The numbers of pages that [BuddyLayoutMatch] has an implementation for. *)
Inductive BuddyLayoutMatch : Type :=
| Pages1 | Pages2 | Pages64 | Pages256 | Pages1Ki | Pages16Ki | Pages256Ki | Pages1Mi.

Definition layout_pages (l : BuddyLayoutMatch) : Z :=
  match l with
  | Pages1 => 1 | Pages2 => 2 | Pages64 => 64 | Pages256 => 256 | Pages1Ki => 1024
  | Pages16Ki => 16 * 1024 | Pages256Ki => 256 * 1024 | Pages1Mi => 1024 * 1024
  end.

Definition Proxy256 : Type := BuddyBranch4 (BuddyLeaf 64).
Definition Proxy1Ki : Type := BuddyBranch4 Proxy256.
Definition PickLayout (l : BuddyLayoutMatch) : Type :=
  match l with
  | Pages1 => BuddyLeaf 1
  | Pages2 => BuddyLeaf 2
  | Pages64 => BuddyLeaf 64
  | Pages256 => Proxy256
  | Pages1Ki => Proxy1Ki
  | Pages16Ki => BuddyBranch16 Proxy1Ki
  | Pages256Ki => BuddyBranch256 Proxy1Ki
  | Pages1Mi => BuddyBranch1Ki Proxy1Ki
  end.

#[export] Instance branch4_buddy {B} `{Buddy B} : Buddy (BuddyBranch4 B) := branch_buddy.
#[export] Instance branch8_buddy {B} `{Buddy B} : Buddy (BuddyBranch8 B) := branch4_buddy.
#[export] Instance branch16_buddy {B} `{Buddy B} : Buddy (BuddyBranch16 B) := branch4_buddy.
#[export] Instance branch32_buddy {B} `{Buddy B} : Buddy (BuddyBranch32 B) := branch4_buddy.
#[export] Instance branch256_buddy {B} `{Buddy B} : Buddy (BuddyBranch256 B) := branch16_buddy.
#[export] Instance branch1Ki_buddy {B} `{Buddy B} : Buddy (BuddyBranch1Ki B) := branch32_buddy.
#[export] Instance proxy256_buddy : Buddy Proxy256 := branch4_buddy.
#[export] Instance proxy1Ki_buddy : Buddy Proxy1Ki := branch4_buddy.
#[export] Instance layout_buddy (l : BuddyLayoutMatch) : Buddy (PickLayout l) :=
  match l with
  | Pages1 => leaf_buddy | Pages2 => leaf_buddy | Pages64 => leaf_buddy
  | Pages256 => proxy256_buddy | Pages1Ki => proxy1Ki_buddy | Pages16Ki => branch16_buddy
  | Pages256Ki => branch256_buddy | Pages1Mi => branch1Ki_buddy
  end.

(** Every tree manages as many pages as its layout says. *)
Lemma layout_buddy_pages l : buddy_PAGES (B := PickLayout l) = layout_pages l.
Proof. destruct l; reflexivity. Qed.
