(* ===== verification/BuddySpec.v ===== *)
(** * The page allocator: specification and its implementations

    What an allocator of pages promises, by the set of its occupied pages
    ([BuddyLaws], and [BuddyEndLaws] for the count that only branches need): an
    allocation takes the first run of free pages that is long enough, and the
    counts are the lengths of the runs they name.  The leaf and the branch satisfy
    it, so every tree built of them does. *)

From stdpp Require Import sets.
From S2P Require Import Prelude.
From S2P Require Import Bits.
From S2P Require Import Buddy.

(** ** Runs of free pages *)

(** [n] pages from page [i] on are managed and free. *)
Definition fits (N : Z) (occ : Z -> bool) (i n : Z) : Prop :=
  0 <= i /\ 0 <= n /\ i + n <= N /\ forall j, i <= j < i + n -> occ j = false.

(** The pages [i] to [i + n - 1] become occupied, or free. *)
Definition mark (occ : Z -> bool) (i n : Z) (v : bool) : Z -> bool :=
  fun j => if (i <=? j) && (j <? i + n) then v else occ j.

(** Equality of occupations, on the pages managed. *)
Definition same (N : Z) (occ occ' : Z -> bool) : Prop := forall j, 0 <= j < N -> occ j = occ' j.

#[export] Instance same_equivalence N : Equivalence (same N).
Proof.
  split; [intros o j _; reflexivity | intros o o' E j Hj; symmetry; apply E, Hj |].
  intros o o' o'' E E' j Hj. rewrite E by assumption. apply E', Hj.
Qed.
#[export] Instance fits_proper N : Proper (same N ==> eq ==> eq ==> iff) (fits N).
Proof.
  intros o o' E i ? <- n ? <-. unfold fits.
  split; intros (H0 & H1 & H2 & Hf); (split_and!; [assumption..|]); intros j Hj.
  - rewrite <- E by lia. apply Hf, Hj.
  - rewrite E by lia. apply Hf, Hj.
Qed.
#[export] Instance mark_proper N : Proper (same N ==> eq ==> eq ==> eq ==> same N) mark.
Proof. intros o o' E i ? <- n ? <- v ? <- j Hj. unfold mark. destruct (_ && _); [reflexivity | apply E, Hj]. Qed.

(** The start of the first run that is long enough. *)
Definition first_fit (N : Z) (occ : Z -> bool) (n i : Z) : Prop :=
  fits N occ i n /\ forall k, fits N occ k n -> i <= k.
Definition longest_run (N : Z) (occ : Z -> bool) (l : Z) : Prop :=
  (exists i, fits N occ i l) /\ forall i n, fits N occ i n -> n <= l.
Definition start_run (N : Z) (occ : Z -> bool) (l : Z) : Prop :=
  fits N occ 0 l /\ forall n, fits N occ 0 n -> n <= l.
Definition end_run (N : Z) (occ : Z -> bool) (l : Z) : Prop :=
  fits N occ (N - l) l /\ forall n, fits N occ (N - n) n -> n <= l.

(** ** The contract *)
Class BuddyLaws (B : Type) `{Buddy B} : Type := {
  buddy_wf : B -> Prop;
  occupied : B -> Z -> bool;
  pages_range : 1 <= buddy_PAGES (B := B) <= 2 ^ 32;
  new_wf : buddy_wf buddy_new;
  new_free : same (buddy_PAGES (B := B)) (occupied buddy_new) (fun _ => false);
  longest_law b : buddy_wf b ->
    exists l, longest_free_sequence b = Some l /\ longest_run (buddy_PAGES (B := B)) (occupied b) l;
  start_law b : buddy_wf b ->
    exists l, count_free_start b = Some l /\ start_run (buddy_PAGES (B := B)) (occupied b) l;
  allocate_law b n : buddy_wf b -> 0 <= n ->
    exists r b', buddy_allocate n b = Some (r, b') /\ buddy_wf b' /\
      match r with
      | Some i => 1 <= n /\ first_fit (buddy_PAGES (B := B)) (occupied b) n i /\
          same (buddy_PAGES (B := B)) (occupied b') (mark (occupied b) i n true)
      | None => (1 <= n -> forall i, ~ fits (buddy_PAGES (B := B)) (occupied b) i n) /\
          same (buddy_PAGES (B := B)) (occupied b') (occupied b)
      end;
  allocate_fixed_law b i n replace : buddy_wf b -> 0 <= i -> 0 <= n ->
    exists r b', buddy_allocate_fixed i n replace b = Some (r, b') /\ buddy_wf b' /\
      match r with
      | Some _ => 1 <= n /\ i + n <= buddy_PAGES (B := B) /\
          (replace = true \/ fits (buddy_PAGES (B := B)) (occupied b) i n) /\
          same (buddy_PAGES (B := B)) (occupied b') (mark (occupied b) i n true)
      | None => ~ (1 <= n /\ i + n <= buddy_PAGES (B := B) /\
            (replace = true \/ fits (buddy_PAGES (B := B)) (occupied b) i n)) /\
          same (buddy_PAGES (B := B)) (occupied b') (occupied b)
      end;
  deallocate_law b i n : buddy_wf b -> 0 <= i -> 0 <= n -> i + n <= buddy_PAGES (B := B) ->
    exists b', buddy_deallocate i n b = Some (tt, b') /\ buddy_wf b' /\
      same (buddy_PAGES (B := B)) (occupied b') (mark (occupied b) i n false) }.

Class BuddyEndLaws (B : Type) `{BuddyLaws B} : Prop :=
  end_law b : buddy_wf b ->
    exists l, count_free_end b = Some l /\ end_run (buddy_PAGES (B := B)) (occupied b) l.

(** ** Facts on runs *)
Section Runs.
Context {N : Z}.
Implicit Types (occ : Z -> bool).

Lemma fits_sub occ i n k m : fits N occ i n -> i <= k -> 0 <= m -> k + m <= i + n -> fits N occ k m.
Proof. intros (H0 & H1 & H2 & Hf) Hk Hm Hkm. split_and!; [lia..|]. intros j Hj. apply Hf. lia. Qed.

Lemma mark_free occ i n : same N (mark (mark occ i n true) i n false) (mark occ i n false).
Proof. intros j _. unfold mark. destruct (_ && _); reflexivity. Qed.
Lemma mark_restore occ i n : fits N occ i n -> same N (mark (mark occ i n true) i n false) occ.
Proof.
  intros (_ & _ & _ & Hf) j _. unfold mark. destruct (Z.leb_spec i j), (Z.ltb_spec j (i + n)); cbn; try reflexivity.
  symmetry. apply Hf. lia.
Qed.
Lemma mark_empty occ i v : same N (mark occ i 0 v) occ.
Proof. intros j _. unfold mark. destruct (Z.leb_spec i j), (Z.ltb_spec j (i + 0)); cbn; (reflexivity || lia). Qed.
End Runs.

(** ** Leaves *)
Lemma ones_spec n : 1 <= n <= 64 -> ones n = Z.ones n.
Proof.
  intros Hn. unfold ones. destruct (Z.eqb_spec n 0); [lia|]. rewrite shr_small by lia.
  change (2 ^ 64 - 1) with (Z.ones 64). replace (Z.max 0 (64 - n)) with (64 - n) by lia. bitwise.
Qed.

Lemma testbit_page_mask i n j : 0 <= i -> 1 <= n -> i + n <= 64 -> 0 <= j ->
  Z.testbit (page_mask i n) j = (i <=? j) && (j <? i + n).
Proof.
  intros Hi Hn Hin Hj. unfold page_mask.
  rewrite ones_spec, shl_small, testbit_wrap, testbit_mask by lia.
  destruct (Z.leb_spec i j), (Z.ltb_spec j (i + n)), (Z.ltb_spec j 64); (reflexivity || lia).
Qed.

Lemma land_page_mask v i n : 0 <= v -> 0 <= i -> 1 <= n -> i + n <= 64 ->
  Z.land v (page_mask i n) = 0 <-> forall j, i <= j < i + n -> Z.testbit v j = false.
Proof.
  intros Hv Hi Hn Hin. split.
  - intros E j Hj. assert (Ht : Z.testbit (Z.land v (page_mask i n)) j = false) by (rewrite E; apply Z.bits_0).
    rewrite Z.land_spec, testbit_page_mask in Ht by lia.
    destruct (Z.leb_spec i j), (Z.ltb_spec j (i + n)); try lia. rewrite andb_true_r in Ht. exact Ht.
  - intros Hf. apply Z.bits_inj'. intros j Hj. rewrite Z.land_spec, testbit_page_mask, Z.bits_0 by lia.
    destruct (Z.leb_spec i j), (Z.ltb_spec j (i + n)); cbn; rewrite ?andb_false_r; try reflexivity.
    rewrite Hf by lia. reflexivity.
Qed.

(** [zeros_up] counts the zeros from bit [i] on, up to [n]. *)
Lemma zeros_up_spec n i v : let z := zeros_up n i v in
  0 <= z <= Z.of_nat n /\ (forall j, i <= j < i + z -> Z.testbit v j = false) /\
  (z < Z.of_nat n -> Z.testbit v (i + z) = true).
Proof.
  revert i; induction n as [|n IH]; intros i; cbn [zeros_up].
  { split_and!; (lia || (intros; lia)). }
  destruct (Z.testbit v i) eqn:E.
  { split_and!; [lia.. | intros; lia |]. intros _. rewrite Z.add_0_r. exact E. }
  destruct (IH (i + 1)) as (Hb & Hz & Hn). split_and!; [lia.. | |].
  - intros j Hj. destruct (Z.eq_dec j i) as [->|]; [exact E|]. apply Hz. lia.
  - intros Hlt. rewrite Z.add_assoc. apply Hn. lia.
Qed.
Lemma zeros_down_spec n v : let z := zeros_down n v in
  0 <= z <= Z.of_nat n /\ (forall j, Z.of_nat n - z <= j < Z.of_nat n -> Z.testbit v j = false) /\
  (z < Z.of_nat n -> Z.testbit v (Z.of_nat n - 1 - z) = true).
Proof.
  induction n as [|n IH]; cbn [zeros_down].
  { split_and!; (lia || (intros; lia)). }
  destruct (Z.testbit v (Z.of_nat n)) eqn:E.
  { split_and!; [lia.. | intros; lia |]. intros _. replace (Z.of_nat (S n) - 1 - 0) with (Z.of_nat n) by lia. exact E. }
  destruct IH as (Hb & Hz & Hn). split_and!; [lia.. | |].
  - intros j Hj. destruct (Z.eq_dec j (Z.of_nat n)) as [->|]; [exact E|]. apply Hz. lia.
  - intros Hlt. replace (Z.of_nat (S n) - 1 - _) with (Z.of_nat n - 1 - zeros_down n v) by lia. apply Hn. lia.
Qed.

Section LeafLaws.
Context {PAGES : Z} (Hpages : 1 <= PAGES <= 64).
Notation Leaf := (BuddyLeaf PAGES).
Implicit Types (b : Leaf).

Definition leaf_occupied b : Z -> bool := Z.testbit (set b).
Definition leaf_wf b : Prop := urange 64 (set b).

Lemma leaf_masked b i n : leaf_wf b -> 0 <= i -> 1 <= n -> i + n <= PAGES ->
  Z.land (set b) (page_mask i n) = 0 <-> fits PAGES (leaf_occupied b) i n.
Proof.
  intros [Hv _] Hi Hn Hin. rewrite land_page_mask by lia. unfold fits, leaf_occupied.
  split; [intros Hf; split_and!; (assumption || lia) | intros (_ & _ & _ & Hf); exact Hf].
Qed.

Lemma page_mask_range i n : 0 <= i -> 1 <= n -> i + n <= 64 -> urange 64 (page_mask i n).
Proof. intros. unfold page_mask. rewrite shl_small by lia. apply wrap_range. lia. Qed.

Lemma leaf_set_occupied v i n : urange 64 v -> 0 <= i -> 1 <= n -> i + n <= PAGES ->
  let b' := mkLeaf (Z.lor v (page_mask i n)) : Leaf in
  leaf_wf b' /\ same PAGES (leaf_occupied b') (mark (Z.testbit v) i n true).
Proof.
  intros Hv Hi Hn Hin. split.
  - apply lor_range; [lia | exact Hv | apply page_mask_range; lia].
  - intros j Hj. unfold leaf_occupied, mark. cbn [set]. rewrite Z.lor_spec, testbit_page_mask by lia.
    destruct (_ && _); [apply orb_true_r | apply orb_false_r].
Qed.
Lemma leaf_clear_occupied v i n : urange 64 v -> 0 <= i -> 1 <= n -> i + n <= PAGES ->
  let b' := mkLeaf (Z.land v (unot 64 (page_mask i n))) : Leaf in
  leaf_wf b' /\ same PAGES (leaf_occupied b') (mark (Z.testbit v) i n false).
Proof.
  intros Hv Hi Hn Hin. split.
  - apply land_range; [lia | exact Hv | apply wrap_range; lia].
  - intros j Hj. unfold leaf_occupied, mark, unot. cbn [set].
    rewrite Z.land_spec, testbit_wrap, Z.lnot_spec, testbit_page_mask by lia.
    destruct (Z.ltb_spec j 64); [|lia]. cbn [andb].
    destruct ((i <=? j) && (j <? i + n)); [apply andb_false_r | apply andb_true_r].
Qed.

(** The search gives the first of the starts that fits. *)
Lemma leaf_find_spec b n starts : leaf_wf b -> 1 <= n ->
  (forall i, i ∈ starts -> 0 <= i /\ i + n <= PAGES) ->
  exists r b', leaf_find starts n (set b) b = Some (r, b') /\ leaf_wf b' /\
    match r with
    | Some i => fits PAGES (leaf_occupied b) i n /\
        (exists l1 l2, starts = l1 ++ i :: l2 /\ forall k, k ∈ l1 -> ~ fits PAGES (leaf_occupied b) k n) /\
        same PAGES (leaf_occupied b') (mark (leaf_occupied b) i n true)
    | None => (forall k, k ∈ starts -> ~ fits PAGES (leaf_occupied b) k n) /\ b' = b
    end.
Proof.
  intros Hb Hn. induction starts as [|i starts IH]; intros Hs.
  - exists None, b. split; [reflexivity|]. split; [exact Hb|]. split; [|reflexivity].
    intros k Hk. set_solver.
  - destruct (Hs i ltac:(left)) as [Hi Hin]. cbn [leaf_find]. unfold mbind, set_write, mput, mret.
    pose proof (leaf_masked b i n Hb Hi Hn Hin) as Hm.
    destruct (Z.eqb_spec (Z.land (set b) (page_mask i n)) 0) as [E|E].
    + destruct (leaf_set_occupied (set b) i n Hb Hi Hn Hin) as [Hw Hsame].
      eexists (Some i), _. split; [reflexivity|]. split; [exact Hw|].
      split; [apply Hm, E|]. split; [|exact Hsame].
      exists [], starts. split; [reflexivity|]. intros k Hk. set_solver.
    + destruct (IH ltac:(intros k Hk; apply Hs; right; exact Hk)) as (r & b' & Er & Hw & Hr).
      exists r, b'. split; [exact Er|]. split; [exact Hw|]. destruct r as [k|].
      * destruct Hr as (Hf & (l1 & l2 & -> & Hl1) & Hsame). split; [exact Hf|]. split; [|exact Hsame].
        exists (i :: l1), l2. split; [reflexivity|]. intros k' [-> | Hk']%elem_of_cons; [tauto | apply Hl1, Hk'].
      * destruct Hr as [Hnone ->]. split; [|reflexivity].
        intros k [-> | Hk]%elem_of_cons; [tauto | apply Hnone, Hk].
Qed.
Lemma seqZ_split i l1 l2 n : seqZ 0 n = l1 ++ i :: l2 -> 0 <= i < n /\ forall k, 0 <= k < i -> k ∈ l1.
Proof.
  intros E. assert (Hi : i ∈ seqZ 0 n) by (rewrite E; set_solver). apply elem_of_seqZ in Hi.
  split; [lia|]. intros k Hk.
  assert (El : l1 !! Z.to_nat k = Some k).
  { assert (Elen : i = Z.of_nat (length l1)).
    { assert (Hl : seqZ 0 n !! length l1 = Some i) by (rewrite E; apply list_lookup_middle; reflexivity).
      apply lookup_seqZ in Hl. lia. }
    assert (Hl : seqZ 0 n !! Z.to_nat k = Some k) by (apply lookup_seqZ; lia).
    rewrite E, lookup_app_l in Hl by lia. exact Hl. }
  apply list_elem_of_lookup. exists (Z.to_nat k). exact El.
Qed.

Lemma leaf_allocate_law b n : leaf_wf b -> 0 <= n ->
  exists r b', leaf_allocate n b = Some (r, b') /\ leaf_wf b' /\
    match r with
    | Some i => 1 <= n /\ first_fit PAGES (leaf_occupied b) n i /\
        same PAGES (leaf_occupied b') (mark (leaf_occupied b) i n true)
    | None => (1 <= n -> forall i, ~ fits PAGES (leaf_occupied b) i n) /\
        same PAGES (leaf_occupied b') (leaf_occupied b)
    end.
Proof.
  intros Hb Hn. unfold leaf_allocate, mbind, mget, mret.
  destruct (Z.eqb_spec n 0); cbn [orb]; [|destruct (Z.ltb_spec PAGES n)].
  1, 2: exists None, b; split; [reflexivity|]; split; [exact Hb|]; split; [|reflexivity];
    intros H1 i (H0 & _ & H2 & _); lia.
  destruct (leaf_find_spec b n (seqZ 0 (PAGES - n + 1)) Hb ltac:(lia)) as (r & b' & E & Hw & Hr).
  { intros i Hi%elem_of_seqZ. lia. }
  exists r, b'. split; [exact E|]. split; [exact Hw|]. destruct r as [i|].
  - destruct Hr as (Hf & (l1 & l2 & El & Hl) & Hs). split_and!; [lia | | exact Hs].
    split; [exact Hf|]. intros k Hk. destruct (seqZ_split _ _ _ _ El) as [_ Hbefore].
    destruct (Z.le_gt_cases i k); [assumption|]. destruct (Hl k); [|assumption].
    apply Hbefore. pose proof (proj1 Hk). lia.
  - destruct Hr as [Hnone ->]. split; [|reflexivity]. intros _ i Hi. apply (Hnone i); [|exact Hi].
    apply elem_of_seqZ. destruct Hi as (? & ? & ? & _). lia.
Qed.

Lemma leaf_allocate_fixed_law b i n replace : leaf_wf b -> 0 <= i -> 0 <= n ->
  exists r b', leaf_allocate_fixed i n replace b = Some (r, b') /\ leaf_wf b' /\
    match r with
    | Some _ => 1 <= n /\ i + n <= PAGES /\ (replace = true \/ fits PAGES (leaf_occupied b) i n) /\
        same PAGES (leaf_occupied b') (mark (leaf_occupied b) i n true)
    | None => ~ (1 <= n /\ i + n <= PAGES /\ (replace = true \/ fits PAGES (leaf_occupied b) i n)) /\
        same PAGES (leaf_occupied b') (leaf_occupied b)
    end.
Proof.
  intros Hb Hi Hn. unfold leaf_allocate_fixed, mbind, mget, mret, set_write, mput, saturating_sub.
  destruct (Z.eqb_spec n 0); cbn [orb]; [|destruct (Z.ltb_spec (Z.max 0 (PAGES - i)) n)].
  1, 2: exists None, b; split; [reflexivity|]; split; [exact Hb|]; split; [lia | reflexivity].
  destruct (leaf_set_occupied (set b) i n Hb Hi ltac:(lia) ltac:(lia)) as [Hw Hs].
  pose proof (leaf_masked b i n Hb Hi ltac:(lia) ltac:(lia)) as Hm.
  destruct ((i =? 0) && (n =? PAGES) && replace) eqn:Eall.
  - apply andb_prop in Eall as [[->%Z.eqb_eq ->%Z.eqb_eq]%andb_prop ->].
    eexists (Some tt), _. split; [reflexivity|]. split; [apply wrap_range; lia|].
    split_and!; [lia.. | left; reflexivity |]. intros j Hj. unfold leaf_occupied, mark, unot. cbn [set].
    rewrite testbit_wrap, Z.lnot_spec, Z.bits_0 by lia.
    destruct (Z.ltb_spec j 64), (Z.leb_spec 0 j), (Z.ltb_spec j (0 + PAGES)); (reflexivity || lia).
  - destruct replace; cbn [negb andb].
    + eexists (Some tt), _. split; [reflexivity|]. split; [exact Hw|].
      split_and!; [lia.. | left; reflexivity | exact Hs].
    + destruct (Z.eqb_spec (Z.land (set b) (page_mask i n)) 0) as [E|E]; cbn [negb].
      * eexists (Some tt), _. split; [reflexivity|]. split; [exact Hw|].
        split_and!; [lia.. | right; apply Hm, E | exact Hs].
      * exists None, b. split; [reflexivity|]. split; [exact Hb|]. split; [|reflexivity].
        intros (_ & _ & [? | Hf]); [discriminate | apply E, Hm, Hf].
Qed.

Lemma leaf_deallocate_law b i n : leaf_wf b -> 0 <= i -> 0 <= n -> i + n <= PAGES ->
  exists b', leaf_deallocate i n b = Some (tt, b') /\ leaf_wf b' /\
    same PAGES (leaf_occupied b') (mark (leaf_occupied b) i n false).
Proof.
  intros Hb Hi Hn Hin. unfold leaf_deallocate, mbind, mget, mret, set_write, mput, saturating_sub.
  destruct (Z.eqb_spec n 0) as [->|]; cbn [orb].
  { exists b. split; [reflexivity|]. split; [exact Hb|]. symmetry. apply mark_empty. }
  destruct (Z.ltb_spec (Z.max 0 (PAGES - i)) n); [lia|].
  destruct ((i =? 0) && (n =? PAGES)) eqn:Eall.
  - apply andb_prop in Eall as [->%Z.eqb_eq ->%Z.eqb_eq].
    eexists. split; [reflexivity|]. split; [unfold leaf_wf, urange; cbn [set]; lia|]. intros j Hj. unfold leaf_occupied, mark. cbn [set].
    rewrite Z.bits_0. destruct (Z.leb_spec 0 j), (Z.ltb_spec j (0 + PAGES)); (reflexivity || lia).
  - eexists. split; [reflexivity|]. apply leaf_clear_occupied; (assumption || lia).
Qed.

(** The run of free pages from page [i] on, by the trailing zeros. *)
Lemma leaf_run b i : 0 <= i < PAGES ->
  let l := Z.min (trailing_zeros (shr 64 (set b) i)) (PAGES - i) in
  fits PAGES (leaf_occupied b) i l /\ forall n, fits PAGES (leaf_occupied b) i n -> n <= l.
Proof.
  intros Hi. rewrite shr_small by lia. unfold trailing_zeros.
  destruct (zeros_up_spec 64 0 (Z.shiftr (set b) i)) as (Hz & Hzeros & Hone).
  set (z := zeros_up 64 0 _) in *. cbv zeta. split.
  - split_and!; [lia..|]. intros j Hj. unfold leaf_occupied. specialize (Hzeros (j - i) ltac:(lia)).
    rewrite Z.shiftr_spec in Hzeros by lia. rewrite <- Hzeros. f_equal. lia.
  - intros n (_ & Hn & Hin & Hf). apply Z.min_glb; [|lia].
    destruct (Z.le_gt_cases n z); [assumption|]. exfalso.
    specialize (Hone ltac:(lia)). rewrite Z.shiftr_spec in Hone by lia.
    specialize (Hf (i + z) ltac:(lia)). unfold leaf_occupied in Hf.
    replace (0 + z + i) with (i + z) in Hone by lia. congruence.
Qed.

Lemma foldl_max (f : Z -> Z) l a : let m := foldl (fun x s => Z.max (f s) x) a l in
  a <= m /\ (forall s, s ∈ l -> f s <= m) /\ (m = a \/ exists s, s ∈ l /\ m = f s).
Proof.
  revert a; induction l as [|s l IH]; intros a; cbn [foldl].
  { split_and!; [lia | intros s Hs; set_solver | left; reflexivity]. }
  destruct (IH (Z.max (f s) a)) as (Ha & Hl & Hm). split_and!; [lia | |].
  - intros s' [-> | Hs']%elem_of_cons; [lia | apply Hl, Hs'].
  - destruct Hm as [Hm | (s' & Hs' & Hm)].
    + destruct (Z.max_spec (f s) a) as [[_ E]|[_ E]]; rewrite E in Hm at 2; [left; exact Hm|].
      right. exists s. split; [left | exact Hm].
    + right. exists s'. split; [right; exact Hs' | exact Hm].
Qed.

Lemma leaf_longest_law b :
  longest_run PAGES (leaf_occupied b) (leaf_longest_free_sequence b).
Proof.
  unfold leaf_longest_free_sequence. destruct (Z.eqb_spec (set b) 0) as [E|E].
  - split; [|intros i n (? & ? & ? & _); lia]. exists 0. split_and!; [lia..|].
    intros j _. unfold leaf_occupied. rewrite E. apply Z.bits_0.
  - destruct (foldl_max (fun s => Z.min (trailing_zeros (shr 64 (set b) s)) (PAGES - s)) (seqZ 0 PAGES) 0)
      as (H0 & Hl & Hm).
    set (m := foldl _ _ _) in *. split.
    + destruct Hm as [-> | (s & Hs%elem_of_seqZ & ->)].
      * exists 0. split_and!; [lia..|]. intros; lia.
      * exists s. apply leaf_run. lia.
    + intros i n Hf. destruct (Z.eq_dec n 0); [lia|].
      assert (Hi : 0 <= i < PAGES) by (destruct Hf as (? & ? & ? & _); lia).
      apply (leaf_run b i Hi) in Hf. specialize (Hl i ltac:(apply elem_of_seqZ; lia)). lia.
Qed.

Lemma leaf_start_law b : start_run PAGES (leaf_occupied b) (leaf_count_free_start b).
Proof.
  unfold leaf_count_free_start, start_run. pose proof (leaf_run b 0 ltac:(lia)) as Hrun.
  rewrite shr_small, Z.shiftr_0_r, Z.sub_0_r, Z.min_comm in Hrun by lia. exact Hrun.
Qed.

#[export] Instance leaf_laws : BuddyLaws Leaf.
Proof.
  refine {| buddy_wf := leaf_wf; occupied := leaf_occupied |}.
  - cbn. lia.
  - split; cbn; lia.
  - intros j _. apply Z.bits_0.
  - intros b _. eexists. split; [reflexivity | apply leaf_longest_law].
  - intros b _. eexists. split; [reflexivity | apply leaf_start_law].
  - exact leaf_allocate_law.
  - exact leaf_allocate_fixed_law.
  - exact leaf_deallocate_law.
Defined.
End LeafLaws.

(** The count of free pages at the end holds for a full leaf.  In a smaller one,
    [allocate_fixed] on all pages also sets the bits above them, which
    [count_free_end] then counts as pages; only branches use the count, and their
    leaves are full. *)
#[export] Instance full_leaf_laws : BuddyLaws (BuddyLeaf 64) := leaf_laws (PAGES := 64) ltac:(lia).
#[export] Instance full_leaf_end_laws : BuddyEndLaws (BuddyLeaf 64).
Proof.
  intros b [Hv _]. eexists. split; [reflexivity|]. unfold saturating_sub, leading_zeros.
  destruct (zeros_down_spec 64 (set b)) as (Hz & Hzeros & Hone).
  set (z := zeros_down 64 (set b)) in *. cbn [buddy_PAGES leaf_buddy occupied full_leaf_laws leaf_laws].
  replace (Z.max 0 (z - (64 - 64))) with z by lia. split.
  - split_and!; [lia..|]. intros j Hj. apply Hzeros. lia.
  - intros n (H0 & Hn & _ & Hf). destruct (Z.le_gt_cases n z); [assumption|]. exfalso.
    specialize (Hone ltac:(lia)). specialize (Hf (64 - 1 - z) ltac:(lia)). unfold leaf_occupied in Hf.
    change (Z.of_nat 64) with 64 in Hone. congruence.
Qed.
