(* ===== verification/BuddyTree.v ===== *)
(** * Trees of buddies

    A branch over two allocators that keep the contract keeps it too, with the
    cached counts of [FreeInfo] as its invariant; hence every tree of the layouts
    does.  Read as an abstract machine, the contract says that a tree behaves as a
    plain map of pages with first-fit allocation.  So every tree, over
    any sequence of operations, answers as that map does, and its counts are those of
    the map. *)

From stdpp Require Import sets.
From S2P Require Import Prelude.
From S2P Require Import Bits.
From S2P Require Import Buddy.
From S2P Require Import BuddySpec.

(** ** Two halves *)
Definition join (P : Z) (l r : Z -> bool) : Z -> bool := fun j => if j <? P then l j else r (j - P).

Section Halves.
Context {P : Z}.
Implicit Types (l r : Z -> bool).

#[export] Instance join_proper : Proper (same P ==> same P ==> same (P * 2)) (join P).
Proof.
  intros l l' El r r' Er j Hj. unfold join. destruct (Z.ltb_spec j P); [apply El | apply Er]; lia.
Qed.

Lemma join_left l r j : j < P -> join P l r j = l j.
Proof. intros. unfold join. destruct (Z.ltb_spec j P); [reflexivity | lia]. Qed.
Lemma join_right l r j : P <= j -> join P l r j = r (j - P).
Proof. intros. unfold join. destruct (Z.ltb_spec j P); [lia | reflexivity]. Qed.

(** A run of the whole lies in the left half, in the right half, or crosses. *)
Lemma fits_join l r i n : fits (P * 2) (join P l r) i n <->
  (i + n <= P /\ fits P l i n) \/ (P <= i /\ fits P r (i - P) n) \/
  (i < P < i + n /\ fits P l i (P - i) /\ fits P r 0 (i + n - P)).
Proof.
  split.
  - intros (Hi & Hn & Hin & Hf).
    assert (Hl : forall j, i <= j < i + n -> j < P -> l j = false)
      by (intros j Hj HP; rewrite <- (join_left l r) by assumption; apply Hf, Hj).
    assert (Hr : forall j, i <= j + P < i + n -> 0 <= j -> r j = false).
    { intros j Hj HP. specialize (Hf (j + P) Hj). rewrite join_right in Hf by lia.
      rewrite <- Hf. f_equal. lia. }
    destruct (Z.le_gt_cases (i + n) P); [left | right; destruct (Z.le_gt_cases P i); [left | right]].
    + split; [assumption|]. split_and!; [lia..|]. intros; apply Hl; lia.
    + split; [assumption|]. split_and!; [lia..|]. intros; apply Hr; lia.
    + split; [lia|]. split; (split_and!; [lia..|]); intros; [apply Hl | apply Hr]; lia.
  - intros [(Hb & Hi & Hn & Hin & Hf) | [(Hb & Hi & Hn & Hin & Hf) |
      (Hb & (Hi & _ & _ & Hl) & (_ & Hn & Hin & Hr))]]; (split_and!; [lia..|]); intros j Hj.
    + rewrite join_left by lia. apply Hf; lia.
    + rewrite join_right by lia. apply Hf; lia.
    + destruct (Z.lt_ge_cases j P); [rewrite join_left by lia; apply Hl | rewrite join_right by lia; apply Hr]; lia.
Qed.

Lemma mark_join_left l r i n v : i + n <= P ->
  same (P * 2) (mark (join P l r) i n v) (join P (mark l i n v) r).
Proof.
  intros H j Hj. unfold mark, join.
  destruct (Z.ltb_spec j P), (Z.leb_spec i j), (Z.ltb_spec j (i + n)); (reflexivity || lia).
Qed.
Lemma mark_join_right l r i n v : P <= i ->
  same (P * 2) (mark (join P l r) i n v) (join P l (mark r (i - P) n v)).
Proof.
  intros H j Hj. unfold mark, join.
  destruct (Z.ltb_spec j P), (Z.leb_spec i j), (Z.ltb_spec j (i + n)), (Z.leb_spec (i - P) (j - P)),
    (Z.ltb_spec (j - P) (i - P + n)); (reflexivity || lia).
Qed.
Lemma mark_join_cross l r i n v : i <= P <= i + n ->
  same (P * 2) (mark (join P l r) i n v) (join P (mark l i (P - i) v) (mark r 0 (i + n - P) v)).
Proof.
  intros H j Hj. unfold mark, join.
  destruct (Z.ltb_spec j P), (Z.leb_spec i j), (Z.ltb_spec j (i + n)), (Z.ltb_spec j (i + (P - i))),
    (Z.leb_spec 0 (j - P)), (Z.ltb_spec (j - P) (0 + (i + n - P))); (reflexivity || lia).
Qed.
End Halves.

#[export] Instance longest_run_proper N : Proper (same N ==> eq ==> iff) (longest_run N).
Proof. intros o o' E l ? <-. unfold longest_run. setoid_rewrite E. reflexivity. Qed.
#[export] Instance start_run_proper N : Proper (same N ==> eq ==> iff) (start_run N).
Proof. intros o o' E l ? <-. unfold start_run. setoid_rewrite E. reflexivity. Qed.
#[export] Instance end_run_proper N : Proper (same N ==> eq ==> iff) (end_run N).
Proof. intros o o' E l ? <-. unfold end_run. setoid_rewrite E. reflexivity. Qed.

Lemma longest_bound N occ l : longest_run N occ l -> 0 <= l <= N.
Proof. intros [(i & ? & ? & ? & _) _]. lia. Qed.
Lemma start_bound N occ l : start_run N occ l -> 0 <= l <= N.
Proof. intros [(? & ? & ? & _) _]. lia. Qed.
Lemma end_bound N occ l : end_run N occ l -> 0 <= l <= N.
Proof. intros [(? & ? & ? & _) _]. lia. Qed.

(** ** Branches *)
Section BranchLaws.
Context {B : Type} `{BuddyEndLaws B}.
Notation P := (buddy_PAGES (B := B)).
Context (Hmax : P <= 2 ^ 31).
Notation Branch := (BuddyBranch2 B).
Implicit Types (s : Branch) (b : B).

Definition branch_occupied s : Z -> bool := join P (occupied (left_buddy s)) (occupied (right_buddy s)).

(** The cached counts are those of the halves. *)
Record info_ok (info : FreeInfo) (l r : Z -> bool) : Prop := {
  ok_left_longest : longest_run P l (left_longest_free_sequence info);
  ok_left_start : start_run P l (left_free_start info);
  ok_left_end : end_run P l (left_free_end info);
  ok_right_longest : longest_run P r (right_longest_free_sequence info);
  ok_right_start : start_run P r (right_free_start info);
  ok_right_end : end_run P r (right_free_end info) }.

#[local] Instance info_ok_proper : Proper (eq ==> same P ==> same P ==> iff) info_ok.
Proof.
  intros info ? <- l l' El r r' Er.
  split; intros []; constructor; rewrite ?El, ?Er in *; assumption.
Qed.

Definition branch_wf s : Prop :=
  buddy_wf (left_buddy s) /\ buddy_wf (right_buddy s) /\
  info_ok (free_info s) (occupied (left_buddy s)) (occupied (right_buddy s)).

Lemma refresh_spec s : buddy_wf (left_buddy s) -> buddy_wf (right_buddy s) ->
  exists s', refresh s = Some (tt, s') /\ branch_wf s' /\
    left_buddy s' = left_buddy s /\ right_buddy s' = right_buddy s.
Proof.
  intros Hl Hr. unfold refresh, mbind, read_left, read_right, mlift, mput.
  destruct (longest_law _ Hl) as (l1 & -> & L1), (start_law _ Hl) as (l2 & -> & L2), (end_law _ Hl) as (l3 & -> & L3).
  destruct (longest_law _ Hr) as (r1 & -> & R1), (start_law _ Hr) as (r2 & -> & R2), (end_law _ Hr) as (r3 & -> & R3).
  eexists. split; [reflexivity|]. split; [|split; reflexivity].
  split; [exact Hl|]. split; [exact Hr|]. constructor; assumption.
Qed.

(** Refreshing after the halves have changed, and leaving the counts when they have not. *)
Lemma refresh_halves info l r : buddy_wf l -> buddy_wf r ->
  exists s', refresh (mkBranch info l r) = Some (tt, s') /\ branch_wf s' /\
    branch_occupied s' = join P (occupied l) (occupied r).
Proof.
  intros Hl Hr. destruct (refresh_spec (mkBranch info l r) Hl Hr) as (s' & E & Hw & El & Er).
  exists s'. split; [exact E|]. split; [exact Hw|]. unfold branch_occupied. rewrite El, Er. reflexivity.
Qed.
Lemma keep_halves s l r : branch_wf s -> buddy_wf l -> buddy_wf r ->
  same P (occupied l) (occupied (left_buddy s)) -> same P (occupied r) (occupied (right_buddy s)) ->
  branch_wf (mkBranch (free_info s) l r) /\
  same (P * 2) (branch_occupied (mkBranch (free_info s) l r)) (branch_occupied s).
Proof.
  intros (_ & _ & Hi) Hl Hr El Er. split.
  - split; [exact Hl|]. split; [exact Hr|]. cbn [free_info left_buddy right_buddy]. rewrite El, Er. exact Hi.
  - unfold branch_occupied. cbn [left_buddy right_buddy]. rewrite El, Er. reflexivity.
Qed.

Lemma branch_longest_law s : branch_wf s ->
  longest_run (P * 2) (branch_occupied s) (branch_longest_free_sequence s).
Proof.
  intros (_ & _ & [Hll Hls Hle Hrl Hrs Hre]). unfold branch_longest_free_sequence.
  pose proof (end_bound _ _ _ Hle) as Ble. pose proof (start_bound _ _ _ Hrs) as Brs.
  pose proof (longest_bound _ _ _ Hll) as Bll. pose proof (longest_bound _ _ _ Hrl) as Brl.
  pose proof (pages_range (B := B)) as Hp.
  unfold saturating_add, usize_MAX. rewrite (Z.min_r _ (left_free_end _ + _)) by lia.
  set (e := left_free_end (free_info s)) in *. set (t := right_free_start (free_info s)) in *.
  destruct Hll as [(il & Fl) Ml], Hrl as [(ir & Fr) Mr], Hle as [Fe Me], Hrs as [Ft Mt].
  set (ll := left_longest_free_sequence (free_info s)) in *. set (rl := right_longest_free_sequence (free_info s)) in *.
  unfold branch_occupied. split.
  - destruct (Z.max_spec (Z.max (e + t) ll) rl) as [[_ ->] | [Hge ->]].
    + exists (ir + P). apply fits_join. right. left. split; [destruct Fr; lia|].
      replace (ir + P - P) with ir by lia. exact Fr.
    + destruct (Z.max_spec (e + t) ll) as [[_ ->] | [_ ->]].
      * exists il. apply fits_join. left. split; [destruct Fl as (_ & _ & ? & _); lia | exact Fl].
      * exists (P - e). apply fits_join.
        destruct (Z.eq_dec t 0) as [->|]; [left; split; [lia|]; rewrite Z.add_0_r; exact Fe|].
        destruct (Z.eq_dec e 0) as [->|].
        { right. left. split; [lia|]. replace (P - 0 - P) with 0 by lia. rewrite Z.add_0_l. exact Ft. }
        right. right. split; [lia|]. replace (P - (P - e)) with e by lia.
        replace (P - e + (e + t) - P) with t by lia. split; assumption.
  - intros i n [(_ & F) | [(_ & F) | (Hc & F1 & F2)]]%fits_join.
    + apply Ml in F. lia.
    + apply Mr in F. lia.
    + replace i with (P - (P - i)) in F1 at 1 by lia. apply Me in F1. apply Mt in F2. lia.
Qed.

Lemma branch_start_law s : branch_wf s ->
  start_run (P * 2) (branch_occupied s) (branch_count_free_start s).
Proof.
  intros (_ & _ & [_ Hls _ _ Hrs _]). unfold branch_count_free_start.
  pose proof (start_bound _ _ _ Hls) as Bls. pose proof (start_bound _ _ _ Hrs) as Brs.
  pose proof (pages_range (B := B)) as Hp. destruct Hls as [Fl Ml], Hrs as [Fr Mr].
  unfold branch_occupied, start_run. setoid_rewrite fits_join.
  destruct (Z.ltb_spec (left_free_start (free_info s)) P).
  - split; [left; split; [lia | exact Fl]|].
    intros n [(_ & F) | [(? & _) | (_ & F & _)]]; [apply Ml, F | lia | apply Ml in F; lia].
  - replace (left_free_start (free_info s)) with P in * by lia.
    unfold saturating_add, usize_MAX. rewrite Z.min_r by lia.
    set (t := right_free_start (free_info s)) in *. split.
    + destruct (Z.eq_dec t 0) as [->|]; [left; split; [lia | exact Fl]|].
      right. right. split; [lia|]. rewrite Z.sub_0_r. replace (0 + (t + P) - P) with t by lia. split; assumption.
    + intros n [(? & _) | [(? & _) | (_ & _ & F)]]; [lia | lia | apply Mr in F; lia].
Qed.

Lemma branch_end_law s : branch_wf s ->
  end_run (P * 2) (branch_occupied s) (branch_count_free_end s).
Proof.
  intros (_ & _ & [_ _ Hle _ _ Hre]). unfold branch_count_free_end.
  pose proof (end_bound _ _ _ Hle) as Ble. pose proof (end_bound _ _ _ Hre) as Bre.
  pose proof (pages_range (B := B)) as Hp. destruct Hle as [Fl Ml], Hre as [Fr Mr].
  unfold branch_occupied, end_run. setoid_rewrite fits_join.
  destruct (Z.ltb_spec (right_free_end (free_info s)) P).
  - set (e := right_free_end (free_info s)) in *. split.
    + right. left. split; [lia|]. replace (P * 2 - e - P) with (P - e) by lia. exact Fr.
    + intros n [(? & ? & Hn & _) | [(_ & F) | (Hc & _ & F)]].
      * assert (n = 0) by lia. lia.
      * replace (P * 2 - n - P) with (P - n) in F by lia. apply Mr, F.
      * replace (P * 2 - n + n - P) with P in F by lia.
        replace 0 with (P - P) in F by lia. apply Mr in F. lia.
  - replace (right_free_end (free_info s)) with P in * by lia.
    unfold saturating_add, usize_MAX. rewrite Z.min_r by lia. rewrite Z.sub_diag in Fr.
    set (e := left_free_end (free_info s)) in *. split.
    + destruct (Z.eq_dec e 0) as [->|].
      { right. left. split; [lia|]. replace (P * 2 - (0 + P) - P) with 0 by lia. exact Fr. }
      right. right. split; [lia|]. replace (P * 2 - (e + P)) with (P - e) by lia.
      replace (P - (P - e)) with e by lia. replace (P - e + (e + P) - P) with P by lia. split; assumption.
    + intros n [(? & ? & Hn & _) | [(? & _) | (_ & F & _)]]; [lia | lia |].
      replace (P * 2 - n) with (P - (P - (P * 2 - n))) in F at 1 by lia. apply Ml in F. lia.
Qed.

(** Running an operation of a half. *)
Lemma on_left_eq {A} (f : M B A) s a l : f (left_buddy s) = Some (a, l) ->
  on_left f s = Some (a, mkBranch (free_info s) l (right_buddy s)).
Proof. intros E. unfold on_left, on_part. rewrite E. reflexivity. Qed.
Lemma on_right_eq {A} (f : M B A) s a r : f (right_buddy s) = Some (a, r) ->
  on_right f s = Some (a, mkBranch (free_info s) (left_buddy s) r).
Proof. intros E. unfold on_right, on_part. rewrite E. reflexivity. Qed.

(** A run that is not in one half crosses, within the counts at the middle. *)
Lemma crossing_run s i n : branch_wf s -> fits (P * 2) (branch_occupied s) i n ->
  left_longest_free_sequence (free_info s) < n ->
  (P <= i /\ fits P (occupied (right_buddy s)) (i - P) n) \/
  (P - left_free_end (free_info s) <= i < P /\
   n <= left_free_end (free_info s) + right_free_start (free_info s)).
Proof.
  intros (_ & _ & [Hll _ Hle _ Hrs _]) Hf Hn. apply fits_join in Hf as [(_ & F) | [F | (Hc & F1 & F2)]].
  - apply Hll in F. lia.
  - left. exact F.
  - right. replace i with (P - (P - i)) in F1 at 1 by lia. apply Hle in F1. apply Hrs in F2. lia.
Qed.

Lemma branch_allocate_crossing s n : branch_wf s ->
  let e := left_free_end (free_info s) in
  0 < e < n -> n <= e + right_free_start (free_info s) ->
  exists l r, buddy_allocate_fixed (P - e) e true (left_buddy s) = Some (Some tt, l) /\
    buddy_allocate_fixed 0 (n - e) true (right_buddy s) = Some (Some tt, r) /\
    buddy_wf l /\ buddy_wf r /\
    same (P * 2) (join P (occupied l) (occupied r)) (mark (branch_occupied s) (P - e) n true) /\
    fits (P * 2) (branch_occupied s) (P - e) n.
Proof.
  intros (Hl & Hr & [_ _ Hle _ Hrs _]) e He Hn.
  pose proof (end_bound _ _ _ Hle) as Ble. pose proof (start_bound _ _ _ Hrs) as Brs. fold e in Hle, Ble.
  assert (Hidx : 0 <= P - e) by lia.
  destruct (allocate_fixed_law (left_buddy s) (P - e) e true Hl Hidx ltac:(lia))
    as ([[]|] & l & El & Hwl & Ol); [|exfalso; apply Ol; split_and!; [lia.. | left; reflexivity]].
  destruct (allocate_fixed_law (right_buddy s) 0 (n - e) true Hr ltac:(lia) ltac:(lia))
    as ([[]|] & r & Er & Hwr & Or); [|exfalso; apply Or; split_and!; [lia.. | left; reflexivity]].
  exists l, r. split_and!; try assumption.
  - destruct Ol as (_ & _ & _ & ->), Or as (_ & _ & _ & ->). unfold branch_occupied.
    rewrite mark_join_cross by lia. replace (P - (P - e)) with e by lia.
    replace (P - e + n - P) with (n - e) by lia. reflexivity.
  - apply fits_join. right. right. split; [lia|]. replace (P - (P - e)) with e by lia. split; [apply Hle|].
    eapply fits_sub; [apply (proj1 Hrs) | lia..].
Qed.

Definition allocate_outcome s n (o : option (option Z * Branch)) : Prop :=
  exists r s', o = Some (r, s') /\ branch_wf s' /\
    match r with
    | Some i => 1 <= n /\ first_fit (P * 2) (branch_occupied s) n i /\
        same (P * 2) (branch_occupied s') (mark (branch_occupied s) i n true)
    | None => (1 <= n -> forall i, ~ fits (P * 2) (branch_occupied s) i n) /\
        same (P * 2) (branch_occupied s') (branch_occupied s)
    end.

Lemma allocate_left s n : branch_wf s -> 1 <= n <= left_longest_free_sequence (free_info s) ->
  allocate_outcome s n
    ((r <- on_left (buddy_allocate n) ;;
      match r with None => mret None | Some idx => refresh ;;; mret (Some idx) end) s).
Proof.
  intros (Hl & Hr & [Hll _ _ _ _ _]) Hn.
  destruct (allocate_law (left_buddy s) n Hl ltac:(lia)) as ([i|] & l & El & Hwl & Ol).
  - destruct Ol as (_ & [Hfit Hfirst] & Ol).
    destruct (refresh_halves (free_info s) l (right_buddy s) Hwl Hr) as (s' & E' & Hw' & O').
    unfold mbind, mret. rewrite (on_left_eq _ s _ _ El), E'. exists (Some i), s'.
    split; [reflexivity|]. split; [exact Hw'|]. destruct Hfit as (Hi0 & Hi1 & Hi2 & Hi3).
    split_and!; [lia | split |].
    + apply fits_join. left. split; [exact Hi2 | split_and!; assumption].
    + intros k [(_ & Fk) | [(Hk & _) | (Hk & _)]]%fits_join; [apply Hfirst, Fk | lia | lia].
    + rewrite O', Ol. unfold branch_occupied. symmetry. apply mark_join_left. lia.
  - exfalso. destruct Hll as [(i & Fi) _]. apply (proj1 Ol ltac:(lia) i).
    eapply fits_sub; [exact Fi | lia..].
Qed.

Lemma allocate_right s n : branch_wf s -> 1 <= n <= right_longest_free_sequence (free_info s) ->
  (forall k, fits (P * 2) (branch_occupied s) k n ->
    P <= k /\ fits P (occupied (right_buddy s)) (k - P) n) ->
  allocate_outcome s n
    ((r <- on_right (buddy_allocate n) ;;
      match r with None => mret None | Some idx => refresh ;;; mret (Some (wrap 64 (idx + P))) end) s).
Proof.
  intros (Hl & Hr & [_ _ _ Hrl _ _]) Hn Honly.
  destruct (allocate_law (right_buddy s) n Hr ltac:(lia)) as ([i|] & r & Er & Hwr & Or).
  - destruct Or as (_ & [Hfit Hfirst] & Or).
    destruct (refresh_halves (free_info s) (left_buddy s) r Hl Hwr) as (s' & E' & Hw' & O').
    unfold mbind, mret. rewrite (on_right_eq _ s _ _ Er), E'.
    destruct Hfit as (Hi0 & Hi1 & Hi2 & Hi3). rewrite wrap_small by (unfold urange; lia).
    exists (Some (i + P)), s'. split; [reflexivity|]. split; [exact Hw'|].
    replace i with (i + P - P) in Hi3, Or by lia.
    split_and!; [lia | split |].
    + apply fits_join. right. left. split; [lia|]. split_and!; try lia. intros j Hj. apply Hi3. lia.
    + intros k Fk. apply Honly in Fk as [_ Fk]. apply Hfirst in Fk. lia.
    + rewrite O', Or. unfold branch_occupied. symmetry. apply mark_join_right. lia.
  - exfalso. destruct Hrl as [(i & Fi) _]. apply (proj1 Or ltac:(lia) i).
    eapply fits_sub; [exact Fi | lia..].
Qed.

Lemma allocate_crossing s n : branch_wf s -> left_longest_free_sequence (free_info s) < n ->
  let e := left_free_end (free_info s) in
  0 < e -> n <= e + right_free_start (free_info s) ->
  allocate_outcome s n
    ((l <- on_left (buddy_allocate_fixed (P - e) e true) ;;
      match l with
      | None => mret None
      | Some _ =>
          let right_pages := saturating_sub n e in
          r <- (if 0 <? right_pages then on_right (buddy_allocate_fixed 0 right_pages true) else mret (Some tt)) ;;
          match r with
          | None => on_left (buddy_deallocate (P - e) e) ;;; mret None
          | Some _ => refresh ;;; mret (Some (P - e))
          end
      end) s).
Proof.
  intros Hs Hout e He Hov. pose proof Hs as (_ & _ & [Hll _ Hle _ _ _]).
  pose proof (proj2 Hll _ _ (proj1 Hle)) as Hlle. fold e in Hlle.
  destruct (branch_allocate_crossing s n Hs ltac:(lia) Hov) as (l & r & El & Er & Hwl & Hwr & O & Fc). fold e in El, Er, O, Fc.
  destruct (refresh_halves (free_info s) l r Hwl Hwr) as (s' & E' & Hw' & O').
  unfold mbind, mret. rewrite (on_left_eq _ s _ _ El). unfold saturating_sub.
  replace (Z.max 0 (n - e)) with (n - e) by lia. destruct (Z.ltb_spec 0 (n - e)); [|lia].
  rewrite (on_right_eq _ (mkBranch (free_info s) l (right_buddy s)) _ _ Er). cbn [free_info left_buddy].
  rewrite E'. exists (Some (P - e)), s'. split; [reflexivity|]. split; [exact Hw'|].
  split_and!; [lia | split; [exact Fc|] | rewrite O'; exact O].
  pose proof (end_bound _ _ _ Hle) as Hb. fold e in Hb.
  intros k Fk. destruct (crossing_run s k n Hs Fk Hout) as [[Hk _] | [Hk _]]; fold e in Hk; lia.
Qed.

Lemma branch_allocate_law s n : branch_wf s -> 0 <= n -> allocate_outcome s n (branch_allocate n s).
Proof.
  intros Hs Hn. pose proof Hs as (_ & _ & [_ _ Hle Hrl Hrs _]).
  pose proof (end_bound _ _ _ Hle) as Ble. pose proof (start_bound _ _ _ Hrs) as Brs.
  pose proof (pages_range (B := B)) as Hp.
  unfold branch_allocate, branch_PAGES, mbind at 1, mret at 1, mget.
  destruct (Z.leb_spec 1 n); cbn [andb negb]; [destruct (Z.leb_spec n (P * 2)); cbn [negb]|].
  2, 3: exists None, s; (split; [reflexivity|]); (split; [exact Hs|]); (split; [|reflexivity]);
    intros Hge i (? & ? & ? & _); lia.
  destruct (Z.leb_spec n (left_longest_free_sequence (free_info s))) as [Hin|Hout];
    [apply allocate_left; [exact Hs | lia]|].
  unfold saturating_add, usize_MAX. rewrite (Z.min_r _ (left_free_end _ + _)) by lia.
  destruct ((n <=? left_free_end (free_info s) + right_free_start (free_info s)) &&
            (0 <? left_free_end (free_info s))) eqn:Ecross.
  { apply andb_prop in Ecross as [Hov%Z.leb_le He%Z.ltb_lt].
    destruct (Z.ltb_spec P (left_free_end (free_info s))); [lia|]. apply allocate_crossing; assumption. }
  apply andb_false_iff in Ecross.
  assert (Honly : forall k, fits (P * 2) (branch_occupied s) k n ->
    P <= k /\ fits P (occupied (right_buddy s)) (k - P) n).
  { intros k Fk. destruct (crossing_run s k n Hs Fk Hout) as [Hk | Hk]; [exact Hk|].
    destruct Ecross as [Hx%Z.leb_gt | Hx%Z.ltb_ge]; lia. }
  destruct (Z.leb_spec n (right_longest_free_sequence (free_info s))) as [Hright|Hnone].
  - apply allocate_right; [exact Hs | lia | exact Honly].
  - exists None, s. split; [reflexivity|]. split; [exact Hs|]. split; [|reflexivity].
    intros _ i Fi. apply Honly in Fi as [_ Fi]. apply Hrl in Fi. lia.
Qed.

(** The parts of a range in the halves. *)
Lemma split_range i n : 0 <= i -> 1 <= n -> i + n <= P * 2 ->
  let l := Z.min (saturating_sub P i) n in let r := saturating_sub n l in
  (l = n /\ r = 0 /\ i + n <= P) \/
  (l = 0 /\ r = n /\ P <= i /\ saturating_sub i P = i - P) \/
  (l = P - i /\ r = i + n - P /\ i < P < i + n /\ saturating_sub i P = 0).
Proof. unfold saturating_sub. lia. Qed.

Definition on_range (occ : Z -> bool) (N i n : Z) (replace : bool) : Prop :=
  1 <= n /\ i + n <= N /\ (replace = true \/ fits N occ i n).
Definition fixed_outcome s i n replace (o : option (option unit * Branch)) : Prop :=
  exists r s', o = Some (r, s') /\ branch_wf s' /\
    match r with
    | Some _ => on_range (branch_occupied s) (P * 2) i n replace /\
        same (P * 2) (branch_occupied s') (mark (branch_occupied s) i n true)
    | None => ~ on_range (branch_occupied s) (P * 2) i n replace /\
        same (P * 2) (branch_occupied s') (branch_occupied s)
    end.

(** The end of [allocate_fixed], when both halves have been marked. *)
Lemma fixed_done s i n replace info l r : on_range (branch_occupied s) (P * 2) i n replace ->
  buddy_wf l -> buddy_wf r ->
  same (P * 2) (join P (occupied l) (occupied r)) (mark (branch_occupied s) i n true) ->
  fixed_outcome s i n replace ((refresh ;;; mret (Some tt)) (mkBranch info l r)).
Proof.
  intros Hon Hl Hr O. destruct (refresh_halves info l r Hl Hr) as (s' & E & Hw & O').
  exists (Some tt), s'. unfold mbind. rewrite E. split; [reflexivity|]. split; [exact Hw|].
  split; [exact Hon | rewrite O'; exact O].
Qed.
Lemma fixed_refused s i n replace l r : branch_wf s -> ~ on_range (branch_occupied s) (P * 2) i n replace ->
  buddy_wf l -> buddy_wf r ->
  same P (occupied l) (occupied (left_buddy s)) -> same P (occupied r) (occupied (right_buddy s)) ->
  fixed_outcome s i n replace (Some (None, mkBranch (free_info s) l r)).
Proof.
  intros Hs Hon Hl Hr El Er. destruct (keep_halves s l r Hs Hl Hr El Er) as [Hw O].
  eexists None, _. split; [reflexivity|]. split; [exact Hw|]. split; assumption.
Qed.

Lemma fixed_left s i n replace : branch_wf s -> 0 <= i -> 1 <= n -> i + n <= P ->
  fixed_outcome s i n replace
    ((l <- on_left (buddy_allocate_fixed i n replace) ;;
      match l with None => mret None | Some _ => refresh ;;; mret (Some tt) end) s).
Proof.
  intros Hs Hi Hn Hin. pose proof Hs as (Hl & Hr & _).
  pose proof (fits_join (P := P) (occupied (left_buddy s)) (occupied (right_buddy s)) i n) as Hfj.
  destruct (allocate_fixed_law (left_buddy s) i n replace Hl Hi ltac:(lia)) as ([[]|] & l & El & Hwl & Ol);
    unfold mbind at 1; rewrite (on_left_eq _ s _ _ El).
  - destruct Ol as (_ & _ & Hf & Ol).
    apply fixed_done; [split_and!; [lia | lia | destruct Hf; [left; assumption | right; apply Hfj; auto]] | assumption..|].
    rewrite Ol. symmetry. apply mark_join_left, Hin.
  - destruct Ol as (Hno & Ol). apply fixed_refused; (assumption || reflexivity || idtac).
    intros (_ & _ & Hf). apply Hno. split_and!; [lia | lia |].
    destruct Hf as [? | [(_ & F) | [(? & _) | (? & _)]]%Hfj]; [left; assumption | right; exact F | exfalso; lia..].
Qed.

Lemma fixed_right s i n replace : branch_wf s -> P <= i -> 1 <= n -> i + n <= P * 2 ->
  fixed_outcome s i n replace
    ((r <- on_right (buddy_allocate_fixed (i - P) n replace) ;;
      match r with None => mret None | Some _ => refresh ;;; mret (Some tt) end) s).
Proof.
  intros Hs Hi Hn Hin. pose proof Hs as (Hl & Hr & _).
  pose proof (fits_join (P := P) (occupied (left_buddy s)) (occupied (right_buddy s)) i n) as Hfj.
  assert (Hi' : 0 <= i - P) by lia.
  destruct (allocate_fixed_law (right_buddy s) (i - P) n replace Hr Hi' ltac:(lia)) as ([[]|] & r & Er & Hwr & Or);
    unfold mbind at 1; rewrite (on_right_eq _ s _ _ Er).
  - destruct Or as (_ & _ & Hf & Or).
    apply fixed_done; [split_and!; [lia | lia | destruct Hf; [left; assumption | right; apply Hfj; auto]] | assumption..|].
    rewrite Or. symmetry. apply mark_join_right, Hi.
  - destruct Or as (Hno & Or). apply fixed_refused; (assumption || reflexivity || idtac).
    intros (_ & _ & Hf). apply Hno. split_and!; [lia | lia |].
    destruct Hf as [? | [(? & _) | [(_ & F) | (? & _)]]%Hfj]; [left; assumption | exfalso; lia | right; exact F | exfalso; lia].
Qed.

(** A crossing range whose right part is taken: the left part is given back. *)
Lemma fixed_cross s i n replace : branch_wf s -> 0 <= i -> i < P < i + n -> i + n <= P * 2 ->
  fixed_outcome s i n replace
    ((l <- on_left (buddy_allocate_fixed i (P - i) replace) ;;
      match l with
      | None => mret None
      | Some _ =>
          r <- on_right (buddy_allocate_fixed 0 (i + n - P) replace) ;;
          match r with
          | None => on_left (buddy_deallocate i (P - i)) ;;; mret None
          | Some _ => refresh ;;; mret (Some tt)
          end
      end) s).
Proof.
  intros Hs Hi Hc Hin. pose proof Hs as (Hl & Hr & _).
  assert (Hsplit : replace = true \/ fits (P * 2) (branch_occupied s) i n <->
    (replace = true \/ fits P (occupied (left_buddy s)) i (P - i)) /\
    (replace = true \/ fits P (occupied (right_buddy s)) 0 (i + n - P))).
  { unfold branch_occupied. rewrite fits_join.
    split; [intros [? | [(? & _) | [(? & _) | (_ & F)]]]; [tauto | lia | lia | tauto]|].
    intros [[?|?] [?|?]]; tauto. }
  assert (Hpi : 0 <= P - i) by lia. assert (Hni : 0 <= i + n - P) by lia.
  assert (Hip : i + (P - i) <= P) by lia.
  destruct (allocate_fixed_law (left_buddy s) i (P - i) replace Hl Hi Hpi) as ([[]|] & l & El & Hwl & Ol);
    unfold mbind at 1; rewrite (on_left_eq _ s _ _ El).
  2: { destruct Ol as (Hno & Ol). apply fixed_refused; (assumption || reflexivity || idtac).
       intros (_ & _ & Hf). apply Hno. split_and!; [lia | lia | apply Hsplit, Hf]. }
  destruct Ol as (_ & _ & Hfl & Ol).
  destruct (allocate_fixed_law (right_buddy s) 0 (i + n - P) replace Hr ltac:(lia) Hni)
    as ([[]|] & r & Er & Hwr & Or);
    unfold mbind at 1; rewrite (on_right_eq _ (mkBranch (free_info s) l (right_buddy s)) _ _ Er);
    cbn [free_info left_buddy right_buddy].
  - destruct Or as (_ & _ & Hfr & Or).
    apply fixed_done; [split_and!; [lia | lia | apply Hsplit; auto] | assumption..|].
    rewrite Ol, Or. symmetry. apply mark_join_cross. lia.
  - destruct Or as (Hno & Or).
    destruct (deallocate_law l i (P - i) Hwl Hi Hpi Hip) as (l' & El' & Hwl' & Ol').
    unfold mbind, mret. rewrite (on_left_eq _ (mkBranch (free_info s) l r) _ _ El').
    cbn [free_info left_buddy right_buddy].
    destruct Hfl as [-> | Hfl].
    { exfalso. apply Hno. split_and!; [lia | lia | left; reflexivity]. }
    apply fixed_refused; (assumption || idtac).
    + intros (_ & _ & Hf). apply Hno. split_and!; [lia | lia | apply Hsplit, Hf].
    + rewrite Ol', Ol. apply mark_restore, Hfl.
Qed.

Lemma branch_allocate_fixed_law s i n replace : branch_wf s -> 0 <= i -> 0 <= n ->
  fixed_outcome s i n replace (branch_allocate_fixed i n replace s).
Proof.
  intros Hs Hi Hn. unfold branch_allocate_fixed, branch_PAGES. destruct s as [info l r] eqn:Es. rewrite <- Es in *.
  destruct (Z.eqb_spec n 0); cbn [orb]; [|destruct (Z.ltb_spec (saturating_sub (P * 2) i) n) as [Hlt|Hle]].
  1, 2: replace s with (mkBranch (free_info s) (left_buddy s) (right_buddy s)) at 2 by (rewrite Es; reflexivity);
    apply fixed_refused; [exact Hs | | apply Hs | apply Hs | reflexivity..];
    intros (? & ? & _); unfold saturating_sub in *; lia.
  unfold saturating_sub in Hle.
  destruct (split_range i n Hi ltac:(lia) ltac:(lia)) as [(-> & -> & Hc) | [(-> & -> & Hc & ->) | (-> & -> & Hc & ->)]];
    cbv zeta.
  - destruct (Z.ltb_spec 0 n); [|lia]. apply fixed_left; (assumption || lia).
  - destruct (Z.ltb_spec 0 n); [|lia]. apply fixed_right; (assumption || lia).
  - destruct (Z.ltb_spec 0 (P - i)); [|lia]. destruct (Z.ltb_spec 0 (i + n - P)); [|lia].
    apply fixed_cross; (assumption || lia).
Qed.

Lemma branch_deallocate_law s i n : branch_wf s -> 0 <= i -> 0 <= n -> i + n <= P * 2 ->
  exists s', branch_deallocate i n s = Some (tt, s') /\ branch_wf s' /\
    same (P * 2) (branch_occupied s') (mark (branch_occupied s) i n false).
Proof.
  intros Hs Hi Hn Hin. pose proof Hs as (Hl & Hr & _).
  unfold branch_deallocate, saturating_add, saturating_sub, usize_MAX, mbind.
  destruct (Z.leb_spec P i) as [HP|HP].
  - assert (Hi' : 0 <= i - P) by lia. assert (Hin' : i - P + n <= P) by lia.
    destruct (deallocate_law (right_buddy s) (i - P) n Hr Hi' Hn Hin') as (r & Er & Hwr & Or).
    rewrite (on_right_eq _ s _ _ Er).
    destruct (refresh_halves (free_info s) (left_buddy s) r Hl Hwr) as (s' & E' & Hw' & O').
    exists s'. split; [exact E'|]. split; [exact Hw'|]. rewrite O', Or. symmetry. apply mark_join_right, HP.
  - rewrite Z.min_r, (Z.add_comm n i) by lia. destruct (Z.ltb_spec P (i + n)) as [Hc|Hc].
    + replace (Z.max 0 (i + n - P)) with (i + n - P) by lia.
      replace (Z.max 0 (n - (i + n - P))) with (P - i) by lia.
      assert (Hpi : 0 <= P - i) by lia. assert (Hni : 0 <= i + n - P) by lia.
      assert (Hip : i + (P - i) <= P) by lia. assert (Hip' : 0 + (i + n - P) <= P) by lia.
      destruct (deallocate_law (right_buddy s) 0 (i + n - P) Hr ltac:(lia) Hni Hip') as (r & Er & Hwr & Or).
      destruct (deallocate_law (left_buddy s) i (P - i) Hl Hi Hpi Hip) as (l & El & Hwl & Ol).
      rewrite (on_right_eq _ s _ _ Er). cbn [mret].
      unfold mret. rewrite (on_left_eq _ (mkBranch (free_info s) (left_buddy s) r) _ _ El). cbn [free_info right_buddy].
      destruct (refresh_halves (free_info s) l r Hwl Hwr) as (s' & E' & Hw' & O').
      exists s'. split; [exact E'|]. split; [exact Hw'|]. rewrite O', Ol, Or. symmetry. apply mark_join_cross. lia.
    + destruct (deallocate_law (left_buddy s) i n Hl Hi Hn Hc) as (l & El & Hwl & Ol).
      unfold mret. rewrite (on_left_eq _ s _ _ El).
      destruct (refresh_halves (free_info s) l (right_buddy s) Hwl Hr) as (s' & E' & Hw' & O').
      exists s'. split; [exact E'|]. split; [exact Hw'|]. rewrite O', Ol. symmetry. apply mark_join_left, Hc.
Qed.

(** The branch keeps the contract. *)
#[export] Instance branch_laws : BuddyLaws Branch.
Proof.
  pose proof (pages_range (B := B)) as Hp.
  refine {| buddy_wf := branch_wf; occupied := branch_occupied |}; cbn [buddy_PAGES branch_buddy]; unfold branch_PAGES.
  - lia.
  - split; [exact new_wf|]. split; [exact new_wf|]. cbn. rewrite !(new_free (B := B)).
    assert (Hall : fits P (fun _ => false) 0 P) by (split_and!; (lia || reflexivity)).
    constructor; cbn; (split; [|intros; match goal with H : fits _ _ _ _ |- _ => destruct H as (? & ? & ? & _) end; lia]).
    1, 4: exists 0; exact Hall.
    1, 3: exact Hall.
    1, 2: rewrite Z.sub_diag; exact Hall.
  - unfold branch_occupied. cbn. rewrite !(new_free (B := B)). intros j _. unfold join. destruct (_ <? _); reflexivity.
  - intros b Hb. eexists. split; [reflexivity | apply branch_longest_law, Hb].
  - intros b Hb. eexists. split; [reflexivity | apply branch_start_law, Hb].
  - exact branch_allocate_law.
  - intros b i n replace Hb Hi Hn.
    destruct (branch_allocate_fixed_law b i n replace Hb Hi Hn) as ([[]|] & b' & E & Hw & Ho);
      eexists _, b'; (split; [exact E|]); (split; [exact Hw|]); [|exact Ho].
    destruct Ho as [(? & ? & ?) ?]. split_and!; assumption.
  - exact branch_deallocate_law.
Defined.

#[export] Instance branch_end_laws : BuddyEndLaws Branch.
Proof. intros b Hb. eexists. split; [reflexivity | apply branch_end_law, Hb]. Qed.
End BranchLaws.

(** ** The layouts *)
Class BuddyTree (B : Type) `{Buddy B} : Type := {
  #[global] tree_laws :: BuddyLaws B;
  #[global] tree_end_laws :: BuddyEndLaws B }.

Section Combinations.
Context {B : Type} {HB : Buddy B}.
Notation P := (buddy_PAGES (B := B)).

Definition branch2_tree (T : BuddyTree B) (Hmax : P * 2 <= 2 ^ 32) : BuddyTree (BuddyBranch2 B).
Proof.
  assert (Hmax' : P <= 2 ^ 31) by lia.
  exact {| tree_laws := branch_laws Hmax'; tree_end_laws := branch_end_laws Hmax' |}.
Defined.
End Combinations.

Section Combinations4.
Context {B : Type} {HB : Buddy B} (T : BuddyTree B).
Notation P := (buddy_PAGES (B := B)).
Definition branch4_tree (Hmax : P * 4 <= 2 ^ 32) : BuddyTree (BuddyBranch4 B).
Proof.
  refine (branch2_tree (B := BuddyBranch2 B) (branch2_tree T _) _); cbn; unfold branch_PAGES; lia.
Defined.
End Combinations4.

Section CombinationsMore.
Context {B : Type} {HB : Buddy B} (T : BuddyTree B).
Notation P := (buddy_PAGES (B := B)).

(** The pages of the combinations. *)
Lemma branch4_PAGES : buddy_PAGES (B := BuddyBranch4 B) = P * 4.
Proof. cbn. unfold branch_PAGES. cbn. unfold branch_PAGES. lia. Qed.

Definition branch8_tree (Hmax : P * 8 <= 2 ^ 32) : BuddyTree (BuddyBranch8 B).
Proof.
  refine (branch4_tree (B := BuddyBranch2 B) (branch2_tree T _) _); cbn; unfold branch_PAGES; lia.
Defined.
Definition branch16_tree (Hmax : P * 16 <= 2 ^ 32) : BuddyTree (BuddyBranch16 B).
Proof.
  refine (branch4_tree (B := BuddyBranch4 B) (branch4_tree T _) _); rewrite ?branch4_PAGES; lia.
Defined.
Lemma branch8_PAGES : buddy_PAGES (B := BuddyBranch8 B) = P * 8.
Proof.
  change (buddy_PAGES (B := BuddyBranch4 (BuddyBranch2 B)) = P * 8).
  cbn. unfold branch_PAGES. cbn. unfold branch_PAGES. cbn. unfold branch_PAGES. lia.
Qed.
Definition branch32_tree (Hmax : P * 32 <= 2 ^ 32) : BuddyTree (BuddyBranch32 B).
Proof.
  refine (branch4_tree (B := BuddyBranch8 B) (branch8_tree _) _); rewrite ?branch8_PAGES; lia.
Defined.
End CombinationsMore.

#[local] Instance full_leaf_tree : BuddyTree (BuddyLeaf 64) :=
  {| tree_laws := full_leaf_laws; tree_end_laws := full_leaf_end_laws |}.
Ltac pages_bound := vm_compute; discriminate.
#[export] Instance proxy256_tree : BuddyTree Proxy256 := branch4_tree full_leaf_tree ltac:(pages_bound).
#[export] Instance proxy1Ki_tree : BuddyTree Proxy1Ki := branch4_tree proxy256_tree ltac:(pages_bound).
Definition tree16Ki : BuddyTree (BuddyBranch16 Proxy1Ki) := branch16_tree proxy1Ki_tree ltac:(pages_bound).
Definition tree256Ki : BuddyTree (BuddyBranch256 Proxy1Ki) :=
  branch16_tree (B := BuddyBranch16 Proxy1Ki) (branch16_tree proxy1Ki_tree ltac:(pages_bound)) ltac:(pages_bound).
Definition tree1Mi : BuddyTree (BuddyBranch1Ki Proxy1Ki) :=
  branch32_tree (B := BuddyBranch32 Proxy1Ki) (branch32_tree proxy1Ki_tree ltac:(pages_bound)) ltac:(pages_bound).

(** Every layout keeps the contract. *)
#[export] Instance layout_laws (l : BuddyLayoutMatch) : BuddyLaws (PickLayout l) :=
  match l with
  | Pages1 => leaf_laws (PAGES := 1) ltac:(lia)
  | Pages2 => leaf_laws (PAGES := 2) ltac:(lia)
  | Pages64 => full_leaf_laws
  | Pages256 => tree_laws (B := Proxy256)
  | Pages1Ki => tree_laws (B := Proxy1Ki)
  | Pages16Ki => @tree_laws _ _ tree16Ki
  | Pages256Ki => @tree_laws _ _ tree256Ki
  | Pages1Mi => @tree_laws _ _ tree1Mi
  end.

(** ** Sequences of operations *)
Inductive BuddyOp : Type :=
| Allocate (pages : Z)
| AllocateFixed (idx pages : Z) (replace : bool)
| Deallocate (idx pages : Z).

Inductive OpResult : Type :=
| Allocated (idx : option Z)
| Fixed (r : option unit)
| Deallocated.

Section Run.
Context {B : Type} `{Buddy B}.

Definition run_op (op : BuddyOp) : M B OpResult :=
  match op with
  | Allocate n => r <- buddy_allocate n ;; mret (Allocated r)
  | AllocateFixed i n replace => r <- buddy_allocate_fixed i n replace ;; mret (Fixed r)
  | Deallocate i n => buddy_deallocate i n ;;; mret Deallocated
  end.

Fixpoint run_ops (ops : list BuddyOp) : M B (list OpResult) :=
  match ops with
  | [] => mret []
  | op :: ops => r <- run_op op ;; rs <- run_ops ops ;; mret (r :: rs)
  end.
End Run.

(** ** The map of pages *)
Definition fits_b (N : Z) (occ : Z -> bool) (i n : Z) : bool :=
  (0 <=? i) && (0 <=? n) && (i + n <=? N) && forallb (fun j => negb (occ j)) (seqZ i n).

Definition map_op (N : Z) (op : BuddyOp) (occ : Z -> bool) : OpResult * (Z -> bool) :=
  match op with
  | Allocate n =>
      match (if n =? 0 then None else find (fun i => fits_b N occ i n) (seqZ 0 (N - n + 1))) with
      | Some i => (Allocated (Some i), mark occ i n true)
      | None => (Allocated None, occ)
      end
  | AllocateFixed i n replace =>
      if negb (n =? 0) && (i + n <=? N) && (replace || fits_b N occ i n)
      then (Fixed (Some tt), mark occ i n true) else (Fixed None, occ)
  | Deallocate i n => (Deallocated, mark occ i n false)
  end.

Fixpoint map_ops (N : Z) (ops : list BuddyOp) (occ : Z -> bool) : list OpResult * (Z -> bool) :=
  match ops with
  | [] => ([], occ)
  | op :: ops =>
      let '(r, occ) := map_op N op occ in
      let '(rs, occ) := map_ops N ops occ in (r :: rs, occ)
  end.

(** Arguments are unsigned, and what is given back is managed. *)
Definition valid_op (N : Z) (op : BuddyOp) : Prop :=
  match op with
  | Allocate n => 0 <= n
  | AllocateFixed i n _ => 0 <= i /\ 0 <= n
  | Deallocate i n => 0 <= i /\ 0 <= n /\ i + n <= N
  end.

Lemma fits_b_spec N occ i n : fits_b N occ i n = true <-> fits N occ i n.
Proof.
  unfold fits_b, fits. rewrite !andb_true_iff, !Z.leb_le, forallb_forall. split.
  - intros (((? & ?) & ?) & Hf). split_and!; try assumption. intros j Hj.
    apply negb_true_iff, Hf, list_elem_of_In, elem_of_seqZ, Hj.
  - intros (? & ? & ? & Hf). split_and!; try assumption.
    intros j Hj%list_elem_of_In%elem_of_seqZ. apply negb_true_iff, Hf, Hj.
Qed.

(** The first of the indices that fits. *)
Lemma find_first N occ n : 1 <= n ->
  match find (fun i => fits_b N occ i n) (seqZ 0 (N - n + 1)) with
  | Some i => first_fit N occ n i
  | None => forall i, ~ fits N occ i n
  end.
Proof.
  intros Hn.
  assert (Hgen : forall m k, 0 <= k -> k + Z.of_nat m = N - n + 1 -> (forall i, i < k -> ~ fits N occ i n) ->
    match find (fun i => fits_b N occ i n) (seqZ k (Z.of_nat m)) with
    | Some i => first_fit N occ n i
    | None => forall i, ~ fits N occ i n
    end).
  { induction m as [|m IH]; intros k Hk Hm Hbefore.
    - cbn. intros i Hi. destruct (Z.lt_ge_cases i k); [exact (Hbefore i H Hi)|].
      destruct Hi as (? & ? & ? & _). lia.
    - rewrite seqZ_cons by lia. cbn [find]. destruct (fits_b N occ k n) eqn:E.
      + apply fits_b_spec in E. split; [exact E|]. intros i Hi.
        destruct (Z.lt_ge_cases i k); [exfalso; exact (Hbefore i H Hi) | assumption].
      + replace (Z.pred (Z.of_nat (S m))) with (Z.of_nat m) by lia. apply IH; [lia..|].
        intros i Hi Hf. destruct (Z.eq_dec i k) as [->|]; [|apply (Hbefore i); (lia || assumption)].
        apply fits_b_spec in Hf. congruence. }
  destruct (Z.le_gt_cases (N - n + 1) 0) as [Hle|Hgt].
  - rewrite seqZ_nil by lia. cbn. intros i (? & ? & ? & _). lia.
  - specialize (Hgen (Z.to_nat (N - n + 1)) 0 ltac:(lia) ltac:(lia)). rewrite Z2Nat.id in Hgen by lia.
    apply Hgen. intros i Hi (? & _). lia.
Qed.
Lemma first_fit_unique N occ n i k : first_fit N occ n i -> first_fit N occ n k -> i = k.
Proof. intros [Fi Mi] [Fk Mk]. apply Mi in Fk. apply Mk in Fi. lia. Qed.
#[export] Instance first_fit_proper N : Proper (same N ==> eq ==> eq ==> iff) (first_fit N).
Proof. intros o o' E n ? <- i ? <-. unfold first_fit. setoid_rewrite E. reflexivity. Qed.

(** ** Refinement *)
Section Refinement.
Context {B : Type} `{BuddyLaws B}.
Notation N := (buddy_PAGES (B := B)).
Implicit Types (b : B).

Lemma run_op_spec op b occ : buddy_wf b -> same N (occupied b) occ -> valid_op N op ->
  exists b', run_op op b = Some (fst (map_op N op occ), b') /\ buddy_wf b' /\
    same N (occupied b') (snd (map_op N op occ)).
Proof.
  intros Hb Ho Hv. destruct op as [n | i n replace | i n]; cbn [run_op map_op valid_op] in *; unfold mbind.
  - destruct (allocate_law b n Hb Hv) as (r & b' & E & Hw & Hr). rewrite E. exists b'.
    destruct (Z.eqb_spec n 0) as [->|Hn].
    + destruct r as [i|]; [destruct Hr; lia|]. split_and!; [reflexivity | exact Hw |].
      cbn. destruct Hr as [_ ->]. exact Ho.
    + pose proof (find_first N occ n ltac:(lia)) as Hfind. destruct (find _ _) as [k|]; destruct r as [i|].
      * destruct Hr as (_ & Hf & Hs). rewrite Ho in Hf. rewrite (first_fit_unique _ _ _ _ _ Hfind Hf).
        split_and!; [reflexivity | exact Hw |]. cbn. rewrite Hs, Ho. reflexivity.
      * exfalso. apply (proj1 Hr ltac:(lia) k). rewrite Ho. apply Hfind.
      * exfalso. destruct Hr as (_ & [Hf _] & _). rewrite Ho in Hf. exact (Hfind i Hf).
      * split_and!; [reflexivity | exact Hw |]. cbn. destruct Hr as [_ ->]. exact Ho.
  - destruct Hv as [Hi Hn]. destruct (allocate_fixed_law b i n replace Hb Hi Hn) as (r & b' & E & Hw & Hr).
    rewrite E. exists b'.
    assert (Hdec : negb (n =? 0) && (i + n <=? N) && (replace || fits_b N occ i n) = true <->
      1 <= n /\ i + n <= N /\ (replace = true \/ fits N (occupied b) i n)).
    { rewrite !andb_true_iff, negb_true_iff, orb_true_iff, Z.eqb_neq, Z.leb_le, fits_b_spec, Ho. intuition lia. }
    destruct (negb (n =? 0) && (i + n <=? N) && (replace || fits_b N occ i n)); destruct r as [[]|].
    + split_and!; [reflexivity | exact Hw |]. cbn. destruct Hr as (_ & _ & _ & ->). rewrite Ho. reflexivity.
    + exfalso. apply Hr, Hdec. reflexivity.
    + exfalso. destruct Hr as (? & ? & ? & _). assert (false = true) by (apply Hdec; auto). discriminate.
    + split_and!; [reflexivity | exact Hw |]. cbn. destruct Hr as [_ ->]. exact Ho.
  - destruct Hv as (Hi & Hn & Hin). destruct (deallocate_law b i n Hb Hi Hn Hin) as (b' & E & Hw & Hs).
    rewrite E. exists b'. split_and!; [reflexivity | exact Hw |]. cbn. rewrite Hs, Ho. reflexivity.
Qed.

Lemma run_ops_spec ops b occ : buddy_wf b -> same N (occupied b) occ -> Forall (valid_op N) ops ->
  exists b', run_ops ops b = Some (fst (map_ops N ops occ), b') /\ buddy_wf b' /\
    same N (occupied b') (snd (map_ops N ops occ)).
Proof.
  revert b occ; induction ops as [|op ops IH]; intros b occ Hb Ho Hv.
  { exists b. split_and!; [reflexivity | exact Hb | exact Ho]. }
  apply Forall_cons in Hv as [Hv Hvs]. cbn [run_ops map_ops]. unfold mbind.
  destruct (run_op_spec op b occ Hb Ho Hv) as (b1 & -> & Hb1 & Ho1).
  destruct (map_op N op occ) as [r occ1]. cbn [fst snd] in *.
  destruct (IH b1 occ1 Hb1 Ho1 Hvs) as (b2 & -> & Hb2 & Ho2).
  destruct (map_ops N ops occ1) as [rs occ2]. exists b2. split_and!; [reflexivity | exact Hb2 | exact Ho2].
Qed.
End Refinement.

(** C22: the page allocator refines a map of pages with first-fit allocation.  In
    every layout, from the new state, any sequence of valid operations returns
    what the map returns: the lowest run of free pages that is long enough when
    there is one, success of a fixed allocation exactly when its pages are managed
    and free or may be replaced; the pages occupied afterwards are those of the
    map, and the longest free sequence is the length of the map's longest run. *)
Theorem buddy_refines_page_map (l : BuddyLayoutMatch) (ops : list BuddyOp) :
  Forall (valid_op (layout_pages l)) ops ->
  let '(results, occ) := map_ops (layout_pages l) ops (fun _ => false) in
  exists b n, run_ops ops (buddy_new (B := PickLayout l)) = Some (results, b) /\
    same (layout_pages l) (occupied b) occ /\
    longest_free_sequence b = Some n /\ longest_run (layout_pages l) occ n.
Proof.
  rewrite <- (layout_buddy_pages l). intros Hv.
  destruct (run_ops_spec ops (buddy_new (B := PickLayout l)) (fun _ => false) new_wf new_free Hv)
    as (b & E & Hw & Ho).
  destruct (map_ops _ ops (fun _ => false)) as [results occ].
  destruct (longest_law b Hw) as (n & En & Hn). exists b, n. rewrite Ho in Hn. split_and!; assumption.
Qed.

(** Allocations in a tree of four leaves: the second crosses two leaves, the last
    fits only behind the third. *)
Lemma buddy_refines_page_map_witness :
  let ops := [Allocate 60; Allocate 10; Deallocate 0 30; Allocate 31; Allocate 30;
              AllocateFixed 29 1 false; AllocateFixed 100 2 true] in
  exists b, run_ops ops (buddy_new (B := PickLayout Pages256)) =
    Some ([Allocated (Some 0); Allocated (Some 60); Deallocated; Allocated (Some 70); Allocated (Some 0);
           Fixed None; Fixed (Some tt)], b).
Proof.
  intros ops.
  assert (Hv : Forall (valid_op 256) ops) by (repeat constructor; cbn; lia).
  pose proof (buddy_refines_page_map Pages256 ops Hv) as Hrun.
  destruct (map_ops (layout_pages Pages256) ops (fun _ => false)) as [results occ] eqn:E.
  destruct Hrun as (b & n & Hrun & _). exists b.
  assert (Hres : fst (map_ops (layout_pages Pages256) ops (fun _ => false)) =
    [Allocated (Some 0); Allocated (Some 60); Deallocated; Allocated (Some 70); Allocated (Some 0);
     Fixed None; Fixed (Some tt)]) by (vm_compute; reflexivity).
  rewrite E in Hres. cbn [fst] in Hres. rewrite <- Hres. exact Hrun.
Defined.
