(* ===== verification/Memory.v ===== *)
(** * Main memory

    Models [src/riscv/lib/src/machine_state/memory.rs], [memory/state.rs] and
    [memory/protection.rs]: a byte array under per-page read, write and execute
    permissions, with an allocator of pages.

    [Memory] is the trait the machine uses; [MemoryImpl] is its implementation,
    for a number of pages [PAGES], a size [TOTAL_BYTES] and any [Buddy]
    allocator.  [None] is an out-of-bounds access: a panic of the byte array, or
    undefined behaviour of the unchecked page lookup. *)

From S2P Require Import Prelude.
From S2P Require Import Icb.
From S2P Require Import Buddy.

Definition OFFSET_BITS : Z := 12.
Definition OFFSET_MASK : Z := Z.shiftl 1 OFFSET_BITS - 1.
Definition PAGE_SIZE : Z := Z.shiftl 1 OFFSET_BITS.
Definition FIRST_ADDRESS : Z := 0.

Inductive BadMemoryAccess : Type := BadMemoryAccess_.
Inductive MemoryGovernanceError : Type := MemoryGovernanceError_.

Record Permissions : Type := mkPermissions { p_read : bool; p_write : bool; p_exec : bool }.
Definition PERM_NONE : Permissions := mkPermissions false false false.
Definition PERM_WRITE : Permissions := mkPermissions false true false.
Definition PERM_READ_WRITE : Permissions := mkPermissions true true false.

(** [impl TryFrom<XValue> for Permissions]; [None] is [Error::InvalidArgument]. *)
Definition permissions_of_xvalue (value : Z) : option Permissions :=
  if negb (Z.land value (wrap 64 (Z.lnot 7)) =? 0) then None
  else Some {| p_read := negb (Z.land value 1 =? 0);
               p_write := negb (Z.land value 2 =? 0);
               p_exec := negb (Z.land value 4 =? 0) |}.

Record InstructionData : Type := mkInstructionData { data : Z; writable : bool }.

Definition combine_with_upper (self upper : InstructionData) : InstructionData :=
  {| data := Z.lor (data self) (shl 32 (data upper) 16);
     writable := writable self || writable upper |}.

(** The trait [Memory]: the operations the instructions and the boot code use. *)
Class Memory (Mem : Type) : Type := {
  mem_read : StoreLoadInt -> Z -> M Mem (result Z BadMemoryAccess);
  mem_read_exec : StoreLoadInt -> Z -> M Mem (result InstructionData BadMemoryAccess);
  mem_read_all : Z -> Z -> M Mem (result (list Z) BadMemoryAccess);
  mem_write : StoreLoadInt -> Z -> Z -> M Mem (result unit BadMemoryAccess);
  mem_write_array : Z -> list Z -> M Mem (result unit BadMemoryAccess);
  mem_write_all : Z -> list Z -> M Mem (result unit BadMemoryAccess);
  mem_reset : M Mem unit;
  mem_protect_pages : Z -> Z -> Permissions -> M Mem (result unit MemoryGovernanceError);
  mem_allocate_pages : option Z -> Z -> bool -> M Mem (result Z MemoryGovernanceError);
  mem_deallocate_pages : Z -> Z -> M Mem (result unit MemoryGovernanceError);
  mem_allocate_and_protect_pages :
    option Z -> Z -> Permissions -> bool -> M Mem (result Z MemoryGovernanceError) }.

(** The provided method [deallocate_and_protect_pages]. *)
Definition deallocate_and_protect_pages {Mem} `{Memory Mem} (address length : Z)
  : M Mem (result unit MemoryGovernanceError) :=
  r <- mem_deallocate_pages address length ;;
  match r with
  | Err e => mret (Err e)
  | Ok _ => mem_protect_pages address length PERM_NONE
  end.

(** ** Byte arrays: [DynCells]

    Elements are stored in little-endian order. *)
Fixpoint le_bytes (n : nat) (v : Z) : list Z :=
  match n with O => [] | S n => wrap 8 v :: le_bytes n (Z.shiftr v 8) end.

Fixpoint le_value (bytes : list Z) : Z :=
  match bytes with [] => 0 | b :: bytes => Z.lor b (Z.shiftl (le_value bytes) 8) end.

Definition in_array (cells : list Z) (address length : Z) : bool :=
  (0 <=? address) && (0 <=? length) && (address + length <=? Z.of_nat (List.length cells)).

(** [read], [write], [read_all] and [write_all] of the byte array. *)
Definition cells_read_bytes (cells : list Z) (address length : Z) : option (list Z) :=
  if in_array cells address length
  then Some (take (Z.to_nat length) (drop (Z.to_nat address) cells)) else None.
Definition cells_write_bytes (cells : list Z) (address : Z) (bytes : list Z) : option (list Z) :=
  if in_array cells address (Z.of_nat (List.length bytes))
  then Some (list_inserts (Z.to_nat address) bytes cells) else None.

Definition cells_read_elem (V : StoreLoadInt) (cells : list Z) (address : Z) : option Z :=
  match cells_read_bytes cells address (width_of (WIDTH V)) with
  | Some bytes => Some (cast_to V (le_value bytes))
  | None => None
  end.
Definition cells_write_elem (V : StoreLoadInt) (cells : list Z) (address value : Z)
  : option (list Z) :=
  cells_write_bytes cells address (le_bytes (Z.to_nat (width_of (WIDTH V))) value).

(** ** Page permissions *)
Definition PagePermissions : Type := list bool.

(** [pages.get_unchecked(page).read()]. *)
Definition page_read (pages : PagePermissions) (page : Z) : option bool :=
  if page <? 0 then None else pages !! Z.to_nat page.

(** The loop of [can_access], over [n] pages from [page]. *)
Fixpoint pages_all (pages : PagePermissions) (page : Z) (n : nat) : option bool :=
  match n with
  | O => Some true
  | S n =>
      match page_read pages page with
      | None => None
      | Some false => Some false
      | Some true => pages_all pages (page + 1) n
      end
  end.

Definition start_page (address : Z) : Z := Z.shiftr address OFFSET_BITS.
Definition end_page (address length : Z) : Z :=
  Z.shiftr (wrap 64 (wrap 64 (address + length) - 1)) OFFSET_BITS.

Definition can_access (pages : PagePermissions) (address length : Z) : option bool :=
  if length <? 1 then Some true
  else
    let start_page := start_page address in
    let end_page := end_page address length in
    pages_all pages start_page (Z.to_nat (end_page - start_page + 1)).

(** [can_access_narrow::<E>], for an [E] of [size] bytes. *)
Definition can_access_narrow (pages : PagePermissions) (address size : Z) : option bool :=
  match page_read pages (start_page address) with
  | None => None
  | Some false => Some false
  | Some true => page_read pages (end_page address size)
  end.

(** [modify_access]: [(start_page..=end_page).filter(|page| page < PAGES)]. *)
Definition modify_access (pages : PagePermissions) (address length : Z) (accessible : bool)
  : PagePermissions :=
  if length <? 1 then pages
  else
    let start_page := start_page address in
    let end_page := end_page address length in
    imap (fun i p => if (start_page <=? Z.of_nat i) && (Z.of_nat i <=? end_page)
                     then accessible else p) pages.

(** ** [MemoryImpl] *)
Record MemoryImpl (B : Type) : Type := mkMemoryImpl {
  m_data : list Z;
  readable_pages : PagePermissions;
  writable_pages : PagePermissions;
  executable_pages : PagePermissions;
  allocated_pages : B }.
Arguments mkMemoryImpl {B} m_data readable_pages writable_pages executable_pages allocated_pages.
Arguments m_data {B} _.
Arguments readable_pages {B} _.
Arguments writable_pages {B} _.
Arguments executable_pages {B} _.
Arguments allocated_pages {B} _.

Definition with_data {B} (d : list Z) (m : MemoryImpl B) : MemoryImpl B :=
  mkMemoryImpl d (readable_pages m) (writable_pages m) (executable_pages m) (allocated_pages m).
Definition with_allocated {B} (b : B) (m : MemoryImpl B) : MemoryImpl B :=
  mkMemoryImpl (m_data m) (readable_pages m) (writable_pages m) (executable_pages m) b.

(** Running an operation of the allocator on its field. *)
Definition on_buddy {B A} (f : M B A) : M (MemoryImpl B) A :=
  fun m => match f (allocated_pages m) with
           | Some (a, b) => Some (a, with_allocated b m)
           | None => None
           end.

Section MemoryImpl.
Context {B : Type} `{Buddy B} (TOTAL_BYTES : Z).
Notation Mem := (MemoryImpl B).

(** [check_bounds]: [true] is [Ok]. *)
Definition check_bounds (address length : Z) : bool :=
  negb (Z.max 0 (TOTAL_BYTES - address) <? length).

Definition memory_read (V : StoreLoadInt) (address : Z) : M Mem (result Z BadMemoryAccess) :=
  let size := width_of (WIDTH V) in
  if check_bounds address size then
    self <- mget (fun m => m) ;;
    accessible <- mlift (can_access_narrow (readable_pages self) address size) ;;
    if negb accessible then mret (Err BadMemoryAccess_)
    else v <- mlift (cells_read_elem V (m_data self) address) ;; mret (Ok v)
  else mret (Err BadMemoryAccess_).

Definition memory_read_exec (V : StoreLoadInt) (address : Z)
  : M Mem (result InstructionData BadMemoryAccess) :=
  let length := width_of (WIDTH V) in
  if check_bounds address length then
    self <- mget (fun m => m) ;;
    accessible <- mlift (can_access_narrow (executable_pages self) address length) ;;
    if negb accessible then mret (Err BadMemoryAccess_)
    else
      data <- mlift (cells_read_elem V (m_data self) address) ;;
      writable <- mlift (can_access_narrow (writable_pages self) address length) ;;
      mret (Ok {| data := data; writable := writable |})
  else mret (Err BadMemoryAccess_).

(** [read_all] and [write_all], for slices of [u8]. *)
Definition memory_read_all (address length : Z) : M Mem (result (list Z) BadMemoryAccess) :=
  if check_bounds address length then
    self <- mget (fun m => m) ;;
    accessible <- mlift (can_access (readable_pages self) address length) ;;
    if negb accessible then mret (Err BadMemoryAccess_)
    else vs <- mlift (cells_read_bytes (m_data self) address length) ;; mret (Ok vs)
  else mret (Err BadMemoryAccess_).

Definition memory_write (V : StoreLoadInt) (address value : Z)
  : M Mem (result unit BadMemoryAccess) :=
  let size := width_of (WIDTH V) in
  if check_bounds address size then
    self <- mget (fun m => m) ;;
    accessible <- mlift (can_access_narrow (writable_pages self) address size) ;;
    if negb accessible then mret (Err BadMemoryAccess_)
    else
      d <- mlift (cells_write_elem V (m_data self) address value) ;;
      mput (with_data d) ;;;
      mret (Ok tt)
  else mret (Err BadMemoryAccess_).

(** [write], for an array of bytes: one element of its length. *)
Definition memory_write_array (address : Z) (value : list Z) : M Mem (result unit BadMemoryAccess) :=
  let size := Z.of_nat (List.length value) in
  if check_bounds address size then
    self <- mget (fun m => m) ;;
    accessible <- mlift (can_access_narrow (writable_pages self) address size) ;;
    if negb accessible then mret (Err BadMemoryAccess_)
    else
      d <- mlift (cells_write_bytes (m_data self) address value) ;;
      mput (with_data d) ;;;
      mret (Ok tt)
  else mret (Err BadMemoryAccess_).

Definition memory_write_all (address : Z) (values : list Z) : M Mem (result unit BadMemoryAccess) :=
  let length := Z.of_nat (List.length values) in
  if check_bounds address length then
    self <- mget (fun m => m) ;;
    accessible <- mlift (can_access (writable_pages self) address length) ;;
    if negb accessible then mret (Err BadMemoryAccess_)
    else
      d <- mlift (cells_write_bytes (m_data self) address values) ;;
      mput (with_data d) ;;;
      mret (Ok tt)
  else mret (Err BadMemoryAccess_).

(** Writing zeros to [n] elements of type [V], upwards from [address]. *)
Fixpoint write_zeros (V : StoreLoadInt) (n : nat) (address : Z) : M Mem unit :=
  match n with
  | O => mret tt
  | S n =>
      self <- mget (fun m => m) ;;
      d <- mlift (cells_write_elem V (m_data self) address 0) ;;
      mput (with_data d) ;;;
      write_zeros V n (address + width_of (WIDTH V))
  end.

(** [reset]: 64-bit chunks, then the remaining bytes; permissions and the
    allocator are left as they are. *)
Definition memory_reset : M Mem unit :=
  write_zeros u64 (Z.to_nat (TOTAL_BYTES / 8)) 0 ;;;
  write_zeros u8 (Z.to_nat (TOTAL_BYTES mod 8)) (8 * (TOTAL_BYTES / 8)).

Definition memory_protect_pages (address length : Z) (perms : Permissions)
  : M Mem (result unit MemoryGovernanceError) :=
  if check_bounds address length then
    mput (fun m => mkMemoryImpl (m_data m)
            (modify_access (readable_pages m) address length (p_read perms))
            (modify_access (writable_pages m) address length (p_write perms))
            (modify_access (executable_pages m) address length (p_exec perms))
            (allocated_pages m)) ;;;
    mret (Ok tt)
  else mret (Err MemoryGovernanceError_).

Definition div_ceil (a b : Z) : Z := (a + b - 1) / b.

Definition memory_deallocate_pages (address length : Z)
  : M Mem (result unit MemoryGovernanceError) :=
  if check_bounds address length then
    let pages := div_ceil length PAGE_SIZE in
    let idx := Z.shiftr address OFFSET_BITS in
    on_buddy (buddy_deallocate idx pages) ;;;
    mret (Ok tt)
  else mret (Err MemoryGovernanceError_).

Definition memory_allocate_pages (address_hint : option Z) (length : Z) (allow_replace : bool)
  : M Mem (result Z MemoryGovernanceError) :=
  let pages := div_ceil length PAGE_SIZE in
  match address_hint with
  | Some address =>
      if check_bounds address length then
        let idx := Z.shiftr address OFFSET_BITS in
        r <- on_buddy (buddy_allocate_fixed idx pages allow_replace) ;;
        mret (match r with Some _ => Ok address | None => Err MemoryGovernanceError_ end)
      else mret (Err MemoryGovernanceError_)
  | None =>
      r <- on_buddy (buddy_allocate pages) ;;
      mret (match r with
            | Some idx => Ok (wrap 64 (Z.shiftl idx OFFSET_BITS))
            | None => Err MemoryGovernanceError_
            end)
  end.

(** The zeroing loop of [allocate_and_protect_pages]: downwards in 8-byte chunks
    while 8 bytes remain, then byte by byte; [saturating_add] on [usize]. *)
Definition sat_add (a b : Z) : Z := Z.min (a + b) (2 ^ 64 - 1).
Fixpoint zero_down (n : nat) (address remaining : Z) : M Mem unit :=
  match n with
  | O => mret tt
  | S n =>
      let remaining := remaining - 8 in
      self <- mget (fun m => m) ;;
      d <- mlift (cells_write_elem u64 (m_data self) (sat_add address remaining) 0) ;;
      mput (with_data d) ;;;
      zero_down n address remaining
  end.
Fixpoint zero_tail (n : nat) (address i : Z) : M Mem unit :=
  match n with
  | O => mret tt
  | S n =>
      self <- mget (fun m => m) ;;
      d <- mlift (cells_write_elem u8 (m_data self) (sat_add address i) 0) ;;
      mput (with_data d) ;;;
      zero_tail n address (i + 1)
  end.

Definition sat_mul (a b : Z) : Z := Z.min (a * b) (2 ^ 64 - 1).

Definition memory_allocate_and_protect_pages (address_hint : option Z) (length : Z)
    (perms : Permissions) (allow_replace : bool) : M Mem (result Z MemoryGovernanceError) :=
  r <- memory_allocate_pages address_hint length allow_replace ;;
  match r with
  | Err e => mret (Err e)
  | Ok address =>
      p <- memory_protect_pages address length perms ;;
      d <- (match p with
            | Ok _ => mret (Ok tt)
            | Err _ => memory_deallocate_pages address length
            end) ;;
      match d with
      | Err e => mret (Err e)
      | Ok _ =>
          let remaining := sat_mul (div_ceil length PAGE_SIZE) PAGE_SIZE in
          zero_down (Z.to_nat (remaining / 8)) address remaining ;;;
          zero_tail (Z.to_nat (remaining mod 8)) address 0 ;;;
          mret (Ok address)
      end
  end.

Definition memory_new (b : B) (PAGES : Z) : Mem :=
  mkMemoryImpl (replicate (Z.to_nat TOTAL_BYTES) 0) (replicate (Z.to_nat PAGES) false)
    (replicate (Z.to_nat PAGES) false) (replicate (Z.to_nat PAGES) false) b.

#[export] Instance memory_impl : Memory Mem := {
  mem_read := memory_read;
  mem_read_exec := memory_read_exec;
  mem_read_all := memory_read_all;
  mem_write := memory_write;
  mem_write_array := memory_write_array;
  mem_write_all := memory_write_all;
  mem_reset := memory_reset;
  mem_protect_pages := memory_protect_pages;
  mem_allocate_pages := memory_allocate_pages;
  mem_deallocate_pages := memory_deallocate_pages;
  mem_allocate_and_protect_pages := memory_allocate_and_protect_pages }.

End MemoryImpl.
