(* ===== verification/MemorySpec.v ===== *)
(** * What main memory promises

    The permission checks go page by page, or look at the first and the last
    page only; the specification here goes byte by byte: an access is granted
    when it ends within the memory and every byte of it lies in a page with the
    permission ([granted]).  The operations of [MemoryImpl] are shown to refine
    an array of bytes under that test.

    Then: what [read_all], [write_all] and the write of a byte array do to the bytes of
    memory, for the supervisor, the boot code and the Tezos interface. *)

From S2P Require Import Prelude.
From S2P Require Import Icb.
From S2P Require Import Buddy.
From S2P Require Import Memory.

(** ** Specification *)

(** The page of a byte has the permission. *)
Definition byte_allowed (pages : PagePermissions) (i : Z) : bool :=
  match pages !! Z.to_nat (i / 4096) with Some b => b | None => false end.

Definition granted (total : Z) (pages : PagePermissions) (address length : Z) : bool :=
  (address + length <=? total) && forallb (byte_allowed pages) (seqZ address length).

(** The byte at an address, and the [n] bytes from it. *)
Definition byte_at {B} (m : MemoryImpl B) (i : Z) : Z := nth (Z.to_nat i) (m_data m) 0.
Definition bytes_at {B} (m : MemoryImpl B) (address n : Z) : list Z :=
  map (byte_at m) (seqZ address n).

(** The page of byte [i] meets the range of [n] bytes from [a]. *)
Definition pages_touched (a n i : Z) : bool :=
  (0 <? n) && (a <? 4096 * (i / 4096) + 4096) && (4096 * (i / 4096) <? a + n).

(** The invariant: arrays of the right sizes, whole pages, [usize] bounds. *)
Record mem_ok {B} (total : Z) (m : MemoryImpl B) : Prop := {
  ok_total : 0 <= total < 2 ^ 64;
  ok_data : Z.of_nat (length (m_data m)) = total;
  ok_readable : 4096 * Z.of_nat (length (readable_pages m)) = total;
  ok_writable : 4096 * Z.of_nat (length (writable_pages m)) = total;
  ok_executable : 4096 * Z.of_nat (length (executable_pages m)) = total }.

(** ** Bytes *)
Lemma le_bytes_length n v : length (le_bytes n v) = n.
Proof. revert v; induction n; intros; simpl; [reflexivity|]. rewrite IHn; reflexivity. Qed.

Lemma le_value_le_bytes n v : le_value (le_bytes n v) = wrap (8 * Z.of_nat n) v.
Proof.
  revert v; induction n; intros v; [symmetry; apply Z.mod_1_r|].
  cbn [le_bytes le_value]. rewrite IHn. bitwise.
Qed.

Lemma cast_to_wrap V v : cast_to V (wrap (bits_of V) v) = cast_to V v.
Proof.
  assert (0 <= bits_of V) by (unfold bits_of; destruct (WIDTH V); simpl; lia).
  unfold cast_to; destruct (SIGNED V); [apply sext_wrap | apply wrap_wrap]; lia.
Qed.

Lemma width_of_bounds w : 1 <= width_of w <= 8.
Proof. destruct w; simpl; lia. Qed.

(** ** Pages *)
Lemma page_of_byte a : start_page a = a / 4096.
Proof. unfold start_page, OFFSET_BITS. rewrite Z.shiftr_div_pow2 by lia. reflexivity. Qed.

Lemma page_of_last a n total : 0 <= total < 2 ^ 64 -> 0 <= a -> 1 <= n -> a + n <= total ->
  end_page a n = (a + n - 1) / 4096.
Proof.
  intros Ht Ha Hn Hb. unfold end_page, OFFSET_BITS.
  rewrite !wrap_small by (unfold urange; try rewrite wrap_small by (unfold urange; lia); lia).
  rewrite Z.shiftr_div_pow2 by lia. reflexivity.
Qed.

Lemma page_read_allowed pages i : 0 <= i < 4096 * Z.of_nat (length pages) ->
  page_read pages (i / 4096) = Some (byte_allowed pages i).
Proof.
  intros Hi. unfold page_read, byte_allowed.
  assert (0 <= i / 4096 < Z.of_nat (length pages))
    by (split; [apply Z.div_pos; lia | apply Z.div_lt_upper_bound; lia]).
  destruct (Z.ltb_spec (i / 4096) 0); [lia|].
  unfold PagePermissions in *.
  destruct (lookup_lt_is_Some_2 pages (Z.to_nat (i / 4096))) as [b Hb]; [lia|].
  rewrite Hb. reflexivity.
Qed.

Lemma byte_allowed_page pages i j : i / 4096 = j / 4096 ->
  byte_allowed pages i = byte_allowed pages j.
Proof. unfold byte_allowed; intros ->; reflexivity. Qed.

Lemma forallb_seqZ f a n :
  forallb f (seqZ a n) = true <-> (forall i, a <= i < a + n -> f i = true).
Proof.
  rewrite forallb_forall. split; intros H i Hi.
  - apply H. apply list_elem_of_In, elem_of_seqZ. lia.
  - apply H. apply list_elem_of_In, elem_of_seqZ in Hi. lia.
Qed.

(** The loop visits pages [p .. p + n - 1]. *)
Lemma pages_all_spec pages n p : 0 <= p -> p + Z.of_nat n <= Z.of_nat (length pages) ->
  pages_all pages p n =
    Some (forallb (fun q => byte_allowed pages (4096 * q)) (seqZ p (Z.of_nat n))).
Proof.
  revert p; induction n; intros p Hp Hb; [reflexivity|].
  rewrite seqZ_cons by lia. cbn [pages_all forallb].
  pose proof (page_read_allowed pages (4096 * p) ltac:(lia)) as Hr.
  rewrite Z.mul_comm, Z.div_mul, Z.mul_comm in Hr by lia. rewrite Hr.
  destruct (byte_allowed pages (4096 * p)); [|reflexivity].
  rewrite IHn by lia. cbn [andb]. do 3 f_equal. lia.
Qed.

Section Pages.
Context (total : Z) (pages : PagePermissions).
Context (Htotal : 0 <= total < 2 ^ 64) (Hpages : 4096 * Z.of_nat (length pages) = total).

Lemma can_access_granted a n : 0 <= a -> 1 <= n -> a + n <= total ->
  can_access pages a n = Some (forallb (byte_allowed pages) (seqZ a n)).
Proof.
  intros Ha Hn Hb. unfold can_access. destruct (Z.ltb_spec n 1); [lia|].
  rewrite page_of_byte, (page_of_last a n total) by lia.
  pose proof (Z.div_mod a 4096 ltac:(lia)). pose proof (Z.mod_pos_bound a 4096 ltac:(lia)).
  pose proof (Z.div_mod (a + n - 1) 4096 ltac:(lia)).
  pose proof (Z.mod_pos_bound (a + n - 1) 4096 ltac:(lia)).
  rewrite pages_all_spec by lia. f_equal. apply eq_true_iff_eq.
  rewrite !forallb_seqZ. cbv beta. split; intros Hall i Hi.
  - pose proof (Z.div_mod i 4096 ltac:(lia)). pose proof (Z.mod_pos_bound i 4096 ltac:(lia)).
    rewrite <- (Hall (i / 4096)) by lia. apply byte_allowed_page.
    rewrite (Z.mul_comm 4096), Z.div_mul by lia. reflexivity.
  - rewrite <- (Hall (Z.max a (4096 * i))) by lia. apply byte_allowed_page.
    rewrite (Z.mul_comm 4096 i), Z.div_mul by lia.
    apply (Z.div_unique _ _ _ (Z.max a (i * 4096) - i * 4096)); lia.
Qed.

Lemma can_access_narrow_granted a n : 0 <= a -> 1 <= n <= 4096 -> a + n <= total ->
  can_access_narrow pages a n = Some (forallb (byte_allowed pages) (seqZ a n)).
Proof.
  intros Ha Hn Hb. unfold can_access_narrow.
  rewrite page_of_byte, (page_of_last a n total) by lia.
  rewrite !page_read_allowed by lia.
  assert (E : forallb (byte_allowed pages) (seqZ a n)
              = byte_allowed pages a && byte_allowed pages (a + n - 1)).
  { apply eq_true_iff_eq. rewrite andb_true_iff, forallb_seqZ. split.
    - intros Hall; split; apply Hall; lia.
    - intros [H1 H2] i Hi.
      pose proof (Z.div_mod i 4096 ltac:(lia)). pose proof (Z.mod_pos_bound i 4096 ltac:(lia)).
      pose proof (Z.div_mod a 4096 ltac:(lia)). pose proof (Z.mod_pos_bound a 4096 ltac:(lia)).
      pose proof (Z.div_mod (a + n - 1) 4096 ltac:(lia)).
      pose proof (Z.mod_pos_bound (a + n - 1) 4096 ltac:(lia)).
      assert (i / 4096 = a / 4096 \/ i / 4096 = (a + n - 1) / 4096) as [E|E] by lia.
      + rewrite <- H1. apply byte_allowed_page, E.
      + rewrite <- H2. apply byte_allowed_page, E. }
  rewrite E. destruct (byte_allowed pages a); reflexivity.
Qed.
End Pages.

(** ** The byte array *)
Lemma take_drop_bytes l (a n : nat) : (a + n <= length l)%nat ->
  take n (drop a l) = map (fun i => nth (Z.to_nat i) l 0) (seqZ (Z.of_nat a) (Z.of_nat n)).
Proof.
  revert a; induction n; intros a Hb; [reflexivity|].
  rewrite seqZ_cons by lia.
  destruct (drop a l) as [|x l'] eqn:E.
  { apply (f_equal length) in E. rewrite length_drop in E. simpl in E. lia. }
  cbn [take map].
  replace (Z.succ (Z.of_nat a)) with (Z.of_nat (S a)) by lia.
  replace (Z.pred (Z.of_nat (S n))) with (Z.of_nat n) by lia.
  rewrite <- IHn by lia. f_equal.
  - rewrite Nat2Z.id. pose proof (lookup_drop l a 0) as L. rewrite E in L. simpl in L.
    rewrite Nat.add_0_r in L. symmetry in L. symmetry. exact (nth_lookup_Some _ _ _ _ L).
  - replace l' with (drop 1 (drop a l)) by (rewrite E; reflexivity).
    rewrite drop_drop. do 2 f_equal. lia.
Qed.

Lemma nth_inserts l (a : nat) bs (i : nat) : (a + length bs <= length l)%nat ->
  nth i (list_inserts a bs l) 0
  = if (a <=? i)%nat && (i <? a + length bs)%nat then nth (i - a) bs 0 else nth i l 0.
Proof.
  intros Hb. rewrite !nth_lookup.
  destruct (Nat.leb_spec a i), (Nat.ltb_spec i (a + length bs)); cbn [andb].
  - rewrite list_lookup_inserts by lia. reflexivity.
  - rewrite list_lookup_inserts_ge by lia. reflexivity.
  - rewrite list_lookup_inserts_lt by lia. reflexivity.
  - lia.
Qed.

Lemma nth_le_bytes n v i : (i < n)%nat -> nth i (le_bytes n v) 0 = field (8 * Z.of_nat i) 8 v.
Proof.
  revert v i; induction n; intros v i Hi; [lia|]. destruct i; cbn [le_bytes nth].
  - bitwise.
  - rewrite IHn by lia. replace (8 * Z.of_nat (S i)) with (8 * Z.of_nat i + 8) by lia. bitwise.
Qed.

(** ** Refinement *)
Section Refinement.
Context {B : Type} (total : Z) (m : MemoryImpl B) (Hok : mem_ok total m).

Lemma in_array_bound a n : 0 <= a -> 0 <= n -> a + n <= total -> in_array (m_data m) a n = true.
Proof.
  intros. unfold in_array. rewrite (ok_data _ _ Hok).
  rewrite !andb_true_iff, !Z.leb_le. lia.
Qed.

Lemma read_bytes_at a n : 0 <= a -> 0 <= n -> a + n <= total ->
  cells_read_bytes (m_data m) a n = Some (bytes_at m a n).
Proof.
  intros Ha Hn Hb. unfold cells_read_bytes. rewrite in_array_bound by lia.
  pose proof (ok_data _ _ Hok). rewrite take_drop_bytes by lia.
  unfold bytes_at, byte_at. rewrite !Z2Nat.id by lia. reflexivity.
Qed.

Lemma check_bounds_granted pages a n : 0 <= a -> 1 <= n ->
  4096 * Z.of_nat (length pages) = total ->
  (check_bounds total a n = false /\ granted total pages a n = false) \/
  (check_bounds total a n = true /\ a + n <= total /\
   granted total pages a n = forallb (byte_allowed pages) (seqZ a n)).
Proof.
  intros Ha Hn Hp. pose proof (ok_total _ _ Hok). unfold check_bounds, granted.
  destruct (Z.ltb_spec (Z.max 0 (total - a)) n), (Z.leb_spec (a + n) total); cbn; auto; lia.
Qed.

(** The access checks of the operations, in one step. *)
Lemma narrow_checked pages (V : StoreLoadInt) a : 0 <= a ->
  4096 * Z.of_nat (length pages) = total -> a + width_of (WIDTH V) <= total ->
  can_access_narrow pages a (width_of (WIDTH V))
  = Some (forallb (byte_allowed pages) (seqZ a (width_of (WIDTH V)))).
Proof.
  intros. pose proof (width_of_bounds (WIDTH V)).
  apply (can_access_narrow_granted total); try lia. apply (ok_total _ _ Hok).
Qed.

Lemma with_data_ok d : length d = length (m_data m) -> mem_ok total (with_data d m).
Proof. intros Hd. destruct Hok. constructor; cbn; [| rewrite Hd |..]; assumption. Qed.

Lemma write_bytes_spec a bs : 0 <= a -> a + Z.of_nat (length bs) <= total ->
  exists d, cells_write_bytes (m_data m) a bs = Some d /\ length d = length (m_data m) /\
    forall i, 0 <= i -> nth (Z.to_nat i) d 0 =
      if (a <=? i) && (i <? a + Z.of_nat (length bs)) then nth (Z.to_nat (i - a)) bs 0
      else byte_at m i.
Proof.
  intros Ha Hb. unfold cells_write_bytes. rewrite in_array_bound by lia.
  eexists; split; [reflexivity|]. split; [apply length_inserts|].
  intros i Hi. pose proof (ok_data _ _ Hok). rewrite nth_inserts by lia.
  unfold byte_at. rewrite Z2Nat.inj_sub by lia.
  destruct (Z.leb_spec a i), (Z.ltb_spec i (a + Z.of_nat (length bs))),
    (Nat.leb_spec (Z.to_nat a) (Z.to_nat i)),
    (Nat.ltb_spec (Z.to_nat i) (Z.to_nat a + length bs)); cbn; try lia; reflexivity.
Qed.

Lemma memory_read_eq V a : 0 <= a ->
  memory_read total V a m =
    Some (if granted total (readable_pages m) a (width_of (WIDTH V))
          then Ok (cast_to V (le_value (bytes_at m a (width_of (WIDTH V)))))
          else Err BadMemoryAccess_, m).
Proof.
  intros Ha. pose proof (width_of_bounds (WIDTH V)) as Hw.
  unfold memory_read, mbind, mget, mlift, mret.
  destruct (check_bounds_granted (readable_pages m) a (width_of (WIDTH V)) Ha ltac:(lia)
              (ok_readable _ _ Hok)) as [[-> ->]|(-> & Hb & ->)]; [reflexivity|].
  rewrite narrow_checked by (try lia; apply (ok_readable _ _ Hok)).
  destruct (forallb _ _); cbn [negb]; [|reflexivity].
  unfold cells_read_elem. rewrite read_bytes_at by lia. reflexivity.
Qed.

Lemma memory_write_eq V a v : 0 <= a ->
  exists m', memory_write total V a v m =
    Some (if granted total (writable_pages m) a (width_of (WIDTH V)) then Ok tt
          else Err BadMemoryAccess_, m') /\
    mem_ok total m' /\ m' = with_data (m_data m') m /\
    forall i, 0 <= i -> byte_at m' i =
      if granted total (writable_pages m) a (width_of (WIDTH V)) && (a <=? i)
         && (i <? a + width_of (WIDTH V))
      then field (8 * (i - a)) 8 v else byte_at m i.
Proof.
  intros Ha. pose proof (width_of_bounds (WIDTH V)) as Hw.
  unfold memory_write, mbind, mget, mput, mlift, mret.
  destruct (check_bounds_granted (writable_pages m) a (width_of (WIDTH V)) Ha ltac:(lia)
              (ok_writable _ _ Hok)) as [[-> ->]|(-> & Hb & ->)];
    [exists m; split_and!; auto; destruct m; reflexivity|].
  rewrite narrow_checked by (try lia; apply (ok_writable _ _ Hok)).
  destruct (forallb _ _); cbn [negb andb]; [|exists m; split_and!; auto; destruct m; reflexivity].
  unfold cells_write_elem.
  destruct (write_bytes_spec a (le_bytes (Z.to_nat (width_of (WIDTH V))) v) Ha) as (d & -> & Hd & Hi);
    [rewrite le_bytes_length; lia|].
  exists (with_data d m). split_and!; [reflexivity | apply with_data_ok, Hd | reflexivity |].
  intros i Hi0. unfold byte_at at 1. cbn [with_data m_data]. rewrite Hi, le_bytes_length, Z2Nat.id by lia.
  destruct (Z.leb_spec a i), (Z.ltb_spec i (a + width_of (WIDTH V))); cbn [andb]; auto.
  rewrite nth_le_bytes by lia. f_equal. lia.
Qed.
End Refinement.

Section Operations.
Context {B : Type} (total : Z).
Implicit Types m : MemoryImpl B.

Lemma memory_read_exec_eq m V a : mem_ok total m -> 0 <= a ->
  memory_read_exec total V a m =
    Some (if granted total (executable_pages m) a (width_of (WIDTH V))
          then Ok {| data := cast_to V (le_value (bytes_at m a (width_of (WIDTH V))));
                     writable := granted total (writable_pages m) a (width_of (WIDTH V)) |}
          else Err BadMemoryAccess_, m).
Proof.
  intros Hok Ha. pose proof (width_of_bounds (WIDTH V)) as Hw.
  unfold memory_read_exec, mbind, mget, mlift, mret.
  destruct (check_bounds_granted total m Hok (executable_pages m) a (width_of (WIDTH V)) Ha ltac:(lia)
              (ok_executable _ _ Hok)) as [[-> ->]|(-> & Hb & ->)]; [reflexivity|].
  rewrite (narrow_checked total m Hok) by (try lia; apply (ok_executable _ _ Hok)).
  destruct (forallb _ _); cbn [negb]; [|reflexivity].
  unfold cells_read_elem. rewrite (read_bytes_at total m Hok) by lia.
  rewrite (narrow_checked total m Hok) by (try lia; apply (ok_writable _ _ Hok)).
  unfold granted. replace (a + width_of (WIDTH V) <=? total) with true
    by (symmetry; apply Z.leb_le; lia). reflexivity.
Qed.

Lemma bytes_at_ext m m' a n :
  (forall i, a <= i < a + n -> byte_at m' i = byte_at m i) -> bytes_at m' a n = bytes_at m a n.
Proof.
  intros H. apply map_ext_in. intros i Hi. apply H.
  apply list_elem_of_In, elem_of_seqZ in Hi. lia.
Qed.

Lemma bytes_at_le_bytes m a (n : nat) v :
  (forall i, a <= i < a + Z.of_nat n -> byte_at m i = field (8 * (i - a)) 8 v) ->
  bytes_at m a (Z.of_nat n) = le_bytes n v.
Proof.
  revert a v; induction n; intros a v H; [reflexivity|].
  unfold bytes_at. rewrite seqZ_cons by lia. cbn [map le_bytes]. f_equal.
  - rewrite H by lia. rewrite Z.sub_diag, Z.mul_0_r. bitwise.
  - replace (Z.pred (Z.of_nat (S n))) with (Z.of_nat n) by lia.
    apply IHn. intros i Hi. rewrite H by lia.
    replace (8 * (i - a)) with (8 * (i - Z.succ a) + 8) by lia. bitwise.
Qed.

Lemma modify_access_allowed pages a n b i : 0 <= total < 2 ^ 64 ->
  4096 * Z.of_nat (length pages) = total -> 0 <= a -> 0 <= n -> a + n <= total \/ n = 0 ->
  0 <= i < total ->
  byte_allowed (modify_access pages a n b) i
  = if pages_touched a n i then b else byte_allowed pages i.
Proof.
  intros Ht Hp Ha Hn Hb Hi. unfold modify_access, pages_touched.
  destruct (Z.ltb_spec n 1).
  { replace (0 <? n) with false by (symmetry; apply Z.ltb_ge; lia). reflexivity. }
  replace (0 <? n) with true by (symmetry; apply Z.ltb_lt; lia).
  rewrite page_of_byte, (page_of_last a n total) by lia.
  unfold byte_allowed, PagePermissions in *. rewrite list_lookup_imap.
  assert (0 <= i / 4096) by (apply Z.div_pos; lia).
  assert (i / 4096 < Z.of_nat (length pages)) by (apply Z.div_lt_upper_bound; lia).
  destruct (lookup_lt_is_Some_2 pages (Z.to_nat (i / 4096))) as [x ->]; [lia|].
  cbn. rewrite Z2Nat.id by lia.
  pose proof (Z.div_mod a 4096 ltac:(lia)). pose proof (Z.mod_pos_bound a 4096 ltac:(lia)).
  pose proof (Z.div_mod (a + n - 1) 4096 ltac:(lia)).
  pose proof (Z.mod_pos_bound (a + n - 1) 4096 ltac:(lia)).
  destruct (Z.leb_spec (a / 4096) (i / 4096)), (Z.leb_spec (i / 4096) ((a + n - 1) / 4096)),
    (Z.ltb_spec a (4096 * (i / 4096) + 4096)), (Z.ltb_spec (4096 * (i / 4096)) (a + n));
    cbn; try reflexivity; lia.
Qed.

Lemma modify_access_length pages a n b : length (modify_access pages a n b) = length pages.
Proof. unfold modify_access. destruct (_ <? _); [reflexivity|]. apply length_imap. Qed.

(** Writing zeros clears the bytes written and no others. *)
Lemma write_zeros_spec V n a m : mem_ok total m -> 0 <= a ->
  a + Z.of_nat n * width_of (WIDTH V) <= total ->
  exists m', write_zeros V n a m = Some (tt, m') /\ mem_ok total m' /\
    m' = with_data (m_data m') m /\
    forall i, 0 <= i -> byte_at m' i =
      if (a <=? i) && (i <? a + Z.of_nat n * width_of (WIDTH V)) then 0 else byte_at m i.
Proof.
  pose proof (width_of_bounds (WIDTH V)) as Hw.
  revert a m; induction n; intros a m Hok Ha Hb.
  { exists m. split_and!; auto; [destruct m; reflexivity|]. intros i Hi.
    destruct (Z.leb_spec a i), (Z.ltb_spec i (a + Z.of_nat 0 * width_of (WIDTH V))); cbn; auto; lia. }
  cbn [write_zeros]. unfold mbind at 1, mget. unfold mbind at 1, mlift. unfold cells_write_elem.
  destruct (write_bytes_spec total m Hok a (le_bytes (Z.to_nat (width_of (WIDTH V))) 0) Ha)
    as (d & -> & Hd & Hi); [rewrite le_bytes_length; lia|].
  unfold mbind, mput.
  destruct (IHn (a + width_of (WIDTH V)) (with_data d m)) as (m' & -> & Hok' & Hm' & Hbytes);
    [apply with_data_ok; assumption | lia | lia |].
  exists m'. split_and!; [reflexivity | assumption | rewrite Hm'; reflexivity |].
  intros i Hi0. rewrite Hbytes by lia. unfold byte_at at 1. cbn [with_data m_data].
  rewrite Hi, le_bytes_length, Z2Nat.id by lia.
  destruct (Z.leb_spec (a + width_of (WIDTH V)) i),
    (Z.ltb_spec i (a + width_of (WIDTH V) + Z.of_nat n * width_of (WIDTH V))),
    (Z.leb_spec a i), (Z.ltb_spec i (a + Z.of_nat (S n) * width_of (WIDTH V))),
    (Z.ltb_spec i (a + width_of (WIDTH V))); cbn [andb]; try reflexivity; try lia.
  rewrite nth_le_bytes by lia. unfold field. rewrite Z.shiftr_0_l. reflexivity.
Qed.
End Operations.

Lemma with_data_self {B} (m : MemoryImpl B) : with_data (m_data m) m = m.
Proof. destruct m; reflexivity. Qed.

Lemma bytes_ext {B} total (m m' : MemoryImpl B) : mem_ok total m' -> mem_ok total m ->
  (forall i, 0 <= i -> byte_at m' i = byte_at m i) -> m_data m' = m_data m.
Proof.
  intros Hok' Hok Hb. pose proof (ok_data _ _ Hok). pose proof (ok_data _ _ Hok').
  apply list_eq_same_length with (n := length (m_data m)); [reflexivity | lia |].
  intros i x y Hi Hx Hy.
  rewrite <- (nth_lookup_Some _ _ 0 _ Hx), <- (nth_lookup_Some _ _ 0 _ Hy), <- (Nat2Z.id i).
  apply (Hb (Z.of_nat i)). lia.
Qed.

(** ** The contract of the memory with the instructions

    What the interpreter needs of a memory: its accesses return, a read changes
    nothing and gives a value of its type, a refused write changes nothing, and
    the value written matters only at its width, not by its sign. *)
Class MemoryLaws (Mem : Type) `{Memory Mem} : Type := {
  mem_inv : Mem -> Prop;
  mem_read_total V a m : mem_inv m -> urange 64 a ->
    exists r, mem_read V a m = Some (r, m) /\ (forall v, r = Ok v -> cast_to V v = v);
  mem_write_total V a v m : mem_inv m -> urange 64 a ->
    exists r m', mem_write V a v m = Some (r, m') /\ mem_inv m' /\
                 (r = Err BadMemoryAccess_ -> m' = m);
  mem_write_cast V a v w m : wrap (bits_of V) v = wrap (bits_of V) w ->
    mem_write V a v m = mem_write V a w m;
  mem_write_sign V a v m : mem_write (mkStoreLoadInt (WIDTH V) false) a v m = mem_write V a v m }.

Lemma le_bytes_wrap n v : le_bytes n (wrap (8 * Z.of_nat n) v) = le_bytes n v.
Proof.
  revert v; induction n; intros v; [reflexivity|]. cbn [le_bytes]. f_equal.
  - bitwise.
  - rewrite <- (IHn (Z.shiftr v 8)), <- (IHn (Z.shiftr (wrap _ v) 8)). f_equal.
    replace (8 * Z.of_nat (S n)) with (8 * Z.of_nat n + 8) by lia. bitwise.
Qed.

Lemma bits_of_pos V : 8 <= bits_of V <= 64.
Proof. unfold bits_of. pose proof (width_of_bounds (WIDTH V)). lia. Qed.

Lemma cast_to_idem V v : cast_to V (cast_to V v) = cast_to V v.
Proof.
  pose proof (bits_of_pos V). unfold cast_to. destruct (SIGNED V).
  - apply sext_small; [lia | apply sext_range; lia].
  - apply wrap_wrap; lia.
Qed.

#[export] Program Instance memory_impl_laws {B} `{Buddy B} (total : Z)
  : MemoryLaws (MemoryImpl B) (H := memory_impl total) := {| mem_inv := mem_ok total |}.
Next Obligation.
  intros B H total V a m Hok [Ha _]. cbn [mem_read memory_impl].
  rewrite (memory_read_eq total m Hok) by assumption. eexists; split; [reflexivity|].
  intros v Hv. destruct (granted _ _ _ _); [|discriminate]. injection Hv as <-. apply cast_to_idem.
Qed.
Next Obligation.
  intros B H total V a v m Hok [Ha _]. cbn [mem_write memory_impl].
  destruct (memory_write_eq total m Hok V a v Ha) as (m' & Hw & Hok' & Hm & Hb).
  eexists _, m'. split; [exact Hw|]. split; [assumption|]. intros Hr.
  destruct (granted _ _ _ _) eqn:Hg; [discriminate|]. rewrite Hm.
  rewrite (bytes_ext total m m' Hok' Hok), with_data_self; [reflexivity | exact Hb].
Qed.
Next Obligation.
  intros B H total V a v w m Hvw. cbn [mem_write memory_impl].
  unfold memory_write, cells_write_elem. unfold bits_of in Hvw.
  replace (width_of (WIDTH V)) with (Z.of_nat (Z.to_nat (width_of (WIDTH V)))) in Hvw
    by (pose proof (width_of_bounds (WIDTH V)); lia).
  rewrite <- (le_bytes_wrap _ v), <- (le_bytes_wrap _ w), Hvw. reflexivity.
Qed.
Next Obligation. reflexivity. Qed.

(** ** Properties *)

(** C16: single-element accesses at any address return, never panic, and
    implement the byte-wise specification: a read (or an instruction fetch)
    succeeds exactly when it is in bounds and every byte is readable
    (executable), with the little-endian value; a write succeeds exactly when
    every byte is writable, changes those bytes and nothing else, and preserves
    the invariant. *)
Theorem memory_access_refines {B} (total : Z) (m : MemoryImpl B) V a v :
  mem_ok total m -> 0 <= a ->
  let n := width_of (WIDTH V) in
  let value := cast_to V (le_value (bytes_at m a n)) in
  memory_read total V a m =
    Some (if granted total (readable_pages m) a n then Ok value else Err BadMemoryAccess_, m) /\
  memory_read_exec total V a m =
    Some (if granted total (executable_pages m) a n
          then Ok {| data := value; writable := granted total (writable_pages m) a n |}
          else Err BadMemoryAccess_, m) /\
  exists m', memory_write total V a v m =
    Some (if granted total (writable_pages m) a n then Ok tt else Err BadMemoryAccess_, m') /\
    mem_ok total m' /\ m' = with_data (m_data m') m /\
    forall i, 0 <= i -> byte_at m' i =
      if granted total (writable_pages m) a n && (a <=? i) && (i <? a + n)
      then field (8 * (i - a)) 8 v else byte_at m i.
Proof.
  intros Hok Ha n value. split_and!.
  - apply memory_read_eq; assumption.
  - apply memory_read_exec_eq; assumption.
  - apply memory_write_eq; assumption.
Qed.

(** Reading back what was written gives the written value at its type, and
    reads that do not overlap the write are not affected by it. *)
Theorem memory_read_after_write {B} (total : Z) (m m' : MemoryImpl B) V a v :
  mem_ok total m -> 0 <= a -> memory_write total V a v m = Some (Ok tt, m') ->
  (granted total (readable_pages m) a (width_of (WIDTH V)) = true ->
   memory_read total V a m' = Some (Ok (cast_to V v), m')) /\
  (forall V' a', 0 <= a' ->
   a' + width_of (WIDTH V') <= a \/ a + width_of (WIDTH V) <= a' ->
   fst <$> memory_read total V' a' m' = fst <$> memory_read total V' a' m).
Proof.
  intros Hok Ha Hw.
  destruct (memory_write_eq total m Hok V a v Ha) as (m'' & Hw' & Hok' & Hm & Hb).
  rewrite Hw in Hw'. injection Hw' as Hg <-.
  assert (Hperm : readable_pages m' = readable_pages m) by (rewrite Hm; reflexivity).
  destruct (granted total (writable_pages m) a (width_of (WIDTH V))); [|discriminate].
  split.
  - intros Hr. rewrite (memory_read_eq total m') by assumption. rewrite Hperm, Hr.
    pose proof (width_of_bounds (WIDTH V)).
    replace (width_of (WIDTH V)) with (Z.of_nat (Z.to_nat (width_of (WIDTH V)))) by lia.
    rewrite (bytes_at_le_bytes m' a _ v).
    2: { intros i Hi. rewrite Hb by lia.
         destruct (Z.leb_spec a i), (Z.ltb_spec i (a + width_of (WIDTH V))); cbn; lia. }
    rewrite le_value_le_bytes, Z2Nat.id by lia. fold (bits_of V). rewrite cast_to_wrap. reflexivity.
  - intros V' a' Ha' Hd. rewrite !(memory_read_eq total) by assumption.
    rewrite Hperm. erewrite (bytes_at_ext m m'); [reflexivity|].
    intros i Hi. rewrite Hb by lia.
    destruct (Z.leb_spec a i), (Z.ltb_spec i (a + width_of (WIDTH V))); cbn; lia.
Qed.

Lemma protect_pages_eq {B} (total : Z) (m : MemoryImpl B) a n p :
  mem_ok total m -> 0 <= a -> 0 <= n ->
  let fits := (n =? 0) || (a + n <=? total) in
  exists m', memory_protect_pages total a n p m =
    Some (if fits then Ok tt else Err MemoryGovernanceError_, m') /\
  mem_ok total m' /\ m_data m' = m_data m /\ allocated_pages m' = allocated_pages m /\
  forall i, 0 <= i < total ->
    let touched := fits && pages_touched a n i in
    byte_allowed (readable_pages m') i
      = (if touched then p_read p else byte_allowed (readable_pages m) i) /\
    byte_allowed (writable_pages m') i
      = (if touched then p_write p else byte_allowed (writable_pages m) i) /\
    byte_allowed (executable_pages m') i
      = (if touched then p_exec p else byte_allowed (executable_pages m) i).
Proof.
  intros Hok Ha Hn fits. unfold memory_protect_pages, mbind, mput, mret.
  assert (Hc : check_bounds total a n = fits).
  { unfold check_bounds, fits. destruct (Z.ltb_spec (Z.max 0 (total - a)) n),
      (Z.eqb_spec n 0), (Z.leb_spec (a + n) total); cbn; lia. }
  rewrite Hc. destruct Hok as [Ht Hd Hr Hwr Hx]. destruct fits eqn:Hf.
  - assert (a + n <= total \/ n = 0) by (unfold fits in Hf; apply orb_true_iff in Hf; lia).
    eexists; split_and!; [reflexivity | | reflexivity | reflexivity |].
    + constructor; cbn; rewrite ?modify_access_length; assumption.
    + intros i Hi. cbn. split_and!; apply (modify_access_allowed total); assumption.
  - exists m. split_and!; [reflexivity | constructor; assumption | reflexivity | reflexivity |].
    intros i Hi. cbn. auto.
Qed.

(** [protect_pages] gives the requested permissions to exactly the pages
    that meet the range, leaves the contents alone, preserves the invariant,
    and is refused only when the range does not fit. *)
Theorem memory_protect_pages_spec {B} (total : Z) (m : MemoryImpl B) a n p :
  mem_ok total m -> 0 <= a -> 0 <= n ->
  let fits := (n =? 0) || (a + n <=? total) in
  exists m', memory_protect_pages total a n p m =
    Some (if fits then Ok tt else Err MemoryGovernanceError_, m') /\
  mem_ok total m' /\ m_data m' = m_data m /\ allocated_pages m' = allocated_pages m /\
  forall i, 0 <= i < total ->
    let touched := fits && pages_touched a n i in
    byte_allowed (readable_pages m') i
      = (if touched then p_read p else byte_allowed (readable_pages m) i) /\
    byte_allowed (writable_pages m') i
      = (if touched then p_write p else byte_allowed (writable_pages m) i) /\
    byte_allowed (executable_pages m') i
      = (if touched then p_exec p else byte_allowed (executable_pages m) i).
Proof. apply protect_pages_eq. Qed.

(** [reset] returns for any memory, zeroes every byte and changes neither
    the permissions nor the allocator. *)
Theorem memory_reset_zeroes {B} (total : Z) (m : MemoryImpl B) :
  mem_ok total m ->
  exists m', memory_reset total m = Some (tt, m') /\ mem_ok total m' /\
    m' = with_data (m_data m') m /\ m_data m' = replicate (Z.to_nat total) 0.
Proof.
  intros Hok. destruct (ok_total _ _ Hok) as [Ht _]. unfold memory_reset, mbind.
  pose proof (Z.div_mod total 8 ltac:(lia)). pose proof (Z.mod_pos_bound total 8 ltac:(lia)).
  destruct (write_zeros_spec total u64 (Z.to_nat (total / 8)) 0 m Hok)
    as (m1 & -> & Hok1 & Hm1 & Hb1); [cbn; lia ..|].
  destruct (write_zeros_spec total u8 (Z.to_nat (total mod 8)) (8 * (total / 8)) m1 Hok1)
    as (m2 & -> & Hok2 & Hm2 & Hb2); [cbn; lia ..|].
  exists m2. split_and!; [reflexivity | assumption | rewrite Hm2, Hm1; reflexivity |].
  pose proof (ok_data _ _ Hok2) as Hd. apply list_eq_same_length with (n := length (m_data m2)).
  - rewrite length_replicate. lia.
  - reflexivity.
  - intros i x y Hi Hx Hy. apply lookup_replicate in Hy as [-> _].
    apply nth_lookup_Some with (d := 0) in Hx. rewrite <- Hx.
    change (nth i (m_data m2) 0) with (nth i (m_data m2) 0).
    rewrite <- (Nat2Z.id i). change (byte_at m2 (Z.of_nat i) = 0).
    rewrite Hb2 by lia. cbn [width_of WIDTH u8 u64] in *.
    destruct (Z.leb_spec (8 * (total / 8)) (Z.of_nat i)),
      (Z.ltb_spec (Z.of_nat i) (8 * (total / 8) + Z.of_nat (Z.to_nat (total mod 8)) * 1));
      cbn [andb]; try reflexivity; rewrite Hb1 by lia;
      destruct (Z.leb_spec 0 (Z.of_nat i)),
        (Z.ltb_spec (Z.of_nat i) (0 + Z.of_nat (Z.to_nat (total / 8)) * 8)); cbn; lia.
Qed.

(** C38: an access of no bytes beyond the end of the memory passes the bounds
    check and the permission check and then fails the assertion of the byte
    array, for every memory: the process panics. *)
Theorem memory_empty_access_panics {B} (total : Z) (m : MemoryImpl B) a :
  mem_ok total m -> total < a ->
  memory_read_all total a 0 m = None /\ memory_write_all total a [] m = None.
Proof.
  intros Hok Ha. destruct (ok_total _ _ Hok). pose proof (ok_data _ _ Hok) as Hd.
  unfold memory_read_all, memory_write_all, cells_read_bytes, cells_write_bytes, check_bounds,
    in_array, mbind, mget, mlift.
  cbn [length]. change (Z.of_nat 0) with 0. destruct (Z.ltb_spec (Z.max 0 (total - a)) 0); [lia|].
  cbn [negb]. rewrite Hd. destruct (Z.leb_spec (a + 0) total); [lia|].
  rewrite !andb_false_r. split; reflexivity.
Qed.

(** ** Instances *)
Definition two_pages : MemoryImpl (BuddyLeaf 2) :=
  mkMemoryImpl (replicate (Z.to_nat 8192) 0) [true; true] [true; false] [false; true] leaf_new.

Lemma two_pages_ok : mem_ok 8192 two_pages.
Proof. constructor; cbn [two_pages m_data]; rewrite ?length_replicate; cbn; lia. Qed.

(** A store that crosses into the second page is refused, one before it is not. *)
Lemma memory_access_refines_witness :
  exists m', memory_write 8192 u32 4092 513 two_pages = Some (Ok tt, m') /\
             byte_at m' 4093 = 2 /\ memory_write 8192 u32 4094 513 two_pages
                                    = Some (Err BadMemoryAccess_, two_pages).
Proof.
  destruct (memory_access_refines 8192 two_pages u32 4092 513 two_pages_ok ltac:(lia))
    as (_ & _ & m' & Hw & _ & _ & Hb).
  exists m'. split; [exact Hw|]. split; [rewrite Hb by lia; reflexivity|].
  reflexivity.
Defined.

Lemma memory_read_after_write_witness :
  exists m', memory_write 8192 i16 4094 (-2) two_pages = Some (Ok tt, m') /\
             memory_read 8192 i16 4094 m' = Some (Ok (-2), m').
Proof.
  destruct (memory_write_eq 8192 two_pages two_pages_ok i16 4094 (-2) ltac:(lia))
    as (m' & Hw & _).
  exists m'. split; [exact Hw|].
  destruct (memory_read_after_write 8192 two_pages m' i16 4094 (-2) two_pages_ok ltac:(lia) Hw)
    as [Hr _].
  apply Hr. reflexivity.
Defined.

Lemma memory_protect_pages_spec_witness :
  exists m', memory_protect_pages 8192 4095 2 PERM_NONE two_pages = Some (Ok tt, m') /\
             byte_allowed (readable_pages m') 8191 = false.
Proof.
  destruct (memory_protect_pages_spec 8192 two_pages 4095 2 PERM_NONE two_pages_ok
              ltac:(lia) ltac:(lia)) as (m' & Hp & _ & _ & _ & Hb).
  exists m'. split; [exact Hp|]. destruct (Hb 8191 ltac:(lia)) as [-> _]. reflexivity.
Defined.

Lemma memory_reset_zeroes_witness :
  exists m', memory_reset 8192 two_pages = Some (tt, m') /\ m_data m' = replicate 8192 0.
Proof.
  destruct (memory_reset_zeroes 8192 two_pages two_pages_ok) as (m' & H & _ & _ & Hd).
  exists m'. split; [exact H | exact Hd].
Defined.

Lemma memory_empty_access_panics_witness :
  memory_read_all 8192 (2 ^ 64 - 1) 0 two_pages = None.
Proof. apply (memory_empty_access_panics 8192 two_pages (2 ^ 64 - 1) two_pages_ok). lia. Defined.

Section Bytes.
Context {B : Type} (total : Z).
Implicit Types m : MemoryImpl B.

(** The access is in bounds, or has bytes at all: otherwise the byte array panics. *)
Definition sane (a n : Z) : Prop := 0 <= a /\ 0 <= n /\ (n = 0 -> a <= total).

Lemma read_all_beyond m a : mem_ok total m -> total < a -> memory_read_all total a 0 m = None.
Proof.
  intros Hok Ha. destruct (ok_total _ _ Hok). pose proof (ok_data _ _ Hok) as Hd.
  unfold memory_read_all, cells_read_bytes, check_bounds, in_array, mbind, mget, mlift.
  destruct (Z.ltb_spec (Z.max 0 (total - a)) 0); [lia|].
  cbn [negb]. rewrite Hd. destruct (Z.leb_spec (a + 0) total); [lia|].
  rewrite !andb_false_r. reflexivity.
Qed.

Lemma write_all_beyond m a : mem_ok total m -> total < a -> memory_write_all total a [] m = None.
Proof.
  intros Hok Ha. destruct (ok_total _ _ Hok). pose proof (ok_data _ _ Hok) as Hd.
  unfold memory_write_all, cells_write_bytes, check_bounds, in_array, mbind, mget, mlift.
  cbn [length]. change (Z.of_nat 0) with 0. destruct (Z.ltb_spec (Z.max 0 (total - a)) 0); [lia|].
  cbn [negb]. rewrite Hd. destruct (Z.leb_spec (a + 0) total); [lia|].
  rewrite !andb_false_r. reflexivity.
Qed.

Lemma check_bounds_sane m pages a n : mem_ok total m -> sane a n -> 4096 * Z.of_nat (length pages) = total ->
  (check_bounds total a n = false /\ granted total pages a n = false) \/
  (check_bounds total a n = true /\ a + n <= total /\ can_access pages a n = Some (granted total pages a n)).
Proof.
  intros Hok (Ha & Hn & H0) Hp. destruct (Z.eq_dec n 0) as [->|Hne].
  - right. unfold check_bounds, granted, can_access. cbn [seqZ forallb].
    destruct (Z.ltb_spec (Z.max 0 (total - a)) 0); [lia|].
    split; [reflexivity|]. split; [lia|]. destruct (Z.leb_spec (a + 0) total); [reflexivity | lia].
  - destruct (check_bounds_granted total m Hok pages a n Ha ltac:(lia) Hp) as [?|(Hc & Hb & Hg)]; [auto|].
    right. split; [exact Hc|]. split; [exact Hb|]. rewrite Hg.
    apply (can_access_granted total); try lia. apply (ok_total _ _ Hok).
Qed.

Lemma memory_read_all_eq m a n : mem_ok total m -> sane a n ->
  memory_read_all total a n m =
    Some (if granted total (readable_pages m) a n then Ok (bytes_at m a n) else Err BadMemoryAccess_, m).
Proof.
  intros Hok Hs. unfold memory_read_all, mbind, mget, mlift, mret.
  destruct (check_bounds_sane m (readable_pages m) a n Hok Hs (ok_readable _ _ Hok)) as [[-> ->]|(-> & Hb & ->)];
    [reflexivity|].
  destruct (granted _ _ _ _); cbn [negb]; [|reflexivity].
  destruct Hs as (Ha & Hn & _). rewrite (read_bytes_at total m Hok) by lia. reflexivity.
Qed.

(** The memory after bytes were written to it. *)
Definition written m m' (a : Z) (bs : list Z) : Prop :=
  mem_ok total m' /\ m' = with_data (m_data m') m /\
  forall i, 0 <= i -> byte_at m' i =
    if (a <=? i) && (i <? a + Z.of_nat (length bs)) then nth (Z.to_nat (i - a)) bs 0 else byte_at m i.

Lemma written_nil m a : mem_ok total m -> written m m a [].
Proof.
  intros Hok. split; [exact Hok|]. split; [destruct m; reflexivity|]. intros i Hi. cbn [length].
  destruct (Z.leb_spec a i), (Z.ltb_spec i (a + Z.of_nat 0)); cbn [andb]; (reflexivity || lia).
Qed.

Lemma write_checked m a bs : mem_ok total m -> 0 <= a -> a + Z.of_nat (length bs) <= total ->
  exists d, cells_write_bytes (m_data m) a bs = Some d /\ written m (with_data d m) a bs.
Proof.
  intros Hok Ha Hb. destruct (write_bytes_spec total m Hok a bs Ha Hb) as (d & E & Hd & Hi).
  exists d. split; [exact E|]. split; [apply with_data_ok; assumption|]. split; [reflexivity | exact Hi].
Qed.

Lemma memory_write_all_eq m a bs : mem_ok total m -> sane a (Z.of_nat (length bs)) ->
  if granted total (writable_pages m) a (Z.of_nat (length bs))
  then exists m', memory_write_all total a bs m = Some (Ok tt, m') /\ written m m' a bs
  else memory_write_all total a bs m = Some (Err BadMemoryAccess_, m).
Proof.
  intros Hok Hs. unfold memory_write_all, mbind, mget, mlift, mput, mret.
  destruct (check_bounds_sane m (writable_pages m) a _ Hok Hs (ok_writable _ _ Hok)) as [[-> ->]|(-> & Hb & ->)];
    [reflexivity|].
  destruct (granted _ _ _ _); cbn [negb]; [|reflexivity].
  destruct (write_checked m a bs Hok (proj1 Hs) Hb) as (d & -> & Hw). eauto.
Qed.

Lemma memory_write_array_eq m a bs : mem_ok total m -> 0 <= a -> 1 <= Z.of_nat (length bs) <= 4096 ->
  if granted total (writable_pages m) a (Z.of_nat (length bs))
  then exists m', memory_write_array total a bs m = Some (Ok tt, m') /\ written m m' a bs
  else memory_write_array total a bs m = Some (Err BadMemoryAccess_, m).
Proof.
  intros Hok Ha Hn. unfold memory_write_array, mbind, mget, mlift, mput, mret.
  destruct (check_bounds_granted total m Hok (writable_pages m) a (Z.of_nat (length bs)) Ha ltac:(lia) (ok_writable _ _ Hok))
    as [[-> ->]|(-> & Hb & ->)]; [reflexivity|].
  pose proof (ok_total _ _ Hok) as Ht. pose proof (ok_writable _ _ Hok) as Hpages.
  rewrite (can_access_narrow_granted total) by assumption || lia.
  destruct (forallb _ _); cbn [negb]; [|reflexivity].
  destruct (write_checked m a bs Hok Ha Hb) as (d & -> & Hw). eauto.
Qed.

(** Bytes written are read back; others stay. *)
Lemma bytes_written m m' a bs : 0 <= a -> written m m' a bs -> bytes_at m' a (Z.of_nat (length bs)) = bs.
Proof.
  intros Ha (_ & _ & Hb). unfold bytes_at. apply list_eq. intros i.
  rewrite list_lookup_fmap. destruct (decide (i < length bs)%nat) as [Hi|Hi].
  - rewrite lookup_seqZ_lt by lia. cbn. rewrite Hb by lia.
    destruct (Z.leb_spec a (a + Z.of_nat i)), (Z.ltb_spec (a + Z.of_nat i) (a + Z.of_nat (length bs))); cbn [andb]; try lia.
    replace (Z.to_nat (a + Z.of_nat i - a)) with i by lia.
    destruct (lookup_lt_is_Some_2 bs i Hi) as [x Hx]. rewrite Hx. f_equal.
    apply nth_lookup_Some, Hx.
  - rewrite lookup_seqZ_ge by lia. cbn. symmetry. apply lookup_ge_None. lia.
Qed.
Lemma bytes_elsewhere m m' a bs b n : written m m' a bs -> 0 <= b ->
  b + n <= a \/ a + Z.of_nat (length bs) <= b -> bytes_at m' b n = bytes_at m b n.
Proof.
  intros (_ & _ & Hb) H0 Hd. apply bytes_at_ext. intros i Hi. rewrite Hb by lia.
  destruct (Z.leb_spec a i), (Z.ltb_spec i (a + Z.of_nat (length bs))); cbn [andb]; (reflexivity || lia).
Qed.
Lemma written_pages m m' a bs : written m m' a bs ->
  readable_pages m' = readable_pages m /\ writable_pages m' = writable_pages m /\
  executable_pages m' = executable_pages m /\ allocated_pages m' = allocated_pages m.
Proof. intros (_ & -> & _). auto. Qed.

Lemma granted_bounds pages a n : granted total pages a n = true -> a + n <= total.
Proof. unfold granted. intros [H _]%andb_true_iff. lia. Qed.
End Bytes.
