(* ===== verification/AllocSpec.v ===== *)
(** * Allocating memory

    The page allocator and the byte array together: what [allocate_and_protect_pages]
    and [deallocate_and_protect_pages] of [memory/state.rs] do to the pages, their
    permissions and their bytes, over any allocator that keeps its contract. *)

From S2P Require Import Prelude.
From S2P Require Import Icb.
From S2P Require Import Buddy.
From S2P Require Import Memory.
From S2P Require Import MemorySpec.
From S2P Require Import BuddySpec.

Section Alloc.
Context {B : Type} `{BuddyLaws B}.
Notation N := (buddy_PAGES (B := B)).
Notation total := (4096 * N).
Implicit Types (m : MemoryImpl B).

Definition page_used m : Z -> bool := occupied (allocated_pages m).

(** The invariant with the allocator's, for a memory of the pages it manages. *)
Definition alloc_ok m : Prop := mem_ok total m /\ buddy_wf (allocated_pages m).

(** The byte is on one of the [n] pages from [idx]. *)
Definition on_pages (idx n i : Z) : bool := (4096 * idx <=? i) && (i <? 4096 * (idx + n)).

(** The pages have been taken: marked as used, with these permissions and filled
    with zeros; everything else is as it was. *)
Definition pages_taken m m' (idx n : Z) (p : Permissions) : Prop :=
  same N (page_used m') (mark (page_used m) idx n true) /\
  forall i, 0 <= i < total ->
    byte_at m' i = (if on_pages idx n i then 0 else byte_at m i) /\
    byte_allowed (readable_pages m') i
      = (if on_pages idx n i then p_read p else byte_allowed (readable_pages m) i) /\
    byte_allowed (writable_pages m') i
      = (if on_pages idx n i then p_write p else byte_allowed (writable_pages m) i) /\
    byte_allowed (executable_pages m') i
      = (if on_pages idx n i then p_exec p else byte_allowed (executable_pages m) i).

(** Only the allocator may have been touched, and it holds the same pages. *)
Definition unchanged m m' : Prop :=
  m' = with_allocated (allocated_pages m') m /\ same N (page_used m') (page_used m).

Lemma div_ceil_bounds len : 1 <= len -> let n := div_ceil len PAGE_SIZE in
  1 <= n /\ 4096 * (n - 1) < len <= 4096 * n.
Proof.
  intros Hlen. unfold div_ceil. change PAGE_SIZE with 4096.
  pose proof (Z.div_mod (len + 4096 - 1) 4096 ltac:(lia)). pose proof (Z.mod_pos_bound (len + 4096 - 1) 4096 ltac:(lia)).
  cbv zeta. lia.
Qed.

Lemma touched_pages idx len i : 1 <= len -> 0 <= i ->
  pages_touched (4096 * idx) len i = on_pages idx (div_ceil len PAGE_SIZE) i.
Proof.
  intros Hlen Hi. destruct (div_ceil_bounds len Hlen) as [Hn Hb]. set (n := div_ceil len PAGE_SIZE) in *.
  unfold pages_touched, on_pages.
  pose proof (Z.div_mod i 4096 ltac:(lia)) as Hdm. pose proof (Z.mod_pos_bound i 4096 ltac:(lia)) as Hm.
  set (q := i / 4096) in *.
  destruct (Z.ltb_spec 0 len), (Z.ltb_spec (4096 * idx) (4096 * q + 4096)), (Z.ltb_spec (4096 * q) (4096 * idx + len)),
    (Z.leb_spec (4096 * idx) i), (Z.ltb_spec i (4096 * (idx + n))); cbn; (reflexivity || lia).
Qed.

(** ** Zeroing *)
Lemma zero_down_spec n a remaining m : mem_ok total m -> 0 <= a -> 8 * Z.of_nat n <= remaining -> a + remaining <= total ->
  exists m', zero_down n a remaining m = Some (tt, m') /\ mem_ok total m' /\ m' = with_data (m_data m') m /\
    forall i, 0 <= i -> byte_at m' i =
      if (a + remaining - 8 * Z.of_nat n <=? i) && (i <? a + remaining) then 0 else byte_at m i.
Proof.
  revert remaining m; induction n as [|n IH]; intros remaining m Hok Ha Hn Hr.
  { exists m. split_and!; [reflexivity | exact Hok | destruct m; reflexivity|]. intros i Hi.
    destruct (Z.leb_spec (a + remaining - 8 * Z.of_nat 0) i), (Z.ltb_spec i (a + remaining)); cbn; (reflexivity || lia). }
  pose proof (ok_total _ _ Hok) as Ht.
  cbn [zero_down]. unfold mbind at 1, mget. unfold mbind at 1, mlift. unfold cells_write_elem, sat_add.
  rewrite Z.min_l by lia.
  destruct (write_bytes_spec total m Hok (a + (remaining - 8)) (le_bytes (Z.to_nat (width_of (WIDTH u64))) 0))
    as (d & -> & Hd & Hbytes); [lia | rewrite le_bytes_length; cbn; lia |].
  unfold mbind, mput.
  destruct (IH (remaining - 8) (with_data d m)) as (m' & -> & Hok' & Hm' & Hb); [apply with_data_ok; assumption | lia..|].
  exists m'. split_and!; [reflexivity | assumption | rewrite Hm'; reflexivity |].
  intros i Hi. rewrite Hb by lia. unfold byte_at at 1. cbn [with_data m_data].
  rewrite Hbytes, le_bytes_length by lia. change (Z.of_nat (Z.to_nat (width_of (WIDTH u64)))) with 8.
  destruct (Z.leb_spec (a + (remaining - 8) - 8 * Z.of_nat n) i), (Z.ltb_spec i (a + (remaining - 8))),
    (Z.leb_spec (a + remaining - 8 * Z.of_nat (S n)) i), (Z.ltb_spec i (a + remaining)),
    (Z.leb_spec (a + (remaining - 8)) i), (Z.ltb_spec i (a + (remaining - 8) + 8)); cbn [andb];
    try reflexivity; try lia.
  all: rewrite nth_le_bytes by (cbn; lia); unfold field; rewrite Z.shiftr_0_l; reflexivity.
Qed.

(** ** Taking pages *)

(** What [allocate_and_protect_pages] does once it has an address. *)
Definition place (address length : Z) (perms : Permissions) : M (MemoryImpl B) (result Z MemoryGovernanceError) :=
  p <- memory_protect_pages total address length perms ;;
  d <- (match p with
        | Ok _ => mret (Ok tt)
        | Err _ => memory_deallocate_pages total address length
        end) ;;
  match d with
  | Err e => mret (Err e)
  | Ok _ =>
      let remaining := sat_mul (div_ceil length PAGE_SIZE) PAGE_SIZE in
      zero_down (Z.to_nat (remaining / 8)) address remaining ;;;
      zero_tail (Z.to_nat (remaining mod 8)) address 0 ;;;
      mret (Ok address)
  end.

Lemma with_allocated_ok m b : mem_ok total m -> mem_ok total (with_allocated b m).
Proof. intros []; constructor; assumption. Qed.

Lemma place_spec m b idx len p :
  let n := div_ceil len PAGE_SIZE in
  mem_ok total m -> buddy_wf b -> 1 <= len -> 0 <= idx -> idx + n <= N ->
  same N (occupied b) (mark (page_used m) idx n true) ->
  exists m', place (4096 * idx) len p (with_allocated b m) = Some (Ok (4096 * idx), m') /\
    alloc_ok m' /\ pages_taken m m' idx n p.
Proof.
  intros n Hok Hb Hlen Hidx Hin Hs. destruct (div_ceil_bounds len Hlen) as [Hn Hbound]. fold n in Hn, Hbound.
  pose proof (with_allocated_ok m b Hok) as Hok0. pose proof (ok_total _ _ Hok) as Ht.
  destruct (protect_pages_eq total (with_allocated b m) (4096 * idx) len p Hok0 ltac:(lia) ltac:(lia))
    as (m1 & E1 & Hok1 & Hd1 & Ha1 & Hp1).
  replace ((len =? 0) || (4096 * idx + len <=? total)) with true in *
    by (symmetry; apply orb_true_iff; right; apply Z.leb_le; lia).
  unfold place. unfold mbind at 1. rewrite E1. unfold mbind at 1, mret at 1.
  fold n. replace (sat_mul n PAGE_SIZE) with (n * 512 * 8)
    by (unfold sat_mul; change PAGE_SIZE with 4096; lia).
  rewrite Z.div_mul, Z.mod_mul by lia. cbn [Z.to_nat zero_tail].
  destruct (zero_down_spec (Z.to_nat (n * 512)) (4096 * idx) (n * 512 * 8) m1 Hok1)
    as (m2 & E2 & Hok2 & Hm2 & Hb2); [lia..|].
  unfold mbind, mret. rewrite E2. exists m2. split; [reflexivity|].
  assert (Hu : allocated_pages m2 = b) by (rewrite Hm2; cbn; exact Ha1).
  split; [split; [exact Hok2 | rewrite Hu; exact Hb]|].
  split; [unfold page_used at 1; rewrite Hu; exact Hs|].
  intros i Hi. destruct (Hp1 i Hi) as (Hr & Hw & Hx). cbn [andb] in *. rewrite touched_pages in * by lia. fold n in Hr, Hw, Hx.
  split_and!; [|rewrite Hm2; assumption..].
  rewrite Hb2 by lia. unfold on_pages, byte_at at 1. rewrite Hd1. cbn [with_allocated m_data]. fold (byte_at m i).
  replace (4096 * idx + n * 512 * 8 - 8 * Z.of_nat (Z.to_nat (n * 512))) with (4096 * idx) by lia.
  replace (4096 * idx + n * 512 * 8) with (4096 * (idx + n)) by lia. reflexivity.
Qed.

Lemma allocate_unchanged m b : alloc_ok m -> buddy_wf b -> same N (occupied b) (page_used m) ->
  alloc_ok (with_allocated b m) /\ unchanged m (with_allocated b m).
Proof.
  intros [Hok _] Hb Hs. split; [split; [apply with_allocated_ok, Hok | exact Hb]|].
  split; [reflexivity | exact Hs].
Qed.

Lemma allocate_anywhere m len p replace :
  alloc_ok m -> 1 <= len -> let n := div_ceil len PAGE_SIZE in
  exists r m', memory_allocate_and_protect_pages total None len p replace m = Some (r, m') /\ alloc_ok m' /\
    match r with
    | Ok a => exists idx, a = 4096 * idx /\ first_fit N (page_used m) n idx /\ pages_taken m m' idx n p
    | Err _ => (forall idx, ~ fits N (page_used m) idx n) /\ unchanged m m'
    end.
Proof.
  intros Hm Hlen n. pose proof Hm as [Hok Hb]. destruct (div_ceil_bounds len Hlen) as [Hn Hbound]. fold n in Hn, Hbound.
  pose proof (ok_total _ _ Hok) as Ht.
  unfold memory_allocate_and_protect_pages, memory_allocate_pages. fold n. unfold mbind at 1 2, on_buddy.
  destruct (allocate_law (allocated_pages m) n Hb ltac:(lia)) as ([idx|] & b & E & Hwb & Hr); rewrite E; unfold mret at 1.
  - destruct Hr as (_ & Hfit & Hs). pose proof (proj1 Hfit) as (Hi0 & _ & Hi1 & _).
    replace (wrap 64 (Z.shiftl idx OFFSET_BITS)) with (4096 * idx)
      by (rewrite Z.shiftl_mul_pow2, wrap_small by (unfold urange, OFFSET_BITS; lia); unfold OFFSET_BITS; lia).
    destruct (place_spec m b idx len p Hok Hwb Hlen Hi0 Hi1 Hs) as (m' & E' & Hm' & Ht').
    exists (Ok (4096 * idx)), m'. split; [exact E'|]. split; [exact Hm'|]. exists idx. auto.
  - destruct Hr as [Hnone Hs]. destruct (allocate_unchanged m b Hm Hwb Hs) as [Hm' Hu].
    eexists (Err _), _. split; [reflexivity|]. split; [exact Hm'|]. split; [apply Hnone, Hn | exact Hu].
Qed.

(** C23: allocating memory anywhere gives fresh pages.  A request of at least one
    byte takes the first run of unused pages that holds it, and fails, changing
    nothing, only when there is none; the address is that of the first page.
    Exactly the pages of the run become used, get the permissions asked for and
    are filled with zeros, up to the end of the last page. *)
Theorem memory_allocates_first_fit m len p replace :
  alloc_ok m -> 1 <= len -> let n := div_ceil len PAGE_SIZE in
  exists r m', memory_allocate_and_protect_pages total None len p replace m = Some (r, m') /\ alloc_ok m' /\
    match r with
    | Ok a => exists idx, a = 4096 * idx /\ first_fit N (page_used m) n idx /\ pages_taken m m' idx n p
    | Err _ => (forall idx, ~ fits N (page_used m) idx n) /\ unchanged m m'
    end.
Proof. exact (allocate_anywhere m len p replace). Qed.

(** C24: allocating at a page-aligned address takes the pages of the range exactly
    when it lies in the memory and its pages are unused or may be replaced, with
    the same effect on pages, permissions and bytes; otherwise nothing changes. *)
Theorem memory_allocates_fixed m idx len p replace :
  alloc_ok m -> 0 <= idx -> 1 <= len < 2 ^ 64 -> let n := div_ceil len PAGE_SIZE in
  exists r m', memory_allocate_and_protect_pages total (Some (4096 * idx)) len p replace m = Some (r, m') /\
    alloc_ok m' /\
    match r with
    | Ok a => a = 4096 * idx /\ idx + n <= N /\ (replace = true \/ fits N (page_used m) idx n) /\
        pages_taken m m' idx n p
    | Err _ => ~ (idx + n <= N /\ (replace = true \/ fits N (page_used m) idx n)) /\ unchanged m m'
    end.
Proof.
  intros Hm Hidx Hlen n. pose proof Hm as [Hok Hb].
  destruct (div_ceil_bounds len ltac:(lia)) as [Hn Hbound]. fold n in Hn, Hbound.
  pose proof (ok_total _ _ Hok) as Ht.
  unfold memory_allocate_and_protect_pages, memory_allocate_pages. fold n. unfold mbind at 1.
  unfold check_bounds. destruct (Z.ltb_spec (Z.max 0 (total - 4096 * idx)) len); cbn [negb].
  { eexists (Err _), m. split; [reflexivity|]. split; [exact Hm|].
    split; [lia | split; [destruct m; reflexivity | reflexivity]]. }
  unfold mbind at 1, on_buddy.
  replace (Z.shiftr (4096 * idx) OFFSET_BITS) with idx
    by (change (4096 * idx) with (2 ^ 12 * idx); rewrite Z.mul_comm, Z.shiftr_div_pow2, Z.div_mul by (unfold OFFSET_BITS; lia); reflexivity).
  destruct (allocate_fixed_law (allocated_pages m) idx n replace Hb Hidx ltac:(lia))
    as ([[]|] & b & E & Hwb & Hr); rewrite E; unfold mret at 1.
  - destruct Hr as (_ & Hin & Hf & Hs).
    destruct (place_spec m b idx len p Hok Hwb ltac:(lia) Hidx Hin Hs) as (m' & E' & Hm' & Ht').
    exists (Ok (4096 * idx)), m'. split; [exact E'|]. split; [exact Hm'|]. auto.
  - destruct Hr as [Hnone Hs]. destruct (allocate_unchanged m b Hm Hwb Hs) as [Hm' Hu].
    eexists (Err _), _. split; [reflexivity|]. split; [exact Hm'|]. split; [|exact Hu].
    intros [? ?]. apply Hnone. split_and!; (assumption || lia).
Qed.

(** ** Giving pages back *)
#[local] Instance alloc_memory : Memory (MemoryImpl B) := memory_impl total.

Lemma page_index idx k : 0 <= k < 4096 -> Z.shiftr (4096 * idx + k) OFFSET_BITS = idx.
Proof.
  intros Hk. rewrite Z.shiftr_div_pow2 by (unfold OFFSET_BITS; lia). change (2 ^ OFFSET_BITS) with 4096.
  symmetry. apply (Z.div_unique _ _ _ k); lia.
Qed.

(** A range that starts [k] bytes into page [idx]: the pages given back are as many
    as its length takes from page [idx] on, those that lose their permissions are
    the ones it meets. *)
Lemma deallocate_spec m idx k len : alloc_ok m -> 0 <= idx -> 0 <= k < 4096 -> 1 <= len ->
  4096 * idx + k + len <= total -> let n := div_ceil len PAGE_SIZE in
  exists m', deallocate_and_protect_pages (4096 * idx + k) len m = Some (Ok tt, m') /\ alloc_ok m' /\
    same N (page_used m') (mark (page_used m) idx n false) /\ m_data m' = m_data m /\
    forall i, 0 <= i < total -> let touched := pages_touched (4096 * idx + k) len i in
      byte_allowed (readable_pages m') i = (if touched then false else byte_allowed (readable_pages m) i) /\
      byte_allowed (writable_pages m') i = (if touched then false else byte_allowed (writable_pages m) i) /\
      byte_allowed (executable_pages m') i = (if touched then false else byte_allowed (executable_pages m) i).
Proof.
  intros [Hok Hb] Hidx Hk Hlen Hin n. destruct (div_ceil_bounds len ltac:(lia)) as [Hn Hbound]. fold n in Hn, Hbound.
  unfold deallocate_and_protect_pages. unfold mbind at 1. cbn [mem_deallocate_pages alloc_memory memory_impl].
  unfold memory_deallocate_pages, check_bounds.
  destruct (Z.ltb_spec (Z.max 0 (total - (4096 * idx + k))) len); [lia|]. cbn [negb].
  rewrite page_index by exact Hk. fold n. unfold mbind at 1, on_buddy.
  assert (Hidxn : idx + n <= N) by lia.
  destruct (deallocate_law (allocated_pages m) idx n Hb Hidx ltac:(lia) Hidxn) as (b & E & Hwb & Hs).
  rewrite E. unfold mret at 1. cbn [mem_protect_pages alloc_memory memory_impl].
  pose proof (with_allocated_ok m b Hok) as Hok0.
  destruct (protect_pages_eq total (with_allocated b m) (4096 * idx + k) len PERM_NONE Hok0 ltac:(lia) ltac:(lia))
    as (m1 & E1 & Hok1 & Hd1 & Ha1 & Hp1).
  replace ((len =? 0) || (4096 * idx + k + len <=? total)) with true in *
    by (symmetry; apply orb_true_iff; right; apply Z.leb_le; lia).
  exists m1. split; [exact E1|]. cbn [with_allocated allocated_pages] in Ha1.
  split; [split; [exact Hok1 | rewrite Ha1; exact Hwb]|].
  split; [unfold page_used at 1; rewrite Ha1; exact Hs|]. split; [exact Hd1|]. exact Hp1.
Qed.

(** C25: giving back a page-aligned range makes exactly its pages unused and
    inaccessible; the bytes stay as they are. *)
Theorem memory_deallocates_pages m idx len :
  alloc_ok m -> 0 <= idx -> 1 <= len -> 4096 * idx + len <= total -> let n := div_ceil len PAGE_SIZE in
  exists m', deallocate_and_protect_pages (4096 * idx) len m = Some (Ok tt, m') /\ alloc_ok m' /\
    same N (page_used m') (mark (page_used m) idx n false) /\ m_data m' = m_data m /\
    forall i, 0 <= i < total ->
      byte_allowed (readable_pages m') i = negb (on_pages idx n i) && byte_allowed (readable_pages m) i /\
      byte_allowed (writable_pages m') i = negb (on_pages idx n i) && byte_allowed (writable_pages m) i /\
      byte_allowed (executable_pages m') i = negb (on_pages idx n i) && byte_allowed (executable_pages m) i.
Proof.
  intros Hm Hidx Hlen Hin n.
  destruct (deallocate_spec m idx 0 len Hm Hidx ltac:(lia) Hlen ltac:(lia)) as (m' & E & Hm' & Hs & Hd & Hp).
  rewrite Z.add_0_r in *. exists m'. split; [exact E|]. split; [exact Hm'|]. split; [exact Hs|]. split; [exact Hd|].
  intros i Hi. specialize (Hp i Hi). cbv zeta in Hp. rewrite touched_pages in Hp by lia. fold n in Hp.
  destruct (on_pages idx n i); exact Hp.
Qed.

(** A page that starts [k] bytes into a page meets two. *)
Lemma touched_unaligned idx k i : 0 < k < 4096 -> 0 <= i ->
  pages_touched (4096 * idx + k) 4096 i = on_pages idx 2 i.
Proof.
  intros Hk Hi. unfold pages_touched, on_pages.
  pose proof (Z.div_mod i 4096 ltac:(lia)) as Hdm. pose proof (Z.mod_pos_bound i 4096 ltac:(lia)) as Hm.
  set (q := i / 4096) in *.
  destruct (Z.ltb_spec 0 4096), (Z.ltb_spec (4096 * idx + k) (4096 * q + 4096)),
    (Z.ltb_spec (4096 * q) (4096 * idx + k + 4096)), (Z.leb_spec (4096 * idx) i), (Z.ltb_spec i (4096 * (idx + 2)));
    cbn; (reflexivity || lia).
Qed.

(** C39: giving back a page at an address that is not page-aligned frees one page, the
    page of the address, and takes the permissions of exactly two, to read, to write and
    to execute: the page behind stays as allocated as it was and is no longer accessible. *)
Theorem unaligned_deallocation_revokes_next_page m idx k :
  alloc_ok m -> 0 <= idx -> 0 < k < 4096 -> idx + 2 <= N ->
  exists m', deallocate_and_protect_pages (4096 * idx + k) 4096 m = Some (Ok tt, m') /\
    same N (page_used m') (mark (page_used m) idx 1 false) /\ m_data m' = m_data m /\
    forall i, 0 <= i < total ->
      byte_allowed (readable_pages m') i = negb (on_pages idx 2 i) && byte_allowed (readable_pages m) i /\
      byte_allowed (writable_pages m') i = negb (on_pages idx 2 i) && byte_allowed (writable_pages m) i /\
      byte_allowed (executable_pages m') i = negb (on_pages idx 2 i) && byte_allowed (executable_pages m) i.
Proof.
  intros Hm Hidx Hk Hin.
  destruct (deallocate_spec m idx k 4096 Hm Hidx ltac:(lia) ltac:(lia) ltac:(lia)) as (m' & E & _ & Hs & Hd & Hp).
  change (div_ceil 4096 PAGE_SIZE) with 1 in Hs.
  exists m'. split; [exact E|]. split; [exact Hs|]. split; [exact Hd|].
  intros i Hi. specialize (Hp i Hi). cbv zeta in Hp. rewrite touched_unaligned in Hp by lia.
  destruct (on_pages idx 2 i); exact Hp.
Qed.
End Alloc.

(** ** Instances *)
#[local] Existing Instance full_leaf_laws.
Definition fresh_memory : MemoryImpl (BuddyLeaf 64) := memory_new 262144 leaf_new 64.

Lemma fresh_ok : alloc_ok fresh_memory.
Proof.
  split; [|split; cbn; lia].
  constructor; cbn [fresh_memory memory_new m_data readable_pages writable_pages executable_pages];
    rewrite ?length_replicate; cbn; lia.
Qed.

Lemma fresh_fits i n : 0 <= i -> 0 <= n -> i + n <= 64 -> fits 64 (page_used fresh_memory) i n.
Proof. intros. split_and!; [assumption..|]. intros j _. apply Z.bits_0. Qed.

(** Three pages for 8193 bytes, at address 0. *)
Lemma memory_allocates_first_fit_witness :
  exists m', memory_allocate_and_protect_pages 262144 None 8193 PERM_READ_WRITE false fresh_memory = Some (Ok 0, m') /\
    page_used m' 2 = true /\ byte_allowed (writable_pages m') 12287 = true.
Proof.
  destruct (memory_allocates_first_fit fresh_memory 8193 PERM_READ_WRITE false fresh_ok ltac:(lia))
    as (r & m' & E & _ & Hr).
  destruct r as [a|e].
  - destruct Hr as (idx & -> & [(H0 & _) Hfirst] & Hs & Hp).
    assert (idx = 0) as -> by (specialize (Hfirst 0 (fresh_fits 0 3 ltac:(lia) ltac:(lia) ltac:(lia))); lia).
    exists m'. split; [exact E|]. split; [apply Hs; cbn; lia|].
    destruct (Hp 12287 ltac:(cbn; lia)) as (_ & _ & -> & _). reflexivity.
  - exfalso. destruct Hr as [Hnone _]. apply (Hnone 0). apply (fresh_fits 0 3); lia.
Defined.

Lemma memory_allocates_fixed_witness :
  exists m', memory_allocate_and_protect_pages 262144 (Some 258048) 4096 PERM_READ_WRITE false fresh_memory
    = Some (Ok 258048, m') /\ page_used m' 63 = true.
Proof.
  destruct (memory_allocates_fixed fresh_memory 63 4096 PERM_READ_WRITE false fresh_ok ltac:(lia) ltac:(lia))
    as (r & m' & E & _ & Hr).
  destruct r as [a|e].
  - destruct Hr as (-> & _ & _ & Hs & _). exists m'. split; [exact E|]. apply Hs. cbn. lia.
  - exfalso. destruct Hr as [Hnone _]. apply Hnone. split; [vm_compute; discriminate|]. right.
    apply (fresh_fits 63 1); lia.
Defined.

Lemma memory_deallocates_pages_witness :
  exists m', deallocate_and_protect_pages (H := memory_impl 262144) 4096 1 fresh_memory = Some (Ok tt, m') /\
    page_used m' 1 = false.
Proof.
  destruct (memory_deallocates_pages fresh_memory 1 1 fresh_ok ltac:(lia) ltac:(lia) ltac:(cbn; lia))
    as (m' & E & _ & Hs & _).
  exists m'. split; [exact E|]. rewrite Hs by (cbn; lia). reflexivity.
Defined.

(** One page, from address 4097 on: page 2 stays as it was, but can no longer be read. *)
Lemma unaligned_deallocation_revokes_next_page_witness :
  exists m', deallocate_and_protect_pages (H := memory_impl 262144) 4097 4096 fresh_memory = Some (Ok tt, m') /\
    page_used m' 2 = page_used fresh_memory 2 /\ byte_allowed (readable_pages m') 8192 = false.
Proof.
  destruct (unaligned_deallocation_revokes_next_page fresh_memory 1 1 fresh_ok ltac:(lia) ltac:(lia) ltac:(cbn; lia))
    as (m' & E & Hs & _ & Hp).
  exists m'. split; [exact E|]. split; [apply Hs; cbn; lia | exact (proj1 (Hp 8192 ltac:(cbn; lia)))].
Defined.
