(* ===== verification/Core.v ===== *)
(** * The machine core and its instruction context

    Models [src/riscv/lib/src/machine_state/hart_state.rs], the state of
    [machine_state.rs] that instructions run on, and the implementation of the
    instruction context for it, [impl ICB for MachineCoreState] of
    [instruction_context.rs].

    Main memory is any implementation of the [Memory] interface. *)

From S2P Require Import Prelude.
From S2P Require Import Registers.
From S2P Require Import Csr.
From S2P Require Import Instr.
From S2P Require Import Icb.
From S2P Require Import Memory.

Record HartState : Type := mkHartState {
  xregisters : XRegisters;
  fregisters : FRegisters;
  csregisters : CSRValues;
  pc : Z;
  (** [reservation_set.start_addr]. *)
  start_addr : Z }.

Record MachineCoreState (Mem : Type) : Type := mkCore { hart : HartState; main_memory : Mem }.
Arguments mkCore {Mem} hart main_memory.
Arguments hart {Mem} _.
Arguments main_memory {Mem} _.

(** Field updates. *)
Definition with_xregisters (v : XRegisters) (h : HartState) : HartState :=
  mkHartState v (fregisters h) (csregisters h) (pc h) (start_addr h).
Definition with_fregisters (v : FRegisters) (h : HartState) : HartState :=
  mkHartState (xregisters h) v (csregisters h) (pc h) (start_addr h).
Definition with_csregisters (v : CSRValues) (h : HartState) : HartState :=
  mkHartState (xregisters h) (fregisters h) v (pc h) (start_addr h).
Definition with_pc (v : Z) (h : HartState) : HartState :=
  mkHartState (xregisters h) (fregisters h) (csregisters h) v (start_addr h).
Definition with_start_addr (v : Z) (h : HartState) : HartState :=
  mkHartState (xregisters h) (fregisters h) (csregisters h) (pc h) v.
Definition with_hart {Mem} (h : HartState) (s : MachineCoreState Mem) : MachineCoreState Mem :=
  mkCore h (main_memory s).
Definition with_memory {Mem} (m : Mem) (s : MachineCoreState Mem) : MachineCoreState Mem :=
  mkCore (hart s) m.

(** [HartState::reset] and [HartState::new]. *)
Definition hart_reset (new_pc : Z) (h : HartState) : HartState :=
  {| xregisters := xregisters_reset (xregisters h);
     fregisters := fregisters_reset (fregisters h);
     csregisters := csregisters_reset (csregisters h);
     pc := new_pc;
     start_addr := reservation_reset (start_addr h) |}.
Definition hart_new : HartState :=
  {| xregisters := xregisters_new; fregisters := fregisters_new; csregisters := csregisters_new;
     pc := 0; start_addr := 0 |}.

(** Running an operation of the hart or of the memory on its part of the core. *)
Definition on_hart {Mem A} (f : M HartState A) : M (MachineCoreState Mem) A :=
  fun s => match f (hart s) with Some (a, h) => Some (a, with_hart h s) | None => None end.
Definition on_memory {Mem A} (f : M Mem A) : M (MachineCoreState Mem) A :=
  fun s => match f (main_memory s) with Some (a, m) => Some (a, with_memory m s) | None => None end.

(** The registers of a hart. *)
Definition hart_read (reg : XRegister) : M HartState Z :=
  xs <- mget xregisters ;; mlift (xregisters_read xs reg).
Definition hart_write (reg : XRegister) (val : Z) : M HartState unit :=
  xs <- mget xregisters ;;
  xs <- mlift (xregisters_write xs reg val) ;;
  mput (with_xregisters xs).
Definition hart_read_nz (reg : NonZeroXRegister) : M HartState Z :=
  xs <- mget xregisters ;; mlift (xregisters_read_nz xs reg).
Definition hart_write_nz (reg : NonZeroXRegister) (val : Z) : M HartState unit :=
  xs <- mget xregisters ;;
  xs <- mlift (xregisters_write_nz xs reg val) ;;
  mput (with_xregisters xs).

Section Core.
Context {Mem : Type} `{Memory Mem}.
Notation Core := (MachineCoreState Mem).

Definition core_reset : M Core unit :=
  on_hart (mput (hart_reset FIRST_ADDRESS)) ;;; on_memory mem_reset.

(** [common_memory.rs]: [read_from_address] and [write_to_address]. *)
Definition read_from_address (T : StoreLoadInt) (address : Z) : M Core (result Z Exception) :=
  r <- on_memory (mem_read T address) ;;
  mret (result_map_err r (fun _ => LoadAccessFault address)).
Definition write_to_address (T : StoreLoadInt) (address value : Z)
  : M Core (result unit Exception) :=
  r <- on_memory (mem_write T address value) ;;
  mret (result_map_err r (fun _ => StoreAMOAccessFault address)).

(** [read_from_bus] and [write_to_bus]. *)
Definition read_from_bus (T : StoreLoadInt) (imm : Z) (rs1 : XRegister)
  : M Core (result Z Exception) :=
  base <- on_hart (hart_read rs1) ;;
  read_from_address T (wrap 64 (base + wrap 64 imm)).
Definition write_to_bus (T : StoreLoadInt) (imm : Z) (rs1 : XRegister) (value : Z)
  : M Core (result unit Exception) :=
  base <- on_hart (hart_read rs1) ;;
  write_to_address T (wrap 64 (base + wrap 64 imm)) value.

(** ** [impl ICB for MachineCoreState] *)
Definition core_atomic_access_fault_guard (V : StoreLoadInt) (address : Z)
    (reservation_set_option : ReservationSetOption) : M Core (result unit Exception) :=
  let width := wrap 64 (width_of (WIDTH V)) in
  remainder <- uint_modulus_unsigned address width ;;
  if uint_compare 64 remainder 0 NotEqual then
    (match reservation_set_option with
     | Reset => on_hart (mput (with_start_addr (wrap 64 (sext 64 UNSET_VALUE))))
     | NoReset => mret tt
     end) ;;;
    mret (Err (StoreAMOAccessFault address))
  else mret (Ok tt).

Definition core_branch (predicate : bool) (offset : Z) (instr_width : InstrWidth)
  : M Core (ProgramCounterUpdate Z) :=
  if predicate then
    current <- on_hart (mget pc) ;;
    mret (Set_ (wrap 64 (current + wrap 64 offset)))
  else mret (Next instr_width).

Definition core_main_memory_store (V : StoreLoadInt) (address value : Z)
  : M Core (result unit Exception) :=
  r <- on_memory (mem_write V address (from_xvalue V value)) ;;
  mret (result_map_err r (fun _ => StoreAMOAccessFault address)).

Definition core_main_memory_load (V : StoreLoadInt) (address : Z) : M Core (result Z Exception) :=
  r <- on_memory (mem_read V address) ;;
  mret (result_map_err (result_map r (to_xvalue V)) (fun _ => LoadAccessFault address)).

#[export] Instance core_icb : ICB Core := {|
  XValue := Z;
  XValue32 := Z;
  Bool := bool;
  IResult A := result A Exception;
  xvalue_arithmetic := arithmetic_uint 64;
  xvalue32_arithmetic := arithmetic_uint 32;
  xvalue_comparable := comparable_uint 64;
  xvalue32_comparable := comparable_uint 32;
  xregister_read_nz reg := on_hart (hart_read_nz reg);
  xregister_write_nz reg value := on_hart (hart_write_nz reg value);
  xregister_read reg := on_hart (hart_read reg);
  xregister_write reg value := on_hart (hart_write reg value);
  xvalue_of_imm imm := mret (wrap 64 imm);
  xvalue32_of_imm imm := mret (wrap 32 imm);
  pc_read := on_hart (mget pc);
  bool_and lhs rhs := mret (lhs && rhs);
  narrow value := mret (wrap 32 value);
  extend_signed value := mret (wrap 64 (sext 32 value));
  extend_unsigned value := mret value;
  mul_high lhs rhs t := mret (mul_high_u128 lhs rhs t);
  xvalue_from_bool value := mret (if value : bool then 1 else 0);
  branch := core_branch;
  branch_merge Phi cond true_branch false_branch :=
    if cond : bool then true_branch else false_branch;
  ok A val := mret (Ok val);
  err_illegal_instruction A := mret (Err IllegalInstruction);
  atomic_access_fault_guard := core_atomic_access_fault_guard;
  ires_map A B := result_map;
  and_then A B res f := match res with Ok a => f a | Err e => mret (Err e) end;
  ecall := mret (Err EnvCall);
  main_memory_store := core_main_memory_store;
  main_memory_load := core_main_memory_load;
  reservation_set_write address := on_hart (mput (with_start_addr address));
  reservation_set_read := on_hart (mget start_addr) |}.

End Core.
