(* ===== verification/Run.v ===== *)
(** * Running an instruction

    Models the functions [impl Args] and [impl OpCode] of
    [src/riscv/lib/src/machine_state/instruction.rs]: an opcode selects a
    function from [Args], which reads the registers it needs through the views
    of the [Register] union and calls the instruction's code.

    [to_lowering] is the table of the opcodes that are written over any
    instruction context; [to_run] is the interpreter's table.  The interpreter's
    floating-point opcodes are not modelled: there [to_run] is [None].  Each
    [impl_*] is the macro of that name; a register read through a view it has
    no value in is [None] (undefined behaviour in Rust).

    First the instructions without a compiled form: [run_amo], [run_amo_w] and [run_amo_d] of
    [src/riscv/lib/src/interpreter/atomics.rs] with the instructions built on them,
    [interpreter/rv32a.rs] and [interpreter/rv64a.rs]; the CSR instructions of
    [interpreter/rv64zicsr.rs], whose result is an error only when they would write a
    read-only CSR; and the breakpoints, calls and fences of [rv32i.rs] and [rv32c.rs]. *)

From S2P Require Import Prelude.
From S2P Require Import Registers.
From S2P Require Import Csr.
From S2P Require Import Instr.
From S2P Require Import Instruction.
From S2P Require Import Constructors.
From S2P Require Import Icb.
From S2P Require Import Integer.
From S2P Require Import Interpreter.
From S2P Require Import Memory.
From S2P Require Import Core.

Section Amo.
Context {Mem : Type} `{Memory Mem}.
Notation Core := (MachineCoreState Mem).

Definition run_amo (T : StoreLoadInt) (rs1 rs2 rd : XRegister)
    (f : Z -> Z -> Z) (to from : Z -> Z) : M Core (result unit Exception) :=
  address_rs1 <- on_hart (hart_read rs1) ;;
  if negb (address_rs1 mod width_of (WIDTH T) =? 0)
  then mret (Err (StoreAMOAccessFault address_rs1))
  else
    r <- read_from_address T address_rs1 ;;
    match r with
    | Err e => mret (Err e)
    | Ok value_rs1 =>
        value_rs2 <- on_hart (hart_read rs2) ;;
        let value_rs2 := to value_rs2 in
        let value := f value_rs1 value_rs2 in
        on_hart (hart_write rd (from value_rs1)) ;;;
        write_to_address T address_rs1 value
    end.

Definition run_amo_w (rs1 rs2 rd : XRegister) (f : Z -> Z -> Z) : M Core (result unit Exception) :=
  run_amo i32 rs1 rs2 rd f (sext 32) (wrap 64).
Definition run_amo_d (rs1 rs2 rd : XRegister) (f : Z -> Z -> Z) : M Core (result unit Exception) :=
  run_amo u64 rs1 rs2 rd f (fun x => x) (fun x => x).

(** On [i32]: [wrapping_add], the bit operations, [min] and [max], and the
    unsigned ones through [u32]. *)
Definition run_amoaddw (rs1 rs2 rd : XRegister) (_rl _aq : bool) : M Core (result unit Exception) :=
  run_amo_w rs1 rs2 rd (fun a b => sext 32 (a + b)).
Definition run_amoxorw (rs1 rs2 rd : XRegister) (_rl _aq : bool) : M Core (result unit Exception) :=
  run_amo_w rs1 rs2 rd Z.lxor.
Definition run_amoandw (rs1 rs2 rd : XRegister) (_rl _aq : bool) : M Core (result unit Exception) :=
  run_amo_w rs1 rs2 rd Z.land.
Definition run_amoorw (rs1 rs2 rd : XRegister) (_rl _aq : bool) : M Core (result unit Exception) :=
  run_amo_w rs1 rs2 rd Z.lor.
Definition run_amominw (rs1 rs2 rd : XRegister) (_rl _aq : bool) : M Core (result unit Exception) :=
  run_amo_w rs1 rs2 rd Z.min.
Definition run_amomaxw (rs1 rs2 rd : XRegister) (_rl _aq : bool) : M Core (result unit Exception) :=
  run_amo_w rs1 rs2 rd Z.max.
Definition run_amominuw (rs1 rs2 rd : XRegister) (_rl _aq : bool) : M Core (result unit Exception) :=
  run_amo_w rs1 rs2 rd (fun a b => sext 32 (Z.min (wrap 32 a) (wrap 32 b))).
Definition run_amomaxuw (rs1 rs2 rd : XRegister) (_rl _aq : bool) : M Core (result unit Exception) :=
  run_amo_w rs1 rs2 rd (fun a b => sext 32 (Z.max (wrap 32 a) (wrap 32 b))).

(** On [u64]. *)
Definition run_amoxord (rs1 rs2 rd : XRegister) (_rl _aq : bool) : M Core (result unit Exception) :=
  run_amo_d rs1 rs2 rd Z.lxor.
Definition run_amoandd (rs1 rs2 rd : XRegister) (_rl _aq : bool) : M Core (result unit Exception) :=
  run_amo_d rs1 rs2 rd Z.land.
Definition run_amoord (rs1 rs2 rd : XRegister) (_rl _aq : bool) : M Core (result unit Exception) :=
  run_amo_d rs1 rs2 rd Z.lor.
Definition run_amomaxd (rs1 rs2 rd : XRegister) (_rl _aq : bool) : M Core (result unit Exception) :=
  run_amo_d rs1 rs2 rd (fun a b => wrap 64 (Z.max (sext 64 a) (sext 64 b))).
Definition run_amominud (rs1 rs2 rd : XRegister) (_rl _aq : bool) : M Core (result unit Exception) :=
  run_amo_d rs1 rs2 rd Z.min.
Definition run_amomaxud (rs1 rs2 rd : XRegister) (_rl _aq : bool) : M Core (result unit Exception) :=
  run_amo_d rs1 rs2 rd Z.max.

End Amo.

(** [csregisters::check_write] with its error. *)
Definition csr_check_write (csr : CSRegister) : result unit Exception :=
  if check_write csr then Ok tt else Err IllegalInstruction.

(** Running an operation of the CSR file on its field. *)
Definition on_csrs {A} (f : CSRValues -> A * CSRValues) : M HartState A :=
  fun h => let '(a, vs) := f (csregisters h) in Some (a, with_csregisters vs h).

(** [HartState::csr_replace]. *)
Definition hart_csr_replace (csr : CSRegister) (value : Z) (rd : XRegister)
  : M HartState (result unit Exception) :=
  match csr_check_write csr with
  | Err e => mret (Err e)
  | Ok _ =>
      (if is_zero rd then on_csrs (fun vs => (tt, csr_write vs csr value))
       else
         old <- on_csrs (fun vs => csr_replace vs csr value) ;;
         hart_write rd old) ;;;
      mret (Ok tt)
  end.

Definition run_csrrw (csr : CSRegister) (rs1 rd : XRegister) : M HartState (result unit Exception) :=
  value <- hart_read rs1 ;;
  hart_csr_replace csr value rd.

Definition run_csrrwi (csr : CSRegister) (imm : Z) (rd : XRegister)
  : M HartState (result unit Exception) :=
  hart_csr_replace csr (Z.land imm 0x1F) rd.

Definition run_csrrs (csr : CSRegister) (rs1 rd : XRegister) : M HartState (result unit Exception) :=
  old <- (if is_zero rs1 then vs <- mget csregisters ;; mret (Ok (csr_read vs csr))
          else match csr_check_write csr with
               | Err e => mret (Err e)
               | Ok _ =>
                   value <- hart_read rs1 ;;
                   old <- on_csrs (fun vs => csr_set_bits vs csr value) ;;
                   mret (Ok old)
               end) ;;
  match old with
  | Err e => mret (Err e)
  | Ok old => hart_write rd old ;;; mret (Ok tt)
  end.

Definition run_csrrsi (csr : CSRegister) (imm : Z) (rd : XRegister)
  : M HartState (result unit Exception) :=
  let imm := Z.land imm 0x1F in
  old <- (if imm =? 0 then vs <- mget csregisters ;; mret (Ok (csr_read vs csr))
          else match csr_check_write csr with
               | Err e => mret (Err e)
               | Ok _ =>
                   old <- on_csrs (fun vs => csr_set_bits vs csr imm) ;;
                   mret (Ok old)
               end) ;;
  match old with
  | Err e => mret (Err e)
  | Ok old => hart_write rd old ;;; mret (Ok tt)
  end.

Definition run_csrrc (csr : CSRegister) (rs1 rd : XRegister) : M HartState (result unit Exception) :=
  old <- (if is_zero rs1 then vs <- mget csregisters ;; mret (Ok (csr_read vs csr))
          else match csr_check_write csr with
               | Err e => mret (Err e)
               | Ok _ =>
                   value <- hart_read rs1 ;;
                   old <- on_csrs (fun vs => csr_clear_bits vs csr value) ;;
                   mret (Ok old)
               end) ;;
  match old with
  | Err e => mret (Err e)
  | Ok old => hart_write rd old ;;; mret (Ok tt)
  end.

Definition run_csrrci (csr : CSRegister) (imm : Z) (rd : XRegister)
  : M HartState (result unit Exception) :=
  let imm := Z.land imm 0x1F in
  old <- (if imm =? 0 then vs <- mget csregisters ;; mret (Ok (csr_read vs csr))
          else match csr_check_write csr with
               | Err e => mret (Err e)
               | Ok _ =>
                   old <- on_csrs (fun vs => csr_clear_bits vs csr imm) ;;
                   mret (Ok old)
               end) ;;
  match old with
  | Err e => mret (Err e)
  | Ok old => hart_write rd old ;;; mret (Ok tt)
  end.

Definition run_ebreak (h : HartState) : Exception := Breakpoint.
Definition run_cebreak (h : HartState) : Exception := Breakpoint.
Definition run_fence {Mem} (_pred _succ : FenceSet) : M (MachineCoreState Mem) unit := mret tt.

(** ** Over any instruction context *)
Section Lowering.
Context {I : Type} `{ICB I}.

(** [IcbFnResult]. *)
Definition IcbFnResult : Type := IResult (ProgramCounterUpdate XValue).
Implicit Types self : Args.

Definition next self : M I IcbFnResult := ok (Next (a_width self)).

Definition impl_r_type_non_zero
    (f : NonZeroXRegister -> NonZeroXRegister -> NonZeroXRegister -> M I unit) self
  : M I IcbFnResult :=
  rs1 <- mlift (register_nzx (a_rs1 self)) ;;
  rs2 <- mlift (register_nzx (a_rs2 self)) ;;
  rd <- mlift (register_nzx (a_rd self)) ;;
  f rs1 rs2 rd ;;;
  next self.

Definition impl_r_type_non_zero_rd
    (f : XRegister -> XRegister -> NonZeroXRegister -> M I unit) self : M I IcbFnResult :=
  rs1 <- mlift (register_x (a_rs1 self)) ;;
  rs2 <- mlift (register_x (a_rs2 self)) ;;
  rd <- mlift (register_nzx (a_rd self)) ;;
  f rs1 rs2 rd ;;;
  next self.

Definition impl_i_type_non_zero
    (f : Z -> NonZeroXRegister -> NonZeroXRegister -> M I unit) self : M I IcbFnResult :=
  rs1 <- mlift (register_nzx (a_rs1 self)) ;;
  rd <- mlift (register_nzx (a_rd self)) ;;
  f (a_imm self) rs1 rd ;;;
  next self.

Definition impl_i_type_non_zero_rd
    (f : Z -> XRegister -> NonZeroXRegister -> M I unit) self : M I IcbFnResult :=
  rs1 <- mlift (register_x (a_rs1 self)) ;;
  rd <- mlift (register_nzx (a_rd self)) ;;
  f (a_imm self) rs1 rd ;;;
  next self.

Definition impl_load_type (V : StoreLoadInt) self : M I IcbFnResult :=
  rs1 <- mlift (register_x (a_rs1 self)) ;;
  rd <- mlift (register_x (a_rd self)) ;;
  res <- run_load V (a_imm self) rs1 rd ;;
  mret (ires_map res (fun _ => Next (a_width self))).

Definition impl_store_type (V : StoreLoadInt) self : M I IcbFnResult :=
  rs1 <- mlift (register_x (a_rs1 self)) ;;
  rs2 <- mlift (register_x (a_rs2 self)) ;;
  res <- run_store V (a_imm self) rs1 rs2 ;;
  mret (ires_map res (fun _ => Next (a_width self))).

Definition impl_branch (predicate : Predicate) self : M I IcbFnResult :=
  rs1 <- mlift (register_nzx (a_rs1 self)) ;;
  rs2 <- mlift (register_nzx (a_rs2 self)) ;;
  pcu <- run_branch predicate (a_imm self) rs1 rs2 (a_width self) ;;
  ok pcu.

Definition impl_branch_compare_zero (predicate : Predicate) self : M I IcbFnResult :=
  rs1 <- mlift (register_nzx (a_rs1 self)) ;;
  pcu <- run_branch_compare_zero predicate (a_imm self) rs1 (a_width self) ;;
  ok pcu.

Definition impl_amo_type
    (f : XRegister -> XRegister -> XRegister -> bool -> bool -> M I (IResult unit)) self
  : M I IcbFnResult :=
  rs1 <- mlift (register_x (a_rs1 self)) ;;
  rs2 <- mlift (register_x (a_rs2 self)) ;;
  rd <- mlift (register_x (a_rd self)) ;;
  res <- f rs1 rs2 rd (a_rl self) (a_aq self) ;;
  mret (ires_map res (fun _ => Next (a_width self))).

Definition impl_cr_nz_type (f : NonZeroXRegister -> NonZeroXRegister -> M I unit) self
  : M I IcbFnResult :=
  rd <- mlift (register_nzx (a_rd self)) ;;
  rs2 <- mlift (register_nzx (a_rs2 self)) ;;
  f rd rs2 ;;;
  next self.

Definition impl_ci_type_non_zero (f : Z -> NonZeroXRegister -> M I unit) self : M I IcbFnResult :=
  rd <- mlift (register_nzx (a_rd self)) ;;
  f (a_imm self) rd ;;;
  next self.

(** The jumps return their target. *)
Definition set_pc (addr : M I XValue) : M I IcbFnResult := addr <- addr ;; ok (Set_ addr).

(** RV64I register-register. *)
Definition args_run_add self := impl_r_type_non_zero run_add self.
Definition args_run_sub self := impl_r_type_non_zero run_sub self.
Definition args_run_x64_xor self := impl_r_type_non_zero run_x64_xor self.
Definition args_run_and self := impl_r_type_non_zero run_and self.
Definition args_run_or self := impl_r_type_non_zero run_or self.
Definition args_run_shift_left self := impl_r_type_non_zero (run_shift Left) self.
Definition args_run_shift_right_unsigned self := impl_r_type_non_zero (run_shift RightUnsigned) self.
Definition args_run_shift_right_signed self := impl_r_type_non_zero (run_shift RightSigned) self.
Definition args_run_set_less_than_signed self := impl_r_type_non_zero_rd run_set_less_than_signed self.
Definition args_run_set_less_than_unsigned self := impl_r_type_non_zero_rd run_set_less_than_unsigned self.
Definition args_run_add_word self := impl_r_type_non_zero_rd run_add_word self.
Definition args_run_sub_word self := impl_r_type_non_zero_rd run_sub_word self.
Definition args_run_x32_shift_left self := impl_r_type_non_zero_rd (run_x32_shift Left) self.
Definition args_run_x32_shift_right_unsigned self := impl_r_type_non_zero_rd (run_x32_shift RightUnsigned) self.
Definition args_run_x32_shift_right_signed self := impl_r_type_non_zero_rd (run_x32_shift RightSigned) self.

(** RV64I register-immediate. *)
Definition args_run_addi self := impl_i_type_non_zero run_addi self.
Definition args_run_x64_xor_immediate self := impl_i_type_non_zero run_x64_xor_immediate self.
Definition args_run_x64_or_immediate self := impl_i_type_non_zero run_x64_or_immediate self.
Definition args_run_andi self := impl_i_type_non_zero run_andi self.
Definition args_run_add_word_immediate self := impl_i_type_non_zero_rd run_add_word_immediate self.
Definition args_run_set_less_than_immediate_signed self := impl_i_type_non_zero_rd run_set_less_than_immediate_signed self.
Definition args_run_set_less_than_immediate_unsigned self := impl_i_type_non_zero_rd run_set_less_than_immediate_unsigned self.
Definition args_run_shift_left_immediate self := impl_i_type_non_zero (run_shift_immediate Left) self.
Definition args_run_shift_right_immediate_unsigned self := impl_i_type_non_zero (run_shift_immediate RightUnsigned) self.
Definition args_run_shift_right_immediate_signed self := impl_i_type_non_zero (run_shift_immediate RightSigned) self.
Definition args_run_x32_shift_left_imm self :=
  impl_i_type_non_zero (fun imm rs1 rd => run_x32_shift_immediate Left rs1 imm rd) self.
Definition args_run_x32_shift_right_imm_unsigned self :=
  impl_i_type_non_zero (fun imm rs1 rd => run_x32_shift_immediate RightUnsigned rs1 imm rd) self.
Definition args_run_x32_shift_right_imm_signed self :=
  impl_i_type_non_zero (fun imm rs1 rd => run_x32_shift_immediate RightSigned rs1 imm rd) self.

(** Loads and stores. *)
Definition args_run_x8_load_unsigned self := impl_load_type u8 self.
Definition args_run_x16_load_unsigned self := impl_load_type u16 self.
Definition args_run_x32_load_unsigned self := impl_load_type u32 self.
Definition args_run_x64_load_signed self := impl_load_type i64 self.
Definition args_run_x32_load_signed self := impl_load_type i32 self.
Definition args_run_x16_load_signed self := impl_load_type i16 self.
Definition args_run_x8_load_signed self := impl_load_type i8 self.
Definition args_run_x64_store self := impl_store_type u64 self.
Definition args_run_x32_store self := impl_store_type u32 self.
Definition args_run_x16_store self := impl_store_type u16 self.
Definition args_run_x8_store self := impl_store_type u8 self.

(** Branches. *)
Definition args_run_branch_equal self := impl_branch Equal self.
Definition args_run_branch_not_equal self := impl_branch NotEqual self.
Definition args_run_branch_less_than_signed self := impl_branch LessThanSigned self.
Definition args_run_branch_less_than_unsigned self := impl_branch LessThanUnsigned self.
Definition args_run_branch_greater_than_or_equal_signed self := impl_branch GreaterThanOrEqualSigned self.
Definition args_run_branch_greater_than_or_equal_unsigned self := impl_branch GreaterThanOrEqualUnsigned self.
Definition args_run_branch_equal_zero self := impl_branch_compare_zero Equal self.
Definition args_run_branch_not_equal_zero self := impl_branch_compare_zero NotEqual self.
Definition args_run_branch_less_than_zero self := impl_branch_compare_zero LessThanSigned self.
Definition args_run_branch_greater_than_or_equal_zero self := impl_branch_compare_zero GreaterThanOrEqualSigned self.
Definition args_run_branch_less_than_equal_zero self := impl_branch_compare_zero LessThanOrEqualSigned self.
Definition args_run_branch_greater_than_zero self := impl_branch_compare_zero GreaterThanSigned self.

Definition args_run_add_immediate_to_pc self := impl_ci_type_non_zero run_add_immediate_to_pc self.

(** RV64A, compiled. *)
Definition args_run_x32_atomic_load self := impl_amo_type run_x32_atomic_load self.
Definition args_run_x32_atomic_store self := impl_amo_type run_x32_atomic_store self.
Definition args_run_x32_atomic_swap self := impl_amo_type run_x32_atomic_swap self.
Definition args_run_x64_atomic_load self := impl_amo_type run_x64_atomic_load self.
Definition args_run_x64_atomic_store self := impl_amo_type run_x64_atomic_store self.
Definition args_run_x64_atomic_swap self := impl_amo_type run_x64_atomic_swap self.
Definition args_run_x64_atomic_add self := impl_amo_type run_x64_atomic_add self.
Definition args_run_x64_atomic_min_signed self := impl_amo_type run_x64_atomic_min_signed self.

(** RV64M. *)
Definition args_run_x64_rem_signed self := impl_r_type_non_zero_rd run_x64_rem_signed self.
Definition args_run_x64_rem_unsigned self := impl_r_type_non_zero_rd run_x64_rem_unsigned self.
Definition args_run_x32_rem_signed self := impl_r_type_non_zero_rd run_x32_rem_signed self.
Definition args_run_x32_rem_unsigned self := impl_r_type_non_zero_rd run_x32_rem_unsigned self.
Definition args_run_x64_div_signed self := impl_r_type_non_zero_rd run_x64_div_signed self.
Definition args_run_x64_div_unsigned self := impl_r_type_non_zero_rd run_x64_div_unsigned self.
Definition args_run_x32_div_signed self := impl_r_type_non_zero_rd run_x32_div_signed self.
Definition args_run_x32_div_unsigned self := impl_r_type_non_zero_rd run_x32_div_unsigned self.
Definition args_run_mul self := impl_r_type_non_zero run_mul self.
Definition args_run_x64_mul_high_signed self :=
  impl_r_type_non_zero (fun rs1 rs2 rd => run_x64_mul_high rs1 rs2 rd MulSigned) self.
Definition args_run_x64_mul_high_signed_unsigned self :=
  impl_r_type_non_zero (fun rs1 rs2 rd => run_x64_mul_high rs1 rs2 rd MulSignedUnsigned) self.
Definition args_run_x64_mul_high_unsigned self :=
  impl_r_type_non_zero (fun rs1 rs2 rd => run_x64_mul_high rs1 rs2 rd MulUnsigned) self.
Definition args_run_x32_mul self := impl_r_type_non_zero_rd run_x32_mul self.

(** Moves and jumps. *)
Definition args_run_mv self := impl_cr_nz_type run_mv self.
Definition args_run_neg self := impl_cr_nz_type run_neg self.
Definition args_run_li self := impl_ci_type_non_zero run_li self.
Definition args_run_j self : M I IcbFnResult := set_pc (run_j (a_imm self)).
Definition args_run_j_absolute self : M I IcbFnResult := set_pc (run_j_absolute (a_imm self)).
Definition args_run_jr self : M I IcbFnResult :=
  rs1 <- mlift (register_nzx (a_rs1 self)) ;;
  set_pc (run_jr rs1).
Definition args_run_jr_imm self : M I IcbFnResult :=
  rs1 <- mlift (register_nzx (a_rs1 self)) ;;
  set_pc (run_jr_imm (a_imm self) rs1).
Definition args_run_jal self : M I IcbFnResult :=
  rd <- mlift (register_nzx (a_rd self)) ;;
  set_pc (run_jal (a_imm self) rd (a_width self)).
Definition args_run_jalr self : M I IcbFnResult :=
  rd <- mlift (register_nzx (a_rd self)) ;;
  rs1 <- mlift (register_nzx (a_rs1 self)) ;;
  set_pc (run_jalr rd rs1 (a_width self)).
Definition args_run_jalr_imm self : M I IcbFnResult :=
  rs1 <- mlift (register_nzx (a_rs1 self)) ;;
  rd <- mlift (register_nzx (a_rd self)) ;;
  set_pc (run_jalr_imm (a_imm self) rs1 rd (a_width self)).
Definition args_run_jalr_absolute self : M I IcbFnResult :=
  rd <- mlift (register_nzx (a_rd self)) ;;
  set_pc (run_jalr_absolute (a_imm self) rd (a_width self)).
Definition args_run_nop self : M I IcbFnResult := run_nop ;;; next self.
Definition args_run_ecall self : M I IcbFnResult := ecall.
Definition args_run_illegal self : M I IcbFnResult := err_illegal_instruction.

(** [OpCode::to_lowering]. *)
Definition to_lowering (opcode : OpCode) : option (Args -> M I IcbFnResult) :=
  match opcode with
  | OpCodes.Mv => Some args_run_mv
  | OpCodes.Neg => Some args_run_neg
  | OpCodes.Nop => Some args_run_nop
  | OpCodes.Add => Some args_run_add
  | OpCodes.AddWord => Some args_run_add_word
  | OpCodes.AddWordImmediate => Some args_run_add_word_immediate
  | OpCodes.Sub => Some args_run_sub
  | OpCodes.SubWord => Some args_run_sub_word
  | OpCodes.And => Some args_run_and
  | OpCodes.Or => Some args_run_or
  | OpCodes.X64OrImm => Some args_run_x64_or_immediate
  | OpCodes.X64Xor => Some args_run_x64_xor
  | OpCodes.X64XorImm => Some args_run_x64_xor_immediate
  | OpCodes.Mul => Some args_run_mul
  | OpCodes.X32Mul => Some args_run_x32_mul
  | OpCodes.X64MulHighSigned => Some args_run_x64_mul_high_signed
  | OpCodes.X64MulHighSignedUnsigned => Some args_run_x64_mul_high_signed_unsigned
  | OpCodes.X64MulHighUnsigned => Some args_run_x64_mul_high_unsigned
  | OpCodes.X64DivSigned => Some args_run_x64_div_signed
  | OpCodes.X64DivUnsigned => Some args_run_x64_div_unsigned
  | OpCodes.X32DivSigned => Some args_run_x32_div_signed
  | OpCodes.X32DivUnsigned => Some args_run_x32_div_unsigned
  | OpCodes.X64RemSigned => Some args_run_x64_rem_signed
  | OpCodes.X64RemUnsigned => Some args_run_x64_rem_unsigned
  | OpCodes.X32RemSigned => Some args_run_x32_rem_signed
  | OpCodes.X32RemUnsigned => Some args_run_x32_rem_unsigned
  | OpCodes.Li => Some args_run_li
  | OpCodes.AddImmediateToPC => Some args_run_add_immediate_to_pc
  | OpCodes.J => Some args_run_j
  | OpCodes.Jr => Some args_run_jr
  | OpCodes.JrImm => Some args_run_jr_imm
  | OpCodes.JAbsolute => Some args_run_j_absolute
  | OpCodes.Jal => Some args_run_jal
  | OpCodes.Jalr => Some args_run_jalr
  | OpCodes.JalrImm => Some args_run_jalr_imm
  | OpCodes.JalrAbsolute => Some args_run_jalr_absolute
  | OpCodes.Addi => Some args_run_addi
  | OpCodes.Andi => Some args_run_andi
  | OpCodes.SetLessThanSigned => Some args_run_set_less_than_signed
  | OpCodes.SetLessThanUnsigned => Some args_run_set_less_than_unsigned
  | OpCodes.SetLessThanImmediateSigned => Some args_run_set_less_than_immediate_signed
  | OpCodes.SetLessThanImmediateUnsigned => Some args_run_set_less_than_immediate_unsigned
  | OpCodes.BranchEqual => Some args_run_branch_equal
  | OpCodes.BranchEqualZero => Some args_run_branch_equal_zero
  | OpCodes.BranchNotEqual => Some args_run_branch_not_equal
  | OpCodes.BranchNotEqualZero => Some args_run_branch_not_equal_zero
  | OpCodes.BranchLessThanSigned => Some args_run_branch_less_than_signed
  | OpCodes.BranchLessThanUnsigned => Some args_run_branch_less_than_unsigned
  | OpCodes.BranchLessThanZero => Some args_run_branch_less_than_zero
  | OpCodes.BranchLessThanOrEqualZero => Some args_run_branch_less_than_equal_zero
  | OpCodes.BranchGreaterThanOrEqualSigned => Some args_run_branch_greater_than_or_equal_signed
  | OpCodes.BranchGreaterThanOrEqualUnsigned => Some args_run_branch_greater_than_or_equal_unsigned
  | OpCodes.BranchGreaterThanOrEqualZero => Some args_run_branch_greater_than_or_equal_zero
  | OpCodes.BranchGreaterThanZero => Some args_run_branch_greater_than_zero
  | OpCodes.ShiftLeft => Some args_run_shift_left
  | OpCodes.ShiftRightUnsigned => Some args_run_shift_right_unsigned
  | OpCodes.ShiftRightSigned => Some args_run_shift_right_signed
  | OpCodes.ShiftLeftImmediate => Some args_run_shift_left_immediate
  | OpCodes.ShiftRightImmediateUnsigned => Some args_run_shift_right_immediate_unsigned
  | OpCodes.ShiftRightImmediateSigned => Some args_run_shift_right_immediate_signed
  | OpCodes.X32ShiftLeft => Some args_run_x32_shift_left
  | OpCodes.X32ShiftRightUnsigned => Some args_run_x32_shift_right_unsigned
  | OpCodes.X32ShiftRightSigned => Some args_run_x32_shift_right_signed
  | OpCodes.X32ShiftLeftImm => Some args_run_x32_shift_left_imm
  | OpCodes.X32ShiftRightImmUnsigned => Some args_run_x32_shift_right_imm_unsigned
  | OpCodes.X32ShiftRightImmSigned => Some args_run_x32_shift_right_imm_signed
  | OpCodes.X64Store => Some args_run_x64_store
  | OpCodes.X32Store => Some args_run_x32_store
  | OpCodes.X16Store => Some args_run_x16_store
  | OpCodes.X8Store => Some args_run_x8_store
  | OpCodes.X64LoadSigned => Some args_run_x64_load_signed
  | OpCodes.X32LoadSigned => Some args_run_x32_load_signed
  | OpCodes.X32LoadUnsigned => Some args_run_x32_load_unsigned
  | OpCodes.X16LoadSigned => Some args_run_x16_load_signed
  | OpCodes.X16LoadUnsigned => Some args_run_x16_load_unsigned
  | OpCodes.X8LoadSigned => Some args_run_x8_load_signed
  | OpCodes.X8LoadUnsigned => Some args_run_x8_load_unsigned
  | OpCodes.X32AtomicLoad => Some args_run_x32_atomic_load
  | OpCodes.X64AtomicLoad => Some args_run_x64_atomic_load
  | OpCodes.X32AtomicStore => Some args_run_x32_atomic_store
  | OpCodes.X64AtomicStore => Some args_run_x64_atomic_store
  | OpCodes.X64AtomicAdd => Some args_run_x64_atomic_add
  | OpCodes.X32AtomicSwap => Some args_run_x32_atomic_swap
  | OpCodes.X64AtomicSwap => Some args_run_x64_atomic_swap
  | OpCodes.X64AtomicMinSigned => Some args_run_x64_atomic_min_signed
  | OpCodes.Unknown => Some args_run_illegal
  | OpCodes.ECall => Some args_run_ecall
  | _ => None
  end.

End Lowering.

(** ** The interpreter *)
Section Run.
Context {Mem : Type} `{Memory Mem}.
Notation Core := (MachineCoreState Mem).
Implicit Types self : Args.

(** [RunInstr]. *)
Definition RunInstr : Type := Args -> M Core (result (ProgramCounterUpdate Z) Exception).

Definition impl_csr_type
    (f : CSRegister -> XRegister -> XRegister -> M HartState (result unit Exception)) : RunInstr :=
  fun self =>
  rs1 <- mlift (register_x (a_rs1 self)) ;;
  rd <- mlift (register_x (a_rd self)) ;;
  res <- on_hart (f (a_csr self) rs1 rd) ;;
  mret (result_map res (fun _ => Next (a_width self))).

Definition impl_csr_imm_type
    (f : CSRegister -> Z -> XRegister -> M HartState (result unit Exception)) : RunInstr :=
  fun self =>
  rd <- mlift (register_x (a_rd self)) ;;
  res <- on_hart (f (a_csr self) (wrap 64 (a_imm self)) rd) ;;
  mret (result_map res (fun _ => Next (a_width self))).

(** [OpCode::to_run]. *)
Definition to_run (opcode : OpCode) : option RunInstr :=
  match opcode with
  | OpCodes.Add => Some args_run_add
  | OpCodes.Sub => Some args_run_sub
  | OpCodes.Neg => Some args_run_neg
  | OpCodes.X64Xor => Some args_run_x64_xor
  | OpCodes.Or => Some args_run_or
  | OpCodes.And => Some args_run_and
  | OpCodes.ShiftLeft => Some args_run_shift_left
  | OpCodes.ShiftRightUnsigned => Some args_run_shift_right_unsigned
  | OpCodes.ShiftRightSigned => Some args_run_shift_right_signed
  | OpCodes.SetLessThanSigned => Some args_run_set_less_than_signed
  | OpCodes.SetLessThanUnsigned => Some args_run_set_less_than_unsigned
  | OpCodes.AddWord => Some args_run_add_word
  | OpCodes.SubWord => Some args_run_sub_word
  | OpCodes.X32ShiftLeft => Some args_run_x32_shift_left
  | OpCodes.X32ShiftRightUnsigned => Some args_run_x32_shift_right_unsigned
  | OpCodes.X32ShiftRightSigned => Some args_run_x32_shift_right_signed
  | OpCodes.Addi => Some args_run_addi
  | OpCodes.AddWordImmediate => Some args_run_add_word_immediate
  | OpCodes.X64XorImm => Some args_run_x64_xor_immediate
  | OpCodes.X64OrImm => Some args_run_x64_or_immediate
  | OpCodes.Andi => Some args_run_andi
  | OpCodes.ShiftLeftImmediate => Some args_run_shift_left_immediate
  | OpCodes.ShiftRightImmediateUnsigned => Some args_run_shift_right_immediate_unsigned
  | OpCodes.ShiftRightImmediateSigned => Some args_run_shift_right_immediate_signed
  | OpCodes.X32ShiftLeftImm => Some args_run_x32_shift_left_imm
  | OpCodes.X32ShiftRightImmUnsigned => Some args_run_x32_shift_right_imm_unsigned
  | OpCodes.X32ShiftRightImmSigned => Some args_run_x32_shift_right_imm_signed
  | OpCodes.SetLessThanImmediateSigned => Some args_run_set_less_than_immediate_signed
  | OpCodes.SetLessThanImmediateUnsigned => Some args_run_set_less_than_immediate_unsigned
  | OpCodes.X8LoadSigned => Some args_run_x8_load_signed
  | OpCodes.X16LoadSigned => Some args_run_x16_load_signed
  | OpCodes.X32LoadSigned => Some args_run_x32_load_signed
  | OpCodes.X8LoadUnsigned => Some args_run_x8_load_unsigned
  | OpCodes.X16LoadUnsigned => Some args_run_x16_load_unsigned
  | OpCodes.X32LoadUnsigned => Some args_run_x32_load_unsigned
  | OpCodes.X64LoadSigned => Some args_run_x64_load_signed
  | OpCodes.X8Store => Some args_run_x8_store
  | OpCodes.X16Store => Some args_run_x16_store
  | OpCodes.X32Store => Some args_run_x32_store
  | OpCodes.X64Store => Some args_run_x64_store
  | OpCodes.BranchEqual => Some args_run_branch_equal
  | OpCodes.BranchNotEqual => Some args_run_branch_not_equal
  | OpCodes.BranchLessThanSigned => Some args_run_branch_less_than_signed
  | OpCodes.BranchGreaterThanOrEqualSigned => Some args_run_branch_greater_than_or_equal_signed
  | OpCodes.BranchLessThanZero => Some args_run_branch_less_than_zero
  | OpCodes.BranchGreaterThanOrEqualZero => Some args_run_branch_greater_than_or_equal_zero
  | OpCodes.BranchLessThanOrEqualZero => Some args_run_branch_less_than_equal_zero
  | OpCodes.BranchGreaterThanZero => Some args_run_branch_greater_than_zero
  | OpCodes.BranchLessThanUnsigned => Some args_run_branch_less_than_unsigned
  | OpCodes.BranchGreaterThanOrEqualUnsigned => Some args_run_branch_greater_than_or_equal_unsigned
  | OpCodes.AddImmediateToPC => Some args_run_add_immediate_to_pc
  | OpCodes.Jal => Some args_run_jal
  | OpCodes.JalrImm => Some args_run_jalr_imm
  | OpCodes.JrImm => Some args_run_jr_imm
  | OpCodes.JalrAbsolute => Some args_run_jalr_absolute
  | OpCodes.X32AtomicLoad => Some args_run_x32_atomic_load
  | OpCodes.X32AtomicStore => Some args_run_x32_atomic_store
  | OpCodes.X32AtomicSwap => Some args_run_x32_atomic_swap
  | OpCodes.Amoaddw => Some (impl_amo_type run_amoaddw)
  | OpCodes.Amoxorw => Some (impl_amo_type run_amoxorw)
  | OpCodes.Amoandw => Some (impl_amo_type run_amoandw)
  | OpCodes.Amoorw => Some (impl_amo_type run_amoorw)
  | OpCodes.Amominw => Some (impl_amo_type run_amominw)
  | OpCodes.Amomaxw => Some (impl_amo_type run_amomaxw)
  | OpCodes.Amominuw => Some (impl_amo_type run_amominuw)
  | OpCodes.Amomaxuw => Some (impl_amo_type run_amomaxuw)
  | OpCodes.X64AtomicLoad => Some args_run_x64_atomic_load
  | OpCodes.X64AtomicStore => Some args_run_x64_atomic_store
  | OpCodes.X64AtomicSwap => Some args_run_x64_atomic_swap
  | OpCodes.X64AtomicAdd => Some args_run_x64_atomic_add
  | OpCodes.Amoxord => Some (impl_amo_type run_amoxord)
  | OpCodes.Amoandd => Some (impl_amo_type run_amoandd)
  | OpCodes.Amoord => Some (impl_amo_type run_amoord)
  | OpCodes.X64AtomicMinSigned => Some args_run_x64_atomic_min_signed
  | OpCodes.Amomaxd => Some (impl_amo_type run_amomaxd)
  | OpCodes.Amominud => Some (impl_amo_type run_amominud)
  | OpCodes.Amomaxud => Some (impl_amo_type run_amomaxud)
  | OpCodes.X64RemSigned => Some args_run_x64_rem_signed
  | OpCodes.X64RemUnsigned => Some args_run_x64_rem_unsigned
  | OpCodes.X32RemSigned => Some args_run_x32_rem_signed
  | OpCodes.X32RemUnsigned => Some args_run_x32_rem_unsigned
  | OpCodes.X64DivSigned => Some args_run_x64_div_signed
  | OpCodes.X64DivUnsigned => Some args_run_x64_div_unsigned
  | OpCodes.X32DivSigned => Some args_run_x32_div_signed
  | OpCodes.X32DivUnsigned => Some args_run_x32_div_unsigned
  | OpCodes.Mul => Some args_run_mul
  | OpCodes.X64MulHighSigned => Some args_run_x64_mul_high_signed
  | OpCodes.X64MulHighSignedUnsigned => Some args_run_x64_mul_high_signed_unsigned
  | OpCodes.X64MulHighUnsigned => Some args_run_x64_mul_high_unsigned
  | OpCodes.X32Mul => Some args_run_x32_mul
  | OpCodes.Csrrw => Some (impl_csr_type run_csrrw)
  | OpCodes.Csrrs => Some (impl_csr_type run_csrrs)
  | OpCodes.Csrrc => Some (impl_csr_type run_csrrc)
  | OpCodes.Csrrwi => Some (impl_csr_imm_type run_csrrwi)
  | OpCodes.Csrrsi => Some (impl_csr_imm_type run_csrrsi)
  | OpCodes.Csrrci => Some (impl_csr_imm_type run_csrrci)
  | OpCodes.J => Some args_run_j
  | OpCodes.JAbsolute => Some args_run_j_absolute
  | OpCodes.Jr => Some args_run_jr
  | OpCodes.Jalr => Some args_run_jalr
  | OpCodes.BranchEqualZero => Some args_run_branch_equal_zero
  | OpCodes.BranchNotEqualZero => Some args_run_branch_not_equal_zero
  | OpCodes.Li => Some args_run_li
  | OpCodes.Mv => Some args_run_mv
  | OpCodes.Nop => Some args_run_nop
  | OpCodes.Unknown => Some args_run_illegal
  | OpCodes.ECall => Some args_run_ecall
  | _ => None
  end.

(** [Instruction::run] and [MachineCoreState::run_instr_cacheable], for an
    opcode that is modelled. *)
Definition instruction_run (self : Instruction)
  : option (M Core (result (ProgramCounterUpdate Z) Exception)) :=
  match to_run (i_opcode self) with Some f => Some (f (i_args self)) | None => None end.

Definition run_instr_cacheable (instr : InstrCacheable)
  : option (M Core (result (ProgramCounterUpdate Z) Exception)) :=
  instruction_run (instruction_of_cacheable instr).

End Run.
