(* ===== verification/Step.v ===== *)
(** * Fetching and stepping

    Models the execution loop of [src/riscv/lib/src/machine_state.rs] and the
    bounds of [range_utils.rs]: fetching an instruction, running it, turning its
    outcome into the next program counter, and running many steps through a
    block cache.

    The block cache is the interface [BlockCache], the trait of
    [machine_state/block_cache.rs].  [None] is a panic, or an instruction whose
    execution is not modelled (the floating-point opcodes). *)

From S2P Require Import Prelude.
From S2P Require Import Registers.
From S2P Require Import Csr.
From S2P Require Import Instr.
From S2P Require Import Parser.
From S2P Require Import Instruction.
From S2P Require Import Constructors.
From S2P Require Import Icb.
From S2P Require Import Memory.
From S2P Require Import Core.
From S2P Require Import Run.

(** ** Bounds on a number of steps *)
Inductive Bound : Type := Included (x : Z) | Excluded (x : Z) | Unbounded.

Definition bound_saturating_sub (bound : Bound) (shift : Z) : Bound :=
  match bound with
  | Included x => Included (saturating_sub x shift)
  | Excluded x => Excluded (saturating_sub x shift)
  | Unbounded => Unbounded
  end.

Definition less_than_bound (num : Z) (bound : Bound) : bool :=
  match bound with
  | Included x => num <? x
  | Excluded x => num <? saturating_sub x 1
  | Unbounded => true
  end.

Definition unwrap_bound (bound : Bound) : Z :=
  match bound with
  | Included x => x
  | Excluded x => saturating_sub x 1
  | Unbounded => usize_MAX
  end.

(** ** Results of many steps *)
Record StepManyResult (E : Type) : Type := mkSteps { steps : Z; error : option E }.
Arguments mkSteps {E} steps error.
Arguments steps {E} _.
Arguments error {E} _.

Definition ZERO {E} : StepManyResult E := {| steps := 0; error := None |}.

(** The merged result, and whether it has an error. *)
Definition merge_and_return {E} (self other : StepManyResult E) : bool * StepManyResult E :=
  let self := {| steps := steps self + steps other; error := error other |} in
  (match error self with Some _ => true | None => false end, self).

(** ** The core: outcomes of instructions *)
Section CoreStep.
Context {Mem : Type} `{Memory Mem}.
Notation Core := (MachineCoreState Mem).

Definition address_on_exception (exception : Exception) (current_pc : Z)
  : M Core (result Z EnvironException) :=
  match environ_of_exception exception with
  | Some exc =>
      on_hart (mput (with_pc current_pc)) ;;;
      mret (Err exc)
  | None =>
      let trap_pc := 0 in
      mret (Ok trap_pc)
  end.

Definition handle_step_result (instr_pc : Z)
    (res : result (ProgramCounterUpdate Z) Exception) : M Core (result Z EnvironException) :=
  r <- (match res with
        | Err exc => address_on_exception exc instr_pc
        | Ok (Set_ address) => mret (Ok address)
        | Ok (Next width) => mret (Ok (wrap 64 (instr_pc + width_bytes width)))
        end) ;;
  match r with
  | Err exc => mret (Err exc)
  | Ok pc =>
      on_hart (mput (with_pc pc)) ;;;
      mret (Ok pc)
  end.

End CoreStep.

(** ** The block cache, as the machine uses it

    [bc_get_block] gives the call of the block found: [BlockCall::run_block] on
    a program counter and a number of steps. *)
Class BlockCache (BC Mem : Type) : Type := {
  bc_invalidate : M BC unit;
  bc_reset : M BC unit;
  bc_get_block : Z ->
    M BC (option (Z -> Z -> M (MachineCoreState Mem * BC) (StepManyResult EnvironException)));
  bc_push_instr_compressed : Z -> Instruction -> M BC unit;
  bc_push_instr_uncompressed : Z -> Instruction -> M BC unit;
  bc_complete_current_block :
    Z -> M (MachineCoreState Mem * BC) (StepManyResult EnvironException) }.

Section Machine.
Context {Mem BC : Type} `{Memory Mem} `{!BlockCache BC Mem}.
Notation Core := (MachineCoreState Mem).

(** [MachineState]: the core and the block cache. *)
Definition MachineState : Type := Core * BC.

Definition on_core {A} (f : M Core A) : M MachineState A :=
  fun '(core, bc) => match f core with Some (a, core) => Some (a, (core, bc)) | None => None end.
Definition on_cache {A} (f : M BC A) : M MachineState A :=
  fun '(core, bc) => match f bc with Some (a, bc) => Some (a, (core, bc)) | None => None end.

Definition machine_reset : M MachineState unit := on_core core_reset ;;; on_cache bc_reset.

Definition fetch_instr_halfword (phys_addr : Z) : M MachineState (result InstructionData Exception) :=
  r <- on_core (on_memory (mem_read_exec u16 phys_addr)) ;;
  mret (result_map_err r (fun _ => InstructionAccessFault phys_addr)).

Definition fetch_instr (addr : Z) : M MachineState (result Instr Exception) :=
  lower <- fetch_instr_halfword addr ;;
  match lower with
  | Err e => mret (Err e)
  | Ok lower =>
      if is_compressed (data lower) then
        instr <- mlift (parse_compressed_instruction (data lower)) ;;
        (if negb (writable lower) then
           match instr with
           | Cacheable instr =>
               on_cache (bc_push_instr_compressed addr (instruction_of_cacheable instr))
           | Uncacheable _ => mret tt
           end
         else mret tt) ;;;
        mret (Ok instr)
      else
        let next_addr := wrap 64 (addr + 2) in
        upper <- fetch_instr_halfword next_addr ;;
        match upper with
        | Err e => mret (Err e)
        | Ok upper =>
            let combined := combine_with_upper lower upper in
            let instr := parse_uncompressed_instruction (data combined) in
            (if negb (writable combined) then
               match instr with
               | Cacheable instr =>
                   on_cache (bc_push_instr_uncompressed addr (instruction_of_cacheable instr))
               | Uncacheable _ => mret tt
               end
             else mret tt) ;;;
            mret (Ok instr)
        end
  end.

Definition run_instr_uncacheable (instr : InstrUncacheable)
  : M MachineState (result (ProgramCounterUpdate Z) Exception) :=
  match instr with
  | Instrs.Fence args =>
      on_core (run_fence (fence_pred args) (fence_succ args)) ;;;
      mret (Ok (Next (uncacheable_width instr)))
  | Instrs.FenceTso _ => mret (Err IllegalInstruction)
  | Instrs.Ebreak => h <- on_core (mget hart) ;; mret (Err (run_ebreak h))
  | Instrs.CEbreak => h <- on_core (mget hart) ;; mret (Err (run_cebreak h))
  | Instrs.FenceI =>
      on_cache bc_invalidate ;;;
      mret (Ok (Next (uncacheable_width instr)))
  end.

Definition run_instr (instr : Instr) : M MachineState (result (ProgramCounterUpdate Z) Exception) :=
  match instr with
  | Cacheable i => f <- mlift (run_instr_cacheable i) ;; on_core f
  | Uncacheable i => run_instr_uncacheable i
  end.

Definition run_instr_at (addr : Z) : M MachineState (result (ProgramCounterUpdate Z) Exception) :=
  r <- fetch_instr addr ;;
  match r with
  | Err e => mret (Err e)
  | Ok instr => run_instr instr
  end.

(** The loop of [step_max_inner]; [fuel] bounds its iterations. *)
Fixpoint step_loop (fuel : nat) (max_steps : Z) (res : StepManyResult EnvironException)
  : M MachineState (StepManyResult EnvironException) :=
  if steps res <? max_steps then
    match fuel with
    | O => mpanic
    | S fuel =>
        instr_pc <- on_core (on_hart (mget pc)) ;;
        block <- on_cache (bc_get_block instr_pc) ;;
        match block with
        | Some run_block =>
            let steps_remaining := max_steps - steps res in
            block_result <- run_block instr_pc steps_remaining ;;
            let '(failed, res) := merge_and_return res block_result in
            if failed then mret res else step_loop fuel max_steps res
        | None =>
            r <- run_instr_at instr_pc ;;
            r <- on_core (handle_step_result instr_pc r) ;;
            match r with
            | Err err => mret {| steps := steps res; error := Some err |}
            | Ok _ =>
                step_loop fuel max_steps {| steps := steps res + 1; error := error res |}
            end
        end
    end
  else mret res.

Definition step_max_inner (max_steps : Z) : M MachineState (StepManyResult EnvironException) :=
  current_block_result <- bc_complete_current_block max_steps ;;
  let '(failed, res) := merge_and_return ZERO current_block_result in
  if failed then mret res
  else step_loop (Z.to_nat max_steps) max_steps res.

Definition step : M MachineState (result unit EnvironException) :=
  r <- step_max_inner 1 ;;
  mret (match error r with Some error => Err error | None => Ok tt end).

(** [step_max]; [fuel] bounds the iterations of its loop. *)
Fixpoint step_max_loop (fuel : nat) (max_steps : Bound) (res : StepManyResult EnvironException)
  : M MachineState (StepManyResult EnvironException) :=
  match fuel with
  | O => mpanic
  | S fuel =>
      iter_result <- step_max_inner (unwrap_bound max_steps) ;;
      let '(errored, res) := merge_and_return res iter_result in
      let out_of_steps := negb (less_than_bound (steps res) max_steps) in
      if errored || out_of_steps then mret res else step_max_loop fuel max_steps res
  end.

Definition step_max (fuel : nat) (max_steps : Bound)
  : M MachineState (StepManyResult EnvironException) := step_max_loop fuel max_steps ZERO.

(** A run of the machine beside the state that a handler's closure captures. *)
Definition on_machine {X A} (f : M MachineState A) : M (MachineState * X) A :=
  fun '(ms, x) => match f ms with Some (a, ms) => Some (a, (ms, x)) | None => None end.

(** [step_max_handle]; [fuel] bounds the iterations of its loop, [inner_fuel]
    that of [step_max]. *)
Fixpoint step_max_handle_loop {X E} (fuel inner_fuel : nat)
    (handle : EnvironException -> M (MachineState * X) (result bool E))
    (step_bounds : Bound) (count : Z) : M (MachineState * X) (StepManyResult E) :=
  match fuel with
  | O => mpanic
  | S fuel =>
      res <- on_machine (step_max inner_fuel step_bounds) ;;
      let count := saturating_add count (steps res) in
      let step_bounds := bound_saturating_sub step_bounds (steps res) in
      match error res with
      | Some cause =>
          let count := saturating_add count 1 in
          let step_bounds := bound_saturating_sub step_bounds 1 in
          h <- handle cause ;;
          match h with
          | Ok may_continue =>
              if negb may_continue then mret {| steps := count; error := None |}
              else step_max_handle_loop fuel inner_fuel handle step_bounds count
          | Err error => mret {| steps := count; error := Some error |}
          end
      | None => mret {| steps := count; error := None |}
      end
  end.

Definition step_max_handle {X E} (fuel inner_fuel : nat) (step_bounds : Bound)
    (handle : EnvironException -> M (MachineState * X) (result bool E))
  : M (MachineState * X) (StepManyResult E) :=
  step_max_handle_loop fuel inner_fuel handle step_bounds 0.

End Machine.
