(* ===== verification/Cranelift.v ===== *)
(** * Cranelift's intermediate representation

    The compiler of [src/riscv/lib/src/jit/] emits code through the [cranelift] crates.
    This file has the part of them that it uses, from their documentation: the
    functions of the intermediate representation, the calls of [FunctionBuilder] and
    [InstBuilder] that build one, the conditions under which the builder or the verifier
    rejects it, and what the instructions mean.  The host's functions and its memory are
    parameters of the meaning: the class [Host].

    The code that a builder has emitted is a part of every function it goes on to build
    ([extends]); so a run of the finished function follows the emission, instruction by
    instruction, from where the builder stood ([here]). *)

From stdpp Require Import gmap.
From S2P Require Import Prelude.

(** ** Types, values and instructions *)
Inductive IrType : Type := I8 | I16 | I32 | I64 | I128.
#[export] Instance IrType_eq_dec : EqDecision IrType.
Proof. solve_decision. Defined.

Definition type_bits (ty : IrType) : Z :=
  match ty with I8 => 8 | I16 => 16 | I32 => 32 | I64 => 64 | I128 => 128 end.

Notation Value := nat (only parsing).
Notation Block := nat (only parsing).
Notation FuncRef := nat (only parsing).
Notation StackSlot := nat (only parsing).

Module IntCC.
Inductive IntCC : Type :=
| Equal
| NotEqual
| SignedLessThan
| SignedGreaterThanOrEqual
| SignedGreaterThan
| SignedLessThanOrEqual
| UnsignedLessThan
| UnsignedGreaterThanOrEqual
| UnsignedGreaterThan
| UnsignedLessThanOrEqual.
End IntCC.
Notation IntCC := IntCC.IntCC.

Inductive BinaryOp : Type :=
| Iadd | Isub | Imul | Udiv | Sdiv | Urem | Srem | Band | Bor | Bxor | Ishl | Ushr | Sshr | Smin.

(** The results of an instruction are its first arguments. *)
Inductive Inst : Type :=
| Iconst (res : Value) (ty : IrType) (imm : Z)
| Binary (op : BinaryOp) (res a b : Value)
| IaddImm (res a : Value) (imm : Z)
| Ineg (res a : Value)
| Icmp (res : Value) (cc : IntCC) (a b : Value)
| Ireduce (res : Value) (ty : IrType) (a : Value)
| Uextend (res : Value) (ty : IrType) (a : Value)
| Sextend (res : Value) (ty : IrType) (a : Value)
| Isplit (lo hi a : Value)
| StackAddr (res : Value) (slot : StackSlot)
| StackStore (a : Value) (slot : StackSlot)
| StackLoad (res : Value) (ty : IrType) (slot : StackSlot)
| Load (res : Value) (ty : IrType) (ptr : Value) (offset : Z)
| Store (a ptr : Value) (offset : Z)
| Call (res : option Value) (f : FuncRef) (args : list Value)
| Brif (cond : Value) (block_then block_else : Block)
| Jump (block : Block) (args : list Value)
| Return (args : list Value).

Definition is_terminator (i : Inst) : bool :=
  match i with Brif _ _ _ | Jump _ _ | Return _ => true | _ => false end.

(** ** Functions *)
Record BlockData : Type := mkBlockData { params : list Value; insts : list Inst; sealed : bool }.

Record StackSlotData : Type := mkStackSlotData { size : Z; align_shift : Z }.

(** [value_types] has the type of every value, block parameters included;
    [ext_funcs] the imported functions, of the type [Fn]. *)
Record Function (Fn : Type) : Type := mkFunction {
  blocks : list BlockData;
  value_types : list IrType;
  ext_funcs : list Fn;
  stack_slots : list StackSlotData }.
Arguments mkFunction {Fn}.
Arguments blocks {Fn}.
Arguments value_types {Fn}.
Arguments ext_funcs {Fn}.
Arguments stack_slots {Fn}.

(** A block is filled by its terminator. *)
Definition is_filled (bd : BlockData) : bool :=
  match last (insts bd) with Some i => is_terminator i | None => false end.

(** ** The function builder

    [None] is a failed assertion of the builder. *)
Record FunctionBuilder (Fn : Type) : Type := mkFunctionBuilder {
  func : Function Fn;
  position : option Block }.
Arguments mkFunctionBuilder {Fn}.
Arguments func {Fn}.
Arguments position {Fn}.

Section Building.
Context {Fn : Type} (signature : Fn -> list IrType * option IrType).
Notation FB := (FunctionBuilder Fn).

Definition with_func (f : Function Fn -> Function Fn) (b : FB) : FB :=
  mkFunctionBuilder (f (func b)) (position b).
Definition with_blocks (bs : list BlockData) (f : Function Fn) : Function Fn :=
  mkFunction bs (value_types f) (ext_funcs f) (stack_slots f).

Definition create_block : M FB Block := fun b =>
  let f := func b in
  Some (length (blocks f), with_func (with_blocks (blocks f ++ [mkBlockData [] [] false])) b).

Definition new_value (ty : IrType) : M FB Value := fun b =>
  let f := func b in
  Some (length (value_types f),
        with_func (fun f => mkFunction (blocks f) (value_types f ++ [ty]) (ext_funcs f) (stack_slots f)) b).

Definition value_type (v : Value) : M FB IrType :=
  tys <- mget (fun b => value_types (func b)) ;; mlift (tys !! v).

(** An update of the data of a block. *)
Definition on_block (blk : Block) (g : BlockData -> option BlockData) : M FB unit := fun b =>
  match blocks (func b) !! blk ≫= g with
  | Some bd => Some (tt, with_func (fun f => with_blocks (<[blk := bd]> (blocks f)) f) b)
  | None => None
  end.

(** Parameters come before instructions. *)
Definition append_block_param (blk : Block) (ty : IrType) : M FB Value :=
  v <- new_value ty ;;
  on_block blk (fun bd =>
    match insts bd with
    | [] => Some (mkBlockData (params bd ++ [v]) [] (sealed bd))
    | _ => None
    end) ;;;
  mret v.

Definition block_params (blk : Block) : M FB (list Value) :=
  bs <- mget (fun b => blocks (func b)) ;;
  bd <- mlift (bs !! blk) ;;
  mret (params bd).

(** The current block, if any, must be empty or filled, and the next one not filled. *)
Definition may_leave (b : FB) : bool :=
  match position b with
  | None => true
  | Some blk =>
      match blocks (func b) !! blk with
      | Some bd => is_filled bd || match insts bd with [] => true | _ => false end
      | None => false
      end
  end.
Definition switch_to_block (blk : Block) : M FB unit := fun b =>
  match blocks (func b) !! blk with
  | Some bd =>
      if may_leave b && negb (is_filled bd)
      then Some (tt, mkFunctionBuilder (func b) (Some blk)) else None
  | None => None
  end.

Definition seal (bd : BlockData) : BlockData := mkBlockData (params bd) (insts bd) true.
Definition seal_block (blk : Block) : M FB unit := on_block blk (fun bd => Some (seal bd)).
Definition seal_all_blocks : M FB unit :=
  mput (with_func (fun f => with_blocks (seal <$> blocks f) f)).

(** Every block with code is sealed and filled. *)
Definition block_done (bd : BlockData) : bool :=
  match insts bd with [] => true | _ => sealed bd && is_filled bd end.
Definition finalize : M FB unit := fun b =>
  if forallb block_done (blocks (func b)) then Some (tt, b) else None.

Definition create_sized_stack_slot (data : StackSlotData) : M FB StackSlot := fun b =>
  let f := func b in
  Some (length (stack_slots f),
        with_func (fun f => mkFunction (blocks f) (value_types f) (ext_funcs f) (stack_slots f ++ [data])) b).

(** [Module::declare_func_in_func]. *)
Definition declare_func_in_func (fn : Fn) : M FB FuncRef := fun b =>
  let f := func b in
  Some (length (ext_funcs f),
        with_func (fun f => mkFunction (blocks f) (value_types f) (ext_funcs f ++ [fn]) (stack_slots f)) b).

(** ** Instructions: [builder.ins()] *)
Definition push_inst (i : Inst) : M FB unit :=
  blk <- mget position ;;
  blk <- mlift blk ;;
  on_block blk (fun bd =>
    if is_filled bd then None else Some (mkBlockData (params bd) (insts bd ++ [i]) (sealed bd))).

(** An instruction with one result. *)
Definition ins_value (ty : IrType) (mk : Value -> Inst) : M FB Value :=
  v <- new_value ty ;;
  push_inst (mk v) ;;;
  mret v.

Definition iconst (ty : IrType) (imm : Z) : M FB Value := ins_value ty (fun v => Iconst v ty imm).
Definition binary (op : BinaryOp) (a b : Value) : M FB Value :=
  ty <- value_type a ;; ins_value ty (fun v => Binary op v a b).
Definition iadd_imm (a : Value) (imm : Z) : M FB Value :=
  ty <- value_type a ;; ins_value ty (fun v => IaddImm v a imm).
Definition ineg (a : Value) : M FB Value := ty <- value_type a ;; ins_value ty (fun v => Ineg v a).
Definition icmp (cc : IntCC) (a b : Value) : M FB Value := ins_value I8 (fun v => Icmp v cc a b).
Definition ireduce (ty : IrType) (a : Value) : M FB Value := ins_value ty (fun v => Ireduce v ty a).
Definition uextend (ty : IrType) (a : Value) : M FB Value := ins_value ty (fun v => Uextend v ty a).
Definition sextend (ty : IrType) (a : Value) : M FB Value := ins_value ty (fun v => Sextend v ty a).
(** Of a 128-bit value. *)
Definition isplit (a : Value) : M FB (Value * Value) :=
  lo <- new_value I64 ;;
  hi <- ins_value I64 (fun hi => Isplit lo hi a) ;;
  mret (lo, hi).
Definition stack_addr (ty : IrType) (slot : StackSlot) : M FB Value :=
  ins_value ty (fun v => StackAddr v slot).
Definition stack_store (a : Value) (slot : StackSlot) : M FB unit := push_inst (StackStore a slot).
Definition stack_load (ty : IrType) (slot : StackSlot) : M FB Value :=
  ins_value ty (fun v => StackLoad v ty slot).
Definition load (ty : IrType) (ptr : Value) (offset : Z) : M FB Value :=
  ins_value ty (fun v => Load v ty ptr offset).
Definition store (a ptr : Value) (offset : Z) : M FB unit := push_inst (Store a ptr offset).
(** The results are those of the function's signature. *)
Definition call (f : FuncRef) (args : list Value) : M FB (list Value) :=
  fns <- mget (fun b => ext_funcs (func b)) ;;
  fn <- mlift (fns !! f) ;;
  match snd (signature fn) with
  | Some ty => v <- ins_value ty (fun v => Call (Some v) f args) ;; mret [v]
  | None => push_inst (Call None f args) ;;; mret []
  end.
Definition brif (cond : Value) (block_then block_else : Block) : M FB unit :=
  push_inst (Brif cond block_then block_else).
Definition jump (blk : Block) (args : list Value) : M FB unit := push_inst (Jump blk args).
Definition return_ (args : list Value) : M FB unit := push_inst (Return args).

End Building.

(** ** The verifier

    The typing rules of the instructions; a block ends with a terminator and has no
    other one. *)
Section Verifier.
Context {Fn : Type} (signature : Fn -> list IrType * option IrType) (returns : list IrType).
Variable f : Function Fn.

Definition has_type (v : Value) (ty : IrType) : bool :=
  match value_types f !! v with Some ty' => bool_decide (ty = ty') | None => false end.
Fixpoint have_types (vs : list Value) (tys : list IrType) : bool :=
  match vs, tys with
  | [], [] => true
  | v :: vs, ty :: tys => has_type v ty && have_types vs tys
  | _, _ => false
  end.
Definition type_of (v : Value) (k : IrType -> bool) : bool :=
  match value_types f !! v with Some ty => k ty | None => false end.

Definition target_ok (blk : Block) (args : list Value) : bool :=
  match blocks f !! blk with
  | Some bd =>
      match mapM (fun p => value_types f !! p) (params bd) with
      | Some tys => have_types args tys
      | None => false
      end
  | None => false
  end.

Definition inst_ok (i : Inst) : bool :=
  match i with
  | Iconst res ty _ => has_type res ty && (type_bits ty <=? 64)
  | Binary _ res a b => type_of a (fun ty => has_type b ty && has_type res ty)
  | IaddImm res a _ | Ineg res a => type_of a (fun ty => has_type res ty)
  | Icmp res _ a b => type_of a (fun ty => has_type b ty && has_type res I8)
  | Ireduce res ty a => type_of a (fun ty' => (type_bits ty <? type_bits ty') && has_type res ty)
  | Uextend res ty a | Sextend res ty a =>
      type_of a (fun ty' => (type_bits ty' <? type_bits ty) && has_type res ty)
  | Isplit lo hi a => has_type a I128 && has_type lo I64 && has_type hi I64
  | StackAddr res slot => has_type res I64 && bool_decide (is_Some (stack_slots f !! slot))
  | StackStore a slot => type_of a (fun _ => bool_decide (is_Some (stack_slots f !! slot)))
  | StackLoad res ty slot => has_type res ty && bool_decide (is_Some (stack_slots f !! slot))
  | Load res ty ptr _ => has_type res ty && has_type ptr I64
  | Store a ptr _ => type_of a (fun _ => has_type ptr I64)
  | Call res fn args =>
      match ext_funcs f !! fn with
      | Some fn =>
          let '(tys, ret) := signature fn in
          have_types args tys &&
          match res, ret with
          | Some v, Some ty => has_type v ty
          | None, None => true
          | _, _ => false
          end
      | None => false
      end
  | Brif cond block_then block_else =>
      type_of cond (fun _ => target_ok block_then [] && target_ok block_else [])
  | Jump blk args => target_ok blk args
  | Return args => have_types args returns
  end.

(** An empty block is not part of the function's layout. *)
Fixpoint body_ok (l : list Inst) : bool :=
  match l with
  | [] => false
  | [i] => is_terminator i
  | i :: l => negb (is_terminator i) && body_ok l
  end.
Definition block_ok (bd : BlockData) : bool :=
  match insts bd with [] => true | l => body_ok l && forallb inst_ok l end.
Definition verify_function : bool := forallb block_ok (blocks f).

End Verifier.

(** ** Meaning

    A value is an integer of its type, or a pointer: to what an argument of the function
    points to, or to a stack slot. *)
Inductive Ptr : Type := PArg (n : nat) | PSlot (slot : StackSlot).
Inductive Val : Type := VInt (ty : IrType) (z : Z) | VPtr (p : Ptr).

(** What runs the code: the functions it imports and the memory it reaches. *)
Class Host (Fn H : Type) : Type := {
  host_call : Fn -> list Val -> M H (option Val);
  host_load : IrType -> Ptr -> Z -> H -> option Val;
  host_store : Val -> Ptr -> Z -> H -> option H }.

(** The binary operations; [None] is a trap. *)
Definition binary_op (op : BinaryOp) (w a b : Z) : option Z :=
  match op with
  | Iadd => Some (wrap w (a + b))
  | Isub => Some (wrap w (a - b))
  | Imul => Some (wrap w (a * b))
  | Udiv => if b =? 0 then None else Some (a / b)
  | Sdiv =>
      if (b =? 0) || ((sext w a =? - 2 ^ (w - 1)) && (sext w b =? -1)) then None
      else Some (wrap w (Z.quot (sext w a) (sext w b)))
  | Urem => if b =? 0 then None else Some (a mod b)
  | Srem => if b =? 0 then None else Some (wrap w (Z.rem (sext w a) (sext w b)))
  | Band => Some (Z.land a b)
  | Bor => Some (Z.lor a b)
  | Bxor => Some (Z.lxor a b)
  | Ishl => Some (wrap w (Z.shiftl a (b mod w)))
  | Ushr => Some (Z.shiftr a (b mod w))
  | Sshr => Some (wrap w (Z.shiftr (sext w a) (b mod w)))
  | Smin => Some (wrap w (Z.min (sext w a) (sext w b)))
  end.

Definition int_compare (cc : IntCC) (w a b : Z) : bool :=
  match cc with
  | IntCC.Equal => a =? b
  | IntCC.NotEqual => negb (a =? b)
  | IntCC.SignedLessThan => sext w a <? sext w b
  | IntCC.SignedGreaterThanOrEqual => sext w b <=? sext w a
  | IntCC.SignedGreaterThan => sext w b <? sext w a
  | IntCC.SignedLessThanOrEqual => sext w a <=? sext w b
  | IntCC.UnsignedLessThan => a <? b
  | IntCC.UnsignedGreaterThanOrEqual => b <=? a
  | IntCC.UnsignedGreaterThan => b <? a
  | IntCC.UnsignedLessThanOrEqual => a <=? b
  end.

Notation Env := (gmap nat Val) (only parsing).

(** Where a run stands. *)
Record Config (H : Type) : Type := mkConfig { c_block : Block; c_index : nat; c_env : Env; c_host : H }.
Arguments mkConfig {H}.
Arguments c_block {H}.
Arguments c_index {H}.
Arguments c_env {H}.
Arguments c_host {H}.

Inductive Progress (H : Type) : Type :=
| Running (c : Config H)
| Returned (vals : list Val) (h : H).
Arguments Running {H} c.
Arguments Returned {H} vals h.

Section Meaning.
Context {Fn H : Type} `{Host Fn H}.
Implicit Types (env : Env) (h : H) (f : Function Fn).

Definition int_of (env : Env) (v : Value) : option (IrType * Z) :=
  match env !! v with Some (VInt ty z) => Some (ty, z) | _ => None end.

(** The value of an instruction that only computes. *)
Definition pure_inst (i : Inst) env : option (Value * Val) :=
  match i with
  | Iconst res ty imm => Some (res, VInt ty (wrap (type_bits ty) imm))
  | Binary op res a b =>
      '(ty, x) ← int_of env a; '(_, y) ← int_of env b;
      z ← binary_op op (type_bits ty) x y; Some (res, VInt ty z)
  | IaddImm res a imm =>
      '(ty, x) ← int_of env a; Some (res, VInt ty (wrap (type_bits ty) (x + imm)))
  | Ineg res a => '(ty, x) ← int_of env a; Some (res, VInt ty (wrap (type_bits ty) (- x)))
  | Icmp res cc a b =>
      '(ty, x) ← int_of env a; '(_, y) ← int_of env b;
      Some (res, VInt I8 (if int_compare cc (type_bits ty) x y then 1 else 0))
  | Ireduce res ty a => '(_, x) ← int_of env a; Some (res, VInt ty (wrap (type_bits ty) x))
  | Uextend res ty a => '(_, x) ← int_of env a; Some (res, VInt ty x)
  | Sextend res ty a =>
      '(ty', x) ← int_of env a; Some (res, VInt ty (wrap (type_bits ty) (sext (type_bits ty') x)))
  | StackAddr res slot => Some (res, VPtr (PSlot slot))
  | _ => None
  end.

Definition pointer (env : Env) (v : Value) : option Ptr :=
  match env !! v with Some (VPtr p) => Some p | _ => None end.

(** An instruction that is not a terminator. *)
Definition exec_inst f (i : Inst) env h : option (Env * H) :=
  match i with
  | Isplit lo hi a =>
      '(_, x) ← int_of env a;
      Some (<[hi := VInt I64 (wrap 64 (Z.shiftr x 64))]> (<[lo := VInt I64 (wrap 64 x)]> env), h)
  | StackStore a slot => v ← env !! a; h ← host_store v (PSlot slot) 0 h; Some (env, h)
  | StackLoad res ty slot => v ← host_load (Fn := Fn) ty (PSlot slot) 0 h; Some (<[res := v]> env, h)
  | Load res ty ptr offset =>
      p ← pointer env ptr; v ← host_load (Fn := Fn) ty p offset h; Some (<[res := v]> env, h)
  | Store a ptr offset =>
      p ← pointer env ptr; v ← env !! a; h ← host_store (Fn := Fn) v p offset h; Some (env, h)
  | Call res fn args =>
      fn ← ext_funcs f !! fn; vals ← mapM (fun v => env !! v) args;
      '(r, h) ← host_call fn vals h;
      match res, r with
      | Some res, Some v => Some (<[res := v]> env, h)
      | None, None => Some (env, h)
      | _, _ => None
      end
  | _ => '(res, v) ← pure_inst i env; Some (<[res := v]> env, h)
  end.

Fixpoint bind_params (ps : list Value) (vals : list Val) env : option Env :=
  match ps, vals with
  | [], [] => Some env
  | p :: ps, v :: vals => bind_params ps vals (<[p := v]> env)
  | _, _ => None
  end.
Definition goto f (blk : Block) (vals : list Val) env h : option (Progress H) :=
  bd ← blocks f !! blk;
  env ← bind_params (params bd) vals env;
  Some (Running (mkConfig blk 0%nat env h)).

Definition inst_at f (blk : Block) (i : nat) : option Inst :=
  bd ← blocks f !! blk; insts bd !! i.

Definition step f (c : Config H) : option (Progress H) :=
  let env := c_env c in
  let h := c_host c in
  i ← inst_at f (c_block c) (c_index c);
  match i with
  | Brif cond block_then block_else =>
      '(_, z) ← int_of env cond;
      goto f (if z =? 0 then block_else else block_then) [] env h
  | Jump blk args => vals ← mapM (fun v => env !! v) args; goto f blk vals env h
  | Return args => vals ← mapM (fun v => env !! v) args; Some (Returned vals h)
  | i =>
      '(env, h) ← exec_inst f i env h;
      Some (Running (mkConfig (c_block c) (S (c_index c)) env h))
  end.

(** A run of at most [fuel] instructions to the end. *)
Fixpoint run (fuel : nat) f (c : Config H) : option (list Val * H) :=
  match fuel with
  | O => None
  | S fuel =>
      match step f c with
      | Some (Running c) => run fuel f c
      | Some (Returned vals h) => Some (vals, h)
      | None => None
      end
  end.

(** A call of the function: the parameters of the first block are its arguments. *)
Definition enter f (vals : list Val) h : option (Config H) :=
  bd ← blocks f !! 0%nat; env ← bind_params (params bd) vals ∅; Some (mkConfig 0%nat 0%nat env h).
Definition invoke (fuel : nat) f (vals : list Val) h : option (list Val * H) :=
  c ← enter f vals h; run fuel f c.

(** The number of instructions of a function. *)
Definition code_size f : nat := sum_list ((fun bd => length (insts bd)) <$> blocks f).

End Meaning.

(** ** Inversion of code in the monad *)
Lemma bind_inv {S A B} (m : M S A) (k : A -> M S B) s r :
  mbind m k s = Some r -> exists a s1, m s = Some (a, s1) /\ k a s1 = Some r.
Proof. unfold mbind. destruct (m s) as [[a s1]|]; [eauto | discriminate]. Qed.

(** Takes the hypotheses about binds apart. *)
Ltac inv_bind :=
  repeat match goal with
  | H : mbind _ _ _ = Some _ |- _ => apply bind_inv in H as (? & ? & ? & H)
  | H : mret _ _ = Some _ |- _ => injection H as <- <-
  | H : mget _ _ = Some _ |- _ => injection H as <- <-
  | H : mput _ _ = Some _ |- _ => injection H as <- <-
  | H : mpanic _ = Some _ |- _ => discriminate H
  end.

Section Extends.
Context {Fn : Type}.
Implicit Types f g : Function Fn.

Record extends f g : Prop := {
  ext_values : value_types f `prefix_of` value_types g;
  ext_fns : ext_funcs f `prefix_of` ext_funcs g;
  ext_slots : stack_slots f `prefix_of` stack_slots g;
  ext_blocks i bd : blocks f !! i = Some bd ->
    exists bd', blocks g !! i = Some bd' /\ params bd' = params bd /\ insts bd `prefix_of` insts bd' }.

#[export] Instance extends_preorder : PreOrder extends.
Proof.
  split.
  - intros f. split; try reflexivity. eauto.
  - intros f g k Hfg Hgk. split.
    + etransitivity; [apply Hfg | apply Hgk].
    + etransitivity; [apply Hfg | apply Hgk].
    + etransitivity; [apply Hfg | apply Hgk].
    + intros i bd Hi. destruct (ext_blocks _ _ Hfg i bd Hi) as (bd1 & H1 & P1 & I1).
      destruct (ext_blocks _ _ Hgk i bd1 H1) as (bd2 & H2 & P2 & I2).
      exists bd2. split; [assumption|]. split; [congruence|]. etransitivity; eassumption.
Qed.

Lemma extends_inst f g blk i x : extends f g -> inst_at f blk i = Some x -> inst_at g blk i = Some x.
Proof.
  intros E. unfold inst_at. destruct (blocks f !! blk) as [bd|] eqn:Hb; [|discriminate].
  destruct (ext_blocks _ _ E _ _ Hb) as (bd' & -> & _ & Hp). intros Hi.
  destruct Hp as [k Hk]. cbn in *. rewrite Hk. apply lookup_app_l_Some, Hi.
Qed.

Lemma extends_fn f g r fn : extends f g -> ext_funcs f !! r = Some fn -> ext_funcs g !! r = Some fn.
Proof. intros E. destruct (ext_fns _ _ E) as [k ->]. apply lookup_app_l_Some. Qed.

Lemma extends_values_length f g : extends f g -> (length (value_types f) <= length (value_types g))%nat.
Proof. intros E. apply prefix_length, E. Qed.

Lemma code_size_mono (bs bs' : list BlockData) :
  (forall i bd, bs !! i = Some bd -> exists bd', bs' !! i = Some bd' /\ (length (insts bd) <= length (insts bd'))%nat) ->
  (sum_list ((fun bd => length (insts bd)) <$> bs) <= sum_list ((fun bd => length (insts bd)) <$> bs'))%nat.
Proof.
  revert bs'. induction bs as [|bd bs IH]; intros bs' Hbs; [cbn; lia|].
  destruct (Hbs 0%nat bd eq_refl) as (bd' & H0 & Hl).
  destruct bs' as [|x bs']; [discriminate|]. injection H0 as ->. cbn.
  specialize (IH bs' (fun i => Hbs (S i))). lia.
Qed.

Lemma extends_size f g : extends f g -> (code_size f <= code_size g)%nat.
Proof.
  intros E. apply code_size_mono. intros i bd Hi.
  destruct (ext_blocks _ _ E i bd Hi) as (bd' & H' & _ & Hp). eauto using prefix_length.
Qed.

(** An update of a block that keeps its parameters and appends instructions. *)
Lemma with_blocks_insert_extends f blk bd bd' :
  blocks f !! blk = Some bd -> params bd' = params bd -> insts bd `prefix_of` insts bd' ->
  extends f (with_blocks (<[blk := bd']> (blocks f)) f).
Proof.
  intros Hb Hp Hi. split; try reflexivity. intros i x Hx. cbn.
  destruct (decide (i = blk)) as [->|Hne].
  - replace x with bd by congruence. exists bd'.
    rewrite list_lookup_insert_eq by (eapply lookup_lt_Some, Hb). auto.
  - rewrite list_lookup_insert_ne by auto. eauto.
Qed.

(** The same for the first [n] blocks only: it is kept by what changes the parameters of
    later blocks. *)
Record extends_below (n : nat) f g : Prop := {
  below_values : value_types f `prefix_of` value_types g;
  below_fns : ext_funcs f `prefix_of` ext_funcs g;
  below_slots : stack_slots f `prefix_of` stack_slots g;
  below_blocks i bd : (i < n)%nat -> blocks f !! i = Some bd ->
    exists bd', blocks g !! i = Some bd' /\ params bd' = params bd /\ insts bd `prefix_of` insts bd' }.

Lemma extends_below_of n f g : extends f g -> extends_below n f g.
Proof. intros []. split; auto. Qed.
Lemma extends_of_below f g : extends_below (length (blocks f)) f g -> extends f g.
Proof. intros []. split; auto. intros i bd Hi. eauto using lookup_lt_Some. Qed.
Lemma extends_below_trans n f g k : extends_below n f g -> extends_below n g k -> extends_below n f k.
Proof.
  intros Hfg Hgk. split.
  - etransitivity; [apply Hfg | apply Hgk].
  - etransitivity; [apply Hfg | apply Hgk].
  - etransitivity; [apply Hfg | apply Hgk].
  - intros i bd Hn Hi. destruct (below_blocks _ _ _ Hfg i bd Hn Hi) as (bd1 & H1 & P1 & I1).
    destruct (below_blocks _ _ _ Hgk i bd1 Hn H1) as (bd2 & H2 & P2 & I2).
    exists bd2. split; [assumption|]. split; [congruence|]. etransitivity; eassumption.
Qed.

Lemma code_size_insert f blk bd bd' : blocks f !! blk = Some bd ->
  (code_size (with_blocks (<[blk := bd']> (blocks f)) f) + length (insts bd)
   = code_size f + length (insts bd'))%nat.
Proof.
  intros Hb. unfold code_size. cbn. rewrite list_fmap_insert.
  revert blk Hb. induction (blocks f) as [|x bs IH]; intros [|blk] Hb; try discriminate; cbn in *.
  - injection Hb as ->. lia.
  - rewrite <- !Nat.add_assoc. f_equal. apply IH, Hb.
Qed.
End Extends.

(** ** Code that only goes up in an order on its state *)
Section Grows.
Context {T : Type} (R : relation T) `{!PreOrder R}.
Definition grows {A} (m : M T A) : Prop := forall t a t', m t = Some (a, t') -> R t t'.

Lemma grows_ret {A} (a : A) : grows (mret a).
Proof. intros t a' t' [= <- <-]. reflexivity. Qed.
Lemma grows_panic {A} : grows (mpanic (A := A)).
Proof. intros t a t' [=]. Qed.
Lemma grows_get {A} (g : T -> A) : grows (mget g).
Proof. intros t a t' [= <- <-]. reflexivity. Qed.
Lemma grows_lift {A} (o : option A) : grows (mlift o).
Proof. intros t a t'. destruct o; [intros [= <- <-]; reflexivity | discriminate]. Qed.
Lemma grows_bind {A B} (m : M T A) (k : A -> M T B) : grows m -> (forall a, grows (k a)) -> grows (mbind m k).
Proof.
  intros Hm Hk t b t' H. apply bind_inv in H as (a & t1 & H1 & H2).
  etransitivity; [eapply Hm, H1 | eapply Hk, H2].
Qed.
End Grows.

(** The first [n] blocks keep their instructions, but for the current one; and the
    builder goes on in the current block, or in a later one. *)
Record frame {Fn} (n : nat) (b b' : FunctionBuilder Fn) : Prop := {
  fr_length : (length (blocks (func b)) <= length (blocks (func b')))%nat;
  fr_position : position b' = position b \/
                exists i, position b' = Some i /\ (n <= i < length (blocks (func b')))%nat;
  fr_insts i bd : (i < n)%nat -> position b <> Some i -> blocks (func b) !! i = Some bd ->
    exists bd', blocks (func b') !! i = Some bd' /\ insts bd' = insts bd }.

Lemma frame_refl {Fn} n (b : FunctionBuilder Fn) : frame n b b.
Proof. split; eauto. Qed.
Lemma frame_trans {Fn} n (x y z : FunctionBuilder Fn) : frame n x y -> frame n y z -> frame n x z.
Proof.
  intros [N1 P1 I1] [N2 P2 I2]. split; [lia| |].
  - destruct P2 as [-> | ?]; [|auto]. destruct P1 as [-> | (i & -> & Hi)]; [auto|].
    right. exists i. split; [reflexivity | lia].
  - intros i bd Hi Hp Hb. destruct (I1 i bd Hi Hp Hb) as (bd1 & H1 & E1).
    destruct (I2 i bd1 Hi) as (bd2 & H2 & E2); [|assumption|exists bd2; split; congruence].
    destruct P1 as [-> | (j & -> & Hj)]; [assumption | intros [= ->]; lia].
Qed.
Lemma frame_weaken {Fn} n m (x y : FunctionBuilder Fn) : (n <= m)%nat -> frame m x y -> frame n x y.
Proof.
  intros Hn [N P I]. split; [exact N | |].
  { destruct P as [?|(i & ? & ?)]; [auto|right; exists i; split; [assumption|lia]]. }
  intros i bd Hi. apply I. lia.
Qed.

(** The order on builders of functions. *)
Definition fb_extends {Fn} (b b' : FunctionBuilder Fn) : Prop :=
  extends (func b) (func b') /\ frame (length (blocks (func b))) b b'.
Lemma extends_blocks_length {Fn} (f g : Function Fn) : extends f g -> (length (blocks f) <= length (blocks g))%nat.
Proof.
  intros E. destruct (Nat.le_gt_cases (length (blocks f)) (length (blocks g))) as [|Hlt]; [assumption|].
  destruct (lookup_lt_is_Some_2 (blocks f) (length (blocks g))) as [bd Hbd]; [assumption|].
  destruct (ext_blocks _ _ E _ _ Hbd) as (bd' & H' & _). apply lookup_lt_Some in H'. lia.
Qed.
#[export] Instance fb_extends_preorder {Fn} : PreOrder (@fb_extends Fn).
Proof.
  split; [intros b; split; [reflexivity | apply frame_refl]|].
  intros x y z [E1 F1] [E2 F2]. split; [etransitivity; eassumption|].
  eapply frame_trans; [exact F1|]. eapply frame_weaken; [apply extends_blocks_length, E1 | exact F2].
Qed.
(** What leaves the instructions alone. *)
Lemma frame_still {Fn} n (b b' : FunctionBuilder Fn) : position b' = position b ->
  (length (blocks (func b)) <= length (blocks (func b')))%nat ->
  (forall i bd, (i < n)%nat -> blocks (func b) !! i = Some bd -> exists bd', blocks (func b') !! i = Some bd' /\ insts bd' = insts bd) ->
  frame n b b'.
Proof. intros Hp Hn Hi. split; auto. Qed.

Create HintDb grows.
#[export] Hint Resolve grows_ret grows_panic grows_get grows_lift : grows.
#[export] Hint Extern 0 (PreOrder _) => typeclasses eauto : grows.

Ltac grows_step :=
  match goal with
  | |- forall _, _ => intro
  | |- grows _ (mbind _ _) => apply grows_bind; [typeclasses eauto | |]
  | |- grows _ (match ?x with _ => _ end) => destruct x
  | |- grows _ (let '_ := ?x in _) => destruct x
  | |- grows _ _ => solve [auto with grows]
  end.
Ltac grows := repeat grows_step.

(** ** Emission *)
Section Emission.
Context {Fn : Type} (signature : Fn -> list IrType * option IrType).
Notation FB := (FunctionBuilder Fn).
Implicit Types b : FB.

Definition index b : nat :=
  match position b ≫= fun blk => blocks (func b) !! blk with
  | Some bd => length (insts bd)
  | None => 0%nat
  end.
(** The configuration of a run that has come to where the builder stands. *)
Definition here {H} b (env : Env) (h : H) : Config H := mkConfig (default 0%nat (position b)) (index b) env h.

Lemma on_block_inv blk g b t b' : on_block blk g b = Some (t, b') ->
  exists bd bd', blocks (func b) !! blk = Some bd /\ g bd = Some bd' /\ position b' = position b /\
    func b' = with_blocks (<[blk := bd']> (blocks (func b))) (func b).
Proof.
  unfold on_block. destruct (_ !! blk) as [bd|] eqn:Hb; [|discriminate]. cbn.
  destruct (g bd) as [bd'|] eqn:Hg; [|discriminate]. intros [= <- <-]. eauto 10.
Qed.

(** What emitting an instruction does. *)
Record emitted (i : Inst) b b' : Prop := {
  em_position : position b' = position b;
  em_values : value_types (func b') = value_types (func b);
  em_fns : ext_funcs (func b') = ext_funcs (func b);
  em_slots : stack_slots (func b') = stack_slots (func b);
  em_extends : extends (func b) (func b');
  em_inst : inst_at (func b') (default 0%nat (position b)) (index b) = Some i;
  em_index : index b' = S (index b);
  em_size : code_size (func b') = S (code_size (func b)) }.

Lemma push_inst_emitted i b t b' : push_inst i b = Some (t, b') -> emitted i b b'.
Proof.
  unfold push_inst. intros H. apply bind_inv in H as (p & b1 & [= <- <-] & H).
  apply bind_inv in H as (blk & b1 & Hl & H).
  destruct (position b) as [blk'|] eqn:Hpos; [|discriminate]. injection Hl as <- <-. rename blk' into blk.
  apply on_block_inv in H as (bd & bd' & Hb & Hg & Hp & Hf).
  destruct (is_filled bd); [discriminate|]. injection Hg as <-.
  assert (Hidx : index b = length (insts bd)) by (unfold index; rewrite Hpos; cbn; rewrite Hb; reflexivity).
  assert (Hlt := lookup_lt_Some _ _ _ Hb).
  split; try (rewrite Hf; reflexivity).
  - congruence.
  - rewrite Hf. eapply with_blocks_insert_extends; [exact Hb | reflexivity |]. cbn. apply prefix_app_r. reflexivity.
  - rewrite Hf, Hidx, Hpos. unfold inst_at. cbn. rewrite list_lookup_insert_eq by assumption. cbn.
    apply list_lookup_middle. reflexivity.
  - rewrite Hidx. unfold index. rewrite Hp, Hpos. cbn. rewrite Hf. cbn.
    rewrite list_lookup_insert_eq by assumption. cbn. rewrite length_app. cbn. lia.
  - rewrite Hf. pose proof (code_size_insert (func b) blk bd (mkBlockData (params bd) (insts bd ++ [i]) (sealed bd)) Hb).
    cbn in *. rewrite length_app in *. cbn in *. lia.
Qed.

(** The contents of the current block after an instruction. *)
Lemma push_inst_here i b t b' blk bd : push_inst i b = Some (t, b') -> position b = Some blk ->
  blocks (func b) !! blk = Some bd ->
  blocks (func b') !! blk = Some (mkBlockData (params bd) (insts bd ++ [i]) (sealed bd)).
Proof.
  intros H Hpos Hb. unfold push_inst in H. apply bind_inv in H as (p & b1 & [= <- <-] & H).
  apply bind_inv in H as (blk' & b1 & Hl & H). rewrite Hpos in Hl. injection Hl as <- <-.
  apply on_block_inv in H as (bd1 & bd' & Hb1 & Hg & _ & Hf).
  replace bd1 with bd in Hg by congruence. destruct (is_filled bd); [discriminate|]. injection Hg as <-.
  rewrite Hf. cbn. apply list_lookup_insert_eq. eapply lookup_lt_Some, Hb.
Qed.

(** A new parameter: its block is empty. *)
Lemma append_block_param_inv blk ty b v b' : append_block_param blk ty b = Some (v, b') ->
  exists bd, blocks (func b) !! blk = Some bd /\ insts bd = [] /\
    v = length (value_types (func b)) /\ position b' = position b /\
    value_types (func b') = value_types (func b) ++ [ty] /\
    ext_funcs (func b') = ext_funcs (func b) /\ stack_slots (func b') = stack_slots (func b) /\
    blocks (func b') = <[blk := mkBlockData (params bd ++ [v]) [] (sealed bd)]> (blocks (func b)).
Proof.
  unfold append_block_param. intros H. apply bind_inv in H as (v' & b1 & Hv & H).
  injection Hv as <- <-. apply bind_inv in H as ([] & b2 & Hp & [= <- <-]).
  apply on_block_inv in Hp as (bd & bd' & Hb & Hg & Hpos & Hf). cbn in Hb.
  destruct (insts bd) eqn:Hi; [|discriminate]. injection Hg as <-.
  exists bd. rewrite Hf. cbn. repeat split; auto.
Qed.

Lemma append_block_param_below n blk ty b v b' : append_block_param blk ty b = Some (v, b') ->
  (n <= blk)%nat -> extends_below n (func b) (func b').
Proof.
  intros H Hn. apply append_block_param_inv in H as (bd & Hb & _ & _ & _ & V & F & S & B).
  split; [rewrite V; apply prefix_app_r; reflexivity | rewrite F; reflexivity | rewrite S; reflexivity |].
  intros i x Hi Hx. exists x. rewrite B, list_lookup_insert_ne by lia. auto.
Qed.

Lemma on_block_frame n blk g b t b' : on_block blk g b = Some (t, b') ->
  (position b = Some blk \/ forall bd bd', g bd = Some bd' -> insts bd' = insts bd) -> frame n b b'.
Proof.
  intros H Hg. apply on_block_inv in H as (bd & bd' & Hb & E & Hp & Hf).
  split; [rewrite Hf; cbn; rewrite length_insert; lia | auto |].
  intros i x _ Hi Hx. rewrite Hf. cbn. destruct (decide (i = blk)) as [->|Hne].
  - exists bd'. rewrite list_lookup_insert_eq by (eapply lookup_lt_Some, Hb). split; [reflexivity|].
    replace x with bd by congruence. destruct Hg as [?|Hg]; [congruence | apply Hg, E].
  - exists x. rewrite list_lookup_insert_ne by auto. auto.
Qed.

Lemma push_inst_grows i : grows (@fb_extends Fn) (push_inst i).
Proof.
  intros b t b' H. split; [apply (em_extends i), (push_inst_emitted _ _ t), H|].
  unfold push_inst in H. apply bind_inv in H as (p & b1 & [= <- <-] & H).
  apply bind_inv in H as (blk & b1 & Hl & H). destruct (position b) as [blk'|] eqn:Hpos; [|discriminate].
  injection Hl as <- <-. eapply on_block_frame; [exact H | auto].
Qed.

Lemma new_value_grows ty : grows (@fb_extends Fn) (new_value ty).
Proof.
  intros b v b' [= <- <-]. split; [|apply frame_still; cbn; eauto].
  split; cbn; try reflexivity; [apply prefix_app_r; reflexivity | eauto].
Qed.

Lemma value_type_grows v : grows (@fb_extends Fn) (value_type v).
Proof. unfold value_type. grows. Qed.

Lemma create_block_extends b blk b' : create_block b = Some (blk, b') -> extends (func b) (func b').
Proof.
  intros [= <- <-]. split; cbn; try reflexivity.
  intros i bd Hi. exists bd. split; [apply lookup_app_l_Some, Hi|]. auto.
Qed.
Lemma create_block_grows : grows (@fb_extends Fn) create_block.
Proof.
  intros b blk b' H. split; [eapply create_block_extends, H|]. injection H as <- <-.
  apply frame_still; [reflexivity | cbn; rewrite length_app; lia |]. cbn. intros i bd _ Hi. exists bd. split; [apply lookup_app_l_Some, Hi | reflexivity].
Qed.

Lemma switch_to_block_inv blk b t b' : switch_to_block blk b = Some (t, b') ->
  func b' = func b /\ position b' = Some blk /\
  exists bd, blocks (func b) !! blk = Some bd /\ is_filled bd = false.
Proof.
  unfold switch_to_block. destruct (blocks (func b) !! blk) as [bd|]; [|discriminate].
  destruct (may_leave b); [|discriminate]. destruct (is_filled bd) eqn:Hf; [discriminate|].
  intros [= <- <-]. eauto 6.
Qed.
Lemma switch_to_block_frame n blk b t b' : switch_to_block blk b = Some (t, b') -> (n <= blk)%nat -> frame n b b'.
Proof.
  intros H Hn. apply switch_to_block_inv in H as (Hf & Hp & bd & Hb & _). apply lookup_lt_Some in Hb.
  split; [rewrite Hf; lia | | rewrite Hf; eauto]. right. exists blk. rewrite Hf. split; [assumption | lia].
Qed.
Lemma append_block_param_frame n blk ty b v b' : append_block_param blk ty b = Some (v, b') -> frame n b b'.
Proof.
  intros H. apply append_block_param_inv in H as (bd & Hb & Hi & _ & Hp & _ & _ & _ & Hk).
  split; [rewrite Hk, length_insert; lia | auto |].
  intros i x _ _ Hx. rewrite Hk. destruct (decide (i = blk)) as [->|Hne].
  - eexists. rewrite list_lookup_insert_eq by (eapply lookup_lt_Some, Hb). split; [reflexivity|].
    replace x with bd by congruence. symmetry. exact Hi.
  - exists x. rewrite list_lookup_insert_ne by auto. auto.
Qed.

Lemma seal_block_grows blk : grows (@fb_extends Fn) (seal_block blk).
Proof.
  intros b t b' H. split; [|eapply on_block_frame; [exact H | right; intros ? ? [= <-]; reflexivity]].
  apply on_block_inv in H as (bd & bd' & Hb & [= <-] & _ & ->).
  eapply with_blocks_insert_extends; [exact Hb | reflexivity..].
Qed.

Lemma seal_all_blocks_grows : grows (@fb_extends Fn) seal_all_blocks.
Proof.
  intros b t b' [= <- <-]. split.
  - split; cbn; try reflexivity. intros i bd Hi. exists (seal bd). rewrite list_lookup_fmap, Hi. auto.
  - apply frame_still; [reflexivity | cbn; rewrite length_fmap; lia |]. cbn. intros i bd _ Hi. exists (seal bd). rewrite list_lookup_fmap, Hi. auto.
Qed.

Lemma finalize_grows : grows (@fb_extends Fn) finalize.
Proof. intros b t b'. unfold finalize. destruct (forallb _ _); [intros [= <- <-]; reflexivity | discriminate]. Qed.

Lemma create_sized_stack_slot_grows d : grows (@fb_extends Fn) (create_sized_stack_slot d).
Proof.
  intros b v b' [= <- <-]. split; [|apply frame_still; cbn; eauto].
  split; cbn; try reflexivity; [apply prefix_app_r; reflexivity | eauto].
Qed.

Lemma declare_func_in_func_grows fn : grows (@fb_extends Fn) (declare_func_in_func fn).
Proof.
  intros b v b' [= <- <-]. split; [|apply frame_still; cbn; eauto].
  split; cbn; try reflexivity; [apply prefix_app_r; reflexivity | eauto].
Qed.

Lemma block_params_grows blk : grows (@fb_extends Fn) (block_params blk).
Proof. unfold block_params. grows. Qed.
End Emission.

#[export] Hint Resolve push_inst_grows new_value_grows value_type_grows create_block_grows
  seal_block_grows seal_all_blocks_grows finalize_grows create_sized_stack_slot_grows
  declare_func_in_func_grows block_params_grows : grows.

Section EmissionGrows.
Context {Fn : Type} (signature : Fn -> list IrType * option IrType).
Notation grows := (grows (@fb_extends Fn)).

Lemma ins_value_grows ty mk : grows (ins_value ty mk).
Proof. unfold ins_value. grows. Qed.
#[local] Hint Resolve ins_value_grows : grows.
Lemma iconst_grows ty imm : grows (iconst ty imm). Proof. apply ins_value_grows. Qed.
Lemma binary_grows op x y : grows (binary op x y). Proof. unfold binary. grows. Qed.
Lemma iadd_imm_grows x imm : grows (iadd_imm x imm). Proof. unfold iadd_imm. grows. Qed.
Lemma ineg_grows x : grows (ineg x). Proof. unfold ineg. grows. Qed.
Lemma icmp_grows cc x y : grows (icmp cc x y). Proof. apply ins_value_grows. Qed.
Lemma ireduce_grows ty x : grows (ireduce ty x). Proof. apply ins_value_grows. Qed.
Lemma uextend_grows ty x : grows (uextend ty x). Proof. apply ins_value_grows. Qed.
Lemma sextend_grows ty x : grows (sextend ty x). Proof. apply ins_value_grows. Qed.
Lemma isplit_grows x : grows (isplit x). Proof. unfold isplit. grows. Qed.
Lemma stack_addr_grows ty s : grows (stack_addr ty s). Proof. apply ins_value_grows. Qed.
Lemma stack_store_grows v s : grows (stack_store v s). Proof. apply push_inst_grows. Qed.
Lemma stack_load_grows ty s : grows (stack_load ty s). Proof. apply ins_value_grows. Qed.
Lemma load_grows ty p o : grows (load ty p o). Proof. apply ins_value_grows. Qed.
Lemma store_grows v p o : grows (store v p o). Proof. apply push_inst_grows. Qed.
Lemma call_grows r vs : grows (call signature r vs). Proof. unfold call. grows. Qed.
Lemma brif_grows c x y : grows (brif c x y). Proof. apply push_inst_grows. Qed.
Lemma jump_grows x vs : grows (jump x vs). Proof. apply push_inst_grows. Qed.
Lemma return_grows vs : grows (return_ vs). Proof. apply push_inst_grows. Qed.
End EmissionGrows.

#[export] Hint Resolve ins_value_grows iconst_grows binary_grows iadd_imm_grows ineg_grows icmp_grows
  ireduce_grows uextend_grows sextend_grows isplit_grows stack_addr_grows stack_store_grows
  stack_load_grows load_grows store_grows call_grows brif_grows jump_grows return_grows : grows.

(** ** Runs, with their number of instructions *)
Section Runs.
Context {Fn H : Type} `{Host Fn H}.
Implicit Types (f : Function Fn) (c : Config H).

Inductive nsteps f : nat -> Config H -> Progress H -> Prop :=
| nsteps_refl c : nsteps f 0 c (Running c)
| nsteps_step n c c' p : step f c = Some (Running c') -> nsteps f n c' p -> nsteps f (S n) c p
| nsteps_return c vals h : step f c = Some (Returned vals h) -> nsteps f 1 c (Returned vals h).

Lemma nsteps_trans f n m c c' p : nsteps f n c (Running c') -> nsteps f m c' p -> nsteps f (n + m) c p.
Proof.
  intros H1 H2. remember (Running c') as q eqn:Hq. induction H1; [injection Hq as ->; exact H2 | | discriminate].
  subst. cbn. eapply nsteps_step; [eassumption|]. auto.
Qed.

Lemma nsteps_one f c c' : step f c = Some (Running c') -> nsteps f 1 c (Running c').
Proof. intros E. eapply nsteps_step; [exact E | apply nsteps_refl]. Qed.

Lemma run_nsteps f n c vals h fuel : nsteps f n c (Returned vals h) -> (n <= fuel)%nat ->
  run fuel f c = Some (vals, h).
Proof.
  intros R. remember (Returned vals h) as p eqn:Hp. revert fuel.
  induction R as [c|n c c' p' E R IH|c vals' h' E]; intros fuel Hf; [discriminate | |].
  - destruct fuel; [lia|]. cbn. rewrite E. apply IH; [assumption | lia].
  - destruct fuel; [lia|]. cbn. rewrite E. congruence.
Qed.

(** A run follows an instruction that was emitted. *)
Lemma step_emitted i (b b' : FunctionBuilder Fn) f env h env' h' :
  emitted i b b' -> extends (func b') f -> is_terminator i = false ->
  exec_inst f i env h = Some (env', h') ->
  step f (here b env h) = Some (Running (here b' env' h')).
Proof.
  intros E Ef Ht Hx. unfold step, here. cbn.
  rewrite (extends_inst _ _ _ _ _ Ef (em_inst _ _ _ E)). cbn.
  destruct i; try discriminate; rewrite Hx; cbn; rewrite (em_index _ _ _ E), (em_position _ _ _ E); reflexivity.
Qed.
(** ** Following the builder

    Values of the environment have been created by the builder. *)
Definition fresh (env : Env) (b : FunctionBuilder Fn) : Prop :=
  forall v, is_Some (env !! v) -> (v < length (value_types (func b)))%nat.

Lemma fresh_none env b v : fresh env b -> (length (value_types (func b)) <= v)%nat -> env !! v = None.
Proof. intros Hf Hv. destruct (env !! v) eqn:E; [|reflexivity]. specialize (Hf v ltac:(eauto)). lia. Qed.

Lemma fresh_mono env b b' : fresh env b -> extends (func b) (func b') -> fresh env b'.
Proof. intros Hf He v Hv. specialize (Hf v Hv). pose proof (extends_values_length _ _ He). lia. Qed.

Lemma fresh_insert env b v x : fresh env b -> (v < length (value_types (func b)))%nat -> fresh (<[v := x]> env) b.
Proof.
  intros Hf Hv u Hu. destruct (decide (u = v)) as [->|Hne]; [assumption|].
  rewrite lookup_insert_ne in Hu by auto. auto.
Qed.

(** Running what [b'] has more than [b], within its number of instructions. *)
Record goes f (b : FunctionBuilder Fn) env h (b' : FunctionBuilder Fn) env' h' : Prop := {
  go_steps : exists n, nsteps f n (here b env h) (Running (here b' env' h')) /\
                       (n + code_size (func b) <= code_size (func b'))%nat;
  go_old v : (v < length (value_types (func b)))%nat -> env' !! v = env !! v;
  go_fresh : fresh env' b' }.

Lemma goes_refl f b env h : fresh env b -> goes f b env h b env h.
Proof. intros Hf. split; [exists 0%nat; split; [apply nsteps_refl | lia] | reflexivity | assumption]. Qed.

Lemma goes_trans f b env h b1 env1 h1 b2 env2 h2 :
  extends (func b) (func b1) -> goes f b env h b1 env1 h1 -> goes f b1 env1 h1 b2 env2 h2 ->
  goes f b env h b2 env2 h2.
Proof.
  intros He [(n & N1 & S1) O1 F1] [(m & N2 & S2) O2 F2]. split; [|intros v Hv|assumption].
  - exists (n + m)%nat. split; [eapply nsteps_trans; eassumption | lia].
  - pose proof (extends_values_length _ _ He). rewrite O2 by lia. auto.
Qed.

Lemma goes_env f b env h b' env' h' : fresh env b -> goes f b env h b' env' h' -> env ⊆ env'.
Proof.
  intros Hf G. apply map_subseteq_spec. intros v x Hv. rewrite (go_old _ _ _ _ _ _ _ G); [assumption|].
  apply Hf. eauto.
Qed.

(** Builder calls that emit nothing. *)
Lemma goes_still f (b b' : FunctionBuilder Fn) env h : fresh env b -> extends (func b) (func b') ->
  position b' = position b -> blocks (func b') = blocks (func b) -> goes f b env h b' env h.
Proof.
  intros Hf He Hp Hb. split.
  - exists 0%nat. split; [|apply extends_size in He; lia].
    replace (here b' env h) with (here b env h); [apply nsteps_refl|].
    unfold here, index. rewrite Hp, Hb. reflexivity.
  - reflexivity.
  - eapply fresh_mono; eassumption.
Qed.

(** An instruction without a result. *)
Lemma goes_inst f i b t b' env h h' : push_inst i b = Some (t, b') -> fresh env b ->
  extends (func b') f -> is_terminator i = false -> exec_inst f i env h = Some (env, h') ->
  goes f b env h b' env h'.
Proof.
  intros Hp Hf He Ht Hx. apply push_inst_emitted in Hp as E. split.
  - exists 1%nat. split; [apply nsteps_one; eapply step_emitted; eassumption|].
    rewrite (em_size _ _ _ E). lia.
  - reflexivity.
  - eapply fresh_mono; [eassumption | apply (em_extends _ _ _ E)].
Qed.

(** One with a result: the value is new. *)
Lemma goes_value f ty mk b v b' env h x h' : ins_value ty mk b = Some (v, b') -> fresh env b ->
  extends (func b') f -> is_terminator (mk v) = false ->
  exec_inst f (mk v) env h = Some (<[v := x]> env, h') ->
  goes f b env h b' (<[v := x]> env) h' /\ env ⊆ <[v := x]> env /\ (v < length (value_types (func b')))%nat.
Proof.
  intros Hi Hf He Ht Hx. unfold ins_value in Hi. apply bind_inv in Hi as (v' & b1 & Hv & Hi).
  apply bind_inv in Hi as ([] & b2 & Hp & Hr). injection Hr as <- <-.
  pose proof (new_value_grows _ _ _ _ Hv) as [E1 _]. injection Hv as <- Hb1.
  apply push_inst_emitted in Hp as E.
  assert (Hidx : forall e, here b1 e h = here b e h) by (intros; rewrite <- Hb1; reflexivity).
  assert (Hlen : (length (value_types (func b)) < length (value_types (func b2)))%nat).
  { rewrite (em_values _ _ _ E), <- Hb1. cbn. rewrite length_app. cbn. lia. }
  repeat split.
  - exists 1%nat. rewrite <- Hidx. split; [apply nsteps_one; eapply step_emitted; eassumption|].
    rewrite (em_size _ _ _ E). apply extends_size in E1. lia.
  - intros v Hv. apply lookup_insert_ne. lia.
  - apply fresh_insert; [|lia]. eapply fresh_mono; [exact Hf|].
    etransitivity; [exact E1 | apply (em_extends _ _ _ E)].
  - apply insert_subseteq. eapply fresh_none; [exact Hf | lia].
  - assumption.
Qed.

End Runs.
