(* ===== verification/StateAccess.v ===== *)
(** * Access of compiled code to the machine

    Models [src/riscv/lib/src/jit/state_access.rs] with its [abi.rs] and [stack.rs]: the
    functions of the host that compiled code calls, their signatures, the slots of its
    stack, and the code that is emitted for each access.

    The functions run on the core, through out-parameters in stack slots ([jit_host]).
    [JitStateAccess] is the trait of that name, with its two implementations: of the
    proof-generating managers, which have the provided methods, and of [Owned], where an
    integer register is a word of memory at a known offset of the core. *)

From stdpp Require Import gmap.
From S2P Require Import Prelude.
From S2P Require Import Registers.
From S2P Require Import Instr.
From S2P Require Import Icb.
From S2P Require Import Memory.
From S2P Require Import Core.
From S2P Require Import Step.
From S2P Require Import Cranelift.

(** ** The imported functions: [register_jsa_functions!] *)
Module Jsa.
Inductive JsaFn : Type :=
| pc_write
| xreg_read
| xreg_write
| freg_read
| freg_write
| handle_exception
| raise_illegal_instruction_exception
| raise_store_amo_access_fault_exception
| ecall_from_mode
| memory_store (width : LoadStoreWidth)
| memory_load (width : LoadStoreWidth) (signed : bool)
| reservation_set_write
| reservation_set_read.
End Jsa.
Notation JsaFn := Jsa.JsaFn.

#[export] Instance LoadStoreWidth_eq_dec : EqDecision LoadStoreWidth.
Proof. solve_decision. Defined.
#[export] Instance JsaFn_eq_dec : EqDecision JsaFn.
Proof. solve_decision. Defined.

(** ** [abi.rs] *)
Inductive CraneliftRepr : Type := ReprPtr | ReprValue (ty : IrType).

(** By the size of a Rust type; other sizes do not compile. *)
Definition get_repr (size : Z) : option CraneliftRepr :=
  match size with
  | 1 => Some (ReprValue I8)
  | 2 => Some (ReprValue I16)
  | 4 => Some (ReprValue I32)
  | 8 => Some (ReprValue I64)
  | _ => None
  end.

(** The Rust types of the arguments and results. *)
Inductive RustType : Type := RefType | IntType (V : StoreLoadInt) | BoolType | XRegType | FRegType | FValueType.

Definition size_of (T : RustType) : Z :=
  match T with
  | RefType | FValueType => 8
  | IntType V => width_of (WIDTH V)
  | BoolType | XRegType | FRegType => 1
  end.
Definition CRANELIFT_TYPE (T : RustType) : option CraneliftRepr :=
  match T with RefType => Some ReprPtr | _ => get_repr (size_of T) end.

Record AbiCall : Type := mkAbiCall { abi_params : list RustType; abi_ret : option RustType }.

(** [AbiCall::args], of the [extern] functions below. *)
Definition abi_of (fn : JsaFn) : AbiCall :=
  match fn with
  | Jsa.pc_write => mkAbiCall [RefType; IntType u64] None
  | Jsa.xreg_read => mkAbiCall [RefType; XRegType] (Some (IntType u64))
  | Jsa.xreg_write => mkAbiCall [RefType; XRegType; IntType u64] None
  | Jsa.freg_read => mkAbiCall [RefType; FRegType] (Some FValueType)
  | Jsa.freg_write => mkAbiCall [RefType; FRegType; FValueType] None
  | Jsa.handle_exception => mkAbiCall [RefType; RefType; RefType; RefType] (Some BoolType)
  | Jsa.raise_illegal_instruction_exception => mkAbiCall [RefType] None
  | Jsa.raise_store_amo_access_fault_exception => mkAbiCall [RefType; IntType u64] None
  | Jsa.ecall_from_mode => mkAbiCall [RefType; RefType] None
  | Jsa.memory_store width =>
      mkAbiCall [RefType; IntType u64; IntType (mkStoreLoadInt width false); RefType] (Some BoolType)
  | Jsa.memory_load _ _ => mkAbiCall [RefType; IntType u64; RefType; RefType] (Some BoolType)
  | Jsa.reservation_set_write => mkAbiCall [RefType; IntType u64] None
  | Jsa.reservation_set_read => mkAbiCall [RefType] (Some (IntType u64))
  end.

(** [ptr_type], of the 64-bit targets. *)
Definition ptr_type : IrType := I64.

(** [AbiCall::declare_function]. *)
Definition ir_type (T : RustType) : IrType :=
  match CRANELIFT_TYPE T with Some (ReprValue ty) => ty | Some ReprPtr | None => ptr_type end.
Definition jsa_signature (fn : JsaFn) : list IrType * option IrType :=
  (ir_type <$> abi_params (abi_of fn), ir_type <$> abi_ret (abi_of fn)).

(** ** [stack.rs]

    The types that live in stack slots; [SlotAddress] is the [Address] of that file.  The
    size of an [Exception] is that of its payload and its tag. *)
Inductive SlotType : Type := SlotException | SlotInt (V : StoreLoadInt) | SlotAddress.

Definition SIZE (T : SlotType) : Z :=
  match T with SlotException => 16 | SlotInt V => width_of (WIDTH V) | SlotAddress => 8 end.
Definition ALIGN (T : SlotType) : Z :=
  match T with SlotException => 8 | SlotInt V => width_of (WIDTH V) | SlotAddress => 8 end.
Definition ALIGN_SHIFT (T : SlotType) : Z := Z.log2 (ALIGN T).
Definition STACK_SLOT_DATA (T : SlotType) : StackSlotData := mkStackSlotData (SIZE T) (ALIGN_SHIFT T).

(** [Stackable::IR_TYPE] of an integer type and of an address. *)
Definition IR_TYPE (V : StoreLoadInt) : IrType :=
  match WIDTH V with Byte => I8 | Half => I16 | Word => I32 | Double => I64 end.
Definition address_ir_type : IrType := I64.

Definition FB : Type := FunctionBuilder JsaFn.

(** [Slot::new], [ptr], [store] and [load]; the last two are of addresses here. *)
Definition slot_new (T : SlotType) : M FB StackSlot := create_sized_stack_slot (STACK_SLOT_DATA T).
Definition slot_ptr (slot : StackSlot) : M FB Value := stack_addr ptr_type slot.
Definition slot_store (slot : StackSlot) (value : Value) : M FB unit := stack_store value slot.
Definition slot_load (slot : StackSlot) : M FB Value := stack_load address_ir_type slot.

(** ** The functions of the host *)
Section Externs.
Context {Mem : Type} `{Memory Mem}.
Notation Core := (MachineCoreState Mem).

Definition extern_pc_write (pc : Z) : M Core unit := on_hart (mput (with_pc pc)).
Definition extern_xregister_read (reg : NonZeroXRegister) : M Core Z := on_hart (hart_read_nz reg).
Definition extern_xregister_write (reg : NonZeroXRegister) (val : Z) : M Core unit :=
  on_hart (hart_write_nz reg val).
Definition extern_fregister_read (reg : FRegister) : M Core Z :=
  on_hart (fs <- mget fregisters ;; mlift (fregisters_read fs reg)).
Definition extern_fregister_write (reg : FRegister) (val : Z) : M Core unit :=
  on_hart (fs <- mget fregisters ;;
           fs <- mlift (fregisters_write fs reg val) ;;
           mput (with_fregisters fs)).

(** Whether the exception was handled, and the new values of [current_pc] and [result]. *)
Definition extern_handle_exception (current_pc : Z) (exception : Exception)
    (result : result unit EnvironException) : M Core (bool * Z * Prelude.result unit EnvironException) :=
  res <- address_on_exception exception current_pc ;;
  match res with
  | Err e => mret (false, current_pc, Err e)
  | Ok address => mret (true, address, result)
  end.

(** What these write to [exception_out]. *)
Definition extern_raise_illegal_instruction_exception : Exception := IllegalInstruction.
Definition extern_raise_store_amo_access_fault_exception (address : Z) : Exception :=
  StoreAMOAccessFault address.
Definition extern_ecall : M Core Exception := mret EnvCall.

(** The returned flag, and what is written to the out-parameters. *)
Definition extern_memory_store (E : StoreLoadInt) (address value : Z) : M Core (bool * option Exception) :=
  r <- on_memory (mem_write E address value) ;;
  match r with
  | Ok _ => mret (false, None)
  | Err BadMemoryAccess_ => mret (true, Some (StoreAMOAccessFault address))
  end.
Definition extern_memory_load (E : StoreLoadInt) (address : Z)
  : M Core (bool * option Z * option Exception) :=
  r <- on_memory (mem_read E address) ;;
  match r with
  | Ok value => mret (false, Some value, None)
  | Err BadMemoryAccess_ => mret (true, None, Some (LoadAccessFault address))
  end.

Definition extern_reservation_set_write (address : Z) : M Core unit := reservation_set_write address.
Definition extern_reservation_set_read : M Core Z := reservation_set_read.

End Externs.

(** ** What compiled code runs on

    The arguments of a [JitFn]: the second points to the core, the third is the program
    counter, the fourth points to the result. *)
Definition PCore : Ptr := PArg 1.
Definition PResult : Ptr := PArg 3.

Inductive Cell : Type := CellInt (ty : IrType) (z : Z) | CellException (e : Exception).

(** A slot without a cell is not initialised. *)
Record JitState (Mem : Type) : Type := mkJitState {
  js_core : MachineCoreState Mem;
  js_result : result unit EnvironException;
  js_slots : gmap StackSlot Cell }.
Arguments mkJitState {Mem}.
Arguments js_core {Mem}.
Arguments js_result {Mem}.
Arguments js_slots {Mem}.

Section JitHost.
Context {Mem : Type} `{Memory Mem}.
Notation St := (JitState Mem).

(** [offset_of!(MachineCoreState, hart.xregisters)], and within it the array: the layout
    that the Rust compiler chose. *)
Context (xregisters_offset : Z).

(** [XRegisters::<Owned>::xregister_offset], with [region_elem_offset]. *)
Definition xregister_offset (reg : NonZeroXRegister) : Z := nz_repr reg * 8.

Definition on_js_core {A} (m : M (MachineCoreState Mem) A) : M St A := fun s =>
  match m (js_core s) with
  | Some (a, core) => Some (a, mkJitState core (js_result s) (js_slots s))
  | None => None
  end.
Definition set_slot (slot : StackSlot) (c : Cell) (s : St) : St :=
  mkJitState (js_core s) (js_result s) (<[slot := c]> (js_slots s)).
Definition set_slot_opt (slot : StackSlot) (c : option Cell) (s : St) : St :=
  match c with Some c => set_slot slot c s | None => s end.
Definition set_result (r : result unit EnvironException) (s : St) : St :=
  mkJitState (js_core s) r (js_slots s).

Definition val_bool (b : bool) : Val := VInt I8 (if b then 1 else 0).

(** An integer or a pointer as a Rust function gets it. *)
Definition nz_of_val (v : Val) : option NonZeroXRegister :=
  match v with VInt I8 z => nz_of_repr z | _ => None end.
Definition freg_of_val (v : Val) : option FRegister :=
  match v with VInt I8 z => freg_of_repr z | _ => None end.

Definition jit_call (fn : JsaFn) (args : list Val) : M St (option Val) :=
  match fn, args with
  | Jsa.pc_write, [VPtr (PArg 1); VInt I64 pc] => on_js_core (extern_pc_write pc) ;;; mret None
  | Jsa.xreg_read, [VPtr (PArg 1); r] =>
      reg <- mlift (nz_of_val r) ;;
      v <- on_js_core (extern_xregister_read reg) ;;
      mret (Some (VInt I64 v))
  | Jsa.xreg_write, [VPtr (PArg 1); r; VInt I64 v] =>
      reg <- mlift (nz_of_val r) ;;
      on_js_core (extern_xregister_write reg v) ;;;
      mret None
  | Jsa.freg_read, [VPtr (PArg 1); r] =>
      reg <- mlift (freg_of_val r) ;;
      v <- on_js_core (extern_fregister_read reg) ;;
      mret (Some (VInt I64 v))
  | Jsa.freg_write, [VPtr (PArg 1); r; VInt I64 v] =>
      reg <- mlift (freg_of_val r) ;;
      on_js_core (extern_fregister_write reg v) ;;;
      mret None
  | Jsa.handle_exception, [VPtr (PArg 1); VPtr (PSlot pc_slot); VPtr (PSlot exc_slot); VPtr (PArg 3)] =>
      slots <- mget js_slots ;;
      result <- mget js_result ;;
      match slots !! pc_slot, slots !! exc_slot with
      | Some (CellInt I64 current_pc), Some (CellException exception) =>
          out <- on_js_core (extern_handle_exception current_pc exception result) ;;
          let '(handled, new_pc, result) := out in
          mput (set_slot pc_slot (CellInt I64 new_pc)) ;;;
          mput (set_result result) ;;;
          mret (Some (val_bool handled))
      | _, _ => mpanic
      end
  | Jsa.raise_illegal_instruction_exception, [VPtr (PSlot exc_slot)] =>
      mput (set_slot exc_slot (CellException extern_raise_illegal_instruction_exception)) ;;; mret None
  | Jsa.raise_store_amo_access_fault_exception, [VPtr (PSlot exc_slot); VInt I64 address] =>
      mput (set_slot exc_slot (CellException (extern_raise_store_amo_access_fault_exception address))) ;;;
      mret None
  | Jsa.ecall_from_mode, [VPtr (PArg 1); VPtr (PSlot exc_slot)] =>
      e <- on_js_core extern_ecall ;;
      mput (set_slot exc_slot (CellException e)) ;;;
      mret None
  | Jsa.memory_store width, [VPtr (PArg 1); VInt I64 address; VInt ty value; VPtr (PSlot exc_slot)] =>
      let E := mkStoreLoadInt width false in
      if decide (ty = IR_TYPE E) then
        out <- on_js_core (extern_memory_store E address value) ;;
        let '(errno, exc) := out in
        mput (set_slot_opt exc_slot (CellException <$> exc)) ;;;
        mret (Some (val_bool errno))
      else mpanic
  | Jsa.memory_load width signed,
      [VPtr (PArg 1); VInt I64 address; VPtr (PSlot xval_slot); VPtr (PSlot exc_slot)] =>
      let E := mkStoreLoadInt width signed in
      out <- on_js_core (extern_memory_load E address) ;;
      let '(errno, value, exc) := out in
      let cell v := CellInt (IR_TYPE E) (wrap (bits_of E) v) in
      mput (set_slot_opt xval_slot (cell <$> value)) ;;;
      mput (set_slot_opt exc_slot (CellException <$> exc)) ;;;
      mret (Some (val_bool errno))
  | Jsa.reservation_set_write, [VPtr (PArg 1); VInt I64 address] =>
      on_js_core (extern_reservation_set_write address) ;;; mret None
  | Jsa.reservation_set_read, [VPtr (PArg 1)] =>
      v <- on_js_core extern_reservation_set_read ;; mret (Some (VInt I64 v))
  | _, _ => mpanic
  end.

(** The words of the core that compiled code reaches directly: the integer registers. *)
Definition register_at (offset : Z) : option Z :=
  let o := offset - xregisters_offset in
  if (0 <=? o) && (o <? 31 * 8) && (o mod 8 =? 0) then Some (o / 8) else None.

Definition jit_load (ty : IrType) (p : Ptr) (offset : Z) (s : St) : option Val :=
  match p, ty with
  | PArg 1, I64 =>
      i ← register_at offset; v ← cells_read (xregisters (hart (js_core s))) i; Some (VInt I64 v)
  | PSlot slot, _ =>
      match js_slots s !! slot with
      | Some (CellInt ty' z) => if decide (ty = ty' /\ offset = 0) then Some (VInt ty z) else None
      | _ => None
      end
  | _, _ => None
  end.
Definition jit_store (v : Val) (p : Ptr) (offset : Z) (s : St) : option St :=
  match p, v with
  | PArg 1, VInt I64 z =>
      i ← register_at offset;
      xs ← cells_write (xregisters (hart (js_core s))) i z;
      let core := js_core s in
      Some (mkJitState (with_hart (with_xregisters xs (hart core)) core) (js_result s) (js_slots s))
  | PSlot slot, VInt ty z =>
      if decide (offset = 0) then Some (set_slot slot (CellInt ty z) s) else None
  | _, _ => None
  end.

#[export] Instance jit_host : Host JsaFn St := {|
  host_call := jit_call;
  host_load := jit_load;
  host_store := jit_store |}.

End JitHost.

(** ** Emitting accesses

    [JsaCalls] remembers the functions already declared in the function under
    construction. *)
Definition JsaCalls : Type := JsaFn -> option FuncRef.
Definition func_calls : JsaCalls := fun _ => None.

(** [&mut self.jsa_call] and [&mut self.builder]. *)
Record Emitter : Type := mkEmitter { jsa_call : JsaCalls; builder : FB }.

Definition ins {A} (m : M FB A) : M Emitter A := fun s =>
  match m (builder s) with Some (a, b) => Some (a, mkEmitter (jsa_call s) b) | None => None end.

(** [get_or_insert_with(declare_func_in_func)]. *)
Definition func_ref (fn : JsaFn) : M Emitter FuncRef :=
  calls <- mget jsa_call ;;
  match calls fn with
  | Some r => mret r
  | None =>
      r <- ins (declare_func_in_func fn) ;;
      mput (fun s => mkEmitter (fun fn' => if decide (fn' = fn) then Some r else jsa_call s fn') (builder s)) ;;;
      mret r
  end.

(** A call of a host's function, and of one with a result ([inst_results(call)[0]]). *)
Definition jsa_invoke (fn : JsaFn) (args : list Value) : M Emitter (list Value) :=
  f <- func_ref fn ;; ins (call jsa_signature f args).
Definition first_result (m : M Emitter (list Value)) : M Emitter Value :=
  vs <- m ;; mlift (vs !! 0%nat).

(** A value of 64 bits, of 32 bits, and a floating-point value. *)
Record X64 : Type := mkX64 { x64_val : Value }.
Record X32 : Type := mkX32 { x32_val : Value }.
Record F64 : Type := mkF64 { f64_val : Value }.

(** *** [JitStateAccess] *)
Class JitStateAccess : Type := {
  ir_xreg_read : Value -> NonZeroXRegister -> M Emitter X64;
  ir_xreg_write : Value -> NonZeroXRegister -> X64 -> M Emitter unit;
  ir_freg_read : Value -> FRegister -> M Emitter F64;
  ir_freg_write : Value -> FRegister -> F64 -> M Emitter unit }.

(** The provided methods. *)
Definition provided_xreg_read (core_ptr : Value) (reg : NonZeroXRegister) : M Emitter X64 :=
  xreg_read <- func_ref Jsa.xreg_read ;;
  reg <- ins (iconst I8 (nz_repr reg)) ;;
  v <- first_result (ins (call jsa_signature xreg_read [core_ptr; reg])) ;;
  mret (mkX64 v).
Definition provided_xreg_write (core_ptr : Value) (reg : NonZeroXRegister) (value : X64)
  : M Emitter unit :=
  xreg_write <- func_ref Jsa.xreg_write ;;
  reg <- ins (iconst I8 (nz_repr reg)) ;;
  ins (call jsa_signature xreg_write [core_ptr; reg; x64_val value]) ;;;
  mret tt.
Definition provided_freg_read (core_ptr : Value) (reg : FRegister) : M Emitter F64 :=
  freg_read <- func_ref Jsa.freg_read ;;
  reg <- ins (iconst I8 (freg_repr reg)) ;;
  v <- first_result (ins (call jsa_signature freg_read [core_ptr; reg])) ;;
  mret (mkF64 v).
Definition provided_freg_write (core_ptr : Value) (reg : FRegister) (value : F64) : M Emitter unit :=
  freg_write <- func_ref Jsa.freg_write ;;
  reg <- ins (iconst I8 (freg_repr reg)) ;;
  ins (call jsa_signature freg_write [core_ptr; reg; f64_val value]) ;;;
  mret tt.

(** [impl JitStateAccess for ProofGen]. *)
Definition proof_gen_access : JitStateAccess := {|
  ir_xreg_read := provided_xreg_read;
  ir_xreg_write := provided_xreg_write;
  ir_freg_read := provided_freg_read;
  ir_freg_write := provided_freg_write |}.

(** [impl JitStateAccess for Owned]. *)
Definition owned_xreg_read (xregisters_offset : Z) (core_ptr : Value) (reg : NonZeroXRegister)
  : M Emitter X64 :=
  let offset := xregisters_offset + xregister_offset reg in
  val <- ins (load I64 core_ptr offset) ;;
  mret (mkX64 val).
Definition owned_xreg_write (xregisters_offset : Z) (core_ptr : Value) (reg : NonZeroXRegister)
    (value : X64) : M Emitter unit :=
  let offset := xregisters_offset + xregister_offset reg in
  ins (store (x64_val value) core_ptr offset).
Definition owned_access (xregisters_offset : Z) : JitStateAccess := {|
  ir_xreg_read := owned_xreg_read xregisters_offset;
  ir_xreg_write := owned_xreg_write xregisters_offset;
  ir_freg_read := provided_freg_read;
  ir_freg_write := provided_freg_write |}.

(** *** [impl JsaCalls] *)
Record ExceptionHandledOutcome : Type := mkOutcome { handled : Value; new_pc : X64 }.

(** [ErrnoImpl]: the code, the pointer to the exception, and what loads the result. *)
Record ErrnoImpl (A : Type) : Type := mkErrno { errno : Value; exception_ptr : Value; on_ok : M FB A }.
Arguments mkErrno {A}.
Arguments errno {A}.
Arguments exception_ptr {A}.
Arguments on_ok {A}.

Definition jsa_pc_write (core_ptr : Value) (pc_val : X64) : M Emitter unit :=
  jsa_invoke Jsa.pc_write [core_ptr; x64_val pc_val] ;;; mret tt.

Definition jsa_handle_exception (core_ptr exception_ptr result_ptr : Value) (current_pc : X64)
  : M Emitter ExceptionHandledOutcome :=
  handle_exception <- func_ref Jsa.handle_exception ;;
  pc_slot <- ins (slot_new SlotAddress) ;;
  ins (slot_store pc_slot (x64_val current_pc)) ;;;
  pc_ptr <- ins (slot_ptr pc_slot) ;;
  handled <- first_result
    (ins (call jsa_signature handle_exception [core_ptr; pc_ptr; exception_ptr; result_ptr])) ;;
  new_pc <- ins (slot_load pc_slot) ;;
  mret (mkOutcome handled (mkX64 new_pc)).

(** A new slot for an exception, with a pointer to it. *)
Definition exception_slot : M Emitter Value :=
  slot <- ins (slot_new SlotException) ;; ins (slot_ptr slot).

Definition jsa_raise_illegal_instruction_exception : M Emitter Value :=
  exception_ptr <- exception_slot ;;
  jsa_invoke Jsa.raise_illegal_instruction_exception [exception_ptr] ;;;
  mret exception_ptr.
Definition jsa_raise_store_amo_access_fault_exception (address : Value) : M Emitter Value :=
  exception_ptr <- exception_slot ;;
  jsa_invoke Jsa.raise_store_amo_access_fault_exception [exception_ptr; address] ;;;
  mret exception_ptr.
Definition jsa_ecall (core_ptr : Value) : M Emitter Value :=
  exception_ptr <- exception_slot ;;
  jsa_invoke Jsa.ecall_from_mode [core_ptr; exception_ptr] ;;;
  mret exception_ptr.

Definition jsa_memory_store (V : StoreLoadInt) (core_ptr : Value) (phys_address value : X64)
  : M Emitter (ErrnoImpl unit) :=
  memory_store <- func_ref (Jsa.memory_store (WIDTH V)) ;;
  exception_ptr <- exception_slot ;;
  value <- (match WIDTH V with
            | Byte | Half | Word => ins (ireduce (IR_TYPE V) (x64_val value))
            | Double => mret (x64_val value)
            end) ;;
  errno <- first_result
    (ins (call jsa_signature memory_store [core_ptr; x64_val phys_address; value; exception_ptr])) ;;
  mret (mkErrno errno exception_ptr (mret tt)).

Definition jsa_memory_load (V : StoreLoadInt) (core_ptr : Value) (phys_address : X64)
  : M Emitter (ErrnoImpl X64) :=
  exception_ptr <- exception_slot ;;
  xval_slot <- ins (slot_new (SlotInt V)) ;;
  xval_ptr <- ins (slot_ptr xval_slot) ;;
  memory_load <- func_ref (Jsa.memory_load (WIDTH V) (SIGNED V)) ;;
  errno <- first_result
    (ins (call jsa_signature memory_load [core_ptr; x64_val phys_address; xval_ptr; exception_ptr])) ;;
  mret (mkErrno errno exception_ptr
    (xval <- load (IR_TYPE V) xval_ptr 0 ;;
     xval <- (if decide (IR_TYPE V = I64) then mret xval
              else if SIGNED V then sextend I64 xval
              else uextend I64 xval) ;;
     mret (mkX64 xval))).

Definition jsa_reservation_set_write (core_ptr : Value) (address : X64) : M Emitter unit :=
  jsa_invoke Jsa.reservation_set_write [core_ptr; x64_val address] ;;; mret tt.
Definition jsa_reservation_set_read (core_ptr : Value) : M Emitter X64 :=
  v <- first_result (jsa_invoke Jsa.reservation_set_read [core_ptr]) ;; mret (mkX64 v).
