(* ===== verification/JitBuilder.v ===== *)
(** * The builder of compiled code

    Models [src/riscv/lib/src/jit/builder.rs] with [block_state.rs], [arithmetic.rs],
    [comparable.rs] and [errno.rs]: the instruction context whose operations emit code.
    A value of the context is a value of the code under construction; a branch, or an
    access that can fail, leaves the function through its end block. *)

From S2P Require Import Prelude.
From S2P Require Import Registers.
From S2P Require Import Instr.
From S2P Require Import Icb.
From S2P Require Import Interpreter.
From S2P Require Import Cranelift.
From S2P Require Import StateAccess.

(** ** [block_state.rs] *)
Inductive PCUpdate : Type := Offset (offset : Z) | Absolute (address : X64).

(** [impl From<ProgramCounterUpdate<X64>> for PCUpdate]. *)
Definition pc_update_from (value : ProgramCounterUpdate X64) : PCUpdate :=
  match value with
  | Next width => Offset (width_bytes width)
  | Set_ address => Absolute address
  end.

Record DynamicValues : Type := mkDynamic { d_steps : Z; pc_val : X64; pc_offset : Z }.

Definition dynamic_new (pc_val : X64) : DynamicValues := mkDynamic 0 pc_val 0.

Definition read_pc (self : DynamicValues) : M FB (X64 * DynamicValues) :=
  if pc_offset self =? 0 then mret (pc_val self, self)
  else
    new_pc <- iadd_imm (x64_val (pc_val self)) (pc_offset self) ;;
    mret (mkX64 new_pc, mkDynamic (d_steps self) (mkX64 new_pc) 0).

(** Whether compilation goes on, and the new values. *)
Definition dynamic_complete_step (self : DynamicValues) (pc_update : PCUpdate) : bool * DynamicValues :=
  let steps := d_steps self + 1 in
  match pc_update with
  | Offset offset => (true, mkDynamic steps (pc_val self) (sext 64 (pc_offset self + offset)))
  | Absolute address => (false, mkDynamic steps address 0)
  end.

(** ** [Builder] *)
Record Builder : Type := mkBuilder {
  emitter : Emitter;
  core_ptr_val : Value;
  dynamic : DynamicValues;
  end_block : option Block;
  result_ptr_val : Value }.

Definition emit {A} (m : M Emitter A) : M Builder A := fun b =>
  match m (emitter b) with
  | Some (a, e) => Some (a, mkBuilder e (core_ptr_val b) (dynamic b) (end_block b) (result_ptr_val b))
  | None => None
  end.
Definition ir {A} (m : M FB A) : M Builder A := emit (ins m).
Definition set_dynamic (d : DynamicValues) (b : Builder) : Builder :=
  mkBuilder (emitter b) (core_ptr_val b) d (end_block b) (result_ptr_val b).
Definition set_end_block (e : option Block) (b : Builder) : Builder :=
  mkBuilder (emitter b) (core_ptr_val b) (dynamic b) e (result_ptr_val b).

(** [Builder::new]: from a function without blocks, whose signature has the parameters
    of a [JitFn]. *)
Definition jitfn_params : list IrType := [ptr_type; ptr_type; I64; ptr_type; ptr_type].
Definition jitfn_returns : list IrType := [I64].

(** [append_block_params_for_function_params]. *)
Fixpoint append_block_params (blk : Block) (tys : list IrType) : M FB unit :=
  match tys with
  | [] => mret tt
  | ty :: tys => append_block_param blk ty ;;; append_block_params blk tys
  end.

Definition new_function : FB := mkFunctionBuilder (mkFunction [] [] [] []) None.

Definition builder_new_from : M FB (Value * X64 * Value) :=
  entry_block <- create_block ;;
  append_block_params entry_block jitfn_params ;;;
  switch_to_block entry_block ;;;
  seal_block entry_block ;;;
  ps <- block_params entry_block ;;
  core_ptr_val <- mlift (ps !! 1%nat) ;;
  pc_val <- mlift (ps !! 2%nat) ;;
  result_ptr_val <- mlift (ps !! 3%nat) ;;
  mret (core_ptr_val, mkX64 pc_val, result_ptr_val).
Definition builder_new : option Builder :=
  match builder_new_from new_function with
  | Some ((core_ptr_val, pc_val, result_ptr_val), fb) =>
      Some (mkBuilder (mkEmitter func_calls fb) core_ptr_val (dynamic_new pc_val) None result_ptr_val)
  | None => None
  end.

Definition finalise_end_block (end_block_ : Block) : M Builder unit :=
  existing <- mget end_block ;;
  match existing with
  | Some _ => mret tt
  | None =>
      ir (switch_to_block end_block_) ;;;
      pc_val <- ir (append_block_param end_block_ I64) ;;
      steps_val <- ir (append_block_param end_block_ I64) ;;
      core_ptr_val <- mget core_ptr_val ;;
      emit (jsa_pc_write core_ptr_val (mkX64 pc_val)) ;;;
      ir (return_ [steps_val]) ;;;
      mput (set_end_block (Some end_block_))
  end.

Definition complete_step (pc_update : PCUpdate) : M Builder bool :=
  d <- mget dynamic ;;
  let '(continue, d) := dynamic_complete_step d pc_update in
  mput (set_dynamic d) ;;;
  mret continue.

(** [pc_read]: the program counter, with the offset of the steps taken so far. *)
Definition builder_pc_read : M Builder X64 :=
  d <- mget dynamic ;;
  r <- ir (read_pc d) ;;
  let '(pc, d) := r in
  mput (set_dynamic d) ;;;
  mret pc.

Definition jump_to_end : M Builder unit :=
  d <- mget dynamic ;;
  steps_val <- ir (iconst I64 (d_steps d)) ;;
  pc_val <- builder_pc_read ;;
  existing <- mget end_block ;;
  end_block <- (match existing with Some e => mret e | None => ir create_block end) ;;
  ir (jump end_block [x64_val pc_val; steps_val]) ;;;
  finalise_end_block end_block.

(** The end of the construction. *)
Definition builder_end : M Builder unit :=
  jump_to_end ;;;
  ir seal_all_blocks ;;;
  ir finalize.
Definition end_unconditional_exception : M Builder unit :=
  ir seal_all_blocks ;;;
  ir finalize.
Definition builder_fail : M Builder unit :=
  ir (return_ []) ;;;
  ir seal_all_blocks ;;;
  ir finalize.

Definition exit_on_branch (cond : Value) (on_branching : M Builder unit) : M Builder unit :=
  on_branch <- ir create_block ;;
  fallthrough <- ir create_block ;;
  ir (brif cond on_branch fallthrough) ;;;
  snapshot <- mget dynamic ;;
  ir (switch_to_block on_branch) ;;;
  on_branching ;;;
  jump_to_end ;;;
  ir (seal_block on_branch) ;;;
  mput (set_dynamic snapshot) ;;;
  ir (switch_to_block fallthrough).

Definition builder_handle_exception (exception_ptr : Value) : M Builder unit :=
  current_pc <- builder_pc_read ;;
  core_ptr <- mget core_ptr_val ;;
  result_ptr <- mget result_ptr_val ;;
  outcome <- emit (jsa_handle_exception core_ptr exception_ptr result_ptr current_pc) ;;
  exit_on_branch (handled outcome) (complete_step (Absolute (new_pc outcome)) ;;; mret tt) ;;;
  jump_to_end.

(** ** [errno.rs] *)
Definition errno_handle {A} (self : ErrnoImpl A) : M Builder A :=
  on_error <- ir create_block ;;
  on_ok_block <- ir create_block ;;
  ir (brif (errno self) on_error on_ok_block) ;;;
  snapshot <- mget dynamic ;;
  ir (switch_to_block on_error) ;;;
  builder_handle_exception (exception_ptr self) ;;;
  ir (seal_block on_error) ;;;
  ir (switch_to_block on_ok_block) ;;;
  mput (set_dynamic snapshot) ;;;
  ir (on_ok self).

(** ** [arithmetic.rs] and [comparable.rs] *)
Definition shift_op (s : Shift) : BinaryOp :=
  match s with Left => Ishl | RightUnsigned => Ushr | RightSigned => Sshr end.

Section Operators.
Context {V : Type} (mk : Value -> V) (val : V -> Value).

Definition builder_binary (op : BinaryOp) (self other : V) : M Builder V :=
  res <- ir (binary op (val self) (val other)) ;; mret (mk res).

(** [impl Arithmetic for X64], and for [X32]. *)
Definition builder_arithmetic : Arithmetic Builder V := {|
  add := builder_binary Iadd;
  sub := builder_binary Isub;
  and := builder_binary Band;
  or := builder_binary Bor;
  xor := builder_binary Bxor;
  mul := builder_binary Imul;
  div_unsigned := builder_binary Udiv;
  div_signed := builder_binary Sdiv;
  negate self := res <- ir (ineg (val self)) ;; mret (mk res);
  shift self s amount := builder_binary (shift_op s) self amount;
  modulus_unsigned := builder_binary Urem;
  modulus_signed := builder_binary Srem;
  min_signed := builder_binary Smin |}.

(** [impl From<Predicate> for IntCC]. *)
Definition intcc_of_predicate (value : Predicate) : IntCC :=
  match value with
  | Equal => IntCC.Equal
  | NotEqual => IntCC.NotEqual
  | LessThanSigned => IntCC.SignedLessThan
  | LessThanUnsigned => IntCC.UnsignedLessThan
  | LessThanOrEqualSigned => IntCC.SignedLessThanOrEqual
  | GreaterThanSigned => IntCC.SignedGreaterThan
  | GreaterThanOrEqualSigned => IntCC.SignedGreaterThanOrEqual
  | GreaterThanOrEqualUnsigned => IntCC.UnsignedGreaterThanOrEqual
  end.
Definition builder_comparable : Comparable Builder Value V := fun self other comparison =>
  ir (icmp (intcc_of_predicate comparison) (val self) (val other)).
End Operators.

(** ** [impl ICB for Builder] *)
Section BuilderIcb.
Context `{JitStateAccess}.

Definition builder_narrow (value : X64) : M Builder X32 :=
  v <- ir (ireduce I32 (x64_val value)) ;; mret (mkX32 v).
Definition builder_extend_signed (value : X32) : M Builder X64 :=
  v <- ir (sextend I64 (x32_val value)) ;; mret (mkX64 v).
Definition builder_extend_unsigned (value : X32) : M Builder X64 :=
  v <- ir (uextend I64 (x32_val value)) ;; mret (mkX64 v).

Definition builder_mul_high (lhs rhs : X64) (mul_high_type : MulHighType) : M Builder X64 :=
  operands <- (match mul_high_type with
               | MulSigned =>
                   lhs <- ir (sextend I128 (x64_val lhs)) ;;
                   rhs <- ir (sextend I128 (x64_val rhs)) ;;
                   mret (lhs, rhs)
               | MulUnsigned =>
                   lhs <- ir (uextend I128 (x64_val lhs)) ;;
                   rhs <- ir (uextend I128 (x64_val rhs)) ;;
                   mret (lhs, rhs)
               | MulSignedUnsigned =>
                   lhs <- ir (sextend I128 (x64_val lhs)) ;;
                   rhs <- ir (uextend I128 (x64_val rhs)) ;;
                   mret (lhs, rhs)
               end) ;;
  let '(lhs, rhs) := operands in
  result <- ir (binary Imul lhs rhs) ;;
  parts <- ir (isplit result) ;;
  let '(_low, high) := parts in
  mret (mkX64 high).

Definition builder_xregister_read_nz (reg : NonZeroXRegister) : M Builder X64 :=
  core_ptr <- mget core_ptr_val ;; emit (ir_xreg_read core_ptr reg).
Definition builder_xregister_write_nz (reg : NonZeroXRegister) (value : X64) : M Builder unit :=
  core_ptr <- mget core_ptr_val ;; emit (ir_xreg_write core_ptr reg value).
Definition builder_fregister_read (reg : FRegister) : M Builder F64 :=
  core_ptr <- mget core_ptr_val ;; emit (ir_freg_read core_ptr reg).
Definition builder_fregister_write (reg : FRegister) (value : F64) : M Builder unit :=
  core_ptr <- mget core_ptr_val ;; emit (ir_freg_write core_ptr reg value).

Definition builder_xvalue_of_imm (imm : Z) : M Builder X64 :=
  v <- ir (iconst I64 imm) ;; mret (mkX64 v).
Definition builder_xvalue32_of_imm (imm : Z) : M Builder X32 :=
  v <- ir (iconst I32 imm) ;; mret (mkX32 v).
Definition builder_xvalue_from_bool (value : Value) : M Builder X64 :=
  v <- ir (uextend I64 value) ;; mret (mkX64 v).

Definition builder_branch (condition : Value) (offset : Z) (instr_width : InstrWidth)
  : M Builder (ProgramCounterUpdate X64) :=
  exit_on_branch condition (complete_step (Offset offset) ;;; mret tt) ;;;
  mret (Next instr_width).

(** [PhiValue] of [instruction_context/value.rs]. *)
Definition phi_ir_types (Phi : PhiValue) : list IrType :=
  match Phi with
  | PhiUnit | PhiResult => []
  | PhiXValue => [I64]
  | PhiXValue32 => [I32]
  end.
Definition BuilderValue (Phi : PhiValue) : Type := IcbValue X64 X32 option Phi.
Definition to_ir_vals (Phi : PhiValue) : BuilderValue Phi -> list Value :=
  match Phi with
  | PhiUnit | PhiResult => fun _ => []
  | PhiXValue => fun v => [x64_val v]
  | PhiXValue32 => fun v => [x32_val v]
  end.
Definition from_ir_vals (Phi : PhiValue) (params : list Value) : option (BuilderValue Phi) :=
  match Phi with
  | PhiUnit => Some tt
  | PhiResult => Some (Some tt)
  | PhiXValue => mkX64 <$> params !! 0%nat
  | PhiXValue32 => mkX32 <$> params !! 0%nat
  end.

Definition builder_branch_merge (Phi : PhiValue) (cond : Value)
    (true_branch false_branch : M Builder (BuilderValue Phi)) : M Builder (BuilderValue Phi) :=
  true_block <- ir create_block ;;
  false_block <- ir create_block ;;
  post_block <- ir create_block ;;
  ir (append_block_params post_block (phi_ir_types Phi)) ;;;
  ir (brif cond true_block false_block) ;;;
  snapshot <- mget dynamic ;;
  ir (switch_to_block true_block) ;;;
  res_val <- true_branch ;;
  ir (jump post_block (to_ir_vals Phi res_val)) ;;;
  ir (seal_block true_block) ;;;
  mput (set_dynamic snapshot) ;;;
  ir (switch_to_block false_block) ;;;
  res_val <- false_branch ;;
  ir (jump post_block (to_ir_vals Phi res_val)) ;;;
  ir (seal_block false_block) ;;;
  ir (switch_to_block post_block) ;;;
  params <- ir (block_params post_block) ;;
  mlift (from_ir_vals Phi params).

Definition builder_reservation_set_write (address : X64) : M Builder unit :=
  core_ptr <- mget core_ptr_val ;; emit (jsa_reservation_set_write core_ptr address).
Definition builder_reservation_set_read : M Builder X64 :=
  core_ptr <- mget core_ptr_val ;; emit (jsa_reservation_set_read core_ptr).

(** [reset_reservation_set] of [interpreter/atomics.rs], at the builder. *)
Definition builder_reset_reservation_set : M Builder unit :=
  unset <- builder_xvalue_of_imm (sext 64 UNSET_VALUE) ;;
  builder_reservation_set_write unset.

(** [impl Errno for AtomicAccessGuard]. *)
Definition atomic_access_guard_handle (errno address : Value) (option_ : ReservationSetOption)
  : M Builder unit :=
  error_branch <- ir create_block ;;
  fallthrough <- ir create_block ;;
  ir (brif errno error_branch fallthrough) ;;;
  snapshot <- mget dynamic ;;
  ir (switch_to_block error_branch) ;;;
  exception_ptr <- emit (jsa_raise_store_amo_access_fault_exception address) ;;
  (match option_ with
   | Reset => builder_reset_reservation_set
   | NoReset => mret tt
   end) ;;;
  builder_handle_exception exception_ptr ;;;
  ir (seal_block error_branch) ;;;
  mput (set_dynamic snapshot) ;;;
  ir (switch_to_block fallthrough).

Definition builder_atomic_access_fault_guard (V : StoreLoadInt) (address : X64)
    (reservation_set_option : ReservationSetOption) : M Builder (option unit) :=
  width <- builder_xvalue_of_imm (width_of (WIDTH V)) ;;
  remainder <- builder_binary mkX64 x64_val Urem address width ;;
  zero <- builder_xvalue_of_imm 0 ;;
  not_aligned <- builder_comparable x64_val remainder zero NotEqual ;;
  atomic_access_guard_handle not_aligned (x64_val address) reservation_set_option ;;;
  mret (Some tt).

Definition builder_err_illegal_instruction {A} : M Builder (option A) :=
  exception_ptr <- emit jsa_raise_illegal_instruction_exception ;;
  builder_handle_exception exception_ptr ;;;
  mret None.

Definition builder_ecall : M Builder (option (ProgramCounterUpdate X64)) :=
  core_ptr <- mget core_ptr_val ;;
  exception_ptr <- emit (jsa_ecall core_ptr) ;;
  builder_handle_exception exception_ptr ;;;
  mret None.

Definition builder_main_memory_store (V : StoreLoadInt) (phys_address value : X64)
  : M Builder (option unit) :=
  core_ptr <- mget core_ptr_val ;;
  errno <- emit (jsa_memory_store V core_ptr phys_address value) ;;
  errno_handle errno ;;;
  mret (Some tt).
Definition builder_main_memory_load (V : StoreLoadInt) (phys_address : X64)
  : M Builder (option X64) :=
  core_ptr <- mget core_ptr_val ;;
  errno <- emit (jsa_memory_load V core_ptr phys_address) ;;
  res <- errno_handle errno ;;
  mret (Some res).

#[export] Instance builder_icb : ICB Builder := {|
  XValue := X64;
  XValue32 := X32;
  Bool := Value;
  IResult := option;
  xvalue_arithmetic := builder_arithmetic mkX64 x64_val;
  xvalue32_arithmetic := builder_arithmetic mkX32 x32_val;
  xvalue_comparable := builder_comparable x64_val;
  xvalue32_comparable := builder_comparable x32_val;
  xregister_read_nz := builder_xregister_read_nz;
  xregister_write_nz := builder_xregister_write_nz;
  xregister_read := xregister_read_default builder_xvalue_of_imm builder_xregister_read_nz;
  xregister_write := xregister_write_default builder_xregister_write_nz;
  xvalue_of_imm := builder_xvalue_of_imm;
  xvalue32_of_imm := builder_xvalue32_of_imm;
  pc_read := builder_pc_read;
  bool_and lhs rhs := ir (binary Band lhs rhs);
  narrow := builder_narrow;
  extend_signed := builder_extend_signed;
  extend_unsigned := builder_extend_unsigned;
  mul_high := builder_mul_high;
  xvalue_from_bool := builder_xvalue_from_bool;
  branch := builder_branch;
  branch_merge := builder_branch_merge;
  ok A val := mret (Some val);
  err_illegal_instruction A := builder_err_illegal_instruction;
  atomic_access_fault_guard := builder_atomic_access_fault_guard;
  ires_map A B res f := option_map f res;
  and_then A B res f := match res with Some value => f value | None => mret None end;
  ecall := builder_ecall;
  main_memory_store := builder_main_memory_store;
  main_memory_load := builder_main_memory_load;
  reservation_set_write := builder_reservation_set_write;
  reservation_set_read := builder_reservation_set_read |}.

End BuilderIcb.
