(* ===== verification/Hash.v ===== *)
(** * Trees and hashes

    Models [src/riscv/lib/src/state_backend/proof_backend/tree.rs]: the trees that
    Merkle proofs and shapes are, and the two traversals over an explicit stack on
    which hashing, compression and (de)serialisation of proofs are built.  The
    recursive functions they compute are stated and proved here.

    Models [src/riscv/lib/src/state_backend/hash.rs]: hashes of bytes and of other
    hashes, the writer that hashes its input in chunks, and the root hash of a
    Merkle tree over a list of hashes.  BLAKE2b is a parameter ([Blake2b]); the
    theorems that need it assume that its digests have 32 bytes. *)

From S2P Require Import Prelude.

(** ** [Tree] *)
Inductive Tree (A : Type) : Type :=
| Node (children : list (Tree A))
| Leaf (data : A).
Arguments Node {A}.
Arguments Leaf {A}.

(** Induction with the hypothesis for every child. *)
Section Induction.
Context {A : Type} (P : Tree A -> Prop)
  (Hnode : forall children, Forall P children -> P (Node children)) (Hleaf : forall a, P (Leaf a)).
Fixpoint Tree_nested_ind (t : Tree A) : P t :=
  match t with
  | Leaf a => Hleaf a
  | Node children =>
      Hnode children ((fix go cs : Forall P cs :=
        match cs with [] => Forall_nil_2 P | c :: cs => Forall_cons_2 P c cs (Tree_nested_ind c) (go cs) end) children)
  end.
End Induction.

(** The number of nodes and leaves. *)
Fixpoint tree_size {A} (t : Tree A) : nat :=
  match t with
  | Leaf _ => 1
  | Node children => S (list_sum (map tree_size children))
  end.

(** ** [subtree_iterator]

    The iterator's state is its stack, the top first; [fuel] counts the items. *)
Fixpoint subtrees_from {A} (fuel : nat) (stack : list (Tree A)) : list (Tree A) :=
  match fuel, stack with
  | S fuel, subtree :: stack =>
      let stack := match subtree with Node children => children ++ stack | Leaf _ => stack end in
      subtree :: subtrees_from fuel stack
  | _, _ => []
  end.
Definition subtree_iterator {A} (t : Tree A) : list (Tree A) := subtrees_from (tree_size t) [t].

(** The subtrees in pre-order. *)
Fixpoint preorder {A} (t : Tree A) : list (Tree A) :=
  t :: match t with Node children => concat (map preorder children) | Leaf _ => [] end.

Lemma subtrees_from_eq {A} (ts : list (Tree A)) fuel :
  (list_sum (map tree_size ts) <= fuel)%nat -> subtrees_from fuel ts = concat (map preorder ts).
Proof.
  revert ts. induction fuel as [|fuel IH]; intros [|t ts] Hf; try reflexivity;
    change (list_sum (map tree_size (t :: ts))) with (tree_size t + list_sum (map tree_size ts))%nat in Hf.
  - destruct t; cbn [tree_size] in Hf; lia.
  - destruct t as [children|a]; cbn [tree_size] in Hf; cbn; rewrite IH.
    + rewrite map_app, concat_app. reflexivity.
    + rewrite map_app, list_sum_app. lia.
    + reflexivity.
    + lia.
Qed.
Lemma subtree_iterator_eq {A} (t : Tree A) : subtree_iterator t = preorder t.
Proof. unfold subtree_iterator. rewrite subtrees_from_eq; cbn; rewrite ?app_nil_r; [reflexivity | lia]. Qed.

(** ** [impl_modify_map_collect] *)
Inductive ModifyResult (D N L : Type) : Type :=
| NodeContinue (node_data : D) (children : list N)
| LeafStop (data : L).
Arguments NodeContinue {D N L}.
Arguments LeafStop {D N L}.

Section Traversal.
(** The closures may change the state they capture, [St]. *)
Context {InterimLeafData FinalLeafData AuxTreeData Err_ InputTree OutputTree St : Type}.
Context (from : FinalLeafData -> OutputTree)
  (modify : InputTree -> St -> result (ModifyResult AuxTreeData InputTree InterimLeafData * St) Err_)
  (fmap : InterimLeafData -> St -> result (FinalLeafData * St) Err_)
  (collect : AuxTreeData -> list OutputTree -> St -> result (OutputTree * St) Err_).

Inductive ProcessEvents : Type :=
| ProcessNode (subtree : InputTree)
| ProcessCollect (node_data : AuxTreeData) (count : nat).

(** The loop; the tops of [process] and [done] come first.  [None] is a panic, or
    the end of the fuel. *)
Fixpoint process_events (fuel : nat) (process : list ProcessEvents) (done : list OutputTree) (st : St)
  : option (result (OutputTree * St) Err_) :=
  match fuel with
  | O => None
  | S fuel =>
      match process with
      | [] => match done with [new_root] => Some (Ok (new_root, st)) | _ => None end
      | ProcessNode subtree :: process =>
          match modify subtree st with
          | Err e => Some (Err e)
          | Ok (LeafStop data, st) =>
              match fmap data st with
              | Err e => Some (Err e)
              | Ok (data, st) => process_events fuel process (from data :: done) st
              end
          | Ok (NodeContinue node_data children, st) =>
              process_events fuel
                (map ProcessNode children ++ ProcessCollect node_data (length children) :: process) done st
          end
      | ProcessCollect node_data count :: process =>
          if (count <=? length done)%nat then
            let children := rev (take count done) in
            match collect node_data children st with
            | Err e => Some (Err e)
            | Ok (tree, st) => process_events fuel process (tree :: drop count done) st
            end
          else None
      end
  end.
Definition impl_modify_map_collect (fuel : nat) (root : InputTree) (st : St)
  : option (result (OutputTree * St) Err_) := process_events fuel [ProcessNode root] [] st.

(** What the traversal computes, as recursion on the input: a tree, and the trees
    of a list in order, with the number of events that takes. *)
Inductive traverses : InputTree -> St -> result (OutputTree * St) Err_ -> nat -> Prop :=
| traverses_modify_err t st e : modify t st = Err e -> traverses t st (Err e) 1
| traverses_map_err t st st1 l e : modify t st = Ok (LeafStop l, st1) -> fmap l st1 = Err e ->
    traverses t st (Err e) 1
| traverses_leaf t st st1 l b st2 : modify t st = Ok (LeafStop l, st1) -> fmap l st1 = Ok (b, st2) ->
    traverses t st (Ok (from b, st2)) 1
| traverses_children_err t st st1 d children e n : modify t st = Ok (NodeContinue d children, st1) ->
    traverse_all children st1 (Err e) n -> traverses t st (Err e) (S n)
| traverses_node t st st1 d children outs st2 n : modify t st = Ok (NodeContinue d children, st1) ->
    traverse_all children st1 (Ok (outs, st2)) n -> traverses t st (collect d outs st2) (S (S n))
with traverse_all : list InputTree -> St -> result (list OutputTree * St) Err_ -> nat -> Prop :=
| traverse_nil st : traverse_all [] st (Ok ([], st)) 0
| traverse_head_err t ts st e n : traverses t st (Err e) n -> traverse_all (t :: ts) st (Err e) n
| traverse_cons t ts st o st1 r n m : traverses t st (Ok (o, st1)) n -> traverse_all ts st1 r m ->
    traverse_all (t :: ts) st (result_map r (fun '(os, st2) => (o :: os, st2))) (n + m).

Scheme traverses_mut := Minimality for traverses Sort Prop
with traverse_all_mut := Minimality for traverse_all Sort Prop.
Combined Scheme traversal_ind from traverses_mut, traverse_all_mut.

Lemma traverse_all_length ts st r n : traverse_all ts st r n ->
  match r with Ok (outs, _) => length ts = length outs | Err _ => True end.
Proof.
  induction 1 as [| |t ts st o st1 r n m Ht Hall IH]; [reflexivity | exact I|].
  destruct r as [[os st2]|e]; [cbn in IH |- *; congruence | exact I].
Qed.

Lemma traversal_runs :
  (forall t st r n, traverses t st r n -> forall fuel process done,
    process_events (n + fuel) (ProcessNode t :: process) done st =
      match r with Err e => Some (Err e) | Ok (o, st') => process_events fuel process (o :: done) st' end) /\
  (forall ts st r n, traverse_all ts st r n -> forall fuel process done,
    process_events (n + fuel) (map ProcessNode ts ++ process) done st =
      match r with Err e => Some (Err e) | Ok (os, st') => process_events fuel process (rev os ++ done) st' end).
Proof.
  apply traversal_ind.
  - intros t st e Hm fuel process done. cbn. rewrite Hm. reflexivity.
  - intros t st st1 l e Hm Hf fuel process done. cbn. rewrite Hm, Hf. reflexivity.
  - intros t st st1 l b st2 Hm Hf fuel process done. cbn. rewrite Hm, Hf. reflexivity.
  - intros t st st1 d children e n Hm _ IH fuel process done. cbn. rewrite Hm, IH. reflexivity.
  - intros t st st1 d children outs st2 n Hm Hall IH fuel process done.
    pose proof (traverse_all_length _ _ _ _ Hall) as Hlen. cbn in Hlen.
    replace (S (S n) + fuel)%nat with (S (n + S fuel)) by lia. cbn [process_events]. rewrite Hm, IH.
    cbn [process_events]. rewrite Hlen, length_app, length_rev.
    rewrite (proj2 (Nat.leb_le _ _)) by lia.
    rewrite take_app_length', drop_app_length' by (rewrite length_rev; reflexivity). rewrite rev_involutive.
    destruct (collect d outs st2) as [[o st3]|e]; reflexivity.
  - reflexivity.
  - intros t ts st e n _ IH fuel process done. cbn. rewrite IH. reflexivity.
  - intros t ts st o st1 r n m _ IHt _ IHts fuel process done. cbn [map app].
    rewrite <- Nat.add_assoc, IHt, IHts. destruct r as [[os st2]|e]; cbn; [|reflexivity].
    rewrite <- app_assoc. reflexivity.
Qed.

Lemma traverses_node_eq t st st1 d children outs st2 n r : modify t st = Ok (NodeContinue d children, st1) ->
  traverse_all children st1 (Ok (outs, st2)) n -> collect d outs st2 = r -> traverses t st r (S (S n)).
Proof. intros Hm Hall <-. exact (traverses_node t st st1 d children outs st2 n Hm Hall). Qed.

Lemma traverses_leaf_eq t st st1 l r : modify t st = Ok (LeafStop l, st1) ->
  result_map (fmap l st1) (fun '(b, st2) => (from b, st2)) = r -> traverses t st r 1.
Proof.
  intros Hm <-. destruct (fmap l st1) as [[b st2]|e] eqn:Hf; cbn.
  - exact (traverses_leaf t st st1 l b st2 Hm Hf).
  - exact (traverses_map_err t st st1 l e Hm Hf).
Qed.

(** Children that leave the state alone, with events for their sizes. *)
Lemma traverse_all_pure (size : InputTree -> nat) (g : InputTree -> OutputTree) children st :
  Forall (fun t => exists n, (n <= 2 * size t)%nat /\ traverses t st (Ok (g t, st)) n) children ->
  exists n, (n <= 2 * list_sum (map size children))%nat /\ traverse_all children st (Ok (map g children, st)) n.
Proof.
  induction 1 as [|t ts (n & Hn & Ht) _ (m & Hm & Hts)]; [exists O; split; [lia | constructor]|].
  exists (n + m)%nat. split; [change (list_sum (map size (t :: ts))) with (size t + list_sum (map size ts))%nat; lia|].
  exact (traverse_cons t ts st (g t) st (Ok (map g ts, st)) n m Ht Hts).
Qed.

(** With fuel for its events the traversal ends, with the recursive result. *)
Lemma impl_modify_map_collect_eq t st r n fuel : traverses t st r n -> (n < fuel)%nat ->
  impl_modify_map_collect fuel t st = Some r.
Proof.
  intros Ht Hf. unfold impl_modify_map_collect.
  replace fuel with (n + S (fuel - S n))%nat by lia. rewrite (proj1 traversal_runs _ _ _ _ Ht).
  destruct r as [[o st']|e]; reflexivity.
Qed.
End Traversal.
Arguments ProcessEvents : clear implicits.

Notation "x <-! r ;; k" := (result_bind r (fun x => k))
  (at level 100, r at next level, right associativity) : pvm_scope.
Notation "' pat <-! r ;; k" := (result_bind r (fun x => match x with pat => k end))
  (at level 20, pat pattern, r at level 99, k at level 200) : pvm_scope.
Open Scope pvm_scope.

(** [collect] on an iterator of results. *)
Fixpoint collect_results {A B E} (f : A -> result B E) (l : list A) : result (list B) E :=
  match l with
  | [] => Ok []
  | a :: l => b <-! f a ;; bs <-! collect_results f l ;; Ok (b :: bs)
  end.

(** ** Hashes *)
Class Blake2b : Type := digest_256 : list Z -> list Z.

Definition DIGEST_SIZE : Z := 32.

(** The errors of the code itself. *)
Inductive HashError : Type := InvalidDigestSize | NonEmptyBufferExpected.

Record Hash : Type := mkHash { digest : list Z }.
#[export] Instance Hash_eq_dec : EqDecision Hash.
Proof. solve_decision. Defined.

(** [TryFrom<&[u8]>]. *)
Definition hash_try_from (value : list Z) : result Hash HashError :=
  if Z.of_nat (length value) =? DIGEST_SIZE then Ok (mkHash value) else Err InvalidDigestSize.

(** The iterator [slice.chunks(n)]: pieces of [n], the last one perhaps shorter;
    [fuel] counts them. *)
Fixpoint chunks_from {A} (fuel n : nat) (l : list A) : list (list A) :=
  match fuel, l with
  | S fuel, _ :: _ => take n l :: chunks_from fuel n (drop n l)
  | _, _ => []
  end.
Definition chunks {A} (n : nat) (l : list A) : list (list A) := chunks_from (length l) n l.

(** ** Writers that work in chunks

    [HashWriter] and [MerkleWriter] differ in what they keep of a chunk: [flush]
    makes an item of the number of items so far and the full buffer. *)
Record Writer (T : Type) : Type := mkWriter { w_size : nat; w_buffer : list Z; w_items : list T }.
Arguments mkWriter {T}.
Arguments w_size {T}.
Arguments w_buffer {T}.
Arguments w_items {T}.

Section Writers.
Context {T : Type} (flush : nat -> list Z -> result T HashError).

Definition writer_new (size : nat) : Writer T := mkWriter size [] [].
Definition flush_buffer (w : Writer T) : result (Writer T) HashError :=
  item <-! flush (length (w_items w)) (w_buffer w) ;;
  Ok (mkWriter (w_size w) [] (w_items w ++ [item])).

(** The loop of [write]; [None] is the underflow of the room in the buffer, or the
    end of the fuel. *)
Fixpoint write_loop (fuel : nat) (buf : list Z) (w : Writer T) : option (result (Writer T) HashError) :=
  match buf with
  | [] => Some (Ok w)
  | _ =>
      match fuel with
      | O => None
      | S fuel =>
          if (w_size w <? length (w_buffer w))%nat then None
          else
            let rem_buffer_len := (w_size w - length (w_buffer w))%nat in
            let new_buf_len := Nat.min rem_buffer_len (length buf) in
            let new_buf := take new_buf_len buf in
            let buf := drop new_buf_len buf in
            let w := mkWriter (w_size w) (w_buffer w ++ new_buf) (w_items w) in
            match (if (rem_buffer_len =? new_buf_len)%nat then flush_buffer w else Ok w) with
            | Ok w => write_loop fuel buf w
            | Err e => Some (Err e)
            end
      end
  end.
Definition writer_write (buf : list Z) (w : Writer T) : option (result (Writer T) HashError) :=
  write_loop (length buf) buf w.

(** What both [finalise] do first. *)
Definition flush_rest (w : Writer T) : result (list T) HashError :=
  match w_buffer w with
  | [] => Ok (w_items w)
  | _ => w <-! flush_buffer w ;; Ok (w_items w)
  end.
End Writers.

Section Hashing.
Context `{Blake2b}.

Definition blake2b_hash_bytes (bytes : list Z) : result Hash HashError := hash_try_from (digest_256 bytes).

Definition combine (hashes : list Hash) : result Hash HashError :=
  blake2b_hash_bytes (concat (map digest hashes)).

Definition HashWriter : Type := Writer Hash.
Definition hash_writer_new : nat -> HashWriter := writer_new.
Definition hash_flush (_ : nat) (buffer : list Z) : result Hash HashError := blake2b_hash_bytes buffer.
Definition hash_writer_write : list Z -> HashWriter -> option (result HashWriter HashError) :=
  writer_write hash_flush.
Definition hash_writer_finalise : HashWriter -> result (list Hash) HashError := flush_rest hash_flush.

(** The loop of [build_custom_merkle_hash]; [fuel] bounds the levels. *)
Fixpoint hash_levels (fuel arity : nat) (nodes : list Hash) : option (result Hash HashError) :=
  match nodes with
  | [] => None
  | [root] => Some (Ok root)
  | _ =>
      match fuel with
      | O => None
      | S fuel =>
          match collect_results combine (chunks arity nodes) with
          | Ok next_level => hash_levels fuel arity next_level
          | Err e => Some (Err e)
          end
      end
  end.
Definition build_custom_merkle_hash (arity : nat) (nodes : list Hash) : option (result Hash HashError) :=
  if (arity <? 2)%nat then None
  else
    match nodes with
    | [] => Some (Err NonEmptyBufferExpected)
    | _ => hash_levels (length nodes) arity nodes
    end.
End Hashing.

(** ** Properties *)

Lemma chunks_from_concat {A} fuel n (l : list A) : (0 < n)%nat -> (length l <= fuel)%nat ->
  concat (chunks_from fuel n l) = l.
Proof.
  intros Hn. revert l. induction fuel as [|fuel IH]; intros [|a l] Hf; try reflexivity; [cbn in Hf; lia|].
  destruct n as [|n]; [lia|]. cbn. cbn in Hf.
  rewrite IH by (rewrite length_drop; lia). f_equal. apply take_drop.
Qed.
Lemma chunks_concat {A} n (l : list A) : (0 < n)%nat -> concat (chunks n l) = l.
Proof. intros Hn. apply chunks_from_concat; [exact Hn | lia]. Qed.

Lemma chunks_from_enough {A} fuel fuel' n (l : list A) : (0 < n)%nat -> (length l <= fuel)%nat ->
  (length l <= fuel')%nat -> chunks_from fuel n l = chunks_from fuel' n l.
Proof.
  intros Hn. revert fuel' l. induction fuel as [|fuel IH]; intros [|fuel'] [|a l] H1 H2; try reflexivity;
    try (cbn in H1, H2; lia).
  cbn [chunks_from]. f_equal. cbn in H1, H2. apply IH; rewrite length_drop; cbn; lia.
Qed.
(** The first chunk, and the others. *)
Lemma chunks_cons {A} n (l : list A) : (0 < n)%nat -> l <> [] -> chunks n l = take n l :: chunks n (drop n l).
Proof.
  intros Hn Hl. unfold chunks. destruct l as [|a l]; [congruence|]. cbn [length chunks_from]. f_equal.
  apply chunks_from_enough; [exact Hn | | lia]. rewrite length_drop. cbn. lia.
Qed.
Lemma chunks_short {A} n (l : list A) : l <> [] -> (length l <= n)%nat -> chunks n l = [l].
Proof.
  intros Hl Hn. assert (0 < n)%nat by (destruct l; [congruence | cbn in Hn; lia]).
  rewrite chunks_cons by assumption. rewrite take_ge, drop_ge by lia. reflexivity.
Qed.
Lemma chunks_app {A} n (l1 l2 : list A) : (0 < n)%nat -> length l1 = n -> chunks n (l1 ++ l2) = l1 :: chunks n l2.
Proof.
  intros Hn Hl. rewrite chunks_cons; [|exact Hn | destruct l1; [cbn in Hl; lia | discriminate]].
  rewrite take_app_length', drop_app_length' by (symmetry; exact Hl). reflexivity.
Qed.
Lemma chunks_length {A} n (l : list A) : (2 <= n)%nat -> (2 <= length l)%nat -> (length (chunks n l) < length l)%nat.
Proof.
  intros Hn. remember (length l) as k eqn:Ek. revert l Ek. induction (lt_wf k) as [k _ IH]. intros l -> Hl.
  rewrite chunks_cons; [|lia | intros ->; cbn in Hl; lia]. cbn [length].
  assert (Hd : length (drop n l) = (length l - n)%nat) by apply length_drop.
  destruct (decide (2 <= length (drop n l))%nat) as [H2|H2].
  - specialize (IH (length (drop n l)) ltac:(lia) (drop n l) eq_refl H2). lia.
  - destruct (drop n l) as [|x [|y r]] eqn:E; cbn in *; lia.
Qed.
Lemma chunks_not_nil {A} n (l : list A) : l <> [] -> chunks n l <> [].
Proof. destruct l; [congruence | discriminate]. Qed.

Lemma chunks_map {A B} (f : A -> B) n (l : list A) : chunks n (map f l) = map (map f) (chunks n l).
Proof.
  unfold chunks. rewrite length_map. generalize (length l) as fuel. intros fuel. revert l.
  induction fuel as [|fuel IH]; intros [|a l]; try reflexivity. cbn [map chunks_from].
  rewrite <- IH. change (f a :: map f l) with (map f (a :: l)). rewrite firstn_map, skipn_map. reflexivity.
Qed.

Lemma collect_results_length {A B E} (f : A -> result B E) l bs : collect_results f l = Ok bs -> length bs = length l.
Proof.
  revert bs. induction l as [|a l IH]; intros bs; [intros [= <-]; reflexivity|].
  cbn. destruct (f a) as [b|]; [|discriminate]. cbn. destruct (collect_results f l) as [bs'|] eqn:E1; [|discriminate].
  intros [= <-]. cbn. f_equal. apply IH. reflexivity.
Qed.

Lemma collect_results_ok {A B E} (f : A -> result B E) l : (forall a, a ∈ l -> exists b, f a = Ok b) ->
  exists bs, collect_results f l = Ok bs.
Proof.
  induction l as [|a l IH]; intros Hf; [eexists; reflexivity|].
  destruct (Hf a ltac:(left)) as [b Hb]. destruct IH as [bs Hbs]; [intros x Hx; apply Hf; right; exact Hx|].
  exists (b :: bs). cbn. rewrite Hb. cbn. rewrite Hbs. reflexivity.
Qed.

(** What a writer ends with: an item of every chunk of what is written to it. *)
Section WriterSpec.
Context {T : Type} (flush : nat -> list Z -> result T HashError) (size : nat).
Hypothesis size_pos : (0 < size)%nat.

(** The items of the pieces, numbered from [i]. *)
Fixpoint items_of (i : nat) (pieces : list (list Z)) : result (list T) HashError :=
  match pieces with
  | [] => Ok []
  | piece :: pieces => item <-! flush i piece ;; items <-! items_of (S i) pieces ;; Ok (item :: items)
  end.

(** The items of a writer to which [rest] is still to be written. *)
Definition final_items (w : Writer T) (rest : list Z) : result (list T) HashError :=
  items <-! items_of (length (w_items w)) (chunks size (w_buffer w ++ rest)) ;; Ok (w_items w ++ items).
Definition writer_ok (w : Writer T) : Prop := w_size w = size /\ (length (w_buffer w) < size)%nat.

Lemma flush_buffer_final w rest : w_size w = size -> length (w_buffer w) = size ->
  match flush_buffer flush w with
  | Ok w' => writer_ok w' /\ final_items w rest = final_items w' rest
  | Err e => final_items w rest = Err e
  end.
Proof.
  intros Hw Hb. unfold flush_buffer, final_items. rewrite chunks_app by assumption. cbn [items_of].
  destruct (flush _ _) as [item|e]; [|reflexivity]. cbn [result_bind w_items w_buffer w_size app].
  split; [split; [exact Hw | exact size_pos]|]. rewrite length_app, Nat.add_comm. cbn [length Nat.add].
  destruct (items_of _ _) as [items|e]; [|reflexivity]. cbn. rewrite <- app_assoc. reflexivity.
Qed.

Lemma write_loop_final fuel buf w rest : writer_ok w -> (length buf <= fuel)%nat ->
  match write_loop flush fuel buf w with
  | None => False
  | Some (Ok w') => writer_ok w' /\ final_items w (buf ++ rest) = final_items w' rest
  | Some (Err e) => final_items w (buf ++ rest) = Err e
  end.
Proof.
  revert buf w. induction fuel as [|fuel IH]; intros [|b buf] w Hw Hf;
    [split; [exact Hw | reflexivity] | cbn in Hf; lia | split; [exact Hw | reflexivity] |].
  destruct Hw as [Hsize Hbuf]. cbn [write_loop]. rewrite Hsize.
  destruct (Nat.ltb_spec size (length (w_buffer w))); [lia|].
  set (all := b :: buf) in *. set (rem := (size - length (w_buffer w))%nat). set (n := Nat.min rem (length all)).
  assert (Hall : (0 < length all)%nat) by (cbn; lia).
  set (w1 := mkWriter size (w_buffer w ++ take n all) (w_items w)).
  assert (Hlen : length (w_buffer w1) = (length (w_buffer w) + n)%nat)
    by (cbn; rewrite length_app, length_take; lia).
  assert (Hdrop : (length (drop n all) <= fuel)%nat) by (rewrite length_drop; lia).
  assert (Hstep : final_items w (all ++ rest) = final_items w1 (drop n all ++ rest)).
  { unfold final_items. cbn [w_items w_buffer w1]. rewrite <- (app_assoc (w_buffer w)), (app_assoc (take n all)), take_drop.
    reflexivity. }
  rewrite Hstep. destruct (Nat.eqb_spec rem n) as [E|E].
  - pose proof (flush_buffer_final w1 (drop n all ++ rest) eq_refl ltac:(lia)) as Hflush.
    destruct (flush_buffer flush w1) as [w2|e]; [|exact Hflush].
    destruct Hflush as [Hw2 ->]. apply IH; assumption.
  - apply IH; [split; [reflexivity | lia] | exact Hdrop].
Qed.

Lemma flush_rest_final w : writer_ok w -> flush_rest flush w = final_items w [].
Proof.
  intros [Hs Hb]. unfold flush_rest, final_items, flush_buffer. rewrite app_nil_r.
  destruct (w_buffer w) as [|b buf] eqn:E; [cbn; rewrite app_nil_r; reflexivity|].
  rewrite chunks_short by (discriminate || lia). cbn [items_of].
  destruct (flush _ _) as [item|e]; reflexivity.
Qed.

Lemma writer_write_final w buf rest : writer_ok w ->
  match writer_write flush buf w with
  | None => False
  | Some (Ok w') => writer_ok w' /\ final_items w (buf ++ rest) = final_items w' rest
  | Some (Err e) => final_items w (buf ++ rest) = Err e
  end.
Proof. intros Hw. apply write_loop_final; [exact Hw | lia]. Qed.
End WriterSpec.

(** ** The digest has its size *)
Class Blake2bLaws `{Blake2b} : Prop := digest_256_length bytes : length (digest_256 bytes) = 32%nat.

Section Digests.
Context `{Blake2bLaws}.

Lemma blake2b_hash_bytes_ok bytes : blake2b_hash_bytes bytes = Ok (mkHash (digest_256 bytes)).
Proof. unfold blake2b_hash_bytes, hash_try_from. rewrite digest_256_length. reflexivity. Qed.
Lemma combine_ok hashes : combine hashes = Ok (mkHash (digest_256 (concat (map digest hashes)))).
Proof. apply blake2b_hash_bytes_ok. Qed.

Lemma hash_levels_ok fuel arity nodes : (2 <= arity)%nat -> nodes <> [] -> (length nodes <= fuel)%nat ->
  exists root, hash_levels fuel arity nodes = Some (Ok root).
Proof.
  intros Ha. revert nodes. induction fuel as [|fuel IH]; intros nodes Hne Hf.
  { destruct nodes; [congruence | cbn in Hf; lia]. }
  destruct nodes as [|h [|h' nodes]]; [congruence | eexists; reflexivity|].
  cbn [hash_levels].
  destruct (collect_results_ok combine (chunks arity (h :: h' :: nodes))) as [next E];
    [intros c _; rewrite combine_ok; eauto|].
  rewrite E. pose proof (collect_results_length _ _ _ E) as Hlen.
  pose proof (chunks_length arity (h :: h' :: nodes) Ha ltac:(cbn; lia)) as Hlt.
  pose proof (chunks_not_nil arity (h :: h' :: nodes) ltac:(discriminate)) as Hnn.
  apply IH; [intros ->; destruct (chunks _ _); [congruence | discriminate] | cbn in *; lia].
Qed.
(** A hash of one hash or more exists. *)
Lemma build_custom_merkle_hash_ok arity nodes : (2 <= arity)%nat -> nodes <> [] ->
  exists root, build_custom_merkle_hash arity nodes = Some (Ok root).
Proof.
  intros Ha Hne. unfold build_custom_merkle_hash. destruct (Nat.ltb_spec arity 2); [lia|].
  destruct nodes; [congruence|]. apply hash_levels_ok; [exact Ha | exact Hne | lia].
Qed.
End Digests.
