(* ===== verification/MerkleProof.v ===== *)
(** * Merkle proofs and their serialisation

    Models [src/riscv/lib/src/state_backend/proof_backend/proof.rs]: partial Merkle
    trees whose leaves are blinded or read, their root hash, and their encoding:
    the final hash, two-bit tags of the subtrees in pre-order, and the contents of
    the leaves.  A byte iterator is the list of bytes still to come.

    Reading the encoding of a proof, with the shape of the state, gives the proof
    back; and the functions on proofs are recursion on the tree. *)

From S2P Require Import Prelude.
From S2P Require Import Bits.
From S2P Require Import Hash.

(** ** Data *)
Inductive MerkleProofLeaf : Type := Blind (hash : Hash) | Read (data : list Z).
Notation MerkleProof := (Tree MerkleProofLeaf).

(** The structure [Proof]. *)
Record Proof_ : Type := mkProof { final_state_hash : Hash; partial_tree : MerkleProof }.

Inductive LeafTag : Type := BlindTag | ReadTag.
Inductive Tag : Type := NodeTag | TagOfLeaf (tag : LeafTag).

#[export] Instance MerkleProofLeaf_eq_dec : EqDecision MerkleProofLeaf.
Proof. solve_decision. Defined.
#[export] Instance LeafTag_eq_dec : EqDecision LeafTag.
Proof. solve_decision. Defined.
#[export] Instance Tag_eq_dec : EqDecision Tag.
Proof. solve_decision. Defined.

Definition to_raw_tag (p : MerkleProof) : Tag :=
  match p with
  | Node _ => NodeTag
  | Leaf (Blind _) => TagOfLeaf BlindTag
  | Leaf (Read _) => TagOfLeaf ReadTag
  end.

Inductive DeserialiseError : Type := UnexpectedNode | InvalidTag | NotEnoughBytes | TooManyBytes.

(** ** Root hash *)
Section RootHash.
Context `{Blake2b}.

Definition root_hash (p : MerkleProof) : option (result Hash HashError) :=
  option_map (fun r => result_map r fst)
    (impl_modify_map_collect (fun h : Hash => h)
       (fun (subtree : MerkleProof) (_ : unit) =>
          Ok (match subtree with Node vec => NodeContinue tt vec | Leaf data => LeafStop data end, tt))
       (fun leaf _ => match leaf with
                      | Blind hash => Ok (hash, tt)
                      | Read data => result_map (blake2b_hash_bytes data) (fun h => (h, tt))
                      end)
       (fun _ leaves _ => result_map (combine leaves) (fun h => (h, tt)))
       (S (2 * tree_size p)) p tt).
End RootHash.

(** ** Tags *)
Definition TAG_NODE : Z := 0.
Definition TAG_BLIND : Z := 2.
Definition TAG_READ : Z := 3.
Definition TAG_BITS : Z := 2.
Definition TAGS_PER_BYTE : nat := 4.
Definition TAG_MASK : Z := wrap 8 (ones TAG_BITS).

Definition tag_offset (index : nat) : Z := 8 - (Z.of_nat index + 1) * TAG_BITS.

(** [TryFrom<u8> for Tag] and [From<Tag> for u8]. *)
Definition tag_try_from (value : Z) : result Tag DeserialiseError :=
  if value =? TAG_NODE then Ok NodeTag
  else if value =? TAG_BLIND then Ok (TagOfLeaf BlindTag)
  else if value =? TAG_READ then Ok (TagOfLeaf ReadTag)
  else Err InvalidTag.
Definition tag_u8 (tag : Tag) : Z :=
  match tag with
  | NodeTag => TAG_NODE
  | TagOfLeaf BlindTag => TAG_BLIND
  | TagOfLeaf ReadTag => TAG_READ
  end.

Definition ordered_tags_from_u8 (byte : Z) : list (result Tag DeserialiseError) :=
  map (fun offset => tag_try_from (Z.land (Z.shiftr byte offset) TAG_MASK)) (map tag_offset (seq 0 TAGS_PER_BYTE)).

(** ** Serialisation *)
Definition serialise_tag_chunk (chunk : list Tag) : Z :=
  foldl (fun acc '(tag, offset) => Z.lor acc (wrap 8 (Z.shiftl (tag_u8 tag) offset))) 0
    (zip chunk (map tag_offset (seq 0 TAGS_PER_BYTE))).
Definition serialise_raw_tags (raw_tags : list Tag) : list Z :=
  map serialise_tag_chunk (chunks TAGS_PER_BYTE raw_tags).

Definition iter_raw_tags (proof : MerkleProof) : list Tag := map to_raw_tag (subtree_iterator proof).

Definition subtree_value (subtree : MerkleProof) : list Z :=
  match subtree with
  | Leaf (Read vec) => vec
  | Leaf (Blind hash) => digest hash
  | Node _ => []
  end.
Definition serialise_proof_values (proof : MerkleProof) : list Z :=
  concat (map subtree_value (subtree_iterator proof)).

Definition serialise_proof (proof : Proof_) : list Z :=
  digest (final_state_hash proof) ++ serialise_raw_tags (iter_raw_tags (partial_tree proof)) ++
    serialise_proof_values (partial_tree proof).

(** ** Deserialisation *)
Notation Shape := (Tree Z).

Fixpoint total_leaf_bytes (s : Shape) : Z :=
  match s with
  | Node vec => foldr (fun size sum => wrap 64 (size + sum)) 0 (map total_leaf_bytes vec)
  | Leaf size => size
  end.

(** [n] calls of [bytes.next()]. *)
Fixpoint next_bytes (n : nat) (bytes : list Z) : result (list Z * list Z) DeserialiseError :=
  match n with
  | O => Ok ([], bytes)
  | S n =>
      match bytes with
      | [] => Err NotEnoughBytes
      | b :: bytes => result_map (next_bytes n bytes) (fun '(data, bytes) => (b :: data, bytes))
      end
  end.

Definition deserialise_final_hash_encoding (bytes : list Z) : result (Hash * list Z) DeserialiseError :=
  result_map (next_bytes (Z.to_nat DIGEST_SIZE) bytes) (fun '(digest, bytes) => (mkHash digest, bytes)).

(** [Vec::pop]. *)
Definition vec_pop {A} (v : list A) : option (A * list A) :=
  match rev v with [] => None | a :: r => Some (a, rev r) end.

(** The closure [get_next_tag], on the buffer and the bytes; the buffer it pops from
    is never empty, and the error of that case never arises. *)
Definition get_next_tag (st : list Z * list Z) : result (Tag * (list Z * list Z)) DeserialiseError :=
  let '(buffered_raw_tags, bytes) := st in
  filled <-!
    match buffered_raw_tags with
    | [] =>
        match bytes with
        | [] => Err NotEnoughBytes
        | byte :: bytes => Ok (map (fun offset => Z.land (Z.shiftr byte offset) TAG_MASK) [0; 2; 4; 6], bytes)
        end
    | _ => Ok (buffered_raw_tags, bytes)
    end ;;
  match vec_pop (fst filled) with
  | Some (raw_tag, buffered_raw_tags) =>
      result_map (tag_try_from raw_tag) (fun tag => (tag, (buffered_raw_tags, snd filled)))
  | None => Err NotEnoughBytes
  end.

(** What [deserialise_merkle_proof_tags] does at a subtree of the shape. *)
Definition read_shape (subtree : Shape) (st : list Z * list Z)
  : result (ModifyResult unit Shape (Z * LeafTag) * (list Z * list Z)) DeserialiseError :=
  next <-! get_next_tag st ;;
  let '(tag, st) := next in
  match tag with
  | TagOfLeaf leaf_tag =>
      match subtree with
      | Node _ => Ok (LeafStop (total_leaf_bytes subtree, leaf_tag), st)
      | Leaf size => Ok (LeafStop (size, leaf_tag), st)
      end
  | NodeTag =>
      match subtree with
      | Node children => Ok (NodeContinue tt children, st)
      | Leaf _ => Err UnexpectedNode
      end
  end.

(** [Tree::modify_shape] and [Tree::map]. *)
Definition modify_shape {A B St E} (fuel : nat) (modify : Tree A -> St -> result (ModifyResult unit (Tree A) B * St) E)
    (t : Tree A) (st : St) : option (result (Tree B * St) E) :=
  impl_modify_map_collect Leaf modify (fun data st => Ok (data, st)) (fun _ children st => Ok (Node children, st))
    fuel t st.
Definition tree_map {A B St E} (fmap : A -> St -> result (B * St) E) (t : Tree A) (st : St)
  : option (result (Tree B * St) E) :=
  impl_modify_map_collect Leaf
    (fun subtree st => Ok (match subtree with Node vec => NodeContinue tt vec | Leaf data => LeafStop data end, st))
    fmap (fun _ children st => Ok (Node children, st)) (S (2 * tree_size t)) t st.

Definition deserialise_merkle_proof_tags (bytes : list Z) (full_shape : Shape)
  : option (result (Tree (Z * LeafTag) * list Z) DeserialiseError) :=
  option_map (fun r => result_map r (fun '(t, (_, bytes)) => (t, bytes)))
    (modify_shape (S (2 * tree_size full_shape)) read_shape full_shape ([], bytes)).

Definition read_leaf (leaf : Z * LeafTag) (bytes : list Z) : result (MerkleProofLeaf * list Z) DeserialiseError :=
  let '(size, tag) := leaf in
  match tag with
  | BlindTag => result_map (deserialise_final_hash_encoding bytes) (fun '(hash, bytes) => (Blind hash, bytes))
  | ReadTag => result_map (next_bytes (Z.to_nat size) bytes) (fun '(data, bytes) => (Read data, bytes))
  end.
Definition deserialise_merkle_proof_values (bytes : list Z) (shape : Tree (Z * LeafTag))
  : option (result (MerkleProof * list Z) DeserialiseError) := tree_map read_leaf shape bytes.

Definition deserialise_merkle_proof (bytes : list Z) (full_shape : Shape)
  : option (result (MerkleProof * list Z) DeserialiseError) :=
  match deserialise_merkle_proof_tags bytes full_shape with
  | Some (Ok (proof_shape, bytes)) => deserialise_merkle_proof_values bytes proof_shape
  | Some (Err e) => Some (Err e)
  | None => None
  end.

Definition deserialise_proof (bytes : list Z) (full_merkle_tree_shape : Shape)
  : option (result Proof_ DeserialiseError) :=
  match deserialise_final_hash_encoding bytes with
  | Err e => Some (Err e)
  | Ok (final_hash, bytes) =>
      match deserialise_merkle_proof bytes full_merkle_tree_shape with
      | Some (Ok (merkle_proof, bytes)) =>
          match bytes with
          | [] => Some (Ok (mkProof final_hash merkle_proof))
          | _ => Some (Err TooManyBytes)
          end
      | Some (Err e) => Some (Err e)
      | None => None
      end
  end.

(** ** The root hash, by recursion *)
Section RootHash.
Context `{Blake2bLaws}.

Fixpoint proof_root (p : MerkleProof) : Hash :=
  match p with
  | Leaf (Blind hash) => hash
  | Leaf (Read data) => mkHash (digest_256 data)
  | Node children => mkHash (digest_256 (concat (map digest (map proof_root children))))
  end.

Lemma root_hash_eq p : root_hash p = Some (Ok (proof_root p)).
Proof.
  unfold root_hash. match goal with |- context [impl_modify_map_collect ?from ?mo ?fm ?co] =>
    assert (Ht : forall t, exists n, (n <= 2 * tree_size t)%nat /\ traverses from mo fm co t tt (Ok (proof_root t, tt)) n) end.
  { induction t as [children IH|leaf] using Tree_nested_ind.
    - apply traverse_all_pure in IH as (n & Hn & Hall). exists (S (S n)). split; [cbn [tree_size]; lia|].
      eapply traverses_node_eq; [reflexivity | exact Hall|]. cbn. rewrite combine_ok. reflexivity.
    - exists 1%nat. split; [cbn; lia|]. eapply traverses_leaf_eq; [reflexivity|].
      destruct leaf as [h|data]; cbn; rewrite ?blake2b_hash_bytes_ok; reflexivity. }
  destruct (Ht p) as (n & Hn & Htr). rewrite (impl_modify_map_collect_eq _ _ _ _ _ _ _ _ (S (2 * tree_size p)) Htr) by lia. reflexivity.
Qed.
End RootHash.

(** ** Tags *)

Lemma tag_try_from_u8 tag : tag_try_from (tag_u8 tag) = Ok tag.
Proof. destruct tag as [|[]]; reflexivity. Qed.

(** The four fields of the byte of a chunk, from the first tag. *)
Lemma serialise_tag_chunk_fields chunk : (0 < length chunk <= TAGS_PER_BYTE)%nat ->
  rev (map (fun offset => Z.land (Z.shiftr (serialise_tag_chunk chunk) offset) TAG_MASK) [0; 2; 4; 6]) =
    map tag_u8 chunk ++ replicate (TAGS_PER_BYTE - length chunk) 0.
Proof.
  unfold TAGS_PER_BYTE. intros Hl.
  destruct chunk as [|t1 [|t2 [|t3 [|t4 [|t5 chunk]]]]]; cbn [length] in Hl; try lia;
    repeat match goal with t : Tag |- _ => destruct t as [|[]] end; reflexivity.
Qed.

(** ** The tag reader

    After some tags of the encoding of [tags ++ ...], the buffer and the bytes hold
    the others: some in the buffer, last first, above the unused fields of the last
    byte, and the rest in the bytes, before [rest]. *)
Inductive pending (tags : list Tag) (rest : list Z) : list Z * list Z -> Prop :=
| pending_intro tags1 tags2 pad buf :
    tags = tags1 ++ tags2 -> rev buf = map tag_u8 tags1 ++ pad -> (tags2 = [] \/ pad = []) ->
    pending tags rest (buf, serialise_raw_tags tags2 ++ rest).

Lemma pending_start tags rest : pending tags rest ([], serialise_raw_tags tags ++ rest).
Proof. exact (pending_intro tags rest [] tags [] [] eq_refl eq_refl (or_intror eq_refl)). Qed.
Lemma pending_end rest st : pending [] rest st -> snd st = rest.
Proof. intros [tags1 tags2 pad buf Ht _ _]. symmetry in Ht. apply app_eq_nil in Ht as [-> ->]. reflexivity. Qed.

Lemma pop_pending tag tags1 tags2 pad buf bytes rest : rev buf = map tag_u8 (tag :: tags1) ++ pad ->
  (tags2 = [] \/ pad = []) -> bytes = serialise_raw_tags tags2 ++ rest ->
  exists st, match vec_pop buf with
             | Some (raw_tag, buf) => result_map (tag_try_from raw_tag) (fun tag => (tag, (buf, bytes)))
             | None => Err NotEnoughBytes
             end = Ok (tag, st) /\ pending (tags1 ++ tags2) rest st.
Proof.
  intros Hbuf Hpad ->. unfold vec_pop. rewrite Hbuf. cbn. rewrite tag_try_from_u8. cbn.
  eexists. split; [reflexivity|]. apply (pending_intro _ _ tags1 tags2 pad); [reflexivity | apply rev_involutive | exact Hpad].
Qed.

Lemma get_next_tag_pending tag tags rest st : pending (tag :: tags) rest st ->
  exists st', get_next_tag st = Ok (tag, st') /\ pending tags rest st'.
Proof.
  intros [tags1 tags2 pad buf Ht Hbuf Hpad]. unfold get_next_tag. destruct tags1 as [|t1 tags1].
  - (* The next byte. *)
    cbn in Ht. subst tags2. destruct Hpad as [|Hpad]; [discriminate|]. subst pad.
    assert (buf = []) as -> by (rewrite <- (rev_involutive buf), Hbuf; reflexivity).
    unfold serialise_raw_tags. rewrite chunks_cons by (unfold TAGS_PER_BYTE; (lia || discriminate)).
    cbn [map app result_bind fst snd]. set (chunk := take TAGS_PER_BYTE (tag :: tags)).
    assert (Hlen : (0 < length chunk <= TAGS_PER_BYTE)%nat)
      by (unfold chunk, TAGS_PER_BYTE; rewrite length_take; cbn [length]; lia).
    pose proof (serialise_tag_chunk_fields chunk Hlen) as Hfields.
    destruct chunk as [|tag1 tags1] eqn:Ec; [cbn in Hlen; lia|].
    assert (tag1 = tag) as -> by (unfold chunk in Ec; unfold TAGS_PER_BYTE in Ec; cbn in Ec; congruence).
    assert (Htags : tags = tags1 ++ drop TAGS_PER_BYTE (tag :: tags)).
    { pose proof (take_drop TAGS_PER_BYTE (tag :: tags)) as Htd. fold chunk in Htd.
      rewrite Ec in Htd. injection Htd as Htd. symmetry. exact Htd. }
    set (tags2 := drop TAGS_PER_BYTE (tag :: tags)) in *.
    assert (Hpad2 : tags2 = [] \/ replicate (TAGS_PER_BYTE - length (tag :: tags1)) 0 = []).
    { destruct (decide (TAGS_PER_BYTE < length (tag :: tags))%nat) as [Hlt|Hge]; [right | left; apply drop_ge; lia].
      assert (length (tag :: tags1) = TAGS_PER_BYTE) as ->
        by (rewrite <- Ec; unfold chunk; rewrite length_take; lia). rewrite Nat.sub_diag. reflexivity. }
    destruct (pop_pending tag tags1 tags2 _ _ _ rest Hfields Hpad2 eq_refl) as (st' & E & Hp).
    exists st'. rewrite <- Htags in Hp. split; [exact E | exact Hp].
  - (* A tag of the buffer. *)
    injection Ht as <- ->. destruct buf as [|b buf]; [cbn in Hbuf; discriminate|].
    eapply pop_pending; [exact Hbuf | exact Hpad | reflexivity].
Qed.

(** ** Proofs of a shape

    A proof conforms to the shape of the state when it is a part of it: a leaf
    stands for a subtree of any form, a read one has as many bytes as it. *)
Fixpoint conforms (p : MerkleProof) (s : Shape) : Prop :=
  match p, s with
  | Leaf (Blind hash), _ => length (digest hash) = 32%nat
  | Leaf (Read data), _ => Z.of_nat (length data) = total_leaf_bytes s
  | Node ps, Node ss =>
      (fix all ps ss : Prop :=
         match ps, ss with
         | [], [] => True
         | p :: ps, s :: ss => conforms p s /\ all ps ss
         | _, _ => False
         end) ps ss
  | Node _, Leaf _ => False
  end.

Lemma conforms_node ps ss : conforms (Node ps) (Node ss) <-> Forall2 conforms ps ss.
Proof.
  revert ss. induction ps as [|p ps IH]; intros [|s ss]; cbn; split; intros Hc;
    (inversion Hc; fail) || (contradiction) || (constructor; fail) || idtac.
  - destruct Hc as [Hp Hps]. constructor; [exact Hp | apply IH, Hps].
  - inversion Hc; subst. split; [assumption | apply IH; assumption].
Qed.

(** What the tags of a proof make of the shape: sizes with the kinds of leaves. *)
Definition leaf_tag (leaf : MerkleProofLeaf) : LeafTag :=
  match leaf with Blind _ => BlindTag | Read _ => ReadTag end.
Fixpoint tagged (p : MerkleProof) (s : Shape) : Tree (Z * LeafTag) :=
  match p, s with
  | Node ps, Node ss => Node (zip_with tagged ps ss)
  | Node _, Leaf _ => Node []
  | Leaf leaf, _ => Leaf (total_leaf_bytes s, leaf_tag leaf)
  end.

Notation tags_of p := (map to_raw_tag (preorder p)).
Notation values_of p := (concat (map subtree_value (preorder p))).
Notation read_tags := (traverses Leaf read_shape (fun data st => Ok (data, st)) (fun _ children st => Ok (Node children, st))).
Notation read_all_tags := (traverse_all Leaf read_shape (fun data st => Ok (data, st)) (fun _ children st => Ok (Node children, st))).

Lemma read_tags_ok p : forall s more rest st, conforms p s -> pending (tags_of p ++ more) rest st ->
  exists st' n, pending more rest st' /\ (n <= 2 * tree_size s)%nat /\ read_tags s st (Ok (tagged p s, st')) n.
Proof.
  induction p as [ps IH|leaf] using Tree_nested_ind; intros s more rest st Hc Hp.
  - destruct s as [ss|size]; [|destruct Hc]. apply conforms_node in Hc.
    change (pending (NodeTag :: (map to_raw_tag (concat (map preorder ps)) ++ more)) rest st) in Hp.
    apply get_next_tag_pending in Hp as (st1 & Htag & Hp).
    assert (Hall : exists st' n, pending more rest st' /\ (n <= 2 * list_sum (map tree_size ss))%nat /\
      read_all_tags ss st1 (Ok (zip_with tagged ps ss, st')) n).
    { clear Htag. revert st1 Hp. induction Hc as [|p s ps ss Hps _ IHc]; intros st1 Hp.
      - exists st1, O. split; [exact Hp|]. split; [lia | constructor].
      - inversion IH as [|? ? IHp IHps]; subst. cbn [map concat] in Hp. rewrite map_app, <- app_assoc in Hp.
        destruct (IHp s _ rest st1 Hps Hp) as (st2 & n & Hp2 & Hn & Ht).
        destruct (IHc IHps st2 Hp2) as (st3 & m & Hp3 & Hm & Hts). exists st3, (n + m)%nat.
        split; [exact Hp3|].
        split; [change (list_sum (map tree_size (s :: ss))) with (tree_size s + list_sum (map tree_size ss))%nat; lia|].
        exact (traverse_cons _ _ _ _ s ss st1 _ st2 (Ok (zip_with tagged ps ss, st3)) n m Ht Hts). }
    destruct Hall as (st' & n & Hp' & Hn & Hts). exists st', (S (S n)). split; [exact Hp'|].
    split; [cbn [tree_size]; lia|].
    eapply traverses_node_eq; [unfold read_shape; rewrite Htag; reflexivity | exact Hts | reflexivity].
  - cbn [preorder map app] in Hp. apply get_next_tag_pending in Hp as (st1 & Htag & Hp).
    exists st1, 1%nat. split; [exact Hp|]. split; [destruct s; cbn [tree_size]; lia|].
    destruct leaf; cbn in Htag; destruct s as [ss|size];
      (eapply traverses_leaf_eq; [unfold read_shape; rewrite Htag; reflexivity | reflexivity]).
Qed.

(** ** Values *)
Lemma next_bytes_app data rest n : n = length data -> next_bytes n (data ++ rest) = Ok (data, rest).
Proof. intros ->. induction data as [|b data IH]; [reflexivity|]. cbn. rewrite IH. reflexivity. Qed.
Lemma read_hash hash rest : length (digest hash) = 32%nat ->
  deserialise_final_hash_encoding (digest hash ++ rest) = Ok (hash, rest).
Proof.
  intros Hl. unfold deserialise_final_hash_encoding. rewrite next_bytes_app by (rewrite Hl; reflexivity).
  destruct hash. reflexivity.
Qed.

Notation pure_modify := (fun subtree st =>
  Ok (match subtree with Node vec => NodeContinue tt vec | Leaf data => LeafStop data end, st)).
Notation read_values := (traverses Leaf pure_modify read_leaf (fun _ children st => Ok (Node children, st))).
Notation read_all_values := (traverse_all Leaf pure_modify read_leaf (fun _ children st => Ok (Node children, st))).

Lemma read_values_ok p : forall s rest, conforms p s ->
  exists n, (n <= 2 * tree_size (tagged p s))%nat /\
    read_values (tagged p s) (values_of p ++ rest) (Ok (p, rest)) n.
Proof.
  induction p as [ps IH|leaf] using Tree_nested_ind; intros s rest Hc.
  - destruct s as [ss|size]; [|destruct Hc]. apply conforms_node in Hc. cbn [tagged preorder map concat subtree_value app].
    assert (Hall : exists n, (n <= 2 * list_sum (map tree_size (zip_with tagged ps ss)))%nat /\
      read_all_values (zip_with tagged ps ss) (concat (map subtree_value (concat (map preorder ps))) ++ rest) (Ok (ps, rest)) n).
    { induction Hc as [|p s ps ss Hps _ IHc].
      - exists O. split; [lia | constructor].
      - inversion IH as [|? ? IHp IHps]; subst. cbn [map concat zip_with]. rewrite map_app, concat_app, <- app_assoc.
        destruct (IHp s (concat (map subtree_value (concat (map preorder ps))) ++ rest) Hps) as (n & Hn & Ht).
        destruct (IHc IHps) as (m & Hm & Hts). exists (n + m)%nat.
        split; [|exact (traverse_cons _ _ _ _ _ _ _ p _ (Ok (ps, rest)) n m Ht Hts)].
        match goal with |- (_ <= 2 * list_sum (?a :: ?l))%nat => change (list_sum (a :: l)) with (a + list_sum l)%nat end. lia. }
    destruct Hall as (n & Hn & Hts). exists (S (S n)). split; [cbn [tree_size]; lia|].
    eapply traverses_node_eq; [reflexivity | exact Hts | reflexivity].
  - exists 1%nat. split; [cbn; lia|]. cbn [tagged preorder map concat]. rewrite app_nil_r.
    eapply traverses_leaf_eq; [reflexivity|]. destruct leaf as [hash|data]; cbn in Hc |- *.
    + rewrite read_hash by exact Hc. reflexivity.
    + rewrite next_bytes_app by lia. reflexivity.
Qed.

(** C17: a proof survives its encoding.  Reading the encoding of a proof with the
    shape of the state it is a part of gives the same proof: its final hash, its
    tree, and every hash and byte of the leaves; no byte is left over. *)
Theorem proof_encoding_roundtrip proof shape :
  length (digest (final_state_hash proof)) = 32%nat -> conforms (partial_tree proof) shape ->
  deserialise_proof (serialise_proof proof) shape = Some (Ok proof).
Proof.
  intros Hh Hc. unfold deserialise_proof, serialise_proof. rewrite read_hash by exact Hh.
  unfold deserialise_merkle_proof, deserialise_merkle_proof_tags, iter_raw_tags, serialise_proof_values.
  rewrite subtree_iterator_eq. set (p := partial_tree proof) in *.
  pose proof (pending_start (tags_of p) (values_of p)) as Hp. rewrite <- (app_nil_r (tags_of p)) in Hp at 1.
  destruct (read_tags_ok p shape [] _ _ Hc Hp) as (st' & n & Hend & Hn & Ht).
  unfold modify_shape. rewrite (impl_modify_map_collect_eq _ _ _ _ _ _ _ _ (S (2 * tree_size shape)) Ht) by lia.
  apply pending_end in Hend. destruct st' as [buf bytes]. cbn in Hend. subst bytes. cbn [option_map result_map].
  destruct (read_values_ok p shape [] Hc) as (m & Hm & Hv). rewrite app_nil_r in Hv.
  unfold deserialise_merkle_proof_values, tree_map.
  rewrite (impl_modify_map_collect_eq _ _ _ _ _ _ _ _ (S (2 * tree_size (tagged p shape))) Hv) by lia.
  destruct proof; reflexivity.
Qed.

Lemma proof_encoding_roundtrip_witness :
  let hash := mkHash (replicate 32 9) in
  let proof := mkProof hash (Node [Leaf (Read [1; 2; 3]); Node [Leaf (Blind hash); Leaf (Read [])]; Leaf (Blind hash)]) in
  let shape := Node [Leaf 3; Node [Leaf 8; Leaf 0]; Node [Leaf 1; Leaf 2]] in
  deserialise_proof (serialise_proof proof) shape = Some (Ok proof).
Proof. intros hash proof shape. apply (proof_encoding_roundtrip proof shape); repeat split; reflexivity. Defined.
