(* ===== verification/Merkle.v ===== *)
(** * Merkle trees

    Models [src/riscv/lib/src/state_backend/proof_backend/merkle.rs]: Merkle trees
    whose leaves say whether they were accessed, their compression into a proof,
    and the trees built over the chunks of a long array.  The access logs are those
    of [proof_backend.rs]. *)

From stdpp Require Import gmap.
From S2P Require Import Prelude.
From S2P Require Import Hash.
From S2P Require Import MerkleProof.

Definition MERKLE_LEAF_SIZE : nat := 4096.
Definition MERKLE_ARITY : nat := 4.

Inductive MerkleTree : Type :=
| MerkleLeaf (hash : Hash) (access_info : bool) (data : list Z)
| MerkleNode (hash : Hash) (children : list MerkleTree).

(** Induction with the hypothesis for every child. *)
Section Induction.
Context (P : MerkleTree -> Prop) (Hleaf : forall h a d, P (MerkleLeaf h a d))
  (Hnode : forall h children, Forall P children -> P (MerkleNode h children)).
Fixpoint MerkleTree_nested_ind (t : MerkleTree) : P t :=
  match t with
  | MerkleLeaf h a d => Hleaf h a d
  | MerkleNode h children =>
      Hnode h children ((fix go cs : Forall P cs :=
        match cs with [] => Forall_nil_2 P | c :: cs => Forall_cons_2 P c cs (MerkleTree_nested_ind c) (go cs) end) children)
  end.
End Induction.

Fixpoint merkle_size (t : MerkleTree) : nat :=
  match t with
  | MerkleLeaf _ _ _ => 1
  | MerkleNode _ children => S (list_sum (map merkle_size children))
  end.

(** [MerkleTree::root_hash]. *)
Definition tree_root_hash (t : MerkleTree) : Hash :=
  match t with MerkleNode hash _ => hash | MerkleLeaf hash _ _ => hash end.

(** ** Compression *)
Inductive CompressedAccessInfo : Type := NoAccess | ReadWrite (data : list Z).
#[export] Instance CompressedAccessInfo_eq_dec : EqDecision CompressedAccessInfo.
Proof. solve_decision. Defined.

Definition from_access_info (access_info : bool) (data : list Z) : CompressedAccessInfo :=
  if access_info then ReadWrite data else NoAccess.

Inductive CompressedMerkleTree : Type :=
| CompressedLeaf (hash : Hash) (access : CompressedAccessInfo)
| CompressedNode (hash : Hash) (children : list CompressedMerkleTree).

Section CompressedInduction.
Context (P : CompressedMerkleTree -> Prop) (Hleaf : forall h a, P (CompressedLeaf h a))
  (Hnode : forall h children, Forall P children -> P (CompressedNode h children)).
Fixpoint CompressedMerkleTree_nested_ind (t : CompressedMerkleTree) : P t :=
  match t with
  | CompressedLeaf h a => Hleaf h a
  | CompressedNode h children =>
      Hnode h children ((fix go cs : Forall P cs :=
        match cs with
        | [] => Forall_nil_2 P
        | c :: cs => Forall_cons_2 P c cs (CompressedMerkleTree_nested_ind c) (go cs)
        end) children)
  end.
End CompressedInduction.

Fixpoint compressed_size (t : CompressedMerkleTree) : nat :=
  match t with
  | CompressedLeaf _ _ => 1
  | CompressedNode _ children => S (list_sum (map compressed_size children))
  end.

(** [From<(Hash, CompressedAccessInfo)>]. *)
Definition compressed_from (data : Hash * CompressedAccessInfo) : CompressedMerkleTree :=
  CompressedLeaf (fst data) (snd data).

(** The hash of a compressed child, and its access when it can be blinded. *)
Definition child_compression (child : CompressedMerkleTree) : Hash * option CompressedAccessInfo :=
  match child with
  | CompressedLeaf hash access_info =>
      (hash, match access_info with NoAccess => Some access_info | ReadWrite _ => None end)
  | CompressedNode hash _ => (hash, None)
  end.
(** [reduce(|a, b| (a == b).then_some(a?)).flatten()]. *)
Definition reduce_compressions (compressions : list (option CompressedAccessInfo)) : option CompressedAccessInfo :=
  match compressions with
  | [] => None
  | a :: compressions =>
      foldl (fun a b => match a with
                        | Some access => if decide (a = b) then Some access else None
                        | None => None
                        end) a compressions
  end.

(** The children of a [MerkleTree], as its traversals see them. *)
Definition merkle_view (subtree : MerkleTree) : ModifyResult Hash MerkleTree (Hash * bool * list Z) :=
  match subtree with
  | MerkleLeaf hash access_info data => LeafStop (hash, access_info, data)
  | MerkleNode hash children => NodeContinue hash children
  end.
Definition compressed_view (subtree : CompressedMerkleTree)
  : ModifyResult unit CompressedMerkleTree (Hash * CompressedAccessInfo) :=
  match subtree with
  | CompressedLeaf hash access => LeafStop (hash, access)
  | CompressedNode _ children => NodeContinue tt children
  end.

(** [From<CompressedMerkleTree> for MerkleProof]. *)
Definition proof_of_compressed (value : CompressedMerkleTree) : option (result MerkleProof Empty_set) :=
  option_map (fun r => result_map r fst)
    (impl_modify_map_collect Leaf (fun subtree (_ : unit) => Ok (compressed_view subtree, tt))
       (fun '(hash, access) _ =>
          Ok (match access with NoAccess => Blind hash | ReadWrite data => Read data end, tt))
       (fun _ children _ => Ok (Node children, tt))
       (S (2 * compressed_size value)) value tt).

Section Merkle.
Context `{Blake2b}.

Definition make_merkle_leaf (data : list Z) (access_info : bool) : result MerkleTree HashError :=
  hash <-! blake2b_hash_bytes data ;; Ok (MerkleLeaf hash access_info data).
Definition make_merkle_node (children : list MerkleTree) : result MerkleTree HashError :=
  node_hash <-! combine (map tree_root_hash children) ;; Ok (MerkleNode node_hash children).

(** What [compress] does with a node and its compressed children. *)
Definition compress_node (hash : Hash) (compact_children : list CompressedMerkleTree)
  : result CompressedMerkleTree HashError :=
  let '(hashes, compressions) := (map fst (map child_compression compact_children),
                                  map snd (map child_compression compact_children)) in
  match reduce_compressions compressions with
  | Some access => hash <-! combine hashes ;; Ok (CompressedLeaf hash access)
  | None => Ok (CompressedNode hash compact_children)
  end.

Definition compress (self : MerkleTree) : option (result CompressedMerkleTree HashError) :=
  option_map (fun r => result_map r fst)
    (impl_modify_map_collect compressed_from (fun subtree (_ : unit) => Ok (merkle_view subtree, tt))
       (fun '(hash, access, data) _ => Ok ((hash, from_access_info access data), tt))
       (fun hash compact_children _ => result_map (compress_node hash compact_children) (fun t => (t, tt)))
       (S (2 * merkle_size self)) self tt).

Definition to_merkle_proof (self : MerkleTree) : option (result MerkleProof HashError) :=
  match compress self with
  | Some (Ok compressed) =>
      match proof_of_compressed compressed with
      | Some (Ok proof) => Some (Ok proof)
      | Some (Err e) => match e with end
      | None => None
      end
  | Some (Err e) => Some (Err e)
  | None => None
  end.

(** ** Trees over many leaves *)

(** The loop of [build_custom_merkle_tree]; [fuel] bounds the levels. *)
Fixpoint tree_levels (fuel arity : nat) (nodes : list MerkleTree) : option (result MerkleTree HashError) :=
  match nodes with
  | [] => None
  | [root] => Some (Ok root)
  | _ =>
      match fuel with
      | O => None
      | S fuel =>
          match collect_results make_merkle_node (chunks arity nodes) with
          | Ok next_level => tree_levels fuel arity next_level
          | Err e => Some (Err e)
          end
      end
  end.
(** With an arity of 0 the chunks panic; the callers give 2 or more. *)
Definition build_custom_merkle_tree (arity : nat) (nodes : list MerkleTree) : option (result MerkleTree HashError) :=
  match nodes with
  | [] => Some (Err NonEmptyBufferExpected)
  | _ => if (arity =? 0)%nat then None else tree_levels (length nodes) arity nodes
  end.

(** [DynAccess], of [proof_backend.rs]: the addresses accessed. *)
Definition DynAccess : Type := gset Z.
Definition includes_range (access : DynAccess) (first past : Z) : bool :=
  existsb (fun a => (first <=? a) && (a <? past)) (elements access).

(** [MerkleWriter]: the fields that do not change, and the writer. *)
Record MerkleWriter : Type := mkMerkleWriter {
  mw_arity : nat; mw_read_log : DynAccess; mw_write_log : DynAccess; mw_writer : Writer MerkleTree }.

Definition merkle_writer_new (leaf_size arity : nat) (read_log write_log : DynAccess) : option MerkleWriter :=
  if (arity <? 2)%nat then None else Some (mkMerkleWriter arity read_log write_log (writer_new leaf_size)).

Definition merkle_flush (leaf_size : nat) (read_log write_log : DynAccess) (leaves : nat) (buffer : list Z)
  : result MerkleTree HashError :=
  let pos := Z.of_nat leaves * Z.of_nat leaf_size in
  let read := includes_range read_log pos (pos + Z.of_nat leaf_size) in
  let write := includes_range write_log pos (pos + Z.of_nat leaf_size) in
  make_merkle_leaf buffer (read || write).

Definition merkle_writer_flush (w : MerkleWriter) : nat -> list Z -> result MerkleTree HashError :=
  merkle_flush (w_size (mw_writer w)) (mw_read_log w) (mw_write_log w).
Definition merkle_writer_write (buf : list Z) (w : MerkleWriter) : option (result MerkleWriter HashError) :=
  option_map (fun r => result_map r (mkMerkleWriter (mw_arity w) (mw_read_log w) (mw_write_log w)))
    (writer_write (merkle_writer_flush w) buf (mw_writer w)).
Definition merkle_writer_finalise (w : MerkleWriter) : option (result MerkleTree HashError) :=
  match flush_rest (merkle_writer_flush w) (mw_writer w) with
  | Ok leaves => build_custom_merkle_tree (mw_arity w) leaves
  | Err e => Some (Err e)
  end.

(** ** [chunks_to_writer]

    [read address] is the leaf's size of bytes at the address; [write] is the
    writer's.  The first loop, and the rest. *)
Section ChunksToWriter.
Context {W : Type} (write : list Z -> W -> option (result W HashError)) (read : Z -> option (list Z)) (LEN : Z).
Notation leaf_size := (Z.of_nat MERKLE_LEAF_SIZE).

Fixpoint write_chunks (fuel : nat) (address : Z) (w : W) : option (result (Z * W) HashError) :=
  if address + leaf_size <=? LEN then
    match fuel with
    | O => None
    | S fuel =>
        match read address with
        | None => None
        | Some chunk =>
            match write chunk w with
            | Some (Ok w) => write_chunks fuel (address + leaf_size) w
            | Some (Err e) => Some (Err e)
            | None => None
            end
        end
    end
  else Some (Ok (address, w)).

Definition chunks_to_writer (w : W) : option (result W HashError) :=
  if LEN <? leaf_size then None
  else
    match write_chunks (Z.to_nat (LEN / leaf_size)) 0 w with
    | Some (Ok (address, w)) =>
        if negb (address =? LEN) then
          let address := address + leaf_size in
          match read (saturating_sub LEN leaf_size) with
          | Some buffer => write (drop (Z.to_nat (saturating_sub address LEN)) buffer) w
          | None => None
          end
        else Some (Ok w)
    | Some (Err e) => Some (Err e)
    | None => None
    end.
End ChunksToWriter.
End Merkle.
