(* ===== verification/MerkleSpec.v ===== *)
(** * Merkle trees: properties

    Compressing a tree into a proof blinds exactly the largest subtrees without an
    access and keeps the root hash; the tree over a long array has the hash that the
    commitment to the array computes.

    Then: the trees that the code builds level by level from the leaves are, over
    [4 ^ k] of them, the perfect trees that it takes apart from the root in quarters. *)

From stdpp Require Import gmap.
From S2P Require Import Prelude.
From S2P Require Import Hash.
From S2P Require Import MerkleProof.
From S2P Require Import Merkle.

(** ** Compression, by recursion *)

(** A subtree without an access; a node without children is not one. *)
Fixpoint blindable (t : MerkleTree) : bool :=
  match t with
  | MerkleLeaf _ access_info _ => negb access_info
  | MerkleNode _ children => negb (Nat.eqb (length children) 0) && forallb blindable children
  end.
(** The proof of a tree: its largest blindable subtrees are blinded. *)
Fixpoint proof_tree (t : MerkleTree) : MerkleProof :=
  if blindable t then Leaf (Blind (tree_root_hash t))
  else match t with
       | MerkleLeaf _ _ data => Leaf (Read data)
       | MerkleNode _ children => Node (map proof_tree children)
       end.
(** The shape of a tree. *)
Fixpoint shape_of (t : MerkleTree) : Shape :=
  match t with
  | MerkleLeaf _ _ data => Leaf (Z.of_nat (length data))
  | MerkleNode _ children => Node (map shape_of children)
  end.

Lemma reduce_compressions_spec cs : reduce_compressions cs =
  match cs with
  | Some access :: cs' => if forallb (fun c => bool_decide (c = Some access)) cs' then Some access else None
  | _ => None
  end.
Proof.
  assert (Hnone : forall cs : list (option CompressedAccessInfo), foldl (fun a b => match a with
      | Some access => if decide (a = b) then Some access else None | None => None end) None cs = None)
    by (intros xs; induction xs as [|x xs IHx]; [reflexivity | exact IHx]).
  destruct cs as [|[access|] cs]; [reflexivity | | apply Hnone]. cbn [reduce_compressions].
  induction cs as [|c cs IH]; [reflexivity|]. cbn [foldl forallb].
  destruct (decide (Some access = c)) as [<-|Hne]; [rewrite bool_decide_true by reflexivity; exact IH|].
  rewrite bool_decide_false by congruence. apply Hnone.
Qed.

Section Compression.
Context `{Blake2bLaws}.
Notation combined ts := (mkHash (digest_256 (concat (map digest (map tree_root_hash ts))))).

(** Every hash of the tree is that of its data or its children. *)
Fixpoint valid_tree (t : MerkleTree) : Prop :=
  match t with
  | MerkleLeaf hash _ data => hash = mkHash (digest_256 data)
  | MerkleNode hash children =>
      hash = combined children /\
      (fix all cs : Prop := match cs with [] => True | c :: cs => valid_tree c /\ all cs end) children
  end.
Lemma valid_node hash children :
  valid_tree (MerkleNode hash children) <-> hash = combined children /\ Forall valid_tree children.
Proof.
  cbn [valid_tree]. assert (Hall : forall cs, (fix all cs : Prop := match cs with [] => True | c :: cs => valid_tree c /\ all cs end) cs
    <-> Forall valid_tree cs).
  { induction cs as [|c cs IH]; split; intros Hc; [constructor | exact I | |].
    - destruct Hc as [Hc Hcs]. constructor; [exact Hc | apply IH, Hcs].
    - inversion Hc; subst. split; [assumption | apply IH; assumption]. }
  rewrite Hall. reflexivity.
Qed.

Lemma make_merkle_leaf_ok data access :
  make_merkle_leaf data access = Ok (MerkleLeaf (mkHash (digest_256 data)) access data).
Proof. unfold make_merkle_leaf. rewrite blake2b_hash_bytes_ok. reflexivity. Qed.
Lemma make_merkle_node_ok children : make_merkle_node children = Ok (MerkleNode (combined children) children).
Proof. unfold make_merkle_node. rewrite combine_ok. reflexivity. Qed.

(** The compressed form of a tree. *)
Fixpoint compressed (t : MerkleTree) : CompressedMerkleTree :=
  if blindable t then CompressedLeaf (tree_root_hash t) NoAccess
  else match t with
       | MerkleLeaf hash _ data => CompressedLeaf hash (ReadWrite data)
       | MerkleNode hash children => CompressedNode hash (map compressed children)
       end.

Lemma child_compression_eq t : child_compression (compressed t) =
  (tree_root_hash t, if blindable t then Some NoAccess else None).
Proof. destruct t as [h [] d|h cs]; cbn; [reflexivity.. |]. destruct (_ && _); reflexivity. Qed.

Lemma compress_node_eq children : compress_node (combined children) (map compressed children) =
  Ok (if blindable (MerkleNode (combined children) children)
      then CompressedLeaf (combined children) NoAccess
      else CompressedNode (combined children) (map compressed children)).
Proof.
  assert (Hcc : map child_compression (map compressed children) =
    map (fun t => (tree_root_hash t, if blindable t then Some NoAccess else None)) children)
    by (rewrite map_map; apply map_ext, child_compression_eq).
  unfold compress_node. rewrite Hcc, !map_map. cbn [fst snd].
  rewrite reduce_compressions_spec. destruct children as [|c cs]; [reflexivity|]. cbn [map blindable length Nat.eqb negb andb forallb].
  destruct (blindable c); [|reflexivity].
  assert (Hall : forallb (fun c => bool_decide (c = Some NoAccess)) (map (fun t => if blindable t then Some NoAccess else None) cs)
    = forallb blindable cs).
  { clear Hcc. induction cs as [|x cs IH]; [reflexivity|]. cbn. rewrite IH. destruct (blindable x); reflexivity. }
  rewrite Hall. destruct (forallb blindable cs); [|reflexivity]. rewrite combine_ok. cbn [map]. rewrite map_map. reflexivity.
Qed.

Lemma compress_eq t : valid_tree t -> compress t = Some (Ok (compressed t)).
Proof.
  intros Hv. unfold compress. match goal with |- context [impl_modify_map_collect ?from ?mo ?fm ?co] =>
    assert (Ht : forall t, valid_tree t ->
      exists n, (n <= 2 * merkle_size t)%nat /\ traverses from mo fm co t tt (Ok (compressed t, tt)) n) end.
  { clear t Hv. induction t as [h a d|h children IH] using MerkleTree_nested_ind; intros Hv.
    - exists 1%nat. split; [cbn; lia|]. eapply traverses_leaf_eq; [reflexivity|]. destruct a; reflexivity.
    - apply valid_node in Hv as [-> Hv].
      pose proof (Forall_impl _ _ _ (proj2 (Forall_and _ _) (conj IH Hv)) (fun t Hi => proj1 Hi (proj2 Hi))) as Hall.
      apply traverse_all_pure in Hall as (n & Hn & Hall). exists (S (S n)).
      split; [cbn [merkle_size]; lia|].
      eapply traverses_node_eq; [reflexivity | exact Hall|]. cbv beta. rewrite compress_node_eq. reflexivity. }
  destruct (Ht t Hv) as (n & Hn & Htr).
  rewrite (impl_modify_map_collect_eq _ _ _ _ _ _ _ _ (S (2 * merkle_size t)) Htr) by lia. reflexivity.
Qed.

(** The proof of a compressed tree. *)
Fixpoint compressed_proof (t : CompressedMerkleTree) : MerkleProof :=
  match t with
  | CompressedLeaf hash NoAccess => Leaf (Blind hash)
  | CompressedLeaf _ (ReadWrite data) => Leaf (Read data)
  | CompressedNode _ children => Node (map compressed_proof children)
  end.
Lemma proof_of_compressed_eq t : proof_of_compressed t = Some (Ok (compressed_proof t)).
Proof.
  unfold proof_of_compressed. match goal with |- context [impl_modify_map_collect ?from ?mo ?fm ?co] =>
    assert (Ht : forall t,
      exists n, (n <= 2 * compressed_size t)%nat /\ traverses from mo fm co t tt (Ok (compressed_proof t, tt)) n) end.
  { clear t. induction t as [h a|h children IH] using CompressedMerkleTree_nested_ind.
    - exists 1%nat. split; [cbn; lia|]. eapply traverses_leaf_eq; [reflexivity|]. destruct a; reflexivity.
    - apply traverse_all_pure in IH as (n & Hn & Hall). exists (S (S n)). split; [cbn [compressed_size]; lia|].
      eapply traverses_node_eq; [reflexivity | exact Hall | reflexivity]. }
  destruct (Ht t) as (n & Hn & Htr).
  rewrite (impl_modify_map_collect_eq _ _ _ _ _ _ _ _ (S (2 * compressed_size t)) Htr) by lia. reflexivity.
Qed.

Lemma compressed_proof_tree t : compressed_proof (compressed t) = proof_tree t.
Proof.
  induction t as [h a d|h children IH] using MerkleTree_nested_ind; [destruct a; reflexivity|].
  cbn [compressed proof_tree]. destruct (blindable _); [reflexivity|]. cbn [compressed_proof]. f_equal.
  rewrite map_map. induction IH as [|c cs Hc _ IHc]; [reflexivity|]. cbn. rewrite Hc, IHc. reflexivity.
Qed.

Lemma to_merkle_proof_eq t : valid_tree t -> to_merkle_proof t = Some (Ok (proof_tree t)).
Proof.
  intros Hv. unfold to_merkle_proof. rewrite compress_eq by exact Hv.
  rewrite proof_of_compressed_eq, compressed_proof_tree. reflexivity.
Qed.

Lemma proof_tree_root t : valid_tree t -> proof_root (proof_tree t) = tree_root_hash t.
Proof.
  induction t as [h a d|h children IH] using MerkleTree_nested_ind; intros Hv.
  - destruct a; [|reflexivity]. cbn in Hv |- *. symmetry. exact Hv.
  - apply valid_node in Hv as [-> Hv]. cbn [proof_tree tree_root_hash]. destruct (blindable _); [reflexivity|].
    cbn [proof_root]. do 4 f_equal. rewrite map_map.
    induction IH as [|c cs Hc _ IHc]; [reflexivity|]. inversion Hv; subst. cbn. rewrite Hc, IHc by assumption. reflexivity.
Qed.

Lemma valid_root_length t : valid_tree t -> length (digest (tree_root_hash t)) = 32%nat.
Proof.
  destruct t as [h a d|h children]; intros Hv; [cbn in Hv | apply valid_node in Hv as [Hv _]]; subst h;
    apply digest_256_length.
Qed.

Lemma proof_tree_conforms t : valid_tree t -> conforms (proof_tree t) (shape_of t).
Proof.
  induction t as [h a d|h children IH] using MerkleTree_nested_ind; intros Hv.
  - destruct a; cbn [proof_tree blindable negb]; [reflexivity | exact (valid_root_length _ Hv)].
  - cbn [proof_tree]. destruct (blindable _); [exact (valid_root_length _ Hv)|].
    cbn [shape_of]. apply conforms_node. apply valid_node in Hv as [_ Hv].
    induction IH as [|c cs Hc _ IHc]; [constructor|]. inversion Hv; subst. cbn.
    constructor; [apply Hc; assumption | apply IHc; assumption].
Qed.
End Compression.

(** ** Trees over many leaves *)
Section Building.
Context `{Blake2bLaws}.

Lemma map_make_merkle_node pieces : collect_results make_merkle_node pieces =
  Ok (map (fun ts => MerkleNode (mkHash (digest_256 (concat (map digest (map tree_root_hash ts))))) ts) pieces).
Proof.
  induction pieces as [|ts pieces IH]; [reflexivity|]. cbn [collect_results map]. rewrite make_merkle_node_ok, IH. reflexivity.
Qed.
Lemma map_combine pieces : collect_results combine pieces =
  Ok (map (fun hs => mkHash (digest_256 (concat (map digest hs)))) pieces).
Proof.
  induction pieces as [|hs pieces IH]; [reflexivity|]. cbn [collect_results map]. rewrite combine_ok, IH. reflexivity.
Qed.

Lemma concat_map_concat {A B} (f : A -> list B) ll : concat (map (fun l => concat (map f l)) ll) = concat (map f (concat ll)).
Proof. induction ll as [|l ll IH]; [reflexivity|]. cbn. rewrite IH, map_app, concat_app. reflexivity. Qed.

(** The leaves below a node of some level, in order. *)
Fixpoint leaves_of (t : MerkleTree) : list (list Z) :=
  match t with
  | MerkleLeaf _ _ data => [data]
  | MerkleNode _ children => concat (map leaves_of children)
  end.

(** The tree of some nodes: valid when they are, with the root hash that
    [hash_levels] computes from theirs and their leaves in order. *)
Lemma tree_levels_spec fuel arity nodes : (2 <= arity)%nat -> nodes <> [] -> (length nodes <= fuel)%nat ->
  Forall valid_tree nodes ->
  exists t, tree_levels fuel arity nodes = Some (Ok t) /\ valid_tree t /\
    hash_levels fuel arity (map tree_root_hash nodes) = Some (Ok (tree_root_hash t)) /\
    leaves_of t = concat (map leaves_of nodes).
Proof.
  intros Ha. revert nodes. induction fuel as [|fuel IH]; intros nodes Hne Hf Hv.
  { destruct nodes; [congruence | cbn in Hf; lia]. }
  destruct nodes as [|t [|t' nodes]]; [congruence | |].
  { exists t. split; [reflexivity|]. split; [inversion Hv; assumption|]. split; [reflexivity|]. cbn. rewrite app_nil_r. reflexivity. }
  set (all := t :: t' :: nodes) in *. cbn [tree_levels hash_levels map all].
  change (tree_root_hash t :: tree_root_hash t' :: map tree_root_hash nodes) with (map tree_root_hash all). fold all.
  rewrite map_make_merkle_node, chunks_map, map_combine.
  set (next := map _ (chunks arity all)).
  assert (Hroots : map (fun hs => mkHash (digest_256 (concat (map digest hs)))) (map (map tree_root_hash) (chunks arity all)) =
    map tree_root_hash next) by (unfold next; rewrite !map_map; reflexivity).
  rewrite Hroots.
  pose proof (chunks_length arity all Ha ltac:(cbn; lia)) as Hlt.
  destruct (IH next) as (root & Ht & Hvr & Hh & Hl).
  - unfold next. pose proof (chunks_not_nil arity all ltac:(discriminate)). destruct (chunks arity all); [congruence | discriminate].
  - unfold next. rewrite length_map. cbn [length all] in *. lia.
  - unfold next. apply Forall_map. pose proof (chunks_concat arity all ltac:(lia)) as Hc.
    rewrite <- Hc in Hv. apply Forall_concat in Hv. eapply Forall_impl; [exact Hv|]. intros ts Hts.
    apply valid_node. split; [reflexivity | exact Hts].
  - exists root. split; [exact Ht|]. split; [exact Hvr|]. split; [exact Hh|]. rewrite Hl. unfold next. rewrite map_map. cbn [leaves_of].
    transitivity (concat (map leaves_of (concat (chunks arity all)))); [|rewrite chunks_concat by lia; reflexivity].
    apply concat_map_concat.
Qed.

Lemma build_custom_merkle_tree_spec arity nodes : (2 <= arity)%nat -> nodes <> [] -> Forall valid_tree nodes ->
  exists t, build_custom_merkle_tree arity nodes = Some (Ok t) /\ valid_tree t /\
    build_custom_merkle_hash arity (map tree_root_hash nodes) = Some (Ok (tree_root_hash t)) /\
    leaves_of t = concat (map leaves_of nodes).
Proof.
  intros Ha Hne Hv. destruct (tree_levels_spec (length nodes) arity nodes Ha Hne ltac:(lia) Hv) as (t & Ht & Hvt & Hh & Hl).
  exists t. split; [|split; [exact Hvt|]; split; [|exact Hl]].
  - unfold build_custom_merkle_tree. destruct nodes; [congruence|].
    destruct (Nat.eqb_spec arity 0); [lia | exact Ht].
  - unfold build_custom_merkle_hash. destruct (Nat.ltb_spec arity 2); [lia|].
    destruct nodes; [congruence|]. cbn [map length] in *. rewrite length_map. exact Hh.
Qed.
End Building.

(** ** Writing an array in chunks

    Over any writer: [total w rest] is what it ends with when [rest] is still to be
    written, and a write takes its bytes from the rest. *)
Section ChunksToWriter.
Context {W X : Type} (write : list Z -> W -> option (result W HashError)) (ok : W -> Prop)
  (total : W -> list Z -> result X HashError).
Hypothesis write_spec : forall w buf rest, ok w ->
  match write buf w with
  | None => False
  | Some (Ok w') => ok w' /\ total w (buf ++ rest) = total w' rest
  | Some (Err e) => total w (buf ++ rest) = Err e
  end.
Context (data : list Z) (read : Z -> option (list Z)).
Notation LEN := (Z.of_nat (length data)).
Notation leaf_size := (Z.of_nat MERKLE_LEAF_SIZE).
Hypothesis read_spec : forall a, 0 <= a -> a + leaf_size <= LEN ->
  read a = Some (take MERKLE_LEAF_SIZE (drop (Z.to_nat a) data)).

Lemma write_chunks_spec fuel a w : ok w -> 0 <= a -> a <= LEN -> LEN - a <= leaf_size * (Z.of_nat fuel + 1) - 1 ->
  match write_chunks write read LEN fuel a w with
  | None => False
  | Some (Ok (a', w')) => ok w' /\ 0 <= a' <= LEN /\ LEN < a' + leaf_size /\
      total w (drop (Z.to_nat a) data) = total w' (drop (Z.to_nat a') data)
  | Some (Err e) => total w (drop (Z.to_nat a) data) = Err e
  end.
Proof.
  assert (Hsize : leaf_size = 4096) by reflexivity.
  revert a w. induction fuel as [|fuel IH]; intros a w Hw Ha Hlen Hfuel; cbn [write_chunks];
    destruct (Z.leb_spec (a + leaf_size) LEN) as [Hle|Hgt].
  - lia.
  - split; [exact Hw|]. split; [lia|]. split; [lia | reflexivity].
  - rewrite read_spec by lia.
    assert (Hdrop : drop (Z.to_nat a) data = take MERKLE_LEAF_SIZE (drop (Z.to_nat a) data) ++ drop (Z.to_nat (a + leaf_size)) data).
    { rewrite <- (take_drop MERKLE_LEAF_SIZE (drop (Z.to_nat a) data)) at 1. rewrite drop_drop. do 2 f_equal. lia. }
    pose proof (write_spec w (take MERKLE_LEAF_SIZE (drop (Z.to_nat a) data)) (drop (Z.to_nat (a + leaf_size)) data) Hw) as Hwrite.
    rewrite <- Hdrop in Hwrite.
    destruct (write _ w) as [[w'|e]|]; [|exact Hwrite..]. destruct Hwrite as [Hw' ->]. apply IH; [exact Hw' | lia..].
  - split; [exact Hw|]. split; [lia|]. split; [lia | reflexivity].
Qed.

Lemma chunks_to_writer_spec w : leaf_size <= LEN -> ok w ->
  match chunks_to_writer write read LEN w with
  | None => False
  | Some (Ok w') => ok w' /\ total w data = total w' []
  | Some (Err e) => total w data = Err e
  end.
Proof.
  assert (Hsize : leaf_size = 4096) by reflexivity.
  intros Hlen Hw. unfold chunks_to_writer. destruct (Z.ltb_spec LEN leaf_size); [lia|].
  pose proof (write_chunks_spec (Z.to_nat (LEN / leaf_size)) 0 w Hw ltac:(lia) ltac:(lia)) as Hchunks.
  pose proof (Z.div_mod LEN leaf_size ltac:(lia)). pose proof (Z.mod_pos_bound LEN leaf_size ltac:(lia)).
  pose proof (Z.div_pos LEN leaf_size ltac:(lia) ltac:(lia)).
  specialize (Hchunks ltac:(lia)). change (drop (Z.to_nat 0) data) with data in Hchunks.
  destruct (write_chunks _ _ _ _ _ _) as [[[a w']|e]|]; [|exact Hchunks..].
  destruct Hchunks as (Hw' & Ha & Hpast & ->). destruct (Z.eqb_spec a LEN) as [->|Hne]; cbn [negb].
  - split; [exact Hw'|]. rewrite drop_ge by lia. reflexivity.
  - unfold saturating_sub. rewrite (Z.max_r 0 (LEN - leaf_size)), (Z.max_r 0 (a + leaf_size - LEN)) by lia.
    rewrite read_spec by lia.
    assert (Hrest : drop (Z.to_nat (a + leaf_size - LEN)) (take MERKLE_LEAF_SIZE (drop (Z.to_nat (LEN - leaf_size)) data)) =
      drop (Z.to_nat a) data).
    { rewrite take_ge by (rewrite length_drop; lia). rewrite drop_drop. f_equal. lia. }
    rewrite Hrest. pose proof (write_spec w' (drop (Z.to_nat a) data) [] Hw') as Hwrite. rewrite app_nil_r in Hwrite. exact Hwrite.
Qed.
End ChunksToWriter.

(** ** Chunks of chunks *)
Section Chunks.
Context {A : Type}.
Implicit Types l : list A.

Lemma chunks_nil n : chunks n (@nil A) = [].
Proof. reflexivity. Qed.
Lemma take_chunks n m : forall l, (0 < n)%nat -> take m (chunks n l) = chunks n (take (m * n) l).
Proof.
  induction m as [|m IH]; intros l Hn; [reflexivity|]. destruct l as [|a l]; [rewrite !take_nil; reflexivity|].
  rewrite (chunks_cons n (a :: l)) by (exact Hn || discriminate). cbn [take]. rewrite IH by exact Hn.
  rewrite (chunks_cons n (take (S m * n) (a :: l))).
  - rewrite take_take, Nat.min_l by lia. rewrite skipn_firstn_comm. do 3 f_equal. lia.
  - exact Hn.
  - destruct n; [lia|]. discriminate.
Qed.
Lemma drop_chunks n m : forall l, (0 < n)%nat -> drop m (chunks n l) = chunks n (drop (m * n) l).
Proof.
  induction m as [|m IH]; intros l Hn; [reflexivity|]. destruct l as [|a l]; [rewrite !drop_nil; reflexivity|].
  rewrite (chunks_cons n (a :: l)) by (exact Hn || discriminate). cbn [drop]. rewrite IH by exact Hn.
  rewrite drop_drop. do 2 f_equal.
Qed.
Lemma chunks_chunks m n : (0 < m)%nat -> (0 < n)%nat -> forall l,
  chunks m (chunks n l) = map (chunks n) (chunks (m * n) l).
Proof.
  intros Hm Hn l. remember (length l) as len eqn:Hlen. revert l Hlen.
  induction len as [len IH] using lt_wf_ind. intros l ->. destruct l as [|a l]; [reflexivity|].
  rewrite (chunks_cons m) by (exact Hm || apply chunks_not_nil; discriminate).
  rewrite (chunks_cons (m * n)) by (lia || discriminate). cbn [map].
  rewrite take_chunks, drop_chunks by exact Hn. f_equal. eapply IH; [|reflexivity].
  rewrite length_drop. cbn [length]. nia.
Qed.
(** A list of [c * n] elements has [c] chunks of [n]. *)
Lemma chunks_even n c : forall l, (0 < n)%nat -> length l = (c * n)%nat ->
  length (chunks n l) = c /\ Forall (fun x => length x = n) (chunks n l).
Proof.
  induction c as [|c IH]; intros l Hn Hl.
  - destruct l; [split; [reflexivity | constructor] | cbn in Hl; lia].
  - rewrite chunks_cons; [|exact Hn | intros ->; cbn in Hl; lia].
    destruct (IH (drop n l) Hn) as [IHl IHf]; [rewrite length_drop; lia|]. cbn [length]. rewrite IHl.
    split; [reflexivity|]. constructor; [rewrite length_take; lia | exact IHf].
Qed.
Lemma chunks_lookup n i : forall l, (0 < n)%nat -> (i * n < length l)%nat -> chunks n l !! i = Some (take n (drop (i * n) l)).
Proof.
  induction i as [|i IH]; intros l Hn Hl.
  - rewrite chunks_cons; [reflexivity | exact Hn | intros ->; cbn in Hl; lia].
  - rewrite chunks_cons; [|exact Hn | intros ->; cbn in Hl; lia]. cbn [lookup list_lookup].
    transitivity (chunks n (drop n l) !! i); [reflexivity|]. rewrite IH; [|exact Hn | rewrite length_drop; lia].
    rewrite drop_drop. do 2 f_equal.
Qed.
End Chunks.

(** ** Perfect trees *)
Section Perfect.
Context {T : Type} (node : list T -> T).

(** The tree of [4 ^ k] subtrees, from the root. *)
Fixpoint perfect (k : nat) (ts : list T) : T :=
  match k with
  | O => match ts with [t] => t | _ => node [] end
  | S k => node (map (perfect k) (chunks (4 ^ k) ts))
  end.

Lemma pow4_pos k : (0 < 4 ^ k)%nat.
Proof. induction k; cbn; lia. Qed.
Lemma pow4_above k : (k <= 4 ^ k)%nat.
Proof. induction k; cbn; [lia|]. pose proof (pow4_pos k). lia. Qed.
Lemma quarters {A} k (l : list A) : length l = (4 ^ S k)%nat ->
  length (chunks (4 ^ k) l) = 4%nat /\ Forall (fun x => length x = (4 ^ k)%nat) (chunks (4 ^ k) l).
Proof. intros Hl. apply chunks_even; [apply pow4_pos | exact Hl]. Qed.

Lemma perfect_level k : forall ts, length ts = (4 ^ S k)%nat -> perfect (S k) ts = perfect k (map node (chunks 4 ts)).
Proof.
  induction k as [|k IH]; intros ts Hl.
  - destruct ts as [|a [|b [|c [|d [|e ts]]]]]; try discriminate Hl. reflexivity.
  - change (perfect (S (S k)) ts) with (node (map (perfect (S k)) (chunks (4 ^ S k) ts))).
    change (perfect (S k) (map node (chunks 4 ts))) with (node (map (perfect k) (chunks (4 ^ k) (map node (chunks 4 ts))))).
    f_equal. rewrite chunks_map, (chunks_chunks (4 ^ k) 4) by (apply pow4_pos || lia).
    rewrite !map_map. replace (4 ^ k * 4)%nat with (4 ^ S k)%nat by (cbn; lia).
    destruct (quarters (S k) ts Hl) as [_ Hq]. apply map_ext_Forall. eapply Forall_impl; [exact Hq|].
    intros c Hc. apply IH, Hc.
Qed.

(** A level of [4 ^ (k + 1)] nodes becomes one of [4 ^ k]. *)
Lemma level_length {A} k (ts : list A) : length ts = (4 ^ S k)%nat -> length (chunks 4 ts) = (4 ^ k)%nat.
Proof. intros Hl. apply (chunks_even 4 (4 ^ k) ts); [lia|]. rewrite Hl. cbn. lia. Qed.
End Perfect.

(** Functions that send nodes to nodes send perfect trees to perfect trees. *)
Lemma perfect_map {T T'} (node : list T -> T) (node' : list T' -> T') (f : T -> T') k :
  (forall ts, f (node ts) = node' (map f ts)) -> forall ts, f (perfect node k ts) = perfect node' k (map f ts).
Proof.
  intros Hf. induction k as [|k IH]; intros ts.
  - destruct ts as [|t [|t' ts]]; cbn; [apply (Hf []) | reflexivity | apply (Hf [])].
  - cbn [perfect]. rewrite Hf, map_map, chunks_map, map_map. f_equal. apply map_ext. exact IH.
Qed.
Lemma perfect_Forall {T} (node : list T -> T) (P : T -> Prop) k : (forall ts, Forall P ts -> P (node ts)) ->
  forall ts, Forall P ts -> P (perfect node k ts).
Proof.
  intros Hnode. induction k as [|k IH]; intros ts Hts.
  - destruct ts as [|t [|t' ts]]; cbn; [apply Hnode; constructor | inversion Hts; assumption | apply Hnode; constructor].
  - cbn [perfect]. apply Hnode, Forall_map.
    rewrite <- (chunks_concat (4 ^ k) ts) in Hts by apply pow4_pos. apply Forall_concat in Hts.
    eapply Forall_impl; [exact Hts | exact IH].
Qed.

(** ** The trees of the code *)
Section Levels.
Context `{Blake2bLaws}.

Definition hash_node (hs : list Hash) : Hash := mkHash (digest_256 (concat (map digest hs))).
Definition merkle_node (ts : list MerkleTree) : MerkleTree := MerkleNode (hash_node (map tree_root_hash ts)) ts.

Lemma four_pow_big k n : (4 ^ S k <= n)%nat -> (2 <= n)%nat.
Proof. pose proof (pow4_pos k). cbn. lia. Qed.

Lemma hash_levels_perfect k : forall fuel hs, length hs = (4 ^ k)%nat -> (k <= fuel)%nat ->
  hash_levels fuel 4 hs = Some (Ok (perfect hash_node k hs)).
Proof.
  induction k as [|k IH]; intros fuel hs Hl Hf.
  - destruct hs as [|h [|h' hs]]; try discriminate Hl. destruct fuel; reflexivity.
  - destruct fuel as [|fuel]; [lia|]. pose proof (four_pow_big k (length hs) ltac:(lia)) as Hbig.
    destruct hs as [|h [|h' hs]]; cbn [length] in Hbig; [lia | lia |]. set (all := h :: h' :: hs) in *.
    assert (Hstep : hash_levels (S fuel) 4 all = match collect_results combine (chunks 4 all) with
      | Ok next_level => hash_levels fuel 4 next_level | Err e => Some (Err e) end) by reflexivity.
    rewrite Hstep, map_combine, IH; [|rewrite length_map; apply level_length, Hl | lia].
    rewrite (perfect_level hash_node k all Hl). reflexivity.
Qed.
Lemma build_custom_merkle_hash_perfect k hs : length hs = (4 ^ k)%nat ->
  build_custom_merkle_hash MERKLE_ARITY hs = Some (Ok (perfect hash_node k hs)).
Proof.
  intros Hl. unfold build_custom_merkle_hash. cbn [MERKLE_ARITY Nat.ltb Nat.leb].
  destruct hs as [|h hs]; [pose proof (pow4_pos k) as Hp; rewrite <- Hl in Hp; cbn in Hp; lia|]. apply hash_levels_perfect; [exact Hl|].
  rewrite Hl. apply pow4_above.
Qed.

Lemma tree_levels_perfect k : forall fuel ts, length ts = (4 ^ k)%nat -> (k <= fuel)%nat ->
  tree_levels fuel 4 ts = Some (Ok (perfect merkle_node k ts)).
Proof.
  induction k as [|k IH]; intros fuel ts Hl Hf.
  - destruct ts as [|t [|t' ts]]; try discriminate Hl. destruct fuel; reflexivity.
  - destruct fuel as [|fuel]; [lia|]. pose proof (four_pow_big k (length ts) ltac:(lia)) as Hbig.
    destruct ts as [|t [|t' ts]]; cbn [length] in Hbig; [lia | lia |]. set (all := t :: t' :: ts) in *.
    assert (Hstep : tree_levels (S fuel) 4 all = match collect_results make_merkle_node (chunks 4 all) with
      | Ok next_level => tree_levels fuel 4 next_level | Err e => Some (Err e) end) by reflexivity.
    rewrite Hstep, map_make_merkle_node, IH; [|rewrite length_map; apply level_length, Hl | lia].
    rewrite (perfect_level merkle_node k all Hl). reflexivity.
Qed.
Lemma build_custom_merkle_tree_perfect k ts : length ts = (4 ^ k)%nat ->
  build_custom_merkle_tree MERKLE_ARITY ts = Some (Ok (perfect merkle_node k ts)).
Proof.
  intros Hl. unfold build_custom_merkle_tree. cbn [MERKLE_ARITY Nat.eqb].
  destruct ts as [|t ts]; [pose proof (pow4_pos k) as Hp; rewrite <- Hl in Hp; cbn in Hp; lia|]. apply tree_levels_perfect; [exact Hl|].
  rewrite Hl. apply pow4_above.
Qed.

Lemma valid_merkle_node ts : Forall valid_tree ts -> valid_tree (merkle_node ts).
Proof. intros Hts. apply valid_node. split; [reflexivity | exact Hts]. Qed.
End Levels.
