(* ===== verification/Backend.v ===== *)
(** * State backends

    Models the managers of the state backend: [Owned]
    ([src/riscv/lib/src/state_backend/owned_backend.rs]), [ProofGen] over it
    ([proof_backend.rs]) and [Verifier] ([verify_backend.rs]), with the traits they
    implement ([state_backend.rs]) as classes.  Operations of a manager return the
    region they leave behind, since those of [ProofGen] that read record it there.

    An element of a dynamic region is given by its bytes in their order in memory;
    its type only contributes its size.  Addresses and sizes are those of a region,
    far below the wrap-around of [usize]. *)

From stdpp Require Import gmap.
From S2P Require Import Prelude.
From S2P Require Import Hash.
From S2P Require Import Merkle.

(** What a panic carries: [NotFound], of the verifier, or anything else. *)
Inductive Panic : Type := NotFound | Panicked.

(** ** The traits *)

(** [ManagerRead], [ManagerWrite] and [ManagerReadWrite], for elements [E]. *)
Class Manager (E : Type) : Type := {
  Region : Type;
  DynRegion : Type;
  region_read (LEN : nat) (region : Region) (index : nat) : result (E * Region) Panic;
  region_read_all (LEN : nat) (region : Region) : result (list E * Region) Panic;
  region_write (LEN : nat) (region : Region) (index : nat) (value : E) : result Region Panic;
  region_write_all (LEN : nat) (region : Region) (values : list E) : result Region Panic;
  region_replace (LEN : nat) (region : Region) (index : nat) (value : E) : result (E * Region) Panic;
  dyn_region_read (LEN size : Z) (region : DynRegion) (address : Z) : result (list Z * DynRegion) Panic;
  dyn_region_read_all (LEN size : Z) (region : DynRegion) (address : Z) (count : nat) : result (list Z * DynRegion) Panic;
  dyn_region_write (LEN : Z) (region : DynRegion) (address : Z) (value : list Z) : result DynRegion Panic;
  dyn_region_write_all (LEN size : Z) (region : DynRegion) (address : Z) (values : list (list Z)) : result DynRegion Panic }.
Arguments Region {E} _.
Arguments DynRegion {E} _.

(** [E::serialize] with bincode, little-endian and of fixed width. *)
Class Serialize (E : Type) : Type := serialize : E -> list Z.

(** [ManagerSerialise], for regions. *)
Class ManagerSerialise {E : Type} (M : Manager E) : Type :=
  serialise_region : nat -> Region M -> result (list Z) Panic.

(** [EnrichedValueLinked]. *)
Class EnrichedValueLinked (E D : Type) : Type := derive : E -> D.

(** An iteration that fails with its first failing step. *)
Fixpoint try_fold {A S} (f : A -> S -> result S Panic) (l : list A) (s : S) : result S Panic :=
  match l with [] => Ok s | a :: l => s <-! f a s ;; try_fold f l s end.
Fixpoint try_map {A B S} (f : A -> S -> result (B * S) Panic) (l : list A) (s : S) : result (list B * S) Panic :=
  match l with
  | [] => Ok ([], s)
  | a :: l => '(b, s) <-! f a s ;; '(bs, s) <-! try_map f l s ;; Ok (b :: bs, s)
  end.

(** The bytes [first..first+len]. *)
Definition slice (first len : Z) (bytes : list Z) : list Z := take (Z.to_nat len) (drop (Z.to_nat first) bytes).
(** [bytes] with [data] written at [first]. *)
Definition splice (first : Z) (data bytes : list Z) : list Z :=
  take (Z.to_nat first) bytes ++ data ++ drop (Z.to_nat first + length data) bytes.

(** ** [Owned] *)
Module Owned.
Section Regions.
Context {E : Type}.
Notation region := (list E).

Definition region_ref (r : region) (index : nat) : result E Panic :=
  match r !! index with Some value => Ok value | None => Err Panicked end.
Definition region_read (_ : nat) (r : region) (index : nat) : result (E * region) Panic :=
  value <-! region_ref r index ;; Ok (value, r).
Definition region_read_all (_ : nat) (r : region) : result (list E * region) Panic := Ok (r, r).
Definition region_write (_ : nat) (r : region) (index : nat) (value : E) : result region Panic :=
  if (index <? length r)%nat then Ok (<[index := value]> r) else Err Panicked.
Definition region_write_all (_ : nat) (r : region) (value : list E) : result region Panic :=
  if (length value =? length r)%nat then Ok value else Err Panicked.
Definition region_replace (LEN : nat) (r : region) (index : nat) (value : E) : result (E * region) Panic :=
  old <-! region_ref r index ;; r <-! region_write LEN r index value ;; Ok (old, r).

Definition dyn_region_ref (LEN size : Z) (r : list Z) (address : Z) : result (list Z) Panic :=
  if address + size <=? LEN then Ok (slice address size r) else Err Panicked.
Definition dyn_region_read (LEN size : Z) (r : list Z) (address : Z) : result (list Z * list Z) Panic :=
  value <-! dyn_region_ref LEN size r address ;; Ok (value, r).
Definition dyn_region_read_all (LEN size : Z) (r : list Z) (address : Z) (count : nat) : result (list Z * list Z) Panic :=
  if address + Z.of_nat count * size <=? LEN then Ok (slice address (Z.of_nat count * size) r, r) else Err Panicked.
Definition dyn_region_write (LEN : Z) (r : list Z) (address : Z) (value : list Z) : result (list Z) Panic :=
  if address + Z.of_nat (length value) <=? LEN then Ok (splice address value r) else Err Panicked.
Definition dyn_region_write_all (LEN size : Z) (r : list Z) (address : Z) (values : list (list Z)) : result (list Z) Panic :=
  if address + Z.of_nat (length values) * size <=? LEN then
    Ok (foldl (fun r '(i, value) => splice (address + Z.of_nat i * size) value r) r (imap pair values))
  else Err Panicked.

(** [ManagerSerialise]. *)
Definition serialise_region `{Serialize E} (LEN : nat) (r : region) : result (list Z) Panic :=
  if (LEN =? 1)%nat then value <-! region_ref r 0 ;; Ok (serialize value)
  else Ok (concat (map serialize r)).

(** [allocate_region] and [allocate_dyn_region]. *)
Definition allocate_region (value : list E) : region := value.
Definition allocate_dyn_region (LEN : Z) : list Z := replicate (Z.to_nat LEN) 0.

(** Enriched cells: the stored value with the derived one. *)
Context {D : Type} `{EnrichedValueLinked E D}.
Definition enrich_cell (value : E) : E * D := (value, derive value).
Definition as_devalued_cell (cell : E * D) : region := [fst cell].
Definition enriched_cell_read_stored (cell : E * D) : E := fst cell.
Definition enriched_cell_read_derived (cell : E * D) : D := snd cell.
Definition enriched_cell_write (_ : E * D) (value : E) : E * D := let derived := derive value in (value, derived).
End Regions.
End Owned.

#[export] Instance owned (E : Type) : Manager E := {
  Region := list E; DynRegion := list Z;
  region_read := Owned.region_read; region_read_all := Owned.region_read_all;
  region_write := Owned.region_write; region_write_all := Owned.region_write_all;
  region_replace := Owned.region_replace;
  dyn_region_read := Owned.dyn_region_read; dyn_region_read_all := Owned.dyn_region_read_all;
  dyn_region_write := Owned.dyn_region_write; dyn_region_write_all := Owned.dyn_region_write_all }.
#[export] Instance owned_serialise {E : Type} `{Serialize E} : ManagerSerialise (owned E) := Owned.serialise_region.

(** ** [ProofGen] over [Owned] *)
Record ProofRegion (E : Type) : Type := mkProofRegion { source : list E; writes : gmap nat E; access : bool }.
Arguments mkProofRegion {E}.
Arguments source {E}.
Arguments writes {E}.
Arguments access {E}.
Record ProofDynRegion : Type := mkProofDynRegion { dyn_source : list Z; dyn_reads : DynAccess; dyn_writes : gmap Z Z }.

(** [address..address + size]. *)
Definition addresses (address size : Z) : gset Z := list_to_set (seqZ address size).

Module ProofGen.
Section Regions.
Context {E : Type}.
Notation region := (ProofRegion E).

Definition bind (source : list E) : region := mkProofRegion source ∅ false.
Definition get_access_info (r : region) : bool := access r.
Definition set_access_info (r : region) : region := mkProofRegion (source r) (writes r) true.
Definition inner_region_ref (r : region) : list E := source r.
Definition unrecorded_ref (r : region) (index : nat) : result E Panic :=
  match writes r !! index with Some value => Ok value | None => Owned.region_ref (source r) index end.

Definition region_read (_ : nat) (r : region) (index : nat) : result (E * region) Panic :=
  let r := set_access_info r in value <-! unrecorded_ref r index ;; Ok (value, r).
Definition region_read_all (LEN : nat) (r : region) : result (list E * region) Panic :=
  try_map (fun i r => region_read LEN r i) (seq 0 LEN) r.
Definition region_write (_ : nat) (r : region) (index : nat) (value : E) : result region Panic :=
  let r := set_access_info r in Ok (mkProofRegion (source r) (<[index := value]> (writes r)) (access r)).
Definition region_write_all (LEN : nat) (r : region) (values : list E) : result region Panic :=
  try_fold (fun '(i, value) r => region_write LEN r i value) (imap pair values) r.
Definition region_replace (LEN : nat) (r : region) (index : nat) (value : E) : result (E * region) Panic :=
  '(old, r) <-! region_read LEN r index ;; r <-! region_write LEN r index value ;; Ok (old, r).

Definition dyn_bind (source : list Z) : ProofDynRegion := mkProofDynRegion source ∅ ∅.
(** [get_read] takes the log. *)
Definition get_read (r : ProofDynRegion) : DynAccess * ProofDynRegion :=
  (dyn_reads r, mkProofDynRegion (dyn_source r) ∅ (dyn_writes r)).
Definition get_write (r : ProofDynRegion) : DynAccess := dom (dyn_writes r).
Definition inner_dyn_region_read (LEN size : Z) (r : ProofDynRegion) (address : Z) : result (list Z) Panic :=
  Owned.dyn_region_ref LEN size (dyn_source r) address.
Definition unrecorded_read (LEN size : Z) (r : ProofDynRegion) (address : Z) : result (list Z) Panic :=
  value <-! Owned.dyn_region_ref LEN size (dyn_source r) address ;;
  Ok (imap (fun i byte => default byte (dyn_writes r !! (address + Z.of_nat i))) value).
Definition insert_read (address size : Z) (r : ProofDynRegion) : ProofDynRegion :=
  mkProofDynRegion (dyn_source r) (dyn_reads r ∪ addresses address size) (dyn_writes r).

Definition dyn_region_read (LEN size : Z) (r : ProofDynRegion) (address : Z) : result (list Z * ProofDynRegion) Panic :=
  let r := insert_read address size r in value <-! unrecorded_read LEN size r address ;; Ok (value, r).
Definition dyn_region_read_all (LEN size : Z) (r : ProofDynRegion) (address : Z) (count : nat)
  : result (list Z * ProofDynRegion) Panic :=
  if address + Z.of_nat count * size <=? LEN then
    result_map (try_map (fun offset r => dyn_region_read LEN size r (address + Z.of_nat offset * size)) (seq 0 count) r)
      (fun '(values, r) => (concat values, r))
  else Err Panicked.
Definition dyn_region_write (LEN : Z) (r : ProofDynRegion) (address : Z) (value : list Z) : result ProofDynRegion Panic :=
  if address + Z.of_nat (length value) <=? LEN then
    Ok (mkProofDynRegion (dyn_source r) (dyn_reads r)
          (foldl (fun writes '(offset, byte) => <[address + Z.of_nat offset := byte]> writes) (dyn_writes r) (imap pair value)))
  else Err Panicked.
Definition dyn_region_write_all (LEN size : Z) (r : ProofDynRegion) (address : Z) (values : list (list Z))
  : result ProofDynRegion Panic :=
  if address + Z.of_nat (length values) * size <=? LEN then
    try_fold (fun '(offset, value) r => dyn_region_write LEN r (address + Z.of_nat offset * size) value) (imap pair values) r
  else Err Panicked.

Definition serialise_region `{Serialize E} (LEN : nat) (r : region) : result (list Z) Panic :=
  if (LEN =? 1)%nat then elem <-! unrecorded_ref r 0 ;; Ok (serialize elem)
  else
    '(elems, _) <-! try_map (fun i (_ : unit) => elem <-! unrecorded_ref r i ;; Ok (elem, tt)) (seq 0 LEN) tt ;;
    Ok (concat (map serialize elems)).

(** Enriched cells wrap a region of one element. *)
Context {D : Type} `{EnrichedValueLinked E D}.
Definition enriched_cell_read_derived (cell : region) : result (D * region) Panic :=
  '(value, cell) <-! region_read 1 cell 0 ;; Ok (derive value, cell).
Definition enriched_cell_write (cell : region) (value : E) : result region Panic := region_write 1 cell 0 value.
End Regions.
End ProofGen.

#[export] Instance proof_gen (E : Type) : Manager E := {
  Region := ProofRegion E; DynRegion := ProofDynRegion;
  region_read := ProofGen.region_read; region_read_all := ProofGen.region_read_all;
  region_write := ProofGen.region_write; region_write_all := ProofGen.region_write_all;
  region_replace := ProofGen.region_replace;
  dyn_region_read := ProofGen.dyn_region_read; dyn_region_read_all := ProofGen.dyn_region_read_all;
  dyn_region_write := ProofGen.dyn_region_write; dyn_region_write_all := ProofGen.dyn_region_write_all }.
#[export] Instance proof_gen_serialise {E : Type} `{Serialize E} : ManagerSerialise (proof_gen E) :=
  ProofGen.serialise_region.

(** ** [Verifier] *)

(** The sets of ranges of the crate [range_collections]. *)
Class RangeSets : Type := {
  RangeSet : Type;
  range_set_empty : RangeSet;
  range_set_from (first past : Z) : RangeSet;
  is_superset : RangeSet -> RangeSet -> bool;
  union_with : RangeSet -> RangeSet -> RangeSet;
  boundaries : RangeSet -> list Z }.

Inductive VerifierRegion (E : Type) : Type := Absent_ | Partial_ (region : list (option E)).
Arguments Absent_ {E}.
Arguments Partial_ {E}.

Inductive PartialState (T : Type) : Type := Complete (state : T) | AbsentState | Incomplete.
Arguments Complete {T}.
Arguments AbsentState {T}.
Arguments Incomplete {T}.

Section Pages.
Context `{RangeSets}.
Notation LEAF_SIZE := (Z.of_nat MERKLE_LEAF_SIZE).

(** [PageId::from_address]. *)
Definition page_id (address : Z) : Z := Z.land address (Z.lnot (LEAF_SIZE - 1)).
Definition page_offset (id address : Z) : option Z := if address <? id then None else Some (address - id).

Record Page : Type := mkPage { page_data : list Z; available : RangeSet }.

Definition page_from_full (data : list Z) : Page := mkPage data (range_set_from 0 LEAF_SIZE).
Definition page_default : Page := mkPage (replicate MERKLE_LEAF_SIZE 0) range_set_empty.
Definition page_get (p : Page) (start len : Z) : option (list Z) :=
  if saturating_sub LEAF_SIZE start <? len then None
  else if is_superset (available p) (range_set_from start (saturating_add start len)) then
    Some (slice start len (page_data p))
  else None.
(** [put], with the result that says whether the data fits. *)
Definition page_put (p : Page) (start : Z) (data : list Z) : option Page :=
  if saturating_sub LEAF_SIZE start <? Z.of_nat (length data) then None
  else Some (mkPage (splice start data (page_data p))
               (union_with (available p) (range_set_from start (saturating_add (Z.of_nat (length data)) start)))).
Definition is_fully_available (p : Page) : bool := bool_decide (boundaries (available p) = [0; LEAF_SIZE]).

Notation VerifierDynRegion := (gmap Z Page).

(** [DynRegion::from_pages]; collecting into a map keeps the last of equal keys. *)
Definition from_pages (pages : list (Z * list Z)) : VerifierDynRegion :=
  foldl (fun m '(id, data) => <[id := page_from_full data]> m) ∅ pages.

(** The loops of [read_bytes] and [write_bytes]; every iteration takes at least a
    byte off the buffer, whose length is the fuel. *)
Fixpoint read_loop (fuel : nat) (r : VerifierDynRegion) (address len : Z) : result (list Z) Panic :=
  if len =? 0 then Ok []
  else
    match fuel with
    | O => Err Panicked
    | S fuel =>
        let page_index := page_id address in
        match r !! page_index with
        | None => Err NotFound
        | Some page =>
            match page_offset page_index address with
            | None => Err NotFound
            | Some offset =>
                let chunk_length := Z.min len (saturating_sub LEAF_SIZE offset) in
                match page_get page offset chunk_length with
                | None => Err NotFound
                | Some src =>
                    rest <-! read_loop fuel r (saturating_add address chunk_length) (len - chunk_length) ;;
                    Ok (src ++ rest)
                end
            end
        end
    end.
Definition read_bytes (LEN : Z) (r : VerifierDynRegion) (address len : Z) : result (list Z) Panic :=
  if len =? 0 then Ok []
  else if saturating_sub LEN address <? len then Err NotFound
  else read_loop (Z.to_nat len) r address len.

Fixpoint write_loop (fuel : nat) (r : VerifierDynRegion) (address : Z) (buffer : list Z) : result VerifierDynRegion Panic :=
  match buffer with
  | [] => Ok r
  | _ =>
      match fuel with
      | O => Err Panicked
      | S fuel =>
          let page_index := page_id address in
          let page := default page_default (r !! page_index) in
          match page_offset page_index address with
          | None => Err NotFound
          | Some offset =>
              let chunk_length := Z.min (Z.of_nat (length buffer)) (saturating_sub LEAF_SIZE offset) in
              match page_put page offset (take (Z.to_nat chunk_length) buffer) with
              | None => Err NotFound
              | Some page =>
                  write_loop fuel (<[page_index := page]> r) (saturating_add address chunk_length)
                    (drop (Z.to_nat chunk_length) buffer)
              end
          end
      end
  end.
Definition write_bytes (LEN : Z) (r : VerifierDynRegion) (address : Z) (buffer : list Z) : result VerifierDynRegion Panic :=
  match buffer with
  | [] => Ok r
  | _ => if saturating_sub LEN address <? Z.of_nat (length buffer) then Err NotFound
         else write_loop (length buffer) r address buffer
  end.

Definition get_partial_page (r : VerifierDynRegion) (id : Z) : PartialState (list Z) :=
  match r !! id with
  | Some page => if is_fully_available page then Complete (page_data page) else Incomplete
  | None => AbsentState
  end.
End Pages.

Notation VerifierDynRegion := (gmap Z Page).

Module Verifier.
Section Regions.
Context {E : Type}.
Notation region := (VerifierRegion E).

(** The trait [Index]. *)
Definition index (r : region) (i : nat) : result E Panic :=
  match r with
  | Absent_ => Err NotFound
  | Partial_ region => match region !! i with Some (Some value) => Ok value | _ => Err NotFound end
  end.
Definition get_partial_region (r : region) : PartialState (list E) :=
  match r with
  | Absent_ => AbsentState
  | Partial_ region => match mapM (fun value => value) region with Some values => Complete values | None => Incomplete end
  end.

Definition region_read (_ : nat) (r : region) (i : nat) : result (E * region) Panic :=
  value <-! index r i ;; Ok (value, r).
Definition region_read_all (LEN : nat) (r : region) : result (list E * region) Panic :=
  try_map (fun i r => region_read LEN r i) (seq 0 LEN) r.
Definition region_write (LEN : nat) (r : region) (i : nat) (value : E) : result region Panic :=
  let data := match r with Absent_ => replicate LEN None | Partial_ data => data end in
  if (i <? length data)%nat then Ok (Partial_ (<[i := Some value]> data)) else Err Panicked.
Definition region_write_all (LEN : nat) (r : region) (values : list E) : result region Panic :=
  try_fold (fun '(i, value) r => region_write LEN r i value) (imap pair values) r.
Definition region_replace (LEN : nat) (r : region) (i : nat) (value : E) : result (E * region) Panic :=
  '(old, r) <-! region_read LEN r i ;; r <-! region_write LEN r i value ;; Ok (old, r).

Context `{RangeSets}.
Definition dyn_region_read (LEN size : Z) (r : VerifierDynRegion) (address : Z)
  : result (list Z * VerifierDynRegion) Panic :=
  value <-! read_bytes LEN r address size ;; Ok (value, r).
Definition dyn_region_read_all (LEN size : Z) (r : VerifierDynRegion) (address : Z) (count : nat)
  : result (list Z * VerifierDynRegion) Panic :=
  values <-! read_bytes LEN r address (Z.of_nat count * size) ;; Ok (values, r).
Definition dyn_region_write (LEN : Z) (r : VerifierDynRegion) (address : Z) (value : list Z)
  : result VerifierDynRegion Panic := write_bytes LEN r address value.
Definition dyn_region_write_all (LEN size : Z) (r : VerifierDynRegion) (base_address : Z) (values : list (list Z))
  : result VerifierDynRegion Panic :=
  try_fold (fun '(i, value) r => dyn_region_write LEN r (base_address + Z.of_nat i * size) value) (imap pair values) r.

(** Enriched cells wrap a region of one element. *)
Context {D : Type} `{EnrichedValueLinked E D}.
Definition enriched_cell_read_derived (cell : region) : result D Panic := value <-! index cell 0 ;; Ok (derive value).
Definition enriched_cell_write (cell : region) (value : E) : result region Panic := region_write 1 cell 0 value.
End Regions.
End Verifier.

#[export] Instance verifier (E : Type) `{RangeSets} : Manager E := {
  Region := VerifierRegion E; DynRegion := VerifierDynRegion;
  region_read := Verifier.region_read; region_read_all := Verifier.region_read_all;
  region_write := Verifier.region_write; region_write_all := Verifier.region_write_all;
  region_replace := Verifier.region_replace;
  dyn_region_read := Verifier.dyn_region_read; dyn_region_read_all := Verifier.dyn_region_read_all;
  dyn_region_write := Verifier.dyn_region_write; dyn_region_write_all := Verifier.dyn_region_write_all }.
