(* ===== verification/BackendSpec.v ===== *)
(** * State backends: properties of the regions

    What an operation does to a region of [Owned] it does, with the same answer, to
    the region of [ProofGen] that stands for it, and to a region of [Verifier] that
    holds what was accessed; and whatever answer a region of [Verifier] gives from
    partial contents is the one of [Owned]. *)

From stdpp Require Import gmap.
From S2P Require Import Prelude.
From S2P Require Import Hash.
From S2P Require Import Merkle.
From S2P Require Import Backend.

(** ** Operations *)
Inductive RegionOp (E : Type) : Type :=
| RegionRead (index : nat)
| RegionReadAll
| RegionWrite (index : nat) (value : E)
| RegionWriteAll (values : list E)
| RegionReplace (index : nat) (value : E).
Arguments RegionRead {E}.
Arguments RegionReadAll {E}.
Arguments RegionWrite {E}.
Arguments RegionWriteAll {E}.
Arguments RegionReplace {E}.

Inductive DynRegionOp : Type :=
| DynRead (size address : Z)
| DynReadAll (size address : Z) (count : nat)
| DynWrite (address : Z) (value : list Z)
| DynWriteAll (size address : Z) (values : list (list Z)).

Section Operations.
Context {E : Type} (M : Manager E).

(** The elements that an operation returns, and the region after it. *)
Definition region_op (LEN : nat) (op : RegionOp E) (r : Region M) : result (list E * Region M) Panic :=
  match op with
  | RegionRead i => '(value, r) <-! region_read LEN r i ;; Ok ([value], r)
  | RegionReadAll => region_read_all LEN r
  | RegionWrite i value => r <-! region_write LEN r i value ;; Ok ([], r)
  | RegionWriteAll values => r <-! region_write_all LEN r values ;; Ok ([], r)
  | RegionReplace i value => '(old, r) <-! region_replace LEN r i value ;; Ok ([old], r)
  end.
Definition dyn_region_op (LEN : Z) (op : DynRegionOp) (r : DynRegion M) : result (list Z * DynRegion M) Panic :=
  match op with
  | DynRead size address => dyn_region_read LEN size r address
  | DynReadAll size address count => dyn_region_read_all LEN size r address count
  | DynWrite address value => r <-! dyn_region_write LEN r address value ;; Ok ([], r)
  | DynWriteAll size address values => r <-! dyn_region_write_all LEN size r address values ;; Ok ([], r)
  end.
End Operations.

(** Addresses are unsigned, elements have a size, and values that of their type. *)
Definition dyn_op_ok (op : DynRegionOp) : Prop :=
  match op with
  | DynRead size address => 0 < size /\ 0 <= address
  | DynReadAll size address _ => 0 < size /\ 0 <= address
  | DynWrite address value => value <> [] /\ 0 <= address
  | DynWriteAll size address values => 0 < size /\ 0 <= address /\ Forall (fun v => Z.of_nat (length v) = size) values
  end.

(** ** Iterations *)
Lemma try_map_pure {A B S} (f : A -> S -> result (B * S) Panic) (g : A -> B) s l :
  (forall a, a ∈ l -> f a s = Ok (g a, s)) -> try_map f l s = Ok (map g l, s).
Proof.
  intros Hf. induction l as [|a l IH]; [reflexivity|]. cbn.
  rewrite Hf by (left). cbn. rewrite IH by (intros; apply Hf; right; assumption). reflexivity.
Qed.

Lemma map_lookup_seq {A} (d : nat -> A) (l : list A) : (forall i, (i < length l)%nat -> l !! i = Some (d i)) ->
  map d (seq 0 (length l)) = l.
Proof.
  intros Hd. apply list_eq. intros i. rewrite list_lookup_fmap.
  destruct (decide (i < length l)%nat) as [Hi|Hi].
  - rewrite lookup_seq_lt by exact Hi. rewrite Hd by exact Hi. reflexivity.
  - rewrite lookup_seq_ge, lookup_ge_None_2 by lia. reflexivity.
Qed.

(** ** Regions of [ProofGen] *)
Section ProofRegions.
Context {E : Type}.
Implicit Types (s : list E) (g : ProofRegion E) (v : VerifierRegion E).

Definition current g : list E := imap (fun i x => default x (writes g !! i)) (source g).

(** [g] stands for [s], from [s0]. *)
Record stands_for (s0 s : list E) (g : ProofRegion E) : Prop := mkStandsFor {
  stands_source : source g = s0;
  stands_current : current g = s;
  stands_untouched : access g = false -> writes g = ∅ }.

Lemma length_current g : length (current g) = length (source g).
Proof. apply length_imap. Qed.

Lemma current_unwritten g : writes g = ∅ -> current g = source g.
Proof.
  unfold current. intros ->. apply list_eq. intros i. rewrite list_lookup_imap, lookup_empty.
  destruct (source g !! i); reflexivity.
Qed.

Lemma unrecorded_ref_current g i x : current g !! i = Some x -> ProofGen.unrecorded_ref g i = Ok x.
Proof.
  unfold current, ProofGen.unrecorded_ref, Owned.region_ref. rewrite list_lookup_imap.
  destruct (source g !! i) as [y|] eqn:Hs; [|discriminate]. cbn.
  intros [= <-]. destruct (writes g !! i); reflexivity.
Qed.

Lemma current_write s0 w a i x : (i < length s0)%nat ->
  current (mkProofRegion s0 (<[i := x]> w) a) = <[i := x]> (current (mkProofRegion s0 w a)).
Proof.
  intros Hi. apply list_eq. intros j. unfold current. cbn [source writes]. rewrite list_lookup_imap.
  destruct (decide (i = j)) as [<-|Hne].
  - rewrite list_lookup_insert_eq by (rewrite length_imap; exact Hi). rewrite lookup_insert_eq.
    destruct (lookup_lt_is_Some_2 s0 i Hi) as [y ->]. reflexivity.
  - rewrite list_lookup_insert_ne by exact Hne. rewrite list_lookup_imap, lookup_insert_ne by exact Hne. reflexivity.
Qed.

(** Writing the elements from [k] on. *)
Lemma proof_write_all_from LEN s0 values : forall k w, (k + length values <= length s0)%nat ->
  exists w', try_fold (fun '(i, value) r => ProofGen.region_write LEN r i value) (imap (fun i x => (k + i, x)%nat) values)
      (mkProofRegion s0 w true) = Ok (mkProofRegion s0 w' true) /\
    current (mkProofRegion s0 w' true) =
      take k (current (mkProofRegion s0 w true)) ++ values ++ drop (k + length values) (current (mkProofRegion s0 w true)).
Proof.
  induction values as [|x values IH]; intros k w Hk.
  - exists w. split; [reflexivity|]. cbn [length app]. rewrite Nat.add_0_r, take_drop. reflexivity.
  - cbn [length] in Hk. cbn [imap try_fold]. unfold ProofGen.region_write at 1. cbn [ProofGen.set_access_info source writes access result_bind].
    destruct (IH (S k) (<[k := x]> w)) as (w' & Hw & Hc); [lia|].
    exists w'. rewrite Nat.add_0_r. split.
    { rewrite <- Hw. f_equal. apply imap_ext. intros i y _. cbn. f_equal. lia. }
    rewrite Hc, current_write by lia. set (c := current (mkProofRegion s0 w true)).
    assert (Hlc : length c = length s0) by apply length_current.
    rewrite (take_S_r _ _ x) by (apply list_lookup_insert_eq; lia).
    rewrite take_insert_ge by lia. rewrite drop_insert_lt by lia. rewrite <- app_assoc. cbn [app].
    do 3 f_equal. cbn [length]. f_equal. lia.
Qed.

(** ** Regions of [Verifier] *)

(** What the proof holds of a region: all of it when it is accessed in the end. *)
Definition revealed (accessed : bool) (s : list E) : VerifierRegion E :=
  if accessed then Partial_ (map Some s) else Absent_.

Lemma verifier_read s i x : s !! i = Some x -> Verifier.index (Partial_ (map Some s)) i = Ok x.
Proof. cbn. rewrite list_lookup_fmap. intros ->. reflexivity. Qed.

Lemma verifier_write LEN s i x : (i < length s)%nat ->
  Verifier.region_write LEN (Partial_ (map Some s)) i x = Ok (Partial_ (map Some (<[i := x]> s))).
Proof.
  intros Hi. unfold Verifier.region_write. rewrite length_map.
  destruct (Nat.ltb_spec i (length s)); [|lia]. rewrite list_fmap_insert. reflexivity.
Qed.

Lemma verifier_write_all_from LEN values : forall k s, (k + length values <= length s)%nat ->
  try_fold (fun '(i, value) r => Verifier.region_write LEN r i value) (imap (fun i x => (k + i, x)%nat) values)
    (Partial_ (map Some s)) = Ok (Partial_ (map Some (take k s ++ values ++ drop (k + length values) s))).
Proof.
  induction values as [|x values IH]; intros k s Hk.
  - cbn. rewrite Nat.add_0_r, take_drop. reflexivity.
  - cbn [length] in Hk. cbn [imap try_fold]. rewrite Nat.add_0_r, verifier_write by lia. cbn [result_bind].
    transitivity (try_fold (fun '(i, value) r => Verifier.region_write LEN r i value)
      (imap (fun i x => (S k + i, x)%nat) values) (Partial_ (map Some (<[k := x]> s)))).
    { f_equal. apply imap_ext. intros i y _. cbn. f_equal. lia. }
    rewrite IH by (rewrite length_insert; lia). do 3 f_equal.
    rewrite (take_S_r _ _ x) by (apply list_lookup_insert_eq; lia).
    rewrite take_insert_ge by lia. rewrite drop_insert_lt by lia. rewrite <- app_assoc. cbn [app].
    do 3 f_equal. cbn [length]. f_equal. lia.
Qed.

Lemma proof_read LEN g i x : current g !! i = Some x ->
  ProofGen.region_read LEN g i = Ok (x, ProofGen.set_access_info g).
Proof.
  intros Hi. unfold ProofGen.region_read.
  rewrite (unrecorded_ref_current (ProofGen.set_access_info g) i x) by exact Hi. reflexivity.
Qed.
Lemma proof_read_all g : exists g', ProofGen.region_read_all (length (current g)) g = Ok (current g, g') /\
  current g' = current g /\ source g' = source g /\ writes g' = writes g /\
  access g' = (access g || negb (Nat.eqb (length (current g)) 0)).
Proof.
  unfold ProofGen.region_read_all. destruct (current g) as [|x0 l] eqn:Hc.
  { exists g. rewrite orb_false_r. repeat split; assumption. }
  set (d := fun i => default x0 ((x0 :: l) !! i)).
  assert (Hd : forall i, (i < length (x0 :: l))%nat -> (x0 :: l) !! i = Some (d i)).
  { intros i Hi. unfold d. destruct (lookup_lt_is_Some_2 (x0 :: l) i Hi) as [y ->]. reflexivity. }
  assert (Hread : forall i, (i < length (x0 :: l))%nat -> forall h, current h = current g ->
    ProofGen.region_read (length (x0 :: l)) h i = Ok (d i, ProofGen.set_access_info h)).
  { intros i Hi h Hh. apply proof_read. rewrite Hh, Hc. apply Hd, Hi. }
  exists (ProofGen.set_access_info g). split; [|rewrite orb_true_r; repeat split; assumption].
  cbn [length seq try_map]. rewrite (Hread 0%nat) by (reflexivity || (cbn; lia)). cbn [result_bind].
  rewrite (try_map_pure _ d).
  2:{ intros i Hi%elem_of_seq. exact (Hread i ltac:(cbn [length]; lia) (ProofGen.set_access_info g) eq_refl). }
  cbn [result_bind]. do 2 f_equal. transitivity (map d (seq 0 (length (x0 :: l)))); [reflexivity|].
  apply map_lookup_seq, Hd.
Qed.
Lemma verifier_read_all s : Verifier.region_read_all (length s) (Partial_ (map Some s)) = Ok (s, Partial_ (map Some s)).
Proof.
  unfold Verifier.region_read_all. destruct s as [|x0 l]; [reflexivity|].
  set (d := fun i => default x0 ((x0 :: l) !! i)).
  assert (Hd : forall i, (i < length (x0 :: l))%nat -> (x0 :: l) !! i = Some (d i)).
  { intros i Hi. unfold d. destruct (lookup_lt_is_Some_2 (x0 :: l) i Hi) as [y ->]. reflexivity. }
  rewrite (try_map_pure _ d).
  - do 2 f_equal. apply map_lookup_seq, Hd.
  - intros i Hi%elem_of_seq. unfold Verifier.region_read. rewrite (verifier_read _ _ (d i)); [reflexivity|]. apply Hd. lia.
Qed.

(** Writing all the elements. *)
Lemma imap_plain {A B} (f : nat -> A -> B) (l : list A) : imap f l = imap (fun i x => f (0 + i)%nat x) l.
Proof. reflexivity. Qed.
Lemma proof_write_all LEN g values : length values = length (source g) ->
  exists g', ProofGen.region_write_all LEN g values = Ok g' /\ current g' = values /\ source g' = source g /\
    access g' = (access g || negb (Nat.eqb (length values) 0)) /\ (access g' = false -> writes g' = writes g).
Proof.
  intros Hl. unfold ProofGen.region_write_all. destruct values as [|x values].
  { exists g. destruct g as [src w a]. cbn in *. destruct src; [|discriminate]. rewrite orb_false_r. repeat split; reflexivity. }
  set (all := x :: values) in *.
  destruct (proof_write_all_from LEN (source g) all 0 (writes g) ltac:(lia)) as (w' & Hw & Hc).
  exists (mkProofRegion (source g) w' true). split; [|split; [|split; [reflexivity|split; [rewrite orb_true_r; reflexivity | discriminate]]]].
  - rewrite <- Hw. subst all. rewrite (imap_plain pair). cbn [imap try_fold]. unfold ProofGen.region_write at 1 3.
    cbn [ProofGen.set_access_info source writes access result_bind]. reflexivity.
  - rewrite Hc. cbn [take app]. rewrite drop_ge by (rewrite length_current; cbn [source]; lia). apply app_nil_r.
Qed.
Lemma verifier_write_all LEN s values : length values = length s ->
  Verifier.region_write_all LEN (Partial_ (map Some s)) values = Ok (Partial_ (map Some values)).
Proof.
  intros Hl. unfold Verifier.region_write_all. rewrite (imap_plain pair), verifier_write_all_from by lia.
  cbn [take app]. rewrite drop_ge by lia. rewrite app_nil_r. reflexivity.
Qed.

Lemma owned_ref s i x : Owned.region_ref s i = Ok x -> s !! i = Some x.
Proof. unfold Owned.region_ref. destruct (s !! i); [intros [= <-]; reflexivity | discriminate]. Qed.
Lemma owned_write LEN s i x s' : Owned.region_write LEN s i x = Ok s' -> (i < length s)%nat /\ s' = <[i := x]> s.
Proof. unfold Owned.region_write. destruct (Nat.ltb_spec i (length s)); [intros [= <-]; auto | discriminate]. Qed.

(** ** The three managers agree *)
Definition agrees (LEN : nat) (op : RegionOp E) (ans : list E) (s0 s s' : list E) (g : ProofRegion E) : Prop :=
  exists g', region_op (proof_gen E) LEN op g = Ok (ans, g') /\ stands_for s0 s' g' /\
    (access g = true -> access g' = true) /\
    (forall (R : RangeSets) a, (access g' = true -> a = true) ->
      region_op (verifier E) LEN op (revealed a s) = Ok (ans, revealed a s')).

Lemma agrees_write op LEN ans s0 s g i x : stands_for s0 s g -> (i < length s)%nat -> LEN = length s ->
  region_op (proof_gen E) LEN op g = Ok (ans, mkProofRegion (source g) (<[i := x]> (writes g)) true) ->
  (forall (R : RangeSets), region_op (verifier E) LEN op (Partial_ (map Some s)) = Ok (ans, Partial_ (map Some (<[i := x]> s)))) ->
  agrees LEN op ans s0 s (<[i := x]> s) g.
Proof.
  intros [Hs Hc Hu] Hi HL Hop Hv. eexists. split; [exact Hop|]. split; [|split; [reflexivity|]].
  - constructor; [exact Hs | | discriminate]. destruct g as [src w a]. cbn [source writes access] in *.
    rewrite current_write.
    + f_equal. rewrite <- Hc. reflexivity.
    + rewrite <- Hc, length_current in Hi. exact Hi.
  - intros R a Ha. rewrite (Ha eq_refl). apply Hv.
Qed.

Lemma region_op_agrees LEN op s0 s g ans s' : LEN = length s -> stands_for s0 s g ->
  region_op (owned E) LEN op s = Ok (ans, s') -> length s' = length s /\ agrees LEN op ans s0 s s' g.
Proof.
  intros HL Hg. pose proof Hg as [Hs Hc Hu]. destruct op as [i| |i x|values|i x]; cbn [region_op owned region_read
    region_read_all region_write region_write_all region_replace].
  - unfold Owned.region_read. destruct (Owned.region_ref s i) as [y|] eqn:Hi; cbn; [|discriminate]. apply owned_ref in Hi.
    intros [= <- <-]. split; [reflexivity|].
    eexists. cbn [region_op proof_gen region_read]. rewrite (proof_read _ _ _ y) by (rewrite Hc; exact Hi). split; [reflexivity|].
    split; [constructor; [exact Hs | exact Hc | discriminate]|]. split; [reflexivity|]. intros R a Ha. rewrite (Ha eq_refl).
    cbn [region_op verifier region_read revealed]. unfold Verifier.region_read. rewrite (verifier_read _ _ _ Hi). reflexivity.
  - intros [= <- <-]. split; [reflexivity|]. destruct (proof_read_all g) as (g' & Hg' & Hc' & Hs' & Hw' & Ha').
    rewrite <- Hc in HL. exists g'. cbn [region_op proof_gen region_read_all]. rewrite HL, Hg'. rewrite Hc in *.
    split; [reflexivity|]. split; [constructor|split].
    + congruence. + congruence. + rewrite Ha', Hw'. intros [Hf _]%orb_false_iff. apply Hu, Hf.
    + rewrite Ha'. intros ->. reflexivity.
    + intros R a Ha. cbn [region_op verifier region_read_all]. destruct a; [apply verifier_read_all|].
      destruct s; [reflexivity|]. rewrite Ha' in Ha. cbn in Ha. rewrite orb_true_r in Ha. discriminate (Ha eq_refl).
  - destruct (Owned.region_write LEN s i x) as [r|] eqn:Hw; [|discriminate]. cbn. intros [= <- <-].
    apply owned_write in Hw as [Hi ->]. split; [apply length_insert|].
    apply agrees_write; [exact Hg | exact Hi | exact HL | reflexivity|].
    intros R. cbn [region_op verifier region_write]. rewrite verifier_write by exact Hi. reflexivity.
  - unfold Owned.region_write_all. destruct (Nat.eqb_spec (length values) (length s)) as [Hl|]; [|discriminate]. cbn.
    intros [= <- <-]. split; [exact Hl|].
    assert (Hlg : length values = length (source g)) by (rewrite Hl, <- Hc; apply length_current).
    destruct (proof_write_all LEN g values Hlg) as (g' & Hg' & Hc' & Hs' & Ha' & Hu').
    exists g'. cbn [region_op proof_gen region_write_all]. rewrite Hg'. split; [reflexivity|]. split; [constructor|split].
    + congruence. + exact Hc'. + intros Hf. rewrite Hu' by exact Hf. rewrite Ha' in Hf. apply orb_false_iff in Hf as [Hf _]. apply Hu, Hf.
    + rewrite Ha'. intros ->. reflexivity.
    + intros R a Ha. cbn [region_op verifier region_write_all]. destruct a; cbn [revealed].
      * rewrite verifier_write_all by exact Hl. reflexivity.
      * destruct values; [reflexivity|]. rewrite Ha' in Ha. cbn in Ha. rewrite orb_true_r in Ha. discriminate (Ha eq_refl).
  - unfold Owned.region_replace. destruct (Owned.region_ref s i) as [y|] eqn:Hi; cbn; [|discriminate]. apply owned_ref in Hi.
    destruct (Owned.region_write LEN s i x) as [r|] eqn:Hw; [|discriminate]. cbn. intros [= <- <-].
    apply owned_write in Hw as [Hlt ->]. split; [apply length_insert|].
    apply agrees_write; [exact Hg | exact Hlt | exact HL | |].
    + cbn [region_op proof_gen region_replace]. unfold ProofGen.region_replace.
      rewrite (proof_read _ _ _ y) by (rewrite Hc; exact Hi). reflexivity.
    + intros R. cbn [region_op verifier region_replace]. unfold Verifier.region_replace, Verifier.region_read.
      rewrite (verifier_read _ _ _ Hi). cbn. rewrite verifier_write by exact Hlt. reflexivity.
Qed.

(** ** Partial regions

    A region of the verifier, some of whose elements may be missing, is a part of a
    region [s], and only a present one may differ from the initial [s0]. *)
Definition part_of (s0 s : list E) v : Prop :=
  match v with
  | Absent_ => s = s0
  | Partial_ l => length l = length s /\ (forall i x, l !! i = Some (Some x) -> s !! i = Some x)
  end.

Lemma part_of_index s0 s v i x : part_of s0 s v -> Verifier.index v i = Ok x -> s !! i = Some x.
Proof.
  destruct v as [|l]; [discriminate|]. intros [_ Hp]. cbn. destruct (l !! i) as [[y|]|] eqn:Hl; [|discriminate..].
  intros [= <-]. apply Hp, Hl.
Qed.
Lemma part_of_read_all LEN s0 s v xs v' : LEN = length s -> part_of s0 s v ->
  Verifier.region_read_all LEN v = Ok (xs, v') -> xs = s /\ v' = v.
Proof.
  intros -> Hp. unfold Verifier.region_read_all.
  assert (Hall : forall n k ys, try_map (fun i r => Verifier.region_read (length s) r i) (seq k n) v = Ok (ys, v') -> (k + n)%nat = length s ->
    ys = drop k s /\ v' = v).
  { induction n as [|n IH]; intros k ys.
    - cbn. intros [= <- <-] Hk. rewrite drop_ge by lia. split; reflexivity.
    - cbn [seq try_map]. unfold Verifier.region_read at 1. destruct (Verifier.index v k) as [x|] eqn:Hx; [|discriminate].
      cbn [result_bind]. destruct (try_map _ (seq (S k) n) v) as [[zs w]|] eqn:Hm; [|discriminate]. cbn. intros [= <- <-] Hk.
      destruct (IH (S k) zs Hm ltac:(lia)) as [-> ->]. split; [|reflexivity].
      symmetry. apply drop_S. exact (part_of_index s0 s v k x Hp Hx). }
  intros H. apply Hall in H; [|reflexivity]. exact H.
Qed.
Lemma part_of_write LEN s0 s v i x v' : LEN = length s -> part_of s0 s v ->
  Verifier.region_write LEN v i x = Ok v' -> part_of s0 (<[i := x]> s) v'.
Proof.
  intros -> Hp. unfold Verifier.region_write.
  set (data := match v with Absent_ => _ | Partial_ data => data end).
  assert (Hd : length data = length s /\ (forall j y, data !! j = Some (Some y) -> s !! j = Some y)).
  { subst data. destruct v as [|l]; [|exact Hp]. rewrite length_replicate. split; [reflexivity|].
    intros j y Hj. apply lookup_replicate in Hj as [? _]. discriminate. }
  destruct Hd as [Hl Hd]. destruct (Nat.ltb_spec i (length data)); [|discriminate]. intros [= <-].
  split; [rewrite !length_insert; exact Hl|]. intros j y. destruct (decide (i = j)) as [<-|Hne].
  - rewrite !list_lookup_insert_eq by lia. congruence.
  - rewrite !list_lookup_insert_ne by exact Hne. apply Hd.
Qed.
Lemma part_of_write_all_from LEN s0 values : forall k s v v', LEN = length s -> (k + length values <= length s)%nat ->
  part_of s0 s v ->
  try_fold (fun '(i, value) r => Verifier.region_write LEN r i value) (imap (fun i x => (k + i, x)%nat) values) v = Ok v' ->
  part_of s0 (take k s ++ values ++ drop (k + length values) s) v'.
Proof.
  induction values as [|x values IH]; intros k s v v' HL Hk Hp.
  - cbn. intros [= <-]. rewrite Nat.add_0_r, take_drop. exact Hp.
  - cbn [length] in Hk. cbn [imap try_fold]. rewrite Nat.add_0_r.
    destruct (Verifier.region_write LEN v k x) as [w|] eqn:Hw; [|discriminate]. cbn [result_bind]. intros H.
    apply (part_of_write _ _ _ _ _ _ _ HL Hp) in Hw.
    assert (H' : try_fold (fun '(i, value) r => Verifier.region_write LEN r i value) (imap (fun i y => (S k + i, y)%nat) values) w = Ok v').
    { rewrite <- H. f_equal. apply imap_ext. intros i y _. cbn. f_equal. lia. }
    apply (IH _ (<[k := x]> s)) in H'; [|rewrite length_insert; lia.. | exact Hw].
    rewrite (take_S_r _ _ x) in H' by (apply list_lookup_insert_eq; lia).
    rewrite take_insert_ge in H' by lia. rewrite drop_insert_lt in H' by lia. rewrite <- app_assoc in H'. cbn [app] in H'.
    cbn [length app]. replace (k + S (length values))%nat with (S k + length values)%nat by lia. exact H'.
Qed.

Lemma region_op_partial `{RangeSets} LEN op s0 s v ans s' ans' v' : LEN = length s -> part_of s0 s v ->
  region_op (owned E) LEN op s = Ok (ans, s') -> region_op (verifier E) LEN op v = Ok (ans', v') ->
  ans' = ans /\ part_of s0 s' v'.
Proof.
  intros HL Hp. destruct op as [i| |i x|values|i x]; cbn [region_op owned verifier region_read
    region_read_all region_write region_write_all region_replace].
  - unfold Owned.region_read, Verifier.region_read. destruct (Owned.region_ref s i) as [y|] eqn:Hi; [|discriminate]. apply owned_ref in Hi.
    destruct (Verifier.index v i) as [z|] eqn:Hz; [|discriminate]. cbn. intros [= <- <-] [= <- <-].
    apply (part_of_index _ _ _ _ _ Hp) in Hz. split; [congruence | exact Hp].
  - intros [= <- <-] Hv. apply (part_of_read_all _ _ _ _ _ _ HL Hp) in Hv as [-> ->]. split; [reflexivity | exact Hp].
  - destruct (Owned.region_write LEN s i x) as [r|] eqn:Hw; [|discriminate]. apply owned_write in Hw as [Hi ->].
    destruct (Verifier.region_write LEN v i x) as [w|] eqn:Hv; [|discriminate]. cbn. intros [= <- <-] [= <- <-].
    split; [reflexivity | exact (part_of_write _ _ _ _ _ _ _ HL Hp Hv)].
  - unfold Owned.region_write_all. destruct (Nat.eqb_spec (length values) (length s)) as [Hl|]; [|discriminate].
    destruct (Verifier.region_write_all LEN v values) as [w|] eqn:Hv; [|discriminate]. cbn. intros [= <- <-] [= <- <-].
    split; [reflexivity|]. unfold Verifier.region_write_all in Hv. rewrite (imap_plain pair) in Hv.
    apply (part_of_write_all_from _ s0 _ 0 s) in Hv; [|exact HL | lia | exact Hp].
    cbn [take app] in Hv. rewrite drop_ge, app_nil_r in Hv by lia. exact Hv.
  - unfold Owned.region_replace, Verifier.region_replace, Verifier.region_read.
    destruct (Owned.region_ref s i) as [y|] eqn:Hi; [|discriminate]. apply owned_ref in Hi. cbn [result_bind].
    destruct (Owned.region_write LEN s i x) as [r|] eqn:Hw; [|discriminate]. apply owned_write in Hw as [Hlt ->].
    destruct (Verifier.index v i) as [z|] eqn:Hz; [|discriminate]. cbn [result_bind].
    destruct (Verifier.region_write LEN v i x) as [w|] eqn:Hv; [|discriminate]. cbn. intros [= <- <-] [= <- <-].
    apply (part_of_index _ _ _ _ _ Hp) in Hz. split; [congruence|]. exact (part_of_write _ _ _ _ _ _ _ HL Hp Hv).
Qed.

(** A region with everything present is a part of what it holds. *)
Lemma revealed_part a s0 s : (a = false -> s = s0) -> part_of s0 s (revealed a s).
Proof.
  destruct a; cbn; [intros _|auto]. rewrite length_map. split; [reflexivity|].
  intros i x. rewrite list_lookup_fmap. destruct (s !! i); cbn; congruence.
Qed.
Lemma get_partial_region_revealed a s :
  Verifier.get_partial_region (revealed a s) = if a then Complete s else AbsentState.
Proof.
  destruct a; [|reflexivity]. cbn. assert (Hm : mapM (fun value : option E => value) (map Some s) = Some s).
  { apply mapM_Some_2. apply Forall2_fmap_l. apply Forall_Forall2_diag. apply Forall_true. reflexivity. }
  rewrite Hm. reflexivity.
Qed.
Lemma get_partial_region_part s0 s v : part_of s0 s v ->
  match Verifier.get_partial_region v with
  | Complete values => values = s
  | AbsentState => s = s0
  | Incomplete => True
  end.
Proof.
  destruct v as [|l]; [trivial|]. intros [Hl Hp]. cbn. destruct (mapM _ l) as [values|] eqn:Hm; [|trivial].
  apply mapM_Some_1 in Hm. apply list_eq_same_length with (length l); [symmetry; exact Hl | symmetry; exact (Forall2_length _ _ _ Hm) |].
  intros i x y Hi Hx Hy. destruct (Forall2_lookup_r _ _ _ _ _ Hm Hx) as (o & Ho & Hox). subst o.
  apply Hp in Ho. congruence.
Qed.
End ProofRegions.
