(* ===== verification/DynBackendSpec.v ===== *)
(** * State backends: properties of the dynamic regions

    The pages of the verifier, byte by byte, and the agreement of the three managers
    on dynamic regions.  The sets of ranges are those of a crate: the laws assumed
    of them ([RangeSetLaws]) say which addresses a set has. *)

From stdpp Require Import gmap.
From S2P Require Import Prelude.
From S2P Require Import Hash.
From S2P Require Import Merkle.
From S2P Require Import Backend.
From S2P Require Import BackendSpec.

(** ** Slices *)
Lemma slice_lookup first len bytes i : 0 <= first -> (i < Z.to_nat len)%nat ->
  slice first len bytes !! i = bytes !! (Z.to_nat first + i)%nat.
Proof. intros Hf Hi. unfold slice. rewrite lookup_take_lt by exact Hi. apply lookup_drop. Qed.
Lemma slice_length first len bytes : 0 <= first -> 0 <= len -> first + len <= Z.of_nat (length bytes) ->
  length (slice first len bytes) = Z.to_nat len.
Proof. intros. unfold slice. rewrite length_take, length_drop. lia. Qed.
Lemma slice_app first len1 len2 bytes : 0 <= first -> 0 <= len1 -> 0 <= len2 ->
  slice first (len1 + len2) bytes = slice first len1 bytes ++ slice (first + len1) len2 bytes.
Proof.
  intros. unfold slice. rewrite Z2Nat.inj_add by lia. rewrite <- take_take_drop, drop_drop.
  do 3 f_equal. lia.
Qed.

Lemma splice_length first data bytes : 0 <= first -> first + Z.of_nat (length data) <= Z.of_nat (length bytes) ->
  length (splice first data bytes) = length bytes.
Proof. intros. unfold splice. rewrite !length_app, length_take, length_drop. lia. Qed.
Lemma splice_lookup first data bytes i : 0 <= first -> first + Z.of_nat (length data) <= Z.of_nat (length bytes) ->
  splice first data bytes !! i =
    if decide (Z.to_nat first <= i < Z.to_nat first + length data)%nat then data !! (i - Z.to_nat first)%nat else bytes !! i.
Proof.
  intros Hf Hl. unfold splice. destruct (decide _) as [Hi|Hi].
  - rewrite lookup_app_r by (rewrite length_take; lia). rewrite length_take, Nat.min_l by lia.
    rewrite lookup_app_l by lia. reflexivity.
  - destruct (decide (i < Z.to_nat first)%nat).
    + rewrite lookup_app_l by (rewrite length_take; lia). apply lookup_take_lt. lia.
    + rewrite lookup_app_r by (rewrite length_take; lia). rewrite length_take, Nat.min_l by lia.
      rewrite lookup_app_r by lia. rewrite lookup_drop. f_equal. lia.
Qed.
Lemma splice_nil first bytes : splice first [] bytes = bytes.
Proof. unfold splice. cbn [length app]. rewrite Nat.add_0_r. apply take_drop. Qed.

(** ** The laws of the sets of ranges *)
Class RangeSetLaws `{RangeSets} : Type := {
  range_mem : RangeSet -> Z -> Prop;
  range_mem_empty x : ~ range_mem range_set_empty x;
  range_mem_from first past x : range_mem (range_set_from first past) x <-> first <= x < past;
  range_mem_union s t x : range_mem (union_with s t) x <-> range_mem s x \/ range_mem t x;
  is_superset_spec s t : is_superset s t = true <-> (forall x, range_mem t x -> range_mem s x);
  boundaries_spec s n : 0 < n -> boundaries s = [0; n] <-> (forall x, range_mem s x <-> 0 <= x < n) }.

Notation LEAF_SIZE := (Z.of_nat MERKLE_LEAF_SIZE).
Lemma leaf_size_eq : LEAF_SIZE = 4096.
Proof. reflexivity. Qed.

(** ** Pages *)
Section Pages.
Context `{RangeSetLaws}.

Lemma page_id_eq a : page_id a = 4096 * (a / 4096).
Proof.
  unfold page_id. rewrite leaf_size_eq. change (Z.lnot (4096 - 1)) with (Z.lnot (Z.ones 12)).
  rewrite <- Z.ldiff_land.
  rewrite Z.ldiff_ones_r by lia. rewrite Z.shiftl_mul_pow2, Z.shiftr_div_pow2 by lia. change (2 ^ 12) with 4096. lia.
Qed.
Lemma page_split a j : 0 <= j -> a mod 4096 + j < 4096 -> (a + j) / 4096 = a / 4096 /\ (a + j) mod 4096 = a mod 4096 + j.
Proof.
  intros Hj Hlt. pose proof (Z.div_mod a 4096 ltac:(lia)) as Hdm. pose proof (Z.mod_pos_bound a 4096 ltac:(lia)).
  split; symmetry; [apply Z.div_unique with (a mod 4096 + j) | apply Z.mod_unique with (a / 4096)]; lia.
Qed.
Lemma page_id_split a j : 0 <= j -> a mod 4096 + j < 4096 -> page_id (a + j) = page_id a.
Proof. intros Hj Hlt. rewrite !page_id_eq. destruct (page_split a j Hj Hlt) as [-> _]. reflexivity. Qed.
Lemma page_id_aligned k j : 0 <= j < 4096 -> page_id (4096 * k + j) = 4096 * k /\ (4096 * k + j) mod 4096 = j.
Proof.
  intros Hj. rewrite page_id_eq. split; [f_equal; symmetry; apply Z.div_unique with j | symmetry; apply Z.mod_unique with k]; lia.
Qed.

(** A byte of a page, when it is available. *)
Definition byte_of (p : Page) (offset : Z) : option Z :=
  if is_superset (available p) (range_set_from offset (offset + 1)) then page_data p !! Z.to_nat offset else None.

Definition page_ok (p : Page) : Prop :=
  length (page_data p) = MERKLE_LEAF_SIZE /\ (forall x, range_mem (available p) x -> 0 <= x < LEAF_SIZE).

Lemma available_iff p offset :
  is_superset (available p) (range_set_from offset (offset + 1)) = true <-> range_mem (available p) offset.
Proof.
  rewrite is_superset_spec. split; intros Hs.
  - apply Hs, range_mem_from. lia.
  - intros x Hx%range_mem_from. replace x with offset by lia. exact Hs.
Qed.
Lemma byte_of_some p offset : page_ok p -> byte_of p offset <> None <-> range_mem (available p) offset.
Proof.
  intros [Hl Hin]. unfold byte_of. rewrite <- available_iff. destruct (is_superset _ _) eqn:Hs; [|split; congruence].
  apply available_iff, Hin in Hs. unfold MERKLE_LEAF_SIZE in *. split; [reflexivity|]. intros _.
  apply not_eq_None_Some, lookup_lt_is_Some. lia.
Qed.
Lemma byte_of_eq p offset b : byte_of p offset = Some b -> page_data p !! Z.to_nat offset = Some b.
Proof. unfold byte_of. destruct (is_superset _ _); [trivial | discriminate]. Qed.

Lemma page_get_ok p start len : page_ok p -> 0 <= start -> 0 < len -> start + len <= LEAF_SIZE ->
  (forall i, 0 <= i < len -> byte_of p (start + i) <> None) -> page_get p start len = Some (slice start len (page_data p)).
Proof.
  intros Hp Hs Hlen Hfit Hall. rewrite leaf_size_eq in *. unfold page_get, saturating_sub, saturating_add. rewrite leaf_size_eq.
  destruct (Z.ltb_spec (Z.max 0 (4096 - start)) len); [lia|]. rewrite Z.min_r by (unfold usize_MAX; lia).
  assert (Hsup : is_superset (available p) (range_set_from start (start + len)) = true).
  { apply is_superset_spec. intros x Hx%range_mem_from. apply (byte_of_some p x Hp).
    replace x with (start + (x - start)) by lia. apply Hall. lia. }
  rewrite Hsup. reflexivity.
Qed.
Lemma page_get_inv p start len bs : page_ok p -> 0 <= start -> 0 < len -> page_get p start len = Some bs ->
  start + len <= LEAF_SIZE /\ bs = slice start len (page_data p) /\
  (forall i, 0 <= i < len -> byte_of p (start + i) = page_data p !! Z.to_nat (start + i)).
Proof.
  intros Hp Hs Hlen. rewrite leaf_size_eq in *. unfold page_get, saturating_sub, saturating_add. rewrite leaf_size_eq.
  destruct (Z.ltb_spec (Z.max 0 (4096 - start)) len); [discriminate|]. rewrite Z.min_r by (unfold usize_MAX; lia).
  destruct (is_superset _ _) eqn:Hsup; [|discriminate]. intros [= <-]. split; [lia|]. split; [reflexivity|].
  intros i Hi. unfold byte_of. rewrite is_superset_spec in Hsup.
  assert (Ha : is_superset (available p) (range_set_from (start + i) (start + i + 1)) = true).
  { apply is_superset_spec. intros x Hx%range_mem_from. apply Hsup, range_mem_from. lia. }
  rewrite Ha. reflexivity.
Qed.

Lemma page_put_ok p start data : page_ok p -> 0 <= start -> start + Z.of_nat (length data) <= LEAF_SIZE ->
  exists p', page_put p start data = Some p' /\ page_ok p' /\
    (forall offset, 0 <= offset -> byte_of p' offset =
      if decide (start <= offset < start + Z.of_nat (length data)) then data !! Z.to_nat (offset - start) else byte_of p offset).
Proof.
  intros [Hl Hin] Hs Hfit. rewrite leaf_size_eq in *. unfold page_put, saturating_sub, saturating_add. rewrite leaf_size_eq.
  destruct (Z.ltb_spec (Z.max 0 (4096 - start)) (Z.of_nat (length data))); [lia|].
  rewrite Z.min_r by (unfold usize_MAX; lia). eexists. split; [reflexivity|].
  assert (Hlen : start + Z.of_nat (length data) <= Z.of_nat (length (page_data p))) by (rewrite Hl; unfold MERKLE_LEAF_SIZE; lia).
  split; [split; cbn [page_data available]|].
  - rewrite splice_length by lia. exact Hl.
  - intros x [Hx|Hx%range_mem_from]%range_mem_union; [apply Hin, Hx | rewrite leaf_size_eq; lia].
  - intros offset Ho. unfold byte_of at 1. cbn [page_data available]. rewrite splice_lookup by lia.
    assert (Hav : is_superset (union_with (available p) (range_set_from start (Z.of_nat (length data) + start)))
      (range_set_from offset (offset + 1)) = true <-> range_mem (available p) offset \/ start <= offset < start + Z.of_nat (length data)).
    { etransitivity; [exact (available_iff (mkPage [] _) offset)|]. cbn [available].
      rewrite range_mem_union, range_mem_from. split; (intros [?|?]; [left; assumption | right; lia]). }
    destruct (decide (start <= offset < start + Z.of_nat (length data))) as [Hr|Hr].
    + rewrite (proj2 Hav) by (right; exact Hr). rewrite decide_True by lia. f_equal. lia.
    + rewrite decide_False by lia. unfold byte_of. destruct (is_superset (available p) _) eqn:Ha.
      * apply available_iff in Ha. rewrite (proj2 Hav) by (left; exact Ha). reflexivity.
      * destruct (is_superset (union_with _ _) _) eqn:Hu; [|reflexivity]. destruct (proj1 Hav eq_refl) as [Ha'|?]; [|contradiction].
        apply available_iff in Ha'. congruence.
Qed.

Lemma page_default_ok : page_ok page_default.
Proof. split; [apply length_replicate|]. intros x Hx. exfalso. exact (range_mem_empty x Hx). Qed.
Lemma byte_of_default offset : byte_of page_default offset = None.
Proof.
  unfold byte_of. destruct (is_superset _ _) eqn:Hs; [|reflexivity]. apply available_iff in Hs.
  exfalso. exact (range_mem_empty _ Hs).
Qed.
Lemma page_full_ok data : length data = MERKLE_LEAF_SIZE -> page_ok (page_from_full data).
Proof. intros Hl. split; [exact Hl|]. intros x Hx%range_mem_from. exact Hx. Qed.
Lemma byte_of_full data offset : 0 <= offset < LEAF_SIZE -> byte_of (page_from_full data) offset = data !! Z.to_nat offset.
Proof.
  intros Ho. unfold byte_of. rewrite (proj2 (available_iff (page_from_full data) offset)); [reflexivity|].
  apply range_mem_from. exact Ho.
Qed.
Lemma fully_available_iff p : page_ok p ->
  is_fully_available p = true <-> (forall offset, 0 <= offset < LEAF_SIZE -> byte_of p offset <> None).
Proof.
  intros Hp. pose proof Hp as [Hl Hin]. unfold is_fully_available. rewrite bool_decide_eq_true, boundaries_spec by (rewrite leaf_size_eq; lia).
  split.
  - intros Hb offset Ho. apply byte_of_some; [exact Hp|]. apply Hb, Ho.
  - intros Hb x. split; [apply Hin|]. intros Hx. apply byte_of_some; [exact Hp | apply Hb, Hx].
Qed.
End Pages.

(** ** Dynamic regions of [Verifier], byte by byte *)
Section VerifierBytes.
Context `{RangeSetLaws}.

Definition vbyte (r : VerifierDynRegion) (a : Z) : option Z :=
  match r !! page_id a with Some page => byte_of page (a mod 4096) | None => None end.
Definition pages_ok (r : VerifierDynRegion) : Prop := map_Forall (fun _ p => page_ok p) r.

(** [bytes] are present from [a] on. *)
Definition holds (r : VerifierDynRegion) (a : Z) (bytes : list Z) : Prop :=
  forall i b, bytes !! i = Some b -> vbyte r (a + Z.of_nat i) = Some b.

Lemma holds_app r a bs1 bs2 : holds r a bs1 -> holds r (a + Z.of_nat (length bs1)) bs2 -> holds r a (bs1 ++ bs2).
Proof.
  intros H1 H2 i b [Hb|[Hi Hb]]%lookup_app_Some; [apply H1, Hb|].
  apply H2 in Hb. rewrite <- Hb. f_equal. lia.
Qed.

Lemma page_id_offset a : 0 <= a -> page_offset (page_id a) a = Some (a mod 4096).
Proof.
  intros Ha. unfold page_offset. rewrite page_id_eq. pose proof (Z.div_mod a 4096 ltac:(lia)).
  pose proof (Z.mod_pos_bound a 4096 ltac:(lia)). destruct (Z.ltb_spec a (4096 * (a / 4096))); [lia|]. f_equal. lia.
Qed.
Lemma vbyte_split r a j : 0 <= j -> a mod 4096 + j < 4096 ->
  vbyte r (a + j) = match r !! page_id a with Some page => byte_of page (a mod 4096 + j) | None => None end.
Proof.
  intros Hj Hlt. unfold vbyte. rewrite page_id_split by assumption. destruct (page_split a j Hj Hlt) as [_ ->]. reflexivity.
Qed.

Lemma read_loop_ok fuel r : pages_ok r -> forall a len, 0 <= a -> 0 <= len <= Z.of_nat fuel -> a + len <= usize_MAX ->
  (forall i, 0 <= i < len -> vbyte r (a + i) <> None) -> exists bs, read_loop fuel r a len = Ok bs.
Proof.
  intros Hr. induction fuel as [|fuel IH]; intros a len Ha Hlen Hmax Hall; cbn [read_loop].
  - destruct (Z.eqb_spec len 0); [eexists; reflexivity | lia].
  - destruct (Z.eqb_spec len 0) as [|Hne]; [eexists; reflexivity|].
    pose proof (Z.mod_pos_bound a 4096 ltac:(lia)) as Hoff. rewrite page_id_offset by lia.
    rewrite leaf_size_eq. unfold saturating_sub. rewrite (Z.max_r 0) by lia.
    set (chunk := Z.min len (4096 - a mod 4096)).
    pose proof (Hall 0 ltac:(lia)) as Hfirst. rewrite vbyte_split in Hfirst by lia.
    destruct (r !! page_id a) as [page|] eqn:Hp; [|congruence]. pose proof (Hr _ _ Hp) as Hpage.
    rewrite page_get_ok; [|exact Hpage | lia | lia | rewrite leaf_size_eq; lia |].
    2:{ intros i Hi. specialize (Hall i ltac:(lia)). rewrite vbyte_split, Hp in Hall by lia. exact Hall. }
    unfold saturating_add. rewrite Z.min_r by lia.
    destruct (IH (a + chunk) (len - chunk)) as [bs Hbs]; [lia.. | |].
    { intros i Hi. replace (a + chunk + i) with (a + (chunk + i)) by lia. apply Hall. lia. }
    rewrite Hbs. eexists. reflexivity.
Qed.
Lemma read_loop_inv fuel r : pages_ok r -> forall a len bs, 0 <= a -> 0 <= len <= Z.of_nat fuel -> a + len <= usize_MAX ->
  read_loop fuel r a len = Ok bs -> Z.of_nat (length bs) = len /\ holds r a bs.
Proof.
  intros Hr. induction fuel as [|fuel IH]; intros a len bs Ha Hlen Hmax; cbn [read_loop].
  - destruct (Z.eqb_spec len 0) as [->|]; [|discriminate]. intros [= <-]. split; [reflexivity|]. intros i b Hb. discriminate.
  - destruct (Z.eqb_spec len 0) as [->|Hne].
    { intros [= <-]. split; [reflexivity|]. intros i b Hb. discriminate. }
    pose proof (Z.mod_pos_bound a 4096 ltac:(lia)) as Hoff. rewrite page_id_offset by lia.
    rewrite leaf_size_eq. unfold saturating_sub. rewrite (Z.max_r 0) by lia.
    set (chunk := Z.min len (4096 - a mod 4096)).
    destruct (r !! page_id a) as [page|] eqn:Hp; [|discriminate]. pose proof (Hr _ _ Hp) as Hpage.
    destruct (page_get page (a mod 4096) chunk) as [src|] eqn:Hget; [|discriminate].
    apply page_get_inv in Hget as (Hfit & -> & Hbytes); [|exact Hpage | lia | lia].
    unfold saturating_add. rewrite Z.min_r by lia.
    destruct (read_loop fuel r (a + chunk) (len - chunk)) as [rest|] eqn:Hrest; [|discriminate]. cbn. intros [= <-].
    apply IH in Hrest as [Hl Hrest]; [|lia..]. pose proof Hpage as [Hpl _].
    assert (Hsl : length (slice (a mod 4096) chunk (page_data page)) = Z.to_nat chunk).
    { apply slice_length; [lia.. | rewrite Hpl; rewrite leaf_size_eq in *; lia]. }
    split; [rewrite length_app, Hsl; lia|].
    apply holds_app; [|rewrite Hsl, Z2Nat.id by lia; exact Hrest].
    intros i b Hb. pose proof (lookup_lt_Some _ _ _ Hb) as Hi. rewrite Hsl in Hi. rewrite slice_lookup in Hb by lia.
    rewrite vbyte_split, Hp, Hbytes by lia. rewrite <- Hb. f_equal. lia.
Qed.

Lemma read_bytes_ok LEN r a len : pages_ok r -> 0 <= a -> 0 <= len -> a + len <= LEN -> LEN <= usize_MAX ->
  (forall i, 0 <= i < len -> vbyte r (a + i) <> None) -> exists bs, read_bytes LEN r a len = Ok bs.
Proof.
  intros. unfold read_bytes. destruct (Z.eqb_spec len 0); [eexists; reflexivity|]. unfold saturating_sub.
  destruct (Z.ltb_spec (Z.max 0 (LEN - a)) len); [lia|]. apply read_loop_ok; try assumption; lia.
Qed.
Lemma read_bytes_inv LEN r a len bs : pages_ok r -> 0 <= a -> 0 <= len -> LEN <= usize_MAX ->
  read_bytes LEN r a len = Ok bs -> Z.of_nat (length bs) = len /\ holds r a bs.
Proof.
  intros Hr Ha Hlen Hmax. unfold read_bytes. destruct (Z.eqb_spec len 0) as [->|].
  { intros [= <-]. split; [reflexivity|]. intros i b Hb. discriminate. }
  unfold saturating_sub. destruct (Z.ltb_spec (Z.max 0 (LEN - a)) len); [discriminate|].
  apply read_loop_inv; [exact Hr | lia..].
Qed.

(** [r'] is [r] with [buffer] written at [a]. *)
Record written (r : VerifierDynRegion) (a : Z) (buffer : list Z) (r' : VerifierDynRegion) : Prop := mkWritten {
  written_ok : pages_ok r';
  written_byte x : 0 <= x -> vbyte r' x =
    if decide (a <= x < a + Z.of_nat (length buffer)) then buffer !! Z.to_nat (x - a) else vbyte r x;
  written_present id : is_Some (r' !! id) <->
    is_Some (r !! id) \/ exists x, a <= x < a + Z.of_nat (length buffer) /\ page_id x = id }.

Lemma dyn_written_nil r a : pages_ok r -> written r a [] r.
Proof.
  intros Hr. constructor; [exact Hr | |]; cbn [length].
  - intros x Hx. rewrite decide_False by lia. reflexivity.
  - intros id. split; [auto|]. intros [?|(x & Hx & _)]; [assumption | lia].
Qed.

Lemma written_page r a buffer p : pages_ok r -> 0 <= a -> buffer <> [] -> a mod 4096 + Z.of_nat (length buffer) <= 4096 ->
  page_put (default page_default (r !! page_id a)) (a mod 4096) buffer = Some p ->
  written r a buffer (<[page_id a := p]> r).
Proof.
  intros Hr Ha Hne Hfit Hput. pose proof (Z.mod_pos_bound a 4096 ltac:(lia)) as Hoff.
  set (old := default page_default (r !! page_id a)) in *.
  assert (Hold : page_ok old).
  { unfold old. destruct (r !! page_id a) eqn:Hp; [exact (Hr _ _ Hp) | exact page_default_ok]. }
  destruct (page_put_ok old (a mod 4096) buffer Hold ltac:(lia) ltac:(rewrite leaf_size_eq; lia)) as (p' & Hp' & Hok & Hbyte).
  rewrite Hput in Hp'. injection Hp' as ->. constructor.
  - intros id q [[<- <-]|[_ Hq]]%lookup_insert_Some; [exact Hok | exact (Hr _ _ Hq)].
  - intros x Hx. unfold vbyte at 1. destruct (decide (page_id x = page_id a)) as [Hid|Hid].
    + rewrite Hid, lookup_insert_eq. pose proof (Z.mod_pos_bound x 4096 ltac:(lia)).
      rewrite Hbyte by lia. rewrite !page_id_eq in Hid.
      pose proof (Z.div_mod a 4096 ltac:(lia)). pose proof (Z.div_mod x 4096 ltac:(lia)).
      replace (x mod 4096 - a mod 4096) with (x - a) by lia.
      assert (Hiff : (a mod 4096 <= x mod 4096 < a mod 4096 + Z.of_nat (length buffer)) <-> (a <= x < a + Z.of_nat (length buffer))) by lia.
      destruct (decide (a <= x < _)) as [Hr1|Hr1]; [rewrite decide_True by (apply Hiff, Hr1); reflexivity|].
      rewrite decide_False by (rewrite Hiff; exact Hr1). unfold vbyte, old. rewrite <- !page_id_eq in Hid. rewrite Hid.
      destruct (r !! page_id a); [reflexivity | apply byte_of_default].
    + rewrite lookup_insert_ne by congruence. fold (vbyte r x). rewrite decide_False; [reflexivity|].
      intros Hr1. apply Hid. replace x with (a + (x - a)) by lia. apply page_id_split; lia.
  - intros id. destruct (decide (id = page_id a)) as [->|Hid].
    + rewrite lookup_insert_eq. split; [|intros _; eexists; reflexivity]. intros _. right. exists a.
      destruct buffer; [congruence|]. cbn [length]. split; [lia | reflexivity].
    + rewrite lookup_insert_ne by congruence. split; [auto|]. intros [?|(x & Hx & <-)]; [assumption|].
      destruct Hid. replace x with (a + (x - a)) by lia. apply page_id_split; lia.
Qed.

Lemma written_trans r a buf1 buf2 r1 r2 : 0 <= a -> written r a buf1 r1 ->
  written r1 (a + Z.of_nat (length buf1)) buf2 r2 -> written r a (buf1 ++ buf2) r2.
Proof.
  intros Ha [Hok1 Hb1 Hp1] [Hok2 Hb2 Hp2]. constructor; [exact Hok2 | |].
  - intros x Hx. rewrite Hb2, Hb1 by exact Hx. rewrite length_app.
    destruct (decide (a + Z.of_nat (length buf1) <= x < a + Z.of_nat (length buf1) + Z.of_nat (length buf2))).
    + rewrite decide_True by lia. rewrite lookup_app_r by lia. f_equal. lia.
    + destruct (decide (a <= x < a + Z.of_nat (length buf1))).
      * rewrite decide_True by lia. rewrite lookup_app_l by lia. reflexivity.
      * rewrite decide_False by lia. reflexivity.
  - intros id. rewrite Hp2, Hp1, length_app. split.
    + intros [[?|(x & Hx & Hid)]|(x & Hx & Hid)]; [left; assumption | right; exists x; split; [lia | assumption]..].
    + intros [?|(x & Hx & Hid)]; [left; left; assumption|].
      destruct (decide (x < a + Z.of_nat (length buf1))); [left; right | right]; exists x; (split; [lia | assumption]).
Qed.

Lemma write_loop_ok fuel : forall r a buffer, pages_ok r -> 0 <= a -> (length buffer <= fuel)%nat ->
  a + Z.of_nat (length buffer) <= usize_MAX -> exists r', write_loop fuel r a buffer = Ok r' /\ written r a buffer r'.
Proof.
  induction fuel as [|fuel IH]; intros r a [|b buffer] Hr Ha Hfuel Hmax;
    try (eexists; split; [reflexivity | apply dyn_written_nil, Hr]); [cbn in Hfuel; lia|].
  cbn [write_loop]. set (all := b :: buffer) in *. pose proof (Z.mod_pos_bound a 4096 ltac:(lia)) as Hoff.
  rewrite page_id_offset by lia. rewrite leaf_size_eq. unfold saturating_sub. rewrite (Z.max_r 0) by lia.
  set (chunk := Z.min (Z.of_nat (length all)) (4096 - a mod 4096)).
  assert (Hall : (1 <= length all)%nat) by (cbn; lia).
  assert (Hchunk : length (take (Z.to_nat chunk) all) = Z.to_nat chunk) by (rewrite length_take; lia).
  set (old := default page_default (r !! page_id a)).
  assert (Hold : page_ok old).
  { unfold old. destruct (r !! page_id a) eqn:Hp; [exact (Hr _ _ Hp) | exact page_default_ok]. }
  destruct (page_put_ok old (a mod 4096) (take (Z.to_nat chunk) all) Hold ltac:(lia) ltac:(rewrite leaf_size_eq; lia))
    as (p & Hput & _). rewrite Hput.
  assert (Hw : written r a (take (Z.to_nat chunk) all) (<[page_id a := p]> r)).
  { apply written_page; [exact Hr | exact Ha | | lia | exact Hput]. intros Hnil. rewrite Hnil in Hchunk. cbn in Hchunk. lia. }
  unfold saturating_add. rewrite Z.min_r by lia.
  destruct (IH (<[page_id a := p]> r) (a + chunk) (drop (Z.to_nat chunk) all)) as (r' & Hr' & Hw');
    [exact (written_ok _ _ _ _ Hw) | lia | rewrite length_drop; lia | rewrite length_drop; lia |].
  exists r'. split; [exact Hr'|]. rewrite <- (take_drop (Z.to_nat chunk) all).
  apply (written_trans _ _ _ _ _ _ Ha Hw). rewrite Hchunk, Z2Nat.id by lia. exact Hw'.
Qed.

Lemma write_bytes_ok LEN r a buffer : pages_ok r -> 0 <= a -> a + Z.of_nat (length buffer) <= LEN -> LEN <= usize_MAX ->
  exists r', write_bytes LEN r a buffer = Ok r' /\ written r a buffer r'.
Proof.
  intros Hr Ha Hfit Hmax. destruct buffer as [|b buffer].
  - exists r. split; [reflexivity | apply dyn_written_nil, Hr].
  - unfold write_bytes. unfold saturating_sub. destruct (Z.ltb_spec (Z.max 0 (LEN - a)) (Z.of_nat (length (b :: buffer)))); [lia|].
    apply write_loop_ok; [exact Hr | exact Ha | lia | lia].
Qed.
End VerifierBytes.

(** ** Dynamic regions of [ProofGen] *)
Section ProofDynRegions.
Implicit Types (s : list Z) (g : ProofDynRegion).

Definition dyn_current g : list Z := imap (fun i b => default b (dyn_writes g !! Z.of_nat i)) (dyn_source g).
Definition accessed g : gset Z := dyn_reads g ∪ dom (dyn_writes g).

Record dyn_stands_for (s0 s : list Z) g : Prop := mkDynStandsFor {
  dyn_stands_source : dyn_source g = s0;
  dyn_stands_current : dyn_current g = s }.

Lemma length_dyn_current g : length (dyn_current g) = length (dyn_source g).
Proof. apply length_imap. Qed.
Lemma elem_of_addresses x a size : x ∈ addresses a size <-> a <= x < a + size.
Proof. unfold addresses. rewrite elem_of_list_to_set, elem_of_seqZ. reflexivity. Qed.
Lemma elem_of_accessed x g : x ∈ accessed g <-> x ∈ dyn_reads g \/ is_Some (dyn_writes g !! x).
Proof. unfold accessed. rewrite elem_of_union, elem_of_dom. reflexivity. Qed.

(** An address that was not accessed holds what it did. *)
Lemma dyn_unaccessed s0 s g x : dyn_stands_for s0 s g -> 0 <= x -> x ∉ accessed g -> s !! Z.to_nat x = s0 !! Z.to_nat x.
Proof.
  intros [<- <-] Hx Hacc. rewrite elem_of_accessed in Hacc. unfold dyn_current. rewrite list_lookup_imap, Z2Nat.id by lia.
  destruct (dyn_writes g !! x); [destruct Hacc; right; eexists; reflexivity|]. destruct (dyn_source g !! Z.to_nat x); reflexivity.
Qed.

Lemma unrecorded_read_current LEN size g a : 0 <= a -> a + size <= LEN ->
  ProofGen.unrecorded_read LEN size g a = Ok (slice a size (dyn_current g)).
Proof.
  intros Ha Hfit. unfold ProofGen.unrecorded_read, Owned.dyn_region_ref. destruct (Z.leb_spec (a + size) LEN); [|lia].
  cbn [result_bind]. f_equal. apply list_eq. intros i. rewrite list_lookup_imap.
  destruct (decide (i < Z.to_nat size)%nat) as [Hi|Hi].
  - rewrite !slice_lookup by lia. unfold dyn_current. rewrite list_lookup_imap.
    replace (Z.of_nat (Z.to_nat a + i)) with (a + Z.of_nat i) by lia. reflexivity.
  - unfold slice. rewrite !lookup_take_ge by lia. reflexivity.
Qed.

Lemma foldl_insert_from a value : forall k (w : gmap Z Z) x,
  foldl (fun w '(offset, byte) => <[a + Z.of_nat offset := byte]> w) w (imap (fun i b => (k + i, b)%nat) value) !! x =
    if decide (a + Z.of_nat k <= x < a + Z.of_nat k + Z.of_nat (length value))
    then value !! Z.to_nat (x - a - Z.of_nat k) else w !! x.
Proof.
  induction value as [|b value IH]; intros k w x.
  - cbn. rewrite decide_False by lia. reflexivity.
  - cbn [imap foldl length]. rewrite Nat.add_0_r.
    rewrite (imap_ext _ (fun i y => (S k + i, y)%nat)) by (intros; cbn; f_equal; lia). rewrite IH.
    destruct (decide (a + Z.of_nat (S k) <= x < a + Z.of_nat (S k) + Z.of_nat (length value))).
    + rewrite decide_True by lia. replace (Z.to_nat (x - a - Z.of_nat k)) with (S (Z.to_nat (x - a - Z.of_nat (S k)))) by lia. reflexivity.
    + destruct (decide (x = a + Z.of_nat k)) as [->|Hne].
      * rewrite lookup_insert_eq, decide_True by lia. replace (Z.to_nat _) with 0%nat by lia. reflexivity.
      * rewrite lookup_insert_ne by congruence. rewrite decide_False by lia. reflexivity.
Qed.

(** [g'] is [g] with [value] written at [a]. *)
Lemma proof_write s0 s LEN g a value : dyn_stands_for s0 s g -> LEN = Z.of_nat (length s) -> 0 <= a ->
  a + Z.of_nat (length value) <= LEN ->
  exists g', ProofGen.dyn_region_write LEN g a value = Ok g' /\ dyn_stands_for s0 (splice a value s) g' /\
    (forall x, x ∈ accessed g' <-> x ∈ accessed g \/ a <= x < a + Z.of_nat (length value)).
Proof.
  intros [Hs Hc] -> Ha Hfit. unfold ProofGen.dyn_region_write. destruct (Z.leb_spec (a + Z.of_nat (length value)) (Z.of_nat (length s))); [|lia].
  eexists. split; [reflexivity|]. rewrite (imap_plain pair).
  assert (Hlen : length s = length (dyn_source g)) by (rewrite <- Hc; apply length_dyn_current).
  split; [constructor; [exact Hs|]|].
  - apply list_eq. intros i. unfold dyn_current. cbn [dyn_source dyn_writes]. rewrite list_lookup_imap, splice_lookup by lia.
    rewrite foldl_insert_from. destruct (decide (Z.to_nat a <= i < Z.to_nat a + length value)%nat) as [Hi|Hi].
    + rewrite decide_True by lia. replace (Z.to_nat (Z.of_nat i - a - Z.of_nat 0)) with (i - Z.to_nat a)%nat by lia.
      destruct (lookup_lt_is_Some_2 value (i - Z.to_nat a)%nat ltac:(lia)) as [y ->].
      destruct (lookup_lt_is_Some_2 (dyn_source g) i ltac:(lia)) as [z ->]. reflexivity.
    + rewrite decide_False by lia. rewrite <- Hc. unfold dyn_current. rewrite list_lookup_imap. reflexivity.
  - intros x. rewrite !elem_of_accessed. cbn [dyn_reads dyn_writes]. rewrite foldl_insert_from.
    destruct (decide (a + Z.of_nat 0 <= x < a + Z.of_nat 0 + Z.of_nat (length value))) as [Hr|Hr].
    + split; [intros _; right; lia|]. intros _. right. apply lookup_lt_is_Some_2. lia.
    + split; [tauto|]. intros [?|?]; [assumption | lia].
Qed.

Lemma proof_read_bytes s0 s LEN size g a : dyn_stands_for s0 s g -> LEN = Z.of_nat (length s) -> 0 <= a -> a + size <= LEN ->
  exists g', ProofGen.dyn_region_read LEN size g a = Ok (slice a size s, g') /\ dyn_stands_for s0 s g' /\
    (forall x, x ∈ accessed g' <-> x ∈ accessed g \/ a <= x < a + size).
Proof.
  intros [Hs Hc] -> Ha Hfit. unfold ProofGen.dyn_region_read. rewrite unrecorded_read_current by lia.
  change (dyn_current (ProofGen.insert_read a size g)) with (dyn_current g). rewrite Hc.
  eexists. split; [reflexivity|]. split; [constructor; assumption|].
  intros x. rewrite !elem_of_accessed. cbn [ProofGen.insert_read dyn_reads dyn_writes].
  rewrite elem_of_union, elem_of_addresses. tauto.
Qed.
End ProofDynRegions.

(** ** The managers agree on dynamic regions *)
Section Agreement.
Context `{RangeSetLaws}.
Implicit Types (s : list Z) (g : ProofDynRegion) (v : VerifierDynRegion).

(** What the proof holds of a dynamic region: the pages in [A]. *)
Record dyn_reveals (A : Z -> Prop) s v : Prop := mkDynReveals {
  reveals_ok : pages_ok v;
  reveals_byte x : 0 <= x < Z.of_nat (length s) -> A (page_id x) -> vbyte v x = s !! Z.to_nat x;
  reveals_page id : is_Some (v !! id) -> A id }.

(** What is present is a part of [s], and only a present page differs from [s0]. *)
Record dyn_part_of (s0 s : list Z) v : Prop := mkDynPartOf {
  part_ok : pages_ok v;
  part_byte x b : 0 <= x -> vbyte v x = Some b -> s !! Z.to_nat x = Some b;
  part_absent x : 0 <= x -> v !! page_id x = None -> s !! Z.to_nat x = s0 !! Z.to_nat x }.

Lemma holds_part s a len bs v : (forall x b, 0 <= x -> vbyte v x = Some b -> s !! Z.to_nat x = Some b) -> 0 <= a -> 0 <= len ->
  a + len <= Z.of_nat (length s) -> Z.of_nat (length bs) = len -> holds v a bs -> bs = slice a len s.
Proof.
  intros Hp Ha Hlen Hfit Hl Hh. apply list_eq_same_length with (Z.to_nat len); [apply slice_length; lia | lia|].
  intros i x y Hi Hx Hy. rewrite slice_lookup in Hy by lia. apply Hh, Hp in Hx; [|lia].
  replace (Z.to_nat (a + Z.of_nat i)) with (Z.to_nat a + i)%nat in Hx by lia. congruence.
Qed.

Lemma verifier_reads A s v LEN a len : dyn_reveals A s v -> LEN = Z.of_nat (length s) -> LEN <= usize_MAX -> 0 <= a -> 0 <= len ->
  a + len <= LEN -> (forall x, a <= x < a + len -> A (page_id x)) -> read_bytes LEN v a len = Ok (slice a len s).
Proof.
  intros [Hok Hb Hpg] -> Hmax Ha Hlen Hfit HA.
  destruct (read_bytes_ok (Z.of_nat (length s)) v a len Hok Ha Hlen Hfit Hmax) as [bs Hbs].
  { intros i Hi. rewrite Hb by (try apply HA; lia). apply not_eq_None_Some, lookup_lt_is_Some_2. lia. }
  rewrite Hbs. f_equal. apply read_bytes_inv in Hbs as [Hl Hh]; [|assumption..].
  apply list_eq_same_length with (Z.to_nat len); [apply slice_length; lia | lia|].
  intros i x y Hi Hx Hy. rewrite slice_lookup in Hy by lia. apply Hh in Hx.
  rewrite Hb in Hx by (try apply HA; lia). replace (Z.to_nat (a + Z.of_nat i)) with (Z.to_nat a + i)%nat in Hx by lia. congruence.
Qed.

Lemma verifier_writes A s v LEN a buffer : dyn_reveals A s v -> LEN = Z.of_nat (length s) -> LEN <= usize_MAX -> 0 <= a ->
  a + Z.of_nat (length buffer) <= LEN -> (forall x, a <= x < a + Z.of_nat (length buffer) -> A (page_id x)) ->
  exists v', write_bytes LEN v a buffer = Ok v' /\ dyn_reveals A (splice a buffer s) v'.
Proof.
  intros [Hok Hb Hpg] -> Hmax Ha Hfit HA.
  destruct (write_bytes_ok (Z.of_nat (length s)) v a buffer Hok Ha Hfit Hmax) as (v' & Hv' & [Hok' Hb' Hpg']).
  exists v'. split; [exact Hv'|]. constructor; [exact Hok' | |].
  - intros x Hx HAx. rewrite splice_length in Hx by lia. rewrite Hb', splice_lookup by lia.
    destruct (decide (a <= x < a + Z.of_nat (length buffer))).
    + rewrite decide_True by lia. f_equal. lia.
    + rewrite decide_False by lia. apply Hb; assumption.
  - intros id [Hid|(x & Hx & <-)]%Hpg'; [apply Hpg, Hid | apply HA, Hx].
Qed.

Lemma part_writes s0 s v LEN a buffer v' : dyn_part_of s0 s v -> LEN = Z.of_nat (length s) -> LEN <= usize_MAX -> 0 <= a ->
  a + Z.of_nat (length buffer) <= LEN -> write_bytes LEN v a buffer = Ok v' -> dyn_part_of s0 (splice a buffer s) v'.
Proof.
  intros [Hok Hb Hpg] -> Hmax Ha Hfit Hv.
  destruct (write_bytes_ok (Z.of_nat (length s)) v a buffer Hok Ha Hfit Hmax) as (v1 & Hv1 & [Hok' Hb' Hpg']).
  rewrite Hv1 in Hv. injection Hv as ->. constructor; [exact Hok' | |].
  - intros x b Hx. rewrite Hb', splice_lookup by lia. destruct (decide (a <= x < a + Z.of_nat (length buffer))).
    + rewrite decide_True by lia. intros Hy. rewrite <- Hy. f_equal. lia.
    + rewrite decide_False by lia. apply Hb, Hx.
  - intros x Hx Hnone. rewrite splice_lookup by lia.
    assert (Hn : ~ is_Some (v' !! page_id x)) by (rewrite Hnone; intros [? ?]; discriminate).
    rewrite Hpg' in Hn. rewrite decide_False.
    + apply Hpg; [exact Hx|]. apply eq_None_not_Some. tauto.
    + intros Hr. apply Hn. right. exists x. split; [lia | reflexivity].
Qed.

(** Reading and writing many elements. *)
Lemma proof_read_all_from s0 s LEN size a n : forall k g, dyn_stands_for s0 s g -> LEN = Z.of_nat (length s) -> 0 < size -> 0 <= a ->
  a + Z.of_nat (k + n) * size <= LEN ->
  exists values g', try_map (fun offset r => ProofGen.dyn_region_read LEN size r (a + Z.of_nat offset * size)) (seq k n) g = Ok (values, g') /\
    concat values = slice (a + Z.of_nat k * size) (Z.of_nat n * size) s /\ dyn_stands_for s0 s g' /\
    (forall x, x ∈ accessed g' <-> x ∈ accessed g \/ a + Z.of_nat k * size <= x < a + Z.of_nat (k + n) * size).
Proof.
  induction n as [|n IH]; intros k g Hg HL Hsize Ha Hfit.
  - exists [], g. split; [reflexivity|]. split; [reflexivity|]. split; [exact Hg|]. intros x. rewrite Nat.add_0_r. split; [tauto|].
    intros [?|?]; [assumption | lia].
  - cbn [seq try_map].
    destruct (proof_read_bytes s0 s LEN size g (a + Z.of_nat k * size) Hg HL ltac:(nia) ltac:(nia)) as (g1 & -> & Hg1 & Hacc1).
    cbn [result_bind]. destruct (IH (S k) g1 Hg1 HL Hsize Ha ltac:(nia)) as (values & g' & -> & Hvalues & Hg' & Hacc).
    eexists (_ :: values), g'. split; [reflexivity|]. split; [|split; [exact Hg'|]].
    + cbn [concat]. rewrite Hvalues. replace (Z.of_nat (S n) * size) with (size + Z.of_nat n * size) by lia.
      rewrite slice_app by nia. do 2 f_equal. lia.
    + intros x. rewrite Hacc, Hacc1. split; [intros [[?|?]|?]; [left; assumption | right; nia..]|].
      intros [?|?]; [left; left; assumption|]. destruct (decide (x < a + Z.of_nat (S k) * size)); [left; right; nia | right; nia].
Qed.

(** The loop of [Owned::dyn_region_write_all] from element [k]. *)
Definition splice_all (size a : Z) (k : nat) (values : list (list Z)) s : list Z :=
  foldl (fun r '(i, value) => splice (a + Z.of_nat i * size) value r) s (imap (fun i x => (k + i, x)%nat) values).
Lemma splice_all_cons size a k value values s : splice_all size a k (value :: values) s =
  splice_all size a (S k) values (splice (a + Z.of_nat k * size) value s).
Proof.
  unfold splice_all. cbn [imap foldl]. rewrite Nat.add_0_r. f_equal. apply imap_ext. intros i x _. cbn. f_equal. lia.
Qed.
Lemma splice_all_length size a values : forall k s, 0 < size -> 0 <= a -> Forall (fun x => Z.of_nat (length x) = size) values ->
  a + Z.of_nat (k + length values) * size <= Z.of_nat (length s) -> length (splice_all size a k values s) = length s.
Proof.
  induction values as [|value values IH]; intros k s Hsize Ha Hv Hfit; [reflexivity|]. inversion Hv; subst. cbn [length] in Hfit.
  rewrite splice_all_cons, IH; [apply splice_length; nia | assumption.. |]. rewrite splice_length by nia. nia.
Qed.

Lemma try_fold_from {St} (f : nat * list Z -> St -> result St Panic) k value values (s : St) :
  try_fold f (imap (fun i x => (k + i, x)%nat) (value :: values)) s =
    (s <-! f (k, value) s ;; try_fold f (imap (fun i x => (S k + i, x)%nat) values) s).
Proof.
  cbn [imap try_fold]. rewrite Nat.add_0_r. destruct (f (k, value) s); [|reflexivity]. cbn [result_bind]. f_equal.
  apply imap_ext. intros i x _. cbn. f_equal. lia.
Qed.

Lemma proof_write_all_bytes s0 LEN size a values : forall k s g, dyn_stands_for s0 s g -> LEN = Z.of_nat (length s) -> 0 < size ->
  0 <= a -> Forall (fun x => Z.of_nat (length x) = size) values -> a + Z.of_nat (k + length values) * size <= LEN ->
  exists g', try_fold (fun '(offset, value) r => ProofGen.dyn_region_write LEN r (a + Z.of_nat offset * size) value)
      (imap (fun i x => (k + i, x)%nat) values) g = Ok g' /\ dyn_stands_for s0 (splice_all size a k values s) g' /\
    (forall x, x ∈ accessed g' <-> x ∈ accessed g \/ a + Z.of_nat k * size <= x < a + Z.of_nat (k + length values) * size).
Proof.
  induction values as [|value values IH]; intros k s g Hg HL Hsize Ha Hv Hfit.
  - exists g. split; [reflexivity|]. split; [exact Hg|]. intros x. cbn [length]. rewrite Nat.add_0_r. split; [tauto|].
    intros [?|?]; [assumption | lia].
  - inversion Hv; subst. cbn [length] in Hfit. rewrite try_fold_from, splice_all_cons.
    destruct (proof_write s0 s (Z.of_nat (length s)) g (a + Z.of_nat k * Z.of_nat (length value)) value Hg eq_refl ltac:(nia) ltac:(nia))
      as (g1 & -> & Hg1 & Hacc1). cbn [result_bind].
    destruct (IH (S k) _ g1 Hg1) as (g' & -> & Hg' & Hacc); [rewrite splice_length by nia; reflexivity | assumption.. | nia |].
    exists g'. split; [reflexivity|]. split; [exact Hg'|]. intros x. rewrite Hacc, Hacc1. cbn [length].
    split; [intros [[?|?]|?]; [left; assumption | right; nia..]|].
    intros [?|?]; [left; left; assumption|].
    destruct (decide (x < a + Z.of_nat (S k) * Z.of_nat (length value))); [left; right; nia | right; nia].
Qed.
Lemma verifier_write_all_bytes A LEN size a values : forall k s v, dyn_reveals A s v -> LEN = Z.of_nat (length s) -> LEN <= usize_MAX ->
  0 < size -> 0 <= a -> Forall (fun x => Z.of_nat (length x) = size) values -> a + Z.of_nat (k + length values) * size <= LEN ->
  (forall x, a + Z.of_nat k * size <= x < a + Z.of_nat (k + length values) * size -> A (page_id x)) ->
  exists v', try_fold (fun '(i, value) r => Verifier.dyn_region_write LEN r (a + Z.of_nat i * size) value)
      (imap (fun i x => (k + i, x)%nat) values) v = Ok v' /\ dyn_reveals A (splice_all size a k values s) v'.
Proof.
  induction values as [|value values IH]; intros k s v Hg HL Hmax Hsize Ha Hv Hfit HA.
  - exists v. split; [reflexivity | exact Hg].
  - inversion Hv; subst. cbn [length] in Hfit, HA. rewrite try_fold_from, splice_all_cons. unfold Verifier.dyn_region_write at 1.
    destruct (verifier_writes A s v (Z.of_nat (length s)) (a + Z.of_nat k * Z.of_nat (length value)) value Hg eq_refl Hmax
      ltac:(nia) ltac:(nia)) as (v1 & -> & Hg1); [intros x Hx; apply HA; nia|]. cbn [result_bind].
    apply IH; [exact Hg1 | rewrite splice_length by nia; reflexivity | assumption.. | nia | intros x Hx; apply HA; nia].
Qed.
Lemma part_write_all_bytes s0 LEN size a values : forall k s v v', dyn_part_of s0 s v -> LEN = Z.of_nat (length s) -> LEN <= usize_MAX ->
  0 < size -> 0 <= a -> Forall (fun x => Z.of_nat (length x) = size) values -> a + Z.of_nat (k + length values) * size <= LEN ->
  try_fold (fun '(i, value) r => Verifier.dyn_region_write LEN r (a + Z.of_nat i * size) value)
    (imap (fun i x => (k + i, x)%nat) values) v = Ok v' -> dyn_part_of s0 (splice_all size a k values s) v'.
Proof.
  induction values as [|value values IH]; intros k s v v' Hg HL Hmax Hsize Ha Hv Hfit.
  - intros [= <-]. exact Hg.
  - inversion Hv; subst. cbn [length] in Hfit. rewrite try_fold_from, splice_all_cons. unfold Verifier.dyn_region_write at 1.
    destruct (write_bytes _ v _ value) as [v1|] eqn:Hw; [|discriminate]. cbn [result_bind].
    apply (part_writes _ _ _ _ _ _ _ Hg eq_refl Hmax) in Hw; [|nia..].
    apply IH; [exact Hw | rewrite splice_length by nia; reflexivity | assumption.. | nia].
Qed.

(** ** Operations *)
Context {E : Type}.

Definition dyn_agrees (LEN : Z) (op : DynRegionOp) (ans : list Z) (s0 s s' : list Z) g : Prop :=
  exists g', dyn_region_op (proof_gen E) LEN op g = Ok (ans, g') /\ dyn_stands_for s0 s' g' /\
    accessed g ⊆ accessed g' /\
    (forall A v, (forall x, x ∈ accessed g' -> A (page_id x)) -> dyn_reveals A s v ->
      exists v', dyn_region_op (verifier E) LEN op v = Ok (ans, v') /\ dyn_reveals A s' v').

Lemma dyn_region_op_agrees LEN op s0 s g ans s' : LEN = Z.of_nat (length s) -> LEN <= usize_MAX -> dyn_op_ok op ->
  dyn_stands_for s0 s g -> dyn_region_op (owned E) LEN op s = Ok (ans, s') ->
  length s' = length s /\ dyn_agrees LEN op ans s0 s s' g.
Proof.
  intros HL Hmax Hop Hg. destruct op as [size a|size a count|a value|size a values]; cbn [dyn_region_op owned dyn_region_read
    dyn_region_read_all dyn_region_write dyn_region_write_all dyn_op_ok] in *.
  - destruct Hop as [Hsize Ha]. unfold Owned.dyn_region_read, Owned.dyn_region_ref.
    destruct (Z.leb_spec (a + size) LEN); [|discriminate]. cbn. intros [= <- <-]. split; [reflexivity|].
    destruct (proof_read_bytes s0 s LEN size g a Hg HL Ha ltac:(lia)) as (g' & Hg' & Hst & Hacc).
    exists g'. split; [exact Hg'|]. split; [exact Hst|]. split; [intros x Hx; apply Hacc; left; exact Hx|].
    intros A v HA Hv. exists v. cbn [dyn_region_op verifier dyn_region_read]. unfold Verifier.dyn_region_read.
    rewrite (verifier_reads A s v LEN a size Hv HL Hmax Ha ltac:(lia) ltac:(lia)); [split; [reflexivity | exact Hv]|].
    intros x Hx. apply HA, Hacc. right. exact Hx.
  - destruct Hop as [Hsize Ha]. unfold Owned.dyn_region_read_all.
    destruct (Z.leb_spec (a + Z.of_nat count * size) LEN); [|discriminate]. intros [= <- <-]. split; [reflexivity|].
    destruct (proof_read_all_from s0 s LEN size a count 0 g Hg HL Hsize Ha ltac:(lia)) as (values & g' & Hg' & Hvalues & Hst & Hacc).
    cbn [Nat.add] in Hacc. rewrite Z.mul_0_l, Z.add_0_r in Hvalues. setoid_rewrite Z.mul_0_l in Hacc. setoid_rewrite Z.add_0_r in Hacc.
    exists g'. cbn [dyn_region_op proof_gen dyn_region_read_all]. unfold ProofGen.dyn_region_read_all.
    destruct (Z.leb_spec (a + Z.of_nat count * size) LEN); [|lia]. rewrite Hg'. cbn [result_map]. rewrite Hvalues.
    split; [reflexivity|]. split; [exact Hst|]. split; [intros x Hx; apply Hacc; left; exact Hx|].
    intros A v HA Hv. exists v. cbn [dyn_region_op verifier dyn_region_read_all]. unfold Verifier.dyn_region_read_all.
    rewrite (verifier_reads A s v LEN a (Z.of_nat count * size) Hv HL Hmax Ha ltac:(nia) ltac:(lia)); [split; [reflexivity | exact Hv]|].
    intros x Hx. apply HA, Hacc. right. exact Hx.
  - destruct Hop as [_ Ha]. unfold Owned.dyn_region_write.
    destruct (Z.leb_spec (a + Z.of_nat (length value)) LEN); [|discriminate]. cbn. intros [= <- <-].
    split; [apply splice_length; lia|].
    destruct (proof_write s0 s LEN g a value Hg HL Ha ltac:(lia)) as (g' & Hg' & Hst & Hacc).
    exists g'. cbn [dyn_region_op proof_gen dyn_region_write]. rewrite Hg'.
    split; [reflexivity|]. split; [exact Hst|]. split; [intros x Hx; apply Hacc; left; exact Hx|].
    intros A v HA Hv. cbn [dyn_region_op verifier dyn_region_write]. unfold Verifier.dyn_region_write.
    destruct (verifier_writes A s v LEN a value Hv HL Hmax Ha ltac:(lia)) as (v' & -> & Hv');
      [intros x Hx; apply HA, Hacc; right; exact Hx | exists v'; split; [reflexivity | exact Hv']].
  - destruct Hop as (Hsize & Ha & Hvalues). unfold Owned.dyn_region_write_all.
    destruct (Z.leb_spec (a + Z.of_nat (length values) * size) LEN); [|discriminate].
    rewrite (imap_plain pair). fold (splice_all size a 0 values s). cbn [result_bind]. intros [= <- <-].
    split; [apply splice_all_length; (assumption || cbn [Nat.add]; lia)|].
    destruct (proof_write_all_bytes s0 LEN size a values 0 s g Hg HL Hsize Ha Hvalues ltac:(lia)) as (g' & Hg' & Hst & Hacc).
    cbn [Nat.add] in Hacc. setoid_rewrite Z.mul_0_l in Hacc. setoid_rewrite Z.add_0_r in Hacc.
    exists g'. cbn [dyn_region_op proof_gen dyn_region_write_all]. unfold ProofGen.dyn_region_write_all.
    destruct (Z.leb_spec (a + Z.of_nat (length values) * size) LEN); [|lia].
    rewrite (imap_plain pair), Hg'. split; [reflexivity|]. split; [exact Hst|]. split; [intros x Hx; apply Hacc; left; exact Hx|].
    intros A v HA Hv. cbn [dyn_region_op verifier dyn_region_write_all]. unfold Verifier.dyn_region_write_all. rewrite (imap_plain pair).
    destruct (verifier_write_all_bytes A LEN size a values 0 s v Hv HL Hmax Hsize Ha Hvalues ltac:(lia)) as (v' & -> & Hv').
    { intros x Hx. apply HA, Hacc. right. cbn [Nat.add] in Hx. lia. }
    exists v'. split; [reflexivity | exact Hv'].
Qed.

Lemma dyn_region_op_partial LEN op s0 s v ans s' ans' v' : LEN = Z.of_nat (length s) -> LEN <= usize_MAX -> dyn_op_ok op ->
  dyn_part_of s0 s v -> dyn_region_op (owned E) LEN op s = Ok (ans, s') -> dyn_region_op (verifier E) LEN op v = Ok (ans', v') ->
  ans' = ans /\ dyn_part_of s0 s' v'.
Proof.
  intros HL Hmax Hop Hp. pose proof Hp as [Hok Hb _]. destruct op as [size a|size a count|a value|size a values];
    cbn [dyn_region_op owned verifier dyn_region_read dyn_region_read_all dyn_region_write dyn_region_write_all dyn_op_ok] in *.
  - destruct Hop as [Hsize Ha]. unfold Owned.dyn_region_read, Owned.dyn_region_ref, Verifier.dyn_region_read.
    destruct (Z.leb_spec (a + size) LEN); [|discriminate].
    destruct (read_bytes LEN v a size) as [bs|] eqn:Hr; [|discriminate]. cbn. intros [= <- <-] [= <- <-].
    apply read_bytes_inv in Hr as [Hl Hh]; [|assumption || lia..]. split; [|exact Hp].
    apply (holds_part s a size bs v Hb); (assumption || lia).
  - destruct Hop as [Hsize Ha]. unfold Owned.dyn_region_read_all, Verifier.dyn_region_read_all.
    destruct (Z.leb_spec (a + Z.of_nat count * size) LEN); [|discriminate].
    destruct (read_bytes LEN v a _) as [bs|] eqn:Hr; [|discriminate]. cbn. intros [= <- <-] [= <- <-].
    apply read_bytes_inv in Hr as [Hl Hh]; [|assumption || nia..]. split; [|exact Hp].
    apply (holds_part s a (Z.of_nat count * size) bs v Hb); (assumption || nia).
  - destruct Hop as [_ Ha]. unfold Owned.dyn_region_write, Verifier.dyn_region_write.
    destruct (Z.leb_spec (a + Z.of_nat (length value)) LEN); [|discriminate].
    destruct (write_bytes LEN v a value) as [w|] eqn:Hw; [|discriminate]. cbn. intros [= <- <-] [= <- <-].
    split; [reflexivity|]. apply (part_writes _ _ _ _ _ _ _ Hp HL Hmax Ha) in Hw; [exact Hw | lia].
  - destruct Hop as (Hsize & Ha & Hvalues). unfold Owned.dyn_region_write_all, Verifier.dyn_region_write_all.
    destruct (Z.leb_spec (a + Z.of_nat (length values) * size) LEN); [|discriminate].
    rewrite !(imap_plain pair). fold (splice_all size a 0 values s). cbn [result_bind].
    destruct (try_fold _ _ v) as [w|] eqn:Hw; [|discriminate]. cbn. intros [= <- <-] [= <- <-].
    split; [reflexivity|]. apply (part_write_all_bytes _ _ _ _ _ _ _ _ _ Hp HL Hmax) in Hw; (assumption || cbn [Nat.add]; lia || exact Hw).
Qed.

(** ** Pages *)
Lemma page_bytes (v : VerifierDynRegion) k p : v !! (4096 * k) = Some p -> 0 <= k -> page_ok p ->
  forall i, 0 <= i < 4096 -> vbyte v (4096 * k + i) = byte_of p i.
Proof.
  intros Hp Hk Hok i Hi. unfold vbyte. destruct (page_id_aligned k i Hi) as [-> ->]. rewrite Hp. reflexivity.
Qed.
Lemma page_slice s k data : 0 <= k -> 4096 * k + 4096 <= Z.of_nat (length s) -> length data = MERKLE_LEAF_SIZE ->
  (forall i, 0 <= i < 4096 -> data !! Z.to_nat i = s !! Z.to_nat (4096 * k + i)) -> data = slice (4096 * k) 4096 s.
Proof.
  intros Hk Hfit Hl Hall. apply list_eq_same_length with (Z.to_nat 4096); [apply slice_length; lia | rewrite Hl; reflexivity|].
  intros i x y Hi Hx Hy. rewrite slice_lookup in Hy by lia. specialize (Hall (Z.of_nat i) ltac:(lia)).
  rewrite Nat2Z.id, Hx in Hall. replace (Z.to_nat (4096 * k + Z.of_nat i)) with (Z.to_nat (4096 * k) + i)%nat in Hall by lia. congruence.
Qed.

Lemma get_partial_page_reveals A s v k : dyn_reveals A s v -> 0 <= k -> 4096 * k + 4096 <= Z.of_nat (length s) ->
  A (4096 * k) -> get_partial_page v (4096 * k) = Complete (slice (4096 * k) 4096 s).
Proof.
  intros [Hok Hb Hpg] Hk Hfit HA. unfold get_partial_page.
  assert (Hbyte : forall i, 0 <= i < 4096 -> vbyte v (4096 * k + i) = s !! Z.to_nat (4096 * k + i)).
  { intros i Hi. apply Hb; [lia|]. destruct (page_id_aligned k i Hi) as [-> _]. exact HA. }
  destruct (v !! (4096 * k)) as [p|] eqn:Hp.
  - pose proof (Hok _ _ Hp) as Hpage. rewrite (proj2 (fully_available_iff p Hpage)).
    + f_equal. apply page_slice; [assumption.. | exact (proj1 Hpage)|]. intros i Hi. rewrite <- Hbyte by exact Hi.
      rewrite (page_bytes _ _ _ Hp Hk Hpage) by exact Hi. symmetry.
      destruct (byte_of p i) as [b|] eqn:Hbi; [exact (eq_sym (byte_of_eq _ _ _ Hbi))|].
      specialize (Hbyte i Hi). rewrite (page_bytes _ _ _ Hp Hk Hpage) in Hbyte by exact Hi. rewrite Hbi in Hbyte.
      symmetry in Hbyte. apply lookup_ge_None in Hbyte. lia.
    + rewrite leaf_size_eq. intros i Hi. rewrite <- (page_bytes _ _ _ Hp Hk Hpage), Hbyte by exact Hi.
      apply not_eq_None_Some, lookup_lt_is_Some_2. lia.
  - exfalso. specialize (Hbyte 0 ltac:(lia)). unfold vbyte in Hbyte. destruct (page_id_aligned k 0 ltac:(lia)) as [Hid _].
    rewrite Hid, Hp in Hbyte. symmetry in Hbyte. apply lookup_ge_None in Hbyte. lia.
Qed.
Lemma get_partial_page_absent A s v id : dyn_reveals A s v -> ~ A id -> get_partial_page v id = AbsentState.
Proof.
  intros [Hok Hb Hpg] HA. unfold get_partial_page. destruct (v !! id) as [p|] eqn:Hp; [|reflexivity].
  destruct HA. apply Hpg. rewrite Hp. eexists. reflexivity.
Qed.
Lemma get_partial_page_part s0 s v k : dyn_part_of s0 s v -> 0 <= k -> 4096 * k + 4096 <= Z.of_nat (length s) -> length s0 = length s ->
  match get_partial_page v (4096 * k) with
  | Complete data => data = slice (4096 * k) 4096 s
  | AbsentState => slice (4096 * k) 4096 s = slice (4096 * k) 4096 s0
  | Incomplete => True
  end.
Proof.
  intros [Hok Hb Hab] Hk Hfit Hl. unfold get_partial_page. destruct (v !! (4096 * k)) as [p|] eqn:Hp.
  - pose proof (Hok _ _ Hp) as Hpage. destruct (is_fully_available p) eqn:Hfull; [|trivial].
    rewrite (fully_available_iff p Hpage), leaf_size_eq in Hfull.
    apply page_slice; [assumption.. | exact (proj1 Hpage)|]. intros i Hi. specialize (Hfull i Hi).
    destruct (byte_of p i) as [b|] eqn:Hbi; [|congruence]. rewrite (byte_of_eq _ _ _ Hbi). symmetry. apply Hb; [lia|].
    rewrite (page_bytes _ _ _ Hp Hk Hpage) by exact Hi. exact Hbi.
  - apply page_slice; [lia | lia | rewrite slice_length by lia; reflexivity|]. intros i Hi.
    rewrite slice_lookup by lia. rewrite <- Hab; [f_equal; lia | lia|].
    destruct (page_id_aligned k i Hi) as [-> _]. exact Hp.
Qed.

End Agreement.
