(* ===== verification/Deserialiser.v ===== *)
(** * Deserialisers of Merkle proofs

    Models [src/riscv/lib/src/state_backend/proof_backend/proof/deserialiser.rs]: the
    traits through which a layout is parsed from a Merkle proof, and their two
    implementations, on a proof tree ([deserialise_owned.rs]) and on the tags and
    the bytes of an encoded one ([deserialise_stream.rs]).

    The parts of a deserialiser share a store (the iterator over the tags), which
    the operations pass on.  [None] is the end of the stack: a layout whose parsing
    recurses without end. *)

From S2P Require Import Prelude.
From S2P Require Import Hash.
From S2P Require Import MerkleProof.

Notation outcome A E := (option (result A E)).
Definition obind {A B E} (m : outcome A E) (k : A -> outcome B E) : outcome B E :=
  match m with Some (Ok a) => k a | Some (Err e) => Some (Err e) | None => None end.
Notation "x <-$ m ;; k" := (obind m (fun x => k)) (at level 100, m at next level, right associativity) : pvm_scope.
Notation "' pat <-$ m ;; k" := (obind m (fun x => match x with pat => k end))
  (at level 20, pat pattern, m at level 99, k at level 200) : pvm_scope.

(** [FromProofError]. *)
Inductive FromProofError : Type :=
| FromHash (e : HashError)
| FromDeserialise
| FromTagDeserialise (e : DeserialiseError)
| RemainingBytes
| InvalidHash
| BadNumberOfBranches (expected got : nat)
| UnexpectedLeafSize (expected got : nat)
| ProofUnexpectedLeaf
| ProofUnexpectedNode.

(** [Partial]. *)
Inductive Partial (T : Type) : Type := PartialAbsent | PartialBlinded (hash : Hash) | PartialPresent (data : T).
Arguments PartialAbsent {T}.
Arguments PartialBlinded {T}.
Arguments PartialPresent {T}.

Definition map_present {T R} (p : Partial T) (f : T -> R) : Partial R :=
  match p with
  | PartialAbsent => PartialAbsent
  | PartialBlinded hash => PartialBlinded hash
  | PartialPresent data => PartialPresent (f data)
  end.
Definition map_present_fallible {T R E} (p : Partial T) (f : T -> result R E) : result (Partial R) E :=
  match p with
  | PartialAbsent => Ok PartialAbsent
  | PartialBlinded hash => Ok (PartialBlinded hash)
  | PartialPresent data => result_map (f data) PartialPresent
  end.

(** What bincode reads of some bytes, and the bytes it leaves; [None] is an error. *)
Definition Parser (T : Type) : Type := list Z -> option (T * list Z).

(** The trait [Deserialiser], with those of its nodes and suspended computations. *)
Class Deserialiser (D : Type) : Type := {
  Store : Type;
  Suspended : Type -> Type;
  DeserialiserNode : Type -> Type;
  into_leaf_raw (LEN : nat) : D -> Store -> outcome (Suspended (Partial (list Z)) * Store) FromProofError;
  into_leaf {T} (parser : Parser T) : D -> Store -> outcome (Suspended (Partial T) * Store) FromProofError;
  into_node : D -> Store -> outcome (DeserialiserNode (Partial unit) * Store) FromProofError;
  next_branch {R T} : DeserialiserNode R -> (D -> Store -> outcome (Suspended T * Store) FromProofError) ->
    Store -> outcome (DeserialiserNode (R * T) * Store) FromProofError;
  node_map {R T} : DeserialiserNode R -> (R -> T) -> DeserialiserNode T;
  done {R} : DeserialiserNode R -> result (Suspended R) FromProofError;
  suspended_map {R T} : Suspended R -> (R -> T) -> Suspended T }.

(** [ProofPart] and [ProofTree]. *)
Inductive ProofPart (T : Type) : Type := PartAbsent | PartPresent (part : T).
Arguments PartAbsent {T}.
Arguments PartPresent {T}.
Notation ProofTree := (ProofPart MerkleProof).

(** ** Deserialising a proof tree *)
Module Owned.

Definition deserialise_as_leaf (proof : ProofTree) : result (Partial (list Z)) FromProofError :=
  match proof with
  | PartAbsent => Ok PartialAbsent
  | PartPresent (Node _) => Err ProofUnexpectedNode
  | PartPresent (Leaf (Blind hash)) => Ok (PartialBlinded hash)
  | PartPresent (Leaf (Read items)) => Ok (PartialPresent items)
  end.
Definition deserialise_as_node (proof : ProofTree) : result (Partial (list ProofTree)) FromProofError :=
  match proof with
  | PartAbsent => Ok PartialAbsent
  | PartPresent (Leaf (Blind hash)) => Ok (PartialBlinded hash)
  | PartPresent (Leaf (Read _)) => Err ProofUnexpectedLeaf
  | PartPresent (Node trees) => Ok (PartialPresent (map PartPresent trees))
  end.

(** [binary::deserialise] refuses trailing bytes. *)
Definition deserialise_all {T} (parser : Parser T) (data : list Z) : result T FromProofError :=
  match parser data with Some (value, []) => Ok value | _ => Err FromDeserialise end.

Definition into_leaf_raw (LEN : nat) (proof : ProofTree) : result (Partial (list Z)) FromProofError :=
  leaf <-! deserialise_as_leaf proof ;;
  map_present_fallible leaf (fun data =>
    if (length data =? LEN)%nat then Ok data else Err (UnexpectedLeafSize LEN (length data))).
Definition into_leaf {T} (parser : Parser T) (proof : ProofTree) : result (Partial T) FromProofError :=
  leaf <-! deserialise_as_leaf proof ;; map_present_fallible leaf (deserialise_all parser).

(** [OwnedBranchComb]. *)
Record BranchComb (R : Type) : Type := mkBranchComb { comb_result : R; node_data : Partial (list ProofTree) }.
Arguments mkBranchComb {R}.
Arguments comb_result {R}.
Arguments node_data {R}.

Definition branch_comb_new (branches : Partial (list ProofTree)) : BranchComb (Partial unit) :=
  mkBranchComb (map_present branches (fun _ => tt)) branches.
Definition into_node (proof : ProofTree) : result (BranchComb (Partial unit)) FromProofError :=
  result_map (deserialise_as_node proof) branch_comb_new.
(** The branch to parse next, and the others. *)
Definition pop_branch (node : Partial (list ProofTree)) : result (ProofTree * Partial (list ProofTree)) FromProofError :=
  match node with
  | PartialAbsent | PartialBlinded _ => Ok (PartAbsent, node)
  | PartialPresent (branch :: branches) => Ok (branch, PartialPresent branches)
  | PartialPresent [] => Err (BadNumberOfBranches 1 0)
  end.
Definition next_branch {R T} (node : BranchComb R)
    (branch_deserialiser : ProofTree -> unit -> outcome (T * unit) FromProofError) (_ : unit)
  : outcome (BranchComb (R * T) * unit) FromProofError :=
  '(branch, rest) <-$ Some (pop_branch (node_data node)) ;;
  '(br_comb, _) <-$ branch_deserialiser branch tt ;;
  Some (Ok (mkBranchComb (comb_result node, br_comb) rest, tt)).
Definition node_map {R T} (node : BranchComb R) (f : R -> T) : BranchComb T :=
  mkBranchComb (f (comb_result node)) (node_data node).
Definition done {R} (node : BranchComb R) : result R FromProofError :=
  match node_data node with
  | PartialPresent (b :: branches) => Err (BadNumberOfBranches 0 (length (b :: branches)))
  | _ => Ok (comb_result node)
  end.
End Owned.

(** The type of [ProofTreeDeserialiser]. *)
Notation ProofTreeDeserialiser := ProofTree.
#[export] Instance owned_deserialiser : Deserialiser ProofTreeDeserialiser := {
  Store := unit; Suspended R := R; DeserialiserNode := Owned.BranchComb;
  into_leaf_raw LEN d st := Some (result_map (Owned.into_leaf_raw LEN d) (fun p => (p, st)));
  into_leaf T parser d st := Some (result_map (Owned.into_leaf parser d) (fun p => (p, st)));
  into_node d st := Some (result_map (Owned.into_node d) (fun n => (n, st)));
  next_branch _ _ := Owned.next_branch; node_map _ _ := Owned.node_map; done _ := Owned.done;
  suspended_map _ _ r f := f r }.

(** ** Deserialising a stream of bytes *)
Module Stream.

(** [TagIter]: the tags not yet consumed, and the bytes after them. *)
Record TagIter : Type := mkTagIter { buffered_tags : list (result Tag DeserialiseError); raw_data : list Z }.
Definition tag_iter_new (raw : list Z) : TagIter := mkTagIter [] raw.
Definition tag_iter_next (it : TagIter) : option (result Tag DeserialiseError) * TagIter :=
  match buffered_tags it with
  | tag :: tags => (Some tag, mkTagIter tags (raw_data it))
  | [] =>
      match raw_data it with
      | [] => (None, it)
      | byte :: raw =>
          match ordered_tags_from_u8 byte with
          | tag :: tags => (Some tag, mkTagIter tags raw)
          | [] => (None, mkTagIter [] raw)
          end
      end
  end.

Inductive StreamDeserialiser : Type := Absent | Present.

(** [next_tag]; the outer [None] is that of an absent parent. *)
Definition next_tag (d : StreamDeserialiser) (tags : TagIter) : option (result Tag FromProofError) * TagIter :=
  match d with
  | Absent => (None, tags)
  | Present =>
      let '(tag, tags) := tag_iter_next tags in
      (Some (match tag with
             | None => Err (FromTagDeserialise NotEnoughBytes)
             | Some tag => result_map_err tag FromTagDeserialise
             end), tags)
  end.

(** A suspended computation reads the input; [f] is its closure. *)
Definition ParserComb (R : Type) : Type := list Z -> result (R * list Z) FromProofError.
Definition comb_map {R T} (c : ParserComb R) (f : R -> T) : ParserComb T :=
  fun input => result_map (c input) (fun '(r, input) => (f r, input)).
Definition comb_pure {R} (r : R) : ParserComb R := fun input => Ok (r, input).
(** [StreamInput::deserialise]; a [Hash] is its digest. *)
Definition input_deserialise {T} (parser : Parser T) : ParserComb T :=
  fun input => match parser input with Some r => Ok r | None => Err FromDeserialise end.
Definition hash_parser : Parser Hash :=
  fun input => match next_bytes (Z.to_nat DIGEST_SIZE) input with
               | Ok (digest, input) => Some (mkHash digest, input)
               | Err _ => None
               end.
Definition blinded_hash {T} : ParserComb (Partial T) := comb_map (input_deserialise hash_parser) PartialBlinded.

(** What both [into_leaf] do; [read] is the parser of a leaf that is read. *)
Definition leaf_of_tag {T} (read : ParserComb T) (d : StreamDeserialiser) (tags : TagIter)
  : outcome (ParserComb (Partial T) * TagIter) FromProofError :=
  let '(tag, tags) := next_tag d tags in
  match tag with
  | None => Some (Ok (comb_pure PartialAbsent, tags))
  | Some (Err e) => Some (Err e)
  | Some (Ok NodeTag) => Some (Err ProofUnexpectedNode)
  | Some (Ok (TagOfLeaf BlindTag)) => Some (Ok (blinded_hash, tags))
  | Some (Ok (TagOfLeaf ReadTag)) => Some (Ok (comb_map read PartialPresent, tags))
  end.
Definition into_leaf_raw (LEN : nat) : StreamDeserialiser -> TagIter ->
    outcome (ParserComb (Partial (list Z)) * TagIter) FromProofError :=
  leaf_of_tag (fun input => result_map_err (next_bytes LEN input) FromTagDeserialise).
Definition into_leaf {T} (parser : Parser T) : StreamDeserialiser -> TagIter ->
    outcome (ParserComb (Partial T) * TagIter) FromProofError := leaf_of_tag (input_deserialise parser).

(** [StreamBranchComb]; the state is [None] below a blinded or absent node. *)
Record BranchComb (R : Type) : Type := mkBranchComb { comb : ParserComb R; node_state : bool }.
Arguments mkBranchComb {R}.
Arguments comb {R}.
Arguments node_state {R}.

Definition into_node (d : StreamDeserialiser) (tags : TagIter)
  : outcome (BranchComb (Partial unit) * TagIter) FromProofError :=
  let '(tag, tags) := next_tag d tags in
  match tag with
  | None => Some (Ok (mkBranchComb (comb_pure PartialAbsent) false, tags))
  | Some (Err e) => Some (Err e)
  | Some (Ok (TagOfLeaf ReadTag)) => Some (Err ProofUnexpectedLeaf)
  | Some (Ok (TagOfLeaf BlindTag)) => Some (Ok (mkBranchComb blinded_hash false, tags))
  | Some (Ok NodeTag) => Some (Ok (mkBranchComb (comb_pure (PartialPresent tt)) true, tags))
  end.
Definition next_branch {R T} (node : BranchComb R)
    (branch_deserialiser : StreamDeserialiser -> TagIter -> outcome (ParserComb T * TagIter) FromProofError) (tags : TagIter)
  : outcome (BranchComb (R * T) * TagIter) FromProofError :=
  let child_proof := if node_state node then Present else Absent in
  '(next_branch_fn, tags) <-$ branch_deserialiser child_proof tags ;;
  Some (Ok (mkBranchComb (fun input =>
    '(r, input) <-! comb node input ;; '(br_res, input) <-! next_branch_fn input ;; Ok ((r, br_res), input))
    (node_state node), tags)).
Definition node_map {R T} (node : BranchComb R) (f : R -> T) : BranchComb T :=
  mkBranchComb (comb_map (comb node) f) (node_state node).
Definition done {R} (node : BranchComb R) : result (ParserComb R) FromProofError := Ok (comb node).
End Stream.

#[export] Instance stream_deserialiser : Deserialiser Stream.StreamDeserialiser := {
  Store := Stream.TagIter; Suspended := Stream.ParserComb; DeserialiserNode := Stream.BranchComb;
  into_leaf_raw := Stream.into_leaf_raw; into_leaf _ := Stream.into_leaf; into_node := Stream.into_node;
  next_branch _ _ := Stream.next_branch; node_map _ _ := Stream.node_map; done _ := Stream.done;
  suspended_map _ _ := Stream.comb_map }.
