(* ===== verification/Layouts.v ===== *)
(** * Layouts

    Models the layouts of the state backend ([src/riscv/lib/src/state_backend/layout.rs])
    and what they say of a state: its commitment ([commitment_layout.rs]), the Merkle
    tree of an execution, the state that a verifier reads from a proof, and the
    commitment to that partial state ([proof_layout.rs]); with the layout of the
    control and status registers
    ([src/riscv/lib/src/machine_state/csregisters/values.rs]).

    A layout is a value, and the state allocated for it a type computed from it, as
    the associated type [Layout::Allocated].  [struct_layout!] and the tuples are
    [Struct].  bincode's encoding of the values is a parameter ([Serde]).

    Then how a proof of a step is made and checked: [start_proof], [to_proof] and
    [from_proof] ([src/riscv/lib/src/pvm/common.rs]), [verify_proof]
    ([src/riscv/lib/src/stepper/pvm.rs]) and its copy in
    [src/riscv/lib/src/pvm/node_pvm.rs].  The step of the machine is the same code over any
    manager.  It is any program [Prog] of operations on the regions of the state, found by
    the path of their fields and indexes, that continues with their answers. *)

From stdpp Require Import gmap.
From S2P Require Import Prelude.
From S2P Require Import Bits.
From S2P Require Import Hash.
From S2P Require Import MerkleProof.
From S2P Require Import Merkle.
From S2P Require Import Backend.
From S2P Require Import BackendSpec.
From S2P Require Import Deserialiser.

(** The types of the cells' elements, their values, and their encoding by bincode. *)
Class Serde : Type := {
  Ty : Type;
  Val : Type;
  serialise_value :: Serialize Val;
  parse_value : Ty -> Parser Val }.

(** ** Layouts *)
Inductive Layout `{Serde} : Type :=
| Atom (T : Ty)
| Array (T : Ty) (LEN : nat)
| DynArray (LEN : Z)
| CSRValuesLayout (CSRRepr : Ty)
| Struct (fields : Fields)
| ArrayOf (LEN : nat) (T : Layout)
| Many (LEN : Z) (T : Layout)
with Fields `{Serde} : Type := NoField | Field (L : Layout) (fields : Fields).

Scheme Layout_mut := Induction for Layout Sort Prop with Fields_mut := Induction for Fields Sort Prop.
Combined Scheme Layout_Fields_ind from Layout_mut, Fields_mut.

Section Fields.
Context `{Serde}.
Fixpoint fields_of (Ls : list Layout) : Fields := match Ls with [] => NoField | L :: Ls => Field L (fields_of Ls) end.
Fixpoint fields_len (fs : Fields) : nat := match fs with NoField => 0 | Field _ fs => S (fields_len fs) end.
End Fields.

(** The fields of [CSRValuesF]. *)
Definition csr_values : nat := 33.

(** [Layout::Allocated]. *)
Section Allocated.
Context `{Serde} (M : Manager Val).
Fixpoint Allocated (L : Layout) : Type :=
  match L with
  | Atom _ | Array _ _ => Region M
  | DynArray _ => DynRegion M
  | CSRValuesLayout _ => list (Region M)
  | Struct fields => AllocatedFields fields
  | ArrayOf _ T | Many _ T => list (Allocated T)
  end
with AllocatedFields (fields : Fields) : Type :=
  match fields with NoField => unit | Field L fields => Allocated L * AllocatedFields fields end.
End Allocated.

Definition lift {A E} (r : result A Panic) : outcome A E := match r with Ok a => Some (Ok a) | Err _ => None end.
(** [collect] on results of functions that may panic. *)
Fixpoint collect_outcomes {A B E} (f : A -> outcome B E) (l : list A) : outcome (list B) E :=
  match l with
  | [] => Some (Ok [])
  | a :: l => b <-$ f a ;; bs <-$ collect_outcomes f l ;; Some (Ok (b :: bs))
  end.

(** ** [CommitmentLayout::state_hash]

    The reads that it makes of a state in proof mode are not kept: nothing looks at
    the log after them. *)
Section Commitment.
Context `{Blake2b, Serde} {M : Manager Val} `{!ManagerSerialise M}.

(** [Hash::blake2b_hash] of some cells. *)
Definition cells_hash (LEN : nat) (r : Region M) : outcome Hash HashError :=
  bytes <-$ lift (serialise_region LEN r) ;; Some (blake2b_hash_bytes bytes).
Definition read_leaf_bytes (LEN : Z) (r : DynRegion M) (address : Z) : option (list Z) :=
  match dyn_region_read LEN (Z.of_nat MERKLE_LEAF_SIZE) r address with Ok (bytes, _) => Some bytes | Err _ => None end.
Definition dyn_cells_hash (LEN : Z) (r : DynRegion M) : outcome Hash HashError :=
  writer <-$ chunks_to_writer hash_writer_write (read_leaf_bytes LEN r) LEN (hash_writer_new MERKLE_LEAF_SIZE) ;;
  hashes <-$ Some (hash_writer_finalise writer) ;;
  build_custom_merkle_hash MERKLE_ARITY hashes.
(** The encoding of a structure of cells is that of its fields in their order. *)
Definition csr_values_hash (cells : list (Region M)) : outcome Hash HashError :=
  bytes <-$ collect_outcomes (fun cell => lift (serialise_region 1 cell)) cells ;; Some (blake2b_hash_bytes (concat bytes)).

Fixpoint state_hash (L : Layout) : Allocated M L -> outcome Hash HashError :=
  match L with
  | Atom _ => cells_hash 1
  | Array _ LEN => cells_hash LEN
  | DynArray LEN => dyn_cells_hash LEN
  | CSRValuesLayout _ => csr_values_hash
  | Struct fields => fun state => hashes <-$ fields_hashes fields state ;; Some (combine hashes)
  | ArrayOf _ T => fun state => hashes <-$ collect_outcomes (state_hash T) state ;; Some (combine hashes)
  | Many _ T => fun state => nodes <-$ collect_outcomes (state_hash T) state ;; build_custom_merkle_hash MERKLE_ARITY nodes
  end
with fields_hashes (fields : Fields) : AllocatedFields M fields -> outcome (list Hash) HashError :=
  match fields with
  | NoField => fun _ => Some (Ok [])
  | Field L fields => fun '(state, states) =>
      hash <-$ state_hash L state ;; hashes <-$ fields_hashes fields states ;; Some (Ok (hash :: hashes))
  end.
End Commitment.

(** ** [ProofLayout::to_merkle_tree] *)
Section MerkleTrees.
Context `{Blake2b, Serde}.
Notation PG := (proof_gen Val).

(** The leaf holds the initial contents, of the wrapped region. *)
Definition cells_tree (LEN : nat) (region : ProofRegion Val) : outcome MerkleTree HashError :=
  let access_info := ProofGen.get_access_info region in
  serialised <-$ lift (Owned.serialise_region LEN (ProofGen.inner_region_ref region)) ;;
  Some (make_merkle_leaf serialised access_info).
Definition dyn_cells_tree (LEN : Z) (region : ProofDynRegion) : outcome MerkleTree HashError :=
  let '(reads, region) := ProofGen.get_read region in
  match merkle_writer_new MERKLE_LEAF_SIZE MERKLE_ARITY reads (ProofGen.get_write region) with
  | None => None
  | Some writer =>
      let read address := match ProofGen.inner_dyn_region_read LEN (Z.of_nat MERKLE_LEAF_SIZE) region address with
                          | Ok bytes => Some bytes
                          | Err _ => None
                          end in
      writer <-$ chunks_to_writer merkle_writer_write read LEN writer ;; merkle_writer_finalise writer
  end.
(** The registers are serialised from the regions of the proof mode. *)
Definition csr_values_tree (cells : list (ProofRegion Val)) : outcome MerkleTree HashError :=
  serialised <-$ collect_outcomes (fun cell => lift (ProofGen.serialise_region 1 cell)) cells ;;
  Some (make_merkle_leaf (concat serialised) (existsb ProofGen.get_access_info cells)).

Fixpoint to_merkle_tree (L : Layout) : Allocated PG L -> outcome MerkleTree HashError :=
  match L with
  | Atom _ => cells_tree 1
  | Array _ LEN => cells_tree LEN
  | DynArray LEN => dyn_cells_tree LEN
  | CSRValuesLayout _ => csr_values_tree
  | Struct fields => fun state => children <-$ fields_trees fields state ;; Some (make_merkle_node children)
  | ArrayOf _ T => fun state => children <-$ collect_outcomes (to_merkle_tree T) state ;; Some (make_merkle_node children)
  | Many _ T => fun state =>
      leaves <-$ collect_outcomes (to_merkle_tree T) state ;; build_custom_merkle_tree MERKLE_ARITY leaves
  end
with fields_trees (fields : Fields) : AllocatedFields PG fields -> outcome (list MerkleTree) HashError :=
  match fields with
  | NoField => fun _ => Some (Ok [])
  | Field L fields => fun '(state, states) =>
      tree <-$ to_merkle_tree L state ;; trees <-$ fields_trees fields states ;; Some (Ok (tree :: trees))
  end.
End MerkleTrees.

(** ** Branches of a node over a long array *)
Definition div_ceil (a b : Z) : Z := (a + b - 1) / b.

(** [work_merkle_params], its iterator as a list. *)
Fixpoint branch_lengths (children : nat) (branch_max_length branch_start length_left : Z) : list (Z * Z) :=
  match children with
  | O => []
  | S children =>
      let this_branch_length := Z.min branch_max_length length_left in
      (branch_start, this_branch_length) ::
        branch_lengths children branch_max_length (saturating_add branch_start this_branch_length)
          (saturating_sub length_left this_branch_length)
  end.
Definition work_merkle_params (CHILDREN : nat) (branch_start length_left : Z) : list (Z * Z) :=
  branch_lengths CHILDREN (div_ceil length_left (Z.of_nat MERKLE_ARITY)) branch_start length_left.

(** [push_work_items_for_branches], with the items it pushes. *)
Definition push_work_items_for_branches {T} (branch_start length_left : Z) (branches : list T) : list (Z * Z * T) :=
  filter (fun '(_, child_length, _) => 0 < child_length)
    (zip (work_merkle_params (length branches) branch_start length_left) branches).

(** ** [ProofLayout::to_verifier_alloc] *)
Section ToVerifierAlloc.
Context `{Serde, RangeSets} {D : Type} `{Deserialiser D}.
Notation V := (verifier Val).
(** A parser of a layout: what it makes of a deserialiser and the shared store. *)
Notation parse T := (D -> Store -> outcome (Suspended T * Store) FromProofError).

(** [n] values of a type, one after the other ([ManagerDeserialise::deserialise_region]). *)
Fixpoint parse_values (T : Ty) (n : nat) : Parser (list Val) :=
  match n with
  | O => fun bytes => Some ([], bytes)
  | S n => fun bytes =>
      match parse_value T bytes with
      | Some (value, bytes) =>
          match parse_values T n bytes with Some (values, bytes) => Some (value :: values, bytes) | None => None end
      | None => None
      end
  end.

Definition cells_alloc (T : Ty) (LEN : nat) : parse (VerifierRegion Val) := fun proof st =>
  '(leaf, st) <-$ into_leaf (parse_values T LEN) proof st ;;
  Some (Ok (suspended_map leaf (fun leaf =>
    match leaf with PartialAbsent | PartialBlinded _ => Absent_ | PartialPresent cells => Partial_ (map Some cells) end), st)).
Definition csr_values_alloc (CSRRepr : Ty) : parse (list (VerifierRegion Val)) := fun proof st =>
  '(leaf, st) <-$ into_leaf (parse_values CSRRepr csr_values) proof st ;;
  Some (Ok (suspended_map leaf (fun leaf =>
    match leaf with
    | PartialAbsent | PartialBlinded _ => replicate csr_values Absent_
    | PartialPresent data => map (fun value => Partial_ [Some value]) data
    end), st)).

(** The recursions over long arrays; [fuel] bounds their depth.  [branch] parses the
    part of a length. *)
Definition parse_branches {T} (branch : Z -> Z -> parse (list T)) (branches : list (Z * Z)) : parse (list T) := fun proof st =>
  '(ctx, st) <-$ into_node proof st ;;
  '(ctx, st) <-$
    (fix go branches (ctx : DeserialiserNode (list T)) st : outcome (DeserialiserNode (list T) * Store) FromProofError :=
       match branches with
       | [] => Some (Ok (ctx, st))
       | (start, length) :: branches =>
           '(ctx, st) <-$ next_branch ctx (branch start length) st ;;
           go branches (node_map ctx (fun '(acc, br_data) => acc ++ br_data)) st
       end) branches (node_map ctx (fun _ => [])) st ;;
  Some (result_map (done ctx) (fun r => (r, st))).

Fixpoint parse_pages (fuel : nat) (start left_length : Z) : parse (list (Z * list Z)) := fun proof st =>
  if left_length <=? Z.of_nat MERKLE_LEAF_SIZE then
    '(ctx, st) <-$ into_leaf_raw MERKLE_LEAF_SIZE proof st ;;
    Some (Ok (suspended_map ctx (fun data =>
      match data with
      | PartialBlinded _ | PartialAbsent => []
      | PartialPresent data => [(page_id start, data)]
      end), st))
  else
    match fuel with
    | O => None
    | S fuel => parse_branches (parse_pages fuel) (work_merkle_params MERKLE_ARITY start left_length) proof st
    end.
Definition dyn_cells_alloc (fuel : nat) (LEN : Z) : parse VerifierDynRegion := fun proof st =>
  '(pages, st) <-$ parse_pages fuel 0 LEN proof st ;; Some (Ok (suspended_map pages from_pages, st)).

Fixpoint parametrised_deserialiser {T} (fuel : nat) (elem : parse T) (length : Z) : parse (list T) := fun proof st =>
  if length =? 1 then
    '(data, st) <-$ elem proof st ;; Some (Ok (suspended_map data (fun data => [data]), st))
  else
    match fuel with
    | O => None
    | S fuel => parse_branches (fun _ => parametrised_deserialiser fuel elem) (work_merkle_params MERKLE_ARITY 0 length) proof st
    end.

(** The loop of [[T; LEN]]. *)
Fixpoint parse_array {T} (elem : parse T) (LEN : nat) (ctx : DeserialiserNode (list T)) (st : Store)
  : outcome (DeserialiserNode (list T) * Store) FromProofError :=
  match LEN with
  | O => Some (Ok (ctx, st))
  | S LEN =>
      '(ctx, st) <-$ next_branch ctx elem st ;;
      parse_array elem LEN (node_map ctx (fun '(acc, br_res) => acc ++ [br_res])) st
  end.

Fixpoint to_verifier_alloc (fuel : nat) (L : Layout) : parse (Allocated V L) :=
  match L with
  | Atom T => cells_alloc T 1
  | Array T LEN => cells_alloc T LEN
  | DynArray LEN => dyn_cells_alloc fuel LEN
  | CSRValuesLayout T => csr_values_alloc T
  | Struct fields => fun proof st =>
      '(ctx, st) <-$ into_node proof st ;;
      '(ctx, st) <-$ branches_alloc fuel fields (node_map ctx (fun _ => tt)) st ;;
      Some (result_map (done (node_map ctx snd)) (fun r => (r, st)))
  | ArrayOf LEN T => fun proof st =>
      '(ctx, st) <-$ into_node proof st ;;
      '(ctx, st) <-$ parse_array (to_verifier_alloc fuel T) LEN (node_map ctx (fun _ => [])) st ;;
      Some (result_map (done ctx) (fun r => (r, st)))
  | Many LEN T => parametrised_deserialiser fuel (to_verifier_alloc fuel T) LEN
  end
with branches_alloc (fuel : nat) (fields : Fields) {R : Type} : DeserialiserNode R -> Store ->
    outcome (DeserialiserNode (R * AllocatedFields V fields) * Store) FromProofError :=
  match fields with
  | NoField => fun ctx st => Some (Ok (node_map ctx (fun acc => (acc, tt)), st))
  | Field L fields => fun ctx st =>
      '(ctx, st) <-$ next_branch ctx (to_verifier_alloc fuel L) st ;;
      '(ctx, st) <-$ branches_alloc fuel fields ctx st ;;
      Some (Ok (node_map ctx (fun '((acc, a), rest) => (acc, (a, rest))), st))
  end.
End ToVerifierAlloc.

(** [deserialise_owned::deserialise] and [deserialise_stream::deserialise]. *)
Definition deserialise_owned `{Serde, RangeSets} (fuel : nat) (L : Layout) (proof : ProofTree)
  : outcome (Allocated (verifier Val) L) FromProofError :=
  '(comp_fn, _) <-$ to_verifier_alloc fuel L proof tt ;; Some (Ok comp_fn).
Definition deserialise_stream `{Serde, RangeSets} (fuel : nat) (L : Layout) (proof_tree_raw_bytes : list Z)
  : outcome (Allocated (verifier Val) L) FromProofError :=
  '(comp_fn, tags) <-$ to_verifier_alloc fuel L Stream.Present (Stream.tag_iter_new proof_tree_raw_bytes) ;;
  Some (result_map (comp_fn (Stream.raw_data tags)) fst).

(** ** [ProofLayout::partial_state_hash] *)
Inductive PartialHashError : Type :=
| PartialHash (e : HashError)
| PartialFromProof (e : FromProofError)
| PotentiallyRecoverable
| Fatal.

(** [ProofTree::into_branches] and [into_leaf]. *)
Definition into_branches (LEN : nat) (self : ProofTree) : result (list ProofTree) FromProofError :=
  match self with
  | PartAbsent => Ok (replicate LEN PartAbsent)
  | PartPresent (Node branches) =>
      if (length branches =? LEN)%nat then Ok (map PartPresent branches)
      else Err (BadNumberOfBranches LEN (length branches))
  | PartPresent (Leaf (Blind _)) => Ok (replicate LEN PartAbsent)
  | PartPresent (Leaf (Read _)) => Err ProofUnexpectedLeaf
  end.
Definition proof_into_leaf (self : ProofTree) : result (ProofPart (list Z)) FromProofError :=
  match self with
  | PartPresent (Node _) => Err ProofUnexpectedNode
  | PartPresent (Leaf (Blind _)) => Ok PartAbsent
  | PartPresent (Leaf (Read data)) => Ok (PartPresent data)
  | PartAbsent => Ok PartAbsent
  end.

Definition into_branches_with_hash (LEN : nat) (self : ProofTree) : result (list ProofTree * option Hash) PartialHashError :=
  match self with
  | PartAbsent => Ok (replicate LEN PartAbsent, None)
  | PartPresent (Node branches) =>
      if negb (length branches =? LEN)%nat then Err (PartialFromProof (BadNumberOfBranches LEN (length branches)))
      else Ok (map PartPresent branches, None)
  | PartPresent (Leaf (Blind hash)) => Ok (replicate LEN PartAbsent, Some hash)
  | PartPresent (Leaf (Read _)) => Err (PartialFromProof ProofUnexpectedLeaf)
  end.

Section PartialHash.
Context `{Blake2b, Serde, RangeSets}.
Notation V := (verifier Val).

Definition partial_hash_leaf (self : ProofTree) : result Hash PartialHashError :=
  match self with
  | PartAbsent => Err PotentiallyRecoverable
  | PartPresent (Node _) => Err (PartialFromProof ProofUnexpectedNode)
  | PartPresent (Leaf (Blind hash)) => Ok hash
  | PartPresent (Leaf (Read data)) => result_map_err (blake2b_hash_bytes data) PartialHash
  end.

(** The loop of [combine_partial_hashes]. *)
Fixpoint expected_hashes (expect_ok : bool) (hash_results : list (result Hash PartialHashError))
  : result (list Hash) PartialHashError :=
  match hash_results with
  | [] => Ok []
  | r :: hash_results =>
      match r, expect_ok with
      | Ok hash, true => result_map (expected_hashes expect_ok hash_results) (cons hash)
      | Err PotentiallyRecoverable, false => expected_hashes expect_ok hash_results
      | _, _ => Err Fatal
      end
  end.
Definition combine_partial_hashes (hash_results : list (result Hash PartialHashError)) (proof_hash : option Hash)
  : result Hash PartialHashError :=
  match hash_results with
  | [] => result_map_err (combine []) PartialHash
  | Ok _ :: _ => hashes <-! expected_hashes true hash_results ;; result_map_err (combine hashes) PartialHash
  | Err PotentiallyRecoverable :: _ =>
      _ <-! expected_hashes false hash_results ;;
      match proof_hash with Some hash => Ok hash | None => Err PotentiallyRecoverable end
  | _ => Err Fatal
  end.

(** [CompleteRegionRef::serialize]. *)
Definition complete_region_bytes (LEN : nat) (region : list Val) : list Z :=
  if (LEN =? 1)%nat then match region with value :: _ => serialize value | [] => [] end
  else concat (map serialize region).

Definition cells_partial_hash (LEN : nat) (region : VerifierRegion Val) (proof : ProofTree) : result Hash PartialHashError :=
  match Verifier.get_partial_region region with
  | Complete region => result_map_err (blake2b_hash_bytes (complete_region_bytes LEN region)) PartialHash
  | AbsentState => partial_hash_leaf proof
  | Incomplete => Err Fatal
  end.

(** [TryFrom] of a verifier's cell for an owned one. *)
Definition owned_cell_try_from (cell : VerifierRegion Val) : result Val PartialHashError :=
  match cell with
  | Partial_ [Some v] => Ok v
  | _ => Err PotentiallyRecoverable
  end.
Definition csr_values_partial_hash (cells : list (VerifierRegion Val)) (proof : ProofTree) : outcome Hash PartialHashError :=
  match collect_results owned_cell_try_from cells with
  | Ok values =>
      option_map (fun r => result_map_err r PartialHash) (csr_values_hash (M := owned Val) (map (fun v => [v]) values))
  | Err _ => Some (partial_hash_leaf proof)
  end.

(** *** The queue of events

    [DynArray] and [Many] differ in the spans that are leaves, and in the hash of a
    leaf, which for [Many] comes off an iterator [St] over the state. *)
Inductive Event : Type := Span (start length : Z) (tree : ProofTree) | NodeEvent (proof_hash : option Hash).

Section Events.
Context {St : Type} (is_leaf : Z -> bool)
  (leaf : Z -> ProofTree -> St -> outcome (result Hash PartialHashError * St) PartialHashError).

Fixpoint hash_events (fuel : nat) (queue : list Event) (hashes : list (result Hash PartialHashError)) (st : St)
  : outcome (list (result Hash PartialHashError)) PartialHashError :=
  match queue with
  | [] => Some (Ok hashes)
  | event :: queue =>
      match fuel with
      | O => None
      | S fuel =>
          match event with
          | Span start length tree =>
              if is_leaf length then
                '(hash, st) <-$ leaf start tree st ;; hash_events fuel queue (hashes ++ [hash]) st
              else
                '(branches, proof_hash) <-$ Some (into_branches_with_hash MERKLE_ARITY tree) ;;
                let spans := map (fun '(branch_start, branch_length, branch) => Span branch_start branch_length branch)
                  (push_work_items_for_branches start length branches) in
                hash_events fuel (queue ++ spans ++ [NodeEvent proof_hash]) hashes st
          | NodeEvent proof_hash =>
              match hashes with
              | [] => hash_events fuel (queue ++ [NodeEvent proof_hash]) hashes st
              | _ =>
                  if (length hashes <? MERKLE_ARITY)%nat then Some (Err Fatal)
                  else
                    let rest := take (length hashes - MERKLE_ARITY) hashes in
                    let node_hashes := drop (length hashes - MERKLE_ARITY) hashes in
                    hash_events fuel queue (rest ++ [combine_partial_hashes node_hashes proof_hash]) st
              end
          end
      end
  end.
Definition events_hash (fuel : nat) (LEN : Z) (proof : ProofTree) (st : St) : outcome Hash PartialHashError :=
  hashes <-$ hash_events fuel [Span 0 LEN proof] [] st ;;
  match hashes with
  | [hash] => Some hash
  | _ => Some (Err Fatal)
  end.
End Events.

Definition page_leaf (state : VerifierDynRegion) (start : Z) (tree : ProofTree) (_ : unit)
  : outcome (result Hash PartialHashError * unit) PartialHashError :=
  match get_partial_page state (page_id start) with
  | AbsentState => Some (Ok (partial_hash_leaf tree, tt))
  | Complete data =>
      match blake2b_hash_bytes data with
      | Ok hash => Some (Ok (Ok hash, tt))
      | Err e => Some (Err (PartialHash e))
      end
  | Incomplete => Some (Err Fatal)
  end.
Definition dyn_cells_partial_hash (fuel : nat) (LEN : Z) (state : VerifierDynRegion) (proof : ProofTree)
  : outcome Hash PartialHashError :=
  events_hash (fun length => length <=? Z.of_nat MERKLE_LEAF_SIZE) (page_leaf state) fuel LEN proof tt.

(** A leaf of [Many] takes the next element of the state. *)
Definition element_leaf {A} (element_hash : A -> ProofTree -> outcome Hash PartialHashError) (_ : Z) (tree : ProofTree)
    (state : list A) : outcome (result Hash PartialHashError * list A) PartialHashError :=
  match state with
  | [] => Some (Err Fatal)
  | a :: state => match element_hash a tree with Some r => Some (Ok (r, state)) | None => None end
  end.

(** The hashes of the elements of [[T; LEN]], zipped with the branches. *)
Fixpoint zip_hashes {A} (element_hash : A -> ProofTree -> outcome Hash PartialHashError) (state : list A)
    (branches : list ProofTree) : option (list (result Hash PartialHashError)) :=
  match state, branches with
  | a :: state, branch :: branches =>
      match element_hash a branch with
      | Some r => option_map (cons r) (zip_hashes element_hash state branches)
      | None => None
      end
  | _, _ => Some []
  end.

Fixpoint partial_state_hash (fuel : nat) (L : Layout) : Allocated V L -> ProofTree -> outcome Hash PartialHashError :=
  match L with
  | Atom _ => fun state proof => Some (cells_partial_hash 1 state proof)
  | Array _ LEN => fun state proof => Some (cells_partial_hash LEN state proof)
  | DynArray LEN => dyn_cells_partial_hash fuel LEN
  | CSRValuesLayout _ => csr_values_partial_hash
  | Struct fields => fun state proof =>
      '(branches, proof_hash) <-$ Some (into_branches_with_hash (fields_len fields) proof) ;;
      match fields_partial_hashes fuel fields state branches with
      | Some hashes => Some (combine_partial_hashes hashes proof_hash)
      | None => None
      end
  | ArrayOf LEN T => fun state proof =>
      '(branches, proof_hash) <-$ Some (into_branches_with_hash LEN proof) ;;
      match zip_hashes (partial_state_hash fuel T) state branches with
      | Some hashes => Some (combine_partial_hashes hashes proof_hash)
      | None => None
      end
  | Many LEN T => fun state proof =>
      events_hash (fun length => length =? 1) (element_leaf (partial_state_hash fuel T)) fuel LEN proof state
  end
with fields_partial_hashes (fuel : nat) (fields : Fields) : AllocatedFields V fields -> list ProofTree ->
    option (list (result Hash PartialHashError)) :=
  match fields with
  | NoField => fun _ _ => Some []
  | Field L fields => fun '(state, states) branches =>
      match branches with
      | [] => Some []
      | branch :: branches =>
          match partial_state_hash fuel L state branch with
          | Some r => option_map (cons r) (fields_partial_hashes fuel fields states branches)
          | None => None
          end
      end
  end.
End PartialHash.

(** ** Programs *)
Section Programs.
Context `{Serde}.

Inductive Op : Type := OnRegion (op : RegionOp Val) | OnDynRegion (op : DynRegionOp).
Definition Answer : Type := list Val + list Z.

Inductive Prog (A : Type) : Type :=
| Ret (a : A)
| Perform (path : list nat) (op : Op) (k : Answer -> Prog A).
Arguments Ret {A}.
Arguments Perform {A}.

Context (M : Manager Val).

Definition on_region (LEN : nat) (op : Op) (r : Region M) : result (Answer * Region M) Panic :=
  match op with
  | OnRegion op => '(values, r) <-! region_op M LEN op r ;; Ok (inl values, r)
  | OnDynRegion _ => Err Panicked
  end.
Definition on_dyn_region (LEN : Z) (op : Op) (r : DynRegion M) : result (Answer * DynRegion M) Panic :=
  match op with
  | OnRegion _ => Err Panicked
  | OnDynRegion op => '(bytes, r) <-! dyn_region_op M LEN op r ;; Ok (inr bytes, r)
  end.
(** An operation on the element of a vector; indexing panics past the end. *)
Definition on_element {A} (f : A -> result (Answer * A) Panic) (i : nat) (state : list A) : result (Answer * list A) Panic :=
  match state !! i with
  | Some a => '(ans, a) <-! f a ;; Ok (ans, <[i := a]> state)
  | None => Err Panicked
  end.

Fixpoint perform (L : Layout) (path : list nat) (op : Op) : Allocated M L -> result (Answer * Allocated M L) Panic :=
  match L with
  | Atom _ => fun state => match path with [] => on_region 1 op state | _ => Err Panicked end
  | Array _ LEN => fun state => match path with [] => on_region LEN op state | _ => Err Panicked end
  | DynArray LEN => fun state => match path with [] => on_dyn_region LEN op state | _ => Err Panicked end
  | CSRValuesLayout _ => fun state => match path with [i] => on_element (on_region 1 op) i state | _ => Err Panicked end
  | Struct fields => fun state => match path with i :: path => perform_field fields i path op state | [] => Err Panicked end
  | ArrayOf _ T | Many _ T => fun state =>
      match path with i :: path => on_element (perform T path op) i state | [] => Err Panicked end
  end
with perform_field (fields : Fields) (i : nat) (path : list nat) (op : Op)
  : AllocatedFields M fields -> result (Answer * AllocatedFields M fields) Panic :=
  match fields with
  | NoField => fun _ => Err Panicked
  | Field L fields => fun '(state, states) =>
      match i with
      | O => '(ans, state) <-! perform L path op state ;; Ok (ans, (state, states))
      | S i => '(ans, states) <-! perform_field fields i path op states ;; Ok (ans, (state, states))
      end
  end.

Fixpoint run {A} (L : Layout) (p : Prog A) (state : Allocated M L) : result (A * Allocated M L) Panic :=
  match p with
  | Ret a => Ok (a, state)
  | Perform path op k => '(ans, state) <-! perform L path op state ;; run L (k ans) state
  end.
End Programs.
Arguments Ret {_ A}.
Arguments Perform {_ A}.

(** ** [start_proof]: every region wrapped by [ProofWrapper] *)
Section StartProof.
Context `{Serde}.
Fixpoint start_proof (L : Layout) : Allocated (owned Val) L -> Allocated (proof_gen Val) L :=
  match L with
  | Atom _ | Array _ _ => ProofGen.bind
  | DynArray _ => ProofGen.dyn_bind
  | CSRValuesLayout _ => map ProofGen.bind
  | Struct fields => start_proof_fields fields
  | ArrayOf _ T | Many _ T => map (start_proof T)
  end
with start_proof_fields (fields : Fields) : AllocatedFields (owned Val) fields -> AllocatedFields (proof_gen Val) fields :=
  match fields with
  | NoField => fun states => states
  | Field L fields => fun '(state, states) => (start_proof L state, start_proof_fields fields states)
  end.
End StartProof.

Section Proofs.
Context `{Blake2b, Serde, RangeSets}.
Notation PG := (proof_gen Val).
Notation V := (verifier Val).

(** [Pvm::to_proof]. *)
Definition to_proof (L : Layout) (pvm : Allocated PG L) : outcome Proof_ HashError :=
  tree <-$ to_merkle_tree L pvm ;;
  merkle_proof <-$ to_merkle_proof tree ;;
  final_hash <-$ state_hash L pvm ;;
  Some (Ok (mkProof final_hash merkle_proof)).

(** [Proof::initial_state_hash], which expects that hashing succeeds. *)
Definition initial_state_hash (proof : Proof_) : option Hash :=
  match root_hash (partial_tree proof) with Some (Ok hash) => Some hash | _ => None end.

(** A step in proof mode, and its proof, for which the step must succeed
    ([PvmStepper::produce_proof], and [NodePvm::produce_proof] with an input). *)
Definition produce_proof (L : Layout) (step : Prog bool) (state : Allocated (owned Val) L) : result (option Proof_) Panic :=
  '(stepped, proof_state) <-! run PG L step (start_proof L state) ;;
  if stepped then
    match to_proof L proof_state with
    | Some (Ok proof) => Ok (Some proof)
    | Some (Err _) => Ok None
    | None => Err Panicked
    end
  else Ok None.

Inductive ProofVerificationFailure : Type :=
| UnexpectedProofShape
| StepperError
| StepperPanic
| AbsentDataAccess
| VerifyPartialHash (e : PartialHashError)
| FinalHashMismatch (expected computed : Hash).

(** [handle_stepper_panics]. *)
Definition handle_stepper_panics {R} (f : result R Panic) : result R ProofVerificationFailure :=
  match f with
  | Ok res => Ok res
  | Err NotFound => Err AbsentDataAccess
  | Err Panicked => Err StepperPanic
  end.
(** [try_step_partial]; the step says whether it succeeded. *)
Definition try_step_partial (L : Layout) (step : Prog bool) (stepper : Allocated V L)
  : result (Allocated V L) ProofVerificationFailure :=
  '(stepped, stepper) <-! handle_stepper_panics (run V L step stepper) ;;
  if negb stepped then Err StepperError else Ok stepper.

(** [fuel] bounds the recursions of [to_verifier_alloc] and the queues of
    [partial_state_hash]. *)
Definition verify_proof (fuel : nat) (L : Layout) (step : Prog bool) (proof : Proof_) : outcome unit ProofVerificationFailure :=
  let proof_tree := PartPresent (partial_tree proof) in
  space <-$ option_map (fun r => result_map_err r (fun _ => UnexpectedProofShape)) (deserialise_owned fuel L proof_tree) ;;
  stepper <-$ Some (try_step_partial L step space) ;;
  final_hash <-$ option_map (fun r => result_map_err r VerifyPartialHash) (partial_state_hash fuel L stepper proof_tree) ;;
  Some (if decide (final_hash = final_state_hash proof) then Ok tt
        else Err (FinalHashMismatch (final_state_hash proof) final_hash)).
End Proofs.
