(* ===== verification/LayoutsSpec.v ===== *)
(** * Layouts: commitments and Merkle trees

    The data that a layout commits to, as a tree of bytes; the hash of a state is its
    root, over the owned manager and over the one of the proof mode; and the Merkle
    tree of an execution is that of the initial state, with the leaves that were
    accessed.

    The tree of an execution is a function of the state: it is valid, its root is the hash
    of the initial state, and a leaf is accessed when its region or one of its addresses
    was. *)

From stdpp Require Import gmap.
From S2P Require Import Prelude.
From S2P Require Import Hash.
From S2P Require Import MerkleProof.
From S2P Require Import Merkle.
From S2P Require Import MerkleSpec.
From S2P Require Import Backend.
From S2P Require Import BackendSpec.
From S2P Require Import DynBackendSpec.
From S2P Require Import Deserialiser.
From S2P Require Import Layouts.

Lemma obind_ok {A B E} (a : A) (k : A -> outcome B E) : obind (Some (Ok a)) k = k a.
Proof. reflexivity. Qed.
Lemma collect_outcomes_map {A B E} (f : A -> outcome B E) (g : A -> B) l : Forall (fun a => f a = Some (Ok (g a))) l ->
  collect_outcomes f l = Some (Ok (map g l)).
Proof. induction 1 as [|a l Ha _ IH]; [reflexivity|]. cbn. rewrite Ha, obind_ok, IH. reflexivity. Qed.

Lemma Forall_of_map {A B} (f : A -> B) (P : B -> Prop) l : Forall P (map f l) -> Forall (fun a => P (f a)) l.
Proof. apply Forall_map. Qed.

Lemma leaf_size_pos : (0 < MERKLE_LEAF_SIZE)%nat.
Proof. unfold MERKLE_LEAF_SIZE. lia. Qed.

(** ** Layouts whose arrays the verifier can take apart

    The depth of the tree over [LEN] leaves; arrays have a power of four of them. *)
Definition depth (LEN : Z) : nat := Z.to_nat (Z.log2 LEN / 2).
Definition pages_of (LEN : Z) : Z := LEN / LEAF_SIZE.

(** What the regions of a manager say of owned ones, for all of a state. *)
Section Views.
Context `{Serde} {M : Manager Val} (view_cell : Region M -> list Val) (view_dyn : DynRegion M -> list Z).
Fixpoint view_state (L : Layout) : Allocated M L -> Allocated (owned Val) L :=
  match L with
  | Atom _ | Array _ _ => view_cell
  | DynArray _ => view_dyn
  | CSRValuesLayout _ => map view_cell
  | Struct fields => view_fields fields
  | ArrayOf _ T | Many _ T => map (view_state T)
  end
with view_fields (fields : Fields) : AllocatedFields M fields -> AllocatedFields (owned Val) fields :=
  match fields with
  | NoField => fun gs => gs
  | Field L fields => fun '(g, gs) => (view_state L g, view_fields fields gs)
  end.
End Views.
(** The initial state that a state in proof mode wraps, and the one that it stands for. *)
Notation source_state := (view_state (M := proof_gen Val) source dyn_source).
Notation source_fields := (view_fields (M := proof_gen Val) source dyn_source).
Notation current_state := (view_state (M := proof_gen Val) current dyn_current).
Notation current_fields := (view_fields (M := proof_gen Val) current dyn_current).

Section Layouts.
Context `{Serde}.

Fixpoint layout_ok (L : Layout) : Prop :=
  match L with
  | Atom _ | Array _ _ | CSRValuesLayout _ => True
  | DynArray LEN => LEN = LEAF_SIZE * 4 ^ Z.of_nat (depth (pages_of LEN)) /\ LEN <= usize_MAX
  | Struct fields => fields_ok fields
  | ArrayOf _ T => layout_ok T
  | Many LEN T => (LEN = 4 ^ Z.of_nat (depth LEN) /\ LEN <= usize_MAX) /\ layout_ok T
  end
with fields_ok (fields : Fields) : Prop :=
  match fields with NoField => True | Field L fields => layout_ok L /\ fields_ok fields end.

(** The lengths that the types of the source give. *)
Notation O := (owned Val).
Notation PG := (proof_gen Val).

Fixpoint sized (L : Layout) : Allocated O L -> Prop :=
  match L with
  | Atom _ => fun s => length s = 1%nat
  | Array _ LEN => fun s => length s = LEN
  | DynArray LEN => fun s => Z.of_nat (length s) = LEN
  | CSRValuesLayout _ => fun s => length s = csr_values /\ Forall (fun c => length c = 1%nat) s
  | Struct fields => fields_sized fields
  | ArrayOf LEN T => fun s => length s = LEN /\ Forall (sized T) s
  | Many LEN T => fun s => Z.of_nat (length s) = LEN /\ Forall (sized T) s
  end
with fields_sized (fields : Fields) : AllocatedFields O fields -> Prop :=
  match fields with
  | NoField => fun _ => True
  | Field L fields => fun '(s, ss) => sized L s /\ fields_sized fields ss
  end.

(** ** States in proof mode *)

(** A region without an access has no writes. *)
Definition region_wf (LEN : nat) (g : ProofRegion Val) : Prop :=
  length (source g) = LEN /\ (access g = false -> writes g = ∅).
Fixpoint proof_wf (L : Layout) : Allocated PG L -> Prop :=
  match L with
  | Atom _ => region_wf 1
  | Array _ LEN => region_wf LEN
  | DynArray LEN => fun g => Z.of_nat (length (dyn_source g)) = LEN
  | CSRValuesLayout _ => fun g => length g = csr_values /\ Forall (region_wf 1) g
  | Struct fields => fields_wf fields
  | ArrayOf LEN T => fun g => length g = LEN /\ Forall (proof_wf T) g
  | Many LEN T => fun g => Z.of_nat (length g) = LEN /\ Forall (proof_wf T) g
  end
with fields_wf (fields : Fields) : AllocatedFields PG fields -> Prop :=
  match fields with
  | NoField => fun _ => True
  | Field L fields => fun '(g, gs) => proof_wf L g /\ fields_wf fields gs
  end.

(** The registers hold in the end what they held in the beginning. *)
Fixpoint csrs_kept (L : Layout) : Allocated O L -> Allocated O L -> Prop :=
  match L with
  | Atom _ | Array _ _ | DynArray _ => fun _ _ => True
  | CSRValuesLayout _ => fun s0 s => s = s0
  | Struct fields => fields_csrs_kept fields
  | ArrayOf _ T | Many _ T => Forall2 (csrs_kept T)
  end
with fields_csrs_kept (fields : Fields) : AllocatedFields O fields -> AllocatedFields O fields -> Prop :=
  match fields with
  | NoField => fun _ _ => True
  | Field L fields => fun '(s0, ss0) '(s, ss) => csrs_kept L s0 s /\ fields_csrs_kept fields ss0 ss
  end.

(** ** The data of a state *)
Definition cells_bytes (s : list Val) : list Z := concat (map serialize s).
Definition pages (s : list Z) : list (list Z) := chunks MERKLE_LEAF_SIZE s.

Fixpoint commit (L : Layout) : Allocated O L -> Tree (list Z) :=
  match L with
  | Atom _ | Array _ _ => fun s => Leaf (cells_bytes s)
  | DynArray LEN => fun s => perfect Node (depth (pages_of LEN)) (map Leaf (pages s))
  | CSRValuesLayout _ => fun s => Leaf (concat (map cells_bytes s))
  | Struct fields => fun s => Node (commit_fields fields s)
  | ArrayOf _ T => fun s => Node (map (commit T) s)
  | Many LEN T => fun s => perfect Node (depth LEN) (map (commit T) s)
  end
with commit_fields (fields : Fields) : AllocatedFields O fields -> list (Tree (list Z)) :=
  match fields with
  | NoField => fun _ => []
  | Field L fields => fun '(s, ss) => commit L s :: commit_fields fields ss
  end.
End Layouts.

(** The number of leaves of an array that is taken apart. *)
Lemma pow4_length LEN k n : LEN = 4 ^ Z.of_nat k -> Z.of_nat n = LEN -> n = (4 ^ k)%nat.
Proof. intros -> Hn. apply Nat2Z.inj. rewrite Hn, Nat2Z.inj_pow. reflexivity. Qed.
Lemma pages_length LEN k s : LEN = LEAF_SIZE * 4 ^ Z.of_nat k -> Z.of_nat (length s) = LEN ->
  length (pages s) = (4 ^ k)%nat /\ Forall (fun p => length p = MERKLE_LEAF_SIZE) (pages s).
Proof.
  intros -> Hs. unfold pages. apply chunks_even; [unfold MERKLE_LEAF_SIZE; lia|].
  apply Nat2Z.inj. rewrite Hs, Nat2Z.inj_mul, Nat2Z.inj_pow. change (Z.of_nat 4) with 4. lia.
Qed.
Lemma pages_lookup s i : (i * MERKLE_LEAF_SIZE < length s)%nat ->
  pages s !! i = Some (slice (4096 * Z.of_nat i) 4096 s).
Proof.
  intros Hi. unfold pages. rewrite chunks_lookup by (exact Hi || unfold MERKLE_LEAF_SIZE; lia).
  unfold slice. change (Z.to_nat 4096) with MERKLE_LEAF_SIZE.
  replace (Z.to_nat (4096 * Z.of_nat i)) with (i * MERKLE_LEAF_SIZE)%nat; [reflexivity|].
  apply Nat2Z.inj. rewrite Z2Nat.id by lia. rewrite Nat2Z.inj_mul. change (Z.of_nat MERKLE_LEAF_SIZE) with 4096. lia.
Qed.

Section Data.
Context `{Blake2bLaws}.
Fixpoint data_root (t : Tree (list Z)) : Hash :=
  match t with
  | Leaf data => mkHash (digest_256 data)
  | Node children => hash_node (map data_root children)
  end.
Lemma data_root_length t : length (digest (data_root t)) = 32%nat.
Proof. destruct t; apply digest_256_length. Qed.
Lemma data_root_perfect k ts : data_root (perfect Node k ts) = perfect hash_node k (map data_root ts).
Proof. apply perfect_map. reflexivity. Qed.
End Data.

(** ** The hash of a state *)
Section StateHash.
Context `{Blake2bLaws, Serde} {M : Manager Val} `{!ManagerSerialise M}.

(** What the regions of a manager say of owned ones. *)
Context (view_cell : Region M -> list Val) (view_dyn : DynRegion M -> list Z).
Hypothesis view_serialise : forall LEN r, length (view_cell r) = LEN -> serialise_region LEN r = Ok (cells_bytes (view_cell r)).
Hypothesis view_read : forall LEN r a, Z.of_nat (length (view_dyn r)) = LEN -> 0 <= a -> a + LEAF_SIZE <= LEN ->
  read_leaf_bytes LEN r a = Some (slice a LEAF_SIZE (view_dyn r)).

Notation view_state := (view_state view_cell view_dyn).
Notation view_fields := (view_fields view_cell view_dyn).

Lemma cells_hash_view LEN r : length (view_cell r) = LEN ->
  cells_hash LEN r = Some (Ok (mkHash (digest_256 (cells_bytes (view_cell r))))).
Proof. intros Hl. unfold cells_hash. rewrite view_serialise by exact Hl. cbn. rewrite blake2b_hash_bytes_ok. reflexivity. Qed.

Lemma items_of_hashes i ps : items_of hash_flush i ps = Ok (map (fun p => mkHash (digest_256 p)) ps).
Proof.
  revert i. induction ps as [|p ps IH]; intros i; [reflexivity|]. cbn [items_of map]. unfold hash_flush at 1.
  rewrite blake2b_hash_bytes_ok. cbn [result_bind]. rewrite IH. reflexivity.
Qed.

Lemma dyn_cells_hash_view LEN r k : LEN = LEAF_SIZE * 4 ^ Z.of_nat k -> Z.of_nat (length (view_dyn r)) = LEN ->
  dyn_cells_hash LEN r = Some (Ok (perfect hash_node k (map (fun p => mkHash (digest_256 p)) (pages (view_dyn r))))).
Proof.
  intros HL Hlen. set (data := view_dyn r) in *. unfold dyn_cells_hash.
  assert (Hbig : LEAF_SIZE <= LEN) by (rewrite HL, leaf_size_eq; pose proof (Z.pow_pos_nonneg 4 (Z.of_nat k) ltac:(lia) ltac:(lia)); lia).
  assert (Hnew : writer_ok MERKLE_LEAF_SIZE (writer_new (T := Hash) MERKLE_LEAF_SIZE))
    by (split; [reflexivity | cbn; unfold MERKLE_LEAF_SIZE; lia]).
  pose proof (chunks_to_writer_spec hash_writer_write (writer_ok MERKLE_LEAF_SIZE) (final_items hash_flush MERKLE_LEAF_SIZE)
    (fun w buf rest Hw => writer_write_final hash_flush MERKLE_LEAF_SIZE leaf_size_pos w buf rest Hw)
    data (read_leaf_bytes LEN r)) as Hspec.
  rewrite <- Hlen in *. specialize (Hspec (fun a Ha Hfit => view_read _ r a eq_refl Ha Hfit) (hash_writer_new MERKLE_LEAF_SIZE) Hbig Hnew).
  assert (Htotal : final_items hash_flush MERKLE_LEAF_SIZE (hash_writer_new MERKLE_LEAF_SIZE) data =
    Ok (map (fun p => mkHash (digest_256 p)) (pages data))).
  { unfold final_items. cbn [w_items w_buffer hash_writer_new writer_new length app]. rewrite items_of_hashes. reflexivity. }
  rewrite Htotal in Hspec. fold data in Hspec |- *. destruct (chunks_to_writer _ _ _ _) as [[w|e]|]; [|discriminate Hspec | contradiction].
  destruct Hspec as [Hw Hitems]. cbn [obind]. unfold hash_writer_finalise.
  rewrite (flush_rest_final hash_flush MERKLE_LEAF_SIZE leaf_size_pos w Hw), <- Hitems. cbn [obind].
  apply build_custom_merkle_hash_perfect. rewrite length_map. apply (pages_length _ k data HL eq_refl).
Qed.

Lemma csr_values_hash_view cells : Forall (fun c => length (view_cell c) = 1%nat) cells ->
  csr_values_hash cells = Some (Ok (mkHash (digest_256 (concat (map cells_bytes (map view_cell cells)))))).
Proof.
  intros Hc. unfold csr_values_hash. rewrite (collect_outcomes_map _ (fun c => cells_bytes (view_cell c))).
  - cbn. rewrite blake2b_hash_bytes_ok, map_map. reflexivity.
  - eapply Forall_impl; [exact Hc|]. intros c Hl. rewrite view_serialise by exact Hl. reflexivity.
Qed.

Lemma state_hash_view : (forall L a, layout_ok L -> sized L (view_state L a) ->
    state_hash L a = Some (Ok (data_root (commit L (view_state L a))))) /\
  (forall fs a, fields_ok fs -> fields_sized fs (view_fields fs a) ->
    fields_hashes fs a = Some (Ok (map data_root (commit_fields fs (view_fields fs a))))).
Proof.
  apply Layout_Fields_ind.
  - intros T a _ Hs. apply cells_hash_view, Hs.
  - intros T LEN a _ Hs. apply cells_hash_view, Hs.
  - intros LEN a [HL _] Hs. cbn [state_hash commit view_state sized] in *. rewrite (dyn_cells_hash_view LEN a _ HL Hs).
    rewrite data_root_perfect, map_map. reflexivity.
  - intros T a _ [_ Hs]. cbn [state_hash commit view_state] in *. apply csr_values_hash_view. exact (Forall_of_map view_cell (fun c => length c = 1%nat) a Hs).
  - intros fs IH a Hok Hs. change (state_hash (Struct fs) a) with (hashes <-$ fields_hashes fs a ;; Some (combine hashes)).
    rewrite (IH a Hok Hs), obind_ok, combine_ok. reflexivity.
  - intros LEN T IH a Hok [_ Hs]. cbn [state_hash commit view_state] in *.
    rewrite (collect_outcomes_map _ (fun a => data_root (commit T (view_state T a)))).
    + rewrite obind_ok, combine_ok. cbn [data_root]. unfold hash_node. rewrite !map_map. reflexivity.
    + eapply Forall_impl; [exact (Forall_of_map (view_state T) (sized T) a Hs)|]. intros b Hb. apply IH; assumption.
  - intros LEN T IH a [[HL _] Hok] [Hlen Hs]. cbn [state_hash commit view_state] in *.
    rewrite (collect_outcomes_map _ (fun a => data_root (commit T (view_state T a)))).
    + rewrite obind_ok, (build_custom_merkle_hash_perfect (depth LEN)).
      * rewrite data_root_perfect, !map_map. reflexivity.
      * rewrite length_map in *. exact (pow4_length LEN _ _ HL Hlen).
    + eapply Forall_impl; [exact (Forall_of_map (view_state T) (sized T) a Hs)|]. intros b Hb. apply IH; assumption.
  - intros a _ _. reflexivity.
  - intros L IHL fs IHfs [a aa] [HokL Hok] [HsL Hs].
    change (fields_hashes (Field L fs) (a, aa)) with
      (hash <-$ state_hash L a ;; hashes <-$ fields_hashes fs aa ;; Some (Ok (hash :: hashes))).
    rewrite (IHL a HokL HsL), obind_ok, (IHfs aa Hok Hs), obind_ok. reflexivity.
Qed.
End StateHash.

(** ** The owned manager, and the one of the proof mode *)
Section Managers.
Context `{Blake2bLaws, Serde}.

Lemma owned_serialise_bytes LEN (s : list Val) : length s = LEN -> Owned.serialise_region LEN s = Ok (cells_bytes s).
Proof.
  intros Hl. unfold Owned.serialise_region, cells_bytes. destruct (Nat.eqb_spec LEN 1) as [->|]; [|reflexivity].
  destruct s as [|v [|v' s]]; try discriminate Hl. cbn. rewrite app_nil_r. reflexivity.
Qed.
Lemma owned_read_leaf LEN (s : list Z) a : Z.of_nat (length s) = LEN -> 0 <= a -> a + LEAF_SIZE <= LEN ->
  read_leaf_bytes (M := owned Val) LEN s a = Some (slice a LEAF_SIZE s).
Proof.
  intros Hl Ha Hfit. unfold read_leaf_bytes. cbn [dyn_region_read owned]. unfold Owned.dyn_region_read, Owned.dyn_region_ref.
  destruct (Z.leb_spec (a + LEAF_SIZE) LEN); [reflexivity | lia].
Qed.

Lemma view_owned_id : (forall L (s : Allocated (owned Val) L), view_state (M := owned Val) (fun s => s) (fun s => s) L s = s) /\
  (forall fs (s : AllocatedFields (owned Val) fs), view_fields (M := owned Val) (fun s => s) (fun s => s) fs s = s).
Proof.
  apply Layout_Fields_ind; try (intros; reflexivity).
  - intros T s. apply map_id.
  - intros fs IH s. apply IH.
  - intros LEN T IH s. cbn. rewrite (map_ext _ (fun x => x) IH). apply map_id.
  - intros LEN T IH s. cbn. rewrite (map_ext _ (fun x => x) IH). apply map_id.
  - intros L IHL fs IHfs [s ss]. cbn. f_equal; [apply IHL | apply IHfs].
Qed.

(** The hash of an owned state is the root of its data. *)
Lemma state_hash_owned L (s : Allocated (owned Val) L) : layout_ok L -> sized L s ->
  state_hash (M := owned Val) L s = Some (Ok (data_root (commit L s))).
Proof.
  intros Hok Hs. pose proof (proj1 (state_hash_view (M := owned Val) (fun s => s) (fun s => s) owned_serialise_bytes owned_read_leaf) L s Hok) as Hh.
  rewrite (proj1 view_owned_id L s) in Hh. exact (Hh Hs).
Qed.

Lemma proof_serialise_bytes LEN (g : ProofRegion Val) : length (current g) = LEN ->
  ProofGen.serialise_region LEN g = Ok (cells_bytes (current g)).
Proof.
  intros Hl. unfold ProofGen.serialise_region, cells_bytes. destruct (Nat.eqb_spec LEN 1) as [->|].
  - destruct (current g) as [|v [|v' s]] eqn:Hc; try discriminate Hl.
    rewrite (unrecorded_ref_current g 0 v) by (rewrite Hc; reflexivity). cbn. rewrite app_nil_r. reflexivity.
  - destruct (current g) as [|v0 s] eqn:Hc; [cbn in Hl; subst LEN; reflexivity|].
    set (d := fun i => default v0 ((v0 :: s) !! i)).
    assert (Hd : forall i, (i < length (v0 :: s))%nat -> (v0 :: s) !! i = Some (d i)).
    { intros i Hi. unfold d. destruct (lookup_lt_is_Some_2 (v0 :: s) i Hi) as [y ->]. reflexivity. }
    rewrite (try_map_pure _ d).
    + cbn [result_bind]. do 3 f_equal. rewrite <- Hl. apply map_lookup_seq, Hd.
    + intros i Hi%elem_of_seq. rewrite (unrecorded_ref_current g i (d i)); [reflexivity|]. rewrite Hc. apply Hd. lia.
Qed.
Lemma proof_read_leaf LEN (g : ProofDynRegion) a : Z.of_nat (length (dyn_current g)) = LEN -> 0 <= a -> a + LEAF_SIZE <= LEN ->
  read_leaf_bytes (M := proof_gen Val) LEN g a = Some (slice a LEAF_SIZE (dyn_current g)).
Proof.
  intros Hl Ha Hfit. unfold read_leaf_bytes. cbn [dyn_region_read proof_gen]. unfold ProofGen.dyn_region_read.
  rewrite unrecorded_read_current by assumption. reflexivity.
Qed.

(** The hash of a state in proof mode is that of the state that it stands for. *)
Lemma state_hash_proof L (g : Allocated (proof_gen Val) L) : layout_ok L -> sized L (current_state L g) ->
  state_hash (M := proof_gen Val) L g = Some (Ok (data_root (commit L (current_state L g)))).
Proof. apply (proj1 (state_hash_view (M := proof_gen Val) current dyn_current proof_serialise_bytes proof_read_leaf)). Qed.

(** The lengths of a well-formed state in proof mode. *)
Lemma proof_wf_sized : (forall L g, proof_wf L g -> sized L (source_state L g) /\ sized L (current_state L g)) /\
  (forall fs gs, fields_wf fs gs -> fields_sized fs (source_fields fs gs) /\ fields_sized fs (current_fields fs gs)).
Proof.
  assert (Hlist : forall (T : Layout) (g : list (Allocated (proof_gen Val) T)), Forall (proof_wf T) g ->
    (forall g, proof_wf T g -> sized T (source_state T g) /\ sized T (current_state T g)) ->
    Forall (sized T) (map (source_state T) g) /\ Forall (sized T) (map (current_state T) g)).
  { intros T g Hg IH. split; apply Forall_map; (eapply Forall_impl; [exact Hg|]); intros x Hx; apply IH, Hx. }
  apply Layout_Fields_ind.
  - intros T g [Hl _]. split; [exact Hl|]. cbn. rewrite length_current. exact Hl.
  - intros T LEN g [Hl _]. split; [exact Hl|]. cbn. rewrite length_current. exact Hl.
  - intros LEN g Hl. split; [exact Hl|]. cbn. rewrite length_dyn_current. exact Hl.
  - intros T g [Hl Hg]. cbn. rewrite !length_map. split; (split; [exact Hl|]); apply Forall_map;
      (eapply Forall_impl; [exact Hg|]); intros x [Hx _]; [|cbn; rewrite length_current]; exact Hx.
  - intros fs IH g Hg. apply IH, Hg.
  - intros LEN T IH g [Hl Hg]. destruct (Hlist T g Hg IH). cbn. rewrite !length_map. auto.
  - intros LEN T IH g [Hl Hg]. destruct (Hlist T g Hg IH). cbn. rewrite !length_map. auto.
  - intros gs _. split; exact I.
  - intros L IHL fs IHfs [g gs] [Hg Hgs]. destruct (IHL g Hg), (IHfs gs Hgs). cbn. auto.
Qed.
End Managers.

Section Trees.
Context `{Blake2bLaws, Serde}.
Notation PG := (proof_gen Val).

Definition merkle_leaf (access_info : bool) (data : list Z) : MerkleTree :=
  MerkleLeaf (mkHash (digest_256 data)) access_info data.

(** Some address of page [i] was accessed. *)
Definition page_accessed (g : ProofDynRegion) (i : nat) : bool :=
  let pos := Z.of_nat i * LEAF_SIZE in
  includes_range (dyn_reads g) pos (pos + LEAF_SIZE) || includes_range (ProofGen.get_write g) pos (pos + LEAF_SIZE).
Definition page_leaves (g : ProofDynRegion) : list MerkleTree :=
  imap (fun i page => merkle_leaf (page_accessed g i) page) (pages (dyn_source g)).

Fixpoint merkle_of (L : Layout) : Allocated PG L -> MerkleTree :=
  match L with
  | Atom _ | Array _ _ => fun g => merkle_leaf (access g) (cells_bytes (source g))
  | DynArray LEN => fun g => perfect merkle_node (depth (pages_of LEN)) (page_leaves g)
  | CSRValuesLayout _ => fun g => merkle_leaf (existsb access g) (concat (map cells_bytes (map source g)))
  | Struct fields => fun g => merkle_node (fields_merkle fields g)
  | ArrayOf _ T => fun g => merkle_node (map (merkle_of T) g)
  | Many LEN T => fun g => perfect merkle_node (depth LEN) (map (merkle_of T) g)
  end
with fields_merkle (fields : Fields) : AllocatedFields PG fields -> list MerkleTree :=
  match fields with
  | NoField => fun _ => []
  | Field L fields => fun '(g, gs) => merkle_of L g :: fields_merkle fields gs
  end.

Lemma merkle_leaf_valid a data : valid_tree (merkle_leaf a data).
Proof. reflexivity. Qed.

Lemma merkle_valid : (forall L g, valid_tree (merkle_of L g)) /\ (forall fs gs, Forall valid_tree (fields_merkle fs gs)).
Proof.
  apply Layout_Fields_ind.
  - intros T g. apply merkle_leaf_valid.
  - intros T LEN g. apply merkle_leaf_valid.
  - intros LEN g. apply (perfect_Forall merkle_node valid_tree); [exact valid_merkle_node|]. unfold page_leaves.
    apply Forall_lookup. intros i t Ht. rewrite list_lookup_imap in Ht. destruct (pages _ !! i); [|discriminate].
    injection Ht as <-. apply merkle_leaf_valid.
  - intros T g. apply merkle_leaf_valid.
  - intros fs IH g. apply valid_merkle_node, IH.
  - intros LEN T IH g. apply valid_merkle_node, Forall_map, Forall_true, IH.
  - intros LEN T IH g. apply (perfect_Forall merkle_node valid_tree); [exact valid_merkle_node|]. apply Forall_map, Forall_true, IH.
  - intros gs. constructor.
  - intros L IHL fs IHfs [g gs]. constructor; [apply IHL | apply IHfs].
Qed.

Lemma root_perfect k ts : tree_root_hash (perfect merkle_node k ts) = perfect hash_node k (map tree_root_hash ts).
Proof. apply perfect_map. reflexivity. Qed.
Lemma page_leaves_roots g : map tree_root_hash (page_leaves g) = map data_root (map Leaf (pages (dyn_source g))).
Proof.
  unfold page_leaves. apply list_eq. intros i. rewrite !list_lookup_fmap, list_lookup_imap. destruct (pages _ !! i); reflexivity.
Qed.

(** The root of the tree is that of the initial data. *)
Lemma merkle_root : (forall L g, tree_root_hash (merkle_of L g) = data_root (commit L (source_state L g))) /\
  (forall fs gs, map tree_root_hash (fields_merkle fs gs) = map data_root (commit_fields fs (source_fields fs gs))).
Proof.
  apply Layout_Fields_ind; try (intros; reflexivity).
  - intros LEN g. cbn. rewrite root_perfect, data_root_perfect, page_leaves_roots. reflexivity.
  - intros fs IH g. apply (f_equal hash_node), IH.
  - intros LEN T IH g. apply (f_equal hash_node). cbn. rewrite !map_map. apply map_ext. exact IH.
  - intros LEN T IH g. cbn. rewrite root_perfect, data_root_perfect, !map_map. f_equal. apply map_ext. exact IH.
  - intros L IHL fs IHfs [g gs]. cbn. f_equal; [apply IHL | apply IHfs].
Qed.

(** ** [to_merkle_tree] *)
Lemma items_of_leaves reads writes ps : forall i, items_of (merkle_flush MERKLE_LEAF_SIZE reads writes) i ps =
  Ok (imap (fun j p => merkle_leaf (includes_range reads (Z.of_nat (i + j) * LEAF_SIZE) (Z.of_nat (i + j) * LEAF_SIZE + LEAF_SIZE) ||
    includes_range writes (Z.of_nat (i + j) * LEAF_SIZE) (Z.of_nat (i + j) * LEAF_SIZE + LEAF_SIZE)) p) ps).
Proof.
  induction ps as [|p ps IH]; intros i; [reflexivity|]. cbn [items_of imap]. unfold merkle_flush at 1.
  rewrite make_merkle_leaf_ok. cbn [result_bind]. rewrite IH, Nat.add_0_r. cbn [result_bind].
  do 2 f_equal. apply imap_ext. intros j x _. cbn. replace (i + S j)%nat with (S i + j)%nat by lia. reflexivity.
Qed.

Lemma dyn_cells_tree_ok LEN g k : LEN = LEAF_SIZE * 4 ^ Z.of_nat k -> Z.of_nat (length (dyn_source g)) = LEN ->
  dyn_cells_tree LEN g = Some (Ok (perfect merkle_node k (page_leaves g))).
Proof.
  intros HL Hlen. set (data := dyn_source g) in *. unfold dyn_cells_tree. cbn [ProofGen.get_read].
  unfold merkle_writer_new. cbn [MERKLE_ARITY Nat.ltb Nat.leb].
  set (reads := dyn_reads g). set (wr := ProofGen.get_write _).
  assert (Hwr : wr = ProofGen.get_write g) by reflexivity.
  assert (Hbig : LEAF_SIZE <= LEN) by (rewrite HL, leaf_size_eq; pose proof (Z.pow_pos_nonneg 4 (Z.of_nat k) ltac:(lia) ltac:(lia)); lia).
  set (ok := fun w : MerkleWriter => writer_ok MERKLE_LEAF_SIZE (mw_writer w) /\ mw_arity w = 4%nat /\ mw_read_log w = reads /\ mw_write_log w = wr).
  set (flush := merkle_flush MERKLE_LEAF_SIZE reads wr).
  set (read := fun address => match ProofGen.inner_dyn_region_read LEN LEAF_SIZE _ address with Ok bytes => Some bytes | Err _ => None end).
  assert (Hwrite : forall w buf rest, ok w ->
    match merkle_writer_write buf w with
    | None => False
    | Some (Ok w') => ok w' /\ final_items flush MERKLE_LEAF_SIZE (mw_writer w) (buf ++ rest) = final_items flush MERKLE_LEAF_SIZE (mw_writer w') rest
    | Some (Err e) => final_items flush MERKLE_LEAF_SIZE (mw_writer w) (buf ++ rest) = Err e
    end).
  { intros w buf rest (Hw & Ha & Hr & Hwl). unfold merkle_writer_write, merkle_writer_flush. rewrite Hr, Hwl, (proj1 Hw).
    pose proof (writer_write_final flush MERKLE_LEAF_SIZE leaf_size_pos (mw_writer w) buf rest Hw) as Hf. fold flush.
    destruct (writer_write flush buf (mw_writer w)) as [[w'|e]|]; cbn; [|exact Hf..].
    destruct Hf as [Hw' Hf]. split; [|exact Hf]. repeat split; assumption || apply Hw'. }
  pose proof (chunks_to_writer_spec merkle_writer_write ok (fun w => final_items flush MERKLE_LEAF_SIZE (mw_writer w)) Hwrite data read) as Hspec.
  assert (Hread : forall a, 0 <= a -> a + LEAF_SIZE <= Z.of_nat (length data) ->
    read a = Some (take MERKLE_LEAF_SIZE (drop (Z.to_nat a) data))).
  { intros a Ha Hfit. unfold read, ProofGen.inner_dyn_region_read, Owned.dyn_region_ref.
    destruct (Z.leb_spec (a + LEAF_SIZE) LEN); [|lia]. unfold slice. rewrite Nat2Z.id. reflexivity. }
  set (w0 := mkMerkleWriter 4 reads wr (writer_new MERKLE_LEAF_SIZE)).
  assert (Hw0 : ok w0) by (repeat split; cbn; exact leaf_size_pos).
  specialize (Hspec Hread w0 ltac:(lia) Hw0).
  assert (Htotal : final_items flush MERKLE_LEAF_SIZE (mw_writer w0) data = Ok (page_leaves g)).
  { unfold final_items. cbn [w0 mw_writer w_items w_buffer writer_new length app]. unfold flush. rewrite items_of_leaves. reflexivity. }
  cbv beta in Hspec. rewrite Htotal, Hlen in Hspec. fold w0.
  destruct (chunks_to_writer _ _ _ _) as [[w|e]|]; [|discriminate Hspec | contradiction].
  destruct Hspec as [(Hw & Ha & Hr & Hwl) Hitems]. cbn [obind]. unfold merkle_writer_finalise, merkle_writer_flush.
  rewrite Hr, Hwl, (proj1 Hw), Ha. fold flush. rewrite (flush_rest_final flush MERKLE_LEAF_SIZE leaf_size_pos _ Hw), <- Hitems.
  apply build_custom_merkle_tree_perfect. unfold page_leaves. rewrite length_imap. apply (pages_length LEN k data HL Hlen).
Qed.

Lemma cells_tree_ok LEN g : length (source g) = LEN ->
  cells_tree LEN g = Some (Ok (merkle_leaf (access g) (cells_bytes (source g)))).
Proof.
  intros Hl. unfold cells_tree, ProofGen.inner_region_ref. rewrite owned_serialise_bytes by exact Hl. cbn.
  rewrite make_merkle_leaf_ok. reflexivity.
Qed.
(** The registers' leaf holds what the regions stand for, which is what they wrap
    when nothing was written to them. *)
Lemma csr_values_tree_ok gs : Forall (fun g => length (current g) = 1%nat) gs ->
  csr_values_tree gs = Some (Ok (merkle_leaf (existsb access gs) (concat (map cells_bytes (map current gs))))).
Proof.
  intros Hc. unfold csr_values_tree. rewrite (collect_outcomes_map _ (fun g => cells_bytes (current g))).
  - cbn. rewrite make_merkle_leaf_ok, map_map. reflexivity.
  - eapply Forall_impl; [exact Hc|]. intros g Hl. rewrite proof_serialise_bytes by exact Hl. reflexivity.
Qed.

Lemma to_merkle_tree_ok : (forall L g, layout_ok L -> proof_wf L g -> csrs_kept L (source_state L g) (current_state L g) ->
    to_merkle_tree L g = Some (Ok (merkle_of L g))) /\
  (forall fs gs, fields_ok fs -> fields_wf fs gs -> fields_csrs_kept fs (source_fields fs gs) (current_fields fs gs) ->
    fields_trees fs gs = Some (Ok (fields_merkle fs gs))).
Proof.
  assert (Hlist : forall (T : Layout) (g : list (Allocated PG T)), layout_ok T -> Forall (proof_wf T) g ->
    Forall2 (csrs_kept T) (map (source_state T) g) (map (current_state T) g) ->
    (forall g, layout_ok T -> proof_wf T g -> csrs_kept T (source_state T g) (current_state T g) -> to_merkle_tree T g = Some (Ok (merkle_of T g))) ->
    collect_outcomes (to_merkle_tree T) g = Some (Ok (map (merkle_of T) g))).
  { intros T g Hok Hg Hk IH. apply collect_outcomes_map. apply Forall_forall. intros x Hx. rewrite Forall_forall in Hg.
    apply IH; [exact Hok | apply Hg, Hx|]. apply list_elem_of_lookup_1 in Hx as [i Hi].
    eapply (Forall2_lookup_lr _ _ _ i) in Hk; [exact Hk | |]; rewrite list_lookup_fmap, Hi; reflexivity. }
  apply Layout_Fields_ind.
  - intros T g _ [Hl _] _. apply cells_tree_ok, Hl.
  - intros T LEN g _ [Hl _] _. apply cells_tree_ok, Hl.
  - intros LEN g [HL _] Hl _. exact (dyn_cells_tree_ok LEN g _ HL Hl).
  - intros T g _ [Hl Hg] Hk. cbn [to_merkle_tree merkle_of]. rewrite csr_values_tree_ok.
    + cbn in Hk. rewrite Hk. reflexivity.
    + eapply Forall_impl; [exact Hg|]. intros x [Hx _]. rewrite length_current. exact Hx.
  - intros fs IH g Hok Hg Hk. change (to_merkle_tree (Struct fs) g) with (children <-$ fields_trees fs g ;; Some (make_merkle_node children)).
    rewrite (IH g Hok Hg Hk), obind_ok, make_merkle_node_ok. reflexivity.
  - intros LEN T IH g Hok [_ Hg] Hk. cbn [to_merkle_tree]. rewrite (Hlist T g Hok Hg Hk IH), obind_ok, make_merkle_node_ok. reflexivity.
  - intros LEN T IH g [[HL _] Hok] [Hl Hg] Hk. cbn [to_merkle_tree]. rewrite (Hlist T g Hok Hg Hk IH), obind_ok.
    apply build_custom_merkle_tree_perfect. rewrite length_map. exact (pow4_length LEN _ _ HL Hl).
  - intros gs _ _ _. reflexivity.
  - intros L IHL fs IHfs [g gs] [HokL Hok] [HgL Hg] [HkL Hk].
    change (fields_trees (Field L fs) (g, gs)) with (tree <-$ to_merkle_tree L g ;; trees <-$ fields_trees fs gs ;; Some (Ok (tree :: trees))).
    rewrite (IHL g HokL HgL HkL), obind_ok, (IHfs gs Hok Hg Hk), obind_ok. reflexivity.
Qed.
End Trees.
