(* ===== verification/ProofRun.v ===== *)
(** * The same run over the three managers

    A program that runs over an owned state runs, with the same answers, in proof
    mode over that state, and over a verifier's state that holds what the run in
    proof mode accesses in the end; and whatever answers it gets over a partial
    verifier's state are those of the owned one. *)

From stdpp Require Import gmap.
From S2P Require Import Prelude.
From S2P Require Import Hash.
From S2P Require Import MerkleProof.
From S2P Require Import Merkle.
From S2P Require Import Backend.
From S2P Require Import BackendSpec.
From S2P Require Import DynBackendSpec.
From S2P Require Import Deserialiser.
From S2P Require Import Layouts.
From S2P Require Import MerkleSpec.
From S2P Require Import LayoutsSpec.

(** ** Lists *)
Lemma Forall3_insert_mr {A B C} (P : A -> B -> C -> Prop) l k r i x y z : Forall3 P l k r -> l !! i = Some x -> P x y z ->
  Forall3 P l (<[i := y]> k) (<[i := z]> r).
Proof.
  intros Hall. revert i. induction Hall as [|a b c l k r Habc Hall IH]; intros [|i] Hx HP; try discriminate.
  - injection Hx as ->. constructor; assumption.
  - constructor; [exact Habc | apply IH; assumption].
Qed.
Lemma Forall2_insert_r_same {A B} (P : A -> B -> Prop) l k i x y : Forall2 P l k -> l !! i = Some x -> P x y ->
  Forall2 P l (<[i := y]> k).
Proof.
  intros Hall. revert i. induction Hall as [|a b l k Hab Hall IH]; intros [|i] Hx HP; try discriminate.
  - injection Hx as ->. constructor; assumption.
  - constructor; [exact Hab | apply IH; assumption].
Qed.

Section Run.
Context `{Serde}.
Notation O := (owned Val).
Notation PG := (proof_gen Val).

(** Accesses are only added. *)
Definition region_grows (g g' : ProofRegion Val) : Prop := access g = true -> access g' = true.
Fixpoint grows (L : Layout) : Allocated PG L -> Allocated PG L -> Prop :=
  match L with
  | Atom _ | Array _ _ => region_grows
  | DynArray _ => fun g g' => accessed g ⊆ accessed g'
  | CSRValuesLayout _ => Forall2 region_grows
  | Struct fields => fields_grow fields
  | ArrayOf _ T | Many _ T => Forall2 (grows T)
  end
with fields_grow (fields : Fields) : AllocatedFields PG fields -> AllocatedFields PG fields -> Prop :=
  match fields with
  | NoField => fun _ _ => True
  | Field L fields => fun '(g, gs) '(g', gs') => grows L g g' /\ fields_grow fields gs gs'
  end.

Lemma grows_refl : (forall L g, grows L g g) /\ (forall fs gs, fields_grow fs gs gs).
Proof.
  apply Layout_Fields_ind.
  - intros T g Ha. exact Ha.
  - intros T LEN g Ha. exact Ha.
  - intros LEN g. cbn. reflexivity.
  - intros T g. apply Forall_Forall2_diag, Forall_true. intros x Hx. exact Hx.
  - intros fs IH g. apply IH.
  - intros LEN T IH g. apply Forall_Forall2_diag, Forall_true, IH.
  - intros LEN T IH g. apply Forall_Forall2_diag, Forall_true, IH.
  - intros gs. exact I.
  - intros L IHL fs IHfs [g gs]. split; [apply IHL | apply IHfs].
Qed.
Lemma Forall2_trans {A} (P : A -> A -> Prop) : (forall x y z, P x y -> P y z -> P x z) ->
  forall l1 l2 l3, Forall2 P l1 l2 -> Forall2 P l2 l3 -> Forall2 P l1 l3.
Proof.
  intros Ht l1 l2 l3 H12. revert l3. induction H12 as [|x y l1 l2 Hxy _ IH]; intros l3 H23; inversion H23; subst; constructor.
  - eapply Ht; eassumption.
  - apply IH. assumption.
Qed.
Lemma grows_trans : (forall L g1 g2 g3, grows L g1 g2 -> grows L g2 g3 -> grows L g1 g3) /\
  (forall fs g1 g2 g3, fields_grow fs g1 g2 -> fields_grow fs g2 g3 -> fields_grow fs g1 g3).
Proof.
  apply Layout_Fields_ind.
  - intros T g1 g2 g3 H12 H23 Ha. apply H23, H12, Ha.
  - intros T LEN g1 g2 g3 H12 H23 Ha. apply H23, H12, Ha.
  - intros LEN g1 g2 g3 H12 H23. cbn in *. etransitivity; eassumption.
  - intros T g1 g2 g3. apply Forall2_trans. intros x y z H12 H23 Ha. apply H23, H12, Ha.
  - intros fs IH g1 g2 g3. apply IH.
  - intros LEN T IH g1 g2 g3. apply Forall2_trans, IH.
  - intros LEN T IH g1 g2 g3. apply Forall2_trans, IH.
  - intros g1 g2 g3 _ _. exact I.
  - intros L IHL fs IHfs [g1 gs1] [g2 gs2] [g3 gs3] [H12 Hs12] [H23 Hs23]. split; [eapply IHL | eapply IHfs]; eassumption.
Qed.

(** Operations on unsigned addresses, of sized elements. *)
Definition op_ok (op : Op) : Prop := match op with OnRegion _ => True | OnDynRegion op => dyn_op_ok op end.
Fixpoint prog_ok {A} (p : Prog A) : Prop :=
  match p with Ret _ => True | Perform _ op k => op_ok op /\ (forall ans, prog_ok (k ans)) end.

Lemma on_element_inv {A B} (f : B -> result (Answer * B) Panic) (h : A -> B) i l ans s' :
  on_element f i (map h l) = Ok (ans, s') ->
  exists x y, l !! i = Some x /\ f (h x) = Ok (ans, y) /\ s' = <[i := y]> (map h l).
Proof.
  unfold on_element. rewrite list_lookup_fmap. destruct (l !! i) as [x|]; [|discriminate]. cbn.
  destruct (f (h x)) as [[a y]|] eqn:Hf; [|discriminate]. cbn. intros [= <- <-]. eauto.
Qed.
Lemma on_element_ok {A} (f : A -> result (Answer * A) Panic) i l x ans y : l !! i = Some x -> f x = Ok (ans, y) ->
  on_element f i l = Ok (ans, <[i := y]> l).
Proof. intros Hi Hf. unfold on_element. rewrite Hi, Hf. reflexivity. Qed.
End Run.

(** Operations on the first field, and on another one. *)
Lemma perform_first `{Serde} (M : Manager Val) L fs path op (a : Allocated M L) (aa : AllocatedFields M fs) : perform_field M (Field L fs) 0 path op (a, aa) =
  ('(ans, state) <-! perform M L path op a ;; Ok (ans, (state, aa))).
Proof. reflexivity. Qed.
Lemma perform_other `{Serde} (M : Manager Val) L fs i path op (a : Allocated M L) (aa : AllocatedFields M fs) : perform_field M (Field L fs) (S i) path op (a, aa) =
  ('(ans, states) <-! perform_field M fs i path op aa ;; Ok (ans, (a, states))).
Proof. reflexivity. Qed.

(** ** Completeness *)
Section Lockstep.
Context `{Serde, RangeSetLaws}.
Notation O := (owned Val).
Notation PG := (proof_gen Val).
Notation V := (verifier Val).

(** The page was accessed. *)
Definition page_in (g : ProofDynRegion) (id : Z) : Prop := exists x, x ∈ accessed g /\ page_id x = id.

(** What the proof of a run that ends in [gf] holds of a state [s]. *)
Fixpoint reveals (L : Layout) : Allocated PG L -> Allocated O L -> Allocated V L -> Prop :=
  match L with
  | Atom _ | Array _ _ => fun gf s v => v = revealed (access gf) s
  | DynArray _ => fun gf s v => dyn_reveals (page_in gf) s v
  | CSRValuesLayout _ => fun gf s v => Forall2 (fun s v => v = revealed (existsb access gf) s) s v
  | Struct fields => fields_reveal fields
  | ArrayOf _ T | Many _ T => Forall3 (reveals T)
  end
with fields_reveal (fields : Fields) : AllocatedFields PG fields -> AllocatedFields O fields -> AllocatedFields V fields -> Prop :=
  match fields with
  | NoField => fun _ _ _ => True
  | Field L fields => fun '(gf, gfs) '(s, ss) '(v, vs) => reveals L gf s v /\ fields_reveal fields gfs ss vs
  end.

(** One step over the three managers. *)
Definition lockstep {PGt Ot Vt} (wf : PGt -> Prop) (cur src : PGt -> Ot) (grow : PGt -> PGt -> Prop)
    (reveal : PGt -> Ot -> Vt -> Prop) (fP : PGt -> result (Answer * PGt) Panic) (fV : Vt -> result (Answer * Vt) Panic)
    (g : PGt) (ans : Answer) (s' : Ot) : Prop :=
  exists g', fP g = Ok (ans, g') /\ wf g' /\ cur g' = s' /\ src g' = src g /\ grow g g' /\
    (forall gf v, grow g' gf -> reveal gf (cur g) v -> exists v', fV v = Ok (ans, v') /\ reveal gf s' v').

Lemma region_lockstep LEN op g ans s' : region_wf LEN g -> on_region O LEN op (current g) = Ok (ans, s') ->
  lockstep (region_wf LEN) current source region_grows (fun gf s v => v = revealed (access gf) s)
    (on_region PG LEN op) (on_region V LEN op) g ans s'.
Proof.
  intros [Hl Hu]. unfold on_region. destruct op as [op|op]; [|discriminate].
  destruct (region_op O LEN op (current g)) as [[values s1]|] eqn:Hop; [|discriminate]. cbn. intros [= <- <-].
  assert (Hst : stands_for (source g) (current g) g) by (constructor; [reflexivity | reflexivity | exact Hu]).
  assert (HL : LEN = length (current g)) by (rewrite length_current; symmetry; exact Hl).
  destruct (region_op_agrees LEN op _ _ g _ _ HL Hst Hop) as (Hls & g' & Hg' & [Hs' Hc' Hu'] & Hgrow & Hver).
  exists g'. rewrite Hg'. split; [reflexivity|]. split; [split; [congruence | exact Hu']|]. split; [exact Hc'|]. split; [exact Hs'|].
  split; [exact Hgrow|]. intros gf v Hgf ->. rewrite (Hver _ (access gf) Hgf). eexists. split; reflexivity.
Qed.

Lemma dyn_lockstep LEN op g ans s' : LEN <= usize_MAX -> op_ok op -> Z.of_nat (length (dyn_source g)) = LEN ->
  on_dyn_region O LEN op (dyn_current g) = Ok (ans, s') ->
  lockstep (fun g => Z.of_nat (length (dyn_source g)) = LEN) dyn_current dyn_source (fun g g' => accessed g ⊆ accessed g')
    (fun gf s v => dyn_reveals (page_in gf) s v) (on_dyn_region PG LEN op) (on_dyn_region V LEN op) g ans s'.
Proof.
  intros Hmax Hok Hl. unfold on_dyn_region. destruct op as [op|op]; [discriminate|].
  destruct (dyn_region_op O LEN op (dyn_current g)) as [[bytes s1]|] eqn:Hop; [|discriminate]. cbn. intros [= <- <-].
  assert (Hst : dyn_stands_for (dyn_source g) (dyn_current g) g) by (constructor; reflexivity).
  assert (HL : LEN = Z.of_nat (length (dyn_current g))) by (rewrite length_dyn_current; symmetry; exact Hl).
  destruct (dyn_region_op_agrees LEN op _ _ g _ _ HL Hmax Hok Hst Hop) as (Hls & g' & Hg' & [Hs' Hc'] & Hgrow & Hver).
  exists g'. rewrite Hg'. split; [reflexivity|]. split; [cbv beta; rewrite Hs'; exact Hl|]. split; [exact Hc'|]. split; [exact Hs'|].
  split; [exact Hgrow|]. intros gf v Hgf Hv. destruct (Hver (page_in gf) v) as (v' & -> & Hv'); [|exact Hv|].
  - intros x Hx. exists x. split; [apply Hgf, Hx | reflexivity].
  - exists v'. split; [reflexivity | exact Hv'].
Qed.

(** A step on an element of a list. *)
Lemma list_lockstep {PGt Ot Vt} (wf : PGt -> Prop) (cur src : PGt -> Ot) grow (reveal : PGt -> Ot -> Vt -> Prop) fO fP fV
    (l : list PGt) i ans s' (n : nat -> Prop) : (forall g, grow g g) -> Forall wf l -> n (length l) ->
  (forall g ans s', wf g -> fO (cur g) = Ok (ans, s') -> lockstep wf cur src grow reveal fP fV g ans s') ->
  on_element fO i (map cur l) = Ok (ans, s') ->
  lockstep (fun l => n (length l) /\ Forall wf l) (map cur) (map src) (Forall2 grow) (Forall3 reveal)
    (on_element fP i) (on_element fV i) l ans s'.
Proof.
  intros Hrefl Hwf Hn Hstep (x & y & Hi & Hf & ->)%on_element_inv.
  assert (Hx : wf x) by (eapply Forall_lookup_1; [exact Hwf | exact Hi]).
  destruct (Hstep x ans y Hx Hf) as (x' & Hx' & Hwf' & Hc & Hs & Hg & Hv).
  exists (<[i := x']> l). split; [exact (on_element_ok _ _ _ _ _ _ Hi Hx')|].
  split; [split; [rewrite length_insert; exact Hn | apply Forall_insert; assumption]|].
  split; [rewrite list_fmap_insert, Hc; reflexivity|].
  split; [rewrite list_fmap_insert, Hs; apply list_insert_id; rewrite list_lookup_fmap, Hi; reflexivity|].
  assert (Hil : (i < length l)%nat) by (eapply lookup_lt_Some; exact Hi).
  split; [apply (Forall2_insert_r_same _ _ _ _ x); [apply Forall_Forall2_diag, Forall_true, Hrefl | exact Hi | exact Hg]|].
  intros gf v Hgf Hrev. destruct (Forall3_lookup_m _ _ _ _ i (cur x) Hrev) as (gfi & vi & Hgfi & Hvi & Hri).
  { rewrite list_lookup_fmap, Hi. reflexivity. }
  assert (Hgi : grow x' gfi).
  { eapply (Forall2_lookup_lr _ _ _ i); [exact Hgf | apply list_lookup_insert_eq, Hil | exact Hgfi]. }
  destruct (Hv gfi vi Hgi Hri) as (v' & Hv' & Hr').
  exists (<[i := v']> v). split; [exact (on_element_ok _ _ _ _ _ _ Hvi Hv')|]. eapply Forall3_insert_mr; eassumption.
Qed.

(** A step on a register: all of them are revealed when one is accessed. *)
Lemma csr_lockstep op g i ans s' : length g = csr_values -> Forall (region_wf 1) g ->
  on_element (on_region O 1 op) i (map current g) = Ok (ans, s') ->
  lockstep (fun g => length g = csr_values /\ Forall (region_wf 1) g) (map current) (map source) (Forall2 region_grows)
    (fun gf s v => Forall2 (fun s v => v = revealed (existsb access gf) s) s v)
    (on_element (on_region PG 1 op) i) (on_element (on_region V 1 op) i) g ans s'.
Proof.
  intros Hl Hwf (x & y & Hi & Hf & ->)%on_element_inv.
  assert (Hx : region_wf 1 x) by (eapply Forall_lookup_1; [exact Hwf | exact Hi]).
  destruct (region_lockstep 1 op x ans y Hx Hf) as (x' & Hx' & Hwf' & Hc & Hs & Hg & Hv).
  assert (Hil : (i < length g)%nat) by (eapply lookup_lt_Some; exact Hi).
  exists (<[i := x']> g). split; [exact (on_element_ok _ _ _ _ _ _ Hi Hx')|].
  split; [split; [rewrite length_insert; exact Hl | apply Forall_insert; assumption]|].
  split; [rewrite list_fmap_insert, Hc; reflexivity|].
  split; [rewrite list_fmap_insert, Hs; apply list_insert_id; rewrite list_lookup_fmap, Hi; reflexivity|].
  split; [apply (Forall2_insert_r_same _ _ _ _ x); [apply Forall_Forall2_diag, Forall_true; intros z Hz; exact Hz | exact Hi | exact Hg]|].
  intros gf v Hgf Hrev. set (a := existsb access gf) in *.
  destruct (Forall2_lookup_l _ _ _ i (current x) Hrev) as (vi & Hvi & Hri); [rewrite list_lookup_fmap, Hi; reflexivity|].
  assert (Ha : access x' = true -> a = true).
  { intros Hacc. destruct (Forall2_lookup_l _ _ _ i x' Hgf (list_lookup_insert_eq _ _ _ Hil)) as (z & Hz & Hzx).
    apply existsb_exists. exists z. split; [apply list_elem_of_In, list_elem_of_lookup_2 with i, Hz | apply Hzx, Hacc]. }
  destruct (Hv (mkProofRegion (source x) ∅ a) vi Ha Hri) as (v' & Hv' & Hr').
  exists (<[i := v']> v). split; [exact (on_element_ok _ _ _ _ _ _ Hvi Hv')|]. apply Forall2_insert; [exact Hrev | exact Hr'].
Qed.

Lemma perform_lockstep : (forall L path op g ans s', layout_ok L -> proof_wf L g -> op_ok op ->
    perform O L path op (current_state L g) = Ok (ans, s') ->
    lockstep (proof_wf L) (current_state L) (source_state L) (grows L) (reveals L) (perform PG L path op) (perform V L path op) g ans s') /\
  (forall fs i path op g ans s', fields_ok fs -> fields_wf fs g -> op_ok op ->
    perform_field O fs i path op (current_fields fs g) = Ok (ans, s') ->
    lockstep (fields_wf fs) (current_fields fs) (source_fields fs) (fields_grow fs) (fields_reveal fs)
      (perform_field PG fs i path op) (perform_field V fs i path op) g ans s').
Proof.
  apply Layout_Fields_ind.
  - intros T [|? ?] op g ans s' _ Hwf _ Hp; [|discriminate]. exact (region_lockstep 1 op g ans s' Hwf Hp).
  - intros T LEN [|? ?] op g ans s' _ Hwf _ Hp; [|discriminate]. exact (region_lockstep LEN op g ans s' Hwf Hp).
  - intros LEN [|? ?] op g ans s' [_ Hmax] Hwf Hop Hp; [|discriminate]. exact (dyn_lockstep LEN op g ans s' Hmax Hop Hwf Hp).
  - intros T [|i [|? ?]] op g ans s' _ [Hl Hwf] _ Hp; try discriminate. exact (csr_lockstep op g i ans s' Hl Hwf Hp).
  - intros fs IH [|i path] op g ans s' Hok Hwf Hop Hp; [discriminate|]. exact (IH i path op g ans s' Hok Hwf Hop Hp).
  - intros LEN T IH [|i path] op g ans s' Hok [Hl Hwf] Hop Hp; [discriminate|].
    exact (list_lockstep (proof_wf T) (current_state T) (source_state T) (grows T) (reveals T) (perform O T path op) (perform PG T path op)
      (perform V T path op) g i ans s' (fun n => n = LEN) (proj1 grows_refl T) Hwf Hl (fun g ans s' Hw Hp => IH path op g ans s' Hok Hw Hop Hp) Hp).
  - intros LEN T IH [|i path] op g ans s' [_ Hok] [Hl Hwf] Hop Hp; [discriminate|].
    exact (list_lockstep (proof_wf T) (current_state T) (source_state T) (grows T) (reveals T) (perform O T path op) (perform PG T path op)
      (perform V T path op) g i ans s' (fun n => Z.of_nat n = LEN) (proj1 grows_refl T) Hwf Hl (fun g ans s' Hw Hp => IH path op g ans s' Hok Hw Hop Hp) Hp).
  - intros i path op g ans s' _ _ _ Hp. discriminate.
  - intros L IHL fs IHfs [|i] path op [g gs] ans s' [HokL Hok] [HwfL Hwf] Hop Hp.
    + change (current_fields (Field L fs) (g, gs)) with (current_state L g, current_fields fs gs) in Hp. rewrite perform_first in Hp.
      destruct (perform O L path op (current_state L g)) as [[a s1]|] eqn:HpL; [|discriminate]. injection Hp as <- <-.
      destruct (IHL path op g a s1 HokL HwfL Hop HpL) as (g' & Hg' & Hwf' & Hc & Hs & Hgr & Hv).
      exists (g', gs). split; [rewrite perform_first, Hg'; reflexivity|]. split; [split; assumption|]. split; [cbn; f_equal; exact Hc|].
      split; [cbn; f_equal; exact Hs|]. split; [split; [exact Hgr | apply grows_refl]|].
      intros [gf gfs] [v vs] [Hgf Hgfs] [Hr Hrs]. destruct (Hv gf v Hgf Hr) as (v' & Hv' & Hr').
      exists (v', vs). split; [rewrite perform_first, Hv'; reflexivity | split; assumption].
    + change (current_fields (Field L fs) (g, gs)) with (current_state L g, current_fields fs gs) in Hp. rewrite perform_other in Hp.
      destruct (perform_field O fs i path op (current_fields fs gs)) as [[a s1]|] eqn:HpL; [|discriminate]. injection Hp as <- <-.
      destruct (IHfs i path op gs a s1 Hok Hwf Hop HpL) as (g' & Hg' & Hwf' & Hc & Hs & Hgr & Hv).
      exists (g, g'). split; [rewrite perform_other, Hg'; reflexivity|]. split; [split; assumption|]. split; [cbn; f_equal; exact Hc|].
      split; [cbn; f_equal; exact Hs|]. split; [split; [apply grows_refl | exact Hgr]|].
      intros [gf gfs] [v vs] [Hgf Hgfs] [Hr Hrs]. destruct (Hv gfs vs Hgfs Hrs) as (v' & Hv' & Hr').
      exists (v, v'). split; [rewrite perform_other, Hv'; reflexivity | split; assumption].
Qed.
End Lockstep.

(** A whole run. *)
Section RunLockstep.
Context `{Serde, RangeSetLaws}.

Lemma run_lockstep {A} L (p : Prog A) : forall g a s', layout_ok L -> proof_wf L g -> prog_ok p ->
  run (owned Val) L p (current_state L g) = Ok (a, s') ->
  exists g', run (proof_gen Val) L p g = Ok (a, g') /\ proof_wf L g' /\ current_state L g' = s' /\
    source_state L g' = source_state L g /\ grows L g g' /\
    (forall gf v, grows L g' gf -> reveals L gf (current_state L g) v ->
      exists v', run (verifier Val) L p v = Ok (a, v') /\ reveals L gf s' v').
Proof.
  induction p as [a|path op k IH]; intros g b s' Hok Hwf Hp Hrun.
  - cbn in Hrun. injection Hrun as <- <-. exists g. split; [reflexivity|]. split; [exact Hwf|]. split; [reflexivity|].
    split; [reflexivity|]. split; [apply grows_refl|]. intros gf v _ Hv. exists v. split; [reflexivity | exact Hv].
  - cbn [run] in Hrun. destruct Hp as [Hop Hk].
    destruct (perform (owned Val) L path op (current_state L g)) as [[ans s1]|] eqn:Hperf; [|discriminate]. cbn [result_bind] in Hrun.
    destruct (proj1 perform_lockstep L path op g ans s1 Hok Hwf Hop Hperf) as (g1 & Hg1 & Hwf1 & <- & Hs1 & Hgr1 & Hv1).
    destruct (IH ans g1 b s' Hok Hwf1 (Hk ans) Hrun) as (g' & Hg' & Hwf' & Hc' & Hs' & Hgr' & Hv').
    exists g'. cbn [run]. rewrite Hg1. split; [exact Hg'|]. split; [exact Hwf'|]. split; [exact Hc'|]. split; [congruence|].
    split; [exact (proj1 grows_trans L _ _ _ Hgr1 Hgr')|].
    intros gf v Hgf Hv. destruct (Hv1 gf v (proj1 grows_trans L _ _ _ Hgr' Hgf) Hv) as (v1 & Hv1' & Hr1).
    rewrite Hv1'. exact (Hv' gf v1 Hgf Hr1).
Qed.
End RunLockstep.

(** ** Soundness *)
Section Partial.
Context `{Serde, RangeSetLaws}.
Notation O := (owned Val).
Notation V := (verifier Val).

(** What is present of a verifier's state is part of [s], and what is untouched is
    as in [s0]. *)
Fixpoint part_of_state (L : Layout) : Allocated O L -> Allocated O L -> Allocated V L -> Prop :=
  match L with
  | Atom _ | Array _ _ => part_of
  | DynArray _ => dyn_part_of
  | CSRValuesLayout _ => Forall3 part_of
  | Struct fields => part_of_fields fields
  | ArrayOf _ T | Many _ T => Forall3 (part_of_state T)
  end
with part_of_fields (fields : Fields) : AllocatedFields O fields -> AllocatedFields O fields -> AllocatedFields V fields -> Prop :=
  match fields with
  | NoField => fun _ _ _ => True
  | Field L fields => fun '(s0, ss0) '(s, ss) '(v, vs) => part_of_state L s0 s v /\ part_of_fields fields ss0 ss vs
  end.

(** One step over an owned state and a partial one. *)
Definition parallel {Ot Vt} (sz : Ot -> Prop) (part : Ot -> Ot -> Vt -> Prop) (fO : Ot -> result (Answer * Ot) Panic)
    (fV : Vt -> result (Answer * Vt) Panic) : Prop :=
  forall s0 s v ans s', sz s -> part s0 s v -> fO s = Ok (ans, s') ->
    sz s' /\ (forall ans' v', fV v = Ok (ans', v') -> ans' = ans /\ part s0 s' v').

Lemma region_op_length LEN op (s : list Val) ans s' : region_op O LEN op s = Ok (ans, s') -> LEN = length s -> length s' = length s.
Proof.
  intros Hop HL. set (g := mkProofRegion s ∅ true).
  assert (Hst : stands_for s s g) by (constructor; [reflexivity | apply current_unwritten; reflexivity | discriminate]).
  exact (proj1 (region_op_agrees LEN op s s g ans s' HL Hst Hop)).
Qed.

Lemma region_parallel LEN op : parallel (fun s => length s = LEN) part_of (on_region O LEN op) (on_region V LEN op).
Proof.
  intros s0 s v ans s' Hl Hp. unfold on_region. destruct op as [op|op]; [|discriminate].
  destruct (region_op O LEN op s) as [[values s1]|] eqn:Hop; [|discriminate]. cbn. intros [= <- <-].
  split; [rewrite (region_op_length LEN op s values s1 Hop (eq_sym Hl)); exact Hl|].
  intros ans' v'. destruct (region_op V LEN op v) as [[values' v1]|] eqn:HopV; [|discriminate]. cbn. intros [= <- <-].
  destruct (region_op_partial LEN op s0 s v _ _ _ _ (eq_sym Hl) Hp Hop HopV) as [-> Hp']. split; [reflexivity | exact Hp'].
Qed.
Lemma dyn_parallel LEN op : LEN <= usize_MAX -> op_ok op ->
  parallel (fun s => Z.of_nat (length s) = LEN) dyn_part_of (on_dyn_region O LEN op) (on_dyn_region V LEN op).
Proof.
  intros Hmax Hok s0 s v ans s' Hl Hp. unfold on_dyn_region. destruct op as [op|op]; [discriminate|].
  destruct (dyn_region_op O LEN op s) as [[bytes s1]|] eqn:Hop; [|discriminate]. cbn. intros [= <- <-].
  set (g := mkProofDynRegion s ∅ ∅).
  assert (Hst : dyn_stands_for s s g).
  { constructor; [reflexivity|]. apply list_eq. intros i. unfold dyn_current. rewrite list_lookup_imap. cbn. rewrite lookup_empty.
    destruct (s !! i); reflexivity. }
  pose proof (proj1 (dyn_region_op_agrees LEN op s s g _ _ (eq_sym Hl) Hmax Hok Hst Hop)) as Hls.
  split; [rewrite Hls; exact Hl|].
  intros ans' v'. destruct (dyn_region_op V LEN op v) as [[bytes' v1]|] eqn:HopV; [|discriminate]. cbn. intros [= <- <-].
  destruct (dyn_region_op_partial LEN op s0 s v _ _ _ _ (eq_sym Hl) Hmax Hok Hp Hop HopV) as [-> Hp']. split; [reflexivity | exact Hp'].
Qed.
Lemma list_parallel {Ot Vt} (sz : Ot -> Prop) (part : Ot -> Ot -> Vt -> Prop) fO fV i (n : nat -> Prop) :
  parallel sz part fO fV ->
  parallel (fun s => n (length s) /\ Forall sz s) (Forall3 part) (on_element fO i) (on_element fV i).
Proof.
  intros Hpar s0 s v ans s' [Hn Hs] Hp Hop. rewrite <- (map_id s) in Hop.
  apply on_element_inv in Hop as (x & y & Hi & Hf & ->). rewrite map_id.
  destruct (Forall3_lookup_m _ _ _ _ i x Hp Hi) as (x0 & vi & Hx0 & Hvi & Hpi).
  destruct (Hpar x0 x vi ans y (Forall_lookup_1 _ _ _ _ Hs Hi) Hpi Hf) as [Hy Hv].
  split; [split; [rewrite length_insert; exact Hn | apply Forall_insert; assumption]|].
  intros ans' v'. unfold on_element. rewrite Hvi. destruct (fV vi) as [[a w]|] eqn:Hfv; [|discriminate]. cbn. intros [= <- <-].
  destruct (Hv a w eq_refl) as [-> Hpw]. split; [reflexivity|]. eapply Forall3_insert_mr; eassumption.
Qed.

Lemma perform_parallel : (forall L path op, layout_ok L -> op_ok op ->
    parallel (sized L) (part_of_state L) (perform O L path op) (perform V L path op)) /\
  (forall fs i path op, fields_ok fs -> op_ok op ->
    parallel (fields_sized fs) (part_of_fields fs) (perform_field O fs i path op) (perform_field V fs i path op)).
Proof.
  apply Layout_Fields_ind.
  - intros T [|? ?] op _ _; [exact (region_parallel 1 op) | intros ? ? ? ? ? _ _ Hp; discriminate].
  - intros T LEN [|? ?] op _ _; [exact (region_parallel LEN op) | intros ? ? ? ? ? _ _ Hp; discriminate].
  - intros LEN [|? ?] op [_ Hmax] Hop; [exact (dyn_parallel LEN op Hmax Hop) | intros ? ? ? ? ? _ _ Hp; discriminate].
  - intros T [|i [|? ?]] op _ _; try (intros ? ? ? ? ? _ _ Hp; discriminate).
    exact (list_parallel _ _ _ _ i (fun n => n = csr_values) (region_parallel 1 op)).
  - intros fs IH [|i path] op Hok Hop; [intros ? ? ? ? ? _ _ Hp; discriminate | exact (IH i path op Hok Hop)].
  - intros LEN T IH [|i path] op Hok Hop; [intros ? ? ? ? ? _ _ Hp; discriminate|].
    exact (list_parallel _ _ _ _ i (fun n => n = LEN) (IH path op Hok Hop)).
  - intros LEN T IH [|i path] op [_ Hok] Hop; [intros ? ? ? ? ? _ _ Hp; discriminate|].
    exact (list_parallel _ _ _ _ i (fun n => Z.of_nat n = LEN) (IH path op Hok Hop)).
  - intros i path op _ _ ? ? ? ? ? _ _ Hp. discriminate.
  - intros L IHL fs IHfs [|i] path op [HokL Hok] Hop [s0 ss0] [s ss] [v vs] ans s' [HsL Hs] [HpL Hp] Hperf.
    + rewrite perform_first in Hperf. destruct (perform O L path op s) as [[a s1]|] eqn:HO; [|discriminate].
      cbn in Hperf. injection Hperf as <- <-. destruct (IHL path op HokL Hop s0 s v a s1 HsL HpL HO) as [Hs1 Hv].
      split; [split; assumption|]. intros ans' v'. rewrite perform_first.
      destruct (perform V L path op v) as [[a' v1]|] eqn:HV; [|discriminate]. cbn. intros [= <- <-].
      destruct (Hv a' v1 eq_refl) as [-> Hp1]. split; [reflexivity | split; assumption].
    + rewrite perform_other in Hperf. destruct (perform_field O fs i path op ss) as [[a s1]|] eqn:HO; [|discriminate].
      cbn in Hperf. injection Hperf as <- <-. destruct (IHfs i path op Hok Hop ss0 ss vs a s1 Hs Hp HO) as [Hs1 Hv].
      split; [split; assumption|]. intros ans' v'. rewrite perform_other.
      destruct (perform_field V fs i path op vs) as [[a' v1]|] eqn:HV; [|discriminate]. cbn. intros [= <- <-].
      destruct (Hv a' v1 eq_refl) as [-> Hp1]. split; [reflexivity | split; assumption].
Qed.

Lemma run_parallel {A} L (p : Prog A) : forall s0 s v a s' a' v', layout_ok L -> prog_ok p -> sized L s -> part_of_state L s0 s v ->
  run O L p s = Ok (a, s') -> run V L p v = Ok (a', v') -> a' = a /\ sized L s' /\ part_of_state L s0 s' v'.
Proof.
  induction p as [a|path op k IH]; intros s0 s v b s' b' v' Hok Hp Hs Hpart HO HV.
  - cbn in HO, HV. injection HO as <- <-. injection HV as <- <-. auto.
  - cbn [run] in HO, HV. destruct Hp as [Hop Hk].
    destruct (perform O L path op s) as [[ans s1]|] eqn:HpO; [|discriminate].
    destruct (perform V L path op v) as [[ans' v1]|] eqn:HpV; [|discriminate]. cbn [result_bind] in HO, HV.
    destruct (proj1 perform_parallel L path op Hok Hop s0 s v ans s1 Hs Hpart HpO) as [Hs1 Hv].
    destruct (Hv ans' v1 HpV) as [-> Hpart1]. exact (IH ans s0 s1 v1 b s' b' v' Hok (Hk ans) Hs1 Hpart1 HO HV).
Qed.
End Partial.
