(* ===== verification/EventsSpec.v ===== *)
(** * The queue that hashes a long array

    [hash_events] goes through the tree of a proof level by level; over a power of
    four of leaves it computes what the recursion [eval] on the tree does. *)

From stdpp Require Import gmap.
From S2P Require Import Prelude.
From S2P Require Import Hash.
From S2P Require Import MerkleProof.
From S2P Require Import Merkle.
From S2P Require Import Backend.
From S2P Require Import Deserialiser.
From S2P Require Import Layouts.
From S2P Require Import MerkleSpec.

(** ** The branches of a span *)
Lemma work_merkle_params_even start m : 0 <= start -> 0 < m -> start + 4 * m <= usize_MAX ->
  work_merkle_params MERKLE_ARITY start (4 * m) = [(start, m); (start + m, m); (start + 2 * m, m); (start + 3 * m, m)].
Proof.
  intros Hs Hm Hmax. unfold work_merkle_params, div_ceil.
  replace ((4 * m + Z.of_nat MERKLE_ARITY - 1) / Z.of_nat MERKLE_ARITY) with m
    by (change (Z.of_nat MERKLE_ARITY) with 4; apply Z.div_unique with 3; lia).
  cbn [branch_lengths MERKLE_ARITY]. unfold saturating_add, saturating_sub.
  rewrite (Z.min_l m (4 * m)), (Z.max_r 0 (4 * m - m)), (Z.min_r usize_MAX (start + m)) by lia.
  rewrite (Z.min_l m (4 * m - m)), (Z.max_r 0 (4 * m - m - m)), (Z.min_r usize_MAX (start + m + m)) by lia.
  rewrite (Z.min_l m (4 * m - m - m)), (Z.max_r 0 (4 * m - m - m - m)), (Z.min_r usize_MAX (start + m + m + m)) by lia.
  rewrite (Z.min_l m (4 * m - m - m - m)) by lia.
  replace (start + m + m) with (start + 2 * m) by lia. replace (start + 2 * m + m) with (start + 3 * m) by lia. reflexivity.
Qed.
Lemma push_work_items_even {T} start m (b1 b2 b3 b4 : T) : 0 <= start -> 0 < m -> start + 4 * m <= usize_MAX ->
  push_work_items_for_branches start (4 * m) [b1; b2; b3; b4] =
    [(start, m, b1); (start + m, m, b2); (start + 2 * m, m, b3); (start + 3 * m, m, b4)].
Proof.
  intros Hs Hm Hmax. unfold push_work_items_for_branches.
  change (length [b1; b2; b3; b4]) with MERKLE_ARITY. rewrite work_merkle_params_even by assumption. cbn [zip zip_with].
  rewrite !filter_cons_True by exact Hm. reflexivity.
Qed.

(** The branches of a node of the proof, and its hash when it is blinded. *)
Definition branches_of (part : ProofTree) : list ProofTree * option Hash :=
  match into_branches_with_hash MERKLE_ARITY part with Ok r => r | Err _ => (replicate MERKLE_ARITY PartAbsent, None) end.
Definition is_branching (part : ProofTree) : bool :=
  match into_branches_with_hash MERKLE_ARITY part with Ok _ => true | Err _ => false end.

Lemma into_branches_length LEN part branches ph : into_branches_with_hash LEN part = Ok (branches, ph) -> length branches = LEN.
Proof.
  destruct part as [|[ts|[h|d]]]; cbn; try (intros [= <- <-]; apply length_replicate); try discriminate.
  destruct (Nat.eqb_spec (length ts) LEN); [|discriminate]. cbn. intros [= <- <-]. rewrite length_map. assumption.
Qed.
Lemma branches_of_four part : exists b1 b2 b3 b4 ph, branches_of part = ([b1; b2; b3; b4], ph).
Proof.
  unfold branches_of. destruct (into_branches_with_hash MERKLE_ARITY part) as [[bs ph]|e] eqn:Hb.
  - apply into_branches_length in Hb. destruct bs as [|b1 [|b2 [|b3 [|b4 [|b5 bs]]]]]; try discriminate Hb. eauto 10.
  - cbn. eauto 10.
Qed.
Lemma into_branches_error LEN part e : into_branches_with_hash LEN part = Err e -> exists e', e = PartialFromProof e'.
Proof.
  destruct part as [|[ts|[h|d]]]; cbn; try discriminate; [|intros [= <-]; eauto].
  destruct (negb _); [intros [= <-]; eauto | discriminate].
Qed.

Section Events.
Context `{Blake2b}.
Context {St : Type} (is_leaf : Z -> bool)
  (leaf : Z -> ProofTree -> St -> outcome (result Hash PartialHashError * St) PartialHashError) (u : Z).
Hypothesis u_pos : 0 < u.
Hypothesis is_leaf_span : forall k, is_leaf (u * 4 ^ Z.of_nat k) = (k =? 0)%nat.
Notation span_length k := (u * 4 ^ Z.of_nat k).
Notation hash_events := (hash_events is_leaf leaf).

Lemma span_pos k : 0 < span_length k.
Proof. pose proof (Z.pow_pos_nonneg 4 (Z.of_nat k) ltac:(lia) ltac:(lia)). lia. Qed.
Lemma span_step k : span_length (S k) = 4 * span_length k.
Proof. rewrite Nat2Z.inj_succ, Z.pow_succ_r by lia. lia. Qed.

(** ** Recursion on the tree *)
Fixpoint eval (k : nat) (start : Z) (part : ProofTree) (st : St) : outcome (result Hash PartialHashError * St) PartialHashError :=
  match k with
  | O => leaf start part st
  | S k =>
      let '(branches, proof_hash) := branches_of part in
      '(rs, st) <-$
        (fix go branches start st : outcome (list (result Hash PartialHashError) * St) PartialHashError :=
           match branches with
           | [] => Some (Ok ([], st))
           | b :: branches =>
               '(r, st) <-$ eval k start b st ;; '(rs, st) <-$ go branches (start + span_length k) st ;; Some (Ok (r :: rs, st))
           end) branches start st ;;
      Some (Ok (combine_partial_hashes rs proof_hash, st))
  end.
Fixpoint eval_all (k : nat) (branches : list ProofTree) (start : Z) (st : St)
  : outcome (list (result Hash PartialHashError) * St) PartialHashError :=
  match branches with
  | [] => Some (Ok ([], st))
  | b :: branches =>
      '(r, st) <-$ eval k start b st ;; '(rs, st) <-$ eval_all k branches (start + span_length k) st ;; Some (Ok (r :: rs, st))
  end.
Lemma eval_step k start part st : eval (S k) start part st =
  ('(rs, st) <-$ eval_all k (fst (branches_of part)) start st ;; Some (Ok (combine_partial_hashes rs (snd (branches_of part)), st))).
Proof.
  cbn [eval]. destruct (branches_of part) as [branches ph]. cbn [fst snd]. f_equal.
  revert start st. induction branches as [|b branches IH]; intros start st; [reflexivity|]. cbn [eval_all].
  destruct (eval k start b st) as [[[r st']|e]|]; [|reflexivity..]. rewrite !obind_ok || cbn [obind]. rewrite IH. reflexivity.
Qed.

(** ** The queue after the first [d] levels *)
Fixpoint frontier (d k : nat) (start : Z) (part : ProofTree) : list Event :=
  match d with
  | O => [Span start (span_length k) part]
  | S d =>
      let '(branches, proof_hash) := branches_of part in
      (fix go branches start := match branches with
                                | [] => []
                                | b :: branches => frontier d (pred k) start b ++ go branches (start + span_length (pred k))
                                end) branches start ++ [NodeEvent proof_hash]
  end.
Lemma frontier_step d k start part b1 b2 b3 b4 ph : branches_of part = ([b1; b2; b3; b4], ph) ->
  frontier (S d) (S k) start part =
    frontier d k start b1 ++ frontier d k (start + span_length k) b2 ++ frontier d k (start + 2 * span_length k) b3 ++
    frontier d k (start + 3 * span_length k) b4 ++ [NodeEvent ph].
Proof.
  intros Hb. cbn [frontier]. rewrite Hb. cbn [pred]. rewrite <- !app_assoc. cbn [app]. 
  replace (start + span_length k + span_length k) with (start + 2 * span_length k) by lia.
  replace (start + 2 * span_length k + span_length k) with (start + 3 * span_length k) by lia. reflexivity.
Qed.

(** The number of events there. *)
Fixpoint event_count (d : nat) : nat := match d with O => 1 | S d => 4 * event_count d + 1 end.
Lemma frontier_length d : forall k start part, (d <= k)%nat -> length (frontier d k start part) = event_count d.
Proof.
  induction d as [|d IH]; intros [|k] start part Hd; try reflexivity; [lia|].
  destruct (branches_of_four part) as (b1 & b2 & b3 & b4 & ph & Hb).
  rewrite (frontier_step d k start part _ _ _ _ _ Hb), !length_app, !IH by lia. cbn. lia.
Qed.

(** What a pass over the queue puts in place of an event. *)
Definition expand (event : Event) : list Event :=
  match event with
  | Span start length part =>
      let '(branches, proof_hash) := branches_of part in
      map (fun '(branch_start, branch_length, branch) => Span branch_start branch_length branch)
        (push_work_items_for_branches start length branches) ++ [NodeEvent proof_hash]
  | NodeEvent proof_hash => [NodeEvent proof_hash]
  end.
Lemma frontier_expand d : forall k start part, (d < k)%nat -> 0 <= start -> start + span_length k <= usize_MAX ->
  frontier (S d) k start part = flat_map expand (frontier d k start part).
Proof.
  induction d as [|d IH]; intros [|k] start part Hd Hs Hmax; [lia | | lia |].
  - destruct (branches_of_four part) as (b1 & b2 & b3 & b4 & ph & Hb). rewrite (frontier_step 0 k _ _ _ _ _ _ _ Hb).
    rewrite span_step in Hmax. pose proof (span_pos k). cbn [frontier flat_map expand]. rewrite Hb, span_step.
    rewrite push_work_items_even by (assumption || lia). reflexivity.
  - destruct (branches_of_four part) as (b1 & b2 & b3 & b4 & ph & Hb).
    rewrite span_step in Hmax. pose proof (span_pos k).
    rewrite (frontier_step (S d) k _ _ _ _ _ _ _ Hb), (frontier_step d k _ _ _ _ _ _ _ Hb).
    rewrite !flat_map_app, <- !IH by lia. reflexivity.
Qed.

(** The nodes of the first [d] levels have four branches. *)
Fixpoint good (d : nat) (part : ProofTree) : bool :=
  match d with O => true | S d => is_branching part && forallb (good d) (fst (branches_of part)) end.
Definition branching (event : Event) : bool := match event with Span _ _ part => is_branching part | NodeEvent _ => true end.

Lemma good_step d : forall k start part, (d <= k)%nat -> good (S d) part = good d part && forallb branching (frontier d k start part).
Proof.
  induction d as [|d IH]; intros [|k] start part Hd; [| | lia |].
  1, 2: cbn [good frontier forallb branching]; rewrite !andb_true_r; destruct (is_branching part); [|reflexivity];
    destruct (branches_of_four part) as (b1 & b2 & b3 & b4 & ph & ->); reflexivity.
  destruct (branches_of_four part) as (b1 & b2 & b3 & b4 & ph & Hb).
  change (good (S (S d)) part) with (is_branching part && forallb (good (S d)) (fst (branches_of part))).
  change (good (S d) part) with (is_branching part && forallb (good d) (fst (branches_of part))).
  rewrite (frontier_step d k start part _ _ _ _ _ Hb), Hb. cbn [fst forallb].
  rewrite (IH k start b1), (IH k (start + span_length k) b2), (IH k (start + 2 * span_length k) b3), (IH k (start + 3 * span_length k) b4) by lia.
  rewrite !forallb_app. cbn [forallb branching]. rewrite !andb_true_r.
  destruct (is_branching part), (good d b1), (good d b2), (good d b3), (good d b4); cbn;
    rewrite ?andb_false_r; reflexivity.
Qed.

(** ** A pass over the queue before any hash *)
Definition not_leaf (event : Event) : bool := match event with Span _ length _ => negb (is_leaf length) | NodeEvent _ => true end.

Lemma pass fuel st q1 : forall q2, forallb not_leaf q1 = true ->
  if forallb branching q1 then hash_events (length q1 + fuel) (q1 ++ q2) [] st = hash_events fuel (q2 ++ flat_map expand q1) [] st
  else exists e, hash_events (length q1 + fuel) (q1 ++ q2) [] st = Some (Err (PartialFromProof e)).
Proof.
  induction q1 as [|[start len part|ph] q1 IH]; intros q2 Hnl; cbn [forallb branching] in *.
  - rewrite app_nil_r. reflexivity.
  - apply andb_true_iff in Hnl as [Hl Hnl]. cbn in Hl. apply negb_true_iff in Hl.
    cbn [length Nat.add app Layouts.hash_events]. rewrite Hl. unfold is_branching at 1. cbn [flat_map expand]. unfold branches_of at 1.
    destruct (into_branches_with_hash MERKLE_ARITY part) as [[bs ph]|e] eqn:Hb.
    + cbn [andb obind]. specialize (IH (q2 ++ map (fun '(s, l, b) => Span s l b) (push_work_items_for_branches start len bs) ++ [NodeEvent ph]) Hnl).
      rewrite <- !app_assoc in IH |- *. cbn [app] in IH |- *. exact IH.
    + cbn [andb obind]. destruct (into_branches_error _ _ _ Hb) as [e' ->]. eexists. reflexivity.
  - cbn [length Nat.add app Layouts.hash_events flat_map expand]. specialize (IH (q2 ++ [NodeEvent ph]) Hnl).
    rewrite <- !app_assoc in IH |- *. cbn [app andb] in IH |- *. exact IH.
Qed.

Lemma frontier_not_leaf d : forall k start part, (d < k)%nat -> forallb not_leaf (frontier d k start part) = true.
Proof.
  induction d as [|d IH]; intros [|k] start part Hd; [lia | | lia |].
  - cbn [frontier forallb not_leaf]. rewrite is_leaf_span. reflexivity.
  - destruct (branches_of_four part) as (b1 & b2 & b3 & b4 & ph & Hb). rewrite (frontier_step d k start part _ _ _ _ _ Hb).
    rewrite !forallb_app, !IH by lia. reflexivity.
Qed.

(** The steps of the first [d] passes. *)
Fixpoint passes (d : nat) : nat := match d with O => 0 | S d => passes d + event_count d end.
Lemma first_passes d k start part : (d <= k)%nat -> 0 <= start -> start + span_length k <= usize_MAX -> forall fuel st,
  if good d part then hash_events (passes d + fuel) (frontier 0 k start part) [] st = hash_events fuel (frontier d k start part) [] st
  else exists e, hash_events (passes d + fuel) (frontier 0 k start part) [] st = Some (Err (PartialFromProof e)).
Proof.
  intros Hd Hs Hmax. induction d as [|d IH]; intros fuel st; [reflexivity|].
  rewrite (good_step d k start part) by lia. specialize (IH ltac:(lia) (event_count d + fuel)%nat st).
  cbn [passes]. rewrite <- Nat.add_assoc. destruct (good d part); [|exact IH]. cbn [andb].
  pose proof (pass fuel st (frontier d k start part) [] (frontier_not_leaf d k start part ltac:(lia))) as Hpass.
  rewrite app_nil_r, frontier_length in Hpass by lia. cbn [app] in Hpass.
  rewrite <- frontier_expand in Hpass by (assumption || lia).
  destruct (forallb branching _); rewrite IH; exact Hpass.
Qed.

(** ** The last pass *)
Lemma last_pass k : forall start part rest hs st fuel,
  hash_events (event_count k + fuel) (frontier k k start part ++ rest) hs st =
    ('(r, st) <-$ eval k start part st ;; hash_events fuel rest (hs ++ [r]) st).
Proof.
  induction k as [|k IH]; intros start part rest hs st fuel.
  - cbn [frontier event_count Nat.add app Layouts.hash_events eval]. rewrite is_leaf_span. reflexivity.
  - destruct (branches_of_four part) as (b1 & b2 & b3 & b4 & ph & Hb).
    rewrite (frontier_step k k start part _ _ _ _ _ Hb), eval_step, Hb. cbn [fst snd eval_all].
    replace (event_count (S k) + fuel)%nat with (event_count k + (event_count k + (event_count k + (event_count k + S fuel))))%nat by (cbn; lia).
    rewrite <- !app_assoc. rewrite IH. destruct (eval k start b1 st) as [[[r1 st1]|e]|]; [|reflexivity..]. cbn [obind].
    rewrite IH. destruct (eval k (start + span_length k) b2 st1) as [[[r2 st2]|e]|]; [|reflexivity..]. cbn [obind].
    rewrite IH. replace (start + span_length k + span_length k) with (start + 2 * span_length k) by lia.
    destruct (eval k (start + 2 * span_length k) b3 st2) as [[[r3 st3]|e]|]; [|reflexivity..]. cbn [obind].
    rewrite IH. replace (start + 2 * span_length k + span_length k) with (start + 3 * span_length k) by lia.
    destruct (eval k (start + 3 * span_length k) b4 st3) as [[[r4 st4]|e]|]; [|reflexivity..]. cbn [obind app].
    cbn [Layouts.hash_events]. rewrite <- !app_assoc. cbn [app].
    assert (Hne : hs ++ [r1; r2; r3; r4] <> []) by (destruct hs; discriminate).
    destruct (hs ++ [r1; r2; r3; r4]) as [|x xs] eqn:Hx; [congruence|]. rewrite <- Hx.
    rewrite length_app. cbn [length]. destruct (Nat.ltb_spec (length hs + 4) MERKLE_ARITY) as [Hlt|_]; [unfold MERKLE_ARITY in Hlt; lia|].
    replace (length hs + 4 - MERKLE_ARITY)%nat with (length hs) by (unfold MERKLE_ARITY; lia).
    rewrite take_app_length, drop_app_length. reflexivity.
Qed.

(** ** More fuel does not change a result *)
Lemma hash_events_more fuel : forall fuel' queue hs st r, hash_events fuel queue hs st = Some r -> (fuel <= fuel')%nat ->
  hash_events fuel' queue hs st = Some r.
Proof.
  induction fuel as [|fuel IH]; intros fuel' [|event queue] hs st r Hr Hf; try discriminate; try (destruct fuel'; exact Hr).
  destruct fuel' as [|fuel']; [lia|]. cbn [Layouts.hash_events] in *. destruct event as [start len part|ph].
  - destruct (is_leaf len).
    + destruct (leaf start part st) as [[[h st']|e]|]; [cbn [obind] in *; eapply IH; [exact Hr | lia] | exact Hr..].
    + destruct (into_branches_with_hash MERKLE_ARITY part) as [[bs ph]|e]; [|exact Hr]. cbn [obind] in *.
      eapply IH; [exact Hr | lia].
  - destruct hs as [|h hs]; [eapply IH; [exact Hr | lia]|]. destruct (_ <? _)%nat; [exact Hr|]. eapply IH; [exact Hr | lia].
Qed.

(** ** The hash of an array *)
Definition enough (k : nat) : nat := passes k + event_count k.

Lemma hash_events_eval k part st fuel : span_length k <= usize_MAX -> (enough k <= fuel)%nat -> good k part = true ->
  hash_events fuel [Span 0 (span_length k) part] [] st = ('(r, _) <-$ eval k 0 part st ;; Some (Ok [r])).
Proof.
  intros Hmax Hf Hg. pose proof (first_passes k k 0 part ltac:(lia) ltac:(lia) ltac:(lia)) as Hfirst.
  specialize (Hfirst (fuel - passes k)%nat st). rewrite Hg in Hfirst. unfold enough in Hf.
  replace (passes k + (fuel - passes k))%nat with fuel in Hfirst by lia. change (frontier 0 k 0 part) with [Span 0 (span_length k) part] in Hfirst.
  rewrite Hfirst. pose proof (last_pass k 0 part [] [] st (fuel - passes k - event_count k)%nat) as Hlast.
  rewrite app_nil_r in Hlast. replace (event_count k + (fuel - passes k - event_count k))%nat with (fuel - passes k)%nat in Hlast by lia.
  rewrite Hlast. destruct (eval k 0 part st) as [[[r st']|e]|]; [|reflexivity..]. cbn [obind app].
  destruct (fuel - passes k - event_count k)%nat; reflexivity.
Qed.
Lemma events_hash_eval k part st fuel r st' : span_length k <= usize_MAX -> (enough k <= fuel)%nat -> good k part = true ->
  eval k 0 part st = Some (Ok (r, st')) -> events_hash is_leaf leaf fuel (span_length k) part st = Some r.
Proof.
  intros Hmax Hf Hg He. unfold events_hash. rewrite hash_events_eval, He by assumption. reflexivity.
Qed.

Hypothesis leaf_error : forall start part st e, leaf start part st = Some (Err e) -> e <> PotentiallyRecoverable.

Lemma eval_error k : forall start part st e, eval k start part st = Some (Err e) -> e <> PotentiallyRecoverable.
Proof.
  induction k as [|k IH]; intros start part st e; [apply leaf_error|]. rewrite eval_step.
  destruct (eval_all k _ start st) as [[[rs st']|e']|] eqn:Ha; [discriminate | | discriminate]. cbn. intros [= ->].
  revert start st Ha. induction (fst (branches_of part)) as [|b bs IHb]; intros start st; [discriminate|]. cbn [eval_all].
  destruct (eval k start b st) as [[[r st1]|e1]|] eqn:He; cbn [obind]; [|intros [= ->]; exact (IH _ _ _ _ He) | discriminate].
  destruct (eval_all k bs _ st1) as [[[rs st2]|e2]|] eqn:Hb; cbn [obind]; [discriminate | intros [= ->]; exact (IHb _ _ Hb) | discriminate].
Qed.

(** A hash, or a recoverable error, is that of the recursion. *)
Lemma events_hash_inv k part st fuel r : span_length k <= usize_MAX ->
  events_hash is_leaf leaf fuel (span_length k) part st = Some r -> (exists h, r = Ok h) \/ r = Err PotentiallyRecoverable ->
  good k part = true /\ exists st', eval k 0 part st = Some (Ok (r, st')).
Proof.
  intros Hmax He Hr. unfold events_hash in He.
  destruct (hash_events fuel [Span 0 (span_length k) part] [] st) as [hr|] eqn:Hh; [|discriminate He].
  apply (hash_events_more _ (fuel + enough k)) in Hh; [|lia].
  pose proof (first_passes k k 0 part ltac:(lia) ltac:(lia) ltac:(lia) (fuel + event_count k)%nat st) as Hfirst.
  replace (passes k + (fuel + event_count k))%nat with (fuel + enough k)%nat in Hfirst by (unfold enough; lia).
  destruct (good k part) eqn:Hg.
  - split; [reflexivity|]. rewrite hash_events_eval in Hh by (assumption || lia).
    destruct (eval k 0 part st) as [[[r' st']|e]|] eqn:Hev; cbn [obind] in Hh; [| |discriminate].
    + injection Hh as <-. cbn in He. injection He as ->. eauto.
    + injection Hh as <-. cbn in He. injection He as <-. apply eval_error in Hev.
      destruct Hr as [[h Hr]|Hr]; [discriminate | congruence].
  - destruct Hfirst as [e Hfirst]. change (frontier 0 k 0 part) with [Span 0 (span_length k) part] in Hfirst.
    rewrite Hfirst in Hh. injection Hh as <-. cbn in He. injection He as <-. destruct Hr as [[h Hr]|Hr]; discriminate.
Qed.
End Events.
