(* ===== verification/Revealed.v ===== *)
(** * The hash of the state that a proof reveals

    A verifier whose state holds what the proof of a run reveals computes, with the
    proof, the hash of the state that the run ends in. *)

From stdpp Require Import gmap.
From S2P Require Import Prelude.
From S2P Require Import Hash.
From S2P Require Import MerkleProof.
From S2P Require Import Merkle.
From S2P Require Import MerkleSpec.
From S2P Require Import Backend.
From S2P Require Import BackendSpec.
From S2P Require Import DynBackendSpec.
From S2P Require Import Deserialiser.
From S2P Require Import Layouts.
From S2P Require Import LayoutsSpec.
From S2P Require Import ProofRun.
From S2P Require Import EventsSpec.

(** The part of a proof that a subtree of the execution is found in: its own proof,
    or nothing below a blinded node. *)
Definition shown (t : MerkleTree) (part : ProofTree) : Prop :=
  part = PartPresent (proof_tree t) \/ blindable t = true /\ part = PartAbsent.

(** The result expected of that part. *)
Definition want (part : ProofTree) (hash : Hash) : result Hash PartialHashError :=
  match part with PartAbsent => Err PotentiallyRecoverable | PartPresent _ => Ok hash end.

Section Combine.
Context `{Blake2bLaws}.

(** The hash of what a subtree without an access holds is still its own. *)
Definition kept (t : MerkleTree) (hash : Hash) : Prop := blindable t = true -> hash = tree_root_hash t.

Lemma kept_node ts hs : Forall2 kept ts hs -> kept (merkle_node ts) (hash_node hs).
Proof.
  intros Hk. unfold kept. cbn [merkle_node blindable tree_root_hash]. intros [_ Hb]%andb_true_iff.
  unfold hash_node. do 4 f_equal. induction Hk as [|t h ts hs Ht _ IH]; [reflexivity|].
  cbn in Hb. apply andb_true_iff in Hb as [Ht' Hb]. cbn. rewrite Ht by exact Ht'. f_equal. apply IH, Hb.
Qed.
Lemma kept_perfect k : forall ts hs, Forall2 kept ts hs -> kept (perfect merkle_node k ts) (perfect hash_node k hs).
Proof.
  induction k as [|k IH]; intros ts hs Hk.
  - destruct Hk as [|t h ts hs Ht Hk]; [apply kept_node; constructor|].
    destruct Hk; [exact Ht | apply kept_node; constructor].
  - cbn [perfect]. apply kept_node. apply Forall2_fmap.
    remember (length ts) as n eqn:Hn. revert ts hs Hk Hn. induction n as [n IHn] using lt_wf_ind. intros ts hs Hk ->.
    pose proof (pow4_pos k). destruct Hk as [|t h ts hs Ht Hk]; [constructor|].
    rewrite (chunks_cons (4 ^ k) (t :: ts)), (chunks_cons (4 ^ k) (h :: hs)) by (assumption || discriminate).
    assert (Hall : Forall2 kept (t :: ts) (h :: hs)) by (constructor; assumption).
    constructor; [apply IH, Forall2_take, Hall|].
    apply (IHn (length (drop (4 ^ k) (t :: ts)))); [rewrite length_drop; cbn [length]; lia | | reflexivity].
    exact (Forall2_drop _ _ _ (4 ^ k) Hall).
Qed.

Lemma want_present bs hs : length bs = length hs -> zip_with want (map PartPresent bs) hs = map Ok hs.
Proof. revert hs. induction bs as [|b bs IH]; intros [|h hs] Hl; try discriminate Hl; [reflexivity|]. cbn. f_equal. apply IH. cbn in Hl. lia. Qed.
Lemma want_absent n hs : length hs = n -> zip_with want (replicate n PartAbsent) hs = replicate n (Err PotentiallyRecoverable).
Proof. intros <-. induction hs as [|h hs IH]; [reflexivity|]. cbn. f_equal. exact IH. Qed.
Lemma expected_ok hs : expected_hashes true (map Ok hs) = Ok hs.
Proof. induction hs as [|h hs IH]; [reflexivity|]. cbn. rewrite IH. reflexivity. Qed.
Lemma expected_err n : expected_hashes false (replicate n (Err PotentiallyRecoverable)) = Ok [].
Proof. induction n as [|n IH]; [reflexivity | exact IH]. Qed.
Lemma combine_ok_hashes hs ph : combine_partial_hashes (map Ok hs) ph = Ok (hash_node hs).
Proof.
  destruct hs as [|h hs]; cbn [map combine_partial_hashes]; [rewrite combine_ok; reflexivity|].
  change (Ok h :: map Ok hs) with (map (@Ok Hash PartialHashError) (h :: hs)).
  rewrite expected_ok. cbn [result_bind]. rewrite combine_ok. reflexivity.
Qed.
Lemma combine_err n ph : (0 < n)%nat -> combine_partial_hashes (replicate n (Err PotentiallyRecoverable)) ph =
  match ph with Some hash => Ok hash | None => Err PotentiallyRecoverable end.
Proof.
  destruct n as [|n]; [lia|]. intros _. cbn [replicate combine_partial_hashes].
  change (Err PotentiallyRecoverable :: replicate n (Err PotentiallyRecoverable)) with
    (replicate (S n) (@Err Hash PartialHashError PotentiallyRecoverable)). rewrite expected_err. reflexivity.
Qed.

Lemma proof_tree_node ts : proof_tree (merkle_node ts) =
  if blindable (merkle_node ts) then Leaf (Blind (tree_root_hash (merkle_node ts))) else Node (map proof_tree ts).
Proof. reflexivity. Qed.

(** The branches of a node, and what becomes of their hashes. *)
Lemma branches_shown ts part : shown (merkle_node ts) part ->
  exists bs ph, into_branches_with_hash (length ts) part = Ok (bs, ph) /\ Forall2 shown ts bs /\
    (forall hs, Forall2 kept ts hs -> combine_partial_hashes (zip_with want bs hs) ph = want part (hash_node hs)).
Proof.
  intros Hs. destruct (blindable (merkle_node ts)) eqn:Hb.
  - assert (Hts : (0 < length ts)%nat /\ Forall (fun t => blindable t = true) ts).
    { cbn [merkle_node blindable] in Hb. apply andb_true_iff in Hb as [Hn Hall]. split.
      - destruct ts; [discriminate Hn | cbn; lia].
      - apply Forall_forall. intros t Ht. rewrite forallb_forall in Hall. apply Hall, list_elem_of_In, Ht. }
    destruct Hts as [Hpos Hts]. assert (Habs : Forall2 shown ts (replicate (length ts) PartAbsent)).
    { clear -Hts. induction Hts as [|t ts Ht _ IH]; cbn; constructor; [right; split; [exact Ht | reflexivity] | exact IH]. }
    assert (Hbs : into_branches_with_hash (length ts) part =
      Ok (replicate (length ts) PartAbsent, match part with PartAbsent => None | PartPresent _ => Some (tree_root_hash (merkle_node ts)) end)).
    { destruct Hs as [-> | [_ ->]]; [|reflexivity]. rewrite proof_tree_node, Hb. reflexivity. }
    eexists _, _. split; [exact Hbs|]. split; [exact Habs|]. intros hs Hk.
    rewrite want_absent by (symmetry; apply (Forall2_length _ _ _ Hk)). rewrite combine_err by exact Hpos.
    destruct part; [reflexivity|]. cbn [want]. f_equal. symmetry. exact (kept_node ts hs Hk Hb).
  - destruct Hs as [-> | [Hb' _]]; [|congruence]. exists (map PartPresent (map proof_tree ts)), None.
    rewrite proof_tree_node, Hb. split; [cbn; rewrite length_map, Nat.eqb_refl; reflexivity|]. split.
    + clear. induction ts as [|t ts IH]; cbn; constructor; [left; reflexivity | exact IH].
    + intros hs Hk. rewrite want_present by (rewrite length_map; apply (Forall2_length _ _ _ Hk)). apply combine_ok_hashes.
Qed.

(** A leaf without an access. *)
Lemma blind_leaf_shown data part hash : shown (merkle_leaf false data) part -> kept (merkle_leaf false data) hash ->
  partial_hash_leaf part = want part hash.
Proof. intros [-> | [_ ->]] Hk; [|reflexivity]. cbn. rewrite (Hk eq_refl). reflexivity. Qed.
Lemma read_leaf_shown data part : shown (merkle_leaf true data) part -> part = PartPresent (Leaf (Read data)).
Proof. intros [-> | [Hb _]]; [reflexivity | discriminate]. Qed.
End Combine.

(** ** Long arrays *)
Lemma four_quarters {A} k (l : list A) : length l = (4 ^ S k)%nat ->
  exists a b c d, l = a ++ b ++ c ++ d /\ chunks (4 ^ k) l = [a; b; c; d] /\
    length a = (4 ^ k)%nat /\ length b = (4 ^ k)%nat /\ length c = (4 ^ k)%nat /\ length d = (4 ^ k)%nat.
Proof.
  intros Hl. destruct (quarters k l Hl) as [Hn Hq]. pose proof (chunks_concat (4 ^ k) l (pow4_pos k)) as Hc.
  destruct (chunks (4 ^ k) l) as [|a [|b [|c [|d [|e r]]]]]; try discriminate Hn.
  apply Forall_cons in Hq as [Ha Hq]. apply Forall_cons in Hq as [Hb Hq].
  apply Forall_cons in Hq as [Hc' Hq]. apply Forall_cons in Hq as [Hd _].
  exists a, b, c, d. cbn in Hc. rewrite app_nil_r in Hc. repeat split; assumption || (symmetry; exact Hc).
Qed.

Section Arrays.
Context `{Blake2bLaws}.
Context {St : Type} (leaf : Z -> ProofTree -> St -> outcome (result Hash PartialHashError * St) PartialHashError) (u : Z) (cur : nat -> St).
Notation eval := (eval leaf u).
Notation eval_all := (eval_all leaf u).

(** The leaves from the one of index [i] give the hashes [hs]. *)
Definition leaves_give (i : nat) (ts : list MerkleTree) (hs : list Hash) : Prop :=
  Forall2 kept ts hs /\
  (forall j t h part, ts !! j = Some t -> hs !! j = Some h -> shown t part ->
    leaf (u * Z.of_nat (i + j)) part (cur (i + j)) = Some (Ok (want part h, cur (S (i + j))))).

Lemma leaves_give_app i ts1 ts2 hs : leaves_give i (ts1 ++ ts2) hs ->
  exists hs1 hs2, hs = hs1 ++ hs2 /\ length hs1 = length ts1 /\ leaves_give i ts1 hs1 /\ leaves_give (i + length ts1) ts2 hs2.
Proof.
  intros [Hk Hl]. apply Forall2_app_inv_l in Hk as (hs1 & hs2 & Hk1 & Hk2 & ->).
  pose proof (Forall2_length _ _ _ Hk1) as Hlen. exists hs1, hs2. split; [reflexivity|]. split; [symmetry; exact Hlen|]. split.
  - split; [exact Hk1|]. intros j t h part Ht Hh. apply Hl; apply lookup_app_l_Some; assumption.
  - split; [exact Hk2|]. intros j t h part Ht Hh. replace (i + length ts1 + j)%nat with (i + (length ts1 + j))%nat by lia.
    apply Hl; [rewrite lookup_app_r by lia | rewrite Hlen, lookup_app_r by lia]; rewrite <- ?Hlen.
    + replace (length ts1 + j - length ts1)%nat with j by lia. exact Ht.
    + replace (length ts1 + j - length ts1)%nat with j by lia. exact Hh.
Qed.

Lemma shown_good k : forall ts part, length ts = (4 ^ k)%nat -> shown (perfect merkle_node k ts) part -> good k part = true.
Proof.
  induction k as [|k IH]; intros ts part Hl Hs; [reflexivity|]. destruct (four_quarters k ts Hl) as (a & b & c & d & -> & Hc & Ha & Hb & Hc' & Hd).
  cbn [perfect] in Hs. rewrite Hc in Hs. cbn [map] in Hs. destruct (branches_shown _ _ Hs) as (bs & ph & Hbs & Hsh & _).
  change (length _) with MERKLE_ARITY in Hbs. cbn [good]. unfold is_branching, branches_of. rewrite Hbs. cbn [andb fst].
  inversion Hsh as [|? b1 ? ? S1 R1]; subst. inversion R1 as [|? b2 ? ? S2 R2]; subst.
  inversion R2 as [|? b3 ? ? S3 R3]; subst. inversion R3 as [|? b4 ? ? S4 R4]; subst. inversion R4; subst.
  cbn [forallb]. rewrite (IH a b1), (IH b b2), (IH c b3), (IH d b4) by assumption. reflexivity.
Qed.

Lemma eval_shown k : forall i ts hs part, length ts = (4 ^ k)%nat -> leaves_give i ts hs -> shown (perfect merkle_node k ts) part ->
  eval k (u * Z.of_nat i) part (cur i) = Some (Ok (want part (perfect hash_node k hs), cur (i + 4 ^ k))).
Proof.
  induction k as [|k IH]; intros i ts hs part Hl Hg Hs.
  - destruct ts as [|t [|t' ts]]; try discriminate Hl. destruct Hg as [Hk Hg].
    pose proof (Forall2_length _ _ _ Hk) as Hh. destruct hs as [|h [|h' hs]]; try discriminate Hh.
    pose proof (Hg 0%nat t h part eq_refl eq_refl Hs) as Hleaf. rewrite !Nat.add_0_r in Hleaf. cbn [EventsSpec.eval].
    replace (i + 4 ^ 0)%nat with (S i) by (cbn; lia). exact Hleaf.
  - pose proof Hg as [Hk _]. pose proof (Forall2_length _ _ _ Hk) as Hlh.
    destruct (four_quarters k ts Hl) as (a & b & c & d & -> & Hc & Ha & Hb & Hc' & Hd).
    destruct (leaves_give_app _ _ _ _ Hg) as (ha & h1 & -> & Hla & Ga & Hg1).
    destruct (leaves_give_app _ _ _ _ Hg1) as (hb & h2 & -> & Hlb & Gb & Hg2).
    destruct (leaves_give_app _ _ _ _ Hg2) as (hc & hd & -> & Hlc & Gc & Gd).
    assert (Hchunks : chunks (4 ^ k) (ha ++ hb ++ hc ++ hd) = [ha; hb; hc; hd]).
    { pose proof (pow4_pos k). pose proof (Forall2_length _ _ _ (proj1 Gd)) as Hld.
      rewrite !chunks_app by lia. rewrite chunks_short; [reflexivity | intros ->; cbn in Hld; lia | lia]. }
    cbn [perfect] in Hs |- *. rewrite Hc in Hs. rewrite Hchunks. cbn [map] in Hs |- *.
    destruct (branches_shown _ _ Hs) as (bs & ph & Hbs & Hsh & Hcomb). change (length _) with MERKLE_ARITY in Hbs.
    inversion Hsh as [|? b1 ? ? S1 R1]; subst. inversion R1 as [|? b2 ? ? S2 R2]; subst.
    inversion R2 as [|? b3 ? ? S3 R3]; subst. inversion R3 as [|? b4 ? ? S4 R4]; subst. inversion R4; subst.
    rewrite eval_step. unfold branches_of. rewrite Hbs. cbn [fst snd EventsSpec.eval_all].
    rewrite (IH i a ha b1 Ha Ga S1), obind_ok.
    assert (Hpow : forall j, u * Z.of_nat j + u * 4 ^ Z.of_nat k = u * Z.of_nat (j + 4 ^ k)).
    { intros j. rewrite Nat2Z.inj_add, Nat2Z.inj_pow. change (Z.of_nat 4) with 4. lia. }
    rewrite Ha in Gb, Gc, Gd. rewrite Hb in Gc, Gd. rewrite Hc' in Gd.
    rewrite Hpow, (IH _ b hb b2 Hb Gb S2), obind_ok. rewrite Hpow, (IH _ c hc b3 Hc' Gc S3), obind_ok.
    rewrite Hpow, (IH _ d hd b4 Hd Gd S4), !obind_ok.
    pose proof (Hcomb [perfect hash_node k ha; perfect hash_node k hb; perfect hash_node k hc; perfect hash_node k hd]) as Hfin.
    cbn [zip_with] in Hfin. rewrite Hfin.
    + do 4 f_equal. cbn. lia.
    + repeat (apply Forall2_cons; split); try apply Forall2_nil; try exact I; apply kept_perfect; (apply Ga || apply Gb || apply Gc || apply Gd).
Qed.
End Arrays.

(** ** Pages *)
Lemma includes_range_spec (log : DynAccess) first past : includes_range log first past = true <-> (exists x, x ∈ log /\ first <= x < past).
Proof.
  unfold includes_range. rewrite existsb_exists. split.
  - intros (x & Hx & Hb). apply list_elem_of_In, elem_of_elements in Hx. exists x. split; [exact Hx | lia].
  - intros (x & Hx & Hb). exists x. split; [apply list_elem_of_In, elem_of_elements, Hx | lia].
Qed.
Lemma page_accessed_spec g i : page_accessed g i = true <-> page_in g (4096 * Z.of_nat i).
Proof.
  unfold page_accessed, page_in. rewrite orb_true_iff, !includes_range_spec, leaf_size_eq. split.
  - intros [(x & Hx & Hr)|(x & Hx & Hr)]; exists x; (split; [|rewrite page_id_eq; symmetry; f_equal; apply Z.div_unique with (x - 4096 * Z.of_nat i); lia]).
    + apply elem_of_accessed. left. exact Hx.
    + apply elem_of_accessed. right. apply elem_of_dom, Hx.
  - intros (x & Hx & Hid). rewrite page_id_eq in Hid. pose proof (Z.div_mod x 4096 ltac:(lia)). pose proof (Z.mod_pos_bound x 4096 ltac:(lia)).
    apply elem_of_accessed in Hx as [Hx|Hx]; [left | right]; exists x; (split; [|lia]); [exact Hx | apply elem_of_dom, Hx].
Qed.

Lemma page_fits LEN k s i p : LEN = LEAF_SIZE * 4 ^ Z.of_nat k -> Z.of_nat (length s) = LEN -> pages s !! i = Some p ->
  4096 * Z.of_nat i + 4096 <= LEN /\ (i * MERKLE_LEAF_SIZE < length s)%nat.
Proof.
  intros HL Hl Hp. destruct (pages_length LEN k s HL Hl) as [Hn _]. apply lookup_lt_Some in Hp. rewrite Hn in Hp.
  apply Nat2Z.inj_lt in Hp. rewrite Nat2Z.inj_pow in Hp. change (Z.of_nat 4) with 4 in Hp. rewrite leaf_size_eq in HL.
  assert (4096 * Z.of_nat i + 4096 <= LEN) by lia. split; [assumption|]. apply Nat2Z.inj_lt.
  rewrite Nat2Z.inj_mul, leaf_size_eq. lia.
Qed.

(** A page without an access is that of the initial state. *)
Lemma page_untouched g i : (i * MERKLE_LEAF_SIZE < length (dyn_source g))%nat -> page_accessed g i = false ->
  pages (dyn_current g) !! i = pages (dyn_source g) !! i.
Proof.
  intros Hi Ha. rewrite !pages_lookup by (rewrite ?length_dyn_current; exact Hi). f_equal.
  apply list_eq. intros j. unfold slice. destruct (decide (j < Z.to_nat 4096)%nat) as [Hj|Hj].
  - rewrite !lookup_take_lt, !lookup_drop by exact Hj. unfold dyn_current. rewrite list_lookup_imap.
    destruct (dyn_source g !! _) as [b|]; [|reflexivity]. cbn. set (x := (Z.to_nat (4096 * Z.of_nat i) + j)%nat).
    destruct (dyn_writes g !! Z.of_nat x) as [w|] eqn:Hw; [|reflexivity]. exfalso.
    assert (Hin : page_accessed g i = true); [|congruence]. apply page_accessed_spec. exists (Z.of_nat x). split.
    + apply elem_of_accessed. right. rewrite Hw. eexists. reflexivity.
    + replace (Z.of_nat x) with (4096 * Z.of_nat i + Z.of_nat j) by (subst x; lia). apply page_id_aligned. lia.
  - rewrite !lookup_take_ge by lia. reflexivity.
Qed.

(** ** The whole state *)
Section States.
Context `{Blake2bLaws, Serde, RangeSetLaws}.
Notation O := (owned Val).
Notation PG := (proof_gen Val).
Notation V := (verifier Val).
Notation page_hash := (fun p => mkHash (digest_256 p)).

Lemma kept_leaf a data data' : (a = false -> data' = data) -> kept (merkle_leaf a data) (mkHash (digest_256 data')).
Proof. intros Hd Hb. cbn in Hb. apply negb_true_iff in Hb. rewrite (Hd Hb). reflexivity. Qed.

Lemma kept_pages LEN k g : LEN = LEAF_SIZE * 4 ^ Z.of_nat k -> Z.of_nat (length (dyn_source g)) = LEN ->
  Forall2 kept (page_leaves g) (map page_hash (pages (dyn_current g))).
Proof.
  intros HL Hl. destruct (pages_length LEN k (dyn_source g) HL Hl) as [Hn _].
  destruct (pages_length LEN k (dyn_current g) HL ltac:(rewrite length_dyn_current; exact Hl)) as [Hn' _].
  apply Forall2_same_length_lookup. unfold page_leaves. rewrite length_imap, length_map. split; [congruence|].
  intros i t h Ht Hh. rewrite list_lookup_imap in Ht. rewrite list_lookup_fmap in Hh.
  destruct (pages (dyn_source g) !! i) as [p|] eqn:Hp; [|discriminate]. injection Ht as <-.
  destruct (pages (dyn_current g) !! i) as [q|] eqn:Hq; [|discriminate]. injection Hh as <-.
  apply kept_leaf. intros Ha. rewrite page_untouched in Hq by (exact Ha || apply (page_fits LEN k _ i p HL Hl Hp)). congruence.
Qed.

(** What was not accessed has the hash that it had. *)
Lemma merkle_kept : (forall L g, layout_ok L -> proof_wf L g -> kept (merkle_of L g) (data_root (commit L (current_state L g)))) /\
  (forall fs gs, fields_ok fs -> fields_wf fs gs -> Forall2 kept (fields_merkle fs gs) (map data_root (commit_fields fs (current_fields fs gs)))).
Proof.
  assert (Hlist : forall (T : Layout) (g : list (Allocated PG T)), layout_ok T -> Forall (proof_wf T) g ->
    (forall g, layout_ok T -> proof_wf T g -> kept (merkle_of T g) (data_root (commit T (current_state T g)))) ->
    Forall2 kept (map (merkle_of T) g) (map data_root (map (commit T) (map (current_state T) g)))).
  { intros T g Hok Hg IH. rewrite !map_map. apply Forall2_fmap, Forall_Forall2_diag. eapply Forall_impl; [exact Hg|].
    intros x Hx. apply IH; assumption. }
  apply Layout_Fields_ind.
  - intros T g _ [_ Hu]. apply kept_leaf. intros Ha. cbn. rewrite current_unwritten by apply Hu, Ha. reflexivity.
  - intros T LEN g _ [_ Hu]. apply kept_leaf. intros Ha. cbn. rewrite current_unwritten by apply Hu, Ha. reflexivity.
  - intros LEN g [HL _] Hl. cbn [merkle_of commit view_state]. rewrite data_root_perfect, map_map. apply kept_perfect.
    exact (kept_pages LEN _ g HL Hl).
  - intros T g _ [_ Hg]. apply kept_leaf. intros Ha. cbn [view_state]. do 2 f_equal. clear -Ha Hg.
    induction Hg as [|x g [_ Hu] _ IH]; [reflexivity|]. cbn in Ha. apply orb_false_iff in Ha as [Hax Ha].
    cbn. rewrite current_unwritten by apply Hu, Hax. f_equal. apply IH, Ha.
  - intros fs IH g Hok Hg. apply kept_node, IH; assumption.
  - intros LEN T IH g Hok [_ Hg]. apply kept_node. exact (Hlist T g Hok Hg IH).
  - intros LEN T IH g [_ Hok] [_ Hg]. cbn [merkle_of commit view_state]. rewrite data_root_perfect. apply kept_perfect.
    exact (Hlist T g Hok Hg IH).
  - intros gs _ _. constructor.
  - intros L IHL fs IHfs [g gs] [HokL Hok] [HgL Hg]. constructor; [apply IHL; assumption | apply IHfs; assumption].
Qed.

(** The fuel that a layout needs. *)
Fixpoint fuel_for (L : Layout) : nat :=
  match L with
  | Atom _ | Array _ _ | CSRValuesLayout _ => 0
  | DynArray LEN => enough (depth (pages_of LEN))
  | Struct fields => fields_fuel fields
  | ArrayOf _ T => fuel_for T
  | Many LEN T => Nat.max (enough (depth LEN)) (fuel_for T)
  end
with fields_fuel (fields : Fields) : nat :=
  match fields with NoField => 0 | Field L fields => Nat.max (fuel_for L) (fields_fuel fields) end.

(** *** Regions *)
Lemma cells_revealed LEN g v part : region_wf LEN g -> v = revealed (access g) (current g) ->
  shown (merkle_leaf (access g) (cells_bytes (source g))) part ->
  cells_partial_hash LEN v part = want part (mkHash (digest_256 (cells_bytes (current g)))).
Proof.
  intros [Hl Hu] -> Hs. unfold cells_partial_hash. rewrite get_partial_region_revealed.
  destruct (access g) eqn:Ha.
  - apply read_leaf_shown in Hs as ->. rewrite blake2b_hash_bytes_ok. cbn. do 3 f_equal. unfold complete_region_bytes, cells_bytes.
    destruct (Nat.eqb_spec LEN 1) as [->|]; [|reflexivity]. rewrite <- length_current in Hl.
    destruct (current g) as [|x [|y l]]; try discriminate Hl. cbn. rewrite app_nil_r. reflexivity.
  - apply (blind_leaf_shown _ _ _ Hs), kept_leaf. intros _. rewrite current_unwritten by apply Hu, eq_refl. reflexivity.
Qed.

Lemma csr_values_revealed gs vs part : Forall (region_wf 1) gs -> gs <> [] ->
  Forall2 (fun s v => v = revealed (existsb access gs) s) (map current gs) vs ->
  shown (merkle_leaf (existsb access gs) (concat (map cells_bytes (map source gs)))) part ->
  kept (merkle_leaf (existsb access gs) (concat (map cells_bytes (map source gs)))) (mkHash (digest_256 (concat (map cells_bytes (map current gs))))) ->
  csr_values_partial_hash vs part = Some (want part (mkHash (digest_256 (concat (map cells_bytes (map current gs)))))).
Proof.
  intros Hg Hne Hv Hs Hk. unfold csr_values_partial_hash. destruct (existsb access gs).
  - assert (Hc : exists xs, collect_results owned_cell_try_from vs = Ok xs /\ map (fun x => [x]) xs = map current gs).
    { clear Hne Hs Hk. revert vs Hv. induction Hg as [|g gs [Hl _] _ IH]; intros vs Hv; inversion Hv; subst.
      - exists []. split; reflexivity.
      - match goal with Hv' : Forall2 _ _ ?l |- _ => destruct (IH l Hv') as (xs & Hxs & Hmap) end.
        rewrite <- length_current in Hl. destruct (current g) as [|x [|? ?]] eqn:Hcur; try discriminate Hl.
        exists (x :: xs). cbn. rewrite Hxs. cbn. rewrite Hmap, Hcur. split; reflexivity. }
    destruct Hc as (xs & -> & Hmap). apply read_leaf_shown in Hs as ->. rewrite Hmap.
    rewrite (csr_values_hash_view (M := owned Val) (fun s => s) owned_serialise_bytes).
    + cbn. rewrite map_id. reflexivity.
    + apply Forall_map. eapply Forall_impl; [exact Hg|]. intros g [Hl _]. rewrite length_current. exact Hl.
  - destruct gs as [|g gs]; [congruence|]. inversion Hv; subst. cbn [collect_results owned_cell_try_from revealed result_bind].
    f_equal. exact (blind_leaf_shown _ _ _ Hs Hk).
Qed.

(** *** Dynamic regions *)
Lemma dyn_cells_revealed fuel LEN k g v part : LEN = LEAF_SIZE * 4 ^ Z.of_nat k -> LEN <= usize_MAX ->
  Z.of_nat (length (dyn_source g)) = LEN -> (enough k <= fuel)%nat ->
  dyn_reveals (page_in g) (dyn_current g) v -> shown (perfect merkle_node k (page_leaves g)) part ->
  dyn_cells_partial_hash fuel LEN v part = Some (want part (perfect hash_node k (map page_hash (pages (dyn_current g))))).
Proof.
  intros HL Hmax Hl Hf Hv Hs. destruct (pages_length LEN k (dyn_source g) HL Hl) as [Hn _].
  assert (Hlc : Z.of_nat (length (dyn_current g)) = LEN) by (rewrite length_dyn_current; exact Hl).
  assert (Hlen : length (page_leaves g) = (4 ^ k)%nat) by (unfold page_leaves; rewrite length_imap; exact Hn).
  assert (Hgive : leaves_give (page_leaf v) LEAF_SIZE (fun _ => tt) 0 (page_leaves g) (map page_hash (pages (dyn_current g)))).
  { pose proof (kept_pages LEN k g HL Hl) as Hk. split; [exact Hk|]. intros i t h p Ht Hh Hsh. cbn [Nat.add].
    pose proof (Forall2_lookup_lr _ _ _ _ _ _ Hk Ht Hh) as Hkept.
    unfold page_leaves in Ht. rewrite list_lookup_imap in Ht. rewrite list_lookup_fmap in Hh.
    destruct (pages (dyn_source g) !! i) as [d|] eqn:Hp; [|discriminate]. injection Ht as <-.
    destruct (pages (dyn_current g) !! i) as [q|] eqn:Hq; [|discriminate]. injection Hh as <-.
    destruct (page_fits LEN k _ i q HL Hlc Hq) as [Hi Hi']. rewrite pages_lookup in Hq by exact Hi'. injection Hq as <-.
    unfold page_leaf. rewrite leaf_size_eq. destruct (page_id_aligned (Z.of_nat i) 0 ltac:(lia)) as [Hid _].
    rewrite Z.add_0_r in Hid. rewrite Hid. destruct (page_accessed g i) eqn:Ha.
    - rewrite (get_partial_page_reveals _ _ _ _ Hv) by (lia || apply page_accessed_spec, Ha).
      rewrite blake2b_hash_bytes_ok. apply read_leaf_shown in Hsh as ->. reflexivity.
    - rewrite (get_partial_page_absent _ _ _ _ Hv) by (rewrite <- page_accessed_spec; congruence).
      rewrite (blind_leaf_shown _ _ _ Hsh Hkept). reflexivity. }
  unfold dyn_cells_partial_hash. rewrite HL.
  assert (Hspan : forall j, (LEAF_SIZE * 4 ^ Z.of_nat j <=? LEAF_SIZE) = (j =? 0)%nat).
  { intros [|j]; [reflexivity|]. cbn [Nat.eqb]. rewrite Nat2Z.inj_succ, Z.pow_succ_r by lia.
    pose proof (Z.pow_pos_nonneg 4 (Z.of_nat j) ltac:(lia) ltac:(lia)). rewrite leaf_size_eq. lia. }
  apply (events_hash_eval _ (page_leaf v) LEAF_SIZE ltac:(rewrite leaf_size_eq; lia) Hspan k part tt fuel _ tt ltac:(lia) Hf).
  - exact (shown_good k _ _ Hlen Hs).
  - exact (eval_shown (page_leaf v) LEAF_SIZE (fun _ => tt) k 0 _ _ part Hlen Hgive Hs).
Qed.

(** *** Vectors *)
Lemma many_revealed {A} (element_hash : A -> ProofTree -> outcome Hash PartialHashError) fuel LEN k vs ts hs part :
  LEN = 4 ^ Z.of_nat k -> LEN <= usize_MAX -> length vs = (4 ^ k)%nat -> length ts = (4 ^ k)%nat -> (enough k <= fuel)%nat ->
  Forall2 kept ts hs ->
  (forall i v t h p, vs !! i = Some v -> ts !! i = Some t -> hs !! i = Some h -> shown t p -> element_hash v p = Some (want p h)) ->
  shown (perfect merkle_node k ts) part ->
  events_hash (fun length => length =? 1) (element_leaf element_hash) fuel LEN part vs = Some (want part (perfect hash_node k hs)).
Proof.
  intros HL Hmax Hlv Hlt Hf Hk Hel Hs.
  assert (Hgive : leaves_give (element_leaf element_hash) 1 (fun i => drop i vs) 0 ts hs).
  { split; [exact Hk|]. intros i t h p Ht Hh Hsh. cbn [Nat.add].
    destruct (lookup_lt_is_Some_2 vs i) as [v Hv]; [apply lookup_lt_Some in Ht; lia|].
    rewrite (drop_S vs v i Hv). cbn [element_leaf]. rewrite (Hel i v t h p Hv Ht Hh Hsh). reflexivity. }
  assert (Hspan : forall j, (1 * 4 ^ Z.of_nat j =? 1) = (j =? 0)%nat).
  { intros [|j]; [reflexivity|]. cbn [Nat.eqb]. rewrite Nat2Z.inj_succ, Z.pow_succ_r by lia.
    pose proof (Z.pow_pos_nonneg 4 (Z.of_nat j) ltac:(lia) ltac:(lia)). lia. }
  replace LEN with (1 * 4 ^ Z.of_nat k) by lia.
  apply (events_hash_eval _ (element_leaf element_hash) 1 ltac:(lia) Hspan k part vs fuel _ (drop (4 ^ k) vs) ltac:(lia) Hf).
  - exact (shown_good k _ _ Hlt Hs).
  - exact (eval_shown (element_leaf element_hash) 1 (fun i => drop i vs) k 0 _ _ part Hlt Hgive Hs).
Qed.

(** *** All of the state *)
Lemma Forall2_length_fields : forall fs g, length (fields_merkle fs g) = fields_len fs.
Proof. induction fs as [|L fs IH]; intros g; [reflexivity|]. destruct g as [g gs]. cbn. f_equal. apply IH. Qed.

Lemma zip_hashes_shown {A} (element_hash : A -> ProofTree -> outcome Hash PartialHashError) vs : forall ts hs bs,
  length vs = length ts -> Forall2 kept ts hs -> Forall2 shown ts bs ->
  (forall i v t h p, vs !! i = Some v -> ts !! i = Some t -> hs !! i = Some h -> shown t p -> element_hash v p = Some (want p h)) ->
  zip_hashes element_hash vs bs = Some (zip_with want bs hs).
Proof.
  induction vs as [|v vs IH]; intros ts hs bs Hl Hk Hs Hel; destruct Hk as [|t h ts hs Ht Hk]; try discriminate Hl;
    inversion Hs as [|? b ? bs' Hb Hs']; subst; [reflexivity|]. cbn [zip_hashes].
  rewrite (Hel 0%nat v t h b eq_refl eq_refl eq_refl Hb). rewrite (IH ts hs bs'); [reflexivity | cbn in Hl; lia | exact Hk | exact Hs' |].
  intros i v' t' h' p Hv' Ht' Hh'. exact (Hel (S i) v' t' h' p Hv' Ht' Hh').
Qed.

Lemma partial_hash_revealed fuel : (forall L g v part, layout_ok L -> proof_wf L g -> (fuel_for L <= fuel)%nat ->
    reveals L g (current_state L g) v -> shown (merkle_of L g) part ->
    partial_state_hash fuel L v part = Some (want part (data_root (commit L (current_state L g))))) /\
  (forall fs gs vs parts, fields_ok fs -> fields_wf fs gs -> (fields_fuel fs <= fuel)%nat ->
    fields_reveal fs gs (current_fields fs gs) vs -> Forall2 shown (fields_merkle fs gs) parts ->
    fields_partial_hashes fuel fs vs parts = Some (zip_with want parts (map data_root (commit_fields fs (current_fields fs gs))))).
Proof.
  assert (Hel : forall (T : Layout) (gs : list (Allocated PG T)) (vs : list (Allocated V T)), layout_ok T -> Forall (proof_wf T) gs ->
    Forall3 (reveals T) gs (map (current_state T) gs) vs ->
    (forall g v part, proof_wf T g -> reveals T g (current_state T g) v -> shown (merkle_of T g) part ->
      partial_state_hash fuel T v part = Some (want part (data_root (commit T (current_state T g))))) ->
    length vs = length gs /\ Forall2 kept (map (merkle_of T) gs) (map data_root (map (commit T) (map (current_state T) gs))) /\
    (forall i v t h p, vs !! i = Some v -> map (merkle_of T) gs !! i = Some t ->
      map data_root (map (commit T) (map (current_state T) gs)) !! i = Some h -> shown t p -> partial_state_hash fuel T v p = Some (want p h))).
  { intros T gs vs Hok Hg Hr IH. split; [symmetry; exact (Forall3_length_lr _ _ _ _ Hr)|]. split.
    - rewrite !map_map. apply Forall2_fmap, Forall_Forall2_diag. eapply Forall_impl; [exact Hg|]. intros x Hx. apply merkle_kept; assumption.
    - intros i v t h p Hv Ht Hh Hsh. rewrite !list_lookup_fmap in *. destruct (gs !! i) as [g|] eqn:Hgi; [|discriminate].
      injection Ht as <-. injection Hh as <-. apply IH; [exact (Forall_lookup_1 _ _ _ _ Hg Hgi) | | exact Hsh].
      apply (Forall3_lookup_lmr _ _ _ _ i g (current_state T g) v Hr Hgi); [rewrite list_lookup_fmap, Hgi; reflexivity | exact Hv]. }
  apply Layout_Fields_ind.
  - intros T g v part _ Hg _ Hv Hs. exact (f_equal Some (cells_revealed 1 g v part Hg Hv Hs)).
  - intros T LEN g v part _ Hg _ Hv Hs. exact (f_equal Some (cells_revealed LEN g v part Hg Hv Hs)).
  - intros LEN g v part [HL Hmax] Hl Hf Hv Hs. cbn [commit view_state]. rewrite data_root_perfect, map_map.
    exact (dyn_cells_revealed fuel LEN _ g v part HL Hmax Hl Hf Hv Hs).
  - intros T g v part Hok Hg Hf Hv Hs. apply csr_values_revealed; [apply Hg | | exact Hv | exact Hs | exact (proj1 merkle_kept (CSRValuesLayout T) g Hok Hg)].
    intros ->. destruct Hg as [Hl _]. discriminate Hl.
  - intros fs IH g v part Hok Hg Hf Hv Hs. destruct (branches_shown _ _ Hs) as (bs & ph & Hbs & Hsh & Hcomb).
    change (partial_state_hash fuel (Struct fs) v part) with ('(branches, proof_hash) <-$ Some (into_branches_with_hash (fields_len fs) part) ;;
      match fields_partial_hashes fuel fs v branches with Some hashes => Some (combine_partial_hashes hashes proof_hash) | None => None end).
    rewrite Forall2_length_fields in Hbs. rewrite Hbs, obind_ok, (IH g v bs Hok Hg Hf Hv Hsh).
    rewrite Hcomb by (apply merkle_kept; assumption). reflexivity.
  - intros LEN T IH g v part Hok [Hl Hg] Hf Hv Hs. cbn [merkle_of] in Hs. destruct (branches_shown _ _ Hs) as (bs & ph & Hbs & Hsh & Hcomb).
    destruct (Hel T g v Hok Hg Hv (fun x y p Hx => IH x y p Hok Hx Hf)) as (Hlv & Hk & Helem).
    change (partial_state_hash fuel (ArrayOf LEN T) v part) with ('(branches, proof_hash) <-$ Some (into_branches_with_hash LEN part) ;;
      match zip_hashes (partial_state_hash fuel T) v branches with Some hashes => Some (combine_partial_hashes hashes proof_hash) | None => None end).
    assert (Hn : length (map (merkle_of T) g) = LEN) by (rewrite length_map; exact Hl). rewrite Hn in Hbs. rewrite Hbs, obind_ok.
    rewrite (zip_hashes_shown (A := Allocated V T) _ v _ _ bs ltac:(rewrite length_map; exact Hlv) Hk Hsh Helem), Hcomb by exact Hk. reflexivity.
  - intros LEN T IH g v part [[HL Hmax] Hok] [Hl Hg] Hf Hv Hs. cbn [fuel_for] in Hf. cbn [merkle_of] in Hs.
    destruct (Hel T g v Hok Hg Hv (fun x y p Hx => IH x y p Hok Hx ltac:(lia))) as (Hlv & Hk & Helem).
    change (partial_state_hash fuel (Many LEN T) v part) with
      (events_hash (fun length => length =? 1) (element_leaf (partial_state_hash fuel T)) fuel LEN part v).
    cbn [commit view_state]. rewrite data_root_perfect.
    pose proof (pow4_length LEN _ _ HL Hl) as Hn.
    apply (many_revealed (A := Allocated V T) _ fuel LEN (depth LEN) v (map (merkle_of T) g) _ part HL Hmax); [exact (eq_trans Hlv Hn) | rewrite length_map; exact Hn | lia | assumption..].
  - intros gs vs parts _ _ _ _ Hs. inversion Hs; subst. reflexivity.
  - intros L IHL fs IHfs [g gs] [v vs] parts [HokL Hok] [HgL Hg] Hf [Hv Hvs] Hs. cbn [fields_fuel] in Hf.
    change (fields_merkle (Field L fs) (g, gs)) with (merkle_of L g :: fields_merkle fs gs) in Hs.
    inversion Hs as [|? p ? ps Hp Hps]; subst.
    change (fields_partial_hashes fuel (Field L fs) (v, vs) (p :: ps)) with (match partial_state_hash fuel L v p with
      | Some r => option_map (cons r) (fields_partial_hashes fuel fs vs ps) | None => None end).
    rewrite (IHL g v p HokL HgL ltac:(lia) Hv Hp), (IHfs gs vs ps Hok Hg ltac:(lia) Hvs Hps). reflexivity.
Qed.
End States.
