(* ===== verification/AllocatedSpec.v ===== *)
(** * Parsing a state from a proof: its parts

    What the operations of the deserialiser of proof trees make of a node, by its
    branches; when a proof agrees with some data, or collides with it; and what parsing
    a vector in quarters gives. *)

From stdpp Require Import gmap.
From S2P Require Import Prelude.
From S2P Require Import Hash.
From S2P Require Import MerkleProof.
From S2P Require Import Merkle.
From S2P Require Import MerkleSpec.
From S2P Require Import Backend.
From S2P Require Import BackendSpec.
From S2P Require Import DynBackendSpec.
From S2P Require Import Deserialiser.
From S2P Require Import Layouts.
From S2P Require Import LayoutsSpec.
From S2P Require Import ProofRun.
From S2P Require Import EventsSpec.
From S2P Require Import Revealed.

(** A parser of proof trees. *)
Notation parser T := (ProofTree -> unit -> outcome (T * unit) FromProofError).

Lemma obind_some {A B E} (m : outcome A E) (k : A -> outcome B E) b : obind m k = Some (Ok b) <->
  exists a, m = Some (Ok a) /\ k a = Some (Ok b).
Proof.
  split; [|intros (a & -> & Hk); exact Hk]. destruct m as [[a|e]|]; [|discriminate..]. intros Hk. exists a. auto.
Qed.

(** ** Taking the branches off a node *)

(** The branches still to come, [n] of them. *)
Definition branches_left (n : nat) (node : Partial (list ProofTree)) (bs : list ProofTree) : Prop :=
  length bs = n /\
  match node with
  | PartialPresent branches => branches = bs
  | PartialAbsent | PartialBlinded _ => bs = replicate n PartAbsent
  end.

Lemma into_node_branches n part nd : Owned.into_node part = Ok nd ->
  (exists bs, into_branches n part = Ok bs /\ branches_left n (Owned.node_data nd) bs) \/
  ((exists branches, Owned.node_data nd = PartialPresent branches /\ length branches <> n) /\ (exists e, into_branches n part = Err e)).
Proof.
  destruct part as [|[trees|[h|d]]]; cbn; try discriminate; intros [= <-]; cbn.
  - left. eexists. split; [reflexivity|]. split; [apply length_replicate | reflexivity].
  - destruct (Nat.eqb_spec (length trees) n) as [Hn|Hn].
    + left. eexists. split; [reflexivity|]. split; [rewrite length_map; exact Hn | reflexivity].
    + right. split; [|eexists; reflexivity]. eexists. split; [reflexivity|]. rewrite length_map. exact Hn.
  - left. eexists. split; [reflexivity|]. split; [apply length_replicate | reflexivity].
Qed.
Lemma into_branches_node n part bs : into_branches n part = Ok bs ->
  exists nd, Owned.into_node part = Ok (Owned.branch_comb_new nd) /\ branches_left n nd bs.
Proof.
  destruct part as [|[trees|[h|d]]]; cbn; try discriminate.
  - intros [= <-]. eexists. split; [reflexivity|]. split; [apply length_replicate | reflexivity].
  - destruct (Nat.eqb_spec (length trees) n) as [Hn|Hn]; [|discriminate]. intros [= <-].
    eexists. split; [reflexivity|]. split; [rewrite length_map; exact Hn | reflexivity].
  - intros [= <-]. eexists. split; [reflexivity|]. split; [apply length_replicate | reflexivity].
Qed.
Lemma into_branches_count n part bs : into_branches n part = Ok bs -> length bs = n.
Proof. intros (nd & _ & Hl & _)%into_branches_node. exact Hl. Qed.

Lemma pop_branch_left n node b bs : branches_left (S n) node (b :: bs) ->
  exists node', Owned.pop_branch node = Ok (b, node') /\ branches_left n node' bs.
Proof.
  intros [Hl Hn]. destruct node as [|h|branches]; cbn in Hn |- *; [| |subst branches].
  1, 2: injection Hn as -> ->; eexists; split; [reflexivity|]; split; [apply length_replicate | reflexivity].
  eexists. split; [reflexivity|]. split; [cbn in Hl; lia | reflexivity].
Qed.
Lemma done_left {R} (r : R) node bs : branches_left 0 node bs -> Owned.done (Owned.mkBranchComb r node) = Ok r.
Proof. intros [Hl Hn]. destruct bs; [|discriminate]. destruct node as [|h|branches]; cbn in Hn |- *; subst; reflexivity. Qed.

(** A branch more: the node, when the branch parses. *)
Lemma next_branch_some {R T} (nd : Owned.BranchComb R) (p : parser T) nd' :
  Owned.next_branch nd p tt = Some (Ok (nd', tt)) <->
  exists b rest t, Owned.pop_branch (Owned.node_data nd) = Ok (b, rest) /\ p b tt = Some (Ok (t, tt)) /\
    nd' = Owned.mkBranchComb (Owned.comb_result nd, t) rest.
Proof.
  unfold Owned.next_branch. rewrite obind_some. split.
  - intros ([b rest] & Hpop & Hk). apply obind_some in Hk as ([t []] & Hp & [= <-]). injection Hpop as Hpop. eauto 10.
  - intros (b & rest & t & -> & Hp & ->). exists (b, rest). split; [reflexivity|]. rewrite Hp. reflexivity.
Qed.

(** All the branches of a node, parsed by functions of a list. *)
Section AllBranches.
Context {X T R : Type} (p : X -> parser T) (add : R -> T -> R).

Fixpoint each_branch (xs : list X) (nd : Owned.BranchComb R) : outcome (Owned.BranchComb R * unit) FromProofError :=
  match xs with
  | [] => Some (Ok (nd, tt))
  | x :: xs =>
      '(nd, st) <-$ Owned.next_branch nd (p x) tt ;;
      each_branch xs (Owned.node_map nd (fun '(acc, t) => add acc t))
  end.


Lemma each_branch_done xs : forall r node r' bs, branches_left (length xs) node bs ->
  (exists nd, each_branch xs (Owned.mkBranchComb r node) = Some (Ok (nd, tt)) /\ Owned.done nd = Ok r') <->
  (exists rs, Forall3 (fun x b t => p x b tt = Some (Ok (t, tt))) xs bs rs /\ r' = foldl add r rs).
Proof.
  induction xs as [|x xs IH]; intros r node r' bs Hbs.
  - pose proof Hbs as [Hl _]. destruct bs; [|discriminate Hl]. cbn [each_branch]. split.
    + intros (nd & [= <-] & Hd). rewrite (done_left r node [] Hbs) in Hd. injection Hd as <-. exists []. split; [constructor | reflexivity].
    + intros (rs & Hall & ->). inversion Hall; subst. eexists. split; [reflexivity | exact (done_left r node [] Hbs)].
  - pose proof Hbs as [Hl _]. destruct bs as [|b bs]; [discriminate Hl|].
    destruct (pop_branch_left _ _ _ _ Hbs) as (node' & Hpop & Hbs'). cbn [each_branch]. split.
    + intros (nd & He & Hd). apply obind_some in He as ([nd1 []] & Hn & He). apply next_branch_some in Hn as (b' & rest & t & Hpop' & Hp & ->).
      cbn [Owned.node_data] in Hpop'. rewrite Hpop in Hpop'. injection Hpop' as <- <-.
      destruct (proj1 (IH (add r t) node' r' bs Hbs')) as (rs & Hall & ->); [exists nd; split; assumption|].
      exists (t :: rs). split; [constructor; assumption | reflexivity].
    + intros (rs & Hall & ->). inversion Hall as [|? ? t ? ? rs' Hp Hall']; subst.
      destruct (proj2 (IH (add r t) node' (foldl add (add r t) rs') bs Hbs')) as (nd & He & Hd); [exists rs'; split; [exact Hall' | reflexivity]|].
      exists nd. split; [|exact Hd]. apply obind_some. exists (Owned.mkBranchComb (r, t) node', tt). split; [|exact He].
      apply (next_branch_some (Owned.mkBranchComb r node) (p x)). exists b, node', t. auto.
Qed.
Lemma each_branch_count xs : forall r branches nd r', each_branch xs (Owned.mkBranchComb r (PartialPresent branches)) = Some (Ok (nd, tt)) ->
  Owned.done nd = Ok r' -> length branches = length xs.
Proof.
  induction xs as [|x xs IH]; intros r branches nd r'.
  - cbn. intros [= <-] Hd. destruct branches; [reflexivity | discriminate Hd].
  - cbn [each_branch]. intros He Hd. apply obind_some in He as ([nd1 []] & Hn & He).
    apply next_branch_some in Hn as (b & rest & t & Hpop & _ & ->). destruct branches as [|b' branches]; [discriminate Hpop|].
    injection Hpop as <- <-. cbn. f_equal. exact (IH _ _ _ _ He Hd).
Qed.

(** A node with its branches is parsed when each of them is. *)
Lemma node_parsed (start : Partial unit -> R) (node_of : ProofTree -> outcome (R * unit) FromProofError) xs part r' :
  (forall part, node_of part =
    (ctx <-$ Some (Owned.into_node part) ;; '(ctx, _) <-$ each_branch xs (Owned.node_map ctx start) ;;
     Some (result_map (Owned.done ctx) (fun r => (r, tt))))) ->
  (forall h1 h2, start h1 = start h2) ->
  node_of part = Some (Ok (r', tt)) <->
  (exists bs rs, into_branches (length xs) part = Ok bs /\ Forall3 (fun x b t => p x b tt = Some (Ok (t, tt))) xs bs rs /\
    r' = foldl add (start PartialAbsent) rs).
Proof.
  intros Hnode Hstart. rewrite Hnode, obind_some. split.
  - intros (ctx & Hctx & Hk). injection Hctx as Hctx. apply obind_some in Hk as ([nd []] & He & Hd). injection Hd as Hd.
    destruct (Owned.done nd) as [r|] eqn:Hdone; [|discriminate Hd]. cbn in Hd. injection Hd as ->.
    unfold Owned.node_map in He. rewrite (Hstart _ PartialAbsent) in He.
    destruct (into_node_branches (length xs) part ctx Hctx) as [(bs & Hbs & Hleft)|[(branches & Hbr & Hne) _]].
    + destruct (proj1 (each_branch_done xs (start PartialAbsent) (Owned.node_data ctx) r' bs Hleft)) as (rs & Hall & ->); [exists nd; split; [exact He | exact Hdone]|]. eauto.
    + rewrite Hbr in He. destruct Hne. exact (each_branch_count _ _ _ _ _ He Hdone).
  - intros (bs & rs & Hbs & Hall & ->). destruct (into_branches_node _ _ _ Hbs) as (nd & Hnd & Hleft).
    exists (Owned.branch_comb_new nd). split; [f_equal; exact Hnd|]. apply obind_some.
    destruct (proj2 (each_branch_done xs (start PartialAbsent) nd (foldl add (start PartialAbsent) rs) bs Hleft)) as (nd' & He & Hd); [exists rs; split; [exact Hall | reflexivity]|].
    exists (nd', tt). unfold Owned.node_map, Owned.branch_comb_new. cbn [Owned.comb_result Owned.node_data].
    rewrite (Hstart _ PartialAbsent). split; [exact He|]. rewrite Hd. reflexivity.
Qed.
End AllBranches.

(** ** The parsers of arrays *)
Section Arrays.
Context `{Serde, RangeSets}.

Lemma parse_branches_some {T} (branch : Z -> Z -> parser (list T)) branches part r :
  @parse_branches ProofTree owned_deserialiser T branch branches part tt = Some (Ok (r, tt)) <->
  (exists bs rs, into_branches (length branches) part = Ok bs /\
    Forall3 (fun x b t => branch (fst x) (snd x) b tt = Some (Ok (t, tt))) branches bs rs /\ r = concat rs).
Proof.
  rewrite (node_parsed (fun x => branch (fst x) (snd x)) app (fun _ => []) (fun part => @parse_branches ProofTree owned_deserialiser T branch branches part tt) branches part r).
  - split; intros (bs & rs & Hbs & Hall & ->); exists bs, rs; repeat split; try assumption.
    + transitivity ([] ++ concat rs); [|reflexivity]. generalize (@nil T). clear. induction rs as [|x rs IH]; intros l; [symmetry; apply app_nil_r|].
      cbn. rewrite IH, <- app_assoc. reflexivity.
    + transitivity ([] ++ concat rs); [reflexivity|]. generalize (@nil T). clear. induction rs as [|x rs IH]; intros l; [apply app_nil_r|].
      cbn. rewrite <- IH, <- app_assoc. reflexivity.
  - intros q. unfold parse_branches. cbn [into_node owned_deserialiser]. destruct (Owned.into_node q) as [ctx|e]; [|reflexivity].
    cbn [result_map obind node_map next_branch done owned_deserialiser]. generalize (Owned.node_map ctx (fun _ : Partial unit => [] : list T)). clear.
    induction branches as [|[s l] branches IH]; intros node; [reflexivity|]. cbn [each_branch fst snd].
    destruct (Owned.next_branch node (branch s l) tt) as [[[nd []]|e]|] eqn:Hn.
    + cbn [obind]. rewrite <- IH. reflexivity.
    + reflexivity.
    + reflexivity.
  - reflexivity.
Qed.

Lemma foldl_snoc {T} (rs : list T) : forall l, foldl (fun acc t => acc ++ [t]) l rs = l ++ rs.
Proof. induction rs as [|r rs IH]; intros l; [symmetry; apply app_nil_r|]. cbn. rewrite IH, <- app_assoc. reflexivity. Qed.

Lemma array_some {T} (elem : parser T) LEN part r :
  (ctx <-$ Some (Owned.into_node part) ;;
   '(ctx, st) <-$ @parse_array ProofTree owned_deserialiser T elem LEN (Owned.node_map ctx (fun _ => [])) tt ;;
   Some (result_map (Owned.done ctx) (fun r => (r, st)))) = Some (Ok (r, tt)) <->
  (exists bs, into_branches LEN part = Ok bs /\ Forall2 (fun b t => elem b tt = Some (Ok (t, tt))) bs r).
Proof.
  set (node_of := fun part => ctx <-$ Some (Owned.into_node part) ;;
   '(ctx, st) <-$ @parse_array ProofTree owned_deserialiser T elem LEN (Owned.node_map ctx (fun _ => [])) tt ;;
   Some (result_map (Owned.done ctx) (fun r => (r, st)))).
  change (node_of part = Some (Ok (r, tt)) <-> (exists bs, into_branches LEN part = Ok bs /\ Forall2 (fun b t => elem b tt = Some (Ok (t, tt))) bs r)).
  rewrite (node_parsed (fun _ => elem) (fun acc t => acc ++ [t]) (fun _ => []) node_of (replicate LEN tt) part r).
  - rewrite length_replicate. split.
    + intros (bs & rs & Hbs & Hall & ->). rewrite foldl_snoc. exists bs. split; [exact Hbs|]. clear -Hall.
      induction Hall; constructor; assumption.
    + intros (bs & Hbs & Hall). exists bs, r. rewrite foldl_snoc. split; [exact Hbs|]. split; [|reflexivity].
      rewrite <- (into_branches_count _ _ _ Hbs). clear -Hall. induction Hall; cbn; constructor; assumption.
  - intros q. unfold node_of. destruct (Owned.into_node q) as [ctx|e]; [|reflexivity]. cbn [obind].
    generalize (Owned.node_map ctx (fun _ : Partial unit => [] : list T)). clear.
    induction LEN as [|LEN IH]; intros node; [reflexivity|]. cbn [replicate each_branch parse_array].
    cbn [node_map next_branch owned_deserialiser]. destruct (Owned.next_branch node elem tt) as [[[nd []]|e]|]; [|reflexivity..].
    cbn [obind]. apply IH.
  - reflexivity.
Qed.

(** The fields of a structure, each from its branch. *)
Notation V := (verifier Val).
Notation alloc fuel L := (@to_verifier_alloc _ _ ProofTree owned_deserialiser fuel L).
Fixpoint fields_parsed (fuel : nat) (fields : Fields) : list ProofTree -> AllocatedFields V fields -> Prop :=
  match fields with
  | NoField => fun bs _ => bs = []
  | Field L fields => fun bs '(v, vs) =>
      match bs with [] => False | b :: bs => alloc fuel L b tt = Some (Ok (v, tt)) /\ fields_parsed fuel fields bs vs end
  end.

Lemma done_map {R T} (nd : Owned.BranchComb R) (f : R -> T) : Owned.done (Owned.node_map nd f) = result_map (Owned.done nd) f.
Proof. destruct nd as [r [|h|[|b bs]]]; reflexivity. Qed.
Lemma branches_alloc_step {R} fuel L fields (nd : Owned.BranchComb R) :
  @branches_alloc _ _ ProofTree owned_deserialiser fuel (Field L fields) R nd tt =
    ('(nd, _) <-$ Owned.next_branch nd (alloc fuel L) tt ;;
     '(nd, _) <-$ @branches_alloc _ _ ProofTree owned_deserialiser fuel fields (R * Allocated V L) nd tt ;;
     Some (Ok (Owned.node_map nd (fun '((acc, a), rest) => (acc, (a, rest))), tt))).
Proof.
  change (@branches_alloc _ _ ProofTree owned_deserialiser fuel (Field L fields) R nd tt) with
    ('(nd, st) <-$ Owned.next_branch nd (alloc fuel L) tt ;;
     '(nd, st) <-$ @branches_alloc _ _ ProofTree owned_deserialiser fuel fields (R * Allocated V L) nd st ;;
     Some (Ok (Owned.node_map nd (fun '((acc, a), rest) => (acc, (a, rest))), st))).
  destruct (Owned.next_branch nd (alloc fuel L) tt) as [[[nd1 []]|e]|]; [|reflexivity..]. cbn [obind].
  destruct (@branches_alloc _ _ ProofTree owned_deserialiser fuel fields (R * Allocated V L) nd1 tt) as [[[nd2 []]|e]|]; reflexivity.
Qed.

Lemma branches_alloc_done fuel fields : forall R (r : R) node bs r' vs, branches_left (fields_len fields) node bs ->
  (exists nd, @branches_alloc _ _ ProofTree owned_deserialiser fuel fields R (Owned.mkBranchComb r node) tt = Some (Ok (nd, tt)) /\
     Owned.done nd = Ok (r', vs)) <->
  r' = r /\ fields_parsed fuel fields bs vs.
Proof.
  induction fields as [|L fields IH]; intros R r node bs r' vs Hbs.
  - pose proof Hbs as [Hl _]. destruct bs; [|discriminate Hl]. split.
    + intros (nd & [= <-] & Hd). rewrite done_map in Hd. change (fields_len NoField) with 0%nat in Hbs.
      rewrite (done_left r node [] Hbs) in Hd. cbn in Hd. split; [congruence | reflexivity].
    + intros [-> _]. eexists. split; [reflexivity|]. rewrite done_map, (done_left r node [] Hbs). cbn. destruct vs. reflexivity.
  - pose proof Hbs as [Hl _]. destruct bs as [|b bs]; [discriminate Hl|]. destruct vs as [v vs].
    destruct (pop_branch_left _ _ _ _ Hbs) as (node' & Hpop & Hbs').
    change (fields_parsed fuel (Field L fields) (b :: bs) (v, vs)) with (alloc fuel L b tt = Some (Ok (v, tt)) /\ fields_parsed fuel fields bs vs).
    split.
    + intros (nd & He & Hd). rewrite branches_alloc_step in He. apply obind_some in He as ([nd1 []] & Hn & He).
      apply next_branch_some in Hn as (b' & rest & t & Hpop' & Hp & ->). cbn [Owned.node_data Owned.comb_result] in *.
      rewrite Hpop in Hpop'. injection Hpop' as <- <-. apply obind_some in He as ([nd2 []] & He & [= <-]).
      rewrite done_map in Hd. destruct (Owned.done nd2) as [[[r1 v1] vs1]|] eqn:Hd2; [|discriminate]. cbn in Hd. injection Hd as <- <- <-.
      destruct (proj1 (IH _ (r, t) node' bs (r1, v1) vs1 Hbs')) as [[= -> ->] Hps]; [exists nd2; split; assumption|].
      split; [reflexivity|]. split; assumption.
    + intros (-> & Hp & Hps).
      destruct (proj2 (IH _ (r, v) node' bs (r, v) vs Hbs')) as (nd2 & He & Hd); [split; [reflexivity | exact Hps]|].
      exists (Owned.node_map nd2 (fun '((acc, a), rest) => (acc, (a, rest)))). rewrite branches_alloc_step.
      split; [|rewrite done_map, Hd; reflexivity]. apply obind_some. exists (Owned.mkBranchComb (r, v) node', tt). split.
      * apply (next_branch_some (Owned.mkBranchComb r node) (alloc fuel L)). exists b, node', v. auto.
      * cbv iota beta. rewrite He. reflexivity.
Qed.
Lemma branches_alloc_count fuel fields : forall R (r : R) branches nd r',
  @branches_alloc _ _ ProofTree owned_deserialiser fuel fields R (Owned.mkBranchComb r (PartialPresent branches)) tt = Some (Ok (nd, tt)) ->
  Owned.done nd = Ok r' -> length branches = fields_len fields.
Proof.
  induction fields as [|L fields IH]; intros R r branches nd r' He Hd.
  - injection He as <-. rewrite done_map in Hd. destruct branches; [reflexivity | discriminate Hd].
  - rewrite branches_alloc_step in He. apply obind_some in He as ([nd1 []] & Hn & He).
    apply next_branch_some in Hn as (b & rest & t & Hpop & _ & ->). destruct branches as [|b' branches]; [discriminate Hpop|].
    injection Hpop as <- <-. apply obind_some in He as ([nd2 []] & He & [= <-]). rewrite done_map in Hd.
    destruct (Owned.done nd2) as [r2|] eqn:Hd2; [|discriminate]. cbn. f_equal. exact (IH _ _ _ _ _ He Hd2).
Qed.

Lemma struct_some fuel fields part vs : alloc fuel (Struct fields) part tt = Some (Ok (vs, tt)) <->
  (exists bs, into_branches (fields_len fields) part = Ok bs /\ fields_parsed fuel fields bs vs).
Proof.
  change (alloc fuel (Struct fields) part tt) with
    ('(ctx, st) <-$ Some (result_map (Owned.into_node part) (fun n => (n, tt))) ;;
     '(ctx, st) <-$ @branches_alloc _ _ ProofTree owned_deserialiser fuel fields unit (Owned.node_map ctx (fun _ => tt)) st ;;
     Some (result_map (Owned.done (Owned.node_map ctx snd)) (fun r => (r, st)))).
  split.
  - intros Hp. apply obind_some in Hp as ([ctx []] & Hctx & Hp). destruct (Owned.into_node part) as [ctx'|] eqn:Hnode; [|discriminate].
    injection Hctx as ->. apply obind_some in Hp as ([nd []] & He & Hd). rewrite done_map in Hd.
    destruct (Owned.done nd) as [[[] vs']|] eqn:Hdone; [|discriminate]. injection Hd as ->.
    destruct (into_node_branches (fields_len fields) part ctx Hnode) as [(bs & Hbs & Hleft)|[(branches & Hbr & Hne) _]].
    + exists bs. split; [exact Hbs|]. apply (proj1 (branches_alloc_done fuel fields unit tt (Owned.node_data ctx) bs tt vs Hleft)).
      exists nd. split; assumption.
    + unfold Owned.node_map in He. rewrite Hbr in He. destruct Hne. exact (branches_alloc_count _ _ _ _ _ _ _ He Hdone).
  - intros (bs & Hbs & Hps). destruct (into_branches_node _ _ _ Hbs) as (nd & -> & Hleft). cbn [result_map obind].
    destruct (proj2 (branches_alloc_done fuel fields unit tt nd bs tt vs Hleft)) as (nd' & He & Hd); [split; [reflexivity | exact Hps]|].
    unfold Owned.node_map, Owned.branch_comb_new in *. cbn [Owned.comb_result Owned.node_data]. rewrite He. cbn [obind].
    fold (Owned.node_map nd' snd). rewrite done_map, Hd. reflexivity.
Qed.
End Arrays.

(** ** Proofs of some data *)

(** Hashes have 32 bytes. *)
Fixpoint hashes_ok (p : MerkleProof) : bool :=
  match p with
  | Leaf (Blind hash) => (length (digest hash) =? 32)%nat
  | Leaf (Read _) => true
  | Node ps => forallb hashes_ok ps
  end.

Section Views.
Context `{Blake2bLaws}.

(** The proof is a view of the data, which is blinded in places. *)
Inductive pview : MerkleProof -> Tree (list Z) -> Prop :=
| view_blind T : pview (Leaf (Blind (data_root T))) T
| view_read data : pview (Leaf (Read data)) (Leaf data)
| view_node ps Ts : Forall2 pview ps Ts -> pview (Node ps) (Node Ts).
Definition view (part : ProofTree) (T : Tree (list Z)) : Prop :=
  match part with PartAbsent => True | PartPresent p => pview p T end.

(** It has the hashes of the data, level by level; a leaf of the one may still stand
    for a node of the other. *)
Inductive agrees : MerkleProof -> Tree (list Z) -> Prop :=
| agrees_blind T : agrees (Leaf (Blind (data_root T))) T
| agrees_read data : agrees (Leaf (Read data)) (Leaf data)
| agrees_read_node d Ts : agrees (Leaf (Read d)) (Node Ts)
| agrees_node_leaf ps data : agrees (Node ps) (Leaf data)
| agrees_node ps Ts : Forall2 agrees ps Ts -> agrees (Node ps) (Node Ts).
Definition rooted (part : ProofTree) (T : Tree (list Z)) : Prop :=
  match part with PartAbsent => True | PartPresent p => agrees p T end.

Lemma into_branches_hash n part bs ph : into_branches_with_hash n part = Ok (bs, ph) -> into_branches n part = Ok bs.
Proof.
  destruct part as [|[ps|[h|d]]]; cbn; try discriminate; try (intros [= <- <-]; reflexivity).
  destruct (length ps =? n)%nat; [|discriminate]. cbn. intros [= <- <-]. reflexivity.
Qed.

Lemma digests_inj hs1 : forall hs2, Forall (fun h => length (digest h) = 32%nat) hs1 -> Forall (fun h => length (digest h) = 32%nat) hs2 ->
  length hs1 = length hs2 -> concat (map digest hs1) = concat (map digest hs2) -> hs1 = hs2.
Proof.
  induction hs1 as [|[d1] hs1 IH]; intros [|[d2] hs2] H1 H2 Hl Hc; try discriminate Hl; [reflexivity|].
  apply Forall_cons in H1 as [Hd1 H1]. apply Forall_cons in H2 as [Hd2 H2]. cbn in *.
  apply app_inj_1 in Hc as [-> Hc]; [|congruence]. f_equal. apply IH; (assumption || lia).
Qed.
Lemma proof_root_length p : hashes_ok p = true -> length (digest (proof_root p)) = 32%nat.
Proof. destruct p as [ps|[h|d]]; cbn; intros Hp; [apply digest_256_length | apply Nat.eqb_eq, Hp | apply digest_256_length]. Qed.

Lemma branches_rooted n part bs Ts : rooted part (Node Ts) -> into_branches n part = Ok bs -> length Ts = n ->
  Forall2 rooted bs Ts /\ (Forall2 view bs Ts -> view part (Node Ts)).
Proof.
  intros Hr Hb Hn. assert (Habs : forall m (Us : list (Tree (list Z))), length Us = m -> Forall2 rooted (replicate m PartAbsent) Us).
  { intros m Us <-. induction Us; cbn; constructor; [exact I | assumption]. }
  destruct part as [|[ps|[h|d]]]; cbn in Hb; [|destruct (Nat.eqb_spec (length ps) n) as [Hps|]; [|discriminate]| |discriminate]; injection Hb as <-.
  - split; [apply Habs, Hn | intros _; exact I].
  - cbn in Hr. inversion Hr as [| | | |? ? Hall]; subst. split.
    + exact (proj2 (Forall2_fmap_l PartPresent rooted ps Ts) Hall).
    + intros Hv. apply view_node. exact (proj1 (Forall2_fmap_l PartPresent view ps Ts) Hv).
  - split; [apply Habs, Hn|]. intros _. cbn in Hr. inversion Hr; subst. exact (view_blind (Node Ts)).
Qed.

(** What parsing a leaf finds. *)
Lemma leaf_rooted part data r : rooted part (Leaf data) -> Owned.deserialise_as_leaf part = Ok r ->
  view part (Leaf data) /\ match r with PartialPresent data' => data' = data | _ => True end.
Proof.
  destruct part as [|[ps|[h|d]]]; cbn; try discriminate; intros Hr; intros [= <-].
  - auto.
  - inversion Hr; subst. split; [exact (view_blind (Leaf data)) | exact I].
  - inversion Hr; subst. split; [apply view_read | reflexivity].
Qed.

(** *** Collisions

    The inputs of the hash function when the root hash of a proof is computed, and
    when that of some data is. *)
Fixpoint proof_inputs (p : MerkleProof) : list (list Z) :=
  match p with
  | Leaf (Blind _) => []
  | Leaf (Read data) => [data]
  | Node ps => concat (map digest (map proof_root ps)) :: concat (map proof_inputs ps)
  end.
Fixpoint data_inputs (T : Tree (list Z)) : list (list Z) :=
  match T with
  | Leaf data => [data]
  | Node Ts => concat (map digest (map data_root Ts)) :: concat (map data_inputs Ts)
  end.

(** An input of the one and an input of the other that differ and have one digest. *)
Definition collision (p : MerkleProof) (T : Tree (list Z)) : Prop :=
  exists x y, x ∈ proof_inputs p /\ y ∈ data_inputs T /\ x <> y /\ digest_256 x = digest_256 y.
Lemma collision_intro p T x y : x ∈ proof_inputs p -> y ∈ data_inputs T -> x <> y -> digest_256 x = digest_256 y -> collision p T.
Proof. intros Hx Hy Hne Hd. exists x, y. auto. Qed.

Lemma concat_digests_length hs : Forall (fun h => length (digest h) = 32%nat) hs -> length (concat (map digest hs)) = (32 * length hs)%nat.
Proof. induction 1 as [|h hs Hh _ IH]; [reflexivity|]. cbn [map concat length]. rewrite length_app, IH, Hh. lia. Qed.

Lemma collision_children ps Ts : Forall2 (fun p T => agrees p T \/ collision p T) ps Ts -> Forall2 agrees ps Ts \/ collision (Node ps) (Node Ts).
Proof.
  intros Hall. cut (Forall2 agrees ps Ts \/ exists p T, p ∈ ps /\ T ∈ Ts /\ collision p T).
  { intros [Ha|(p & T & Hp & HT & x & y & Hx & Hy & Hxy)]; [left; exact Ha | right].
    exists x, y. split; [|split; [|exact Hxy]]; right; apply list_elem_of_In, in_concat.
    - exists (proof_inputs p). split; [apply in_map|]; apply list_elem_of_In; assumption.
    - exists (data_inputs T). split; [apply in_map|]; apply list_elem_of_In; assumption. }
  induction Hall as [|p T ps Ts [Ha|Hc] _ [IH|(p' & T' & Hp & HT & IH)]].
  - left. constructor.
  - left. constructor; assumption.
  - right. exists p', T'. split; [right; exact Hp|]. split; [right; exact HT | exact IH].
  - right. exists p, T. repeat split; [left | left | exact Hc].
  - right. exists p, T. repeat split; [left | left | exact Hc].
Qed.

(** A proof with the root hash of some data agrees with it, or there is a collision among
    the inputs of the two computations. *)
Lemma root_agrees p : forall T, hashes_ok p = true -> proof_root p = data_root T -> agrees p T \/ collision p T.
Proof.
  induction p as [ps IH|[h|d]] using Tree_nested_ind; intros T Hok Hr.
  - destruct T as [Ts|data]; [|left; constructor]. injection Hr as Hr.
    destruct (decide (concat (map digest (map proof_root ps)) = concat (map digest (map data_root Ts)))) as [Heq|Hne];
      [|right; exact (collision_intro (Node ps) (Node Ts) _ _ (list_elem_of_here _ _) (list_elem_of_here _ _) Hne Hr)].
    assert (Hps : Forall (fun p => hashes_ok p = true) ps) by (apply Forall_forall; intros p Hp; cbn in Hok; rewrite forallb_forall in Hok; apply Hok, list_elem_of_In, Hp).
    assert (Hl1 : Forall (fun h => length (digest h) = 32%nat) (map proof_root ps)) by (apply Forall_map; eapply Forall_impl; [exact Hps | exact proof_root_length]).
    assert (Hl2 : Forall (fun h => length (digest h) = 32%nat) (map data_root Ts)) by (apply Forall_map, Forall_true; intros U; apply data_root_length).
    assert (Hl : length (map proof_root ps) = length (map data_root Ts)).
    { apply (f_equal length) in Heq. rewrite (concat_digests_length _ Hl1), (concat_digests_length _ Hl2) in Heq. lia. }
    apply digests_inj in Heq; [|assumption..]. destruct (collision_children ps Ts) as [Hall|Hc]; [|left; constructor; exact Hall | right; exact Hc].
    clear -IH Hps Heq. revert Ts Heq. induction IH as [|p ps IHp _ IHs]; intros [|T Ts] Heq; try discriminate Heq; [constructor|].
    injection Heq as Heq0 Heq. apply Forall_cons in Hps as [Hp Hps]. constructor; [exact (IHp T Hp Heq0) | exact (IHs Hps Ts Heq)].
  - left. cbn in Hr. rewrite Hr. constructor.
  - destruct T as [Ts|data]; [left; constructor|]. injection Hr as Hr. destruct (decide (d = data)) as [->|Hne]; [left; constructor|].
    right. exact (collision_intro (Leaf (Read d)) (Leaf data) d data (list_elem_of_here _ _) (list_elem_of_here _ _) Hne Hr).
Qed.
End Views.

(** ** Arrays in quarters *)

(** A property of the elements of two lists with their index, from [i]. *)
Fixpoint all_from {A B} (Q : nat -> A -> B -> Prop) (i : nat) (l : list A) (r : list B) : Prop :=
  match l, r with
  | [], [] => True
  | a :: l, b :: r => Q i a b /\ all_from Q (S i) l r
  | _, _ => False
  end.
Lemma all_from_app {A B} (Q : nat -> A -> B -> Prop) l1 : forall i l2 r, all_from Q i (l1 ++ l2) r <->
  (exists r1 r2, r = r1 ++ r2 /\ all_from Q i l1 r1 /\ all_from Q (i + length l1) l2 r2).
Proof.
  induction l1 as [|a l1 IH]; intros i l2 r.
  - cbn. rewrite Nat.add_0_r. split; [intros Hr; exists [], r; auto|]. intros (r1 & r2 & -> & Hr1 & Hr). destruct r1; [exact Hr | destruct Hr1].
  - cbn [app all_from length]. rewrite Nat.add_succ_r, <- Nat.add_succ_l. split.
    + destruct r as [|b r]; [intros []|]. intros [HQ Hr]. apply IH in Hr as (r1 & r2 & -> & Hr1 & Hr2).
      exists (b :: r1), r2. repeat split; assumption.
    + intros (r1 & r2 & -> & Hr1 & Hr2). destruct r1 as [|b r1]; [destruct Hr1|]. destruct Hr1 as [HQ Hr1].
      split; [exact HQ|]. apply IH. eauto.
Qed.
Lemma all_from_four {A B} (Q : nat -> A -> B -> Prop) n i a b c d r : length a = n -> length b = n -> length c = n ->
  all_from Q i (a ++ b ++ c ++ d) r <->
  (exists ra rb rc rd, r = ra ++ rb ++ rc ++ rd /\ all_from Q i a ra /\ all_from Q (i + n) b rb /\ all_from Q (i + 2 * n) c rc /\
    all_from Q (i + 3 * n) d rd).
Proof.
  intros Ha Hb Hc. split.
  - intros (ra & r1 & -> & Hra & (rb & r2 & -> & Hrb & (rc & rd & -> & Hrc & Hrd)%all_from_app)%all_from_app)%all_from_app.
    rewrite Ha in *. rewrite Hb in *. rewrite Hc in *. exists ra, rb, rc, rd.
    replace (i + 2 * n)%nat with (i + n + n)%nat by lia. replace (i + 3 * n)%nat with (i + n + n + n)%nat by lia. auto.
  - intros (ra & rb & rc & rd & -> & Hra & Hrb & Hrc & Hrd).
    replace (i + 2 * n)%nat with (i + n + n)%nat in * by lia. replace (i + 3 * n)%nat with (i + n + n + n)%nat in * by lia.
    apply all_from_app. exists ra, (rb ++ rc ++ rd). split; [reflexivity|]. split; [exact Hra|]. rewrite Ha.
    apply all_from_app. exists rb, (rc ++ rd). split; [reflexivity|]. split; [exact Hrb|]. rewrite Hb.
    apply all_from_app. exists rc, rd. rewrite Hc. auto.
Qed.
Lemma all_from_lookup {A B} (Q : nat -> A -> B -> Prop) l : forall i r, all_from Q i l r <->
  length r = length l /\ (forall j a b, l !! j = Some a -> r !! j = Some b -> Q (i + j)%nat a b).
Proof.
  induction l as [|a l IH]; intros i [|b r]; cbn [all_from].
  - split; [intros _; split; [reflexivity | intros ? ? ?; discriminate] | auto].
  - split; [intros [] | intros [Hl _]; discriminate].
  - split; [intros [] | intros [Hl _]; discriminate].
  - rewrite IH. split.
    + intros (HQ & Hl & Hr). split; [cbn; lia|]. intros [|j] x y Hx Hy; [injection Hx as <-; injection Hy as <-; rewrite Nat.add_0_r; exact HQ|].
      rewrite Nat.add_succ_r, <- Nat.add_succ_l. exact (Hr j x y Hx Hy).
    + intros (Hl & Hr). split; [specialize (Hr 0%nat a b eq_refl eq_refl); rewrite Nat.add_0_r in Hr; exact Hr|].
      split; [cbn in Hl; lia|]. intros j x y Hx Hy. rewrite Nat.add_succ_l, <- Nat.add_succ_r. exact (Hr (S j) x y Hx Hy).
Qed.

Section Quarters.
Context `{Blake2bLaws} {T : Type} (rec : nat -> nat -> nat -> ProofTree -> outcome (list T * unit) FromProofError) (bound : nat).

(** The parts of a level are those of its four branches. *)
Hypothesis rec_step : forall fuel k i part r, (i + 4 ^ S k <= bound)%nat -> rec (S fuel) (S k) i part = Some (Ok (r, tt)) <->
  (exists b1 b2 b3 b4 r1 r2 r3 r4, into_branches MERKLE_ARITY part = Ok [b1; b2; b3; b4] /\
    rec fuel k i b1 = Some (Ok (r1, tt)) /\ rec fuel k (i + 4 ^ k)%nat b2 = Some (Ok (r2, tt)) /\
    rec fuel k (i + 2 * 4 ^ k)%nat b3 = Some (Ok (r3, tt)) /\ rec fuel k (i + 3 * 4 ^ k)%nat b4 = Some (Ok (r4, tt)) /\
    r = r1 ++ r2 ++ r3 ++ r4).
Hypothesis rec_none : forall k i part, rec 0 (S k) i part = None.


Lemma rec_shown k : forall fuel i ts pieces part, (k <= fuel)%nat -> length ts = (4 ^ k)%nat -> (i + 4 ^ k <= bound)%nat ->
  all_from (fun i t r => forall fuel p, shown t p -> rec fuel 0 i p = Some (Ok (r, tt))) i ts pieces ->
  shown (perfect merkle_node k ts) part -> rec fuel k i part = Some (Ok (concat pieces, tt)).
Proof.
  induction k as [|k IH]; intros fuel i ts pieces part Hf Hl Hi Hall Hs.
  - destruct ts as [|t [|t' ts]]; try discriminate Hl. destruct pieces as [|r [|r' pieces]]; try (destruct Hall as [_ []]; fail); [destruct Hall|].
    cbn [concat]. rewrite app_nil_r. apply Hall, Hs.
  - destruct fuel as [|fuel]; [lia|]. destruct (four_quarters k ts Hl) as (a & b & c & d & -> & Hc & Ha & Hb & Hc' & Hd).
    destruct (proj1 (all_from_four _ (4 ^ k) i a b c d pieces Ha Hb Hc') Hall) as (pa & pb & pc & pd & -> & Pa & Pb & Pc & Pd).
    cbn [perfect] in Hs. rewrite Hc in Hs. cbn [map] in Hs. destruct (branches_shown _ _ Hs) as (bs & ph & Hbs & Hsh & _).
    change (length _) with MERKLE_ARITY in Hbs. apply into_branches_hash in Hbs.
    inversion Hsh as [|? b1 ? ? S1 R1]; subst. inversion R1 as [|? b2 ? ? S2 R2]; subst.
    inversion R2 as [|? b3 ? ? S3 R3]; subst. inversion R3 as [|? b4 ? ? S4 R4]; subst. inversion R4; subst.
    apply rec_step; [exact Hi|]. cbn [Nat.pow] in Hi.
    exists b1, b2, b3, b4, (concat pa), (concat pb), (concat pc), (concat pd). split; [exact Hbs|].
    split; [apply (IH fuel i a pa b1); (assumption || lia)|].
    split; [apply (IH fuel (i + 4 ^ k)%nat b pb b2); (assumption || lia)|].
    split; [apply (IH fuel (i + 2 * 4 ^ k)%nat c pc b3); (assumption || lia)|].
    split; [apply (IH fuel (i + 3 * 4 ^ k)%nat d pd b4); (assumption || lia)|]. rewrite !concat_app. reflexivity.
Qed.

Context (P : nat -> Tree (list Z) -> list T -> Prop).

Lemma rec_rooted k : forall fuel i Ts part r, length Ts = (4 ^ k)%nat -> (i + 4 ^ k <= bound)%nat ->
  (forall i U fuel p r, U ∈ Ts -> rooted p U -> rec fuel 0 i p = Some (Ok (r, tt)) -> view p U /\ P i U r) ->
  rooted part (perfect Node k Ts) -> rec fuel k i part = Some (Ok (r, tt)) ->
  view part (perfect Node k Ts) /\ exists pieces, r = concat pieces /\ all_from P i Ts pieces.
Proof.
  induction k as [|k IH]; intros fuel i Ts part r Hl Hi Hleaf Hr Hp.
  - destruct Ts as [|U [|U' Ts]]; try discriminate Hl. destruct (Hleaf i U fuel part r ltac:(left) Hr Hp) as [Hv HP].
    split; [exact Hv|]. exists [r]. cbn. rewrite app_nil_r. auto.
  - destruct fuel as [|fuel]; [rewrite rec_none in Hp; discriminate|].
    destruct (four_quarters k Ts Hl) as (a & b & c & d & -> & Hc & Ha & Hb & Hc' & Hd).
    cbn [perfect] in Hr |- *. rewrite Hc in Hr |- *. cbn [map] in Hr |- *.
    apply rec_step in Hp as (b1 & b2 & b3 & b4 & r1 & r2 & r3 & r4 & Hbs & P1 & P2 & P3 & P4 & ->); [|exact Hi]. cbn [Nat.pow] in Hi.
    destruct (branches_rooted _ _ _ _ Hr Hbs eq_refl) as [Hrs Hview].
    inversion Hrs as [|? ? ? ? R1 Hrs1]; subst. inversion Hrs1 as [|? ? ? ? R2 Hrs2]; subst.
    inversion Hrs2 as [|? ? ? ? R3 Hrs3]; subst. inversion Hrs3 as [|? ? ? ? R4 _]; subst.
    assert (Hq : forall q : list (Tree (list Z)), (forall U, U ∈ q -> U ∈ a ++ b ++ c ++ d) -> forall i U fuel p r, U ∈ q -> rooted p U -> rec fuel 0 i p = Some (Ok (r, tt)) -> view p U /\ P i U r).
    { intros q Hq i' U fu p r' HU. apply Hleaf, Hq, HU. }
    destruct (IH fuel i a b1 r1 Ha ltac:(lia) (Hq a ltac:(set_solver)) R1 P1) as (V1 & p1 & -> & A1).
    destruct (IH fuel (i + 4 ^ k)%nat b b2 r2 Hb ltac:(lia) (Hq b ltac:(set_solver)) R2 P2) as (V2 & p2 & -> & A2).
    destruct (IH fuel (i + 2 * 4 ^ k)%nat c b3 r3 Hc' ltac:(lia) (Hq c ltac:(set_solver)) R3 P3) as (V3 & p3 & -> & A3).
    destruct (IH fuel (i + 3 * 4 ^ k)%nat d b4 r4 Hd ltac:(lia) (Hq d ltac:(set_solver)) R4 P4) as (V4 & p4 & -> & A4).
    split; [apply Hview; repeat constructor; assumption|]. exists (p1 ++ p2 ++ p3 ++ p4). split; [rewrite !concat_app; reflexivity|].
    apply (all_from_four P (4 ^ k) i a b c d _ Ha Hb Hc'). exists p1, p2, p3, p4. auto.
Qed.
End Quarters.

(** ** The values of the cells *)

(** The law assumed of bincode: reading the encoding of a value gives it back. *)
Class SerdeLaws `{Serde} : Type := {
  has_type : Ty -> Val -> Prop;
  parse_serialize T v rest : has_type T v -> parse_value T (serialize v ++ rest) = Some (v, rest) }.

Section Typed.
Context `{SerdeLaws}.

Fixpoint typed (L : Layout) : Allocated (owned Val) L -> Prop :=
  match L with
  | Atom T | Array T _ => Forall (has_type T)
  | DynArray _ => fun _ => True
  | CSRValuesLayout T => Forall (Forall (has_type T))
  | Struct fields => fields_typed fields
  | ArrayOf _ T | Many _ T => Forall (typed T)
  end
with fields_typed (fields : Fields) : AllocatedFields (owned Val) fields -> Prop :=
  match fields with
  | NoField => fun _ => True
  | Field L fields => fun '(s, ss) => typed L s /\ fields_typed fields ss
  end.

Lemma parse_values_bytes T vs rest : Forall (has_type T) vs -> parse_values T (length vs) (cells_bytes vs ++ rest) = Some (vs, rest).
Proof.
  induction 1 as [|v vs Hv _ IH]; [reflexivity|]. cbn. rewrite <- app_assoc. rewrite parse_serialize by exact Hv.
  change (concat (map serialize vs)) with (cells_bytes vs). rewrite IH. reflexivity.
Qed.
Lemma deserialise_cells T n vs : Forall (has_type T) vs -> length vs = n -> Owned.deserialise_all (parse_values T n) (cells_bytes vs) = Ok vs.
Proof.
  intros Hv <-. unfold Owned.deserialise_all. pose proof (parse_values_bytes T vs [] Hv) as Hp. rewrite app_nil_r in Hp.
  rewrite Hp. reflexivity.
Qed.

(** The registers, one in each cell. *)
Lemma singletons {A} (cells : list (list A)) : Forall (fun c => length c = 1%nat) cells ->
  cells = map (fun x => [x]) (concat cells) /\ length (concat cells) = length cells.
Proof.
  induction 1 as [|c cells Hc _ [IH IHl]]; [split; reflexivity|]. destruct c as [|x [|y c]]; try discriminate Hc.
  cbn. split; [f_equal; exact IH | f_equal; exact IHl].
Qed.
Lemma cells_bytes_concat cells : concat (map cells_bytes cells) = cells_bytes (concat cells).
Proof. unfold cells_bytes. induction cells as [|c cells IH]; [reflexivity|]. cbn. rewrite IH, map_app, concat_app. reflexivity. Qed.
End Typed.

(** ** Pages *)
Section PageMaps.
Context `{RangeSetLaws}.

Definition page_entry (s : list Z) (e : Z * list Z) : Prop :=
  exists j, 0 <= j /\ fst e = 4096 * j /\ 4096 * j + 4096 <= Z.of_nat (length s) /\ snd e = slice (4096 * j) 4096 s.

Lemma from_pages_lookup s l : Forall (page_entry s) l -> forall id,
  from_pages l !! id = if decide (id ∈ l.*1) then Some (page_from_full (slice id 4096 s)) else None.
Proof.
  intros Hl id. unfold from_pages. assert (Hm : forall m : VerifierDynRegion, foldl (fun m '(id, data) => <[id := page_from_full data]> m) m l !! id =
    if decide (id ∈ l.*1) then Some (page_from_full (slice id 4096 s)) else m !! id).
  { induction Hl as [|[id' data] l (j & _ & Hid & _ & Hd) _ IH]; intros m; [reflexivity|]. cbn in Hid, Hd. subst id' data.
    cbn [foldl]. rewrite IH. cbn [fmap list_fmap fst]. destruct (decide (id ∈ l.*1)) as [Hin|Hin].
    - rewrite decide_True by (right; exact Hin). reflexivity.
    - destruct (decide (id = 4096 * j)) as [->|Hne].
      + rewrite lookup_insert_eq, decide_True by left. reflexivity.
      + rewrite lookup_insert_ne by congruence. rewrite decide_False; [reflexivity|]. intros [?|?]%elem_of_cons; [congruence|]. exact (Hin H1). }
  rewrite Hm, lookup_empty. reflexivity.
Qed.

Lemma entry_of s l id : Forall (page_entry s) l -> id ∈ l.*1 -> exists j, 0 <= j /\ id = 4096 * j /\ 4096 * j + 4096 <= Z.of_nat (length s).
Proof.
  intros Hl Hid. apply list_elem_of_fmap in Hid as (e & -> & He). rewrite Forall_forall in Hl.
  destruct (Hl e He) as (j & Hj & Hf & Hfit & _). eauto.
Qed.
Lemma slice_page_ok s j : 0 <= j -> 4096 * j + 4096 <= Z.of_nat (length s) -> page_ok (page_from_full (slice (4096 * j) 4096 s)).
Proof. intros Hj Hfit. apply page_full_ok. rewrite slice_length by lia. reflexivity. Qed.
Lemma slice_page_byte s j x : 0 <= j -> page_id x = 4096 * j ->
  byte_of (page_from_full (slice (4096 * j) 4096 s)) (x mod 4096) = s !! Z.to_nat x.
Proof.
  intros Hj Hx. pose proof (Z.mod_pos_bound x 4096 ltac:(lia)) as Hmod. rewrite byte_of_full by (rewrite leaf_size_eq; exact Hmod).
  rewrite slice_lookup by lia. f_equal. rewrite page_id_eq in Hx. pose proof (Z.div_mod x 4096 ltac:(lia)). lia.
Qed.

Lemma from_pages_ok s l : Forall (page_entry s) l -> pages_ok (from_pages l).
Proof.
  intros Hl id p Hp. rewrite (from_pages_lookup s l Hl) in Hp. destruct (decide _) as [Hin|]; [|discriminate]. injection Hp as <-.
  destruct (entry_of s l id Hl Hin) as (j & Hj & -> & Hfit). apply slice_page_ok; assumption.
Qed.
Lemma from_pages_byte s l x : Forall (page_entry s) l -> page_id x ∈ l.*1 -> vbyte (from_pages l) x = s !! Z.to_nat x.
Proof.
  intros Hl Hx. unfold vbyte. rewrite (from_pages_lookup s l Hl), decide_True by exact Hx.
  destruct (entry_of s l _ Hl Hx) as (j & Hj & Hid & _). rewrite Hid. apply slice_page_byte; assumption.
Qed.

(** The pages that are parsed from the proof of some region. *)
Lemma from_pages_part s l : Forall (page_entry s) l -> dyn_part_of s s (from_pages l).
Proof.
  intros Hl. constructor; [exact (from_pages_ok s l Hl) | | reflexivity]. intros x b Hx Hb.
  destruct (decide (page_id x ∈ l.*1)) as [Hin|Hin].
  - rewrite <- (from_pages_byte s l x Hl Hin). exact Hb.
  - unfold vbyte in Hb. rewrite (from_pages_lookup s l Hl), decide_False in Hb by exact Hin. discriminate.
Qed.
Lemma from_pages_reveals A s l : Forall (page_entry s) l ->
  (forall j, 0 <= j -> 4096 * j + 4096 <= Z.of_nat (length s) -> A (4096 * j) -> 4096 * j ∈ l.*1) ->
  (forall id, id ∈ l.*1 -> A id) -> Z.of_nat (length s) mod 4096 = 0 -> dyn_reveals A s (from_pages l).
Proof.
  intros Hl Hin HA Hmul. constructor; [exact (from_pages_ok s l Hl) | |].
  - intros x Hx HAx. apply (from_pages_byte s l x Hl). rewrite page_id_eq in *. apply Hin; [apply Z.div_pos; lia | | exact HAx].
    pose proof (Z.div_mod (Z.of_nat (length s)) 4096 ltac:(lia)). pose proof (Z.div_mod x 4096 ltac:(lia)). pose proof (Z.mod_pos_bound x 4096 ltac:(lia)). lia.
  - intros id [p Hp]. rewrite (from_pages_lookup s l Hl) in Hp. destruct (decide (id ∈ l.*1)) as [Hid|]; [exact (HA id Hid) | discriminate].
Qed.
End PageMaps.
