(* ===== verification/AllocatedState.v ===== *)
(** * The state that a verifier parses

    The parsers of dynamic regions and vectors, level by level, and the two
    properties of all of a state: the proof of an execution gives the parts that were
    accessed, and a proof with the root hash of some state gives parts of it. *)

From stdpp Require Import gmap.
From S2P Require Import Prelude.
From S2P Require Import Hash.
From S2P Require Import MerkleProof.
From S2P Require Import Merkle.
From S2P Require Import MerkleSpec.
From S2P Require Import Backend.
From S2P Require Import BackendSpec.
From S2P Require Import DynBackendSpec.
From S2P Require Import Deserialiser.
From S2P Require Import Layouts.
From S2P Require Import LayoutsSpec.
From S2P Require Import ProofRun.
From S2P Require Import EventsSpec.
From S2P Require Import Revealed.
From S2P Require Import AllocatedSpec.

(** ** The levels of an array *)
Section Levels.
Context `{Blake2bLaws}.

Lemma four_branches_some {T} (branch : Z -> Z -> parser (list T)) s1 l1 s2 l2 s3 l3 s4 l4 part r :
  @parse_branches ProofTree owned_deserialiser T branch [(s1, l1); (s2, l2); (s3, l3); (s4, l4)] part tt = Some (Ok (r, tt)) <->
  (exists b1 b2 b3 b4 r1 r2 r3 r4, into_branches MERKLE_ARITY part = Ok [b1; b2; b3; b4] /\
    branch s1 l1 b1 tt = Some (Ok (r1, tt)) /\ branch s2 l2 b2 tt = Some (Ok (r2, tt)) /\
    branch s3 l3 b3 tt = Some (Ok (r3, tt)) /\ branch s4 l4 b4 tt = Some (Ok (r4, tt)) /\ r = r1 ++ r2 ++ r3 ++ r4).
Proof.
  rewrite parse_branches_some. split.
  - intros (bs & rs & Hbs & Hall & ->). inversion Hall as [|? b1 r1 ? ? ? P1 A1]; subst. inversion A1 as [|? b2 r2 ? ? ? P2 A2]; subst.
    inversion A2 as [|? b3 r3 ? ? ? P3 A3]; subst. inversion A3 as [|? b4 r4 ? ? ? P4 A4]; subst. inversion A4; subst.
    exists b1, b2, b3, b4, r1, r2, r3, r4. cbn in *. rewrite app_nil_r. auto 10.
  - intros (b1 & b2 & b3 & b4 & r1 & r2 & r3 & r4 & Hbs & P1 & P2 & P3 & P4 & ->).
    exists [b1; b2; b3; b4], [r1; r2; r3; r4]. split; [exact Hbs|]. split; [|cbn; rewrite app_nil_r; reflexivity].
    repeat (constructor; [assumption|]). constructor.
Qed.

(** *** Pages *)
Notation parse_pages := (@parse_pages ProofTree owned_deserialiser).
Definition pages_rec (fuel k i : nat) (part : ProofTree) : outcome (list (Z * list Z) * unit) FromProofError :=
  parse_pages fuel (LEAF_SIZE * Z.of_nat i) (LEAF_SIZE * 4 ^ Z.of_nat k) part tt.

Lemma pages_long k : (LEAF_SIZE * 4 ^ Z.of_nat (S k) <=? LEAF_SIZE) = false.
Proof.
  rewrite Nat2Z.inj_succ, Z.pow_succ_r by lia. pose proof (Z.pow_pos_nonneg 4 (Z.of_nat k) ltac:(lia) ltac:(lia)).
  rewrite leaf_size_eq. lia.
Qed.
Lemma pages_rec_step bound : LEAF_SIZE * Z.of_nat bound <= usize_MAX -> forall fuel k i part r, (i + 4 ^ S k <= bound)%nat ->
  pages_rec (S fuel) (S k) i part = Some (Ok (r, tt)) <->
  (exists b1 b2 b3 b4 r1 r2 r3 r4, into_branches MERKLE_ARITY part = Ok [b1; b2; b3; b4] /\
    pages_rec fuel k i b1 = Some (Ok (r1, tt)) /\ pages_rec fuel k (i + 4 ^ k)%nat b2 = Some (Ok (r2, tt)) /\
    pages_rec fuel k (i + 2 * 4 ^ k)%nat b3 = Some (Ok (r3, tt)) /\ pages_rec fuel k (i + 3 * 4 ^ k)%nat b4 = Some (Ok (r4, tt)) /\
    r = r1 ++ r2 ++ r3 ++ r4).
Proof.
  intros Hmax fuel k i part r Hi. unfold pages_rec at 1. cbn [Layouts.parse_pages]. rewrite pages_long.
  apply Nat2Z.inj_le in Hi. rewrite Nat2Z.inj_add, Nat2Z.inj_pow in Hi. change (Z.of_nat 4) with 4 in Hi.
  rewrite (Nat2Z.inj_succ k), Z.pow_succ_r in Hi by lia. rewrite (Nat2Z.inj_succ k), Z.pow_succ_r by lia.
  set (q := 4 ^ Z.of_nat k) in *. assert (Hq : 0 < q) by (apply Z.pow_pos_nonneg; lia). fold q in Hi.
  rewrite leaf_size_eq in *. replace (4096 * (4 * q)) with (4 * (4096 * q)) by lia. rewrite work_merkle_params_even by lia.
  refine (iff_trans (four_branches_some (parse_pages fuel) _ _ _ _ _ _ _ _ part r) _). unfold pages_rec. rewrite leaf_size_eq. fold q.
  assert (Hj : forall j, 4096 * Z.of_nat (i + j * 4 ^ k) = 4096 * Z.of_nat i + Z.of_nat j * (4096 * q)).
  { intros j. rewrite Nat2Z.inj_add, Nat2Z.inj_mul, Nat2Z.inj_pow. change (Z.of_nat 4) with 4. fold q. lia. }
  pose proof (Hj 1%nat) as H1'. rewrite Nat.mul_1_l in H1'. rewrite H1', (Hj 2%nat), (Hj 3%nat).
  change (Z.of_nat 1) with 1. change (Z.of_nat 2) with 2. change (Z.of_nat 3) with 3. rewrite Z.mul_1_l. reflexivity.
Qed.
Lemma pages_rec_none k i part : pages_rec 0 (S k) i part = None.
Proof. unfold pages_rec. cbn [Layouts.parse_pages]. rewrite pages_long. reflexivity. Qed.
Lemma pages_rec_leaf fuel i part : pages_rec fuel 0 i part =
  Some (result_map (Owned.into_leaf_raw MERKLE_LEAF_SIZE part) (fun data =>
    (match data with PartialPresent data => [(LEAF_SIZE * Z.of_nat i, data)] | _ => [] end, tt))).
Proof.
  unfold pages_rec. assert (Hid : page_id (LEAF_SIZE * Z.of_nat i) = LEAF_SIZE * Z.of_nat i).
  { rewrite leaf_size_eq. destruct (page_id_aligned (Z.of_nat i) 0 ltac:(lia)) as [Hid _]. rewrite Z.add_0_r in Hid. exact Hid. }
  assert (Hleaf : forall f, parse_pages f (LEAF_SIZE * Z.of_nat i) LEAF_SIZE part tt =
    ('(ctx, st) <-$ Some (result_map (Owned.into_leaf_raw MERKLE_LEAF_SIZE part) (fun p => (p, tt))) ;;
     Some (Ok (match ctx with
               | PartialBlinded _ | PartialAbsent => []
               | PartialPresent data => [(page_id (LEAF_SIZE * Z.of_nat i), data)]
               end, st)))).
  { intros f. destruct f; cbn [Layouts.parse_pages]; rewrite Z.leb_refl; reflexivity. }
  change (LEAF_SIZE * 4 ^ Z.of_nat 0) with LEAF_SIZE. rewrite Hleaf, Hid.
  destruct (Owned.into_leaf_raw MERKLE_LEAF_SIZE part) as [[|h|d]|e]; reflexivity.
Qed.

(** *** Vectors *)
Context {T : Type} (elem : parser T).
Notation many := (@parametrised_deserialiser ProofTree owned_deserialiser T).
Definition many_rec (fuel k i : nat) (part : ProofTree) : outcome (list T * unit) FromProofError :=
  many fuel elem (4 ^ Z.of_nat k) part tt.

Lemma many_long k : (4 ^ Z.of_nat (S k) =? 1) = false.
Proof.
  rewrite Nat2Z.inj_succ, Z.pow_succ_r by lia. pose proof (Z.pow_pos_nonneg 4 (Z.of_nat k) ltac:(lia) ltac:(lia)). lia.
Qed.
Lemma many_rec_step bound : Z.of_nat bound <= usize_MAX -> forall fuel k i part r, (i + 4 ^ S k <= bound)%nat ->
  many_rec (S fuel) (S k) i part = Some (Ok (r, tt)) <->
  (exists b1 b2 b3 b4 r1 r2 r3 r4, into_branches MERKLE_ARITY part = Ok [b1; b2; b3; b4] /\
    many_rec fuel k i b1 = Some (Ok (r1, tt)) /\ many_rec fuel k (i + 4 ^ k)%nat b2 = Some (Ok (r2, tt)) /\
    many_rec fuel k (i + 2 * 4 ^ k)%nat b3 = Some (Ok (r3, tt)) /\ many_rec fuel k (i + 3 * 4 ^ k)%nat b4 = Some (Ok (r4, tt)) /\
    r = r1 ++ r2 ++ r3 ++ r4).
Proof.
  intros Hmax fuel k i part r Hi. unfold many_rec at 1. cbn [Layouts.parametrised_deserialiser]. rewrite many_long.
  apply Nat2Z.inj_le in Hi. rewrite Nat2Z.inj_add, Nat2Z.inj_pow in Hi. change (Z.of_nat 4) with 4 in Hi.
  rewrite (Nat2Z.inj_succ k), Z.pow_succ_r in Hi by lia. rewrite (Nat2Z.inj_succ k), Z.pow_succ_r by lia. rewrite work_merkle_params_even by (pose proof (Z.pow_pos_nonneg 4 (Z.of_nat k)); lia).
  exact (four_branches_some (fun _ => many fuel elem) _ _ _ _ _ _ _ _ part r).
Qed.
Lemma many_rec_none k i part : many_rec 0 (S k) i part = None.
Proof. unfold many_rec. cbn [Layouts.parametrised_deserialiser]. rewrite many_long. reflexivity. Qed.
Lemma many_rec_leaf fuel i part r : many_rec fuel 0 i part = Some (Ok (r, tt)) <-> exists v, elem part tt = Some (Ok (v, tt)) /\ r = [v].
Proof.
  assert (Hleaf : forall f, many f elem 1 part tt = ('(v, st) <-$ elem part tt ;; Some (Ok ([v], st)))) by (intros [|f]; reflexivity).
  unfold many_rec. change (4 ^ Z.of_nat 0) with 1. rewrite Hleaf, obind_some. split.
  - intros ([v []] & Hv & [= <-]). eauto.
  - intros (v & Hv & ->). exists (v, tt). auto.
Qed.
End Levels.

(** ** The leaves of a state *)
Section Leaves.
Context `{Blake2bLaws, SerdeLaws, RangeSetLaws}.

Lemma leaf_shown_as a data part : shown (merkle_leaf a data) part ->
  exists r, Owned.deserialise_as_leaf part = Ok r /\ (if a then r = PartialPresent data else forall d, r <> PartialPresent d).
Proof.
  destruct a; intros Hs.
  - apply read_leaf_shown in Hs as ->. eexists. split; reflexivity.
  - destruct Hs as [-> | [_ ->]]; eexists; (split; [reflexivity|]); discriminate.
Qed.

Lemma parsed_inj {A E} (a b : A) : Some (@Ok _ E (a, tt)) = Some (Ok (b, tt)) -> b = a.
Proof. congruence. Qed.

(** Cells. *)
Lemma cells_alloc_eq T LEN part : @cells_alloc _ ProofTree owned_deserialiser T LEN part tt =
  Some (result_map (Owned.into_leaf (parse_values T LEN) part) (fun leaf =>
    (match leaf with PartialPresent cells => Partial_ (map Some cells) | _ => Absent_ end, tt))).
Proof.
  unfold cells_alloc. cbn [into_leaf suspended_map owned_deserialiser].
  destruct (Owned.into_leaf _ part) as [[|h|cells]|e]; reflexivity.
Qed.
Lemma csr_values_alloc_eq T part : @csr_values_alloc _ ProofTree owned_deserialiser T part tt =
  Some (result_map (Owned.into_leaf (parse_values T csr_values) part) (fun leaf =>
    (match leaf with PartialPresent data => map (fun value => Partial_ [Some value]) data | _ => replicate csr_values Absent_ end, tt))).
Proof.
  unfold csr_values_alloc. cbn [into_leaf suspended_map owned_deserialiser].
  destruct (Owned.into_leaf _ part) as [[|h|cells]|e]; reflexivity.
Qed.

Lemma into_leaf_shown T LEN a s part : Forall (has_type T) s -> length s = LEN -> shown (merkle_leaf a (cells_bytes s)) part ->
  exists r, Owned.into_leaf (parse_values T LEN) part = Ok r /\ (if a then r = PartialPresent s else forall d, r <> PartialPresent d).
Proof.
  intros Ht Hl Hs. destruct (leaf_shown_as a _ _ Hs) as (r & Hr & Ha). unfold Owned.into_leaf. rewrite Hr. cbn [result_bind]. destruct a.
  - subst r. cbn [map_present_fallible]. rewrite (deserialise_cells T LEN s Ht Hl). eexists. split; reflexivity.
  - destruct r as [|h|d]; [| |destruct (Ha d eq_refl)]; eexists; (split; [reflexivity|]); discriminate.
Qed.
Lemma cells_alloc_shown T LEN a s part : Forall (has_type T) s -> length s = LEN -> shown (merkle_leaf a (cells_bytes s)) part ->
  @cells_alloc _ ProofTree owned_deserialiser T LEN part tt = Some (Ok (revealed a s, tt)).
Proof.
  intros Ht Hl Hs. rewrite cells_alloc_eq. destruct (into_leaf_shown T LEN a s part Ht Hl Hs) as (r & -> & Ha). cbn [result_map].
  destruct a; [subst r; reflexivity|]. destruct r as [|h|d]; [reflexivity.. | destruct (Ha d eq_refl)].
Qed.
Lemma csr_values_shown T a cells part : Forall (Forall (has_type T)) cells -> Forall (fun c => length c = 1%nat) cells -> length cells = csr_values ->
  shown (merkle_leaf a (concat (map cells_bytes cells))) part ->
  @csr_values_alloc _ ProofTree owned_deserialiser T part tt = Some (Ok (map (revealed a) cells, tt)).
Proof.
  intros Ht Hone Hl Hs. destruct (singletons cells Hone) as [Hc Hlc]. rewrite cells_bytes_concat in Hs.
  destruct (into_leaf_shown T csr_values a (concat cells) part) as (r & Hr & Ha);
    [apply Forall_concat, Ht | congruence | exact Hs|].
  rewrite csr_values_alloc_eq, Hr. cbn [result_map]. do 3 f_equal. destruct a.
  - subst r. rewrite Hc at 2. rewrite map_map. reflexivity.
  - rewrite <- Hl. destruct r as [|h|d]; [| |destruct (Ha d eq_refl)]; clear; (induction cells as [|c cells IH]; cbn; [reflexivity | f_equal; exact IH]).
Qed.

(** Dynamic regions. *)
Lemma page_entries g k LEN i p : LEN = LEAF_SIZE * 4 ^ Z.of_nat k -> Z.of_nat (length (dyn_source g)) = LEN ->
  pages (dyn_source g) !! i = Some p -> page_entry (dyn_source g) (LEAF_SIZE * Z.of_nat i, p).
Proof.
  intros HL Hl Hp. destruct (page_fits LEN k _ i p HL Hl Hp) as [Hfit Hi]. exists (Z.of_nat i). cbn [fst snd].
  rewrite pages_lookup in Hp by exact Hi. injection Hp as <-. rewrite leaf_size_eq, Hl. repeat split; lia.
Qed.

Definition revealed_pages (g : ProofDynRegion) : list (list (Z * list Z)) :=
  imap (fun i p => if page_accessed g i then [(LEAF_SIZE * Z.of_nat i, p)] else []) (pages (dyn_source g)).
Lemma elem_of_revealed_pages g e : e ∈ concat (revealed_pages g) <->
  exists i p, pages (dyn_source g) !! i = Some p /\ page_accessed g i = true /\ e = (LEAF_SIZE * Z.of_nat i, p).
Proof.
  rewrite list_elem_of_In, in_concat. split.
  - intros (l & Hl & He). apply list_elem_of_In, list_elem_of_lookup_1 in Hl as [i Hi]. unfold revealed_pages in Hi.
    rewrite list_lookup_imap in Hi. destruct (pages (dyn_source g) !! i) as [p|] eqn:Hp; [|discriminate]. injection Hi as <-.
    destruct (page_accessed g i) eqn:Ha; [|destruct He]. destruct He as [<-|[]]. eauto.
  - intros (i & p & Hp & Ha & ->). exists [(LEAF_SIZE * Z.of_nat i, p)]. split; [|left; reflexivity].
    apply list_elem_of_In, list_elem_of_lookup_2 with i. unfold revealed_pages. rewrite list_lookup_imap, Hp. cbn. rewrite Ha. reflexivity.
Qed.

Notation dyn_alloc := (@dyn_cells_alloc _ ProofTree owned_deserialiser).
Lemma dyn_alloc_eq fuel LEN k part : LEN = LEAF_SIZE * 4 ^ Z.of_nat k -> dyn_alloc fuel LEN part tt =
  ('(pages, st) <-$ pages_rec fuel k 0 part ;; Some (Ok (from_pages pages, st))).
Proof. intros ->. reflexivity. Qed.

Lemma dyn_alloc_shown fuel LEN k g part : LEN = LEAF_SIZE * 4 ^ Z.of_nat k -> LEN <= usize_MAX -> (k <= fuel)%nat ->
  Z.of_nat (length (dyn_source g)) = LEN -> shown (perfect merkle_node k (page_leaves g)) part ->
  dyn_alloc fuel LEN part tt = Some (Ok (from_pages (concat (revealed_pages g)), tt)).
Proof.
  intros HL Hmax Hf Hl Hs. destruct (pages_length LEN k (dyn_source g) HL Hl) as [Hn Hps].
  rewrite (dyn_alloc_eq fuel LEN k part HL).
  assert (Hb : LEAF_SIZE * Z.of_nat (4 ^ k) <= usize_MAX) by (rewrite Nat2Z.inj_pow; change (Z.of_nat 4) with 4; lia).
  rewrite (rec_shown pages_rec (4 ^ k) (pages_rec_step (4 ^ k) Hb) k fuel 0 (page_leaves g) (revealed_pages g) part Hf);
    [reflexivity | unfold page_leaves; rewrite length_imap; exact Hn | lia | | exact Hs].
  apply all_from_lookup. split; [unfold revealed_pages, page_leaves; rewrite !length_imap; reflexivity|].
  intros i t r Ht Hr fu p Hsh. unfold revealed_pages, page_leaves in Ht, Hr. rewrite list_lookup_imap in Ht. rewrite list_lookup_imap in Hr.
  destruct (pages (dyn_source g) !! i) as [d|] eqn:Hd; [|discriminate]. injection Ht as <-. injection Hr as <-. cbn [Nat.add].
  rewrite pages_rec_leaf. destruct (leaf_shown_as _ _ _ Hsh) as (q & Hq & Ha). unfold Owned.into_leaf_raw. rewrite Hq. cbn [result_bind].
  destruct (page_accessed g i).
  + subst q. cbn [map_present_fallible]. rewrite Forall_forall in Hps. rewrite (Hps d) by (apply list_elem_of_lookup_2 with i, Hd). reflexivity.
  + destruct q as [|h|x]; [reflexivity.. | destruct (Ha x eq_refl)].
Qed.
Lemma revealed_pages_reveal LEN k g : LEN = LEAF_SIZE * 4 ^ Z.of_nat k -> Z.of_nat (length (dyn_source g)) = LEN ->
  dyn_reveals (page_in g) (dyn_source g) (from_pages (concat (revealed_pages g))).
Proof.
  intros HL Hl. destruct (pages_length LEN k (dyn_source g) HL Hl) as [Hn _].
  apply from_pages_reveals.
  - apply Forall_forall. intros e (i & p & Hp & _ & ->)%elem_of_revealed_pages. exact (page_entries g k LEN i p HL Hl Hp).
  - intros j Hj Hfit HA. destruct (lookup_lt_is_Some_2 (pages (dyn_source g)) (Z.to_nat j)) as [p Hp].
      { rewrite Hn. apply Nat2Z.inj_lt. rewrite Z2Nat.id, Nat2Z.inj_pow by exact Hj. change (Z.of_nat 4) with 4. rewrite Hl, HL, leaf_size_eq in Hfit. lia. }
      apply list_elem_of_fmap. exists (LEAF_SIZE * Z.of_nat (Z.to_nat j), p). split; [cbn [fst]; rewrite Z2Nat.id, leaf_size_eq by exact Hj; reflexivity|].
      apply elem_of_revealed_pages. exists (Z.to_nat j), p. split; [exact Hp|]. split; [|reflexivity]. apply page_accessed_spec. rewrite Z2Nat.id by exact Hj. exact HA.
  - intros id (e & -> & (i & p & Hp & Ha & ->)%elem_of_revealed_pages)%list_elem_of_fmap. cbn [fst]. rewrite leaf_size_eq.
      apply page_accessed_spec, Ha.
  - rewrite Hl, HL, leaf_size_eq, Z.mul_comm. apply Z_mod_mult.
Qed.

Lemma into_leaf_rooted T LEN s part r : Forall (has_type T) s -> length s = LEN -> rooted part (Leaf (cells_bytes s)) ->
  Owned.into_leaf (parse_values T LEN) part = Ok r ->
  view part (Leaf (cells_bytes s)) /\ match r with PartialPresent s' => s' = s | _ => True end.
Proof.
  intros Ht Hl Hr. unfold Owned.into_leaf. destruct (Owned.deserialise_as_leaf part) as [q|] eqn:Hq; [|discriminate]. cbn [result_bind].
  destruct (leaf_rooted part _ q Hr Hq) as [Hv Hd]. destruct q as [|h|d]; cbn [map_present_fallible].
  - intros [= <-]. auto.
  - intros [= <-]. auto.
  - subst d. rewrite (deserialise_cells T LEN s Ht Hl). intros [= <-]. auto.
Qed.
Lemma cells_alloc_rooted T LEN s part v : Forall (has_type T) s -> length s = LEN -> rooted part (Leaf (cells_bytes s)) ->
  @cells_alloc _ ProofTree owned_deserialiser T LEN part tt = Some (Ok (v, tt)) ->
  view part (Leaf (cells_bytes s)) /\ part_of s s v.
Proof.
  intros Ht Hl Hr. rewrite cells_alloc_eq. destruct (Owned.into_leaf _ part) as [r|] eqn:Hleaf; [|discriminate]. cbn [result_map]. intros [= <-].
  destruct (into_leaf_rooted T LEN s part r Ht Hl Hr Hleaf) as [Hv Hd]. split; [exact Hv|]. destruct r as [|h|d]; [reflexivity.. | subst d].
  exact (revealed_part true s s (fun _ => eq_refl)).
Qed.
Lemma csr_values_rooted T cells part vs : Forall (Forall (has_type T)) cells -> Forall (fun c => length c = 1%nat) cells -> length cells = csr_values ->
  rooted part (Leaf (concat (map cells_bytes cells))) ->
  @csr_values_alloc _ ProofTree owned_deserialiser T part tt = Some (Ok (vs, tt)) ->
  view part (Leaf (concat (map cells_bytes cells))) /\ Forall3 part_of cells cells vs.
Proof.
  intros Ht Hone Hl Hr. destruct (singletons cells Hone) as [Hc Hlc]. rewrite cells_bytes_concat in *. rewrite csr_values_alloc_eq.
  destruct (Owned.into_leaf _ part) as [r|] eqn:Hleaf; [|discriminate]. cbn [result_map]. intros ->%parsed_inj.
  destruct (into_leaf_rooted T csr_values (concat cells) part r) as [Hv Hd]; [apply Forall_concat, Ht | congruence | exact Hr | exact Hleaf|].
  split; [exact Hv|]. destruct r as [|h|d].
  1, 2: rewrite <- Hl; clear; induction cells as [|c cells IH]; cbn; constructor; [reflexivity | exact IH].
  subst d. rewrite Hc at 1 2. generalize (concat cells). clear. intros l. induction l as [|x l IH]; cbn; constructor; [|exact IH].
  exact (revealed_part true [x] [x] (fun _ => eq_refl)).
Qed.

Lemma dyn_alloc_rooted fuel LEN k s part v : LEN = LEAF_SIZE * 4 ^ Z.of_nat k -> LEN <= usize_MAX -> Z.of_nat (length s) = LEN ->
  rooted part (perfect Node k (map Leaf (pages s))) -> dyn_alloc fuel LEN part tt = Some (Ok (v, tt)) ->
  view part (perfect Node k (map Leaf (pages s))) /\ dyn_part_of s s v.
Proof.
  intros HL Hmax Hl Hr Hp. rewrite (dyn_alloc_eq fuel LEN k part HL) in Hp. apply obind_some in Hp as ([l []] & Hp & [= <-]).
  destruct (pages_length LEN k s HL Hl) as [Hn Hps].
  assert (Hb : LEAF_SIZE * Z.of_nat (4 ^ k) <= usize_MAX) by (rewrite Nat2Z.inj_pow; change (Z.of_nat 4) with 4; lia).
  set (P := fun (i : nat) (U : Tree (list Z)) (r : list (Z * list Z)) => exists p, U = Leaf p /\ (r = [] \/ r = [(LEAF_SIZE * Z.of_nat i, p)])).
  destruct (rec_rooted pages_rec (4 ^ k) (pages_rec_step (4 ^ k) Hb) pages_rec_none P k fuel 0 (map Leaf (pages s)) part l)
    as [Hv (pieces & -> & Hall)]; [rewrite length_map; exact Hn | lia | | exact Hr | exact Hp|].
  - intros i U fu p r HU Hrp Hrec. apply list_elem_of_fmap in HU as (d & -> & Hd). rewrite pages_rec_leaf in Hrec.
    unfold Owned.into_leaf_raw in Hrec. destruct (Owned.deserialise_as_leaf p) as [q|] eqn:Hq; [|discriminate]. cbn [result_bind] in Hrec.
    destruct (leaf_rooted p d q Hrp Hq) as [Hv Hdq]. split; [exact Hv|]. exists d. split; [reflexivity|].
    destruct q as [|h|d']; cbn in Hrec; [injection Hrec as <-; auto.. |]. destruct (_ =? _)%nat; [|discriminate]. cbn in Hrec. injection Hrec as <-.
    subst d'. auto.
  - split; [exact Hv|]. apply from_pages_part. apply Forall_concat. apply all_from_lookup in Hall as [Hlen Hall].
    apply Forall_lookup. intros i r Hri. destruct (lookup_lt_is_Some_2 (pages s) i) as [p Hpi].
    { apply lookup_lt_Some in Hri. rewrite Hlen, length_map in Hri. exact Hri. }
    destruct (Hall i (Leaf p) r) as (p' & [= <-] & [-> | ->]); [rewrite list_lookup_fmap, Hpi; reflexivity | exact Hri | constructor|].
    constructor; [|constructor]. cbn [Nat.add]. set (g := mkProofDynRegion s ∅ ∅). exact (page_entries g k LEN i p HL Hl Hpi).
Qed.
End Leaves.

(** ** All of a state *)
Section States.
Context `{Blake2bLaws, SerdeLaws, RangeSetLaws}.
Notation O := (owned Val).
Notation PG := (proof_gen Val).
Notation V := (verifier Val).
Notation alloc fuel L := (@to_verifier_alloc _ _ ProofTree owned_deserialiser fuel L).

Lemma array_alloc_some fuel LEN T part (r : list (Allocated V T)) : alloc fuel (ArrayOf LEN T) part tt = Some (Ok (r, tt)) <->
  (exists bs, into_branches LEN part = Ok bs /\ Forall2 (fun b v => alloc fuel T b tt = Some (Ok (v, tt))) bs r).
Proof.
  rewrite <- (array_some (alloc fuel T) LEN part r).
  change (alloc fuel (ArrayOf LEN T) part tt) with
    ('(ctx, st) <-$ Some (result_map (Owned.into_node part) (fun n => (n, tt))) ;;
     '(ctx, st) <-$ @parse_array ProofTree owned_deserialiser (Allocated V T) (alloc fuel T) LEN (Owned.node_map ctx (fun _ => [])) st ;;
     Some (result_map (Owned.done ctx) (fun r => (r, st)))).
  destruct (Owned.into_node part) as [nd|e]; reflexivity.
Qed.
Lemma enough_above k : (k <= enough k)%nat.
Proof.
  unfold enough. assert (Hw : (k <= event_count k)%nat) by (induction k; cbn; lia). lia.
Qed.

(** The elements of an array that are shown are found. *)
Definition found {A B} (tree : A -> MerkleTree) (p : parser B) (g : A) (v : B) : Prop :=
  forall b, shown (tree g) b -> p b tt = Some (Ok (v, tt)).
Lemma elements_found {A B} (P : A -> B -> Prop) (tree : A -> MerkleTree) (p : parser B) gs :
  (forall g, g ∈ gs -> exists v, P g v /\ found tree p g v) -> exists vs, Forall2 P gs vs /\ Forall2 (found tree p) gs vs.
Proof.
  induction gs as [|g gs IH]; intros Hp; [exists []; split; constructor|].
  destruct (Hp g ltac:(left)) as (v & HP & Hv). destruct IH as (vs & HPs & Hvs); [intros g' Hg'; apply Hp; right; exact Hg'|].
  exists (v :: vs). split; constructor; assumption.
Qed.
Lemma elements_shown {A B} (tree : A -> MerkleTree) (p : parser B) gs vs bs : Forall2 (found tree p) gs vs ->
  Forall2 shown (map tree gs) bs -> Forall2 (fun b v => p b tt = Some (Ok (v, tt))) bs vs.
Proof.
  intros Hf. revert bs. induction Hf as [|g v gs vs Hv _ IH]; intros bs Hs; inversion Hs; subst; constructor; [apply Hv; assumption | apply IH; assumption].
Qed.
Lemma elements_rooted {A B} (P : A -> B -> Prop) (data : A -> Tree (list Z)) (p : parser B) ss : forall bs vs,
  Forall2 rooted bs (map data ss) -> Forall2 (fun b v => p b tt = Some (Ok (v, tt))) bs vs ->
  (forall s b v, s ∈ ss -> rooted b (data s) -> p b tt = Some (Ok (v, tt)) -> view b (data s) /\ P s v) ->
  Forall2 view bs (map data ss) /\ Forall2 P ss vs.
Proof.
  induction ss as [|s ss IH]; intros bs vs Hr Hp Hel; cbn [map] in *; inversion Hr as [|b ? bs' ? Hb Hr']; subst;
    inversion Hp as [|? v ? vs' Hv Hp']; subst; [split; constructor|].
  destruct (Hel s b v ltac:(left) Hb Hv) as [Hvw HP].
  destruct (IH bs' vs' Hr' Hp') as [Hvws HPs]; [intros s' b' v' Hs'; apply Hel; right; exact Hs'|].
  split; constructor; assumption.
Qed.

Lemma Forall3_of_map {A B C} (f : A -> B) (Q : A -> B -> C -> Prop) l r : Forall2 (fun a c => Q a (f a) c) l r -> Forall3 Q l (map f l) r.
Proof. induction 1; cbn; constructor; assumption. Qed.
Lemma Forall3_same {A C} (Q : A -> A -> C -> Prop) l r : Forall2 (fun a c => Q a a c) l r -> Forall3 Q l l r.
Proof. induction 1; constructor; assumption. Qed.

(** The elements of a vector. *)
Lemma many_alloc_shown {A B} (p : parser B) (tree : A -> MerkleTree) LEN k fuel gs vs part : LEN = 4 ^ Z.of_nat k -> LEN <= usize_MAX -> (k <= fuel)%nat ->
  length gs = (4 ^ k)%nat -> Forall2 (found tree p) gs vs -> shown (perfect merkle_node k (map tree gs)) part ->
  @parametrised_deserialiser ProofTree owned_deserialiser B fuel p LEN part tt = Some (Ok (vs, tt)).
Proof.
  intros -> Hmax Hf Hn Hvs Hs. change (many_rec p fuel k 0 part = Some (Ok (vs, tt))).
  assert (Hb : Z.of_nat (4 ^ k) <= usize_MAX) by (rewrite Nat2Z.inj_pow; exact Hmax).
  rewrite (rec_shown (many_rec p) (4 ^ k) (many_rec_step p (4 ^ k) Hb) k fuel 0 (map tree gs) (map (fun v => [v]) vs) part Hf);
    [|rewrite length_map; exact Hn | lia | | exact Hs].
  - do 3 f_equal. clear. induction vs as [|v vs IH]; [reflexivity|]. cbn. f_equal. exact IH.
  - apply all_from_lookup. rewrite !length_map. split; [symmetry; apply (Forall2_length _ _ _ Hvs)|].
    intros j t r Ht Hr fu q Hq. rewrite list_lookup_fmap in Ht. rewrite list_lookup_fmap in Hr.
    destruct (gs !! j) as [g|] eqn:Hg; [|discriminate]. destruct (vs !! j) as [v|] eqn:Hv; [|discriminate].
    injection Ht as <-. injection Hr as <-. apply many_rec_leaf. exists v. split; [|reflexivity].
    exact (Forall2_lookup_lr _ _ _ _ _ _ Hvs Hg Hv q Hq).
Qed.
Lemma many_alloc_rooted {A B} (P : A -> B -> Prop) (p : parser B) (data : A -> Tree (list Z)) LEN k fuel ss part vs :
  LEN = 4 ^ Z.of_nat k -> LEN <= usize_MAX -> length ss = (4 ^ k)%nat ->
  (forall s b v, s ∈ ss -> rooted b (data s) -> p b tt = Some (Ok (v, tt)) -> view b (data s) /\ P s v) ->
  rooted part (perfect Node k (map data ss)) ->
  @parametrised_deserialiser ProofTree owned_deserialiser B fuel p LEN part tt = Some (Ok (vs, tt)) ->
  view part (perfect Node k (map data ss)) /\ Forall2 P ss vs.
Proof.
  intros -> Hmax Hn Hel Hr Hp. change (many_rec p fuel k 0 part = Some (Ok (vs, tt))) in Hp.
  assert (Hb : Z.of_nat (4 ^ k) <= usize_MAX) by (rewrite Nat2Z.inj_pow; exact Hmax).
  set (Q := fun (_ : nat) (U : Tree (list Z)) (r : list B) => exists v, r = [v] /\ (forall s, s ∈ ss -> data s = U -> P s v)).
  destruct (rec_rooted (many_rec p) (4 ^ k) (many_rec_step p (4 ^ k) Hb) (many_rec_none p) Q k fuel 0 (map data ss) part vs)
    as [Hv (pieces & -> & Hall)]; [rewrite length_map; exact Hn | lia | | exact Hr | exact Hp|].
  - intros i U fu b r HU Hrb Hrec. apply list_elem_of_fmap in HU as (s & -> & Hs). apply many_rec_leaf in Hrec as (v & Hv & ->).
    split; [exact (proj1 (Hel s b v Hs Hrb Hv))|]. exists v. split; [reflexivity|]. intros s' Hs' Hd. rewrite <- Hd in Hrb.
    exact (proj2 (Hel s' b v Hs' Hrb Hv)).
  - split; [exact Hv|]. assert (Hall' : forall l, (forall s, s ∈ l -> s ∈ ss) -> forall i pieces, all_from Q i (map data l) pieces -> Forall2 P l (concat pieces)).
    { clear. induction l as [|s l IH]; intros Hin i [|r pieces]; cbn [map all_from]; [constructor | intros [] | intros []|].
      intros [(v & -> & Hv) Hall]. cbn. constructor; [apply Hv; [apply Hin; left | reflexivity]|].
      apply (IH ltac:(intros x Hx; apply Hin; right; exact Hx) (S i)), Hall. }
    exact (Hall' ss (fun _ Hs => Hs) 0%nat pieces Hall).
Qed.

(** The proof of an execution gives what it accessed of the initial state. *)
Lemma alloc_shown fuel : (forall L g, layout_ok L -> proof_wf L g -> typed L (source_state L g) -> (fuel_for L <= fuel)%nat ->
    exists v, reveals L g (source_state L g) v /\ found (merkle_of L) (alloc fuel L) g v) /\
  (forall fs gs, fields_ok fs -> fields_wf fs gs -> fields_typed fs (source_fields fs gs) -> (fields_fuel fs <= fuel)%nat ->
    exists vs, fields_reveal fs gs (source_fields fs gs) vs /\
      (forall parts, Forall2 shown (fields_merkle fs gs) parts -> fields_parsed fuel fs parts vs)).
Proof.
  assert (Hel : forall (T : Layout) (gs : list (Allocated PG T)), layout_ok T -> Forall (proof_wf T) gs -> Forall (typed T) (map (source_state T) gs) ->
    (forall g, proof_wf T g -> typed T (source_state T g) -> exists v, reveals T g (source_state T g) v /\ found (merkle_of T) (alloc fuel T) g v) ->
    exists vs : list (Allocated V T), Forall3 (reveals T) gs (map (source_state T) gs) vs /\ Forall2 (found (merkle_of T) (alloc fuel T)) gs vs).
  { intros T gs Hok Hg Ht IH. apply (Forall_of_map (source_state T) (typed T) gs) in Ht. rewrite Forall_forall in Hg, Ht.
    destruct (elements_found (fun g v => reveals T g (source_state T g) v) (merkle_of T) (alloc fuel T) gs) as (vs & HP & Hvs).
    - intros g Hgi. apply IH; [apply Hg, Hgi | apply Ht, Hgi].
    - exists vs. split; [apply Forall3_of_map, HP | exact Hvs]. }
  apply Layout_Fields_ind.
  - intros T g _ [Hl _] Ht _. eexists. split; [reflexivity|]. intros part Hs. exact (cells_alloc_shown T 1 _ _ part Ht Hl Hs).
  - intros T LEN g _ [Hl _] Ht _. eexists. split; [reflexivity|]. intros part Hs. exact (cells_alloc_shown T LEN _ _ part Ht Hl Hs).
  - intros LEN g [HL Hmax] Hl _ Hf. eexists. split; [exact (revealed_pages_reveal LEN _ g HL Hl)|]. intros part Hs.
    refine (dyn_alloc_shown fuel LEN _ g part HL Hmax _ Hl Hs). etransitivity; [apply enough_above | exact Hf].
  - intros T g _ [Hl Hg] Ht _. exists (map (revealed (existsb access g)) (map source g)). split.
    + assert (Hm : forall a (l : list (list Val)), Forall2 (fun s v => v = revealed a s) l (map (revealed a) l))
        by (intros a l; induction l; cbn; constructor; [reflexivity | assumption]). exact (Hm _ _).
    + intros part Hs. apply (csr_values_shown T _ (map source g) part Ht); [|rewrite length_map; exact Hl | exact Hs].
      apply Forall_map. eapply Forall_impl; [exact Hg|]. intros x [Hx _]. exact Hx.
  - intros fs IH g Hok Hg Ht Hf. destruct (IH g Hok Hg Ht Hf) as (vs & Hr & Hvs). exists vs. split; [exact Hr|]. intros part Hs.
    change (merkle_of (Struct fs) g) with (merkle_node (fields_merkle fs g)) in Hs.
    destruct (branches_shown _ _ Hs) as (bs & ph & Hbs & Hsh & _). apply into_branches_hash in Hbs.
    rewrite Forall2_length_fields in Hbs. apply struct_some. eauto.
  - intros LEN T IH g Hok [Hl Hg] Ht Hf. destruct (Hel T g Hok Hg Ht (fun x Hx Hy => IH x Hok Hx Hy Hf)) as (vs & Hr & Hvs).
    exists vs. split; [exact Hr|]. intros part Hs. cbn [merkle_of] in Hs.
    destruct (branches_shown _ _ Hs) as (bs & ph & Hbs & Hsh & _). apply into_branches_hash in Hbs.
    assert (Hn : length (map (merkle_of T) g) = LEN) by (rewrite length_map; exact Hl). rewrite Hn in Hbs.
    apply (array_alloc_some fuel LEN T part vs). exists bs. split; [exact Hbs | exact (elements_shown _ _ _ _ _ Hvs Hsh)].
  - intros LEN T IH g [[HL Hmax] Hok] [Hl Hg] Ht Hf. cbn [fuel_for] in Hf. set (k := depth LEN) in *. pose proof (enough_above k) as Hk.
    destruct (Hel T g Hok Hg Ht (fun x Hx Hy => IH x Hok Hx Hy ltac:(lia))) as (vs & Hr & Hvs).
    exists vs. split; [exact Hr|]. intros part Hs. cbn [merkle_of] in Hs. fold k in Hs.
    exact (many_alloc_shown (alloc fuel T) (merkle_of T) LEN k fuel g vs part HL Hmax ltac:(lia) (pow4_length LEN _ _ HL Hl) Hvs Hs).
  - intros gs _ _ _ _. exists tt. split; [exact I|]. intros parts Hs. inversion Hs. reflexivity.
  - intros L IHL fs IHfs [g gs] [HokL Hok] [HgL Hg] [HtL Ht] Hf. cbn [fields_fuel] in Hf.
    destruct (IHL g HokL HgL HtL ltac:(lia)) as (v & Hr & Hv). destruct (IHfs gs Hok Hg Ht ltac:(lia)) as (vs & Hrs & Hvs).
    exists (v, vs). split; [split; assumption|]. intros parts Hs.
    change (fields_merkle (Field L fs) (g, gs)) with (merkle_of L g :: fields_merkle fs gs) in Hs.
    inversion Hs as [|? p ? ps Hp Hps]; subst. split; [exact (Hv p Hp) | exact (Hvs ps Hps)].
Qed.

(** A proof with the root hash of a state is a view of it, and gives parts of it. *)
Lemma alloc_rooted fuel : (forall L s part v, layout_ok L -> sized L s -> typed L s -> rooted part (commit L s) ->
    alloc fuel L part tt = Some (Ok (v, tt)) -> view part (commit L s) /\ part_of_state L s s v) /\
  (forall fs ss parts vs, fields_ok fs -> fields_sized fs ss -> fields_typed fs ss -> Forall2 rooted parts (commit_fields fs ss) ->
    fields_parsed fuel fs parts vs -> Forall2 view parts (commit_fields fs ss) /\ part_of_fields fs ss ss vs).
Proof.
  apply Layout_Fields_ind.
  - intros T s part v _ Hl Ht Hr Hp. exact (cells_alloc_rooted T 1 s part v Ht Hl Hr Hp).
  - intros T LEN s part v _ Hl Ht Hr Hp. exact (cells_alloc_rooted T LEN s part v Ht Hl Hr Hp).
  - intros LEN s part v [HL Hmax] Hl _ Hr Hp. exact (dyn_alloc_rooted fuel LEN _ s part v HL Hmax Hl Hr Hp).
  - intros T s part v _ [Hl Hs] Ht Hr Hp. exact (csr_values_rooted T s part v Ht Hs Hl Hr Hp).
  - intros fs IH s part v Hok Hs Ht Hr Hp. apply struct_some in Hp as (bs & Hbs & Hps).
    change (commit (Struct fs) s) with (Node (commit_fields fs s)) in *.
    assert (Hn : forall fs (s : AllocatedFields O fs), length (commit_fields fs s) = fields_len fs).
    { clear. induction fs as [|L fs IH]; intros s; [reflexivity|]. destruct s as [s ss]. cbn. f_equal. apply IH. }
    destruct (branches_rooted _ _ _ _ Hr Hbs (Hn fs s)) as [Hrs Hview]. destruct (IH s bs v Hok Hs Ht Hrs Hps) as [Hvs Hpart].
    split; [exact (Hview Hvs) | exact Hpart].
  - intros LEN T IH s part v Hok [Hl Hs] Ht Hr Hp. apply (array_alloc_some fuel LEN T part v) in Hp as (bs & Hbs & Hps).
    change (commit (ArrayOf LEN T) s) with (Node (map (commit T) s)) in *.
    assert (Hn : length (map (commit T) s) = LEN) by (rewrite length_map; exact Hl).
    destruct (branches_rooted _ _ _ _ Hr Hbs Hn) as [Hrs Hview]. cbn [sized typed] in Hs, Ht. rewrite Forall_forall in Hs, Ht.
    destruct (elements_rooted (fun s v => part_of_state T s s v) (commit T) (alloc fuel T) s bs v Hrs Hps) as [Hvs Hpart].
    + intros x b y Hx. apply (IH x b y Hok); [apply Hs, Hx | apply Ht, Hx].
    + split; [exact (Hview Hvs) | exact (Forall3_same _ _ _ Hpart)].
  - intros LEN T IH s part v [[HL Hmax] Hok] [Hl Hs] Ht Hr Hp. cbn [sized typed] in Hs, Ht. rewrite Forall_forall in Hs, Ht.
    destruct (many_alloc_rooted (fun s v => part_of_state T s s v) (alloc fuel T) (commit T) LEN (depth LEN) fuel s part v HL Hmax (pow4_length LEN _ _ HL Hl)) as [Hv Hpart];
      [|exact Hr | exact Hp | split; [exact Hv | exact (Forall3_same _ _ _ Hpart)]].
    intros x b y Hx. apply (IH x b y Hok); [apply Hs, Hx | apply Ht, Hx].
  - intros ss parts vs _ _ _ Hr _. inversion Hr. split; [constructor | exact I].
  - intros L IHL fs IHfs [s ss] parts [v vs] [HokL Hok] [HsL Hs] [HtL Ht] Hr Hp.
    change (commit_fields (Field L fs) (s, ss)) with (commit L s :: commit_fields fs ss) in *.
    inversion Hr as [|p ? ps ? Hrp Hrps]; subst. destruct Hp as [Hp Hps].
    destruct (IHL s p v HokL HsL HtL Hrp Hp) as [Hv Hpart]. destruct (IHfs ss ps vs Hok Hs Ht Hrps Hps) as [Hvs Hparts].
    split; [constructor; assumption | split; assumption].
Qed.
End States.
