(* ===== verification/PartialHashSpec.v ===== *)
(** * The hash of a partial state

    Whatever hash a verifier computes of a part of a state, with a view of the data of
    the initial one, is that of the state; and what it cannot hash is unchanged. *)

From stdpp Require Import gmap.
From S2P Require Import Prelude.
From S2P Require Import Hash.
From S2P Require Import MerkleProof.
From S2P Require Import Merkle.
From S2P Require Import MerkleSpec.
From S2P Require Import Backend.
From S2P Require Import BackendSpec.
From S2P Require Import DynBackendSpec.
From S2P Require Import Deserialiser.
From S2P Require Import Layouts.
From S2P Require Import LayoutsSpec.
From S2P Require Import ProofRun.
From S2P Require Import EventsSpec.
From S2P Require Import Revealed.
From S2P Require Import AllocatedSpec.

Section Sound.
Context `{Blake2bLaws}.

(** A result about data that was [T0] and is [T]. *)
Definition sound (r : result Hash PartialHashError) (T0 T : Tree (list Z)) : Prop :=
  match r with
  | Ok hash => hash = data_root T
  | Err PotentiallyRecoverable => data_root T = data_root T0
  | Err _ => True
  end.

(** The root of a node, by those of its children. *)
Lemma data_root_node Ts : data_root (Node Ts) = hash_node (map data_root Ts).
Proof. reflexivity. Qed.

Lemma branches_viewed n part bs ph T0s : view part (Node T0s) -> into_branches_with_hash n part = Ok (bs, ph) -> length T0s = n ->
  Forall2 view bs T0s /\ (forall hash, ph = Some hash -> hash = data_root (Node T0s)).
Proof.
  intros Hv Hb Hn. assert (Habs : forall m (Us : list (Tree (list Z))), length Us = m -> Forall2 view (replicate m PartAbsent) Us).
  { intros m Us <-. induction Us; cbn; constructor; [exact I | assumption]. }
  destruct part as [|p]; [cbn in Hb; injection Hb as <- <-; split; [exact (Habs _ _ Hn) | discriminate]|]. inversion Hv; subst.
  - cbn in Hb. injection Hb as <- <-. split; [exact (Habs _ _ eq_refl) | intros hash [= <-]; reflexivity].
  - cbn in Hb. destruct (length ps =? length T0s)%nat; [|discriminate]. injection Hb as <- <-. split; [|discriminate].
    match goal with Hp : Forall2 pview ps T0s |- _ => clear -Hp; induction Hp; cbn; constructor; assumption end.
Qed.

Lemma expected_ok_inv rs : forall hs, expected_hashes true rs = Ok hs -> rs = map Ok hs.
Proof.
  induction rs as [|[h|e] rs IH]; intros hs; cbn.
  - intros [= <-]. reflexivity.
  - destruct (expected_hashes true rs) as [hs'|]; [|discriminate]. cbn. intros [= <-]. cbn. f_equal. apply IH. reflexivity.
  - destruct e; discriminate.
Qed.
Lemma expected_err_inv rs : forall hs, expected_hashes false rs = Ok hs -> Forall (fun r => r = Err PotentiallyRecoverable) rs.
Proof.
  induction rs as [|[h|e] rs IH]; intros hs; cbn; [constructor | discriminate|].
  destruct e; try discriminate. intros Hr. constructor; [reflexivity | exact (IH hs Hr)].
Qed.

Lemma combine_sound rs ph T0s Ts : Forall3 sound rs T0s Ts -> (forall hash, ph = Some hash -> hash = data_root (Node T0s)) ->
  sound (combine_partial_hashes rs ph) (Node T0s) (Node Ts).
Proof.
  intros Hs Hph. destruct rs as [|[h|e] rs].
  - inversion Hs; subst. cbn. rewrite combine_ok. reflexivity.
  - cbn [combine_partial_hashes]. destruct (expected_hashes true (Ok h :: rs)) as [hs|] eqn:He; [|cbn; destruct e; try exact I].
    + cbn [result_bind]. rewrite combine_ok. cbn [result_map_err sound]. rewrite data_root_node. unfold hash_node. do 4 f_equal.
      apply expected_ok_inv in He. rewrite He in Hs. clear -Hs. remember (map Ok hs) as oks eqn:Hrs. revert hs Hrs.
      induction Hs as [|r T0 T rs T0s Ts Hr _ IH]; intros [|h hs] Hrs; try discriminate Hrs; [reflexivity|].
      injection Hrs as -> ->. cbn in Hr |- *. f_equal; [exact Hr | apply IH; reflexivity].
    + clear -He. exfalso. revert He. assert (Hne : forall l, expected_hashes true l <> Err PotentiallyRecoverable).
      { induction l as [|[x|[]] l IH]; cbn; try discriminate. destruct (expected_hashes true l) as [|[]]; cbn; congruence. }
      exact (Hne _).
  - destruct e; try exact I. cbn [combine_partial_hashes].
    destruct (expected_hashes false (Err PotentiallyRecoverable :: rs)) as [hs|e] eqn:He.
    + cbn [result_bind]. apply expected_err_inv in He. assert (Heq : data_root (Node Ts) = data_root (Node T0s)).
      { rewrite !data_root_node. f_equal. revert Hs He. generalize (Err PotentiallyRecoverable :: rs). clear. intros all Hs He.
        induction Hs as [|r T0 T all T0s Ts Hr _ IH]; [reflexivity|].
        apply Forall_cons in He as [-> He]. cbn in Hr |- *. f_equal; [exact Hr | apply IH, He]. }
      destruct ph as [hash|]; [|exact Heq]. cbn. rewrite (Hph hash eq_refl). symmetry. exact Heq.
    + cbn [result_bind]. assert (Hne : forall l, expected_hashes false l <> Err PotentiallyRecoverable).
      { induction l as [|[x|[]] l IH]; cbn; try discriminate. exact IH. }
      destruct e; try exact I. destruct (Hne _ He).
Qed.

(** A leaf whose data is not present. *)
Lemma leaf_sound part data0 data : view part (Leaf data0) -> data = data0 -> sound (partial_hash_leaf part) (Leaf data0) (Leaf data).
Proof.
  intros Hv ->. destruct part as [|p]; [reflexivity|]. inversion Hv; subst; cbn; [reflexivity|]. rewrite blake2b_hash_bytes_ok. reflexivity.
Qed.

(** ** Long arrays *)
Section Arrays.
Context {St : Type} (leaf : Z -> ProofTree -> St -> outcome (result Hash PartialHashError * St) PartialHashError) (u : Z) (cur : nat -> St).

(** The hash of a leaf is sound. *)
Definition leaf_is_sound (i : nat) (T0 T : Tree (list Z)) : Prop :=
  forall part r st', leaf (u * Z.of_nat i) part (cur i) = Some (Ok (r, st')) -> view part T0 -> sound r T0 T /\ st' = cur (S i).

Lemma is_branching_some part : is_branching part = true -> into_branches_with_hash MERKLE_ARITY part = Ok (branches_of part).
Proof. unfold is_branching, branches_of. destruct (into_branches_with_hash MERKLE_ARITY part); [reflexivity | discriminate]. Qed.

Lemma eval_sound k : forall i T0s Ts part r st', length T0s = (4 ^ k)%nat -> length Ts = (4 ^ k)%nat -> all_from leaf_is_sound i T0s Ts ->
  good k part = true -> view part (perfect Node k T0s) -> eval leaf u k (u * Z.of_nat i) part (cur i) = Some (Ok (r, st')) ->
  sound r (perfect Node k T0s) (perfect Node k Ts) /\ st' = cur (i + 4 ^ k)%nat.
Proof.
  induction k as [|k IH]; intros i T0s Ts part r st' Hl0 Hl Hall Hg Hv He.
  - destruct T0s as [|T0 [|? ?]]; try discriminate Hl0. destruct Ts as [|T [|? ?]]; try discriminate Hl. destruct Hall as [Hleaf _].
    destruct (Hleaf part r st' He Hv) as [Hs ->]. split; [exact Hs | f_equal; cbn; lia].
  - destruct (four_quarters k T0s Hl0) as (a0 & b0 & c0 & d0 & -> & Hc0 & Ha0 & Hb0 & Hcc0 & Hd0).
    destruct (proj1 (all_from_four _ (4 ^ k) i a0 b0 c0 d0 Ts Ha0 Hb0 Hcc0) Hall) as (a & b & c & d & -> & Pa & Pb & Pc & Pd).
    assert (Hlen : forall j l0 l, all_from leaf_is_sound j l0 l -> length l = length l0) by (intros j l0 l Hj; apply all_from_lookup in Hj; apply Hj).
    pose proof (Hlen _ _ _ Pa) as Ha. pose proof (Hlen _ _ _ Pb) as Hb. pose proof (Hlen _ _ _ Pc) as Hcc. pose proof (Hlen _ _ _ Pd) as Hd.
    assert (Hc : chunks (4 ^ k) (a ++ b ++ c ++ d) = [a; b; c; d]).
    { pose proof (pow4_pos k). rewrite !chunks_app by lia. rewrite chunks_short; [reflexivity | intros ->; cbn in Hd; lia | lia]. }
    cbn [good] in Hg. apply andb_true_iff in Hg as [Hbr Hg]. apply is_branching_some in Hbr.
    destruct (branches_of_four part) as (b1 & b2 & b3 & b4 & ph & Hbs). rewrite Hbs in Hbr, Hg. cbn [fst forallb] in Hg.
    cbn [perfect] in Hv |- *. rewrite Hc0 in Hv |- *. rewrite Hc. cbn [map] in Hv |- *.
    destruct (branches_viewed _ _ _ _ _ Hv Hbr eq_refl) as [Hvs Hph].
    inversion Hvs as [|? ? ? ? V1 Hv1]; subst. inversion Hv1 as [|? ? ? ? V2 Hv2]; subst.
    inversion Hv2 as [|? ? ? ? V3 Hv3]; subst. inversion Hv3 as [|? ? ? ? V4 _]; subst.
    rewrite !andb_true_iff in Hg. destruct Hg as (G1 & G2 & G3 & G4 & _).
    rewrite eval_step, Hbs in He. cbn [fst snd eval_all] in He.
    assert (Hpow : forall j, u * Z.of_nat j + u * 4 ^ Z.of_nat k = u * Z.of_nat (j + 4 ^ k)).
    { intros j. rewrite Nat2Z.inj_add, Nat2Z.inj_pow. change (Z.of_nat 4) with 4. lia. }
    apply obind_some in He as ([rs st] & He & [= <- <-]).
    apply obind_some in He as ([r1 st1] & E1 & He). destruct (IH i a0 a b1 r1 st1 Ha0 ltac:(congruence) Pa G1 V1 E1) as [S1 ->].
    apply obind_some in He as ([rs1 st1'] & He & [= <- <-]). rewrite Hpow in He.
    apply obind_some in He as ([r2 st2] & E2 & He). destruct (IH _ b0 b b2 r2 st2 Hb0 ltac:(congruence) Pb G2 V2 E2) as [S2 ->].
    apply obind_some in He as ([rs2 st2'] & He & [= <- <-]). rewrite Hpow in He.
    replace (i + 4 ^ k + 4 ^ k)%nat with (i + 2 * 4 ^ k)%nat in He by lia.
    apply obind_some in He as ([r3 st3] & E3 & He). destruct (IH _ c0 c b3 r3 st3 Hcc0 ltac:(congruence) Pc G3 V3 E3) as [S3 ->].
    apply obind_some in He as ([rs3 st3'] & He & [= <- <-]). rewrite Hpow in He.
    replace (i + 2 * 4 ^ k + 4 ^ k)%nat with (i + 3 * 4 ^ k)%nat in He by lia.
    apply obind_some in He as ([r4 st4] & E4 & He). destruct (IH _ d0 d b4 r4 st4 Hd0 ltac:(congruence) Pd G4 V4 E4) as [S4 ->].
    cbn [obind] in He. injection He as <- <-.
    split; [|f_equal; cbn; lia]. apply combine_sound; [repeat (constructor; [assumption|]); constructor | exact Hph].
Qed.
End Arrays.
End Sound.

(** ** The whole state *)
Section States.
Context `{Blake2bLaws, Serde, RangeSetLaws}.
Notation O := (owned Val).
Notation V := (verifier Val).

Lemma complete_bytes LEN s : length s = LEN -> complete_region_bytes LEN s = cells_bytes s.
Proof.
  intros Hl. unfold complete_region_bytes, cells_bytes. destruct (Nat.eqb_spec LEN 1) as [->|]; [|reflexivity].
  destruct s as [|v [|v' s]]; try discriminate Hl. cbn. rewrite app_nil_r. reflexivity.
Qed.
Lemma cells_sound LEN s0 s v part : length s = LEN -> part_of s0 s v -> view part (Leaf (cells_bytes s0)) ->
  sound (cells_partial_hash LEN v part) (Leaf (cells_bytes s0)) (Leaf (cells_bytes s)).
Proof.
  intros Hl Hp Hv. unfold cells_partial_hash. pose proof (get_partial_region_part s0 s v Hp) as Hg.
  destruct (Verifier.get_partial_region v) as [values| |]; [|subst s; apply (leaf_sound _ _ _ Hv); reflexivity | exact I].
  subst values. rewrite blake2b_hash_bytes_ok, complete_bytes by exact Hl. reflexivity.
Qed.

Lemma owned_cells cells0 cells vs xs : Forall3 part_of cells0 cells vs -> Forall (fun c => length c = 1%nat) cells ->
  collect_results owned_cell_try_from vs = Ok xs -> map (fun x => [x]) xs = cells.
Proof.
  intros Hp Hone. revert xs. induction Hp as [|c0 c v cells0 cells vs Hv _ IH]; intros xs; [intros [= <-]; reflexivity|].
  apply Forall_cons in Hone as [Hc Hone]. cbn. destruct v as [|[|[x|] [|? ?]]]; try discriminate. cbn.
  destruct (collect_results owned_cell_try_from vs) as [xs'|] eqn:Hx; [|discriminate]. cbn. intros [= <-]. cbn. f_equal; [|apply IH; [exact Hone | reflexivity]].
  destruct Hv as [_ Hv]. specialize (Hv 0%nat x eq_refl). destruct c as [|y [|? ?]]; try discriminate Hc. cbn in Hv. congruence.
Qed.
Lemma csr_values_sound s0 s v part r : Forall (fun c => length c = 1%nat) s -> Forall3 part_of s0 s v -> s = s0 ->
  view part (Leaf (concat (map cells_bytes s0))) -> csr_values_partial_hash v part = Some r ->
  sound r (Leaf (concat (map cells_bytes s0))) (Leaf (concat (map cells_bytes s))).
Proof.
  intros Hone Hp Hk Hv. unfold csr_values_partial_hash. destruct (collect_results owned_cell_try_from v) as [xs|e] eqn:Hx.
  - rewrite (owned_cells s0 s v xs Hp Hone Hx), (csr_values_hash_view (M := owned Val) (fun s => s) owned_serialise_bytes) by exact Hone.
    intros [= <-]. cbn. rewrite map_id. reflexivity.
  - intros [= <-]. apply (leaf_sound _ _ _ Hv). rewrite Hk. reflexivity.
Qed.

Lemma final_hash (r : result Hash PartialHashError) T0 T : ((exists h, r = Ok h) \/ r = Err PotentiallyRecoverable -> sound r T0 T) -> sound r T0 T.
Proof. intros Hs. destruct r as [h|[]]; try exact I; apply Hs; eauto. Qed.

Lemma dyn_cells_sound fuel LEN k s0 s v part r : LEN = LEAF_SIZE * 4 ^ Z.of_nat k -> LEN <= usize_MAX ->
  Z.of_nat (length s0) = LEN -> Z.of_nat (length s) = LEN -> dyn_part_of s0 s v ->
  view part (perfect Node k (map Leaf (pages s0))) -> dyn_cells_partial_hash fuel LEN v part = Some r ->
  sound r (perfect Node k (map Leaf (pages s0))) (perfect Node k (map Leaf (pages s))).
Proof.
  intros HL Hmax Hl0 Hl Hp Hv He. apply final_hash. intros Hr. unfold dyn_cells_partial_hash in He. rewrite HL in He.
  assert (Hspan : forall j, (LEAF_SIZE * 4 ^ Z.of_nat j <=? LEAF_SIZE) = (j =? 0)%nat).
  { intros [|j]; [reflexivity|]. cbn [Nat.eqb]. rewrite Nat2Z.inj_succ, Z.pow_succ_r by lia.
    pose proof (Z.pow_pos_nonneg 4 (Z.of_nat j) ltac:(lia) ltac:(lia)). rewrite leaf_size_eq. lia. }
  assert (Herr : forall start p st e, page_leaf v start p st = Some (Err e) -> e <> PotentiallyRecoverable).
  { intros start p st e. unfold page_leaf. destruct (get_partial_page v _); [rewrite blake2b_hash_bytes_ok | |]; intros [=]; subst e; discriminate. }
  destruct (events_hash_inv _ (page_leaf v) LEAF_SIZE ltac:(rewrite leaf_size_eq; lia) Hspan Herr k part tt fuel r ltac:(lia) He Hr) as (Hg & st' & He').
  destruct (pages_length LEN k s0 HL Hl0) as [Hn0 _]. destruct (pages_length LEN k s HL Hl) as [Hn _].
  refine (proj1 (eval_sound (page_leaf v) LEAF_SIZE (fun _ => tt) k 0 (map Leaf (pages s0)) (map Leaf (pages s)) part r st' _ _ _ Hg Hv He'));
    [rewrite length_map; assumption.. |].
  apply all_from_lookup. rewrite !length_map. split; [congruence|]. intros i T0 T HT0 HT p q st Hleaf Hvp. cbn [Nat.add] in *.
  rewrite list_lookup_fmap in HT0. rewrite list_lookup_fmap in HT.
  destruct (pages s0 !! i) as [d0|] eqn:Hd0; [|discriminate]. destruct (pages s !! i) as [d|] eqn:Hd; [|discriminate].
  injection HT0 as <-. injection HT as <-. destruct (page_fits LEN k _ i d0 HL Hl0 Hd0) as [Hfit Hi0]. destruct (page_fits LEN k _ i d HL Hl Hd) as [_ Hi].
  rewrite pages_lookup in Hd0 by exact Hi0. rewrite pages_lookup in Hd by exact Hi. injection Hd0 as <-. injection Hd as <-.
  unfold page_leaf in Hleaf. destruct (page_id_aligned (Z.of_nat i) 0 ltac:(lia)) as [Hid _]. rewrite Z.add_0_r in Hid.
  rewrite leaf_size_eq, Hid in Hleaf.
  pose proof (get_partial_page_part s0 s v (Z.of_nat i) Hp ltac:(lia) ltac:(lia) ltac:(lia)) as Hpage.
  destruct (get_partial_page v (4096 * Z.of_nat i)) as [data| |].
  - rewrite blake2b_hash_bytes_ok in Hleaf. injection Hleaf as <- <-. subst data. split; reflexivity.
  - injection Hleaf as <- <-. split; [exact (leaf_sound _ _ _ Hvp Hpage) | reflexivity].
  - discriminate Hleaf.
Qed.

Lemma many_sound {A B} (element_hash : A -> ProofTree -> outcome Hash PartialHashError) (data : B -> Tree (list Z)) fuel LEN k ss0 ss vs part r :
  LEN = 4 ^ Z.of_nat k -> LEN <= usize_MAX -> length ss0 = (4 ^ k)%nat -> length ss = (4 ^ k)%nat ->
  (forall i s0 s v p r, ss0 !! i = Some s0 -> ss !! i = Some s -> vs !! i = Some v -> view p (data s0) -> element_hash v p = Some r -> sound r (data s0) (data s)) ->
  view part (perfect Node k (map data ss0)) ->
  events_hash (fun length => length =? 1) (element_leaf element_hash) fuel LEN part vs = Some r ->
  sound r (perfect Node k (map data ss0)) (perfect Node k (map data ss)).
Proof.
  intros HL Hmax Hl0 Hl Hel Hv He. apply final_hash. intros Hr. replace LEN with (1 * 4 ^ Z.of_nat k) in * by lia.
  assert (Hspan : forall j, (1 * 4 ^ Z.of_nat j =? 1) = (j =? 0)%nat).
  { intros [|j]; [reflexivity|]. cbn [Nat.eqb]. rewrite Nat2Z.inj_succ, Z.pow_succ_r by lia.
    pose proof (Z.pow_pos_nonneg 4 (Z.of_nat j) ltac:(lia) ltac:(lia)). lia. }
  assert (Herr : forall start p st e, element_leaf element_hash start p st = Some (Err e) -> e <> PotentiallyRecoverable).
  { intros start p [|a st] e; cbn; [intros [= <-]; discriminate|]. destruct (element_hash a p); intros He'; discriminate He'. }
  destruct (events_hash_inv _ (element_leaf element_hash) 1 ltac:(lia) Hspan Herr k part vs fuel r ltac:(lia) He Hr) as (Hg & st' & He').
  refine (proj1 (eval_sound (element_leaf element_hash) 1 (fun i => drop i vs) k 0 (map data ss0) (map data ss) part r st' _ _ _ Hg Hv He'));
    [rewrite length_map; assumption.. |].
  apply all_from_lookup. rewrite !length_map. split; [congruence|]. intros i T0 T HT0 HT p q st Hleaf Hvp. cbn [Nat.add] in *.
  rewrite list_lookup_fmap in HT0. rewrite list_lookup_fmap in HT.
  destruct (ss0 !! i) as [s0|] eqn:Hs0; [|discriminate]. destruct (ss !! i) as [s|] eqn:Hs; [|discriminate].
  injection HT0 as <-. injection HT as <-. destruct (vs !! i) as [v|] eqn:Hvi.
  - rewrite (drop_S vs v i Hvi) in Hleaf. cbn [element_leaf] in Hleaf. destruct (element_hash v p) as [h|] eqn:Hh; [|discriminate].
    injection Hleaf as <- <-. split; [exact (Hel i s0 s v p h Hs0 Hs Hvi Hvp Hh) | reflexivity].
  - rewrite (drop_ge vs i) in Hleaf by (apply lookup_ge_None, Hvi). discriminate Hleaf.
Qed.

Lemma zip_sound {A B} (element_hash : A -> ProofTree -> outcome Hash PartialHashError) (data : B -> Tree (list Z)) vs : forall ss0 ss bs rs,
  length ss0 = length vs -> length ss = length vs -> Forall2 view bs (map data ss0) ->
  (forall i s0 s v p r, ss0 !! i = Some s0 -> ss !! i = Some s -> vs !! i = Some v -> view p (data s0) -> element_hash v p = Some r -> sound r (data s0) (data s)) ->
  zip_hashes element_hash vs bs = Some rs -> Forall3 sound rs (map data ss0) (map data ss).
Proof.
  induction vs as [|v vs IH]; intros [|s0 ss0] [|s ss] bs rs Hl0 Hl Hv Hel; try discriminate Hl0; try discriminate Hl.
  - cbn. intros [= <-]. constructor.
  - cbn [map] in Hv. inversion Hv as [|b ? bs' ? Hb Hv']; subst. cbn [zip_hashes].
    destruct (element_hash v b) as [r|] eqn:Hr; [|discriminate]. destruct (zip_hashes element_hash vs bs') as [rs'|] eqn:Hz; [|discriminate].
    cbn. intros [= <-]. constructor; [exact (Hel 0%nat s0 s v b r eq_refl eq_refl eq_refl Hb Hr)|].
    apply (IH ss0 ss bs' rs'); [cbn in Hl0; lia | cbn in Hl; lia | exact Hv' | | exact Hz].
    intros i. exact (Hel (S i)).
Qed.

Lemma partial_hash_sound fuel : (forall L s0 s v part r, layout_ok L -> sized L s0 -> sized L s -> csrs_kept L s0 s -> part_of_state L s0 s v ->
    view part (commit L s0) -> partial_state_hash fuel L v part = Some r -> sound r (commit L s0) (commit L s)) /\
  (forall fs ss0 ss vs parts rs, fields_ok fs -> fields_sized fs ss0 -> fields_sized fs ss -> fields_csrs_kept fs ss0 ss -> part_of_fields fs ss0 ss vs ->
    Forall2 view parts (commit_fields fs ss0) -> fields_partial_hashes fuel fs vs parts = Some rs ->
    Forall3 sound rs (commit_fields fs ss0) (commit_fields fs ss)).
Proof.
  assert (Hel : forall (T : Layout) (ss0 ss : list (Allocated O T)) (vs : list (Allocated V T)), layout_ok T -> Forall (sized T) ss0 -> Forall (sized T) ss ->
    Forall2 (csrs_kept T) ss0 ss -> Forall3 (part_of_state T) ss0 ss vs ->
    (forall s0 s v part r, layout_ok T -> sized T s0 -> sized T s -> csrs_kept T s0 s -> part_of_state T s0 s v ->
      view part (commit T s0) -> partial_state_hash fuel T v part = Some r -> sound r (commit T s0) (commit T s)) ->
    forall i s0 s v p r, ss0 !! i = Some s0 -> ss !! i = Some s -> vs !! i = Some v -> view p (commit T s0) ->
      partial_state_hash fuel T v p = Some r -> sound r (commit T s0) (commit T s)).
  { intros T ss0 ss vs Hok Hi0s Hs Hk Hp IH i s0 s v p r Hi0 Hi Hvi. apply IH; [exact Hok | exact (Forall_lookup_1 _ _ _ _ Hi0s Hi0)
    | exact (Forall_lookup_1 _ _ _ _ Hs Hi) | exact (Forall2_lookup_lr _ _ _ _ _ _ Hk Hi0 Hi) | exact (Forall3_lookup_lmr _ _ _ _ i _ _ _ Hp Hi0 Hi Hvi)]. }
  apply Layout_Fields_ind.
  - intros T s0 s v part r _ _ Hl _ Hp Hv [= <-]. exact (cells_sound 1 s0 s v part Hl Hp Hv).
  - intros T LEN s0 s v part r _ _ Hl _ Hp Hv [= <-]. exact (cells_sound LEN s0 s v part Hl Hp Hv).
  - intros LEN s0 s v part r [HL Hmax] Hl0 Hl _ Hp Hv He. exact (dyn_cells_sound fuel LEN _ s0 s v part r HL Hmax Hl0 Hl Hp Hv He).
  - intros T s0 s v part r _ _ [_ Hone] Hk Hp Hv He. exact (csr_values_sound s0 s v part r Hone Hp Hk Hv He).
  - intros fs IH s0 s v part r Hok Hi0s Hs Hk Hp Hv He.
    change (partial_state_hash fuel (Struct fs) v part) with ('(branches, proof_hash) <-$ Some (into_branches_with_hash (fields_len fs) part) ;;
      match fields_partial_hashes fuel fs v branches with Some hashes => Some (combine_partial_hashes hashes proof_hash) | None => None end) in He.
    change (commit (Struct fs) s0) with (Node (commit_fields fs s0)) in *. change (commit (Struct fs) s) with (Node (commit_fields fs s)).
    assert (Hn : length (commit_fields fs s0) = fields_len fs).
    { clear. revert s0. induction fs as [|L fs IH]; intros s0; [reflexivity|]. destruct s0 as [s0 ss0]. cbn. f_equal. apply IH. }
    destruct (into_branches_with_hash (fields_len fs) part) as [[bs ph]|e] eqn:Hbs.
    + cbn [obind] in He. destruct (branches_viewed _ _ _ _ _ Hv Hbs Hn) as [Hvs Hph].
      destruct (fields_partial_hashes fuel fs v bs) as [rs|] eqn:Hrs; [|discriminate]. injection He as <-.
      apply combine_sound; [exact (IH s0 s v bs rs Hok Hi0s Hs Hk Hp Hvs Hrs) | exact Hph].
    + cbn in He. injection He as <-. destruct (into_branches_error _ _ _ Hbs) as [e' ->]. exact I.
  - intros LEN T IH s0 s v part r Hok [Hl0 Hi0s] [Hl Hs] Hk Hp Hv He.
    change (partial_state_hash fuel (ArrayOf LEN T) v part) with ('(branches, proof_hash) <-$ Some (into_branches_with_hash LEN part) ;;
      match zip_hashes (partial_state_hash fuel T) v branches with Some hashes => Some (combine_partial_hashes hashes proof_hash) | None => None end) in He.
    change (commit (ArrayOf LEN T) s0) with (Node (map (commit T) s0)) in *. change (commit (ArrayOf LEN T) s) with (Node (map (commit T) s)).
    assert (Hn : length (map (commit T) s0) = LEN) by (rewrite length_map; exact Hl0).
    destruct (into_branches_with_hash LEN part) as [[bs ph]|e] eqn:Hbs.
    + cbn [obind] in He. destruct (branches_viewed _ _ _ _ _ Hv Hbs Hn) as [Hvs Hph].
      destruct (zip_hashes (partial_state_hash fuel T) v bs) as [rs|] eqn:Hrs; [|discriminate]. injection He as <-.
      apply combine_sound; [|exact Hph]. pose proof (Forall3_length_lr _ _ _ _ Hp) as Hlv. pose proof (Forall3_length_lm _ _ _ _ Hp) as Hlm.
      apply (zip_sound (A := Allocated V T) (partial_state_hash fuel T) (commit T) v s0 s bs rs); [exact Hlv | exact (eq_trans (eq_sym Hlm) Hlv) | exact Hvs | | exact Hrs].
      exact (Hel T s0 s v Hok Hi0s Hs Hk Hp IH).
    + cbn in He. injection He as <-. destruct (into_branches_error _ _ _ Hbs) as [e' ->]. exact I.
  - intros LEN T IH s0 s v part r [[HL Hmax] Hok] [Hl0 Hi0s] [Hl Hs] Hk Hp Hv He.
    exact (many_sound (A := Allocated V T) (partial_state_hash fuel T) (commit T) fuel LEN (depth LEN) s0 s v part r HL Hmax
      (pow4_length LEN _ _ HL Hl0) (pow4_length LEN _ _ HL Hl) (Hel T s0 s v Hok Hi0s Hs Hk Hp IH) Hv He).
  - intros ss0 ss vs parts rs _ _ _ _ _ Hv He. inversion Hv; subst. injection He as <-. constructor.
  - intros L IHL fs IHfs [s0 ss0] [s ss] [v vs] parts rs [HokL Hok] [HiL Hi0s] [HsL Hs] [HkL Hk] [HpL Hp] Hv He.
    change (commit_fields (Field L fs) (s0, ss0)) with (commit L s0 :: commit_fields fs ss0) in *.
    change (commit_fields (Field L fs) (s, ss)) with (commit L s :: commit_fields fs ss).
    inversion Hv as [|p ? ps ? Hvp Hvps]; subst.
    change (fields_partial_hashes fuel (Field L fs) (v, vs) (p :: ps)) with (match partial_state_hash fuel L v p with
      | Some r => option_map (cons r) (fields_partial_hashes fuel fs vs ps) | None => None end) in He.
    destruct (partial_state_hash fuel L v p) as [r|] eqn:Hr; [|discriminate].
    destruct (fields_partial_hashes fuel fs vs ps) as [rs'|] eqn:Hrs; [|discriminate]. cbn in He. injection He as <-.
    constructor; [exact (IHL s0 s v p r HokL HiL HsL HkL HpL Hvp Hr) | exact (IHfs ss0 ss vs ps rs' Hok Hi0s Hs Hk Hp Hvps Hrs)].
Qed.
End States.
