(* ===== verification/ProofsSpec.v ===== *)
(** * Proofs of steps: completeness and soundness

    An honest proof of a step is accepted, and a proof that is accepted, of a step from
    a state with its initial hash, has the hash of the state after the step, or else a
    collision of the hash function is at hand.  Both are for steps that leave the
    control and status registers as they are; for the others, their leaf of a proof
    holds the final values, as the last theorems show. *)

From stdpp Require Import gmap.
From S2P Require Import Prelude.
From S2P Require Import Hash.
From S2P Require Import MerkleProof.
From S2P Require Import Merkle.
From S2P Require Import MerkleSpec.
From S2P Require Import Backend.
From S2P Require Import BackendSpec.
From S2P Require Import DynBackendSpec.
From S2P Require Import Deserialiser.
From S2P Require Import Layouts.
From S2P Require Import LayoutsSpec.
From S2P Require Import ProofRun.
From S2P Require Import EventsSpec.
From S2P Require Import Revealed.
From S2P Require Import AllocatedSpec.
From S2P Require Import AllocatedState.
From S2P Require Import PartialHashSpec.

(** ** The state in proof mode at the start *)
Section Start.
Context `{Serde}.

Lemma dyn_current_bind s : dyn_current (ProofGen.dyn_bind s) = s.
Proof. apply list_eq. intros i. unfold dyn_current. rewrite list_lookup_imap. cbn. rewrite lookup_empty. destruct (s !! i); reflexivity. Qed.

Lemma start_views : (forall L s, source_state L (start_proof L s) = s /\ current_state L (start_proof L s) = s) /\
  (forall fs ss, source_fields fs (start_proof_fields fs ss) = ss /\ current_fields fs (start_proof_fields fs ss) = ss).
Proof.
  assert (Hl : forall {A B} (f : A -> B) (g : B -> A) l, (forall a, g (f a) = a) -> map g (map f l) = l).
  { intros A B f g l Hf. rewrite map_map, (map_ext _ (fun x => x) Hf). apply map_id. }
  assert (Hc : forall s : list Val, current (ProofGen.bind s) = s) by (intros s; apply current_unwritten; reflexivity).
  apply Layout_Fields_ind.
  - intros T s. split; [reflexivity | apply Hc].
  - intros T LEN s. split; [reflexivity | apply Hc].
  - intros LEN s. split; [reflexivity | apply dyn_current_bind].
  - intros T s. split; [apply (Hl _ _ ProofGen.bind source s); reflexivity | apply (Hl _ _ ProofGen.bind current s), Hc].
  - intros fs IH s. apply IH.
  - intros LEN T IH s. split; [apply (Hl _ _ (start_proof T) (source_state T) s) | apply (Hl _ _ (start_proof T) (current_state T) s)]; intros a; apply IH.
  - intros LEN T IH s. split; [apply (Hl _ _ (start_proof T) (source_state T) s) | apply (Hl _ _ (start_proof T) (current_state T) s)]; intros a; apply IH.
  - intros ss. split; reflexivity.
  - intros L IHL fs IHfs [s ss]. destruct (IHL s) as [Hs Hc1], (IHfs ss) as [Hss Hc2]. split; cbn; f_equal; assumption.
Qed.
Lemma start_wf : (forall L s, sized L s -> proof_wf L (start_proof L s)) /\
  (forall fs ss, fields_sized fs ss -> fields_wf fs (start_proof_fields fs ss)).
Proof.
  apply Layout_Fields_ind.
  - intros T s Hl. split; [exact Hl | reflexivity].
  - intros T LEN s Hl. split; [exact Hl | reflexivity].
  - intros LEN s Hl. exact Hl.
  - intros T s [Hl Hs]. split; [cbn; rewrite length_map; exact Hl|]. apply Forall_map. eapply Forall_impl; [exact Hs|].
    intros c Hc. split; [exact Hc | reflexivity].
  - intros fs IH s Hs. exact (IH s Hs).
  - intros LEN T IH s [Hl Hs]. split; [cbn; rewrite length_map; exact Hl|]. apply Forall_map. eapply Forall_impl; [exact Hs | exact IH].
  - intros LEN T IH s [Hl Hs]. split; [cbn; rewrite length_map; exact Hl|]. apply Forall_map. eapply Forall_impl; [exact Hs | exact IH].
  - intros ss _. exact I.
  - intros L IHL fs IHfs [s ss] [Hs Hss]. split; [exact (IHL s Hs) | exact (IHfs ss Hss)].
Qed.
End Start.

Section Verification.
Context `{Blake2bLaws, SerdeLaws, RangeSetLaws}.
Notation O := (owned Val).
Notation PG := (proof_gen Val).

(** The proof of a run in proof mode. *)
Lemma to_proof_ok L (g : Allocated PG L) : layout_ok L -> proof_wf L g -> csrs_kept L (source_state L g) (current_state L g) ->
  to_proof L g = Some (Ok (mkProof (data_root (commit L (current_state L g))) (proof_tree (merkle_of L g)))).
Proof.
  intros Hok Hg Hk. unfold to_proof. rewrite (proj1 to_merkle_tree_ok L g Hok Hg Hk), obind_ok.
  rewrite to_merkle_proof_eq by apply merkle_valid. rewrite obind_ok, state_hash_proof by (exact Hok || apply proof_wf_sized, Hg). reflexivity.
Qed.
Lemma initial_hash_eq proof : initial_state_hash proof = Some (proof_root (partial_tree proof)).
Proof. unfold initial_state_hash. rewrite root_hash_eq. reflexivity. Qed.

(** C4: Completeness of proofs, for layouts whose vectors have a power of four of elements
    ([layout_ok]): when a step, a program of operations on unsigned addresses, succeeds from a
    state of the layout, leaving its control and status registers as they are, a proof is produced
    for it, which has the hashes of the states before and after the step, and verification accepts
    it.  For vectors of other lengths the code groups the elements of the tree and those of the
    proof in two different ways. *)
Theorem proof_complete L (step : Prog bool) s s' : layout_ok L -> sized L s -> typed L s -> prog_ok step ->
  run O L step s = Ok (true, s') -> csrs_kept L s s' ->
  exists proof enough_fuel, produce_proof L step s = Ok (Some proof) /\
    option_map Ok (initial_state_hash proof) = state_hash (M := O) L s /\
    Some (Ok (final_state_hash proof)) = state_hash (M := O) L s' /\
    (forall fuel, (enough_fuel <= fuel)%nat -> verify_proof fuel L step proof = Some (Ok tt)).
Proof.
  intros Hok Hs Ht Hp Hrun Hk. destruct (proj1 start_views L s) as [Hsrc Hcur]. rewrite <- Hcur in Hrun.
  destruct (run_lockstep L step (start_proof L s) true s' Hok (proj1 start_wf L s Hs) Hp Hrun) as (g & Hg & Hwf & Hc & Hsg & _ & Hv).
  rewrite Hsrc in Hsg. rewrite Hcur in Hv. assert (Hs' : sized L s') by (rewrite <- Hc; apply proof_wf_sized, Hwf).
  set (proof := mkProof (data_root (commit L s')) (proof_tree (merkle_of L g))).
  exists proof, (fuel_for L). split; [|split; [|split]].
  - unfold produce_proof. rewrite Hg. cbn [result_bind]. rewrite to_proof_ok by (assumption || congruence). rewrite Hc. reflexivity.
  - rewrite initial_hash_eq. cbn [partial_tree proof option_map]. rewrite proof_tree_root by apply merkle_valid.
    rewrite (proj1 merkle_root), Hsg. symmetry. apply state_hash_owned; assumption.
  - symmetry. apply state_hash_owned; assumption.
  - intros fuel Hf. unfold verify_proof. assert (Hshown : shown (merkle_of L g) (PartPresent (partial_tree proof))) by (left; reflexivity).
    destruct (proj1 (alloc_shown fuel) L g Hok Hwf ltac:(rewrite Hsg; exact Ht) Hf) as (v & Hr & Hfound).
    unfold deserialise_owned. rewrite (Hfound _ Hshown). cbn [obind option_map result_map_err]. rewrite Hsg in Hr.
    destruct (Hv g v (proj1 grows_refl L g) Hr) as (v' & Hv' & Hr').
    unfold try_step_partial. rewrite Hv'. cbn [handle_stepper_panics result_bind negb obind].
    rewrite <- Hc in Hr'. rewrite (proj1 (partial_hash_revealed fuel) L g v' _ Hok Hwf Hf Hr' Hshown).
    cbn [want option_map result_map_err obind]. rewrite Hc, decide_True by reflexivity. reflexivity.
Qed.

(** C5: Soundness of proofs: when verification accepts a proof whose initial hash is that of a
    state, and the step ends from the state without a panic, leaving its control and status registers as
    they are, then the step succeeds and the final hash of the proof is that of the state after it; or
    else two different inputs with one digest are among those hashed for the proof and for the state. *)
Theorem proof_sound fuel L (step : Prog bool) proof s b s' : layout_ok L -> sized L s -> typed L s -> prog_ok step ->
  hashes_ok (partial_tree proof) = true ->
  option_map Ok (initial_state_hash proof) = state_hash (M := O) L s ->
  verify_proof fuel L step proof = Some (Ok tt) ->
  run O L step s = Ok (b, s') -> csrs_kept L s s' ->
  (b = true /\ state_hash (M := O) L s' = Some (Ok (final_state_hash proof))) \/
  collision (partial_tree proof) (commit L s).
Proof.
  intros Hok Hs Ht Hp Hh Hinit Hverify Hrun Hk.
  rewrite initial_hash_eq, state_hash_owned in Hinit by assumption. cbn in Hinit. injection Hinit as Hroot.
  destruct (root_agrees _ _ Hh Hroot) as [Hagrees|Hcol]; [left | right; exact Hcol].
  unfold verify_proof in Hverify. apply obind_some in Hverify as (v & Hv & Hverify).
  assert (Hroots : rooted (PartPresent (partial_tree proof)) (commit L s)) by exact Hagrees.
  assert (Halloc : to_verifier_alloc (D := ProofTree) fuel L (PartPresent (partial_tree proof)) tt = Some (Ok (v, tt))).
  { unfold deserialise_owned in Hv. change (@Store ProofTree owned_deserialiser) with unit in *. destruct (to_verifier_alloc _ _ _ _) as [[[v1 []]|e]|] eqn:Ha; cbn in Hv; [|discriminate..].
    injection Hv as ->. reflexivity. }
  destruct (proj1 (alloc_rooted fuel) L s _ v Hok Hs Ht Hroots Halloc) as [Hview Hpart].
  apply obind_some in Hverify as (v' & Hstep & Hverify). injection Hstep as Hstep.
  unfold try_step_partial in Hstep. destruct (run (verifier Val) L step v) as [[stepped v1]|[]] eqn:HrunV; [|discriminate..].
  cbn in Hstep. destruct stepped; [|discriminate]. injection Hstep as ->.
  destruct (run_parallel L step s s v b s' true v' Hok Hp Hs Hpart Hrun HrunV) as (<- & Hs' & Hpart').
  split; [reflexivity|]. rewrite state_hash_owned by assumption.
  apply obind_some in Hverify as (h & Hhash & Hverify). injection Hverify as Hfinal.
  destruct (decide (h = final_state_hash proof)) as [<-|]; [|discriminate].
  destruct (partial_state_hash fuel L v' (PartPresent (partial_tree proof))) as [[h'|e]|] eqn:Hpart_hash; cbn in Hhash; [|discriminate..].
  injection Hhash as ->. do 2 f_equal. symmetry.
  exact (proj1 (partial_hash_sound fuel) L s s' v' _ (Ok h) Hok Hs Hs' Hk Hpart' Hview Hpart_hash).
Qed.

(** ** Control and status registers *)

(** C35: The proof of a step over the control and status registers starts from the hash of the
    registers after the step, whatever they held before it. *)
Theorem csr_proof_initial_hash T (step : Prog bool) s s' : sized (CSRValuesLayout T) s -> prog_ok step ->
  run O (CSRValuesLayout T) step s = Ok (true, s') ->
  exists proof, produce_proof (CSRValuesLayout T) step s = Ok (Some proof) /\
    option_map Ok (initial_state_hash proof) = state_hash (M := O) (CSRValuesLayout T) s' /\
    initial_state_hash proof = Some (final_state_hash proof).
Proof.
  intros Hs Hp Hrun. set (L := CSRValuesLayout T) in *. destruct (proj1 start_views L s) as [Hsrc Hcur]. rewrite <- Hcur in Hrun.
  destruct (run_lockstep L step (start_proof L s) true s' I (proj1 start_wf L s Hs) Hp Hrun) as (g & Hg & Hwf & Hc & _).
  assert (Hs' : sized L s') by (rewrite <- Hc; apply proof_wf_sized, Hwf).
  set (t := merkle_leaf (existsb access g) (concat (map cells_bytes s'))).
  assert (Htree : to_merkle_tree L g = Some (Ok t)).
  { unfold t. rewrite <- Hc. apply csr_values_tree_ok. destruct Hwf as [_ Hwf]. eapply Forall_impl; [exact Hwf|].
    intros x [Hx _]. rewrite length_current. exact Hx. }
  exists (mkProof (data_root (commit L s')) (proof_tree t)). split; [|split].
  - unfold produce_proof. rewrite Hg. cbn [result_bind]. unfold to_proof. rewrite Htree, obind_ok.
    rewrite to_merkle_proof_eq by reflexivity. rewrite obind_ok, state_hash_proof, Hc by (exact I || apply proof_wf_sized, Hwf). reflexivity.
  - rewrite initial_hash_eq, state_hash_owned by (exact I || exact Hs'). cbn [partial_tree option_map].
    rewrite proof_tree_root by reflexivity. reflexivity.
  - rewrite initial_hash_eq. cbn [partial_tree final_state_hash]. rewrite proof_tree_root by reflexivity. reflexivity.
Qed.

Lemma collect_results_err {A B E} (f : A -> result B E) l a e : a ∈ l -> f a = Err e -> exists e', collect_results f l = Err e'.
Proof.
  induction l as [|x l IH]; intros Ha Hf; [inversion Ha|]. cbn. destruct (f x) as [b|e'] eqn:Hx; [|eauto]. cbn.
  apply elem_of_cons in Ha as [->|Ha]; [congruence|]. destruct (IH Ha Hf) as [e' ->]. eexists. reflexivity.
Qed.

(** A step that writes a register. *)
Definition write_csr (i : nat) (value : Val) : Prog bool := Perform [i] (OnRegion (RegionWrite 0 value)) (fun _ => Ret true).
(** A proof that blinds the registers and claims that they stay the same. *)
Definition blinded_proof (hash : Hash) : Proof_ := mkProof hash (Leaf (Blind hash)).

(** C36: A step that writes a register and reads none is accepted with a proof that blinds the
    registers and whose final hash is the initial one: the write does not reach the hash. *)
Theorem csr_write_ignored fuel T s i value hash : sized (CSRValuesLayout T) s -> (i < csr_values)%nat ->
  state_hash (M := O) (CSRValuesLayout T) s = Some (Ok hash) ->
  initial_state_hash (blinded_proof hash) = Some hash /\
  run O (CSRValuesLayout T) (write_csr i value) s = Ok (true, <[i := [value]]> s) /\
  verify_proof fuel (CSRValuesLayout T) (write_csr i value) (blinded_proof hash) = Some (Ok tt).
Proof.
  intros [Hl Hs] Hi Hh. split; [apply initial_hash_eq|]. split.
  - destruct (lookup_lt_is_Some_2 s i) as [c Hc]; [rewrite Hl; exact Hi|]. pose proof (Forall_lookup_1 _ _ _ _ Hs Hc) as Hc1.
    destruct c as [|x [|? ?]]; try discriminate Hc1.
    change (run O (CSRValuesLayout T) (write_csr i value) s) with
      ('(_, state) <-! on_element (on_region O 1 (OnRegion (RegionWrite 0 value))) i s ;; Ok (true, state)).
    rewrite (on_element_ok _ i s [x] (inl []) [value] Hc eq_refl). reflexivity.
  - set (v := replicate csr_values (@Absent_ Val)). set (v' := <[i := Partial_ [Some value]]> v : list (VerifierRegion Val)).
    assert (Hv : deserialise_owned fuel (CSRValuesLayout T) (PartPresent (Leaf (Blind hash))) = Some (Ok v)) by reflexivity.
    assert (Hi' : v !! i = Some Absent_) by (apply lookup_replicate; auto).
    assert (Hrun : run (verifier Val) (CSRValuesLayout T) (write_csr i value) v = Ok (true, v')).
    { change (run (verifier Val) (CSRValuesLayout T) (write_csr i value) v) with
        ('(_, state) <-! on_element (on_region (verifier Val) 1 (OnRegion (RegionWrite 0 value))) i v ;; Ok (true, state)).
      rewrite (on_element_ok _ i v Absent_ (inl []) (Partial_ [Some value]) Hi' eq_refl). reflexivity. }
    unfold verify_proof. cbn [partial_tree blinded_proof]. rewrite Hv. cbn [option_map result_map_err obind].
    unfold try_step_partial. rewrite Hrun. cbn [handle_stepper_panics result_bind negb obind].
    change (partial_state_hash fuel (CSRValuesLayout T) v' (PartPresent (Leaf (Blind hash)))) with
      (csr_values_partial_hash v' (PartPresent (Leaf (Blind hash)))).
    unfold csr_values_partial_hash. destruct (collect_results_err owned_cell_try_from v' Absent_ PotentiallyRecoverable) as [e ->]; [|reflexivity|].
    + destruct (decide (i = 0)%nat) as [->|Hne].
      * apply list_elem_of_lookup_2 with 1%nat. unfold v'. rewrite list_lookup_insert_ne by lia. reflexivity.
      * apply list_elem_of_lookup_2 with 0%nat. unfold v'. rewrite list_lookup_insert_ne by lia. reflexivity.
    + cbn [partial_hash_leaf option_map result_map_err obind final_state_hash blinded_proof]. rewrite decide_True by reflexivity. reflexivity.
Qed.
End Verification.

(** ** A concrete instance

    A digest that keeps the first bytes, bytes as values, sets of addresses as sets of
    ranges, and a state with every kind of layout. *)
Module Sample.
#[local] Instance blake2b : Blake2b := { digest_256 bytes := take 32 (bytes ++ replicate 32 0) }.
#[local] Instance blake2b_laws : Blake2bLaws.
Proof. intros bytes. change (length (take 32 (bytes ++ replicate 32 0)) = 32%nat). rewrite length_take, length_app, length_replicate. lia. Qed.

#[local] Instance serde : Serde := {
  Ty := unit; Val := Z; serialise_value v := [v];
  parse_value _ bytes := match bytes with v :: bytes => Some (v, bytes) | [] => None end }.
#[local] Instance serde_laws : SerdeLaws := { has_type _ _ := True; parse_serialize _ _ _ _ := eq_refl }.

#[local] Instance range_sets : RangeSets := {
  RangeSet := gset Z; range_set_empty := ∅; range_set_from first past := list_to_set (seqZ first (past - first));
  is_superset s t := bool_decide (t ⊆ s); union_with := union;
  boundaries s := if bool_decide (s = list_to_set (seqZ 0 (Z.of_nat (size s)))) then [0; Z.of_nat (size s)] else [] }.
Lemma elem_of_range first past (x : Z) : x ∈ (list_to_set (seqZ first (past - first)) : gset Z) <-> first <= x < past.
Proof. rewrite elem_of_list_to_set, elem_of_seqZ. lia. Qed.
#[local] Program Instance range_set_laws : RangeSetLaws := { range_mem s x := x ∈ (s : gset Z) }.
Next Obligation. intros x. cbn. set_solver. Qed.
Next Obligation. intros first past x. apply elem_of_range. Qed.
Next Obligation. intros s t x. cbn. set_solver. Qed.
Next Obligation. intros s t. cbn. rewrite bool_decide_eq_true. set_solver. Qed.
Next Obligation.
  intros s n Hn. cbn [boundaries range_sets]. case_bool_decide as Hs.
  - split.
    + intros [= Hsize]. intros x. rewrite Hs at 1. rewrite Hsize, elem_of_list_to_set, elem_of_seqZ. lia.
    + intros Hx. assert (Heq : s = list_to_set (seqZ 0 n)).
      { apply set_eq. intros x. rewrite Hx, elem_of_list_to_set, elem_of_seqZ. lia. }
      do 2 f_equal. rewrite Heq, size_list_to_set by apply NoDup_seqZ. rewrite length_seqZ. lia.
  - split; [discriminate|]. intros Hx. destruct Hs. assert (Heq : s = list_to_set (seqZ 0 n)).
    { apply set_eq. intros x. rewrite Hx, elem_of_list_to_set, elem_of_seqZ. lia. }
    rewrite Heq at 2. rewrite size_list_to_set by apply NoDup_seqZ. rewrite length_seqZ, Z2Nat.id by lia. exact Heq.
Qed.

Definition cell : Ty := tt.
(** A cell, three cells, a vector of four cells, the registers and a page of memory. *)
Definition layout : Layout := Struct (fields_of [Atom cell; Array cell 3; Many 4 (Atom cell); CSRValuesLayout cell; DynArray 4096]).
Definition state : Allocated (owned Z) layout :=
  ([5], ([1; 2; 3], ([[10]; [20]; [30]; [40]], (replicate 33 [0], (replicate 4096 0, tt))))).
(** A step that copies a value about and stores two bytes. *)
Definition sample_step : Prog bool :=
  Perform [0%nat] (OnRegion (RegionRead 0)) (fun ans =>
    match ans with
    | inl [v] =>
        Perform [2%nat; 1%nat] (OnRegion (RegionWrite 0 (v + 1))) (fun _ =>
          Perform [4%nat] (OnDynRegion (DynWrite 100 [v; 9])) (fun _ => Ret true))
    | _ => Ret false
    end).
Definition state' : Allocated (owned Z) layout :=
  ([5], ([1; 2; 3], ([[10]; [6]; [30]; [40]], (replicate 33 [0], (<[101%nat := 9]> (<[100%nat := 5]> (replicate 4096 0)), tt))))).

(** A state without the page, a step that copies a value, and its proof. *)
Definition small_layout : Layout := Struct (fields_of [Atom cell; Array cell 3; Many 4 (Atom cell); CSRValuesLayout cell]).
Definition small_state : Allocated (owned Z) small_layout := ([5], ([1; 2; 3], ([[10]; [20]; [30]; [40]], (replicate 33 [0], tt)))).
Definition small_step : Prog bool :=
  Perform [0%nat] (OnRegion (RegionRead 0)) (fun ans =>
    match ans with
    | inl [v] => Perform [2%nat; 1%nat] (OnRegion (RegionWrite 0 (v + 1))) (fun _ => Ret true)
    | _ => Ret false
    end).
Definition small_state' : Allocated (owned Z) small_layout := ([5], ([1; 2; 3], ([[10]; [6]; [30]; [40]], (replicate 33 [0], tt)))).
Definition proof : Proof_ :=
  match produce_proof small_layout small_step small_state with Ok (Some proof) => proof | _ => mkProof (mkHash []) (Node []) end.
(** The registers alone, all zero, and a step that writes the first. *)
Definition seven : Val := 7.
Definition csrs : Allocated (owned Z) (CSRValuesLayout cell) := replicate 33 [0].

Lemma layout_is_ok : layout_ok layout.
Proof. vm_compute. intuition discriminate. Qed.
Lemma state_sized : sized layout state.
Proof. vm_compute. repeat constructor. Qed.
Lemma state_typed : typed layout state.
Proof. vm_compute. repeat constructor. Qed.
Lemma step_ok : prog_ok sample_step.
Proof. repeat split; intros [[|v [|? ?]]|l]; repeat split; discriminate. Qed.
Lemma step_runs : run (owned Val) layout sample_step state = Ok (true, state').
Proof. vm_compute. reflexivity. Qed.
Lemma step_keeps_csrs : csrs_kept layout state state'.
Proof. vm_compute. repeat constructor. Qed.

Lemma proof_complete_witness :
  exists proof enough_fuel, produce_proof layout sample_step state = Ok (Some proof) /\
    option_map Ok (initial_state_hash proof) = state_hash (M := owned Val) layout state /\
    Some (Ok (final_state_hash proof)) = state_hash (M := owned Val) layout state' /\
    (forall fuel, (enough_fuel <= fuel)%nat -> verify_proof fuel layout sample_step proof = Some (Ok tt)).
Proof.
  apply (proof_complete layout sample_step state state' layout_is_ok state_sized state_typed step_ok step_runs step_keeps_csrs).
Defined.

Lemma proof_sound_witness : verify_proof 16 small_layout small_step proof = Some (Ok tt) /\
  ((true = true /\ state_hash (M := owned Val) small_layout small_state' = Some (Ok (final_state_hash proof))) \/
   collision (partial_tree proof) (commit small_layout small_state)).
Proof.
  assert (Hv : verify_proof 16 small_layout small_step proof = Some (Ok tt)) by (vm_compute; reflexivity).
  split; [exact Hv|].
  apply (proof_sound 16 small_layout small_step proof small_state true small_state'); [vm_compute; intuition discriminate
    | vm_compute; repeat constructor | vm_compute; repeat constructor
    | repeat split; intros [[|v [|? ?]]|l]; repeat split; discriminate
    | vm_compute; reflexivity | vm_compute; reflexivity | exact Hv | vm_compute; reflexivity | vm_compute; repeat constructor].
Defined.

Lemma csr_proof_initial_hash_witness :
  exists proof, produce_proof (CSRValuesLayout cell) (write_csr 0 seven) csrs = Ok (Some proof) /\
    option_map Ok (initial_state_hash proof) = state_hash (M := owned Val) (CSRValuesLayout cell) (<[0%nat := [seven]]> csrs) /\
    initial_state_hash proof = Some (final_state_hash proof).
Proof.
  apply (csr_proof_initial_hash cell (write_csr 0 seven) csrs (<[0%nat := [seven]]> csrs));
    [vm_compute; repeat constructor | split; [exact I | intros ans; exact I] | vm_compute; reflexivity].
Defined.

Lemma csr_write_ignored_witness :
  let hash := mkHash (replicate 32 0) in
  initial_state_hash (blinded_proof hash) = Some hash /\
  run (owned Val) (CSRValuesLayout cell) (write_csr 0 seven) csrs = Ok (true, <[0%nat := [seven]]> csrs) /\
  verify_proof 16 (CSRValuesLayout cell) (write_csr 0 seven) (blinded_proof hash) = Some (Ok tt).
Proof.
  intros hash. apply (csr_write_ignored 16 cell csrs 0 seven hash); [vm_compute; repeat constructor | vm_compute; lia | vm_compute; reflexivity].
Defined.
End Sample.
