(* ===== verification/Loader.v ===== *)
(** * Loading a program

    Models [src/riscv/lib/src/kernel_loader.rs] and [program.rs]: the segments and
    the relocations of an ELF file become a program, which is a map from addresses
    to chunks of bytes.  Parsing the file is the [elf] crate; what it gives is an
    argument ([ElfBytes]). *)

From stdpp Require Import gmap sorting.
From S2P Require Import Prelude.
From S2P Require Import Memory.

(** ** What the [elf] crate gives *)
Record ProgramHeader : Type := mkProgramHeader {
  p_type : Z; p_offset : Z; p_vaddr : Z; p_paddr : Z; p_filesz : Z; p_memsz : Z; p_flags : Z }.
Record Rela : Type := mkRela { r_offset : Z; r_type : Z; r_addend : Z }.
Record FileHeader : Type := mkFileHeader {
  e_type : Z; e_entry : Z; e_phoff : Z; e_phentsize : Z; e_phnum : Z }.
(** The headers, the segments, and the entries of the dynamic table as tags with
    values; [relas_of] parses the bytes of a relocation table. *)
Record ElfBytes : Type := mkElfBytes {
  ehdr : FileHeader; segments_of : list ProgramHeader; dynamic_of : list (Z * Z);
  relas_of : list Z -> list Rela }.

(** Constants of the ELF standard. *)
Definition PF_X : Z := 1.
Definition PF_W : Z := 2.
Definition PF_R : Z := 4.
Definition PT_LOAD : Z := 1.
Definition ET_EXEC : Z := 2.
Definition ET_DYN : Z := 3.
Definition DT_RELA : Z := 7.
Definition DT_RELASZ : Z := 8.
Definition R_RISCV_RELATIVE : Z := 3.

(** ** Loading results *)
Record MemoryPermissions : Type := mkMemoryPermissions {
  start_address : Z; mp_length : Z; permissions : Permissions }.

Definition from_load_segment (reloc : option Z) (segment : ProgramHeader) : MemoryPermissions :=
  {| start_address := match reloc with
                      | Some offset => wrap 64 (offset + p_vaddr segment)
                      | None => p_paddr segment
                      end;
     mp_length := p_memsz segment;
     permissions := {| p_read := negb (Z.land (p_flags segment) PF_R =? 0);
                       p_write := negb (Z.land (p_flags segment) PF_W =? 0);
                       p_exec := negb (Z.land (p_flags segment) PF_X =? 0) |} |}.

Record ProgramHeaders : Type := mkProgramHeaders {
  entry_size : Z; num_entries : Z; contents : list Z; header_permissions : list MemoryPermissions }.
Record LoadResult : Type := mkLoadResult { entry_address : Z; load_headers : ProgramHeaders }.

(** [&contents[start..][..length]]; [None] is a panic. *)
Definition slice_at (bytes : list Z) (start length : Z) : option (list Z) :=
  if Z.of_nat (List.length bytes) <? start then None
  else
    let rest := drop (Z.to_nat start) bytes in
    if Z.of_nat (List.length rest) <? length then None else Some (take (Z.to_nat length) rest).

(** The trait [kernel_loader::Memory]: writing bytes, which no implementation here
    refuses. *)
Class LoaderMemory (S : Type) : Type := write_bytes : Z -> list Z -> M S unit.

Section Load.
Context {S : Type} `{LoaderMemory S}.

Definition set_zero (paddr len : Z) : M S unit :=
  len <- mlift (zero_vec len) ;; write_bytes paddr (replicate (Z.to_nat len) 0).

(** The body of the loops over the segments; [start_addr] is where one goes. *)
Definition load_segment (start_addr : Z) (segment : ProgramHeader) (contents : list Z) : M S unit :=
  segment_contents <- mlift (slice_at contents (p_offset segment) (p_filesz segment)) ;;
  write_bytes start_addr segment_contents ;;;
  if p_filesz segment <? p_memsz segment then
    let first_zero := wrap 64 (start_addr + p_filesz segment) in
    let num_zeroes := saturating_sub (p_memsz segment) (p_filesz segment) in
    set_zero first_zero num_zeroes
  else mret tt.

Definition extract_program_headers (header : FileHeader) (contents : list Z) (perms : list MemoryPermissions)
  : option ProgramHeaders :=
  let start := e_phoff header in
  let length := e_phentsize header * e_phnum header in
  match slice_at contents start length with
  | Some contents =>
      Some {| entry_size := e_phentsize header; num_entries := e_phnum header; contents := contents;
              header_permissions := perms |}
  | None => None
  end.

Fixpoint load_segments (reloc : option Z) (segments : list ProgramHeader) (contents : list Z)
  : M S (list MemoryPermissions) :=
  match segments with
  | [] => mret []
  | segment :: segments =>
      let start_addr := match reloc with
                        | Some start => wrap 64 (start + p_vaddr segment)
                        | None => p_paddr segment
                        end in
      load_segment start_addr segment contents ;;;
      perms <- load_segments reloc segments contents ;;
      mret (from_load_segment reloc segment :: perms)
  end.

Definition loadable (elf : ElfBytes) : list ProgramHeader :=
  List.filter (fun header => p_type header =? PT_LOAD) (segments_of elf).

Definition load_elf_nonreloc (elf : ElfBytes) (contents : list Z) : M S LoadResult :=
  permissions <- load_segments None (loadable elf) contents ;;
  program_headers <- mlift (extract_program_headers (ehdr elf) contents permissions) ;;
  mret {| entry_address := e_entry (ehdr elf); load_headers := program_headers |}.

(** The loop over the dynamic table: the last address and size found. *)
Definition find_relas (dynamic_infos : list (Z * Z)) : option Z * option Z :=
  foldl (fun '(addr, size) '(tag, value) =>
           if tag =? DT_RELA then (Some value, size)
           else if tag =? DT_RELASZ then (addr, Some value) else (addr, size)) (None, None) dynamic_infos.

(** The loop over the relocations. *)
Fixpoint apply_relas (start : Z) (relas : list Rela) : M S unit :=
  match relas with
  | [] => mret tt
  | rela :: relas =>
      if r_type rela =? R_RISCV_RELATIVE then
        let relocated := le_bytes 8 (sext 64 (sext 64 start + r_addend rela)) in
        write_bytes (wrap 64 (start + r_offset rela)) relocated ;;;
        apply_relas start relas
      else mpanic
  end.

Definition load_elf_reloc (start : Z) (elf : ElfBytes) (contents : list Z) : M S LoadResult :=
  permissions <- load_segments (Some start) (loadable elf) contents ;;
  (match find_relas (dynamic_of elf) with
   | (Some addr, Some size) =>
       relas_data <- mlift (slice_at contents addr size) ;;
       apply_relas start (relas_of elf relas_data)
   | _ => mret tt
   end) ;;;
  program_headers <- mlift (extract_program_headers (ehdr elf) contents permissions) ;;
  mret {| entry_address := wrap 64 (e_entry (ehdr elf) + start); load_headers := program_headers |}.

Definition load_elf (start : Z) (elf : ElfBytes) (contents : list Z) : M S LoadResult :=
  if e_type (ehdr elf) =? ET_EXEC then load_elf_nonreloc elf contents
  else if e_type (ehdr elf) =? ET_DYN then load_elf_reloc start elf contents
  else mpanic.
End Load.

(** ** Programs *)

(** [BTreeMap<Address, Cow<[u8]>>]. *)
Notation Segments := (gmap Z (list Z)).

Record Program : Type := mkProgram {
  entrypoint : Z; segments : Segments; program_headers : option ProgramHeaders }.

(** Keys in order. *)
Definition sorted_keys (m : Segments) : list Z := merge_sort Z.le (elements (dom m)).
(** [range_mut(..paddr).last()]: the chunk with the greatest address below. *)
Definition last_before (paddr : Z) (m : Segments) : option (Z * list Z) :=
  match last (List.filter (fun k => k <? paddr) (sorted_keys m)) with
  | Some k => match m !! k with Some bytes => Some (k, bytes) | None => None end
  | None => None
  end.
(** The addresses of [range(paddr..paddr_after)]. *)
Definition keys_in (paddr paddr_after : Z) (m : Segments) : list Z :=
  List.filter (fun k => (paddr <=? k) && (k <? paddr_after)) (sorted_keys m).

(** The loop of [write_bytes] over the chunks in the way. *)
Fixpoint split_chunks (nexts : list Z) (paddr : Z) (bytes : list Z) (new_segments : Segments)
  : Z * list Z * Segments :=
  match nexts with
  | [] => (paddr, bytes, new_segments)
  | next_paddr :: nexts =>
      let nonoverlapping_len := next_paddr - paddr in
      let nonoverlapping := take (Z.to_nat nonoverlapping_len) bytes in
      let overlapping := drop (Z.to_nat nonoverlapping_len) bytes in
      let new_segments :=
        match nonoverlapping with
        | [] => new_segments
        | _ => <[paddr := nonoverlapping]> new_segments
        end in
      split_chunks nexts next_paddr overlapping new_segments
  end.

(** [impl kernel_loader::Memory for Program]; [None] is the panic of the addition
    or of the range. *)
Definition program_write_bytes (paddr : Z) (bytes : list Z) : M Segments unit := fun segments =>
  match bytes with
  | [] => Some (tt, segments)
  | _ =>
      let segments :=
        match last_before paddr segments with
        | Some (prev_paddr, prev_bytes) =>
            if paddr <? prev_paddr + Z.of_nat (List.length prev_bytes)
            then <[prev_paddr := take (Z.to_nat (paddr - prev_paddr)) prev_bytes]> segments
            else segments
        | None => segments
        end in
      let paddr_after := paddr + Z.of_nat (List.length bytes) in
      if 2 ^ 64 <=? paddr_after then None
      else
        let '(paddr, bytes, new_segments) := split_chunks (keys_in paddr paddr_after segments) paddr bytes ∅ in
        let segments := new_segments ∪ segments in
        match bytes with
        | [] => Some (tt, segments)
        | _ =>
            match segments !! paddr with
            | Some chunk =>
                if Z.of_nat (List.length bytes) <=? Z.of_nat (List.length chunk)
                then Some (tt, <[paddr := bytes ++ drop (List.length bytes) chunk]> segments)
                else Some (tt, <[paddr := bytes]> segments)
            | None => Some (tt, <[paddr := bytes]> segments)
            end
        end
  end.
#[export] Instance program_memory : LoaderMemory Segments := program_write_bytes.

(** [Program::from_elf], from the file as the [elf] crate parses it. *)
Definition from_elf (elf : ElfBytes) (file : list Z) : option Program :=
  let start_if_reloc := FIRST_ADDRESS in
  match load_elf start_if_reloc elf file ∅ with
  | Some (load_result, segments) =>
      Some {| entrypoint := entry_address load_result; segments := segments;
              program_headers := Some (load_headers load_result) |}
  | None => None
  end.
