(* ===== verification/LoaderSpec.v ===== *)
(** * Loading a program: properties

    The chunks of a program as a map from addresses to bytes, and what
    [Program::write_bytes] does to it. *)

From stdpp Require Import gmap sorting.
From S2P Require Import Prelude.
From S2P Require Import Memory.
From S2P Require Import Loader.

Notation zlength l := (Z.of_nat (length l)).

(** The byte of a program at an address: that of the last chunk that starts at or
    below it. *)
Definition program_byte (m : Segments) (a : Z) : option Z :=
  match last_before (a + 1) m with
  | Some (k, bytes) => bytes !! Z.to_nat (a - k)
  | None => None
  end.

(** The invariant of [segments]: chunks do not overlap. *)
Definition disjoint_chunks (m : Segments) : Prop :=
  forall k1 k2 v1 v2, m !! k1 = Some v1 -> m !! k2 = Some v2 -> k1 < k2 -> k1 + zlength v1 <= k2.

(** ** Keys in order *)
Lemma elem_of_sorted_keys m k : k ∈ sorted_keys m <-> is_Some (m !! k).
Proof. unfold sorted_keys. rewrite merge_sort_Permutation, elem_of_elements. apply elem_of_dom. Qed.

Lemma sorted_keys_sorted m : StronglySorted Z.lt (sorted_keys m).
Proof.
  assert (Hle : StronglySorted Z.le (sorted_keys m)) by apply (StronglySorted_merge_sort Z.le).
  assert (Hnd : NoDup (sorted_keys m)) by (unfold sorted_keys; rewrite merge_sort_Permutation; apply NoDup_elements).
  induction Hle as [|k l Hle IH Hk]; [constructor|].
  apply NoDup_cons in Hnd as [Hin Hnd]. constructor; [apply IH, Hnd|].
  apply Forall_forall. intros k' Hk'. rewrite Forall_forall in Hk. specialize (Hk k' Hk').
  destruct (Z.eq_dec k k') as [->|]; [contradiction | lia].
Qed.

Lemma filter_sorted (f : Z -> bool) l : StronglySorted Z.lt l -> StronglySorted Z.lt (List.filter f l).
Proof.
  induction 1 as [|k l Hl IH Hk]; [constructor|]. cbn. destruct (f k); [|exact IH].
  constructor; [exact IH|]. apply Forall_forall. intros k' Hk'.
  apply list_elem_of_In, filter_In in Hk' as [Hk' _]. rewrite Forall_forall in Hk.
  apply Hk, list_elem_of_In, Hk'.
Qed.

Lemma sorted_last l k : StronglySorted Z.lt l -> last l = Some k -> k ∈ l /\ forall k', k' ∈ l -> k' <= k.
Proof.
  induction 1 as [|x l Hl IH Hx]; [discriminate|]. destruct l as [|y l]; cbn [last].
  - intros [= ->]. split; [left|]. intros k' [->|Hk']%elem_of_cons; [lia | apply elem_of_nil in Hk' as []].
  - intros Hk. destruct (IH Hk) as [Hin Hmax]. split; [right; exact Hin|].
    intros k' [->|Hk']%elem_of_cons; [|apply Hmax, Hk'].
    rewrite Forall_forall in Hx. specialize (Hx k Hin). lia.
Qed.

Lemma last_before_Some m p k v : last_before p m = Some (k, v) ->
  m !! k = Some v /\ k < p /\ forall k', is_Some (m !! k') -> k' < p -> k' <= k.
Proof.
  unfold last_before. destruct (last _) as [k0|] eqn:E; [|discriminate].
  apply sorted_last in E as [Hin Hmax]; [|apply filter_sorted, sorted_keys_sorted].
  apply list_elem_of_In, filter_In in Hin as [Hin Hlt].
  destruct (m !! k0) as [v0|] eqn:Em; [|discriminate]. intros [= <- <-].
  split; [exact Em|]. split; [lia|]. intros k' Hk' Hp. apply Hmax.
  apply list_elem_of_In, filter_In. split; [|lia]. apply list_elem_of_In, elem_of_sorted_keys, Hk'.
Qed.
Lemma last_before_None m p : last_before p m = None -> forall k, is_Some (m !! k) -> p <= k.
Proof.
  unfold last_before. destruct (last _) as [k0|] eqn:E.
  - apply sorted_last in E as [Hin _]; [|apply filter_sorted, sorted_keys_sorted].
    apply list_elem_of_In, filter_In in Hin as [[v Hv]%list_elem_of_In%elem_of_sorted_keys _].
    rewrite Hv. discriminate.
  - intros _ k Hk. apply last_None in E. destruct (Z.lt_ge_cases k p); [|assumption].
    assert (Hin : k ∈ List.filter (fun k => k <? p) (sorted_keys m)).
    { apply list_elem_of_In, filter_In. split; [|lia]. apply list_elem_of_In, elem_of_sorted_keys, Hk. }
    rewrite E in Hin. apply elem_of_nil in Hin as [].
Qed.

(** ** Bytes by chunks *)
Definition has_byte (m : Segments) (a b : Z) : Prop :=
  exists k v, m !! k = Some v /\ k <= a /\ v !! Z.to_nat (a - k) = Some b.

Lemma program_byte_has m a b : disjoint_chunks m -> program_byte m a = Some b <-> has_byte m a b.
Proof.
  intros Hd. unfold program_byte. destruct (last_before (a + 1) m) as [[k v]|] eqn:E.
  - apply last_before_Some in E as (Hk & Hlt & Hmax). split.
    + intros Hb. exists k, v. split_and!; [exact Hk | lia | exact Hb].
    + intros (k' & v' & Hk' & Ha & Hb). assert (Hle : k' <= k) by (apply Hmax; [eauto | lia]).
      destruct (Z.eq_dec k' k) as [->|]; [congruence|].
      specialize (Hd k' k v' v Hk' Hk ltac:(lia)). apply lookup_lt_Some in Hb. lia.
  - split; [discriminate|]. intros (k & v & Hk & Ha & _).
    pose proof (last_before_None _ _ E k ltac:(eauto)). lia.
Qed.

(** Putting a chunk where it covers whatever starts there and meets nothing else. *)
Lemma insert_chunk m p v : disjoint_chunks m ->
  (forall k w, m !! k = Some w -> k < p -> k + zlength w <= p) ->
  (forall k w, m !! k = Some w -> p < k -> p + zlength v <= k) ->
  (forall w, m !! p = Some w -> zlength w <= zlength v) ->
  disjoint_chunks (<[p := v]> m) /\
  forall a b, has_byte (<[p := v]> m) a b <->
    if (p <=? a) && (a <? p + zlength v) then v !! Z.to_nat (a - p) = Some b else has_byte m a b.
Proof.
  intros Hd Hbefore Hafter Hat. split.
  - intros k1 k2 v1 v2 H1 H2 Hlt.
    apply lookup_insert_Some in H1 as [[<- <-]|[? H1]], H2 as [[<- <-]|[? H2]]; [lia | eauto.. | eapply Hd; eassumption].
  - intros a b. split.
    + intros (k & w & Hk & Ha & Hb). pose proof (lookup_lt_Some _ _ _ Hb).
      apply lookup_insert_Some in Hk as [[<- <-]|[Hne Hk]].
      * destruct (Z.leb_spec p a), (Z.ltb_spec a (p + zlength v)); cbn; (exact Hb || lia).
      * destruct (Z.lt_ge_cases k p) as [Hp|Hp].
        -- specialize (Hbefore k w Hk Hp).
           destruct (Z.leb_spec p a); [lia|]. cbn. exists k, w. auto.
        -- specialize (Hafter k w Hk ltac:(lia)).
           destruct (Z.ltb_spec a (p + zlength v)); [lia|]. rewrite andb_false_r. exists k, w. auto.
    + destruct (Z.leb_spec p a), (Z.ltb_spec a (p + zlength v)); cbn [andb].
      1: intros Hb; exists p, v; split_and!; [apply lookup_insert_eq | assumption..].
      all: intros (k & w & Hk & Ha & Hb); pose proof (lookup_lt_Some _ _ _ Hb);
        destruct (Z.eq_dec k p) as [->|]; [specialize (Hat w Hk); lia|];
        exists k, w; split_and!; [rewrite <- Hk; apply lookup_insert_ne; lia | assumption..].
Qed.

(** ** The loop *)
Section Loop.
Context (segs : Segments).

(** Chunks below [p] end there. *)
Definition ends_before (m : Segments) (p : Z) : Prop :=
  forall k w, m !! k = Some w -> k < p -> k + zlength w <= p.

Lemma split_chunks_spec nexts p bytes new p' bytes' new' :
  split_chunks nexts p bytes new = (p', bytes', new') ->
  let m := new ∪ segs in let m' := new' ∪ segs in let e := p + zlength bytes in
  disjoint_chunks m -> ends_before m p -> StronglySorted Z.lt nexts ->
  (forall k, k ∈ nexts -> p <= k < e /\ is_Some (m !! k)) ->
  (forall k, is_Some (m !! k) -> p < k < e -> k ∈ nexts) ->
  disjoint_chunks m' /\ ends_before m' p' /\ p <= p' <= e /\ bytes' = drop (Z.to_nat (p' - p)) bytes /\
  (nexts <> [] -> p' < e) /\
  (forall k, is_Some (m' !! k) -> ~ p' < k < e) /\
  forall a b, has_byte m' a b <->
    if (p <=? a) && (a <? p') then bytes !! Z.to_nat (a - p) = Some b else has_byte m a b.
Proof.
  revert p bytes new; induction nexts as [|next nexts IH]; intros p bytes new E m m' e Hd Hends Hsorted Hin Hall.
  { injection E as <- <- <-. subst m m' e. split_and!; try assumption; try lia.
    - rewrite Z.sub_diag. reflexivity.
    - congruence.
    - intros k Hk Hlt. specialize (Hall k Hk Hlt). apply elem_of_nil in Hall as [].
    - intros a b. destruct (Z.leb_spec p a), (Z.ltb_spec a p); cbn; (reflexivity || lia). }
  apply StronglySorted_inv in Hsorted as [Hsorted Hlt]. rewrite Forall_forall in Hlt.
  destruct (Hin next ltac:(left)) as [Hnext Hkey]. cbn [split_chunks] in E.
  destruct (Z.eq_dec next p) as [->|Hne].
  - rewrite Z.sub_diag in E. cbn [Z.to_nat take drop] in E. rewrite take_0, drop_0 in E.
    pose proof (IH p bytes new E) as IH'. cbv zeta in IH'. fold m m' e in IH'.
    destruct IH' as (R1 & R2 & R3 & R4 & R5 & R6 & R7); try assumption.
    + intros k Hk. apply Hin. right. exact Hk.
    + intros k Hk Hr. specialize (Hall k Hk Hr). apply elem_of_cons in Hall as [->|]; [lia | assumption].
    + split_and!; try assumption; try lia. intros _.
      destruct nexts; [injection E as <- <- <-; lia | apply R5; discriminate].
  - assert (Hlen : (Z.to_nat (next - p) < length bytes)%nat) by lia.
    set (x := take (Z.to_nat (next - p)) bytes) in E.
    assert (Hx : zlength x = next - p) by (unfold x; rewrite length_take; lia).
    replace (match x with [] => new | _ => <[p := x]> new end) with (<[p := x]> new) in E
      by (destruct x; [cbn in Hx; lia | reflexivity]).
    assert (Hkeys : forall k, is_Some (m !! k) -> p < k -> next <= k).
    { intros k Hk Hp. destruct (Z.lt_ge_cases k e); [|lia].
      specialize (Hall k Hk ltac:(lia)). apply elem_of_cons in Hall as [->|Hk']; [lia|]. specialize (Hlt k Hk'). lia. }
    destruct (insert_chunk m p x Hd Hends) as [Hd1 Hv1].
    { intros k w Hk Hp. rewrite Hx. specialize (Hkeys k ltac:(eauto) Hp). lia. }
    { intros w Hw. destruct Hkey as [wn Hwn]. specialize (Hd p next w wn Hw Hwn ltac:(lia)). lia. }
    subst m.
    assert (He : next + zlength (drop (Z.to_nat (next - p)) bytes) = e) by (rewrite length_drop; lia).
    pose proof (IH next _ _ E) as IH'. cbv zeta in IH'. rewrite He in IH'.
    rewrite <- !insert_union_l in IH'.
    destruct IH' as (R1 & R2 & R3 & R4 & R5 & R6 & R7).
    + exact Hd1.
    + intros k w Hk Hkn. apply lookup_insert_Some in Hk as [[<- <-]|[Hkp Hk]]; [lia|].
      destruct (Z.lt_ge_cases k p); [specialize (Hends k w Hk H); lia|].
      specialize (Hkeys k ltac:(eauto) ltac:(lia)). lia.
    + exact Hsorted.
    + intros k Hk. specialize (Hlt k Hk). destruct (Hin k ltac:(right; exact Hk)) as [Hr Hs].
      split; [lia|]. rewrite lookup_insert_ne by lia. exact Hs.
    + intros k Hk Hr. rewrite lookup_insert_ne in Hk by lia. specialize (Hall k Hk ltac:(lia)).
      apply elem_of_cons in Hall as [->|]; [lia | assumption].
    + split_and!; try assumption; try lia.
      * rewrite R4, drop_drop. f_equal. lia.
      * intros _. destruct nexts; [|apply R5; discriminate]. injection E as <- <- <-. lia.
      * intros a b. specialize (R7 a b). specialize (Hv1 a b). rewrite Hx in Hv1.
        destruct (Z.leb_spec next a), (Z.ltb_spec a p'), (Z.leb_spec p a), (Z.ltb_spec a (p + (next - p)));
          cbn [andb] in *; try lia; try (etransitivity; [exact R7 | assumption || reflexivity]).
        all: rewrite ?lookup_drop in R7; unfold x in Hv1; rewrite ?lookup_take_lt in Hv1 by lia.
        all: etransitivity; [exact R7|].
        all: try exact Hv1.
        all: replace (Z.to_nat (next - p) + Z.to_nat (a - next))%nat with (Z.to_nat (a - p)) by lia; reflexivity.
Qed.
End Loop.

(** ** [Program::write_bytes] *)

(** The chunk that starts before [p] reaches beyond it, up to this address. *)
Definition left_overlap (m : Segments) (p : Z) : Z :=
  match last_before p m with Some (k, v) => k + zlength v | None => p end.

Definition cut_left (m : Segments) (p : Z) : Segments :=
  match last_before p m with
  | Some (k, v) => if p <? k + zlength v then <[k := take (Z.to_nat (p - k)) v]> m else m
  | None => m
  end.

Lemma below_last m p k v k' w : disjoint_chunks m -> last_before p m = Some (k, v) ->
  m !! k' = Some w -> k' < p -> k' = k \/ k' + zlength w <= k.
Proof.
  intros Hd E Hk' Hp. apply last_before_Some in E as (Hk & Hlt & Hmax).
  specialize (Hmax k' ltac:(eauto) Hp). destruct (Z.eq_dec k' k); [left; assumption|].
  right. eapply Hd; [exact Hk' | exact Hk | lia].
Qed.

Lemma cut_left_spec m p : disjoint_chunks m ->
  disjoint_chunks (cut_left m p) /\ ends_before (cut_left m p) p /\
  (forall k, p <= k -> cut_left m p !! k = m !! k) /\
  forall a b, has_byte (cut_left m p) a b <->
    has_byte m a b /\ ~ p <= a < left_overlap m p.
Proof.
  intros Hd. unfold cut_left, left_overlap. destruct (last_before p m) as [[k v]|] eqn:E.
  - pose proof (below_last m p k v) as Hbelow. pose proof E as E'. apply last_before_Some in E' as (Hk & Hlt & Hmax).
    destruct (Z.ltb_spec p (k + zlength v)) as [Hover|Hover].
    + set (x := take (Z.to_nat (p - k)) v).
      assert (Hx : zlength x = p - k) by (unfold x; rewrite length_take; lia).
      assert (Hafter : forall k' w, m !! k' = Some w -> k < k' -> k + zlength v <= k')
        by (intros k' w Hk' Hlt'; eapply Hd; eassumption).
      split_and!.
      * intros k1 k2 v1 v2 H1 H2 Hlt12.
        apply lookup_insert_Some in H1 as [[<- <-]|[? H1]], H2 as [[<- <-]|[? H2]]; [lia | | |].
        -- specialize (Hafter k2 v2 H2 Hlt12). lia.
        -- eapply Hd; eassumption.
        -- eapply Hd; eassumption.
      * intros k' w Hk' Hp. apply lookup_insert_Some in Hk' as [[<- <-]|[Hne Hk']]; [lia|].
        destruct (Hbelow k' w Hd E Hk' Hp); [congruence | lia].
      * intros k' Hk'. apply lookup_insert_ne. lia.
      * intros a b. split.
        -- intros (k' & w & Hk' & Ha & Hb). pose proof (lookup_lt_Some _ _ _ Hb).
           apply lookup_insert_Some in Hk' as [[<- <-]|[Hne Hk']].
           ++ unfold x in Hb. rewrite lookup_take_lt in Hb by lia. split; [exists k, v; auto | lia].
           ++ split; [exists k', w; auto|]. destruct (Z.lt_ge_cases k' p) as [Hp|Hp].
              ** destruct (Hbelow k' w Hd E Hk' Hp); [congruence | lia].
              ** specialize (Hafter k' w Hk' ltac:(lia)). lia.
        -- intros ((k' & w & Hk' & Ha & Hb) & Hnot). destruct (Z.eq_dec k' k) as [->|Hne].
           ++ rewrite Hk in Hk'. injection Hk' as <-. pose proof (lookup_lt_Some _ _ _ Hb).
              exists k, x. split_and!; [apply lookup_insert_eq | exact Ha |].
              unfold x. rewrite lookup_take_lt by lia. exact Hb.
           ++ exists k', w. split_and!; [rewrite lookup_insert_ne by congruence; exact Hk' | exact Ha | exact Hb].
    + split_and!; [exact Hd | | reflexivity |].
      * intros k' w Hk' Hp. destruct (Hbelow k' w Hd E Hk' Hp) as [-> | ?]; [|lia].
        rewrite Hk in Hk'. injection Hk' as <-. lia.
      * intros a b. split; [intros Hb; split; [exact Hb | lia] | intros [Hb _]; exact Hb].
  - split_and!; [exact Hd | | reflexivity |].
    + intros k' w Hk' Hp. pose proof (last_before_None _ _ E k' ltac:(eauto)). lia.
    + intros a b. split; [intros Hb; split; [exact Hb | lia] | intros [Hb _]; exact Hb].
Qed.

(** The last chunk, written at an address behind which nothing starts within the
    bytes: over the chunk there, whose end stays, or anew. *)
Definition put_last (p : Z) (bytes : list Z) (m : Segments) : Segments :=
  match m !! p with
  | Some chunk =>
      if zlength bytes <=? zlength chunk then <[p := bytes ++ drop (length bytes) chunk]> m else <[p := bytes]> m
  | None => <[p := bytes]> m
  end.

Lemma put_last_spec m p bytes : disjoint_chunks m -> ends_before m p ->
  (forall k, is_Some (m !! k) -> ~ p < k < p + zlength bytes) ->
  disjoint_chunks (put_last p bytes m) /\
  forall a b, has_byte (put_last p bytes m) a b <->
    if (p <=? a) && (a <? p + zlength bytes) then bytes !! Z.to_nat (a - p) = Some b else has_byte m a b.
Proof.
  intros Hd Hends Hfree. unfold put_last.
  assert (Hafter : forall k w, m !! k = Some w -> p < k -> p + zlength bytes <= k)
    by (intros k w Hk Hp; specialize (Hfree k ltac:(eauto)); lia).
  destruct (m !! p) as [chunk|] eqn:Ep; [destruct (Z.leb_spec (zlength bytes) (zlength chunk)) as [Hle|Hgt]|].
  - destruct (insert_chunk m p (bytes ++ drop (length bytes) chunk) Hd Hends) as [Hd' Hv].
    { intros k w Hk Hp. specialize (Hd p k chunk w Ep Hk Hp). rewrite length_app, length_drop. lia. }
    { intros w Hw. rewrite Ep in Hw. injection Hw as <-. rewrite length_app, length_drop. lia. }
    split; [exact Hd'|]. intros a b. specialize (Hv a b). rewrite length_app, length_drop in Hv.
    replace (p + Z.of_nat (length bytes + (length chunk - length bytes))) with (p + zlength chunk) in Hv by lia.
    destruct (Z.leb_spec p a), (Z.ltb_spec a (p + zlength bytes)), (Z.ltb_spec a (p + zlength chunk));
      cbn [andb] in *; try lia; try exact Hv; etransitivity; try exact Hv.
    + rewrite lookup_app_l by lia. reflexivity.
    + rewrite lookup_app_r, lookup_drop by lia.
      replace (length bytes + (Z.to_nat (a - p) - length bytes))%nat with (Z.to_nat (a - p)) by lia.
      split; [intros Hb; exists p, chunk; auto|]. intros (k & w & Hk & Ha & Hb).
      pose proof (lookup_lt_Some _ _ _ Hb). destruct (Z.lt_trichotomy k p) as [Hlt|[->|Hgt]].
      * specialize (Hends k w Hk Hlt). lia.
      * rewrite Ep in Hk. injection Hk as <-. exact Hb.
      * specialize (Hd p k chunk w Ep Hk Hgt). lia.
  - apply insert_chunk; try assumption. intros w Hw. rewrite Ep in Hw. injection Hw as <-. lia.
  - apply insert_chunk; try assumption. congruence.
Qed.

Lemma program_write_bytes_has m p bytes :
  disjoint_chunks m -> 0 <= p -> p + zlength bytes < 2 ^ 64 -> bytes <> [] ->
  exists m', program_write_bytes p bytes m = Some (tt, m') /\ disjoint_chunks m' /\
    forall a b, has_byte m' a b <->
      if (p <=? a) && (a <? p + zlength bytes) then bytes !! Z.to_nat (a - p) = Some b
      else has_byte m a b /\ ~ (p + zlength bytes <= a < left_overlap m p).
Proof.
  intros Hd Hp Hmax Hne. destruct (cut_left_spec m p Hd) as (Hd1 & Hends1 & Hsame & Hv1).
  unfold program_write_bytes. destruct bytes as [|x bytes]; [congruence|]. set (bs := x :: bytes) in *.
  fold (cut_left m p). set (m1 := cut_left m p) in *.
  destruct (Z.leb_spec (2 ^ 64) (p + zlength bs)); [lia|].
  destruct (split_chunks (keys_in p (p + zlength bs) m1) p bs ∅) as [[p' bs'] new] eqn:E.
  assert (Hnil : bs <> []) by discriminate. clearbody bs.
  pose proof (split_chunks_spec m1 _ _ _ _ _ _ _ E) as Hsplit. cbv zeta in Hsplit.
  rewrite (left_id_L ∅ (∪) m1) in Hsplit.
  destruct Hsplit as (R1 & R2 & R3 & R4 & R5 & R6 & R7); try assumption.
  { apply filter_sorted, sorted_keys_sorted. }
  { intros k Hk. apply list_elem_of_In, filter_In in Hk as [Hk Hr].
    split; [lia|]. apply elem_of_sorted_keys, list_elem_of_In, Hk. }
  { intros k Hk Hr. apply list_elem_of_In, filter_In.
    split; [apply list_elem_of_In, elem_of_sorted_keys, Hk | lia]. }
  assert (Hp' : p' < p + zlength bs).
  { destruct (keys_in p (p + zlength bs) m1); [|apply R5; discriminate].
    injection E as <- <- <-. destruct bs; [congruence | cbn; lia]. }
  assert (Hbs' : zlength bs' = p + zlength bs - p') by (subst bs'; rewrite length_drop; lia).
  destruct (put_last_spec (new ∪ m1) p' bs' R1 R2) as [Hd2 Hv2].
  { intros k Hk. specialize (R6 k Hk). lia. }
  exists (put_last p' bs' (new ∪ m1)). split.
  { unfold put_last. destruct bs' as [|y ys]; [cbn in Hbs'; lia|].
    destruct ((new ∪ m1) !! p'); [destruct (_ <=? _)|]; reflexivity. }
  split; [exact Hd2|]. intros a b. specialize (Hv2 a b). specialize (R7 a b). specialize (Hv1 a b).
  assert (Hnth : forall n, bs' !! n = bs !! (Z.to_nat (p' - p) + n)%nat) by (intros n; subst bs'; apply lookup_drop).
  rewrite Hbs' in Hv2. replace (p' + (p + zlength bs - p')) with (p + zlength bs) in Hv2 by lia.
  rewrite Hnth in Hv2.
  destruct (Z.leb_spec p' a), (Z.ltb_spec a (p + zlength bs)), (Z.leb_spec p a), (Z.ltb_spec a p');
    cbn [andb] in *; try lia.
  all: try replace (Z.to_nat (p' - p) + Z.to_nat (a - p'))%nat with (Z.to_nat (a - p)) in Hv2 by lia.
  all: rewrite Hv2, ?R7, ?Hv1; try reflexivity.
  all: split; intros [Hx Hnot]; (split; [exact Hx | lia]).
Qed.

(** Writing bytes into a program.  The write never fails while its end is an
    address, keeps the chunks disjoint, and afterwards the program has the bytes
    written at their addresses and what it had everywhere else, except for one thing:
    a chunk that starts before the address written to is cut there, and its bytes
    behind the ones written are lost. *)
Theorem program_write_bytes_spec m p bytes :
  disjoint_chunks m -> 0 <= p -> p + zlength bytes < 2 ^ 64 -> bytes <> [] ->
  exists m', program_write_bytes p bytes m = Some (tt, m') /\ disjoint_chunks m' /\
    forall a, program_byte m' a =
      if (p <=? a) && (a <? p + zlength bytes) then bytes !! Z.to_nat (a - p)
      else if (p + zlength bytes <=? a) && (a <? left_overlap m p) then None
      else program_byte m a.
Proof.
  intros Hd Hp Hmax Hne. destruct (program_write_bytes_has m p bytes Hd Hp Hmax Hne) as (m' & Hw & Hd' & Hv).
  exists m'. split; [exact Hw|]. split; [exact Hd'|]. intros a. apply option_eq. intros b.
  rewrite (program_byte_has _ _ _ Hd'), Hv.
  destruct (_ && _); [reflexivity|]. pose proof (program_byte_has m a b Hd) as Hm.
  destruct (Z.leb_spec (p + zlength bytes) a), (Z.ltb_spec a (left_overlap m p)); cbn [andb];
    (rewrite Hm; split; [intros [Hx _]; exact Hx | intros Hx; split; [exact Hx | lia]]) ||
    (split; [intros [_ Hx]; lia | discriminate]).
Qed.

(** ** Loading the segments *)

(** Writing where the program has nothing. *)
Lemma write_free m p bytes :
  disjoint_chunks m -> 0 <= p -> p + zlength bytes < 2 ^ 64 -> (bytes <> [] -> program_byte m p = None) ->
  exists m', program_write_bytes p bytes m = Some (tt, m') /\ disjoint_chunks m' /\
    forall a, program_byte m' a =
      if (p <=? a) && (a <? p + zlength bytes) then bytes !! Z.to_nat (a - p) else program_byte m a.
Proof.
  intros Hd Hp Hmax Hfree. destruct bytes as [|x bytes].
  { exists m. split; [reflexivity|]. split; [exact Hd|]. intros a. cbn [length].
    destruct (Z.leb_spec p a), (Z.ltb_spec a (p + Z.of_nat 0)); cbn [andb]; (reflexivity || lia). }
  destruct (program_write_bytes_has m p (x :: bytes) Hd Hp Hmax ltac:(discriminate)) as (m' & Hw & Hd' & Hv).
  exists m'. split; [exact Hw|]. split; [exact Hd'|]. intros a. apply option_eq. intros b.
  rewrite (program_byte_has _ _ _ Hd'), Hv.
  destruct (_ && _); [reflexivity|]. rewrite (program_byte_has m a b Hd).
  assert (Hleft : left_overlap m p <= p).
  { unfold left_overlap. destruct (last_before p m) as [[k v]|] eqn:E; [|lia].
    apply last_before_Some in E as (Hk & Hlt & _). destruct (Z.lt_ge_cases p (k + zlength v)); [|assumption].
    destruct (lookup_lt_is_Some_2 v (Z.to_nat (p - k)) ltac:(lia)) as [y Hy].
    assert (Hb : has_byte m p y) by (exists k, v; split_and!; [exact Hk | lia | exact Hy]).
    apply (program_byte_has _ _ _ Hd) in Hb. rewrite Hfree in Hb; discriminate. }
  cbn [length] in *. split; [intros [Hx _]; exact Hx | intros Hx; split; [exact Hx | lia]].
Qed.

Section Segments.
Context (contents : list Z) (reloc : option Z).

Definition segment_start (s : ProgramHeader) : Z :=
  match reloc with Some start => wrap 64 (start + p_vaddr s) | None => p_paddr s end.
Definition segment_end (s : ProgramHeader) : Z := segment_start s + Z.max (p_filesz s) (p_memsz s).

(** What the ELF standard says a segment holds: the bytes of the file, then zeroes. *)
Definition segment_byte (s : ProgramHeader) (a : Z) : option Z :=
  if (segment_start s <=? a) && (a <? segment_end s)
  then if a <? segment_start s + p_filesz s then contents !! Z.to_nat (p_offset s + (a - segment_start s))
       else Some 0
  else None.
Definition image_byte (segs : list ProgramHeader) (a : Z) : option Z :=
  foldr (fun s rest => match segment_byte s a with Some b => Some b | None => rest end) None segs.

(** A segment within the file and within the addresses. *)
Definition segment_ok (s : ProgramHeader) : Prop :=
  0 <= p_offset s /\ 0 <= p_filesz s /\ 0 <= p_memsz s /\ 0 <= segment_start s /\
  p_offset s + p_filesz s <= zlength contents /\ segment_end s < 2 ^ 64 /\ p_memsz s < 2 ^ 63.
Definition segments_disjoint (s t : ProgramHeader) : Prop :=
  segment_end s <= segment_start t \/ segment_end t <= segment_start s.

Lemma slice_at_ok start len : 0 <= start -> 0 <= len -> start + len <= zlength contents ->
  slice_at contents start len = Some (take (Z.to_nat len) (drop (Z.to_nat start) contents)).
Proof.
  intros Hs Hl Hlen. unfold slice_at. rewrite length_drop.
  destruct (Z.ltb_spec (zlength contents) start); [lia|].
  destruct (Z.ltb_spec (Z.of_nat (length contents - Z.to_nat start)) len); [lia | reflexivity].
Qed.

Lemma load_segment_spec s m : segment_ok s -> disjoint_chunks m ->
  (forall a, segment_start s <= a < segment_end s -> program_byte m a = None) ->
  exists m', load_segment (segment_start s) s contents m = Some (tt, m') /\ disjoint_chunks m' /\
    forall a, program_byte m' a = match segment_byte s a with Some b => Some b | None => program_byte m a end.
Proof.
  intros (Ho & Hf & Hm & Hst & Hin & Hend & Hvec) Hd Hfree. unfold load_segment, segment_byte, segment_end in *.
  set (start := segment_start s) in *. set (filesz := p_filesz s) in *. set (memsz := p_memsz s) in *.
  rewrite slice_at_ok by assumption.
  set (file := take _ _). assert (Hfile : zlength file = filesz) by (unfold file; rewrite length_take, length_drop; lia).
  assert (Hnth : forall a, start <= a < start + filesz ->
    file !! Z.to_nat (a - start) = contents !! Z.to_nat (p_offset s + (a - start))).
  { intros a Ha. unfold file. rewrite lookup_take_lt, lookup_drop by lia. f_equal. lia. }
  destruct (write_free m start file Hd Hst ltac:(lia)) as (m1 & Hw1 & Hd1 & Hv1).
  { intros Hne. apply Hfree. destruct file; [congruence | cbn in Hfile; lia]. }
  unfold mbind, mlift, write_bytes, program_memory. cbn. rewrite Hw1.
  rewrite Hfile in Hv1.
  destruct (Z.ltb_spec filesz memsz) as [Hlt|Hge].
  - unfold set_zero, zero_vec, write_bytes, program_memory, saturating_sub. rewrite (wrap_small 64) by (unfold urange; lia).
    destruct (Z.leb_spec (2 ^ 63) (Z.max 0 (memsz - filesz))); [lia|]. unfold mbind, mlift.
    set (zeroes := replicate _ 0).
    assert (Hz : zlength zeroes = memsz - filesz) by (unfold zeroes; rewrite length_replicate; lia).
    destruct (write_free m1 (start + filesz) zeroes Hd1 ltac:(lia) ltac:(lia)) as (m2 & Hw2 & Hd2 & Hv2).
    { intros _. rewrite Hv1. destruct (Z.ltb_spec (start + filesz) (start + filesz)); [lia|].
      rewrite andb_false_r. apply Hfree. lia. }
    exists m2. split; [exact Hw2|]. split; [exact Hd2|]. intros a. rewrite Hv2, Hv1, Hz.
    replace (start + filesz + (memsz - filesz)) with (start + Z.max filesz memsz) by lia.
    specialize (Hnth a). specialize (Hfree a).
    destruct (Z.leb_spec (start + filesz) a), (Z.ltb_spec a (start + Z.max filesz memsz)),
      (Z.leb_spec start a), (Z.ltb_spec a (start + filesz)); cbn [andb]; try lia; try reflexivity.
    + apply lookup_replicate_2. lia.
    + rewrite Hnth, Hfree by lia. destruct (contents !! _); reflexivity.
  - exists m1. split; [reflexivity|]. split; [exact Hd1|]. intros a. rewrite Hv1.
    specialize (Hnth a). specialize (Hfree a).
    destruct (Z.ltb_spec a (start + Z.max filesz memsz)), (Z.leb_spec start a), (Z.ltb_spec a (start + filesz));
      cbn [andb]; try lia; try reflexivity.
    rewrite Hnth, Hfree by lia. destruct (contents !! _); reflexivity.
Qed.

Lemma segment_byte_range s a : is_Some (segment_byte s a) -> segment_start s <= a < segment_end s.
Proof.
  unfold segment_byte. intros [b Hb].
  destruct (Z.leb_spec (segment_start s) a), (Z.ltb_spec a (segment_end s)); cbn in Hb; (lia || discriminate).
Qed.

Lemma load_segments_spec segs m : Forall segment_ok segs -> ForallOrdPairs segments_disjoint segs ->
  disjoint_chunks m ->
  (forall s a, s ∈ segs -> segment_start s <= a < segment_end s -> program_byte m a = None) ->
  exists m', load_segments reloc segs contents m = Some (map (from_load_segment reloc) segs, m') /\
    disjoint_chunks m' /\
    forall a, program_byte m' a = match image_byte segs a with Some b => Some b | None => program_byte m a end.
Proof.
  intros Hok Hdis. revert m. induction Hdis as [|s segs Hs Hdis IH]; intros m Hd Hfree.
  { exists m. split; [reflexivity|]. split; [exact Hd | reflexivity]. }
  apply Forall_cons in Hok as [Hok1 Hok].
  destruct (load_segment_spec s m Hok1 Hd) as (m1 & Hl & Hd1 & Hv1); [intros a; apply Hfree; left|].
  destruct (IH Hok m1 Hd1) as (m2 & Hl2 & Hd2 & Hv2).
  { intros t a Ht Ha. rewrite Hv1. rewrite List.Forall_forall in Hs.
    specialize (Hs t ltac:(apply list_elem_of_In, Ht)).
    destruct (segment_byte s a) eqn:E; [|apply (Hfree t a); [right; exact Ht | exact Ha]].
    pose proof (segment_byte_range s a ltac:(eauto)). destruct Hs; lia. }
  exists m2. split; [|split; [exact Hd2|]].
  - cbn [load_segments map]. unfold mbind at 1. unfold segment_start in Hl. rewrite Hl.
    unfold mbind. rewrite Hl2. reflexivity.
  - intros a. rewrite Hv2, Hv1. cbn. destruct (segment_byte s a) eqn:E; [|reflexivity].
    destruct (image_byte segs a) eqn:E2; [|reflexivity]. exfalso.
    pose proof (segment_byte_range s a ltac:(eauto)) as Ha. clear - Hs Ha E2.
    induction Hs as [|t segs Ht Hs IH]; [discriminate|]. cbn in E2.
    destruct (segment_byte t a) eqn:Et; [|apply IH, E2].
    pose proof (segment_byte_range t a ltac:(eauto)). destruct Ht; lia.
Qed.
End Segments.

Lemma empty_program : disjoint_chunks ∅ /\ forall a, program_byte ∅ a = None.
Proof.
  split; [intros k1 k2 v1 v2 H; rewrite lookup_empty in H; discriminate|].
  intros a. reflexivity.
Qed.

(** A file whose loadable segments lie within it and do not meet. *)
Definition elf_ok (elf : ElfBytes) (file : list Z) (reloc : option Z) : Prop :=
  Forall (segment_ok file reloc) (loadable elf) /\
  ForallOrdPairs (segments_disjoint reloc) (loadable elf) /\
  0 <= e_phoff (ehdr elf) /\ 0 <= e_phentsize (ehdr elf) * e_phnum (ehdr elf) /\
  e_phoff (ehdr elf) + e_phentsize (ehdr elf) * e_phnum (ehdr elf) <= zlength file.

Lemma extract_program_headers_ok elf file reloc perms : elf_ok elf file reloc ->
  is_Some (extract_program_headers (ehdr elf) file perms).
Proof.
  intros (_ & _ & H1 & H2 & H3). unfold extract_program_headers. rewrite slice_at_ok by assumption. eauto.
Qed.

(** C28: a file of fixed addresses is loaded whole.  When its loadable segments lie
    within the file and do not meet, [from_elf] succeeds; the program starts at the
    file's entry point, its chunks do not overlap, and its byte at an address is
    that of the segment there: of the file, or zero in the part that has no bytes
    in the file; it has no bytes anywhere else, and it grants each segment's
    permissions. *)
Theorem from_elf_loads_executable elf file :
  e_type (ehdr elf) = ET_EXEC -> elf_ok elf file None ->
  exists prog, from_elf elf file = Some prog /\ entrypoint prog = e_entry (ehdr elf) /\
    disjoint_chunks (segments prog) /\
    (forall a, program_byte (segments prog) a = image_byte file None (loadable elf) a) /\
    option_map header_permissions (program_headers prog) = Some (map (from_load_segment None) (loadable elf)).
Proof.
  intros Ht Hok. destruct empty_program as [Hd0 Hv0].
  destruct (load_segments_spec file None (loadable elf) ∅) as (m & Hl & Hd & Hv);
    [apply Hok | apply Hok | exact Hd0 | reflexivity |].
  unfold from_elf, load_elf, load_elf_nonreloc. rewrite Ht. cbn [Z.eqb ET_EXEC Pos.eqb].
  unfold mbind. rewrite Hl.
  destruct (extract_program_headers_ok elf file None (map (from_load_segment None) (loadable elf)) Hok) as [h Hh].
  unfold mlift. rewrite Hh. eexists. split; [reflexivity|]. cbn.
  split_and!; [reflexivity | exact Hd | intros a; rewrite Hv, Hv0; destruct (image_byte _ _ _ _); reflexivity |].
  unfold extract_program_headers in Hh. destruct (slice_at _ _ _); [|discriminate]. injection Hh as <-. reflexivity.
Qed.

(** C40: a relocation cuts off the rest of its segment.  When a chunk reaches from
    below the address relocated to beyond the eight bytes written there, the
    relocation succeeds, the eight bytes are the relocated address, and every byte
    of the chunk behind them is gone from the program. *)
Theorem relocation_truncates_chunk start rela m k v :
  r_type rela = R_RISCV_RELATIVE -> disjoint_chunks m -> m !! k = Some v ->
  let p := wrap 64 (start + r_offset rela) in
  k < p -> p + 8 < k + zlength v -> k + zlength v < 2 ^ 64 ->
  exists m', apply_relas start [rela] m = Some (tt, m') /\
    (forall i, 0 <= i < 8 -> program_byte m' (p + i) =
      le_bytes 8 (sext 64 (sext 64 start + r_addend rela)) !! Z.to_nat i) /\
    forall a, p + 8 <= a < k + zlength v -> is_Some (program_byte m a) /\ program_byte m' a = None.
Proof.
  intros Ht Hd Hk p Hkp Hend Hmax.
  assert (Hp : 0 <= p) by (apply wrap_range; lia).
  set (bytes := le_bytes 8 _). assert (Hlen : zlength bytes = 8) by reflexivity.
  destruct (program_write_bytes_has m p bytes Hd Hp ltac:(lia) ltac:(discriminate)) as (m' & Hw & Hd' & Hv).
  assert (Hleft : left_overlap m p = k + zlength v).
  { unfold left_overlap. destruct (last_before p m) as [[k' v']|] eqn:E.
    - pose proof E as E'. apply last_before_Some in E' as (Hk' & Hlt' & _).
      destruct (below_last _ _ _ _ _ _ Hd E Hk Hkp) as [->|]; [congruence|]. lia.
    - pose proof (last_before_None _ _ E k ltac:(eauto)). lia. }
  exists m'. split; [|split].
  - cbn [apply_relas]. rewrite Ht. cbn [Z.eqb R_RISCV_RELATIVE Pos.eqb].
    unfold mbind, write_bytes, program_memory. fold p bytes. rewrite Hw. reflexivity.
  - intros i Hi. apply option_eq. intros b. rewrite (program_byte_has _ _ _ Hd'), Hv, Hlen.
    destruct (Z.leb_spec p (p + i)), (Z.ltb_spec (p + i) (p + 8)); cbn [andb]; try lia.
    replace (p + i - p) with i by lia. reflexivity.
  - intros a Ha. split.
    + destruct (lookup_lt_is_Some_2 v (Z.to_nat (a - k)) ltac:(lia)) as [b Hb]. exists b.
      apply (program_byte_has _ _ _ Hd). exists k, v. split_and!; [exact Hk | lia | exact Hb].
    + apply eq_None_not_Some. intros [b Hb]. apply (program_byte_has _ _ _ Hd') in Hb. apply Hv in Hb.
      rewrite Hlen, Hleft in Hb. destruct (Z.leb_spec p a), (Z.ltb_spec a (p + 8)); cbn [andb] in Hb; lia.
Qed.

(** ** Witnesses *)
Definition demo_segments : Segments := {[ 4096 := replicate 32 7 ]}.
Lemma demo_segments_disjoint : disjoint_chunks demo_segments.
Proof.
  intros k1 k2 v1 v2 H1 H2. unfold demo_segments in H1, H2. apply lookup_singleton_Some in H1 as [<- _], H2 as [<- _]. lia.
Qed.

Lemma program_write_bytes_spec_witness :
  exists m', program_write_bytes 4100 [1; 2] demo_segments = Some (tt, m') /\
    program_byte m' 4101 = Some 2 /\ program_byte m' 4099 = Some 7 /\ program_byte m' 4102 = None.
Proof.
  pose proof (program_write_bytes_spec demo_segments 4100 [1; 2] demo_segments_disjoint ltac:(lia)
    ltac:(cbn; lia) ltac:(discriminate)) as H.
  destruct H as (m' & Hw & _ & Hv). exists m'. split; [exact Hw|].
  split; [rewrite Hv; reflexivity | split; rewrite Hv; vm_compute; reflexivity].
Defined.

(** A file of ten bytes with two segments, the second with four zeroes behind it. *)
Definition demo_elf : ElfBytes :=
  {| ehdr := {| e_type := ET_EXEC; e_entry := 4096; e_phoff := 0; e_phentsize := 2; e_phnum := 1 |};
     segments_of :=
       [ {| p_type := PT_LOAD; p_offset := 2; p_vaddr := 4096; p_paddr := 4096; p_filesz := 4; p_memsz := 4; p_flags := 5 |};
         {| p_type := PT_LOAD; p_offset := 6; p_vaddr := 8192; p_paddr := 8192; p_filesz := 4; p_memsz := 8; p_flags := 6 |} ];
     dynamic_of := []; relas_of := fun _ => [] |}.

Lemma from_elf_loads_executable_witness :
  exists prog, from_elf demo_elf [0; 1; 2; 3; 4; 5; 6; 7; 8; 9] = Some prog /\
    program_byte (segments prog) 4097 = Some 3 /\ program_byte (segments prog) 8195 = Some 9 /\
    program_byte (segments prog) 8196 = Some 0 /\ program_byte (segments prog) 8200 = None.
Proof.
  pose proof (from_elf_loads_executable demo_elf [0; 1; 2; 3; 4; 5; 6; 7; 8; 9] eq_refl) as H.
  destruct H as (prog & Hf & _ & _ & Hv & _).
  - split_and!; [| | cbn; lia..].
    + repeat constructor; cbn; try lia; discriminate.
    + repeat constructor; cbn; unfold segments_disjoint, segment_end, segment_start; cbn; lia.
  - exists prog. split; [exact Hf|]. rewrite !Hv. vm_compute. auto.
Defined.

Lemma relocation_truncates_chunk_witness :
  exists m', apply_relas 4096 [{| r_offset := 8; r_type := R_RISCV_RELATIVE; r_addend := 16 |}] demo_segments = Some (tt, m') /\
    program_byte m' 4104 = Some 16 /\ program_byte demo_segments 4112 = Some 7 /\ program_byte m' 4112 = None.
Proof.
  pose proof (relocation_truncates_chunk 4096 {| r_offset := 8; r_type := R_RISCV_RELATIVE; r_addend := 16 |}
    demo_segments 4096 (replicate 32 7) eq_refl demo_segments_disjoint ltac:(apply lookup_singleton_eq)) as H.
  cbv zeta in H. cbn [r_offset r_addend] in H. change (wrap 64 (4096 + 8)) with 4104 in H.
  change (zlength (replicate 32 7)) with 32 in H.
  destruct (H ltac:(lia) ltac:(lia) ltac:(lia)) as (m' & Hw & Hv & Hn). exists m'. split; [exact Hw|]. split_and!.
  - specialize (Hv 0 ltac:(lia)). rewrite Z.add_0_r in Hv. rewrite Hv. reflexivity.
  - vm_compute. reflexivity.
  - apply Hn. lia.
Defined.
