(* ===== verification/Linux.v ===== *)
(** * The Linux supervisor

    Models the system calls of [src/riscv/lib/src/pvm/linux.rs], with
    [linux/memory.rs], [linux/fds.rs], [linux/fs.rs] and [linux/rng.rs], and their
    dispatch.  The debug output of the guest, which the code hands to
    [putchar_hook] byte by byte, is a list of bytes of the state; log messages are
    left out.

    Then the boot code: loading a program into main memory, laying out the stack as the
    kernel does for a new process, and giving the heap to the allocator.  It works on the
    core of the machine and the supervisor's state. *)

From S2P Require Import Prelude.
From S2P Require Import Registers.
From S2P Require Import Icb.
From S2P Require Import Memory.
From S2P Require Import Core.
From S2P Require Import Loader.
From S2P Require Import LinuxParams.

(** ** Registers by their ABI names *)
Definition sp : XRegister := x2.
Definition a0 : XRegister := x10.
Definition a1 : XRegister := x11.
Definition a2 : XRegister := x12.
Definition a3 : XRegister := x13.
Definition a4 : XRegister := x14.
Definition a5 : XRegister := x15.
Definition a6 : XRegister := x16.
Definition a7 : XRegister := x17.

(** ** State *)
Record AddrRange : Type := mkRange { range_start : VirtAddr; range_end : VirtAddr }.

Record SupervisorState : Type := mkSupervisor {
  tid_address : VirtAddr;
  exited : bool;
  exit_code : Z;
  program : AddrRange;
  heap : AddrRange;
  stack_guard : AddrRange }.

Definition supervisor_new : SupervisorState :=
  let default := mkRange VirtAddr_DEFAULT VirtAddr_DEFAULT in
  {| tid_address := VirtAddr_DEFAULT; exited := false; exit_code := 0;
     program := default; heap := default; stack_guard := default |}.

Definition with_tid_address (v : VirtAddr) (s : SupervisorState) : SupervisorState :=
  mkSupervisor v (exited s) (exit_code s) (program s) (heap s) (stack_guard s).
Definition with_exit (code : Z) (s : SupervisorState) : SupervisorState :=
  mkSupervisor (tid_address s) true code (program s) (heap s) (stack_guard s).

Record System (Mem : Type) : Type := mkSystem {
  sys_core : MachineCoreState Mem;
  sys_supervisor : SupervisorState;
  sys_output : list Z }.
Arguments mkSystem {Mem}.
Arguments sys_core {Mem}.
Arguments sys_supervisor {Mem}.
Arguments sys_output {Mem}.

Section Handlers.
Context {Mem : Type} `{Memory Mem}.
Notation Sys := (System Mem).
Notation Core := (MachineCoreState Mem).

Definition on_core_of {A} (f : M Core A) : M Sys A :=
  fun s => match f (sys_core s) with
           | Some (a, core) => Some (a, mkSystem core (sys_supervisor s) (sys_output s))
           | None => None
           end.
Definition on_supervisor (f : SupervisorState -> SupervisorState) : M Sys unit :=
  mput (fun s => mkSystem (sys_core s) (f (sys_supervisor s)) (sys_output s)).
Definition putchar (byte : Z) : M Sys unit :=
  mput (fun s => mkSystem (sys_core s) (sys_supervisor s) (sys_output s ++ [byte])).

Definition xread (reg : XRegister) : M Sys Z := on_core_of (on_hart (hart_read reg)).
Definition xwrite (reg : XRegister) (value : Z) : M Sys unit := on_core_of (on_hart (hart_write reg value)).

(** Operations of main memory, with their errors as system call errors. *)
Definition access {A} (f : M Mem (result A BadMemoryAccess)) : M Sys (result A Error) :=
  r <- on_core_of (on_memory f) ;; mret (result_map_err r error_of_memory_access).
Definition govern {A} (f : M Mem (result A MemoryGovernanceError)) : M Sys (result A Error) :=
  r <- on_core_of (on_memory f) ;; mret (result_map_err r error_of_governance).

Definition zeros (n : Z) : list Z := replicate (Z.to_nat n) 0.

(** ** Handlers of [linux.rs] *)
Definition handle_set_tid_address (tid_address : VirtAddr) : M Sys (result Z Error) :=
  on_supervisor (with_tid_address tid_address) ;;;
  mret (Ok MAIN_THREAD_ID).

Definition handle_set_robust_list (_head : VirtAddr) (_size : RobustListHeadSize) : M Sys (result Z Error) :=
  mret (Ok 0).

Definition handle_exit (status : ExitStatus) : M Sys (result SystemCallResultExecution Error) :=
  on_supervisor (with_exit (status_exit_code status)) ;;;
  mret (Ok {| sc_result := status_exit_code status; control_flow := false |}).

(** [old] is zeroed when it is an address. *)
Definition write_old (size : Z) (old : SignalAction) : M Sys (result Z Error) :=
  match action_address old with
  | Some old => _ <-? access (mem_write_array old (zeros size)) ;; mret (Ok 0)
  | None => mret (Ok 0)
  end.
Definition SIZE_SIGALTSTACK : Z := 24.
Definition handle_sigaltstack (_ : Z) (old : SignalAction) : M Sys (result Z Error) :=
  write_old SIZE_SIGALTSTACK old.
Definition SIZE_SIGACTION : Z := 32.
Definition handle_rt_sigaction (_ _ : Z) (old : SignalAction) (_ : SigsetTSizeEightBytes)
  : M Sys (result Z Error) := write_old SIZE_SIGACTION old.
Definition handle_rt_sigprocmask (_ _ : Z) (old : SignalAction) (_ : SigsetTSizeEightBytes)
  : M Sys (result Z Error) := write_old SIGSET_SIZE old.

Definition handle_tkill (_ : MainThreadId) (signal : Signal) : M Sys (result SystemCallResultExecution Error) :=
  on_supervisor (with_exit (signal_exit_code signal)) ;;;
  mret (Ok {| sc_result := 0; control_flow := false |}).

Definition handle_getpid : M Sys (result Z Error) := mret (Ok 1).

Definition TIMESPEC_SIZE : Z := 16.
Definition handle_clock_gettime (_clockid tp : Z) : M Sys (result Z Error) :=
  if negb (tp =? 0) then
    _ <-? access (mem_write_array tp (zeros TIMESPEC_SIZE)) ;; mret (Ok 0)
  else mret (Err InvalidArgument).

(** The loop of [sched_getaffinity], over [n] bytes from [i]. *)
Fixpoint zero_mask (n : nat) (i : Z) (mask : VirtAddr) : M Sys (result unit Error) :=
  match n with
  | O => mret (Ok tt)
  | S n =>
      let address := va_add mask i in
      _ <-? access (mem_write u8 (to_machine_address address) 0) ;;
      zero_mask n (i + 1) mask
  end.
Definition SINGLE_PROCESS_PID_AFFINITY : Z := 1.
Definition handle_sched_getaffinity (_pid : ProcessId) (cpusetsize : CpuSetSize) (mask : VirtAddr)
  : M Sys (result Z Error) :=
  let other_bytes_size := nonzero_get (cpu_set_size cpusetsize) - 1 in
  _ <-? zero_mask (Z.to_nat other_bytes_size) 0 mask ;;
  _ <-? access (mem_write u8 (to_machine_address (va_add mask other_bytes_size))
                  SINGLE_PROCESS_PID_AFFINITY) ;;
  mret (Ok (nonzero_get (cpu_set_size cpusetsize))).

Definition TIMEVAL_SIZE : Z := 16.
Definition TIMEZONE_SIZE : Z := 8.
Definition handle_gettimeofday (tv tz : Z) : M Sys (result Z Error) :=
  _ <-? (if negb (tv =? 0) then access (mem_write_array tv (zeros TIMEVAL_SIZE)) else mret (Ok tt)) ;;
  _ <-? (if negb (tz =? 0) then access (mem_write_array tz (zeros TIMEZONE_SIZE)) else mret (Ok tt)) ;;
  mret (Ok 0).

(** ** [linux/memory.rs] *)
Definition handle_brk : M Sys (result Z Error) :=
  s <- mget sys_supervisor ;; mret (Ok (to_machine_address (range_end (program s)))).
Definition handle_madvise : M Sys (result Z Error) := mret (Ok 0).

Definition handle_mprotect (addr : PageAligned) (length : Z) (perms : Permissions) : M Sys (result Z Error) :=
  _ <-? govern (mem_protect_pages (to_machine_address (aligned_addr addr)) length perms) ;;
  mret (Ok 0).

Definition handle_mmap (addr : VirtAddr) (length : NonZeroU64) (perms : Permissions) (flags : Flags)
    (_fd : NoFileDescriptor) (_offset : Zero) : M Sys (result Z Error) :=
  match visibility flags with
  | Shared => mret (Err NoSystemCall)
  | Private =>
      match backend flags with
      | File => mret (Err NoSystemCall)
      | NoBackend =>
          match addr_hint flags with
          | Hint_ => govern (mem_allocate_and_protect_pages None (nonzero_get length) perms false)
          | Fixed allow_replace =>
              if negb (is_aligned addr PAGE_SIZE) then mret (Err InvalidArgument)
              else
                govern (mem_allocate_and_protect_pages (Some (to_machine_address addr))
                          (nonzero_get length) perms allow_replace)
          end
      end
  end.

Definition handle_munmap (addr length : Z) : M Sys (result Z Error) :=
  r <- on_core_of (on_memory (deallocate_and_protect_pages addr length)) ;;
  match r with Ok _ => mret (Ok 0) | Err _ => mret (Err InvalidArgument) end.

(** ** [linux/fds.rs] *)
Fixpoint put_all (data : list Z) : M Sys unit :=
  match data with [] => mret tt | byte :: data => putchar byte ;;; put_all data end.

Definition write_to_fd (fd : FileDescriptorWriteable) (addr : VirtAddr) (length : Z) : M Sys (result Z Error) :=
  let length := Z.min length PAGE_SIZE in
  data <-? access (mem_read_all (to_machine_address addr) length) ;;
  match fd with
  | StandardOutput | StandardError => put_all data
  end ;;;
  mret (Ok length).

Definition handle_write (fd : FileDescriptorWriteable) (addr : VirtAddr) (length : Z) : M Sys (result Z Error) :=
  write_to_fd fd addr length.

Definition SIZE_IOVEC : Z := 16.
Definition OFFSET_BASE : Z := 0.
Definition OFFSET_LEN : Z := 8.

(** The loop ['search] over the entries left: the first with data, if any. *)
Fixpoint search_iovec (n : nat) (item : Z) (iovec : VirtAddr) : M Sys (result (option (VirtAddr * Z)) Error) :=
  match n with
  | O => mret (Ok None)
  | S n =>
      let struct_addr := va_add iovec (wrap 64 (SIZE_IOVEC * item)) in
      let struct_addr_base := va_add struct_addr OFFSET_BASE in
      let struct_addr_len := va_add struct_addr OFFSET_LEN in
      addr <-? access (mem_read u64 (to_machine_address struct_addr_base)) ;;
      length <-? access (mem_read u64 (to_machine_address struct_addr_len)) ;;
      if 0 <? length then mret (Ok (Some (mkVirtAddr addr, length)))
      else search_iovec n (item + 1) iovec
  end.

Definition handle_writev (fd : FileDescriptorWriteable) (iovec : VirtAddr) (len : Z) : M Sys (result Z Error) :=
  if len <? 1 then mret (Ok 0)
  else
    let max_entries := Z.min len (PAGE_SIZE / SIZE_IOVEC) in
    found <-? search_iovec (Z.to_nat max_entries) 0 iovec ;;
    match found with
    | None => mret (Ok 0)
    | Some (addr, length) => write_to_fd fd addr length
    end.

Definition SIZE_POLLFD : Z := 8.
Definition OFFSET_FD : Z := 0.
Definition OFFSET_REVENTS : Z := 6.
Definition pollfd_field (i offset fd_ptrs : Z) : Z :=
  wrap 64 (wrap 64 (wrap 64 (i * SIZE_POLLFD) + offset) + fd_ptrs).

Fixpoint read_fds (n : nat) (i fd_ptrs : Z) : M Sys (result (list Z) Error) :=
  match n with
  | O => mret (Ok [])
  | S n =>
      fd <-? access (mem_read i32 (pollfd_field i OFFSET_FD fd_ptrs)) ;;
      fds <-? read_fds n (i + 1) fd_ptrs ;;
      mret (Ok (fd :: fds))
  end.
Fixpoint clear_revents (n : nat) (i fd_ptrs : Z) : M Sys (result unit Error) :=
  match n with
  | O => mret (Ok tt)
  | S n =>
      let revents_ptr := pollfd_field i OFFSET_REVENTS fd_ptrs in
      _ <-? access (mem_write_all revents_ptr (le_bytes 2 0)) ;;
      clear_revents n (i + 1) fd_ptrs
  end.
Definition handle_ppoll (fd_ptrs : Z) (num_fds : FileDescriptorCount) : M Sys (result Z Error) :=
  fds <-? read_fds (Z.to_nat (fd_count num_fds)) 0 fd_ptrs ;;
  if negb (forallb (fun fd => (fd =? 0) || (fd =? 1) || (fd =? 2)) fds) then mret (Err NoSystemCall)
  else
    _ <-? clear_revents (Z.to_nat (fd_count num_fds)) 0 fd_ptrs ;;
    mret (Ok 0).

(** ** [linux/fs.rs] *)
Definition handle_faccessat : M Sys (result Z Error) := mret (Err Access).
Definition handle_openat : M Sys (result Z Error) := mret (Err Access).
Definition handle_close : M Sys (result Z Error) := mret (Err Access).
Definition handle_read (length : Z) : M Sys (result Z Error) :=
  if length =? 0 then mret (Ok 0) else mret (Err Access).
Definition handle_readlinkat : M Sys (result Z Error) := mret (Err Access).

Definition CWD : list Z := [47; 0].
Definition handle_getcwd (buffer length : Z) : M Sys (result Z Error) :=
  if (length =? 0) && negb (buffer =? 0) then mret (Err InvalidArgument)
  else if length <? Z.of_nat (List.length CWD) then mret (Err Range)
  else
    _ <-? access (mem_write_all buffer CWD) ;;
    mret (Ok buffer).

(** ** [linux/rng.rs] *)
Definition handle_getrandom (buffer length : Z) : M Sys (result Z Error) :=
  let actual_length := Z.min length (Z.of_nat (List.length RANDOM)) in
  let data := take (Z.to_nat actual_length) RANDOM in
  _ <-? access (mem_write_all buffer data) ;;
  mret (Ok actual_length).

(** ** Dispatch *)
Definition GETCWD : Z := 17.
Definition FACCESSAT : Z := 48.
Definition OPENAT : Z := 56.
Definition CLOSE : Z := 57.
Definition READ : Z := 63.
Definition WRITE : Z := 64.
Definition WRITEV : Z := 66.
Definition PPOLL : Z := 73.
Definition READLINKAT : Z := 78.
Definition EXIT : Z := 93.
Definition EXITGROUP : Z := 94.
Definition SET_TID_ADDRESS : Z := 96.
Definition SET_ROBUST_LIST : Z := 99.
Definition CLOCK_GETTIME : Z := 113.
Definition SCHED_GETAFFINITY : Z := 123.
Definition TKILL : Z := 130.
Definition SIGALTSTACK : Z := 132.
Definition RT_SIGACTION : Z := 134.
Definition RT_SIGPROCMASK : Z := 135.
Definition GETTIMEOFDAY : Z := 169.
Definition GETPID : Z := 172.
Definition BRK : Z := 214.
Definition MUNMAP : Z := 215.
Definition MMAP : Z := 222.
Definition MPROTECT : Z := 226.
Definition MADVISE : Z := 233.
Definition GETRANDOM : Z := 278.

(** [try_read] and the macro [read_arg]. *)
Definition read_arg {A} `{TryFrom A} (reg : XRegister) : M Sys (result A Error) :=
  v <- xread reg ;; mret (try_from v).

(** The macro [check_result], for handlers that give a [u64] and for those that
    also say how to go on. *)
Definition check_result (r : M Sys (result SystemCallResultExecution Error)) : M Sys (result bool Error) :=
  r <-? r ;;
  xwrite a0 (sc_result r) ;;;
  mret (Ok (control_flow r)).
Definition check_u64 (r : M Sys (result Z Error)) : M Sys (result bool Error) :=
  check_result (v <-? r ;; mret (Ok (system_call_result v))).

Definition dispatch1 {A} `{TryFrom A} (h : A -> M Sys (result bool Error)) : M Sys (result bool Error) :=
  arg1 <-? read_arg a0 ;; h arg1.
Definition dispatch2 {A B} `{TryFrom A, TryFrom B} (h : A -> B -> M Sys (result bool Error))
  : M Sys (result bool Error) :=
  arg1 <-? read_arg a0 ;; arg2 <-? read_arg a1 ;; h arg1 arg2.
Definition dispatch3 {A B C} `{TryFrom A, TryFrom B, TryFrom C}
    (h : A -> B -> C -> M Sys (result bool Error)) : M Sys (result bool Error) :=
  arg1 <-? read_arg a0 ;; arg2 <-? read_arg a1 ;; arg3 <-? read_arg a2 ;; h arg1 arg2 arg3.
Definition dispatch4 {A B C D} `{TryFrom A, TryFrom B, TryFrom C, TryFrom D}
    (h : A -> B -> C -> D -> M Sys (result bool Error)) : M Sys (result bool Error) :=
  arg1 <-? read_arg a0 ;; arg2 <-? read_arg a1 ;; arg3 <-? read_arg a2 ;; arg4 <-? read_arg a3 ;;
  h arg1 arg2 arg3 arg4.
Definition dispatch6 {A B C D E F} `{TryFrom A, TryFrom B, TryFrom C, TryFrom D, TryFrom E, TryFrom F}
    (h : A -> B -> C -> D -> E -> F -> M Sys (result bool Error)) : M Sys (result bool Error) :=
  arg1 <-? read_arg a0 ;; arg2 <-? read_arg a1 ;; arg3 <-? read_arg a2 ;; arg4 <-? read_arg a3 ;;
  arg5 <-? read_arg a4 ;; arg6 <-? read_arg a5 ;;
  h arg1 arg2 arg3 arg4 arg5 arg6.

(** The match of [handle_system_call]; [None] is the call for Tezos. *)
Definition dispatch (SBI_FIRMWARE_TEZOS system_call_no : Z) : option (M Sys (result bool Error)) :=
  let no := system_call_no in
  if no =? GETCWD then Some (dispatch2 (fun x y => check_u64 (handle_getcwd x y)))
  else if no =? FACCESSAT then Some (check_u64 handle_faccessat)
  else if no =? OPENAT then Some (check_u64 handle_openat)
  else if no =? CLOSE then Some (check_u64 handle_close)
  else if no =? READ then Some (dispatch1 (fun x => check_u64 (handle_read x)))
  else if no =? WRITE then Some (dispatch3 (fun x y z => check_u64 (handle_write x y z)))
  else if no =? WRITEV then Some (dispatch3 (fun x y z => check_u64 (handle_writev x y z)))
  else if no =? PPOLL then Some (dispatch2 (fun x y => check_u64 (handle_ppoll x y)))
  else if no =? READLINKAT then Some (check_u64 handle_readlinkat)
  else if (no =? EXIT) || (no =? EXITGROUP) then Some (dispatch1 (fun x => check_result (handle_exit x)))
  else if no =? SET_TID_ADDRESS then Some (dispatch1 (fun x => check_u64 (handle_set_tid_address x)))
  else if no =? GETPID then Some (check_u64 handle_getpid)
  else if no =? SET_ROBUST_LIST then Some (dispatch2 (fun x y => check_u64 (handle_set_robust_list x y)))
  else if no =? TKILL then Some (dispatch2 (fun x y => check_result (handle_tkill x y)))
  else if no =? SIGALTSTACK then Some (dispatch2 (fun x y => check_u64 (handle_sigaltstack x y)))
  else if no =? RT_SIGACTION then Some (dispatch4 (fun x y z t => check_u64 (handle_rt_sigaction x y z t)))
  else if no =? RT_SIGPROCMASK then Some (dispatch4 (fun x y z t => check_u64 (handle_rt_sigprocmask x y z t)))
  else if no =? BRK then Some (check_u64 handle_brk)
  else if no =? MMAP then Some (dispatch6 (fun x y z t u v => check_u64 (handle_mmap x y z t u v)))
  else if no =? MPROTECT then Some (dispatch3 (fun x y z => check_u64 (handle_mprotect x y z)))
  else if no =? MUNMAP then Some (dispatch2 (fun x y => check_u64 (handle_munmap x y)))
  else if no =? MADVISE then Some (check_u64 handle_madvise)
  else if no =? GETRANDOM then Some (dispatch2 (fun x y => check_u64 (handle_getrandom x y)))
  else if no =? CLOCK_GETTIME then Some (dispatch2 (fun x y => check_u64 (handle_clock_gettime x y)))
  else if no =? SCHED_GETAFFINITY then Some (dispatch3 (fun x y z => check_u64 (handle_sched_getaffinity x y z)))
  else if no =? GETTIMEOFDAY then Some (dispatch2 (fun x y => check_u64 (handle_gettimeofday x y)))
  else if no =? SBI_FIRMWARE_TEZOS then None
  else Some (mret (Err NoSystemCall)).

(** [write_system_call_error]. *)
Definition write_system_call_error (error : Error) : M Sys unit := xwrite a0 (into_xvalue error).

Definition handle_result (r : result bool Error) : M Sys bool :=
  match r with
  | Err NoSystemCall => write_system_call_error NoSystemCall ;;; mret false
  | Err error => write_system_call_error error ;;; mret true
  | Ok continue_eval => mret continue_eval
  end.

(** [handle_system_call]; [on_tezos] works on the core and on the state [X] that
    the caller's closure captures. *)
Definition handle_system_call {X} (SBI_FIRMWARE_TEZOS : Z) (on_tezos : M (Core * X) bool) : M (Sys * X) bool :=
  fun '(s, x) =>
    match (on_core_of (on_hart (mput (fun h => with_pc (saturating_add (pc h) 4) h))) ;;; xread a7) s with
    | None => None
    | Some (system_call_no, s) =>
        match dispatch SBI_FIRMWARE_TEZOS system_call_no with
        | Some call =>
            match (r <- call ;; handle_result r) s with
            | Some (b, s) => Some (b, (s, x))
            | None => None
            end
        | None =>
            match on_tezos (sys_core s, x) with
            | Some (b, (core, x)) => Some (b, (mkSystem core (sys_supervisor s) (sys_output s), x))
            | None => None
            end
        end
    end.
End Handlers.

(** [MachineError], without the errors of the device tree. *)
Inductive MachineError : Type := MemoryError | MemoryGovernanceError__ | MemoryTooSmall.

#[export] Instance MachineError_eq_dec : EqDecision MachineError.
Proof. solve_decision. Defined.

(** Keys into the auxiliary vector. *)
Inductive AuxVectorKey : Type := PageSize | NumProgramHeaders | ProgramHeaderSize | ProgramHeadersPtr.
Definition aux_key (key : AuxVectorKey) : Z :=
  match key with
  | PageSize => 6 | NumProgramHeaders => 5 | ProgramHeaderSize => 4 | ProgramHeadersPtr => 3
  end.

Definition STACK_PAGES : Z := 0x2000.
Definition STACK_SIZE : Z := PAGE_SIZE * STACK_PAGES.

Definition with_program (v : AddrRange) (s : SupervisorState) : SupervisorState :=
  mkSupervisor (tid_address s) (exited s) (exit_code s) v (heap s) (stack_guard s).
Definition with_heap (v : AddrRange) (s : SupervisorState) : SupervisorState :=
  mkSupervisor (tid_address s) (exited s) (exit_code s) (program s) v (stack_guard s).
Definition with_stack_guard (v : AddrRange) (s : SupervisorState) : SupervisorState :=
  mkSupervisor (tid_address s) (exited s) (exit_code s) (program s) (heap s) v.

Section Boot.
Context {Mem : Type} `{Memory Mem} (TOTAL_BYTES : Z).
Notation Sys := (System Mem).

(** Operations of main memory, with their errors as boot errors. *)
Definition mem_op {A} (f : M Mem (result A BadMemoryAccess)) : M Sys (result A MachineError) :=
  r <- on_core_of (on_memory f) ;; mret (result_map_err r (fun _ => MemoryError)).
Definition gov_op {A} (f : M Mem (result A MemoryGovernanceError)) : M Sys (result A MachineError) :=
  r <- on_core_of (on_memory f) ;; mret (result_map_err r (fun _ => MemoryGovernanceError__)).

Definition push_stack (align : Z) (data : list Z) : M Sys (result Z MachineError) :=
  stack_ptr <- xread sp ;;
  let stack_ptr := saturating_sub (saturating_sub stack_ptr (stack_ptr mod align))
                     (Z.of_nat (List.length data)) in
  xwrite sp stack_ptr ;;;
  _ <-? mem_op (mem_write_all stack_ptr data) ;;
  mret (Ok stack_ptr).

(** The iterators that push strings, collecting the addresses, and the loops that
    push values in order. *)
Fixpoint push_strings (strings : list (list Z)) : M Sys (result (list Z) MachineError) :=
  match strings with
  | [] => mret (Ok [])
  | string :: strings =>
      ptr <-? push_stack 1 string ;;
      ptrs <-? push_strings strings ;;
      mret (Ok (ptr :: ptrs))
  end.
Fixpoint push_values (values : list Z) : M Sys (result unit MachineError) :=
  match values with
  | [] => mret (Ok tt)
  | value :: values =>
      _ <-? push_stack 8 (le_bytes 8 value) ;;
      push_values values
  end.
Fixpoint push_auxv (auxv : list (AuxVectorKey * Z)) : M Sys (result unit MachineError) :=
  match auxv with
  | [] => mret (Ok tt)
  | (key, value) :: auxv =>
      _ <-? push_stack 8 (le_bytes 8 value) ;;
      _ <-? push_stack 8 (le_bytes 8 (aux_key key)) ;;
      push_auxv auxv
  end.

(** [args] and [env] with their terminating zeros. *)
Definition init_linux_stack (args env : list (list Z)) (auxv : list (AuxVectorKey * Z))
  : M Sys (result unit MachineError) :=
  arg_ptrs <-? push_strings args ;;
  env_ptrs <-? push_strings env ;;
  _ <-? push_stack 8 (le_bytes 8 0) ;;
  _ <-? push_stack 8 (le_bytes 8 0) ;;
  _ <-? push_auxv auxv ;;
  _ <-? push_stack 8 (le_bytes 8 0) ;;
  _ <-? push_values (rev env_ptrs) ;;
  _ <-? push_stack 8 (le_bytes 8 0) ;;
  _ <-? push_values (rev arg_ptrs) ;;
  _ <-? push_stack 8 (le_bytes 8 (Z.of_nat (List.length arg_ptrs))) ;;
  mret (Ok tt).

(** ** [load_program] *)
Definition program_start_of (segments : Segments) : Z :=
  match sorted_keys segments with [] => 0 | addr :: _ => addr end.
Definition program_end_of (segments : Segments) : Z :=
  foldr Z.max 0 (map (fun addr => match segments !! addr with
                                  | Some data => saturating_add addr (Z.of_nat (List.length data))
                                  | None => 0
                                  end) (sorted_keys segments)).

Fixpoint write_segments (segments : Segments) (addrs : list Z) : M Sys (result unit MachineError) :=
  match addrs with
  | [] => mret (Ok tt)
  | addr :: addrs =>
      data <- mlift (segments !! addr) ;;
      _ <-? mem_op (mem_write_all addr data) ;;
      write_segments segments addrs
  end.
Fixpoint protect_segments (perms : list MemoryPermissions) : M Sys (result unit MachineError) :=
  match perms with
  | [] => mret (Ok tt)
  | mem_perms :: perms =>
      _ <-? gov_op (mem_protect_pages (start_address mem_perms) (mp_length mem_perms) (permissions mem_perms)) ;;
      protect_segments perms
  end.

Definition or_too_small (addr : option VirtAddr) : result VirtAddr MachineError :=
  match addr with Some addr => Ok addr | None => Err MemoryTooSmall end.

Definition load_program (prog : Program) : M Sys (result unit MachineError) :=
  on_core_of (on_hart (mput (hart_reset (entrypoint prog)))) ;;;
  let program_start := program_start_of (segments prog) in
  let program_end := program_end_of (segments prog) in
  let program_length := saturating_sub program_end program_start in
  _ <-? gov_op (mem_protect_pages program_start program_length PERM_WRITE) ;;
  _ <-? write_segments (segments prog) (sorted_keys (segments prog)) ;;
  _ <-? gov_op (mem_protect_pages program_start program_length PERM_NONE) ;;
  _ <-? (match program_headers prog with
         | Some program_headers => protect_segments (header_permissions program_headers)
         | None => mret (Ok tt)
         end) ;;
  let program_start := align_down (mkVirtAddr program_start) PAGE_SIZE in
  program_end <-? mret (or_too_small (align_up (mkVirtAddr program_end) PAGE_SIZE)) ;;
  on_supervisor (with_program (mkRange program_start program_end)) ;;;
  mret (Ok tt).

(** ** [prepare_stack] *)
Definition prepare_stack : M Sys (result unit MachineError) :=
  let stack_top := mkVirtAddr TOTAL_BYTES in
  s <- mget sys_supervisor ;;
  let guarded_stack_space := va_diff stack_top (range_end (program s)) in
  if guarded_stack_space <? PAGE_SIZE then mret (Err MemoryTooSmall)
  else
    let unaligned_stack_space := Z.min STACK_SIZE (guarded_stack_space - PAGE_SIZE) in
    stack_bottom <-? mret (or_too_small (align_up (va_sub stack_top unaligned_stack_space) PAGE_SIZE)) ;;
    if va stack_top <? va stack_bottom then mret (Err MemoryTooSmall)
    else
      let stack_space := wrap 64 (va_diff stack_top stack_bottom) in
      let guard := va_sub stack_bottom PAGE_SIZE in
      _ <-? gov_op (mem_protect_pages (to_machine_address guard) PAGE_SIZE PERM_NONE) ;;
      _ <-? gov_op (mem_protect_pages (to_machine_address stack_bottom) stack_space PERM_READ_WRITE) ;;
      xwrite sp (to_machine_address stack_top) ;;;
      on_supervisor (with_stack_guard (mkRange guard stack_bottom)) ;;;
      mret (Ok tt).

(** ** [setup_linux_process] *)

(** ["tezos-smart-rollup"] and ["RUST_BACKTRACE=full"]. *)
Definition PROGRAM_NAME : list Z :=
  [116; 101; 122; 111; 115; 45; 115; 109; 97; 114; 116; 45; 114; 111; 108; 108; 117; 112; 0].
Definition ENVIRONMENT : list Z :=
  [82; 85; 83; 84; 95; 66; 65; 67; 75; 84; 82; 65; 67; 69; 61; 102; 117; 108; 108; 0].

Definition setup_linux_process (prog : Program) : M Sys (result unit MachineError) :=
  _ <-? load_program prog ;;
  _ <-? prepare_stack ;;
  auxv <-? (match program_headers prog with
            | Some prog_headers =>
                prog_headers_ptr <-? push_stack 8 (contents prog_headers) ;;
                mret (Ok [(PageSize, PAGE_SIZE); (NumProgramHeaders, num_entries prog_headers);
                          (ProgramHeaderSize, entry_size prog_headers);
                          (ProgramHeadersPtr, prog_headers_ptr)])
            | None => mret (Ok [(PageSize, PAGE_SIZE)])
            end) ;;
  _ <-? init_linux_stack [PROGRAM_NAME] [ENVIRONMENT] auxv ;;
  s <- mget sys_supervisor ;;
  heap_start <-? mret (or_too_small (align_up (range_end (program s)) PAGE_SIZE)) ;;
  on_supervisor (fun s => with_heap (mkRange heap_start (range_start (stack_guard s))) s) ;;;
  _ <-? gov_op (mem_allocate_pages (Some 0) TOTAL_BYTES true) ;;
  s <- mget sys_supervisor ;;
  _ <-? gov_op (mem_deallocate_pages (to_machine_address (range_start (heap s)))
                  (wrap 64 (va_diff (range_end (heap s)) (range_start (heap s))))) ;;
  mret (Ok tt).

(** [has_exited]. *)
Definition has_exited (s : SupervisorState) : option Z :=
  if exited s then Some (exit_code s) else None.
End Boot.
