(* ===== verification/Pvm.v ===== *)
(** * The PVM and the Tezos interface

    Models [src/riscv/lib/src/pvm/tezos.rs] and [reveals.rs]: the calls of the guest
    to the rollup, and the answers to its requests for input and reveals.  The
    constants and error codes of the Tezos interface and the cryptography are
    other crates: they are the fields of [TezosEnv].

    Models [src/riscv/lib/src/pvm/common.rs]: the machine together with the
    supervisor, the status and the counters of the rollup, its evaluation and the
    inputs it is given.  The output the guest makes during evaluation is threaded
    beside the PVM. *)

From S2P Require Import Prelude.
From S2P Require Import Registers.
From S2P Require Import Icb.
From S2P Require Import Memory.
From S2P Require Import Core.
From S2P Require Import Step.
From S2P Require Import Linux.

(** The variants of [SbiError] the code uses. *)
Inductive SbiError : Type := Failed | NotSupported | InvalidParam | InvalidAddress.

#[export] Instance SbiError_eq_dec : EqDecision SbiError.
Proof. solve_decision. Defined.

Class TezosEnv : Type := {
  SBI_FIRMWARE_TEZOS : Z;
  SBI_TEZOS_INBOX_NEXT : Z;
  SBI_TEZOS_ED25519_SIGN : Z;
  SBI_TEZOS_ED25519_VERIFY : Z;
  SBI_TEZOS_BLAKE2B_HASH256 : Z;
  SBI_TEZOS_REVEAL : Z;
  MAX_INPUT_MESSAGE_SIZE : Z;
  REVEAL_DATA_MAX_SIZE : Z;
  REVEAL_REQUEST_MAX_SIZE : Z;
  (** [code as i64]. *)
  sbi_code : SbiError -> Z;
  SigningKey : Type;
  VerifyingKey : Type;
  Signature : Type;
  signing_key : list Z -> option SigningKey;
  sign : SigningKey -> list Z -> list Z;
  verifying_key : list Z -> option VerifyingKey;
  signature_from_slice : list Z -> option Signature;
  verify_strict : VerifyingKey -> list Z -> Signature -> bool;
  digest_256 : list Z -> list Z }.

Inductive PvmStatus : Type := Evaluating | WaitingForInput | WaitingForReveal.
Definition PvmStatus_DEFAULT : PvmStatus := Evaluating.

#[export] Instance PvmStatus_eq_dec : EqDecision PvmStatus.
Proof. solve_decision. Defined.

Definition sbi_error_of_memory_access (_ : BadMemoryAccess) : SbiError := InvalidAddress.

(** ** [reveals.rs] *)
Record RevealRequest : Type := mkRevealRequest { request_bytes : list Z; request_size : Z }.

Section Tezos.
Context `{TezosEnv} {Mem : Type} `{Memory Mem}.
Notation Core := (MachineCoreState Mem).

Definition reveal_request_new : RevealRequest :=
  {| request_bytes := replicate (Z.to_nat REVEAL_REQUEST_MAX_SIZE) 0; request_size := 0 |}.

(** [to_vec]; [None] is a panic of the byte array. *)
Definition to_vec (r : RevealRequest) : option (list Z) :=
  let size := request_size r in
  cells_read_bytes (request_bytes r) 0 (Z.min size REVEAL_REQUEST_MAX_SIZE).

(** ** Results of calls *)
Definition core_read (reg : XRegister) : M Core Z := on_hart (hart_read reg).
Definition core_write (reg : XRegister) (value : Z) : M Core unit := on_hart (hart_write reg value).

Definition sbi_return_error (code : SbiError) : M Core unit := core_write a0 (wrap 64 (sbi_code code)).
Definition sbi_return1 (value : Z) : M Core unit :=
  if sext 64 value <? 0 then sbi_return_error Failed else core_write a0 value.
Definition sbi_wrap (inner : M Core (result Z SbiError)) : M Core unit :=
  r <- inner ;;
  match r with
  | Ok value => sbi_return1 value
  | Err error => sbi_return_error error
  end.

(** Operations of main memory, with their errors as errors of the calls. *)
Definition sbi_access {A} (f : M Mem (result A BadMemoryAccess)) : M Core (result A SbiError) :=
  r <- on_memory f ;; mret (result_map_err r sbi_error_of_memory_access).
(** [read_all] into a fresh vector. *)
Definition sbi_read_vec (addr len : Z) : M Core (result (list Z) SbiError) :=
  len <- mlift (zero_vec len) ;; sbi_access (mem_read_all addr len).
Definition or_failed {A} (o : option A) : result A SbiError :=
  match o with Some a => Ok a | None => Err Failed end.

(** ** Answers to requests *)

(** What [provide_input] does inside [sbi_wrap]. *)
Definition write_input (level counter : Z) (payload : list Z) : M Core (result Z SbiError) :=
  arg_buffer_addr <- core_read a0 ;;
  arg_buffer_size <- core_read a1 ;;
  arg_level_addr <- core_read a2 ;;
  arg_counter_addr <- core_read a3 ;;
  let max_buffer_size :=
    Z.min (Z.min (Z.of_nat (List.length payload)) arg_buffer_size) MAX_INPUT_MESSAGE_SIZE in
  _ <-? sbi_access (mem_write_all arg_buffer_addr (take (Z.to_nat max_buffer_size) payload)) ;;
  _ <-? sbi_access (mem_write u32 arg_level_addr level) ;;
  _ <-? sbi_access (mem_write u32 arg_counter_addr counter) ;;
  mret (Ok max_buffer_size).

Definition tezos_provide_input (level counter : Z) (payload : list Z) : M (Core * PvmStatus) bool :=
  fun '(core, status) =>
    match status with
    | WaitingForInput =>
        match sbi_wrap (write_input level counter payload) core with
        | Some (_, core) => Some (true, (core, Evaluating))
        | None => None
        end
    | _ => Some (false, (core, status))
    end.

Definition write_reveal (reveal_data : list Z) : M Core (result Z SbiError) :=
  arg_buffer_addr <- core_read a2 ;;
  arg_buffer_size <- core_read a3 ;;
  let memory_write_size :=
    Z.min REVEAL_DATA_MAX_SIZE (Z.min arg_buffer_size (Z.of_nat (List.length reveal_data))) in
  _ <-? sbi_access (mem_write_all arg_buffer_addr (take (Z.to_nat memory_write_size) reveal_data)) ;;
  mret (Ok memory_write_size).

Definition tezos_provide_reveal_response (reveal_data : list Z) : M (Core * PvmStatus) bool :=
  fun '(core, status) =>
    match status with
    | WaitingForReveal =>
        match sbi_wrap (write_reveal reveal_data) core with
        | Some (_, core) => Some (true, (core, Evaluating))
        | None => None
        end
    | _ => Some (false, (core, status))
    end.

(** ** Calls *)
Definition handle_tezos_ed25519_sign : M Core (result Z SbiError) :=
  arg_sk_addr <- core_read a0 ;;
  arg_msg_addr <- core_read a1 ;;
  arg_msg_len <- core_read a2 ;;
  arg_sig_addr <- core_read a3 ;;
  sk_bytes <-? sbi_access (mem_read_all arg_sk_addr 32) ;;
  sk <-? mret (or_failed (signing_key sk_bytes)) ;;
  msg_bytes <-? sbi_read_vec arg_msg_addr arg_msg_len ;;
  let sig_bytes := sign sk msg_bytes in
  _ <-? sbi_access (mem_write_all arg_sig_addr sig_bytes) ;;
  mret (Ok (Z.of_nat (List.length sig_bytes))).

Definition handle_tezos_ed25519_verify : M Core (result Z SbiError) :=
  arg_pk_addr <- core_read a0 ;;
  arg_sig_addr <- core_read a1 ;;
  arg_msg_addr <- core_read a2 ;;
  arg_msg_len <- core_read a3 ;;
  pk_bytes <-? sbi_access (mem_read_all arg_pk_addr 32) ;;
  sig_bytes <-? sbi_access (mem_read_all arg_sig_addr 64) ;;
  msg_bytes <-? sbi_read_vec arg_msg_addr arg_msg_len ;;
  pk <-? mret (or_failed (verifying_key pk_bytes)) ;;
  sig <-? mret (or_failed (signature_from_slice sig_bytes)) ;;
  let valid := verify_strict pk msg_bytes sig in
  mret (Ok (if valid then 1 else 0)).

Definition handle_tezos_blake2b_hash256 : M Core (result Z SbiError) :=
  arg_out_addr <- core_read a0 ;;
  arg_msg_addr <- core_read a1 ;;
  arg_msg_len <- core_read a2 ;;
  msg_bytes <-? sbi_read_vec arg_msg_addr arg_msg_len ;;
  let hash := digest_256 msg_bytes in
  _ <-? sbi_access (mem_write_all arg_out_addr hash) ;;
  mret (Ok (Z.of_nat (List.length hash))).

(** The state the closure of the PVM captures, next to the core. *)
Notation TezosState := (Core * (PvmStatus * RevealRequest))%type.
Definition on_tezos_core {A} (f : M Core A) : M TezosState A :=
  fun '(core, x) => match f core with Some (a, core) => Some (a, (core, x)) | None => None end.

Definition handle_tezos_inbox_next : M TezosState unit :=
  mput (fun '(core, (_, reveal_request)) => (core, (WaitingForInput, reveal_request))).

(** [write_all(0, ..)] on the bytes of the request. *)
Definition set_request (bytes : list Z) (size : Z) : M TezosState unit := fun '(core, (_, r)) =>
  match cells_write_bytes (request_bytes r) 0 bytes with
  | Some cells => Some (tt, (core, (WaitingForReveal, mkRevealRequest cells size)))
  | None => None
  end.

Definition handle_tezos_reveal : M TezosState unit :=
  request_address <- on_tezos_core (core_read a0) ;;
  request_size <- on_tezos_core (core_read a1) ;;
  r <- on_tezos_core (on_memory (mem_read_all request_address (Z.min request_size REVEAL_REQUEST_MAX_SIZE))) ;;
  match r with
  | Err _ => on_tezos_core (sbi_return_error InvalidAddress)
  | Ok buffer => set_request buffer request_size
  end.

Definition handle_not_supported : M Core unit := sbi_return_error NotSupported.

Definition handle_tezos : M TezosState unit :=
  sbi_function <- on_tezos_core (core_read a6) ;;
  if sbi_function =? SBI_TEZOS_INBOX_NEXT then handle_tezos_inbox_next
  else if sbi_function =? SBI_TEZOS_ED25519_SIGN then on_tezos_core (sbi_wrap handle_tezos_ed25519_sign)
  else if sbi_function =? SBI_TEZOS_ED25519_VERIFY then on_tezos_core (sbi_wrap handle_tezos_ed25519_verify)
  else if sbi_function =? SBI_TEZOS_BLAKE2B_HASH256 then on_tezos_core (sbi_wrap handle_tezos_blake2b_hash256)
  else if sbi_function =? SBI_TEZOS_REVEAL then handle_tezos_reveal
  else on_tezos_core handle_not_supported.
End Tezos.

Inductive PvmInput : Type :=
| InboxMessage (inbox_level message_counter : Z) (payload : list Z)
| Reveal (reveal_data : list Z).

Definition INITIAL_VERSION : Z := 0.

Record Pvm (Mem BC : Type) : Type := mkPvm {
  machine_state : MachineCoreState Mem * BC;
  reveal_request : RevealRequest;
  system_state : SupervisorState;
  version : Z;
  tick : Z;
  message_counter : Z;
  level : Z;
  level_is_set : bool;
  status : PvmStatus }.
Arguments mkPvm {Mem BC}.
Arguments machine_state {Mem BC}.
Arguments reveal_request {Mem BC}.
Arguments system_state {Mem BC}.
Arguments version {Mem BC}.
Arguments tick {Mem BC}.
Arguments message_counter {Mem BC}.
Arguments level {Mem BC}.
Arguments level_is_set {Mem BC}.
Arguments status {Mem BC}.

Section Pvm.
Context `{TezosEnv} {Mem BC : Type} `{Memory Mem} `{!BlockCache BC Mem}.
Notation Core := (MachineCoreState Mem).
Notation P := (Pvm Mem BC).

(** The parts of the PVM the evaluation borrows, with the output. *)
Definition borrow (p : P) (output : list Z) : Core * BC * (SupervisorState * PvmStatus * RevealRequest * list Z) :=
  (machine_state p, (system_state p, status p, reveal_request p, output)).
Definition give_back (p : P) (ms : Core * BC) (x : SupervisorState * PvmStatus * RevealRequest * list Z)
  : P * list Z :=
  let '(supervisor, st, request, output) := x in
  (mkPvm ms request supervisor (version p) (tick p) (message_counter p) (level p) (level_is_set p) st, output).

Definition with_tick (v : Z) (p : P) : P :=
  mkPvm (machine_state p) (reveal_request p) (system_state p) (version p) v (message_counter p) (level p)
    (level_is_set p) (status p).
Definition with_status (v : PvmStatus) (p : P) : P :=
  mkPvm (machine_state p) (reveal_request p) (system_state p) (version p) (tick p) (message_counter p)
    (level p) (level_is_set p) v.
(** [tick.write(tick.read().wrapping_add(n))]. *)
Definition add_ticks (n : Z) (p : P) : P := with_tick (wrap 64 (tick p + n)) p.

Definition pvm_reset : M P unit := fun p =>
  match machine_reset (machine_state p) with
  | Some (_, ms) =>
      Some (tt, mkPvm ms (reveal_request p) (system_state p) INITIAL_VERSION 0 0 0 false PvmStatus_DEFAULT)
  | None => None
  end.

(** The free function [handle_system_call], on the parts it borrows. *)
Definition on_tezos : M (Core * (PvmStatus * RevealRequest)) bool :=
  handle_tezos ;;;
  mget (fun '(_, (status, _)) => bool_decide (status = Evaluating)).
Definition pvm_handle_system_call
  : M (Core * (SupervisorState * PvmStatus * RevealRequest * list Z)) bool :=
  fun '(core, (supervisor, st, request, output)) =>
    match handle_system_call SBI_FIRMWARE_TEZOS on_tezos (mkSystem core supervisor output, (st, request)) with
    | Some (b, (s, (st, request))) =>
        Some (b, (sys_core s, (sys_supervisor s, st, request, sys_output s)))
    | None => None
    end.

Definition provide_reveal_error_response : M P unit := fun p =>
  let '(core, bc) := machine_state p in
  match core_write a0 (wrap 64 (sbi_code InvalidParam)) core with
  | Some (_, core) =>
      let p := mkPvm (core, bc) (reveal_request p) (system_state p) (version p) (tick p) (message_counter p)
                 (level p) (level_is_set p) (status p) in
      Some (tt, with_status Evaluating (add_ticks 1 p))
  | None => None
  end.

(** [handle_exception], whose result [eval_one] drops. *)
Definition handle_exception (p : P) (output : list Z) (_ : EnvironException) : option (bool * (P * list Z)) :=
  let '((core, bc), x) := borrow p output in
  match pvm_handle_system_call (core, x) with
  | Some (b, (core, x)) => Some (b, give_back p (core, bc) x)
  | None => None
  end.

Definition eval_one : M (P * list Z) unit := fun '(p, output) =>
  match status p with
  | WaitingForReveal =>
      match provide_reveal_error_response p with
      | Some (_, p) => Some (tt, (p, output))
      | None => None
      end
  | _ =>
      match step (machine_state p) with
      | None => None
      | Some (r, ms) =>
          let '(p, output) := give_back p ms (snd (borrow p output)) in
          match (match r with
                 | Err exc => handle_exception p output exc
                 | Ok _ => Some (true, (p, output))
                 end) with
          | Some (_, (p, output)) => Some (tt, (add_ticks 1 p, output))
          | None => None
          end
      end
  end.
(** The handler that [eval_max] gives to the machine. *)
Definition eval_handler (_ : EnvironException)
  : M (Core * BC * (SupervisorState * PvmStatus * RevealRequest * list Z)) (result bool Empty_set) :=
  fun '((core, bc), x) =>
    match pvm_handle_system_call (core, x) with
    | Some (b, (core, x)) => Some (Ok b, ((core, bc), x))
    | None => None
    end.

(** [eval_max]; the fuels are those of [step_max_handle]. *)
Definition eval_max (fuel inner_fuel : nat) (step_bounds : Bound) : M (P * list Z) Z := fun '(p, output) =>
  if negb (less_than_bound 0 step_bounds) then Some (0, (p, output))
  else
    match status p with
    | WaitingForReveal =>
        match provide_reveal_error_response p with
        | Some (_, p) => Some (1, (p, output))
        | None => None
        end
    | _ =>
        match step_max_handle fuel inner_fuel step_bounds eval_handler (borrow p output) with
        | Some (res, (ms, x)) =>
            let '(p, output) := give_back p ms x in
            Some (steps res, (add_ticks (steps res) p, output))
        | None => None
        end
    end.

(** ** Inputs *)

(** Running an operation of the Tezos interface on the core and the status. *)
Definition on_core_and_status {A} (f : M (Core * PvmStatus) A) : M P A := fun p =>
  let '(core, bc) := machine_state p in
  match f (core, status p) with
  | Some (a, (core, st)) =>
      Some (a, mkPvm (core, bc) (reveal_request p) (system_state p) (version p) (tick p) (message_counter p)
                 (level p) (level_is_set p) st)
  | None => None
  end.

Definition provide_inbox_message (new_level counter : Z) (payload : list Z) : M P bool :=
  expected <- on_core_and_status (tezos_provide_input new_level counter payload) ;;
  if negb expected then mret false
  else
    mput (add_ticks 1) ;;;
    mput (fun p => mkPvm (machine_state p) (reveal_request p) (system_state p) (version p) (tick p) counter
                     new_level true (status p)) ;;;
    mret true.

Definition provide_reveal_response (reveal_data : list Z) : M P bool :=
  expected <- on_core_and_status (tezos_provide_reveal_response reveal_data) ;;
  if negb expected then mret false
  else mput (add_ticks 1) ;;; mret true.

(** [provide_input]; the counter is truncated to 32 bits. *)
Definition provide_input (input : PvmInput) : M P bool :=
  match input with
  | InboxMessage inbox_level message_counter payload =>
      provide_inbox_message inbox_level (wrap 32 message_counter) payload
  | Reveal reveal_data => provide_reveal_response reveal_data
  end.

Definition pvm_reveal_request (p : P) : option (list Z) := to_vec (reveal_request p).
End Pvm.
