(* ===== verification/Stepper.v ===== *)
(** * The stepper

    Models [src/riscv/lib/src/stepper.rs], [stepper/pvm.rs] and [stepper/pvm/reveals.rs]:
    a PVM stepped over the messages of an inbox and the answers to its reveals.  The
    proofs of steps are in [Layouts].  The inbox, the names of preimage files and the
    lengths of the rollup's constants are other crates: the class [StepperEnv].  The
    directory of preimages is a map from names to contents. *)

From stdpp Require Import gmap strings pretty.
From S2P Require Import Prelude.
From S2P Require Import Registers.
From S2P Require Import Icb.
From S2P Require Import Memory.
From S2P Require Import Core.
From S2P Require Import Step.
From S2P Require Import Linux.
From S2P Require Import Pvm.

(** ** The status of a stepper *)
Inductive StepperStatus : Type :=
| Running (steps : Z)
| Exited (steps : Z) (success : bool) (status : string)
| Errored (steps : Z) (cause message : string).

#[export] Instance StepperStatus_eq_dec : EqDecision StepperStatus.
Proof. solve_decision. Defined.

Definition stepper_steps (self : StepperStatus) : Z :=
  match self with Running steps | Exited steps _ _ | Errored steps _ _ => steps end.
Definition StepperStatus_default : StepperStatus := Running 0.

(** [AddAssign]. *)
Definition add_assign (self rhs : StepperStatus) : StepperStatus :=
  match self with
  | Running prev_steps =>
      match rhs with
      | Running steps => Running (saturating_add steps prev_steps)
      | Exited steps success status => Exited (saturating_add steps prev_steps) success status
      | Errored steps cause message => Errored (saturating_add steps prev_steps) cause message
      end
  | Exited _ _ _ | Errored _ _ _ => self
  end.

(** ** The environment *)
Class StepperEnv : Type := {
  Inbox : Type;
  inbox_next : Inbox -> option (Z * Z * list Z) * Inbox;
  hex_encode : list Z -> string;
  METADATA_LENGTH : Z;
  PREIMAGE_HASH_SIZE : Z;
  ROLLUP_ADDRESS_LENGTH : Z }.

(** ** Answers to reveals *)
Record RevealRequestResponseMap : Type := mkRevealMap {
  reveal_map : gmap (list Z) (list Z);
  preimages_dir : option (gmap string (list Z)) }.

Section Reveals.
Context `{TezosEnv, StepperEnv}.

Definition add_static (request response : list Z) (self : RevealRequestResponseMap) : RevealRequestResponseMap :=
  mkRevealMap (<[request := response]> (reveal_map self)) (preimages_dir self).

(** [copy_from_slice] panics unless the address and the level fill the buffer. *)
Definition add_metadata (rollup_address : list Z) (origination_level : Z) (self : RevealRequestResponseMap)
  : option RevealRequestResponseMap :=
  if (Z.of_nat (length rollup_address) =? ROLLUP_ADDRESS_LENGTH) && (METADATA_LENGTH - ROLLUP_ADDRESS_LENGTH =? 4) then
    Some (add_static [1] (rollup_address ++ rev (le_bytes 4 origination_level)) self)
  else None.

Definition reveal_map_new (rollup_address : list Z) (origination_level : Z) (preimages_dir : option (gmap string (list Z)))
  : option RevealRequestResponseMap :=
  add_metadata rollup_address origination_level (mkRevealMap ∅ preimages_dir).

Definition check_preimage_hash (preimage preimage_hash : list Z) : bool :=
  if negb (Z.of_nat (length preimage_hash) =? PREIMAGE_HASH_SIZE) || negb (bool_decide (preimage_hash !! 0%nat = Some 0))
  then false
  else bool_decide (drop 1 preimage_hash = digest_256 preimage).

Definition load_response_from_disk (request : list Z) (self : RevealRequestResponseMap) : option (list Z) :=
  match preimages_dir self with
  | None => None
  | Some dir =>
      if negb (bool_decide (head request = Some 0)) then None
      else
        let preimage_hash := drop 1 request in
        match dir !! hex_encode preimage_hash with
        | None => None
        | Some content => if check_preimage_hash content preimage_hash then Some content else None
        end
  end.

Definition get_response (request : list Z) (self : RevealRequestResponseMap) : option (list Z) :=
  match reveal_map self !! request with
  | Some response => Some response
  | None => load_response_from_disk request self
  end.
End Reveals.

(** ** Stepping *)

(** [Pvm::has_exited]. *)
Definition has_exited {Mem BC} (p : Pvm Mem BC) : option Z :=
  if exited (system_state p) then Some (exit_code (system_state p)) else None.

Record PvmStepper `{StepperEnv} (Mem BC : Type) : Type := mkStepper {
  pvm : Pvm Mem BC;
  hooks : list Z;
  inbox : Inbox;
  rollup_address : list Z;
  origination_level : Z;
  reveal_request_response_map : RevealRequestResponseMap }.
Arguments mkStepper {_ Mem BC}.
Arguments pvm {_ Mem BC}.
Arguments hooks {_ Mem BC}.
Arguments inbox {_ Mem BC}.
Arguments rollup_address {_ Mem BC}.
Arguments origination_level {_ Mem BC}.
Arguments reveal_request_response_map {_ Mem BC}.

Section Stepper.
Context `{TezosEnv, StepperEnv} {Mem BC : Type} `{Memory Mem} `{!BlockCache BC Mem}.
Notation P := (Pvm Mem BC).
Notation S := (PvmStepper Mem BC).

(** The stepper with another PVM, output and inbox. *)
Definition with_pvm (p : P) (out : list Z) (i : Inbox) (s : S) : S :=
  mkStepper p out i (rollup_address s) (origination_level s) (reveal_request_response_map s).

(** An answer is given: one step, or an error when it is not expected. *)
Definition answered (cause message : string) (success : bool) : StepperStatus :=
  if success then Running 1 else Errored 0 cause message.

(** The fuels are those of [eval_max]. *)
Definition step_max_once (fuel inner_fuel : nat) (steps : Bound) : M S StepperStatus := fun s =>
  match has_exited (pvm s) with
  | Some exit_code => Some (Exited 0 (exit_code =? 0) ("Exited with code " +:+ pretty exit_code), s)
  | None =>
      match status (pvm s) with
      | Evaluating =>
          match eval_max fuel inner_fuel steps (pvm s, hooks s) with
          | Some (steps, (p, out)) => Some (Running steps, with_pvm p out (inbox s) s)
          | None => None
          end
      | WaitingForInput =>
          match inbox_next (inbox s) with
          | (Some (level, counter, payload), i) =>
              match provide_inbox_message level counter payload (pvm s) with
              | Some (success, p) =>
                  Some (answered "PVM was waiting for input" "Providing input did not succeed" success,
                        with_pvm p (hooks s) i s)
              | None => None
              end
          | (None, i) => Some (Exited 0 true "Inbox has been drained", with_pvm (pvm s) (hooks s) i s)
          end
      | WaitingForReveal =>
          match pvm_reveal_request (pvm s) with
          | None => None
          | Some reveal_request =>
              match get_response reveal_request (reveal_request_response_map s) with
              | None =>
                  match provide_reveal_error_response (pvm s) with
                  | Some (_, p) => Some (Running 1, with_pvm p (hooks s) (inbox s) s)
                  | None => None
                  end
              | Some reveal_response =>
                  match provide_reveal_response reveal_response (pvm s) with
                  | Some (success, p) =>
                      Some (answered "PVM was waiting for reveal response" "Providing reveal response did not succeed" success,
                            with_pvm p (hooks s) (inbox s) s)
                  | None => None
                  end
              end
          end
      end
  end.

Definition try_step (fuel inner_fuel : nat) : M S bool :=
  r <- step_max_once fuel inner_fuel (Included 1) ;;
  mret (match r with
        | Running steps | Exited steps _ _ => steps =? 1
        | Errored _ _ _ => false
        end).

Definition stepper_eval_one : M S unit := fun s =>
  match eval_one (pvm s, hooks s) with
  | Some (_, (p, out)) => Some (tt, with_pvm p out (inbox s) s)
  | None => None
  end.

(** The loop of [Stepper::step_max]. *)
Fixpoint stepper_loop (turns fuel inner_fuel : nat) (total_steps : Z) (step_bounds : Bound) : M S StepperStatus :=
  match turns with
  | O => mpanic
  | Datatypes.S turns =>
      r <- step_max_once fuel inner_fuel step_bounds ;;
      match r with
      | Running steps =>
          let total_steps := saturating_add total_steps steps in
          let step_bounds := bound_saturating_sub step_bounds steps in
          if steps <? 1 then mret (Running total_steps)
          else stepper_loop turns fuel inner_fuel total_steps step_bounds
      | Exited steps success status => mret (Exited (saturating_add total_steps steps) success status)
      | Errored steps cause message => mret (Errored (saturating_add total_steps steps) cause message)
      end
  end.
Definition stepper_step_max (turns fuel inner_fuel : nat) (step_bounds : Bound) : M S StepperStatus :=
  stepper_loop turns fuel inner_fuel 0 step_bounds.
End Stepper.
