(* ===== verification/BlockCache.v ===== *)
(** * The block cache

    Models [src/riscv/lib/src/cache_utils.rs] and the interpreted block cache of
    [src/riscv/lib/src/machine_state/block_cache/]: blocks of instructions
    ([block.rs], [block/interpreted.rs]), the entries, the partially run block and
    the cache itself ([state.rs]), its geometry ([config.rs]) and the calls of
    blocks ([../block_cache.rs]).

    The instance [block_cache] is the implementation of the interface that the
    machine uses.  A failed [debug_assert!] is [None], as any panic. *)

From S2P Require Import Prelude.
From S2P Require Import Instr.
From S2P Require Import Instruction.
From S2P Require Import Icb.
From S2P Require Import Memory.
From S2P Require Import Core.
From S2P Require Import Run.
From S2P Require Import Step.

(** [u64::MAX], the address [!0]. *)
Definition NO_ADDRESS : Z := 2 ^ 64 - 1.

(** ** Fence counters: [u32] *)
Definition INITIAL : Z := 0.
Definition fence_next (counter : Z) : Z := wrap 32 (counter + 1).

(** ** Blocks *)
Definition CACHE_INSTR : Z := 20.
Definition Instruction_DEFAULT : Instruction :=
  {| i_opcode := OpCodes.Unknown; i_args := Instruction.DEFAULT |}.

(** [instr] is the array, [len_instr] a [u8]; the function of an instruction is
    derived from its opcode when it is stored and when it is loaded. *)
Record Interpreted : Type := mkInterpreted { slots : list Instruction; len_instr : Z }.

Definition block_new : Interpreted :=
  {| slots := replicate (Z.to_nat CACHE_INSTR) Instruction_DEFAULT; len_instr := 0 |}.
Definition num_instr (b : Interpreted) : Z := len_instr b.
(** [&self.instr[..self.num_instr()]]. *)
Definition block_instr (b : Interpreted) : option (list Instruction) :=
  if num_instr b <=? Z.of_nat (length (slots b)) then Some (take (Z.to_nat (num_instr b)) (slots b))
  else None.
Definition block_invalidate (b : Interpreted) : Interpreted :=
  {| slots := slots b; len_instr := 0 |}.
Definition block_push_instr (instr : Instruction) (b : Interpreted) : option Interpreted :=
  let len := len_instr b in
  if len <? Z.of_nat (length (slots b)) then
    Some {| slots := <[Z.to_nat len := instr]> (slots b); len_instr := len + 1 |}
  else None.
Definition block_reset (b : Interpreted) : Interpreted :=
  {| slots := (fun _ => Instruction_DEFAULT) <$> slots b; len_instr := 0 |}.
Definition start_block (b : Interpreted) : Interpreted :=
  {| slots := slots b; len_instr := 0 |}.

(** ** Running blocks *)
Section RunBlock.
Context {Mem : Type} `{Memory Mem}.
Notation Core := (MachineCoreState Mem).

(** [run_instr] of [block_cache.rs]. *)
Definition run_cached_instr (instr : Instruction)
  : M Core (result (ProgramCounterUpdate Z) Exception) :=
  f <- mlift (instruction_run instr) ;; f.

(** The loop of [run_block_inner], from the result [res] so far; it also gives
    the program counter that [instr_pc] points to. *)
Fixpoint run_block_loop (instrs : list Instruction) (instr_pc : Z) (res : StepManyResult Exception)
  : M Core (Z * StepManyResult Exception) :=
  match instrs with
  | [] => mret (instr_pc, res)
  | instr :: instrs =>
      r <- run_cached_instr instr ;;
      match r with
      | Ok (Next width) =>
          let instr_pc := wrap 64 (instr_pc + width_bytes width) in
          on_hart (mput (with_pc instr_pc)) ;;;
          run_block_loop instrs instr_pc {| steps := steps res + 1; error := error res |}
      | Ok (Set_ new_pc) =>
          on_hart (mput (with_pc new_pc)) ;;;
          mret (instr_pc, {| steps := steps res + 1; error := error res |})
      | Err e => mret (instr_pc, {| steps := steps res; error := Some e |})
      end
  end.
Definition run_block_inner (instrs : list Instruction) (instr_pc : Z)
  : M Core (Z * StepManyResult Exception) := run_block_loop instrs instr_pc ZERO.

(** [Interpreted::run_block]. *)
Definition interpreted_run_block (b : Interpreted) (instr_pc : Z)
  : M Core (StepManyResult EnvironException) :=
  instrs <- mlift (block_instr b) ;;
  r <- run_block_inner instrs instr_pc ;;
  let '(instr_pc, res) := r in
  match error res with
  | Some exc =>
      h <- handle_step_result instr_pc (Err exc) ;;
      match h with
      | Err err => mret {| steps := steps res; error := Some err |}
      | Ok _ => mret {| steps := steps res + 1; error := None |}
      end
  | None => mret {| steps := steps res; error := None |}
  end.

End RunBlock.

(** ** Entries *)
Record Cached : Type := mkCached { block : Interpreted; address : Z; c_fence_counter : Z }.

Definition cached_new : Cached :=
  {| block := block_new; address := NO_ADDRESS; c_fence_counter := INITIAL |}.
Definition cached_invalidate (c : Cached) : Cached :=
  {| block := block_invalidate (block c); address := NO_ADDRESS;
     c_fence_counter := c_fence_counter c |}.
Definition cached_reset (c : Cached) : Cached :=
  {| block := block_reset (block c); address := NO_ADDRESS; c_fence_counter := INITIAL |}.
Definition cached_start_block (block_addr fence_counter : Z) (c : Cached) : Cached :=
  {| block := start_block (block c); address := block_addr; c_fence_counter := fence_counter |}.
Definition cached_push_instr (instr : Instruction) (c : Cached) : option Cached :=
  match block_push_instr instr (block c) with
  | Some b => Some {| block := b; address := address c; c_fence_counter := c_fence_counter c |}
  | None => None
  end.

(** ** Partial blocks *)
Record PartialBlock : Type := mkPartialBlock { addr : Z; in_progress : bool; progress : Z }.

Definition partial_reset (_ : PartialBlock) : PartialBlock :=
  {| addr := 0; in_progress := false; progress := 0 |}.
Definition partial_new : PartialBlock := {| addr := 0; in_progress := false; progress := 0 |}.

Section Partial.
Context {Mem : Type} `{Memory Mem}.
Notation Core := (MachineCoreState Mem).

(** How the loop of [run_partial_inner] ends: it returns, or it runs on to the
    end of the function with the progress made and the result. *)
Inductive Loop : Type :=
| Returned (res : StepManyResult EnvironException)
| Broke (progress : Z) (res : StepManyResult EnvironException).

Definition run_on_core {A} (f : M Core A) : M (Core * PartialBlock) A :=
  fun '(core, p) => match f core with Some (a, core) => Some (a, (core, p)) | None => None end.
Definition on_partial (f : PartialBlock -> PartialBlock) : M (Core * PartialBlock) unit :=
  fun '(core, p) => Some (tt, (core, f p)).
Definition set_progress (v : Z) (p : PartialBlock) : PartialBlock :=
  {| addr := addr p; in_progress := in_progress p; progress := v |}.

Fixpoint run_partial_loop (instrs : list Instruction) (max_steps progress instr_pc : Z)
    (res : StepManyResult EnvironException) : M (Core * PartialBlock) Loop :=
  match instrs with
  | [] => mret (Broke progress res)
  | instr :: instrs =>
      r <- run_on_core (run_cached_instr instr) ;;
      match r with
      | Ok (Next width) =>
          let instr_pc := wrap 64 (instr_pc + width_bytes width) in
          run_on_core (on_hart (mput (with_pc instr_pc))) ;;;
          let res := {| steps := steps res + 1; error := error res |} in
          let progress := progress + 1 in
          if max_steps <=? steps res then mret (Broke progress res)
          else run_partial_loop instrs max_steps progress instr_pc res
      | Ok (Set_ new_pc) =>
          run_on_core (on_hart (mput (with_pc new_pc))) ;;;
          on_partial partial_reset ;;;
          mret (Returned {| steps := steps res + 1; error := error res |})
      | Err e =>
          on_partial partial_reset ;;;
          h <- run_on_core (handle_step_result instr_pc (Err e)) ;;
          match h with
          | Err err => mret (Returned {| steps := steps res; error := Some err |})
          | Ok _ => mret (Returned {| steps := steps res + 1; error := error res |})
          end
      end
  end.

Definition run_partial_inner (max_steps : Z) (entry : Cached)
  : M (Core * PartialBlock) (StepManyResult EnvironException) :=
  if max_steps =? 0 then mret ZERO
  else
    p <- mget (fun s => progress (snd s)) ;;
    instr_pc <- run_on_core (on_hart (mget pc)) ;;
    instrs <- mlift (block_instr (block entry)) ;;
    if p <=? Z.of_nat (length instrs) then
      r <- run_partial_loop (drop (Z.to_nat p) instrs) max_steps p instr_pc ZERO ;;
      match r with
      | Returned res => mret res
      | Broke p res =>
          (if p =? num_instr (block entry) then on_partial partial_reset
           else on_partial (set_progress p)) ;;;
          mret res
      end
    else mpanic.

Definition run_block_partial (max_steps : Z) (entry : Cached)
  : M (Core * PartialBlock) (StepManyResult EnvironException) :=
  on_partial (fun _ => {| addr := address entry; in_progress := true; progress := 0 |}) ;;;
  run_partial_inner max_steps entry.

End Partial.

(** ** The cache *)
Record BlockCacheState : Type := mkBlockCache {
  current_block_addr : Z;
  next_instr_addr : Z;
  fence_counter : Z;
  partial_block : PartialBlock;
  entries : list Cached }.

Definition with_partial_block (p : PartialBlock) (bc : BlockCacheState) : BlockCacheState :=
  mkBlockCache (current_block_addr bc) (next_instr_addr bc) (fence_counter bc) p (entries bc).
Definition with_entries (es : list Cached) (bc : BlockCacheState) : BlockCacheState :=
  mkBlockCache (current_block_addr bc) (next_instr_addr bc) (fence_counter bc) (partial_block bc) es.
Definition with_fence_counter (v : Z) (bc : BlockCacheState) : BlockCacheState :=
  mkBlockCache (current_block_addr bc) (next_instr_addr bc) v (partial_block bc) (entries bc).
Definition with_next_instr_addr (v : Z) (bc : BlockCacheState) : BlockCacheState :=
  mkBlockCache (current_block_addr bc) v (fence_counter bc) (partial_block bc) (entries bc).
Definition with_current_block_addr (v : Z) (bc : BlockCacheState) : BlockCacheState :=
  mkBlockCache v (next_instr_addr bc) (fence_counter bc) (partial_block bc) (entries bc).

Definition FenceCounter_MAX : Z := 2 ^ 32 - 1.

Section Cache.
(** The number of entries: [CACHE_SIZE]. *)
Context (SIZE : Z).

(** The checks at compile time of [CACHE_SIZE] and [fence_counter_wrapping_protection]. *)
Definition is_power_of_two (n : Z) : bool := (0 <? n) && (n =? 2 ^ Z.log2 n).
Definition fence_counter_wrapping_protection : bool := SIZE <? FenceCounter_MAX.
Definition config_ok : bool := is_power_of_two SIZE && fence_counter_wrapping_protection.

Definition CACHE_MASK : Z := SIZE - 1.
Definition cache_index (addr : Z) : Z := Z.land (Z.shiftr addr 1) CACHE_MASK.

Definition cache_new : BlockCacheState :=
  {| current_block_addr := NO_ADDRESS; next_instr_addr := NO_ADDRESS; fence_counter := INITIAL;
     partial_block := partial_new; entries := replicate (Z.to_nat SIZE) cached_new |}.

Definition entry (es : list Cached) (addr : Z) : option Cached := es !! Z.to_nat (cache_index addr).

(** An update through [entry_mut]. *)
Definition entry_mut (addr : Z) (f : Cached -> option Cached) : M BlockCacheState unit :=
  fun bc =>
    match entry (entries bc) addr with
    | Some e =>
        match f e with
        | Some e => Some (tt, with_entries (<[Z.to_nat (cache_index addr) := e]> (entries bc)) bc)
        | None => None
        end
    | None => None
    end.
Definition read_entry (addr : Z) : M BlockCacheState Cached :=
  es <- mget entries ;; mlift (entry es addr).

Definition reset_to (addr : Z) : M BlockCacheState unit :=
  mput (with_current_block_addr addr) ;;;
  mput (with_next_instr_addr 0).

(** The loop of [cache_inner] over [i] in [0 .. n - 1], the instructions of the adjacent
    block: [indices] are those left. *)
Fixpoint push_adjacent (indices : list Z) (block_addr next_addr : Z) : M BlockCacheState unit :=
  match indices with
  | [] => mret tt
  | i :: indices =>
      new_block <- read_entry next_addr ;;
      instrs <- mlift (block_instr (block new_block)) ;;
      new_instr <- mlift (instrs !! Z.to_nat i) ;;
      entry_mut block_addr (cached_push_instr new_instr) ;;;
      push_adjacent indices block_addr next_addr
  end.

(** The entry that [cache_inner] extends, started when it has to be: the address
    of its block, and the number of its instructions. *)
Definition current_entry (addr : Z) : M BlockCacheState (Z * Z) :=
  block_addr <- mget current_block_addr ;;
  fence <- mget fence_counter ;;
  e <- read_entry block_addr ;;
  let start := address e in
  let len_instr := num_instr (block e) in
  if negb (start =? block_addr) || (start =? addr) then
    entry_mut block_addr (fun e => Some (cached_start_block block_addr fence e)) ;;;
    mret (block_addr, 0)
  else if len_instr =? CACHE_INSTR then
    reset_to addr ;;;
    entry_mut addr (fun e => Some (cached_start_block addr fence e)) ;;;
    mret (addr, 0)
  else mret (block_addr, len_instr).

(** The second half of [cache_inner]: the block found at the next address is
    appended to the current one, of [new_len] instructions. *)
Definition merge_adjacent (block_addr next_addr new_len : Z) : M BlockCacheState unit :=
  fence <- mget fence_counter ;;
  possible_block <- read_entry next_addr ;;
  if (address possible_block =? next_addr) && (c_fence_counter possible_block =? fence)
     && negb (Z.land next_addr OFFSET_MASK =? 0)
     && (num_instr (block possible_block) + new_len <=? CACHE_INSTR)
  then
    push_adjacent (seqZ 0 (num_instr (block possible_block))) block_addr next_addr ;;;
    mput (with_next_instr_addr NO_ADDRESS) ;;;
    mput (with_current_block_addr NO_ADDRESS)
  else mret tt.

Definition cache_inner (WIDTH addr : Z) (instr : Instruction) : M BlockCacheState unit :=
  b <- current_entry addr ;;
  let '(block_addr, len_instr) := b in
  entry_mut block_addr (cached_push_instr instr) ;;;
  let new_len := len_instr + 1 in
  let next_addr := wrap 64 (addr + WIDTH) in
  mput (with_next_instr_addr next_addr) ;;;
  merge_adjacent block_addr next_addr new_len.

Definition cache_reset : M BlockCacheState unit :=
  mput (with_fence_counter INITIAL) ;;;
  reset_to NO_ADDRESS ;;;
  mput (fun bc => with_entries (cached_reset <$> entries bc) bc) ;;;
  mput (fun bc => with_partial_block (partial_reset (partial_block bc)) bc).

Definition cache_invalidate : M BlockCacheState unit :=
  counter <- mget fence_counter ;;
  mput (with_fence_counter (fence_next counter)) ;;;
  reset_to NO_ADDRESS ;;;
  entry_mut counter (fun e => Some (cached_invalidate e)).

Definition start_of_block (addr : Z) : M BlockCacheState unit :=
  next_addr <- mget next_instr_addr ;;
  if (Z.land addr OFFSET_MASK =? 0) || negb (addr =? next_addr) then reset_to addr else mret tt.

Definition debug_assert {S} (b : bool) : M S unit := if b then mret tt else mpanic.

Definition push_instr_compressed (addr : Z) (instr : Instruction) : M BlockCacheState unit :=
  debug_assert (bool_decide (a_width (i_args instr) = Compressed)) ;;;
  start_of_block addr ;;;
  cache_inner (width_bytes Compressed) addr instr.

Definition push_instr_uncompressed (addr : Z) (instr : Instruction) : M BlockCacheState unit :=
  debug_assert (bool_decide (a_width (i_args instr) = Uncompressed)) ;;;
  let END_OF_PAGE := PAGE_SIZE - 2 in
  if addr mod PAGE_SIZE =? END_OF_PAGE then mret tt
  else
    start_of_block addr ;;;
    cache_inner (width_bytes Uncompressed) addr instr.

Section Calls.
Context {Mem : Type} `{Memory Mem}.
Notation Core := (MachineCoreState Mem).

(** Code on the core and the partial block of the cache. *)
Definition with_partial {A} (f : M (Core * PartialBlock) A) : M (Core * BlockCacheState) A :=
  fun '(core, bc) =>
    match f (core, partial_block bc) with
    | Some (a, (core, p)) => Some (a, (core, with_partial_block p bc))
    | None => None
    end.

(** [BlockCall::run_block]. *)
Definition block_call_run (e : Cached) (instr_pc max_steps : Z)
  : M (Core * BlockCacheState) (StepManyResult EnvironException) :=
  if num_instr (block e) <=? max_steps then
    with_partial (run_on_core (interpreted_run_block (block e) instr_pc))
  else with_partial (run_block_partial max_steps e).

Definition get_block (addr : Z)
  : M BlockCacheState
      (option (Z -> Z -> M (Core * BlockCacheState) (StepManyResult EnvironException))) :=
  p <- mget partial_block ;;
  debug_assert (negb (in_progress p)) ;;;
  e <- read_entry addr ;;
  fence <- mget fence_counter ;;
  if (address e =? addr) && (fence =? c_fence_counter e) && (0 <? num_instr (block e))
  then mret (Some (block_call_run e))
  else mret None.

Definition complete_current_block (max_steps : Z)
  : M (Core * BlockCacheState) (StepManyResult EnvironException) :=
  fun '(core, bc) =>
    if negb (in_progress (partial_block bc)) then Some (ZERO, (core, bc))
    else
      match entry (entries bc) (addr (partial_block bc)) with
      | Some e => with_partial (run_partial_inner max_steps e) (core, bc)
      | None => None
      end.

(** The interface, implemented. *)
#[export] Instance block_cache : BlockCache BlockCacheState Mem := {|
  bc_invalidate := cache_invalidate;
  bc_reset := cache_reset;
  bc_get_block := get_block;
  bc_push_instr_compressed := push_instr_compressed;
  bc_push_instr_uncompressed := push_instr_uncompressed;
  bc_complete_current_block := complete_current_block |}.

End Calls.
End Cache.
