(* ===== verification/Jit.v ===== *)
(** * The compiler of blocks

    Models [src/riscv/lib/src/jit.rs]: a sequence of instructions is lowered by the
    builder of [JitBuilder.v], one after the other, and the function is finished, defined
    in the module and remembered by the hash of the sequence.

    Parameters: bincode's encoding of instructions and the [hex] crate ([JitCrates]), the
    digest, and what Cranelift makes of a finished function, which is called as a
    [JitFn] ([NativeCode]).

    Then [src/riscv/lib/src/machine_state/block_cache/block/dispatch.rs] and
    [block/jitted.rs]: a block has a dispatch target, a function pointer that may be
    replaced while the program runs, by the block's own thread or by the thread that
    compiles in the background.  The pointers live in shared cells ([Arc<AtomicUsize>]): a
    cell is named by its index in the list of all cells, and a target and a pending request
    may name the same one.  The two compilers are instances of [DispatchCompiler]; the
    background thread of the second runs in steps of its own ([background_step]). *)

From stdpp Require Import gmap.
From S2P Require Import Prelude.
From S2P Require Import Instr.
From S2P Require Import Instruction.
From S2P Require Import Icb.
From S2P Require Import Interpreter.
From S2P Require Import Memory.
From S2P Require Import Core.
From S2P Require Import Run.
From S2P Require Import Step.
From S2P Require Import Cranelift.
From S2P Require Import StateAccess.
From S2P Require Import JitBuilder.
From S2P Require Import Hash.
From S2P Require Import BlockCache.

#[export] Instance Hash_countable : Countable Hash.
Proof. apply (inj_countable' digest mkHash). intros []; reflexivity. Defined.

(** [bincode::serialize] of a slice of instructions, and [hex::encode]. *)
Class JitCrates : Type := {
  serialize : list Instruction -> option (list Z);
  hex_encode : list Z -> list Z }.

(** Machine code of a function, and a call of it on a core with a program counter and a
    result: the steps it returns, the core and the result after it. *)
Class NativeCode (Mem : Type) : Type := {
  JitFn : Type;
  native : Function JsaFn -> JitFn;
  call_native : JitFn -> Z -> result unit EnvironException ->
    M (MachineCoreState Mem) (Z * result unit EnvironException) }.
Arguments JitFn Mem {_}.

(** ** Lowering *)
Section Lowering.
Context `{JitStateAccess}.

(** The loop of [compile] over the instructions, with the end of the function: whether
    all of them are supported. *)
Fixpoint lower_instrs (instr : list Instruction) : M Builder bool :=
  match instr with
  | [] => builder_end ;;; mret true
  | i :: instr =>
      match to_lowering (i_opcode i) with
      | None => builder_fail ;;; mret false
      | Some lower =>
          pc_update <- lower (i_args i) ;;
          match pc_update with
          | None => end_unconditional_exception ;;; mret true
          | Some pc_update =>
              continue <- complete_step (pc_update_from pc_update) ;;
              if continue : bool then lower_instrs instr else builder_end ;;; mret true
          end
      end
  end.

(** The function of a sequence, if it is supported; the outer [None] is a failed
    assertion of the builder. *)
Definition lower_function (instr : list Instruction) : option (option (Function JsaFn)) :=
  match builder_new with
  | Some b =>
      match lower_instrs instr b with
      | Some (true, b) => Some (Some (func (builder (emitter b))))
      | Some (false, _) => Some None
      | None => None
      end
  | None => None
  end.
End Lowering.

(** ** [JIT] *)
Section JIT.
Context {Mem : Type} `{NativeCode Mem} `{JitStateAccess} `{JitCrates} `{Blake2b}.

(** The names defined in the module, and the compilation results. *)
Record JIT : Type := mkJIT { module : gset (list Z); cache : gmap Hash (option (JitFn Mem)) }.

(** [JIT::new], on a supported platform. *)
Definition jit_new : JIT := mkJIT ∅ ∅.

(** [Hash::blake2b_hash]. *)
Definition blake2b_hash (instr : list Instruction) : option Hash :=
  bytes ← serialize instr;
  match blake2b_hash_bytes bytes with Ok hash => Some hash | Err _ => None end.

(** [finalise]: a function that the verifier rejects, or whose name is taken, is a panic. *)
Definition jit_finalise (name : list Z) (f : Function JsaFn) : M JIT (JitFn Mem) :=
  names <- mget module ;;
  if bool_decide (name ∈ names) then mpanic
  else if verify_function jsa_signature jitfn_returns f then
    mput (fun j => mkJIT ({[name]} ∪ module j) (cache j)) ;;;
    mret (native f)
  else mpanic.

Definition cache_insert (hash : Hash) (r : option (JitFn Mem)) (j : JIT) : JIT :=
  mkJIT (module j) (<[hash := r]> (cache j)).

Definition produce_function (hash : Hash) (f : Function JsaFn) : M JIT (JitFn Mem) :=
  let name := hex_encode (digest hash) in
  fn <- jit_finalise name f ;;
  mput (cache_insert hash (Some fn)) ;;;
  mret fn.

Definition compile (instr : list Instruction) : M JIT (option (JitFn Mem)) :=
  match blake2b_hash instr with
  | None => mret None
  | Some hash =>
      results <- mget cache ;;
      match results !! hash with
      | Some compilation_result => mret compilation_result
      | None =>
          lowered <- mlift (lower_function instr) ;;
          match lowered with
          | Some f => jitfn <- produce_function hash f ;; mret (Some jitfn)
          | None => mput (cache_insert hash None) ;;; mret None
          end
      end
  end.
End JIT.
Arguments JIT Mem {_}.

Section Dispatch.
Context {Mem : Type} `{Memory Mem} `{NativeCode Mem}.
Notation Core := (MachineCoreState Mem).

(** What a [DispatchFn] can be: one of the two functions of [Jitted], or machine code. *)
Inductive DispatchFn : Type :=
| run_block_interpreted_fn
| run_block_not_compiled_fn
| jitted_fn (f : JitFn Mem).

(** *** Cells *)
Notation Cells := (list DispatchFn).
Definition arc_new (f : DispatchFn) : M Cells nat := fun cs => Some (length cs, cs ++ [f]).
Definition cell_load (c : nat) : M Cells DispatchFn := fun cs =>
  match cs !! c with Some f => Some (f, cs) | None => None end.
Definition cell_store (c : nat) (f : DispatchFn) : M Cells unit := fun cs =>
  match cs !! c with Some _ => Some (tt, <[c := f]> cs) | None => None end.

(** *** [DispatchTarget] *)
Record DispatchTarget : Type := mkTarget { fun_ : nat; remaining_calls : Z }.

Definition target_default : M Cells DispatchTarget :=
  c <- arc_new run_block_interpreted_fn ;; mret (mkTarget c 1000).
(** A new cell: the old one may still be written by the background thread. *)
Definition target_reset (_ : DispatchTarget) : M Cells DispatchTarget :=
  c <- arc_new run_block_interpreted_fn ;; mret (mkTarget c 1000).
Definition target_set (t : DispatchTarget) (f : DispatchFn) : M Cells unit := cell_store (fun_ t) f.
Definition target_get (t : DispatchTarget) : M Cells DispatchFn := cell_load (fun_ t).

(** *** [DispatchCompiler] *)
Class DispatchCompiler (D : Type) : Type := {
  should_compile : D -> DispatchTarget -> bool * DispatchTarget;
  dispatch_compile : DispatchTarget -> list Instruction -> M (D * Cells) DispatchFn }.

Definition on_cells {S A} (m : M Cells A) : M (S * Cells) A := fun '(d, cs) =>
  match m cs with Some (a, cs) => Some (a, (d, cs)) | None => None end.
Definition on_first {S T A} (m : M S A) : M (S * T) A := fun '(d, cs) =>
  match m d with Some (a, d) => Some (a, (d, cs)) | None => None end.

Section Compilers.
Context `{JitStateAccess} `{JitCrates} `{Blake2b}.

(** [InlineCompiler]: compilation in the thread that runs the block. *)
Record InlineCompiler : Type := mkInline { inline_jit : JIT Mem }.
Definition inline_new : InlineCompiler := mkInline jit_new.

Definition inline_should_compile (_ : InlineCompiler) (target : DispatchTarget) : bool * DispatchTarget :=
  (true, target).
Definition inline_compile_jit (instr : list Instruction) : M InlineCompiler (option (JitFn Mem)) := fun d =>
  match compile instr (inline_jit d) with Some (r, j) => Some (r, mkInline j) | None => None end.
Definition inline_compile (target : DispatchTarget) (instr : list Instruction)
  : M (InlineCompiler * Cells) DispatchFn :=
  r <- on_first (inline_compile_jit instr) ;;
  let f := match r with Some jitfn => jitted_fn jitfn | None => run_block_not_compiled_fn end in
  on_cells (target_set target f) ;;;
  mret f.
#[export] Instance inline_compiler : DispatchCompiler InlineCompiler := {|
  should_compile := inline_should_compile;
  dispatch_compile := inline_compile |}.

(** [OutlineCompiler]: requests are sent to a thread that owns the compiler.  When that
    thread has panicked, the channel is closed. *)
Record CompilationRequest : Type := mkRequest { req_instr : list Instruction; req_fun : nat }.
Record OutlineCompiler : Type := mkOutline {
  outline_jit : JIT Mem;
  channel : list CompilationRequest;
  alive : bool }.
Definition outline_new : OutlineCompiler := mkOutline jit_new [] true.

Definition outline_should_compile (_ : OutlineCompiler) (target : DispatchTarget) : bool * DispatchTarget :=
  if remaining_calls target =? 0 then (true, target)
  else (false, mkTarget (fun_ target) (remaining_calls target - 1)).

(** [Sender::send]; the error of a closed channel is dropped. *)
Definition send (r : CompilationRequest) (d : OutlineCompiler) : OutlineCompiler :=
  if alive d then mkOutline (outline_jit d) (channel d ++ [r]) true else d.
Definition outline_compile (target : DispatchTarget) (instr : list Instruction)
  : M (OutlineCompiler * Cells) DispatchFn :=
  let f := run_block_not_compiled_fn in
  on_cells (target_set target f) ;;;
  on_first (mput (send (mkRequest instr (fun_ target)))) ;;;
  mret f.
#[export] Instance outline_compiler : DispatchCompiler OutlineCompiler := {|
  should_compile := outline_should_compile;
  dispatch_compile := outline_compile |}.

(** What the thread does with a message; a panic, of the compiler or of the
    [debug_assert_eq!], is [None]. *)
Definition serve_request (msg : CompilationRequest) : M (JIT Mem * Cells) unit :=
  r <- on_first (compile (req_instr msg)) ;;
  match r with
  | Some jitfn =>
      f <- on_cells (cell_load (req_fun msg)) ;;
      match f with
      | run_block_not_compiled_fn => on_cells (cell_store (req_fun msg) (jitted_fn jitfn))
      | _ => mpanic
      end
  | None => mret tt
  end.
(** The next step of the background thread. *)
Definition background_step (d : OutlineCompiler) (cs : Cells) : OutlineCompiler * Cells :=
  match alive d, channel d with
  | true, msg :: rest =>
      match serve_request msg (outline_jit d, cs) with
      | Some (_, (jit, cs)) => (mkOutline jit rest true, cs)
      | None => (mkOutline (outline_jit d) [] false, cs)
      end
  | _, _ => (d, cs)
  end.
End Compilers.

(** ** [Jitted] *)
Record Jitted : Type := mkJitted { fallback : Interpreted; dispatch : DispatchTarget }.

Section Jitted.
Context {D : Type} `{DispatchCompiler D}.
Notation Run := (M (Core * (D * Cells))).

Definition jitted_new : M Cells Jitted := t <- target_default ;; mret (mkJitted block_new t).

(** The operations of a block, each of which resets the target. *)
Definition jitted_start_block (b : Jitted) : M Cells Jitted :=
  t <- target_reset (dispatch b) ;; mret (mkJitted (start_block (fallback b)) t).
Definition jitted_invalidate (b : Jitted) : M Cells Jitted :=
  t <- target_reset (dispatch b) ;; mret (mkJitted (block_invalidate (fallback b)) t).
Definition jitted_reset (b : Jitted) : M Cells Jitted :=
  t <- target_reset (dispatch b) ;; mret (mkJitted (block_reset (fallback b)) t).
Definition jitted_push_instr (instr : Instruction) (b : Jitted) : M Cells Jitted :=
  t <- target_reset (dispatch b) ;;
  f <- mlift (block_push_instr instr (fallback b)) ;;
  mret (mkJitted f t).
Definition jitted_bind (space : Interpreted) : M Cells Jitted :=
  t <- target_default ;; mret (mkJitted space t).
Definition jitted_clone (b : Jitted) : M Cells Jitted :=
  t <- target_default ;; mret (mkJitted (fallback b) t).
Definition jitted_num_instr (b : Jitted) : Z := num_instr (fallback b).
Definition jitted_instr (b : Jitted) : option (list Instruction) := block_instr (fallback b).

(** The outcome of a [DispatchFn]: the steps, and what it wrote to [result]. *)
Definition Outcome : Type := (Z * result unit EnvironException)%type.

Definition run_block_not_compiled (self : Jitted) (instr_pc : Z) : Run Outcome :=
  block_result <- on_first (interpreted_run_block (fallback self) instr_pc) ;;
  mret (steps block_result, match error block_result with Some exc => Err exc | None => Ok tt end).

(** A call of a [DispatchFn], with the block after it.  [fuel] counts the calls: what a
    compiler gives may be [run_block_interpreted] again. *)
Fixpoint call_dispatch (fuel : nat) (f : DispatchFn) (self : Jitted) (instr_pc : Z)
    (result : Prelude.result unit EnvironException) : Run (Outcome * Jitted) :=
  match fuel with
  | O => mpanic
  | S fuel =>
      match f with
      | jitted_fn jitfn => out <- on_first (call_native jitfn instr_pc result) ;; mret (out, self)
      | run_block_not_compiled_fn => out <- run_block_not_compiled self instr_pc ;; mret (out, self)
      | run_block_interpreted_fn =>
          block_builder <- mget (fun s => fst (snd s)) ;;
          let '(compile_now, target) := should_compile block_builder (dispatch self) in
          let self := mkJitted (fallback self) target in
          if compile_now then
            let instr := take (Z.to_nat (jitted_num_instr self)) (slots (fallback self)) in
            f <- (fun '(core, dc) =>
                    match dispatch_compile (dispatch self) instr dc with
                    | Some (f, dc) => Some (f, (core, dc))
                    | None => None
                    end) ;;
            call_dispatch fuel f self instr_pc result
          else
            out <- run_block_not_compiled self instr_pc ;; mret (out, self)
      end
  end.

(** [run_block]; two calls are enough for the compilers. *)
Definition jitted_run_block (self : Jitted) (instr_pc : Z)
  : Run (StepManyResult EnvironException * Jitted) :=
  f <- (fun '(core, (d, cs)) =>
          match target_get (dispatch self) cs with
          | Some (f, cs) => Some (f, (core, (d, cs)))
          | None => None
          end) ;;
  out <- call_dispatch 2 f self instr_pc (Ok tt) ;;
  let '((steps, result), self) := out in
  mret ({| steps := steps; error := match result with Err e => Some e | Ok _ => None end |}, self).
End Jitted.
End Dispatch.
Notation Cells := (list DispatchFn).
