(* ===== verification/StepChunks.v ===== *)
(** * Steps in chunks

    Running a number of steps at once and running them one at a time give exactly
    the same state, the block cache and the partially run block included.  Nothing
    is assumed of main memory or of what the cache holds. *)

From S2P Require Import Prelude.
From S2P Require Import Instr.
From S2P Require Import Instruction.
From S2P Require Import Icb.
From S2P Require Import Memory.
From S2P Require Import Core.
From S2P Require Import Run.
From S2P Require Import Step.
From S2P Require Import BlockCache.

(** Results with steps added, over states. *)
Definition add_steps {E} (k : Z) (r : StepManyResult E) : StepManyResult E :=
  {| steps := k + steps r; error := error r |}.
Definition plus_steps {S E} (k : Z) (o : option (StepManyResult E * S)) : option (StepManyResult E * S) :=
  match o with Some (r, s) => Some (add_steps k r, s) | None => None end.

Lemma add_steps_0 {E} (r : StepManyResult E) : add_steps 0 r = r.
Proof. destruct r; reflexivity. Qed.
Lemma add_steps_add {E} a b (r : StepManyResult E) : add_steps a (add_steps b r) = add_steps (a + b) r.
Proof. unfold add_steps; cbn. rewrite Z.add_assoc. reflexivity. Qed.
Lemma plus_steps_0 {S E} (o : option (StepManyResult E * S)) : plus_steps 0 o = o.
Proof. destruct o as [[r s]|]; cbn; rewrite ?add_steps_0; reflexivity. Qed.
Lemma plus_steps_add {S E} a b (o : option (StepManyResult E * S)) :
  plus_steps a (plus_steps b o) = plus_steps (a + b) o.
Proof. destruct o as [[r s]|]; cbn; rewrite ?add_steps_add; reflexivity. Qed.

(** ** Finite bounds *)
Definition bounded (b : Bound) : Prop :=
  match b with Included x | Excluded x => 0 <= x < 2 ^ 64 | Unbounded => False end.

Lemma unwrap_bound_range b : bounded b -> 0 <= unwrap_bound b < 2 ^ 64.
Proof. destruct b; cbn; unfold saturating_sub; lia. Qed.
Lemma less_than_unwrap n b : bounded b -> less_than_bound n b = (n <? unwrap_bound b).
Proof. destruct b; cbn; [reflexivity.. | contradiction]. Qed.

Lemma bound_saturating_sub_unwrap b k : bounded b -> 0 <= k ->
  unwrap_bound (bound_saturating_sub b k) = saturating_sub (unwrap_bound b) k.
Proof. destruct b; cbn; unfold saturating_sub; intros; lia. Qed.
Lemma bound_saturating_sub_bounded b k : bounded b -> 0 <= k -> bounded (bound_saturating_sub b k).
Proof. destruct b; cbn; unfold saturating_sub; intros; lia || contradiction. Qed.

Section Chunks.
Context {Mem : Type} `{Memory Mem}.
Notation Core := (MachineCoreState Mem).
Notation Steps := (StepManyResult EnvironException).
Context (SIZE : Z).
Implicit Types (s : Core) (bc : BlockCacheState).

#[local] Instance chunk_cache : BlockCache BlockCacheState Mem := block_cache SIZE.

(** A partial block that is not in progress holds no leftovers; the progress is
    unsigned. *)
Definition clean_partial (p : PartialBlock) : Prop :=
  (in_progress p = false -> p = partial_new) /\ 0 <= progress p.
Definition clean (st : Core * BlockCacheState) : Prop := clean_partial (partial_block (snd st)).

(** ** Partial runs *)
Definition add_loop (k : Z) (l : Loop) : Loop :=
  match l with Returned r => Returned (add_steps k r) | Broke p r => Broke p (add_steps k r) end.

(** The partial block is only ever reset by the loop, when it returns. *)
Lemma run_partial_loop_partial instrs m p pc res s part :
  run_partial_loop instrs m p pc res (s, part) =
    match run_partial_loop instrs m p pc res (s, partial_new) with
    | Some (Returned r, (s', _)) => Some (Returned r, (s', partial_new))
    | Some (Broke q r, (s', _)) => Some (Broke q r, (s', part))
    | None => None
    end.
Proof.
  revert p pc res s; induction instrs as [|i instrs IH]; intros p pc res s; [reflexivity|].
  cbn [run_partial_loop]. unfold mbind, run_on_core, on_partial, mret.
  destruct (run_cached_instr i s) as [[[[new|w]|e] s1]|]; [| | |reflexivity].
  - destruct (on_hart _ s1) as [[[] s2]|]; reflexivity.
  - destruct (on_hart _ s1) as [[[] s2]|]; [|reflexivity]. cbn [steps error].
    destruct (m <=? steps res + 1); [reflexivity | apply IH].
  - destruct (handle_step_result pc (Err e) s1) as [[[a|err] s2]|]; reflexivity.
Qed.

Lemma run_partial_loop_shift k instrs m p pc res st :
  run_partial_loop instrs (k + m) p pc (add_steps k res) st =
    match run_partial_loop instrs m p pc res st with
    | Some (l, st') => Some (add_loop k l, st')
    | None => None
    end.
Proof.
  revert p pc res st; induction instrs as [|i instrs IH]; intros p pc res [s part]; [reflexivity|].
  cbn [run_partial_loop]. unfold mbind, run_on_core, on_partial, mret.
  assert (E : forall x : option EnvironException, {| steps := steps (add_steps k res) + 1; error := x |} =
                        add_steps k {| steps := steps res + 1; error := x |})
    by (intros x; unfold add_steps; cbn; f_equal; lia).
  destruct (run_cached_instr i s) as [[[[new|w]|e] s1]|]; [| | |reflexivity].
  - destruct (on_hart _ s1) as [[[] s2]|]; [|reflexivity]. rewrite E. reflexivity.
  - destruct (on_hart _ s1) as [[[] s2]|]; [|reflexivity]. rewrite E. cbn [add_steps error steps].
    replace (k + m <=? k + (steps res + 1)) with (m <=? steps res + 1)
      by (destruct (Z.leb_spec m (steps res + 1)), (Z.leb_spec (k + m) (k + (steps res + 1))); (reflexivity || lia)).
    destruct (m <=? steps res + 1); [reflexivity|].
    apply (IH (p + 1) (wrap 64 (pc + width_bytes w)) {| steps := steps res + 1; error := error res |}).
  - destruct (handle_step_result pc (Err e) s1) as [[[a|err] s2]|]; [rewrite E; reflexivity | reflexivity..].
Qed.

(** Where the loop stops, the progress is recorded. *)
Definition close (e : Cached) (o : option (Loop * (Core * PartialBlock))) : option (Steps * (Core * PartialBlock)) :=
  match o with
  | Some (Returned r, st) => Some (r, st)
  | Some (Broke p r, (s, part)) =>
      Some (r, (s, if p =? num_instr (block e) then partial_new else set_progress p part))
  | None => None
  end.

Lemma run_partial_inner_eq m e s part : m <> 0 ->
  run_partial_inner m e (s, part) =
    match block_instr (block e) with
    | Some instrs =>
        if progress part <=? Z.of_nat (length instrs)
        then close e (run_partial_loop (drop (Z.to_nat (progress part)) instrs) m (progress part)
                        (Core.pc (hart s)) ZERO (s, part))
        else None
    | None => None
    end.
Proof.
  intros Hm. unfold run_partial_inner. destruct (Z.eqb_spec m 0); [contradiction|].
  unfold mbind, mget, mlift, run_on_core, on_hart, with_hart, mret, mpanic. cbn [snd].
  destruct s as [h mem]; cbn [hart main_memory].
  destruct (block_instr (block e)) as [instrs|]; [|reflexivity].
  destruct (_ <=? _); [|reflexivity].
  destruct (run_partial_loop _ _ _ _ _ _) as [[[r|p r] [s1 part1]]|]; [reflexivity | | reflexivity].
  cbn [close]. destruct (p =? num_instr (block e)); reflexivity.
Qed.

Lemma close_shift k e o :
  close e (match o with Some (l, st') => Some (add_loop k l, st') | None => None end) = plus_steps k (close e o).
Proof. destruct o as [[[r|p r] [s part]]|]; reflexivity. Qed.

(** The progress in the partial block matters only as the start of the run. *)
Lemma close_partial e instrs m p pc res s part part' :
  addr part = addr part' -> in_progress part = in_progress part' ->
  close e (run_partial_loop instrs m p pc res (s, part)) = close e (run_partial_loop instrs m p pc res (s, part')).
Proof.
  intros Ha Hp. rewrite (run_partial_loop_partial _ _ _ _ _ _ part), (run_partial_loop_partial _ _ _ _ _ _ part').
  destruct (run_partial_loop _ _ _ _ _ _) as [[[r|q r] [s' part1]]|]; [reflexivity | | reflexivity].
  cbn [close]. unfold set_progress. rewrite Ha, Hp. reflexivity.
Qed.

(** A run of one instruction, and what is left for the rest of a longer run. *)
Definition partial_step (e : Cached) (s : Core) (part : PartialBlock) (o : option (Steps * (Core * PartialBlock)))
    (n : Z) : option (Steps * (Core * PartialBlock)) :=
  match o with
  | None => None
  | Some (r, (s1, part1)) =>
      match error r with
      | Some _ => Some (r, (s1, part1))
      | None => if in_progress part1 then plus_steps (steps r) (run_partial_inner n e (s1, part1))
                else Some (r, (s1, part1))
      end
  end.

Lemma set_pc_pc (s : Core) v s' : on_hart (mput (with_pc v)) s = Some (tt, s') -> Core.pc (hart s') = v.
Proof. intros [= <-]. reflexivity. Qed.

Lemma run_partial_split e instrs i rest s part n :
  block_instr (block e) = Some instrs -> 0 <= progress part ->
  drop (Z.to_nat (progress part)) instrs = i :: rest -> in_progress part = true -> 0 <= n ->
  run_partial_inner (1 + n) e (s, part) = partial_step e s part (run_partial_inner 1 e (s, part)) n.
Proof.
  intros Hi Hp Hd Hin Hn. rewrite !run_partial_inner_eq by lia. rewrite Hi, Hd.
  assert (Hlen : (Z.to_nat (progress part) < length instrs)%nat).
  { apply (f_equal length) in Hd. rewrite length_drop in Hd. cbn in Hd. lia. }
  destruct (Z.leb_spec (progress part) (Z.of_nat (length instrs))); [|lia].
  cbn [run_partial_loop]. unfold mbind, run_on_core, on_partial, mret.
  destruct (run_cached_instr i s) as [[[[new|w]|ex] s1]|]; [| | |reflexivity].
  - destruct (on_hart _ s1) as [[[] s2]|]; reflexivity.
  - destruct (on_hart (mput (with_pc (wrap 64 (Core.pc (hart s) + width_bytes w)))) s1) as [[[] s2]|] eqn:Epc; [|reflexivity].
    apply set_pc_pc in Epc. cbn [steps error ZERO]. change (0 + 1) with 1. change (1 <=? 1) with true. cbn iota.
    assert (Hnext : drop (Z.to_nat (progress part + 1)) instrs = rest).
    { replace (Z.to_nat (progress part + 1)) with (S (Z.to_nat (progress part))) by lia.
      rewrite <- Nat.add_1_r, <- drop_drop, Hd. reflexivity. }
    destruct (Z.eqb_spec (progress part + 1) (num_instr (block e))) as [Heq|Hne].
    + (* the block ends here *)
      assert (rest = []) as ->.
      { rewrite <- Hnext. apply drop_ge. unfold block_instr in Hi.
        destruct (_ <=? _) eqn:El; [|discriminate]. injection Hi as <-. rewrite length_take. lia. }
      destruct (1 + n <=? 1); cbn [run_partial_loop]; unfold mret; cbn [close partial_step in_progress partial_new error];
        (destruct (Z.eqb_spec (progress part + 1) (num_instr (block e))); [reflexivity | contradiction]).
    + cbn [close partial_step]. destruct (Z.eqb_spec (progress part + 1) (num_instr (block e))); [contradiction|].
      cbn [set_progress in_progress error]. rewrite Hin.
      destruct (Z.eq_dec n 0) as [->|Hn0].
      * change (1 + 0 <=? 1) with true. cbn iota. cbn [close].
        destruct (Z.eqb_spec (progress part + 1) (num_instr (block e))); [contradiction|].
        unfold run_partial_inner. cbn. reflexivity.
      * destruct (Z.leb_spec (1 + n) 1); [lia|].
        rewrite run_partial_inner_eq by exact Hn0. cbn [progress set_progress]. rewrite Hi, Hnext, Epc.
        destruct (Z.leb_spec (progress part + 1) (Z.of_nat (length instrs))); [|lia].
        change {| steps := 1; error := @None EnvironException |} with (add_steps 1 (@ZERO EnvironException)).
        rewrite run_partial_loop_shift, close_shift. f_equal. apply close_partial; reflexivity.
  - destruct (handle_step_result _ (Err ex) s1) as [[[a|err] s2]|]; reflexivity.
Qed.

(** ** Whole blocks *)

(** The loop of a whole block against that of a partial run with enough steps. *)
Lemma run_block_loop_partial e instrs m p pc k s part :
  p + Z.of_nat (length instrs) = num_instr (block e) -> k + Z.of_nat (length instrs) <= m ->
  close e (run_partial_loop instrs m p pc {| steps := k; error := None |} (s, part)) =
    match run_block_loop instrs pc {| steps := k; error := None |} s with
    | None => None
    | Some ((pc', r), s') =>
        match error r with
        | Some exc =>
            match handle_step_result pc' (Err exc) s' with
            | Some (Err err, s') => Some ({| steps := steps r; error := Some err |}, (s', partial_new))
            | Some (Ok _, s') => Some ({| steps := steps r + 1; error := None |}, (s', partial_new))
            | None => None
            end
        | None => Some ({| steps := steps r; error := None |}, (s', partial_new))
        end
    end.
Proof.
  revert p pc k s; induction instrs as [|i instrs IH]; intros p pc k s Hp Hk.
  { cbn [run_partial_loop run_block_loop]. unfold mret. cbn [close error steps].
    cbn [length] in Hp. destruct (Z.eqb_spec p (num_instr (block e))); [reflexivity | lia]. }
  cbn [run_partial_loop run_block_loop]. unfold mbind, run_on_core, on_partial, mret.
  destruct (run_cached_instr i s) as [[[[new|w]|ex] s1]|]; [| | |reflexivity].
  - destruct (on_hart _ s1) as [[[] s2]|]; reflexivity.
  - destruct (on_hart _ s1) as [[[] s2]|]; [|reflexivity]. cbn [steps error length] in *.
    destruct (Z.leb_spec m (k + 1)); [|apply IH; lia].
    destruct instrs as [|j instrs]; [|cbn [length] in *; lia].
    cbn [run_block_loop close error steps]. unfold mret. cbn [length] in *. cbn [error steps].
    destruct (Z.eqb_spec (p + 1) (num_instr (block e))); [reflexivity | lia].
  - cbn [error steps]. destruct (handle_step_result pc (Err ex) s1) as [[[a|err] s2]|]; reflexivity.
Qed.

(** The partial block of a block that is started. *)
Definition started (e : Cached) : PartialBlock := {| addr := address e; in_progress := true; progress := 0 |}.

Lemma block_instr_length b instrs : block_instr b = Some instrs -> 0 <= num_instr b ->
  Z.of_nat (length instrs) = num_instr b.
Proof.
  unfold block_instr. destruct (Z.leb_spec (num_instr b) (Z.of_nat (length (slots b)))); [|discriminate].
  intros [= <-] Hn. rewrite length_take. lia.
Qed.

(** A call of a block is a partial run of it, also when the block is run whole. *)
Lemma block_call_partial e m s bc : 0 < num_instr (block e) -> 0 < m -> partial_block bc = partial_new ->
  block_call_run e (Core.pc (hart s)) m (s, bc) =
    match run_partial_inner m e (s, started e) with
    | Some (r, (s', part)) => Some (r, (s', with_partial_block part bc))
    | None => None
    end.
Proof.
  intros Hn Hm Hclean. unfold block_call_run.
  destruct (Z.leb_spec (num_instr (block e)) m).
  - unfold with_partial, run_on_core, interpreted_run_block, run_block_inner, mbind, mlift.
    rewrite run_partial_inner_eq by lia. cbn [progress started].
    destruct (block_instr (block e)) as [instrs|] eqn:Hi; [|reflexivity].
    apply block_instr_length in Hi; [|lia].
    destruct (Z.leb_spec 0 (Z.of_nat (length instrs))); [|lia].
    change (drop (Z.to_nat 0) instrs) with instrs. unfold ZERO at 2.
    rewrite run_block_loop_partial by lia. unfold ZERO.
    destruct (run_block_loop instrs _ _ s) as [[[pc' r] s1]|]; [|reflexivity].
    destruct (error r) as [exc|]; [|cbn; rewrite Hclean; reflexivity].
    destruct (handle_step_result pc' (Err exc) s1) as [[[a|err] s2]|]; cbn; rewrite ?Hclean; reflexivity.
  - unfold with_partial, run_block_partial, mbind, on_partial. fold (started e).
    destruct (run_partial_inner m e (s, started e)) as [[r [s' part]]|]; reflexivity.
Qed.

(** What one instruction of a run leaves. *)
Definition step_made (r : Steps) : Prop :=
  match error r with None => steps r = 1 | Some _ => steps r = 0 end.

Lemma run_partial_one e instrs i rest s part r s1 part1 :
  block_instr (block e) = Some instrs -> drop (Z.to_nat (progress part)) instrs = i :: rest ->
  run_partial_inner 1 e (s, part) = Some (r, (s1, part1)) ->
  step_made r /\ (error r <> None -> in_progress part1 = false) /\
  (in_progress part1 = true -> error r = None /\ addr part1 = addr part).
Proof.
  intros Hi Hd. rewrite run_partial_inner_eq by lia. rewrite Hi, Hd.
  destruct (_ <=? _); [|discriminate].
  cbn [run_partial_loop]. unfold mbind, run_on_core, on_partial, mret.
  destruct (run_cached_instr i s) as [[[[new|w]|ex] s2]|]; [| | |discriminate].
  - destruct (on_hart _ s2) as [[[] s3]|]; [|discriminate]. intros [= <- <- <-]. cbn. split_and!; solve [auto | discriminate | congruence].
  - destruct (on_hart _ s2) as [[[] s3]|]; [|discriminate]. cbn [steps error ZERO].
    change (0 + 1) with 1. change (1 <=? 1) with true. cbn iota. cbn [close].
    destruct (_ =? _); intros [= <- <- <-]; cbn; split_and!; solve [auto | discriminate | congruence].
  - destruct (handle_step_result _ (Err ex) s2) as [[[a|err] s3]|]; [| |discriminate];
      intros [= <- <- <-]; cbn; split_and!; solve [auto | discriminate | congruence].
Qed.

(** ** The cache *)
Lemma entry_mut_keeps_partial a f : keeps partial_block (entry_mut SIZE a f).
Proof.
  intros bc [] bc'. unfold entry_mut. destruct (entry _ _ _) as [e|]; [|discriminate].
  destruct (f e); [intros [= <-]; reflexivity | discriminate].
Qed.
Lemma read_entry_keeps_partial a : keeps partial_block (read_entry SIZE a).
Proof. unfold read_entry. keeps. Qed.
Hint Resolve entry_mut_keeps_partial read_entry_keeps_partial : keeps.

Lemma push_keeps_partial WIDTH a i : keeps partial_block (cache_inner SIZE WIDTH a i).
Proof.
  assert (Hadj : forall l x y, keeps partial_block (push_adjacent SIZE l x y)).
  { induction l; intros x y; cbn [push_adjacent]; keeps. }
  unfold cache_inner, current_entry, merge_adjacent, reset_to. keeps.
Qed.

Lemma run_instr_at_keeps_partial a : keeps (fun st => partial_block (snd st)) (run_instr_at (BC := BlockCacheState) a).
Proof.
  assert (Hcore : forall A (f : M Core A), keeps (fun st : Core * BlockCacheState => partial_block (snd st)) (on_core f)).
  { intros A f [s bc] x st. unfold on_core. destruct (f s) as [[y s1]|]; [intros [= <- <-]; reflexivity | discriminate]. }
  assert (Hcache : forall A (f : M BlockCacheState A), keeps partial_block f ->
    keeps (fun st : Core * BlockCacheState => partial_block (snd st)) (on_cache f)).
  { intros A f Hf [s bc] x st. unfold on_cache. destruct (f bc) as [[y bc1]|] eqn:E; [|discriminate].
    intros [= <- <-]. exact (Hf _ _ _ E). }
  assert (Hc : forall x i, keeps partial_block (push_instr_compressed SIZE x i)).
  { intros x i. unfold push_instr_compressed, start_of_block, reset_to, debug_assert.
    keeps. apply push_keeps_partial. }
  assert (Hu : forall x i, keeps partial_block (push_instr_uncompressed SIZE x i)).
  { intros x i. unfold push_instr_uncompressed, start_of_block, reset_to, debug_assert.
    keeps. apply push_keeps_partial. }
  assert (Hi : keeps partial_block (cache_invalidate SIZE)).
  { unfold cache_invalidate, reset_to. keeps. }
  unfold run_instr_at, fetch_instr, fetch_instr_halfword, run_instr, run_instr_uncacheable.
  keeps; apply Hcore || (apply Hcache; apply Hc || apply Hu || apply Hi).
Qed.

Lemma get_block_inv a bc o bc' : get_block SIZE a bc = Some (o, bc') ->
  bc' = bc /\ in_progress (partial_block bc) = false /\
  forall run, o = Some run -> exists e, run = block_call_run e /\ entry SIZE (entries bc) a = Some e /\
    address e = a /\ 0 < num_instr (block e).
Proof.
  unfold get_block, mbind, mget, debug_assert, read_entry, mlift, mret, mpanic.
  destruct (in_progress (partial_block bc)); cbn [negb]; [discriminate|].
  unfold mbind, mget. destruct (entry SIZE (entries bc) a) as [e|] eqn:He; [|discriminate].
  destruct (_ && _ && _) eqn:Hc; intros [= <- <-]; (split; [reflexivity|]; split; [reflexivity|]); [|discriminate].
  intros run [= <-]. exists e. rewrite !andb_true_iff in Hc. split_and!; (reflexivity || lia).
Qed.

(** A partial run leaves a clean partial block and takes no step back. *)
Lemma clean_new : clean_partial partial_new.
Proof. split; [reflexivity | cbn; lia]. Qed.

Lemma run_partial_loop_clean e instrs m p q res s part r s1 part1 :
  in_progress part = true -> 0 <= p -> 0 <= steps res ->
  close e (run_partial_loop instrs m p q res (s, part)) = Some (r, (s1, part1)) ->
  clean_partial part1 /\ 0 <= steps r.
Proof.
  intros Hin. revert p q res s; induction instrs as [|i l IH]; intros p q res s Hp H0; cbn [run_partial_loop].
  { unfold mret. cbn [close]. destruct (_ =? _); intros [= <- <- <-]; (split; [|exact H0]); [apply clean_new|].
    split; cbn; [congruence | exact Hp]. }
  unfold mbind, run_on_core, on_partial, mret.
  destruct (run_cached_instr i s) as [[[[new|w]|ex] s2]|]; [| | |discriminate].
  - destruct (on_hart _ s2) as [[[] s3]|]; [|discriminate]. intros [= <- <- <-]. split; [apply clean_new | cbn; lia].
  - destruct (on_hart _ s2) as [[[] s3]|]; [|discriminate]. cbn [steps error].
    destruct (_ <=? _); [|apply IH; cbn; lia]. cbn [close].
    destruct (_ =? _); intros [= <- <- <-]; (split; [|cbn; lia]); [apply clean_new|].
    split; cbn; [congruence | lia].
  - destruct (handle_step_result q (Err ex) s2) as [[[a|err] s3]|]; [| |discriminate];
      intros [= <- <- <-]; (split; [apply clean_new | cbn; lia]).
Qed.
Lemma run_partial_clean m e s part r s1 part1 : in_progress part = true -> 0 <= progress part ->
  run_partial_inner m e (s, part) = Some (r, (s1, part1)) -> clean_partial part1 /\ 0 <= steps r.
Proof.
  intros Hin Hp. destruct (Z.eq_dec m 0) as [->|Hm].
  { unfold run_partial_inner. cbn. intros [= <- <- <-]. split; [|cbn; lia]. split; [congruence | exact Hp]. }
  rewrite run_partial_inner_eq by exact Hm. destruct (block_instr (block e)) as [instrs|]; [|discriminate].
  destruct (_ <=? _); [|discriminate]. apply run_partial_loop_clean; [exact Hin | exact Hp | cbn; lia].
Qed.

(** A block found makes progress. *)
Lemma block_call_progress e m s bc r st : 0 < num_instr (block e) -> 0 < m -> partial_block bc = partial_new ->
  block_call_run e (Core.pc (hart s)) m (s, bc) = Some (r, st) ->
  clean st /\ (error r = None -> 1 <= steps r).
Proof.
  intros Hn Hm Hp. rewrite block_call_partial by assumption.
  destruct (run_partial_inner m e (s, started e)) as [[r1 [s1 part1]]|] eqn:E; [|discriminate]. intros [= <- <-].
  revert E. destruct (block_instr (block e)) as [instrs|] eqn:Hi;
    [|rewrite run_partial_inner_eq, Hi by lia; discriminate].
  pose proof (block_instr_length _ _ Hi ltac:(lia)) as Hlen.
  destruct instrs as [|i instrs]; [cbn in Hlen; lia|].
  intros E. destruct (run_partial_clean m e s (started e) r1 s1 part1 eq_refl ltac:(cbn; lia) E) as [Hc _]. split; [exact Hc|]. intros He.
  replace m with (1 + (m - 1)) in E by lia.
  rewrite (run_partial_split e (i :: instrs) i instrs s (started e) (m - 1) Hi ltac:(cbn; lia) eq_refl eq_refl ltac:(lia)) in E.
  unfold partial_step in E. destruct (run_partial_inner 1 e (s, started e)) as [[r2 [s2 part2]]|] eqn:E1; [|discriminate].
  destruct (run_partial_one e (i :: instrs) i instrs s (started e) r2 s2 part2 Hi eq_refl E1) as (Hmade & _).
  unfold step_made in Hmade. destruct (error r2) eqn:He2; [injection E as <- <- <-; congruence|].
  destruct (in_progress part2) eqn:Hp2; [|injection E as <- <- <-; lia].
  destruct (run_partial_inner (m - 1) e (s2, part2)) as [[r3 [s3 part3]]|] eqn:E3; [|discriminate].
  injection E as <- <- <-. cbn. destruct (run_partial_clean 1 e s (started e) r2 s2 part2 eq_refl ltac:(cbn; lia) E1) as [[_ Hp2'] _].
  destruct (run_partial_clean (m - 1) e s2 part2 r3 s3 part3 Hp2 Hp2' E3) as [_ H3]. lia.
Qed.

(** ** The loop *)

(** One turn of the loop. *)
Definition turn (m : Z) : M (Core * BlockCacheState) Steps :=
  instr_pc <- on_core (on_hart (mget Core.pc)) ;;
  block <- on_cache (get_block SIZE instr_pc) ;;
  match block with
  | Some run_block => run_block instr_pc m
  | None =>
      r <- run_instr_at instr_pc ;;
      r <- on_core (handle_step_result instr_pc r) ;;
      mret (match r with Err err => {| steps := 0; error := Some err |} | Ok _ => {| steps := 1; error := None |} end)
  end.

Lemma step_loop_eq fuel m (res : Steps) st : error res = None ->
  step_loop fuel m res st =
    if steps res <? m then
      match fuel with
      | O => None
      | S fuel =>
          match turn (m - steps res) st with
          | Some (r, st1) =>
              match error r with
              | Some _ => Some (add_steps (steps res) r, st1)
              | None => step_loop fuel m (add_steps (steps res) r) st1
              end
          | None => None
          end
      end
    else Some (res, st).
Proof.
  intros He. destruct st as [s bc], s as [h mem].
  assert (Hloop : forall n, step_loop n m res (mkCore h mem, bc) =
    if steps res <? m then match n with O => None | S n => step_loop (S n) m res (mkCore h mem, bc) end
    else Some (res, (mkCore h mem, bc))).
  { intros [|n]; cbn [step_loop]; destruct (steps res <? m); reflexivity. }
  rewrite Hloop. destruct (steps res <? m) eqn:Hlt; [|reflexivity]. destruct fuel as [|fuel]; [reflexivity|].
  cbn [step_loop]. rewrite Hlt. unfold turn, mbind, on_core, on_hart, mget, with_hart, on_cache. cbn [hart main_memory bc_get_block chunk_cache block_cache].
  destruct (get_block SIZE (Core.pc h) bc) as [[[run|] bc1]|]; [| |reflexivity].
  - destruct (run _ _ _) as [[r st1]|]; [|reflexivity]. unfold merge_and_return, mret. cbn [error].
    destruct (error r) eqn:Er; unfold add_steps; rewrite Er; reflexivity.
  - destruct (run_instr_at _ _) as [[r [s1 bc2]]|]; [|reflexivity].
    destruct (handle_step_result _ r s1) as [[[a|err] s2]|]; [| |reflexivity]; unfold mret; cbn [error].
    + rewrite He. reflexivity.
    + unfold add_steps. cbn. rewrite Z.add_0_r. reflexivity.
Qed.

Lemma turn_progress m st r st1 : clean st -> 0 < m -> turn m st = Some (r, st1) ->
  clean st1 /\ (error r = None -> 1 <= steps r).
Proof.
  intros Hc Hm. destruct st as [[h mem] bc].
  unfold turn, mbind, on_core, on_hart, mget, with_hart, on_cache. cbn [hart main_memory].
  destruct (get_block SIZE (Core.pc h) bc) as [[[run|] bc1]|] eqn:Eg; [| |discriminate];
    apply get_block_inv in Eg as (-> & Hidle & Hb); pose proof (proj1 Hc Hidle) as Hnew; cbn [snd] in Hnew.
  - destruct (Hb run eq_refl) as (e & -> & _ & _ & Hn). intros E.
    exact (block_call_progress e m (mkCore h mem) bc r st1 Hn Hm Hnew E).
  - destruct (run_instr_at _ _) as [[r0 [s1 bc2]]|] eqn:Er; [|discriminate].
    apply run_instr_at_keeps_partial in Er. cbn [snd] in Er.
    destruct (handle_step_result _ r0 s1) as [[[a|err] s2]|]; [| |discriminate]; intros [= <- <-]; cbn;
      (split; [unfold clean; cbn; rewrite Er, Hnew; apply clean_new | lia || discriminate]).
Qed.

Lemma step_loop_shift k fuel m (res : Steps) st : error res = None ->
  step_loop fuel (k + m) (add_steps k res) st = plus_steps k (step_loop fuel m res st).
Proof.
  revert res st; induction fuel as [|fuel IH]; intros res st He;
    rewrite !step_loop_eq by exact He; cbn [add_steps steps];
    replace (k + steps res <? k + m) with (steps res <? m)
      by (destruct (Z.ltb_spec (steps res) m), (Z.ltb_spec (k + steps res) (k + m)); (reflexivity || lia));
    destruct (steps res <? m); try reflexivity.
  replace (k + m - (k + steps res)) with (m - steps res) by lia.
  destruct (turn _ st) as [[r st1]|]; [|reflexivity]. destruct (error r) eqn:Er.
  - cbn [plus_steps]. rewrite add_steps_add. reflexivity.
  - rewrite <- add_steps_add. apply IH. exact Er.
Qed.

Lemma step_loop_fuel fuel fuel' m (res : Steps) st : error res = None -> clean st ->
  m - steps res <= Z.of_nat fuel -> m - steps res <= Z.of_nat fuel' ->
  step_loop fuel m res st = step_loop fuel' m res st.
Proof.
  revert fuel' res st; induction fuel as [|fuel IH]; intros fuel' res st He Hc Hf Hf'; rewrite !step_loop_eq by exact He;
    destruct (Z.ltb_spec (steps res) m); try reflexivity; [lia|]. destruct fuel' as [|fuel']; [lia|].
  destruct (turn _ st) as [[r st1]|] eqn:Et; [|reflexivity].
  apply turn_progress in Et as [Hc1 Hs]; [|exact Hc | lia].
  destruct (error r) eqn:Er; [reflexivity|]. specialize (Hs eq_refl).
  apply IH; [exact Er | exact Hc1 | cbn; lia..].
Qed.

(** ** One step of many *)
Definition then_steps (o : option (Steps * (Core * BlockCacheState)))
    (k : Core * BlockCacheState -> option (Steps * (Core * BlockCacheState))) :=
  match o with
  | None => None
  | Some (r, st1) => match error r with Some _ => Some (r, st1) | None => plus_steps (steps r) (k st1) end
  end.

(** What the rest of a run does with the partial block. *)
Lemma step_max_inner_idle n s bc : in_progress (partial_block bc) = false ->
  step_max_inner n (s, bc) = step_loop (Z.to_nat n) n ZERO (s, bc).
Proof.
  intros Hp. unfold step_max_inner, mbind. cbn [bc_complete_current_block chunk_cache block_cache].
  unfold complete_current_block. rewrite Hp. reflexivity.
Qed.
Lemma step_max_inner_partial n s bc : in_progress (partial_block bc) = true ->
  step_max_inner n (s, bc) =
    match entry SIZE (entries bc) (addr (partial_block bc)) with
    | None => None
    | Some e =>
        match run_partial_inner n e (s, partial_block bc) with
        | None => None
        | Some (r, (s1, part1)) =>
            match error r with
            | Some _ => Some (r, (s1, with_partial_block part1 bc))
            | None => step_loop (Z.to_nat n) n r (s1, with_partial_block part1 bc)
            end
        end
    end.
Proof.
  intros Hp. unfold step_max_inner, mbind. cbn [bc_complete_current_block chunk_cache block_cache].
  unfold complete_current_block. rewrite Hp. cbn [negb].
  destruct (entry SIZE (entries bc) (addr (partial_block bc))) as [e|]; [|reflexivity].
  unfold with_partial. destruct (run_partial_inner n e (s, partial_block bc)) as [[r [s1 part1]]|]; [|reflexivity].
  unfold merge_and_return. cbn [error steps ZERO]. destruct r as [k [x|]]; reflexivity.
Qed.

(** A run of a block on the cache it was found in. *)
Definition in_cache bc (o : option (Steps * (Core * PartialBlock))) : option (Steps * (Core * BlockCacheState)) :=
  match o with Some (r, (s, part)) => Some (r, (s, with_partial_block part bc)) | None => None end.
Definition then_loop (fuel : nat) (m : Z) (o : option (Steps * (Core * BlockCacheState))) :=
  match o with
  | None => None
  | Some (r, st) => match error r with Some _ => Some (r, st) | None => step_loop fuel m r st end
  end.

Lemma made_one (r : Steps) : step_made r -> error r = None -> r = add_steps 1 ZERO.
Proof. unfold step_made, add_steps. intros Hm He. rewrite He in Hm. destruct r; cbn in *. subst. reflexivity. Qed.

Lemma block_step_split e instrs i rest s bc part n fuel :
  block_instr (block e) = Some instrs -> 0 <= progress part -> drop (Z.to_nat (progress part)) instrs = i :: rest ->
  in_progress part = true -> entry SIZE (entries bc) (addr part) = Some e -> 0 <= n -> n <= Z.of_nat fuel ->
  then_loop fuel (1 + n) (in_cache bc (run_partial_inner (1 + n) e (s, part))) =
    then_steps (in_cache bc (run_partial_inner 1 e (s, part))) (step_max_inner n).
Proof.
  intros Hi Hp Hd Hin He Hn Hf. rewrite (run_partial_split e instrs i rest s part n Hi Hp Hd Hin Hn).
  destruct (run_partial_inner 1 e (s, part)) as [[r [s1 part1]]|] eqn:E; [|reflexivity].
  destruct (run_partial_one _ _ _ _ _ _ _ _ _ Hi Hd E) as (Hmade & _ & Hgo).
  destruct (run_partial_clean _ _ _ _ _ _ _ Hin Hp E) as [Hclean1 _].
  cbn [partial_step in_cache then_steps then_loop]. destruct (error r) eqn:Er; [cbn; rewrite Er; reflexivity|].
  pose proof (made_one r Hmade Er) as ->. change (steps (add_steps 1 ZERO)) with 1.
  destruct (in_progress part1) eqn:Hp1.
  - destruct (Hgo eq_refl) as [_ Haddr].
    rewrite step_max_inner_partial by exact Hp1. cbn [with_partial_block entries partial_block]. rewrite Haddr, He.
    destruct (run_partial_inner n e (s1, part1)) as [[r2 [s2 part2]]|] eqn:E2; [|reflexivity].
    destruct (run_partial_clean _ _ _ _ _ _ _ Hp1 (proj2 Hclean1) E2) as [Hclean2 H2].
    cbn [plus_steps in_cache then_loop]. cbn [add_steps error].
    destruct (error r2) eqn:Er2; [reflexivity|].
    change {| steps := 1 + steps r2; error := error r2 |} with (add_steps 1 r2).
    rewrite step_loop_shift by exact Er2. f_equal.
    apply step_loop_fuel; [exact Er2 | exact Hclean2 | lia..].
  - cbn [in_cache then_loop]. cbn [add_steps error ZERO].
    rewrite step_max_inner_idle by exact Hp1. rewrite <- step_loop_shift by reflexivity.
    change {| steps := 1 + steps ZERO; error := None |} with (add_steps 1 (@ZERO EnvironException)).
    rewrite !step_loop_shift by reflexivity. f_equal.
    apply step_loop_fuel; [reflexivity | exact Hclean1 | cbn; lia..].
Qed.

Lemma in_cache_plus bc o : in_cache bc o = match o with Some (r, (s, p)) => Some (r, (s, with_partial_block p bc)) | None => None end.
Proof. reflexivity. Qed.

Lemma turn_idle m s bc :
  turn m (s, bc) =
    match get_block SIZE (Core.pc (hart s)) bc with
    | None => None
    | Some (Some run, bc) => run (Core.pc (hart s)) m (s, bc)
    | Some (None, bc) =>
        match run_instr_at (Core.pc (hart s)) (s, bc) with
        | None => None
        | Some (r, (s1, bc1)) =>
            match handle_step_result (Core.pc (hart s)) r s1 with
            | None => None
            | Some (Err err, s2) => Some ({| steps := 0; error := Some err |}, (s2, bc1))
            | Some (Ok _, s2) => Some ({| steps := 1; error := None |}, (s2, bc1))
            end
        end
    end.
Proof.
  destruct s as [h mem]. unfold turn, mbind, on_core, on_hart, mget, with_hart, on_cache, mret. cbn [hart main_memory].
  destruct (get_block SIZE (Core.pc h) bc) as [[[run|] bc1]|]; [reflexivity | | reflexivity].
  destruct (run_instr_at _ _) as [[r [s1 bc2]]|]; [|reflexivity].
  destruct (handle_step_result _ r s1) as [[[a|err] s2]|]; reflexivity.
Qed.

Lemma step_max_inner_split_idle n s bc : in_progress (partial_block bc) = false -> clean (s, bc) -> 0 <= n ->
  step_max_inner (1 + n) (s, bc) = then_steps (step_max_inner 1 (s, bc)) (step_max_inner n).
Proof.
  intros Hp Hc Hn. pose proof (proj1 Hc Hp) as Hnew. cbn [snd] in Hnew. rewrite !step_max_inner_idle by exact Hp.
  replace (Z.to_nat (1 + n)) with (S (Z.to_nat n)) by lia. change (Z.to_nat 1) with 1%nat.
  rewrite !step_loop_eq by reflexivity. cbn [steps ZERO].
  destruct (Z.ltb_spec 0 (1 + n)); [|lia]. change (0 <? 1) with true. cbn iota. rewrite !Z.sub_0_r, !turn_idle.
  destruct (get_block SIZE _ bc) as [[[run|] bc1]|] eqn:Eg; [| |reflexivity];
    apply get_block_inv in Eg as (-> & _ & Hb).
  - destruct (Hb run eq_refl) as (e & -> & He & Ha & Hnum).
    rewrite !block_call_partial by (assumption || lia). rewrite <- !in_cache_plus.
    destruct (block_instr (block e)) as [instrs|] eqn:Hi;
      [|rewrite !run_partial_inner_eq, Hi by lia; reflexivity].
    pose proof (block_instr_length _ _ Hi ltac:(lia)) as Hlen. destruct instrs as [|i instrs]; [cbn in Hlen; lia|].
    assert (Hentry : entry SIZE (entries bc) (addr (started e)) = Some e) by (cbn; rewrite Ha; exact He).
    pose proof (block_step_split e (i :: instrs) i instrs s bc (started e) n (Z.to_nat n) Hi ltac:(cbn; lia) eq_refl
      eq_refl Hentry Hn ltac:(lia)) as Hsplit.
    unfold then_loop in Hsplit. etransitivity; [|etransitivity; [exact Hsplit|]].
    + destruct (in_cache bc (run_partial_inner (1 + n) e _)) as [[r st1]|]; [|reflexivity].
      rewrite add_steps_0. reflexivity.
    + destruct (run_partial_inner 1 e (s, started e)) as [[r [s1 part1]]|] eqn:E1; [|reflexivity].
      destruct (run_partial_one e (i :: instrs) i instrs s (started e) r s1 part1 Hi eq_refl E1) as (Hmade & _).
      cbn [in_cache then_steps]. rewrite add_steps_0. destruct (error r) eqn:Er; [cbn; rewrite Er; reflexivity|].
      rewrite step_loop_eq by exact Er. pose proof (made_one r Hmade Er) as ->. reflexivity.
  - destruct (run_instr_at _ _) as [[r0 [s1 bc2]]|] eqn:Er; [|reflexivity].
    apply run_instr_at_keeps_partial in Er. cbn [snd] in Er. rewrite Hnew in Er.
    destruct (handle_step_result _ r0 s1) as [[[a|err] s2]|]; [| |reflexivity]; cbn [error then_steps]; [|reflexivity].
    rewrite (step_loop_eq 0) by reflexivity. cbn [add_steps steps error]. change (0 + 1 <? 1) with false.
    cbn [then_steps error steps].
    rewrite step_max_inner_idle by (rewrite Er; reflexivity).
    change (add_steps 0 {| steps := 1; error := None |}) with (add_steps 1 (@ZERO EnvironException)).
    rewrite step_loop_shift by reflexivity. reflexivity.
Qed.

Lemma turn_busy m s bc : in_progress (partial_block bc) = true -> turn m (s, bc) = None.
Proof.
  intros Hp. rewrite turn_idle. destruct (get_block SIZE _ bc) as [[o bc1]|] eqn:Eg; [|reflexivity].
  apply get_block_inv in Eg as (_ & Hidle & _). congruence.
Qed.

(** One step of many, from wherever the last run stopped. *)
Lemma step_max_inner_split_one n st : clean st -> 0 <= n ->
  step_max_inner (1 + n) st = then_steps (step_max_inner 1 st) (step_max_inner n).
Proof.
  intros Hc Hn. destruct st as [s bc]. destruct (in_progress (partial_block bc)) eqn:Hin;
    [|apply step_max_inner_split_idle; assumption].
  rewrite !step_max_inner_partial by exact Hin.
  destruct (entry SIZE (entries bc) (addr (partial_block bc))) as [e|] eqn:He; [|reflexivity].
  set (part := partial_block bc) in *. destruct Hc as [_ Hp]. cbn [snd] in Hp. fold part in Hp.
  destruct (block_instr (block e)) as [instrs|] eqn:Hi; [|rewrite !run_partial_inner_eq, Hi by lia; reflexivity].
  destruct (drop (Z.to_nat (progress part)) instrs) as [|i rest] eqn:Hd.
  - (* nothing of the block is left *)
    rewrite !run_partial_inner_eq, Hi by lia. destruct (_ <=? _); [|reflexivity]. rewrite Hd.
    cbn [run_partial_loop]. unfold mret. cbn [close error ZERO].
    set (part1 := if _ =? _ then _ else _).
    destruct (in_progress part1) eqn:Hp1.
    + rewrite !step_loop_eq by reflexivity. cbn [steps ZERO].
      destruct (Z.ltb_spec 0 (1 + n)); [|lia]. replace (Z.to_nat (1 + n)) with (S (Z.to_nat n)) by lia.
      change (0 <? 1) with true. change (Z.to_nat 1) with 1%nat. cbn iota.
      rewrite !turn_busy by exact Hp1. reflexivity.
    + assert (Hc1 : clean (s, with_partial_block part1 bc)).
      { unfold clean. cbn. unfold part1 in *. destruct (_ =? _); [apply clean_new | cbn in Hp1; congruence]. }
      rewrite <- !step_max_inner_idle by exact Hp1. apply step_max_inner_split_idle; assumption.
  - pose proof (block_step_split e instrs i rest s bc part n (Z.to_nat (1 + n)) Hi Hp Hd Hin He Hn ltac:(lia)) as Hsplit.
    etransitivity; [|etransitivity; [exact Hsplit|]].
    + destruct (run_partial_inner (1 + n) e (s, part)) as [[r [s1 part1]]|]; reflexivity.
    + destruct (run_partial_inner 1 e (s, part)) as [[r [s1 part1]]|] eqn:E1; [|reflexivity].
      destruct (run_partial_one _ _ _ _ _ _ _ _ _ Hi Hd E1) as (Hmade & _).
      cbn [in_cache then_steps]. destruct (error r) eqn:Er; [cbn; rewrite Er; reflexivity|].
      rewrite step_loop_eq by exact Er. pose proof (made_one r Hmade Er) as ->. reflexivity.
Qed.

(** One step: how it ends; an exception leaves no block unfinished. *)
Definition ended (r : Steps) (st : Core * BlockCacheState) : Prop :=
  clean st /\ step_made r /\ (error r <> None -> in_progress (partial_block (snd st)) = false).

Lemma turn_one st r st1 : clean st -> turn 1 st = Some (r, st1) -> ended r st1.
Proof.
  intros Hc E. pose proof (turn_progress 1 st r st1 Hc ltac:(lia) E) as [Hc1 _]. split; [exact Hc1|].
  destruct st as [s bc]. rewrite turn_idle in E.
  destruct (get_block SIZE _ bc) as [[[run|] bc1]|] eqn:Eg; [| |discriminate];
    apply get_block_inv in Eg as (-> & Hidle & Hb); pose proof (proj1 Hc Hidle) as Hnew; cbn [snd] in Hnew.
  - destruct (Hb run eq_refl) as (e & -> & _ & _ & Hnum).
    rewrite block_call_partial in E by (assumption || lia).
    destruct (run_partial_inner 1 e (s, started e)) as [[r2 [s2 part2]]|] eqn:E1; [|discriminate]. injection E as <- <-.
    destruct (block_instr (block e)) as [instrs|] eqn:Hi; [|rewrite run_partial_inner_eq, Hi in E1 by lia; discriminate].
    pose proof (block_instr_length _ _ Hi ltac:(lia)) as Hlen. destruct instrs as [|i instrs]; [cbn in Hlen; lia|].
    destruct (run_partial_one e (i :: instrs) i instrs s (started e) r2 s2 part2 Hi eq_refl E1) as (Hm & Hidle1 & _). auto.
  - destruct (run_instr_at _ _) as [[r0 [s1 bc2]]|] eqn:Er; [|discriminate].
    apply run_instr_at_keeps_partial in Er. cbn [snd] in Er. rewrite Hnew in Er.
    destruct (handle_step_result _ r0 s1) as [[[a|err] s2]|]; [| |discriminate]; injection E as <- <-;
      (split; [reflexivity | intros _; cbn; rewrite Er; reflexivity]).
Qed.

Lemma step_loop_one st r st1 : clean st -> step_loop 1 1 ZERO st = Some (r, st1) -> ended r st1.
Proof.
  intros Hc. rewrite step_loop_eq by reflexivity. cbn [steps ZERO]. change (0 <? 1) with true. cbn iota.
  destruct (turn (1 - 0) st) as [[r1 st2]|] eqn:E; [|discriminate].
  apply turn_one in E as (Hc1 & Hm & Hi); [|exact Hc]. rewrite add_steps_0.
  destruct (error r1) eqn:Er; [intros [= <- <-]; split; [exact Hc1|]; split; [exact Hm | intros _; apply Hi; congruence]|].
  rewrite step_loop_eq by exact Er. pose proof (made_one r1 Hm Er) as ->. intros [= <- <-].
    split; [exact Hc1 | split; [exact Hm | intros []; reflexivity]].
Qed.

Lemma step_max_inner_one st r st1 : clean st -> step_max_inner 1 st = Some (r, st1) -> ended r st1.
Proof.
  intros Hc. destruct st as [s bc]. destruct (in_progress (partial_block bc)) eqn:Hin;
    [|rewrite step_max_inner_idle by exact Hin; apply step_loop_one, Hc].
  rewrite step_max_inner_partial by exact Hin. destruct Hc as [_ Hp]. cbn [snd] in Hp.
  destruct (entry SIZE (entries bc) (addr (partial_block bc))) as [e|] eqn:He; [|discriminate].
  set (part := partial_block bc) in *.
  destruct (run_partial_inner 1 e (s, part)) as [[r1 [s1 part1]]|] eqn:E1; [|discriminate].
  destruct (run_partial_clean _ _ _ _ _ _ _ Hin Hp E1) as [Hc1 _].
  destruct (block_instr (block e)) as [instrs|] eqn:Hi; [|rewrite run_partial_inner_eq, Hi in E1 by lia; discriminate].
  destruct (drop (Z.to_nat (progress part)) instrs) as [|i rest] eqn:Hd.
  - assert (r1 = ZERO) as ->.
    { rewrite run_partial_inner_eq, Hi in E1 by lia. destruct (_ <=? _); [|discriminate]. rewrite Hd in E1.
      injection E1 as <- _ _. reflexivity. }
    cbn [error ZERO]. apply step_loop_one. exact Hc1.
  - destruct (run_partial_one _ _ _ _ _ _ _ _ _ Hi Hd E1) as (Hm & Hidle & _). unfold ended.
    destruct (error r1) eqn:Er; [intros [= <- <-]; split; [exact Hc1|]; split; [exact Hm | intros _; apply Hidle; congruence]|].
    rewrite step_loop_eq by exact Er. pose proof (made_one r1 Hm Er) as ->. intros [= <- <-].
    split; [exact Hc1 | split; [exact Hm | intros []; reflexivity]].
Qed.

Lemma then_steps_assoc o k k' :
  then_steps (then_steps o k) k' = then_steps o (fun st => then_steps (k st) k').
Proof.
  destruct o as [[r st]|]; [|reflexivity]. cbn. destruct (error r) eqn:Er; [cbn; rewrite Er; reflexivity|].
  destruct (k st) as [[r2 st2]|]; [|reflexivity]. cbn. destruct (error r2); [reflexivity|].
  destruct (k' st2) as [[r3 st3]|]; cbn; [rewrite add_steps_add|]; reflexivity.
Qed.
Lemma then_steps_ext o k k' : (forall r st, o = Some (r, st) -> error r = None -> k st = k' st) ->
  then_steps o k = then_steps o k'.
Proof.
  destruct o as [[r st]|]; [|reflexivity]. intros Hk. cbn. destruct (error r) eqn:Er; [reflexivity|].
  rewrite (Hk r st eq_refl Er). reflexivity.
Qed.

(** Any split, and how many steps were made. *)
Lemma step_max_inner_chunks a b st : clean st -> 0 < a -> 0 <= b ->
  step_max_inner (a + b) st = then_steps (step_max_inner a st) (step_max_inner b).
Proof.
  intros Hc Ha Hb. revert st Hc. replace a with (1 + Z.of_nat (Z.to_nat (a - 1))) by lia.
  induction (Z.to_nat (a - 1)) as [|n IH]; intros st Hc; [apply step_max_inner_split_one; assumption|].
  replace (1 + Z.of_nat (S n) + b) with (1 + (1 + Z.of_nat n + b)) by lia.
  replace (1 + Z.of_nat (S n)) with (1 + (1 + Z.of_nat n)) by lia.
  rewrite !(step_max_inner_split_one _ st Hc) by lia. rewrite then_steps_assoc.
  apply then_steps_ext. intros r st1 E _. apply IH. apply (step_max_inner_one _ _ _ Hc E).
Qed.

Lemma step_max_inner_made n st r st1 : clean st -> 0 < n -> step_max_inner n st = Some (r, st1) ->
  clean st1 /\ 0 <= steps r <= n /\ (error r = None <-> steps r = n).
Proof.
  intros Hc Hn. revert st r st1 Hc. replace n with (1 + Z.of_nat (Z.to_nat (n - 1))) by lia.
  assert (Hone : forall st r st1, clean st -> step_max_inner 1 st = Some (r, st1) ->
    clean st1 /\ 0 <= steps r <= 1 /\ (error r = None <-> steps r = 1)).
  { intros st r st1 Hc E. destruct (step_max_inner_one st r st1 Hc E) as [Hc1 Hm]. split; [exact Hc1|].
    unfold step_made in Hm. destruct (error r); split; try lia; split; (congruence || lia). }
  induction (Z.to_nat (n - 1)) as [|k IH]; intros st r st1 Hc; [apply Hone, Hc|].
  replace (1 + Z.of_nat (S k)) with (1 + (1 + Z.of_nat k)) by lia.
  rewrite step_max_inner_split_one by (assumption || lia).
  destruct (step_max_inner 1 st) as [[r1 st2]|] eqn:E1; [|discriminate].
  destruct (Hone st r1 st2 Hc E1) as (Hc1 & Hr1 & He1). cbn [then_steps].
  destruct (error r1) eqn:Er1; [intros [= <- <-]; split; [exact Hc1|]; split; [lia|]; split; [congruence | intros Heq; destruct He1 as [_ He1]; lia]|].
  destruct (step_max_inner _ st2) as [[r2 st3]|] eqn:E2; [|discriminate]. intros [= <- <-].
  destruct (IH st2 r2 st3 Hc1 E2) as (Hc2 & Hr2 & He2). split; [exact Hc2|].
  destruct He1 as [He1 _]. specialize (He1 eq_refl). cbn [add_steps steps error].
  split; [lia|]. rewrite He2. lia.
Qed.

(** An exception leaves no block unfinished. *)
Lemma step_max_inner_error_idle n st r st1 : clean st -> 0 < n -> step_max_inner n st = Some (r, st1) ->
  error r <> None -> in_progress (partial_block (snd st1)) = false.
Proof.
  intros Hc Hn. revert st r st1 Hc. replace n with (1 + Z.of_nat (Z.to_nat (n - 1))) by lia.
  induction (Z.to_nat (n - 1)) as [|k IH]; intros st r st1 Hc E He.
  { apply (step_max_inner_one st r st1 Hc E), He. }
  replace (1 + Z.of_nat (S k)) with (1 + (1 + Z.of_nat k)) in E by lia.
  rewrite step_max_inner_split_one in E by (assumption || lia).
  destruct (step_max_inner 1 st) as [[r1 st2]|] eqn:E1; [|discriminate].
  destruct (step_max_inner_one st r1 st2 Hc E1) as (Hc1 & _ & Hi). cbn [then_steps] in E.
  destruct (error r1) eqn:Er1; [injection E as <- <-; apply Hi; congruence|].
  destruct (step_max_inner _ st2) as [[r2 st3]|] eqn:E2; [|discriminate]. injection E as <- <-.
  exact (IH st2 r2 st3 Hc1 E2 He).
Qed.

(** ** Handling exceptions *)
Section Handled.
Context {X E : Type} (handle : EnvironException -> M (Core * BlockCacheState * X) (result bool E)).
Notation HSteps := (StepManyResult E).
Implicit Types (st : Core * BlockCacheState) (x : X).

(** Steps one at a time, each exception handled as it occurs, until the handler
    asks to stop. *)
Fixpoint steps_handled (n : nat) (stx : Core * BlockCacheState * X) : option (HSteps * (Core * BlockCacheState * X)) :=
  match n with
  | O => Some (ZERO, stx)
  | S n =>
      let '(st, x) := stx in
      match step st with
      | None => None
      | Some (Ok _, st1) => plus_steps 1 (steps_handled n (st1, x))
      | Some (Err e, st1) =>
          match handle e (st1, x) with
          | None => None
          | Some (Ok true, stx) => plus_steps 1 (steps_handled n stx)
          | Some (Ok false, stx) => Some ({| steps := 1; error := None |}, stx)
          | Some (Err err, stx) => Some ({| steps := 1; error := Some err |}, stx)
          end
      end
  end.

Lemma steps_handled_S n st x : steps_handled (S n) (st, x) =
  match step st with
  | None => None
  | Some (Ok _, st1) => plus_steps 1 (steps_handled n (st1, x))
  | Some (Err e, st1) =>
      match handle e (st1, x) with
      | None => None
      | Some (Ok true, stx) => plus_steps 1 (steps_handled n stx)
      | Some (Ok false, stx) => Some ({| steps := 1; error := None |}, stx)
      | Some (Err err, stx) => Some ({| steps := 1; error := Some err |}, stx)
      end
  end.
Proof. reflexivity. Qed.

(** After a run to the next exception. *)
Definition handle_run (n : nat) x (o : option (Steps * (Core * BlockCacheState)))
  : option (HSteps * (Core * BlockCacheState * X)) :=
  match o with
  | None => None
  | Some (r, st1) =>
      match error r with
      | None => Some ({| steps := steps r; error := None |}, (st1, x))
      | Some e =>
          match handle e (st1, x) with
          | None => None
          | Some (Ok true, stx) =>
              plus_steps (steps r + 1) (steps_handled (n - Z.to_nat (steps r) - 1) stx)
          | Some (Ok false, stx) => Some ({| steps := steps r + 1; error := None |}, stx)
          | Some (Err err, stx) => Some ({| steps := steps r + 1; error := Some err |}, stx)
          end
      end
  end.

Lemma step_eq st : step st =
  match step_max_inner 1 st with
  | Some (r, st1) => Some (match error r with Some e => Err e | None => Ok tt end, st1)
  | None => None
  end.
Proof. unfold step, mbind, mret. destruct (step_max_inner 1 st) as [[r st1]|]; reflexivity. Qed.

Lemma steps_handled_run n st x : clean st ->
  steps_handled (S n) (st, x) = handle_run (S n) x (step_max_inner (Z.of_nat (S n)) st).
Proof.
  revert st; induction n as [|n IH]; intros st Hc; rewrite steps_handled_S, step_eq; unfold MachineState in *.
  - change (Z.of_nat 1) with 1. destruct (step_max_inner 1 st) as [[r st1]|] eqn:E1; [|reflexivity].
    cbn [handle_run].
    destruct (step_max_inner_one st r st1 Hc E1) as (_ & Hm & _). unfold step_made in Hm.
    destruct (error r); rewrite Hm; [|reflexivity].
    destruct (handle e (st1, x)) as [[[[]|err] stx]|]; reflexivity.
  - replace (Z.of_nat (S (S n))) with (1 + Z.of_nat (S n)) by lia.
    rewrite step_max_inner_split_one by (assumption || lia).
    destruct (step_max_inner 1 st) as [[r st1]|] eqn:E1; [|reflexivity].
    destruct (step_max_inner_one st r st1 Hc E1) as (Hc1 & Hm & _). unfold step_made in Hm. cbn [then_steps].
    destruct (error r) as [e|] eqn:Er; cbn [handle_run]; rewrite ?Er, Hm.
    + destruct (handle e (st1, x)) as [[[[]|err] stx]|]; reflexivity.
    + rewrite (IH st1 Hc1). destruct (step_max_inner (Z.of_nat (S n)) st1) as [[r2 st2]|] eqn:E2; [|reflexivity].
      destruct (step_max_inner_made (Z.of_nat (S n)) st1 r2 st2 Hc1 ltac:(lia) E2) as (_ & Hr2 & _).
      cbn [plus_steps handle_run]. cbn [add_steps error steps]. unfold MachineState in *.
      destruct (error r2) as [e|]; [|reflexivity].
      destruct (handle e (st2, x)) as [[[[]|err] stx]|]; [| | |reflexivity].
      * rewrite plus_steps_add. f_equal; [lia|]. f_equal. lia.
      * cbn. unfold add_steps. cbn. rewrite Z.add_assoc. reflexivity.
      * cbn. unfold add_steps. cbn. rewrite Z.add_assoc. reflexivity.
Qed.

(** ** The loops *)
Lemma step_max_eq b inner st : clean st -> bounded b -> (0 < inner)%nat ->
  0 < unwrap_bound b \/ in_progress (partial_block (snd st)) = false ->
  step_max inner b st = step_max_inner (unwrap_bound b) st /\
  (in_progress (partial_block (snd st)) = false -> unwrap_bound b = 0 -> step_max inner b st = Some (ZERO, st)).
Proof.
  intros Hc Hb Hin Hcase. pose proof (unwrap_bound_range b Hb) as [Hn _].
  destruct inner as [|inner]; [lia|]. unfold step_max. cbn [step_max_loop]. unfold mbind at 1.
  assert (Hz : in_progress (partial_block (snd st)) = false -> step_max_inner 0 st = Some (ZERO, st))
    by (destruct st as [s bc]; intros Hp; rewrite step_max_inner_idle by exact Hp; reflexivity).
  split.
  - destruct (step_max_inner (unwrap_bound b) st) as [[r st1]|] eqn:E1; [|reflexivity].
    cbn [merge_and_return steps error ZERO]. rewrite Z.add_0_l, less_than_unwrap by assumption.
    replace (match error r with Some _ => true | None => false end || negb (steps r <? unwrap_bound b))
      with true; [destruct r; reflexivity|].
    destruct (error r) eqn:Er; [reflexivity|]. symmetry. apply negb_true_iff, Z.ltb_ge.
    destruct (Z.eq_dec (unwrap_bound b) 0) as [Hz0|Hz0].
    + destruct Hcase as [|Hp]; [lia|]. rewrite Hz0, (Hz Hp) in E1. injection E1 as <- <-. cbn. lia.
    + destruct (step_max_inner_made (unwrap_bound b) st r st1 Hc ltac:(lia) E1) as (_ & _ & He). apply He in Er. lia.
  - intros Hp H0. unfold mbind. rewrite H0, (Hz Hp). cbn [merge_and_return steps error ZERO].
    rewrite less_than_unwrap by assumption. rewrite H0. reflexivity.
Qed.

(** The handler leaves the block cache alone. *)
Context (Hhandle : forall e st x r st1 x1, handle e (st, x) = Some (r, (st1, x1)) -> snd st1 = snd st).

Lemma step_max_handle_loop_steps fuel inner b count st x :
  clean st -> bounded b -> unwrap_bound b < Z.of_nat fuel -> (0 < inner)%nat ->
  0 <= count -> count + unwrap_bound b < 2 ^ 64 ->
  0 < unwrap_bound b \/ in_progress (partial_block (snd st)) = false ->
  step_max_handle_loop fuel inner handle b count (st, x) =
    plus_steps count (steps_handled (Z.to_nat (unwrap_bound b)) (st, x)).
Proof.
  revert b count st x; induction fuel as [|fuel IH]; intros b count st x Hc Hb Hfuel Hin Hcount Hmax Hcase;
    pose proof (unwrap_bound_range b Hb) as [Hn _]; [lia|].
  cbn [step_max_handle_loop]. unfold mbind, on_machine.
  destruct (step_max_eq b inner st Hc Hb Hin Hcase) as [Heq Hzero].
  destruct (Z.eq_dec (unwrap_bound b) 0) as [H0|H0].
  { destruct Hcase as [|Hp]; [lia|]. rewrite (Hzero Hp H0), H0. change (Z.to_nat 0) with 0%nat.
    cbn [steps_handled plus_steps]. unfold add_steps, saturating_add, usize_MAX, mret. cbn [steps error ZERO].
    rewrite Z.add_0_r, Z.min_r by lia. reflexivity. }
  rewrite Heq. replace (Z.to_nat (unwrap_bound b)) with (S (Z.to_nat (unwrap_bound b - 1))) by lia.
  rewrite steps_handled_run by exact Hc.
  replace (Z.of_nat (S (Z.to_nat (unwrap_bound b - 1)))) with (unwrap_bound b) by lia.
  destruct (step_max_inner (unwrap_bound b) st) as [[r st1]|] eqn:E1; [|reflexivity].
  destruct (step_max_inner_made (unwrap_bound b) st r st1 Hc ltac:(lia) E1) as (Hc1 & Hr & He).
  cbn [handle_run]. unfold MachineState in *.
  assert (Hcnt : saturating_add count (steps r) = count + steps r) by (unfold saturating_add, usize_MAX; lia).
  rewrite Hcnt. destruct (error r) as [e|] eqn:Er; [|reflexivity].
  assert (Hlt : steps r < unwrap_bound b) by (assert (steps r <> unwrap_bound b) by (intros Hx; apply He in Hx; discriminate); lia).
  assert (Hcnt1 : saturating_add (count + steps r) 1 = count + (steps r + 1)) by (unfold saturating_add, usize_MAX; lia).
  rewrite Hcnt1.
  assert (Hb1 : bounded (bound_saturating_sub b (steps r))) by (apply bound_saturating_sub_bounded; [assumption | lia]).
  assert (Hb2 : bounded (bound_saturating_sub (bound_saturating_sub b (steps r)) 1))
    by (apply bound_saturating_sub_bounded; [assumption | lia]).
  assert (Hu : unwrap_bound (bound_saturating_sub (bound_saturating_sub b (steps r)) 1) = unwrap_bound b - steps r - 1)
    by (rewrite !bound_saturating_sub_unwrap by (assumption || lia); unfold saturating_sub; lia).
  destruct (handle e (st1, x)) as [[[[]|err] [st2 x2]]|] eqn:Eh; [| reflexivity | reflexivity | reflexivity].
  pose proof (Hhandle _ _ _ _ _ _ Eh) as Hsame.
  assert (Hidle : in_progress (partial_block (snd st1)) = false).
  { eapply step_max_inner_error_idle; [exact Hc | | exact E1 | congruence]. lia. }
  cbn [negb]. rewrite IH; try assumption; try lia.
  - rewrite plus_steps_add, Hu. f_equal. f_equal. lia.
  - unfold clean in *. rewrite Hsame. exact Hc1.
  - right. rewrite Hsame. exact Hidle.
Qed.

Lemma steps_handled_clean n st x r stx : clean st -> steps_handled n (st, x) = Some (r, stx) -> clean (fst stx).
Proof.
  revert st x r stx; induction n as [|n IH]; intros st x r stx Hc; [intros [= <- <-]; exact Hc|].
  rewrite steps_handled_S, step_eq. unfold MachineState in *.
  destruct (step_max_inner 1 st) as [[r1 st1]|] eqn:E1; [|discriminate].
  destruct (step_max_inner_one st r1 st1 Hc E1) as (Hc1 & _). unfold MachineState in *.
  destruct (error r1) as [e|].
  - destruct (handle e (st1, x)) as [[[[]|err] [st2 x2]]|] eqn:Eh; [| | |discriminate];
      assert (Hc2 : clean st2) by (unfold clean; rewrite (Hhandle _ _ _ _ _ _ Eh); exact Hc1).
    + destruct (steps_handled n (st2, x2)) as [[r2 stx2]|] eqn:E2; [|discriminate].
      intros [= <- <-]. exact (IH _ _ _ _ Hc2 E2).
    + intros [= <- <-]. exact Hc2.
    + intros [= <- <-]. exact Hc2.
  - destruct (steps_handled n (st1, x)) as [[r2 stx2]|] eqn:E2; [|discriminate].
    intros [= <- <-]. exact (IH _ _ _ _ Hc1 E2).
Qed.
End Handled.
End Chunks.
