(* ===== verification/IsaSpec.v ===== *)
(** * A reference semantics of the integer instructions

    What the instructions mean, in the terms of the RISC-V unprivileged manual
    and independently of the interpreter: arithmetic is written with the
    operations of [Z] at their widths, with no case analysis on registers, and
    every compressed instruction is the base instruction it expands to.

    [isa_of] gives the meaning of a decoded instruction, [isa_exec] runs it on
    the machine core.  The floating-point and CSR instructions are outside it
    ([isa_of] is [None]). *)

From S2P Require Import Prelude.
From S2P Require Import Registers.
From S2P Require Import Csr.
From S2P Require Import Instr.
From S2P Require Import Icb.
From S2P Require Import Memory.
From S2P Require Import Core.

(** ** Arithmetic *)
Inductive AluOp : Type :=
| ADD | SUB | SLL | SLT | SLTU | XOR | SRL | SRA | OR | AND
| ADDW | SUBW | SLLW | SRLW | SRAW
| MUL | MULH | MULHSU | MULHU | MULW
| DIV | DIVU | REM | REMU | DIVW | DIVUW | REMW | REMUW.

(** Operands and result are the unsigned values of 64-bit registers. *)
Definition alu (op : AluOp) (a b : Z) : Z :=
  match op with
  | ADD => wrap 64 (a + b)
  | SUB => wrap 64 (a - b)
  | SLL => wrap 64 (a * 2 ^ (b mod 64))
  | SLT => if sext 64 a <? sext 64 b then 1 else 0
  | SLTU => if a <? b then 1 else 0
  | XOR => Z.lxor a b
  | SRL => a / 2 ^ (b mod 64)
  | SRA => wrap 64 (sext 64 a / 2 ^ (b mod 64))
  | OR => Z.lor a b
  | AND => Z.land a b
  | ADDW => wrap 64 (sext 32 (a + b))
  | SUBW => wrap 64 (sext 32 (a - b))
  | SLLW => wrap 64 (sext 32 (a * 2 ^ (b mod 32)))
  | SRLW => wrap 64 (sext 32 (wrap 32 a / 2 ^ (b mod 32)))
  | SRAW => wrap 64 (sext 32 a / 2 ^ (b mod 32))
  | MUL => wrap 64 (a * b)
  | MULH => wrap 64 (sext 64 a * sext 64 b / 2 ^ 64)
  | MULHSU => wrap 64 (sext 64 a * b / 2 ^ 64)
  | MULHU => a * b / 2 ^ 64
  | MULW => wrap 64 (sext 32 (a * b))
  | DIV => if b =? 0 then 2 ^ 64 - 1 else wrap 64 (Z.quot (sext 64 a) (sext 64 b))
  | DIVU => if b =? 0 then 2 ^ 64 - 1 else a / b
  | REM => if b =? 0 then a else wrap 64 (Z.rem (sext 64 a) (sext 64 b))
  | REMU => if b =? 0 then a else a mod b
  | DIVW => if wrap 32 b =? 0 then 2 ^ 64 - 1
            else wrap 64 (sext 32 (Z.quot (sext 32 a) (sext 32 b)))
  | DIVUW => if wrap 32 b =? 0 then 2 ^ 64 - 1 else wrap 64 (sext 32 (wrap 32 a / wrap 32 b))
  | REMW => if wrap 32 b =? 0 then wrap 64 (sext 32 a)
            else wrap 64 (Z.rem (sext 32 a) (sext 32 b))
  | REMUW => if wrap 32 b =? 0 then wrap 64 (sext 32 a)
             else wrap 64 (sext 32 (wrap 32 a mod wrap 32 b))
  end.

Inductive Condition : Type := BEQ | BNE | BLT | BGE | BLTU | BGEU.
Definition condition (c : Condition) (a b : Z) : bool :=
  match c with
  | BEQ => a =? b
  | BNE => negb (a =? b)
  | BLT => sext 64 a <? sext 64 b
  | BGE => sext 64 b <=? sext 64 a
  | BLTU => a <? b
  | BGEU => b <=? a
  end.

(** Read-modify-write operations: on the value in memory and that of a register,
    both of the type [V] of the access. *)
Inductive AmoOp : Type := SWAP | AADD | AXOR | AAND | AOR | AMIN | AMAX | AMINU | AMAXU.
Definition amo (V : StoreLoadInt) (op : AmoOp) (m r : Z) : Z :=
  let signed z := sext (bits_of V) z in
  let unsigned z := wrap (bits_of V) z in
  match op with
  | SWAP => r
  | AADD => m + r
  | AXOR => Z.lxor m r
  | AAND => Z.land m r
  | AOR => Z.lor m r
  | AMIN => Z.min (signed m) (signed r)
  | AMAX => Z.max (signed m) (signed r)
  | AMINU => Z.min (unsigned m) (unsigned r)
  | AMAXU => Z.max (unsigned m) (unsigned r)
  end.

(** ** Instructions *)
Inductive IsaInstr : Type :=
| OP (op : AluOp) (rd rs1 rs2 : XRegister)
| OP_IMM (op : AluOp) (rd rs1 : XRegister) (imm : Z)
| LUI (rd : XRegister) (imm : Z)
| AUIPC (rd : XRegister) (imm : Z)
| LOAD (V : StoreLoadInt) (rd rs1 : XRegister) (imm : Z)
| STORE (V : StoreLoadInt) (rs1 rs2 : XRegister) (imm : Z)
| BRANCH (c : Condition) (rs1 rs2 : XRegister) (imm : Z)
| JAL (rd : XRegister) (imm : Z)
| JALR (rd rs1 : XRegister) (imm : Z)
| LR (V : StoreLoadInt) (rd rs1 : XRegister)
| SC (V : StoreLoadInt) (rd rs1 rs2 : XRegister)
| AMO (V : StoreLoadInt) (op : AmoOp) (rd rs1 rs2 : XRegister)
| ECALL
| NOP
| ILLEGAL.

(** The instructions of each argument format. *)
Definition r_ (op : AluOp) (a : RTypeArgs) : IsaInstr := OP op (r_rd a) (r_rs1 a) (r_rs2 a).
Definition nzr_ (op : AluOp) (a : NonZeroRdRTypeArgs) : IsaInstr :=
  OP op (xreg_of_nz (nzr_rd a)) (nzr_rs1 a) (nzr_rs2 a).
Definition nzri_ (op : AluOp) (a : NonZeroRdITypeArgs) : IsaInstr :=
  OP_IMM op (xreg_of_nz (nzri_rd a)) (nzri_rs1 a) (nzri_imm a).
Definition load_ (V : StoreLoadInt) (a : ITypeArgs) : IsaInstr :=
  LOAD V (it_rd a) (it_rs1 a) (it_imm a).
Definition store_ (V : StoreLoadInt) (a : SBTypeArgs) : IsaInstr :=
  STORE V (sb_rs1 a) (sb_rs2 a) (sb_imm a).
Definition branch_ (c : Condition) (a : SBTypeArgs) : IsaInstr :=
  BRANCH c (sb_rs1 a) (sb_rs2 a) (sb_imm a).
Definition amo_ (V : StoreLoadInt) (op : AmoOp) (a : AmoArgs) : IsaInstr :=
  AMO V op (amo_rd a) (amo_rs1 a) (amo_rs2 a).
Definition cr_ (op : AluOp) (a : CRTypeArgs) : IsaInstr :=
  OP op (cr_rd_rs1 a) (cr_rd_rs1 a) (cr_rs2 a).
Definition cib_ (op : AluOp) (a : CIBTypeArgs) : IsaInstr :=
  OP_IMM op (cib_rd_rs1 a) (cib_rd_rs1 a) (cib_imm a).
Definition cibnz_ (op : AluOp) (a : CIBNZTypeArgs) : IsaInstr :=
  OP_IMM op (xreg_of_nz (cibnz_rd_rs1 a)) (xreg_of_nz (cibnz_rd_rs1 a)) (cibnz_imm a).
Definition parsed_reg (r : XRegisterParsed) : XRegister :=
  match r with X0 => x0 | NonZero r => xreg_of_nz r end.

(** The meaning of a decoded instruction. *)
Definition isa_of (i : InstrCacheable) : option IsaInstr :=
  match i with
  | Instrs.Add a => Some (nzr_ ADD a)
  | Instrs.Sub a => Some (nzr_ SUB a)
  | Instrs.Xor a => Some (nzr_ XOR a)
  | Instrs.Or a => Some (nzr_ OR a)
  | Instrs.And a => Some (nzr_ AND a)
  | Instrs.Sll a => Some (nzr_ SLL a)
  | Instrs.Srl a => Some (nzr_ SRL a)
  | Instrs.Sra a => Some (nzr_ SRA a)
  | Instrs.Slt a => Some (nzr_ SLT a)
  | Instrs.Sltu a => Some (nzr_ SLTU a)
  | Instrs.Addw a => Some (nzr_ ADDW a)
  | Instrs.Subw a => Some (nzr_ SUBW a)
  | Instrs.Sllw a => Some (nzr_ SLLW a)
  | Instrs.Srlw a => Some (nzr_ SRLW a)
  | Instrs.Sraw a => Some (nzr_ SRAW a)
  | Instrs.Addi a => Some (OP_IMM ADD (parsed_reg (si_rd a)) (parsed_reg (si_rs1 a)) (si_imm a))
  | Instrs.Addiw a => Some (nzri_ ADDW a)
  | Instrs.Xori a => Some (nzri_ XOR a)
  | Instrs.Ori a => Some (nzri_ OR a)
  | Instrs.Andi a => Some (nzri_ AND a)
  | Instrs.Slli a => Some (nzri_ SLL a)
  | Instrs.Srli a => Some (nzri_ SRL a)
  | Instrs.Srai a => Some (nzri_ SRA a)
  | Instrs.Slliw a => Some (nzri_ SLLW a)
  | Instrs.Srliw a => Some (nzri_ SRLW a)
  | Instrs.Sraiw a => Some (nzri_ SRAW a)
  | Instrs.Slti a => Some (nzri_ SLT a)
  | Instrs.Sltiu a => Some (nzri_ SLTU a)
  | Instrs.Lb a => Some (load_ i8 a)
  | Instrs.Lh a => Some (load_ i16 a)
  | Instrs.Lw a => Some (load_ i32 a)
  | Instrs.Lbu a => Some (load_ u8 a)
  | Instrs.Lhu a => Some (load_ u16 a)
  | Instrs.Lwu a => Some (load_ u32 a)
  | Instrs.Ld a => Some (load_ i64 a)
  | Instrs.Sb a => Some (store_ u8 a)
  | Instrs.Sh a => Some (store_ u16 a)
  | Instrs.Sw a => Some (store_ u32 a)
  | Instrs.Sd a => Some (store_ u64 a)
  | Instrs.Beq a => Some (branch_ BEQ a)
  | Instrs.Bne a => Some (branch_ BNE a)
  | Instrs.Blt a => Some (branch_ BLT a)
  | Instrs.Bge a => Some (branch_ BGE a)
  | Instrs.Bltu a => Some (branch_ BLTU a)
  | Instrs.Bgeu a => Some (branch_ BGEU a)
  | Instrs.Lui a => Some (LUI (xreg_of_nz (nzuj_rd a)) (nzuj_imm a))
  | Instrs.Auipc a => Some (AUIPC (xreg_of_nz (nzuj_rd a)) (nzuj_imm a))
  | Instrs.Jal a => Some (JAL (uj_rd a) (uj_imm a))
  | Instrs.Jalr a => Some (JALR (it_rd a) (it_rs1 a) (it_imm a))
  | Instrs.Lrw a => Some (LR i32 (amo_rd a) (amo_rs1 a))
  | Instrs.Scw a => Some (SC i32 (amo_rd a) (amo_rs1 a) (amo_rs2 a))
  | Instrs.Amoswapw a => Some (amo_ i32 SWAP a)
  | Instrs.Amoaddw a => Some (amo_ i32 AADD a)
  | Instrs.Amoxorw a => Some (amo_ i32 AXOR a)
  | Instrs.Amoandw a => Some (amo_ i32 AAND a)
  | Instrs.Amoorw a => Some (amo_ i32 AOR a)
  | Instrs.Amominw a => Some (amo_ i32 AMIN a)
  | Instrs.Amomaxw a => Some (amo_ i32 AMAX a)
  | Instrs.Amominuw a => Some (amo_ i32 AMINU a)
  | Instrs.Amomaxuw a => Some (amo_ i32 AMAXU a)
  | Instrs.Lrd a => Some (LR i64 (amo_rd a) (amo_rs1 a))
  | Instrs.Scd a => Some (SC i64 (amo_rd a) (amo_rs1 a) (amo_rs2 a))
  | Instrs.Amoswapd a => Some (amo_ i64 SWAP a)
  | Instrs.Amoaddd a => Some (amo_ u64 AADD a)
  | Instrs.Amoxord a => Some (amo_ u64 AXOR a)
  | Instrs.Amoandd a => Some (amo_ u64 AAND a)
  | Instrs.Amoord a => Some (amo_ u64 AOR a)
  | Instrs.Amomind a => Some (amo_ u64 AMIN a)
  | Instrs.Amomaxd a => Some (amo_ u64 AMAX a)
  | Instrs.Amominud a => Some (amo_ u64 AMINU a)
  | Instrs.Amomaxud a => Some (amo_ u64 AMAXU a)
  | Instrs.Rem a => Some (r_ REM a)
  | Instrs.Remu a => Some (r_ REMU a)
  | Instrs.Remw a => Some (r_ REMW a)
  | Instrs.Remuw a => Some (r_ REMUW a)
  | Instrs.Div a => Some (r_ DIV a)
  | Instrs.Divu a => Some (r_ DIVU a)
  | Instrs.Divw a => Some (r_ DIVW a)
  | Instrs.Divuw a => Some (r_ DIVUW a)
  | Instrs.Mul a => Some (r_ MUL a)
  | Instrs.Mulh a => Some (r_ MULH a)
  | Instrs.Mulhsu a => Some (r_ MULHSU a)
  | Instrs.Mulhu a => Some (r_ MULHU a)
  | Instrs.Mulw a => Some (r_ MULW a)
  | Instrs.CLw a =>
      Some (LOAD i32 (xreg_of_nz (nzi_rd a)) (xreg_of_nz (nzi_rs1 a)) (nzi_imm a))
  | Instrs.CLwsp a => Some (LOAD i32 (xreg_of_nz (cibnz_rd_rs1 a)) x2 (cibnz_imm a))
  | Instrs.CSw a =>
      Some (STORE u32 (xreg_of_nz (nzsb_rs1 a)) (xreg_of_nz (nzsb_rs2 a)) (nzsb_imm a))
  | Instrs.CSwsp a => Some (STORE u32 x2 (css_rs2 a) (css_imm a))
  | Instrs.CLd a =>
      Some (LOAD i64 (xreg_of_nz (nzi_rd a)) (xreg_of_nz (nzi_rs1 a)) (nzi_imm a))
  | Instrs.CLdsp a => Some (LOAD i64 (xreg_of_nz (cibnz_rd_rs1 a)) x2 (cibnz_imm a))
  | Instrs.CSd a =>
      Some (STORE u64 (xreg_of_nz (nzsb_rs1 a)) (xreg_of_nz (nzsb_rs2 a)) (nzsb_imm a))
  | Instrs.CSdsp a => Some (STORE u64 x2 (css_rs2 a) (css_imm a))
  | Instrs.CJ a => Some (JAL x0 (cjt_imm a))
  | Instrs.CJr a => Some (JALR x0 (xreg_of_nz (crj_rs1 a)) 0)
  | Instrs.CJalr a => Some (JALR x1 (xreg_of_nz (crj_rs1 a)) 0)
  | Instrs.CBeqz a => Some (BRANCH BEQ (cib_rd_rs1 a) x0 (cib_imm a))
  | Instrs.CBnez a => Some (BRANCH BNE (cib_rd_rs1 a) x0 (cib_imm a))
  | Instrs.CLi a => Some (OP_IMM ADD (xreg_of_nz (cibnz_rd_rs1 a)) x0 (cibnz_imm a))
  | Instrs.CLui a => Some (LUI (xreg_of_nz (cibnz_rd_rs1 a)) (cibnz_imm a))
  | Instrs.CAddi a => Some (cibnz_ ADD a)
  | Instrs.CAddi16sp a => Some (OP_IMM ADD x2 x2 (cjt_imm a))
  | Instrs.CAddi4spn a => Some (OP_IMM ADD (cib_rd_rs1 a) x2 (cib_imm a))
  | Instrs.CSlli a => Some (cibnz_ SLL a)
  | Instrs.CSrli a => Some (cib_ SRL a)
  | Instrs.CSrai a => Some (cib_ SRA a)
  | Instrs.CAndi a => Some (cib_ AND a)
  | Instrs.CMv a => Some (OP ADD (xreg_of_nz (cnzr_rd_rs1 a)) x0 (xreg_of_nz (cnzr_rs2 a)))
  | Instrs.CAdd a =>
      Some (OP ADD (xreg_of_nz (cnzr_rd_rs1 a)) (xreg_of_nz (cnzr_rd_rs1 a))
              (xreg_of_nz (cnzr_rs2 a)))
  | Instrs.CAnd a => Some (cr_ AND a)
  | Instrs.COr a => Some (cr_ OR a)
  | Instrs.CXor a => Some (cr_ XOR a)
  | Instrs.CSub a => Some (cr_ SUB a)
  | Instrs.CAddw a => Some (cr_ ADDW a)
  | Instrs.CSubw a => Some (cr_ SUBW a)
  | Instrs.CAddiw a => Some (cibnz_ ADDW a)
  | Instrs.CNop | Instrs.Hint _ | Instrs.HintCompressed _ | Instrs.Wfi => Some NOP
  | Instrs.Ecall => Some ECALL
  | Instrs.Unknown _ | Instrs.UnknownCompressed _ => Some ILLEGAL
  | _ => None
  end.

(** ** Execution *)

(** Registers: total, as core states keep their sizes. *)
Definition getx {Mem} (r : XRegister) (s : MachineCoreState Mem) : Z :=
  default 0 (xregisters_read (xregisters (hart s)) r).
Definition setx {Mem} (r : XRegister) (v : Z) (s : MachineCoreState Mem) : MachineCoreState Mem :=
  with_hart (with_xregisters
    (default (xregisters (hart s)) (xregisters_write (xregisters (hart s)) r v)) (hart s)) s.
Definition set_reservation {Mem} (v : Z) (s : MachineCoreState Mem) : MachineCoreState Mem :=
  with_hart (with_start_addr v (hart s)) s.

Section Exec.
Context {Mem : Type} `{Memory Mem}.
Notation Core := (MachineCoreState Mem).

Definition Outcome : Type := result (ProgramCounterUpdate Z) Exception.

(** Memory, as a function of the state. *)
Definition load (V : StoreLoadInt) (a : Z) (s : Core) : option Z :=
  match mem_read V a (main_memory s) with Some (Ok v, _) => Some v | _ => None end.
Definition store (V : StoreLoadInt) (a v : Z) (s : Core) : option Core :=
  match mem_write V a v (main_memory s) with
  | Some (Ok _, m) => Some (with_memory m s)
  | _ => None
  end.
Definition aligned (V : StoreLoadInt) (a : Z) : bool := a mod width_of (WIDTH V) =? 0.

(** The outcome and the state after it.  A faulting access changes nothing. *)
Definition isa_exec (i : IsaInstr) (w : InstrWidth) (s : Core) : Outcome * Core :=
  let next := Ok (Next w) in
  match i with
  | OP op rd rs1 rs2 => (next, setx rd (alu op (getx rs1 s) (getx rs2 s)) s)
  | OP_IMM op rd rs1 imm => (next, setx rd (alu op (getx rs1 s) (wrap 64 imm)) s)
  | LUI rd imm => (next, setx rd (wrap 64 imm) s)
  | AUIPC rd imm => (next, setx rd (wrap 64 (pc (hart s) + imm)) s)
  | LOAD V rd rs1 imm =>
      let a := wrap 64 (getx rs1 s + imm) in
      match load V a s with
      | Some v => (next, setx rd (wrap 64 v) s)
      | None => (Err (LoadAccessFault a), s)
      end
  | STORE V rs1 rs2 imm =>
      let a := wrap 64 (getx rs1 s + imm) in
      match store V a (getx rs2 s) s with
      | Some s' => (next, s')
      | None => (Err (StoreAMOAccessFault a), s)
      end
  | BRANCH c rs1 rs2 imm =>
      (if condition c (getx rs1 s) (getx rs2 s) then Ok (Set_ (wrap 64 (pc (hart s) + imm)))
       else next, s)
  | JAL rd imm =>
      (Ok (Set_ (wrap 64 (pc (hart s) + imm))), setx rd (wrap 64 (pc (hart s) + width_bytes w)) s)
  | JALR rd rs1 imm =>
      (Ok (Set_ (2 * (wrap 64 (getx rs1 s + imm) / 2))),
       setx rd (wrap 64 (pc (hart s) + width_bytes w)) s)
  | LR V rd rs1 =>
      let a := getx rs1 s in
      if aligned V a then
        match load V a s with
        | Some v => (next, setx rd (wrap 64 v) (set_reservation (8 * (a / 8)) s))
        | None => (Err (LoadAccessFault a), s)
        end
      else (Err (StoreAMOAccessFault a), s)
  | SC V rd rs1 rs2 =>
      let a := getx rs1 s in
      let cleared := set_reservation UNSET_VALUE s in
      if aligned V a then
        if start_addr (hart s) =? 8 * (a / 8) then
          match store V a (getx rs2 s) cleared with
          | Some s' => (next, setx rd 0 s')
          | None => (Err (StoreAMOAccessFault a), cleared)
          end
        else (next, setx rd 1 cleared)
      else (Err (StoreAMOAccessFault a), cleared)
  | AMO V op rd rs1 rs2 =>
      let a := getx rs1 s in
      if aligned V a then
        match load V a s with
        | Some v =>
            match store V a (amo V op v (getx rs2 s)) s with
            | Some s' => (next, setx rd (wrap 64 v) s')
            | None => (Err (StoreAMOAccessFault a), s)
            end
        | None => (Err (LoadAccessFault a), s)
        end
      else (Err (StoreAMOAccessFault a), s)
  | ECALL => (Err EnvCall, s)
  | NOP => (next, s)
  | ILLEGAL => (Err IllegalInstruction, s)
  end.

End Exec.
