(* ===== verification/CoreSpec.v ===== *)
(** * Running code on a well-formed core

    The invariant of the machine core and the equations that evaluate the
    interpreter's operations on a state that satisfies it: no register access
    panics, reads give [getx] and writes [setx].  The tactic [exec] applies
    them to code over the instruction context. *)

From S2P Require Import Prelude.
From S2P Require Import Registers.
From S2P Require Import Csr.
From S2P Require Import Instr.
From S2P Require Import Icb.
From S2P Require Import Memory.
From S2P Require Import MemorySpec.
From S2P Require Import Core.
From S2P Require Import IsaSpec.

Record hart_ok (h : HartState) : Prop := {
  ok_xregisters : xregisters_ok (xregisters h);
  ok_fregisters : fregisters_ok (fregisters h);
  ok_csregisters : csregisters_ok (csregisters h);
  ok_pc : urange 64 (pc h);
  ok_start_addr : urange 64 (start_addr h) }.

(** ** Binds *)
Lemma bind_ret {S A B} (a : A) (k : A -> M S B) : mbind (mret a) k = k a.
Proof. reflexivity. Qed.

Lemma bind_lift {S A B} (a : A) (k : A -> M S B) (s : S) : mbind (mlift (Some a)) k s = k a s.
Proof. reflexivity. Qed.

Lemma bind_assoc {S A B C} (m : M S A) (f : A -> M S B) (g : B -> M S C) (s : S) :
  mbind (mbind m f) g s = mbind m (fun a => mbind (f a) g) s.
Proof. unfold mbind. destruct (m s) as [[]|]; reflexivity. Qed.

(** A bind whose first part is known. *)
Lemma bind_eq {S A B} (m : M S A) (k : A -> M S B) (s : S) a s' :
  m s = Some (a, s') -> mbind m k s = k a s'.
Proof. intros E. unfold mbind. rewrite E. reflexivity. Qed.

Section CoreSpec.
Context {Mem : Type} `{Memory Mem} `{!MemoryLaws Mem}.
Notation Core := (MachineCoreState Mem).
Implicit Types s : Core.

Record core_ok (s : Core) : Prop := {
  ok_hart : hart_ok (hart s);
  ok_memory : mem_inv (main_memory s) }.

(** ** Registers *)
Lemma getx_some s r : core_ok s -> xregisters_read (xregisters (hart s)) r = Some (getx r s).
Proof.
  intros Hok. destruct (xregisters_read_ok _ r (ok_xregisters _ (ok_hart _ Hok))) as (v & Hv & _).
  unfold getx. rewrite Hv. reflexivity.
Qed.

Lemma getx_range s r : core_ok s -> urange 64 (getx r s).
Proof.
  intros Hok. destruct (xregisters_read_ok _ r (ok_xregisters _ (ok_hart _ Hok))) as (v & Hv & Hr).
  unfold getx. rewrite Hv. exact Hr.
Qed.

Lemma getx_x0 s : getx x0 s = 0.
Proof. reflexivity. Qed.

Lemma setx_x0 v s : setx x0 v s = s.
Proof. destruct s as [[] ]; reflexivity. Qed.

(** Writes succeed at any value; the value matters for the invariant. *)
Lemma setx_some s r v : core_ok s ->
  xregisters_write (xregisters (hart s)) r v = Some (xregisters (hart (setx r v s))).
Proof.
  intros Hok. destruct (ok_xregisters _ (ok_hart _ Hok)) as [Hl _].
  cbn. destruct (xregisters_write _ r v) eqn:E; [reflexivity|].
  unfold xregisters_write, cells_write in E. destruct (is_zero r) eqn:Hz; [discriminate|].
  pose proof (xreg_repr_range r ltac:(intros ->; discriminate)).
  rewrite (proj2 (Z.leb_le 0 _)), (proj2 (Z.ltb_lt _ _)) in E by lia. discriminate.
Qed.

Lemma with_xregisters_ok h xs : hart_ok h -> xregisters_ok xs -> hart_ok (with_xregisters xs h).
Proof. intros [] ?; constructor; assumption. Qed.

Lemma setx_ok s r v : core_ok s -> urange 64 v -> core_ok (setx r v s).
Proof.
  intros Hok Hv. destruct (xregisters_write_ok _ r v (ok_xregisters _ (ok_hart _ Hok)) Hv)
    as (xs & Hw & Hxs & _).
  constructor; [|apply Hok]. unfold setx. rewrite Hw. cbn.
  apply with_xregisters_ok; [apply Hok | assumption].
Qed.

Lemma setx_getx s r : core_ok s -> setx r (getx r s) s = s.
Proof.
  intros Hok. pose proof (getx_some s r Hok) as Hr. pose proof (setx_some s r (getx r s) Hok) as Hw.
  assert (E : xregisters_write (xregisters (hart s)) r (getx r s) = Some (xregisters (hart s))).
  { unfold xregisters_write, cells_write, xregisters_read, cells_read in *.
    destruct (is_zero r); [reflexivity|]. destruct (_ && _); [|discriminate].
    destruct (_ <? 0); [discriminate|]. f_equal. apply list_insert_id, Hr. }
  unfold setx. rewrite E. destruct s as [[] ?]; reflexivity.
Qed.

(** Register files behave as maps. *)
Lemma getx_setx s r q v : core_ok s -> urange 64 v ->
  getx q (setx r v s) = if decide (q = r /\ r <> x0) then v else getx q s.
Proof.
  intros Hok Hv. destruct (xregisters_write_ok _ r v (ok_xregisters _ (ok_hart _ Hok)) Hv)
    as (xs & Hw & _ & Hr).
  unfold getx, setx. cbn. rewrite Hw. cbn. rewrite Hr. destruct (decide _); reflexivity.
Qed.

Lemma set_reservation_ok s v : core_ok s -> urange 64 v -> core_ok (set_reservation v s).
Proof. intros [[]] Hv; constructor; [constructor|]; assumption. Qed.

Lemma with_memory_ok s m : core_ok s -> mem_inv m -> core_ok (with_memory m s).
Proof. intros [] Hm; constructor; assumption. Qed.

Lemma with_pc_ok s v : core_ok s -> urange 64 v -> core_ok (with_hart (with_pc v (hart s)) s).
Proof. intros [[]] Hv; constructor; [constructor|]; assumption. Qed.

(** ** Evaluating the interpreter *)
Lemma exec_read r s : core_ok s -> on_hart (hart_read r) s = Some (getx r s, s).
Proof.
  intros Hok. unfold on_hart, hart_read, mbind, mget, mlift. rewrite (getx_some s r Hok).
  destruct s; reflexivity.
Qed.

Lemma exec_read_nz r s : core_ok s -> on_hart (hart_read_nz r) s = Some (getx (xreg_of_nz r) s, s).
Proof.
  intros Hok. unfold on_hart, hart_read_nz, mbind, mget, mlift.
  rewrite xregisters_read_nz_eq, (getx_some s _ Hok). destruct s; reflexivity.
Qed.

Lemma exec_write r v s : core_ok s -> on_hart (hart_write r v) s = Some (tt, setx r v s).
Proof.
  intros Hok. unfold on_hart, hart_write, mbind, mget, mlift, mput.
  rewrite (setx_some s r v Hok). unfold setx. cbn.
  rewrite (setx_some s r v Hok). reflexivity.
Qed.

Lemma exec_write_nz r v s : core_ok s ->
  on_hart (hart_write_nz r v) s = Some (tt, setx (xreg_of_nz r) v s).
Proof.
  intros Hok. rewrite <- exec_write by assumption.
  unfold on_hart, hart_write_nz, hart_write, mbind, mget, mlift.
  rewrite xregisters_write_nz_eq. reflexivity.
Qed.

Lemma exec_pc s : on_hart (mget pc) s = Some (pc (hart s), s).
Proof. destruct s; reflexivity. Qed.

(** Memory accesses, in the terms of the reference semantics. *)
Lemma exec_mem_read V a s : core_ok s -> urange 64 a ->
  exists r, on_memory (mem_read V a) s = Some (r, s) /\
    match load V a s with
    | Some v => r = Ok v /\ cast_to V v = v
    | None => r = Err BadMemoryAccess_
    end.
Proof.
  intros Hok Ha. destruct (mem_read_total V a _ (ok_memory _ Hok) Ha) as (r & E & Hr).
  exists r. unfold on_memory, load. rewrite E. split; [destruct s; reflexivity|].
  destruct r as [v|[]]; auto.
Qed.

Lemma exec_mem_write V a v w s : core_ok s -> urange 64 a -> wrap (bits_of V) v = wrap (bits_of V) w ->
  match store V a w s with
  | Some s' => on_memory (mem_write V a v) s = Some (Ok tt, s') /\ core_ok s' /\ hart s' = hart s
  | None => on_memory (mem_write V a v) s = Some (Err BadMemoryAccess_, s)
  end.
Proof.
  intros Hok Ha Hv. destruct (mem_write_total V a v _ (ok_memory _ Hok) Ha) as (r & m' & E & Hm & Hs).
  unfold store, on_memory. rewrite <- (mem_write_cast V a v w _ Hv), E.
  destruct r as [[]|[]].
  - split; [reflexivity|]. split; [apply with_memory_ok; assumption | reflexivity].
  - rewrite Hs by reflexivity. destruct s; reflexivity.
Qed.

(** Only the width of the value stored matters. *)
Lemma store_cast V a v w s : wrap (bits_of V) v = wrap (bits_of V) w -> store V a v s = store V a w s.
Proof. intros E. unfold store. rewrite (mem_write_cast V a v w _ E). reflexivity. Qed.

End CoreSpec.

#[export] Hint Resolve getx_range setx_ok : pvm.

(** [icb] reduces the operations of the instruction context to the core's. *)
Ltac icb :=
  cbn [XValue XValue32 Bool IResult xvalue_arithmetic xvalue32_arithmetic xvalue_comparable
       xvalue32_comparable xregister_read_nz xregister_write_nz xregister_read xregister_write
       xvalue_of_imm xvalue32_of_imm pc_read bool_and narrow extend_signed extend_unsigned mul_high
       xvalue_from_bool branch branch_merge IcbValue ok err_illegal_instruction atomic_access_fault_guard
       ires_map and_then ecall main_memory_store main_memory_load reservation_set_write
       reservation_set_read core_icb arithmetic_uint comparable_uint compare
       add sub and or xor mul div_unsigned div_signed negate shift modulus_unsigned
       modulus_signed min_signed].

(** [exec] runs straight-line code over a well-formed core. *)
Ltac exec_step :=
  match goal with
  | |- context [mbind (on_hart (hart_read_nz ?r)) ?k ?t] =>
      rewrite (bind_eq _ k t _ _ (exec_read_nz r t ltac:(eassumption)))
  | |- context [mbind (on_hart (hart_read ?r)) ?k ?t] =>
      rewrite (bind_eq _ k t _ _ (exec_read r t ltac:(eassumption)))
  | |- context [mbind (on_hart (mget pc)) ?k ?t] =>
      rewrite (bind_eq _ k t _ _ (exec_pc t))
  | |- context [mbind (on_hart (hart_write_nz ?r ?v)) ?k ?t] =>
      rewrite (bind_eq _ k t _ _ (exec_write_nz r v t ltac:(eassumption)))
  | |- context [mbind (on_hart (hart_write ?r ?v)) ?k ?t] =>
      rewrite (bind_eq _ k t _ _ (exec_write r v t ltac:(eassumption)))
  | |- context [on_hart (hart_write_nz ?r ?v) ?t] =>
      rewrite (exec_write_nz r v t) by eassumption
  | |- context [on_hart (hart_write ?r ?v) ?t] =>
      rewrite (exec_write r v t) by eassumption
  end.
Ltac exec :=
  icb; unfold comparable_uint; icb;
  repeat first [ rewrite bind_ret | rewrite bind_assoc | exec_step ];
  cbv beta.
