(* ===== verification/IntegerSpec.v ===== *)
(** * The integer instructions compute the reference arithmetic

    One lemma per function of [Integer]: on a well-formed core it returns, and
    writes to its destination the value of [alu] on its operands.  In particular
    the guards of the divisions avoid every panic of the machine arithmetic. *)

From S2P Require Import Prelude.
From S2P Require Import Registers.
From S2P Require Import Instr.
From S2P Require Import Parser.
From S2P Require Import Icb.
From S2P Require Import Integer.
From S2P Require Import Memory.
From S2P Require Import MemorySpec.
From S2P Require Import Core.
From S2P Require Import IsaSpec.
From S2P Require Import CoreSpec.

(** ** Arithmetic *)
Lemma wrap_land_ones a n : 0 <= n -> Z.land a (Z.ones n) = wrap n a.
Proof. intros; unfold wrap; apply Z.land_ones; lia. Qed.

Lemma wrap_add_wrap w a b : wrap w (a + wrap w b) = wrap w (a + b).
Proof. unfold wrap. apply Zplus_mod_idemp_r. Qed.
Lemma wrap_wrap_add w a b : wrap w (wrap w a + b) = wrap w (a + b).
Proof. unfold wrap. apply Zplus_mod_idemp_l. Qed.
Lemma wrap_mul_l w a b : wrap w (wrap w a * b) = wrap w (a * b).
Proof. unfold wrap. apply Zmult_mod_idemp_l. Qed.
Lemma wrap_mul_r w a b : wrap w (a * wrap w b) = wrap w (a * b).
Proof. unfold wrap. apply Zmult_mod_idemp_r. Qed.

(** Narrowing first or last. *)
Lemma wrap_narrow v w z : 0 <= v <= w -> wrap v (wrap w z) = wrap v z.
Proof. intros. bitwise. Qed.
Lemma sext_narrow v w z : 0 < v <= w -> sext v (wrap w z) = sext v z.
Proof. intros. apply sext_congr, wrap_narrow. lia. Qed.

Lemma shiftl_mul a n w : 0 <= n -> wrap w (Z.shiftl a n) = wrap w (a * 2 ^ n).
Proof. intros. rewrite Z.shiftl_mul_pow2 by lia. reflexivity. Qed.

Lemma sext_zero w b : 0 < w -> (sext w b =? 0) = (wrap w b =? 0).
Proof.
  intros Hw. pose proof (wrap_range w b ltac:(lia)) as Hr. unfold urange in Hr.
  pose proof (pow2_half w Hw). unfold sext.
  destruct (Z.ltb_spec (wrap w b) (2 ^ (w - 1))); [reflexivity|].
  destruct (Z.eqb_spec (wrap w b - 2 ^ w) 0), (Z.eqb_spec (wrap w b) 0); lia.
Qed.

Lemma sext_nonzero w b : 0 < w -> wrap w b <> 0 -> sext w b <> 0.
Proof. intros Hw Hb. rewrite <- Z.eqb_neq, sext_zero by assumption. apply Z.eqb_neq, Hb. Qed.

(** The guard of the signed divisions, for operands of width [w]. *)
Lemma sext_minus_one w b : 0 < w -> urange w b -> (b =? wrap w (-1)) = (sext w b =? -1).
Proof.
  intros Hw Hb. pose proof (pow2_half w Hw). pose proof (pow2_pos (w - 1) ltac:(lia)).
  replace (wrap w (-1)) with (2 ^ w - 1)
    by (unfold wrap; apply (Z.mod_unique _ _ (-1)); lia).
  unfold sext. rewrite wrap_small by assumption. unfold urange in Hb.
  destruct (Z.ltb_spec b (2 ^ (w - 1))), (Z.eqb_spec b (2 ^ w - 1));
    symmetry; (apply Z.eqb_eq || apply Z.eqb_neq); lia.
Qed.

Lemma sext_minimum w a : 0 < w -> urange w a -> (a =? wrap w (- 2 ^ (w - 1))) = (sext w a =? - 2 ^ (w - 1)).
Proof.
  intros Hw Ha. pose proof (pow2_half w Hw). pose proof (pow2_pos (w - 1) ltac:(lia)).
  replace (wrap w (- 2 ^ (w - 1))) with (2 ^ (w - 1))
    by (unfold wrap; apply (Z.mod_unique _ _ (-1)); lia).
  unfold sext. rewrite wrap_small by assumption. unfold urange in Ha.
  destruct (Z.ltb_spec a (2 ^ (w - 1))), (Z.eqb_spec a (2 ^ (w - 1)));
    symmetry; (apply Z.eqb_eq || apply Z.eqb_neq); lia.
Qed.

(** The overflowing quotient wraps to the minimum, with remainder zero. *)
Lemma quot_overflow w : 0 < w -> wrap w (Z.quot (- 2 ^ (w - 1)) (-1)) = wrap w (- 2 ^ (w - 1)).
Proof.
  intros Hw. pose proof (pow2_half w Hw). pose proof (pow2_pos (w - 1) ltac:(lia)).
  change (-1) with (- (1)). rewrite Z.quot_opp_opp, Z.quot_1_r by lia.
  unfold wrap. rewrite <- (Z_mod_plus_full (- 2 ^ (w - 1)) 1). f_equal. lia.
Qed.

(** A remainder fits the width of its operands. *)
Lemma rem_srange w a b : 0 < w -> sext w b <> 0 -> srange w (Z.rem (sext w a) (sext w b)).
Proof.
  intros Hw Hb. pose proof (sext_range w a Hw) as Ha. pose proof (sext_range w b Hw) as Hr.
  unfold srange in *. pose proof (Z.rem_bound_abs (sext w a) (sext w b) Hb). lia.
Qed.

Lemma rem_minus_one a : Z.rem a (-1) = 0.
Proof. change (-1) with (- (1)). rewrite Z.rem_opp_r by lia. apply Z.rem_1_r. Qed.

Section IntegerSpec.
Context {Mem : Type} `{Memory Mem} `{!MemoryLaws Mem}.
Notation Core := (MachineCoreState Mem).
Variables (s : Core) (Hok : core_ok s).

(** What a computation does: it returns, and only writes [v] to [rd]. *)
Definition sets (m : M Core unit) (rd : NonZeroXRegister) (v : Z) : Prop :=
  m s = Some (tt, setx (xreg_of_nz rd) v s).

Notation "'x[' r ]" := (getx r s) (at level 0, r at level 200).
Notation "'nz[' r ]" := (getx (xreg_of_nz r) s) (at level 0, r at level 200).

Lemma run_add_sets rs1 rs2 rd : sets (run_add rs1 rs2 rd) rd (alu ADD nz[rs1] nz[rs2]).
Proof. unfold sets, run_add. exec. reflexivity. Qed.

Lemma run_sub_sets rs1 rs2 rd : sets (run_sub rs1 rs2 rd) rd (alu SUB nz[rs1] nz[rs2]).
Proof. unfold sets, run_sub. exec. reflexivity. Qed.

Lemma run_and_sets rs1 rs2 rd : sets (run_and rs1 rs2 rd) rd (alu AND nz[rs1] nz[rs2]).
Proof. unfold sets, run_and. exec. reflexivity. Qed.

Lemma run_or_sets rs1 rs2 rd : sets (run_or rs1 rs2 rd) rd (alu OR nz[rs1] nz[rs2]).
Proof. unfold sets, run_or. exec. reflexivity. Qed.

Lemma run_x64_xor_sets rs1 rs2 rd : sets (run_x64_xor rs1 rs2 rd) rd (alu XOR nz[rs1] nz[rs2]).
Proof. unfold sets, run_x64_xor. exec. reflexivity. Qed.

Lemma run_neg_sets rd rs1 : sets (run_neg rd rs1) rd (alu SUB 0 nz[rs1]).
Proof. unfold sets, run_neg. exec. reflexivity. Qed.

Lemma run_mv_sets rd rs2 : sets (run_mv rd rs2) rd nz[rs2].
Proof. unfold sets, run_mv. exec. reflexivity. Qed.

Lemma run_add_word_sets rs1 rs2 rd : sets (run_add_word rs1 rs2 rd) rd (alu ADDW x[rs1] x[rs2]).
Proof.
  unfold sets, run_add_word. exec. cbn [alu]. rewrite sext_wrap, sext_narrow by lia. reflexivity.
Qed.

Lemma run_sub_word_sets rs1 rs2 rd : sets (run_sub_word rs1 rs2 rd) rd (alu SUBW x[rs1] x[rs2]).
Proof.
  unfold sets, run_sub_word. exec. cbn [alu]. rewrite sext_wrap, sext_narrow by lia. reflexivity.
Qed.

Lemma run_addi_sets imm rs1 rd : sets (run_addi imm rs1 rd) rd (alu ADD nz[rs1] (wrap 64 imm)).
Proof. unfold sets, run_addi. exec. reflexivity. Qed.

Lemma run_andi_sets imm rs1 rd : sets (run_andi imm rs1 rd) rd (alu AND nz[rs1] (wrap 64 imm)).
Proof. unfold sets, run_andi. exec. reflexivity. Qed.

Lemma run_x64_or_immediate_sets imm rs1 rd :
  sets (run_x64_or_immediate imm rs1 rd) rd (alu OR nz[rs1] (wrap 64 imm)).
Proof. unfold sets, run_x64_or_immediate. exec. reflexivity. Qed.

Lemma run_x64_xor_immediate_sets imm rs1 rd :
  sets (run_x64_xor_immediate imm rs1 rd) rd (alu XOR nz[rs1] (wrap 64 imm)).
Proof. unfold sets, run_x64_xor_immediate. exec. reflexivity. Qed.

Lemma run_add_word_immediate_sets imm rs1 rd :
  sets (run_add_word_immediate imm rs1 rd) rd (alu ADDW x[rs1] (wrap 64 imm)).
Proof.
  unfold sets, run_add_word_immediate. exec. cbn [alu].
  rewrite sext_wrap, sext_narrow by lia. reflexivity.
Qed.

Lemma run_set_less_than_signed_sets rs1 rs2 rd :
  sets (run_set_less_than_signed rs1 rs2 rd) rd (alu SLT x[rs1] x[rs2]).
Proof. unfold sets, run_set_less_than_signed. exec. reflexivity. Qed.

Lemma run_set_less_than_unsigned_sets rs1 rs2 rd :
  sets (run_set_less_than_unsigned rs1 rs2 rd) rd (alu SLTU x[rs1] x[rs2]).
Proof. unfold sets, run_set_less_than_unsigned. exec. reflexivity. Qed.

Lemma run_set_less_than_immediate_signed_sets imm rs1 rd :
  sets (run_set_less_than_immediate_signed imm rs1 rd) rd (alu SLT x[rs1] (wrap 64 imm)).
Proof. unfold sets, run_set_less_than_immediate_signed. exec. reflexivity. Qed.

Lemma run_set_less_than_immediate_unsigned_sets imm rs1 rd :
  sets (run_set_less_than_immediate_unsigned imm rs1 rd) rd (alu SLTU x[rs1] (wrap 64 imm)).
Proof. unfold sets, run_set_less_than_immediate_unsigned. exec. reflexivity. Qed.

(** *** Multiplication *)
Lemma run_mul_sets rs1 rs2 rd : sets (run_mul rs1 rs2 rd) rd (alu MUL nz[rs1] nz[rs2]).
Proof. unfold sets, run_mul. exec. reflexivity. Qed.

Lemma run_x32_mul_sets rs1 rs2 rd : sets (run_x32_mul rs1 rs2 rd) rd (alu MULW x[rs1] x[rs2]).
Proof.
  unfold sets, run_x32_mul. exec. cbn [alu].
  rewrite wrap_mul_l, wrap_mul_r, sext_wrap by lia. reflexivity.
Qed.

(** The upper half of a product computed modulo [2^128]. *)
Lemma mul_high_wrap a b : wrap 64 (Z.shiftr (wrap 128 (wrap 128 a * wrap 128 b)) 64) = wrap 64 (a * b / 2 ^ 64).
Proof. rewrite wrap_mul_l, wrap_mul_r, <- Z.shiftr_div_pow2 by lia. bitwise. Qed.

Definition mulh_op (t : MulHighType) : AluOp :=
  match t with MulSigned => MULH | MulUnsigned => MULHU | MulSignedUnsigned => MULHSU end.

Lemma mul_high_alu a b t : urange 64 a -> urange 64 b ->
  mul_high_u128 a b t = alu (mulh_op t) a b.
Proof.
  intros Ha Hb. unfold urange in *. pose proof (mul_high_wrap a b) as Hu.
  pose proof (mul_high_wrap (sext 64 a) b) as Hsu.
  rewrite (wrap_small 128 b) in * by (unfold urange; lia).
  destruct t; cbn [mulh_op alu]; unfold mul_high_u128.
  - apply mul_high_wrap.
  - rewrite (wrap_small 128 a) in Hu by (unfold urange; lia). rewrite Hu.
    apply wrap_small. split; [apply Z.div_pos; [apply Z.mul_nonneg_nonneg|]; lia|].
    apply Z.div_lt_upper_bound; [lia | apply Z.mul_lt_mono_nonneg; lia].
  - exact Hsu.
Qed.

Lemma run_x64_mul_high_sets rs1 rs2 rd t :
  sets (run_x64_mul_high rs1 rs2 rd t) rd (alu (mulh_op t) nz[rs1] nz[rs2]).
Proof.
  unfold sets, run_x64_mul_high. exec. rewrite mul_high_alu by eauto with pvm. reflexivity.
Qed.

(** *** Shifts *)
Definition shift_op (t : Shift) : AluOp :=
  match t with Left => SLL | RightUnsigned => SRL | RightSigned => SRA end.
Definition shift_w_op (t : Shift) : AluOp :=
  match t with Left => SLLW | RightUnsigned => SRLW | RightSigned => SRAW end.

(** A machine shift by an amount in range never panics. *)
Lemma bind_shift {B} t a n (k : Z -> M Core B) : 0 <= n < 64 ->
  mbind (uint_shift 64 a t n) k = k (alu (shift_op t) a n).
Proof.
  intros Hn. unfold uint_shift. destruct (Z.ltb_spec n 64); [|lia].
  destruct t; cbn [alu shift_op]; rewrite (Z.mod_small n) by lia;
    rewrite ?Z.shiftl_mul_pow2, ?Z.shiftr_div_pow2 by lia; reflexivity.
Qed.

Lemma bind_shift_w {B} t a n (k : Z -> M Core B) : 0 <= n < 32 ->
  mbind (uint_shift 32 (wrap 32 a) t n) (fun v => k (wrap 64 (sext 32 v)))
  = k (alu (shift_w_op t) a n).
Proof.
  intros Hn. unfold uint_shift. destruct (Z.ltb_spec n 32); [|lia].
  destruct t; cbn [alu shift_w_op]; rewrite (Z.mod_small n) by lia; rewrite bind_ret;
    rewrite ?Z.shiftl_mul_pow2, ?Z.shiftr_div_pow2 by lia;
    rewrite ?wrap_mul_l, ?sext_wrap by lia; try reflexivity.
  rewrite (sext_small 32 (_ / _)); [reflexivity | lia |].
  pose proof (sext_range 32 a ltac:(lia)) as Hr. unfold srange in *.
  pose proof (pow2_pos n ltac:(lia)).
  split; [apply Z.div_le_lower_bound | apply Z.div_lt_upper_bound]; nia.
Qed.

Lemma alu_shift_mod t a b : alu (shift_op t) a (b mod 64) = alu (shift_op t) a b.
Proof. destruct t; cbn [alu shift_op]; rewrite Z.mod_mod by lia; reflexivity. Qed.

Lemma alu_shift_w_mod t a b : alu (shift_w_op t) a (b mod 32) = alu (shift_w_op t) a b.
Proof. destruct t; cbn [alu shift_w_op]; rewrite Z.mod_mod by lia; reflexivity. Qed.

Lemma run_shift_sets t rs1 rs2 rd : sets (run_shift t rs1 rs2 rd) rd (alu (shift_op t) nz[rs1] nz[rs2]).
Proof.
  unfold sets, run_shift. exec. change (wrap 64 SHIFT_BITMASK) with (Z.ones 6).
  rewrite Z.land_ones by lia. change (2 ^ 6) with 64.
  rewrite bind_shift by (apply Z.mod_pos_bound; lia). rewrite alu_shift_mod. exec. reflexivity.
Qed.

Lemma run_shift_immediate_sets t imm rs1 rd : 0 <= imm < 64 ->
  sets (run_shift_immediate t imm rs1 rd) rd (alu (shift_op t) nz[rs1] (wrap 64 imm)).
Proof.
  intros Hi. unfold sets, run_shift_immediate. exec.
  rewrite (wrap_small 64 imm) by (unfold urange; lia). rewrite bind_shift by lia. exec. reflexivity.
Qed.

Lemma x32_amount n : wrap 32 (Z.land n (wrap 64 0x1F)) = n mod 32.
Proof.
  change (wrap 64 0x1F) with (Z.ones 5). rewrite Z.land_ones by lia. apply wrap_small.
  change (2 ^ 5) with 32. pose proof (Z.mod_pos_bound n 32 ltac:(lia)). unfold urange. lia.
Qed.

Lemma run_x32_shift_sets t rs1 rs2 rd :
  sets (run_x32_shift t rs1 rs2 rd) rd (alu (shift_w_op t) x[rs1] x[rs2]).
Proof.
  unfold sets, run_x32_shift. exec. rewrite x32_amount.
  rewrite (bind_shift_w t _ _ (fun v => on_hart (hart_write_nz rd v)))
    by (apply Z.mod_pos_bound; lia).
  rewrite alu_shift_w_mod. exec. reflexivity.
Qed.

Lemma run_x32_shift_immediate_sets t rs1 imm rd :
  sets (run_x32_shift_immediate t rs1 imm rd) rd (alu (shift_w_op t) nz[rs1] (wrap 64 imm)).
Proof.
  unfold sets, run_x32_shift_immediate. exec. rewrite x32_amount.
  rewrite (bind_shift_w t _ _ (fun v => on_hart (hart_write_nz rd v)))
    by (apply Z.mod_pos_bound; lia).
  rewrite alu_shift_w_mod. exec. reflexivity.
Qed.

(** *** Divisions

    The code tests the divisor for zero, then the operands for the overflowing
    case, then divides. *)
(** Taken under the guard, the division does not panic. *)
Lemma div_guard w a b : 0 < w -> urange w a -> urange w b -> b <> 0 ->
  (b =? wrap w (-1)) && (a =? wrap w (- 2 ^ (w - 1))) = false ->
  uint_div_signed (I := Core) w a b = mret (wrap w (Z.quot (sext w a) (sext w b))) /\
  uint_modulus_signed (I := Core) w a b = mret (wrap w (Z.rem (sext w a) (sext w b))).
Proof.
  intros Hw Ha Hb Hnz Hg. unfold uint_div_signed, uint_modulus_signed.
  rewrite sext_zero, wrap_small by assumption.
  rewrite (sext_minus_one w b), (sext_minimum w a) in Hg by assumption.
  rewrite (proj2 (Z.eqb_neq b 0) Hnz), orb_false_l, andb_comm, Hg. split; reflexivity.
Qed.

(** The guarded quotient is the quotient, the overflowing case included. *)
Lemma quot_guard w a b : 0 < w -> urange w a -> urange w b ->
  (b =? wrap w (-1)) && (a =? wrap w (- 2 ^ (w - 1))) = true ->
  wrap w (Z.quot (sext w a) (sext w b)) = wrap w (- 2 ^ (w - 1)) /\ Z.rem (sext w a) (sext w b) = 0.
Proof.
  intros Hw Ha Hb Hg. rewrite (sext_minus_one w b), (sext_minimum w a), andb_true_iff, !Z.eqb_eq in Hg
    by assumption.
  destruct Hg as [-> ->]. split; [apply quot_overflow; assumption | apply rem_minus_one].
Qed.

Lemma run_x64_div_signed_sets rs1 rs2 rd :
  sets (run_x64_div_signed rs1 rs2 rd) rd (alu DIV x[rs1] x[rs2]).
Proof.
  pose proof (getx_range s rs1 Hok) as Ha. pose proof (getx_range s rs2 Hok) as Hb.
  unfold sets, run_x64_div_signed. exec. unfold uint_compare. cbn [alu].
  change (wrap 64 0) with 0. destruct (Z.eqb_spec x[rs2] 0); exec; [reflexivity|].
  change i64_MIN with (- 2 ^ (64 - 1)). destruct (_ && _) eqn:Hg.
  - exec. destruct (quot_guard 64 _ _ ltac:(lia) Ha Hb Hg) as [-> _]. reflexivity.
  - destruct (div_guard 64 _ _ ltac:(lia) Ha Hb ltac:(assumption) Hg) as [-> _].
    exec. reflexivity.
Qed.

Lemma run_x64_rem_signed_sets rs1 rs2 rd :
  sets (run_x64_rem_signed rs1 rs2 rd) rd (alu REM x[rs1] x[rs2]).
Proof.
  pose proof (getx_range s rs1 Hok) as Ha. pose proof (getx_range s rs2 Hok) as Hb.
  unfold sets, run_x64_rem_signed. exec. unfold uint_compare. cbn [alu].
  change (wrap 64 0) with 0. destruct (Z.eqb_spec x[rs2] 0); exec; [reflexivity|].
  change i64_MIN with (- 2 ^ (64 - 1)). destruct (_ && _) eqn:Hg.
  - exec. destruct (quot_guard 64 _ _ ltac:(lia) Ha Hb Hg) as [_ ->]. reflexivity.
  - destruct (div_guard 64 _ _ ltac:(lia) Ha Hb ltac:(assumption) Hg) as [_ ->].
    exec. reflexivity.
Qed.

Lemma run_x64_div_unsigned_sets rs1 rs2 rd :
  sets (run_x64_div_unsigned rs1 rs2 rd) rd (alu DIVU x[rs1] x[rs2]).
Proof.
  unfold sets, run_x64_div_unsigned. exec. unfold uint_compare, uint_div_unsigned. cbn [alu].
  change (wrap 64 0) with 0. destruct (Z.eqb_spec x[rs2] 0); exec; reflexivity.
Qed.

Lemma run_x64_rem_unsigned_sets rs1 rs2 rd :
  sets (run_x64_rem_unsigned rs1 rs2 rd) rd (alu REMU x[rs1] x[rs2]).
Proof.
  unfold sets, run_x64_rem_unsigned. exec. unfold uint_compare, uint_modulus_unsigned. cbn [alu].
  change (wrap 64 0) with 0. destruct (Z.eqb_spec x[rs2] 0); exec; reflexivity.
Qed.

Lemma run_x32_div_signed_sets rs1 rs2 rd :
  sets (run_x32_div_signed rs1 rs2 rd) rd (alu DIVW x[rs1] x[rs2]).
Proof.
  pose proof (wrap_range 32 x[rs1] ltac:(lia)) as Ha.
  pose proof (wrap_range 32 x[rs2] ltac:(lia)) as Hb.
  unfold sets, run_x32_div_signed. exec. unfold uint_compare. cbn [alu].
  rewrite <- (sext_wrap 32 x[rs1]), <- (sext_wrap 32 x[rs2]) by lia.
  change (wrap 32 0) with 0. destruct (Z.eqb_spec (wrap 32 x[rs2]) 0); exec; [reflexivity|].
  change i32_MIN with (- 2 ^ (32 - 1)). destruct (_ && _) eqn:Hg.
  - exec. destruct (quot_guard 32 _ _ ltac:(lia) Ha Hb Hg) as [<- _].
    rewrite sext_wrap by lia. reflexivity.
  - destruct (div_guard 32 _ _ ltac:(lia) Ha Hb ltac:(assumption) Hg) as [-> _].
    exec. rewrite sext_wrap by lia. reflexivity.
Qed.

Lemma run_x32_rem_signed_sets rs1 rs2 rd :
  sets (run_x32_rem_signed rs1 rs2 rd) rd (alu REMW x[rs1] x[rs2]).
Proof.
  pose proof (wrap_range 32 x[rs1] ltac:(lia)) as Ha.
  pose proof (wrap_range 32 x[rs2] ltac:(lia)) as Hb.
  unfold sets, run_x32_rem_signed. exec. unfold uint_compare. cbn [alu].
  rewrite <- (sext_wrap 32 x[rs1]), <- (sext_wrap 32 x[rs2]) by lia.
  change (wrap 32 0) with 0. destruct (Z.eqb_spec (wrap 32 x[rs2]) 0); exec; [reflexivity|].
  change i32_MIN with (- 2 ^ (32 - 1)). destruct (_ && _) eqn:Hg.
  - exec. destruct (quot_guard 32 _ _ ltac:(lia) Ha Hb Hg) as [_ ->]. reflexivity.
  - destruct (div_guard 32 _ _ ltac:(lia) Ha Hb ltac:(assumption) Hg) as [_ ->].
    exec. rewrite sext_wrap, (sext_small 32 (Z.rem _ _)); try lia; [reflexivity|].
    apply rem_srange, sext_nonzero; [lia.. | rewrite wrap_wrap by lia; assumption].
Qed.

Lemma run_x32_div_unsigned_sets rs1 rs2 rd :
  sets (run_x32_div_unsigned rs1 rs2 rd) rd (alu DIVUW x[rs1] x[rs2]).
Proof.
  unfold sets, run_x32_div_unsigned. exec. unfold uint_compare, uint_div_unsigned. cbn [alu].
  change (wrap 32 0) with 0. destruct (Z.eqb_spec (wrap 32 x[rs2]) 0); exec; reflexivity.
Qed.

Lemma run_x32_rem_unsigned_sets rs1 rs2 rd :
  sets (run_x32_rem_unsigned rs1 rs2 rd) rd (alu REMUW x[rs1] x[rs2]).
Proof.
  unfold sets, run_x32_rem_unsigned. exec. unfold uint_compare, uint_modulus_unsigned. cbn [alu].
  change (wrap 32 0) with 0.
  destruct (Z.eqb_spec (wrap 32 x[rs2]) 0); exec; rewrite ?sext_wrap by lia; reflexivity.
Qed.

End IntegerSpec.
