(* ===== verification/ControlSpec.v ===== *)
(** * Jumps, memory accesses and atomics against the reference semantics

    The counterpart of [IntegerSpec] for [Interpreter] and
    [Run]: on a well-formed core each function returns, with the outcome of the
    reference semantics. *)

From S2P Require Import Prelude.
From S2P Require Import Registers.
From S2P Require Import Instr.
From S2P Require Import Icb.
From S2P Require Import Interpreter.
From S2P Require Import Memory.
From S2P Require Import MemorySpec.
From S2P Require Import Core.
From S2P Require Import Run.
From S2P Require Import IsaSpec.
From S2P Require Import CoreSpec.
From S2P Require Import IntegerSpec.

(** Masks that clear low bits. *)
Lemma land_clear n a : 0 <= n <= 64 -> urange 64 a ->
  Z.land a (wrap 64 (Z.lnot (Z.ones n))) = 2 ^ n * (a / 2 ^ n).
Proof.
  intros Hn Ha. rewrite Z.mul_comm, <- Z.shiftl_mul_pow2, <- Z.shiftr_div_pow2 by lia.
  apply Z.bits_inj'. intros i Hi. rewrite Z.land_spec, testbit_wrap by lia.
  assert (i < n \/ n <= i < 64 \/ 64 <= i) as [?|[?|?]] by lia.
  - bit_rw. bit_split. bit_finish.
  - bit_rw. bit_split. rewrite ?andb_true_r. bit_finish.
  - rewrite (testbit_above 64 a) by (assumption || lia). cbn [andb].
    bit_rw. replace (i - n + n) with i by lia. symmetry. apply (testbit_above 64); [lia | assumption].
Qed.

Lemma land_even a : urange 64 a -> Z.land a (wrap 64 (Z.lnot 1)) = 2 * (a / 2).
Proof. exact (land_clear 1 a ltac:(lia)). Qed.

Lemma land_reservation a : urange 64 a -> Z.land a (wrap 64 (sext 64 RES_SET_BITMASK)) = 8 * (a / 8).
Proof. exact (land_clear 3 a ltac:(lia)). Qed.

Section ControlSpec.
Context {Mem : Type} `{Memory Mem} `{!MemoryLaws Mem}.
Notation Core := (MachineCoreState Mem).
Implicit Types s : Core.

(** ** Jumps and branches *)
Lemma run_j_eq imm s : run_j imm s = Some (wrap 64 (pc (hart s) + imm), s).
Proof. unfold run_j. exec. rewrite wrap_add_wrap. reflexivity. Qed.

Lemma run_j_absolute_eq imm s : run_j_absolute imm s = Some (2 * (wrap 64 imm / 2), s).
Proof. unfold run_j_absolute. exec. rewrite land_even by (apply wrap_range; lia). reflexivity. Qed.

Lemma run_jr_eq rs1 s : core_ok s -> run_jr rs1 s = Some (2 * (getx (xreg_of_nz rs1) s / 2), s).
Proof. intros. unfold run_jr. exec. rewrite land_even by eauto with pvm. reflexivity. Qed.

Lemma run_jr_imm_eq imm rs1 s : core_ok s ->
  run_jr_imm imm rs1 s = Some (2 * (wrap 64 (getx (xreg_of_nz rs1) s + imm) / 2), s).
Proof.
  intros. unfold run_jr_imm. exec. rewrite land_even, wrap_add_wrap by (apply wrap_range; lia).
  reflexivity.
Qed.

Definition link (w : InstrWidth) s : Z := wrap 64 (pc (hart s) + width_bytes w).

Lemma link_eq w s : wrap 64 (pc (hart s) + wrap 64 (width_bytes w)) = link w s.
Proof. apply wrap_add_wrap. Qed.

Lemma run_jal_eq imm rd w s : core_ok s ->
  run_jal imm rd w s = Some (wrap 64 (pc (hart s) + imm), setx (xreg_of_nz rd) (link w s) s).
Proof. intros. unfold run_jal. exec. rewrite link_eq, wrap_add_wrap. reflexivity. Qed.

Lemma run_jalr_eq rd rs1 w s : core_ok s ->
  run_jalr rd rs1 w s =
    Some (2 * (getx (xreg_of_nz rs1) s / 2), setx (xreg_of_nz rd) (link w s) s).
Proof. intros. unfold run_jalr. exec. rewrite link_eq, land_even by eauto with pvm. reflexivity. Qed.

Lemma run_jalr_imm_eq imm rs1 rd w s : core_ok s ->
  run_jalr_imm imm rs1 rd w s =
    Some (2 * (wrap 64 (getx (xreg_of_nz rs1) s + imm) / 2), setx (xreg_of_nz rd) (link w s) s).
Proof.
  intros. unfold run_jalr_imm. exec.
  rewrite link_eq, land_even, wrap_add_wrap by (apply wrap_range; lia). reflexivity.
Qed.

Lemma run_jalr_absolute_eq imm rd w s : core_ok s ->
  run_jalr_absolute imm rd w s =
    Some (2 * (wrap 64 imm / 2), setx (xreg_of_nz rd) (link w s) s).
Proof.
  intros. unfold run_jalr_absolute. exec.
  rewrite link_eq, land_even by (apply wrap_range; lia). reflexivity.
Qed.

Lemma run_add_immediate_to_pc_eq imm rd s : core_ok s ->
  run_add_immediate_to_pc imm rd s
  = Some (tt, setx (xreg_of_nz rd) (wrap 64 (pc (hart s) + imm)) s).
Proof. intros. unfold run_add_immediate_to_pc. exec. rewrite wrap_add_wrap. reflexivity. Qed.

Lemma run_li_eq imm rd s : core_ok s ->
  run_li imm rd s = Some (tt, setx (xreg_of_nz rd) (wrap 64 imm) s).
Proof. intros. unfold run_li. exec. reflexivity. Qed.

Definition taken (c : bool) (imm : Z) (w : InstrWidth) s : ProgramCounterUpdate Z :=
  if c then Set_ (wrap 64 (pc (hart s) + imm)) else Next w.

Lemma core_branch_eq c imm w s : core_branch c imm w s = Some (taken c imm w s, s).
Proof.
  unfold core_branch, taken. destruct c; [|reflexivity]. exec. rewrite wrap_add_wrap. reflexivity.
Qed.

Lemma run_branch_eq p imm rs1 rs2 w s : core_ok s ->
  run_branch p imm rs1 rs2 w s =
    Some (taken (uint_compare 64 (getx (xreg_of_nz rs1) s) (getx (xreg_of_nz rs2) s) p) imm w s, s).
Proof. intros. unfold run_branch. exec. apply core_branch_eq. Qed.

Lemma run_branch_compare_zero_eq p imm rs1 w s : core_ok s ->
  run_branch_compare_zero p imm rs1 w s =
    Some (taken (uint_compare 64 (getx (xreg_of_nz rs1) s) 0 p) imm w s, s).
Proof. intros. unfold run_branch_compare_zero. exec. apply core_branch_eq. Qed.

(** ** Memory *)
Lemma wrap_cast V v : wrap (bits_of V) (cast_to V v) = wrap (bits_of V) v.
Proof.
  pose proof (bits_of_pos V). unfold cast_to. destruct (SIGNED V);
    [apply wrap_sext | apply wrap_wrap]; lia.
Qed.

Lemma exec_load V a s : core_ok s -> urange 64 a ->
  core_main_memory_load V a s =
    Some (match load V a s with Some v => Ok (wrap 64 v) | None => Err (LoadAccessFault a) end, s).
Proof.
  intros Hok Ha. unfold core_main_memory_load.
  destruct (exec_mem_read V a s Hok Ha) as (r & E & Hr). rewrite (bind_eq _ _ _ _ _ E).
  destruct (load V a s); [destruct Hr as [-> _] | subst r]; reflexivity.
Qed.

Lemma exec_store V a v s : core_ok s -> urange 64 a ->
  core_main_memory_store V a v s =
    Some (match store V a v s with
          | Some s' => (Ok tt, s')
          | None => (Err (StoreAMOAccessFault a), s)
          end).
Proof.
  intros Hok Ha. unfold core_main_memory_store.
  pose proof (exec_mem_write V a (from_xvalue V v) v s Hok Ha (wrap_cast V v)) as Hw.
  destruct (store V a v s); [destruct Hw as [E _] | rename Hw into E];
    rewrite (bind_eq _ _ _ _ _ E); reflexivity.
Qed.

Lemma store_ok V a v s s' : core_ok s -> urange 64 a -> store V a v s = Some s' ->
  core_ok s' /\ hart s' = hart s.
Proof.
  intros Hok Ha E. pose proof (exec_mem_write V a v v s Hok Ha eq_refl) as Hw.
  rewrite E in Hw. apply Hw.
Qed.

(** Memory and the hart do not see each other. *)
Lemma load_hart V a h s : load V a (with_hart h s) = load V a s.
Proof. reflexivity. Qed.

Lemma store_hart V a v h s : store V a v (with_hart h s) = with_hart h <$> store V a v s.
Proof. unfold store. cbn. destruct (mem_write V a v (main_memory s)) as [[[]]|]; reflexivity. Qed.

Lemma run_load_eq V imm rs1 rd s : core_ok s ->
  let a := wrap 64 (getx rs1 s + imm) in
  run_load V imm rs1 rd s =
    Some (match load V a s with
          | Some v => (Ok tt, setx rd (wrap 64 v) s)
          | None => (Err (LoadAccessFault a), s)
          end).
Proof.
  intros Hok a. unfold run_load. exec. rewrite wrap_add_wrap. fold a.
  rewrite (bind_eq _ _ _ _ _ (exec_load V a s Hok ltac:(apply wrap_range; lia))).
  icb. destruct (load V a s); exec; reflexivity.
Qed.

Lemma run_store_eq V imm rs1 rs2 s : core_ok s ->
  let a := wrap 64 (getx rs1 s + imm) in
  run_store V imm rs1 rs2 s =
    Some (match store V a (getx rs2 s) s with
          | Some s' => (Ok tt, s')
          | None => (Err (StoreAMOAccessFault a), s)
          end).
Proof.
  intros Hok a. unfold run_store. exec. rewrite wrap_add_wrap.
  apply exec_store; [assumption | apply wrap_range; lia].
Qed.

(** ** Atomics *)
Lemma exec_guard V a opt s : urange 64 a ->
  core_atomic_access_fault_guard V a opt s =
    Some (if aligned V a then (Ok tt, s)
          else (Err (StoreAMOAccessFault a),
                match opt with Reset => set_reservation UNSET_VALUE s | NoReset => s end)).
Proof.
  intros Ha. unfold core_atomic_access_fault_guard, aligned, uint_modulus_unsigned.
  rewrite (wrap_small 64 (width_of _))
    by (pose proof (width_of_bounds (WIDTH V)); unfold urange; lia).
  pose proof (width_of_bounds (WIDTH V)).
  rewrite (proj2 (Z.eqb_neq (width_of (WIDTH V)) 0)) by lia. exec. unfold uint_compare.
  destruct (_ =? 0); cbn [negb]; [reflexivity|]. destruct opt, s; reflexivity.
Qed.

Definition lr_result V rs1 rd s : result unit Exception * Core :=
  let a := getx rs1 s in
  if aligned V a then
    match load V a s with
    | Some v => (Ok tt, setx rd (wrap 64 v) (set_reservation (8 * (a / 8)) s))
    | None => (Err (LoadAccessFault a), s)
    end
  else (Err (StoreAMOAccessFault a), s).

Lemma run_atomic_load_eq V rs1 rd s : core_ok s ->
  run_atomic_load V rs1 rd s = Some (lr_result V rs1 rd s).
Proof.
  intros Hok. unfold lr_result. set (a := getx rs1 s).
  pose proof (getx_range s rs1 Hok) as Ha. unfold run_atomic_load. exec. fold a.
  unfold mbind at 1. rewrite exec_guard by assumption.
  destruct (aligned V a); [|reflexivity]. icb.
  rewrite (bind_eq _ _ _ _ _ (exec_load V a s Hok Ha)).
  destruct (load V a s); icb; [|reflexivity].
  unfold reservation_set_align_address. exec. rewrite land_reservation by assumption.
  assert (Hs : core_ok (set_reservation (8 * (a / 8)) s)).
  { apply set_reservation_ok; [assumption|]. pose proof (Z.mod_pos_bound a 8 ltac:(lia)).
    pose proof (Z.div_mod a 8 ltac:(lia)). unfold urange in *. fold a in Ha. lia. }
  change (on_hart (mput (with_start_addr (8 * (a / 8))))) with
    (fun s => Some (tt, set_reservation (Mem := Mem) (8 * (a / 8)) s)).
  unfold mbind at 1. exec. reflexivity.
Qed.

(** The registers written before a store do not affect it. *)
Lemma store_setx V a v r x s : store V a v (setx r x s) = setx r x <$> store V a v s.
Proof. unfold store, setx. cbn. destruct (mem_write V a v (main_memory s)) as [[[]]|]; reflexivity. Qed.

Lemma store_after_write V a v r x s : core_ok s -> urange 64 a -> urange 64 x ->
  core_main_memory_store V a v (setx r x s) =
    Some (match store V a v s with
          | Some s' => (Ok tt, setx r x s')
          | None => (Err (StoreAMOAccessFault a), setx r x s)
          end).
Proof.
  intros Hok Ha Hx. rewrite exec_store by eauto with pvm. rewrite store_setx.
  destruct (store V a v s); reflexivity.
Qed.

Lemma double_word_not_unset a : urange 64 a -> (UNSET_VALUE =? 8 * (a / 8)) = false.
Proof.
  intros _. apply Z.eqb_neq. unfold UNSET_VALUE. generalize (a / 8). intros b E.
  apply (f_equal (fun z => z mod 8)) in E. rewrite Z.mul_comm, Z.mod_mul in E by lia. discriminate.
Qed.

Lemma exec_test_and_unset a s : core_ok s -> urange 64 a ->
  test_and_unset_reservation_set a s =
    Some (start_addr (hart s) =? 8 * (a / 8), set_reservation UNSET_VALUE s).
Proof.
  intros Hok Ha. unfold test_and_unset_reservation_set, reset_reservation_set,
    reservation_set_align_address. exec.
  change (on_hart (mget start_addr)) with
    (fun s => Some (start_addr (hart s), with_hart (Mem := Mem) (hart s) s)).
  unfold mbind at 1. exec.
  change (on_hart (mput (with_start_addr (wrap 64 (sext 64 UNSET_VALUE))))) with
    (fun s => Some (tt, set_reservation (Mem := Mem) UNSET_VALUE s)).
  unfold mbind at 1. exec. rewrite land_reservation by assumption. unfold uint_compare.
  change (wrap 64 (sext 64 UNSET_VALUE)) with UNSET_VALUE. unfold mret.
  rewrite (Z.eqb_sym (8 * _)). do 2 f_equal.
  destruct (Z.eqb_spec (start_addr (hart s)) UNSET_VALUE) as [->|]; [|reflexivity].
  rewrite double_word_not_unset by assumption. reflexivity.
Qed.

Definition sc_result V rs1 rs2 rd s : result unit Exception * Core :=
  let a := getx rs1 s in
  let cleared := set_reservation UNSET_VALUE s in
  if aligned V a then
    if start_addr (hart s) =? 8 * (a / 8) then
      match store V a (getx rs2 s) cleared with
      | Some s' => (Ok tt, setx rd 0 s')
      | None => (Err (StoreAMOAccessFault a), setx rd 0 cleared)
      end
    else (Ok tt, setx rd 1 cleared)
  else (Err (StoreAMOAccessFault a), cleared).

Lemma run_atomic_store_eq V rs1 rs2 rd s : core_ok s ->
  run_atomic_store V rs1 rs2 rd s = Some (sc_result V rs1 rs2 rd s).
Proof.
  intros Hok. unfold sc_result. set (a := getx rs1 s). set (cleared := set_reservation _ s).
  pose proof (getx_range s rs1 Hok) as Ha.
  assert (Hc : core_ok cleared) by (apply set_reservation_ok; [assumption | unfold urange, UNSET_VALUE; lia]).
  unfold run_atomic_store. exec. fold a. unfold mbind at 1. rewrite exec_guard by assumption.
  destruct (aligned V a); [|reflexivity]. icb.
  rewrite (bind_eq _ _ _ _ _ (exec_test_and_unset a s Hok Ha)). fold cleared.
  destruct (_ =? _); exec; [|reflexivity].
  apply store_after_write; [assumption | assumption | unfold urange; lia].
Qed.

(** The read-modify-write operations: [f] is the code's operation, on the
    sign-extended or unsigned value read. *)
Definition amo_result V rs1 rd (value : Z -> Z) s : result unit Exception * Core :=
  let a := getx rs1 s in
  if aligned V a then
    match load V a s with
    | Some v =>
        match store V a (value v) s with
        | Some s' => (Ok tt, setx rd (wrap 64 v) s')
        | None => (Err (StoreAMOAccessFault a), setx rd (wrap 64 v) s)
        end
    | None => (Err (LoadAccessFault a), s)
    end
  else (Err (StoreAMOAccessFault a), s).

Lemma amo_result_ext V rs1 rd f g s : core_ok s ->
  (forall v, cast_to V v = v -> wrap (bits_of V) (f v) = wrap (bits_of V) (g v)) ->
  amo_result V rs1 rd f s = amo_result V rs1 rd g s.
Proof.
  intros Hok Hfg. unfold amo_result. destruct (aligned _ _); [|reflexivity].
  destruct (exec_mem_read V _ s Hok (getx_range s rs1 Hok)) as (r & _ & Hr).
  destruct (load _ _ _); [|reflexivity]. destruct Hr as [_ Hv].
  rewrite (store_cast _ _ _ _ s (Hfg _ Hv)). reflexivity.
Qed.

Lemma run_atomic_swap_eq V rs1 rs2 rd s : core_ok s ->
  run_atomic_swap V rs1 rs2 rd s = Some (amo_result V rs1 rd (fun v => amo V SWAP v (getx rs2 s)) s).
Proof.
  intros Hok. pose proof (getx_range s rs1 Hok) as Ha. unfold run_atomic_swap, amo_result. exec.
  unfold mbind at 1. rewrite exec_guard by assumption.
  destruct (aligned _ _); [|reflexivity]. icb.
  rewrite (bind_eq _ _ _ _ _ (exec_load V _ s Hok Ha)).
  destruct (load _ _ _); icb; [|reflexivity]. exec.
  rewrite store_after_write by (assumption || (apply wrap_range; lia)). reflexivity.
Qed.

Lemma run_x64_atomic_eq rs1 rs2 rd f (g : Z -> Z -> Z) s : core_ok s ->
  (forall x y, f x y = mret (S := Core) (g x y)) ->
  run_x64_atomic rs1 rs2 rd f s
  = Some (amo_result u64 rs1 rd (fun v => g (wrap 64 v) (getx rs2 s)) s).
Proof.
  intros Hok Hf. pose proof (getx_range s rs1 Hok) as Ha. unfold run_x64_atomic, amo_result. exec.
  unfold mbind at 1. rewrite exec_guard by assumption.
  destruct (aligned _ _); [|reflexivity]. icb.
  rewrite (bind_eq _ _ _ _ _ (exec_load u64 _ s Hok Ha)).
  destruct (load _ _ _); icb; [|reflexivity]. exec. rewrite Hf. exec.
  rewrite store_after_write by (assumption || (apply wrap_range; lia)). reflexivity.
Qed.

Lemma run_amo_eq T rs1 rs2 rd f to (from : Z -> Z) s : core_ok s -> from = wrap 64 \/ T = u64 /\ from = (fun x => x) ->
  run_amo T rs1 rs2 rd f to from s
  = Some (amo_result T rs1 rd (fun v => f v (to (getx rs2 s))) s).
Proof.
  intros Hok Hfrom. pose proof (getx_range s rs1 Hok) as Ha.
  unfold run_amo, amo_result, aligned. exec. destruct (_ =? 0); cbn [negb]; [|reflexivity].
  unfold read_from_address. rewrite bind_assoc.
  destruct (exec_mem_read T _ s Hok Ha) as (r & E & Hr). rewrite (bind_eq _ _ _ _ _ E). exec.
  destruct (load T _ _) as [v|]; [destruct Hr as [-> Hv] | subst r; reflexivity]. cbn [result_map_err].
  assert (Hw : from v = wrap 64 v).
  { destruct Hfrom as [-> | [-> ->]]; [reflexivity|]. symmetry. exact Hv. }
  exec. rewrite Hw. unfold write_to_address.
  assert (Hs : core_ok (setx rd (wrap 64 v) s)) by (apply setx_ok; [assumption | apply wrap_range; lia]).
  pose proof (exec_mem_write T _ _ _ _ Hs Ha (eq_refl (wrap (bits_of T) (f v (to (getx rs2 s)))))) as Hst.
  rewrite store_setx in Hst.
  destruct (store T _ _ s); cbn in Hst; [destruct Hst as [Est _] | rename Hst into Est];
    rewrite (bind_eq _ _ _ _ _ Est); reflexivity.
Qed.

(** The instructions at their widths. *)
Lemma run_x32_atomic_load_eq rs1 rs2 rd rl aq s : core_ok s ->
  run_x32_atomic_load rs1 rs2 rd rl aq s = Some (lr_result i32 rs1 rd s).
Proof. unfold run_x32_atomic_load. apply run_atomic_load_eq. Qed.
Lemma run_x32_atomic_store_eq rs1 rs2 rd rl aq s : core_ok s ->
  run_x32_atomic_store rs1 rs2 rd rl aq s = Some (sc_result i32 rs1 rs2 rd s).
Proof. unfold run_x32_atomic_store. apply run_atomic_store_eq. Qed.
Lemma run_x32_atomic_swap_eq rs1 rs2 rd rl aq s : core_ok s ->
  run_x32_atomic_swap rs1 rs2 rd rl aq s = Some (amo_result i32 rs1 rd (fun v => amo i32 SWAP v (getx rs2 s)) s).
Proof. unfold run_x32_atomic_swap. apply run_atomic_swap_eq. Qed.
Lemma run_x64_atomic_load_eq rs1 rs2 rd rl aq s : core_ok s ->
  run_x64_atomic_load rs1 rs2 rd rl aq s = Some (lr_result i64 rs1 rd s).
Proof. unfold run_x64_atomic_load. apply run_atomic_load_eq. Qed.
Lemma run_x64_atomic_store_eq rs1 rs2 rd rl aq s : core_ok s ->
  run_x64_atomic_store rs1 rs2 rd rl aq s = Some (sc_result i64 rs1 rs2 rd s).
Proof. unfold run_x64_atomic_store. apply run_atomic_store_eq. Qed.
Lemma run_x64_atomic_swap_eq rs1 rs2 rd rl aq s : core_ok s ->
  run_x64_atomic_swap rs1 rs2 rd rl aq s = Some (amo_result i64 rs1 rd (fun v => amo i64 SWAP v (getx rs2 s)) s).
Proof. unfold run_x64_atomic_swap. apply run_atomic_swap_eq. Qed.


(** *** The read-modify-write operations are those of the reference *)
Lemma amo_w_op op rs1 rs2 rd (f : Z -> Z -> Z) s : core_ok s ->
  (forall v r, sext 32 v = v -> wrap 32 (f v (sext 32 r)) = wrap 32 (amo i32 op v r)) ->
  run_amo_w rs1 rs2 rd f s = Some (amo_result i32 rs1 rd (fun v => amo i32 op v (getx rs2 s)) s).
Proof.
  intros Hok Hf. unfold run_amo_w. rewrite run_amo_eq by auto. f_equal.
  apply amo_result_ext; [assumption|]. intros v Hv. apply Hf, Hv.
Qed.

Lemma amo_d_op op rs1 rs2 rd (f : Z -> Z -> Z) s : core_ok s ->
  (forall v r, urange 64 r -> wrap 64 v = v -> wrap 64 (f v r) = wrap 64 (amo u64 op v r)) ->
  run_amo_d rs1 rs2 rd f s = Some (amo_result u64 rs1 rd (fun v => amo u64 op v (getx rs2 s)) s).
Proof.
  intros Hok Hf. unfold run_amo_d. rewrite run_amo_eq by auto. f_equal.
  apply amo_result_ext; [assumption|]. intros v Hv. apply Hf, Hv. apply getx_range; assumption.
Qed.

Lemma x64_op op rs1 rs2 rd f (g : Z -> Z -> Z) s : core_ok s ->
  (forall x y, f x y = mret (S := Core) (g x y)) ->
  (forall v r, wrap 64 v = v -> wrap 64 (g v r) = wrap 64 (amo u64 op v r)) ->
  run_x64_atomic rs1 rs2 rd f s
  = Some (amo_result u64 rs1 rd (fun v => amo u64 op v (getx rs2 s)) s).
Proof.
  intros Hok Hf Hg. rewrite (run_x64_atomic_eq rs1 rs2 rd f g) by assumption. f_equal.
  apply amo_result_ext; [assumption|]. intros v Hv. change (wrap 64 v = v) in Hv.
  rewrite Hv. apply Hg, Hv.
Qed.

Local Ltac amo_arith :=
  intros; cbn [amo]; change (bits_of i32) with 32; change (bits_of u64) with 64;
  rewrite ?wrap_sext, ?wrap_wrap by lia;
  repeat match goal with E : sext 32 ?v = ?v |- _ => rewrite ?E; clear E end;
  repeat match goal with E : wrap 64 ?v = ?v |- _ => rewrite ?E; clear E end;
  repeat match goal with E : urange 64 ?r |- _ => rewrite ?(wrap_small 64 r E); clear E end;
  try reflexivity;
  try (rewrite <- (wrap_add_wrap 32 _ (sext 32 _)), wrap_sext, wrap_add_wrap by lia; reflexivity);
  try bitwise.

Lemma run_amoaddw_eq rs1 rs2 rd rl aq s : core_ok s ->
  run_amoaddw rs1 rs2 rd rl aq s
  = Some (amo_result i32 rs1 rd (fun v => amo i32 AADD v (getx rs2 s)) s).
Proof. intros Hok. apply amo_w_op; [assumption|]. amo_arith. Qed.
Lemma run_amoxorw_eq rs1 rs2 rd rl aq s : core_ok s ->
  run_amoxorw rs1 rs2 rd rl aq s
  = Some (amo_result i32 rs1 rd (fun v => amo i32 AXOR v (getx rs2 s)) s).
Proof. intros Hok. apply amo_w_op; [assumption|]. amo_arith. Qed.
Lemma run_amoandw_eq rs1 rs2 rd rl aq s : core_ok s ->
  run_amoandw rs1 rs2 rd rl aq s
  = Some (amo_result i32 rs1 rd (fun v => amo i32 AAND v (getx rs2 s)) s).
Proof. intros Hok. apply amo_w_op; [assumption|]. amo_arith. Qed.
Lemma run_amoorw_eq rs1 rs2 rd rl aq s : core_ok s ->
  run_amoorw rs1 rs2 rd rl aq s
  = Some (amo_result i32 rs1 rd (fun v => amo i32 AOR v (getx rs2 s)) s).
Proof. intros Hok. apply amo_w_op; [assumption|]. amo_arith. Qed.
Lemma run_amominw_eq rs1 rs2 rd rl aq s : core_ok s ->
  run_amominw rs1 rs2 rd rl aq s
  = Some (amo_result i32 rs1 rd (fun v => amo i32 AMIN v (getx rs2 s)) s).
Proof. intros Hok. apply amo_w_op; [assumption|]. amo_arith. Qed.
Lemma run_amomaxw_eq rs1 rs2 rd rl aq s : core_ok s ->
  run_amomaxw rs1 rs2 rd rl aq s
  = Some (amo_result i32 rs1 rd (fun v => amo i32 AMAX v (getx rs2 s)) s).
Proof. intros Hok. apply amo_w_op; [assumption|]. amo_arith. Qed.
Lemma run_amominuw_eq rs1 rs2 rd rl aq s : core_ok s ->
  run_amominuw rs1 rs2 rd rl aq s
  = Some (amo_result i32 rs1 rd (fun v => amo i32 AMINU v (getx rs2 s)) s).
Proof. intros Hok. apply amo_w_op; [assumption|]. amo_arith. Qed.
Lemma run_amomaxuw_eq rs1 rs2 rd rl aq s : core_ok s ->
  run_amomaxuw rs1 rs2 rd rl aq s
  = Some (amo_result i32 rs1 rd (fun v => amo i32 AMAXU v (getx rs2 s)) s).
Proof. intros Hok. apply amo_w_op; [assumption|]. amo_arith. Qed.
Lemma run_amoxord_eq rs1 rs2 rd rl aq s : core_ok s ->
  run_amoxord rs1 rs2 rd rl aq s
  = Some (amo_result u64 rs1 rd (fun v => amo u64 AXOR v (getx rs2 s)) s).
Proof. intros Hok. apply amo_d_op; [assumption|]. amo_arith. Qed.
Lemma run_amoandd_eq rs1 rs2 rd rl aq s : core_ok s ->
  run_amoandd rs1 rs2 rd rl aq s
  = Some (amo_result u64 rs1 rd (fun v => amo u64 AAND v (getx rs2 s)) s).
Proof. intros Hok. apply amo_d_op; [assumption|]. amo_arith. Qed.
Lemma run_amoord_eq rs1 rs2 rd rl aq s : core_ok s ->
  run_amoord rs1 rs2 rd rl aq s
  = Some (amo_result u64 rs1 rd (fun v => amo u64 AOR v (getx rs2 s)) s).
Proof. intros Hok. apply amo_d_op; [assumption|]. amo_arith. Qed.
Lemma run_amomaxd_eq rs1 rs2 rd rl aq s : core_ok s ->
  run_amomaxd rs1 rs2 rd rl aq s
  = Some (amo_result u64 rs1 rd (fun v => amo u64 AMAX v (getx rs2 s)) s).
Proof. intros Hok. apply amo_d_op; [assumption|]. amo_arith. Qed.
Lemma run_amominud_eq rs1 rs2 rd rl aq s : core_ok s ->
  run_amominud rs1 rs2 rd rl aq s
  = Some (amo_result u64 rs1 rd (fun v => amo u64 AMINU v (getx rs2 s)) s).
Proof. intros Hok. apply amo_d_op; [assumption|]. amo_arith. Qed.
Lemma run_amomaxud_eq rs1 rs2 rd rl aq s : core_ok s ->
  run_amomaxud rs1 rs2 rd rl aq s
  = Some (amo_result u64 rs1 rd (fun v => amo u64 AMAXU v (getx rs2 s)) s).
Proof. intros Hok. apply amo_d_op; [assumption|]. amo_arith. Qed.
Lemma run_x64_atomic_add_eq rs1 rs2 rd rl aq s : core_ok s ->
  run_x64_atomic_add rs1 rs2 rd rl aq s
  = Some (amo_result u64 rs1 rd (fun v => amo u64 AADD v (getx rs2 s)) s).
Proof.
  intros Hok. unfold run_x64_atomic_add.
  apply (x64_op _ _ _ _ _ (fun x y => wrap 64 (x + y))); [assumption | reflexivity|]. amo_arith.
Qed.
Lemma run_x64_atomic_min_signed_eq rs1 rs2 rd rl aq s : core_ok s ->
  run_x64_atomic_min_signed rs1 rs2 rd rl aq s
  = Some (amo_result u64 rs1 rd (fun v => amo u64 AMIN v (getx rs2 s)) s).
Proof.
  intros Hok. unfold run_x64_atomic_min_signed.
  apply (x64_op _ _ _ _ _ (fun x y => wrap 64 (Z.min (sext 64 x) (sext 64 y)))); [assumption | reflexivity|]. amo_arith.
Qed.

End ControlSpec.
