(* ===== verification/IsaRefinement.v ===== *)
(** * The interpreter implements the reference semantics

    From a decoded instruction, the program builds a specialised opcode with
    flat arguments ([instruction_of_cacheable]) and dispatches it ([to_run]).
    Here the whole path is shown to implement [isa_exec]: on every well-formed
    core, for every instruction that has a reference meaning, it returns the
    reference outcome and state. *)

From S2P Require Import Prelude.
From S2P Require Import Registers.
From S2P Require Import Csr.
From S2P Require Import Instr.
From S2P Require Import Parser.
From S2P Require Import Instruction.
From S2P Require Import Constructors.
From S2P Require Import Icb.
From S2P Require Import Integer.
From S2P Require Import Interpreter.
From S2P Require Import Memory.
From S2P Require Import MemorySpec.
From S2P Require Import Core.
From S2P Require Import Run.
From S2P Require Import IsaSpec.
From S2P Require Import CoreSpec.
From S2P Require Import IntegerSpec.
From S2P Require Import ControlSpec.

(** ** The statement *)

(** The instructions the code runs without panicking: shift amounts are below
    64 (the decoder's invariant), and the destination of [mulw] is not [x0]. *)
Definition shamt_ok (imm : Z) : bool := (0 <=? imm) && (imm <? 64).
Definition runnable (i : InstrCacheable) : bool :=
  match i with
  | Instrs.Slli a | Instrs.Srli a | Instrs.Srai a => shamt_ok (nzri_imm a)
  | Instrs.CSlli a => shamt_ok (cibnz_imm a)
  | Instrs.CSrli a | Instrs.CSrai a => shamt_ok (cib_imm a)
  | Instrs.Mulw a => negb (is_zero (r_rd a))
  | _ => true
  end.

(** [mulw] to [x0], whose function reads [x0] through the view of the other registers. *)
Definition mulw_x0 (i : InstrCacheable) : bool :=
  match i with Instrs.Mulw a => is_zero (r_rd a) | _ => false end.

(** The destination of an instruction that writes it before its store. *)
Definition clobbers (i : IsaInstr) : option XRegister :=
  match i with
  | SC _ rd _ _ | AMO _ _ rd _ _ => Some rd
  | _ => None
  end.

(** The same outcome, and the same state but for the destination of an atomic
    whose store faults. *)
Definition agrees {Mem} (i : IsaInstr) (spec out : Outcome * MachineCoreState Mem) : Prop :=
  fst out = fst spec /\
  (snd out = snd spec \/
   exists rd v a, clobbers i = Some rd /\ fst spec = Err (StoreAMOAccessFault a) /\
                  urange 64 v /\ snd out = setx rd v (snd spec)).

(** ** Arithmetic with the zero register *)
Lemma alu_zero_l op b : urange 64 b ->
  alu op 0 b =
    match op with
    | ADD | OR | XOR => b
    | AND | SLL | SRL | SRA | SLLW | SRLW | SRAW | MUL | MULH | MULHSU | MULHU => 0
    | _ => alu op 0 b
    end.
Proof.
  intros Hb. destruct op; try reflexivity; cbn [alu];
    change (sext 64 0) with 0; change (sext 32 0) with 0; change (wrap 32 0) with 0;
    rewrite ?Z.mul_0_l; try reflexivity;
    try (rewrite Z.add_0_l; apply wrap_small; assumption);
    rewrite ?Z.div_0_l by (apply Z.pow_nonzero; [lia | apply Z.mod_pos_bound; lia]); reflexivity.
Qed.

Lemma alu_zero_r op a : urange 64 a ->
  alu op a 0 =
    match op with
    | ADD | SUB | OR | XOR | SLL | SRL | SRA => a
    | AND | MUL | MULH | MULHSU | MULHU => 0
    | _ => alu op a 0
    end.
Proof.
  intros Ha. destruct op; try reflexivity; cbn [alu];
    change (sext 64 0) with 0; change (0 mod 64) with 0; change (2 ^ 0) with 1;
    rewrite ?Z.mul_0_r, ?Z.mul_1_r, ?Z.div_1_r, ?Z.add_0_r, ?Z.sub_0_r, ?Z.lxor_0_r, ?Z.lor_0_r,
      ?Z.land_0_r; try reflexivity; try (apply wrap_small; assumption).
  rewrite wrap_sext by lia. apply wrap_small; assumption.
Qed.

(** ** Reading the register union *)
Lemma bind_nzx {S B} r (k : NonZeroXRegister -> M S B) :
  mbind (mlift (register_nzx (nz_repr r))) k = k r.
Proof. unfold register_nzx. rewrite nz_of_to_repr. reflexivity. Qed.

Lemma bind_x {S B} r (k : XRegister -> M S B) : mbind (mlift (register_x (xreg_repr r))) k = k r.
Proof. unfold register_x. rewrite xreg_of_to_repr. reflexivity. Qed.

Lemma bind_x_nz {S B} r (k : XRegister -> M S B) :
  mbind (mlift (register_x (nz_repr r))) k = k (xreg_of_nz r).
Proof. rewrite <- xreg_of_nz_repr. apply bind_x. Qed.

(** Destructs the registers an instruction specialises on. *)
Ltac split_regs :=
  repeat match goal with
  | |- context [split_x0 ?r] =>
      let E := fresh in
      pose proof (split_x0_inv r) as E; destruct (split_x0 r); subst r
  end.

(** Evaluates the register views and fields of the arguments. *)
Ltac views :=
  unfold rd_, rs1_, rs2_, imm_, width_, aq_, rl_, into, into_x, into_nzx, DEFAULT, register_default;
  cbn [a_rd a_rs1 a_rs2 a_imm a_csr a_rs3f a_rm a_aq a_rl a_width];
  rewrite ?xreg_of_nz_repr, ?bind_nzx, ?bind_x, ?bind_x_nz; cbv beta; rewrite ?bind_nzx, ?bind_x, ?bind_x_nz;
  cbv beta; rewrite ?bind_nzx, ?bind_x, ?bind_x_nz; cbv beta.

Section Refinement.
Context {Mem : Type} `{Memory Mem} `{!MemoryLaws Mem}.
Notation Core := (MachineCoreState Mem).
Variables (s : Core) (Hok : core_ok s).

Notation "'x[' r ]" := (getx r s) (at level 0, r at level 200).
Notation "'nz[' r ]" := (getx (xreg_of_nz r) s) (at level 0, r at level 200).

(** ** Running a constructed instruction *)
Definition runs (i : Instruction) (out : Outcome * Core) : Prop :=
  exists run, instruction_run i = Some run /\ run s = Some out.

(** The outcome that writes [v] to [rd] and goes on. *)
Definition wrote (w : InstrWidth) (rd : NonZeroXRegister) (v : Z) : Outcome * Core :=
  (Ok (Next w), setx (xreg_of_nz rd) v s).

Lemma runs_eq i out out' : runs i out -> out = out' -> runs i out'.
Proof. intros Hr <-. exact Hr. Qed.

(** The functions of the opcodes, given the registers that their arguments hold
    and the effect of the instruction's code. *)
Section Shapes.
Variable a : Args.

Local Ltac shape f :=
  unfold f, next, register_nzx, register_x; intros;
  repeat match goal with E : _ a = _ |- _ => rewrite E; clear E end;
  rewrite ?nz_of_to_repr, ?xreg_of_to_repr; rewrite ?bind_lift;
  match goal with E : _ s = Some _ |- _ => rewrite (bind_eq _ _ _ _ _ E) end;
  reflexivity.

Lemma r_non_zero_runs f rs1 rs2 rd s' :
  a_rs1 a = nz_repr rs1 -> a_rs2 a = nz_repr rs2 -> a_rd a = nz_repr rd ->
  f rs1 rs2 rd s = Some (tt, s') -> impl_r_type_non_zero f a s = Some (Ok (Next (a_width a)), s').
Proof. shape @impl_r_type_non_zero. Qed.

Lemma r_non_zero_rd_runs f rs1 rs2 rd s' :
  a_rs1 a = xreg_repr rs1 -> a_rs2 a = xreg_repr rs2 -> a_rd a = nz_repr rd ->
  f rs1 rs2 rd s = Some (tt, s') -> impl_r_type_non_zero_rd f a s = Some (Ok (Next (a_width a)), s').
Proof. shape @impl_r_type_non_zero_rd. Qed.

Lemma i_non_zero_runs f rs1 rd s' :
  a_rs1 a = nz_repr rs1 -> a_rd a = nz_repr rd ->
  f (a_imm a) rs1 rd s = Some (tt, s') ->
  impl_i_type_non_zero f a s = Some (Ok (Next (a_width a)), s').
Proof. shape @impl_i_type_non_zero. Qed.

Lemma i_non_zero_rd_runs f rs1 rd s' :
  a_rs1 a = xreg_repr rs1 -> a_rd a = nz_repr rd ->
  f (a_imm a) rs1 rd s = Some (tt, s') ->
  impl_i_type_non_zero_rd f a s = Some (Ok (Next (a_width a)), s').
Proof. shape @impl_i_type_non_zero_rd. Qed.

Lemma cr_nz_runs f rd rs2 s' :
  a_rd a = nz_repr rd -> a_rs2 a = nz_repr rs2 ->
  f rd rs2 s = Some (tt, s') -> impl_cr_nz_type f a s = Some (Ok (Next (a_width a)), s').
Proof. shape @impl_cr_nz_type. Qed.

Lemma ci_non_zero_runs f rd s' :
  a_rd a = nz_repr rd ->
  f (a_imm a) rd s = Some (tt, s') -> impl_ci_type_non_zero f a s = Some (Ok (Next (a_width a)), s').
Proof. shape @impl_ci_type_non_zero. Qed.
End Shapes.

Local Ltac by_run lem E :=
  eexists; split; [reflexivity|]; eapply lem; [.. | exact E]; first [reflexivity | apply xreg_of_nz_repr].

Lemma new_add_runs rd rs1 rs2 w : runs (new_add rd rs1 rs2 w)
    (wrote w rd (alu ADD nz[rs1] nz[rs2])).
Proof. by_run r_non_zero_runs (run_add_sets s Hok rs1 rs2 rd). Qed.
Lemma new_sub_runs rd rs1 rs2 w : runs (new_sub rd rs1 rs2 w)
    (wrote w rd (alu SUB nz[rs1] nz[rs2])).
Proof. by_run r_non_zero_runs (run_sub_sets s Hok rs1 rs2 rd). Qed.
Lemma new_and_runs rd rs1 rs2 w : runs (new_and rd rs1 rs2 w)
    (wrote w rd (alu AND nz[rs1] nz[rs2])).
Proof. by_run r_non_zero_runs (run_and_sets s Hok rs1 rs2 rd). Qed.
Lemma new_or_runs rd rs1 rs2 w : runs (new_or rd rs1 rs2 w)
    (wrote w rd (alu OR nz[rs1] nz[rs2])).
Proof. by_run r_non_zero_runs (run_or_sets s Hok rs1 rs2 rd). Qed.
Lemma new_x64_xor_runs rd rs1 rs2 w : runs (new_x64_xor rd rs1 rs2 w)
    (wrote w rd (alu XOR nz[rs1] nz[rs2])).
Proof. by_run r_non_zero_runs (run_x64_xor_sets s Hok rs1 rs2 rd). Qed.
Lemma new_mul_runs rd rs1 rs2 w : runs (new_mul rd rs1 rs2 w)
    (wrote w rd (alu MUL nz[rs1] nz[rs2])).
Proof. by_run r_non_zero_runs (run_mul_sets s Hok rs1 rs2 rd). Qed.
Lemma new_shift_left_runs rd rs1 rs2 w : runs (new_shift_left rd rs1 rs2 w)
    (wrote w rd (alu SLL nz[rs1] nz[rs2])).
Proof. by_run r_non_zero_runs (run_shift_sets s Hok Left rs1 rs2 rd). Qed.
Lemma new_shift_right_unsigned_runs rd rs1 rs2 w : runs (new_shift_right_unsigned rd rs1 rs2 w)
    (wrote w rd (alu SRL nz[rs1] nz[rs2])).
Proof. by_run r_non_zero_runs (run_shift_sets s Hok RightUnsigned rs1 rs2 rd). Qed.
Lemma new_shift_right_signed_runs rd rs1 rs2 w : runs (new_shift_right_signed rd rs1 rs2 w)
    (wrote w rd (alu SRA nz[rs1] nz[rs2])).
Proof. by_run r_non_zero_runs (run_shift_sets s Hok RightSigned rs1 rs2 rd). Qed.
Lemma new_x64_mul_high_signed_runs rd rs1 rs2 w : runs (new_x64_mul_high_signed rd rs1 rs2 w)
    (wrote w rd (alu MULH nz[rs1] nz[rs2])).
Proof. by_run r_non_zero_runs (run_x64_mul_high_sets s Hok rs1 rs2 rd MulSigned). Qed.
Lemma new_x64_mul_high_signed_unsigned_runs rd rs1 rs2 w : runs (new_x64_mul_high_signed_unsigned rd rs1 rs2 w)
    (wrote w rd (alu MULHSU nz[rs1] nz[rs2])).
Proof. by_run r_non_zero_runs (run_x64_mul_high_sets s Hok rs1 rs2 rd MulSignedUnsigned). Qed.
Lemma new_x64_mul_high_unsigned_runs rd rs1 rs2 w : runs (new_x64_mul_high_unsigned rd rs1 rs2 w)
    (wrote w rd (alu MULHU nz[rs1] nz[rs2])).
Proof. by_run r_non_zero_runs (run_x64_mul_high_sets s Hok rs1 rs2 rd MulUnsigned). Qed.
Lemma new_add_word_runs rd rs1 rs2 w : runs (new_add_word rd rs1 rs2 w)
    (wrote w rd (alu ADDW x[rs1] x[rs2])).
Proof. by_run r_non_zero_rd_runs (run_add_word_sets s Hok rs1 rs2 rd). Qed.
Lemma new_sub_word_runs rd rs1 rs2 w : runs (new_sub_word rd rs1 rs2 w)
    (wrote w rd (alu SUBW x[rs1] x[rs2])).
Proof. by_run r_non_zero_rd_runs (run_sub_word_sets s Hok rs1 rs2 rd). Qed.
Lemma new_x64_div_signed_runs rd rs1 rs2 w : runs (new_x64_div_signed rd rs1 rs2 w)
    (wrote w rd (alu DIV x[rs1] x[rs2])).
Proof. by_run r_non_zero_rd_runs (run_x64_div_signed_sets s Hok rs1 rs2 rd). Qed.
Lemma new_x64_div_unsigned_runs rd rs1 rs2 w : runs (new_x64_div_unsigned rd rs1 rs2 w)
    (wrote w rd (alu DIVU x[rs1] x[rs2])).
Proof. by_run r_non_zero_rd_runs (run_x64_div_unsigned_sets s Hok rs1 rs2 rd). Qed.
Lemma new_x32_div_signed_runs rd rs1 rs2 w : runs (new_x32_div_signed rd rs1 rs2 w)
    (wrote w rd (alu DIVW x[rs1] x[rs2])).
Proof. by_run r_non_zero_rd_runs (run_x32_div_signed_sets s Hok rs1 rs2 rd). Qed.
Lemma new_x32_div_unsigned_runs rd rs1 rs2 w : runs (new_x32_div_unsigned rd rs1 rs2 w)
    (wrote w rd (alu DIVUW x[rs1] x[rs2])).
Proof. by_run r_non_zero_rd_runs (run_x32_div_unsigned_sets s Hok rs1 rs2 rd). Qed.
Lemma new_x64_rem_signed_runs rd rs1 rs2 w : runs (new_x64_rem_signed rd rs1 rs2 w)
    (wrote w rd (alu REM x[rs1] x[rs2])).
Proof. by_run r_non_zero_rd_runs (run_x64_rem_signed_sets s Hok rs1 rs2 rd). Qed.
Lemma new_x64_rem_unsigned_runs rd rs1 rs2 w : runs (new_x64_rem_unsigned rd rs1 rs2 w)
    (wrote w rd (alu REMU x[rs1] x[rs2])).
Proof. by_run r_non_zero_rd_runs (run_x64_rem_unsigned_sets s Hok rs1 rs2 rd). Qed.
Lemma new_x32_rem_signed_runs rd rs1 rs2 w : runs (new_x32_rem_signed rd rs1 rs2 w)
    (wrote w rd (alu REMW x[rs1] x[rs2])).
Proof. by_run r_non_zero_rd_runs (run_x32_rem_signed_sets s Hok rs1 rs2 rd). Qed.
Lemma new_x32_rem_unsigned_runs rd rs1 rs2 w : runs (new_x32_rem_unsigned rd rs1 rs2 w)
    (wrote w rd (alu REMUW x[rs1] x[rs2])).
Proof. by_run r_non_zero_rd_runs (run_x32_rem_unsigned_sets s Hok rs1 rs2 rd). Qed.
Lemma new_set_less_than_signed_runs rd rs1 rs2 : runs (new_set_less_than_signed rd rs1 rs2)
    (wrote Uncompressed rd (alu SLT x[rs1] x[rs2])).
Proof. by_run r_non_zero_rd_runs (run_set_less_than_signed_sets s Hok rs1 rs2 rd). Qed.
Lemma new_set_less_than_unsigned_runs rd rs1 rs2 : runs (new_set_less_than_unsigned rd rs1 rs2)
    (wrote Uncompressed rd (alu SLTU x[rs1] x[rs2])).
Proof. by_run r_non_zero_rd_runs (run_set_less_than_unsigned_sets s Hok rs1 rs2 rd). Qed.
Lemma new_x32_shift_left_runs rd rs1 rs2 w : runs (new_x32_shift_left rd rs1 rs2 w)
    (wrote w rd (alu SLLW x[rs1] x[rs2])).
Proof. by_run r_non_zero_rd_runs (run_x32_shift_sets s Hok Left rs1 rs2 rd). Qed.
Lemma new_x32_shift_right_unsigned_runs rd rs1 rs2 w : runs (new_x32_shift_right_unsigned rd rs1 rs2 w)
    (wrote w rd (alu SRLW x[rs1] x[rs2])).
Proof. by_run r_non_zero_rd_runs (run_x32_shift_sets s Hok RightUnsigned rs1 rs2 rd). Qed.
Lemma new_x32_shift_right_signed_runs rd rs1 rs2 w : runs (new_x32_shift_right_signed rd rs1 rs2 w)
    (wrote w rd (alu SRAW x[rs1] x[rs2])).
Proof. by_run r_non_zero_rd_runs (run_x32_shift_sets s Hok RightSigned rs1 rs2 rd). Qed.
Lemma new_x32_mul_runs rd rs1 rs2 w : runs (new_x32_mul (xreg_of_nz rd) rs1 rs2 w)
    (wrote w rd (alu MULW x[rs1] x[rs2])).
Proof. by_run r_non_zero_rd_runs (run_x32_mul_sets s Hok rs1 rs2 rd). Qed.
Lemma new_addi_runs rd rs1 imm w : runs (new_addi rd rs1 imm w)
    (wrote w rd (alu ADD nz[rs1] (wrap 64 imm))).
Proof. by_run i_non_zero_runs (run_addi_sets s Hok imm rs1 rd). Qed.
Lemma new_andi_runs rd rs1 imm w : runs (new_andi rd rs1 imm w)
    (wrote w rd (alu AND nz[rs1] (wrap 64 imm))).
Proof. by_run i_non_zero_runs (run_andi_sets s Hok imm rs1 rd). Qed.
Lemma new_x64_or_immediate_runs rd rs1 imm w : runs (new_x64_or_immediate rd rs1 imm w)
    (wrote w rd (alu OR nz[rs1] (wrap 64 imm))).
Proof. by_run i_non_zero_runs (run_x64_or_immediate_sets s Hok imm rs1 rd). Qed.
Lemma new_x64_xor_immediate_runs rd rs1 imm w : runs (new_x64_xor_immediate rd rs1 imm w)
    (wrote w rd (alu XOR nz[rs1] (wrap 64 imm))).
Proof. by_run i_non_zero_runs (run_x64_xor_immediate_sets s Hok imm rs1 rd). Qed.
Lemma new_add_word_immediate_runs rd rs1 imm w : runs (new_add_word_immediate rd rs1 imm w)
    (wrote w rd (alu ADDW x[rs1] (wrap 64 imm))).
Proof. by_run i_non_zero_rd_runs (run_add_word_immediate_sets s Hok imm rs1 rd). Qed.
Lemma new_set_less_than_immediate_signed_runs rd rs1 imm : runs (new_set_less_than_immediate_signed rd rs1 imm)
    (wrote Uncompressed rd (alu SLT x[rs1] (wrap 64 imm))).
Proof. by_run i_non_zero_rd_runs (run_set_less_than_immediate_signed_sets s Hok imm rs1 rd). Qed.
Lemma new_set_less_than_immediate_unsigned_runs rd rs1 imm : runs (new_set_less_than_immediate_unsigned rd rs1 imm)
    (wrote Uncompressed rd (alu SLTU x[rs1] (wrap 64 imm))).
Proof. by_run i_non_zero_rd_runs (run_set_less_than_immediate_unsigned_sets s Hok imm rs1 rd). Qed.
Lemma new_shift_left_immediate_runs rd rs1 imm w : shamt_ok imm = true ->
  runs (new_shift_left_immediate rd rs1 imm w) (wrote w rd (alu SLL nz[rs1] (wrap 64 imm))).
Proof.
  intros Hi. apply andb_true_iff in Hi as [?%Z.leb_le ?%Z.ltb_lt].
  by_run i_non_zero_runs (run_shift_immediate_sets s Hok Left imm rs1 rd ltac:(lia)).
Qed.
Lemma new_shift_right_immediate_unsigned_runs rd rs1 imm w : shamt_ok imm = true ->
  runs (new_shift_right_immediate_unsigned rd rs1 imm w) (wrote w rd (alu SRL nz[rs1] (wrap 64 imm))).
Proof.
  intros Hi. apply andb_true_iff in Hi as [?%Z.leb_le ?%Z.ltb_lt].
  by_run i_non_zero_runs (run_shift_immediate_sets s Hok RightUnsigned imm rs1 rd ltac:(lia)).
Qed.
Lemma new_shift_right_immediate_signed_runs rd rs1 imm w : shamt_ok imm = true ->
  runs (new_shift_right_immediate_signed rd rs1 imm w) (wrote w rd (alu SRA nz[rs1] (wrap 64 imm))).
Proof.
  intros Hi. apply andb_true_iff in Hi as [?%Z.leb_le ?%Z.ltb_lt].
  by_run i_non_zero_runs (run_shift_immediate_sets s Hok RightSigned imm rs1 rd ltac:(lia)).
Qed.
Lemma new_x32_shift_left_immediate_runs rd rs1 imm w : runs (new_x32_shift_left_immediate rd rs1 imm w)
    (wrote w rd (alu SLLW nz[rs1] (wrap 64 imm))).
Proof. by_run i_non_zero_runs (run_x32_shift_immediate_sets s Hok Left rs1 imm rd). Qed.
Lemma new_x32_shift_right_immediate_unsigned_runs rd rs1 imm w : runs (new_x32_shift_right_immediate_unsigned rd rs1 imm w)
    (wrote w rd (alu SRLW nz[rs1] (wrap 64 imm))).
Proof. by_run i_non_zero_runs (run_x32_shift_immediate_sets s Hok RightUnsigned rs1 imm rd). Qed.
Lemma new_x32_shift_right_immediate_signed_runs rd rs1 imm w : runs (new_x32_shift_right_immediate_signed rd rs1 imm w)
    (wrote w rd (alu SRAW nz[rs1] (wrap 64 imm))).
Proof. by_run i_non_zero_runs (run_x32_shift_immediate_sets s Hok RightSigned rs1 imm rd). Qed.
Lemma new_neg_runs rd rs2 w : runs (new_neg rd rs2 w)
    (wrote w rd (alu SUB 0 nz[rs2])).
Proof. by_run cr_nz_runs (run_neg_sets s Hok rd rs2). Qed.
Lemma new_mv_runs rd rs2 w : runs (new_mv rd rs2 w)
    (wrote w rd nz[rs2]).
Proof. by_run cr_nz_runs (run_mv_sets s Hok rd rs2). Qed.
Lemma new_li_runs rd imm w : runs (new_li rd imm w)
    (wrote w rd (wrap 64 imm)).
Proof. by_run ci_non_zero_runs (run_li_eq imm rd s Hok). Qed.
Lemma new_add_immediate_to_pc_runs rd imm w : runs (new_add_immediate_to_pc rd imm w)
    (wrote w rd (wrap 64 (pc (hart s) + imm))).
Proof. by_run ci_non_zero_runs (run_add_immediate_to_pc_eq imm rd s Hok). Qed.

(** *** Nothing, errors and jumps *)
Lemma new_nop_runs w : runs (new_nop w) (Ok (Next w), s).
Proof. eexists; split; reflexivity. Qed.
Lemma new_unknown_runs w : runs (new_unknown w) (Err IllegalInstruction, s).
Proof. eexists; split; reflexivity. Qed.
Lemma new_ecall_runs : runs new_ecall (Err EnvCall, s).
Proof. eexists; split; reflexivity. Qed.

(** The outcome of a jump. *)
Definition jumped (target : Z) (s' : Core) : Outcome * Core := (Ok (Set_ target), s').
Notation linked w rd := (setx (xreg_of_nz rd) (link w s) s).

Local Ltac by_jump g f E :=
  eexists; split; [reflexivity|];
  unfold g, f, set_pc, impl_branch, impl_branch_compare_zero; cbn [i_args]; views;
  rewrite (bind_eq _ _ _ _ _ E); icb; unfold mret; reflexivity.

Lemma new_j_runs imm w : runs (new_j imm w)
    (jumped (wrap 64 (pc (hart s) + imm)) s).
Proof. by_jump new_j @args_run_j (run_j_eq imm s). Qed.
Lemma new_j_absolute_runs imm w : runs (new_j_absolute imm w)
    (jumped (2 * (wrap 64 imm / 2)) s).
Proof. by_jump new_j_absolute @args_run_j_absolute (run_j_absolute_eq imm s). Qed.
Lemma new_jr_runs rs1 w : runs (new_jr rs1 w)
    (jumped (2 * (nz[rs1] / 2)) s).
Proof. by_jump new_jr @args_run_jr (run_jr_eq rs1 s Hok). Qed.
Lemma new_jr_imm_runs rs1 imm w : runs (new_jr_imm rs1 imm w)
    (jumped (2 * (wrap 64 (nz[rs1] + imm) / 2)) s).
Proof. by_jump new_jr_imm @args_run_jr_imm (run_jr_imm_eq imm rs1 s Hok). Qed.
Lemma new_jal_runs rd imm w : runs (new_jal rd imm w)
    (jumped (wrap 64 (pc (hart s) + imm)) (linked w rd)).
Proof. by_jump new_jal @args_run_jal (run_jal_eq imm rd w s Hok). Qed.
Lemma new_jalr_runs rd rs1 w : runs (new_jalr rd rs1 w)
    (jumped (2 * (nz[rs1] / 2)) (linked w rd)).
Proof. by_jump new_jalr @args_run_jalr (run_jalr_eq rd rs1 w s Hok). Qed.
Lemma new_jalr_imm_runs rd rs1 imm w : runs (new_jalr_imm rd rs1 imm w)
    (jumped (2 * (wrap 64 (nz[rs1] + imm) / 2)) (linked w rd)).
Proof. by_jump new_jalr_imm @args_run_jalr_imm (run_jalr_imm_eq imm rs1 rd w s Hok). Qed.
Lemma new_jalr_absolute_runs rd imm w : runs (new_jalr_absolute rd imm w)
    (jumped (2 * (wrap 64 imm / 2)) (linked w rd)).
Proof. by_jump new_jalr_absolute @args_run_jalr_absolute (run_jalr_absolute_eq imm rd w s Hok). Qed.

(** *** Branches *)
Definition branched (c : bool) (imm : Z) (w : InstrWidth) : Outcome * Core := (Ok (taken c imm w s), s).

Lemma new_branch_equal_runs rs1 rs2 imm w : runs (new_branch_equal rs1 rs2 imm w)
    (branched (uint_compare 64 nz[rs1] nz[rs2] Equal) imm w).
Proof. by_jump new_branch_equal @args_run_branch_equal (run_branch_eq Equal imm rs1 rs2 w s Hok). Qed.
Lemma new_branch_not_equal_runs rs1 rs2 imm w : runs (new_branch_not_equal rs1 rs2 imm w)
    (branched (uint_compare 64 nz[rs1] nz[rs2] NotEqual) imm w).
Proof. by_jump new_branch_not_equal @args_run_branch_not_equal (run_branch_eq NotEqual imm rs1 rs2 w s Hok). Qed.
Lemma new_branch_less_than_signed_runs rs1 rs2 imm w : runs (new_branch_less_than_signed rs1 rs2 imm w)
    (branched (uint_compare 64 nz[rs1] nz[rs2] LessThanSigned) imm w).
Proof. by_jump new_branch_less_than_signed @args_run_branch_less_than_signed (run_branch_eq LessThanSigned imm rs1 rs2 w s Hok). Qed.
Lemma new_branch_less_than_unsigned_runs rs1 rs2 imm w : runs (new_branch_less_than_unsigned rs1 rs2 imm w)
    (branched (uint_compare 64 nz[rs1] nz[rs2] LessThanUnsigned) imm w).
Proof. by_jump new_branch_less_than_unsigned @args_run_branch_less_than_unsigned (run_branch_eq LessThanUnsigned imm rs1 rs2 w s Hok). Qed.
Lemma new_branch_greater_than_or_equal_signed_runs rs1 rs2 imm w : runs (new_branch_greater_than_or_equal_signed rs1 rs2 imm w)
    (branched (uint_compare 64 nz[rs1] nz[rs2] GreaterThanOrEqualSigned) imm w).
Proof. by_jump new_branch_greater_than_or_equal_signed @args_run_branch_greater_than_or_equal_signed (run_branch_eq GreaterThanOrEqualSigned imm rs1 rs2 w s Hok). Qed.
Lemma new_branch_greater_than_or_equal_unsigned_runs rs1 rs2 imm w : runs (new_branch_greater_than_or_equal_unsigned rs1 rs2 imm w)
    (branched (uint_compare 64 nz[rs1] nz[rs2] GreaterThanOrEqualUnsigned) imm w).
Proof. by_jump new_branch_greater_than_or_equal_unsigned @args_run_branch_greater_than_or_equal_unsigned (run_branch_eq GreaterThanOrEqualUnsigned imm rs1 rs2 w s Hok). Qed.
Lemma new_branch_equal_zero_runs rs1 imm w : runs (new_branch_equal_zero rs1 imm w)
    (branched (uint_compare 64 nz[rs1] 0 Equal) imm w).
Proof. by_jump new_branch_equal_zero @args_run_branch_equal_zero (run_branch_compare_zero_eq Equal imm rs1 w s Hok). Qed.
Lemma new_branch_not_equal_zero_runs rs1 imm w : runs (new_branch_not_equal_zero rs1 imm w)
    (branched (uint_compare 64 nz[rs1] 0 NotEqual) imm w).
Proof. by_jump new_branch_not_equal_zero @args_run_branch_not_equal_zero (run_branch_compare_zero_eq NotEqual imm rs1 w s Hok). Qed.
Lemma new_branch_less_than_zero_runs rs1 imm w : runs (new_branch_less_than_zero rs1 imm w)
    (branched (uint_compare 64 nz[rs1] 0 LessThanSigned) imm w).
Proof. by_jump new_branch_less_than_zero @args_run_branch_less_than_zero (run_branch_compare_zero_eq LessThanSigned imm rs1 w s Hok). Qed.
Lemma new_branch_greater_than_or_equal_zero_runs rs1 imm w : runs (new_branch_greater_than_or_equal_zero rs1 imm w)
    (branched (uint_compare 64 nz[rs1] 0 GreaterThanOrEqualSigned) imm w).
Proof. by_jump new_branch_greater_than_or_equal_zero @args_run_branch_greater_than_or_equal_zero (run_branch_compare_zero_eq GreaterThanOrEqualSigned imm rs1 w s Hok). Qed.
Lemma new_branch_less_than_or_equal_zero_runs rs1 imm w : runs (new_branch_less_than_or_equal_zero rs1 imm w)
    (branched (uint_compare 64 nz[rs1] 0 LessThanOrEqualSigned) imm w).
Proof. by_jump new_branch_less_than_or_equal_zero @args_run_branch_less_than_equal_zero (run_branch_compare_zero_eq LessThanOrEqualSigned imm rs1 w s Hok). Qed.
Lemma new_branch_greater_than_zero_runs rs1 imm w : runs (new_branch_greater_than_zero rs1 imm w)
    (branched (uint_compare 64 nz[rs1] 0 GreaterThanSigned) imm w).
Proof. by_jump new_branch_greater_than_zero @args_run_branch_greater_than_zero (run_branch_compare_zero_eq GreaterThanSigned imm rs1 w s Hok). Qed.

(** *** Loads, stores and atomics

    They return a result without a value; the opcode's function maps it to the
    next instruction. *)
Definition then_next (w : InstrWidth) (out : result unit Exception * Core) : Outcome * Core :=
  (result_map (fst out) (fun _ => Next w), snd out).

Lemma bind_next w m (out : result unit Exception * Core) : m s = Some out ->
  mbind m (fun res => mret (ires_map (I := Core) res (fun _ => Next w))) s = Some (then_next w out).
Proof. intros E. unfold mbind. rewrite E. destruct out; reflexivity. Qed.

Section AccessShapes.
Variable a : Args.
Local Ltac shape f :=
  unfold f, register_x; intros;
  repeat match goal with E : _ a = _ |- _ => rewrite E; clear E end;
  rewrite ?xreg_of_to_repr; rewrite ?bind_lift; apply bind_next; assumption.

Lemma load_runs V rs1 rd out : a_rs1 a = xreg_repr rs1 -> a_rd a = xreg_repr rd ->
  run_load V (a_imm a) rs1 rd s = Some out -> impl_load_type V a s = Some (then_next (a_width a) out).
Proof. shape @impl_load_type. Qed.

Lemma store_runs V rs1 rs2 out : a_rs1 a = xreg_repr rs1 -> a_rs2 a = xreg_repr rs2 ->
  run_store V (a_imm a) rs1 rs2 s = Some out ->
  impl_store_type V a s = Some (then_next (a_width a) out).
Proof. shape @impl_store_type. Qed.

Lemma amo_runs f rs1 rs2 rd out :
  a_rs1 a = xreg_repr rs1 -> a_rs2 a = xreg_repr rs2 -> a_rd a = xreg_repr rd ->
  f rs1 rs2 rd (a_rl a) (a_aq a) s = Some out ->
  impl_amo_type f a s = Some (then_next (a_width a) out).
Proof. shape @impl_amo_type. Qed.
End AccessShapes.

Definition load_result (V : StoreLoadInt) (rd rs1 : XRegister) (imm : Z) : result unit Exception * Core :=
  let a := wrap 64 (x[rs1] + imm) in
  match load V a s with
  | Some v => (Ok tt, setx rd (wrap 64 v) s)
  | None => (Err (LoadAccessFault a), s)
  end.
Definition store_result (V : StoreLoadInt) (rs1 rs2 : XRegister) (imm : Z) : result unit Exception * Core :=
  let a := wrap 64 (x[rs1] + imm) in
  match store V a x[rs2] s with
  | Some s' => (Ok tt, s')
  | None => (Err (StoreAMOAccessFault a), s)
  end.

Lemma new_x8_load_signed_runs rd rs1 imm w :
  runs (new_x8_load_signed rd rs1 imm w) (then_next w (load_result i8 rd rs1 imm)).
Proof. by_run load_runs (run_load_eq i8 imm rs1 rd s Hok). Qed.
Lemma new_x16_load_signed_runs rd rs1 imm w :
  runs (new_x16_load_signed rd rs1 imm w) (then_next w (load_result i16 rd rs1 imm)).
Proof. by_run load_runs (run_load_eq i16 imm rs1 rd s Hok). Qed.
Lemma new_x32_load_signed_runs rd rs1 imm w :
  runs (new_x32_load_signed rd rs1 imm w) (then_next w (load_result i32 rd rs1 imm)).
Proof. by_run load_runs (run_load_eq i32 imm rs1 rd s Hok). Qed.
Lemma new_x64_load_signed_runs rd rs1 imm w :
  runs (new_x64_load_signed rd rs1 imm w) (then_next w (load_result i64 rd rs1 imm)).
Proof. by_run load_runs (run_load_eq i64 imm rs1 rd s Hok). Qed.
Lemma new_x8_load_unsigned_runs rd rs1 imm w :
  runs (new_x8_load_unsigned rd rs1 imm w) (then_next w (load_result u8 rd rs1 imm)).
Proof. by_run load_runs (run_load_eq u8 imm rs1 rd s Hok). Qed.
Lemma new_x16_load_unsigned_runs rd rs1 imm w :
  runs (new_x16_load_unsigned rd rs1 imm w) (then_next w (load_result u16 rd rs1 imm)).
Proof. by_run load_runs (run_load_eq u16 imm rs1 rd s Hok). Qed.
Lemma new_x32_load_unsigned_runs rd rs1 imm w :
  runs (new_x32_load_unsigned rd rs1 imm w) (then_next w (load_result u32 rd rs1 imm)).
Proof. by_run load_runs (run_load_eq u32 imm rs1 rd s Hok). Qed.
Lemma new_x8_store_runs rs1 rs2 imm w :
  runs (new_x8_store rs1 rs2 imm w) (then_next w (store_result u8 rs1 rs2 imm)).
Proof. by_run store_runs (run_store_eq u8 imm rs1 rs2 s Hok). Qed.
Lemma new_x16_store_runs rs1 rs2 imm w :
  runs (new_x16_store rs1 rs2 imm w) (then_next w (store_result u16 rs1 rs2 imm)).
Proof. by_run store_runs (run_store_eq u16 imm rs1 rs2 s Hok). Qed.
Lemma new_x32_store_runs rs1 rs2 imm w :
  runs (new_x32_store rs1 rs2 imm w) (then_next w (store_result u32 rs1 rs2 imm)).
Proof. by_run store_runs (run_store_eq u32 imm rs1 rs2 s Hok). Qed.
Lemma new_x64_store_runs rs1 rs2 imm w :
  runs (new_x64_store rs1 rs2 imm w) (then_next w (store_result u64 rs1 rs2 imm)).
Proof. by_run store_runs (run_store_eq u64 imm rs1 rs2 s Hok). Qed.
Lemma new_x32_atomic_load_runs rd rs1 aq rl w :
  runs (new_x32_atomic_load rd rs1 aq rl w) (then_next w (lr_result i32 rs1 rd s)).
Proof. by_run amo_runs (run_x32_atomic_load_eq rs1 (xreg_of_nz NZ.x1) rd rl aq s Hok). Qed.
Lemma new_x64_atomic_load_runs rd rs1 aq rl w :
  runs (new_x64_atomic_load rd rs1 aq rl w) (then_next w (lr_result i64 rs1 rd s)).
Proof. by_run amo_runs (run_x64_atomic_load_eq rs1 (xreg_of_nz NZ.x1) rd rl aq s Hok). Qed.
Lemma new_x32_atomic_store_runs rd rs1 rs2 aq rl w :
  runs (new_x32_atomic_store rd rs1 rs2 aq rl w) (then_next w (sc_result i32 rs1 rs2 rd s)).
Proof. by_run amo_runs (run_x32_atomic_store_eq rs1 rs2 rd rl aq s Hok). Qed.
Lemma new_x64_atomic_store_runs rd rs1 rs2 aq rl w :
  runs (new_x64_atomic_store rd rs1 rs2 aq rl w) (then_next w (sc_result i64 rs1 rs2 rd s)).
Proof. by_run amo_runs (run_x64_atomic_store_eq rs1 rs2 rd rl aq s Hok). Qed.

Lemma new_x32_atomic_swap_runs rd rs1 rs2 aq rl w :
  runs (new_x32_atomic_swap rd rs1 rs2 aq rl w)
    (then_next w (amo_result i32 rs1 rd (fun v => amo i32 SWAP v x[rs2]) s)).
Proof. by_run amo_runs (run_x32_atomic_swap_eq rs1 rs2 rd rl aq s Hok). Qed.
Lemma new_x64_atomic_swap_runs rd rs1 rs2 aq rl w :
  runs (new_x64_atomic_swap rd rs1 rs2 aq rl w)
    (then_next w (amo_result i64 rs1 rd (fun v => amo i64 SWAP v x[rs2]) s)).
Proof. by_run amo_runs (run_x64_atomic_swap_eq rs1 rs2 rd rl aq s Hok). Qed.
Lemma new_x64_atomic_add_runs rd rs1 rs2 aq rl w :
  runs (new_x64_atomic_add rd rs1 rs2 aq rl w)
    (then_next w (amo_result u64 rs1 rd (fun v => amo u64 AADD v x[rs2]) s)).
Proof. by_run amo_runs (run_x64_atomic_add_eq rs1 rs2 rd rl aq s Hok). Qed.
Lemma new_x64_atomic_min_signed_runs rd rs1 rs2 aq rl w :
  runs (new_x64_atomic_min_signed rd rs1 rs2 aq rl w)
    (then_next w (amo_result u64 rs1 rd (fun v => amo u64 AMIN v x[rs2]) s)).
Proof. by_run amo_runs (run_x64_atomic_min_signed_eq rs1 rs2 rd rl aq s Hok). Qed.
Lemma amoaddw_runs a :
  runs (mkInstruction OpCodes.Amoaddw (into_args a))
    (then_next Uncompressed
       (amo_result i32 (amo_rs1 a) (amo_rd a) (fun v => amo i32 AADD v x[amo_rs2 a]) s)).
Proof. by_run amo_runs (run_amoaddw_eq (amo_rs1 a) (amo_rs2 a) (amo_rd a) (amo_rl a) (amo_aq a) s Hok). Qed.
Lemma amoxorw_runs a :
  runs (mkInstruction OpCodes.Amoxorw (into_args a))
    (then_next Uncompressed
       (amo_result i32 (amo_rs1 a) (amo_rd a) (fun v => amo i32 AXOR v x[amo_rs2 a]) s)).
Proof. by_run amo_runs (run_amoxorw_eq (amo_rs1 a) (amo_rs2 a) (amo_rd a) (amo_rl a) (amo_aq a) s Hok). Qed.
Lemma amoandw_runs a :
  runs (mkInstruction OpCodes.Amoandw (into_args a))
    (then_next Uncompressed
       (amo_result i32 (amo_rs1 a) (amo_rd a) (fun v => amo i32 AAND v x[amo_rs2 a]) s)).
Proof. by_run amo_runs (run_amoandw_eq (amo_rs1 a) (amo_rs2 a) (amo_rd a) (amo_rl a) (amo_aq a) s Hok). Qed.
Lemma amoorw_runs a :
  runs (mkInstruction OpCodes.Amoorw (into_args a))
    (then_next Uncompressed
       (amo_result i32 (amo_rs1 a) (amo_rd a) (fun v => amo i32 AOR v x[amo_rs2 a]) s)).
Proof. by_run amo_runs (run_amoorw_eq (amo_rs1 a) (amo_rs2 a) (amo_rd a) (amo_rl a) (amo_aq a) s Hok). Qed.
Lemma amominw_runs a :
  runs (mkInstruction OpCodes.Amominw (into_args a))
    (then_next Uncompressed
       (amo_result i32 (amo_rs1 a) (amo_rd a) (fun v => amo i32 AMIN v x[amo_rs2 a]) s)).
Proof. by_run amo_runs (run_amominw_eq (amo_rs1 a) (amo_rs2 a) (amo_rd a) (amo_rl a) (amo_aq a) s Hok). Qed.
Lemma amomaxw_runs a :
  runs (mkInstruction OpCodes.Amomaxw (into_args a))
    (then_next Uncompressed
       (amo_result i32 (amo_rs1 a) (amo_rd a) (fun v => amo i32 AMAX v x[amo_rs2 a]) s)).
Proof. by_run amo_runs (run_amomaxw_eq (amo_rs1 a) (amo_rs2 a) (amo_rd a) (amo_rl a) (amo_aq a) s Hok). Qed.
Lemma amominuw_runs a :
  runs (mkInstruction OpCodes.Amominuw (into_args a))
    (then_next Uncompressed
       (amo_result i32 (amo_rs1 a) (amo_rd a) (fun v => amo i32 AMINU v x[amo_rs2 a]) s)).
Proof. by_run amo_runs (run_amominuw_eq (amo_rs1 a) (amo_rs2 a) (amo_rd a) (amo_rl a) (amo_aq a) s Hok). Qed.
Lemma amomaxuw_runs a :
  runs (mkInstruction OpCodes.Amomaxuw (into_args a))
    (then_next Uncompressed
       (amo_result i32 (amo_rs1 a) (amo_rd a) (fun v => amo i32 AMAXU v x[amo_rs2 a]) s)).
Proof. by_run amo_runs (run_amomaxuw_eq (amo_rs1 a) (amo_rs2 a) (amo_rd a) (amo_rl a) (amo_aq a) s Hok). Qed.
Lemma amoxord_runs a :
  runs (mkInstruction OpCodes.Amoxord (into_args a))
    (then_next Uncompressed
       (amo_result u64 (amo_rs1 a) (amo_rd a) (fun v => amo u64 AXOR v x[amo_rs2 a]) s)).
Proof. by_run amo_runs (run_amoxord_eq (amo_rs1 a) (amo_rs2 a) (amo_rd a) (amo_rl a) (amo_aq a) s Hok). Qed.
Lemma amoandd_runs a :
  runs (mkInstruction OpCodes.Amoandd (into_args a))
    (then_next Uncompressed
       (amo_result u64 (amo_rs1 a) (amo_rd a) (fun v => amo u64 AAND v x[amo_rs2 a]) s)).
Proof. by_run amo_runs (run_amoandd_eq (amo_rs1 a) (amo_rs2 a) (amo_rd a) (amo_rl a) (amo_aq a) s Hok). Qed.
Lemma amoord_runs a :
  runs (mkInstruction OpCodes.Amoord (into_args a))
    (then_next Uncompressed
       (amo_result u64 (amo_rs1 a) (amo_rd a) (fun v => amo u64 AOR v x[amo_rs2 a]) s)).
Proof. by_run amo_runs (run_amoord_eq (amo_rs1 a) (amo_rs2 a) (amo_rd a) (amo_rl a) (amo_aq a) s Hok). Qed.
Lemma amomaxd_runs a :
  runs (mkInstruction OpCodes.Amomaxd (into_args a))
    (then_next Uncompressed
       (amo_result u64 (amo_rs1 a) (amo_rd a) (fun v => amo u64 AMAX v x[amo_rs2 a]) s)).
Proof. by_run amo_runs (run_amomaxd_eq (amo_rs1 a) (amo_rs2 a) (amo_rd a) (amo_rl a) (amo_aq a) s Hok). Qed.
Lemma amominud_runs a :
  runs (mkInstruction OpCodes.Amominud (into_args a))
    (then_next Uncompressed
       (amo_result u64 (amo_rs1 a) (amo_rd a) (fun v => amo u64 AMINU v x[amo_rs2 a]) s)).
Proof. by_run amo_runs (run_amominud_eq (amo_rs1 a) (amo_rs2 a) (amo_rd a) (amo_rl a) (amo_aq a) s Hok). Qed.
Lemma amomaxud_runs a :
  runs (mkInstruction OpCodes.Amomaxud (into_args a))
    (then_next Uncompressed
       (amo_result u64 (amo_rs1 a) (amo_rd a) (fun v => amo u64 AMAXU v x[amo_rs2 a]) s)).
Proof. by_run amo_runs (run_amomaxud_eq (amo_rs1 a) (amo_rs2 a) (amo_rd a) (amo_rl a) (amo_aq a) s Hok). Qed.

(** ** Agreement with the reference semantics *)
Lemma agrees_refl j (out : Outcome * Core) : agrees j out out.
Proof. unfold agrees. auto. Qed.

Lemma sc_agrees V rd rs1 rs2 w :
  agrees (SC V rd rs1 rs2) (isa_exec (SC V rd rs1 rs2) w s) (then_next w (sc_result V rs1 rs2 rd s)).
Proof.
  unfold agrees, then_next, sc_result, isa_exec. destruct (aligned _ _); [|auto].
  destruct (_ =? _); [|auto]. destruct (store _ _ _ _); cbn; [auto|].
  split; [reflexivity|]. right. exists rd, 0, x[rs1]. repeat split; reflexivity || lia.
Qed.

Lemma amo_agrees V op rd rs1 rs2 w :
  agrees (AMO V op rd rs1 rs2) (isa_exec (AMO V op rd rs1 rs2) w s)
    (then_next w (amo_result V rs1 rd (fun v => amo V op v x[rs2]) s)).
Proof.
  unfold agrees, then_next, amo_result, isa_exec. destruct (aligned _ _); cbn; [|auto].
  destruct (load _ _ _) as [v|]; cbn; [|auto]. destruct (store _ _ _ _); cbn; [auto|].
  split; [reflexivity|]. right. exists rd, (wrap 64 v), x[rs1].
  repeat split; try reflexivity; apply wrap_range; lia.
Qed.

(** [i] runs, and as [j]. *)
Definition runs_as (i : InstrCacheable) (j : IsaInstr) : Prop :=
  exists run out, run_instr_cacheable i = Some run /\ run s = Some out /\
    agrees j (isa_exec j (cacheable_width i) s) out.

Lemma runs_agrees i j out : runs (instruction_of_cacheable i) out ->
  agrees j (isa_exec j (cacheable_width i) s) out -> runs_as i j.
Proof. intros (run & Hr & E) Ha. exists run, out. auto. Qed.

Lemma runs_exact i j out : runs (instruction_of_cacheable i) out ->
  out = isa_exec j (cacheable_width i) s -> runs_as i j.
Proof. intros Hr ->. exact (runs_agrees i j _ Hr (agrees_refl _ _)). Qed.

(** Running what the constructors build. *)
Local Ltac run_new :=
  match goal with
  | |- runs (new_add _ _ _ _) _ => apply new_add_runs; try assumption
  | |- runs (new_sub _ _ _ _) _ => apply new_sub_runs; try assumption
  | |- runs (new_and _ _ _ _) _ => apply new_and_runs; try assumption
  | |- runs (new_or _ _ _ _) _ => apply new_or_runs; try assumption
  | |- runs (new_x64_xor _ _ _ _) _ => apply new_x64_xor_runs; try assumption
  | |- runs (new_mul _ _ _ _) _ => apply new_mul_runs; try assumption
  | |- runs (new_shift_left _ _ _ _) _ => apply new_shift_left_runs; try assumption
  | |- runs (new_shift_right_unsigned _ _ _ _) _ => apply new_shift_right_unsigned_runs; try assumption
  | |- runs (new_shift_right_signed _ _ _ _) _ => apply new_shift_right_signed_runs; try assumption
  | |- runs (new_x64_mul_high_signed _ _ _ _) _ => apply new_x64_mul_high_signed_runs; try assumption
  | |- runs (new_x64_mul_high_signed_unsigned _ _ _ _) _ => apply new_x64_mul_high_signed_unsigned_runs; try assumption
  | |- runs (new_x64_mul_high_unsigned _ _ _ _) _ => apply new_x64_mul_high_unsigned_runs; try assumption
  | |- runs (new_add_word _ _ _ _) _ => apply new_add_word_runs; try assumption
  | |- runs (new_sub_word _ _ _ _) _ => apply new_sub_word_runs; try assumption
  | |- runs (new_x64_div_signed _ _ _ _) _ => apply new_x64_div_signed_runs; try assumption
  | |- runs (new_x64_div_unsigned _ _ _ _) _ => apply new_x64_div_unsigned_runs; try assumption
  | |- runs (new_x32_div_signed _ _ _ _) _ => apply new_x32_div_signed_runs; try assumption
  | |- runs (new_x32_div_unsigned _ _ _ _) _ => apply new_x32_div_unsigned_runs; try assumption
  | |- runs (new_x64_rem_signed _ _ _ _) _ => apply new_x64_rem_signed_runs; try assumption
  | |- runs (new_x64_rem_unsigned _ _ _ _) _ => apply new_x64_rem_unsigned_runs; try assumption
  | |- runs (new_x32_rem_signed _ _ _ _) _ => apply new_x32_rem_signed_runs; try assumption
  | |- runs (new_x32_rem_unsigned _ _ _ _) _ => apply new_x32_rem_unsigned_runs; try assumption
  | |- runs (new_set_less_than_signed _ _ _) _ => apply new_set_less_than_signed_runs; try assumption
  | |- runs (new_set_less_than_unsigned _ _ _) _ => apply new_set_less_than_unsigned_runs; try assumption
  | |- runs (new_x32_shift_left _ _ _ _) _ => apply new_x32_shift_left_runs; try assumption
  | |- runs (new_x32_shift_right_unsigned _ _ _ _) _ => apply new_x32_shift_right_unsigned_runs; try assumption
  | |- runs (new_x32_shift_right_signed _ _ _ _) _ => apply new_x32_shift_right_signed_runs; try assumption
  | |- runs (new_x32_mul _ _ _ _) _ => apply new_x32_mul_runs; try assumption
  | |- runs (new_addi _ _ _ _) _ => apply new_addi_runs; try assumption
  | |- runs (new_andi _ _ _ _) _ => apply new_andi_runs; try assumption
  | |- runs (new_x64_or_immediate _ _ _ _) _ => apply new_x64_or_immediate_runs; try assumption
  | |- runs (new_x64_xor_immediate _ _ _ _) _ => apply new_x64_xor_immediate_runs; try assumption
  | |- runs (new_add_word_immediate _ _ _ _) _ => apply new_add_word_immediate_runs; try assumption
  | |- runs (new_set_less_than_immediate_signed _ _ _) _ => apply new_set_less_than_immediate_signed_runs; try assumption
  | |- runs (new_set_less_than_immediate_unsigned _ _ _) _ => apply new_set_less_than_immediate_unsigned_runs; try assumption
  | |- runs (new_shift_left_immediate _ _ _ _) _ => apply new_shift_left_immediate_runs; try assumption
  | |- runs (new_shift_right_immediate_unsigned _ _ _ _) _ => apply new_shift_right_immediate_unsigned_runs; try assumption
  | |- runs (new_shift_right_immediate_signed _ _ _ _) _ => apply new_shift_right_immediate_signed_runs; try assumption
  | |- runs (new_x32_shift_left_immediate _ _ _ _) _ => apply new_x32_shift_left_immediate_runs; try assumption
  | |- runs (new_x32_shift_right_immediate_unsigned _ _ _ _) _ => apply new_x32_shift_right_immediate_unsigned_runs; try assumption
  | |- runs (new_x32_shift_right_immediate_signed _ _ _ _) _ => apply new_x32_shift_right_immediate_signed_runs; try assumption
  | |- runs (new_neg _ _ _) _ => apply new_neg_runs; try assumption
  | |- runs (new_mv _ _ _) _ => apply new_mv_runs; try assumption
  | |- runs (new_li _ _ _) _ => apply new_li_runs; try assumption
  | |- runs (new_add_immediate_to_pc _ _ _) _ => apply new_add_immediate_to_pc_runs; try assumption
  | |- runs (new_nop _) _ => apply new_nop_runs; try assumption
  | |- runs (new_unknown _) _ => apply new_unknown_runs; try assumption
  | |- runs (new_j _ _) _ => apply new_j_runs; try assumption
  | |- runs (new_j_absolute _ _) _ => apply new_j_absolute_runs; try assumption
  | |- runs (new_jr _ _) _ => apply new_jr_runs; try assumption
  | |- runs (new_jr_imm _ _ _) _ => apply new_jr_imm_runs; try assumption
  | |- runs (new_jal _ _ _) _ => apply new_jal_runs; try assumption
  | |- runs (new_jalr _ _ _) _ => apply new_jalr_runs; try assumption
  | |- runs (new_jalr_imm _ _ _ _) _ => apply new_jalr_imm_runs; try assumption
  | |- runs (new_jalr_absolute _ _ _) _ => apply new_jalr_absolute_runs; try assumption
  | |- runs (new_branch_equal _ _ _ _) _ => apply new_branch_equal_runs; try assumption
  | |- runs (new_branch_not_equal _ _ _ _) _ => apply new_branch_not_equal_runs; try assumption
  | |- runs (new_branch_less_than_signed _ _ _ _) _ => apply new_branch_less_than_signed_runs; try assumption
  | |- runs (new_branch_less_than_unsigned _ _ _ _) _ => apply new_branch_less_than_unsigned_runs; try assumption
  | |- runs (new_branch_greater_than_or_equal_signed _ _ _ _) _ => apply new_branch_greater_than_or_equal_signed_runs; try assumption
  | |- runs (new_branch_greater_than_or_equal_unsigned _ _ _ _) _ => apply new_branch_greater_than_or_equal_unsigned_runs; try assumption
  | |- runs (new_branch_equal_zero _ _ _) _ => apply new_branch_equal_zero_runs; try assumption
  | |- runs (new_branch_not_equal_zero _ _ _) _ => apply new_branch_not_equal_zero_runs; try assumption
  | |- runs (new_branch_less_than_zero _ _ _) _ => apply new_branch_less_than_zero_runs; try assumption
  | |- runs (new_branch_greater_than_or_equal_zero _ _ _) _ => apply new_branch_greater_than_or_equal_zero_runs; try assumption
  | |- runs (new_branch_less_than_or_equal_zero _ _ _) _ => apply new_branch_less_than_or_equal_zero_runs; try assumption
  | |- runs (new_branch_greater_than_zero _ _ _) _ => apply new_branch_greater_than_zero_runs; try assumption
  | |- runs (new_x8_load_signed _ _ _ _) _ => apply new_x8_load_signed_runs; try assumption
  | |- runs (new_x16_load_signed _ _ _ _) _ => apply new_x16_load_signed_runs; try assumption
  | |- runs (new_x32_load_signed _ _ _ _) _ => apply new_x32_load_signed_runs; try assumption
  | |- runs (new_x64_load_signed _ _ _ _) _ => apply new_x64_load_signed_runs; try assumption
  | |- runs (new_x8_load_unsigned _ _ _ _) _ => apply new_x8_load_unsigned_runs; try assumption
  | |- runs (new_x16_load_unsigned _ _ _ _) _ => apply new_x16_load_unsigned_runs; try assumption
  | |- runs (new_x32_load_unsigned _ _ _ _) _ => apply new_x32_load_unsigned_runs; try assumption
  | |- runs (new_x8_store _ _ _ _) _ => apply new_x8_store_runs; try assumption
  | |- runs (new_x16_store _ _ _ _) _ => apply new_x16_store_runs; try assumption
  | |- runs (new_x32_store _ _ _ _) _ => apply new_x32_store_runs; try assumption
  | |- runs (new_x64_store _ _ _ _) _ => apply new_x64_store_runs; try assumption
  | |- runs (new_x32_atomic_load _ _ _ _ _) _ => apply new_x32_atomic_load_runs; try assumption
  | |- runs (new_x64_atomic_load _ _ _ _ _) _ => apply new_x64_atomic_load_runs; try assumption
  | |- runs (new_x32_atomic_store _ _ _ _ _ _) _ => apply new_x32_atomic_store_runs; try assumption
  | |- runs (new_x64_atomic_store _ _ _ _ _ _) _ => apply new_x64_atomic_store_runs; try assumption
  | |- runs (new_x32_atomic_swap _ _ _ _ _ _) _ => apply new_x32_atomic_swap_runs; try assumption
  | |- runs (new_x64_atomic_swap _ _ _ _ _ _) _ => apply new_x64_atomic_swap_runs; try assumption
  | |- runs (new_x64_atomic_add _ _ _ _ _ _) _ => apply new_x64_atomic_add_runs; try assumption
  | |- runs (new_x64_atomic_min_signed _ _ _ _ _ _) _ => apply new_x64_atomic_min_signed_runs; try assumption
  | |- runs (mkInstruction OpCodes.Amoaddw _) _ => apply amoaddw_runs; try assumption
  | |- runs (mkInstruction OpCodes.Amoxorw _) _ => apply amoxorw_runs; try assumption
  | |- runs (mkInstruction OpCodes.Amoandw _) _ => apply amoandw_runs; try assumption
  | |- runs (mkInstruction OpCodes.Amoorw _) _ => apply amoorw_runs; try assumption
  | |- runs (mkInstruction OpCodes.Amominw _) _ => apply amominw_runs; try assumption
  | |- runs (mkInstruction OpCodes.Amomaxw _) _ => apply amomaxw_runs; try assumption
  | |- runs (mkInstruction OpCodes.Amominuw _) _ => apply amominuw_runs; try assumption
  | |- runs (mkInstruction OpCodes.Amomaxuw _) _ => apply amomaxuw_runs; try assumption
  | |- runs (mkInstruction OpCodes.Amoxord _) _ => apply amoxord_runs; try assumption
  | |- runs (mkInstruction OpCodes.Amoandd _) _ => apply amoandd_runs; try assumption
  | |- runs (mkInstruction OpCodes.Amoord _) _ => apply amoord_runs; try assumption
  | |- runs (mkInstruction OpCodes.Amomaxd _) _ => apply amomaxd_runs; try assumption
  | |- runs (mkInstruction OpCodes.Amominud _) _ => apply amominud_runs; try assumption
  | |- runs (mkInstruction OpCodes.Amomaxud _) _ => apply amomaxud_runs; try assumption
  | |- runs new_ecall _ => apply new_ecall_runs
  end.

Local Ltac in_range :=
  first [ apply getx_range; exact Hok | apply wrap_range; lia | unfold urange; lia ].

Local Ltac zeros :=
  rewrite ?getx_x0, ?setx_x0; change (wrap 64 0) with 0;
  try (rewrite alu_zero_l by in_range); try (rewrite alu_zero_r by in_range); cbv iota.

(** Compares boolean comparisons by cases. *)
Local Ltac compares :=
  repeat match goal with
  | |- context [?a =? ?b] => destruct (Z.eqb_spec a b)
  | |- context [?a <? ?b] => destruct (Z.ltb_spec a b)
  | |- context [?a <=? ?b] => destruct (Z.leb_spec a b)
  end; cbn [negb]; try reflexivity; try lia; try congruence.

Local Ltac ranges :=
  repeat match goal with
  | |- context [getx ?r s] =>
      lazymatch goal with
      | R : 0 <= getx r s < _ |- _ => fail
      | _ => let R := fresh in pose proof (getx_range s r Hok : 0 <= getx r s < 2 ^ 64) as R
      end
  end.

(** Runs an instruction through its specialisation, case by case on its
    registers, and compares the outcome with the reference. *)
Lemma runs_start i j :
  (exists out, runs (instruction_of_cacheable i) out /\
     agrees j (isa_exec j (cacheable_width i) s) out) -> runs_as i j.
Proof. intros (out & Hr & Ha). exact (runs_agrees i j out Hr Ha). Qed.

Local Ltac specialise :=
  apply runs_start; cbn [instruction_of_cacheable cacheable_width];
  unfold from_ic_add, from_ic_caddw, from_ic_sub, from_ic_csub, from_ic_csubw, from_ic_addi,
    from_ic_caddi4spn, from_ic_andi, from_ic_candi, from_ic_ori, from_ic_xori, from_ic_slli,
    from_ic_srli, from_ic_csrli, from_ic_srai, from_ic_csrai, from_ic_x32_shift_left_immediate,
    from_ic_x32_shift_right_immediate_unsigned, from_ic_x32_shift_right_immediate_signed,
    from_ic_and, from_ic_cand, from_ic_or, from_ic_cor, from_ic_xor, from_ic_cxor, from_ic_sll,
    from_ic_srl, from_ic_sra, from_ic_jal, from_ic_beq, from_ic_cbeqz, from_ic_bne,
    from_ic_cbnez, from_ic_jalr, from_ic_blt, from_ic_bge, from_ic_bltu, from_ic_bgeu,
    from_ic_mul, from_ic_mulh, from_ic_mulhsu, from_ic_mulhu, from_ic_div, from_ic_divu,
    from_ic_divw, from_ic_divuw, from_ic_rem, from_ic_remu, from_ic_remw, from_ic_remuw;
  unfold nzr_, nzri_, r_, cr_, cib_, cibnz_, load_, store_, branch_, amo_, parsed_reg;
  cbn [r_rd r_rs1 r_rs2 nzr_rd nzr_rs1 nzr_rs2 it_rd it_rs1 it_imm nzi_rd nzi_rs1 nzi_imm si_rd
    si_rs1 si_imm nzri_rd nzri_rs1 nzri_imm sb_rs1 sb_rs2 sb_imm nzsb_rs1 nzsb_rs2 nzsb_imm
    uj_rd uj_imm nzuj_rd nzuj_imm amo_rd amo_rs1 amo_rs2 amo_aq amo_rl cr_rd_rs1 cr_rs2
    cnzr_rd_rs1 cnzr_rs2 crj_rs1 cjt_imm cib_rd_rs1 cib_imm cibnz_rd_rs1 cibnz_imm css_rs2
    css_imm];
  split_regs; try case_decide; subst; eexists; (split; [run_new|]).

Local Ltac evaluate :=
  cbn [isa_exec]; unfold wrote, jumped, branched, taken, then_next, load_result, store_result,
    lr_result, link, condition, uint_compare; zeros;
  rewrite ?Z.add_0_l; try (rewrite Z.add_0_r, wrap_small by in_range).

Local Ltac implements :=
  specialise; first
    [ apply sc_agrees | apply amo_agrees
    | match goal with |- agrees ?j ?spec ?out => replace out with spec; [apply agrees_refl|] end;
      evaluate; rewrite ?setx_getx by exact Hok; try reflexivity;
      try solve [repeat case_match; reflexivity] ].

Lemma Add_implements a : runs_as (Instrs.Add a) (nzr_ ADD a).
Proof. destruct a. implements. Qed.
Lemma Sub_implements a : runs_as (Instrs.Sub a) (nzr_ SUB a).
Proof. destruct a. implements. Qed.
Lemma Xor_implements a : runs_as (Instrs.Xor a) (nzr_ XOR a).
Proof. destruct a. implements. Qed.
Lemma Or_implements a : runs_as (Instrs.Or a) (nzr_ OR a).
Proof. destruct a. implements. Qed.
Lemma And_implements a : runs_as (Instrs.And a) (nzr_ AND a).
Proof. destruct a. implements. Qed.
Lemma Sll_implements a : runs_as (Instrs.Sll a) (nzr_ SLL a).
Proof. destruct a. implements. Qed.
Lemma Srl_implements a : runs_as (Instrs.Srl a) (nzr_ SRL a).
Proof. destruct a. implements. Qed.
Lemma Sra_implements a : runs_as (Instrs.Sra a) (nzr_ SRA a).
Proof. destruct a. implements. Qed.
Lemma Slt_implements a : runs_as (Instrs.Slt a) (nzr_ SLT a).
Proof. destruct a. implements. Qed.
Lemma Sltu_implements a : runs_as (Instrs.Sltu a) (nzr_ SLTU a).
Proof. destruct a. implements. Qed.
Lemma Addw_implements a : runs_as (Instrs.Addw a) (nzr_ ADDW a).
Proof. destruct a. implements. Qed.
Lemma Subw_implements a : runs_as (Instrs.Subw a) (nzr_ SUBW a).
Proof. destruct a. implements. Qed.
Lemma Sllw_implements a : runs_as (Instrs.Sllw a) (nzr_ SLLW a).
Proof. destruct a. implements. Qed.
Lemma Srlw_implements a : runs_as (Instrs.Srlw a) (nzr_ SRLW a).
Proof. destruct a. implements. Qed.
Lemma Sraw_implements a : runs_as (Instrs.Sraw a) (nzr_ SRAW a).
Proof. destruct a. implements. Qed.
Lemma Addi_implements a : runs_as (Instrs.Addi a) (OP_IMM ADD (parsed_reg (si_rd a)) (parsed_reg (si_rs1 a)) (si_imm a)).
Proof. destruct a as [ [|rd] [|rs1] imm]; implements. Qed.
Lemma Addiw_implements a : runs_as (Instrs.Addiw a) (nzri_ ADDW a).
Proof. destruct a. implements. Qed.
Lemma Xori_implements a : runs_as (Instrs.Xori a) (nzri_ XOR a).
Proof. destruct a. implements. Qed.
Lemma Ori_implements a : runs_as (Instrs.Ori a) (nzri_ OR a).
Proof. destruct a. implements. Qed.
Lemma Andi_implements a : runs_as (Instrs.Andi a) (nzri_ AND a).
Proof. destruct a. implements. Qed.
Lemma Slli_implements a : runnable (Instrs.Slli a) = true -> runs_as (Instrs.Slli a) (nzri_ SLL a).
Proof. destruct a. cbn. intros. implements. Qed.
Lemma Srli_implements a : runnable (Instrs.Srli a) = true -> runs_as (Instrs.Srli a) (nzri_ SRL a).
Proof. destruct a. cbn. intros. implements. Qed.
Lemma Srai_implements a : runnable (Instrs.Srai a) = true -> runs_as (Instrs.Srai a) (nzri_ SRA a).
Proof. destruct a. cbn. intros. implements. Qed.
Lemma Slliw_implements a : runs_as (Instrs.Slliw a) (nzri_ SLLW a).
Proof. destruct a. implements. Qed.
Lemma Srliw_implements a : runs_as (Instrs.Srliw a) (nzri_ SRLW a).
Proof. destruct a. implements. Qed.
Lemma Sraiw_implements a : runs_as (Instrs.Sraiw a) (nzri_ SRAW a).
Proof. destruct a. implements. Qed.
Lemma Slti_implements a : runs_as (Instrs.Slti a) (nzri_ SLT a).
Proof. destruct a. implements. Qed.
Lemma Sltiu_implements a : runs_as (Instrs.Sltiu a) (nzri_ SLTU a).
Proof. destruct a. implements. Qed.
Lemma Lb_implements a : runs_as (Instrs.Lb a) (load_ i8 a).
Proof. destruct a. implements. Qed.
Lemma Lh_implements a : runs_as (Instrs.Lh a) (load_ i16 a).
Proof. destruct a. implements. Qed.
Lemma Lw_implements a : runs_as (Instrs.Lw a) (load_ i32 a).
Proof. destruct a. implements. Qed.
Lemma Lbu_implements a : runs_as (Instrs.Lbu a) (load_ u8 a).
Proof. destruct a. implements. Qed.
Lemma Lhu_implements a : runs_as (Instrs.Lhu a) (load_ u16 a).
Proof. destruct a. implements. Qed.
Lemma Lwu_implements a : runs_as (Instrs.Lwu a) (load_ u32 a).
Proof. destruct a. implements. Qed.
Lemma Ld_implements a : runs_as (Instrs.Ld a) (load_ i64 a).
Proof. destruct a. implements. Qed.
Lemma Sb_implements a : runs_as (Instrs.Sb a) (store_ u8 a).
Proof. destruct a. implements. Qed.
Lemma Sh_implements a : runs_as (Instrs.Sh a) (store_ u16 a).
Proof. destruct a. implements. Qed.
Lemma Sw_implements a : runs_as (Instrs.Sw a) (store_ u32 a).
Proof. destruct a. implements. Qed.
Lemma Sd_implements a : runs_as (Instrs.Sd a) (store_ u64 a).
Proof. destruct a. implements. Qed.
Lemma Beq_implements a : runs_as (Instrs.Beq a) (branch_ BEQ a).
Proof. destruct a. implements; ranges; compares. Qed.
Lemma Bne_implements a : runs_as (Instrs.Bne a) (branch_ BNE a).
Proof. destruct a. implements; ranges; compares. Qed.
Lemma Blt_implements a : runs_as (Instrs.Blt a) (branch_ BLT a).
Proof. destruct a. implements; ranges; compares. Qed.
Lemma Bge_implements a : runs_as (Instrs.Bge a) (branch_ BGE a).
Proof. destruct a. implements; ranges; compares. Qed.
Lemma Bltu_implements a : runs_as (Instrs.Bltu a) (branch_ BLTU a).
Proof. destruct a. implements; ranges; compares. Qed.
Lemma Bgeu_implements a : runs_as (Instrs.Bgeu a) (branch_ BGEU a).
Proof. destruct a. implements; ranges; compares. Qed.
Lemma Lui_implements a : runs_as (Instrs.Lui a) (LUI (xreg_of_nz (nzuj_rd a)) (nzuj_imm a)).
Proof. destruct a. implements. Qed.
Lemma Auipc_implements a : runs_as (Instrs.Auipc a) (AUIPC (xreg_of_nz (nzuj_rd a)) (nzuj_imm a)).
Proof. destruct a. implements. Qed.
Lemma Jal_implements a : runs_as (Instrs.Jal a) (JAL (uj_rd a) (uj_imm a)).
Proof. destruct a. implements. Qed.
Lemma Jalr_implements a : runs_as (Instrs.Jalr a) (JALR (it_rd a) (it_rs1 a) (it_imm a)).
Proof. destruct a as [? ? imm]. destruct imm; implements. Qed.
Lemma Lrw_implements a : runs_as (Instrs.Lrw a) (LR i32 (amo_rd a) (amo_rs1 a)).
Proof. destruct a. implements. Qed.
Lemma Scw_implements a : runs_as (Instrs.Scw a) (SC i32 (amo_rd a) (amo_rs1 a) (amo_rs2 a)).
Proof. destruct a. implements. Qed.
Lemma Amoswapw_implements a : runs_as (Instrs.Amoswapw a) (amo_ i32 SWAP a).
Proof. destruct a. implements. Qed.
Lemma Amoaddw_implements a : runs_as (Instrs.Amoaddw a) (amo_ i32 AADD a).
Proof. destruct a. implements. Qed.
Lemma Amoxorw_implements a : runs_as (Instrs.Amoxorw a) (amo_ i32 AXOR a).
Proof. destruct a. implements. Qed.
Lemma Amoandw_implements a : runs_as (Instrs.Amoandw a) (amo_ i32 AAND a).
Proof. destruct a. implements. Qed.
Lemma Amoorw_implements a : runs_as (Instrs.Amoorw a) (amo_ i32 AOR a).
Proof. destruct a. implements. Qed.
Lemma Amominw_implements a : runs_as (Instrs.Amominw a) (amo_ i32 AMIN a).
Proof. destruct a. implements. Qed.
Lemma Amomaxw_implements a : runs_as (Instrs.Amomaxw a) (amo_ i32 AMAX a).
Proof. destruct a. implements. Qed.
Lemma Amominuw_implements a : runs_as (Instrs.Amominuw a) (amo_ i32 AMINU a).
Proof. destruct a. implements. Qed.
Lemma Amomaxuw_implements a : runs_as (Instrs.Amomaxuw a) (amo_ i32 AMAXU a).
Proof. destruct a. implements. Qed.
Lemma Lrd_implements a : runs_as (Instrs.Lrd a) (LR i64 (amo_rd a) (amo_rs1 a)).
Proof. destruct a. implements. Qed.
Lemma Scd_implements a : runs_as (Instrs.Scd a) (SC i64 (amo_rd a) (amo_rs1 a) (amo_rs2 a)).
Proof. destruct a. implements. Qed.
Lemma Amoswapd_implements a : runs_as (Instrs.Amoswapd a) (amo_ i64 SWAP a).
Proof. destruct a. implements. Qed.
Lemma Amoaddd_implements a : runs_as (Instrs.Amoaddd a) (amo_ u64 AADD a).
Proof. destruct a. implements. Qed.
Lemma Amoxord_implements a : runs_as (Instrs.Amoxord a) (amo_ u64 AXOR a).
Proof. destruct a. implements. Qed.
Lemma Amoandd_implements a : runs_as (Instrs.Amoandd a) (amo_ u64 AAND a).
Proof. destruct a. implements. Qed.
Lemma Amoord_implements a : runs_as (Instrs.Amoord a) (amo_ u64 AOR a).
Proof. destruct a. implements. Qed.
Lemma Amomind_implements a : runs_as (Instrs.Amomind a) (amo_ u64 AMIN a).
Proof. destruct a. implements. Qed.
Lemma Amomaxd_implements a : runs_as (Instrs.Amomaxd a) (amo_ u64 AMAX a).
Proof. destruct a. implements. Qed.
Lemma Amominud_implements a : runs_as (Instrs.Amominud a) (amo_ u64 AMINU a).
Proof. destruct a. implements. Qed.
Lemma Amomaxud_implements a : runs_as (Instrs.Amomaxud a) (amo_ u64 AMAXU a).
Proof. destruct a. implements. Qed.
Lemma Rem_implements a : runs_as (Instrs.Rem a) (r_ REM a).
Proof. destruct a. implements. Qed.
Lemma Remu_implements a : runs_as (Instrs.Remu a) (r_ REMU a).
Proof. destruct a. implements. Qed.
Lemma Remw_implements a : runs_as (Instrs.Remw a) (r_ REMW a).
Proof. destruct a. implements. Qed.
Lemma Remuw_implements a : runs_as (Instrs.Remuw a) (r_ REMUW a).
Proof. destruct a. implements. Qed.
Lemma Div_implements a : runs_as (Instrs.Div a) (r_ DIV a).
Proof. destruct a. implements. Qed.
Lemma Divu_implements a : runs_as (Instrs.Divu a) (r_ DIVU a).
Proof. destruct a. implements. Qed.
Lemma Divw_implements a : runs_as (Instrs.Divw a) (r_ DIVW a).
Proof. destruct a. implements. Qed.
Lemma Divuw_implements a : runs_as (Instrs.Divuw a) (r_ DIVUW a).
Proof. destruct a. implements. Qed.
Lemma Mul_implements a : runs_as (Instrs.Mul a) (r_ MUL a).
Proof. destruct a. implements. Qed.
Lemma Mulh_implements a : runs_as (Instrs.Mulh a) (r_ MULH a).
Proof. destruct a. implements. Qed.
Lemma Mulhsu_implements a : runs_as (Instrs.Mulhsu a) (r_ MULHSU a).
Proof. destruct a. implements. Qed.
Lemma Mulhu_implements a : runs_as (Instrs.Mulhu a) (r_ MULHU a).
Proof. destruct a. implements. Qed.
Lemma Mulw_implements a : runnable (Instrs.Mulw a) = true -> runs_as (Instrs.Mulw a) (r_ MULW a).
Proof.
  destruct a as [rd rs1 rs2]. intros Hrd. cbn in Hrd. pose proof (split_x0_inv rd) as E.
  destruct (split_x0 rd); subst rd; [discriminate | implements].
Qed.
Lemma CLw_implements a : runs_as (Instrs.CLw a) (LOAD i32 (xreg_of_nz (nzi_rd a)) (xreg_of_nz (nzi_rs1 a)) (nzi_imm a)).
Proof. destruct a. implements. Qed.
Lemma CLwsp_implements a : runs_as (Instrs.CLwsp a) (LOAD i32 (xreg_of_nz (cibnz_rd_rs1 a)) x2 (cibnz_imm a)).
Proof. destruct a. implements. Qed.
Lemma CSw_implements a : runs_as (Instrs.CSw a) (STORE u32 (xreg_of_nz (nzsb_rs1 a)) (xreg_of_nz (nzsb_rs2 a)) (nzsb_imm a)).
Proof. destruct a. implements. Qed.
Lemma CSwsp_implements a : runs_as (Instrs.CSwsp a) (STORE u32 x2 (css_rs2 a) (css_imm a)).
Proof. destruct a. implements. Qed.
Lemma CLd_implements a : runs_as (Instrs.CLd a) (LOAD i64 (xreg_of_nz (nzi_rd a)) (xreg_of_nz (nzi_rs1 a)) (nzi_imm a)).
Proof. destruct a. implements. Qed.
Lemma CLdsp_implements a : runs_as (Instrs.CLdsp a) (LOAD i64 (xreg_of_nz (cibnz_rd_rs1 a)) x2 (cibnz_imm a)).
Proof. destruct a. implements. Qed.
Lemma CSd_implements a : runs_as (Instrs.CSd a) (STORE u64 (xreg_of_nz (nzsb_rs1 a)) (xreg_of_nz (nzsb_rs2 a)) (nzsb_imm a)).
Proof. destruct a. implements. Qed.
Lemma CSdsp_implements a : runs_as (Instrs.CSdsp a) (STORE u64 x2 (css_rs2 a) (css_imm a)).
Proof. destruct a. implements. Qed.
Lemma CJ_implements a : runs_as (Instrs.CJ a) (JAL x0 (cjt_imm a)).
Proof. destruct a. implements. Qed.
Lemma CJr_implements a : runs_as (Instrs.CJr a) (JALR x0 (xreg_of_nz (crj_rs1 a)) 0).
Proof. destruct a. implements. Qed.
Lemma CJalr_implements a : runs_as (Instrs.CJalr a) (JALR x1 (xreg_of_nz (crj_rs1 a)) 0).
Proof. destruct a. implements. Qed.
Lemma CBeqz_implements a : runs_as (Instrs.CBeqz a) (BRANCH BEQ (cib_rd_rs1 a) x0 (cib_imm a)).
Proof. destruct a. implements; ranges; compares. Qed.
Lemma CBnez_implements a : runs_as (Instrs.CBnez a) (BRANCH BNE (cib_rd_rs1 a) x0 (cib_imm a)).
Proof. destruct a. implements; ranges; compares. Qed.
Lemma CLi_implements a : runs_as (Instrs.CLi a) (OP_IMM ADD (xreg_of_nz (cibnz_rd_rs1 a)) x0 (cibnz_imm a)).
Proof. destruct a. implements. Qed.
Lemma CLui_implements a : runs_as (Instrs.CLui a) (LUI (xreg_of_nz (cibnz_rd_rs1 a)) (cibnz_imm a)).
Proof. destruct a. implements. Qed.
Lemma CAddi_implements a : runs_as (Instrs.CAddi a) (cibnz_ ADD a).
Proof. destruct a. implements. Qed.
Lemma CAddi16sp_implements a : runs_as (Instrs.CAddi16sp a) (OP_IMM ADD x2 x2 (cjt_imm a)).
Proof. destruct a. implements. Qed.
Lemma CAddi4spn_implements a : runs_as (Instrs.CAddi4spn a) (OP_IMM ADD (cib_rd_rs1 a) x2 (cib_imm a)).
Proof. destruct a. implements. Qed.
Lemma CSlli_implements a : runnable (Instrs.CSlli a) = true -> runs_as (Instrs.CSlli a) (cibnz_ SLL a).
Proof. destruct a. cbn. intros. implements. Qed.
Lemma CSrli_implements a : runnable (Instrs.CSrli a) = true -> runs_as (Instrs.CSrli a) (cib_ SRL a).
Proof. destruct a. cbn. intros. implements. Qed.
Lemma CSrai_implements a : runnable (Instrs.CSrai a) = true -> runs_as (Instrs.CSrai a) (cib_ SRA a).
Proof. destruct a. cbn. intros. implements. Qed.
Lemma CAndi_implements a : runs_as (Instrs.CAndi a) (cib_ AND a).
Proof. destruct a. implements. Qed.
Lemma CMv_implements a : runs_as (Instrs.CMv a) (OP ADD (xreg_of_nz (cnzr_rd_rs1 a)) x0 (xreg_of_nz (cnzr_rs2 a))).
Proof. destruct a. implements. Qed.
Lemma CAdd_implements a : runs_as (Instrs.CAdd a) (OP ADD (xreg_of_nz (cnzr_rd_rs1 a)) (xreg_of_nz (cnzr_rd_rs1 a)) (xreg_of_nz (cnzr_rs2 a))).
Proof. destruct a. implements. Qed.
Lemma CAnd_implements a : runs_as (Instrs.CAnd a) (cr_ AND a).
Proof. destruct a. implements. Qed.
Lemma COr_implements a : runs_as (Instrs.COr a) (cr_ OR a).
Proof. destruct a. implements. Qed.
Lemma CXor_implements a : runs_as (Instrs.CXor a) (cr_ XOR a).
Proof. destruct a. implements. Qed.
Lemma CSub_implements a : runs_as (Instrs.CSub a) (cr_ SUB a).
Proof. destruct a. implements. Qed.
Lemma CAddw_implements a : runs_as (Instrs.CAddw a) (cr_ ADDW a).
Proof. destruct a. implements. Qed.
Lemma CSubw_implements a : runs_as (Instrs.CSubw a) (cr_ SUBW a).
Proof. destruct a. implements. Qed.
Lemma CAddiw_implements a : runs_as (Instrs.CAddiw a) (cibnz_ ADDW a).
Proof. destruct a. implements. Qed.

Lemma CNop_implements : runs_as Instrs.CNop NOP.
Proof. implements. Qed.
Lemma Hint_implements v : runs_as (Instrs.Hint v) NOP.
Proof. implements. Qed.
Lemma HintCompressed_implements v : runs_as (Instrs.HintCompressed v) NOP.
Proof. implements. Qed.
Lemma Wfi_implements : runs_as Instrs.Wfi NOP.
Proof. implements. Qed.
Lemma Ecall_implements : runs_as Instrs.Ecall ECALL.
Proof. implements. Qed.
Lemma Unknown_implements v : runs_as (Instrs.Unknown v) ILLEGAL.
Proof. implements. Qed.
Lemma UnknownCompressed_implements v : runs_as (Instrs.UnknownCompressed v) ILLEGAL.
Proof. implements. Qed.

(** Every read-modify-write instruction, whatever its outcome. *)
Lemma amo_instr_runs i V op rd rs1 rs2 : isa_of i = Some (AMO V op rd rs1 rs2) ->
  runs (instruction_of_cacheable i)
    (then_next Uncompressed (amo_result V rs1 rd (fun v => amo V op v x[rs2]) s)).
Proof.
  intros E. destruct i; try discriminate E; injection E as <- <- <- <- <-; cbn [instruction_of_cacheable]; run_new.
Qed.

Local Ltac implemented :=
  match goal with
  | |- runs_as (Instrs.Add _) _ => apply Add_implements
  | |- runs_as (Instrs.Sub _) _ => apply Sub_implements
  | |- runs_as (Instrs.Xor _) _ => apply Xor_implements
  | |- runs_as (Instrs.Or _) _ => apply Or_implements
  | |- runs_as (Instrs.And _) _ => apply And_implements
  | |- runs_as (Instrs.Sll _) _ => apply Sll_implements
  | |- runs_as (Instrs.Srl _) _ => apply Srl_implements
  | |- runs_as (Instrs.Sra _) _ => apply Sra_implements
  | |- runs_as (Instrs.Slt _) _ => apply Slt_implements
  | |- runs_as (Instrs.Sltu _) _ => apply Sltu_implements
  | |- runs_as (Instrs.Addw _) _ => apply Addw_implements
  | |- runs_as (Instrs.Subw _) _ => apply Subw_implements
  | |- runs_as (Instrs.Sllw _) _ => apply Sllw_implements
  | |- runs_as (Instrs.Srlw _) _ => apply Srlw_implements
  | |- runs_as (Instrs.Sraw _) _ => apply Sraw_implements
  | |- runs_as (Instrs.Addi _) _ => apply Addi_implements
  | |- runs_as (Instrs.Addiw _) _ => apply Addiw_implements
  | |- runs_as (Instrs.Xori _) _ => apply Xori_implements
  | |- runs_as (Instrs.Ori _) _ => apply Ori_implements
  | |- runs_as (Instrs.Andi _) _ => apply Andi_implements
  | |- runs_as (Instrs.Slli _) _ => apply Slli_implements
  | |- runs_as (Instrs.Srli _) _ => apply Srli_implements
  | |- runs_as (Instrs.Srai _) _ => apply Srai_implements
  | |- runs_as (Instrs.Slliw _) _ => apply Slliw_implements
  | |- runs_as (Instrs.Srliw _) _ => apply Srliw_implements
  | |- runs_as (Instrs.Sraiw _) _ => apply Sraiw_implements
  | |- runs_as (Instrs.Slti _) _ => apply Slti_implements
  | |- runs_as (Instrs.Sltiu _) _ => apply Sltiu_implements
  | |- runs_as (Instrs.Lb _) _ => apply Lb_implements
  | |- runs_as (Instrs.Lh _) _ => apply Lh_implements
  | |- runs_as (Instrs.Lw _) _ => apply Lw_implements
  | |- runs_as (Instrs.Lbu _) _ => apply Lbu_implements
  | |- runs_as (Instrs.Lhu _) _ => apply Lhu_implements
  | |- runs_as (Instrs.Lwu _) _ => apply Lwu_implements
  | |- runs_as (Instrs.Ld _) _ => apply Ld_implements
  | |- runs_as (Instrs.Sb _) _ => apply Sb_implements
  | |- runs_as (Instrs.Sh _) _ => apply Sh_implements
  | |- runs_as (Instrs.Sw _) _ => apply Sw_implements
  | |- runs_as (Instrs.Sd _) _ => apply Sd_implements
  | |- runs_as (Instrs.Beq _) _ => apply Beq_implements
  | |- runs_as (Instrs.Bne _) _ => apply Bne_implements
  | |- runs_as (Instrs.Blt _) _ => apply Blt_implements
  | |- runs_as (Instrs.Bge _) _ => apply Bge_implements
  | |- runs_as (Instrs.Bltu _) _ => apply Bltu_implements
  | |- runs_as (Instrs.Bgeu _) _ => apply Bgeu_implements
  | |- runs_as (Instrs.Lui _) _ => apply Lui_implements
  | |- runs_as (Instrs.Auipc _) _ => apply Auipc_implements
  | |- runs_as (Instrs.Jal _) _ => apply Jal_implements
  | |- runs_as (Instrs.Jalr _) _ => apply Jalr_implements
  | |- runs_as (Instrs.Lrw _) _ => apply Lrw_implements
  | |- runs_as (Instrs.Scw _) _ => apply Scw_implements
  | |- runs_as (Instrs.Amoswapw _) _ => apply Amoswapw_implements
  | |- runs_as (Instrs.Amoaddw _) _ => apply Amoaddw_implements
  | |- runs_as (Instrs.Amoxorw _) _ => apply Amoxorw_implements
  | |- runs_as (Instrs.Amoandw _) _ => apply Amoandw_implements
  | |- runs_as (Instrs.Amoorw _) _ => apply Amoorw_implements
  | |- runs_as (Instrs.Amominw _) _ => apply Amominw_implements
  | |- runs_as (Instrs.Amomaxw _) _ => apply Amomaxw_implements
  | |- runs_as (Instrs.Amominuw _) _ => apply Amominuw_implements
  | |- runs_as (Instrs.Amomaxuw _) _ => apply Amomaxuw_implements
  | |- runs_as (Instrs.Lrd _) _ => apply Lrd_implements
  | |- runs_as (Instrs.Scd _) _ => apply Scd_implements
  | |- runs_as (Instrs.Amoswapd _) _ => apply Amoswapd_implements
  | |- runs_as (Instrs.Amoaddd _) _ => apply Amoaddd_implements
  | |- runs_as (Instrs.Amoxord _) _ => apply Amoxord_implements
  | |- runs_as (Instrs.Amoandd _) _ => apply Amoandd_implements
  | |- runs_as (Instrs.Amoord _) _ => apply Amoord_implements
  | |- runs_as (Instrs.Amomind _) _ => apply Amomind_implements
  | |- runs_as (Instrs.Amomaxd _) _ => apply Amomaxd_implements
  | |- runs_as (Instrs.Amominud _) _ => apply Amominud_implements
  | |- runs_as (Instrs.Amomaxud _) _ => apply Amomaxud_implements
  | |- runs_as (Instrs.Rem _) _ => apply Rem_implements
  | |- runs_as (Instrs.Remu _) _ => apply Remu_implements
  | |- runs_as (Instrs.Remw _) _ => apply Remw_implements
  | |- runs_as (Instrs.Remuw _) _ => apply Remuw_implements
  | |- runs_as (Instrs.Div _) _ => apply Div_implements
  | |- runs_as (Instrs.Divu _) _ => apply Divu_implements
  | |- runs_as (Instrs.Divw _) _ => apply Divw_implements
  | |- runs_as (Instrs.Divuw _) _ => apply Divuw_implements
  | |- runs_as (Instrs.Mul _) _ => apply Mul_implements
  | |- runs_as (Instrs.Mulh _) _ => apply Mulh_implements
  | |- runs_as (Instrs.Mulhsu _) _ => apply Mulhsu_implements
  | |- runs_as (Instrs.Mulhu _) _ => apply Mulhu_implements
  | |- runs_as (Instrs.Mulw _) _ => apply Mulw_implements
  | |- runs_as (Instrs.CLw _) _ => apply CLw_implements
  | |- runs_as (Instrs.CLwsp _) _ => apply CLwsp_implements
  | |- runs_as (Instrs.CSw _) _ => apply CSw_implements
  | |- runs_as (Instrs.CSwsp _) _ => apply CSwsp_implements
  | |- runs_as (Instrs.CLd _) _ => apply CLd_implements
  | |- runs_as (Instrs.CLdsp _) _ => apply CLdsp_implements
  | |- runs_as (Instrs.CSd _) _ => apply CSd_implements
  | |- runs_as (Instrs.CSdsp _) _ => apply CSdsp_implements
  | |- runs_as (Instrs.CJ _) _ => apply CJ_implements
  | |- runs_as (Instrs.CJr _) _ => apply CJr_implements
  | |- runs_as (Instrs.CJalr _) _ => apply CJalr_implements
  | |- runs_as (Instrs.CBeqz _) _ => apply CBeqz_implements
  | |- runs_as (Instrs.CBnez _) _ => apply CBnez_implements
  | |- runs_as (Instrs.CLi _) _ => apply CLi_implements
  | |- runs_as (Instrs.CLui _) _ => apply CLui_implements
  | |- runs_as (Instrs.CAddi _) _ => apply CAddi_implements
  | |- runs_as (Instrs.CAddi16sp _) _ => apply CAddi16sp_implements
  | |- runs_as (Instrs.CAddi4spn _) _ => apply CAddi4spn_implements
  | |- runs_as (Instrs.CSlli _) _ => apply CSlli_implements
  | |- runs_as (Instrs.CSrli _) _ => apply CSrli_implements
  | |- runs_as (Instrs.CSrai _) _ => apply CSrai_implements
  | |- runs_as (Instrs.CAndi _) _ => apply CAndi_implements
  | |- runs_as (Instrs.CMv _) _ => apply CMv_implements
  | |- runs_as (Instrs.CAdd _) _ => apply CAdd_implements
  | |- runs_as (Instrs.CAnd _) _ => apply CAnd_implements
  | |- runs_as (Instrs.COr _) _ => apply COr_implements
  | |- runs_as (Instrs.CXor _) _ => apply CXor_implements
  | |- runs_as (Instrs.CSub _) _ => apply CSub_implements
  | |- runs_as (Instrs.CAddw _) _ => apply CAddw_implements
  | |- runs_as (Instrs.CSubw _) _ => apply CSubw_implements
  | |- runs_as (Instrs.CAddiw _) _ => apply CAddiw_implements
  | |- runs_as Instrs.CNop _ => apply CNop_implements
  | |- runs_as (Instrs.Hint _) _ => apply Hint_implements
  | |- runs_as (Instrs.HintCompressed _) _ => apply HintCompressed_implements
  | |- runs_as Instrs.Wfi _ => apply Wfi_implements
  | |- runs_as Instrs.Ecall _ => apply Ecall_implements
  | |- runs_as (Instrs.Unknown _) _ => apply Unknown_implements
  | |- runs_as (Instrs.UnknownCompressed _) _ => apply UnknownCompressed_implements
  end.

Lemma all_implement i j : runnable i = true -> isa_of i = Some j -> runs_as i j.
Proof.
  destruct i; intros Hr E; (discriminate E || injection E as <-); implemented; exact Hr.
Qed.

End Refinement.
