(* ===== verification/IsaTheorems.v ===== *)
(** * Theorems on decoded instructions and their execution

    Every instruction the decoder gives has a shift amount in range and an even jump
    offset, is as wide as the word it was decoded from, and its dispatched form carries
    that width.

    The refinement of [IsaRefinement] as theorems on the interpreter: it implements the
    reference semantics and panics only on [mulw] to [x0]; the reference keeps the core
    well formed; and the destination register of an atomic whose store faults. *)

From S2P Require Import Prelude.
From S2P Require Import Registers.
From S2P Require Import Csr.
From S2P Require Import Instr.
From S2P Require Import Parser.
From S2P Require Import ParserSpec.
From S2P Require Import ParserSpecC.
From S2P Require Import Instruction.
From S2P Require Import Constructors.
From S2P Require Import Icb.
From S2P Require Import Buddy.
From S2P Require Import Memory.
From S2P Require Import MemorySpec.
From S2P Require Import Core.
From S2P Require Import Run.
From S2P Require Import IsaSpec.
From S2P Require Import CoreSpec.
From S2P Require Import IntegerSpec.
From S2P Require Import ControlSpec.
From S2P Require Import IsaRefinement.

(** The offset an instruction adds to the program counter. *)
Definition jump_offset (i : InstrCacheable) : Z :=
  match i with
  | Instrs.Beq a | Instrs.Bne a | Instrs.Blt a | Instrs.Bge a | Instrs.Bltu a | Instrs.Bgeu a =>
      sb_imm a
  | Instrs.Jal a => uj_imm a
  | Instrs.CJ a => cjt_imm a
  | Instrs.CBeqz a | Instrs.CBnez a => cib_imm a
  | _ => 0
  end.

(** The instruction runs, or is [mulw] to [x0]. *)
Definition runs_or_mulw (i : InstrCacheable) : bool :=
  runnable i || mulw_x0 i.

Definition decoded (w : InstrWidth) (i : InstrCacheable) : bool :=
  runs_or_mulw i && Z.even (jump_offset i) && bool_decide (cacheable_width i = w).

(** The instructions that the decoder gives for a word or a half word. *)
Definition from_word (i : InstrCacheable) : Prop :=
  (exists w, parse_uncompressed_instruction w = Cacheable i) \/
  (exists w, urange 16 w /\ parse_compressed_instruction_inner w = Cacheable i).

(** ** Immediates *)
Lemma even_field0 z : Z.even z = negb (Z.testbit z 0).
Proof. rewrite Z.bit0_odd, <- Z.negb_odd. reflexivity. Qed.

Lemma b_imm_even w : Z.even (b_imm w) = true.
Proof.
  rewrite even_field0. unfold b_imm.
  rewrite (as_i32_signed w 0x80000000 31 1), (as_i32_field w 0x00000080 7 1),
    (as_i32_field w 0x7E000000 25 6), (as_i32_field w 0x00000F00 8 4) by (lia || reflexivity).
  rewrite !Z.lor_spec. do 4 (bit_rw; repeat bit_step; bit_split). reflexivity.
Qed.

Lemma j_imm_even w : Z.even (j_imm w) = true.
Proof.
  rewrite even_field0. unfold j_imm.
  rewrite (as_i32_signed w 0x80000000 31 1), (as_i32_field w 0x000FF000 12 8),
    (as_i32_field w 0x00100000 20 1), (as_i32_field w 0x7FE00000 21 10) by (lia || reflexivity).
  rewrite !Z.lor_spec. do 4 (bit_rw; repeat bit_step; bit_split). reflexivity.
Qed.

Lemma seg_bit0 w a b p : 0 < p -> Z.testbit (seg w a b p) 0 = false.
Proof.
  intros. unfold seg. rewrite testbit_wrap, testbit_shiftl_any, Z.testbit_neg_r by lia. reflexivity.
Qed.
Lemma sign_extend_u16_bit0 v n : 0 < n <= 16 -> Z.testbit (sign_extend_u16 v n) 0 = Z.testbit v 0.
Proof.
  intros. rewrite sign_extend_u16_sext by lia.
  rewrite testbit_sext_any by lia. destruct (Z.ltb_spec 0 n); [reflexivity | lia].
Qed.
Lemma cb_imm_even w : Z.even (cb_imm w) = true.
Proof.
  rewrite even_field0. unfold cb_imm. rewrite sign_extend_u16_bit0 by lia.
  rewrite !Z.lor_spec, !seg_bit0 by lia. reflexivity.
Qed.
Lemma cj_imm_even w : Z.even (cj_imm w) = true.
Proof.
  rewrite even_field0. unfold cj_imm. rewrite sign_extend_u16_bit0 by lia.
  rewrite !Z.lor_spec, !seg_bit0 by lia. reflexivity.
Qed.

Lemma shamt_ok_field p z : shamt_ok (field p 6 z) = true.
Proof.
  pose proof (field_range p 6 z ltac:(lia)). unfold urange, shamt_ok in *.
  apply andb_true_iff. split; [apply Z.leb_le | apply Z.ltb_lt]; lia.
Qed.

(** The immediate of a shift whose upper bits are zero. *)
Lemma i_imm_shamt w : imm_11_6 w = 0 -> shamt_ok (i_imm w) = true.
Proof.
  intros E. replace (i_imm w) with (field 0 6 (i_imm w)); [apply shamt_ok_field|].
  rewrite imm_11_6_field in E. rewrite i_imm_fields.
  assert (E' : field 26 6 w = 0) by lia.
  apply Z.bits_inj'. intros i Hi.
  assert (Hb : 6 <= i -> Z.testbit (sext 12 (field 20 12 w)) i = false).
  { intros. rewrite testbit_sext_any, testbit_field_any by lia.
    assert (Hk : forall k, 6 <= k < 12 -> Z.testbit w (k + 20) = false).
    { intros k Hk. apply (f_equal (fun z => Z.testbit z (k - 6))) in E'.
      rewrite testbit_field_any, Z.bits_0 in E' by lia.
      destruct (Z.leb_spec 0 (k - 6)), (Z.ltb_spec (k - 6) 6); try lia.
      cbn [andb] in E'. rewrite <- E'. f_equal. lia. }
    destruct (Z.ltb_spec i 12); rewrite Hk by lia;
      rewrite !andb_false_r; reflexivity. }
  rewrite testbit_field_any by lia.
  destruct (Z.ltb_spec i 6), (Z.leb_spec 0 i); try lia; cbn [andb].
  - rewrite Z.add_0_r. reflexivity.
  - rewrite Hb by lia. reflexivity.
Qed.

Lemma seg_shamt w : urange 16 w -> shamt_ok (Z.lor (seg w 12 12 5) (seg w 6 2 0)) = true.
Proof.
  intros Hw. rewrite !seg_field by (try assumption; lia).
  replace (Z.lor _ _) with (field 0 6 (Z.lor (Z.shiftl (field 12 1 w) 5) (field 2 5 w)));
    [apply shamt_ok_field|].
  bitwise_deep.
Qed.

(** ** The decoder *)
Ltac decoded_leaf :=
  unfold decoded, runs_or_mulw; cbn [runnable mulw_x0 jump_offset cacheable_width sb_imm uj_imm cjt_imm cib_imm
    cibnz_imm nzri_imm r_rd];
  rewrite ?b_imm_even, ?j_imm_even, ?cb_imm_even, ?cj_imm_even, ?i_imm_shamt by assumption;
  try reflexivity.
Ltac unfold_macros :=
  unfold r_instr, r_nz, i_instr, i_nz, s_instr, b_instr, u_nz, j_instr, fl_instr, fs_instr,
    f_cmp_instr, f_r_instr, f_r_rm_1_instr, f_r_fmt_int_instr, f_r_int_fmt_instr, f_r_rm_2_instr,
    f_r_rm_3_instr, amo_instr, csr_instr, csri_instr, cc_instr, cr_instr.

Section Uncompressed.
Context (w : Z).
Notation decodes i := (decoded Uncompressed i = true).

Lemma parse_op_arith_decoded : decodes (parse_op_arith w).
Proof. unfold parse_op_arith. tests; unfold_macros; repeat case_match; decoded_leaf. Qed.
Lemma parse_op_arith_w_decoded : decodes (parse_op_arith_w w).
Proof.
  unfold parse_op_arith_w. tests; unfold_macros; repeat case_match; decoded_leaf.
  cbn. destruct (is_zero (rd w)); reflexivity.
Qed.
Lemma parse_op_arith_i_decoded : decodes (parse_op_arith_i w).
Proof.
  unfold parse_op_arith_i. tests; unfold_macros; repeat case_match; decoded_leaf.
  rewrite shift_imm_fields, shamt_ok_field. reflexivity.
Qed.
Lemma parse_op_load_decoded : decodes (parse_op_load w).
Proof. unfold parse_op_load. tests; unfold_macros; decoded_leaf. Qed.
Lemma parse_op_arith_iw_decoded : decodes (parse_op_arith_iw w).
Proof. unfold parse_op_arith_iw. tests; unfold_macros; repeat case_match; decoded_leaf. Qed.
Lemma parse_op_synch_decoded i : parse_op_synch w = Cacheable i -> decodes i.
Proof. unfold parse_op_synch. tests; intros [= <-]; decoded_leaf. Qed.
Lemma parse_op_sys_decoded i : parse_op_sys w = Cacheable i -> decodes i.
Proof. unfold parse_op_sys. tests; intros [= <-]; unfold_macros; repeat case_match; decoded_leaf. Qed.
Lemma parse_op_amo_decoded : decodes (parse_op_amo w).
Proof. unfold parse_op_amo. tests; unfold_macros; decoded_leaf. Qed.
Lemma parse_op_store_decoded : decodes (parse_op_store w).
Proof. unfold parse_op_store. tests; unfold_macros; decoded_leaf. Qed.
Lemma parse_op_branch_decoded : decodes (parse_op_branch w).
Proof. unfold parse_op_branch. tests; unfold_macros; decoded_leaf. Qed.
Lemma parse_op_fp_decoded : decodes (parse_op_fp w).
Proof.
  unfold parse_op_fp, parse_op_fp_s, parse_op_fp_d.
  tests; unfold_macros; repeat case_match; decoded_leaf.
Qed.
Lemma parse_op_fma_decoded s d : (forall a, decodes (s a)) -> (forall a, decodes (d a)) ->
  decodes (parse_op_fma s d w).
Proof. intros. unfold parse_op_fma. tests; unfold_macros; repeat case_match; auto; decoded_leaf. Qed.

Lemma uncompressed_decoded i : parse_uncompressed_instruction w = Cacheable i -> decodes i.
Proof.
  unfold parse_uncompressed_instruction.
  repeat match goal with |- context [if opcode w =? ?op then _ else _] =>
    destruct (opcode w =? op) end; intros E;
  match type of E with
  | parse_op_sys _ = _ => apply parse_op_sys_decoded, E
  | parse_op_synch _ = _ => apply parse_op_synch_decoded, E
  | _ => injection E as <-
  end;
  auto using parse_op_arith_decoded, parse_op_arith_w_decoded, parse_op_arith_i_decoded,
    parse_op_load_decoded, parse_op_arith_iw_decoded, parse_op_amo_decoded, parse_op_store_decoded,
    parse_op_branch_decoded, parse_op_fp_decoded, parse_op_fma_decoded;
  try solve [apply parse_op_fma_decoded; intros; reflexivity];
  unfold parse_op_fp_load, parse_op_fp_store, parse_op_jalr; tests; unfold_macros;
  repeat case_match; decoded_leaf.
Qed.
End Uncompressed.

Section Compressed.
Context (w : Z) (Hw : urange 16 w).
Notation decodes i := (decoded Compressed i = true).

Lemma parse_c0_decoded : decodes (parse_c0 w).
Proof. unfold parse_c0. tests; unfold_macros; repeat case_match; decoded_leaf. Qed.
Lemma parse_c1_decoded : decodes (parse_c1 w).
Proof.
  pose proof (seg_shamt w Hw) as Hs.
  unfold parse_c1, cb_shamt_imm. tests; unfold_macros; repeat case_match; decoded_leaf;
    rewrite Hs; reflexivity.
Qed.
Lemma parse_c2_decoded i : parse_c2 w = Cacheable i -> decodes i.
Proof.
  pose proof (seg_shamt w Hw) as Hs.
  unfold parse_c2, cslli_imm. tests; unfold_macros; intros [= E]; revert E; repeat case_match;
    intros; simplify_eq; decoded_leaf; (rewrite Hs || (rewrite <- Hs; f_equal)); reflexivity.
Qed.
Lemma compressed_decoded i : parse_compressed_instruction_inner w = Cacheable i -> decodes i.
Proof.
  unfold parse_compressed_instruction_inner. tests; [| |apply parse_c2_decoded|]; intros [= <-];
    auto using parse_c0_decoded, parse_c1_decoded.
Qed.
End Compressed.

Lemma decoded_width w i : decoded w i = true -> cacheable_width i = w.
Proof.
  intros Hd. unfold decoded in Hd. apply andb_true_iff in Hd as [_ Hd].
  apply bool_decide_eq_true in Hd. exact Hd.
Qed.
Lemma from_word_decoded i : from_word i -> decoded (cacheable_width i) i = true.
Proof.
  intros [(w & E)|(w & Hw & E)].
  - apply uncompressed_decoded in E. rewrite (decoded_width _ _ E). exact E.
  - apply (compressed_decoded w Hw) in E. rewrite (decoded_width _ _ E). exact E.
Qed.
Lemma decoded_runnable w i : decoded w i = true -> mulw_x0 i = false -> runnable i = true.
Proof.
  intros [[Hr _]%andb_true_iff _]%andb_true_iff Hm. unfold runs_or_mulw in Hr. rewrite Hm, orb_false_r in Hr. exact Hr.
Qed.

(** The dispatched instruction keeps its width. *)
Lemma dispatched_width i : a_width (i_args (instruction_of_cacheable i)) = cacheable_width i.
Proof.
  destruct i; cbn [instruction_of_cacheable cacheable_width];
    match goal with |- a_width (i_args (?f ?a)) = _ => try unfold f | _ => idtac end;
    repeat case_match; reflexivity.
Qed.

(** ** The reference semantics keeps the invariant *)

Lemma div_range a b : urange 64 a -> 0 < b -> urange 64 (a / b).
Proof.
  unfold urange. intros Ha Hb. split; [apply Z.div_pos; lia|].
  apply Z.le_lt_trans with a; [apply Z.div_le_upper_bound; nia | lia].
Qed.

Lemma alu_range op a b : urange 64 a -> urange 64 b -> urange 64 (alu op a b).
Proof.
  intros Ha Hb. destruct op; cbn [alu]; repeat case_match;
    try (apply wrap_range; lia); try assumption; try (unfold urange; lia);
    try (apply land_range || apply lor_range || apply lxor_range; [lia | assumption..]).
  - apply div_range; [assumption|]. apply pow2_pos, Z.mod_pos_bound; lia.
  - unfold urange in *. split; [apply Z.div_pos; [apply Z.mul_nonneg_nonneg|]; lia|].
    apply Z.div_lt_upper_bound; [lia | apply Z.mul_lt_mono_nonneg; lia].
  - apply div_range; [assumption|]. unfold urange in *. apply Z.eqb_neq in H. lia.
  - unfold urange in *. apply Z.eqb_neq in H. pose proof (Z.mod_pos_bound a b ltac:(lia)). lia.
Qed.

(** A jump's target is an address. *)
Definition outcome_ok (o : Outcome) : Prop :=
  match o with Ok (Set_ target) => urange 64 target | _ => True end.

Lemma even_range a : urange 64 a -> urange 64 (2 * (a / 2)).
Proof.
  unfold urange. intros. pose proof (Z.div_mod a 2 ltac:(lia)).
  pose proof (Z.mod_pos_bound a 2 ltac:(lia)). lia.
Qed.

Section Invariant.
Context {Mem : Type} `{Memory Mem} `{!MemoryLaws Mem}.
Implicit Types s : MachineCoreState Mem.

Lemma reservation_range s r : core_ok s -> urange 64 (8 * (getx r s / 8)).
Proof.
  intros Hok. pose proof (getx_range s r Hok). unfold urange in *.
  pose proof (Z.div_mod (getx r s) 8 ltac:(lia)).
  pose proof (Z.mod_pos_bound (getx r s) 8 ltac:(lia)). lia.
Qed.

Lemma isa_exec_ok j w s : core_ok s ->
  core_ok (snd (isa_exec j w s)) /\ outcome_ok (fst (isa_exec j w s)).
Proof.
  intros Hok. assert (Hw : forall z, urange 64 (wrap 64 z)) by (intros; apply wrap_range; lia).
  assert (Hx : forall r, urange 64 (getx r s)) by (intros; apply getx_range; assumption).
  assert (Hc : core_ok (set_reservation UNSET_VALUE s))
    by (apply set_reservation_ok; [assumption | unfold urange, UNSET_VALUE; lia]).
  assert (Hst : forall V a v t t', core_ok t -> urange 64 a -> store V a v t = Some t' -> core_ok t')
    by (intros V a v t t' Ht Ha E; apply (store_ok V a v t t' Ht Ha E)).
  destruct j; cbn [isa_exec]; repeat case_match; cbn [fst snd outcome_ok];
    (split; [|auto using even_range]);
    eauto using setx_ok, alu_range, set_reservation_ok, reservation_range.
  - apply setx_ok; [eauto | unfold urange; lia].
  - apply setx_ok; [eauto | unfold urange; lia].
Qed.

Lemma agrees_ok j (spec out : Outcome * MachineCoreState Mem) :
  core_ok (snd spec) -> outcome_ok (fst spec) -> agrees j spec out ->
  core_ok (snd out) /\ outcome_ok (fst out).
Proof. intros Hc Ho [-> [-> | (rd & v & a & _ & _ & Hv & ->)]]; auto using setx_ok. Qed.
End Invariant.

(** ** Properties *)
Section Properties.
Context {Mem : Type} `{Memory Mem} `{!MemoryLaws Mem}.
Implicit Types s : MachineCoreState Mem.

Lemma mulw_x0_stuck i run s : mulw_x0 i = true -> run_instr_cacheable i = Some run -> run s = None.
Proof.
  destruct i; try discriminate. destruct args as [rd rs1 rs2]; cbn [mulw_x0 r_rd]. intros Hz. destruct rd; try discriminate Hz.
  intros [= <-]. destruct rs1, rs2; reflexivity.
Qed.
Lemma mulw_x0_dispatched i : mulw_x0 i = true -> is_Some (run_instr_cacheable (Mem := Mem) i).
Proof. destruct i; try discriminate. intros _. eexists. reflexivity. Qed.

(** C1: the interpreter implements the RISC-V reference semantics.  Every
    instruction that the decoder gives for a word or a half word and that the
    reference has a meaning for (integer, memory and atomic instructions) runs
    without panicking on any well-formed core, with the opcode and arguments
    built for it, and ends with the outcome and the state of the reference; only
    when the store of an atomic faults may its destination register differ.  The
    one exception is [mulw] to [x0], which runs in no state. *)
Theorem instructions_refine_isa s i j :
  core_ok s -> from_word i -> isa_of i = Some j ->
  exists run, run_instr_cacheable i = Some run /\
    if mulw_x0 i then run s = None
    else exists out, run s = Some out /\ agrees j (isa_exec j (cacheable_width i) s) out.
Proof.
  intros Hok Hi Hj. destruct (mulw_x0 i) eqn:Hm.
  - destruct (mulw_x0_dispatched i Hm) as [run Hr]. exists run. split; [exact Hr | eapply mulw_x0_stuck; eassumption].
  - destruct (all_implement s Hok i j (decoded_runnable _ _ (from_word_decoded i Hi) Hm) Hj) as (run & out & Hr & E & Ha).
    exists run. split; [exact Hr | exists out; split; assumption].
Qed.

(** C33: every read-modify-write instruction, of a word or a double word, whose
    store faults after its load succeeded reports the exception and yet has
    overwritten its destination register with the value loaded, where the
    reference changes nothing. *)
Theorem amo_store_fault_clobbers_rd s i V op rd rs1 rs2 v :
  core_ok s -> isa_of i = Some (AMO V op rd rs1 rs2) ->
  aligned V (getx rs1 s) = true -> load V (getx rs1 s) s = Some v ->
  (forall w, store V (getx rs1 s) w s = None) ->
  isa_exec (AMO V op rd rs1 rs2) (cacheable_width i) s = (Err (StoreAMOAccessFault (getx rs1 s)), s) /\
  exists run, run_instr_cacheable i = Some run /\
    run s = Some (Err (StoreAMOAccessFault (getx rs1 s)), setx rd (wrap 64 v) s).
Proof.
  intros Hok Hi Hal Hl Hs. split; [cbn [isa_exec]; rewrite Hal, Hl, Hs; reflexivity|].
  destruct (amo_instr_runs s Hok i V op rd rs1 rs2 Hi) as (run & Hr & E).
  exists run. split; [exact Hr|]. rewrite E. unfold then_next, amo_result.
  rewrite Hal, Hl, Hs. reflexivity.
Qed.
End Properties.

(** ** Instances *)
#[local] Instance two_pages_memory : Memory (MemoryImpl (BuddyLeaf 2)) := memory_impl 8192.
#[local] Instance two_pages_laws : MemoryLaws (MemoryImpl (BuddyLeaf 2)) := memory_impl_laws 8192.

Definition new_core : MachineCoreState (MemoryImpl (BuddyLeaf 2)) := mkCore hart_new two_pages.

Lemma new_core_ok : core_ok new_core.
Proof.
  constructor; [|exact two_pages_ok].
  constructor; cbn; unfold urange; try lia; (split; [reflexivity | repeat constructor; lia]).
Qed.

(** The half word [0x50fd], [c.li x1, -1]. *)
Lemma instructions_refine_isa_witness :
  exists run, run_instr_cacheable (Instrs.CLi (mkCIBNZTypeArgs NZ.x1 (-1))) = Some run /\
    exists s', run new_core = Some (Ok (Next Compressed), s') /\ getx x1 s' = 2 ^ 64 - 1.
Proof.
  destruct (instructions_refine_isa new_core (Instrs.CLi (mkCIBNZTypeArgs NZ.x1 (-1)))
              (OP_IMM ADD x1 x0 (-1)) new_core_ok
              ltac:(right; exists 0x50fd; split; [unfold urange; lia | reflexivity]) eq_refl)
    as (run & Hr & [o s'] & E & Ho & Hs).
  exists run. split; [exact Hr|]. exists s'. cbn [fst snd] in *.
  destruct Hs as [-> | (rd & v & a & Hd & _)]; [|discriminate].
  split; [rewrite E, Ho; reflexivity | reflexivity].
Defined.

(** The second page of [two_pages] can be read but not written. *)
Definition amo_core : MachineCoreState (MemoryImpl (BuddyLeaf 2)) := setx x1 4096 new_core.

Lemma amo_store_fault_clobbers_rd_witness :
  exists run, run_instr_cacheable (Instrs.Amomaxud (mkAmoArgs x1 x1 x0 false false)) = Some run /\
    exists s', run amo_core = Some (Err (StoreAMOAccessFault 4096), s') /\ getx x1 s' = 0.
Proof.
  destruct (amo_store_fault_clobbers_rd amo_core (Instrs.Amomaxud (mkAmoArgs x1 x1 x0 false false)) u64 AMAXU x1 x1 x0 0)
    as (_ & run & Hr & E).
  - apply setx_ok; [exact new_core_ok | unfold urange; lia].
  - reflexivity.
  - reflexivity.
  - reflexivity.
  - reflexivity.
  - exists run. split; [exact Hr|]. eexists. split; [exact E | reflexivity].
Defined.
