(* ===== verification/ZicsrSpec.v ===== *)
(** * Control and status registers: specification

    The floating-point CSRs [fflags], [frm] and [fcsr] are one register seen
    through three windows; all the others are read-only.  The six CSR
    instructions are shown to implement one reference operation: read the
    register, write the combination of its value with the operand unless the
    operand is the one that requests no write, and give the old value. *)

From S2P Require Import Prelude.
From S2P Require Import Registers.
From S2P Require Import Csr.
From S2P Require Import Instr.
From S2P Require Import Instruction.
From S2P Require Import Constructors.
From S2P Require Import Icb.
From S2P Require Import Buddy.
From S2P Require Import Memory.
From S2P Require Import MemorySpec.
From S2P Require Import Core.
From S2P Require Import Run.
From S2P Require Import IsaSpec.
From S2P Require Import CoreSpec.
From S2P Require Import IsaRefinement.
From S2P Require Import IsaTheorems.

(** ** Reference *)
Inductive CsrOp : Type := RW | RS | RC.

Definition csr_combine (op : CsrOp) (old src : Z) : Z :=
  match op with RW => src | RS => Z.lor old src | RC => Z.ldiff old src end.

(** The window of a CSR on its root register: first bit and width. *)
Definition window (r : CSRegister) : Z * Z :=
  match r with
  | Csrs.fcsr => (0, 8) | Csrs.frm => (5, 3) | Csrs.fflags => (0, 5) | _ => (0, 64)
  end.
(** The root register when [v] is written to the window; writing [fcsr] clears
    the bits above it. *)
Definition root_update (r : CSRegister) (root v : Z) : Z :=
  match r with
  | Csrs.frm => field 0 5 root + field 0 3 v * 2 ^ 5 + field 8 56 root * 2 ^ 8
  | Csrs.fflags => field 0 5 v + field 5 59 root * 2 ^ 5
  | _ => let '(p, n) := window r in field 0 n v
  end.

Definition csr_value (r : CSRegister) (vs : CSRValues) : Z :=
  let '(p, n) := window r in field p n (select_ref vs (root_of r)).
Definition csr_update (r : CSRegister) (v : Z) (vs : CSRValues) : CSRValues :=
  select_mut vs (root_of r) (root_update r (select_ref vs (root_of r)) v).

(** What an instruction does with a CSR. *)
Record CsrAction : Type := mkCsrAction {
  ca_op : CsrOp; ca_csr : CSRegister; ca_rd : XRegister; ca_src : option XRegister; ca_imm : Z }.

Definition csr_action (i : InstrCacheable) : option CsrAction :=
  let reg op a := Some (mkCsrAction op (csr_csr a) (csr_rd a) (Some (csr_rs1 a)) 0) in
  let imm op a := Some (mkCsrAction op (csri_csr a) (csri_rd a) None (field 0 5 (csri_imm a))) in
  match i with
  | Instrs.Csrrw a => reg RW a | Instrs.Csrrs a => reg RS a | Instrs.Csrrc a => reg RC a
  | Instrs.Csrrwi a => imm RW a | Instrs.Csrrsi a => imm RS a | Instrs.Csrrci a => imm RC a
  | _ => None
  end.

(** The instruction asks for a write: [RS] and [RC] do not when their operand is
    [x0] or the immediate zero. *)
Definition csr_writes (a : CsrAction) : bool :=
  match ca_op a, ca_src a with
  | RW, _ => true
  | _, Some rs1 => negb (is_zero rs1)
  | _, None => negb (ca_imm a =? 0)
  end.

Definition set_csrs {Mem} (vs : CSRValues) (s : MachineCoreState Mem) : MachineCoreState Mem :=
  with_hart (with_csregisters vs (hart s)) s.
Definition csr_operand {Mem} (a : CsrAction) (s : MachineCoreState Mem) : Z :=
  match ca_src a with Some rs1 => getx rs1 s | None => ca_imm a end.

Definition zicsr_exec {Mem} (a : CsrAction) (s : MachineCoreState Mem)
  : Outcome * MachineCoreState Mem :=
  let vs := csregisters (hart s) in
  let old := csr_value (ca_csr a) vs in
  if csr_writes a then
    if is_read_only (ca_csr a) then (Err IllegalInstruction, s)
    else (Ok (Next Uncompressed),
          setx (ca_rd a) old
            (set_csrs (csr_update (ca_csr a) (csr_combine (ca_op a) old (csr_operand a s)) vs) s))
  else (Ok (Next Uncompressed), setx (ca_rd a) old s).

(** ** Windows *)
Lemma field_0_range n v : 0 <= n <= 64 -> urange 64 (field 0 n v).
Proof.
  intros Hn. pose proof (field_range 0 n v ltac:(lia)) as [? ?]. unfold urange.
  pose proof (Z.pow_le_mono_r 2 n 64). lia.
Qed.

Lemma field_p_range p n v : 0 <= n <= 64 -> urange 64 (field p n v).
Proof.
  intros Hn. pose proof (field_range p n v ltac:(lia)) as [? ?]. unfold urange.
  pose proof (Z.pow_le_mono_r 2 n 64). lia.
Qed.

Lemma field_all v : urange 64 v -> field 0 64 v = v.
Proof. intros. rewrite field_wrap, Z.shiftr_0_r by lia. apply wrap_small. assumption. Qed.

Section Values.
Context (vs : CSRValues) (Hok : csregisters_ok vs).

Lemma csr_read_value r : csr_read vs r = csr_value r vs.
Proof.
  pose proof (field_all _ (select_ref_range vs (root_of r) Hok)) as E.
  destruct r; cbn [csr_value window];
    first [apply csr_read_fcsr | apply csr_read_frm | apply csr_read_fflags | symmetry; exact E].
Qed.

Lemma csr_value_range r : urange 64 (csr_value r vs).
Proof. unfold csr_value. destruct (window r) as [p n] eqn:E. apply field_p_range. destruct r; injection E; lia. Qed.

(** Disjoint bits: the sum is the disjunction. *)
Lemma add_shift_lor p a b : 0 <= p -> urange p a -> 0 <= b -> a + b * 2 ^ p = Z.lor a (Z.shiftl b p).
Proof.
  intros Hp Ha Hb. rewrite Z.shiftl_mul_pow2 by lia.
  rewrite <- Z.add_lor_land.
  replace (Z.land a (b * 2 ^ p)) with 0; [lia|].
  symmetry. rewrite <- Z.shiftl_mul_pow2 by lia. apply Z.bits_inj'. intros i Hi.
  rewrite Z.land_spec, Z.bits_0, Z.shiftl_spec by lia. destruct (Z.ltb_spec i p).
  - rewrite (Z.testbit_neg_r b) by lia. apply andb_false_r.
  - rewrite (testbit_above p a) by (assumption || lia). reflexivity.
Qed.

Lemma csr_write_update r v : urange 64 v -> csr_write vs r v = csr_update r v vs.
Proof.
  intros Hv. rewrite csr_write_select by assumption. unfold csr_update. f_equal.
  rewrite transform_write_field by assumption.
  pose proof (field_range 0 5 v ltac:(lia)). pose proof (field_range 0 3 v ltac:(lia)).
  destruct r; cbn [root_update window root_of]; cbv zeta; try (symmetry; apply field_all; assumption);
    try reflexivity.
  - rewrite add_shift_lor; [reflexivity | lia | assumption |]. apply field_range; lia.
  - rewrite Z.lor_assoc, (Z.lor_comm (Z.shiftl _ 5)).
    pose proof (field_range 0 5 (select_ref vs Roots.fcsr) ltac:(lia)).
    rewrite <- (add_shift_lor 5) by (unfold urange in *; lia || assumption).
    rewrite <- (add_shift_lor 8); [reflexivity | lia | | apply field_range; lia].
    unfold urange in *. lia.
Qed.

Lemma csr_update_ok r v : urange 64 v -> csregisters_ok (csr_update r v vs).
Proof.
  intros Hv. destruct Hok as [Hl Hall]. unfold csr_update, select_mut.
  split; [unfold CSRValues in *; rewrite length_insert; exact Hl|].
  apply Forall_insert; [exact Hall|].
  destruct r; cbn [root_update window]; try (apply field_0_range; lia).
  - pose proof (field_range 0 5 v ltac:(lia)).
    pose proof (field_range 5 59 (select_ref vs (root_of Csrs.fflags)) ltac:(lia)).
    unfold urange in *. lia.
  - pose proof (field_range 0 5 (select_ref vs (root_of Csrs.frm)) ltac:(lia)).
    pose proof (field_range 0 3 v ltac:(lia)).
    pose proof (field_range 8 56 (select_ref vs (root_of Csrs.frm)) ltac:(lia)).
    unfold urange in *. lia.
Qed.
End Values.

(** ** The instructions *)
Section Instructions.
Context {Mem : Type} `{Memory Mem} `{!MemoryLaws Mem}.
Notation Core := (MachineCoreState Mem).
Implicit Types s : Core.

Lemma on_hart_bind {A B} (m : M HartState A) (k : A -> M HartState B) s :
  on_hart (mbind m k) s = mbind (on_hart m) (fun a => on_hart (k a)) s.
Proof.
  unfold on_hart, mbind. destruct (m (hart s)) as [[a h]|]; [|reflexivity]. cbn.
  destruct (k a h) as [[]|]; reflexivity.
Qed.
Lemma on_hart_ret {A} (a : A) s : on_hart (mret a) s = Some (a, s).
Proof. destruct s; reflexivity. Qed.
Lemma on_hart_csrs s : on_hart (mget csregisters) s = Some (csregisters (hart s), s).
Proof. destruct s; reflexivity. Qed.
Lemma on_hart_on_csrs {A} (f : CSRValues -> A * CSRValues) s :
  on_hart (on_csrs f) s =
    Some (fst (f (csregisters (hart s))), set_csrs (snd (f (csregisters (hart s)))) s).
Proof. unfold on_hart, on_csrs. destruct (f _); reflexivity. Qed.

Lemma set_csrs_ok s vs : core_ok s -> csregisters_ok vs -> core_ok (set_csrs vs s).
Proof. intros [[]] ?; constructor; [constructor|]; assumption. Qed.

Lemma csrs_ok s : core_ok s -> csregisters_ok (csregisters (hart s)).
Proof. intros Hok. apply Hok. Qed.

Lemma combine_range op old src : urange 64 old -> urange 64 src -> urange 64 (csr_combine op old src).
Proof.
  intros Ho Hs. destruct op; cbn [csr_combine]; [assumption | apply lor_range; (lia || assumption) |].
  replace (Z.ldiff old src) with (Z.land old (wrap 64 (Z.lnot src))).
  - apply land_range; [lia | assumption | apply wrap_range; lia].
  - apply Z.bits_inj'; intros i Hi. rewrite Z.land_spec, Z.ldiff_spec, testbit_wrap, Z.lnot_spec by lia.
    destruct (Z.ltb_spec i 64); [reflexivity|]. rewrite (testbit_above 64 old) by (assumption || lia).
    reflexivity.
Qed.
Lemma clear_combine old v : urange 64 old -> Z.land old (wrap 64 (Z.lnot v)) = csr_combine RC old v.
Proof.
  intros Ho. cbn. apply Z.bits_inj'; intros i Hi.
  rewrite Z.land_spec, Z.ldiff_spec, testbit_wrap, Z.lnot_spec by lia.
  destruct (Z.ltb_spec i 64); [reflexivity|]. rewrite (testbit_above 64 old) by (assumption || lia).
  reflexivity.
Qed.

Section OneState.
Context (s : Core) (Hok : core_ok s).
Notation vs := (csregisters (hart s)).

Lemma exec_csr_replace r v rd : urange 64 v ->
  on_hart (hart_csr_replace r v rd) s =
    if is_read_only r then Some (Err IllegalInstruction, s)
    else Some (Ok tt, setx rd (csr_value r vs) (set_csrs (csr_update r v vs) s)).
Proof.
  intros Hv. unfold hart_csr_replace, csr_check_write, check_write.
  destruct (is_read_only r); cbn [negb]; [apply on_hart_ret|].
  pose proof (csrs_ok s Hok) as Hc. pose proof (csr_update_ok vs Hc r v Hv) as Hu.
  rewrite on_hart_bind. destruct (is_zero rd) eqn:Hz.
  - erewrite bind_eq by apply on_hart_on_csrs. cbn [fst snd].
    rewrite csr_write_update by assumption. rewrite on_hart_ret.
    destruct rd; try discriminate Hz. rewrite setx_x0. reflexivity.
  - assert (E : csr_replace vs r v = (csr_value r vs, csr_update r v vs)).
    { rewrite <- csr_read_value, <- csr_write_update by assumption.
      unfold csr_replace, csr_write. rewrite make_value_writable_id by assumption.
      unfold csr_read, transform_read, general_raw_read. destruct r; reflexivity. }
    pose proof (on_hart_on_csrs (fun vs => csr_replace vs r v) s) as E1. cbv beta in E1.
    rewrite E in E1. cbn [fst snd] in E1.
    pose proof (exec_write rd (csr_value r vs) _ (set_csrs_ok s _ Hok Hu)) as E2.
    erewrite bind_eq; [apply on_hart_ret|].
    rewrite on_hart_bind. erewrite bind_eq by exact E1. exact E2.
Qed.

(** [csrrs], [csrrc] and their immediate forms share the end of their code. *)
Lemma exec_csr_finish old rd s' : core_ok s' ->
  on_hart (match old with
           | Err e => mret (Err e)
           | Ok v => hart_write rd v ;;; mret (Ok tt)
           end) s' =
  match old with
  | Err e => Some (Err e : result unit Exception, s')
  | Ok v => Some (Ok tt, setx rd v s')
  end.
Proof.
  intros Hok'. destruct old; [|apply on_hart_ret].
  rewrite on_hart_bind. erewrite bind_eq by (apply exec_write; assumption). apply on_hart_ret.
Qed.

Lemma exec_csr_modify op r (unwritten : bool) (f : CSRValues -> Z -> Z * CSRValues)
    (operand : M HartState Z) v rd :
  (forall w, f vs w = (csr_read vs r, csr_write vs r (csr_combine op (csr_read vs r) w))) ->
  on_hart operand s = Some (v, s) -> urange 64 v ->
  on_hart (old <- (if unwritten then vs <- mget csregisters ;; mret (Ok (csr_read vs r))
                   else match csr_check_write r with
                        | Err e => mret (Err e)
                        | Ok _ => value <- operand ;; old <- on_csrs (fun vs => f vs value) ;; mret (Ok old)
                        end) ;;
           match old with
           | Err e => mret (Err e)
           | Ok v => hart_write rd v ;;; mret (Ok tt)
           end) s =
  let old := csr_value r vs in
  if unwritten then Some (Ok tt, setx rd old s)
  else if is_read_only r then Some (Err IllegalInstruction, s)
  else Some (Ok tt, setx rd old (set_csrs (csr_update r (csr_combine op old v) vs) s)).
Proof.
  intros Hf Hop Hv. cbv zeta. pose proof (csrs_ok s Hok) as Hc.
  rewrite on_hart_bind. unfold csr_check_write, check_write.
  destruct unwritten; [|destruct (is_read_only r); cbn [negb]].
  - erewrite bind_eq by (rewrite on_hart_bind; erewrite bind_eq by apply on_hart_csrs; apply on_hart_ret).
    rewrite exec_csr_finish, csr_read_value by assumption. reflexivity.
  - erewrite bind_eq by apply on_hart_ret. apply exec_csr_finish. assumption.
  - pose proof (csr_value_range vs r) as Hr.
    pose proof (csr_update_ok vs Hc r _ (combine_range op _ v Hr Hv)) as Hu.
    pose proof (on_hart_on_csrs (fun vs => f vs v) s) as E. cbv beta in E. rewrite Hf in E.
    cbn [fst snd] in E.
    rewrite csr_read_value, csr_write_update in E by (try apply combine_range; assumption).
    erewrite bind_eq by (rewrite on_hart_bind; erewrite bind_eq by exact Hop;
      rewrite on_hart_bind; erewrite bind_eq by exact E; apply on_hart_ret).
    apply exec_csr_finish, set_csrs_ok; assumption.
Qed.

Lemma and_31_field v : Z.land (wrap 64 v) 0x1F = field 0 5 v.
Proof. change 0x1F with (Z.ones 5). bitwise. Qed.

Lemma set_bits_combine r w : csr_set_bits vs r w =
  (csr_read vs r, csr_write vs r (csr_combine RS (csr_read vs r) w)).
Proof. reflexivity. Qed.
Lemma clear_bits_combine r w : csr_clear_bits vs r w =
  (csr_read vs r, csr_write vs r (csr_combine RC (csr_read vs r) w)).
Proof.
  unfold csr_clear_bits. rewrite clear_combine; [reflexivity|].
  rewrite csr_read_value by (apply csrs_ok, Hok). apply csr_value_range.
Qed.
(** The outcome of the operation of the hart, before the width of the
    instruction is put in. *)
Definition runs_csr (m : M HartState (result unit Exception)) (a : CsrAction) : Prop :=
  exists r, on_hart m s = Some (r, snd (zicsr_exec a s)) /\
    fst (zicsr_exec a s) = result_map r (fun _ => Next Uncompressed).

Lemma run_csr_eq m a r s' : on_hart m s = Some (r, s') ->
  zicsr_exec a s = (result_map r (fun _ => Next Uncompressed), s') -> runs_csr m a.
Proof. intros E Ha. exists r. rewrite Ha. split; [exact E | reflexivity]. Qed.

Ltac csr_cases :=
  unfold zicsr_exec, csr_writes, csr_operand; cbn [ca_op ca_csr ca_rd ca_src ca_imm];
  repeat match goal with H : ?b = _ :> bool |- context [?b] => rewrite H; cbn [negb] end;
  reflexivity.

Lemma run_csrrw_eq r rs1 rd : runs_csr (run_csrrw r rs1 rd) (mkCsrAction RW r rd (Some rs1) 0).
Proof.
  pose proof (exec_csr_replace r _ rd (getx_range s rs1 Hok)) as E.
  assert (E' : on_hart (run_csrrw r rs1 rd) s = on_hart (hart_csr_replace r (getx rs1 s) rd) s).
  { unfold run_csrrw. rewrite on_hart_bind. erewrite bind_eq by (apply exec_read; exact Hok). reflexivity. }
  rewrite E in E'. destruct (is_read_only r) eqn:?; eapply run_csr_eq; try exact E'; csr_cases.
Qed.
Lemma run_csrrwi_eq r imm rd :
  runs_csr (run_csrrwi r (wrap 64 imm) rd) (mkCsrAction RW r rd None (field 0 5 imm)).
Proof.
  pose proof (exec_csr_replace r (field 0 5 imm) rd ltac:(apply field_0_range; lia)) as E.
  unfold run_csrrwi. rewrite and_31_field.
  destruct (is_read_only r) eqn:?; eapply run_csr_eq; try exact E; csr_cases.
Qed.

(** The register forms: [E] is [exec_csr_modify] at the operation. *)
Lemma run_csr_reg_eq m op r rs1 rd : op <> RW ->
  on_hart m s = (let old := csr_value r vs in
    if is_zero rs1 then Some (Ok tt, setx rd old s)
    else if is_read_only r then Some (Err IllegalInstruction, s)
    else Some (Ok tt, setx rd old (set_csrs (csr_update r (csr_combine op old (getx rs1 s)) vs) s))) ->
  runs_csr m (mkCsrAction op r rd (Some rs1) 0).
Proof.
  intros Hop E. cbv zeta in E.
  destruct op; [contradiction| |]; destruct (is_zero rs1) eqn:?, (is_read_only r) eqn:?;
    eapply run_csr_eq; try exact E; csr_cases.
Qed.
Lemma run_csr_imm_eq m op r imm rd : op <> RW ->
  on_hart m s = (let old := csr_value r vs in
    if field 0 5 imm =? 0 then Some (Ok tt, setx rd old s)
    else if is_read_only r then Some (Err IllegalInstruction, s)
    else Some (Ok tt, setx rd old (set_csrs (csr_update r (csr_combine op old (field 0 5 imm)) vs) s))) ->
  runs_csr m (mkCsrAction op r rd None (field 0 5 imm)).
Proof.
  intros Hop E. cbv zeta in E.
  destruct op; [contradiction| |]; destruct (field 0 5 imm =? 0) eqn:?, (is_read_only r) eqn:?;
    eapply run_csr_eq; try exact E; csr_cases.
Qed.

Lemma run_csrrs_eq r rs1 rd : runs_csr (run_csrrs r rs1 rd) (mkCsrAction RS r rd (Some rs1) 0).
Proof.
  apply run_csr_reg_eq; [discriminate|].
  exact (exec_csr_modify RS r (is_zero rs1) (fun vs w => csr_set_bits vs r w) (hart_read rs1) _ rd
    (set_bits_combine r) (exec_read rs1 s Hok) (getx_range s rs1 Hok)).
Qed.
Lemma run_csrrc_eq r rs1 rd : runs_csr (run_csrrc r rs1 rd) (mkCsrAction RC r rd (Some rs1) 0).
Proof.
  apply run_csr_reg_eq; [discriminate|].
  exact (exec_csr_modify RC r (is_zero rs1) (fun vs w => csr_clear_bits vs r w) (hart_read rs1) _ rd
    (clear_bits_combine r) (exec_read rs1 s Hok) (getx_range s rs1 Hok)).
Qed.
Lemma run_csrrsi_eq r imm rd :
  runs_csr (run_csrrsi r (wrap 64 imm) rd) (mkCsrAction RS r rd None (field 0 5 imm)).
Proof.
  apply run_csr_imm_eq; [discriminate|]. unfold run_csrrsi. rewrite and_31_field.
  exact (exec_csr_modify RS r (field 0 5 imm =? 0) (fun vs w => csr_set_bits vs r w)
    (mret (field 0 5 imm)) _ rd (set_bits_combine r) (on_hart_ret _ s) (field_0_range 5 imm ltac:(lia))).
Qed.
Lemma run_csrrci_eq r imm rd :
  runs_csr (run_csrrci r (wrap 64 imm) rd) (mkCsrAction RC r rd None (field 0 5 imm)).
Proof.
  apply run_csr_imm_eq; [discriminate|]. unfold run_csrrci. rewrite and_31_field.
  exact (exec_csr_modify RC r (field 0 5 imm =? 0) (fun vs w => csr_clear_bits vs r w)
    (mret (field 0 5 imm)) _ rd (clear_bits_combine r) (on_hart_ret _ s) (field_0_range 5 imm ltac:(lia))).
Qed.

(** The frame around it: the registers of the union, and the width. *)
Lemma run_csr_reg f opcode r rs1 rd op :
  runs_csr (f r rs1 rd) (mkCsrAction op r rd (Some rs1) 0) ->
  impl_csr_type f (i_args (mkInstruction opcode (into_args (mkCsrArgs rd rs1 r)))) s =
    Some (zicsr_exec (mkCsrAction op r rd (Some rs1) 0) s).
Proof.
  intros (res & E & Ho). unfold impl_csr_type. cbn.
  rewrite (bind_x rs1 _ : _ = _), (bind_x rd _ : _ = _).
  erewrite bind_eq by exact E. unfold mret. rewrite (surjective_pairing (zicsr_exec _ s)), Ho. reflexivity.
Qed.
Lemma run_csr_imm f opcode r imm rd op :
  runs_csr (f r (wrap 64 imm) rd) (mkCsrAction op r rd None (field 0 5 imm)) ->
  impl_csr_imm_type f (i_args (mkInstruction opcode (into_args (mkCsriArgs rd imm r)))) s =
    Some (zicsr_exec (mkCsrAction op r rd None (field 0 5 imm)) s).
Proof.
  intros (res & E & Ho). unfold impl_csr_imm_type. cbn.
  rewrite (bind_x rd _ : _ = _).
  erewrite bind_eq by exact E. unfold mret. rewrite (surjective_pairing (zicsr_exec _ s)), Ho. reflexivity.
Qed.
End OneState.

Lemma csr_action_runs s i a : core_ok s -> csr_action i = Some a ->
  exists run, run_instr_cacheable i = Some run /\ run s = Some (zicsr_exec a s).
Proof.
  intros Hok Ha.
  destruct i; try discriminate Ha; injection Ha as <-; (eexists; split; [reflexivity|]);
    match goal with a : CsrArgs |- _ => destruct a as [rd rs r] | a : CsriArgs |- _ => destruct a as [rd imm r] end;
    cbn [csr_csr csr_rd csr_rs1 csri_csr csri_rd csri_imm];
    (apply run_csr_reg || apply run_csr_imm);
    auto using run_csrrw_eq, run_csrrs_eq, run_csrrc_eq, run_csrrwi_eq, run_csrrsi_eq, run_csrrci_eq.
Qed.

Lemma zicsr_exec_ok a s : core_ok s -> urange 64 (ca_imm a) -> core_ok (snd (zicsr_exec a s)).
Proof.
  intros Hok Hi. pose proof (csrs_ok s Hok) as Hc.
  pose proof (csr_value_range (csregisters (hart s)) (ca_csr a)) as Hr.
  assert (Ho : urange 64 (csr_operand a s))
    by (unfold csr_operand; destruct (ca_src a); [apply getx_range|]; assumption).
  unfold zicsr_exec. repeat case_match; cbn [snd]; auto using setx_ok.
  apply setx_ok; [apply set_csrs_ok; [|apply csr_update_ok; [|apply combine_range]] |]; assumption.
Qed.

(** C19: the six CSR instructions implement the reference and keep the core well
    formed.  A write to a read-only CSR is an illegal instruction that changes
    nothing; otherwise the old value goes to [rd], and the register becomes the
    operand, its union or its difference with the old value, in the bits its
    window covers, unless the instruction asks for no write. *)
Theorem zicsr_refines s i a :
  core_ok s -> csr_action i = Some a ->
  (exists run, run_instr_cacheable i = Some run /\ run s = Some (zicsr_exec a s)) /\
  core_ok (snd (zicsr_exec a s)).
Proof.
  intros Hok Ha. split; [apply csr_action_runs; assumption|]. apply zicsr_exec_ok; [assumption|].
  destruct i; try discriminate Ha; injection Ha as <-; cbn [ca_imm];
    (apply field_0_range || unfold urange); lia.
Qed.
End Instructions.

(** ** Windows on one register *)
Lemma csr_field_nth r : nth (csr_field r) (root_of <$> drop 3 all_csrs) Roots.fcsr = r.
Proof. destruct r; reflexivity. Qed.
#[export] Instance csr_field_inj : Inj (=) (=) csr_field.
Proof. intros r q E. rewrite <- (csr_field_nth r), E. apply csr_field_nth. Qed.
#[export] Instance RootCSRegister_eq_dec : EqDecision RootCSRegister.
Proof.
  intros r q. destruct (decide (csr_field r = csr_field q)) as [E|E].
  - left. apply (inj csr_field), E.
  - right. congruence.
Defined.
Lemma root_of_inj r q : root_of r <> Roots.fcsr -> root_of q = root_of r -> q = r.
Proof. destruct r, q; cbn; congruence. Qed.

Lemma csr_value_update vs r q v : csregisters_ok vs ->
  csr_value q (csr_update r v vs) =
    if decide (root_of q = root_of r)
    then let '(p, n) := window q in field p n (root_update r (select_ref vs (root_of r)) v)
    else csr_value q vs.
Proof.
  intros [Hl _]. unfold csr_value, csr_update. destruct (window q) as [p n].
  rewrite select_ref_mut by assumption. case_decide as E; case_decide as E'; try reflexivity.
  - apply (inj csr_field) in E. contradiction.
  - rewrite E' in E. contradiction.
Qed.

Lemma root_update_window r root v : root_of r = Roots.fcsr -> urange 64 root -> urange 64 v ->
  root_update r root v =
    Z.lor (Z.lor (match r with Csrs.frm => field 0 5 root | _ => field 0 5 v end)
                 (Z.shiftl (match r with Csrs.fcsr => field 5 3 v | Csrs.frm => field 0 3 v
                            | _ => field 5 3 root end) 5))
          (Z.shiftl (match r with Csrs.fcsr => 0 | _ => field 8 56 root end) 8).
Proof.
  intros Hr Hroot Hv.
  pose proof (fun p n z => field_range p n z) as Hf.
  assert (H5 : forall z, 0 <= field 0 5 z < 2 ^ 5) by (intros; apply Hf; lia).
  assert (H3 : forall p z, 0 <= field p 3 z < 2 ^ 3) by (intros; apply Hf; lia).
  assert (H56 : forall z, 0 <= field 8 56 z) by (intros; apply (Hf 8 56); lia).
  destruct r; try discriminate Hr; cbn [root_update window].
  - rewrite (add_shift_lor 5); [| lia | apply Hf; lia | apply (Hf 5 59); lia].
    apply Z.bits_inj'; intros i Hi. do 2 (bit_rw; repeat bit_step; bit_split); bit_finish.
    all: rewrite (testbit_above 64 root) by (assumption || lia); reflexivity.
  - rewrite (add_shift_lor 5), (add_shift_lor 8); [reflexivity | ..]; try lia; auto.
    + pose proof (H5 root). pose proof (H3 0 v). unfold urange.
      rewrite <- (add_shift_lor 5) by (unfold urange; auto; lia). lia.
    + apply Hf; lia.
    + apply H3.
  - bitwise.
Qed.

(** The three floating-point CSRs are one register.  After a write to any of
    them, each window reads the bits written where the two overlap, and what it
    read before elsewhere: [fcsr] is [fflags] with [frm] above it. *)
Theorem fcsr_windows vs r q v :
  csregisters_ok vs -> urange 64 v ->
  csr_read vs Csrs.fcsr = csr_read vs Csrs.fflags + csr_read vs Csrs.frm * 2 ^ 5 /\
  csr_read (csr_write vs r v) q =
    match r, q with
    | Csrs.fcsr, Csrs.fcsr => field 0 8 v
    | Csrs.fcsr, Csrs.frm => field 5 3 v
    | Csrs.fcsr, Csrs.fflags | Csrs.fflags, Csrs.fflags => field 0 5 v
    | Csrs.frm, Csrs.frm => field 0 3 v
    | Csrs.frm, Csrs.fcsr => csr_read vs Csrs.fflags + field 0 3 v * 2 ^ 5
    | Csrs.fflags, Csrs.fcsr => field 0 5 v + csr_read vs Csrs.frm * 2 ^ 5
    | _, _ => if decide (r = q) then v else csr_read vs q
    end.
Proof.
  intros Hok Hv. pose proof (select_ref_range vs Roots.fcsr Hok) as Hr.
  pose proof (csr_update_ok vs Hok r v Hv) as Hu.
  rewrite csr_write_update, !csr_read_value by assumption.
  split; [cbn [csr_value window root_of]; rewrite add_shift_lor;
    [bitwise | lia | apply field_range; lia | apply field_range; lia]|].
  rewrite csr_value_update by assumption.
  destruct (decide (root_of r = Roots.fcsr)) as [E|E].
  - rewrite E, root_update_window by assumption.
    destruct r; try discriminate E; (destruct q; try reflexivity); cbn [csr_value window root_of];
      repeat (case_decide; try congruence);
      rewrite ?add_shift_lor by (try apply field_range; try apply (field_range 5 3); lia);
      bitwise_deep.
  - assert (Hroot : root_update r (select_ref vs (root_of r)) v = v)
      by (destruct r; try (exfalso; apply E; reflexivity); apply field_all, Hv).
    rewrite Hroot. destruct (decide (root_of q = root_of r)) as [Eq|Nq].
    + apply root_of_inj in Eq; [|exact E]. subst q.
      destruct r; try (exfalso; apply E; reflexivity); rewrite decide_True by reflexivity;
        apply field_all, Hv.
    + assert (r <> q) by congruence.
      destruct r; try (exfalso; apply E; reflexivity); rewrite decide_False by congruence; reflexivity.
Qed.

(** ** Instances *)
#[local] Existing Instance two_pages_memory.
#[local] Existing Instance two_pages_laws.

(** [csrrwi x1, fflags, 31]. *)
Lemma zicsr_refines_witness :
  let i := Instrs.Csrrwi (mkCsriArgs x1 31 Csrs.fflags) in
  let a := mkCsrAction RW Csrs.fflags x1 None 31 in
  core_ok new_core /\ csr_action i = Some a /\
  (exists run, run_instr_cacheable i = Some run /\ run new_core = Some (zicsr_exec a new_core)) /\
  csr_read (csregisters (hart (snd (zicsr_exec a new_core)))) Csrs.fcsr = 31.
Proof.
  intros i a. assert (Ha : csr_action i = Some a) by reflexivity.
  split; [exact new_core_ok|]. split; [exact Ha|].
  split; [exact (proj1 (zicsr_refines new_core i a new_core_ok Ha)) | reflexivity].
Defined.

(** Writing [frm] and reading [fcsr]. *)
Lemma fcsr_windows_witness :
  let vs := csr_write csregisters_new Csrs.fflags 5 in
  csregisters_ok vs /\ urange 64 3 /\ csr_read (csr_write vs Csrs.frm 3) Csrs.fcsr = 0x65.
Proof.
  intros vs. pose proof (csrs_ok new_core new_core_ok : csregisters_ok csregisters_new) as H0.
  assert (H5 : urange 64 5) by (unfold urange; lia).
  assert (Hok : csregisters_ok vs)
    by (unfold vs; rewrite (csr_write_update _ H0) by exact H5; apply csr_update_ok; assumption).
  assert (Hv : urange 64 3) by (unfold urange; lia).
  split; [exact Hok|]. split; [exact Hv|].
  exact (proj2 (fcsr_windows vs Csrs.frm Csrs.fcsr 3 Hok Hv)).
Defined.
