(* ===== verification/Frame.v ===== *)
(** * Fetching, and what an instruction leaves unchanged

    What the execution loop needs to know about instructions: fetching changes
    nothing; running a decoded instruction keeps the core well formed, keeps
    the program counter's parity and the width it advances by, and cannot change
    the code on pages that are not writable; nor can bytes that the supervisor writes. *)

From S2P Require Import Prelude.
From S2P Require Import Registers.
From S2P Require Import Csr.
From S2P Require Import Instr.
From S2P Require Import Parser.
From S2P Require Import ParserSpec.
From S2P Require Import Instruction.
From S2P Require Import Constructors.
From S2P Require Import Icb.
From S2P Require Import Buddy.
From S2P Require Import Memory.
From S2P Require Import MemorySpec.
From S2P Require Import Core.
From S2P Require Import Run.
From S2P Require Import Step.
From S2P Require Import IsaSpec.
From S2P Require Import CoreSpec.
From S2P Require Import IsaRefinement.
From S2P Require Import IsaTheorems.
From S2P Require Import ZicsrSpec.

(** ** The contract of the memory with the fetch unit

    A fetch returns, changes nothing, and ends below [2^64]; the half word at an
    even address on a page that is not writable survives any write. *)
Class MemoryExecLaws (Mem : Type) `{MemoryLaws Mem} : Prop := {
  mem_exec_total a m : mem_inv m -> urange 64 a ->
    exists r, mem_read_exec u16 a m = Some (r, m) /\
      (forall d, r = Ok d -> urange 16 (data d) /\ a + 2 < 2 ^ 64);
  mem_exec_stable a m d V b v r m' : mem_inv m -> urange 64 a -> Z.even a = true ->
    mem_read_exec u16 a m = Some (Ok d, m) -> writable d = false ->
    urange 64 b -> mem_write V b v m = Some (r, m') ->
    mem_read_exec u16 a m' = Some (Ok d, m');
  mem_write_all_inv m b bs r m' : mem_inv m -> urange 64 b -> mem_write_all b bs m = Some (r, m') -> mem_inv m';
  mem_exec_stable_all a m d b bs r m' : mem_inv m -> urange 64 a -> Z.even a = true ->
    mem_read_exec u16 a m = Some (Ok d, m) -> writable d = false ->
    urange 64 b -> mem_write_all b bs m = Some (r, m') ->
    mem_read_exec u16 a m' = Some (Ok d, m') }.

Lemma same_page a i : 0 <= a -> Z.even a = true -> a <= i < a + 2 -> i / 4096 = a / 4096.
Proof.
  intros Ha He Hi. apply Z.even_spec in He as [k ->].
  pose proof (Z.div_mod (2 * k) 4096 ltac:(lia)). pose proof (Z.mod_pos_bound (2 * k) 4096 ltac:(lia)).
  assert ((2 * k) mod 4096 <> 4095) by (intros E; rewrite E in *; lia).
  symmetry. apply (Z.div_unique_pos i 4096 _ (i - 4096 * (2 * k / 4096))); lia.
Qed.

(** Bytes written to pages that may be written leave the others. *)
Lemma exec_stable_written {B} (total : Z) (m m' : MemoryImpl B) a d b n :
  mem_ok total m -> mem_ok total m' -> urange 64 a -> Z.even a = true ->
  memory_read_exec total u16 a m = Some (Ok d, m) -> writable d = false ->
  granted total (writable_pages m) b n = true ->
  writable_pages m' = writable_pages m -> executable_pages m' = executable_pages m ->
  (forall i, 0 <= i -> (i < b \/ b + n <= i) -> byte_at m' i = byte_at m i) ->
  memory_read_exec total u16 a m' = Some (Ok d, m').
Proof.
  intros Hok Hok' [Ha ?] He Hx Hw Hgw Hwp Hep Hbytes.
  rewrite memory_read_exec_eq in Hx by assumption.
  destruct (granted total (executable_pages m) a _) eqn:Hg; [|discriminate].
  assert (Hd : writable d = granted total (writable_pages m) a (width_of (WIDTH u16)))
    by (injection Hx as <-; reflexivity).
  assert (Hsame : bytes_at m' a (width_of (WIDTH u16)) = bytes_at m a (width_of (WIDTH u16))).
  { apply bytes_at_ext. change (width_of (WIDTH u16)) with 2 in *. intros i Hi.
    destruct (Z.ltb_spec i b), (Z.leb_spec (b + n) i); try (apply Hbytes; lia).
    exfalso. apply andb_true_iff in Hgw as [_ Hall]. rewrite forallb_seqZ in Hall.
    unfold granted in Hg, Hd. apply andb_true_iff in Hg as [Hg _].
    rewrite Hw, Hg in Hd. cbn [andb] in Hd.
    symmetry in Hd. apply not_true_iff_false in Hd. apply Hd, forallb_seqZ. intros j Hj.
    rewrite (byte_allowed_page _ j i)
      by (transitivity (a / 4096); [|symmetry]; apply same_page; assumption).
    apply Hall. lia. }
  rewrite memory_read_exec_eq, Hsame, Hwp, Hep by assumption.
  rewrite Hg. injection Hx as <-. reflexivity.
Qed.

(** Writing all bytes: nothing happens, or the range may be written and is. *)
Lemma write_all_cases {B} (total : Z) (m : MemoryImpl B) b bs r m' : mem_ok total m -> 0 <= b ->
  memory_write_all total b bs m = Some (r, m') ->
  m' = m \/ (granted total (writable_pages m) b (Z.of_nat (length bs)) = true /\ written total m m' b bs).
Proof.
  intros Hok Hb E. destruct (Z.ltb_spec total b) as [Hlt|Hle].
  - destruct bs as [|x bs].
    + rewrite write_all_beyond in E by assumption. discriminate.
    + pose proof (memory_write_all_eq total m b (x :: bs) Hok) as Hm.
      destruct (granted _ _ _ _) eqn:Hg; [apply granted_bounds in Hg; cbn [length] in Hg; lia|].
      rewrite Hm in E by (unfold sane; cbn [length]; lia). injection E as _ <-. auto.
  - pose proof (memory_write_all_eq total m b bs Hok ltac:(unfold sane; lia)) as Hm.
    destruct (granted _ _ _ _); [destruct Hm as (m1 & Hm & Hwr)|]; rewrite Hm in E; injection E as _ <-; auto.
Qed.

#[export] Instance memory_impl_exec_laws {B} `{Buddy B} (total : Z)
  : MemoryExecLaws (MemoryImpl B) (H := memory_impl total).
Proof.
  constructor.
  - intros a m Hok [Ha _]. eexists. cbn [mem_read_exec memory_impl].
    split; [apply memory_read_exec_eq; assumption|].
    intros d Hd. destruct (granted _ _ _ _) eqn:Hg; [|discriminate]. injection Hd as <-. cbn [data].
    split; [unfold cast_to; apply (wrap_range 16); lia|].
    unfold granted in Hg. apply andb_true_iff in Hg as [Hg _]. apply Z.leb_le in Hg.
    pose proof (ok_total _ _ Hok). cbn in Hg. lia.
  - intros a m d V b v r m' Hok Ha He Hx Hw [Hb _] Hm. cbn [mem_read_exec mem_write memory_impl] in *.
    destruct (memory_write_eq total m Hok V b v Hb) as (m2 & E & Hok' & Hdata & Hbytes).
    rewrite Hm in E. injection E as -> <-.
    destruct (granted total (writable_pages m) b (width_of (WIDTH V))) eqn:Hgw.
    + eapply (exec_stable_written total m m' a d b); try eassumption; [rewrite Hdata; reflexivity ..|].
      intros i Hi Hout. rewrite Hbytes by exact Hi. cbn [andb].
      destruct (Z.leb_spec b i), (Z.ltb_spec i (b + width_of (WIDTH V))); (reflexivity || lia).
    + eapply (exec_stable_written total m m' a d 0 0); try eassumption; [| rewrite Hdata; reflexivity .. |].
      * unfold granted. cbn [seqZ forallb]. destruct (ok_total _ _ Hok). apply andb_true_iff. split; [apply Z.leb_le; lia | reflexivity].
      * intros i Hi _. rewrite Hbytes by exact Hi. reflexivity.
  - intros m b bs r m' Hok [Hb _] Hm.
    destruct (write_all_cases total m b bs r m' Hok Hb Hm) as [->|[_ (Hok' & _)]]; assumption.
  - intros a m d b bs r m' Hok Ha He Hx Hw [Hb _] Hm. cbn [mem_read_exec mem_write_all memory_impl] in *.
    destruct (write_all_cases total m b bs r m' Hok Hb Hm) as [->|[Hg Hwr]]; [exact Hx|].
    destruct (written_pages _ _ _ _ _ Hwr) as (_ & Hwp & Hep & _). destruct Hwr as (Hok' & _ & Hbytes).
    eapply (exec_stable_written total m m' a d b); try eassumption.
    intros i Hi Hout. rewrite Hbytes by exact Hi.
    destruct (Z.leb_spec b i), (Z.ltb_spec i (b + Z.of_nat (length bs))); cbn [andb]; (reflexivity || lia).
Qed.

(** ** Fetching *)
Section Fetch.
Context {Mem : Type} `{Memory Mem} `{!MemoryLaws Mem} `{!MemoryExecLaws Mem}.
Notation Core := (MachineCoreState Mem).
Implicit Types s : Core.

(** The half word at an address, if it may be executed. *)
Definition half_at (a : Z) (s : Core) : option InstructionData :=
  match mem_read_exec u16 a (main_memory s) with Some (Ok d, _) => Some d | _ => None end.

(** The instruction at an address, and whether its pages are not writable. *)
Definition fetched (a : Z) (s : Core) : result (Instr * bool) Exception :=
  match half_at a s with
  | None => Err (InstructionAccessFault a)
  | Some lower =>
      if is_compressed (data lower)
      then Ok (parse_compressed_instruction_inner (data lower), negb (writable lower))
      else match half_at (a + 2) s with
           | None => Err (InstructionAccessFault (a + 2))
           | Some upper =>
               let combined := combine_with_upper lower upper in
               Ok (parse_uncompressed_instruction (data combined), negb (writable combined))
           end
  end.

Lemma half_at_read a s : core_ok s -> urange 64 a ->
  on_memory (mem_read_exec u16 a) s =
    Some (match half_at a s with Some d => Ok d | None => Err BadMemoryAccess_ end, s).
Proof.
  intros Hok Ha. destruct (mem_exec_total a _ (ok_memory _ Hok) Ha) as (r & E & _).
  unfold half_at, on_memory. rewrite E. destruct s, r as [|[]]; reflexivity.
Qed.
Lemma half_at_range a s d : core_ok s -> urange 64 a -> half_at a s = Some d ->
  urange 16 (data d) /\ a + 2 < 2 ^ 64.
Proof.
  intros Hok Ha Hd. destruct (mem_exec_total a _ (ok_memory _ Hok) Ha) as (r & E & Hr).
  unfold half_at in Hd. rewrite E in Hd. destruct r; [|discriminate]. injection Hd as <-.
  apply Hr. reflexivity.
Qed.

(** What the decoder says of a cacheable instruction that was fetched. *)
Lemma fetched_decoded a s c b : core_ok s -> urange 64 a -> fetched a s = Ok (Cacheable c, b) ->
  decoded (cacheable_width c) c = true /\ a + width_bytes (cacheable_width c) < 2 ^ 64.
Proof.
  intros Hok Ha. unfold fetched. destruct (half_at a s) as [l|] eqn:El; [|discriminate].
  destruct (half_at_range _ _ _ Hok Ha El) as [Hl Hb].
  destruct (is_compressed _); [|destruct (half_at (a + 2) s) eqn:Eu; [|discriminate]]; intros [= E _].
  - apply (compressed_decoded _ Hl) in E. rewrite (decoded_width _ _ E). split; [exact E | exact Hb].
  - assert (Ha2 : urange 64 (a + 2)) by (unfold urange in *; lia).
    destruct (half_at_range _ _ _ Hok Ha2 Eu) as [_ Hb2].
    apply uncompressed_decoded in E. rewrite (decoded_width _ _ E). split; [exact E | cbn; lia].
Qed.

Section Cached.
Context {BC : Type} `{!BlockCache BC Mem}.

(** What fetching tells the cache. *)
Definition push_fetched (a : Z) (i : Instr) (cacheable : bool) : M BC unit :=
  match i with
  | Cacheable c =>
      if cacheable then
        match cacheable_width c with
        | Compressed => bc_push_instr_compressed a (instruction_of_cacheable c)
        | Uncompressed => bc_push_instr_uncompressed a (instruction_of_cacheable c)
        end
      else mret tt
  | Uncacheable _ => mret tt
  end.

Lemma bind_on_core {A B} (f : M Core A) (k : A -> M (Core * BC) B) s bc a s' :
  f s = Some (a, s') -> mbind (on_core f) k (s, bc) = k a (s', bc).
Proof. intros E. unfold mbind, on_core. rewrite E. reflexivity. Qed.

Lemma fetch_half_eq a s bc : core_ok s -> urange 64 a ->
  fetch_instr_halfword (BC := BC) a (s, bc) =
    Some (match half_at a s with Some d => Ok d | None => Err (InstructionAccessFault a) end, (s, bc)).
Proof.
  intros Hok Ha. unfold fetch_instr_halfword.
  rewrite (bind_on_core _ _ _ _ _ _ (half_at_read a s Hok Ha)). destruct (half_at a s); reflexivity.
Qed.

Lemma fetch_instr_eq a s bc : core_ok s -> urange 64 a ->
  fetch_instr (BC := BC) a (s, bc) =
    match fetched a s with
    | Err e => Some (Err e, (s, bc))
    | Ok (i, cacheable) =>
        match push_fetched a i cacheable bc with
        | Some (_, bc) => Some (Ok i, (s, bc))
        | None => None
        end
    end.
Proof.
  intros Hok Ha. unfold fetch_instr, fetched.
  erewrite bind_eq by (apply fetch_half_eq; assumption).
  destruct (half_at a s) as [l|] eqn:El; [|reflexivity].
  destruct (half_at_range _ _ _ Hok Ha El) as [Hl Hb].
  destruct (is_compressed (data l)).
  - rewrite parse_compressed_instruction_inner_eq by assumption. rewrite bind_lift.
    destruct (parse_compressed_instruction_inner _) as [c|] eqn:Ec; cbn [push_fetched]; [|].
    + rewrite (decoded_width _ _ (compressed_decoded _ Hl _ Ec)).
      destruct (writable l); cbn [negb]; [reflexivity|].
      unfold mbind at 1, on_cache. destruct (bc_push_instr_compressed _ _ _) as [[]|]; reflexivity.
    + destruct (writable l); reflexivity.
  - rewrite wrap_small by (unfold urange in *; lia).
    assert (Ha2 : urange 64 (a + 2)) by (unfold urange in *; lia).
    erewrite bind_eq by (apply fetch_half_eq; assumption).
    destruct (half_at (a + 2) s) as [u|] eqn:Eu; [|reflexivity].
    destruct (parse_uncompressed_instruction _) as [c|] eqn:Ec; cbn [push_fetched]; [|].
    + rewrite (decoded_width _ _ (uncompressed_decoded _ _ Ec)).
      destruct (writable (combine_with_upper l u)); cbn [negb]; [reflexivity|].
      unfold mbind at 1, on_cache. destruct (bc_push_instr_uncompressed _ _ _) as [[]|]; reflexivity.
    + destruct (writable (combine_with_upper l u)); reflexivity.
Qed.
End Cached.

(** ** Running *)

(** The code of [s] on pages that are not writable is in [s'] too. *)
Definition code_stable (s s' : Core) : Prop :=
  forall a d, urange 64 a -> Z.even a = true ->
    half_at a s = Some d -> writable d = false -> half_at a s' = Some d.

#[export] Instance code_stable_preorder : PreOrder code_stable.
Proof. split; [intros s a d; auto | intros s t u H1 H2 a d Ha He Hd Hw; eauto]. Qed.

Lemma code_stable_memory s s' : main_memory s' = main_memory s -> code_stable s s'.
Proof. intros E a d _ _ Hd _. unfold half_at in *. rewrite E. exact Hd. Qed.

Lemma code_stable_store V a v s s' : core_ok s -> urange 64 a -> store V a v s = Some s' ->
  code_stable s s'.
Proof.
  intros Hok Ha Hs b d Hb He Hd Hw. unfold store in Hs.
  destruct (mem_write V a v (main_memory s)) as [[[] m]|] eqn:E; try discriminate.
  injection Hs as <-. unfold half_at in *. cbn [main_memory with_memory].
  destruct (mem_exec_total b _ (ok_memory _ Hok) Hb) as (r & Er & _). rewrite Er in Hd.
  destruct r as [d'|]; [|discriminate]. injection Hd as ->.
  rewrite (mem_exec_stable b _ d V a v _ m (ok_memory _ Hok) Hb He Er Hw Ha E). reflexivity.
Qed.

Lemma code_stable_write_all a bs s r m' : core_ok s -> urange 64 a ->
  mem_write_all a bs (main_memory s) = Some (r, m') -> code_stable s (with_memory m' s).
Proof.
  intros Hok Ha E b d Hb He Hd Hw. unfold half_at in *. cbn [main_memory with_memory].
  destruct (mem_exec_total b _ (ok_memory _ Hok) Hb) as (r0 & Er & _). rewrite Er in Hd.
  destruct r0 as [d'|]; [|discriminate]. injection Hd as ->.
  rewrite (mem_exec_stable_all b _ d a bs r m' (ok_memory _ Hok) Hb He Er Hw Ha E). reflexivity.
Qed.

Lemma fetched_stable s s' a i : core_ok s -> urange 64 a -> Z.even a = true -> code_stable s s' ->
  fetched a s = Ok (i, true) -> fetched a s' = Ok (i, true).
Proof.
  intros Hok Ha He Hst. unfold fetched.
  destruct (half_at a s) as [l|] eqn:El; [|discriminate].
  destruct (half_at_range _ _ _ Hok Ha El) as [Hl Hb].
  assert (Ha2 : urange 64 (a + 2)) by (unfold urange in *; lia).
  assert (He2 : Z.even (a + 2) = true) by (rewrite Z.even_add, He; reflexivity).
  destruct (is_compressed (data l)) eqn:Hc.
  - intros [= <- Hw]. apply negb_true_iff in Hw. rewrite (Hst a l) by assumption.
    rewrite Hc, Hw. reflexivity.
  - destruct (half_at (a + 2) s) as [u|] eqn:Eu; [|discriminate]. intros [= <- Hw].
    apply negb_true_iff in Hw. pose proof Hw as Hw'. cbn in Hw'. apply orb_false_iff in Hw' as [Hwl Hwu].
    rewrite (Hst a l), Hc, (Hst (a + 2) u) by assumption. cbn. rewrite Hwl, Hwu. reflexivity.
Qed.

Definition isa_offset (j : IsaInstr) : Z :=
  match j with BRANCH _ _ _ imm => imm | JAL _ imm => imm | _ => 0 end.

Lemma isa_offset_of i j : isa_of i = Some j -> isa_offset j = jump_offset i.
Proof. destruct i; intros E; (discriminate E || injection E as <-); reflexivity. Qed.

Lemma setx_memory r v s : main_memory (setx r v s) = main_memory s.
Proof. reflexivity. Qed.

Lemma isa_exec_stable j w s : core_ok s -> code_stable s (snd (isa_exec j w s)).
Proof.
  intros Hok. assert (Hw : forall z, urange 64 (wrap 64 z)) by (intros; apply wrap_range; lia).
  assert (Hx : forall r, urange 64 (getx r s)) by (intros; apply getx_range; assumption).
  assert (Hc : core_ok (set_reservation UNSET_VALUE s))
    by (apply set_reservation_ok; [assumption | unfold urange, UNSET_VALUE; lia]).
  destruct j; cbn [isa_exec]; repeat case_match; cbn [snd];
    try (apply code_stable_memory; reflexivity).
  all: match goal with
       | E : store ?V ?a ?v ?t = Some ?t' |- code_stable _ ?u =>
           assert (Hst : code_stable t t')
             by (eapply code_stable_store; [| | exact E]; [assumption | apply Hx || apply Hw]);
           etransitivity; [|apply (code_stable_memory t'); reflexivity];
           etransitivity; [|exact Hst]; apply code_stable_memory; reflexivity
       end.
Qed.

(** The outcome advances by the width, or jumps to an even address. *)
Definition advances (w : InstrWidth) (o : Outcome) : Prop :=
  match o with
  | Ok (Next w') => w' = w
  | Ok (Set_ target) => urange 64 target /\ Z.even target = true
  | Err _ => True
  end.

Lemma even_wrap z : Z.even (wrap 64 z) = Z.even z.
Proof.
  rewrite !even_field0, testbit_wrap by lia. reflexivity.
Qed.

Lemma isa_exec_advances j w s : core_ok s -> Z.even (pc (hart s)) = true ->
  Z.even (isa_offset j) = true -> advances w (fst (isa_exec j w s)).
Proof.
  intros Hok Hpc Hj. pose proof (isa_exec_ok j w s Hok) as [_ Ho]. revert Ho.
  destruct j; cbn [isa_exec isa_offset] in *; repeat case_match; cbn [fst outcome_ok advances];
    intros Ho; auto; split; auto; rewrite ?even_wrap, ?Z.even_add, ?Hpc, ?Hj; try reflexivity.
  rewrite Z.even_mul. reflexivity.
Qed.

Lemma cacheable_cases c :
  (exists j, isa_of c = Some j) \/ (exists a, csr_action c = Some a) \/
  run_instr_cacheable (Mem := Mem) c = None.
Proof. destruct c; eauto; right; right; reflexivity. Qed.

Lemma csr_action_imm c a : csr_action c = Some a -> urange 64 (ca_imm a).
Proof.
  destruct c; intros Ha; try discriminate Ha; injection Ha as <-; cbn [ca_imm];
    (apply field_0_range || unfold urange); lia.
Qed.
Lemma csr_action_width c a : csr_action c = Some a -> cacheable_width c = Uncompressed.
Proof. destruct c; intros Ha; try discriminate Ha; reflexivity. Qed.

(** Running a decoded instruction, whatever it does. *)
Record frame (w : InstrWidth) (s : Core) (out : Outcome) (s' : Core) : Prop := {
  frame_ok : core_ok s';
  frame_stable : code_stable s s';
  frame_advances : advances w out }.

Lemma run_cacheable_ok s c f out s' : core_ok s -> decoded (cacheable_width c) c = true ->
  run_instr_cacheable c = Some f -> f s = Some (out, s') -> core_ok s' /\ outcome_ok out.
Proof.
  intros Hok Hd Hf E. destruct (mulw_x0 c) eqn:Hm; [rewrite (mulw_x0_stuck c f s Hm Hf) in E; discriminate|].
  destruct (cacheable_cases c) as [[j Hj]|[[a Ha]|Hn]]; [| |congruence].
  - destruct (all_implement s Hok c j (decoded_runnable _ _ Hd Hm) Hj) as (f' & o & Hf' & E' & Ha).
    rewrite Hf in Hf'. injection Hf' as <-. rewrite E in E'. injection E' as <-.
    destruct (isa_exec_ok j (cacheable_width c) s Hok) as [Hc Ho]. exact (agrees_ok j _ _ Hc Ho Ha).
  - destruct (csr_action_runs s c a Hok Ha) as (f' & Hf' & E').
    rewrite Hf in Hf'. injection Hf' as <-. rewrite E in E'. injection E' as E'.
    replace s' with (snd (zicsr_exec a s)) by (rewrite <- E'; reflexivity).
    replace out with (fst (zicsr_exec a s)) by (rewrite <- E'; reflexivity).
    split; [exact (zicsr_exec_ok a s Hok (csr_action_imm c a Ha))|].
    unfold zicsr_exec. repeat case_match; exact I.
Qed.
Lemma run_cacheable_frame s c f out s' w : core_ok s -> Z.even (pc (hart s)) = true ->
  decoded w c = true -> run_instr_cacheable c = Some f -> f s = Some (out, s') ->
  frame w s out s'.
Proof.
  intros Hok Hpc Hd Hf E. pose proof (decoded_width _ _ Hd) as Hw.
  apply andb_true_iff in Hd as [[Hr He]%andb_true_iff _].
  destruct (cacheable_cases c) as [[j Hj]|[[a Ha]|Hn]]; [| |congruence].
  - apply orb_true_iff in Hr as [Hr|Hr].
    + destruct (all_implement s Hok c j Hr Hj) as (f' & o & Hf' & E' & Ho & Hs').
      rewrite Hf in Hf'. injection Hf' as <-. rewrite E in E'. injection E' as <-. cbn [fst snd] in *.
      rewrite Hw in *. pose proof (isa_exec_ok j w s Hok) as [Hok' _].
      assert (Hst := isa_exec_stable j w s Hok).
      constructor.
      * destruct Hs' as [->|(rd & v & a & _ & _ & Hv & ->)]; auto using setx_ok.
      * destruct Hs' as [->|(rd & v & a & _ & _ & Hv & ->)]; [assumption|].
        etransitivity; [exact Hst | apply code_stable_memory; reflexivity].
      * rewrite Ho. apply isa_exec_advances; [assumption..|]. rewrite (isa_offset_of c j Hj). exact He.
    + rewrite (mulw_x0_stuck c f s Hr Hf) in E. discriminate.
  - destruct (csr_action_runs s c a Hok Ha) as (f' & Hf' & E').
    rewrite Hf in Hf'. injection Hf' as <-. rewrite E in E'. injection E' as E'.
    pose proof (zicsr_exec_ok a s Hok (csr_action_imm c a Ha)) as Hok'.
    rewrite <- Hw, (csr_action_width c a Ha).
    assert (Hout : out = fst (zicsr_exec a s) /\ s' = snd (zicsr_exec a s)) by (rewrite <- E'; auto).
    destruct Hout as [-> ->]. constructor; [exact Hok' | |].
    + apply code_stable_memory. unfold zicsr_exec. repeat case_match; reflexivity.
    + unfold zicsr_exec. repeat case_match; cbn [fst advances]; auto.
Qed.

(** C21: executing any instruction that the decoder gives keeps the core well
    formed: registers, program counter, reservation and control and status
    registers stay in their widths and memory keeps its invariant.  A jump's
    target is a 64-bit address, and from an even program counter the outcome is
    an exception, an advance by the width of the instruction, or a jump to an
    even address.  Floating-point instructions, whose opcodes are not modelled,
    have no run here. *)
Theorem instructions_preserve_core_ok s i run out s' :
  core_ok s -> from_word i -> run_instr_cacheable i = Some run -> run s = Some (out, s') ->
  core_ok s' /\ outcome_ok out /\ (Z.even (pc (hart s)) = true -> advances (cacheable_width i) out).
Proof.
  intros Hok Hi Hr E. destruct (run_cacheable_ok s i run out s' Hok (from_word_decoded i Hi) Hr E) as [Hok' Ho].
  split; [exact Hok'|]. split; [exact Ho|]. intros He.
  apply (frame_advances _ _ _ _ (run_cacheable_frame s i run out s' _ Hok He (from_word_decoded i Hi) Hr E)).
Qed.
End Fetch.

(** ** Instances *)
#[local] Existing Instance two_pages_memory.
#[local] Existing Instance two_pages_laws.

(** The half word [0x8082], [c.jr x1]. *)
Lemma instructions_preserve_core_ok_witness :
  exists run out s', run_instr_cacheable (Instrs.CJr (mkCRJTypeArgs NZ.x1)) = Some run /\
    run new_core = Some (out, s') /\ core_ok s' /\ outcome_ok out.
Proof.
  destruct (all_implement new_core new_core_ok (Instrs.CJr (mkCRJTypeArgs NZ.x1))
              (JALR x0 x1 0) eq_refl eq_refl) as (run & [o s'] & Hr & E & _).
  exists run, o, s'. split; [exact Hr|]. split; [exact E|].
  destruct (instructions_preserve_core_ok new_core (Instrs.CJr (mkCRJTypeArgs NZ.x1)) run o s' new_core_ok
    ltac:(right; exists 0x8082; split; [unfold urange; lia | reflexivity]) Hr E) as (Hok & Ho & _).
  split; assumption.
Defined.
