(* ===== verification/StepSpec.v ===== *)
(** * The execution loop without a cache

    The reference against which the block cache is judged: a machine that
    fetches, decodes and executes every instruction from memory.  [one_step] is
    one of its steps and [ref_steps] is [n] of them; running the machine's loop
    with the cache [no_cache], which never holds a block, is exactly that
    ([no_cache_steps]). *)

From S2P Require Import Prelude.
From S2P Require Import Registers.
From S2P Require Import Csr.
From S2P Require Import Instr.
From S2P Require Import Instruction.
From S2P Require Import Constructors.
From S2P Require Import Icb.
From S2P Require Import Memory.
From S2P Require Import MemorySpec.
From S2P Require Import Core.
From S2P Require Import Run.
From S2P Require Import Step.
From S2P Require Import IsaSpec.
From S2P Require Import CoreSpec.
From S2P Require Import IsaRefinement.
From S2P Require Import IsaTheorems.
From S2P Require Import ZicsrSpec.
From S2P Require Import Frame.

Section Reference.
Context {Mem : Type} `{Memory Mem} `{!MemoryLaws Mem} `{!MemoryExecLaws Mem}.
Notation Core := (MachineCoreState Mem).
Notation Steps := (StepManyResult EnvironException).
Implicit Types s : Core.

(** ** Definition *)

Definition uncacheable_outcome (i : InstrUncacheable) : Outcome :=
  match i with
  | Instrs.Fence _ | Instrs.FenceI => Ok (Next (uncacheable_width i))
  | Instrs.FenceTso _ => Err IllegalInstruction
  | Instrs.Ebreak | Instrs.CEbreak => Err Breakpoint
  end.

(** The instruction at the program counter, executed. *)
Definition execute : M Core Outcome :=
  fun s =>
    match fetched (pc (hart s)) s with
    | Err e => Some (Err e, s)
    | Ok (Cacheable c, _) => match run_instr_cacheable c with Some f => f s | None => None end
    | Ok (Uncacheable i, _) => Some (uncacheable_outcome i, s)
    end.

Definition one_step : M Core (result Z EnvironException) :=
  fun s => match execute s with
           | Some (o, s') => handle_step_result (pc (hart s)) o s'
           | None => None
           end.

Definition merge (a b : Steps) : Steps := {| steps := steps a + steps b; error := error b |}.

Fixpoint ref_steps (n : nat) : M Core Steps :=
  match n with
  | O => mret ZERO
  | S n =>
      r <- one_step ;;
      match r with
      | Err e => mret {| steps := 0; error := Some e |}
      | Ok _ => res <- ref_steps n ;; mret (merge {| steps := 1; error := None |} res)
      end
  end.

(** A core that can run: well formed, with an even program counter. *)
Definition core_good s : Prop := core_ok s /\ Z.even (pc (hart s)) = true.

(** ** One step *)

Lemma width_bytes_even w : Z.even (width_bytes w) = true.
Proof. destruct w; reflexivity. Qed.

(** The program counter after an outcome, and the exception that ends the run. *)
Definition next_pc (instr_pc : Z) (o : Outcome) : Z :=
  match o with
  | Ok (Set_ a) => a
  | Ok (Next w) => wrap 64 (instr_pc + width_bytes w)
  | Err e => match environ_of_exception e with Some _ => instr_pc | None => 0 end
  end.
Definition stops (o : Outcome) : option EnvironException :=
  match o with Ok _ => None | Err e => environ_of_exception e end.

Definition set_pc (a : Z) s : Core := with_hart (with_pc a (hart s)) s.

Lemma handle_step_result_eq instr_pc o s :
  handle_step_result instr_pc o s =
    Some (match stops o with Some e => Err e | None => Ok (next_pc instr_pc o) end,
          set_pc (next_pc instr_pc o) s).
Proof.
  destruct o as [[a|w]|e]; [reflexivity..|].
  unfold handle_step_result, address_on_exception, stops, next_pc.
  destruct (environ_of_exception e); reflexivity.
Qed.

Lemma set_pc_good s a w o : core_ok s -> urange 64 a -> Z.even a = true -> advances w o ->
  core_good (set_pc (next_pc a o) s).
Proof.
  intros Hok Ha He Hadv.
  assert (Hp : urange 64 (next_pc a o) /\ Z.even (next_pc a o) = true).
  { destruct o as [[t|w']|e]; cbn in *; [exact Hadv | |].
    - rewrite even_wrap, Z.even_add, He, width_bytes_even. split; [apply wrap_range; lia | reflexivity].
    - destruct (environ_of_exception e); [auto|]. split; [unfold urange; lia | reflexivity]. }
  split; [apply with_pc_ok; [exact Hok | apply Hp] | apply Hp].
Qed.

Lemma set_pc_stable a s : code_stable s (set_pc a s).
Proof. apply code_stable_memory. reflexivity. Qed.

Lemma execute_frame s o s' : core_good s -> execute s = Some (o, s') -> exists w, frame w s o s'.
Proof.
  intros [Hok He] E. unfold execute in E.
  destruct (fetched (pc (hart s)) s) as [[[c|u] b]|e] eqn:Ef.
  - destruct (run_instr_cacheable c) as [f|] eqn:Hf; [|discriminate].
    destruct (fetched_decoded _ _ _ _ Hok (ok_pc _ (ok_hart _ Hok)) Ef) as [Hd _].
    exists (cacheable_width c). eapply run_cacheable_frame; eassumption.
  - injection E as <- <-. exists (uncacheable_width u).
    constructor; [assumption | reflexivity | destruct u; cbn; auto].
  - injection E as <- <-. exists Uncompressed. constructor; [assumption | reflexivity | exact I].
Qed.

Lemma one_step_good s r s' : core_good s -> one_step s = Some (r, s') ->
  core_good s' /\ code_stable s s'.
Proof.
  intros Hg E. unfold one_step in E. destruct (execute s) as [[o t]|] eqn:Ex; [|discriminate].
  destruct (execute_frame _ _ _ Hg Ex) as [w [Hok Hst Hadv]].
  rewrite handle_step_result_eq in E. injection E as _ <-.
  destruct Hg as [Hok0 He]. split.
  - apply (set_pc_good _ _ w); [assumption | apply Hok0 | assumption | assumption].
  - etransitivity; [exact Hst | apply set_pc_stable].
Qed.

(** ** Many steps *)

Lemma ref_steps_good n s r s' : core_good s -> ref_steps n s = Some (r, s') ->
  core_good s' /\ code_stable s s' /\ 0 <= steps r <= Z.of_nat n /\
  (error r = None <-> steps r = Z.of_nat n).
Proof.
  revert s r s'; induction n as [|n IH]; intros s r s' Hg E.
  - injection E as <- <-. cbn. split_and!; try assumption; try reflexivity; try lia. tauto.
  - cbn [ref_steps] in E. unfold mbind in E.
    destruct (one_step s) as [[r1 s1]|] eqn:E1; [|discriminate].
    destruct (one_step_good _ _ _ Hg E1) as [Hg1 Hst1].
    destruct r1 as [p|e].
    + destruct (ref_steps n s1) as [[r2 s2]|] eqn:E2; [|discriminate]. injection E as <- <-.
      destruct (IH _ _ _ Hg1 E2) as (Hg2 & Hst2 & Hb & He). cbn [steps error merge].
      split_and!; try assumption; try lia; [etransitivity; eassumption|]. rewrite He. lia.
    + injection E as <- <-. cbn [steps error].
      split_and!; try assumption; try lia. split; [discriminate | lia].
Qed.

Lemma ref_steps_add n m s :
  ref_steps (n + m) s =
    match ref_steps n s with
    | None => None
    | Some (r, s') =>
        if error r is Some _ then Some (r, s')
        else match ref_steps m s' with
             | None => None
             | Some (r', s'') => Some (merge r r', s'')
             end
    end.
Proof.
  revert s; induction n as [|n IH]; intros s.
  - cbn. destruct (ref_steps m s) as [[[]]|]; reflexivity.
  - cbn [Nat.add ref_steps]. unfold mbind. destruct (one_step s) as [[[p|e] s1]|]; [|reflexivity..].
    rewrite IH. destruct (ref_steps n s1) as [[r s2]|]; [|reflexivity].
    cbn [mret merge error steps]. destruct (error r) eqn:Er; [reflexivity|].
    destruct (ref_steps m s2) as [[r' s3]|]; [|reflexivity]. cbn.
    unfold merge. cbn [steps error]. rewrite Z.add_assoc. reflexivity.
Qed.

(** ** The machine, one instruction at a time *)
Section Machine.
Context {BC : Type} `{!BlockCache BC Mem}.

(** What one instruction does to the cache. *)
Definition cache_step (s : Core) : M BC unit :=
  match fetched (pc (hart s)) s with
  | Err _ => mret tt
  | Ok (i, cacheable) =>
      push_fetched (pc (hart s)) i cacheable ;;;
      match i with Uncacheable Instrs.FenceI => bc_invalidate | _ => mret tt end
  end.

Lemma run_instr_at_eq s bc : core_good s ->
  run_instr_at (pc (hart s)) (s, bc) =
    match cache_step s bc with
    | Some (_, bc') =>
        match execute s with Some (o, s') => Some (o, (s', bc')) | None => None end
    | None => None
    end.
Proof.
  intros [Hok He]. unfold run_instr_at, cache_step, execute, mbind at 1.
  rewrite fetch_instr_eq by (assumption || apply Hok).
  destruct (fetched (pc (hart s)) s) as [[[c|u] b]|e]; [| |reflexivity]; unfold mbind at 1.
  - destruct (push_fetched _ _ _ bc) as [[[] bc']|]; [|reflexivity]. cbn [mret].
    unfold run_instr, mbind, mlift, on_core.
    destruct (run_instr_cacheable c) as [f|]; [|reflexivity].
    destruct (f s) as [[o s']|]; reflexivity.
  - cbn [push_fetched mret]. destruct u; try reflexivity; cbn; try (destruct s; reflexivity).
    unfold mbind, on_cache. destruct (bc_invalidate bc) as [[[] bc']|]; reflexivity.
Qed.

(** The loop, one iteration at a time. *)
Lemma step_loop_done n max (res : Steps) st : max <= steps res ->
  step_loop n max res st = Some (res, st).
Proof. intros Hm. destruct n; cbn [step_loop]; rewrite (proj2 (Z.ltb_ge _ _)) by lia; reflexivity. Qed.

Lemma step_loop_instr n max (res : Steps) s bc : core_good s -> steps res < max ->
  bc_get_block (pc (hart s)) bc = Some (None, bc) ->
  step_loop (S n) max res (s, bc) =
    match cache_step s bc with
    | Some (_, bc') =>
        match one_step s with
        | Some (Ok _, s') => step_loop n max {| steps := steps res + 1; error := error res |} (s', bc')
        | Some (Err e, s') => Some ({| steps := steps res; error := Some e |}, (s', bc'))
        | None => None
        end
    | None => None
    end.
Proof.
  intros Hg Hm Hb. cbn [step_loop]. rewrite (proj2 (Z.ltb_lt _ _)) by lia.
  erewrite bind_on_core by apply exec_pc.
  unfold mbind at 1, on_cache. rewrite Hb.
  unfold mbind at 1. rewrite run_instr_at_eq by assumption.
  destruct (cache_step s bc) as [[[] bc']|]; [|reflexivity].
  unfold one_step. destruct (execute s) as [[o s']|]; [|reflexivity].
  erewrite bind_on_core by apply handle_step_result_eq. rewrite handle_step_result_eq.
  destruct (stops o); reflexivity.
Qed.

Lemma step_loop_block n max (res : Steps) s bc run : steps res < max ->
  bc_get_block (pc (hart s)) bc = Some (Some run, bc) ->
  step_loop (S n) max res (s, bc) =
    match run (pc (hart s)) (max - steps res) (s, bc) with
    | Some (r, st) =>
        if error r is Some _ then Some (merge res r, st) else step_loop n max (merge res r) st
    | None => None
    end.
Proof.
  intros Hm Hb. cbn [step_loop]. rewrite (proj2 (Z.ltb_lt _ _)) by lia.
  erewrite bind_on_core by apply exec_pc.
  unfold mbind at 1, on_cache. rewrite Hb.
  unfold mbind at 1. destruct (run _ _ _) as [[r st]|]; [|reflexivity].
  unfold merge_and_return, merge. cbn [error]. destruct (error r); reflexivity.
Qed.
End Machine.

Lemma merge_zero (r : Steps) : merge ZERO r = r.
Proof. destruct r; reflexivity. Qed.
Lemma merge_assoc (a b c : Steps) : merge (merge a b) c = merge a (merge b c).
Proof. unfold merge; cbn. rewrite Z.add_assoc. reflexivity. Qed.

(** ** No cache *)
Definition no_cache : BlockCache unit Mem := {|
  bc_invalidate := mret tt;
  bc_reset := mret tt;
  bc_get_block _ := mret None;
  bc_push_instr_compressed _ _ := mret tt;
  bc_push_instr_uncompressed _ _ := mret tt;
  bc_complete_current_block _ := mret ZERO |}.

#[local] Existing Instance no_cache.

Lemma no_cache_step s : cache_step s tt = Some (tt, tt).
Proof.
  unfold cache_step, push_fetched. destruct (fetched _ s) as [[[c|u] b]|e]; cbn; try reflexivity.
  - destruct b, (cacheable_width c); reflexivity.
  - destruct u; reflexivity.
Qed.

Lemma no_cache_loop n s max (res : Steps) : core_good s -> error res = None ->
  max - steps res = Z.of_nat n ->
  step_loop n max res (s, tt) =
    match ref_steps n s with
    | Some (r, s') => Some (merge res r, (s', tt))
    | None => None
    end.
Proof.
  revert s res; induction n as [|n IH]; intros s res Hg Hres Hn.
  - rewrite step_loop_done by lia. destruct res; cbn in *; subst.
    unfold merge; cbn. rewrite Z.add_0_r. reflexivity.
  - rewrite step_loop_instr by (assumption || lia || reflexivity). rewrite no_cache_step.
    cbn [ref_steps]. unfold mbind. destruct (one_step s) as [[[p|e] s1]|] eqn:E; [|..|reflexivity].
    + rewrite IH; [| apply (one_step_good _ _ _ Hg E) | assumption | cbn; lia].
      destruct (ref_steps n s1) as [[r s2]|]; [|reflexivity]. cbn [mret].
      rewrite <- merge_assoc. unfold merge at 2. cbn. rewrite Hres. reflexivity.
    + cbn. unfold merge; cbn. rewrite Z.add_0_r. reflexivity.
Qed.

(** The loop of the machine without a cache is [n] steps of the reference. *)
Lemma no_cache_steps n s : core_good s ->
  step_max_inner (Z.of_nat n) (s, tt) =
    match ref_steps n s with Some (r, s') => Some (r, (s', tt)) | None => None end.
Proof.
  intros Hg. unfold step_max_inner, mbind. cbn [bc_complete_current_block no_cache mret].
  cbn [merge_and_return error steps ZERO]. rewrite Nat2Z.id.
  change {| steps := 0 + 0; error := None |} with (@ZERO EnvironException).
  rewrite no_cache_loop by (assumption || reflexivity || (cbn; lia)).
  destruct (ref_steps n s) as [[r s']|]; [|reflexivity]. rewrite merge_zero. reflexivity.
Qed.
End Reference.
