(* ===== verification/BlockCacheSpec.v ===== *)
(** * The block cache: invariant

    What makes a cached block usable: [code_at] says that a list of instructions
    is what the decoder reads from memory, on pages that are not writable.  The
    invariant [cache_inv] says it of every entry of the current fence counter,
    says that an entry of an older counter would be invalidated before the
    counter comes round to it again, and describes the block under construction
    and the block partially run. *)

From S2P Require Import Prelude.
From S2P Require Import Instr.
From S2P Require Import Instruction.
From S2P Require Import Constructors.
From S2P Require Import Icb.
From S2P Require Import Memory.
From S2P Require Import MemorySpec.
From S2P Require Import Core.
From S2P Require Import Run.
From S2P Require Import Step.
From S2P Require Import BlockCache.
From S2P Require Import CoreSpec.
From S2P Require Import IsaTheorems.
From S2P Require Import Frame.
From S2P Require Import StepSpec.

(** ** Instructions in memory *)
Definition instr_bytes (i : Instruction) : Z := width_bytes (a_width (i_args i)).
Definition code_width (is_ : list Instruction) : Z := foldr (fun i n => instr_bytes i + n) 0 is_.

Lemma instr_bytes_cases i : instr_bytes i = 2 \/ instr_bytes i = 4.
Proof. unfold instr_bytes. destruct (a_width _); auto. Qed.
Lemma code_width_cons i l : code_width (i :: l) = instr_bytes i + code_width l.
Proof. reflexivity. Qed.
Lemma code_width_app l k : code_width (l ++ k) = code_width l + code_width k.
Proof. induction l; [reflexivity|]. cbn [app]. rewrite !code_width_cons. lia. Qed.
Lemma code_width_bounds l : 2 * Z.of_nat (length l) <= code_width l <= 4 * Z.of_nat (length l).
Proof.
  induction l as [|i l]; [cbn; lia|]. rewrite code_width_cons. cbn [length].
  destruct (instr_bytes_cases i); lia.
Qed.
Lemma code_width_even l : Z.even (code_width l) = true.
Proof.
  induction l as [|i l IH]; [reflexivity|]. rewrite code_width_cons, Z.even_add, IH.
  unfold instr_bytes. rewrite width_bytes_even. reflexivity.
Qed.

Section Code.
Context {Mem : Type} `{Memory Mem} `{!MemoryLaws Mem} `{!MemoryExecLaws Mem}.
Notation Core := (MachineCoreState Mem).
Implicit Types s : Core.

(** The instruction the cache is given for the code at an address. *)
Definition instr_at (a : Z) (i : Instruction) (s : Core) : Prop :=
  urange 64 a /\ exists c, fetched a s = Ok (Cacheable c, true) /\ i = instruction_of_cacheable c.

Fixpoint code_at (a : Z) (l : list Instruction) (s : Core) : Prop :=
  match l with
  | [] => True
  | i :: l => instr_at a i s /\ code_at (a + instr_bytes i) l s
  end.

Lemma code_at_app a l k s : code_at a (l ++ k) s <-> code_at a l s /\ code_at (a + code_width l) k s.
Proof.
  revert a; induction l as [|i l IH]; intros a; cbn [app code_at].
  - change (code_width []) with 0. rewrite Z.add_0_r. tauto.
  - rewrite IH, code_width_cons, Z.add_assoc. tauto.
Qed.

Lemma instr_at_end a i s : core_ok s -> instr_at a i s -> a + instr_bytes i < 2 ^ 64.
Proof.
  intros Hok (Ha & c & Hf & ->). unfold instr_bytes. rewrite dispatched_width.
  eapply fetched_decoded; eassumption.
Qed.

Lemma instr_at_stable a i s s' : core_ok s -> Z.even a = true -> code_stable s s' ->
  instr_at a i s -> instr_at a i s'.
Proof.
  intros Hok He Hst (Ha & c & Hf & ->). split; [assumption|]. exists c. split; [|reflexivity].
  eapply fetched_stable; eassumption.
Qed.
Lemma code_at_stable a l s s' : core_ok s -> Z.even a = true -> code_stable s s' ->
  code_at a l s -> code_at a l s'.
Proof.
  intros Hok He Hst. revert a He. induction l as [|i l IH]; intros a He; [auto|].
  intros [Hi Hl]. split; [eapply instr_at_stable; eassumption|].
  apply IH; [|exact Hl]. unfold instr_bytes. rewrite Z.even_add, He, width_bytes_even. reflexivity.
Qed.

(** A block: on one page, at an even address. *)
Definition block_at (a : Z) (l : list Instruction) (s : Core) : Prop :=
  urange 64 a /\ Z.even a = true /\ code_at a l s /\ a mod 4096 + code_width l <= 4096.

Lemma block_at_stable a l s s' : core_ok s -> code_stable s s' -> block_at a l s -> block_at a l s'.
Proof. intros Hok Hst (Ha & He & Hc & Hp). split_and!; try assumption. eapply code_at_stable; eassumption. Qed.
End Code.

(** ** Blocks as lists *)
Definition instrs (b : Interpreted) : list Instruction := take (Z.to_nat (num_instr b)) (slots b).

Record block_wf (b : Interpreted) : Prop := {
  wf_slots : Z.of_nat (length (slots b)) = CACHE_INSTR;
  wf_len : 0 <= num_instr b <= CACHE_INSTR }.

Lemma block_instr_eq b : block_wf b -> block_instr b = Some (instrs b).
Proof. intros [Hs Hl]. unfold block_instr. rewrite Hs, (proj2 (Z.leb_le _ _)) by lia. reflexivity. Qed.
Lemma instrs_length b : block_wf b -> Z.of_nat (length (instrs b)) = num_instr b.
Proof. intros [Hs Hl]. unfold instrs. rewrite length_take. lia. Qed.

Lemma push_instr_eq i c : block_wf (block c) -> num_instr (block c) < CACHE_INSTR ->
  exists c', cached_push_instr i c = Some c' /\ block_wf (block c') /\ address c' = address c /\
    c_fence_counter c' = c_fence_counter c /\ num_instr (block c') = num_instr (block c) + 1 /\
    instrs (block c') = instrs (block c) ++ [i].
Proof.
  intros [Hs Hl] Hn. unfold cached_push_instr, block_push_instr, num_instr in *.
  rewrite Hs, (proj2 (Z.ltb_lt _ _)) by lia. eexists; split; [reflexivity|]. cbn.
  split_and!; try reflexivity.
  - constructor; cbn; [rewrite length_insert; assumption | unfold num_instr; cbn; lia].
  - unfold instrs, num_instr; cbn [slots len_instr].
    replace (Z.to_nat (len_instr (block c) + 1)) with (S (Z.to_nat (len_instr (block c)))) by lia.
    erewrite take_S_r by (apply list_lookup_insert_eq; lia).
    rewrite take_insert_ge by lia. reflexivity.
Qed.

Lemma empty_wf b : block_wf b -> block_wf {| slots := slots b; len_instr := 0 |}.
Proof. intros [Hs Hl]. constructor; cbn; [assumption | unfold num_instr; cbn; lia]. Qed.

(** ** The cache *)
Section Invariant.
Context {Mem : Type} `{Memory Mem} `{!MemoryLaws Mem} `{!MemoryExecLaws Mem}.
Notation Core := (MachineCoreState Mem).
Implicit Types s : Core.
Context (SIZE : Z) (Hconfig : config_ok SIZE = true).

(** The geometry: a power of two, of which two rounds fit in a counter. *)
Lemma size_pow : exists n, 0 <= n <= 31 /\ SIZE = 2 ^ n.
Proof.
  unfold config_ok, is_power_of_two, fence_counter_wrapping_protection, FenceCounter_MAX in Hconfig.
  rewrite !andb_true_iff, Z.ltb_lt, Z.eqb_eq, Z.ltb_lt in Hconfig.
  destruct Hconfig as [[Hpos Hpow] Hmax]. exists (Z.log2 SIZE).
  pose proof (Z.log2_nonneg SIZE). split; [|assumption]. split; [assumption|].
  enough (Z.log2 SIZE < 32) by lia. apply Z.log2_lt_pow2; lia.
Qed.

Lemma cache_index_eq a : cache_index SIZE a = (a / 2) mod SIZE.
Proof.
  destruct size_pow as (n & Hn & ->). unfold cache_index, CACHE_MASK.
  rewrite Z.sub_1_r, <- Z.ones_equiv, Z.land_ones, Z.shiftr_div_pow2 by lia. reflexivity.
Qed.
Lemma cache_index_range a : 0 <= cache_index SIZE a < SIZE.
Proof.
  rewrite cache_index_eq. apply Z.mod_pos_bound. destruct size_pow as (n & Hn & ->). lia.
Qed.

(** Every index is reached in one round of the counter. *)
Lemma index_reached i : 0 <= i < SIZE -> urange 32 (2 * i) /\ cache_index SIZE (2 * i) = i.
Proof.
  intros Hi. destruct size_pow as (n & Hn & E).
  assert (SIZE <= 2 ^ 31) by (rewrite E; apply Z.pow_le_mono_r; lia).
  rewrite cache_index_eq, Z.mul_comm, Z.div_mul, Z.mod_small by lia. unfold urange. lia.
Qed.

(** *** Entries *)

(** Since the counter was [f], it has not passed a value that invalidates index
    [i]. *)
Definition not_passed (fence f i : Z) : Prop :=
  forall k, 0 <= k < wrap 32 (fence - f) -> cache_index SIZE (wrap 32 (f + k)) <> i.

Record entry_inv (s : Core) (fence i : Z) (e : Cached) : Prop := {
  entry_wf : block_wf (block e);
  entry_fence : urange 32 (c_fence_counter e);
  entry_aged : 0 < num_instr (block e) -> not_passed fence (c_fence_counter e) i;
  entry_live : 0 < num_instr (block e) -> c_fence_counter e = fence ->
    cache_index SIZE (address e) = i /\ block_at (address e) (instrs (block e)) s }.

Record entries_inv (s : Core) (fence : Z) (es : list Cached) : Prop := {
  entries_size : Z.of_nat (length es) = SIZE;
  entries_all : forall i e, es !! i = Some e -> entry_inv s fence (Z.of_nat i) e }.

Lemma not_passed_same fence i : not_passed fence fence i.
Proof. intros k Hk. rewrite Z.sub_diag in Hk. change (wrap 32 0) with 0 in Hk. lia. Qed.

Lemma entry_some s fence es a : entries_inv s fence es ->
  exists e, entry SIZE es a = Some e /\ entry_inv s fence (cache_index SIZE a) e.
Proof.
  intros [Hsize Hall]. pose proof (cache_index_range a).
  destruct (lookup_lt_is_Some_2 es (Z.to_nat (cache_index SIZE a))) as [e He]; [lia|].
  exists e. split; [exact He|]. apply Hall in He. rewrite Z2Nat.id in He by lia. exact He.
Qed.

Definition set_entry (a : Z) (e : Cached) (es : list Cached) : list Cached :=
  <[Z.to_nat (cache_index SIZE a) := e]> es.

Lemma set_entry_inv s fence es a e : entries_inv s fence es ->
  entry_inv s fence (cache_index SIZE a) e -> entries_inv s fence (set_entry a e es).
Proof.
  intros [Hsize Hall] He. pose proof (cache_index_range a). constructor.
  - unfold set_entry. rewrite length_insert. assumption.
  - intros i e' Hi. unfold set_entry in Hi. apply list_lookup_insert_Some in Hi as [(<- & -> & _)|[_ Hi]].
    + rewrite Z2Nat.id by lia. exact He.
    + apply Hall, Hi.
Qed.
Lemma entry_set_same es a e : Z.of_nat (length es) = SIZE -> entry SIZE (set_entry a e es) a = Some e.
Proof.
  intros Hsize. pose proof (cache_index_range a). unfold entry, set_entry.
  apply list_lookup_insert_eq. lia.
Qed.
Lemma entry_set_other es a b e : cache_index SIZE a <> cache_index SIZE b ->
  entry SIZE (set_entry a e es) b = entry SIZE es b.
Proof.
  intros Hab. pose proof (cache_index_range a). pose proof (cache_index_range b).
  unfold entry, set_entry. apply list_lookup_insert_ne. lia.
Qed.

Lemma entry_mut_eq a f bc e e' : entry SIZE (entries bc) a = Some e -> f e = Some e' ->
  entry_mut SIZE a f bc = Some (tt, with_entries (set_entry a e' (entries bc)) bc).
Proof. intros He Hf. unfold entry_mut. rewrite He, Hf. reflexivity. Qed.
Lemma read_entry_eq a bc e : entry SIZE (entries bc) a = Some e ->
  read_entry SIZE a bc = Some (e, bc).
Proof. intros He. unfold read_entry, mbind, mget, mlift. rewrite He. reflexivity. Qed.

(** An empty entry can be put anywhere. *)
Lemma entry_inv_empty s fence i e : block_wf (block e) -> urange 32 (c_fence_counter e) ->
  num_instr (block e) = 0 -> entry_inv s fence i e.
Proof. intros Hw Hf Hn. constructor; [assumption..| |]; lia. Qed.

Lemma entry_inv_live s fence e : block_wf (block e) -> urange 32 fence -> c_fence_counter e = fence ->
  block_at (address e) (instrs (block e)) s -> entry_inv s fence (cache_index SIZE (address e)) e.
Proof.
  intros Hw Hf <- Hb. constructor; auto. intros _. apply not_passed_same.
Qed.

Lemma entries_inv_stable s s' fence es : core_ok s -> code_stable s s' ->
  entries_inv s fence es -> entries_inv s' fence es.
Proof.
  intros Hok Hst [Hsize Hall]. constructor; [assumption|]. intros i e Hi.
  destruct (Hall i e Hi) as [Hw Hf Ha Hl]. constructor; auto. intros Hn Hfe.
  destruct (Hl Hn Hfe) as [Hidx Hb]. split; [assumption|]. eapply block_at_stable; eassumption.
Qed.

(** *** The block under construction and the partial block *)
Definition current_inv (bc : BlockCacheState) : Prop :=
  if current_block_addr bc =? NO_ADDRESS
  then next_instr_addr bc = 0 \/ next_instr_addr bc = NO_ADDRESS
  else exists e, entry SIZE (entries bc) (current_block_addr bc) = Some e /\
    address e = current_block_addr bc /\ c_fence_counter e = fence_counter bc /\
    0 < num_instr (block e) /\
    next_instr_addr bc = current_block_addr bc + code_width (instrs (block e)).

Definition partial_inv (s : Core) (bc : BlockCacheState) : Prop :=
  in_progress (partial_block bc) = true ->
  exists e, entry SIZE (entries bc) (addr (partial_block bc)) = Some e /\
    c_fence_counter e = fence_counter bc /\
    0 <= progress (partial_block bc) < num_instr (block e) /\
    pc (hart s) = address e +
      code_width (take (Z.to_nat (progress (partial_block bc))) (instrs (block e))).

Record cache_inv (s : Core) (bc : BlockCacheState) : Prop := {
  inv_fence : urange 32 (fence_counter bc);
  inv_entries : entries_inv s (fence_counter bc) (entries bc);
  inv_current : current_inv bc;
  inv_partial : partial_inv s bc }.
End Invariant.
