(* ===== verification/BlockCacheOps.v ===== *)
(** * The block cache: operations

    Every operation of the cache keeps its invariant and never panics:
    building blocks ([push_sound]), dropping them all ([invalidate_sound],
    [reset_sound]), and finding one ([get_block_sound]). *)

From S2P Require Import Prelude.
From S2P Require Import Instr.
From S2P Require Import Instruction.
From S2P Require Import Constructors.
From S2P Require Import Icb.
From S2P Require Import Memory.
From S2P Require Import MemorySpec.
From S2P Require Import Core.
From S2P Require Import Run.
From S2P Require Import Step.
From S2P Require Import BlockCache.
From S2P Require Import CoreSpec.
From S2P Require Import IsaTheorems.
From S2P Require Import Frame.
From S2P Require Import StepSpec.
From S2P Require Import BlockCacheSpec.

Lemma land_offset a : Z.land a OFFSET_MASK = a mod 4096.
Proof. change OFFSET_MASK with (Z.ones 12). apply Z.land_ones. lia. Qed.

Lemma no_address_odd : Z.even NO_ADDRESS = false.
Proof. reflexivity. Qed.

(** Going on within a page. *)
Lemma mod_within b w : 0 <= b -> 0 <= w -> b mod 4096 + w <= 4096 -> (b + w) mod 4096 <> 0 ->
  (b + w) mod 4096 = b mod 4096 + w.
Proof.
  intros Hb Hw Hp Hz. pose proof (Z.mod_pos_bound b 4096 ltac:(lia)).
  pose proof (Z.div_mod b 4096 ltac:(lia)).
  destruct (Z.eq_dec (b mod 4096 + w) 4096) as [E|E].
  - exfalso. apply Hz. replace (b + w) with ((b / 4096 + 1) * 4096) by lia. apply Z.mod_mul. lia.
  - symmetry. apply (Z.mod_unique_pos _ _ (b / 4096)); lia.
Qed.

Section Ops.
Context {Mem : Type} `{Memory Mem} `{!MemoryLaws Mem} `{!MemoryExecLaws Mem}.
Notation Core := (MachineCoreState Mem).
Implicit Types s : Core.
Context (SIZE : Z) (Hconfig : config_ok SIZE = true).
Context (s : Core) (Hok : core_ok s).

Notation entry := (entry SIZE).
Notation set_entry := (set_entry SIZE).
Notation entries_inv := (entries_inv SIZE s).

(** The parts of the state that building a block does not touch. *)
Definition same_rest (bc bc' : BlockCacheState) : Prop :=
  fence_counter bc' = fence_counter bc /\ partial_block bc' = partial_block bc.

Lemma with_entries_rest es bc : same_rest bc (with_entries es bc).
Proof. split; reflexivity. Qed.

(** [e] holds the code from [b] up to [a]. *)
Record extends (fence b : Z) (e : Cached) (a : Z) : Prop := {
  ex_wf : block_wf (block e);
  ex_address : address e = b;
  ex_fence : c_fence_counter e = fence;
  ex_range : urange 64 b;
  ex_even : Z.even b = true;
  ex_code : code_at b (instrs (block e)) s;
  ex_end : b + code_width (instrs (block e)) = a }.

Lemma extends_push fence b e a i : extends fence b e a -> instr_at a i s ->
  num_instr (block e) < CACHE_INSTR ->
  exists e', cached_push_instr i e = Some e' /\ extends fence b e' (a + instr_bytes i) /\
    num_instr (block e') = num_instr (block e) + 1 /\
    instrs (block e') = instrs (block e) ++ [i].
Proof.
  intros [Hw Ha Hf Hr He Hc Hend] Hi Hn.
  destruct (push_instr_eq i e Hw Hn) as (e' & Hp & Hw' & Ha' & Hf' & Hn' & Hi').
  exists e'. split_and!; try assumption. constructor; try congruence.
  - rewrite Hi', code_at_app. split; [assumption|]. rewrite Hend. split; [assumption | exact I].
  - rewrite Hi', code_width_app. cbn. lia.
Qed.

(** ** Appending the adjacent block *)
Lemma with_entries_id es bc : es = entries bc -> with_entries es bc = bc.
Proof. intros ->. destruct bc; reflexivity. Qed.

Lemma set_entry_id es a e : entry es a = Some e -> set_entry a e es = es.
Proof. apply list_insert_id. Qed.
Lemma set_entry_twice es a e e' : set_entry a e (set_entry a e' es) = set_entry a e es.
Proof. apply list_insert_insert_eq. Qed.

Lemma push_adjacent_eq b next e2 n : cache_index SIZE b <> cache_index SIZE next ->
  block_wf (block e2) -> forall k bc e1,
  0 <= k -> k + Z.of_nat n = num_instr (block e2) -> Z.of_nat (length (entries bc)) = SIZE ->
  entry (entries bc) next = Some e2 -> entry (entries bc) b = Some e1 -> block_wf (block e1) ->
  num_instr (block e1) + Z.of_nat n <= CACHE_INSTR ->
  exists eF, push_adjacent SIZE (seqZ k (Z.of_nat n)) b next bc =
      Some (tt, with_entries (set_entry b eF (entries bc)) bc) /\
    block_wf (block eF) /\ address eF = address e1 /\ c_fence_counter eF = c_fence_counter e1 /\
    instrs (block eF) = instrs (block e1) ++ drop (Z.to_nat k) (instrs (block e2)).
Proof.
  intros Hne Hw2. pose proof (instrs_length _ Hw2) as Hl2.
  induction n as [|n IH]; intros k bc e1 Hk Hkn Hsize Hnext Hb Hw1 Hn.
  - exists e1. rewrite seqZ_nil, set_entry_id, with_entries_id by (assumption || reflexivity || lia).
    rewrite drop_ge, app_nil_r by lia. split_and!; auto.
  - rewrite seqZ_cons by lia. cbn [push_adjacent].
    rewrite (bind_eq _ _ _ _ _ (read_entry_eq SIZE next bc e2 Hnext)), block_instr_eq, bind_lift
      by assumption.
    destruct (lookup_lt_is_Some_2 (instrs (block e2)) (Z.to_nat k)) as [x Hx]; [lia|].
    rewrite Hx, bind_lift.
    destruct (push_instr_eq x e1 Hw1 ltac:(lia)) as (e1' & Hp & Hw1' & Ha' & Hf' & Hn' & Hi').
    rewrite (bind_eq _ _ _ _ _ (entry_mut_eq SIZE b _ bc e1 e1' Hb Hp)).
    set (bc1 := with_entries (set_entry b e1' (entries bc)) bc).
    assert (Hsize1 : Z.of_nat (length (entries bc1)) = SIZE)
      by (cbn; unfold BlockCacheSpec.set_entry; rewrite length_insert; assumption).
    destruct (IH (k + 1) bc1 e1') as (eF & E & HwF & HaF & HfF & HiF); try assumption; try lia.
    { cbn. rewrite entry_set_other by assumption. assumption. }
    { cbn. apply entry_set_same; assumption. }
    exists eF. replace (Z.succ k) with (k + 1) by lia.
    replace (Z.pred (Z.of_nat (S n))) with (Z.of_nat n) by lia.
    rewrite E. subst bc1. cbn [entries with_entries]. rewrite set_entry_twice.
    split_and!; [reflexivity | assumption | congruence | congruence |].
    rewrite HiF, Hi', <- app_assoc. cbn [app]. f_equal.
    replace (Z.to_nat (k + 1)) with (S (Z.to_nat k)) by lia.
    symmetry. apply drop_S, Hx.
Qed.

(** An entry that holds the code from its address, within its page. *)
Lemma extends_block_at fence b e a : extends fence b e a ->
  b mod 4096 + code_width (instrs (block e)) <= 4096 -> block_at (address e) (instrs (block e)) s.
Proof. intros [Hw -> Hf Hr He Hc Hend] Hp. split_and!; assumption. Qed.

Lemma extends_entry_inv fence b e a : urange 32 fence -> extends fence b e a ->
  b mod 4096 + code_width (instrs (block e)) <= 4096 ->
  entry_inv SIZE s fence (cache_index SIZE b) e.
Proof.
  intros Hfe Hx Hp. rewrite <- (ex_address _ _ _ _ Hx).
  apply entry_inv_live; [apply Hx | assumption | apply Hx |].
  eapply extends_block_at; eassumption.
Qed.

(** The state while the entry of block [b] is being extended up to [next]. *)
Record building (fence b next : Z) (e : Cached) (bc : BlockCacheState) : Prop := {
  bd_fence : fence_counter bc = fence;
  bd_fence_range : urange 32 fence;
  bd_entries : entries_inv fence (entries bc);
  bd_entry : entry (entries bc) b = Some e;
  bd_extends : extends fence b e next;
  bd_current : current_block_addr bc = b }.

Lemma building_not_no_address fence b next e bc : building fence b next e bc -> b <> NO_ADDRESS.
Proof.
  intros Hb E. pose proof (ex_even _ _ _ _ (bd_extends _ _ _ _ _ Hb)) as He.
  rewrite E, no_address_odd in He. discriminate.
Qed.

Definition merged (bc bc' : BlockCacheState) : Prop :=
  current_inv SIZE bc' /\ entries_inv (fence_counter bc) (entries bc') /\ same_rest bc bc'.

Lemma merge_adjacent_sound fence b next e bc : building fence b next e bc ->
  0 < num_instr (block e) -> b mod 4096 + code_width (instrs (block e)) <= 4096 ->
  next_instr_addr bc = next ->
  exists bc', merge_adjacent SIZE b next (num_instr (block e)) bc = Some (tt, bc') /\ merged bc bc'.
Proof.
  intros Hb Hnum Hpage Hnext. pose proof (building_not_no_address _ _ _ _ _ Hb) as Hno.
  destruct Hb as [Hf Hfr Hes He Hx Hcur].
  destruct (entry_some SIZE Hconfig s fence (entries bc) next Hes) as (e2 & He2 & Hinv2).
  unfold merge_adjacent.
  rewrite (bind_eq (mget fence_counter) _ bc (fence_counter bc) bc eq_refl).
  rewrite (bind_eq _ _ _ _ _ (read_entry_eq SIZE next bc e2 He2)), Hf.
  destruct ((address e2 =? next) && (c_fence_counter e2 =? fence) && negb (Z.land next OFFSET_MASK =? 0)
    && (num_instr (block e2) + num_instr (block e) <=? CACHE_INSTR)) eqn:Hadj.
  - rewrite !andb_true_iff, !Z.eqb_eq, negb_true_iff, Z.eqb_neq, Z.leb_le, land_offset in Hadj.
    destruct Hadj as [[[Ha2 Hf2] Hoff] Hn2].
    pose proof (entry_wf _ _ _ _ _ Hinv2) as Hw2. pose proof (instrs_length _ Hw2) as Hl2.
    pose proof (instrs_length _ (ex_wf _ _ _ _ Hx)) as Hl.
    pose proof (code_width_bounds (instrs (block e))) as Hcw.
    pose proof (ex_end _ _ _ _ Hx) as Hend.
    assert (Hne : cache_index SIZE b <> cache_index SIZE next).
    { intros E. unfold BlockCache.entry in He, He2. rewrite E, He2 in He. injection He as ->.
      pose proof (ex_address _ _ _ _ Hx). lia. }
    assert (Hlen2 : 0 <= num_instr (block e2)) by lia.
    destruct (push_adjacent_eq b next e2 (Z.to_nat (num_instr (block e2))) Hne Hw2 0 bc e)
      as (eF & E & HwF & HaF & HfF & HiF); try assumption; try lia; [apply Hes | apply Hx |].
    rewrite Z2Nat.id in E by lia. rewrite (bind_eq _ _ _ _ _ E). eexists; split; [reflexivity|].
    change (drop (Z.to_nat 0) (instrs (block e2))) with (instrs (block e2)) in HiF.
    assert (HxF : extends fence b eF (next + code_width (instrs (block e2))) /\
              b mod 4096 + code_width (instrs (block eF)) <= 4096).
    { rewrite HiF, code_width_app. destruct (Z.eq_dec (num_instr (block e2)) 0) as [Hz|Hz].
      - assert (Hnil : instrs (block e2) = []) by (apply length_zero_iff_nil; lia).
        rewrite Hnil in *. rewrite app_nil_r in HiF. change (code_width []) with 0. rewrite !Z.add_0_r.
        split; [|assumption]. destruct Hx. constructor; try congruence.
      - destruct (entry_live _ _ _ _ _ Hinv2 ltac:(lia) Hf2) as [_ (Hr2 & He2' & Hc2 & Hp2)].
        rewrite Ha2 in *. split.
        + destruct Hx. constructor; try congruence.
          * rewrite HiF, code_at_app, Hend. split; assumption.
          * rewrite HiF, code_width_app. lia.
        + rewrite <- Hend in Hp2, Hoff. pose proof (proj1 (ex_range _ _ _ _ Hx)).
          rewrite mod_within in Hp2 by lia. lia. }
    destruct HxF as [HxF HpF]. split_and!; [|cbn|].
    + unfold current_inv. cbn. right. reflexivity.
    + rewrite Hf. apply set_entry_inv; [assumption..|]. eapply extends_entry_inv; eassumption.
    + split; reflexivity.
  - exists bc. split; [reflexivity|]. split_and!; [| rewrite Hf; assumption | split; reflexivity].
    unfold current_inv. rewrite Hcur. destruct (Z.eqb_spec b NO_ADDRESS); [contradiction|].
    exists e. destruct Hx. split_and!; congruence.
Qed.

(** ** Choosing the entry to extend *)

(** A block started afresh. *)
Lemma start_building a bc e : urange 32 (fence_counter bc) ->
  entries_inv (fence_counter bc) (entries bc) ->
  urange 64 a -> Z.even a = true -> current_block_addr bc = a -> entry (entries bc) a = Some e ->
  let e' := cached_start_block a (fence_counter bc) e in
  let bc' := with_entries (set_entry a e' (entries bc)) bc in
  building (fence_counter bc) a a e' bc' /\ num_instr (block e') = 0 /\ instrs (block e') = [].
Proof.
  intros Hfr Hes Ha He Hcur Hentry e' bc'.
  assert (Hwf : block_wf (block e)).
  { destruct (entry_some SIZE Hconfig s _ _ a Hes) as (e0 & E0 & Hi).
    rewrite Hentry in E0. injection E0 as <-. apply Hi. }
  assert (Hx : extends (fence_counter bc) a e' a)
    by (constructor; try reflexivity; try assumption; [apply empty_wf, Hwf | .. | apply Z.add_0_r]; exact I).
  split_and!; try reflexivity. constructor; try assumption; try reflexivity; cbn.
  - apply set_entry_inv; [assumption..|].
    apply entry_inv_empty; [apply Hx | assumption | reflexivity].
  - apply entry_set_same; [assumption|]. apply Hes.
Qed.

(** Where the next instruction goes: a block to start at [a], or a block that
    ends there. *)
Definition ready (a : Z) (bc : BlockCacheState) : Prop :=
  current_block_addr bc = a \/
  exists e, building (fence_counter bc) (current_block_addr bc) a e bc /\
    0 < num_instr (block e) /\
    current_block_addr bc mod 4096 + code_width (instrs (block e)) = a mod 4096.

Lemma current_entry_sound a bc : urange 32 (fence_counter bc) ->
  entries_inv (fence_counter bc) (entries bc) -> urange 64 a -> Z.even a = true -> ready a bc ->
  exists b bc1 e, current_entry SIZE a bc = Some ((b, num_instr (block e)), bc1) /\
    building (fence_counter bc) b a e bc1 /\ num_instr (block e) < CACHE_INSTR /\
    b mod 4096 + code_width (instrs (block e)) = a mod 4096 /\ same_rest bc bc1.
Proof.
  intros Hfr Hes Ha He Hready. unfold current_entry.
  rewrite (bind_eq (mget current_block_addr) _ bc _ bc eq_refl).
  rewrite (bind_eq (mget fence_counter) _ bc _ bc eq_refl).
  destruct (entry_some SIZE Hconfig s _ _ (current_block_addr bc) Hes) as (e & Hentry & Hinv).
  rewrite (bind_eq _ _ _ _ _ (read_entry_eq SIZE _ bc e Hentry)).
  destruct Hready as [Hcur | (e0 & Hb & Hnum & Hpage)].
  - rewrite Hcur in *.
    replace (negb (address e =? a) || (address e =? a)) with true by (destruct (address e =? a); reflexivity).
    destruct (start_building a bc e Hfr Hes Ha He Hcur Hentry) as (Hbuild & Hn & Hi).
    rewrite (bind_eq _ _ _ _ _ (entry_mut_eq SIZE a (fun e => Some (cached_start_block a (fence_counter bc) e))
      bc e _ Hentry eq_refl)).
    eexists a, _, _. split_and!; [rewrite <- Hn; reflexivity | exact Hbuild | rewrite Hn; reflexivity | |
      apply with_entries_rest].
    rewrite Hi. apply Z.add_0_r.
  - pose proof (bd_entry _ _ _ _ _ Hb) as E0. rewrite Hentry in E0. injection E0 as <-.
    pose proof (ex_address _ _ _ _ (bd_extends _ _ _ _ _ Hb)) as Haddr.
    pose proof (ex_end _ _ _ _ (bd_extends _ _ _ _ _ Hb)) as Hend.
    pose proof (ex_wf _ _ _ _ (bd_extends _ _ _ _ _ Hb)) as Hwf.
    pose proof (instrs_length _ Hwf). pose proof (code_width_bounds (instrs (block e))).
    rewrite Haddr, Z.eqb_refl. cbn [negb orb].
    destruct (Z.eqb_spec (current_block_addr bc) a); [lia|].
    destruct (Z.eqb_spec (num_instr (block e)) CACHE_INSTR) as [Hfull|Hfull].
    + set (bc0 := with_next_instr_addr 0 (with_current_block_addr a bc)).
      rewrite (bind_eq (reset_to a) _ bc tt bc0 eq_refl).
      destruct (entry_some SIZE Hconfig s _ _ a Hes) as (e1 & Hentry1 & _).
      destruct (start_building a bc0 e1 Hfr Hes Ha He eq_refl Hentry1) as (Hbuild & Hn & Hi).
      rewrite (bind_eq _ _ _ _ _ (entry_mut_eq SIZE a (fun e => Some (cached_start_block a (fence_counter bc) e))
        bc0 e1 _ Hentry1 eq_refl)).
      eexists a, _, _. split_and!; [rewrite <- Hn; reflexivity | exact Hbuild | rewrite Hn; reflexivity | |
        split; reflexivity].
      rewrite Hi. apply Z.add_0_r.
    + exists (current_block_addr bc), bc, e. split_and!; [reflexivity | assumption | | assumption |
        split; reflexivity].
      pose proof (wf_len _ Hwf). lia.
Qed.

(** ** Adding an instruction *)
Lemma cache_inner_sound a i bc : urange 32 (fence_counter bc) ->
  entries_inv (fence_counter bc) (entries bc) -> Z.even a = true -> ready a bc ->
  instr_at a i s -> a mod 4096 + instr_bytes i <= 4096 ->
  exists bc', cache_inner SIZE (instr_bytes i) a i bc = Some (tt, bc') /\ merged bc bc'.
Proof.
  intros Hfr Hes He Hready Hi Hpage. pose proof (proj1 Hi) as Ha.
  destruct (current_entry_sound a bc Hfr Hes Ha He Hready)
    as (b & bc1 & e & E1 & [Hf1 _ Hes1 Hentry1 Hx1 Hcur1] & Hn & Hp1 & Hrest1).
  unfold cache_inner. rewrite (bind_eq _ _ _ _ _ E1).
  destruct (extends_push _ _ _ _ _ Hx1 Hi Hn) as (e' & Hpush & Hx' & Hn' & Hi').
  rewrite (bind_eq _ _ _ _ _ (entry_mut_eq SIZE b _ bc1 e e' Hentry1 Hpush)).
  pose proof (instr_at_end _ _ _ Hok Hi) as Hend.
  assert (Hwrap : wrap 64 (a + instr_bytes i) = a + instr_bytes i)
    by (apply wrap_small; unfold urange in *; destruct (instr_bytes_cases i); lia).
  cbv zeta. rewrite Hwrap, <- Hn'.
  set (bc2 := with_next_instr_addr (a + instr_bytes i)
                (with_entries (set_entry b e' (entries bc1)) bc1)).
  rewrite (bind_eq (mput _) _ _ tt bc2 eq_refl).
  assert (Hp2 : b mod 4096 + code_width (instrs (block e')) <= 4096)
    by (rewrite Hi', code_width_app, code_width_cons; change (code_width []) with 0; lia).
  destruct (merge_adjacent_sound (fence_counter bc) b (a + instr_bytes i) e' bc2) as (bc3 & E3 & Hm).
  - constructor; try assumption; cbn.
    + apply set_entry_inv; [assumption..|]. eapply extends_entry_inv; eassumption.
    + apply entry_set_same; [assumption | apply Hes1].
  - pose proof (wf_len _ (ex_wf _ _ _ _ Hx1)). lia.
  - exact Hp2.
  - reflexivity.
  - exists bc3. split; [exact E3|]. destruct Hm as (Hc & He3 & Hr3), Hrest1 as [Hr1 Hr2].
    assert (Hbc2 : fence_counter bc2 = fence_counter bc /\ partial_block bc2 = partial_block bc)
      by (split; [exact Hf1 | exact Hr2]).
    destruct Hbc2 as [Hb2 Hb2']. rewrite Hb2 in He3. split_and!; [assumption..|].
    destruct Hr3 as [Hr3 Hr3']. split; congruence.
Qed.

Lemma start_of_block_sound a bc : cache_inv SIZE s bc -> urange 64 a -> Z.even a = true ->
  exists bc', start_of_block a bc = Some (tt, bc') /\ ready a bc' /\
    entries bc' = entries bc /\ same_rest bc bc'.
Proof.
  intros [Hfr Hes Hcur _] Ha He. unfold start_of_block.
  rewrite (bind_eq (mget next_instr_addr) _ bc _ bc eq_refl), land_offset.
  destruct ((a mod 4096 =? 0) || negb (a =? next_instr_addr bc)) eqn:Hnew.
  - eexists. split; [reflexivity|]. split_and!; [left; reflexivity | reflexivity | split; reflexivity].
  - apply orb_false_iff in Hnew as [Hoff Hnext]. apply Z.eqb_neq in Hoff.
    apply negb_false_iff, Z.eqb_eq in Hnext.
    exists bc. split; [reflexivity|]. split_and!; [right | reflexivity | split; reflexivity].
    unfold current_inv in Hcur. destruct (Z.eqb_spec (current_block_addr bc) NO_ADDRESS) as [E|E].
    + exfalso. destruct Hcur as [Hz|Hz]; rewrite Hz in Hnext.
      * rewrite Hnext in Hoff. apply Hoff. reflexivity.
      * rewrite Hnext, no_address_odd in He. discriminate.
    + destruct Hcur as (e & Hentry & Haddr & Hf & Hnum & Hend). exists e.
      destruct (entry_some SIZE Hconfig s _ _ (current_block_addr bc) Hes) as (e' & Hentry' & Hinv).
      rewrite Hentry in Hentry'. injection Hentry' as <-.
      destruct (entry_live _ _ _ _ _ Hinv Hnum Hf) as [_ (Hr & Hev & Hc & Hp)].
      rewrite Haddr in *. pose proof (code_width_bounds (instrs (block e))).
      rewrite Hend in Hnext. split_and!; [|assumption|].
      * constructor; try assumption; try reflexivity.
        constructor; try assumption; [apply Hinv | symmetry; exact Hnext].
      * rewrite Hnext in *. symmetry. apply mod_within; unfold urange in *; lia.
Qed.

Lemma merged_inv bc bc' : cache_inv SIZE s bc -> in_progress (partial_block bc) = false ->
  merged bc bc' -> cache_inv SIZE s bc' /\ in_progress (partial_block bc') = false.
Proof.
  intros [Hfr _ _ _] Hp (Hc & Hes & Hf & Hpb). rewrite Hpb. split; [|assumption].
  constructor; rewrite ?Hf; try assumption. intros Hin. rewrite Hpb, Hp in Hin. discriminate.
Qed.

Lemma push_sound a i bc : cache_inv SIZE s bc -> in_progress (partial_block bc) = false ->
  Z.even a = true -> instr_at a i s -> a mod 4096 + instr_bytes i <= 4096 ->
  exists bc', (start_of_block a ;;; cache_inner SIZE (instr_bytes i) a i) bc = Some (tt, bc') /\
    cache_inv SIZE s bc' /\ in_progress (partial_block bc') = false.
Proof.
  intros Hinv Hp He Hi Hpage.
  destruct (start_of_block_sound a bc Hinv (proj1 Hi) He) as (bc1 & E1 & Hready & Hent & Hf & Hpb).
  rewrite (bind_eq _ _ _ _ _ E1).
  destruct (cache_inner_sound a i bc1) as (bc2 & E2 & Hm); rewrite ?Hf, ?Hent; try assumption;
    try apply Hinv.
  exists bc2. split; [exact E2|]. apply (merged_inv bc); [assumption..|].
  destruct Hm as (Hc & Hes & Hrest1 & Hrest2). rewrite Hf in Hes. split_and!; [assumption..|].
  split; congruence.
Qed.

(** What fetching an instruction tells the cache. *)
Lemma push_fetched_sound a i b bc : cache_inv SIZE s bc -> in_progress (partial_block bc) = false ->
  urange 64 a -> Z.even a = true -> fetched a s = Ok (i, b) ->
  exists bc', push_fetched (BlockCache0 := block_cache SIZE) a i b bc = Some (tt, bc') /\
    cache_inv SIZE s bc' /\ in_progress (partial_block bc') = false.
Proof.
  intros Hinv Hp Ha He Hf.
  assert (Hsame : exists bc', Some (tt, bc) = Some (tt, bc') /\ cache_inv SIZE s bc' /\
                    in_progress (partial_block bc') = false) by (exists bc; auto).
  destruct i as [c|u]; [|exact Hsame]. destruct b; [|exact Hsame].
  assert (Hi : instr_at a (instruction_of_cacheable c) s) by (split; [|exists c]; auto).
  pose proof (Z.mod_pos_bound a 4096 ltac:(lia)) as Hoff.
  assert (Hoffe : Z.even (a mod 4096) = true).
  { rewrite Z.mod_eq, Z.even_sub, He, Z.even_mul by lia. reflexivity. }
  cbn [push_fetched]. pose proof (dispatched_width c) as Hw.
  assert (Hb : instr_bytes (instruction_of_cacheable c) = width_bytes (cacheable_width c))
    by (unfold instr_bytes; rewrite Hw; reflexivity).
  destruct (cacheable_width c) eqn:Hcw; cbn [bc_push_instr_compressed bc_push_instr_uncompressed block_cache].
  - unfold push_instr_compressed. rewrite Hw, bool_decide_true by reflexivity.
    cbn [debug_assert]. rewrite bind_ret.
    rewrite <- Hb. apply push_sound; try assumption. rewrite Hb. cbn.
    destruct (Z.eq_dec (a mod 4096) 4095) as [E|E]; [rewrite E in Hoffe; discriminate|]. lia.
  - unfold push_instr_uncompressed. rewrite Hw, bool_decide_true by reflexivity.
    change PAGE_SIZE with 4096. cbv zeta. cbn [debug_assert]. rewrite bind_ret.
    destruct (Z.eqb_spec (a mod 4096) (4096 - 2)); [exact Hsame|].
    rewrite <- Hb. apply push_sound; try assumption. rewrite Hb. cbn.
    destruct (Z.eq_dec (a mod 4096) 4095) as [E|E]; [rewrite E in Hoffe; discriminate|].
    destruct (Z.eq_dec (a mod 4096) 4093) as [E'|E']; [rewrite E' in Hoffe; discriminate|]. lia.
Qed.

(** ** Finding a block *)
Lemma get_block_cases a bc : cache_inv SIZE s bc -> in_progress (partial_block bc) = false ->
  exists e, entry (entries bc) a = Some e /\ block_wf (block e) /\
    (get_block SIZE (Mem := Mem) a bc = Some (None, bc) \/
     get_block SIZE (Mem := Mem) a bc = Some (Some (block_call_run e), bc) /\
     address e = a /\ 0 < num_instr (block e) /\ c_fence_counter e = fence_counter bc /\
     block_at a (instrs (block e)) s).
Proof.
  intros Hinv Hp. destruct Hinv as [Hfr Hes _ _].
  destruct (entry_some SIZE Hconfig s _ _ a Hes) as (e & Hentry & Hi).
  exists e. split; [assumption|]. split; [apply Hi|].
  unfold get_block. rewrite (bind_eq (mget partial_block) _ bc _ bc eq_refl), Hp.
  cbn [negb debug_assert]. rewrite bind_ret, (bind_eq _ _ _ _ _ (read_entry_eq SIZE a bc e Hentry)).
  rewrite (bind_eq (mget fence_counter) _ bc _ bc eq_refl).
  destruct ((address e =? a) && (fence_counter bc =? c_fence_counter e) && (0 <? num_instr (block e)))
    eqn:Hfound; [right | left; reflexivity].
  rewrite !andb_true_iff, !Z.eqb_eq, Z.ltb_lt in Hfound. destruct Hfound as [[Ha Hf] Hn].
  destruct (entry_live _ _ _ _ _ Hi Hn (eq_sym Hf)) as [_ Hb]. rewrite Ha in Hb.
  split_and!; auto.
Qed.
End Ops.

(** ** Dropping all blocks *)
Section Drop.
Context {Mem : Type} `{Memory Mem} `{!MemoryLaws Mem} `{!MemoryExecLaws Mem}.
Implicit Types s : MachineCoreState Mem.
Context (SIZE : Z) (Hconfig : config_ok SIZE = true).

(** The counter's step, from the point of view of an entry made at [f]. *)
Lemma fence_age fence f : urange 32 fence -> urange 32 f ->
  let d := wrap 32 (fence - f) in
  0 <= d < 2 ^ 32 /\ wrap 32 (f + d) = fence /\
  wrap 32 (fence_next fence - f) = (if d + 1 =? 2 ^ 32 then 0 else d + 1).
Proof.
  unfold urange, fence_next, wrap. intros Hf Hf'. cbv zeta.
  split; [apply Z.mod_pos_bound; lia|].
  assert (Hd : (fence - f) mod 2 ^ 32 = fence - f \/ (fence - f) mod 2 ^ 32 = fence - f + 2 ^ 32).
  { destruct (Z.le_gt_cases f fence); [left; apply Z.mod_small; lia|right].
    symmetry. apply (Z.mod_unique_pos _ _ (-1)); lia. }
  split.
  - destruct Hd as [-> | ->]; symmetry; [apply (Z.mod_unique_pos _ _ 0) | apply (Z.mod_unique_pos _ _ 1)]; lia.
  - rewrite Zminus_mod_idemp_l. replace (fence + 1 - f) with (fence - f + 1) by lia.
    rewrite <- Zplus_mod_idemp_l. pose proof (Z.mod_pos_bound (fence - f) (2 ^ 32) ltac:(lia)).
    destruct (Z.eqb_spec ((fence - f) mod 2 ^ 32 + 1) (2 ^ 32)) as [E|E].
    + rewrite E. reflexivity.
    + apply Z.mod_small. lia.
Qed.

(** An entry that the counter has not passed, and that is not invalidated now,
    is older than the new counter and has still not been passed. *)
Lemma not_passed_next fence f i : urange 32 fence -> urange 32 f -> 0 <= i < SIZE ->
  not_passed SIZE fence f i -> cache_index SIZE fence <> i ->
  f <> fence_next fence /\ not_passed SIZE (fence_next fence) f i.
Proof.
  intros Hfence Hf Hi Hnp Hne. destruct (fence_age fence f Hfence Hf) as (Hd & Hc & Hd').
  assert (Hlt : wrap 32 (fence - f) + 1 <> 2 ^ 32).
  { intros E. destruct (index_reached SIZE Hconfig i Hi) as [H2i Hidx].
    destruct (fence_age (2 * i) f H2i Hf) as (Hk & Hck & _).
    destruct (Z.eq_dec (wrap 32 (2 * i - f)) (wrap 32 (fence - f))) as [Ek|Ek].
    - rewrite Ek, Hc in Hck. congruence.
    - apply (Hnp (wrap 32 (2 * i - f))); [lia|]. rewrite Hck. exact Hidx. }
  rewrite (proj2 (Z.eqb_neq _ _) Hlt) in Hd'. split.
  - intros ->. rewrite Z.sub_diag in Hd'. change (wrap 32 0) with 0 in Hd'. lia.
  - intros k Hk. rewrite Hd' in Hk.
    destruct (Z.eq_dec k (wrap 32 (fence - f))) as [->|Ek]; [rewrite Hc; exact Hne|].
    apply Hnp. lia.
Qed.

(** After an invalidation no entry is of the current counter, so that the cache
    is coherent with any memory. *)
Lemma invalidate_sound s s' bc : cache_inv SIZE s bc -> in_progress (partial_block bc) = false ->
  exists bc', cache_invalidate SIZE bc = Some (tt, bc') /\ cache_inv SIZE s' bc' /\
    in_progress (partial_block bc') = false /\
    forall i e, entries bc' !! i = Some e -> 0 < num_instr (block e) ->
      c_fence_counter e <> fence_counter bc'.
Proof.
  intros [Hfr Hes Hcur Hpart] Hp.
  destruct (entry_some SIZE Hconfig s _ _ (fence_counter bc) Hes) as (e & Hentry & Hinv).
  set (bc1 := with_next_instr_addr 0 (with_current_block_addr NO_ADDRESS
                (with_fence_counter (fence_next (fence_counter bc)) bc))).
  assert (Hold : forall i e', set_entry SIZE (fence_counter bc) (cached_invalidate e) (entries bc) !! i = Some e' ->
    block_wf (block e') /\ urange 32 (c_fence_counter e') /\
    (0 < num_instr (block e') ->
     c_fence_counter e' <> fence_next (fence_counter bc) /\
     not_passed SIZE (fence_next (fence_counter bc)) (c_fence_counter e') (Z.of_nat i))).
  { intros i e' Hi. pose proof (cache_index_range SIZE Hconfig (fence_counter bc)) as Hidx.
    unfold set_entry in Hi. apply list_lookup_insert_Some in Hi as [(<- & <- & _)|[Hne Hi]].
    - split_and!; [apply empty_wf, Hinv | apply Hinv | cbn; unfold num_instr; cbn; lia].
    - destruct (entries_all _ _ _ _ Hes i e' Hi) as [Hw Hf Ha _].
      split_and!; [assumption..|]. intros Hn.
      assert (Hlen : 0 <= Z.of_nat i < SIZE)
        by (pose proof (entries_size _ _ _ _ Hes); apply lookup_lt_Some in Hi; lia).
      apply not_passed_next; auto. intros E. apply Hne. rewrite E. lia. }
  exists (with_entries (set_entry SIZE (fence_counter bc) (cached_invalidate e) (entries bc)) bc1).
  split_and!.
  - unfold cache_invalidate. rewrite (bind_eq (mget fence_counter) _ bc _ bc eq_refl).
    exact (entry_mut_eq SIZE (fence_counter bc) (fun e => Some (cached_invalidate e)) bc1 e _ Hentry eq_refl).
  - constructor; cbn.
    + apply wrap_range. lia.
    + constructor; [unfold set_entry; rewrite length_insert; apply Hes|].
      intros i e' Hi. destruct (Hold i e' Hi) as (Hw & Hf & Hn). constructor; auto.
      * intros Hpos. apply (Hn Hpos).
      * intros Hpos E. destruct (Hn Hpos). contradiction.
    + unfold current_inv. cbn. left. reflexivity.
    + unfold partial_inv. cbn. rewrite Hp. discriminate.
  - exact Hp.
  - cbn. intros i e' Hi Hn. apply (proj2 (proj2 (Hold i e' Hi)) Hn).
Qed.

(** A cache whose blocks are all empty. *)
Lemma empty_cache_inv s bc : urange 32 (fence_counter bc) -> Z.of_nat (length (entries bc)) = SIZE ->
  Forall (fun e => block_wf (block e) /\ num_instr (block e) = 0 /\ urange 32 (c_fence_counter e))
    (entries bc) ->
  current_block_addr bc = NO_ADDRESS -> next_instr_addr bc = 0 \/ next_instr_addr bc = NO_ADDRESS ->
  in_progress (partial_block bc) = false -> cache_inv SIZE s bc.
Proof.
  intros Hf Hs Hall Hc Hn Hp. rewrite list.Forall_forall in Hall. constructor; [assumption | | |].
  - constructor; [assumption|]. intros i e Hi.
    destruct (Hall e (list_elem_of_lookup_2 _ _ _ Hi)) as (Hw & H0 & Hfe).
    apply entry_inv_empty; assumption.
  - unfold current_inv. rewrite Hc. exact Hn.
  - unfold partial_inv. rewrite Hp. discriminate.
Qed.

Lemma reset_sound s s' bc : cache_inv SIZE s bc ->
  exists bc', cache_reset bc = Some (tt, bc') /\ cache_inv SIZE s' bc' /\
    in_progress (partial_block bc') = false.
Proof.
  intros [Hfr [Hsize Hall] _ _]. eexists. split; [reflexivity|]. split; [|reflexivity].
  apply empty_cache_inv; cbn; auto; try (unfold urange, INITIAL; lia).
  - rewrite length_fmap. assumption.
  - apply Forall_fmap, list.Forall_forall. intros e He.
    apply list_elem_of_lookup_1 in He as [i Hi]. pose proof (wf_slots _ (entry_wf _ _ _ _ _ (Hall i e Hi))) as Hslots.
    cbn. split_and!; [|reflexivity | unfold urange, INITIAL; lia].
    constructor; cbn; [rewrite length_fmap; exact Hslots | unfold num_instr, CACHE_INSTR; cbn; lia].
Qed.

Lemma new_sound s : cache_inv SIZE s (cache_new SIZE).
Proof.
  destruct (size_pow SIZE Hconfig) as (n & Hn & E).
  apply empty_cache_inv; cbn; auto; try (unfold urange, INITIAL; lia).
  - rewrite length_replicate. pose proof (Z.pow_pos_nonneg 2 n). lia.
  - apply Forall_replicate. split_and!; [|reflexivity | cbn; unfold urange, INITIAL; lia].
    constructor; [reflexivity | unfold num_instr, CACHE_INSTR; cbn; lia].
Qed.
End Drop.
