(* ===== verification/BlockCacheRun.v ===== *)
(** * The block cache is transparent

    Running a block, in full or in part, is running the reference machine for
    as many steps ([run_block_sim], [run_partial_sim]); so the machine's loop
    with the cache is its loop without, from any coherent state. *)

From S2P Require Import Prelude.
From S2P Require Import Instr.
From S2P Require Import Instruction.
From S2P Require Import Constructors.
From S2P Require Import Icb.
From S2P Require Import Memory.
From S2P Require Import MemorySpec.
From S2P Require Import Core.
From S2P Require Import Run.
From S2P Require Import Step.
From S2P Require Import BlockCache.
From S2P Require Import IsaSpec.
From S2P Require Import CoreSpec.
From S2P Require Import IsaTheorems.
From S2P Require Import Frame.
From S2P Require Import StepSpec.
From S2P Require Import BlockCacheSpec.
From S2P Require Import BlockCacheOps.

Section RunSpec.
Context {Mem : Type} `{Memory Mem} `{!MemoryLaws Mem} `{!MemoryExecLaws Mem}.
Notation Core := (MachineCoreState Mem).
Notation Steps := (StepManyResult EnvironException).
Implicit Types s : Core.

(** ** One cached instruction *)
Lemma run_cached_execute i s : core_good s -> instr_at (pc (hart s)) i s ->
  execute s = run_cached_instr i s.
Proof.
  intros Hg (_ & c & Hf & ->). unfold execute, run_cached_instr, mbind, mlift. rewrite Hf.
  unfold run_instr_cacheable. destruct (instruction_run _); reflexivity.
Qed.

Lemma run_cached_frame i s o s' : core_good s -> instr_at (pc (hart s)) i s ->
  run_cached_instr i s = Some (o, s') -> exists w, width_bytes w = instr_bytes i /\ frame w s o s'.
Proof.
  intros [Hok He] (Ha & c & Hf & ->) E.
  destruct (fetched_decoded _ _ _ _ Hok Ha Hf) as [Hd _].
  exists (cacheable_width c). split; [unfold instr_bytes; rewrite dispatched_width; reflexivity|].
  unfold run_cached_instr, mbind, mlift in E.
  destruct (instruction_run (instruction_of_cacheable c)) as [f|] eqn:Hr; [|discriminate].
  eapply run_cacheable_frame; eassumption.
Qed.

(** After an instruction that advances, the rest of the code is at the new
    program counter. *)
Lemma run_next i l s w s' : core_good s -> code_at (pc (hart s)) (i :: l) s ->
  run_cached_instr i s = Some (Ok (Next w), s') ->
  let s1 := set_pc (wrap 64 (pc (hart s) + width_bytes w)) s' in
  one_step s = Some (Ok (pc (hart s1)), s1) /\ core_good s1 /\ code_at (pc (hart s1)) l s1 /\
  code_stable s s1 /\ pc (hart s1) = pc (hart s) + instr_bytes i.
Proof.
  intros Hg [Hi Hl] E s1. destruct (run_cached_frame _ _ _ _ Hg Hi E) as (w' & Hw & [Hok' Hst Hadv]). cbn in Hadv. subst w'.
  assert (H1 : one_step s = Some (Ok (pc (hart s1)), s1)).
  { unfold one_step. rewrite (run_cached_execute i) by assumption. rewrite E, handle_step_result_eq.
    reflexivity. }
  destruct (one_step_good _ _ _ Hg H1) as [Hg1 Hst1].
  assert (Hpc : pc (hart s1) = pc (hart s) + instr_bytes i).
  { cbn. rewrite Hw. apply wrap_small. destruct Hi as [Ha Hi].
    pose proof (instr_at_end _ _ _ (proj1 Hg) (conj Ha Hi)).
    unfold urange in *. destruct (instr_bytes_cases i); lia. }
  split_and!; try assumption. rewrite Hpc. eapply code_at_stable; [apply Hg | | exact Hst1 | exact Hl].
  unfold instr_bytes. rewrite Z.even_add, (proj2 Hg), width_bytes_even. reflexivity.
Qed.

Lemma run_set i s t s' : core_good s -> instr_at (pc (hart s)) i s ->
  run_cached_instr i s = Some (Ok (Set_ t), s') -> one_step s = Some (Ok t, set_pc t s').
Proof.
  intros Hg Hi E. unfold one_step. rewrite (run_cached_execute i), E, handle_step_result_eq by assumption.
  reflexivity.
Qed.

Definition done (k : Z) : Steps := {| steps := k; error := None |}.

Lemma ref_steps_S n s p s1 : one_step s = Some (Ok p, s1) ->
  ref_steps (S n) s =
    match ref_steps n s1 with Some (r, s2) => Some (merge (done 1) r, s2) | None => None end.
Proof. intros E. cbn [ref_steps]. unfold mbind. rewrite E. destruct (ref_steps n s1) as [[]|]; reflexivity. Qed.

Lemma ref_steps_1 s p s1 : one_step s = Some (Ok p, s1) -> ref_steps 1 s = Some (done 1, s1).
Proof. intros E. rewrite (ref_steps_S _ _ _ _ E). reflexivity. Qed.

Lemma ref_steps_fail n s : one_step s = None -> ref_steps (S n) s = None.
Proof. intros E. cbn [ref_steps]. unfold mbind. rewrite E. reflexivity. Qed.

(** ** Full blocks *)

(** What the loop of [run_block_inner] computes: [k] steps of the reference, and
    then possibly the start of a step that raises an exception. *)
Definition block_outcome (n : nat) (s : Core) (res : StepManyResult Exception)
    (out : option (Z * StepManyResult Exception * Core)) : Prop :=
  match out with
  | None => ref_steps n s = None
  | Some ((instr_pc, r), s') =>
      exists k, steps r = steps res + Z.of_nat k /\
      match error r with
      | None => (k <= n)%nat /\ ((n <> 0)%nat -> (k <> 0)%nat) /\
                ref_steps k s = Some (done (Z.of_nat k), s')
      | Some e => (k < n)%nat /\ exists s1, ref_steps k s = Some (done (Z.of_nat k), s1) /\
                  pc (hart s1) = instr_pc /\ execute s1 = Some (Err e, s')
      end
  end.

Lemma block_outcome_step n s p s1 res out : one_step s = Some (Ok p, s1) ->
  block_outcome n s1 {| steps := steps res + 1; error := error res |} out ->
  block_outcome (S n) s res out.
Proof.
  intros E. unfold block_outcome. destruct out as [[[ipc r] s']|].
  - intros (k & Hk & Hr). exists (S k). cbn [steps] in Hk. split; [lia|].
    assert (Hd : merge (done 1) (done (Z.of_nat k)) = done (Z.of_nat (S k)))
      by (unfold merge, done; cbn [steps error]; f_equal; lia).
    destruct (error r).
    + destruct Hr as (Hlt & s2 & E2 & Hpc & Hex). split; [lia|]. exists s2. split_and!; try assumption.
      rewrite (ref_steps_S _ _ _ _ E), E2, Hd. reflexivity.
    + destruct Hr as (Hle & _ & E2). split_and!; [lia | lia |].
      rewrite (ref_steps_S _ _ _ _ E), E2, Hd. reflexivity.
  - intros E2. rewrite (ref_steps_S _ _ _ _ E), E2. reflexivity.
Qed.

Lemma run_block_loop_sim l s res : core_good s -> code_at (pc (hart s)) l s -> error res = None ->
  block_outcome (length l) s res (run_block_loop l (pc (hart s)) res s).
Proof.
  revert s res; induction l as [|i l IH]; intros s res Hg Hc Hres.
  - exists 0%nat. cbn. rewrite Hres. split_and!; try reflexivity; lia || auto.
  - cbn [run_block_loop length]. unfold mbind at 1.
    destruct (run_cached_instr i s) as [[[[t|w]|e] s']|] eqn:E.
    + exists 1%nat. rewrite Hres. cbn [steps error mret]. split; [lia|]. split_and!; [lia | lia |].
      exact (ref_steps_1 _ _ _ (run_set _ _ _ _ Hg (proj1 Hc) E)).
    + destruct (run_next _ _ _ _ _ Hg Hc E) as (H1 & Hg1 & Hc1 & _ & _).
      eapply block_outcome_step; [exact H1|].
      exact (IH _ {| steps := steps res + 1; error := error res |} Hg1 Hc1 Hres).
    + exists 0%nat. cbn [steps error mret]. split; [lia|]. split; [lia|]. exists s.
      split_and!; [reflexivity | reflexivity |]. rewrite (run_cached_execute i) by (assumption || apply Hc).
      exact E.
    + apply ref_steps_fail. unfold one_step. rewrite (run_cached_execute i), E by (assumption || apply Hc).
      reflexivity.
Qed.

(** [k] steps of the reference, at least one and at most [n]. *)
Definition simulates (n : nat) (s : Core) (out : option (Steps * Core)) : Prop :=
  match out with
  | None => ref_steps n s = None
  | Some (r, s') => exists k, (0 < k <= n)%nat /\ ref_steps k s = Some (r, s')
  end.

Lemma run_block_sim b s : core_good s -> block_wf b -> 0 < num_instr b ->
  code_at (pc (hart s)) (instrs b) s ->
  simulates (Z.to_nat (num_instr b)) s (interpreted_run_block b (pc (hart s)) s).
Proof.
  intros Hg Hw Hn Hc. pose proof (instrs_length _ Hw) as Hlen.
  unfold interpreted_run_block. rewrite block_instr_eq, bind_lift by assumption.
  pose proof (run_block_loop_sim (instrs b) s ZERO Hg Hc eq_refl) as Hsim.
  replace (length (instrs b)) with (Z.to_nat (num_instr b)) in Hsim by lia.
  unfold run_block_inner, mbind at 1. unfold block_outcome in Hsim.
  destruct (run_block_loop (instrs b) (pc (hart s)) ZERO s) as [[[ipc r] s']|]; [|exact Hsim].
  destruct Hsim as (k & Hk & Hr). cbn [steps ZERO] in Hk. rewrite Z.add_0_l in Hk.
  destruct (error r) as [e|].
  - destruct Hr as (Hlt & s1 & E1 & Hpc & Hex).
    assert (Hstep : ref_steps (k + 1) s =
      match handle_step_result ipc (Err e) s' with
      | Some (Ok _, s2) => Some (done (Z.of_nat k + 1), s2)
      | Some (Err x, s2) => Some ({| steps := Z.of_nat k; error := Some x |}, s2)
      | None => None
      end).
    { rewrite ref_steps_add, E1. cbn [error done ref_steps]. unfold mbind, one_step.
      rewrite Hex, Hpc, handle_step_result_eq.
      destruct (stops (Err e)); cbn; unfold merge, done; cbn [steps error]; rewrite ?Z.add_0_r; reflexivity. }
    unfold mbind. rewrite handle_step_result_eq in Hstep |- *. rewrite Hk.
    destruct (stops (Err e)); exists (k + 1)%nat; (split; [lia | exact Hstep]).
  - destruct Hr as (Hle & Hpos & E1). exists k. split; [lia|]. rewrite Hk. exact E1.
Qed.

(** ** Partial blocks *)

(** The loop runs at most [n] instructions; it either leaves the block and
    resets it, or stops after [k] of them within the block. *)
Definition partial_outcome (n : nat) (l : list Instruction) (prog : Z) (p : PartialBlock) (s : Core)
    (res : Steps) (out : option (Loop * (Core * PartialBlock))) : Prop :=
  match out with
  | None => ref_steps n s = None
  | Some (Returned r, (s', p')) =>
      exists k r0, (0 < k <= n)%nat /\ ref_steps k s = Some (r0, s') /\ r = merge res r0 /\
        p' = partial_reset p
  | Some (Broke prog' r, (s', p')) =>
      ref_steps n s = Some (done (Z.of_nat n), s') /\ r = merge res (done (Z.of_nat n)) /\
      prog' = prog + Z.of_nat n /\ p' = p /\ pc (hart s') = pc (hart s) + code_width (take n l)
  end.

Lemma partial_outcome_step n l i prog p s s1 x res out : one_step s = Some (Ok x, s1) ->
  pc (hart s1) = pc (hart s) + instr_bytes i ->
  partial_outcome n l (prog + 1) p s1 (merge res (done 1)) out ->
  partial_outcome (S n) (i :: l) prog p s res out.
Proof.
  intros E Hpc. unfold partial_outcome.
  destruct out as [[[r|prog' r] [s' p']]|].
  - intros (k & r0 & Hk & E2 & -> & ->). exists (S k), (merge (done 1) r0).
    rewrite (ref_steps_S _ _ _ _ E), E2, merge_assoc. split_and!; (reflexivity || lia).
  - intros (E2 & -> & -> & -> & Hpc'). rewrite (ref_steps_S _ _ _ _ E), E2, merge_assoc.
    assert (Hd : merge (done 1) (done (Z.of_nat n)) = done (Z.of_nat (S n)))
      by (unfold merge, done; cbn [steps error]; f_equal; lia).
    rewrite Hd. cbn [take]. rewrite code_width_cons. split_and!; (reflexivity || lia).
  - intros E2. rewrite (ref_steps_S _ _ _ _ E), E2. reflexivity.
Qed.

Lemma run_partial_loop_sim l s p max prog (res : Steps) : core_good s -> code_at (pc (hart s)) l s ->
  error res = None -> steps res < max ->
  partial_outcome (Nat.min (length l) (Z.to_nat (max - steps res))) l prog p s res
    (run_partial_loop l max prog (pc (hart s)) res (s, p)).
Proof.
  revert s prog res; induction l as [|i l IH]; intros s prog res Hg Hc Hres Hm.
  - cbn. rewrite Z.add_0_r. split_and!; try reflexivity.
    + destruct res; cbn in *; subst. unfold merge, done; cbn. rewrite Z.add_0_r. reflexivity.
    + change (code_width []) with 0. lia.
  - replace (Nat.min (length (i :: l)) (Z.to_nat (max - steps res)))
      with (S (Nat.min (length l) (Z.to_nat (max - (steps res + 1))))) by (cbn [length]; lia).
    cbn [run_partial_loop]. unfold mbind at 1, run_on_core at 1.
    destruct (run_cached_instr i s) as [[[[t|w]|e] s']|] eqn:E.
    + pose proof (run_set _ _ _ _ Hg (proj1 Hc) E) as H1.
      exists 1%nat, (done 1). split_and!; [lia | lia | exact (ref_steps_1 _ _ _ H1) | | reflexivity].
      unfold merge, done; cbn. rewrite Hres. reflexivity.
    + destruct (run_next _ _ _ _ _ Hg Hc E) as (H1 & Hg1 & Hc1 & _ & Hpc1).
      eapply partial_outcome_step; [exact H1 | exact Hpc1 |].
      assert (Hd : {| steps := steps res + 1; error := error res |} = merge res (done 1))
        by (unfold merge, done; cbn; rewrite Hres; reflexivity).
      cbn [run_on_core on_hart mput mbind mret hart]. rewrite Hd.
      change (mput (with_pc _) (hart s')) with
        (Some (tt, with_pc (wrap 64 (pc (hart s) + width_bytes w)) (hart s'))).
      cbn [steps merge done].
      set (s1 := set_pc _ s') in *.
      destruct (Z.leb_spec max (steps res + 1)).
      * replace (Z.to_nat (max - (steps res + 1))) with 0%nat by lia. rewrite Nat.min_0_r.
        cbn. split_and!; try reflexivity; try lia.
        -- unfold merge, done; cbn. f_equal. lia.
        -- change (code_width (take 0 l)) with 0. lia.
      * pose proof (IH s1 (prog + 1) (merge res (done 1)) Hg1 Hc1 eq_refl ltac:(cbn; lia)) as Hsim.
        cbn [steps merge done] in Hsim. exact Hsim.
    + cbn [on_partial mbind]. unfold mbind, on_partial, run_on_core. rewrite handle_step_result_eq.
      assert (H1 : one_step s = handle_step_result (pc (hart s)) (Err e) s')
        by (unfold one_step; rewrite (run_cached_execute i), E by (assumption || apply Hc); reflexivity).
      rewrite handle_step_result_eq in H1. destruct (stops (Err e)) as [x|].
      * exists 1%nat, {| steps := 0; error := Some x |}. split_and!; [lia | lia | | | reflexivity].
        -- cbn. unfold mbind. rewrite H1. reflexivity.
        -- unfold merge; cbn. rewrite Z.add_0_r. reflexivity.
      * exists 1%nat, (done 1). split_and!; [lia | lia | exact (ref_steps_1 _ _ _ H1) | | reflexivity].
        unfold merge, done; cbn. rewrite Hres. reflexivity.
    + apply ref_steps_fail. unfold one_step. rewrite (run_cached_execute i), E by (assumption || apply Hc).
      reflexivity.
Qed.
End RunSpec.

(** ** The machine with the cache *)
Section Transparent.
Context {Mem : Type} `{Memory Mem} `{!MemoryLaws Mem} `{!MemoryExecLaws Mem}.
Notation Core := (MachineCoreState Mem).
Notation Steps := (StepManyResult EnvironException).
Context (SIZE : Z) (Hconfig : config_ok SIZE = true).
Implicit Types (s : Core) (bc : BlockCacheState).

#[local] Instance the_cache : BlockCache BlockCacheState Mem := block_cache SIZE.
Notation idle bc := (in_progress (partial_block bc) = false).

Lemma cache_inv_stable s s' bc : core_ok s -> code_stable s s' -> cache_inv SIZE s bc -> idle bc ->
  cache_inv SIZE s' bc.
Proof.
  intros Hok Hst [Hf He Hc Hp] Hidle. constructor; try assumption.
  - eapply entries_inv_stable; eassumption.
  - intros Hin. rewrite Hidle in Hin. discriminate.
Qed.

Lemma cache_step_sound s bc : core_good s -> cache_inv SIZE s bc -> idle bc ->
  exists bc', cache_step s bc = Some (tt, bc') /\ cache_inv SIZE s bc' /\ idle bc'.
Proof.
  intros [Hok He] Hinv Hidle. unfold cache_step.
  destruct (fetched (pc (hart s)) s) as [[i b]|e] eqn:Ef; [|exists bc; auto].
  destruct (push_fetched_sound SIZE Hconfig s Hok _ _ _ bc Hinv Hidle (ok_pc _ (ok_hart _ Hok)) He Ef)
    as (bc1 & E1 & Hinv1 & Hidle1).
  rewrite (bind_eq _ _ _ _ _ E1).
  destruct i as [c|[]]; try solve [exists bc1; auto].
  destruct (invalidate_sound SIZE Hconfig s s bc1 Hinv1 Hidle1) as (bc2 & E2 & Hinv2 & Hidle2 & _).
  exists bc2. auto.
Qed.

(** What running code of the cache is worth: at most [n] steps of the reference,
    all of them when it leaves a block partially run. *)
Definition machine_sim (n : nat) s (out : option (Steps * (Core * BlockCacheState))) : Prop :=
  match out with
  | None => ref_steps n s = None
  | Some (r, (s', bc')) =>
      cache_inv SIZE s' bc' /\
      exists k, (k <= n)%nat /\ ((0 < n)%nat -> (0 < k)%nat) /\ ref_steps k s = Some (r, s') /\
        (~ idle bc' -> k = n)
  end.

Lemma ref_steps_fail_mono n m s : (n <= m)%nat -> ref_steps n s = None -> ref_steps m s = None.
Proof. intros Hle E. replace m with (n + (m - n))%nat by lia. rewrite ref_steps_add, E. reflexivity. Qed.

Lemma partial_inner_sim s bc p e max : core_good s -> cache_inv SIZE s (with_partial_block p bc) ->
  0 < max -> in_progress p = true -> entry SIZE (entries bc) (addr p) = Some e ->
  machine_sim (Z.to_nat max) s
    (match run_partial_inner max e (s, p) with
     | Some (r, (s', p')) => Some (r, (s', with_partial_block p' bc))
     | None => None
     end).
Proof.
  intros Hg Hinv Hm Hp Hentry. destruct Hinv as [Hf Hes Hc Hpart].
  destruct (Hpart Hp) as (e' & Hentry' & Hfe & Hprog & Hpc). cbn in Hentry', Hfe, Hprog, Hpc.
  rewrite Hentry in Hentry'. injection Hentry' as <-.
  destruct (entry_some SIZE Hconfig s _ _ (addr p) Hes) as (e' & Hentry' & Hi).
  cbn in Hentry'. rewrite Hentry in Hentry'. injection Hentry' as <-.
  pose proof (entry_wf _ _ _ _ _ Hi) as Hw. pose proof (instrs_length _ Hw) as Hlen.
  destruct (entry_live _ _ _ _ _ Hi ltac:(lia) Hfe) as [_ (Hr & Hev & Hcode & Hpage)].
  set (prog := Z.to_nat (progress p)) in *.
  rewrite <- (take_drop prog (instrs (block e))) in Hcode.
  apply code_at_app in Hcode as [_ Hcode]. rewrite <- Hpc in Hcode.
  unfold run_partial_inner. destruct (Z.eqb_spec max 0) as [Hz|Hmax]; [lia|].
  rewrite (bind_eq (mget _) _ (s, p) (progress p) (s, p) eq_refl).
  rewrite (bind_eq _ _ (s, p) (pc (hart s)) (s, p))
    by (unfold run_on_core; rewrite exec_pc; reflexivity).
  rewrite block_instr_eq, bind_lift by assumption.
  rewrite (proj2 (Z.leb_le _ _)) by lia. fold prog.
  pose proof (run_partial_loop_sim (drop prog (instrs (block e))) s p max (progress p) ZERO Hg Hcode
    eq_refl Hm) as Hsim.
  cbn [steps ZERO] in Hsim. rewrite Z.sub_0_r in Hsim.
  rewrite length_drop in Hsim. set (n := Nat.min _ _) in Hsim.
  assert (Hstay : forall k r s', ref_steps k s = Some (r, s') -> forall p',
    (in_progress p' = true -> partial_inv SIZE s' (with_partial_block p' bc)) ->
    cache_inv SIZE s' (with_partial_block p' bc)).
  { intros k r s' E p' Hp'. destruct (ref_steps_good _ _ _ _ Hg E) as (_ & Hst & _).
    constructor; try assumption; [|intros Hin; apply Hp'; assumption].
    eapply entries_inv_stable; [apply Hg | exact Hst | exact Hes]. }
  unfold mbind at 1. unfold partial_outcome in Hsim.
  destruct (run_partial_loop _ max (progress p) (pc (hart s)) ZERO (s, p)) as [[[r|prog' r] [s' p']]|].
  - destruct Hsim as (k & r0 & Hk & E & -> & ->). rewrite merge_zero. cbn [mret].
    split; [eapply Hstay; [exact E | discriminate]|].
    exists k. split_and!; [lia | lia | exact E | intros Hn; exfalso; apply Hn; reflexivity].
  - destruct Hsim as (E & -> & -> & -> & Hpc'). rewrite merge_zero.
    assert (Hn0 : (0 < n)%nat) by (subst n; lia).
    destruct (Z.eqb_spec (progress p + Z.of_nat n) (num_instr (block e))) as [Hend|Hend];
      cbn [on_partial mbind mret]; unfold mbind, on_partial, mret.
    + split; [eapply Hstay; [exact E | discriminate]|].
      exists n. split_and!; [subst n; lia | lia | exact E | intros Hn; exfalso; apply Hn; reflexivity].
    + split; [eapply Hstay; [exact E|]|].
      * intros _ _. exists e. cbn. split_and!; try assumption; try (subst n prog; lia).
        rewrite Hpc', Hpc, <- Z.add_assoc, <- code_width_app. f_equal. f_equal.
        rewrite take_take_drop. f_equal. subst n prog. lia.
      * exists n. split_and!; [subst n; lia | lia | exact E |]. intros _. subst n prog. lia.
  - eapply ref_steps_fail_mono; [|exact Hsim]. subst n. lia.
Qed.

Lemma with_partial_run s bc {A} (f : M (Core * PartialBlock) A) :
  with_partial f (s, bc) =
    match f (s, partial_block bc) with
    | Some (a, (s', p')) => Some (a, (s', with_partial_block p' bc))
    | None => None
    end.
Proof. unfold with_partial. destruct (f _) as [[a [s' p']]|]; reflexivity. Qed.

Lemma with_partial_block_id bc : with_partial_block (partial_block bc) bc = bc.
Proof. destruct bc; reflexivity. Qed.

(** A block found by the cache, called with [max] steps left. *)
Lemma block_call_sim s bc e max : core_good s -> cache_inv SIZE s bc -> idle bc -> 0 < max ->
  entry SIZE (entries bc) (pc (hart s)) = Some e -> block_wf (block e) ->
  address e = pc (hart s) -> 0 < num_instr (block e) -> c_fence_counter e = fence_counter bc ->
  block_at (pc (hart s)) (instrs (block e)) s ->
  machine_sim (Z.to_nat max) s (block_call_run e (pc (hart s)) max (s, bc)).
Proof.
  intros Hg Hinv Hidle Hm Hentry Hw Ha Hn Hf (_ & _ & Hc & _).
  unfold block_call_run. destruct (Z.leb_spec (num_instr (block e)) max) as [Hfits|Hlong].
  - rewrite with_partial_run. unfold run_on_core.
    pose proof (run_block_sim (block e) s Hg Hw Hn Hc) as Hsim. unfold simulates in Hsim.
    destruct (interpreted_run_block _ _ s) as [[r s']|].
    + destruct Hsim as (k & Hk & E). rewrite with_partial_block_id.
      destruct (ref_steps_good _ _ _ _ Hg E) as (_ & Hst & _).
      split; [eapply cache_inv_stable; [apply Hg | exact Hst | assumption..]|].
      exists k. split_and!; [lia | lia | exact E | intros Hni; contradiction].
    + eapply ref_steps_fail_mono; [|exact Hsim]. lia.
  - rewrite with_partial_run. unfold run_block_partial, mbind at 1, on_partial at 1.
    apply partial_inner_sim; try assumption; [|reflexivity | rewrite Ha; exact Hentry].
    destruct Hinv as [Hfr Hes Hcur _]. constructor; try assumption.
    intros _. exists e. cbn [partial_block with_partial_block addr progress].
    rewrite Ha. change (take (Z.to_nat 0) (instrs (block e))) with (@nil Instruction).
    change (code_width []) with 0. split_and!; (assumption || lia).
Qed.

(** The loop, from a state with no partial block. *)
Definition loop_sim (n : nat) s (res : Steps) (out : option (Steps * (Core * BlockCacheState))) : Prop :=
  match ref_steps n s with
  | None => out = None
  | Some (r, s') => exists bc', out = Some (merge res r, (s', bc')) /\ cache_inv SIZE s' bc'
  end.

(** Going on after [k] steps. *)
Lemma loop_sim_continue n m k s r s1 res out : ref_steps k s = Some (r, s1) -> error r = None ->
  n = (k + m)%nat -> loop_sim m s1 (merge res r) out -> loop_sim n s res out.
Proof.
  intros E Hr -> Hsim. unfold loop_sim in *. rewrite ref_steps_add, E, Hr.
  destruct (ref_steps m s1) as [[r2 s2]|]; [|exact Hsim]. rewrite merge_assoc in Hsim. exact Hsim.
Qed.
Lemma loop_sim_stop n k s r s1 res bc : (k <= n)%nat -> ref_steps k s = Some (r, s1) ->
  error r <> None \/ k = n -> cache_inv SIZE s1 bc ->
  loop_sim n s res (Some (merge res r, (s1, bc))).
Proof.
  intros Hle E Hstop Hinv. unfold loop_sim. destruct Hstop as [Herr | ->]; [|rewrite E; eauto].
  replace n with (k + (n - k))%nat by lia. rewrite ref_steps_add, E.
  destruct (error r); [eauto | contradiction].
Qed.

Lemma step_loop_sim fuel s bc max (res : Steps) : core_good s -> cache_inv SIZE s bc -> idle bc ->
  error res = None -> max - steps res <= Z.of_nat fuel -> 0 <= max - steps res ->
  loop_sim (Z.to_nat (max - steps res)) s res (step_loop fuel max res (s, bc)).
Proof.
  revert s bc res; induction fuel as [|fuel IH]; intros s bc res Hg Hinv Hidle Hres Hfuel H0.
  1: replace (max - steps res) with 0 by lia.
  2: destruct (Z.eq_dec (max - steps res) 0) as [Hz|Hz]; [rewrite Hz|].
  1, 2: rewrite step_loop_done by lia; exists bc; split; [|assumption];
    destruct res; cbn in *; subst; unfold merge; cbn; rewrite Z.add_0_r; reflexivity.
  set (n := Z.to_nat (max - steps res)).
  destruct (get_block_cases SIZE Hconfig s (pc (hart s)) bc Hinv Hidle) as
    (e & Hentry & Hw & [Hnone | (Hsome & Ha & Hn & Hf & Hb)]).
  - rewrite step_loop_instr by (assumption || lia).
    destruct (cache_step_sound s bc Hg Hinv Hidle) as (bc1 & -> & Hinv1 & Hidle1).
    destruct (one_step s) as [[[p|x] s1]|] eqn:E1.
    + destruct (one_step_good _ _ _ Hg E1) as [Hg1 Hst].
      apply (loop_sim_continue n (Z.to_nat (max - (steps res + 1))) 1 s (done 1) s1);
        [exact (ref_steps_1 _ _ _ E1) | reflexivity | subst n; lia |].
      replace (merge res (done 1)) with {| steps := steps res + 1; error := error res |}
        by (unfold merge, done; cbn; rewrite Hres; reflexivity).
      apply (IH s1 bc1 {| steps := steps res + 1; error := error res |}); try assumption; cbn; try lia.
      eapply cache_inv_stable; [apply Hg | exact Hst | assumption..].
    + destruct (one_step_good _ _ _ Hg E1) as [_ Hst].
      assert (E : ref_steps 1 s = Some ({| steps := 0; error := Some x |}, s1))
        by (cbn; unfold mbind; rewrite E1; reflexivity).
      replace {| steps := steps res; error := Some x |} with (merge res {| steps := 0; error := Some x |})
        by (unfold merge; cbn; rewrite Z.add_0_r; reflexivity).
      apply (loop_sim_stop n 1 s); [subst n; lia | exact E | left; discriminate |].
      eapply cache_inv_stable; [apply Hg | exact Hst | assumption..].
    + unfold loop_sim. subst n. replace (Z.to_nat _) with (S (Z.to_nat (max - steps res - 1))) by lia.
      rewrite ref_steps_fail by assumption. reflexivity.
  - rewrite (step_loop_block fuel max res s bc (block_call_run e))
      by first [exact Hsome | lia].
    pose proof (block_call_sim s bc e (max - steps res) Hg Hinv Hidle ltac:(lia) Hentry Hw Ha Hn Hf Hb)
      as Hsim. fold n in Hsim. unfold machine_sim in Hsim.
    destruct (block_call_run e (pc (hart s)) (max - steps res) (s, bc)) as [[r [s1 bc1]]|];
      [|unfold loop_sim; rewrite Hsim; reflexivity].
    destruct Hsim as (Hinv1 & k & Hk & Hk0 & E & Hidle1).
    destruct (ref_steps_good _ _ _ _ Hg E) as (Hg1 & _ & _ & Hsteps).
    destruct (error r) as [x|] eqn:Hr;
      [apply (loop_sim_stop n k s); [assumption | exact E | left; congruence | exact Hinv1]|].
    pose proof (proj1 Hsteps eq_refl) as Hks.
    destruct (in_progress (partial_block bc1)) eqn:Hp.
    + assert (k = n) as -> by (apply Hidle1; discriminate).
      rewrite step_loop_done by (cbn; subst n; lia).
      apply (loop_sim_stop n n s); [lia | exact E | right; reflexivity | exact Hinv1].
    + apply (loop_sim_continue n (Z.to_nat (max - (steps res + steps r))) k s r s1);
        [exact E | exact Hr | subst n; lia |].
      apply (IH s1 bc1 (merge res r)); try assumption; cbn; subst n; lia.
Qed.

(** The whole of [step_max_inner]: complete the partial block, then loop. *)
Lemma step_max_inner_sim n s bc : core_good s -> cache_inv SIZE s bc ->
  loop_sim n s ZERO (step_max_inner (Z.of_nat n) (s, bc)).
Proof.
  intros Hg Hinv. unfold step_max_inner, mbind.
  cbn [bc_complete_current_block the_cache block_cache]. unfold complete_current_block.
  assert (Hloop : forall m k r s1 bc1, ref_steps k s = Some (r, s1) -> error r = None ->
    n = (k + m)%nat -> cache_inv SIZE s1 bc1 -> (m <> 0%nat -> idle bc1) ->
    loop_sim n s ZERO (step_loop (Z.to_nat (Z.of_nat n)) (Z.of_nat n)
      {| steps := 0 + steps r; error := None |} (s1, bc1))).
  { intros m k r s1 bc1 E Hr Hn Hinv1 Hidle1.
    destruct (ref_steps_good _ _ _ _ Hg E) as (Hg1 & _ & _ & Hsteps). pose proof (proj1 Hsteps Hr) as Hks.
    replace {| steps := 0 + steps r; error := None |} with r by (destruct r; cbn in *; subst; reflexivity).
    rewrite Nat2Z.id.
    apply (loop_sim_continue n m k s r s1); try assumption. rewrite merge_zero.
    destruct (Nat.eq_dec m 0%nat) as [->|Hm].
    - rewrite step_loop_done by lia. exists bc1. split; [|assumption].
      destruct r; cbn in *; subst. unfold merge; cbn. rewrite Z.add_0_r. reflexivity.
    - replace m with (Z.to_nat (Z.of_nat n - steps r)) by lia.
      apply step_loop_sim; auto; lia. }
  destruct (in_progress (partial_block bc)) eqn:Hp; cbn [negb].
  - destruct (inv_partial _ _ _ Hinv Hp) as (e & Hentry & _). rewrite Hentry.
    rewrite with_partial_run. destruct (Nat.eq_dec n 0%nat) as [->|Hn].
    + cbn. apply (Hloop 0%nat 0%nat ZERO); try reflexivity.
      * rewrite with_partial_block_id. exact Hinv.
      * intros Hm. contradiction.
    + pose proof (partial_inner_sim s bc (partial_block bc) e (Z.of_nat n) Hg
        ltac:(rewrite with_partial_block_id; exact Hinv) ltac:(lia) Hp Hentry) as Hsim.
      rewrite Nat2Z.id in Hsim. unfold machine_sim in Hsim.
      destruct (run_partial_inner _ e (s, partial_block bc)) as [[r [s1 p1]]|];
        [|unfold loop_sim; rewrite Hsim; reflexivity].
      destruct Hsim as (Hinv1 & k & Hk & Hk0 & E & Hidle1). cbn [merge_and_return error steps ZERO].
      destruct (error r) as [x|] eqn:Hr.
      * pose proof (loop_sim_stop n k s r s1 ZERO _ Hk E ltac:(left; congruence) Hinv1) as Hst.
        unfold merge in Hst. cbn in Hst. rewrite Hr in Hst. exact Hst.
      * apply (Hloop (n - k)%nat k r); try assumption; [lia|]. intros Hm.
        destruct (in_progress (partial_block (with_partial_block p1 bc))) eqn:Hp1; [|reflexivity].
        exfalso. apply Hm. rewrite (Hidle1 ltac:(discriminate)). lia.
  - cbn [merge_and_return error steps ZERO].
    apply (Hloop n 0%nat ZERO); try reflexivity; [exact Hinv | intros _; exact Hp].
Qed.
End Transparent.
