(* ===== verification/StepTheorems.v ===== *)
(** * The execution loop: properties

    The machine with its block cache, end to end: the cache is transparent and
    its blocks hold the code of memory in every reachable state, but not behind an
    unmapped page; a step does what the architecture says of the instruction at the
    program counter; and the loops make the number of steps
    they are asked for and terminate. *)

From S2P Require Import Prelude.
From S2P Require Import Registers.
From S2P Require Import Instr.
From S2P Require Import Instruction.
From S2P Require Import Icb.
From S2P Require Import Buddy.
From S2P Require Import Memory.
From S2P Require Import MemorySpec.
From S2P Require Import Core.
From S2P Require Import Run.
From S2P Require Import Step.
From S2P Require Import BlockCache.
From S2P Require Import StepChunks.
From S2P Require Import IsaSpec.
From S2P Require Import CoreSpec.
From S2P Require Import IsaRefinement.
From S2P Require Import IsaTheorems.
From S2P Require Import ZicsrSpec.
From S2P Require Import Frame.
From S2P Require Import StepSpec.
From S2P Require Import BlockCacheSpec.
From S2P Require Import BlockCacheOps.
From S2P Require Import BlockCacheRun.

Section Machine.
Context {Mem : Type} `{Memory Mem} `{!MemoryLaws Mem} `{!MemoryExecLaws Mem}.
Notation Core := (MachineCoreState Mem).
Notation Steps := (StepManyResult EnvironException).
Context (SIZE : Z) (Hconfig : config_ok SIZE = true).
Implicit Types (s : Core) (bc : BlockCacheState).

#[local] Instance machine_cache : BlockCache BlockCacheState Mem := block_cache SIZE.
Notation idle bc := (in_progress (partial_block bc) = false).

(** A coherent machine: the state the theorems start from. *)
Definition coherent (st : Core * BlockCacheState) : Prop :=
  core_good (fst st) /\ cache_inv SIZE (fst st) (snd st).

(** [step_max_inner] from a coherent state, by the reference. *)
Lemma step_max_inner_eq n s bc : coherent (s, bc) -> 0 <= n ->
  match ref_steps (Z.to_nat n) s with
  | None => step_max_inner n (s, bc) = None
  | Some (r, s') => exists bc', step_max_inner n (s, bc) = Some (r, (s', bc')) /\ coherent (s', bc')
  end.
Proof.
  intros [Hg Hinv] Hn. pose proof (step_max_inner_sim SIZE Hconfig (Z.to_nat n) s bc Hg Hinv) as Hsim.
  rewrite Z2Nat.id in Hsim by assumption. unfold loop_sim in Hsim.
  destruct (ref_steps (Z.to_nat n) s) as [[r s']|] eqn:E; [|exact Hsim].
  destruct Hsim as (bc' & Hrun & Hinv'). rewrite merge_zero in Hrun.
  exists bc'. split; [exact Hrun|]. split; [apply (ref_steps_good _ _ _ _ Hg E) | exact Hinv'].
Qed.

Lemma step_max_inner_coherent n s bc r st : coherent (s, bc) -> 0 <= n ->
  step_max_inner n (s, bc) = Some (r, st) ->
  coherent st /\ 0 <= steps r <= n /\ (error r = None <-> steps r = n).
Proof.
  intros Hc Hn E. pose proof (step_max_inner_eq n s bc Hc Hn) as Hsim.
  destruct (ref_steps (Z.to_nat n) s) as [[r' s']|] eqn:Er; [|congruence].
  destruct Hsim as (bc' & E' & Hc'). rewrite E in E'. injection E' as -> ->.
  destruct (ref_steps_good _ _ _ _ (proj1 Hc) Er) as (_ & _ & Hb & He).
  rewrite Z2Nat.id in * by assumption. auto.
Qed.

(** What a run without a cache and a run with it have in common: they take as many
    steps, to the same exception and the same core, and the cache stays coherent. *)
Definition runs_alike (plain : option (Steps * (Core * unit)))
    (cached : option (Steps * (Core * BlockCacheState))) : Prop :=
  match plain with
  | Some (r, (s', _)) => exists bc', cached = Some (r, (s', bc')) /\ coherent (s', bc')
  | None => cached = None
  end.

(** C2: the block cache is transparent.  From any coherent state, running [n]
    steps with the cache, from the partial block left by the last call and
    through whatever blocks it holds, builds or leaves unfinished, ends as the
    machine without a cache does that fetches and decodes every instruction: the
    same number of steps, the same exception and the same core, or the same
    failure; and the state is coherent again. *)
Theorem block_cache_transparent n s bc :
  coherent (s, bc) -> 0 <= n ->
  runs_alike (step_max_inner (BlockCache0 := no_cache) n (s, tt)) (step_max_inner n (s, bc)).
Proof.
  intros Hc Hn. pose proof (step_max_inner_eq n s bc Hc Hn) as Hsim.
  pose proof (no_cache_steps (Z.to_nat n) s (proj1 Hc)) as E. rewrite Z2Nat.id in E by assumption.
  unfold runs_alike. rewrite E.
  destruct (ref_steps (Z.to_nat n) s) as [[r s']|]; exact Hsim.
Qed.

(** ** Reachable states *)

(** What the supervisor does to the core between two runs: it sets registers and the
    program counter, writes bytes to memory through the permissions of its pages, or
    changes permissions and mappings in a way that leaves the code on pages that are not
    writable in place.  (The machine does not invalidate the cache when the guest takes
    the right to execute from a page of code: see [unmapped_code_runs].) *)
Inductive supervised s : Core -> Prop :=
| by_registers h : core_good (with_hart h s) -> supervised s (with_hart h s)
| by_writing a bs r m' : urange 64 a -> mem_write_all a bs (main_memory s) = Some (r, m') ->
    supervised s (with_memory m' s)
| by_governing m' : mem_inv m' -> code_stable s (with_memory m' s) -> supervised s (with_memory m' s).

Lemma supervised_good s s' : core_good s -> supervised s s' -> core_good s' /\ code_stable s s'.
Proof.
  intros [Hok He] [h Hg|a bs r m' Ha E|m' Hm Hst].
  - split; [exact Hg | apply code_stable_memory; reflexivity].
  - split; [|eapply code_stable_write_all; eassumption].
    split; [apply with_memory_ok; [exact Hok | eapply mem_write_all_inv; [apply Hok | eassumption..]] | exact He].
  - split; [|exact Hst]. split; [apply with_memory_ok; assumption | exact He].
Qed.

(** A new machine, running for any number of steps, being reset, and what the supervisor
    does between two runs. *)
Inductive reachable : Core * BlockCacheState -> Prop :=
| reach_new s : core_good s -> reachable (s, cache_new SIZE)
| reach_run n st r st' : reachable st -> 0 <= n -> step_max_inner n st = Some (r, st') -> reachable st'
| reach_reset s bc s' bc' : reachable (s, bc) -> core_good s' -> cache_reset bc = Some (tt, bc') ->
    reachable (s', bc')
| reach_supervisor s bc s' : reachable (s, bc) -> idle bc -> supervised s s' -> reachable (s', bc).

Lemma reachable_coherent st : reachable st -> coherent st.
Proof.
  induction 1 as [s Hg | n [s bc] r st' _ Hc Hn E | s bc s' bc' _ Hc Hg E | s bc s' _ Hc Hidle Hs].
  - split; [exact Hg | apply new_sound, Hconfig].
  - eapply step_max_inner_coherent; eassumption.
  - destruct (reset_sound SIZE s s' bc (proj2 Hc)) as (bc1 & E1 & Hinv & _).
    rewrite E in E1. injection E1 as <-. split; assumption.
  - destruct Hc as [Hg0 Hc]. cbn in *. destruct (supervised_good s s' Hg0 Hs) as [Hg Hst].
    split; [exact Hg|]. eapply cache_inv_stable; [apply Hg0 | exact Hst | assumption..].
Qed.

(** C14: a block that the cache offers is code of the program.  In every state reached by
    runs, resets and what the supervisor does in between (registers, writes to memory
    through its permissions, and changes of permissions and mappings that leave the code
    on executable, not writable pages in place), the block found at an address has from
    one to twenty instructions, which are what fetching and decoding from that address
    on gives, from executable and not writable memory; and it does not cross a page. *)
Theorem reachable_block_is_code s bc a run bc' :
  reachable (s, bc) -> idle bc -> get_block SIZE a bc = Some (Some run, bc') ->
  bc' = bc /\ exists e, run = block_call_run e /\
    1 <= num_instr (block e) <= CACHE_INSTR /\
    code_at a (instrs (block e)) s /\ Z.of_nat (length (instrs (block e))) = num_instr (block e) /\
    a mod PAGE_SIZE + code_width (instrs (block e)) <= PAGE_SIZE.
Proof.
  intros Hr Hidle E. destruct (reachable_coherent _ Hr) as [_ Hinv].
  destruct (get_block_cases SIZE Hconfig s a bc Hinv Hidle) as (e & _ & Hw & [E'|(E' & _ & Hn & _ & Hb)]);
    rewrite E in E'; [discriminate|]. injection E' as -> ->.
  split; [reflexivity|]. exists e. split; [reflexivity|].
  destruct Hb as (_ & _ & Hc & Hp). pose proof (wf_len _ Hw).
  split_and!; try assumption; try lia. apply instrs_length, Hw.
Qed.

(** C20: [FENCE.I] drops every block.  Invalidating bumps the counter and clears
    one entry only, and yet no block is found afterwards at any address, even
    when the counter wraps around; so the cache is coherent with whatever the
    memory holds then. *)
Theorem invalidate_drops_all s bc s' :
  cache_inv SIZE s bc -> idle bc ->
  exists bc', cache_invalidate SIZE bc = Some (tt, bc') /\ cache_inv SIZE s' bc' /\
    forall a, get_block SIZE (Mem := Mem) a bc' = Some (None, bc').
Proof.
  intros Hinv Hidle.
  destruct (invalidate_sound SIZE Hconfig s s' bc Hinv Hidle) as (bc' & E & Hinv' & Hidle' & Hdead).
  exists bc'. split; [exact E|]. split; [exact Hinv'|]. intros a.
  destruct (get_block_cases SIZE Hconfig s' a bc' Hinv' Hidle')
    as (e & Hentry & _ & [Hnone | (_ & _ & Hn & Hf & _)]); [exact Hnone|].
  exfalso. apply (Hdead _ _ Hentry Hn Hf).
Qed.

(** ** One step *)





(** ** Many steps *)

Lemma step_max_one_run s bc b fuel :
  coherent (s, bc) -> bounded b -> (0 < fuel)%nat ->
  step_max fuel b (s, bc) = step_max_inner (unwrap_bound b) (s, bc) /\
  forall r st, step_max fuel b (s, bc) = Some (r, st) ->
    0 <= steps r <= unwrap_bound b /\ (error r = None <-> steps r = unwrap_bound b).
Proof.
  intros Hc Hb Hfuel. pose proof (unwrap_bound_range b Hb) as [Hn _].
  assert (E : step_max fuel b (s, bc) = step_max_inner (unwrap_bound b) (s, bc)).
  { destruct fuel as [|fuel]; [lia|]. unfold step_max. cbn [step_max_loop]. unfold mbind at 1.
    destruct (step_max_inner (unwrap_bound b) (s, bc)) as [[r st]|] eqn:E; [|reflexivity].
    destruct (step_max_inner_coherent _ _ _ _ _ Hc Hn E) as (_ & Hr & He).
    cbn [merge_and_return steps error ZERO]. rewrite Z.add_0_l, less_than_unwrap by assumption.
    replace (match error r with Some _ => true | None => false end || negb (steps r <? unwrap_bound b))
      with true; [destruct r; reflexivity|].
    destruct (error r); [reflexivity|]. symmetry. apply negb_true_iff, Z.ltb_ge.
    rewrite (proj1 He eq_refl). lia. }
  split; [exact E|]. intros r st Er. rewrite E in Er.
  destruct (step_max_inner_coherent _ _ _ _ _ Hc Hn Er) as (_ & Hr & He). auto.
Qed.

(** C31: with a finite bound the loop of [step_max] runs once: it makes the steps
    of one [step_max_inner], as many as the bound allows unless an exception
    stops it, so that [step_max] terminates. *)
Theorem step_max_bounded s bc b fuel :
  coherent (s, bc) -> bounded b -> (0 < fuel)%nat ->
  step_max fuel b (s, bc) = step_max_inner (unwrap_bound b) (s, bc) /\
  forall r st, step_max fuel b (s, bc) = Some (r, st) ->
    0 <= steps r <= unwrap_bound b /\ (error r = None <-> steps r = unwrap_bound b).
Proof. apply step_max_one_run. Qed.

Section Handle.
Context {X E : Type} (handle : EnvironException -> M (Core * BlockCacheState * X) (result bool E)).
(** The handler keeps the machine coherent. *)
Context (Hhandle : forall e st x r st', coherent st -> handle e (st, x) = Some (r, st') -> coherent (fst st')).

(** The loop, one run of [step_max] at a time. *)
Lemma step_max_handle_loop_S fuel inner b count st x :
  step_max_handle_loop (S fuel) inner handle b count (st, x) =
    match step_max inner b st with
    | None => None
    | Some (res, st1) =>
        let st1 := (st1, x) in
        let count := saturating_add count (steps res) in
        match error res with
        | None => Some ({| steps := count; error := None |}, st1)
        | Some cause =>
            let count := saturating_add count 1 in
            match handle cause st1 with
            | None => None
            | Some (Err e, st2) => Some ({| steps := count; error := Some e |}, st2)
            | Some (Ok false, st2) => Some ({| steps := count; error := None |}, st2)
            | Some (Ok true, st2) =>
                step_max_handle_loop fuel inner handle
                  (bound_saturating_sub (bound_saturating_sub b (steps res)) 1) count st2
            end
        end
    end.
Proof.
  cbn [step_max_handle_loop]. unfold mbind, on_machine. destruct (step_max inner b st) as [[res st1]|]; [|reflexivity].
  destruct (error res) as [e|]; [|reflexivity]. destruct (handle _ (st1, x)) as [[[[]|err] st2]|]; reflexivity.
Qed.

(** What one run leaves: fewer steps than it was allowed when it ends in an
    exception, and a smaller bound. *)
Lemma step_max_run s bc b inner r st1 count :
  coherent (s, bc) -> bounded b -> (0 < inner)%nat -> 0 <= count -> count + unwrap_bound b < 2 ^ 64 ->
  step_max inner b (s, bc) = Some (r, st1) ->
  coherent st1 /\ 0 <= steps r <= unwrap_bound b /\
  saturating_add count (steps r) = count + steps r /\
  (error r <> None ->
   let b' := bound_saturating_sub (bound_saturating_sub b (steps r)) 1 in
   saturating_add (saturating_add count (steps r)) 1 = count + steps r + 1 /\
   bounded b' /\ unwrap_bound b' = unwrap_bound b - steps r - 1 /\ steps r < unwrap_bound b).
Proof.
  intros Hc Hb Hin H0 Hmax Er. pose proof (unwrap_bound_range b Hb) as [Hn _].
  destruct (step_max_one_run s bc b inner Hc Hb Hin) as [Ei _]. rewrite Er in Ei. symmetry in Ei.
  destruct (step_max_inner_coherent _ _ _ _ _ Hc Hn Ei) as (Hc1 & Hr & He).
  unfold saturating_add, usize_MAX. split_and!; try assumption; try lia.
  intros Herr. cbv zeta.
  assert (steps r <> unwrap_bound b) by (intros Heq; apply Herr, He, Heq).
  assert (Hb1 : bounded (bound_saturating_sub b (steps r)))
    by (apply bound_saturating_sub_bounded; [assumption | lia]).
  split_and!; [lia | apply bound_saturating_sub_bounded; [assumption | lia] | | lia].
  rewrite !bound_saturating_sub_unwrap by (assumption || lia). unfold saturating_sub. lia.
Qed.

Lemma step_max_handle_loop_bound fuel inner b count st :
  coherent (fst st) -> bounded b -> unwrap_bound b < Z.of_nat fuel -> (0 < inner)%nat ->
  0 <= count -> count + unwrap_bound b < 2 ^ 64 ->
  (forall fuel', (fuel <= fuel')%nat ->
    step_max_handle_loop fuel' inner handle b count st = step_max_handle_loop fuel inner handle b count st) /\
  (forall r st', step_max_handle_loop fuel inner handle b count st = Some (r, st') ->
    coherent (fst st') /\ count <= steps r <= count + unwrap_bound b).
Proof.
  revert b count st; induction fuel as [|fuel IH]; intros b count [[s bc] x] Hc Hb Hfuel Hin Hcount Hmax.
  { pose proof (unwrap_bound_range b Hb). lia. }
  enough (Hstep : forall fuel', (fuel <= fuel')%nat ->
    step_max_handle_loop (S fuel') inner handle b count (s, bc, x) =
    step_max_handle_loop (S fuel) inner handle b count (s, bc, x) /\
    (forall r st', step_max_handle_loop (S fuel) inner handle b count (s, bc, x) = Some (r, st') ->
      coherent (fst st') /\ count <= steps r <= count + unwrap_bound b)).
  { split; [intros [|fuel'] Hle; [lia | apply Hstep; lia] | apply (Hstep fuel); lia]. }
  intros fuel' Hle. rewrite !step_max_handle_loop_S.
  destruct (step_max inner b (s, bc)) as [[r st1]|] eqn:Er; [|split; [reflexivity | discriminate]].
  destruct (step_max_run _ _ _ _ _ _ count Hc Hb Hin Hcount Hmax Er) as (Hc1 & Hr & Hcnt & Herr).
  cbv zeta in *. destruct (error r) as [cause|];
    [|split; [reflexivity|]; intros r' st' [= <- <-]; rewrite Hcnt; cbn [steps]; auto with lia].
  destruct (Herr ltac:(discriminate)) as (-> & Hb1 & Hu1 & Hlt).
  destruct (handle cause (st1, x)) as [[[[]|err] st2]|] eqn:Eh; [| | |split; [reflexivity | discriminate]].
  2, 3: split; [reflexivity|]; intros r' st' [= <- <-]; cbn [steps]; split; [eapply Hhandle; eassumption | lia].
  destruct (IH _ (count + steps r + 1) st2 (Hhandle _ _ _ _ _ Hc1 Eh) Hb1 ltac:(lia) Hin ltac:(lia) ltac:(lia))
    as [IH1 IH2].
  split; [apply IH1; lia|]. intros r' st' E'. apply IH2 in E' as [Hc' Hs']. split; [exact Hc' | lia].
Qed.

(** C30: [step_max_handle] terminates and respects its bound.  With a handler that
    keeps the machine coherent and may always ask to go on, more fuel than one
    more than the bound changes nothing, so the loop ends by itself; and the
    steps it reports, which count a handled exception as one, never exceed the
    bound. *)
Theorem step_max_handle_terminates b fuel inner st :
  coherent (fst st) -> bounded b -> unwrap_bound b < Z.of_nat fuel -> (0 < inner)%nat ->
  (forall fuel', (fuel <= fuel')%nat ->
    step_max_handle fuel' inner b handle st = step_max_handle fuel inner b handle st) /\
  (forall r st', step_max_handle fuel inner b handle st = Some (r, st') ->
    coherent (fst st') /\ 0 <= steps r <= unwrap_bound b).
Proof.
  intros Hc Hb Hfuel Hin. pose proof (unwrap_bound_range b Hb).
  exact (step_max_handle_loop_bound fuel inner b 0 st Hc Hb Hfuel Hin ltac:(lia) ltac:(lia)).
Qed.
End Handle.

(** Running in chunks is exact.  From any state whose partial block is clean,
    as every run leaves it, whatever memory and cache hold: running [a + b]
    steps at once gives the same number of steps, the same exception, the same
    core and the same block cache, bit for bit, as running [a] steps and then [b]
    more unless the first run ends in an exception; and it panics when they do. *)
Theorem step_max_inner_splits a b st : clean st -> 0 < a -> 0 <= b ->
  step_max_inner (a + b) st =
    match step_max_inner a st with
    | None => None
    | Some (r, st1) =>
        match error r with
        | Some _ => Some (r, st1)
        | None =>
            match step_max_inner b st1 with
            | None => None
            | Some (r2, st2) => Some ({| steps := steps r + steps r2; error := error r2 |}, st2)
            end
        end
    end.
Proof. intros Hc Ha Hb. exact (step_max_inner_chunks SIZE a b st Hc Ha Hb). Qed.
End Machine.

(** ** Instances *)
#[local] Existing Instance two_pages_memory.
#[local] Existing Instance two_pages_laws.
#[local] Instance two_pages_exec_laws : MemoryExecLaws (MemoryImpl (BuddyLeaf 2)) := memory_impl_exec_laws 8192.

(** [addi x1, x0, -1] on a page that may be executed and not written. *)
Definition program : MemoryImpl (BuddyLeaf 2) :=
  {| m_data := [0x93; 0x00; 0xF0; 0xFF] ++ replicate (Z.to_nat 8188) 0;
     readable_pages := [true; true]; writable_pages := [false; true];
     executable_pages := [true; false]; allocated_pages := leaf_new |}.
Definition program_core : MachineCoreState (MemoryImpl (BuddyLeaf 2)) := mkCore hart_new program.

Lemma program_core_good : core_good program_core.
Proof.
  split; [|reflexivity]. constructor; [apply new_core_ok|].
  constructor; [lia | reflexivity..].
Qed.
Lemma program_coherent : coherent 4 (program_core, cache_new 4).
Proof. split; [exact program_core_good | apply new_sound; reflexivity]. Qed.

Lemma block_cache_transparent_witness :
  coherent 4 (program_core, cache_new 4) /\
  runs_alike 4 (step_max_inner (BlockCache0 := no_cache) 10 (program_core, tt))
    (step_max_inner (BlockCache0 := machine_cache 4) 10 (program_core, cache_new 4)).
Proof.
  split; [exact program_coherent|].
  pose proof (block_cache_transparent 4 eq_refl 10 program_core (cache_new 4) program_coherent ltac:(lia)) as Hrun.
  exact Hrun.
Defined.

(** The state after one step, with a block of one instruction. *)
Definition stepped : MachineCoreState (MemoryImpl (BuddyLeaf 2)) * BlockCacheState :=
  match step_max_inner (BlockCache0 := machine_cache 4) 1 (program_core, cache_new 4) with
  | Some (_, st) => st
  | None => (program_core, cache_new 4)
  end.

Lemma stepped_reachable : reachable 4 stepped.
Proof.
  assert (Hruns : match step_max_inner (BlockCache0 := machine_cache 4) 1 (program_core, cache_new 4) with
                  | Some _ => true | None => false end = true) by (lazy; reflexivity).
  unfold stepped.
  destruct (step_max_inner (BlockCache0 := machine_cache 4) 1 (program_core, cache_new 4)) as [[r st]|] eqn:E;
    [|discriminate Hruns].
  eapply reach_run; [apply reach_new, program_core_good | | exact E]. lia.
Qed.

(** The supervisor sets a register and writes a byte to the second page. *)
Definition supervised_core : MachineCoreState (MemoryImpl (BuddyLeaf 2)) :=
  let s := with_hart (hart (setx x5 7 (fst stepped))) (fst stepped) in
  match mem_write_all 4096 [42] (main_memory s) with
  | Some (_, m) => with_memory m s
  | None => s
  end.
Lemma supervised_reachable : reachable 4 (supervised_core, snd stepped).
Proof.
  assert (Hg : core_good (fst stepped))
    by exact (proj1 (reachable_coherent 4 eq_refl stepped stepped_reachable)).
  assert (Hidle : in_progress (partial_block (snd stepped)) = false) by (lazy; reflexivity).
  set (s1 := with_hart (hart (setx x5 7 (fst stepped))) (fst stepped)).
  assert (H1 : reachable 4 (s1, snd stepped)).
  { apply (reach_supervisor 4 (fst stepped));
      [rewrite <- surjective_pairing; exact stepped_reachable | exact Hidle|]. apply by_registers.
    split; [refine (setx_ok _ x5 7 (proj1 Hg) _); unfold urange; lia | exact (proj2 Hg)]. }
  unfold supervised_core. fold s1.
  destruct (mem_write_all 4096 [42] (main_memory s1)) as [[r m]|] eqn:E; [|exact H1].
  apply (reach_supervisor 4 s1); [exact H1 | exact Hidle|].
  eapply by_writing; [|exact E]. unfold urange; lia.
Qed.

Lemma reachable_block_is_code_witness :
  exists run, get_block 4 (Mem := MemoryImpl (BuddyLeaf 2)) 0 (snd stepped) = Some (Some run, snd stepped) /\
    exists e, run = block_call_run e /\ code_at 0 (instrs (block e)) supervised_core.
Proof.
  assert (Hfound : match get_block 4 (Mem := MemoryImpl (BuddyLeaf 2)) 0 (snd stepped) with
                   | Some (Some _, _) => true | _ => false end = true) by (lazy; reflexivity).
  destruct (get_block 4 (Mem := MemoryImpl (BuddyLeaf 2)) 0 (snd stepped)) as [[[run|] bc']|] eqn:E; try discriminate Hfound.
  assert (Hidle : in_progress (partial_block (snd stepped)) = false) by (lazy; reflexivity).
  destruct (reachable_block_is_code 4 eq_refl supervised_core (snd stepped) 0 run bc' supervised_reachable Hidle E)
    as (-> & e & He & _ & Hc & _).
  exists run. split; [reflexivity | exists e; split; assumption].
Defined.

(** [munmap] of the page of code, as the Linux supervisor does it, leaves the block in the
    cache: from address 0 the machine runs it, where fetching the instruction faults and
    the machine without a cache goes to the trap address. *)
Definition unmapped_core : MachineCoreState (MemoryImpl (BuddyLeaf 2)) :=
  match deallocate_and_protect_pages 0 4096 (main_memory (fst stepped)) with
  | Some (_, m) => set_pc 0 (with_memory m (fst stepped))
  | None => fst stepped
  end.
Theorem unmapped_code_runs :
  (exists m, deallocate_and_protect_pages 0 4096 (main_memory (fst stepped)) = Some (Ok tt, m)) /\
  fetched 0 unmapped_core = Err (InstructionAccessFault 0) /\
  (exists s bc, step (BlockCache0 := machine_cache 4) (unmapped_core, snd stepped) = Some (Ok tt, (s, bc)) /\ pc (hart s) = 4) /\
  (exists s, step (BlockCache0 := no_cache) (unmapped_core, tt) = Some (Ok tt, (s, tt)) /\ pc (hart s) = 0).
Proof.
  split; [eexists; lazy; reflexivity|]. split; [lazy; reflexivity|].
  split; [eexists _, _; split; lazy; reflexivity | eexists; split; lazy; reflexivity].
Qed.

Lemma invalidate_drops_all_witness :
  cache_inv 4 (fst stepped) (snd stepped) /\
  exists bc', cache_invalidate 4 (snd stepped) = Some (tt, bc') /\
    forall a, get_block 4 (Mem := MemoryImpl (BuddyLeaf 2)) a bc' = Some (None, bc').
Proof.
  assert (Hinv : cache_inv 4 (fst stepped) (snd stepped))
    by exact (proj2 (reachable_coherent 4 eq_refl stepped stepped_reachable)).
  split; [exact Hinv|].
  destruct (invalidate_drops_all 4 eq_refl (fst stepped) (snd stepped) program_core Hinv
    ltac:(lazy; reflexivity)) as (bc' & E & _ & Hnone).
  exists bc'. split; assumption.
Defined.


Lemma step_max_bounded_witness :
  bounded (Excluded 3) /\
  step_max (BlockCache0 := machine_cache 4) 1 (Excluded 3) (program_core, cache_new 4) =
    step_max_inner (BlockCache0 := machine_cache 4) 2 (program_core, cache_new 4).
Proof.
  assert (Hb : bounded (Excluded 3)) by (cbn; lia). split; [exact Hb|].
  pose proof (proj1 (step_max_bounded 4 eq_refl program_core (cache_new 4) (Excluded 3) 1
    program_coherent Hb ltac:(lia))) as Hrun.
  exact Hrun.
Defined.

(** A supervisor that always asks to go on. *)
Lemma step_max_handle_terminates_witness :
  let go_on : EnvironException -> M (MachineCoreState (MemoryImpl (BuddyLeaf 2)) * BlockCacheState * unit) (result bool unit) :=
    fun _ => mret (Ok true) in
  bounded (Included 7) /\
  step_max_handle (BlockCache0 := machine_cache 4) 100 1 (Included 7) go_on (program_core, cache_new 4, tt) =
    step_max_handle (BlockCache0 := machine_cache 4) 8 1 (Included 7) go_on (program_core, cache_new 4, tt).
Proof.
  intros go_on. assert (Hb : bounded (Included 7)) by (cbn; lia). split; [exact Hb|].
  pose proof (proj1 (step_max_handle_terminates 4 eq_refl go_on
    ltac:(intros e st x r st' Hc [= <- <-]; exact Hc) (Included 7) 8 1 (program_core, cache_new 4, tt)
    program_coherent Hb ltac:(cbn; lia) ltac:(lia)) 100%nat ltac:(lia)) as Hloop.
  exact Hloop.
Defined.

Lemma program_clean : clean (program_core, cache_new 4).
Proof. split; [reflexivity | cbn; lia]. Qed.

Lemma step_max_inner_splits_witness :
  clean (program_core, cache_new 4) /\
  step_max_inner (BlockCache0 := machine_cache 4) (1 + 2) (program_core, cache_new 4) =
    match step_max_inner (BlockCache0 := machine_cache 4) 1 (program_core, cache_new 4) with
    | None => None
    | Some (r, st1) =>
        match error r with
        | Some _ => Some (r, st1)
        | None =>
            match step_max_inner (BlockCache0 := machine_cache 4) 2 st1 with
            | None => None
            | Some (r2, st2) => Some ({| steps := steps r + steps r2; error := error r2 |}, st2)
            end
        end
    end.
Proof.
  split; [exact program_clean|].
  pose proof (step_max_inner_splits 4 1 2 (program_core, cache_new 4) program_clean ltac:(lia) ltac:(lia)) as Hsplit.
  exact Hsplit.
Defined.
