(* ===== verification/PvmSpec.v ===== *)
(** * The PVM: evaluation

    Evaluating many steps at once against evaluating them one at a time, on the
    whole state of the PVM: machine, block cache, status, counters, output. *)

From S2P Require Import Prelude.
From S2P Require Import Registers.
From S2P Require Import Icb.
From S2P Require Import Memory.
From S2P Require Import Core.
From S2P Require Import Step.
From S2P Require Import BlockCache.
From S2P Require Import StepChunks.
From S2P Require Import Buddy.
From S2P Require Import StepTheorems.
From S2P Require Import Linux.
From S2P Require Import Pvm.

Section Eval.
Context `{TezosEnv} {Mem : Type} `{Memory Mem} (SIZE : Z).
Notation Core := (MachineCoreState Mem).
Notation P := (Pvm Mem BlockCacheState).
Notation Captured := (SupervisorState * PvmStatus * RevealRequest * list Z)%type.

#[local] Instance pvm_cache : BlockCache BlockCacheState Mem := block_cache SIZE.

(** [n] evaluation steps, one at a time. *)
Fixpoint eval_times (n : nat) : M (P * list Z) unit :=
  match n with
  | O => mret tt
  | S n => eval_one ;;; eval_times n
  end.

(** The status is one that evaluation goes on from. *)
Definition not_revealing (st : PvmStatus) : Prop := st <> WaitingForReveal.

Lemma handler_status core sup st req out b core' sup' st' req' out' :
  pvm_handle_system_call (core, (sup, st, req, out)) = Some (b, (core', (sup', st', req', out'))) ->
  b = true -> not_revealing st -> not_revealing st'.
Proof.
  unfold pvm_handle_system_call, handle_system_call. destruct (_ ;;; _) as [[no s1]|]; [|discriminate].
  destruct (dispatch SBI_FIRMWARE_TEZOS no) as [call|].
  - destruct (_ <- call ;; _) as [[b1 s2]|]; [|discriminate]. intros [= <- <- <- <- <- <-]. auto.
  - unfold on_tezos, mbind, mget.
    destruct (handle_tezos (sys_core s1, (st, req))) as [[[] [core2 [st2 req2]]]|]; [|discriminate].
    intros [= <- <- <- <- <- <-] Hb _. apply bool_decide_eq_true in Hb. unfold not_revealing. congruence.
Qed.

Lemma eval_handler_cache e (st : Core * BlockCacheState) (x : Captured) r st1 x1 : eval_handler e (st, x) = Some (r, (st1, x1)) -> snd st1 = snd st.
Proof.
  destruct st as [core bc], x as [[[sup status] req] out]. unfold eval_handler.
  destruct (pvm_handle_system_call _) as [[b [core' x']]|]; [intros [= <- <- <-]; reflexivity | discriminate].
Qed.

(** One evaluation step, by the step of the machine and the handler. *)
Definition one (p : P) (out : list Z) : option (P * list Z) :=
  match step (machine_state p) with
  | None => None
  | Some (Ok _, ms) =>
      let '(p, out) := give_back p ms (snd (borrow p out)) in Some (add_ticks 1 p, out)
  | Some (Err e, ms) =>
      match eval_handler e (ms, snd (borrow p out)) with
      | Some (_, (ms, x)) => let '(p, out) := give_back p ms x in Some (add_ticks 1 p, out)
      | None => None
      end
  end.

Lemma eval_one_eq p out : not_revealing (status p) ->
  eval_one (p, out) = match one p out with Some q => Some (tt, q) | None => None end.
Proof.
  intros Hs. unfold eval_one, one. destruct p as [ms req sup v t mc lv ls st]. cbn [status machine_state] in *.
  unfold not_revealing in Hs.
  assert (Hcase : forall A (x y : A), match st with WaitingForReveal => x | _ => y end = y) by (intros; destruct st; congruence).
  rewrite Hcase. destruct (step ms) as [[[[]|e] [core bc]]|]; [reflexivity | | reflexivity].
  cbn [give_back borrow snd]. unfold handle_exception. cbn [give_back borrow snd machine_state system_state status reveal_request].
  unfold eval_handler. destruct (pvm_handle_system_call _) as [[b [core' [[[sup' st'] req'] out']]]|]; reflexivity.
Qed.

(** The PVM after a run that ends in the machine state and the captured state. *)
Definition after (p : P) (k : Z) (stx : Core * BlockCacheState * Captured) : P * list Z :=
  let '(q, out) := give_back p (fst stx) (snd stx) in (add_ticks k q, out).
Notation status_of stx := (snd (fst (fst (snd stx)))).

Lemma one_after p k stx :
  one (fst (after p k stx)) (snd (after p k stx)) =
    match step (fst stx) with
    | None => None
    | Some (Ok _, ms) => Some (after p (k + 1) (ms, snd stx))
    | Some (Err e, ms) =>
        match eval_handler e (ms, snd stx) with
        | Some (_, stx) => Some (after p (k + 1) stx)
        | None => None
        end
    end.
Proof.
  assert (Htick : forall t : Z, wrap 64 (wrap 64 (t + k) + 1) = wrap 64 (t + (k + 1)))
    by (intros t; unfold wrap; rewrite Zplus_mod_idemp_l; f_equal; lia).
  destruct stx as [ms [[[sup st] req] out]]. unfold one, after. cbn [fst snd give_back borrow].
  unfold add_ticks, with_tick, borrow. cbn -[eval_handler wrap step].
  destruct (step ms) as [[[[]|e] ms']|]; [cbn -[wrap]; rewrite <- ?Htick; reflexivity | | reflexivity].
  match goal with |- context [eval_handler e ?y] => destruct (eval_handler e y) as [[b [ms'' [[[sup' st'] req'] out']]]|] end; cbn -[wrap]; rewrite <- ?Htick; reflexivity.
Qed.

Notation supervisor_of stx := (fst (fst (fst (snd stx)))).
Lemma parts_after p k stx : system_state (fst (after p k stx)) = supervisor_of stx /\ status (fst (after p k stx)) = status_of stx.
Proof. destruct stx as [ms [[[sup st] req] out]]. split; reflexivity. Qed.
Lemma status_after p k stx : status (fst (after p k stx)) = status_of stx.
Proof. apply parts_after. Qed.

(** ** A property of the states that steps are made from

    It holds between the steps of a run that goes on: the handler keeps it when it
    lets the machine go on. *)
Section Holding.
Context (G : SupervisorState -> PvmStatus -> Prop).
Hypothesis G_not_revealing : forall sup st, G sup st -> not_revealing st.
Hypothesis G_handler : forall core sup st req out core' sup' st' req' out',
  pvm_handle_system_call (core, (sup, st, req, out)) = Some (true, (core', (sup', st', req', out'))) ->
  G sup st -> G sup' st'.

Definition holds (q : P * list Z) : Prop := G (system_state (fst q)) (status (fst q)).
(** It holds where each of [n] evaluation steps is made. *)
Definition holds_within (n : nat) (q : P * list Z) : Prop :=
  forall i q', (i < n)%nat -> eval_times i q = Some (tt, q') -> holds q'.

Lemma holds_within_S n q : holds q -> (forall q1, eval_one q = Some (tt, q1) -> holds_within n q1) -> holds_within (S n) q.
Proof.
  intros Hq Hn [|i] q' Hi; [intros [= <-]; exact Hq|]. cbn [eval_times]. unfold mbind at 1.
  destruct (eval_one q) as [[[] q1]|] eqn:E; [|discriminate]. apply (Hn q1 eq_refl i q'). lia.
Qed.

(** The steps a run makes are evaluation steps; when it panics, one of them does. *)
Lemma steps_handled_eval n (p : P) k stx : G (supervisor_of stx) (status_of stx) ->
  match steps_handled SIZE eval_handler n stx with
  | None => exists j, (j <= n)%nat /\ eval_times j (after p k stx) = None /\ holds_within j (after p k stx)
  | Some (r, stx') =>
      0 <= steps r <= Z.of_nat n /\ (n <> O -> 1 <= steps r) /\
      eval_times (Z.to_nat (steps r)) (after p k stx) = Some (tt, after p (k + steps r) stx') /\
      holds_within (Z.to_nat (steps r)) (after p k stx)
  end.
Proof.
  revert k stx; induction n as [|n IH]; intros k stx HG.
  { cbn. rewrite Z.add_0_r. split; [lia|]. split; [congruence|]. split; [reflexivity | intros i q Hi; lia]. }
  destruct stx as [st x]. rewrite steps_handled_S.
  pose proof (one_after p k (st, x)) as Hone. cbn [fst snd] in Hone.
  assert (Hstep : eval_one (after p k (st, x)) =
    match one (fst (after p k (st, x))) (snd (after p k (st, x))) with Some q => Some (tt, q) | None => None end).
  { rewrite (surjective_pairing (after p k (st, x))) at 1.
    apply eval_one_eq. rewrite status_after. exact (G_not_revealing _ _ HG). }
  assert (Hhere : holds (after p k (st, x))) by (unfold holds; destruct (parts_after p k (st, x)) as [-> ->]; exact HG).
  assert (Hfails : one (fst (after p k (st, x))) (snd (after p k (st, x))) = None ->
    exists j, (j <= S n)%nat /\ eval_times j (after p k (st, x)) = None /\ holds_within j (after p k (st, x))).
  { intros E. exists 1%nat. rewrite E in Hstep. split; [lia|]. split; [cbn [eval_times]; unfold mbind; rewrite Hstep; reflexivity|].
    apply holds_within_S; [exact Hhere | intros q1 Hq; congruence]. }
  assert (Hrest : forall stx1, G (supervisor_of stx1) (status_of stx1) -> one (fst (after p k (st, x))) (snd (after p k (st, x))) = Some (after p (k + 1) stx1) ->
    match plus_steps 1 (steps_handled SIZE eval_handler n stx1) with
    | None => exists j, (j <= S n)%nat /\ eval_times j (after p k (st, x)) = None /\ holds_within j (after p k (st, x))
    | Some (r, stx') =>
        0 <= steps r <= Z.of_nat (S n) /\ (S n <> O -> 1 <= steps r) /\
        eval_times (Z.to_nat (steps r)) (after p k (st, x)) = Some (tt, after p (k + steps r) stx') /\
        holds_within (Z.to_nat (steps r)) (after p k (st, x))
    end).
  { intros stx1 HG1 E. rewrite E in Hstep. specialize (IH (k + 1) stx1 HG1).
    assert (Hwithin : forall m, holds_within m (after p (k + 1) stx1) -> holds_within (S m) (after p k (st, x))).
    { intros m Hm. apply holds_within_S; [exact Hhere|]. intros q1. rewrite Hstep. intros [= <-]. exact Hm. }
    destruct (steps_handled SIZE eval_handler n stx1) as [[r stx']|]; cbn [plus_steps].
    - destruct IH as (Hr & _ & He & Hw). cbn [add_steps steps]. split; [lia|]. split; [lia|].
      replace (Z.to_nat (1 + steps r)) with (S (Z.to_nat (steps r))) by lia. split; [|exact (Hwithin _ Hw)].
      cbn [eval_times]. unfold mbind. rewrite Hstep, He. do 2 f_equal. f_equal. lia.
    - destruct IH as (j & Hj & He & Hw). exists (S j). split; [lia|]. split; [|exact (Hwithin _ Hw)].
      cbn [eval_times]. unfold mbind. rewrite Hstep. exact He. }
  destruct (step st) as [[[[]|e] st1]|] eqn:Est.
  - apply Hrest; [exact HG | exact Hone].
  - destruct (eval_handler e (st1, x)) as [[[b|[]] stx1]|] eqn:Eh; [|exact (Hfails Hone)].
    assert (HG1 : b = true -> G (supervisor_of stx1) (status_of stx1)).
    { intros ->. destruct st1 as [core bc], x as [[[sup sta] req] out]. unfold eval_handler in Eh.
      destruct (pvm_handle_system_call _) as [[b1 [core' [[[sup' st'] req'] out']]]|] eqn:Ep; [|discriminate].
      injection Eh as -> <-. exact (G_handler _ _ _ _ _ _ _ _ _ _ Ep HG). }
    destruct b; [apply Hrest; [apply HG1; reflexivity | exact Hone]|].
    rewrite Hone in Hstep. cbn [steps]. split; [lia|]. split; [lia|]. change (Z.to_nat 1) with 1%nat.
    split; [cbn [eval_times]; unfold mbind; rewrite Hstep; reflexivity|].
    apply holds_within_S; [exact Hhere | intros q1 _ i q' Hi; lia].
  - exact (Hfails Hone).
Qed.

Lemma less_than_unwrapped b : bounded b -> negb (less_than_bound 0 b) = negb (0 <? unwrap_bound b).
Proof. intros Hb. rewrite less_than_unwrap by exact Hb. reflexivity. Qed.

(** Evaluating with a finite bound. *)
Lemma eval_max_steps fuel inner b (p : P) out :
  clean (machine_state p) -> urange 64 (tick p) -> bounded b -> unwrap_bound b < Z.of_nat fuel -> (0 < inner)%nat ->
  G (system_state p) (status p) ->
  match eval_max fuel inner b (p, out) with
  | Some (k, (p', out')) =>
      0 <= k <= unwrap_bound b /\ (0 < unwrap_bound b -> 1 <= k) /\
      eval_times (Z.to_nat k) (p, out) = Some (tt, (p', out')) /\ clean (machine_state p') /\ urange 64 (tick p') /\
      holds_within (Z.to_nat k) (p, out)
  | None => exists j, Z.of_nat j <= unwrap_bound b /\ eval_times j (p, out) = None /\ holds_within j (p, out)
  end.
Proof.
  intros Hc Ht Hb Hfuel Hin HG. pose proof (unwrap_bound_range b Hb) as [Hn Hmax].
  unfold eval_max. rewrite less_than_unwrapped by assumption.
  destruct (Z.ltb_spec 0 (unwrap_bound b)) as [Hpos|Hzero]; cbn [negb].
  2: { split; [lia|]. split; [lia|]. split; [reflexivity|]. split; [exact Hc|]. split; [exact Ht | intros i q Hi; lia]. }
  pose proof (G_not_revealing _ _ HG) as Hs.
  assert (Hstart : after p 0 (borrow p out) = (p, out)).
  { destruct p. unfold after, add_ticks, with_tick. cbn. cbn in Ht. rewrite Z.add_0_r, wrap_small by exact Ht. reflexivity. }
  pose proof (steps_handled_eval (Z.to_nat (unwrap_bound b)) p 0 (borrow p out) HG) as Heval. rewrite Hstart in Heval.
  assert (Hloop : step_max_handle fuel inner b eval_handler (borrow p out) =
                  steps_handled SIZE eval_handler (Z.to_nat (unwrap_bound b)) (borrow p out)).
  { pose proof (step_max_handle_loop_steps SIZE eval_handler eval_handler_cache fuel inner b 0 (machine_state p)
      (snd (borrow p out)) Hc Hb Hfuel Hin ltac:(lia) ltac:(lia) (or_introl Hpos)) as Hrun.
    rewrite plus_steps_0 in Hrun. exact Hrun. }
  assert (Hcase : forall A (x y : A), match status p with WaitingForReveal => x | _ => y end = y)
    by (intros; unfold not_revealing in Hs; destruct (status p); congruence).
  rewrite Hcase, Hloop.
  pose proof (fun r stx => steps_handled_clean SIZE eval_handler eval_handler_cache
    (Z.to_nat (unwrap_bound b)) (machine_state p) (snd (borrow p out)) r stx Hc) as Hclean.
  unfold borrow in *. cbn [snd] in Hclean.
  destruct (steps_handled SIZE eval_handler _ _) as [[r [ms x]]|].
  - specialize (Hclean r (ms, x) eq_refl). destruct Heval as (Hr & H1 & He & Hw).
    unfold after in He. cbn [fst snd] in He. destruct x as [[[sup st] req] out']. cbn [give_back] in *.
    split; [lia|]. split; [intros _; apply H1; lia|]. split; [exact He|]. split; [exact Hclean|].
    split; [apply wrap_range; lia | exact Hw].
  - destruct Heval as (j & Hj & He & Hw). exists j. split; [lia|]. split; [exact He | exact Hw].
Qed.
End Holding.

(** C3: evaluating many steps at once is evaluating them one at a time.  From any
    PVM whose partial block is clean, [eval_max] with a finite bound makes some
    number of steps [k] within the bound, at least one if the bound allows any,
    and ends in exactly the state of [k] calls of [eval_one]: the machine with its
    block cache and partial block, the supervisor, the status, the reveal request,
    the counters and the output.  The state is clean again.  It panics only when
    one of these steps does. *)
Theorem eval_max_is_eval_one fuel inner b (p : P) out :
  clean (machine_state p) -> urange 64 (tick p) -> bounded b -> unwrap_bound b < Z.of_nat fuel -> (0 < inner)%nat ->
  match eval_max fuel inner b (p, out) with
  | Some (k, (p', out')) =>
      0 <= k <= unwrap_bound b /\ (0 < unwrap_bound b -> 1 <= k) /\
      eval_times (Z.to_nat k) (p, out) = Some (tt, (p', out')) /\ clean (machine_state p')
  | None => exists k, Z.of_nat k <= unwrap_bound b /\ eval_times k (p, out) = None
  end.
Proof.
  intros Hc Ht Hb Hfuel Hin. pose proof (unwrap_bound_range b Hb) as [Hn Hmax].
  destruct (decide (status p = WaitingForReveal)) as [Hw|Hs].
  - unfold eval_max. rewrite less_than_unwrapped by assumption.
    destruct (Z.ltb_spec 0 (unwrap_bound b)) as [Hpos|Hzero]; cbn [negb].
    2: { split; [lia|]. split; [lia|]. split; [reflexivity | exact Hc]. }
    rewrite Hw. destruct (provide_reveal_error_response p) as [[[] p']|] eqn:Er.
    + split; [lia|]. split; [lia|]. split.
      * change (Z.to_nat 1) with 1%nat. cbn [eval_times]. unfold mbind, eval_one. rewrite Hw, Er. reflexivity.
      * unfold provide_reveal_error_response in Er. destruct p as [[core bc] ? ? ? ? ? ? ? ?]; cbn in Er.
        destruct (core_write _ _ core) as [[[] core']|]; [|discriminate]. injection Er as <-. exact Hc.
    + exists 1%nat. split; [lia|]. cbn [eval_times]. unfold mbind, eval_one. rewrite Hw, Er. reflexivity.
  - pose proof (eval_max_steps (fun _ st => not_revealing st) (fun _ _ Hg => Hg)
      (fun _ _ _ _ _ _ _ _ _ _ E => handler_status _ _ _ _ _ _ _ _ _ _ _ E eq_refl)
      fuel inner b p out Hc Ht Hb Hfuel Hin Hs) as Hsteps.
    destruct (eval_max fuel inner b (p, out)) as [[k [p' out']]|].
    + destruct Hsteps as (Hk & H1 & He & Hc' & _). auto.
    + destruct Hsteps as (j & Hj & He & _). exists j. auto.
Qed.
End Eval.

(** ** Instances *)

(** An interface with small limits, whose keys and signatures are the bytes
    themselves. *)
Definition small_env : TezosEnv :=
  {| SBI_FIRMWARE_TEZOS := 0xA000000; SBI_TEZOS_INBOX_NEXT := 2; SBI_TEZOS_ED25519_SIGN := 3;
     SBI_TEZOS_ED25519_VERIFY := 4; SBI_TEZOS_BLAKE2B_HASH256 := 5; SBI_TEZOS_REVEAL := 6;
     MAX_INPUT_MESSAGE_SIZE := 16; REVEAL_DATA_MAX_SIZE := 16; REVEAL_REQUEST_MAX_SIZE := 8;
     sbi_code e := match e with Failed => -1 | NotSupported => -2 | InvalidParam => -3 | InvalidAddress => -5 end;
     SigningKey := list Z; VerifyingKey := list Z; Signature := list Z;
     signing_key := Some; sign _ msg := take 64 (msg ++ replicate 64 0);
     verifying_key := Some; signature_from_slice := Some;
     verify_strict _ _ _ := true; digest_256 msg := take 32 (msg ++ replicate 32 0) |}.

(** A PVM that starts [program_core]. *)
Definition fresh_pvm : Pvm (MemoryImpl (BuddyLeaf 2)) BlockCacheState :=
  {| machine_state := (program_core, cache_new 4); reveal_request := @reveal_request_new small_env;
     system_state := supervisor_new; version := INITIAL_VERSION; tick := 0; message_counter := 0; level := 0;
     level_is_set := false; status := Evaluating |}.

Lemma eval_max_is_eval_one_witness :
  clean (machine_state fresh_pvm) /\
  exists k p' out', 1 <= k <= 3 /\
    @eval_times small_env _ (memory_impl 8192) 4 (Z.to_nat k) (fresh_pvm, []) = Some (tt, (p', out')).
Proof.
  split; [exact program_clean|].
  assert (Hruns : match @eval_max small_env _ _ (memory_impl 8192) (@pvm_cache _ (memory_impl 8192) 4) 8 1
      (Included 3) (fresh_pvm, []) with Some _ => true | None => false end = true) by (lazy; reflexivity).
  pose proof (@eval_max_is_eval_one small_env _ (memory_impl 8192) 4 8 1 (Included 3) fresh_pvm [] program_clean
    ltac:(unfold urange; cbn; lia) ltac:(cbn; lia) ltac:(cbn; lia) ltac:(lia)) as Heval.
  destruct (@eval_max small_env _ _ (memory_impl 8192) (@pvm_cache _ (memory_impl 8192) 4) 8 1
      (Included 3) (fresh_pvm, [])) as [[k [p' out']]|]; [|discriminate Hruns].
  destruct Heval as (Hk & H1 & He & _). exists k, p', out'. cbn [unwrap_bound] in Hk, H1. split; [lia | exact He].
Defined.
