(* ===== verification/LinuxSpec.v ===== *)
(** * The Linux supervisor: what every system call leaves alone

    A system call changes main memory, the supervisor's state, the output and the
    register [a0], and moves the program counter behind the [ecall]; it goes on
    unless the process exits or the call, unknown or not supported, gives [ENOSYS].

    Then what single system calls do, end to end: from the registers of the guest
    through the dispatch to main memory, the output and the result in [a0]. *)

From S2P Require Import Prelude.
From S2P Require Import Registers.
From S2P Require Import Icb.
From S2P Require Import Buddy.
From S2P Require Import BuddySpec.
From S2P Require Import Memory.
From S2P Require Import MemorySpec.
From S2P Require Import AllocSpec.
From S2P Require Import Core.
From S2P Require Import LinuxParams.
From S2P Require Import Linux.
From S2P Require Import IsaSpec.
From S2P Require Import CoreSpec.
From S2P Require Import IsaTheorems.

Section Frame.
Context {Mem : Type} `{Memory Mem}.
Notation Sys := (System Mem).
Notation Core := (MachineCoreState Mem).
Implicit Types s : Sys.

(** What a handler leaves alone: the hart, and whether the process has exited. *)
Definition calm s : HartState * bool := (hart (sys_core s), exited (sys_supervisor s)).

Lemma keeps_try_bind {A B E} (m : M Sys (result A E)) (k : A -> M Sys (result B E)) :
  keeps calm m -> (forall a, keeps calm (k a)) -> keeps calm (try_bind m k).
Proof. intros Hm Hk. apply keeps_bind; [exact Hm|]. intros [a|e]; [apply Hk | apply keeps_ret]. Qed.

Lemma keeps_memory {A} (f : M Mem A) : keeps calm (on_core_of (on_memory f)).
Proof.
  intros s a s'. unfold on_core_of, on_memory. destruct (f _) as [[x m]|]; [intros [= <- <-]; reflexivity | discriminate].
Qed.
Lemma keeps_access {A} (f : M Mem (result A BadMemoryAccess)) : keeps calm (access f).
Proof. apply keeps_bind; [apply keeps_memory | intros r; apply keeps_ret]. Qed.
Lemma keeps_govern {A} (f : M Mem (result A MemoryGovernanceError)) : keeps calm (govern f).
Proof. apply keeps_bind; [apply keeps_memory | intros r; apply keeps_ret]. Qed.
Lemma keeps_putchar b : keeps calm (putchar b).
Proof. intros s a s' [= <- <-]. reflexivity. Qed.
Lemma keeps_tid v : keeps calm (on_supervisor (Mem := Mem) (with_tid_address v)).
Proof. intros s a s' [= <- <-]. reflexivity. Qed.
Hint Resolve keeps_access keeps_govern keeps_memory keeps_putchar keeps_tid : keeps.

Ltac calm := repeat (apply keeps_try_bind || keeps_step).

Lemma zero_mask_calm n i a : keeps calm (zero_mask n i a).
Proof. revert i; induction n; intros i; cbn [zero_mask]; calm. Qed.
Lemma put_all_calm l : keeps calm (put_all l).
Proof. induction l; cbn [put_all]; calm. Qed.
Lemma search_iovec_calm n i a : keeps calm (search_iovec n i a).
Proof. revert i; induction n; intros i; cbn [search_iovec]; calm. Qed.
Lemma read_fds_calm n i a : keeps calm (read_fds n i a).
Proof. revert i; induction n; intros i; cbn [read_fds]; calm. Qed.
Lemma clear_revents_calm n i a : keeps calm (clear_revents n i a).
Proof. revert i; induction n; intros i; cbn [clear_revents]; calm. Qed.
Hint Resolve zero_mask_calm put_all_calm search_iovec_calm read_fds_calm clear_revents_calm : keeps.

Lemma write_to_fd_calm fd a n : keeps calm (write_to_fd fd a n).
Proof. unfold write_to_fd. calm. Qed.
Hint Resolve write_to_fd_calm : keeps.

(** ** Handlers *)

(** A handler that says how to go on stops exactly when it makes the process exit. *)
Definition handler_spec (h : M Sys (result SystemCallResultExecution Error)) : Prop :=
  forall s r s', h s = Some (r, s') ->
    hart (sys_core s') = hart (sys_core s) /\
    match r with
    | Ok x => exited (sys_supervisor s') = (if control_flow x then exited (sys_supervisor s) else true)
    | Err _ => exited (sys_supervisor s') = exited (sys_supervisor s)
    end.

(** A system call with its arguments read and its result written. *)
Definition call_spec (call : M Sys (result bool Error)) : Prop :=
  forall s r s', call s = Some (r, s') ->
    match r with
    | Err _ => calm s' = calm s
    | Ok go =>
        (exists v, hart_write a0 v (hart (sys_core s)) = Some (tt, hart (sys_core s'))) /\
        exited (sys_supervisor s') = (if go then exited (sys_supervisor s) else true)
    end.

Lemma check_result_spec h : handler_spec h -> call_spec (check_result h).
Proof.
  intros Hh s r s'. unfold check_result, try_bind, mbind. destruct (h s) as [[[x|e] s1]|] eqn:E; [| |discriminate];
    destruct (Hh _ _ _ E) as [Hhart Hex].
  - unfold xwrite, on_core_of, on_hart. rewrite Hhart.
    destruct (hart_write a0 (sc_result x) (hart (sys_core s))) as [[[] h']|] eqn:Ew; [|discriminate].
    intros [= <- <-]. split; [exists (sc_result x); exact Ew | exact Hex].
  - intros [= <- <-]. unfold calm. congruence.
Qed.
Lemma check_u64_spec h : keeps calm h -> call_spec (check_u64 h).
Proof.
  intros Hh. apply check_result_spec. intros s r s'. unfold try_bind, mbind.
  destruct (h s) as [[[v|e] s1]|] eqn:E; [| |discriminate]; intros [= <- <-];
    pose proof (Hh _ _ _ E) as [= Hhart Hex]; auto.
Qed.

Lemma read_arg_same {A} `{TryFrom A} reg s a s' : read_arg (A := A) reg s = Some (a, s') -> s' = s.
Proof.
  unfold read_arg, xread, on_core_of, on_hart, hart_read, mbind, mget, mlift, mret.
  destruct (xregisters_read _ reg); [|discriminate]. intros [= <- <-]. destruct s as [[h m] sup out]. reflexivity.
Qed.
Lemma call_spec_arg {A} `{TryFrom A} reg (k : A -> M Sys (result bool Error)) :
  (forall a, call_spec (k a)) -> call_spec (try_bind (read_arg reg) k).
Proof.
  intros Hk s r s'. unfold try_bind, mbind. destruct (read_arg reg s) as [[[a|e] s1]|] eqn:E; [| |discriminate];
    apply read_arg_same in E as ->; [apply Hk|]. intros [= <- <-]. reflexivity.
Qed.

Lemma dispatch_spec tz no call : dispatch tz no = Some call -> call_spec call.
Proof.
  assert (Hexit : forall st, handler_spec (handle_exit st))
    by (intros st s r s' [= <- <-]; split; reflexivity).
  assert (Htkill : forall t g, handler_spec (handle_tkill t g))
    by (intros t g s r s' [= <- <-]; split; reflexivity).
  unfold dispatch.
  repeat (destruct (_ =? _) || destruct (_ || _)); intros [= <-];
    unfold dispatch1, dispatch2, dispatch3, dispatch4, dispatch6;
    repeat (apply call_spec_arg; intros);
    try (apply check_result_spec; solve [auto]);
    try (apply check_u64_spec;
         unfold handle_getcwd, handle_faccessat, handle_openat, handle_close, handle_read, handle_write, handle_writev,
           handle_ppoll, handle_readlinkat, handle_set_tid_address, handle_getpid, handle_set_robust_list,
           handle_sigaltstack, handle_rt_sigaction, handle_rt_sigprocmask, write_old, handle_brk, handle_mmap,
           handle_mprotect, handle_munmap, handle_madvise, handle_getrandom, handle_clock_gettime,
           handle_sched_getaffinity, handle_gettimeofday; solve [calm]).
  all: intros s r s' [= <- <-]; reflexivity.
Qed.

Lemma dispatch_tezos tz no : dispatch tz no = None -> no = tz.
Proof.
  unfold dispatch.
  repeat match goal with |- (if ?b then Some _ else _) = _ -> _ => destruct b; [discriminate|] end.
  destruct (Z.eqb_spec no tz); [auto | discriminate].
Qed.

(** ** The whole call *)
Lemma hart_write_frame r v h h' : hart_write r v h = Some (tt, h') ->
  pc h' = pc h /\ fregisters h' = fregisters h /\ csregisters h' = csregisters h /\ start_addr h' = start_addr h /\
  xregisters_write (xregisters h) r v = Some (xregisters h').
Proof.
  unfold hart_write, mbind, mget, mlift, mput. destruct (xregisters_write (xregisters h) r v) as [xs|] eqn:E; [|discriminate].
  intros [= <-]. auto.
Qed.

Lemma handle_result_spec call s b s' : call_spec call -> (r <- call ;; handle_result r) s = Some (b, s') ->
  exists v, hart_write a0 v (hart (sys_core s)) = Some (tt, hart (sys_core s')) /\
    (b = true -> exited (sys_supervisor s') = exited (sys_supervisor s)) /\
    (b = false -> exited (sys_supervisor s') = true \/ v = into_xvalue NoSystemCall).
Proof.
  intros Hcall. unfold mbind at 1. destruct (call s) as [[r s1]|] eqn:E; [|discriminate].
  specialize (Hcall _ _ _ E). destruct r as [go|e].
  - destruct Hcall as [[v Hw] Hex]. intros [= <- <-]. exists v. split; [exact Hw|].
    destruct go; split; (congruence || auto).
  - injection Hcall as Hh Hex. unfold handle_result, write_system_call_error, xwrite, on_core_of, on_hart.
    assert (Hall : forall e' b', (match
        (match hart_write a0 (into_xvalue e') (hart (sys_core s1)) with
         | Some (a, h) => Some (a, with_hart h (sys_core s1)) | None => None end)
      with Some (a, core) => Some (a, mkSystem core (sys_supervisor s1) (sys_output s1)) | None => None end) = Some (tt, s') ->
      b = b' -> (b' = false -> e' = NoSystemCall) ->
      exists v, hart_write a0 v (hart (sys_core s)) = Some (tt, hart (sys_core s')) /\
        (b = true -> exited (sys_supervisor s') = exited (sys_supervisor s)) /\
        (b = false -> exited (sys_supervisor s') = true \/ v = into_xvalue NoSystemCall)).
    { intros e' b'. rewrite Hh. destruct (hart_write a0 _ _) as [[[] h']|] eqn:Ew; [|discriminate].
      intros [= <-] -> Hb. exists (into_xvalue e'). split; [exact Ew|]. split; [intros _; exact Hex|].
      intros Hf. right. rewrite (Hb Hf). reflexivity. }
    unfold mbind. destruct e; destruct (hart_write a0 _ _) as [[[] h']|] eqn:Ew; try discriminate;
      intros [= <- <-]; eapply Hall; rewrite ?Ew; (reflexivity || congruence).
Qed.

(** C27: a system call stays in its bounds.  Any call with a result, but the one for Tezos,
    moves the program counter by four, up to the greatest address, changes no register
    but [a0], no floating-point or control register, and not the reservation; the
    state of the PVM behind it is left alone.  It lets the machine go on and does
    not exit the process, unless it exits it, or [a0] says that there is no such call:
    the number is unknown, or a known call is used in a way that is not supported, as
    [mmap] of a file or of shared pages, or [ppoll] of a descriptor above 2. *)
Theorem system_call_frame {X} tz (tezos : M (Core * X) bool) s x b s' x' :
  xregisters_read (xregisters (hart (sys_core s))) a7 <> Some tz ->
  handle_system_call tz tezos (s, x) = Some (b, (s', x')) ->
  let h := hart (sys_core s) in let h' := hart (sys_core s') in
  x' = x /\ pc h' = saturating_add (pc h) 4 /\ fregisters h' = fregisters h /\ csregisters h' = csregisters h /\
  start_addr h' = start_addr h /\
  exists v, xregisters_write (xregisters h) a0 v = Some (xregisters h') /\
    (b = true -> exited (sys_supervisor s') = exited (sys_supervisor s)) /\
    (b = false -> exited (sys_supervisor s') = true \/ v = into_xvalue NoSystemCall).
Proof.
  intros Hno. unfold handle_system_call, mbind at 1, xread, on_core_of, on_hart, mput, hart_read, mbind, mget, mlift.
  cbn [sys_core hart with_hart with_pc xregisters sys_supervisor sys_output].
  destruct (xregisters_read (xregisters (hart (sys_core s))) a7) as [no|]; [|discriminate].
  destruct (dispatch tz no) as [call|] eqn:Ed.
  - set (s1 := mkSystem _ _ _). destruct (match call s1 with Some (r, s2) => handle_result r s2 | None => None end) as [[b1 s2]|] eqn:E;
      [|discriminate]. intros [= <- <- <-].
    apply (handle_result_spec call s1) in E as (v & Hw & Hgo & Hstop); [|apply (dispatch_spec tz no), Ed].
    apply hart_write_frame in Hw as (Hpc & Hf & Hcs & Hr & Hx). cbn in *.
    split; [reflexivity|]. split; [exact Hpc|]. split; [exact Hf|]. split; [exact Hcs|]. split; [exact Hr|].
    exists v. auto.
  - exfalso. apply Hno. f_equal. exact (dispatch_tezos _ _ Ed).
Qed.
End Frame.

(** ** Instances *)
#[local] Existing Instance two_pages_memory.

(** [getpid] on a machine without memory accesses. *)
Lemma system_call_frame_witness :
  let s := mkSystem (setx a7 GETPID new_core) supervisor_new [] in
  exists s', (handle_system_call (Mem := MemoryImpl (BuddyLeaf 2)) (X := unit) 0xA000000 (fun _ => None) (s, tt)) =
               Some (true, (s', tt)) /\
    pc (hart (sys_core s')) = saturating_add (pc (hart (sys_core s))) 4 /\
    exited (sys_supervisor s') = false.
Proof.
  intros s.
  destruct (handle_system_call (Mem := MemoryImpl (BuddyLeaf 2)) (X := unit) 0xA000000 (fun _ => None) (s, tt))
    as [[b [s' []]]|] eqn:E; [|vm_compute in E; discriminate E].
  pose proof (system_call_frame (Mem := MemoryImpl (BuddyLeaf 2)) 0xA000000 (fun _ => None) s tt b s' tt
    ltac:(vm_compute; discriminate) E) as (_ & Hpc & _ & _ & _ & v & _ & Hgo & _).
  assert (b = true) as -> by (vm_compute in E; injection E as <- _; reflexivity).
  exists s'. split; [reflexivity|]. split; [exact Hpc | exact (Hgo eq_refl)].
Defined.

Section Calls.
Context {B : Type} `{Buddy B} (total : Z).
#[local] Instance calls_memory : Memory (MemoryImpl B) := memory_impl total.
#[local] Instance calls_laws : MemoryLaws (MemoryImpl B) := memory_impl_laws total.
Notation Mem := (MemoryImpl B).
Notation Sys := (System Mem).
Notation Core := (MachineCoreState Mem).
Context {X : Type} (tz : Z) (tezos : M (Core * X) bool).
Implicit Types (s : Sys) (x : X).

Definition sys_ok s : Prop := core_ok (sys_core s).
Definition reg (r : XRegister) s : Z := getx r (sys_core s).
Definition mem s : Mem := main_memory (sys_core s).

(** ** Effects *)
Definition on_its_core (f : Core -> Core) s : Sys := mkSystem (f (sys_core s)) (sys_supervisor s) (sys_output s).
(** Behind the [ecall]. *)
Definition advance s : Sys :=
  on_its_core (fun c => with_hart (with_pc (saturating_add (pc (hart c)) 4) (hart c)) c) s.
Definition returning (v : Z) s : Sys := on_its_core (setx a0 v) s.
Definition with_mem (m : Mem) s : Sys := on_its_core (with_memory m) s.
Definition printing (bs : list Z) s : Sys := mkSystem (sys_core s) (sys_supervisor s) (sys_output s ++ bs).

Lemma advance_ok s : sys_ok s -> sys_ok (advance s).
Proof.
  intros Hok. apply with_pc_ok; [exact Hok|]. pose proof (ok_pc _ (ok_hart _ Hok)) as Hpc.
  unfold urange, saturating_add, usize_MAX in *. lia.
Qed.
Lemma with_mem_ok s m : sys_ok s -> mem_ok total m -> sys_ok (with_mem m s).
Proof. intros Hok Hm. exact (with_memory_ok _ _ Hok Hm). Qed.
Lemma sys_mem_ok s : sys_ok s -> mem_ok total (mem s).
Proof. intros Hok. apply Hok. Qed.
Lemma reg_range s r : sys_ok s -> urange 64 (reg r s).
Proof. apply getx_range. Qed.

(** ** The pieces of a call *)
Lemma xread_eq r s : sys_ok s -> xread r s = Some (reg r s, s).
Proof. intros Hok. unfold xread, on_core_of. rewrite (exec_read r _ Hok). destruct s; reflexivity. Qed.
Lemma xwrite_eq r v s : sys_ok s -> xwrite r v s = Some (tt, on_its_core (setx r v) s).
Proof. intros Hok. unfold xwrite, on_core_of. rewrite (exec_write r v _ Hok). reflexivity. Qed.
Lemma read_arg_eq {A} `{TryFrom A} r s : sys_ok s -> read_arg (A := A) r s = Some (try_from (reg r s), s).
Proof. intros Hok. unfold read_arg, mbind. rewrite xread_eq by exact Hok. reflexivity. Qed.
Lemma arg_eq {A C} `{TryFrom A} r (k : A -> M Sys (result C Error)) s : sys_ok s ->
  try_bind (read_arg r) k s = match try_from (reg r s) with Ok a => k a s | Err e => Some (Err e, s) end.
Proof.
  intros Hok. unfold try_bind, mbind. rewrite read_arg_eq by exact Hok. destruct (try_from _); reflexivity.
Qed.
Lemma access_eq {A} (f : M Mem (result A BadMemoryAccess)) s r m : f (mem s) = Some (r, m) ->
  access f s = Some (result_map_err r error_of_memory_access, with_mem m s).
Proof. intros E. unfold access, on_core_of, on_memory, mbind, mret. fold (mem s). rewrite E. reflexivity. Qed.
Lemma access_panics {A} (f : M Mem (result A BadMemoryAccess)) s : f (mem s) = None -> access f s = None.
Proof. intros E. unfold access, on_core_of, on_memory, mbind. fold (mem s). rewrite E. reflexivity. Qed.
Lemma govern_eq {A} (f : M Mem (result A MemoryGovernanceError)) s r m : f (mem s) = Some (r, m) ->
  govern f s = Some (result_map_err r error_of_governance, with_mem m s).
Proof. intros E. unfold govern, on_core_of, on_memory, mbind, mret. fold (mem s). rewrite E. reflexivity. Qed.
Lemma with_mem_self s : with_mem (mem s) s = s.
Proof. destruct s as [[h m] sup out]. reflexivity. Qed.

(** The result in [a0], and whether the machine goes on. *)
Definition answer (r : result Z Error) : Z := match r with Ok v => v | Err e => into_xvalue e end.
Definition goes_on (r : result Z Error) : bool := match r with Err NoSystemCall => false | _ => true end.

(** What a call gives before its result is handled. *)
Definition outcome (r : result Z Error) s : option (result bool Error * Sys) :=
  match r with Ok v => Some (Ok true, returning v s) | Err e => Some (Err e, s) end.

Lemma check_u64_eq h s r s1 : h s = Some (r, s1) -> sys_ok s1 -> check_u64 h s = outcome r s1.
Proof.
  intros E Hok. unfold check_u64, check_result, try_bind, mbind, mret. rewrite E.
  destruct r as [v|e]; [|reflexivity]. rewrite xwrite_eq by exact Hok. reflexivity.
Qed.

Lemma check_u64_panics h s : h s = None -> check_u64 h s = None.
Proof. intros E. unfold check_u64, check_result, try_bind, mbind. rewrite E. reflexivity. Qed.

Lemma syscall_eq no call s x r s1 :
  sys_ok s -> reg a7 s = no -> dispatch tz no = Some call -> call (advance s) = outcome r s1 -> sys_ok s1 ->
  handle_system_call tz tezos (s, x) = Some (goes_on r, (returning (answer r) s1, x)).
Proof.
  intros Hok <- Hd Hcall Hok1.
  assert (Hrun : handle_system_call tz tezos (s, x) =
    match (r <- call ;; handle_result r) (advance s) with Some (b, s) => Some (b, (s, x)) | None => None end).
  { unfold handle_system_call. unfold mbind at 1.
    change (on_core_of (on_hart (mput (fun h => with_pc (saturating_add (pc h) 4) h))) s) with (Some (tt, advance s)).
    cbn iota. rewrite (xread_eq a7 (advance s)) by (apply advance_ok, Hok).
    change (reg a7 (advance s)) with (reg a7 s). rewrite Hd. reflexivity. }
  rewrite Hrun. unfold mbind. rewrite Hcall. destruct r as [v|e]; [reflexivity|].
  unfold outcome, handle_result, write_system_call_error, mbind.
  destruct e; rewrite xwrite_eq by exact Hok1; reflexivity.
Qed.

(** Reads the next argument; [E] says what it converts to. *)
Ltac arg E := rewrite arg_eq by assumption; change (reg ?r (advance ?s)) with (reg r s); rewrite E; cbn iota beta.
(** Reads the remaining arguments, which convert by themselves. *)
Ltac args := repeat (rewrite arg_eq by assumption; cbv [try_from u64_param VirtAddr_param]; cbn iota beta).

(** ** [write] *)
Lemma put_all_eq bs s : put_all bs s = Some (tt, printing bs s).
Proof.
  revert s; induction bs as [|b bs IH]; intros s; cbn [put_all].
  - unfold printing. rewrite app_nil_r. destruct s; reflexivity.
  - unfold mbind, putchar, mput. rewrite IH. unfold printing. cbn. rewrite <- app_assoc. reflexivity.
Qed.

Lemma write_to_fd_eq fd addr len s : sys_ok s -> let n := Z.min len PAGE_SIZE in sane total addr n ->
  write_to_fd fd (mkVirtAddr addr) len s =
    Some (if granted total (readable_pages (mem s)) addr n
          then (Ok n, printing (bytes_at (mem s) addr n) s) else (Err Fault, s)).
Proof.
  intros Hok n Hs. unfold write_to_fd. fold n. unfold try_bind at 1, mbind at 1.
  pose proof (memory_read_all_eq total (mem s) addr n (sys_mem_ok s Hok) Hs) as Hr.
  erewrite access_eq by exact Hr. rewrite with_mem_self.
  destruct (granted _ _ _ _); cbn [result_map_err]; [|reflexivity].
  destruct fd; unfold mbind; rewrite put_all_eq; reflexivity.
Qed.

Lemma write_to_fd_beyond fd addr len s : sys_ok s -> Z.min len PAGE_SIZE = 0 -> total < addr ->
  write_to_fd fd (mkVirtAddr addr) len s = None.
Proof.
  intros Hok Hn Ha. unfold write_to_fd. rewrite Hn. unfold try_bind at 1, mbind at 1.
  pose proof (read_all_beyond total (mem s) addr (sys_mem_ok s Hok) Ha) as Hr.
  rewrite access_panics by exact Hr. reflexivity.
Qed.
Lemma syscall_panics no call s x : sys_ok s -> reg a7 s = no -> dispatch tz no = Some call -> call (advance s) = None ->
  handle_system_call tz tezos (s, x) = None.
Proof.
  intros Hok <- Hd Hcall. unfold handle_system_call. unfold mbind at 1.
  change (on_core_of (on_hart (mput (fun h => with_pc (saturating_add (pc h) 4) h))) s) with (Some (tt, advance s)).
  cbn iota. rewrite (xread_eq a7 (advance s)) by (apply advance_ok, Hok).
  change (reg a7 (advance s)) with (reg a7 s). rewrite Hd. unfold mbind. rewrite Hcall. reflexivity.
Qed.

(** C26: [write] prints what memory holds.  To the standard output or error it
    prints the bytes at the address, at most a page of them, and returns their
    number; it returns [EFAULT] and prints nothing when any of them may not be read,
    and [EBADF] for any other descriptor.  Memory stays as it is.  In one case there
    is no result: writing no byte to one of the two from beyond the end of memory
    panics. *)
Theorem write_call s x : sys_ok s -> reg a7 s = WRITE ->
  let addr := reg a1 s in let n := Z.min (reg a2 s) PAGE_SIZE in
  handle_system_call tz tezos (s, x) =
    if negb (reg a0 s =? 1) && negb (reg a0 s =? 2)
    then Some (true, (returning (into_xvalue BadFileDescriptor) (advance s), x))
    else if (n =? 0) && (total <? addr) then None
    else Some (true,
      (if granted total (readable_pages (mem s)) addr n
       then returning n (printing (bytes_at (mem s) addr n) (advance s))
       else returning (into_xvalue Fault) (advance s), x)).
Proof.
  intros Hok Hno addr n. pose proof (advance_ok s Hok) as Hadv.
  assert (Hd : dispatch tz WRITE = Some (dispatch3 (fun fd addr len => check_u64 (handle_write fd addr len)))) by reflexivity.
  unfold dispatch3 in Hd.
  assert (Hfd : forall fd : FileDescriptorWriteable, try_from (reg a0 s) = Ok fd ->
    handle_system_call tz tezos (s, x) =
    if (n =? 0) && (total <? addr) then None
    else Some (true,
      (if granted total (readable_pages (mem s)) addr n
       then returning n (printing (bytes_at (mem s) addr n) (advance s))
       else returning (into_xvalue Fault) (advance s), x))).
  { intros fd Hfd. destruct ((n =? 0) && (total <? addr)) eqn:Hb.
    - apply andb_true_iff in Hb as [Hn%Z.eqb_eq Ha%Z.ltb_lt].
      apply (syscall_panics WRITE _ s x Hok Hno Hd). arg Hfd. args.
      apply check_u64_panics. exact (write_to_fd_beyond fd addr (reg a2 s) (advance s) Hadv Hn Ha).
    - assert (Hs : sane total addr n).
      { pose proof (reg_range s a1 Hok) as [H1 _]. pose proof (reg_range s a2 Hok) as [H2 _].
        split; [exact H1|]. split; [apply Z.min_glb; [exact H2 | discriminate]|]. intros Hn. rewrite Hn in Hb. cbn [Z.eqb andb] in Hb.
        apply Z.ltb_ge in Hb. exact Hb. }
      pose proof (write_to_fd_eq fd addr (reg a2 s) (advance s) Hadv Hs) as Hw.
      cbv zeta in Hw. fold n in Hw. change (mem (advance s)) with (mem s) in Hw. destruct (granted _ _ _ _).
      + apply (syscall_eq WRITE _ s x (Ok n) (printing (bytes_at (mem s) addr n) (advance s)) Hok Hno Hd); [|exact Hadv].
        arg Hfd. args. apply check_u64_eq; [exact Hw | exact Hadv].
      + apply (syscall_eq WRITE _ s x (Err Fault) (advance s) Hok Hno Hd); [|exact Hadv].
        arg Hfd. args. apply check_u64_eq; [exact Hw | exact Hadv]. }
  unfold try_from, FileDescriptorWriteable_param, FileDescriptorWriteable_try_from in Hfd.
  destruct (reg a0 s =? 1) eqn:H1; [apply (Hfd StandardOutput), eq_refl|].
  destruct (reg a0 s =? 2) eqn:H2; [apply (Hfd StandardError), eq_refl|]. cbn [negb andb].
  apply (syscall_eq WRITE _ s x (Err BadFileDescriptor) (advance s) Hok Hno Hd); [|exact Hadv].
  rewrite arg_eq by exact Hadv. change (reg a0 (advance s)) with (reg a0 s).
  unfold try_from, FileDescriptorWriteable_param, FileDescriptorWriteable_try_from. rewrite H1, H2. reflexivity.
Qed.
End Calls.

(** ** Instances *)

(** [write(1, 0, 3)] with "hi" and a line break at the start of memory. *)
Definition hello : MemoryImpl (BuddyLeaf 2) :=
  {| m_data := [104; 105; 10] ++ replicate (Z.to_nat 8189) 0;
     readable_pages := [true; true]; writable_pages := [false; true];
     executable_pages := [true; false]; allocated_pages := leaf_new |}.
Definition calling (no arg0 arg1 arg2 : Z) : System (MemoryImpl (BuddyLeaf 2)) :=
  mkSystem (setx a7 no (setx a0 arg0 (setx a1 arg1 (setx a2 arg2 (mkCore hart_new hello))))) supervisor_new [].

Lemma calling_ok no arg0 arg1 arg2 : urange 64 no -> urange 64 arg0 -> urange 64 arg1 -> urange 64 arg2 ->
  sys_ok 8192 (calling no arg0 arg1 arg2).
Proof.
  intros. unfold sys_ok, calling. cbn [sys_core]. repeat (apply setx_ok; [|assumption]).
  constructor; [apply new_core_ok|]. constructor; [lia | reflexivity..].
Qed.

Lemma write_call_witness :
  let s := calling WRITE 1 0 3 in
  sys_ok 8192 s /\
  exists s', handle_system_call (H := memory_impl 8192) (X := unit) 0 (fun _ => None) (s, tt) = Some (true, (s', tt)) /\
    sys_output s' = [104; 105; 10].
Proof.
  intros s. assert (Hok : sys_ok 8192 s) by (apply calling_ok; unfold urange, WRITE; lia).
  split; [exact Hok|].
  pose proof (write_call 8192 0 (fun _ => None) s tt Hok eq_refl) as Hrun.
  eexists. split; [exact Hrun | lazy; reflexivity].
Defined.
