(* ===== verification/StepperSpec.v ===== *)
(** * The stepper: properties

    Stepping many steps at once against taking them one at a time, through the inputs
    and reveals in between; and how far past its bound the stepper goes. *)

From stdpp Require Import gmap strings.
From S2P Require Import Prelude.
From S2P Require Import Registers.
From S2P Require Import Icb.
From S2P Require Import Buddy.
From S2P Require Import Memory.
From S2P Require Import Core.
From S2P Require Import Step.
From S2P Require Import Linux.
From S2P Require Import Pvm.
From S2P Require Import Stepper.
From S2P Require Import BlockCache.
From S2P Require Import StepChunks.
From S2P Require Import StepTheorems.
From S2P Require Import PvmSpec.
From S2P Require Import LinuxSpec.

Section Steps.
Context `{TezosEnv, StepperEnv} {Mem : Type} `{Memory Mem} (SIZE : Z).
Notation Core := (MachineCoreState Mem).
Notation P := (Pvm Mem BlockCacheState).
Notation St := (PvmStepper Mem BlockCacheState).
Implicit Types (s : St) (p : P).

#[local] Hint Extern 0 (BlockCache BlockCacheState Mem) => exact (pvm_cache SIZE) : typeclass_instances.

(** ** States that evaluation goes on from *)
Definition going (sup : SupervisorState) (st : PvmStatus) : Prop := exited sup = false /\ st = Evaluating.

Lemma going_not_revealing sup st : going sup st -> not_revealing st.
Proof. intros [_ ->]. discriminate. Qed.

Lemma going_handler (core : Core) sup st req out core' sup' st' req' out' :
  pvm_handle_system_call (core, (sup, st, req, out)) = Some (true, (core', (sup', st', req', out'))) ->
  going sup st -> going sup' st'.
Proof.
  unfold pvm_handle_system_call, handle_system_call, mbind at 1, xread, on_core_of, on_hart, mput, hart_read, mbind, mget, mlift.
  cbn [sys_core hart with_hart with_pc xregisters sys_supervisor sys_output].
  destruct (xregisters_read (xregisters (hart core)) a7) as [no|]; [|discriminate].
  destruct (dispatch SBI_FIRMWARE_TEZOS no) as [call|] eqn:Ed.
  - set (s1 := mkSystem _ _ _). destruct (match call s1 with Some (r, s2) => handle_result r s2 | None => None end) as [[b1 s2]|] eqn:E;
      [|discriminate]. intros [= -> <- <- <- <- <-] [Hex ->].
    apply (handle_result_spec call s1) in E as (v & _ & Hgo & _); [|apply (dispatch_spec SBI_FIRMWARE_TEZOS no), Ed].
    split; [|reflexivity]. rewrite Hgo by reflexivity. exact Hex.
  - unfold on_tezos, mbind, mget. destruct (handle_tezos _) as [[[] [core2 [st2 req2]]]|]; [|discriminate].
    intros [= Hb <- <- <- <- <-] [Hex _]. apply bool_decide_eq_true in Hb. split; assumption.
Qed.

Notation eval_times := (eval_times SIZE).
Notation holds := (holds going).
Notation holds_within := (holds_within SIZE going).
Notation eval_steps := (eval_max_steps SIZE going going_not_revealing going_handler).

Lemma holds_within_inv n q q1 : holds_within (S n) q -> eval_one q = Some (tt, q1) -> holds q /\ holds_within n q1.
Proof.
  intros Hw Hq. split; [exact (Hw 0%nat q ltac:(lia) eq_refl)|]. intros i q' Hi Hq'. apply (Hw (S i) q'); [lia|].
  cbn [eval_times]. unfold mbind. rewrite Hq. exact Hq'.
Qed.

(** ** Steps *)
Context (fuel inner : nat).
Hypothesis enough_fuel : 1 < Z.of_nat fuel.
Hypothesis enough_inner : (0 < inner)%nat.

Definition ready s : Prop := clean (machine_state (pvm s)) /\ urange 64 (tick (pvm s)).
(** One step. *)
Notation single := (step_max_once fuel inner (Included 1)).
(** Some number of single steps, each of which is taken. *)
Inductive single_steps : nat -> St -> St -> Prop :=
| single_steps_O s : single_steps O s s
| single_steps_S n s s1 s' : single s = Some (Running 1, s1) -> single_steps n s1 s' -> single_steps (S n) s s'.

Lemma single_steps_app n m s s1 s' : single_steps n s s1 -> single_steps m s1 s' -> single_steps (n + m) s s'.
Proof. induction 1; intros Hm; [exact Hm|]. econstructor; [eassumption | auto]. Qed.

Definition evaluated s (q : P * list Z) : St := with_pvm (fst q) (snd q) (inbox s) s.

(** An evaluation step is a single step of the stepper. *)
Lemma single_eval s : ready s -> holds (pvm s, hooks s) ->
  match eval_one (pvm s, hooks s) with
  | Some (_, q) => single s = Some (Running 1, evaluated s q) /\ ready (evaluated s q)
  | None => single s = None
  end.
Proof.
  intros [Hc Ht] [Hex Hst]. cbn in Hex, Hst.
  pose proof (eval_steps fuel inner (Included 1) (pvm s) (hooks s) Hc Ht ltac:(cbn; lia) ltac:(cbn; lia) enough_inner
    ltac:(split; assumption)) as Hone. cbn [unwrap_bound] in Hone.
  unfold step_max_once, has_exited. rewrite Hex, Hst.
  destruct (eval_max fuel inner (Included 1) (pvm s, hooks s)) as [[k [p out]]|].
  - destruct Hone as (Hk & Hone1 & He & Hc' & Ht' & _). assert (k = 1) as -> by lia.
    change (Z.to_nat 1) with 1%nat in He. cbn [eval_times] in He. unfold mbind, mret in He. destruct (eval_one (pvm s, hooks s)) as [[[] q]|]; [|discriminate].
    injection He as ->. split; [reflexivity | split; assumption].
  - destruct Hone as (j & Hj & He & _). destruct j as [|[|j]]; [discriminate | |lia].
    cbn [eval_times] in He. unfold mbind, mret in He. destruct (eval_one (pvm s, hooks s)) as [[[] q]|]; [discriminate | reflexivity].
Qed.

Lemma evals_are_steps n : forall s, ready s -> holds_within n (pvm s, hooks s) ->
  match eval_times n (pvm s, hooks s) with
  | Some (_, q) => single_steps n s (evaluated s q)
  | None => exists m s1, (m < n)%nat /\ single_steps m s s1 /\ single s1 = None
  end.
Proof.
  induction n as [|n IH]; intros s Hr Hw; [destruct s; constructor|]. cbn [eval_times]. unfold mbind.
  pose proof (single_eval s Hr (Hw 0%nat _ ltac:(lia) eq_refl)) as Hone.
  destruct (eval_one (pvm s, hooks s)) as [[[] q]|] eqn:E; [|exists 0%nat, s; split; [lia|]; split; [constructor | exact Hone]].
  destruct Hone as [Hs Hr1], (holds_within_inv n _ _ Hw E) as [_ Hw1].
  specialize (IH (evaluated s q) Hr1). cbn [evaluated with_pvm pvm hooks] in IH. rewrite <- surjective_pairing in IH.
  specialize (IH Hw1). destruct (eval_times n q) as [[[] q']|].
  - econstructor; [exact Hs | exact IH].
  - destruct IH as (m & s1 & Hm & Hsteps & Hs1). exists (S m), s1. split; [lia|]. split; [econstructor; eassumption | exact Hs1].
Qed.

(** ** Answers *)

(** A PVM that waits takes the answer, and goes on evaluating. *)
Definition resumed p p' : Prop :=
  snd (machine_state p') = snd (machine_state p) /\ urange 64 (tick p') /\ status p' = Evaluating.

Lemma provide_inbox_message_ok level counter payload p b p' : status p = WaitingForInput ->
  provide_inbox_message level counter payload p = Some (b, p') -> b = true /\ resumed p p'.
Proof.
  intros Hs. unfold provide_inbox_message, on_core_and_status, mbind. destruct (machine_state p) as [core bc] eqn:Em. rewrite Hs.
  cbn [tezos_provide_input]. destruct (sbi_wrap _ core) as [[[] core']|]; [|discriminate].
  intros [= <- <-]. split; [reflexivity|]. split; [rewrite Em; reflexivity|]. split; [apply wrap_range; discriminate | reflexivity].
Qed.
Lemma provide_reveal_response_ok data p b p' : status p = WaitingForReveal ->
  provide_reveal_response data p = Some (b, p') -> b = true /\ resumed p p'.
Proof.
  intros Hs. unfold provide_reveal_response, on_core_and_status, mbind. destruct (machine_state p) as [core bc] eqn:Em. rewrite Hs.
  cbn [tezos_provide_reveal_response]. destruct (sbi_wrap _ core) as [[[] core']|]; [|discriminate].
  intros [= <- <-]. split; [reflexivity|]. split; [rewrite Em; reflexivity|]. split; [apply wrap_range; discriminate | reflexivity].
Qed.
Lemma provide_reveal_error_response_ok p p' : provide_reveal_error_response p = Some (tt, p') -> resumed p p'.
Proof.
  unfold provide_reveal_error_response. destruct (machine_state p) as [core bc] eqn:Em.
  destruct (core_write _ _ core) as [[[] core']|]; [|discriminate]. intros [= <-].
  split; [rewrite Em; reflexivity|]. split; [apply wrap_range; discriminate | reflexivity].
Qed.
Lemma resumed_ready p out i s : ready s -> resumed (pvm s) p -> ready (with_pvm p out i s).
Proof. intros [Hc _] (Hbc & Ht & _). split; [|exact Ht]. unfold clean in *. cbn. rewrite Hbc. exact Hc. Qed.

(** One turn of the stepper with any bound: an exit, an answer, or some evaluation. *)
Lemma once_cases b s : ready s -> bounded b -> unwrap_bound b < Z.of_nat fuel ->
  match step_max_once fuel inner b s with
  | Some (Running k, s1) =>
      ready s1 /\ single_steps (Z.to_nat k) s s1 /\
      ((status (pvm s) = Evaluating /\ 0 <= k <= unwrap_bound b /\ (0 < unwrap_bound b -> 1 <= k)) \/
       (status (pvm s) <> Evaluating /\ k = 1 /\ status (pvm s1) = Evaluating))
  | Some (Exited k success message, s1) => k = 0 /\ single s = Some (Exited 0 success message, s1)
  | Some (Errored _ _ _, _) => False
  | None => exists m s1, Z.of_nat m <= unwrap_bound b /\ single_steps m s s1 /\ single s1 = None
  end.
Proof.
  intros Hr Hb Hf. pose proof (unwrap_bound_range b Hb) as Hn.
  destruct (exited (system_state (pvm s))) eqn:Hex;
    [unfold step_max_once, has_exited; rewrite Hex; split; reflexivity|].
  assert (Hpanic : single s = None -> exists m s1, Z.of_nat m <= unwrap_bound b /\ single_steps m s s1 /\ single s1 = None)
    by (intros Hs; exists 0%nat, s; split; [lia|]; split; [constructor | exact Hs]).
  assert (Hanswer : forall p i, status (pvm s) <> Evaluating -> single s = Some (Running 1, with_pvm p (hooks s) i s) -> resumed (pvm s) p ->
    ready (with_pvm p (hooks s) i s) /\ single_steps 1 s (with_pvm p (hooks s) i s) /\
    ((status (pvm s) = Evaluating /\ 0 <= 1 <= unwrap_bound b /\ (0 < unwrap_bound b -> 1 <= 1)) \/
     (status (pvm s) <> Evaluating /\ 1 = 1 /\ status p = Evaluating))).
  { intros p i Hw Hs Hp. split; [apply resumed_ready; assumption|]. split; [econstructor; [exact Hs | constructor]|].
    right. split; [exact Hw|]. split; [reflexivity | apply Hp]. }
  revert Hpanic Hanswer. unfold step_max_once, has_exited. rewrite Hex. destruct (status (pvm s)) eqn:Hs; intros Hpanic Hanswer.
  - destruct Hr as [Hc Ht].
    pose proof (eval_steps fuel inner b (pvm s) (hooks s) Hc Ht Hb Hf enough_inner ltac:(split; assumption)) as Hsteps.
    destruct (eval_max fuel inner b (pvm s, hooks s)) as [[k [p out]]|].
    + destruct Hsteps as (Hk & Hone1 & He & Hc' & Ht' & Hw). split; [split; assumption|]. split; [|left; auto].
      pose proof (evals_are_steps (Z.to_nat k) s (conj Hc Ht) Hw) as Hsingle. rewrite He in Hsingle. exact Hsingle.
    + destruct Hsteps as (j & Hj & He & Hw). pose proof (evals_are_steps j s (conj Hc Ht) Hw) as Hsingle. rewrite He in Hsingle.
      destruct Hsingle as (m & s1 & Hm & Hsteps & Hs1). exists m, s1. split; [lia|]. split; assumption.
  - destruct (inbox_next (inbox s)) as [[[[level counter] payload]|] i]; [|split; reflexivity].
    destruct (provide_inbox_message level counter payload (pvm s)) as [[success p]|] eqn:Ep; [|apply Hpanic; reflexivity].
    destruct (provide_inbox_message_ok _ _ _ _ _ _ Hs Ep) as [-> Hp]. exact (Hanswer p i ltac:(discriminate) eq_refl Hp).
  - destruct (pvm_reveal_request (pvm s)) as [request|]; [|apply Hpanic; reflexivity].
    destruct (get_response request _) as [response|].
    + destruct (provide_reveal_response response (pvm s)) as [[success p]|] eqn:Ep; [|apply Hpanic; reflexivity].
      destruct (provide_reveal_response_ok _ _ _ _ Hs Ep) as [-> Hp]. exact (Hanswer p (inbox s) ltac:(discriminate) eq_refl Hp).
    + destruct (provide_reveal_error_response (pvm s)) as [[[] p]|] eqn:Ep; [|apply Hpanic; reflexivity].
      exact (Hanswer p (inbox s) ltac:(discriminate) eq_refl (provide_reveal_error_response_ok _ _ Ep)).
Qed.

(** ** The loop *)
(** How far past its bound the loop may go from a state: by the answer it gives when
    the bound is used up and the PVM waits. *)
Definition overshoot b s : Z := if (unwrap_bound b =? 0) && bool_decide (status (pvm s) = Evaluating) then 0 else 1.

(** What the loop returns, in single steps from its start. *)
Definition in_single_steps (total : Z) b s (o : option (StepperStatus * St)) : Prop :=
  match o with
  | Some (Running k, s') =>
      unwrap_bound b <= k - total <= unwrap_bound b + overshoot b s /\ single_steps (Z.to_nat (k - total)) s s'
  | Some (Exited k success message, s') =>
      0 <= k - total <= unwrap_bound b + overshoot b s /\
      exists s1, single_steps (Z.to_nat (k - total)) s s1 /\ single s1 = Some (Exited 0 success message, s')
  | Some (Errored _ _ _, _) => False
  | None => exists m s1, Z.of_nat m <= unwrap_bound b + overshoot b s /\ single_steps m s s1 /\ single s1 = None
  end.

(** A turn, and what the rest of the loop returns. *)
Lemma in_single_steps_after total k b b1 s s1 o : 0 <= k ->
  single_steps (Z.to_nat k) s s1 -> in_single_steps (total + k) b1 s1 o ->
  unwrap_bound b <= k + unwrap_bound b1 -> k + unwrap_bound b1 + overshoot b1 s1 <= unwrap_bound b + overshoot b s ->
  0 <= unwrap_bound b1 ->
  in_single_steps total b s o.
Proof.
  intros Hk Hs. unfold in_single_steps. assert (Ho : 0 <= overshoot b1 s1) by (unfold overshoot; destruct (_ && _); lia).
  destruct o as [[[n|n success message|n cause message] s']|]; intros Hrest Hlow Hhigh Hb1; [| |exact Hrest|].
  - destruct Hrest as [Hn Hsteps]. split; [lia|]. replace (Z.to_nat (n - total)) with (Z.to_nat k + Z.to_nat (n - (total + k)))%nat by lia.
    exact (single_steps_app _ _ _ _ _ Hs Hsteps).
  - destruct Hrest as (Hn & s2 & Hsteps & Hs2). split; [lia|]. exists s2. split; [|exact Hs2].
    replace (Z.to_nat (n - total)) with (Z.to_nat k + Z.to_nat (n - (total + k)))%nat by lia.
    exact (single_steps_app _ _ _ _ _ Hs Hsteps).
  - destruct Hrest as (m & s2 & Hm & Hsteps & Hs2). exists (Z.to_nat k + m)%nat, s2. split; [lia|].
    split; [exact (single_steps_app _ _ _ _ _ Hs Hsteps) | exact Hs2].
Qed.

Lemma stepper_loop_steps turns : forall total b s, ready s -> bounded b -> unwrap_bound b < Z.of_nat fuel ->
  0 <= total -> total + unwrap_bound b + overshoot b s < 2 ^ 64 ->
  2 * unwrap_bound b + (if decide (status (pvm s) = Evaluating) then 1 else 2) <= Z.of_nat turns ->
  in_single_steps total b s (stepper_loop turns fuel inner total b s).
Proof.
  induction turns as [|turns IH]; intros total b s Hr Hb Hf Htot Hmax Hturns; pose proof (unwrap_bound_range b Hb) as Hn;
    [destruct (decide _); lia|]. cbn [stepper_loop]. unfold mbind at 1. pose proof (once_cases b s Hr Hb Hf) as Honce.
  assert (Ho : 0 <= overshoot b s) by (unfold overshoot; destruct (_ && _); lia).
  destruct (step_max_once fuel inner b s) as [[[k|k success message|k cause message] s1]|].
  - destruct Honce as (Hr1 & Hs1 & Hcases).
    assert (Hk : 0 <= k) by (destruct Hcases as [(_ & Hk & _)|(_ & -> & _)]; lia).
    assert (Hkmax : k <= unwrap_bound b + overshoot b s).
    { destruct Hcases as [(_ & Hkm & _)|(Hst & -> & _)]; [lia|]. unfold overshoot. rewrite (bool_decide_false _ Hst), andb_false_r. lia. }
    assert (Hsat : saturating_add total k = total + k) by (unfold saturating_add, usize_MAX; lia). rewrite Hsat.
    destruct (Z.ltb_spec k 1) as [Hzero|Hpos].
    + assert (k = 0) as -> by lia. cbn. rewrite Z.add_0_r, Z.sub_diag. split; [|exact Hs1].
      destruct Hcases as [(_ & _ & Hprogress)|(_ & [=] & _)]. lia.
    + pose proof (bound_saturating_sub_unwrap b k Hb Hk) as Hleft. unfold saturating_sub in Hleft.
      set (b1 := bound_saturating_sub b k) in *.
      assert (Hhigh : k + unwrap_bound b1 + overshoot b1 s1 <= unwrap_bound b + overshoot b s).
      { unfold overshoot in *. rewrite Hleft. destruct Hcases as [(Hst & Hkm & _)|(Hst & -> & Hst1)].
        - destruct (Z.eqb_spec (unwrap_bound b) 0) as [Hz|Hz]; [lia|]. cbn [andb] in *. destruct (_ && _); lia.
        - rewrite (bool_decide_false _ Hst), andb_false_r in *. rewrite bool_decide_true by exact Hst1.
          destruct (Z.eqb_spec (Z.max 0 (unwrap_bound b - 1)) 0); cbn [andb]; lia. }
      apply (in_single_steps_after total k b b1 s s1); [lia | exact Hs1 | | lia | exact Hhigh | lia].
      apply IH; [exact Hr1 | apply bound_saturating_sub_bounded; assumption | lia | lia | lia|].
      rewrite Hleft. destruct Hcases as [(Hst & Hkm & _)|(Hst & -> & Hst1)].
      * rewrite decide_True in Hturns by exact Hst. destruct (decide _); lia.
      * rewrite decide_False in Hturns by exact Hst. rewrite decide_True by exact Hst1. lia.
  - destruct Honce as [-> Hs1]. cbn. unfold saturating_add, usize_MAX. replace (Z.min _ (total + 0)) with total by lia.
    rewrite Z.sub_diag. split; [lia|]. exists s. split; [constructor | exact Hs1].
  - destruct Honce.
  - destruct Honce as (m & s1 & Hm & Hsteps & Hs1). exists m, s1. split; [lia|]. split; assumption.
Qed.

Lemma overshoot_le b s : 0 <= overshoot b s <= 1.
Proof. unfold overshoot. destruct (_ && _); lia. Qed.

(** C10: stepping many steps at once is stepping one at a time.  From any stepper whose partial
    block is clean, [step_max] with a finite bound [b] returns, and what it returns is that of
    single steps, each of which is taken, through evaluation, inputs and reveals alike: it runs as
    many as the bound says, or one more; or it exits where a single step exits, with the same
    message; it never reports an error; and it panics only when a single step does. *)
Theorem stepper_max_is_single_steps turns b s :
  clean (machine_state (pvm s)) -> urange 64 (tick (pvm s)) -> bounded b -> unwrap_bound b < usize_MAX ->
  unwrap_bound b < Z.of_nat fuel -> 2 * unwrap_bound b + 2 <= Z.of_nat turns ->
  match stepper_step_max turns fuel inner b s with
  | Some (Running k, s') => unwrap_bound b <= k <= unwrap_bound b + 1 /\ single_steps (Z.to_nat k) s s'
  | Some (Exited k success message, s') =>
      0 <= k <= unwrap_bound b + 1 /\
      exists s1, single_steps (Z.to_nat k) s s1 /\ step_max_once fuel inner (Included 1) s1 = Some (Exited 0 success message, s')
  | Some (Errored _ _ _, _) => False
  | None => exists m s1, Z.of_nat m <= unwrap_bound b + 1 /\ single_steps m s s1 /\ step_max_once fuel inner (Included 1) s1 = None
  end.
Proof.
  intros Hc Ht Hb Hmax Hf Hturns. pose proof (overshoot_le b s) as Ho.
  pose proof (stepper_loop_steps turns 0 b s (conj Hc Ht) Hb Hf ltac:(lia) ltac:(unfold usize_MAX in Hmax; lia)
    ltac:(destruct (decide _); lia)) as Hloop.
  unfold stepper_step_max, in_single_steps in *.
  destruct (stepper_loop turns fuel inner 0 b s) as [[[k|k success message|k cause message] s']|]; [| |exact Hloop|].
  - destruct Hloop as [Hk Hs]. rewrite Z.sub_0_r in *. split; [lia | exact Hs].
  - destruct Hloop as (Hk & s1 & Hs & Hs1). rewrite Z.sub_0_r in *. split; [lia|]. exists s1. auto.
  - destruct Hloop as (m & s1 & Hm & Hs & Hs1). exists m, s1. split; [lia|]. auto.
Qed.

(** C37: the stepper exceeds its bound.  When the PVM waits for input and the inbox has a message
    for it, [step_max] with a bound of no steps at all gives it the message and reports one step. *)
Theorem stepper_exceeds_bound turns s level counter payload i b p :
  exited (system_state (pvm s)) = false -> status (pvm s) = WaitingForInput ->
  inbox_next (inbox s) = (Some (level, counter, payload), i) ->
  provide_inbox_message level counter payload (pvm s) = Some (b, p) ->
  stepper_step_max (2 + turns) fuel inner (Included 0) s = Some (Running 1, with_pvm p (hooks s) i s).
Proof.
  intros Hex Hs Hi Hp. destruct (provide_inbox_message_ok _ _ _ _ _ _ Hs Hp) as [-> (_ & _ & Hst)].
  assert (Hex' : exited (system_state p) = false).
  { revert Hp. unfold provide_inbox_message, on_core_and_status, mbind. destruct (machine_state (pvm s)) as [core bc].
    destruct (tezos_provide_input _ _ _ _) as [[[] [core' st']]|]; [|discriminate..]. intros [= <-]. exact Hex. }
  unfold stepper_step_max. cbn [Nat.add stepper_loop]. unfold mbind.
  unfold step_max_once at 1, has_exited. rewrite Hex, Hs, Hi, Hp. cbn [answered Z.ltb Z.compare Pos.compare Pos.compare_cont].
  unfold step_max_once, has_exited. cbn [with_pvm pvm hooks inbox]. rewrite Hex', Hst. reflexivity.
Qed.
End Steps.

(** ** Instances *)

(** Messages in a list, and names that are the bytes themselves. *)
Definition small_stepper_env : StepperEnv :=
  {| Inbox := list (Z * Z * list Z);
     inbox_next i := match i with m :: i => (Some m, i) | [] => (None, []) end;
     hex_encode bytes := String.string_of_list_ascii (map (fun b => Ascii.ascii_of_nat (Z.to_nat b)) bytes);
     METADATA_LENGTH := 24; PREIMAGE_HASH_SIZE := 33; ROLLUP_ADDRESS_LENGTH := 20 |}.

Definition small_inbox : list (Z * Z * list Z) := [(1, 0, [1; 2; 3])].
Definition stepper_of (st : PvmStatus) : @PvmStepper small_stepper_env (MemoryImpl (BuddyLeaf 2)) BlockCacheState :=
  @mkStepper small_stepper_env _ _ (with_status st fresh_pvm) [] small_inbox (replicate 20 0) 0 (mkRevealMap ∅ None).

Notation small_step_max turns fuel b := (@stepper_step_max small_env small_stepper_env _ _ (memory_impl 8192)
  (@pvm_cache _ (memory_impl 8192) 4) turns fuel 1 b).

Lemma stepper_max_is_single_steps_witness :
  clean (machine_state (pvm (stepper_of Evaluating))) /\
  exists k s', 3 <= k <= 4 /\
    @single_steps small_env small_stepper_env (MemoryImpl (BuddyLeaf 2)) (memory_impl 8192) 4 8 1 (Z.to_nat k) (stepper_of Evaluating) s'.
Proof.
  split; [exact program_clean|].
  assert (Hruns : match small_step_max 8%nat 8%nat (Included 3) (stepper_of Evaluating) with
    Some (Running _, _) => true | _ => false end = true) by (lazy; reflexivity).
  pose proof (@stepper_max_is_single_steps small_env small_stepper_env (MemoryImpl (BuddyLeaf 2)) (memory_impl 8192) 4 8 1 ltac:(lia) ltac:(lia) 8
    (Included 3) (stepper_of Evaluating) program_clean ltac:(unfold urange; cbn; lia) ltac:(cbn; lia)
    ltac:(cbn; unfold usize_MAX; lia) ltac:(cbn; lia) ltac:(cbn; lia)) as Hsteps.
  destruct (small_step_max 8%nat 8%nat (Included 3) (stepper_of Evaluating)) as [[[k|? ? ?|? ? ?] s']|];
    [|discriminate Hruns..]. exists k, s'. exact Hsteps.
Defined.

Lemma stepper_exceeds_bound_witness :
  exists s', small_step_max 2%nat 8%nat (Included 0) (stepper_of WaitingForInput) = Some (Running 1, s') /\
    inbox s' = [] /\ status (pvm s') = Evaluating.
Proof.
  destruct (@provide_inbox_message small_env (MemoryImpl (BuddyLeaf 2)) BlockCacheState (memory_impl 8192) 1 0 [1; 2; 3] (pvm (stepper_of WaitingForInput)))
    as [[b p]|] eqn:E; [|vm_compute in E; discriminate E].
  exists (@with_pvm small_stepper_env _ _ p [] [] (stepper_of WaitingForInput)). split; [|split].
  - exact (@stepper_exceeds_bound small_env small_stepper_env (MemoryImpl (BuddyLeaf 2)) (memory_impl 8192) 4 8 1 0 (stepper_of WaitingForInput) 1 0 [1; 2; 3] [] b p
      eq_refl eq_refl eq_refl E).
  - reflexivity.
  - vm_compute in E. injection E as _ <-. reflexivity.
Defined.
