(* ===== verification/Storage.v ===== *)
(** * Storage of states

    Models [src/riscv/lib/src/storage.rs] and [storage/chunked_io.rs]: a store of files
    named by the hash of their content, commits as lists of chunks, and the writer and
    the reader that serialise into and out of chunks.  The file system is a map from
    paths to files and directories of files; other failures of the host are not
    modelled.  The names of hashes in hexadecimal and the encoding of lists of hashes
    are other crates: the class [StorageEnv].  A value that is serialised is the list of
    pieces that are written; deserialising it is a program that reads. *)

From stdpp Require Import gmap strings.
From S2P Require Import Prelude.
From S2P Require Import Hash.

Definition CHUNK_SIZE : nat := 4096.

Inductive StorageError : Type :=
| IoError | CommitSerializationError | InvalidRepo | StorageHashError (e : HashError)
| NotFound (hash : string) | ChunkNotFound (hash : string).

Class StorageEnv : Type := {
  hash_name : list Z -> string;
  serialise_hashes : list Hash -> list Z;
  deserialise_hashes : list Z -> option (list Hash) }.

(** ** The file system *)
Notation Files := (gmap string (list Z)).
Inductive Entry : Type := FileEntry (content : list Z) | DirEntry (files : Files).
Notation FS := (gmap string Entry).

(** [fs::read] of a file in a directory; [None] is the error of a missing file. *)
Definition read_file (path name : string) (fs : FS) : option (list Z) :=
  match fs !! path with Some (DirEntry files) => files !! name | _ => None end.
(** Creating or replacing a file in a directory. *)
Definition put_file (path name : string) (data : list Z) : M FS (result unit StorageError) := fun fs =>
  match fs !! path with
  | Some (DirEntry files) => Some (Ok tt, <[path := DirEntry (<[name := data]> files)]> fs)
  | _ => Some (Err IoError, fs)
  end.

(** ** Stores *)
Record Store : Type := mkStore { store_path : string }.

Section Storage.
Context `{Blake2b, StorageEnv}.

Definition store_init (path : string) : M FS (result Store StorageError) := fun fs =>
  match fs !! path with
  | None => Some (Ok (mkStore path), <[path := DirEntry ∅]> fs)
  | Some (FileEntry _) => Some (Err InvalidRepo, fs)
  | Some (DirEntry _) => Some (Ok (mkStore path), fs)
  end.

Definition file_name_of_hash (hash : Hash) : string := hash_name (digest hash).

Definition write_data_if_new (self : Store) (file_name : string) (data : list Z) : M FS (result unit StorageError) :=
  existing <- mget (read_file (store_path self) file_name) ;;
  match existing with
  | Some _ => mret (Ok tt)
  | None => put_file (store_path self) file_name data
  end.

Definition store (self : Store) (data : list Z) : M FS (result Hash StorageError) :=
  hash <-? mret (result_map_err (blake2b_hash_bytes data) StorageHashError) ;;
  _ <-? write_data_if_new self (file_name_of_hash hash) data ;;
  mret (Ok hash).

Definition load (self : Store) (hash : Hash) (fs : FS) : result (list Z) StorageError :=
  match fs !! store_path self with
  | Some (FileEntry _) => Err IoError
  | _ =>
      match read_file (store_path self) (file_name_of_hash hash) fs with
      | Some data => Ok data
      | None => Err (NotFound (hash_name (digest hash)))
      end
  end.

Definition copy (self : Store) (hash : Hash) (path : string) : M FS (result unit StorageError) :=
  source <- mget (read_file (store_path self) (file_name_of_hash hash)) ;;
  match source with
  | None => mret (Err IoError)
  | Some data => put_file path (file_name_of_hash hash) data
  end.

(** ** Repositories *)
Record Repo : Type := mkRepo { backend : Store }.

Definition repo_load (path : string) : M FS (result Repo StorageError) :=
  backend <-? store_init path ;; mret (Ok (mkRepo backend)).

(** The loop of [commit] over the chunks. *)
Fixpoint store_chunks (self : Store) (chunks : list (list Z)) : M FS (result (list Hash) StorageError) :=
  match chunks with
  | [] => mret (Ok [])
  | chunk :: chunks =>
      chunk_hash <-? store self chunk ;;
      commit <-? store_chunks self chunks ;;
      mret (Ok (chunk_hash :: commit))
  end.

Definition commit (self : Repo) (bytes : list Z) : M FS (result Hash StorageError) :=
  commit <-? store_chunks (backend self) (chunks CHUNK_SIZE bytes) ;;
  store (backend self) (serialise_hashes commit).

Definition deserialise_commit (bytes : list Z) : result (list Hash) StorageError :=
  match deserialise_hashes bytes with Some hashes => Ok hashes | None => Err CommitSerializationError end.

Definition load_chunk (self : Store) (fs : FS) (hash : Hash) : result (list Z) StorageError :=
  result_map_err (load self hash fs) (fun e => match e with NotFound hash => ChunkNotFound hash | e => e end).

Definition checkout (self : Repo) (id : Hash) (fs : FS) : result (list Z) StorageError :=
  bytes <-! load (backend self) id fs ;;
  commit <-! deserialise_commit bytes ;;
  result_map (collect_results (load_chunk (backend self) fs) commit) (@concat Z).

(** The loop of [export_snapshot]. *)
Fixpoint copy_chunks (self : Store) (commit : list Hash) (path : string) : M FS (result unit StorageError) :=
  match commit with
  | [] => mret (Ok tt)
  | chunk :: commit => _ <-? copy self chunk path ;; copy_chunks self commit path
  end.

(** The target is made a directory, unless it is one with files. *)
Definition create_target (path : string) : M FS (result unit StorageError) := fun fs =>
  match fs !! path with
  | None => Some (Ok tt, <[path := DirEntry ∅]> fs)
  | Some (FileEntry _) => Some (Err IoError, fs)
  | Some (DirEntry files) => Some (if decide (files = ∅) then Ok tt else Err InvalidRepo, fs)
  end.

Definition export_snapshot (self : Repo) (id : Hash) (path : string) : M FS (result unit StorageError) :=
  _ <-? create_target path ;;
  bytes <-? mget (load (backend self) id) ;;
  commit <-? mret (deserialise_commit bytes) ;;
  _ <-? copy_chunks (backend self) commit path ;;
  copy (backend self) id path.

(** ** Writing in chunks *)
Record ChunkWriter : Type := mkChunkWriter { cw_store : Store; cw_hashes : list Hash; cw_buffer : list Z }.

Definition chunk_writer_new (store : Store) : ChunkWriter := mkChunkWriter store [] [].

Definition chunk_writer_flush_buffer (self : ChunkWriter) : M FS (result ChunkWriter StorageError) :=
  chunk_hash <-? store (cw_store self) (cw_buffer self) ;;
  mret (Ok (mkChunkWriter (cw_store self) (cw_hashes self ++ [chunk_hash]) [])).

Definition chunk_writer_finalise (self : ChunkWriter) : M FS (result (list Hash) StorageError) :=
  self <-? match cw_buffer self with [] => mret (Ok self) | _ => chunk_writer_flush_buffer self end ;;
  mret (Ok (cw_hashes self)).

(** An operation whose errors become errors of another kind. *)
Definition with_error {A} (e : StorageError) (m : M FS (result A StorageError)) : M FS (result A StorageError) :=
  r <- m ;; mret (result_map_err r (fun _ => e)).

(** The loop of [write]; every turn takes a byte at least, unless the buffer is full,
    which it never is. *)
Fixpoint chunk_write_loop (fuel : nat) (data : list Z) (self : ChunkWriter) : M FS (result ChunkWriter StorageError) :=
  match data with
  | [] => mret (Ok self)
  | _ =>
      match fuel with
      | O => mpanic
      | S fuel =>
          let rem_buffer_len := (CHUNK_SIZE - length (cw_buffer self))%nat in
          let new_data_len := Nat.min rem_buffer_len (length data) in
          let new_data := take new_data_len data in
          let data := drop new_data_len data in
          let self := mkChunkWriter (cw_store self) (cw_hashes self) (cw_buffer self ++ new_data) in
          self <-? (if (rem_buffer_len =? new_data_len)%nat then with_error IoError (chunk_writer_flush_buffer self) else mret (Ok self)) ;;
          chunk_write_loop fuel data self
      end
  end.
Definition chunk_writer_write (data : list Z) (self : ChunkWriter) : M FS (result ChunkWriter StorageError) :=
  chunk_write_loop (length data) data self.

(** [serialise_into]: the pieces are written one after the other. *)
Fixpoint write_pieces (pieces : list (list Z)) (self : ChunkWriter) : M FS (result ChunkWriter StorageError) :=
  match pieces with
  | [] => mret (Ok self)
  | piece :: pieces => self <-? chunk_writer_write piece self ;; write_pieces pieces self
  end.

Definition commit_serialised (self : Repo) (pieces : list (list Z)) : M FS (result Hash StorageError) :=
  writer <-? with_error CommitSerializationError (write_pieces pieces (chunk_writer_new (backend self))) ;;
  chunk_hashes <-? chunk_writer_finalise writer ;;
  store (backend self) (serialise_hashes chunk_hashes).

(** ** Reading in chunks

    The cursor is the bytes of the chunk still to come. *)
Record ChunkedReader : Type := mkChunkedReader { cr_store : Store; cr_hashes : list Hash; cr_buffer : list Z }.

Definition chunked_reader_new (store : Store) (hash : Hash) (fs : FS) : result ChunkedReader StorageError :=
  raw_hashes <-! load store hash fs ;;
  hashes <-! deserialise_commit raw_hashes ;;
  Ok (mkChunkedReader store hashes []).

Definition next_chunk (fs : FS) (self : ChunkedReader) : result ChunkedReader StorageError :=
  match cr_hashes self with
  | [] => Ok self
  | hash :: hashes =>
      data <-! load (cr_store self) hash fs ;;
      Ok (mkChunkedReader (cr_store self) hashes data)
  end.

(** [read] into a buffer of [len] bytes. *)
Definition chunked_read (fs : FS) (len : nat) (self : ChunkedReader) : result (list Z * ChunkedReader) StorageError :=
  self <-! match cr_buffer self with [] => result_map_err (next_chunk fs self) (fun _ => IoError) | _ => Ok self end ;;
  Ok (take len (cr_buffer self), mkChunkedReader (cr_store self) (cr_hashes self) (drop len (cr_buffer self))).

(** The standard library's [read_exact]: a read of no bytes is the end of the input. *)
Fixpoint read_exact (fs : FS) (fuel len : nat) (self : ChunkedReader) : result (list Z * ChunkedReader) StorageError :=
  match len, fuel with
  | O, _ => Ok ([], self)
  | _, O => Err IoError
  | _, S fuel =>
      '(data, self) <-! chunked_read fs len self ;;
      match data with
      | [] => Err IoError
      | _ => '(rest, self) <-! read_exact fs fuel (len - length data) self ;; Ok (data ++ rest, self)
      end
  end.

(** A deserialiser: it reads exact numbers of bytes, and ends with a value or an error. *)
Inductive Reading (A : Type) : Type :=
| Done (value : A)
| Malformed
| ReadExact (len : nat) (k : list Z -> Reading A).
Arguments Done {A}.
Arguments Malformed {A}.
Arguments ReadExact {A}.

(** [deserialise_from]; all its errors become errors of deserialisation. *)
Fixpoint deserialise_from {A} (fs : FS) (r : Reading A) (reader : ChunkedReader) : result A StorageError :=
  match r with
  | Done value => Ok value
  | Malformed => Err CommitSerializationError
  | ReadExact len k =>
      match read_exact fs len len reader with
      | Ok (data, reader) => deserialise_from fs (k data) reader
      | Err _ => Err CommitSerializationError
      end
  end.

Definition checkout_serialised {A} (r : Reading A) (self : Repo) (id : Hash) (fs : FS) : result A StorageError :=
  reader <-! chunked_reader_new (backend self) id fs ;;
  deserialise_from fs r reader.
End Storage.
Arguments Done {A}.
Arguments Malformed {A}.
Arguments ReadExact {A}.
