(* ===== verification/StorageSpec.v ===== *)
(** * Storage of states: properties

    What is committed can be checked out again, in one piece or through the writer and
    the reader in chunks, unless two contents collide under the hash function; and a
    snapshot is a repository with the files of one commit. *)

From stdpp Require Import gmap strings pretty.
From S2P Require Import Prelude.
From S2P Require Import Hash.
From S2P Require Import Storage.

(** The laws assumed of the crates: names tell digests apart, and reading the encoding
    of a list of hashes gives it back. *)
Class StorageLaws `{StorageEnv} : Prop := {
  hash_name_inj hash hash' : hash_name hash = hash_name hash' -> hash = hash';
  deserialise_serialise hashes : Forall (fun h => length (digest h) = 32%nat) hashes ->
    deserialise_hashes (serialise_hashes hashes) = Some hashes }.

Section Storage.
Context `{Blake2bLaws, StorageLaws}.
Implicit Types (files : Files) (fs : FS) (data : list Z).

(** ** Files named by their content *)
Definition hash_of data : Hash := mkHash (digest_256 data).
Definition name_of data : string := hash_name (digest_256 data).

Definition named files : Prop := forall name data, files !! name = Some data -> name = name_of data.
Definition repo_ok (path : string) fs : Prop := exists files, fs !! path = Some (DirEntry files) /\ named files.

(** A directory with some data stored. *)
Definition stored data files : Files :=
  match files !! name_of data with Some _ => files | None => <[name_of data := data]> files end.
Definition stored_all (l : list (list Z)) files : Files := foldl (fun files data => stored data files) files l.

Lemma store_eq self data files fs : fs !! store_path self = Some (DirEntry files) ->
  store self data fs = Some (Ok (hash_of data), <[store_path self := DirEntry (stored data files)]> fs).
Proof.
  intros Hd. unfold store, write_data_if_new, put_file, read_file, file_name_of_hash, stored, name_of, try_bind, mbind, mget, mret.
  rewrite blake2b_hash_bytes_ok. cbn. rewrite Hd. destruct (files !! _) eqn:Hf; cbn.
  - rewrite insert_id by exact Hd. reflexivity.
  - rewrite Hd. reflexivity.
Qed.

Lemma store_chunks_eq self l : forall files fs, fs !! store_path self = Some (DirEntry files) ->
  store_chunks self l fs = Some (Ok (map hash_of l), <[store_path self := DirEntry (stored_all l files)]> fs).
Proof.
  induction l as [|data l IH]; intros files fs Hd; cbn [store_chunks].
  - cbn. rewrite insert_id by exact Hd. reflexivity.
  - unfold try_bind, mbind. rewrite (store_eq self data files fs Hd).
    rewrite (IH (stored data files)) by apply lookup_insert_eq. cbn. rewrite insert_insert_eq. reflexivity.
Qed.

Definition chunk_list bytes : list Z := serialise_hashes (map hash_of (chunks CHUNK_SIZE bytes)).
(** Everything a commit stores. *)
Definition commit_contents bytes : list (list Z) := chunks CHUNK_SIZE bytes ++ [chunk_list bytes].

Lemma commit_eq self bytes files fs : fs !! store_path (backend self) = Some (DirEntry files) ->
  commit self bytes fs =
    Some (Ok (hash_of (chunk_list bytes)), <[store_path (backend self) := DirEntry (stored_all (commit_contents bytes) files)]> fs).
Proof.
  intros Hd. unfold commit, try_bind, mbind at 1. rewrite (store_chunks_eq _ _ files fs Hd).
  rewrite (store_eq _ _ (stored_all (chunks CHUNK_SIZE bytes) files)) by apply lookup_insert_eq.
  rewrite insert_insert_eq. unfold commit_contents, stored_all. rewrite foldl_app. reflexivity.
Qed.

(** ** Collisions *)

(** Some of the contents has the digest of a different file. *)
Definition file_collision (l : list (list Z)) files : Prop :=
  exists data name data', data ∈ l /\ files !! name = Some data' /\ data <> data' /\ digest_256 data = digest_256 data'.

Lemma stored_named data files : named files -> named (stored data files).
Proof.
  intros Hn name data'. unfold stored. destruct (files !! name_of data) eqn:Hf; [apply Hn|].
  intros [[<- <-]|[_ Hd]]%lookup_insert_Some; [reflexivity | apply Hn, Hd].
Qed.
Lemma stored_all_named l : forall files, named files -> named (stored_all l files).
Proof. induction l as [|data l IH]; intros files Hn; [exact Hn|]. apply IH, stored_named, Hn. Qed.
Lemma stored_mono data name files : is_Some (files !! name) -> is_Some (stored data files !! name).
Proof.
  intros Hs. unfold stored. destruct (files !! name_of data); [exact Hs|]. apply lookup_insert_is_Some'. right. exact Hs.
Qed.
Lemma stored_all_mono l name : forall files, is_Some (files !! name) -> is_Some (stored_all l files !! name).
Proof. induction l as [|data l IH]; intros files Hs; [exact Hs|]. apply IH, stored_mono, Hs. Qed.
Lemma stored_all_some l data : forall files, data ∈ l -> is_Some (stored_all l files !! name_of data).
Proof.
  induction l as [|data' l IH]; intros files Hin; [inversion Hin|].
  apply elem_of_cons in Hin as [->|Hin]; [|exact (IH (stored data' files) Hin)].
  apply (stored_all_mono l). unfold stored. destruct (files !! name_of data') as [x|] eqn:Hf; [exists x; exact Hf | exists data'; apply lookup_insert_eq].
Qed.

(** What was stored is found, unless it collides. *)
Lemma stored_all_found l files : named files ->
  (forall data, data ∈ l -> stored_all l files !! name_of data = Some data) \/ file_collision l (stored_all l files).
Proof.
  intros Hn. set (F := stored_all l files). assert (HF : named F) by apply stored_all_named, Hn.
  cut (forall l' : list (list Z), (forall data, data ∈ l' -> data ∈ l) -> (forall data, data ∈ l' -> F !! name_of data = Some data) \/ file_collision l F).
  { intros Hcut. exact (Hcut l (fun _ Hin => Hin)). }
  induction l' as [|data l' IH]; intros Hl; [left; intros data Hin; inversion Hin|].
  destruct IH as [IH|Hc]; [intros d Hd; apply Hl; right; exact Hd | | right; exact Hc].
  destruct (stored_all_some l data files (Hl data ltac:(left))) as [data' Hd]. fold F in Hd.
  destruct (decide (data = data')) as [<-|Hne].
  - left. intros d [->|Hd']%elem_of_cons; [exact Hd | apply IH, Hd'].
  - right. exists data, (name_of data), data'. split; [apply Hl; left|]. split; [exact Hd|]. split; [exact Hne|].
    apply hash_name_inj. exact (HF _ _ Hd).
Qed.

(** ** Checking out *)
Lemma load_eq self data fs files : fs !! store_path self = Some (DirEntry files) -> files !! name_of data = Some data ->
  load self (hash_of data) fs = Ok data.
Proof. intros Hd Hf. unfold load, read_file, file_name_of_hash. rewrite Hd. cbn. unfold name_of in Hf. rewrite Hf. reflexivity. Qed.

Lemma with_error_ok {A} e (m : M FS (result A StorageError)) a fs fs' : m fs = Some (Ok a, fs') -> with_error e m fs = Some (Ok a, fs').
Proof. intros Hm. unfold with_error, mbind. rewrite Hm. reflexivity. Qed.

Lemma hashes_length (l : list (list Z)) : Forall (fun h => length (digest h) = 32%nat) (map hash_of l).
Proof. apply Forall_map, Forall_true. intros data. apply digest_256_length. Qed.

Lemma load_chunks_eq self fs files l : fs !! store_path self = Some (DirEntry files) ->
  (forall data, data ∈ l -> files !! name_of data = Some data) ->
  collect_results (load_chunk self fs) (map hash_of l) = Ok l.
Proof.
  intros Hd. induction l as [|data l IH]; intros Hf; [reflexivity|]. cbn [map collect_results].
  unfold load_chunk at 1. rewrite (load_eq self data fs files Hd (Hf data ltac:(left))). cbn.
  rewrite IH by (intros d Hin; apply Hf; right; exact Hin). reflexivity.
Qed.

Lemma chunk_size_pos : (0 < CHUNK_SIZE)%nat.
Proof. unfold CHUNK_SIZE. lia. Qed.

(** A repository with the files of a commit. *)
Definition has_commit (path : string) bytes fs : Prop :=
  exists files, fs !! path = Some (DirEntry files) /\ forall data, data ∈ commit_contents bytes -> files !! name_of data = Some data.

Lemma has_commit_list self bytes fs : has_commit (store_path self) bytes fs ->
  result_bind (load self (hash_of (chunk_list bytes)) fs) deserialise_commit = Ok (map hash_of (chunks CHUNK_SIZE bytes)).
Proof.
  intros (files & Hd & Hf). rewrite (load_eq _ _ _ files Hd) by (apply Hf, elem_of_app; right; left). cbn [result_bind].
  unfold deserialise_commit, chunk_list. rewrite deserialise_serialise by apply hashes_length. reflexivity.
Qed.

Lemma checkout_eq self bytes fs : has_commit (store_path (backend self)) bytes fs ->
  checkout self (hash_of (chunk_list bytes)) fs = Ok bytes.
Proof.
  intros Hc. pose proof (has_commit_list _ _ _ Hc) as Hl. destruct Hc as (files & Hd & Hf). unfold checkout.
  destruct (load _ _ fs) as [raw|e]; cbn [result_bind] in *; [|discriminate]. rewrite Hl. cbn [result_bind].
  rewrite (load_chunks_eq _ fs files) by (exact Hd || (intros data Hin; apply Hf, elem_of_app; left; exact Hin)).
  cbn. rewrite chunks_concat by exact chunk_size_pos. reflexivity.
Qed.

Lemma commit_found self bytes files fs : fs !! store_path (backend self) = Some (DirEntry files) -> named files ->
  let F := stored_all (commit_contents bytes) files in
  let fs' := <[store_path (backend self) := DirEntry F]> fs in
  repo_ok (store_path (backend self)) fs' /\ (has_commit (store_path (backend self)) bytes fs' \/ file_collision (commit_contents bytes) F).
Proof.
  intros Hd Hn F fs'. assert (Hd' : fs' !! store_path (backend self) = Some (DirEntry F)) by apply lookup_insert_eq.
  split; [exists F; split; [exact Hd' | apply stored_all_named, Hn]|].
  destruct (stored_all_found (commit_contents bytes) files Hn) as [Hf|Hc]; [left; exists F; auto | right; exact Hc].
Qed.

(** ** Writing in chunks *)
Lemma chunks_full (cs : list (list Z)) (rest : list Z) : Forall (fun c => length c = CHUNK_SIZE) cs -> (length rest < CHUNK_SIZE)%nat ->
  chunks CHUNK_SIZE (concat cs ++ rest) = cs ++ match rest with [] => [] | _ => [rest] end.
Proof.
  intros Hcs Hr. induction Hcs as [|c cs Hc _ IH].
  - destruct rest as [|b rest]; [reflexivity|]. apply chunks_short; [discriminate | apply Nat.lt_le_incl, Hr].
  - cbn [concat app]. rewrite <- app_assoc, chunks_app by (exact chunk_size_pos || exact Hc). rewrite IH. reflexivity.
Qed.

(** The writer after some bytes: full chunks are stored, and the rest is in the buffer. *)
Inductive wrote (self : Store) files : list Z -> ChunkWriter -> Files -> Prop :=
| wrote_intro (cs : list (list Z)) (rest : list Z) :
    Forall (fun c => length c = CHUNK_SIZE) cs -> (length rest < CHUNK_SIZE)%nat ->
    wrote self files (concat cs ++ rest) (mkChunkWriter self (map hash_of cs) rest) (stored_all cs files).

Lemma flush_wrote self files cs c fs : Forall (fun c => length c = CHUNK_SIZE) cs -> length c = CHUNK_SIZE ->
  fs !! store_path self = Some (DirEntry (stored_all cs files)) ->
  exists w files', chunk_writer_flush_buffer (mkChunkWriter self (map hash_of cs) c) fs =
      Some (Ok w, <[store_path self := DirEntry files']> fs) /\ wrote self files (concat cs ++ c) w files'.
Proof.
  intros Hcs Hc Hd. exists (mkChunkWriter self (map hash_of (cs ++ [c])) []), (stored_all (cs ++ [c]) files). split.
  - unfold chunk_writer_flush_buffer, try_bind, mbind. cbn [cw_store cw_buffer cw_hashes]. rewrite (store_eq _ _ _ _ Hd).
    unfold stored_all. rewrite foldl_app, map_app. reflexivity.
  - replace (concat cs ++ c) with (concat (cs ++ [c]) ++ []); [|rewrite concat_app, app_nil_r; cbn; rewrite app_nil_r; reflexivity].
    constructor; [apply Forall_app; auto | exact chunk_size_pos].
Qed.

Lemma chunk_write_loop_wrote self files fuel : forall data bytes w files' fs, wrote self files bytes w files' ->
  fs !! store_path self = Some (DirEntry files') -> (length data <= fuel)%nat ->
  exists w' files'', chunk_write_loop fuel data w fs = Some (Ok w', <[store_path self := DirEntry files'']> fs) /\
    wrote self files (bytes ++ data) w' files''.
Proof.
  induction fuel as [|fuel IH]; intros data bytes w files' fs Hw Hd Hf.
  - destruct data; [|cbn in Hf; lia]. exists w, files'. cbn. rewrite insert_id, app_nil_r by exact Hd. auto.
  - destruct data as [|b data]; [exists w, files'; cbn; rewrite insert_id, app_nil_r by exact Hd; auto|].
    destruct Hw as [cs rest Hcs Hrest]. cbn [chunk_write_loop cw_store cw_hashes cw_buffer].
    set (d := b :: data) in *. set (n := Nat.min (CHUNK_SIZE - length rest) (length d)).
    assert (Hd1 : (1 <= length d)%nat) by (cbn; lia). unfold try_bind, mbind.
    destruct (Nat.eqb_spec (CHUNK_SIZE - length rest) n) as [Hn|Hn].
    + assert (Hlen : length (rest ++ take n d) = CHUNK_SIZE) by (rewrite length_app, length_take; lia).
      destruct (flush_wrote self files cs _ fs Hcs Hlen Hd) as (w1 & files1 & E1 & Hw1). rewrite (with_error_ok _ _ _ _ _ E1).
      destruct (IH (drop n d) _ w1 files1 (<[store_path self := DirEntry files1]> fs) Hw1 ltac:(apply lookup_insert_eq)
        ltac:(rewrite length_drop; lia)) as (w2 & files2 & -> & Hw2).
      exists w2, files2. rewrite insert_insert_eq. split; [reflexivity|].
      rewrite <- !app_assoc, take_drop in Hw2. rewrite <- app_assoc. exact Hw2.
    + assert (Hn' : n = length d) by lia. cbn [mret].
      destruct (IH (drop n d) (concat cs ++ (rest ++ take n d)) (mkChunkWriter self (map hash_of cs) (rest ++ take n d)) _ fs
        ltac:(constructor; [exact Hcs | rewrite length_app, length_take; lia]) Hd ltac:(rewrite length_drop; lia)) as (w2 & files2 & E & Hw2).
      unfold mret. rewrite E. exists w2, files2. split; [reflexivity|].
      rewrite <- !app_assoc, take_drop in Hw2. rewrite <- app_assoc. exact Hw2.
Qed.

Lemma write_pieces_wrote self files pieces : forall bytes w files' fs, wrote self files bytes w files' ->
  fs !! store_path self = Some (DirEntry files') ->
  exists w' files'', write_pieces pieces w fs = Some (Ok w', <[store_path self := DirEntry files'']> fs) /\
    wrote self files (bytes ++ concat pieces) w' files''.
Proof.
  induction pieces as [|piece pieces IH]; intros bytes w files' fs Hw Hd.
  - exists w, files'. cbn. rewrite insert_id, app_nil_r by exact Hd. auto.
  - cbn [write_pieces]. unfold try_bind, mbind, chunk_writer_write.
    destruct (chunk_write_loop_wrote self files (length piece) piece bytes w files' fs Hw Hd (Nat.le_refl _)) as (w1 & files1 & -> & Hw1).
    destruct (IH _ w1 files1 (<[store_path self := DirEntry files1]> fs) Hw1 ltac:(apply lookup_insert_eq)) as (w2 & files2 & -> & Hw2).
    exists w2, files2. rewrite insert_insert_eq. split; [reflexivity|]. cbn [concat]. rewrite app_assoc. exact Hw2.
Qed.

Lemma finalise_wrote self files bytes w files' fs : wrote self files bytes w files' -> fs !! store_path self = Some (DirEntry files') ->
  chunk_writer_finalise w fs = Some (Ok (map hash_of (chunks CHUNK_SIZE bytes)),
    <[store_path self := DirEntry (stored_all (chunks CHUNK_SIZE bytes) files)]> fs).
Proof.
  intros [cs rest Hcs Hrest] Hd. rewrite chunks_full by assumption. unfold chunk_writer_finalise, try_bind, mbind. cbn [cw_buffer].
  destruct rest as [|b rest].
  - cbn. rewrite app_nil_r, insert_id by exact Hd. reflexivity.
  - unfold chunk_writer_flush_buffer, try_bind, mbind. cbn [cw_store cw_buffer cw_hashes]. rewrite (store_eq _ _ _ _ Hd).
    unfold stored_all. rewrite foldl_app, map_app. reflexivity.
Qed.

(** Writing pieces commits what they are together. *)
Lemma commit_serialised_eq self pieces files fs : fs !! store_path (backend self) = Some (DirEntry files) ->
  commit_serialised self pieces fs = commit self (concat pieces) fs.
Proof.
  intros Hd. unfold commit_serialised, commit, try_bind, mbind.
  destruct (write_pieces_wrote (backend self) files pieces [] (chunk_writer_new (backend self)) files fs
    (wrote_intro (backend self) files [] [] (Forall_nil_2 _) chunk_size_pos) Hd) as (w & files' & E & Hw).
  rewrite (with_error_ok _ _ _ _ _ E).
  rewrite (finalise_wrote _ _ _ _ _ _ Hw) by apply lookup_insert_eq.
  rewrite (store_chunks_eq _ _ files fs Hd), insert_insert_eq. reflexivity.
Qed.

(** ** Reading in chunks *)

(** What a deserialiser makes of bytes. *)
Fixpoint reads {A} (r : Reading A) (bytes : list Z) : option A :=
  match r with
  | Done value => Some value
  | Malformed => None
  | ReadExact len k => if (len <=? length bytes)%nat then reads (k (take len bytes)) (drop len bytes) else None
  end.

(** The bytes still to come out of a reader. *)
Inductive remaining (fs : FS) : ChunkedReader -> list Z -> Prop :=
| remaining_intro self hashes buffer (cs : list (list Z)) :
    Forall2 (fun hash c => load self hash fs = Ok c /\ c <> []) hashes cs ->
    remaining fs (mkChunkedReader self hashes buffer) (buffer ++ concat cs).

Lemma chunked_read_some fs reader bytes len : remaining fs reader bytes -> (0 < len)%nat -> bytes <> [] ->
  exists data reader', chunked_read fs len reader = Ok (data, reader') /\ data <> [] /\ (length data <= len)%nat /\
    exists bytes', bytes = data ++ bytes' /\ remaining fs reader' bytes'.
Proof.
  intros [self hashes buffer cs Hcs] Hlen Hb. unfold chunked_read. cbn [cr_buffer].
  assert (Hread : forall hashes buffer (cs : list (list Z)), Forall2 (fun hash c => load self hash fs = Ok c /\ c <> []) hashes cs -> buffer <> [] ->
    take len buffer <> [] /\ (length (take len buffer) <= len)%nat /\ exists bytes', buffer ++ concat cs = take len buffer ++ bytes' /\
      remaining fs (mkChunkedReader self hashes (drop len buffer)) bytes').
  { clear -Hlen. intros hashes buffer cs Hcs Hb. split; [destruct len; [lia|]; destruct buffer; [congruence | discriminate]|].
    split; [rewrite length_take; lia|]. exists (drop len buffer ++ concat cs). rewrite app_assoc, take_drop.
    split; [reflexivity | constructor; exact Hcs]. }
  destruct buffer as [|x buffer].
  - destruct Hcs as [|hash c hashes cs [Hl Hne] Hcs]; [destruct Hb; reflexivity|].
    cbn [next_chunk cr_hashes cr_store]. rewrite Hl. cbn. destruct (Hread hashes c cs Hcs Hne) as (H1' & H2' & H3').
    eexists _, _. split; [reflexivity|]. split; [exact H1'|]. split; [exact H2' | exact H3'].
  - destruct (Hread hashes (x :: buffer) cs Hcs ltac:(discriminate)) as (H1' & H2' & H3').
    eexists _, _. split; [reflexivity|]. split; [exact H1'|]. split; [exact H2' | exact H3'].
Qed.

Lemma read_exact_ok fs fuel : forall len reader bytes, remaining fs reader bytes -> (len <= length bytes)%nat -> (len <= fuel)%nat ->
  exists reader', read_exact fs fuel len reader = Ok (take len bytes, reader') /\ remaining fs reader' (drop len bytes).
Proof.
  induction fuel as [|fuel IH]; intros len reader bytes Hr Hl Hf.
  - assert (len = O) as -> by lia. exists reader. cbn. auto.
  - destruct len as [|len]; [exists reader; cbn; auto|].
    destruct (chunked_read_some fs reader bytes (S len) Hr ltac:(lia)) as (data & reader1 & E & Hne & Hlen & bytes' & -> & Hr1);
      [intros ->; cbn in Hl; lia|].
    cbn [read_exact]. rewrite E. cbn [result_bind]. assert (Hd : (1 <= length data)%nat) by (destruct data; [congruence | cbn; lia]).
    rewrite length_app in Hl. destruct (IH (S len - length data)%nat reader1 bytes' Hr1 ltac:(lia) ltac:(lia)) as (reader2 & E2 & Hr2).
    exists reader2. destruct data as [|x data]; [congruence|]. rewrite E2. cbn [result_bind].
    rewrite take_app, drop_app. rewrite (take_ge (x :: data)) by lia. rewrite (drop_ge (x :: data)) by lia. split; [reflexivity | exact Hr2].
Qed.

Lemma deserialise_from_reads {A} fs (r : Reading A) v : forall reader bytes, remaining fs reader bytes -> reads r bytes = Some v ->
  deserialise_from fs r reader = Ok v.
Proof.
  induction r as [value| |len k IH]; intros reader bytes Hr; cbn [reads deserialise_from]; [intros [= ->]; reflexivity | discriminate|].
  destruct (Nat.leb_spec len (length bytes)) as [Hl|]; [|discriminate]. intros Hv.
  destruct (read_exact_ok fs len len reader bytes Hr Hl (Nat.le_refl _)) as (reader' & -> & Hr'). exact (IH _ _ _ Hr' Hv).
Qed.

Lemma chunks_not_empty (l : list Z) c : c ∈ chunks CHUNK_SIZE l -> c <> [].
Proof.
  unfold chunks. generalize (length l) at 1. intros fuel. revert l. induction fuel as [|fuel IH]; intros l Hc; [inversion Hc|].
  destruct l as [|b l]; [inversion Hc|]. cbn [chunks_from] in Hc. apply elem_of_cons in Hc as [->|Hc]; [discriminate | exact (IH _ Hc)].
Qed.

Lemma checkout_serialised_eq {A} (r : Reading A) self bytes fs v : has_commit (store_path (backend self)) bytes fs ->
  reads r bytes = Some v -> checkout_serialised r self (hash_of (chunk_list bytes)) fs = Ok v.
Proof.
  intros Hc Hv. pose proof (has_commit_list _ _ _ Hc) as Hl. destruct Hc as (files & Hd & Hf).
  unfold checkout_serialised, chunked_reader_new. destruct (load _ _ fs) as [raw|e]; cbn [result_bind] in *; [|discriminate].
  rewrite Hl. cbn [result_bind]. apply (deserialise_from_reads fs r v _ bytes); [|exact Hv].
  rewrite <- (chunks_concat CHUNK_SIZE bytes) by exact chunk_size_pos.
  rewrite (chunks_concat CHUNK_SIZE bytes) at 1 by exact chunk_size_pos. apply (remaining_intro fs (backend self) _ []).
  apply Forall2_fmap_l, Forall_Forall2_diag, Forall_forall. intros c Hin. split; [|exact (chunks_not_empty _ _ Hin)].
  apply (load_eq _ _ _ files Hd), Hf, elem_of_app. left. exact Hin.
Qed.

(** ** Files that are kept *)
Lemma stored_keeps data files name data' : files !! name = Some data' -> stored data files !! name = Some data'.
Proof.
  intros Hf. unfold stored. destruct (files !! name_of data) eqn:E; [exact Hf|]. rewrite lookup_insert_ne by congruence. exact Hf.
Qed.
Lemma stored_all_keeps l name data' : forall files, files !! name = Some data' -> stored_all l files !! name = Some data'.
Proof. induction l as [|data l IH]; intros files Hf; [exact Hf|]. apply (IH (stored data files)), stored_keeps, Hf. Qed.

Lemma collect_load_mono self self' fs fs' hashes : (forall hash data, hash ∈ hashes -> load self hash fs = Ok data -> load self' hash fs' = Ok data) ->
  forall cs, collect_results (load_chunk self fs) hashes = Ok cs -> collect_results (load_chunk self' fs') hashes = Ok cs.
Proof.
  induction hashes as [|h hashes IH]; intros Hk cs; [auto|]. cbn [collect_results]. unfold load_chunk at 1 3.
  destruct (load self h fs) as [data|e] eqn:E; [|discriminate]. rewrite (Hk h data ltac:(left) E). cbn.
  destruct (collect_results (load_chunk self fs) hashes) as [cs'|e] eqn:Ec; [|discriminate].
  rewrite (IH (fun h' d Hin => Hk h' d ltac:(right; exact Hin)) cs' eq_refl). auto.
Qed.

(** What a checkout loads. *)
Lemma checkout_inv self id bytes fs : checkout self id fs = Ok bytes ->
  exists raw hashes cs, load (backend self) id fs = Ok raw /\ deserialise_hashes raw = Some hashes /\
    collect_results (load_chunk (backend self) fs) hashes = Ok cs /\ bytes = concat cs.
Proof.
  unfold checkout, deserialise_commit. destruct (load _ id fs) as [raw|e]; [|discriminate]. cbn.
  destruct (deserialise_hashes raw) as [hashes|] eqn:Eh; [|discriminate]. cbn.
  destruct (collect_results _ hashes) as [cs|e] eqn:Ec; [|discriminate]. intros [= <-]. eauto 10.
Qed.
Lemma checkout_intro self id raw hashes cs fs : load (backend self) id fs = Ok raw -> deserialise_hashes raw = Some hashes ->
  collect_results (load_chunk (backend self) fs) hashes = Ok cs -> checkout self id fs = Ok (concat cs).
Proof. intros Hl Hh Hc. unfold checkout, deserialise_commit. rewrite Hl. cbn. rewrite Hh. cbn. rewrite Hc. reflexivity. Qed.
Lemma load_inv self hash fs data : load self hash fs = Ok data <->
  exists files, fs !! store_path self = Some (DirEntry files) /\ files !! file_name_of_hash hash = Some data.
Proof.
  unfold load, read_file. split.
  - destruct (fs !! store_path self) as [[c|files]|] eqn:Hd; [discriminate| |discriminate].
    destruct (files !! file_name_of_hash hash) eqn:Hf; [intros [= <-]; eauto | discriminate].
  - intros (files & -> & ->). reflexivity.
Qed.
Lemma checkout_mono self id bytes fs fs' : (forall hash data, load (backend self) hash fs = Ok data -> load (backend self) hash fs' = Ok data) ->
  checkout self id fs = Ok bytes -> checkout self id fs' = Ok bytes.
Proof.
  intros Hk (raw & hashes & cs & Hl & Hh & Hc & ->)%checkout_inv. apply (checkout_intro self id raw hashes); [apply Hk, Hl | exact Hh|].
  exact (collect_load_mono _ _ _ _ hashes (fun h d _ => Hk h d) cs Hc).
Qed.
Lemma commit_keeps self bytes files fs hash data : fs !! store_path (backend self) = Some (DirEntry files) ->
  load (backend self) hash fs = Ok data ->
  load (backend self) hash (<[store_path (backend self) := DirEntry (stored_all (commit_contents bytes) files)]> fs) = Ok data.
Proof.
  rewrite !load_inv. intros Hd (files' & Hd' & Hf). rewrite Hd in Hd'. injection Hd' as <-.
  eexists. split; [apply lookup_insert_eq|]. apply stored_all_keeps, Hf.
Qed.

(** C18: what is committed can be checked out.  Serialising a value into a repository stores the
    same commit as committing its bytes in one piece, and leaves a repository in which every file
    is named by its content and earlier commits give what they gave.  Checking the commit out gives the bytes,
    and deserialising it gives the value, through chunks read piece by piece; or else one of the
    contents that were stored has the digest of a different file of the repository. *)
Theorem commit_serialised_checkout {A} (r : Reading A) v self pieces fs :
  repo_ok (store_path (backend self)) fs -> reads r (concat pieces) = Some v ->
  exists id fs', commit_serialised self pieces fs = Some (Ok id, fs') /\ commit self (concat pieces) fs = Some (Ok id, fs') /\
    repo_ok (store_path (backend self)) fs' /\
    (forall id0 bytes0, checkout self id0 fs = Ok bytes0 -> checkout self id0 fs' = Ok bytes0) /\
    ((checkout self id fs' = Ok (concat pieces) /\ checkout_serialised r self id fs' = Ok v) \/
     exists files, fs' !! store_path (backend self) = Some (DirEntry files) /\ file_collision (commit_contents (concat pieces)) files).
Proof.
  intros (files & Hd & Hn) Hv. rewrite (commit_serialised_eq _ _ files fs Hd), (commit_eq _ _ files fs Hd). set (bytes := concat pieces) in *.
  destruct (commit_found self bytes files fs Hd Hn) as [Hok Hfound]. eexists _, _. split; [reflexivity|]. split; [reflexivity|].
  split; [exact Hok|]. split; [intros id0 bytes0; apply checkout_mono; intros hash data; apply commit_keeps, Hd|].
  destruct Hfound as [Hc|Hc]; [left | right; eexists; split; [apply lookup_insert_eq | exact Hc]].
  split; [exact (checkout_eq self bytes _ Hc) | exact (checkout_serialised_eq r self bytes _ v Hc Hv)].
Qed.

(** ** Snapshots *)
Lemma copy_eq self hash path fs files data target : fs !! store_path self = Some (DirEntry files) ->
  files !! file_name_of_hash hash = Some data -> fs !! path = Some (DirEntry target) ->
  copy self hash path fs = Some (Ok tt, <[path := DirEntry (<[file_name_of_hash hash := data]> target)]> fs).
Proof. intros Hd Hf Ht. unfold copy, mbind, mget, read_file, put_file. rewrite Hd, Hf, Ht. reflexivity. Qed.

Lemma copy_chunks_eq self path files hashes : store_path self <> path -> Forall (fun h => is_Some (files !! file_name_of_hash h)) hashes ->
  forall fs target, fs !! store_path self = Some (DirEntry files) -> fs !! path = Some (DirEntry target) ->
  exists copied, copy_chunks self hashes path fs = Some (Ok tt, <[path := DirEntry copied]> fs) /\
    forall name, copied !! name = if decide (name ∈ map file_name_of_hash hashes) then files !! name else target !! name.
Proof.
  intros Hne. induction 1 as [|h hashes [data Hf] _ IH]; intros fs target Hd Ht; cbn [copy_chunks].
  - exists target. cbn. rewrite insert_id by exact Ht. split; [reflexivity|]. intros name. rewrite decide_False; [reflexivity | apply not_elem_of_nil].
  - unfold try_bind, mbind. rewrite (copy_eq _ _ _ _ files data target Hd Hf Ht).
    destruct (IH (<[path := DirEntry (<[file_name_of_hash h := data]> target)]> fs) (<[file_name_of_hash h := data]> target))
      as (copied & -> & Hc); [rewrite lookup_insert_ne by congruence; exact Hd | apply lookup_insert_eq|].
    exists copied. rewrite insert_insert_eq. split; [reflexivity|]. intros name. rewrite Hc. cbn [map].
    destruct (decide (name ∈ map file_name_of_hash hashes)) as [Hin|Hin]; [rewrite decide_True by (right; exact Hin); reflexivity|].
    destruct (decide (name = file_name_of_hash h)) as [->|Hneq].
    + rewrite decide_True by left. rewrite lookup_insert_eq. symmetry. exact Hf.
    + rewrite decide_False by (intros [?|?]%elem_of_cons; contradiction). rewrite lookup_insert_ne by congruence. reflexivity.
Qed.

Lemma loaded_chunks self fs files hashes : fs !! store_path self = Some (DirEntry files) -> forall cs,
  collect_results (load_chunk self fs) hashes = Ok cs -> Forall (fun h => is_Some (files !! file_name_of_hash h)) hashes.
Proof.
  intros Hd. induction hashes as [|h hashes IH]; intros cs Hc; constructor.
  - cbn [collect_results] in Hc. unfold load_chunk at 1 in Hc. destruct (load self h fs) as [data|e] eqn:E; [|discriminate].
    apply load_inv in E as (files' & Hd' & Hf). rewrite Hd in Hd'. injection Hd' as <-. eauto.
  - cbn [collect_results] in Hc. destruct (load_chunk self fs h); [|discriminate]. cbn in Hc.
    destruct (collect_results _ hashes) as [cs'|] eqn:Ec; [|discriminate]. exact (IH cs' eq_refl).
Qed.

(** C29: a snapshot is a repository with one commit.  Exporting a commit that can be checked out, to a
    new or empty directory, succeeds, changes nothing else, and makes a directory of files that
    the repository has under the same names, from which the commit is checked out as before. *)
Theorem snapshot_checkout self id bytes path fs :
  fs !! path = None \/ fs !! path = Some (DirEntry ∅) -> checkout self id fs = Ok bytes ->
  exists files, export_snapshot self id path fs = Some (Ok tt, <[path := DirEntry files]> fs) /\
    checkout (mkRepo (mkStore path)) id (<[path := DirEntry files]> fs) = Ok bytes /\
    forall name data, files !! name = Some data -> read_file (store_path (backend self)) name fs = Some data.
Proof.
  intros Htarget (raw & hashes & cs & Hl & Hh & Hc & ->)%checkout_inv. pose proof Hl as (files & Hd & Hf)%load_inv.
  assert (Hne : store_path (backend self) <> path).
  { intros <-. rewrite Hd in Htarget. destruct Htarget as [|[= ->]]; [discriminate|]. rewrite lookup_empty in Hf. discriminate. }
  set (fs1 := <[path := DirEntry ∅]> fs).
  assert (Hcreate : create_target path fs = Some (Ok tt, fs1)).
  { unfold create_target, fs1. destruct Htarget as [->|Ht]; [reflexivity|]. rewrite Ht, decide_True by reflexivity. rewrite insert_id by exact Ht. reflexivity. }
  assert (Hd1 : fs1 !! store_path (backend self) = Some (DirEntry files)) by (unfold fs1; rewrite lookup_insert_ne by congruence; exact Hd).
  destruct (copy_chunks_eq (backend self) path files hashes Hne (loaded_chunks _ _ _ _ Hd cs Hc) fs1 ∅ Hd1 ltac:(apply lookup_insert_eq)) as (copied & Hcopy & Hcopied).
  set (F := <[file_name_of_hash id := raw]> copied). exists F.
  assert (HF : forall name data, F !! name = Some data -> files !! name = Some data).
  { intros name data. unfold F. intros [[<- <-]|[_ Hlook]]%lookup_insert_Some; [exact Hf|]. rewrite Hcopied in Hlook.
    destruct (decide _); [exact Hlook | rewrite lookup_empty in Hlook; discriminate]. }
  split; [|split].
  - unfold export_snapshot, try_bind, mbind. rewrite Hcreate. cbn [mget]. unfold mget.
    replace (load (backend self) id fs1) with (@Ok (list Z) StorageError raw) by (symmetry; apply load_inv; eauto).
    unfold deserialise_commit, mret. rewrite Hh, Hcopy.
    rewrite (copy_eq _ _ _ _ files raw copied); [|rewrite lookup_insert_ne by congruence; exact Hd1 | exact Hf | apply lookup_insert_eq].
    unfold fs1, F. rewrite !insert_insert_eq. reflexivity.
  - apply (checkout_intro (mkRepo (mkStore path)) id raw hashes); [|exact Hh|].
    + apply load_inv. exists F. split; [apply lookup_insert_eq | apply lookup_insert_eq].
    + apply (collect_load_mono (backend self) _ fs); [|exact Hc]. intros h data Hin (files' & Hd' & Hfh)%load_inv.
      rewrite Hd in Hd'. injection Hd' as <-. apply load_inv. exists F. split; [apply lookup_insert_eq|]. unfold F.
      destruct (decide (file_name_of_hash h = file_name_of_hash id)) as [Heq|Hneq].
      * rewrite Heq in Hfh |- *. rewrite lookup_insert_eq. congruence.
      * rewrite lookup_insert_ne by congruence. rewrite Hcopied, decide_True; [exact Hfh|]. apply list_elem_of_fmap. eauto.
  - intros name data Hn. unfold read_file. rewrite Hd. exact (HF name data Hn).
Qed.
End Storage.

(** ** Instances *)
Module Sample.
(** A hash of the first bytes, names that are numbers, and lists of hashes coded as one. *)
#[local] Instance blake2b : Blake2b := { digest_256 bytes := take 32 (bytes ++ replicate 32 0) }.
#[local] Instance blake2b_laws : Blake2bLaws.
Proof. intros bytes. unfold digest_256, blake2b. rewrite length_take, length_app, length_replicate. lia. Qed.
#[local] Instance storage_env : StorageEnv := {
  hash_name hash := pretty (N.pos (encode hash));
  serialise_hashes hashes := [Z.pos (encode (map digest hashes))];
  deserialise_hashes bytes := match bytes with [Z.pos p] => option_map (map mkHash) (decode (A := list (list Z)) p) | _ => None end }.
#[local] Instance storage_laws : StorageLaws.
Proof.
  split.
  - intros hash hash' Heq. cbn in Heq. apply (inj pretty) in Heq. injection Heq as Heq. exact (inj encode _ _ Heq).
  - intros hashes _. cbn [deserialise_hashes serialise_hashes storage_env]. rewrite decode_encode. cbn. rewrite map_map.
    f_equal. rewrite (map_ext _ (fun h => h)) by (intros []; reflexivity). apply map_id.
Qed.

Definition repo : Repo := mkRepo (mkStore "repo").
Definition empty_repo : FS := {["repo" := DirEntry ∅]}.
(** A value of a length and as many bytes, in two pieces. *)
Definition pieces : list (list Z) := [[3]; [7; 8; 9]].
Definition read_list : Reading (list Z) :=
  ReadExact 1 (fun n => match n with [n] => ReadExact (Z.to_nat n) Done | _ => Malformed end).

Lemma commit_serialised_checkout_witness :
  exists id fs', commit_serialised repo pieces empty_repo = Some (Ok id, fs') /\
    commit repo (concat pieces) empty_repo = Some (Ok id, fs') /\ repo_ok "repo" fs' /\
    (forall id0 bytes0, checkout repo id0 empty_repo = Ok bytes0 -> checkout repo id0 fs' = Ok bytes0) /\
    ((checkout repo id fs' = Ok (concat pieces) /\ checkout_serialised read_list repo id fs' = Ok [7; 8; 9]) \/
     exists files, fs' !! "repo"%string = Some (DirEntry files) /\ file_collision (commit_contents (concat pieces)) files).
Proof.
  apply (commit_serialised_checkout read_list [7; 8; 9] repo pieces empty_repo).
  - exists ∅. split; [reflexivity|]. intros name data Hl. rewrite lookup_empty in Hl. discriminate Hl.
  - reflexivity.
Defined.

(** A repository with one commit of one chunk. *)
Definition bytes : list Z := [7; 8; 9].
Definition one_commit : FS :=
  {["repo" := DirEntry (<[name_of bytes := bytes]> {[name_of (chunk_list bytes) := chunk_list bytes]})]}.
Lemma one_commit_has : has_commit "repo" bytes one_commit.
Proof.
  eexists. split; [reflexivity|]. intros data Hin.
  change (commit_contents bytes) with [bytes; chunk_list bytes] in Hin.
  apply elem_of_cons in Hin as [->|Hin]; [apply lookup_insert_eq|]. apply list_elem_of_singleton in Hin as ->.
  rewrite lookup_insert_ne; [apply lookup_singleton_eq|]. intros Heq. apply hash_name_inj in Heq. discriminate Heq.
Qed.

Lemma snapshot_checkout_witness :
  exists files, export_snapshot repo (hash_of (chunk_list bytes)) "copy" one_commit = Some (Ok tt, <["copy"%string := DirEntry files]> one_commit) /\
    checkout (mkRepo (mkStore "copy")) (hash_of (chunk_list bytes)) (<["copy"%string := DirEntry files]> one_commit) = Ok bytes /\
    forall name data, files !! name = Some data -> read_file "repo" name one_commit = Some data.
Proof.
  apply (snapshot_checkout repo (hash_of (chunk_list bytes)) bytes "copy" one_commit).
  - left. reflexivity.
  - apply checkout_eq, one_commit_has.
Defined.
End Sample.
