(* ===== verification/JitRuns.v ===== *)
(** * Runs of compiled code

    What the builder keeps as it emits code ([later]), and what the code that leaves the
    function does when it is run: the end block, [jump_to_end], [exit_on_branch] and
    [handle_exception] of [src/riscv/lib/src/jit/builder.rs].  [follows] is a run of what was
    emitted between two builders; [agree] says that the state under compiled code is the
    interpreter's; [leaves] that a run returns as the interpreter's outcome says.

    Then what the code emitted for an access does when it is run: a branch for an error
    ([errno_handle] of [src/riscv/lib/src/jit/errno.rs]), the calls of the host's functions of
    [state_access.rs], and the accesses to registers, which the two implementations of
    [JitStateAccess] make in their own way ([AccessLaws]). *)

From stdpp Require Import gmap.
From S2P Require Import Prelude.
From S2P Require Import Registers.
From S2P Require Import Csr.
From S2P Require Import Instr.
From S2P Require Import Icb.
From S2P Require Import Integer.
From S2P Require Import Interpreter.
From S2P Require Import Memory.
From S2P Require Import MemorySpec.
From S2P Require Import Core.
From S2P Require Import Step.
From S2P Require Import IsaSpec.
From S2P Require Import CoreSpec.
From S2P Require Import IntegerSpec.
From S2P Require Import Cranelift.
From S2P Require Import StateAccess.
From S2P Require Import JitBuilder.

Notation fb b := (builder (emitter b)).
Notation fn_of b := (func (builder (emitter b))).
Notation nvalues f := (length (value_types f)).

(** ** What the builder keeps *)

(** The functions that are remembered are declared. *)
Definition calls_ok (e : Emitter) : Prop :=
  forall fn r, jsa_call e fn = Some r -> ext_funcs (func (builder e)) !! r = Some fn.

(** The end block writes the program counter and returns the steps. *)
Definition end_ok (b : Builder) : Prop :=
  forall e, end_block b = Some e -> exists p s bd rest r,
    blocks (fn_of b) !! e = Some bd /\ params bd = [p; s] /\
    insts bd = Call None r [core_ptr_val b; p] :: Return [s] :: rest /\
    ext_funcs (fn_of b) !! r = Some Jsa.pc_write /\
    (core_ptr_val b < p)%nat /\ (p < s)%nat.

(** The current block exists. *)
Definition position_ok (b : FB) : Prop :=
  forall i, position b = Some i -> (i < length (blocks (func b)))%nat.
Lemma frame_position_ok n (b b' : FB) : frame n b b' -> position_ok b -> position_ok b'.
Proof.
  intros [N [Hp|(i & Hp & Hi)] _] Ho j; rewrite Hp; [intros Hj; specialize (Ho j Hj); lia | intros [= <-]; lia].
Qed.

Definition binv (b : Builder) : Prop :=
  calls_ok (emitter b) /\ (core_ptr_val b < nvalues (fn_of b))%nat /\ end_ok b /\ position_ok (fb b).

Definition em_later (e e' : Emitter) : Prop :=
  fb_extends (builder e) (builder e') /\ (calls_ok e -> calls_ok e').
#[export] Instance em_later_preorder : PreOrder em_later.
Proof.
  split; [intros e; split; [reflexivity | auto]|].
  intros e1 e2 e3 [H1 C1] [H2 C2]. split; [etransitivity; eassumption | auto].
Qed.

Record later (b b' : Builder) : Prop := {
  lt_fb : fb_extends (fb b) (fb b');
  lt_core : core_ptr_val b' = core_ptr_val b;
  lt_result : result_ptr_val b' = result_ptr_val b;
  lt_inv : binv b -> binv b' }.
#[export] Instance later_preorder : PreOrder later.
Proof.
  split; [intros b; split; auto; reflexivity|].
  intros b1 b2 b3 [] []. split; [etransitivity; eassumption | congruence | congruence | auto].
Qed.

Lemma lt_extends b b' : later b b' -> extends (fn_of b) (fn_of b').
Proof. intros L. apply (lt_fb _ _ L). Qed.

(** *** Emitters *)
Lemma ins_grows {A} (m : M FB A) : grows fb_extends m -> grows em_later (ins m).
Proof.
  intros Hm e a e'. unfold ins. destruct (m (builder e)) as [[x b]|] eqn:E; [|discriminate].
  intros [= <- <-]. specialize (Hm _ _ _ E). split; [exact Hm|].
  intros Hc fn r Hr. cbn in *. eapply extends_fn; [apply Hm | exact (Hc fn r Hr)].
Qed.

Lemma func_ref_inv fn e r e' : func_ref fn e = Some (r, e') ->
  em_later e e' /\ (calls_ok e -> ext_funcs (func (builder e')) !! r = Some fn) /\
  position (builder e') = position (builder e) /\ blocks (func (builder e')) = blocks (func (builder e)) /\
  value_types (func (builder e')) = value_types (func (builder e)) /\
  stack_slots (func (builder e')) = stack_slots (func (builder e)).
Proof.
  unfold func_ref. intros H. apply bind_inv in H as (c & e1 & [= <- <-] & H).
  destruct (jsa_call e fn) as [r'|] eqn:Hr.
  - injection H as <- <-. split; [reflexivity|]. split; [intros Hc; apply Hc, Hr|]. auto.
  - apply bind_inv in H as (r' & e1 & Hd & H).
    pose proof (ins_grows _ (declare_func_in_func_grows fn) _ _ _ Hd) as [Hx Hc].
    apply bind_inv in H as ([] & e2 & Hp & Hq). injection Hp as <-. injection Hq as <- <-.
    injection Hd as <- <-. cbn in *. split; [split; [exact Hx|]|split; [|auto]].
    + intros Hk fn' r. cbn. destruct (decide (fn' = fn)) as [->|].
      * intros [= <-]. rewrite lookup_app_r, Nat.sub_diag by lia. reflexivity.
      * intros Hr'. apply lookup_app_l_Some, Hk, Hr'.
    + intros _. rewrite lookup_app_r, Nat.sub_diag by lia. reflexivity.
Qed.

Lemma func_ref_grows fn : grows em_later (func_ref fn).
Proof. intros e r e' H. apply (func_ref_inv _ _ _ _ H). Qed.
#[export] Hint Resolve func_ref_grows : grows.
#[export] Hint Extern 1 (grows em_later (ins _)) => apply ins_grows : grows.

Lemma jsa_invoke_grows fn args : grows em_later (jsa_invoke fn args).
Proof. unfold jsa_invoke. grows. Qed.
Lemma first_result_grows m : grows em_later m -> grows em_later (first_result m).
Proof. intros Hm. unfold first_result. grows. Qed.
#[export] Hint Resolve jsa_invoke_grows : grows.
#[export] Hint Extern 1 (grows em_later (first_result _)) => apply first_result_grows : grows.

Lemma slot_new_grows T : grows fb_extends (slot_new T). Proof. apply create_sized_stack_slot_grows. Qed.
Lemma slot_ptr_grows s : grows fb_extends (slot_ptr s). Proof. apply stack_addr_grows. Qed.
Lemma slot_store_grows s v : grows fb_extends (slot_store s v). Proof. apply stack_store_grows. Qed.
Lemma slot_load_grows s : grows fb_extends (slot_load s). Proof. apply stack_load_grows. Qed.
#[export] Hint Resolve slot_new_grows slot_ptr_grows slot_store_grows slot_load_grows : grows.
Lemma exception_slot_grows : grows em_later exception_slot.
Proof. unfold exception_slot. grows. Qed.
#[export] Hint Resolve exception_slot_grows : grows.

Lemma provided_xreg_read_grows c r : grows em_later (provided_xreg_read c r).
Proof. unfold provided_xreg_read. grows. Qed.
Lemma provided_xreg_write_grows c r v : grows em_later (provided_xreg_write c r v).
Proof. unfold provided_xreg_write. grows. Qed.
Lemma owned_xreg_read_grows o c r : grows em_later (owned_xreg_read o c r).
Proof. unfold owned_xreg_read. grows. Qed.
Lemma owned_xreg_write_grows o c r v : grows em_later (owned_xreg_write o c r v).
Proof. unfold owned_xreg_write. grows. Qed.
Lemma jsa_pc_write_grows c v : grows em_later (jsa_pc_write c v).
Proof. unfold jsa_pc_write. grows. Qed.
Lemma jsa_handle_exception_grows c e r v : grows em_later (jsa_handle_exception c e r v).
Proof. unfold jsa_handle_exception. grows. Qed.
Lemma jsa_raise_illegal_grows : grows em_later jsa_raise_illegal_instruction_exception.
Proof. unfold jsa_raise_illegal_instruction_exception. grows. Qed.
Lemma jsa_raise_amo_grows a : grows em_later (jsa_raise_store_amo_access_fault_exception a).
Proof. unfold jsa_raise_store_amo_access_fault_exception. grows. Qed.
Lemma jsa_ecall_grows c : grows em_later (jsa_ecall c).
Proof. unfold jsa_ecall. grows. Qed.
Lemma jsa_memory_store_grows V c a v : grows em_later (jsa_memory_store V c a v).
Proof. unfold jsa_memory_store. grows. Qed.
Lemma jsa_memory_load_grows V c a : grows em_later (jsa_memory_load V c a).
Proof. unfold jsa_memory_load. grows. Qed.
Lemma jsa_reservation_set_write_grows c a : grows em_later (jsa_reservation_set_write c a).
Proof. unfold jsa_reservation_set_write. grows. Qed.
Lemma jsa_reservation_set_read_grows c : grows em_later (jsa_reservation_set_read c).
Proof. unfold jsa_reservation_set_read. grows. Qed.
#[export] Hint Resolve jsa_pc_write_grows jsa_handle_exception_grows jsa_raise_illegal_grows
  jsa_raise_amo_grows jsa_ecall_grows jsa_memory_store_grows jsa_memory_load_grows
  jsa_reservation_set_write_grows jsa_reservation_set_read_grows : grows.

(** *** Builders *)
Lemma emitter_later b e : em_later (emitter b) e ->
  later b (mkBuilder e (core_ptr_val b) (dynamic b) (end_block b) (result_ptr_val b)).
Proof.
  intros [Hm Hc]. pose proof (proj1 Hm) as Hx. split; try reflexivity; [exact Hm|].
  intros (Hk & Hl & He & Ho). cbn. split; [apply Hc, Hk|]. split; [|split].
  - apply extends_values_length in Hx. cbn. lia.
  - intros e0 He0. destruct (He e0 He0) as (p & s & bd & rest & r & Hb & Hp & Hi & Hf & Hlt). cbn in *.
    destruct (ext_blocks _ _ Hx _ _ Hb) as (bd' & Hb' & Hp' & [k Hk']).
    exists p, s, bd', (rest ++ k), r. rewrite Hk', Hi, Hp'. cbn.
    repeat split; try assumption; try apply Hlt. eapply extends_fn; eassumption.
  - eapply frame_position_ok; [apply Hm | exact Ho].
Qed.
Lemma emit_grows {A} (m : M Emitter A) : grows em_later m -> grows later (emit m).
Proof.
  intros Hm b a b'. unfold emit. destruct (m (emitter b)) as [[x e]|] eqn:E; [|discriminate].
  intros [= <- <-]. apply emitter_later, (Hm _ _ _ E).
Qed.
Lemma ir_grows {A} (m : M FB A) : grows fb_extends m -> grows later (ir m).
Proof. intros Hm. apply emit_grows, ins_grows, Hm. Qed.
#[export] Hint Extern 1 (grows later (emit _)) => apply emit_grows : grows.
#[export] Hint Extern 1 (grows later (ir _)) => apply ir_grows : grows.

Lemma set_dynamic_grows d : grows later (mput (set_dynamic d)).
Proof. intros b t b' [= <- <-]. split; try reflexivity. auto. Qed.
#[export] Hint Resolve set_dynamic_grows : grows.

Lemma complete_step_grows u : grows later (complete_step u).
Proof. unfold complete_step. grows. Qed.
Lemma read_pc_grows d : grows fb_extends (read_pc d).
Proof. unfold read_pc. grows. Qed.
#[export] Hint Resolve complete_step_grows read_pc_grows : grows.
Lemma builder_pc_read_grows : grows later builder_pc_read.
Proof. unfold builder_pc_read. grows. Qed.
#[export] Hint Resolve builder_pc_read_grows : grows.

(** ** Leaving the function *)
Lemma emit_inv {A} (m : M Emitter A) b a b' : emit m b = Some (a, b') ->
  m (emitter b) = Some (a, emitter b') /\ core_ptr_val b' = core_ptr_val b /\ dynamic b' = dynamic b /\
  end_block b' = end_block b /\ result_ptr_val b' = result_ptr_val b.
Proof. unfold emit. destruct (m (emitter b)) as [[x e]|]; [|discriminate]. intros [= <- <-]. auto. Qed.

Lemma ins_inv {A} (m : M FB A) e a e' : ins m e = Some (a, e') ->
  m (builder e) = Some (a, builder e') /\ jsa_call e' = jsa_call e.
Proof. unfold ins. destruct (m (builder e)) as [[x b]|]; [|discriminate]. intros [= <- <-]. auto. Qed.

Lemma ir_inv {A} (m : M FB A) b a b' : ir m b = Some (a, b') ->
  m (fb b) = Some (a, fb b') /\ core_ptr_val b' = core_ptr_val b /\ dynamic b' = dynamic b /\
  end_block b' = end_block b /\ result_ptr_val b' = result_ptr_val b /\
  jsa_call (emitter b') = jsa_call (emitter b).
Proof. intros H. apply emit_inv in H as (H & ? & ? & ? & ?). apply ins_inv in H as [? ?]. auto 10. Qed.

(** A call, by the signature of its function. *)
Lemma call_inv r args (b b' : FB) vs fn : call jsa_signature r args b = Some (vs, b') ->
  ext_funcs (func b) !! r = Some fn ->
  match snd (jsa_signature fn) with
  | Some ty => exists v, vs = [v] /\ ins_value ty (fun v => Call (Some v) r args) b = Some (v, b')
  | None => vs = [] /\ push_inst (Call None r args) b = Some (tt, b')
  end.
Proof.
  unfold call. intros H Hf. apply bind_inv in H as (fns & b1 & [= <- <-] & H).
  apply bind_inv in H as (fn' & b1 & Hl & H). rewrite Hf in Hl. injection Hl as <- <-.
  destruct (snd (jsa_signature fn)).
  - apply bind_inv in H as (v & b1 & Hv & [= <- <-]). eauto.
  - apply bind_inv in H as ([] & b1 & Hv & [= <- <-]). auto.
Qed.

(** The end block, when it is made. *)
Lemma finalise_end_block_new e b t b' :
  finalise_end_block e b = Some (t, b') -> end_block b = None ->
  calls_ok (emitter b) -> (core_ptr_val b < nvalues (fn_of b))%nat ->
  (forall bd, blocks (fn_of b) !! e = Some bd -> params bd = []) ->
  extends_below e (fn_of b) (fn_of b') /\ frame e (fb b) (fb b') /\ core_ptr_val b' = core_ptr_val b /\
  result_ptr_val b' = result_ptr_val b /\ dynamic b' = dynamic b /\
  calls_ok (emitter b') /\ end_block b' = Some e /\ end_ok b'.
Proof.
  unfold finalise_end_block. intros H He Hc Hl Hp.
  apply bind_inv in H as (x & b1 & [= <- <-] & H). rewrite He in H.
  apply bind_inv in H as ([] & b1 & H1 & H). apply ir_inv in H1 as (H1 & C1 & D1 & _ & R1 & J1).
  pose proof (switch_to_block_frame e _ _ _ _ H1 ltac:(lia)) as M1.
  apply switch_to_block_inv in H1 as (F1 & P1 & _).
  apply bind_inv in H as (p & b2 & H2 & H). apply ir_inv in H2 as (H2 & C2 & D2 & _ & R2 & J2).
  pose proof (append_block_param_below e _ _ _ _ _ H2 ltac:(lia)) as L2.
  pose proof (append_block_param_frame e _ _ _ _ _ H2) as M2.
  apply append_block_param_inv in H2 as (bd2 & B2 & I2 & -> & P2 & V2 & X2 & _ & K2).
  apply bind_inv in H as (s & b3 & H3 & H). apply ir_inv in H3 as (H3 & C3 & D3 & _ & R3 & J3).
  pose proof (append_block_param_below e _ _ _ _ _ H3 ltac:(lia)) as L3.
  pose proof (append_block_param_frame e _ _ _ _ _ H3) as M3.
  apply append_block_param_inv in H3 as (bd3 & B3 & I3 & -> & P3 & V3 & X3 & _ & K3).
  rewrite K2, list_lookup_insert_eq in B3 by (eapply lookup_lt_Some, B2). injection B3 as <-. cbn in K3.
  rewrite F1 in B2. rewrite (Hp _ B2) in K3. cbn in K3.
  apply bind_inv in H as (c & b3' & [= <- <-] & H).
  apply bind_inv in H as ([] & b4 & H4 & H). apply emit_inv in H4 as (H4 & C4 & D4 & _ & R4).
  unfold jsa_pc_write, jsa_invoke in H4. apply bind_inv in H4 as (vs & e4 & H4 & [= ->]).
  apply bind_inv in H4 as (r & e4 & Hr & H4).
  apply func_ref_inv in Hr as ([[L4 M4] Hk4] & Hr & P4 & K4 & V4 & _).
  assert (Hc3 : calls_ok (emitter b3)).
  { intros fn r' Hr'. rewrite X3, X2, F1. apply Hc. congruence. }
  specialize (Hr Hc3). specialize (Hk4 Hc3).
  pose proof (ins_grows _ (call_grows _ _ _) _ _ _ H4) as [[L5 M5] Hk5]. specialize (Hk5 Hk4).
  apply ins_inv in H4 as [H4 _].
  apply (call_inv _ _ _ _ _ _ H4) in Hr as Hcall. cbn in Hcall. destruct Hcall as [_ Hcall].
  assert (Hpos4 : position (builder e4) = Some e) by congruence.
  assert (Hb4 : blocks (func (builder e4)) !! e = Some (mkBlockData [nvalues (fn_of b1); nvalues (fn_of b2)] [] (sealed bd2))).
  { rewrite K4, K3. apply list_lookup_insert_eq. rewrite K2, length_insert. rewrite F1. eapply lookup_lt_Some, B2. }
  pose proof (push_inst_here _ _ _ _ _ _ Hcall Hpos4 Hb4) as Hb5. cbn in Hb5.
  apply push_inst_emitted in Hcall as E5.
  apply bind_inv in H as ([] & b6 & H6 & H). apply ir_inv in H6 as (H6 & C6 & D6 & _ & R6 & J6).
  assert (Hpos5 : position (fb b4) = Some e) by (rewrite (em_position _ _ _ E5); exact Hpos4).
  pose proof (push_inst_here _ _ _ _ _ _ H6 Hpos5 Hb5) as Hb6. cbn in Hb6.
  pose proof (push_inst_grows _ _ _ _ H6) as [_ M6].
  apply push_inst_emitted in H6 as E6. injection H as <- <-. cbn.
  assert (Hle3 : (e < length (blocks (fn_of b3)))%nat).
  { rewrite K3, length_insert, K2, length_insert. rewrite F1. eapply lookup_lt_Some, B2. }
  assert (Hle4 : (e < length (blocks (func (builder e4))))%nat) by (rewrite K4; exact Hle3).
  assert (Hle5 : (e < length (blocks (fn_of b4)))%nat) by (apply extends_blocks_length in L5; lia).
  split; [|split; [|split; [congruence|split; [congruence|split; [congruence|]]]]].
  - rewrite <- F1. eapply extends_below_trans; [exact L2|]. eapply extends_below_trans; [exact L3|].
    apply extends_below_of. etransitivity; [exact L4|]. etransitivity; [exact L5|]. apply (em_extends _ _ _ E6).
  - eapply frame_trans; [exact M1|]. eapply frame_trans; [exact M2|]. eapply frame_trans; [exact M3|].
    eapply frame_trans; [eapply frame_weaken; [|exact M4]; lia|].
    eapply frame_trans; [eapply frame_weaken; [|exact M5]; lia|]. eapply frame_weaken; [|exact M6]; lia.
  - assert (Hc6 : calls_ok (emitter b6)).
    { intros fn r' Hr'. rewrite J6 in Hr'. eapply extends_fn; [apply (em_extends _ _ _ E6)|]. apply Hk5, Hr'. }
    split; [exact Hc6|]. split; [reflexivity|]. intros e' [= <-]. cbn.
    eexists _, _, _, [], r. split; [exact Hb6|]. cbn. split; [reflexivity|].
    split; [replace (core_ptr_val b6) with (core_ptr_val b3) by congruence; reflexivity|].
    split.
    + eapply extends_fn; [apply (em_extends _ _ _ E6)|]. eapply extends_fn; [exact L5 | exact Hr].
    + rewrite V2, length_app. cbn. rewrite F1. replace (core_ptr_val b6) with (core_ptr_val b) by congruence. lia.
Qed.

Section Sim.
Context {Mem : Type} `{Memory Mem} `{!MemoryLaws Mem} (xregisters_offset : Z).
Notation Core := (MachineCoreState Mem).
Notation St := (JitState Mem).
#[local] Instance sim_host : Host JsaFn St := jit_host xregisters_offset.
Implicit Types (F : Function JsaFn) (env : Env) (h : St) (b : Builder) (s : Core).

(** An emitted instruction with a result. *)
Lemma ir_value F ty mk b v b' env h x h' : ir (ins_value ty mk) b = Some (v, b') -> fresh env (fb b) ->
  extends (fn_of b') F -> is_terminator (mk v) = false ->
  exec_inst F (mk v) env h = Some (<[v := x]> env, h') ->
  goes F (fb b) env h (fb b') (<[v := x]> env) h' /\ env ⊆ <[v := x]> env /\ (v < nvalues (fn_of b'))%nat.
Proof. intros Hi. apply ir_inv in Hi as (Hi & _). revert Hi. apply goes_value. Qed.

Lemma ir_binary_inv op x y b v b' : ir (binary op x y) b = Some (v, b') ->
  exists ty, ir (ins_value ty (fun v => Binary op v x y)) b = Some (v, b').
Proof.
  unfold ir, emit, ins, binary. cbn. unfold mbind at 1.
  destruct (value_type x (fb b)) as [[ty f]|] eqn:E; [|discriminate]. intros Hi. exists ty.
  unfold value_type in E. apply bind_inv in E as (tys & f' & [= <- <-] & E). unfold mlift in E.
  destruct (_ !! _); [|discriminate]. injection E as <- <-. exact Hi.
Qed.

(** *** The program counter *)
Definition pc_is b env (p : Z) : Prop :=
  exists v, env !! x64_val (pc_val (dynamic b)) = Some (VInt I64 v) /\ urange 64 v /\
            wrap 64 (v + pc_offset (dynamic b)) = p.

Lemma ir_mret {A} (a : A) b : ir (mret a) b = Some (a, b).
Proof. destruct b as [[] ]; reflexivity. Qed.

Lemma read_pc_runs F b pc b' env h p : builder_pc_read b = Some (pc, b') -> fresh env (fb b) ->
  extends (fn_of b') F -> pc_is b env p ->
  exists env', goes F (fb b) env h (fb b') env' h /\ env ⊆ env' /\
    env' !! x64_val pc = Some (VInt I64 p) /\ urange 64 p /\ pc_is b' env' p /\
    d_steps (dynamic b') = d_steps (dynamic b).
Proof.
  unfold builder_pc_read, read_pc. intros Hr Hf He (v & Hv & Hu & Hp).
  apply bind_inv in Hr as (d & b1 & [= <- <-] & Hr).
  apply bind_inv in Hr as ([x d] & b1 & H1 & Hr). apply bind_inv in Hr as ([] & b2 & [= <-] & [= <- <-]).
  cbn in He |- *. destruct (Z.eqb_spec (pc_offset (dynamic b)) 0) as [E0|E0].
  - rewrite ir_mret in H1. injection H1 as <- <- <-. exists env.
    assert (Hpv : p = v) by (rewrite <- Hp, E0, Z.add_0_r; apply wrap_small, Hu).
    subst p. split; [|split; [reflexivity|split; [rewrite Hpv; exact Hv|split; [rewrite Hpv; exact Hu|]]]].
    + apply goes_refl, Hf.
    + split; [|reflexivity]. exists v. auto.
  - apply ir_inv in H1 as (H1 & _). apply bind_inv in H1 as (n & f1 & H1 & [= <- <- ->]).
    unfold iadd_imm in H1. apply bind_inv in H1 as (ty & f2 & H2 & H1).
    unfold value_type in H2. apply bind_inv in H2 as (tys & f3 & [= <- <-] & H2). unfold mlift in H2.
    destruct (_ !! _); [|discriminate]. injection H2 as <- <-.
    eapply (goes_value F _ _ _ _ _ env h (VInt I64 p)) in H1 as (G & S & _).
    + exists (<[n := VInt I64 p]> env). cbn. rewrite lookup_insert_eq.
      assert (urange 64 p) by (rewrite <- Hp; apply wrap_range; lia).
      split; [exact G|]. split; [exact S|]. split; [reflexivity|]. split; [assumption|]. split; [|reflexivity].
      exists p. cbn. rewrite lookup_insert_eq, Z.add_0_r. auto using wrap_small.
    + exact Hf.
    + exact He.
    + reflexivity.
    + cbn. unfold int_of. rewrite Hv. cbn. rewrite Hp. reflexivity.
Qed.

(** *** The way out *)
Definition pc_written (p : Z) h : St :=
  mkJitState (with_hart (with_pc p (hart (js_core h))) (js_core h)) (js_result h) (js_slots h).

Lemma end_block_runs F b e env h (p n : Z) : binv b -> end_block b = Some e -> extends (fn_of b) F ->
  env !! core_ptr_val b = Some (VPtr PCore) ->
  exists c, goto F e [VInt I64 p; VInt I64 n] env h = Some (Running c) /\
            nsteps F 2 c (Returned [VInt I64 n] (pc_written p h)).
Proof.
  intros (Hc & Hl & He & _) Hb Hx Hcore. destruct (He e Hb) as (pv & sv & bd & rest & r & B & P & I & X & L1 & L2).
  destruct (ext_blocks _ _ Hx _ _ B) as (bd' & B' & P' & [k K]).
  unfold goto. rewrite B'. cbn. rewrite P', P. cbn. eexists; split; [reflexivity|].
  assert (Hi : forall i x, insts bd !! i = Some x -> inst_at F e i = Some x).
  { intros i x Hix. unfold inst_at. rewrite B'. cbn. rewrite K. apply lookup_app_l_Some, Hix. }
  set (env' := <[sv := VInt I64 n]> (<[pv := VInt I64 p]> env)).
  assert (E1 : env' !! core_ptr_val b = Some (VPtr PCore)).
  { unfold env'. rewrite !lookup_insert_ne by lia. exact Hcore. }
  assert (E2 : env' !! pv = Some (VInt I64 p)).
  { unfold env'. rewrite lookup_insert_ne by lia. apply lookup_insert_eq. }
  assert (E3 : env' !! sv = Some (VInt I64 n)) by apply lookup_insert_eq.
  eapply nsteps_step; [|apply nsteps_return].
  - unfold step. cbn [c_block c_index c_env c_host]. rewrite (Hi 0%nat (Call None r [core_ptr_val b; pv])).
    + cbn. rewrite (extends_fn _ _ _ _ Hx X). cbn. rewrite E1, E2. cbn. reflexivity.
    + rewrite I. reflexivity.
  - unfold step. cbn [c_block c_index c_env c_host]. rewrite (Hi 1%nat (Return [sv])).
    + cbn. rewrite E3. reflexivity.
    + rewrite I. reflexivity.
Qed.

Lemma ir_position {A} (m : M FB A) b a b' : ir m b = Some (a, b') ->
  (forall x y z, m x = Some (y, z) -> position z = position x) -> position (fb b') = position (fb b).
Proof. intros Hm Hp. apply ir_inv in Hm as (Hm & _). eapply Hp, Hm. Qed.

Lemma ins_value_position ty mk (x : FB) y z : ins_value ty mk x = Some (y, z) -> position z = position x.
Proof.
  unfold ins_value. intros Hv. apply bind_inv in Hv as (v & x1 & [= <- <-] & Hv).
  apply bind_inv in Hv as ([] & x2 & Hp & [= <- <-]). apply push_inst_emitted in Hp. apply Hp.
Qed.

(** Where an instruction was emitted there is a block. *)
Lemma ins_value_current ty mk (x : FB) y z : ins_value ty mk x = Some (y, z) ->
  exists blk, position x = Some blk /\ (blk < length (blocks (func x)))%nat.
Proof.
  unfold ins_value. intros Hv. apply bind_inv in Hv as (v & x1 & [= <- <-] & Hv).
  apply bind_inv in Hv as ([] & x2 & Hp & [= <- <-]).
  unfold push_inst in Hp. apply bind_inv in Hp as (p & x3 & [= <- <-] & Hp).
  apply bind_inv in Hp as (blk & x3 & Hl & Hp). cbn in Hl. destruct (position x); [|discriminate].
  injection Hl as <- <-. apply on_block_inv in Hp as (bd & bd' & Hb & _). eauto using lookup_lt_Some.
Qed.

Lemma builder_pc_read_position b pc b' : builder_pc_read b = Some (pc, b') ->
  position (fb b') = position (fb b) /\ end_block b' = end_block b.
Proof.
  unfold builder_pc_read. intros Hr. apply bind_inv in Hr as (d & b1 & [= <- <-] & Hr).
  apply bind_inv in Hr as ([x d] & b1 & H1 & Hr). apply bind_inv in Hr as ([] & b2 & [= <-] & [= <- <-]).
  cbn. split; [|apply ir_inv in H1; tauto]. revert H1. unfold read_pc. destruct (_ =? 0).
  - rewrite ir_mret. intros [= <- <- <-]. reflexivity.
  - intros H1. eapply ir_position in H1; [exact H1|]. intros f y z Hm.
    apply bind_inv in Hm as (n & f1 & Hm & [= <- ->]). unfold iadd_imm in Hm.
    apply bind_inv in Hm as (ty & f2 & H2 & Hm). unfold value_type in H2.
    apply bind_inv in H2 as (tys & f3 & [= <- <-] & H2). unfold mlift in H2.
    destruct (_ !! _); [|discriminate]. injection H2 as <- <-. eapply ins_value_position, Hm.
Qed.

(** Where a builder stands after its steps and its program counter are read. *)
Lemma end_values_position b sv b1 pc b2 : ir (iconst I64 (d_steps (dynamic b))) b = Some (sv, b1) ->
  builder_pc_read b1 = Some (pc, b2) -> later b b2 /\
  exists blk, position (fb b2) = Some blk /\ (blk < length (blocks (fn_of b2)))%nat.
Proof.
  intros H1 H2. assert (L2 : later b b2).
  { etransitivity; [eapply ir_grows; [|exact H1]; apply iconst_grows | eapply builder_pc_read_grows, H2]. }
  split; [exact L2|].
  assert (Hcur : exists blk, position (fb b) = Some blk /\ (blk < length (blocks (fn_of b)))%nat)
    by (apply ir_inv in H1 as (H1 & _); eapply ins_value_current, H1).
  destruct Hcur as (blk & Hpos & Hblk).
  assert (Hpos2 : position (fb b2) = Some blk).
  { rewrite <- Hpos. apply builder_pc_read_position in H2 as [-> _]. eapply ir_position; [exact H1|].
    intros. eapply ins_value_position; eassumption. }
  assert (Hblk2 : (blk < length (blocks (fn_of b2)))%nat).
  { destruct (lookup_lt_is_Some_2 _ _ Hblk) as [bd Hbd].
    destruct (ext_blocks _ _ (lt_extends _ _ L2) _ _ Hbd) as (bd' & Hbd' & _). eapply lookup_lt_Some, Hbd'. }
  exists blk. auto.
Qed.

(** The first jump to the end makes the block that ends the function. *)
Lemma jump_to_new_end b b2 blk e b3 args b4 t b' : later b b2 -> binv b -> end_block b2 = None ->
  position (fb b2) = Some blk -> (blk < length (blocks (fn_of b2)))%nat ->
  ir create_block b2 = Some (e, b3) -> ir (jump e args) b3 = Some (tt, b4) -> finalise_end_block e b4 = Some (t, b') ->
  extends (fn_of b2) (fn_of b3) /\ position (fb b3) = position (fb b2) /\ index (fb b3) = index (fb b2) /\
  later b b' /\ end_block b' = Some e /\ extends (fn_of b2) (fn_of b') /\
  (forall i x, inst_at (fn_of b4) (default 0%nat (position (fb b3))) i = Some x ->
     inst_at (fn_of b') (default 0%nat (position (fb b3))) i = Some x).
Proof.
  intros L2 Hb He Hpos2 Hblk2 H3 H4 Hj.
  pose proof (ir_grows _ (jump_grows _ _) _ _ _ H4) as L4. pose proof (ir_grows _ create_block_grows _ _ _ H3) as L3.
  apply ir_inv in H3 as (H3 & C3 & D3 & E3 & R3 & J3). injection H3 as He3 Hf3.
  assert (L24 : later b b4) by (etransitivity; [exact L2|]; etransitivity; eassumption).
  destruct (lt_inv _ _ L24 Hb) as (Hc4 & Hl4 & _ & Ho4).
  assert (He4 : end_block b4 = None) by (apply ir_inv in H4 as (_ & _ & _ & H4 & _); congruence).
  apply finalise_end_block_new in Hj as (X5 & M5 & C5 & R5 & D5 & Hc5 & E5 & Ho5); [|exact He4|exact Hc4|exact Hl4|].
  2: { intros bd Hbd.
    assert (Hn : blocks (fn_of b3) !! e = Some (mkBlockData [] [] false)).
    { rewrite <- Hf3. cbn. rewrite lookup_app_r, He3, Nat.sub_diag by lia. reflexivity. }
    destruct (ext_blocks _ _ (lt_extends _ _ L4) _ _ Hn) as (bd' & Hbd' & Hp' & _). cbn in Hp'. congruence. }
  assert (X24 : extends (fn_of b2) (fn_of b4)) by (etransitivity; [apply (lt_extends _ _ L3) | apply (lt_extends _ _ L4)]).
  assert (X25 : extends (fn_of b2) (fn_of b')).
  { apply extends_of_below. rewrite He3. eapply extends_below_trans; [apply extends_below_of, X24 | exact X5]. }
  split; [apply (lt_extends _ _ L3)|].
  split; [rewrite <- Hf3; reflexivity|]. split.
  { unfold index. rewrite <- Hf3. cbn. rewrite Hpos2. cbn. rewrite lookup_app_l by assumption. reflexivity. }
  split; [|split; [exact E5|split; [exact X25|]]].
  + assert (Hx : extends (fn_of b) (fn_of b')) by (etransitivity; [apply (lt_extends _ _ L2) | exact X25]).
    split; [split; [exact Hx|] | | |].
    * assert (Hn : (length (blocks (fn_of b)) <= e)%nat).
      { pose proof (extends_blocks_length _ _ (lt_extends _ _ L2)). lia. }
      pose proof (extends_blocks_length _ _ (lt_extends _ _ L2)).
      eapply frame_trans; [apply L2|]. eapply frame_trans; [eapply frame_weaken; [|apply L3]; lia|].
      eapply frame_trans; [|eapply frame_weaken; [|exact M5]; lia].
      eapply frame_weaken; [|apply L4]. apply extends_blocks_length in X24.
      pose proof (extends_blocks_length _ _ (lt_extends _ _ L3)). lia.
    * rewrite C5. apply (lt_core _ _ L24).
    * rewrite R5. apply (lt_result _ _ L24).
    * intros _. split; [exact Hc5|]. split; [|split; [exact Ho5 | eapply frame_position_ok; eassumption]].
      rewrite C5. destruct X5 as [[k ->] _ _ _]. rewrite length_app. lia.
  + intros i x. replace (position (fb b3)) with (Some blk) by (rewrite <- Hf3; symmetry; exact Hpos2). cbn.
    unfold inst_at. destruct (blocks (fn_of b4) !! blk) as [bd|] eqn:Hbd; [|discriminate].
    destruct (below_blocks _ _ _ X5 blk bd ltac:(lia) Hbd) as (bd' & -> & _ & [k K]). cbn. rewrite K.
    apply lookup_app_l_Some.
Qed.

Lemma jump_to_end_inv b t b' : jump_to_end b = Some (t, b') -> binv b ->
  exists sv b1 pc b2 e b3 b4,
    ir (iconst I64 (d_steps (dynamic b))) b = Some (sv, b1) /\ builder_pc_read b1 = Some (pc, b2) /\
    extends (fn_of b2) (fn_of b3) /\ position (fb b3) = position (fb b2) /\ index (fb b3) = index (fb b2) /\
    ir (jump e [x64_val pc; sv]) b3 = Some (tt, b4) /\ later b b' /\ end_block b' = Some e /\
    extends (fn_of b2) (fn_of b') /\
    (forall i x, inst_at (fn_of b4) (default 0%nat (position (fb b3))) i = Some x ->
       inst_at (fn_of b') (default 0%nat (position (fb b3))) i = Some x).
Proof.
  unfold jump_to_end. intros Hj Hb. apply bind_inv in Hj as (d & b0 & [= <- <-] & Hj).
  apply bind_inv in Hj as (sv & b1 & H1 & Hj). apply bind_inv in Hj as (pc & b2 & H2 & Hj).
  apply bind_inv in Hj as (ex & b0 & [= <- <-] & Hj). apply bind_inv in Hj as (e & b3 & H3 & Hj).
  apply bind_inv in Hj as ([] & b4 & H4 & Hj).
  destruct (end_values_position _ _ _ _ _ H1 H2) as (L2 & blk & Hpos2 & Hblk2).
  pose proof (ir_grows _ (jump_grows _ _) _ _ _ H4) as L4.
  destruct (end_block b2) as [e'|] eqn:He.
  - injection H3 as <- <-. exists sv, b1, pc, b2, e', b2, b4.
    assert (He4 : end_block b4 = Some e') by (apply ir_inv in H4 as (_ & _ & _ & H4 & _); congruence).
    unfold finalise_end_block in Hj. apply bind_inv in Hj as (x & b5 & [= <- <-] & Hj).
    rewrite He4 in Hj. injection Hj as <- <-.
    split; [exact H1|]. split; [exact H2|]. split; [reflexivity|]. split; [reflexivity|]. split; [reflexivity|].
    split; [exact H4|]. split; [etransitivity; eassumption|].
    split; [exact He4|]. split; [apply (lt_extends _ _ L4) | auto].
  - destruct (jump_to_new_end _ _ _ _ _ _ _ _ _ L2 Hb He Hpos2 Hblk2 H3 H4 Hj) as (X3 & P3 & I3 & L & E & X & Hi).
    exists sv, b1, pc, b2, e, b3, b4. auto 10.
Qed.

Lemma jump_to_end_spec b t b' : jump_to_end b = Some (t, b') -> binv b -> later b b' /\
  forall F env h p, extends (fn_of b') F -> fresh env (fb b) ->
    env !! core_ptr_val b = Some (VPtr PCore) -> pc_is b env p ->
    exists n, nsteps F n (here (fb b) env h)
                (Returned [VInt I64 (wrap 64 (d_steps (dynamic b)))] (pc_written p h)) /\
              (n + code_size (fn_of b) <= code_size F + 3)%nat.
Proof.
  intros Hj Hb. destruct (jump_to_end_inv _ _ _ Hj Hb)
    as (sv & b1 & pc & b2 & e & b3 & b4 & H1 & H2 & X3 & P3 & I3 & H4 & L & He & X2 & Hi).
  split; [exact L|]. intros F env h p Hx Hf Hcore (v & Hv & Hu & Hp).
  pose proof (builder_pc_read_grows _ _ _ H2) as L2.
  assert (X2F : extends (fn_of b2) F) by (etransitivity; eassumption).
  assert (X1F : extends (fn_of b1) F) by (etransitivity; [apply (lt_extends _ _ L2) | exact X2F]).
  assert (D1 : dynamic b1 = dynamic b) by (apply ir_inv in H1 as (_ & _ & D1 & _); exact D1).
  edestruct (ir_value F _ _ _ _ _ env h (VInt I64 (wrap 64 (d_steps (dynamic b)))) h H1 Hf X1F eq_refl eq_refl)
    as (G1 & S1 & _).
  destruct (read_pc_runs F b1 pc b2 _ h p H2 (go_fresh _ _ _ _ _ _ _ G1) X2F) as (env2 & G2 & S2 & Hpc & _).
  { exists v. rewrite D1. split; [|auto]. eapply lookup_weaken; eassumption. }
  assert (G : goes F (fb b) env h (fb b2) env2 h).
  { eapply goes_trans; [|exact G1 | exact G2]. eapply lt_extends, (ir_grows _ (iconst_grows _ _)), H1. }
  destruct (go_steps _ _ _ _ _ _ _ G) as (n & Hn & Hs).
  assert (Hsv : env2 !! sv = Some (VInt I64 (wrap 64 (d_steps (dynamic b))))).
  { eapply lookup_weaken; [|exact S2]. apply lookup_insert_eq. }
  destruct (end_block_runs F b' e env2 h p (wrap 64 (d_steps (dynamic b)))) as (c & Hgo & Hend).
  - apply L, Hb.
  - exact He.
  - exact Hx.
  - rewrite (lt_core _ _ L). eapply lookup_weaken; [exact Hcore|]. etransitivity; eassumption.
  - exists (n + 3)%nat. split.
    + eapply nsteps_trans; [exact Hn|]. eapply nsteps_step; [|exact Hend].
      apply ir_inv in H4 as (H4 & _). apply push_inst_emitted in H4.
      unfold step, here. cbn [c_block c_index c_env c_host].
      rewrite <- P3, <- I3.
      rewrite (extends_inst _ _ _ _ _ Hx (Hi _ _ (em_inst _ _ _ H4))). cbn. rewrite Hpc, Hsv. cbn. exact Hgo.
    + pose proof (extends_size _ _ X2F). lia.
Qed.

(** *** Two new blocks, and a conditional branch to them

    What [exit_on_branch], [errno_handle], the guard of atomic accesses and
    [branch_merge] begin with. *)
Lemma ir_create_block_inv b e b' : ir create_block b = Some (e, b') ->
  later b b' /\ e = length (blocks (fn_of b)) /\ dynamic b' = dynamic b /\
  position (fb b') = position (fb b) /\ code_size (fn_of b') = code_size (fn_of b) /\
  blocks (fn_of b') = blocks (fn_of b) ++ [mkBlockData [] [] false].
Proof.
  intros Hc. pose proof (ir_grows _ create_block_grows _ _ _ Hc) as L.
  apply ir_inv in Hc as (Hc & _ & D & E & _). injection Hc as <- Hf. rewrite <- Hf. cbn.
  split; [exact L|]. split; [reflexivity|]. split; [exact D|]. split; [reflexivity|]. split; [|reflexivity].
  unfold code_size. cbn. rewrite fmap_app. induction (_ <$> blocks (fn_of b)) as [|n l IH]; cbn; [reflexivity|].
  cbn in IH. rewrite IH. reflexivity.
Qed.

(** Where a new block stands, before it has code. *)
Lemma here_switch blk (x x' : FB) t env h bd : switch_to_block blk x = Some (t, x') ->
  blocks (func x) !! blk = Some bd -> insts bd = [] -> here x' env h = mkConfig blk 0 env h.
Proof.
  intros Hs Hb Hi. apply switch_to_block_inv in Hs as (Hf & Hp & _).
  unfold here, index. rewrite Hp. cbn. rewrite Hf, Hb. cbn. rewrite Hi. reflexivity.
Qed.

Lemma goto_empty F e env h bd : blocks F !! e = Some bd -> params bd = [] ->
  goto F e [] env h = Some (Running (mkConfig e 0 env h)).
Proof. intros Hb Hp. unfold goto. rewrite Hb. cbn. rewrite Hp. reflexivity. Qed.

(** The current block, when something can be emitted. *)
Lemma push_inst_current i (x : FB) t x' : push_inst i x = Some (t, x') ->
  exists blk, position x = Some blk /\ (blk < length (blocks (func x)))%nat.
Proof.
  unfold push_inst. intros Hp. apply bind_inv in Hp as (p & x3 & [= <- <-] & Hp).
  apply bind_inv in Hp as (blk & x3 & Hl & Hp). destruct (position x); [|discriminate].
  injection Hl as <- <-. apply on_block_inv in Hp as (bd & bd' & Hb & _). eauto using lookup_lt_Some.
Qed.

(** After its new blocks [e1] and [e2] have been created and the branch emitted, a
    builder goes to [e1], and later to [e2]. *)
Record forked b (cond : Value) (e1 e2 : Block) (b1 : Builder) : Prop := {
  fk_later : later b b1;
  fk_dynamic : dynamic b1 = dynamic b;
  fk_new : (length (blocks (fn_of b)) <= e1 < e2)%nat;
  fk_old : (e2 < length (blocks (fn_of b1)))%nat;
  fk_empty e : e = e1 \/ e = e2 -> exists bd, blocks (fn_of b1) !! e = Some bd /\ params bd = [] /\ insts bd = [];
  fk_size : code_size (fn_of b1) = S (code_size (fn_of b));
  fk_step F env h ty z : extends (fn_of b1) F -> env !! cond = Some (VInt ty z) ->
    step F (here (fb b) env h) = Some (Running (mkConfig (if z =? 0 then e2 else e1) 0 env h)) }.

(** The branch, after blocks have been added of which the first two are [e1] and [e2]. *)
Lemma fork_brif b b2 cond rest t b3 (e := length (blocks (fn_of b))) : binv b -> later b b2 -> dynamic b2 = dynamic b ->
  position (fb b2) = position (fb b) ->
  blocks (fn_of b2) = blocks (fn_of b) ++ mkBlockData [] [] false :: mkBlockData [] [] false :: rest ->
  Forall (fun bd => insts bd = []) rest ->
  ir (brif cond e (S e)) b2 = Some (t, b3) -> forked b cond e (S e) b3.
Proof.
  intros (_ & _ & _ & Ho) L2 D2 P2 K2 Hrest H3.
  pose proof (ir_grows _ (brif_grows _ _ _) _ _ _ H3) as L3.
  assert (Hlen2 : (S e < length (blocks (fn_of b2)))%nat) by (rewrite K2, length_app; cbn; lia).
  apply ir_inv in H3 as (H3 & _ & D3 & _).
  destruct (push_inst_current _ _ _ _ H3) as (cur & Hpos & _).
  assert (Hcur : (cur < e)%nat) by (apply Ho; congruence).
  apply push_inst_emitted in H3 as E3.
  assert (Hempty : forall x, x = e \/ x = S e -> exists bd, blocks (fn_of b3) !! x = Some bd /\ params bd = [] /\ insts bd = []).
  { intros x He. assert (He2 : blocks (fn_of b2) !! x = Some (mkBlockData [] [] false)).
    { rewrite K2, lookup_app_r by (destruct He as [-> | ->]; fold e; lia). fold e.
      destruct He as [-> | ->]; [rewrite Nat.sub_diag | replace (S e - e)%nat with 1%nat by lia]; reflexivity. }
    destruct (ext_blocks _ _ (lt_extends _ _ L3) _ _ He2) as (bd & Hbd & Hp & _).
    destruct (fr_insts _ _ _ (proj2 (lt_fb _ _ L3)) x _ ltac:(eapply lookup_lt_Some, He2) ltac:(rewrite Hpos; intros [= ->]; lia) He2)
      as (bd' & Hbd' & Hi).
    cbn in Hi. exists bd. split; [assumption|]. split; [exact Hp|]. congruence. }
  split.
  - etransitivity; eassumption.
  - congruence.
  - fold e. lia.
  - apply lt_extends, extends_blocks_length in L3. lia.
  - exact Hempty.
  - rewrite (em_size _ _ _ E3). f_equal. unfold code_size. rewrite K2, fmap_app. cbn.
    assert (Hr : sum_list ((fun bd => length (insts bd)) <$> rest) = 0%nat).
    { clear -Hrest. induction Hrest as [|bd rest Hi _ IH]; cbn; [reflexivity|]. rewrite Hi. exact IH. }
    assert (Ha : forall l l', sum_list (l ++ l') = (sum_list l + sum_list l')%nat)
      by (intros l l'; induction l; cbn; lia).
    rewrite Ha. cbn. lia.
  - intros F env h ty z Hx Hc.
    assert (Hhere : here (fb b) env h = here (fb b2) env h).
    { unfold here, index. rewrite Hpos. replace (position (fb b)) with (Some cur) by congruence. cbn.
      rewrite K2, lookup_app_l by (fold e; lia). reflexivity. }
    rewrite Hhere. unfold step, here. cbn [c_block c_index c_env c_host].
    rewrite (extends_inst _ _ _ _ _ Hx (em_inst _ _ _ E3)). cbn. unfold int_of. rewrite Hc. cbn.
    destruct (Hempty e ltac:(auto)) as (x1 & B1 & Q1 & _). destruct (Hempty (S e) ltac:(auto)) as (x2 & B2 & Q2 & _).
    destruct (ext_blocks _ _ Hx _ _ B1) as (y1 & B1' & Q1' & _).
    destruct (ext_blocks _ _ Hx _ _ B2) as (y2 & B2' & Q2' & _).
    destruct (z =? 0); eapply goto_empty; try eassumption; congruence.
Qed.

Lemma fork_inv b e1 b1 e2 b2 cond t b3 : binv b ->
  ir create_block b = Some (e1, b1) -> ir create_block b1 = Some (e2, b2) ->
  ir (brif cond e1 e2) b2 = Some (t, b3) -> forked b cond e1 e2 b3.
Proof.
  intros Hb H1 H2 H3. apply ir_create_block_inv in H1 as (L1 & -> & D1 & P1 & _ & K1).
  apply ir_create_block_inv in H2 as (L2 & -> & D2 & P2 & _ & K2).
  rewrite K1, length_app, Nat.add_comm in H3 |- *. cbn in H3 |- *. eapply fork_brif; [exact Hb | | | | | | exact H3].
  - etransitivity; eassumption.
  - congruence.
  - congruence.
  - rewrite K2, K1, <- app_assoc. reflexivity.
  - constructor.
Qed.

(** Going to the first of them. *)
Lemma fork_first b cond e1 e2 b1 t b2 : forked b cond e1 e2 b1 -> ir (switch_to_block e1) b1 = Some (t, b2) -> binv b ->
  binv b2 /\ dynamic b2 = dynamic b /\ core_ptr_val b2 = core_ptr_val b /\ result_ptr_val b2 = result_ptr_val b /\
  fn_of b2 = fn_of b1 /\ position (fb b2) = Some e1 /\
  frame (length (blocks (fn_of b))) (fb b) (fb b2) /\
  forall env h, here (fb b2) env h = mkConfig e1 0 env h.
Proof.
  intros K Hs Hb. destruct (lt_inv _ _ (fk_later _ _ _ _ _ K) Hb) as (I1 & I2 & I3 & I4).
  destruct (fk_empty _ _ _ _ _ K e1 ltac:(auto)) as (bd & B & Q & I).
  apply ir_inv in Hs as (Hs & C2 & D2 & N2 & R2 & J2).
  assert (M : frame (length (blocks (fn_of b))) (fb b) (fb b2)).
  { eapply frame_trans; [apply (fk_later _ _ _ _ _ K)|]. eapply switch_to_block_frame; [exact Hs | apply K]. }
  pose proof (fun env h => here_switch _ _ _ _ env h _ Hs B I) as Hh.
  apply switch_to_block_inv in Hs as (F2 & P2 & _).
  split; [|split; [rewrite D2; apply K|split; [rewrite C2; apply K|split; [rewrite R2; apply K|auto]]]].
  split; [|split; [|split]].
  - intros fn r Hr. rewrite F2. apply I1. congruence.
  - rewrite C2, F2. exact I2.
  - intros e He. rewrite N2 in He. rewrite F2, C2. apply I3, He.
  - intros i Hi. rewrite P2 in Hi. injection Hi as <-. rewrite F2. eapply lookup_lt_Some, B.
Qed.

(** Going to the second, after code that grew from the first. *)
Lemma fork_second b cond e1 e2 b1 b2 b3 t b4 : forked b cond e1 e2 b1 -> position (fb b2) = Some e1 -> fn_of b2 = fn_of b1 ->
  later b2 b3 -> ir (switch_to_block e2) b3 = Some (t, b4) ->
  fn_of b4 = fn_of b3 /\ position (fb b4) = Some e2 /\ (length (blocks (fn_of b)) <= e2)%nat /\
  (exists bd, blocks (fn_of b3) !! e2 = Some bd /\ params bd = [] /\ insts bd = []) /\
  forall env h, here (fb b4) env h = mkConfig e2 0 env h.
Proof.
  intros K P2 F2 L Hs. destruct (fk_empty _ _ _ _ _ K e2 ltac:(auto)) as (bd & B & Q & I).
  rewrite <- F2 in B. destruct (ext_blocks _ _ (lt_extends _ _ L) _ _ B) as (bd' & B' & Q' & _).
  destruct (fr_insts _ _ _ (proj2 (lt_fb _ _ L)) e2 bd) as (bd2 & B2 & I2); [rewrite F2; apply (fk_old _ _ _ _ _ K)| |exact B|].
  { rewrite P2. intros [= E]. pose proof (fk_new _ _ _ _ _ K). lia. }
  apply ir_inv in Hs as (Hs & _).
  assert (Hi : insts bd2 = []) by congruence.
  pose proof (fun env h => here_switch _ _ _ _ env h _ Hs B2 Hi) as Hh.
  apply switch_to_block_inv in Hs as (F4 & P4 & _).
  split; [exact F4|]. split; [exact P4|]. split; [pose proof (fk_new _ _ _ _ _ K); lia|]. split; [|exact Hh].
  exists bd2. split; [exact B2|]. split; [congruence | exact Hi].
Qed.

(** A builder whose function goes on from that of another. *)
Lemma later_of b b' n : binv b -> extends (fn_of b) (fn_of b') -> frame n (fb b) (fb b') -> (length (blocks (fn_of b)) <= n)%nat ->
  core_ptr_val b' = core_ptr_val b -> result_ptr_val b' = result_ptr_val b -> binv b' -> later b b'.
Proof. intros Hb Hx Hf Hn Hc Hr Hb'. split; auto. split; [exact Hx | eapply frame_weaken; eassumption]. Qed.

(** A switch to a block that exists keeps the builder's invariant. *)
Lemma switch_binv e b t b' : ir (switch_to_block e) b = Some (t, b') -> binv b ->
  binv b' /\ fn_of b' = fn_of b /\ core_ptr_val b' = core_ptr_val b /\ result_ptr_val b' = result_ptr_val b /\
  dynamic b' = dynamic b /\ (forall n, (n <= e)%nat -> frame n (fb b) (fb b')).
Proof.
  intros Hs (I1 & I2 & I3 & I4). apply ir_inv in Hs as (Hs & C & D & N & R & J).
  pose proof (fun n => switch_to_block_frame n _ _ _ _ Hs) as M.
  apply switch_to_block_inv in Hs as (F & P & bd & B & _).
  split; [|auto 10]. split; [intros fn r Hr; rewrite F; apply I1; congruence|].
  split; [rewrite C, F; exact I2|]. split.
  - intros x Hx. rewrite N in Hx. rewrite F, C. apply I3, Hx.
  - intros i Hi. rewrite P in Hi. injection Hi as <-. rewrite F. eapply lookup_lt_Some, B.
Qed.

Lemma exit_on_branch_spec cond u b t b' :
  exit_on_branch cond (complete_step u ;;; mret tt) b = Some (t, b') -> binv b ->
  later b b' /\ dynamic b' = dynamic b /\
  forall F env h z ty, extends (fn_of b') F -> fresh env (fb b) -> env !! cond = Some (VInt ty z) ->
    env !! core_ptr_val b = Some (VPtr PCore) ->
    (z = 0 -> goes F (fb b) env h (fb b') env h) /\
    (z <> 0 -> forall p, pc_is (set_dynamic (snd (dynamic_complete_step (dynamic b) u)) b) env p ->
       exists n, nsteps F n (here (fb b) env h)
                   (Returned [VInt I64 (wrap 64 (d_steps (dynamic b) + 1))] (pc_written p h)) /\
                 (n + code_size (fn_of b) <= code_size F + 3)%nat).
Proof.
  unfold exit_on_branch. intros Hx Hb.
  apply bind_inv in Hx as (e1 & b1 & H1 & Hx). apply bind_inv in Hx as (e2 & b2 & H2 & Hx).
  apply bind_inv in Hx as (t3 & b3 & H3 & Hx). pose proof (fork_inv _ _ _ _ _ _ _ _ Hb H1 H2 H3) as K.
  apply bind_inv in Hx as (sn & b0 & [= <- <-] & Hx). apply bind_inv in Hx as (t4 & b4 & H4 & Hx).
  destruct (fork_first _ _ _ _ _ _ _ K H4 Hb) as (I4 & D4 & C4 & R4 & F4 & P4 & M4 & Hh4).
  apply bind_inv in Hx as ([] & b5 & H5 & Hx). apply bind_inv in Hx as (t6 & b6 & H6 & Hx).
  apply bind_inv in Hx as (t7 & b7 & H7 & Hx). apply bind_inv in Hx as ([] & b8 & [= <-] & H9).
  assert (H5' : b5 = set_dynamic (snd (dynamic_complete_step (dynamic b4) u)) b4).
  { apply bind_inv in H5 as (c & b0 & H5 & [= ->]). unfold complete_step in H5.
    apply bind_inv in H5 as (d & b0 & [= <- <-] & H5). destruct (dynamic_complete_step (dynamic b4) u) as [c' d'].
    apply bind_inv in H5 as ([] & b0 & [= <-] & [= <- <-]). reflexivity. }
  assert (L5 : later b4 b5) by (subst b5; split; auto; reflexivity).
  destruct (jump_to_end_spec _ _ _ H6 (lt_inv _ _ L5 I4)) as [L6 Hrun].
  pose proof (ir_grows _ (seal_block_grows _) _ _ _ H7) as L7.
  assert (L48 : later b4 (set_dynamic (dynamic b3) b7)).
  { etransitivity; [exact L5|]. etransitivity; [exact L6|]. etransitivity; [exact L7|]. split; auto; reflexivity. }
  destruct (fork_second _ _ _ _ _ _ _ _ _ K P4 F4 L48 H9) as (F9 & P9 & N9 & _ & Hh9).
  destruct (switch_binv _ _ _ _ H9 (lt_inv _ _ L48 I4)) as (I9 & _ & C9 & R9 & D9 & M9).
  pose proof (extends_blocks_length _ _ (lt_extends _ _ (fk_later _ _ _ _ _ K))) as Hlen.
  assert (Hex : extends (fn_of b3) (fn_of b')).
  { rewrite F9, <- F4. apply (lt_extends _ _ L48). }
  split; [|split].
  - eapply (later_of _ _ (length (blocks (fn_of b)))); [exact Hb | | | lia | | | exact I9].
    + etransitivity; [apply lt_extends, K | exact Hex].
    + eapply frame_trans; [exact M4|]. eapply frame_trans; [eapply frame_weaken; [|apply L48]; rewrite F4; exact Hlen|].
      apply M9, N9.
    + rewrite C9, (lt_core _ _ L48). exact C4.
    + rewrite R9, (lt_result _ _ L48). exact R4.
  - rewrite D9. cbn. apply K.
  - intros F env h z ty HF Hf Hc Hcore.
    assert (X3 : extends (fn_of b3) F) by (etransitivity; eassumption).
    pose proof (fk_step _ _ _ _ _ K F env h ty z X3 Hc) as Hstep. split.
    + intros ->. split; [|reflexivity|eapply fresh_mono; [exact Hf|]; etransitivity; [apply lt_extends, K | exact Hex]].
      exists 1%nat. split; [apply nsteps_one; rewrite Hh9; exact Hstep|].
      apply extends_size in Hex. rewrite (fk_size _ _ _ _ _ K) in Hex. lia.
    + intros Hz p Hp. replace (z =? 0) with false in Hstep by lia.
      destruct (Hrun F env h p) as (n & Hn & Hs).
      * etransitivity; [apply (lt_extends _ _ L7)|]. cbn in F9. rewrite <- F9. exact HF.
      * subst b5. cbn. eapply fresh_mono; [exact Hf|]. rewrite F4. apply lt_extends, K.
      * subst b5. cbn. rewrite C4. exact Hcore.
      * subst b5. rewrite D4. exact Hp.
      * exists (S n). split.
        -- eapply nsteps_step; [rewrite Hstep, <- Hh4; reflexivity|].
           subst b5. cbn in Hn. rewrite D4 in Hn. destruct u; exact Hn.
        -- subst b5. cbn in Hs. rewrite F4, (fk_size _ _ _ _ _ K) in Hs. lia.
Qed.

(** ** Straight-line code

    [follows]: a run of what was emitted between two builders. *)
Record follows F (x : FB) env h (x' : FB) env' h' : Prop := {
  fl_extends : extends (func x) (func x');
  fl_goes : goes F x env h x' env' h';
  fl_env : env ⊆ env' }.

Lemma follows_trans F x env h x1 env1 h1 x2 env2 h2 :
  follows F x env h x1 env1 h1 -> follows F x1 env1 h1 x2 env2 h2 -> follows F x env h x2 env2 h2.
Proof.
  intros [E1 G1 S1] [E2 G2 S2]. split; [etransitivity; eassumption | | etransitivity; eassumption].
  eapply goes_trans; eassumption.
Qed.
Lemma follows_fresh F x env h x' env' h' : follows F x env h x' env' h' -> fresh env' x'.
Proof. intros []. eapply go_fresh; eassumption. Qed.
Lemma follows_refl F x env h : fresh env x -> follows F x env h x env h.
Proof. intros Hf. split; [reflexivity | apply goes_refl, Hf | reflexivity]. Qed.
Lemma follows_lookup F x env h x' env' h' v u : follows F x env h x' env' h' -> env !! v = Some u -> env' !! v = Some u.
Proof. intros [_ _ S] Hv. eapply lookup_weaken; eassumption. Qed.

(** Emitter calls without code. *)
Lemma func_ref_follows F fn e r e' env h : func_ref fn e = Some (r, e') -> fresh env (builder e) ->
  follows F (builder e) env h (builder e') env h.
Proof.
  intros Hr Hf. apply func_ref_inv in Hr as (L & _ & P & K & _). split; [apply L | | reflexivity].
  apply goes_still; [exact Hf | apply L | exact P | exact K].
Qed.
Lemma slot_new_follows F T e r e' env h : ins (slot_new T) e = Some (r, e') -> fresh env (builder e) ->
  follows F (builder e) env h (builder e') env h /\ r = length (stack_slots (func (builder e))) /\
  stack_slots (func (builder e')) = stack_slots (func (builder e)) ++ [STACK_SLOT_DATA T].
Proof.
  intros Hr Hf. apply ins_inv in Hr as [Hr _]. pose proof (slot_new_grows _ _ _ _ Hr) as L.
  injection Hr as <- Hr. split; [|rewrite <- Hr; auto]. split; [apply L | | reflexivity].
  apply goes_still; [exact Hf | apply L | rewrite <- Hr; reflexivity | rewrite <- Hr; reflexivity].
Qed.

(** One instruction, with and without a result. *)
Lemma value_follows F ty mk (x : FB) v x' env h u h' : ins_value ty mk x = Some (v, x') -> fresh env x ->
  extends (func x') F -> is_terminator (mk v) = false ->
  exec_inst F (mk v) env h = Some (<[v := u]> env, h') ->
  follows F x env h x' (<[v := u]> env) h'.
Proof.
  intros Hi Hf Hx Ht He. destruct (goes_value _ _ _ _ _ _ _ _ _ _ Hi Hf Hx Ht He) as (G & S & _).
  split; [|exact G|exact S]. apply (ins_value_grows _ _ _ _ _ Hi).
Qed.
Lemma inst_follows F i (x : FB) t x' env h h' : push_inst i x = Some (t, x') -> fresh env x ->
  extends (func x') F -> is_terminator i = false -> exec_inst F i env h = Some (env, h') ->
  follows F x env h x' env h'.
Proof.
  intros Hi Hf Hx Ht He. split; [apply (push_inst_grows _ _ _ _ Hi) | | reflexivity].
  eapply goes_inst; eassumption.
Qed.

(** A call of a function of the host. *)
Lemma call_follows F fn r args vals e vs e' env h ret h' :
  ins (call jsa_signature r args) e = Some (vs, e') -> fresh env (builder e) -> extends (func (builder e')) F ->
  ext_funcs (func (builder e)) !! r = Some fn -> mapM (fun v => env !! v) args = Some vals ->
  jit_call fn vals h = Some (ret, h') -> is_Some ret <-> is_Some (snd (jsa_signature fn)) ->
  exists env', follows F (builder e) env h (builder e') env' h' /\
    match ret with Some u => exists v, vs = [v] /\ env' !! v = Some u | None => vs = [] end.
Proof.
  intros Hc Hf Hx Hr Ha Hj Hs. apply ins_inv in Hc as [Hc _]. pose proof (call_grows _ _ _ _ _ _ Hc) as [L _].
  assert (HrF : ext_funcs F !! r = Some fn).
  { eapply extends_fn; [exact Hx|]. eapply extends_fn; [exact L | exact Hr]. }
  apply (call_inv _ _ _ _ _ _ Hc) in Hr. destruct (snd (jsa_signature fn)) as [ty|].
  - destruct Hr as (v & -> & Hv). destruct ret as [u|]; [|destruct (proj2 Hs ltac:(eauto)); discriminate].
    exists (<[v := u]> env). split; [|exists v; split; [reflexivity | apply lookup_insert_eq]].
    eapply value_follows; [exact Hv | exact Hf | exact Hx | reflexivity|].
    cbn. rewrite HrF. cbn. rewrite Ha. cbn. rewrite Hj. reflexivity.
  - destruct Hr as (-> & Hv). destruct ret as [u|]; [destruct (proj1 Hs ltac:(eauto)); discriminate|].
    exists env. split; [|reflexivity].
    eapply inst_follows; [exact Hv | exact Hf | exact Hx | reflexivity|].
    cbn. rewrite HrF. cbn. rewrite Ha. cbn. rewrite Hj. reflexivity.
Qed.

(** A pointer to a new slot. *)
Lemma slot_ptr_follows F slot e v e' env h : ins (slot_ptr slot) e = Some (v, e') -> fresh env (builder e) ->
  extends (func (builder e')) F ->
  follows F (builder e) env h (builder e') (<[v := VPtr (PSlot slot)]> env) h.
Proof.
  intros Hv Hf Hx. apply ins_inv in Hv as [Hv _]. eapply value_follows; [exact Hv | exact Hf | exact Hx | reflexivity..].
Qed.

Lemma exception_slot_follows F e v e' env h : exception_slot e = Some (v, e') -> fresh env (builder e) ->
  extends (func (builder e')) F ->
  exists env' slot, follows F (builder e) env h (builder e') env' h /\ env' !! v = Some (VPtr (PSlot slot)) /\
    slot = length (stack_slots (func (builder e))) /\ (slot < length (stack_slots (func (builder e'))))%nat.
Proof.
  unfold exception_slot. intros He Hf Hx. apply bind_inv in He as (slot & e1 & H1 & H2).
  destruct (slot_new_follows F _ _ _ _ env h H1 Hf) as (F1 & -> & S1).
  pose proof (slot_ptr_follows F _ _ _ _ env h H2 (follows_fresh _ _ _ _ _ _ _ F1) Hx) as F2.
  eexists _, _. split; [eapply follows_trans; eassumption|]. split; [apply lookup_insert_eq|]. split; [reflexivity|].
  destruct (ext_slots _ _ (fl_extends _ _ _ _ _ _ _ F2)) as [k K]. rewrite K, S1, !length_app. cbn. lia.
Qed.

(** ** The state of the machine under compiled code

    The core is the interpreter's, but for its program counter, which compiled code writes
    at the end. *)
Record agree b env h s : Prop := {
  ag_inv : binv b;
  ag_core_ptr : env !! core_ptr_val b = Some (VPtr PCore);
  ag_result_ptr : env !! result_ptr_val b = Some (VPtr PResult);
  ag_pc : pc_is b env (pc (hart s));
  ag_core : exists q, js_core h = with_hart (with_pc q (hart s)) s;
  ag_result : js_result h = Ok tt;
  ag_ok : core_ok s;
  ag_fresh : fresh env (fb b) }.

(** How a run leaves a function, in the interpreter's state at that point: a jump, or an
    exception. *)
Inductive Exit : Type := ExJump (address : Z) | ExRaise (e : Exception).

Definition exit_state (x : Exit) (steps : Z) s (vals : list Val) h : Prop :=
  match x with
  | ExJump a =>
      vals = [VInt I64 (wrap 64 (steps + 1))] /\ js_core h = with_hart (with_pc a (hart s)) s /\
      js_result h = Ok tt
  | ExRaise e =>
      exists r, handle_step_result (pc (hart s)) (Err e) s = Some (r, js_core h) /\
        match r with
        | Ok _ => vals = [VInt I64 (wrap 64 (steps + 1))] /\ js_result h = Ok tt
        | Err err => vals = [VInt I64 (wrap 64 steps)] /\ js_result h = Err err
        end
  end.

(** A run from where the builder stands leaves the function. *)
Definition leaves F (x : FB) env h (ex : Exit) (steps : Z) s : Prop :=
  exists n vals h', nsteps F n (here x env h) (Returned vals h') /\
    (n + code_size (func x) <= code_size F + 3)%nat /\ exit_state ex steps s vals h'.

Lemma leaves_follows F x env h x' env' h' ex steps s :
  follows F x env h x' env' h' -> leaves F x' env' h' ex steps s -> leaves F x env h ex steps s.
Proof.
  intros [_ [(m & M & S) _ _] _] (n & vals & hh & N & B & E). exists (m + n)%nat, vals, hh.
  split; [eapply nsteps_trans; eassumption|]. split; [lia | exact E].
Qed.

Lemma handle_exception_result_eq e s :
  handle_step_result (pc (hart s)) (Err e) s =
    match environ_of_exception e with
    | Some exc => Some (Err exc, s)
    | None => Some (Ok 0, with_hart (with_pc 0 (hart s)) s)
    end.
Proof.
  unfold handle_step_result, address_on_exception. destruct (environ_of_exception e); [|reflexivity].
  destruct s as [[] ]; reflexivity.
Qed.

(** *** Exceptions *)
Lemma jsa_handle_exception_follows F core exc res pc_ e o e' env h p slot ex hd np r core' :
  jsa_handle_exception core exc res pc_ e = Some (o, e') -> calls_ok e -> fresh env (builder e) ->
  extends (func (builder e')) F -> env !! core = Some (VPtr PCore) -> env !! exc = Some (VPtr (PSlot slot)) ->
  env !! res = Some (VPtr PResult) -> env !! x64_val pc_ = Some (VInt I64 p) ->
  (slot < length (stack_slots (func (builder e))))%nat -> js_slots h !! slot = Some (CellException ex) ->
  extern_handle_exception p ex (js_result h) (js_core h) = Some ((hd, np, r), core') ->
  exists env' h', follows F (builder e) env h (builder e') env' h' /\
    env' !! handled o = Some (val_bool hd) /\ env' !! x64_val (new_pc o) = Some (VInt I64 np) /\
    js_core h' = core' /\ js_result h' = r.
Proof.
  unfold jsa_handle_exception. intros He Hk Hf Hx Hcore Hexc Hres Hpc Hslot Hcell Hout.
  apply bind_inv in He as (f & e1 & H1 & He). apply bind_inv in He as (ps & e2 & H2 & He).
  apply bind_inv in He as ([] & e3 & H3 & He). apply bind_inv in He as (pp & e4 & H4 & He).
  apply bind_inv in He as (hv & e5 & H5 & He). apply bind_inv in He as (nv & e6 & H6 & [= <- ->]).
  unfold first_result in H5. apply bind_inv in H5 as (vs & e5' & H5 & H5').
  unfold mlift in H5'. destruct (vs !! 0%nat) eqn:Hvs; [|discriminate]. injection H5' as <- <-.
  (* the parts are in the function *)
  pose proof (func_ref_grows _ _ _ _ H1) as L1. pose proof (ins_grows _ (slot_new_grows _) _ _ _ H2) as L2.
  pose proof (ins_grows _ (slot_store_grows _ _) _ _ _ H3) as L3.
  pose proof (ins_grows _ (slot_ptr_grows _) _ _ _ H4) as L4.
  pose proof (ins_grows _ (call_grows _ _ _) _ _ _ H5) as L5.
  pose proof (ins_grows _ (slot_load_grows _) _ _ _ H6) as L6.
  assert (X5 : extends (func (builder e5')) F) by (etransitivity; [apply L6 | exact Hx]).
  assert (X4 : extends (func (builder e4)) F) by (etransitivity; [apply L5 | exact X5]).
  assert (X3 : extends (func (builder e3)) F) by (etransitivity; [apply L4 | exact X4]).
  pose proof (func_ref_follows F _ _ _ _ env h H1 Hf) as F1.
  destruct (slot_new_follows F _ _ _ _ env h H2 (follows_fresh _ _ _ _ _ _ _ F1)) as (F2 & Eps & S2).
  pose proof (follows_trans _ _ _ _ _ _ _ _ _ _ F1 F2) as F12.
  set (h3 := set_slot ps (CellInt I64 p) h).
  assert (F3 : follows F (builder e2) env h (builder e3) env h3).
  { apply ins_inv in H3 as [H3 _]. eapply inst_follows; [exact H3 | exact (follows_fresh _ _ _ _ _ _ _ F12) | exact X3 | reflexivity|].
    cbn. rewrite Hpc. cbn. reflexivity. }
  pose proof (follows_trans _ _ _ _ _ _ _ _ _ _ F12 F3) as F13.
  pose proof (slot_ptr_follows F _ _ _ _ env h3 H4 (follows_fresh _ _ _ _ _ _ _ F13) X4) as F4.
  pose proof (follows_trans _ _ _ _ _ _ _ _ _ _ F13 F4) as F14.
  assert (Hps : ps <> slot).
  { rewrite Eps. apply func_ref_inv in H1 as (_ & _ & _ & _ & _ & H1). rewrite H1. lia. }
  assert (Hfn : ext_funcs (func (builder e4)) !! f = Some Jsa.handle_exception).
  { eapply extends_fn; [apply L4|]. eapply extends_fn; [apply L3|]. eapply extends_fn; [apply L2|].
    apply func_ref_inv in H1 as (_ & H1 & _). apply H1, Hk. }
  set (h5 := set_result r (set_slot ps (CellInt I64 np) (mkJitState core' (js_result h3) (js_slots h3)))).
  assert (Hcall : jit_call Jsa.handle_exception
            [VPtr PCore; VPtr (PSlot ps); VPtr (PSlot slot); VPtr PResult] h3 = Some (Some (val_bool hd), h5)).
  { cbn. unfold mbind, mget. cbn. rewrite lookup_insert_eq, lookup_insert_ne, Hcell by exact Hps.
    unfold on_js_core. cbn. rewrite Hout. reflexivity. }
  set (env4 := <[pp := VPtr (PSlot ps)]> env) in *.
  destruct (call_follows F _ _ [core; pp; exc; res] [VPtr PCore; VPtr (PSlot ps); VPtr (PSlot slot); VPtr PResult]
              _ _ _ env4 h3 (Some (val_bool hd)) h5 H5 (follows_fresh _ _ _ _ _ _ _ F14) X5 Hfn) as (env5 & F5 & v & -> & Hv); [|exact Hcall|cbn; split; eauto|].
  { cbn. rewrite (follows_lookup _ _ _ _ _ _ _ _ _ F4 Hcore), (follows_lookup _ _ _ _ _ _ _ _ _ F4 Hexc),
      (follows_lookup _ _ _ _ _ _ _ _ _ F4 Hres). unfold env4. rewrite lookup_insert_eq. reflexivity. }
  injection Hvs as ->. pose proof (follows_trans _ _ _ _ _ _ _ _ _ _ F14 F5) as F15.
  apply ins_inv in H6 as [H6 _].
  assert (F6 : follows F (builder e5') env5 h5 (builder e') (<[nv := VInt I64 np]> env5) h5).
  { eapply value_follows; [exact H6 | exact (follows_fresh _ _ _ _ _ _ _ F15) | exact Hx | reflexivity|].
    cbn. rewrite lookup_insert_eq. cbn. reflexivity. }
  eexists _, h5. split; [eapply follows_trans; eassumption|]. cbn.
  split; [eapply follows_lookup; [exact F6 | exact Hv]|]. split; [apply lookup_insert_eq|]. auto.
Qed.

Lemma extern_handle_exception_eq p ex r core :
  extern_handle_exception (Mem := Mem) p ex r core =
    match environ_of_exception ex with
    | Some exc => Some ((false, p, Err exc), with_hart (with_pc p (hart core)) core)
    | None => Some ((true, 0, r), core)
    end.
Proof.
  unfold extern_handle_exception, address_on_exception.
  destruct (environ_of_exception ex); [|reflexivity]. destruct core as [[] ]; reflexivity.
Qed.

Lemma with_pc_with_pc p q s : with_hart (with_pc p (hart (with_hart (with_pc q (hart s)) s))) (with_hart (with_pc q (hart s)) s)
  = with_hart (with_pc p (hart s)) s.
Proof. reflexivity. Qed.
Lemma with_pc_same s : with_hart (with_pc (pc (hart s)) (hart s)) s = s.
Proof. destruct s as [[] ]; reflexivity. Qed.

Lemma complete_step_later u b t b' : (complete_step u ;;; mret tt) b = Some (t, b') -> later b b'.
Proof.
  assert (Hg : grows later (complete_step u ;;; mret tt)) by grows. apply Hg.
Qed.

Lemma pc_is_env b env env' p : env ⊆ env' -> pc_is b env p -> pc_is b env' p.
Proof. intros S (v & Hv & Hu & Hp). exists v. split; [eapply lookup_weaken; eassumption | auto]. Qed.

Lemma builder_handle_exception_spec exc b t b' : builder_handle_exception exc b = Some (t, b') -> binv b ->
  later b b' /\
  forall F env h s ex slot, extends (fn_of b') F -> agree b env h s -> env !! exc = Some (VPtr (PSlot slot)) ->
    (slot < length (stack_slots (fn_of b)))%nat -> js_slots h !! slot = Some (CellException ex) ->
    leaves F (fb b) env h (ExRaise ex) (d_steps (dynamic b)) s.
Proof.
  unfold builder_handle_exception. intros Hx Hb.
  apply bind_inv in Hx as (pcv & b1 & H1 & Hx). apply bind_inv in Hx as (c & b0 & [= <- <-] & Hx).
  apply bind_inv in Hx as (rp & b0 & [= <- <-] & Hx). apply bind_inv in Hx as (o & b2 & H2 & Hx).
  apply bind_inv in Hx as ([] & b3 & H3 & H4).
  pose proof (builder_pc_read_grows _ _ _ H1) as L1.
  pose proof (emit_grows _ (jsa_handle_exception_grows _ _ _ _) _ _ _ H2) as L2.
  destruct (exit_on_branch_spec _ _ _ _ _ H3 (lt_inv _ _ L2 (lt_inv _ _ L1 Hb))) as (L3 & D3 & Hexit).
  destruct (jump_to_end_spec _ _ _ H4 (lt_inv _ _ L3 (lt_inv _ _ L2 (lt_inv _ _ L1 Hb)))) as (L4 & Hend).
  split; [etransitivity; [exact L1|]; etransitivity; [exact L2|]; etransitivity; eassumption|].
  intros F env h s ex slot HF [_ Hcore Hres Hpc [q Hq] Hok Hs Hf] Hexc Hslot Hcell.
  assert (X3 : extends (fn_of b3) F) by (etransitivity; [apply (lt_extends _ _ L4) | exact HF]).
  assert (X2 : extends (fn_of b2) F) by (etransitivity; [apply (lt_extends _ _ L3) | exact X3]).
  assert (X1 : extends (fn_of b1) F) by (etransitivity; [apply (lt_extends _ _ L2) | exact X2]).
  destruct (read_pc_runs F _ _ _ env h _ H1 Hf X1 Hpc) as (env1 & G1 & S1 & Hpcv & Hpr & Hpc1 & D1).
  assert (F1 : follows F (fb b) env h (fb b1) env1 h) by (split; [apply (lt_extends _ _ L1) | exact G1 | exact S1]).
  pose proof (emit_inv _ _ _ _ H2) as (H2' & C2 & D2 & _ & R2).
  set (p := pc (hart s)) in *.
  assert (Hslot1 : (slot < length (stack_slots (fn_of b1)))%nat).
  { destruct (ext_slots _ _ (lt_extends _ _ L1)) as [k K]. rewrite K, length_app. lia. }
  set (out := match environ_of_exception ex with
              | Some exc => ((false, p, Err exc), with_hart (with_pc p (hart (js_core h))) (js_core h))
              | None => ((true, 0, js_result h), js_core h)
              end).
  destruct out as [[[hd np] r] core'] eqn:Hout.
  assert (He : extern_handle_exception p ex (js_result h) (js_core h) = Some ((hd, np, r), core')).
  { rewrite extern_handle_exception_eq. unfold out in Hout. destruct (environ_of_exception ex); congruence. }
  destruct (jsa_handle_exception_follows F _ _ _ _ _ _ _ env1 h p slot ex hd np r core' H2'
    (proj1 (lt_inv _ _ L1 Hb)) (follows_fresh _ _ _ _ _ _ _ F1) X2) as (env2 & h2 & F2 & Hhd & Hnp & Hc2 & Hr2).
  - rewrite (lt_core _ _ L1). eapply lookup_weaken; eassumption.
  - eapply lookup_weaken; eassumption.
  - rewrite (lt_result _ _ L1). eapply lookup_weaken; eassumption.
  - exact Hpcv.
  - exact Hslot1.
  - exact Hcell.
  - exact He.
  - pose proof (follows_trans _ _ _ _ _ _ _ _ _ _ F1 F2) as F12.
    assert (Hcore2 : env2 !! core_ptr_val b2 = Some (VPtr PCore)).
    { rewrite C2, (lt_core _ _ L1). eapply follows_lookup; eassumption. }
    destruct (Hexit F env2 h2 (if hd then 1 else 0) I8 X3 (follows_fresh _ _ _ _ _ _ _ F12) Hhd Hcore2) as [Hstay Hleave].
    eapply leaves_follows; [exact F12|].
    unfold leaves, exit_state. setoid_rewrite handle_exception_result_eq. unfold out in Hout. fold p.
    destruct (environ_of_exception ex) as [exn|] eqn:Hex; injection Hout as <- <- <- <-.
    + specialize (Hstay eq_refl). destruct (Hend F env2 h2 p HF) as (n & Hn & Hb').
      * eapply go_fresh, Hstay.
      * rewrite (lt_core _ _ L3). exact Hcore2.
      * unfold pc_is. rewrite D3, D2. destruct Hpc1 as (v & Hv & Hvr). exists v.
        split; [eapply follows_lookup; [exact F2 | exact Hv] | exact Hvr].
      * destruct (go_steps _ _ _ _ _ _ _ Hstay) as (m & Hm & Hmb). exists (m + n)%nat. eexists _, _.
        split; [eapply nsteps_trans; eassumption|]. split; [lia|]. exists (Err exn). split.
        -- cbn. rewrite Hc2, Hq, !with_pc_with_pc. unfold p. rewrite with_pc_same. reflexivity.
        -- cbn. rewrite D3, D2, D1. auto.
    + destruct (Hleave ltac:(lia) 0) as (n & Hn & Hb').
      * exists 0. cbn. split; [exact Hnp|]. split; [unfold urange; lia | reflexivity].
      * exists n. eexists _, _. split; [exact Hn|]. split; [lia|]. exists (Ok 0). split.
        -- cbn. rewrite Hc2, Hq, !with_pc_with_pc. reflexivity.
        -- cbn. rewrite D2, D1, Hr2. auto.
Qed.

End Sim.

(** ** What every operation of the builder keeps, from a good builder *)
Definition onward b b' : Prop := binv b -> later b b'.
#[export] Instance onward_preorder : PreOrder onward.
Proof.
  split; [intros b _; reflexivity|]. intros x y z H1 H2 Hx. specialize (H1 Hx).
  etransitivity; [exact H1 | apply H2, (lt_inv _ _ H1 Hx)].
Qed.
Lemma onward_of_later {A} (m : M Builder A) : grows later m -> grows onward m.
Proof. intros Hm b a b' E _. eapply Hm, E. Qed.
#[export] Hint Extern 1 (grows onward (emit _)) => apply onward_of_later, emit_grows : grows.
#[export] Hint Extern 1 (grows onward (ir _)) => apply onward_of_later, ir_grows : grows.
Lemma set_dynamic_onward d : grows onward (mput (set_dynamic d)).
Proof. apply onward_of_later, set_dynamic_grows. Qed.
Lemma builder_pc_read_onward : grows onward builder_pc_read.
Proof. apply onward_of_later, builder_pc_read_grows. Qed.
#[export] Hint Resolve set_dynamic_onward builder_pc_read_onward : grows.

Section Ops.
Context {Mem : Type} `{Memory Mem} `{!MemoryLaws Mem} (xregisters_offset : Z).
Notation Core := (MachineCoreState Mem).
Notation St := (JitState Mem).
#[local] Instance ops_host : Host JsaFn St := jit_host xregisters_offset.
Implicit Types (F : Function JsaFn) (env : Env) (h : St) (b : Builder) (s : Core).
Notation follows := (follows xregisters_offset).
Notation leaves := (leaves xregisters_offset).

(** ** Agreement along a run *)
Lemma agree_follows F b env h s b' env' h' s' : agree b env h s -> later b b' ->
  follows F (fb b) env h (fb b') env' h' -> dynamic b' = dynamic b -> pc (hart s') = pc (hart s) ->
  (exists q, js_core h' = with_hart (with_pc q (hart s')) s') -> js_result h' = Ok tt -> core_ok s' ->
  agree b' env' h' s'.
Proof.
  intros [Hb Hc Hr Hp _ _ _ Hf] L Hfl Hd Hpc Hcore Hres Hok. pose proof (fl_env _ _ _ _ _ _ _ _ Hfl) as S.
  split; auto.
  - apply (lt_inv _ _ L Hb).
  - rewrite (lt_core _ _ L). eapply lookup_weaken; eassumption.
  - rewrite (lt_result _ _ L). eapply lookup_weaken; eassumption.
  - unfold pc_is. rewrite Hd, Hpc. eapply pc_is_env; eassumption.
  - eapply follows_fresh, Hfl.
Qed.

(** Code that only computes. *)
Lemma agree_pure F b env h s b' env' : agree b env h s -> later b b' ->
  follows F (fb b) env h (fb b') env' h -> dynamic b' = dynamic b -> agree b' env' h s.
Proof. intros Ha L Hf Hd. eapply agree_follows; eauto; apply Ha. Qed.

(** ** A branch for an error

    Its body is run only if the condition holds, and does not come back. *)
Lemma set_dynamic_ir {A} (m : M FB A) d b a b' : ir m b = Some (a, b') ->
  ir m (set_dynamic d b) = Some (a, set_dynamic d b').
Proof.
  unfold ir, emit, ins. cbn. destruct (m (fb b)) as [[x f]|]; [|discriminate]. intros [= <- <-]. reflexivity.
Qed.

Lemma error_branch_spec cond (body : M Builder unit) b e1 b1 e2 b2 t3 b3 t4 b4 t5 b5 t6 b6 t7 b7 : binv b ->
  ir create_block b = Some (e1, b1) -> ir create_block b1 = Some (e2, b2) ->
  ir (brif cond e1 e2) b2 = Some (t3, b3) -> ir (switch_to_block e1) b3 = Some (t4, b4) ->
  body b4 = Some (t5, b5) -> grows onward body -> ir (seal_block e1) b5 = Some (t6, b6) ->
  ir (switch_to_block e2) (set_dynamic (dynamic b3) b6) = Some (t7, b7) ->
  later b b7 /\ dynamic b7 = dynamic b /\ dynamic b4 = dynamic b /\ core_ptr_val b4 = core_ptr_val b /\
  stack_slots (fn_of b) `prefix_of` stack_slots (fn_of b4) /\ extends (fn_of b5) (fn_of b7) /\
  forall F env h s z ty, extends (fn_of b7) F -> agree b env h s -> env !! cond = Some (VInt ty z) ->
    (z = 0 -> follows F (fb b) env h (fb b7) env h) /\
    (z <> 0 -> agree b4 env h s /\
       forall ex n s1, leaves F (fb b4) env h ex n s1 -> leaves F (fb b) env h ex n s1).
Proof.
  intros Hb H1 H2 H3 H4 H5 Hg H6 H7. pose proof (fork_inv xregisters_offset _ _ _ _ _ _ _ _ Hb H1 H2 H3) as K.
  destruct (fork_first _ _ _ _ _ _ _ _ K H4 Hb) as (I4 & D4 & C4 & R4 & F4 & P4 & M4 & Hh4).
  pose proof (Hg _ _ _ H5 I4) as L5. pose proof (ir_grows _ (seal_block_grows _) _ _ _ H6) as L6.
  assert (L46 : later b4 (set_dynamic (dynamic b3) b6)).
  { etransitivity; [exact L5|]. etransitivity; [exact L6|]. split; auto; reflexivity. }
  destruct (fork_second _ _ _ _ _ _ _ _ _ _ K P4 F4 L46 H7) as (F7 & P7 & N7 & _ & Hh7).
  destruct (switch_binv _ _ _ _ H7 (lt_inv _ _ L46 I4)) as (I7 & _ & C7 & R7 & D7 & M7).
  pose proof (extends_blocks_length _ _ (lt_extends _ _ (fk_later _ _ _ _ _ _ K))) as Hlen.
  assert (X37 : extends (fn_of b3) (fn_of b7)) by (rewrite F7, <- F4; apply (lt_extends _ _ L46)).
  assert (X03 : extends (fn_of b) (fn_of b3)) by apply lt_extends, K.
  assert (L : later b b7).
  { eapply (later_of _ _ (length (blocks (fn_of b)))); [exact Hb | | | lia | | | exact I7].
    - etransitivity; eassumption.
    - eapply frame_trans; [exact M4|]. eapply frame_trans; [eapply frame_weaken; [|apply L46]; rewrite F4; exact Hlen|].
      apply M7, N7.
    - rewrite C7, (lt_core _ _ L46). exact C4.
    - rewrite R7, (lt_result _ _ L46). exact R4. }
  split; [exact L|]. split; [rewrite D7; cbn; apply K|]. split; [exact D4|]. split; [exact C4|].
  split; [rewrite F4; apply X03|]. split; [rewrite F7; apply (lt_extends _ _ L6)|].
  intros F env h s z ty HF Ha Hc.
  assert (Hstep := fk_step _ _ _ _ _ _ K F env h ty z ltac:(etransitivity; eassumption) Hc). split.
  - intros ->. split; [apply (lt_extends _ _ L) | | reflexivity].
    split; [|reflexivity | eapply fresh_mono; [apply Ha | apply (lt_extends _ _ L)]].
    exists 1%nat. split; [apply nsteps_one; rewrite Hh7; exact Hstep|].
    apply extends_size in X37. rewrite (fk_size _ _ _ _ _ _ K) in X37. lia.
  - intros Hz. replace (z =? 0) with false in Hstep by lia. destruct Ha as [? ? ? Hpc ? ? ? Hf]. split.
    + split; auto; [rewrite C4; assumption | rewrite R4; assumption | unfold pc_is; rewrite D4; exact Hpc |].
      eapply fresh_mono; [exact Hf|]. rewrite F4. exact X03.
    + intros ex n s1 (k & vals & h' & Hk & Hs & He). exists (S k), vals, h'.
      split; [eapply nsteps_step; [rewrite Hstep, <- Hh4; reflexivity | exact Hk]|].
      split; [|exact He]. rewrite F4, (fk_size _ _ _ _ _ _ K) in Hs. lia.
Qed.


Lemma switch_back d e b t b1 : ir (switch_to_block e) b = Some (t, b1) ->
  ir (switch_to_block e) (set_dynamic d b) = Some (t, set_dynamic d b1).
Proof. apply set_dynamic_ir. Qed.

Lemma builder_handle_exception_onward e : grows onward (builder_handle_exception e).
Proof.
  intros b t b' E Hb. eapply (builder_handle_exception_spec xregisters_offset); eassumption.
Qed.

Lemma errno_handle_spec {A} (self : ErrnoImpl A) b a b' : errno_handle self b = Some (a, b') -> binv b ->
  grows fb_extends (on_ok self) ->
  exists b1, ir (on_ok self) b1 = Some (a, b') /\ later b b1 /\ dynamic b1 = dynamic b /\
  forall F env h s z ty, extends (fn_of b') F -> agree b env h s -> env !! errno self = Some (VInt ty z) ->
    (z = 0 -> follows F (fb b) env h (fb b1) env h) /\
    (z <> 0 -> forall slot ex, env !! exception_ptr self = Some (VPtr (PSlot slot)) ->
       (slot < length (stack_slots (fn_of b)))%nat -> js_slots h !! slot = Some (CellException ex) ->
       leaves F (fb b) env h (ExRaise ex) (d_steps (dynamic b)) s).
Proof.
  unfold errno_handle. intros Hx Hb Hg.
  apply bind_inv in Hx as (e1 & b1 & H1 & Hx). apply bind_inv in Hx as (e2 & b2 & H2 & Hx).
  apply bind_inv in Hx as (t3 & b3 & H3 & Hx). apply bind_inv in Hx as (d & b0 & [= <- <-] & Hx).
  apply bind_inv in Hx as (t4 & b4 & H4 & Hx). apply bind_inv in Hx as ([] & b5 & H5 & Hx).
  apply bind_inv in Hx as (t6 & b6 & H6 & Hx). apply bind_inv in Hx as (t7 & b7 & H7 & Hx).
  apply bind_inv in Hx as ([] & b8 & [= <-] & Hx). apply (switch_back (dynamic b3)) in H7.
  destruct (error_branch_spec _ _ _ _ _ _ _ _ _ _ _ _ _ _ _ _ _ Hb H1 H2 H3 H4 H5
    (builder_handle_exception_onward _) H6 H7) as (L & D & D4 & C4 & [sl Hsl] & X5 & Hrun).
  exists (set_dynamic (dynamic b3) b7). split; [exact Hx|]. split; [exact L|]. split; [exact D|].
  pose proof (lt_extends _ _ (ir_grows _ Hg _ _ _ Hx)) as X8.
  intros F env h s z ty HF Ha Hc. destruct (Hrun F env h s z ty) as [Hok Herr]; [etransitivity; eassumption | exact Ha | exact Hc |].
  split; [exact Hok|]. intros Hz slot ex He Hslot Hcell. destruct (Herr Hz) as [Ha4 Hl]. apply Hl.
  rewrite <- D4. eapply (builder_handle_exception_spec xregisters_offset _ _ _ _ H5); [apply Ha4 | | exact Ha4 | exact He | | exact Hcell].
  - etransitivity; [exact X5|]. etransitivity; [exact X8 | exact HF].
  - rewrite Hsl, length_app. lia.
Qed.

(** ** Calls of the host's functions *)
Lemma jsa_invoke_follows F fn args vals e vs e' env h ret h' : jsa_invoke fn args e = Some (vs, e') ->
  calls_ok e -> fresh env (builder e) -> extends (func (builder e')) F -> mapM (fun v => env !! v) args = Some vals ->
  jit_call fn vals h = Some (ret, h') -> (is_Some ret <-> is_Some (snd (jsa_signature fn))) ->
  exists env', follows F (builder e) env h (builder e') env' h' /\
    match ret with Some u => exists v, vs = [v] /\ env' !! v = Some u | None => vs = [] end.
Proof.
  unfold jsa_invoke. intros Hi Hk Hf Hx Ha Hj Hs. apply bind_inv in Hi as (f & e1 & H1 & H2).
  pose proof (func_ref_follows xregisters_offset F _ _ _ _ env h H1 Hf) as F1. apply func_ref_inv in H1 as (_ & H1 & _).
  destruct (call_follows xregisters_offset F fn f args vals _ _ _ env h ret h' H2) as (env' & F2 & Hr); auto.
  - eapply follows_fresh, F1.
  - exists env'. split; [eapply follows_trans; eassumption | exact Hr].
Qed.

Lemma first_result_inv (m : M Emitter (list nat)) e v e' : first_result m e = Some (v, e') ->
  exists vs, m e = Some (vs, e') /\ vs !! 0%nat = Some v.
Proof.
  unfold first_result. intros Hi. apply bind_inv in Hi as (vs & e1 & H1 & H2). unfold mlift in H2.
  destruct (vs !! 0%nat) eqn:E; [|discriminate]. injection H2 as <- <-. eauto.
Qed.

(** A call with an exception in a slot. *)
Definition exception_at (h : St) env v ex (x : FB) : Prop :=
  exists slot, env !! v = Some (VPtr (PSlot slot)) /\ (slot < length (stack_slots (func x)))%nat /\
    js_slots h !! slot = Some (CellException ex).

Lemma raise_follows F fn args vals e (m := (ptr <- exception_slot ;; jsa_invoke fn (args ptr) ;;; mret ptr)) v e' env h ex :
  m e = Some (v, e') -> calls_ok e -> fresh env (builder e) -> extends (func (builder e')) F ->
  (forall env' v slot, env ⊆ env' -> env' !! v = Some (VPtr (PSlot slot)) ->
     mapM (fun v => env' !! v) (args v) = Some (vals slot)) ->
  (forall slot, jit_call fn (vals slot) h = Some (None, set_slot slot (CellException ex) h)) ->
  snd (jsa_signature fn) = None ->
  exists env' slot, follows F (builder e) env h (builder e') env' (set_slot slot (CellException ex) h) /\
    exception_at (set_slot slot (CellException ex) h) env' v ex (builder e').
Proof.
  intros Hm Hk Hf Hx Ha Hj Hs. subst m. cbv beta in Hm.
  apply bind_inv in Hm as (p & e1 & H1 & Hm). apply bind_inv in Hm as (vs & e2 & H2 & [= <- ->]).
  pose proof (exception_slot_grows _ _ _ H1) as L1. pose proof (jsa_invoke_grows _ _ _ _ _ H2) as L2.
  destruct (exception_slot_follows xregisters_offset F _ _ _ env h H1 Hf) as (env1 & slot & F1 & Hp & Eslot & Hlt).
  { etransitivity; [apply L2 | exact Hx]. }
  destruct (jsa_invoke_follows F fn (args p) (vals slot) _ _ _ env1 h None (set_slot slot (CellException ex) h) H2) as (env2 & F2 & _).
  - apply L1, Hk.
  - eapply follows_fresh, F1.
  - exact Hx.
  - apply Ha; [apply F1 | exact Hp].
  - apply Hj.
  - rewrite Hs. split; intros [? [=]].
  - exists env2, slot. split; [eapply follows_trans; eassumption|]. exists slot.
    split; [eapply follows_lookup; eassumption|]. split.
    + destruct (ext_slots _ _ (proj1 (proj1 L2))) as [k ->]. rewrite length_app. lia.
    + apply lookup_insert_eq.
Qed.

(** *** Memory *)
Definition unsigned_of (V : StoreLoadInt) : StoreLoadInt := mkStoreLoadInt (WIDTH V) false.
Lemma ir_type_bits V : type_bits (IR_TYPE V) = bits_of V.
Proof. unfold IR_TYPE, bits_of. destruct (WIDTH V); reflexivity. Qed.

Lemma set_slot_opt_at slot c h : (forall x : Exception, c = Some x ->
  js_slots (set_slot_opt slot (CellException <$> c) h) !! slot = Some (CellException x)).
Proof. intros x ->. apply lookup_insert_eq. Qed.

Lemma jsa_memory_store_follows F V core a v e o e' env h za zv err exc core' :
  jsa_memory_store V core a v e = Some (o, e') -> calls_ok e -> fresh env (builder e) ->
  extends (func (builder e')) F -> env !! core = Some (VPtr PCore) ->
  env !! x64_val a = Some (VInt I64 za) -> env !! x64_val v = Some (VInt I64 zv) -> urange 64 zv ->
  extern_memory_store (unsigned_of V) za (wrap (bits_of V) zv) (js_core h) = Some ((err, exc), core') ->
  exists env' h' slot, follows F (builder e) env h (builder e') env' h' /\
    env' !! errno o = Some (val_bool err) /\ env' !! exception_ptr o = Some (VPtr (PSlot slot)) /\
    (slot < length (stack_slots (func (builder e'))))%nat /\ js_core h' = core' /\ js_result h' = js_result h /\
    (forall x, exc = Some x -> js_slots h' !! slot = Some (CellException x)).
Proof.
  unfold jsa_memory_store. intros Hm Hk Hf Hx Hc Ha Hv Hr He.
  apply bind_inv in Hm as (f & e1 & H1 & Hm). apply bind_inv in Hm as (ep & e2 & H2 & Hm).
  apply bind_inv in Hm as (w & e3 & H3 & Hm). apply bind_inv in Hm as (er & e4 & H4 & [= <- ->]). cbn.
  apply first_result_inv in H4 as (vs & H4 & Hvs).
  assert (G3 : em_later e2 e3).
  { revert H3. assert (G : grows em_later (match WIDTH V with
            | Byte | Half | Word => ins (ireduce (IR_TYPE V) (x64_val v))
            | Double => mret (x64_val v)
            end)) by (destruct (WIDTH V); grows). apply G. }
  pose proof (func_ref_grows _ _ _ _ H1) as G1. pose proof (exception_slot_grows _ _ _ H2) as G2.
  pose proof (ins_grows _ (call_grows _ _ _) _ _ _ H4) as G4.
  assert (X3 : extends (func (builder e3)) F) by (etransitivity; [apply G4 | exact Hx]).
  assert (X2 : extends (func (builder e2)) F) by (etransitivity; [apply G3 | exact X3]).
  pose proof (func_ref_follows xregisters_offset F _ _ _ _ env h H1 Hf) as F1.
  destruct (exception_slot_follows xregisters_offset F _ _ _ env h H2 (follows_fresh _ _ _ _ _ _ _ _ F1) X2)
    as (env2 & slot & F2 & Hp & _ & Hlt).
  pose proof (follows_trans _ _ _ _ _ _ _ _ _ _ _ F1 F2) as F12.
  assert (Hw : exists env3, follows F (builder e2) env2 h (builder e3) env3 h /\
            env3 !! w = Some (VInt (IR_TYPE V) (wrap (bits_of V) zv))).
  { pose proof (follows_lookup _ _ _ _ _ _ _ _ _ _ F12 Hv) as Hv2.
    assert (Hred : ins (ireduce (IR_TYPE V) (x64_val v)) e2 = Some (w, e3) ->
      exists env3, follows F (builder e2) env2 h (builder e3) env3 h /\
            env3 !! w = Some (VInt (IR_TYPE V) (wrap (bits_of V) zv))).
    { intros H3'. apply ins_inv in H3' as [H3' _]. eexists. split; [|apply lookup_insert_eq].
      eapply value_follows; [exact H3' | exact (follows_fresh _ _ _ _ _ _ _ _ F12) | exact X3 | reflexivity|].
      cbn. unfold int_of. rewrite Hv2. cbn. rewrite ir_type_bits. reflexivity. }
    unfold IR_TYPE, bits_of in H3, Hred |- *. destruct (WIDTH V); [apply Hred, H3 ..|]. injection H3 as <- <-. exists env2.
    split; [apply follows_refl, (follows_fresh _ _ _ _ _ _ _ _ F12)|]. rewrite Hv2. cbn. rewrite wrap_small by exact Hr. reflexivity. }
  destruct Hw as (env3 & F3 & Hw). pose proof (follows_trans _ _ _ _ _ _ _ _ _ _ _ F12 F3) as F13.
  assert (Hfn : ext_funcs (func (builder e3)) !! f = Some (Jsa.memory_store (WIDTH V))).
  { eapply extends_fn; [apply G3|]. eapply extends_fn; [apply G2|]. apply func_ref_inv in H1 as (_ & H1 & _). apply H1, Hk. }
  set (h' := set_slot_opt slot (CellException <$> exc) (mkJitState core' (js_result h) (js_slots h))).
  assert (Hcall : jit_call (Jsa.memory_store (WIDTH V))
            [VPtr PCore; VInt I64 za; VInt (IR_TYPE V) (wrap (bits_of V) zv); VPtr (PSlot slot)] h = Some (Some (val_bool err), h')).
  { cbn [jit_call]. change (IR_TYPE (mkStoreLoadInt (WIDTH V) false)) with (IR_TYPE V).
    change (PCore) with (PArg 1). rewrite decide_True by reflexivity. unfold mbind, on_js_core. fold (unsigned_of V). rewrite He. reflexivity. }
  destruct (call_follows xregisters_offset F _ _ _
      [VPtr PCore; VInt I64 za; VInt (IR_TYPE V) (wrap (bits_of V) zv); VPtr (PSlot slot)] _ _ _ env3 h (Some (val_bool err)) h' H4 (follows_fresh _ _ _ _ _ _ _ _ F13) Hx Hfn)
    as (env4 & F4 & u & -> & Hu); [|exact Hcall|cbn; split; eauto|].
  { cbn. rewrite (follows_lookup _ _ _ _ _ _ _ _ _ _ F13 Hc), (follows_lookup _ _ _ _ _ _ _ _ _ _ F13 Ha), Hw,
      (follows_lookup _ _ _ _ _ _ _ _ _ _ F3 Hp). reflexivity. }
  injection Hvs as ->. exists env4, h', slot. split; [eapply follows_trans; eassumption|]. split; [exact Hu|].
  split; [exact (follows_lookup _ _ _ _ _ _ _ _ _ _ F4 (follows_lookup _ _ _ _ _ _ _ _ _ _ F3 Hp))|].
  split; [|split; [destruct exc; reflexivity|split; [destruct exc; reflexivity | apply set_slot_opt_at]]].
  destruct (ext_slots _ _ (fl_extends _ _ _ _ _ _ _ _ F4)) as [k4 ->]. destruct (ext_slots _ _ (fl_extends _ _ _ _ _ _ _ _ F3)) as [k3 ->].
  rewrite !length_app. lia.
Qed.

(** The cell that a load writes. *)
Definition loaded (V : StoreLoadInt) (z : Z) : Cell := CellInt (IR_TYPE V) (wrap (bits_of V) z).

Lemma jsa_memory_load_follows F V core a e o e' env h za err val exc core' :
  jsa_memory_load V core a e = Some (o, e') -> calls_ok e -> fresh env (builder e) ->
  extends (func (builder e')) F -> env !! core = Some (VPtr PCore) -> env !! x64_val a = Some (VInt I64 za) ->
  extern_memory_load V za (js_core h) = Some ((err, val, exc), core') ->
  exists env' h' slot xptr xslot, follows F (builder e) env h (builder e') env' h' /\
    env' !! errno o = Some (val_bool err) /\ env' !! exception_ptr o = Some (VPtr (PSlot slot)) /\
    (slot < length (stack_slots (func (builder e'))))%nat /\ js_core h' = core' /\ js_result h' = js_result h /\
    (forall x, exc = Some x -> js_slots h' !! slot = Some (CellException x)) /\
    env' !! xptr = Some (VPtr (PSlot xslot)) /\
    (forall z, val = Some z -> exc = None -> js_slots h' !! xslot = Some (loaded V z)) /\
    on_ok o = (xval <- load (IR_TYPE V) xptr 0 ;;
               xval <- (if decide (IR_TYPE V = I64) then mret xval
                        else if SIGNED V then sextend I64 xval else uextend I64 xval) ;;
               mret (mkX64 xval)).
Proof.
  unfold jsa_memory_load. intros Hm Hk Hf Hx Hc Ha He.
  apply bind_inv in Hm as (ep & e1 & H1 & Hm). apply bind_inv in Hm as (xs & e2 & H2 & Hm).
  apply bind_inv in Hm as (xp & e3 & H3 & Hm). apply bind_inv in Hm as (f & e4 & H4 & Hm).
  apply bind_inv in Hm as (er & e5 & H5 & [= <- ->]). cbn. apply first_result_inv in H5 as (vs & H5 & Hvs).
  pose proof (exception_slot_grows _ _ _ H1) as G1. pose proof (ins_grows _ (slot_new_grows _) _ _ _ H2) as G2.
  pose proof (ins_grows _ (slot_ptr_grows _) _ _ _ H3) as G3. pose proof (func_ref_grows _ _ _ _ H4) as G4.
  pose proof (ins_grows _ (call_grows _ _ _) _ _ _ H5) as G5.
  assert (X4 : extends (func (builder e4)) F) by (etransitivity; [apply G5 | exact Hx]).
  assert (X3 : extends (func (builder e3)) F) by (etransitivity; [apply G4 | exact X4]).
  assert (X2 : extends (func (builder e2)) F) by (etransitivity; [apply G3 | exact X3]).
  assert (X1 : extends (func (builder e1)) F) by (etransitivity; [apply G2 | exact X2]).
  destruct (exception_slot_follows xregisters_offset F _ _ _ env h H1 Hf X1) as (env1 & slot & F1 & Hp & _ & Hlt).
  destruct (slot_new_follows xregisters_offset F _ _ _ _ env1 h H2 (follows_fresh _ _ _ _ _ _ _ _ F1)) as (F2 & Exs & S2).
  pose proof (follows_trans _ _ _ _ _ _ _ _ _ _ _ F1 F2) as F12.
  pose proof (slot_ptr_follows xregisters_offset F _ _ _ _ env1 h H3 (follows_fresh _ _ _ _ _ _ _ _ F12) X3) as F3.
  set (env3 := <[xp := VPtr (PSlot xs)]> env1) in *.
  pose proof (follows_trans _ _ _ _ _ _ _ _ _ _ _ F12 F3) as F13.
  pose proof (func_ref_follows xregisters_offset F _ _ _ _ env3 h H4 (follows_fresh _ _ _ _ _ _ _ _ F13)) as F4.
  pose proof (follows_trans _ _ _ _ _ _ _ _ _ _ _ F13 F4) as F14.
  assert (Hfn : ext_funcs (func (builder e4)) !! f = Some (Jsa.memory_load (WIDTH V) (SIGNED V))).
  { apply func_ref_inv in H4 as (_ & H4 & _). apply H4, G3, G2, G1, Hk. }
  assert (Hne : xs <> slot) by lia.
  set (h' := set_slot_opt slot (CellException <$> exc)
               (set_slot_opt xs (loaded V <$> val) (mkJitState core' (js_result h) (js_slots h)))).
  assert (Hcall : jit_call (Jsa.memory_load (WIDTH V) (SIGNED V))
            [VPtr PCore; VInt I64 za; VPtr (PSlot xs); VPtr (PSlot slot)] h = Some (Some (val_bool err), h')).
  { cbn [jit_call]. change (PCore) with (PArg 1). unfold mbind, on_js_core.
    replace (mkStoreLoadInt (WIDTH V) (SIGNED V)) with V by (destruct V; reflexivity). rewrite He. reflexivity. }
  destruct (call_follows xregisters_offset F _ _ _
      [VPtr PCore; VInt I64 za; VPtr (PSlot xs); VPtr (PSlot slot)] _ _ _ env3 h (Some (val_bool err)) h' H5 (follows_fresh _ _ _ _ _ _ _ _ F14) Hx Hfn)
    as (env4 & F5 & u & -> & Hu); [|exact Hcall|cbn; split; eauto|].
  { cbn. rewrite (follows_lookup _ _ _ _ _ _ _ _ _ _ F13 Hc), (follows_lookup _ _ _ _ _ _ _ _ _ _ F13 Ha),
      (follows_lookup _ _ _ _ _ _ _ _ _ _ F3 Hp). unfold env3. rewrite lookup_insert_eq. reflexivity. }
  injection Hvs as ->. exists env4, h', slot, xp, xs. split; [eapply follows_trans; eassumption|]. split; [exact Hu|].
  split; [exact (follows_lookup _ _ _ _ _ _ _ _ _ _ F5 (follows_lookup _ _ _ _ _ _ _ _ _ _ F3 Hp))|].
  split; [|split; [destruct exc, val; reflexivity|split; [destruct exc, val; reflexivity|split; [apply set_slot_opt_at|]]]].
  - destruct (ext_slots _ _ (fl_extends _ _ _ _ _ _ _ _ F5)) as [k5 ->].
    destruct (ext_slots _ _ (fl_extends _ _ _ _ _ _ _ _ F4)) as [k4 ->].
    destruct (ext_slots _ _ (fl_extends _ _ _ _ _ _ _ _ F3)) as [k3 ->].
    destruct (ext_slots _ _ (fl_extends _ _ _ _ _ _ _ _ F2)) as [k2 ->]. rewrite !length_app. lia.
  - split; [eapply follows_lookup; [exact F5|]; apply lookup_insert_eq|]. split; [|reflexivity].
    intros z -> ->. apply lookup_insert_eq.
Qed.

(** ** The registers, as a manager of the state lets compiled code reach them *)
Definition set_xregisters xs h : St :=
  mkJitState (with_hart (with_xregisters xs (hart (js_core h))) (js_core h)) (js_result h) (js_slots h).

Class AccessLaws `{JitStateAccess} : Prop := {
  xreg_read_grows core r : grows em_later (ir_xreg_read core r);
  xreg_write_grows core r x : grows em_later (ir_xreg_write core r x);
  xreg_read_follows F core r e x e' env h v : ir_xreg_read core r e = Some (x, e') -> calls_ok e ->
    fresh env (builder e) -> extends (func (builder e')) F -> env !! core = Some (VPtr PCore) ->
    xregisters_read_nz (xregisters (hart (js_core h))) r = Some v ->
    exists env', follows F (builder e) env h (builder e') env' h /\ env' !! x64_val x = Some (VInt I64 v);
  xreg_write_follows F core r x e t e' env h v xs : ir_xreg_write core r x e = Some (t, e') -> calls_ok e ->
    fresh env (builder e) -> extends (func (builder e')) F -> env !! core = Some (VPtr PCore) ->
    env !! x64_val x = Some (VInt I64 v) ->
    xregisters_write_nz (xregisters (hart (js_core h))) r v = Some xs ->
    exists env', follows F (builder e) env h (builder e') env' (set_xregisters xs h) }.

#[export] Instance owned_access_laws : @AccessLaws (owned_access xregisters_offset).
Proof.
  assert (Hat : forall r, register_at xregisters_offset (xregisters_offset + xregister_offset r) = Some (nz_repr r)).
  { intros r. unfold register_at, xregister_offset. pose proof (nz_repr_range r).
    replace (xregisters_offset + nz_repr r * 8 - xregisters_offset) with (nz_repr r * 8) by lia.
    rewrite (proj2 (Z.leb_le 0 _)), (proj2 (Z.ltb_lt _ (31 * 8))), Z_mod_mult, Z.div_mul by lia. reflexivity. }
  split.
  - intros. apply owned_xreg_read_grows.
  - intros. apply owned_xreg_write_grows.
  - intros F core r e x e' env h v Hr _ Hf Hx Hc Hv. apply bind_inv in Hr as (val & e1 & H1 & [= <- ->]).
    apply ins_inv in H1 as [H1 _]. exists (<[val := VInt I64 v]> env). split; [|apply lookup_insert_eq].
    eapply value_follows; [exact H1 | exact Hf | exact Hx | reflexivity|].
    cbn. unfold pointer. rewrite Hc. cbn. rewrite Hat. cbn. unfold xregisters_read_nz in Hv. rewrite Hv. reflexivity.
  - intros F core r x e [] e' env h v xs Hw _ Hf Hx Hc Hv Hxs. exists env.
    apply ins_inv in Hw as [H1 _]. eapply inst_follows; [exact H1 | exact Hf | exact Hx | reflexivity|].
    cbn. unfold pointer. rewrite Hc. cbn. rewrite Hv. cbn. rewrite Hat. cbn.
    unfold xregisters_write_nz in Hxs. rewrite Hxs. reflexivity.
Qed.

#[export] Instance proof_gen_access_laws : @AccessLaws proof_gen_access.
Proof.
  assert (Hreg : forall r, VInt I8 (wrap (type_bits I8) (nz_repr r)) = VInt I8 (nz_repr r)).
  { intros r. rewrite wrap_small; [reflexivity|]. pose proof (nz_repr_range r). unfold urange. cbn. lia. }
  split.
  - intros. apply provided_xreg_read_grows.
  - intros. apply provided_xreg_write_grows.
  - intros F core r e x e' env h v Hr Hk Hf Hx Hc Hv. unfold ir_xreg_read in Hr. cbn in Hr.
    unfold provided_xreg_read in Hr. apply bind_inv in Hr as (f & e1 & H1 & Hr).
    apply bind_inv in Hr as (rv & e2 & H2 & Hr). apply bind_inv in Hr as (u & e3 & H3 & [= <- ->]).
    apply first_result_inv in H3 as (vs & H3 & Hvs).
    pose proof (ins_grows _ (iconst_grows _ _) _ _ _ H2) as G2. pose proof (ins_grows _ (call_grows _ _ _) _ _ _ H3) as G3.
    assert (X2 : extends (func (builder e2)) F) by (etransitivity; [apply G3 | exact Hx]).
    pose proof (func_ref_follows xregisters_offset F _ _ _ _ env h H1 Hf) as F1.
    apply ins_inv in H2 as [H2 J2].
    assert (F2 : follows F (builder e1) env h (builder e2) (<[rv := VInt I8 (nz_repr r)]> env) h).
    { eapply value_follows; [exact H2 | exact (follows_fresh _ _ _ _ _ _ _ _ F1) | exact X2 | reflexivity|].
      cbn. rewrite <- Hreg. reflexivity. }
    pose proof (follows_trans _ _ _ _ _ _ _ _ _ _ _ F1 F2) as F12.
    assert (Hfn : ext_funcs (func (builder e2)) !! f = Some Jsa.xreg_read).
    { eapply extends_fn; [apply G2|]. apply func_ref_inv in H1 as (_ & H1 & _). apply H1, Hk. }
    assert (Hcall : jit_call Jsa.xreg_read [VPtr PCore; VInt I8 (nz_repr r)] h = Some (Some (VInt I64 v), h)).
    { cbn. unfold mbind, mlift. rewrite nz_of_to_repr. unfold on_js_core, extern_xregister_read, on_hart, hart_read_nz, mbind, mget, mlift.
      rewrite Hv. destruct h as [[] ? ?]; reflexivity. }
    destruct (call_follows xregisters_offset F _ _ [core; rv] [VPtr PCore; VInt I8 (nz_repr r)] _ _ _ _ h (Some (VInt I64 v)) h H3
      (follows_fresh _ _ _ _ _ _ _ _ F12) Hx Hfn) as (env3 & F3 & w & -> & Hw); [|exact Hcall|cbn; split; eauto|].
    { cbn. rewrite (follows_lookup _ _ _ _ _ _ _ _ _ _ F12 Hc), lookup_insert_eq. reflexivity. }
    injection Hvs as ->. exists env3. split; [eapply follows_trans; eassumption | exact Hw].
  - intros F core r x e t e' env h v xs Hr Hk Hf Hx Hc Hv Hxs. unfold ir_xreg_write in Hr. cbn in Hr.
    unfold provided_xreg_write in Hr. apply bind_inv in Hr as (f & e1 & H1 & Hr).
    apply bind_inv in Hr as (rv & e2 & H2 & Hr). apply bind_inv in Hr as (vs & e3 & H3 & [= <- ->]).
    pose proof (ins_grows _ (iconst_grows _ _) _ _ _ H2) as G2. pose proof (ins_grows _ (call_grows _ _ _) _ _ _ H3) as G3.
    assert (X2 : extends (func (builder e2)) F) by (etransitivity; [apply G3 | exact Hx]).
    pose proof (func_ref_follows xregisters_offset F _ _ _ _ env h H1 Hf) as F1.
    apply ins_inv in H2 as [H2 J2].
    assert (F2 : follows F (builder e1) env h (builder e2) (<[rv := VInt I8 (nz_repr r)]> env) h).
    { eapply value_follows; [exact H2 | exact (follows_fresh _ _ _ _ _ _ _ _ F1) | exact X2 | reflexivity|].
      cbn. rewrite <- Hreg. reflexivity. }
    pose proof (follows_trans _ _ _ _ _ _ _ _ _ _ _ F1 F2) as F12.
    assert (Hfn : ext_funcs (func (builder e2)) !! f = Some Jsa.xreg_write).
    { eapply extends_fn; [apply G2|]. apply func_ref_inv in H1 as (_ & H1 & _). apply H1, Hk. }
    assert (Hcall : jit_call Jsa.xreg_write [VPtr PCore; VInt I8 (nz_repr r); VInt I64 v] h = Some (None, set_xregisters xs h)).
    { cbn. unfold mbind, mlift. rewrite nz_of_to_repr. unfold on_js_core, extern_xregister_write, on_hart, hart_write_nz, mbind, mget, mlift.
      rewrite Hxs. reflexivity. }
    destruct (call_follows xregisters_offset F _ _ [core; rv; x64_val x] [VPtr PCore; VInt I8 (nz_repr r); VInt I64 v] _ _ _ _ h None (set_xregisters xs h) H3
      (follows_fresh _ _ _ _ _ _ _ _ F12) Hx Hfn) as (env3 & F3 & _); [|exact Hcall|cbn; split; intros [? [=]]|].
    { cbn. rewrite (follows_lookup _ _ _ _ _ _ _ _ _ _ F12 Hc), (follows_lookup _ _ _ _ _ _ _ _ _ _ F12 Hv), lookup_insert_eq. reflexivity. }
    exists env3. eapply follows_trans; eassumption.
Qed.

End Ops.
