(* ===== verification/JitSim.v ===== *)
(** * The operations of the builder follow the interpreter's

    The relation [sim] between a computation of the builder, which emits code, and the
    same computation of the interpreter, which runs it: wherever the emitted code is run
    on the interpreter's state, it comes to where the builder then stands, with the
    interpreter's values in the values of the code, or it leaves the function as the
    interpreter's outcome says ([Exit]).  A lemma per operation of the instruction context
    shows that the two instances are related. *)

From stdpp Require Import gmap.
From S2P Require Import Prelude.
From S2P Require Import Registers.
From S2P Require Import Csr.
From S2P Require Import Instr.
From S2P Require Import Icb.
From S2P Require Import Integer.
From S2P Require Import Interpreter.
From S2P Require Import Memory.
From S2P Require Import MemorySpec.
From S2P Require Import Core.
From S2P Require Import Step.
From S2P Require Import IsaSpec.
From S2P Require Import CoreSpec.
From S2P Require Import IntegerSpec.
From S2P Require Import Cranelift.
From S2P Require Import StateAccess.
From S2P Require Import JitBuilder.
From S2P Require Import JitRuns.

Lemma bind_ext {S A B} (m : M S A) (k k' : A -> M S B) (s : S) : (forall a s, k a s = k' a s) ->
  mbind m k s = mbind m k' s.
Proof. intros Hk. unfold mbind. destruct (m s) as [[a s']|]; [apply Hk | reflexivity]. Qed.

(** ** Values of the interpreter in those of the code *)
Definition iv (ty : IrType) (env : gmap nat Val) (v : nat) (z : Z) : Prop :=
  env !! v = Some (VInt ty z) /\ urange (type_bits ty) z.
Definition xv env (x : X64) (z : Z) : Prop := iv I64 env (x64_val x) z.
Definition xw env (x : X32) (z : Z) : Prop := iv I32 env (x32_val x) z.
Definition bv (env : gmap nat Val) (v : nat) (c : bool) : Prop := env !! v = Some (val_bool c).
Definition pcv env (u : ProgramCounterUpdate X64) (u' : ProgramCounterUpdate Z) : Prop :=
  match u, u' with
  | Set_ x, Set_ z => xv env x z
  | Next w, Next w' => w = w'
  | _, _ => False
  end.
Definition uv {A} (env : gmap nat Val) (a b : A) : Prop := a = b.
(** A result that is not an error. *)
Definition rv {A B} (V : gmap nat Val -> A -> B -> Prop) env (a : option A) (r : result B Exception) : Prop :=
  match a, r with Some a, Ok r => V env a r | _, _ => False end.
Definition phi_rel (Phi : PhiValue) env
  : BuilderValue Phi -> IcbValue Z Z (fun A => result A Exception) Phi -> Prop :=
  match Phi with
  | PhiUnit => uv env
  | PhiXValue => xv env
  | PhiXValue32 => xw env
  | PhiResult => rv uv env
  end.

(** What is known of values stays true. *)
Class Mono {A B} (V : gmap nat Val -> A -> B -> Prop) : Prop :=
  mono env env' a b : env ⊆ env' -> V env a b -> V env' a b.
#[export] Instance iv_mono ty : Mono (iv ty).
Proof. intros env env' v z S [Hv Hr]. split; [eapply lookup_weaken; eassumption | assumption]. Qed.
#[export] Instance xv_mono : Mono xv. Proof. intros env env' x z. apply iv_mono. Qed.
#[export] Instance xw_mono : Mono xw. Proof. intros env env' x z. apply iv_mono. Qed.
#[export] Instance bv_mono : Mono bv. Proof. intros env env' v c S. apply lookup_weaken with (1 := S) || (intros Hv; eapply lookup_weaken; eassumption). Qed.
#[export] Instance pcv_mono : Mono pcv. Proof. intros env env' [x|w] [z|w'] S; cbn; try tauto. apply xv_mono, S. Qed.
#[export] Instance uv_mono {A} : Mono (@uv A). Proof. intros env env' a b _ E. exact E. Qed.
#[export] Instance rv_mono {A B} (V : gmap nat Val -> A -> B -> Prop) `{!Mono V} : Mono (rv V).
Proof. intros env env' [a|] [r|e] S; cbn; try tauto. apply mono, S. Qed.

(** ** Ways out *)
Definition no_exit {A} (r : A) (ex : Exit) : Prop := False.
Definition err_exit {A} (r : result A Exception) (ex : Exit) : Prop :=
  match r with Err e => ex = ExRaise e | Ok _ => False end.
Definition pcu_exit (u : ProgramCounterUpdate Z) (ex : Exit) : Prop :=
  match u with Set_ a => ex = ExJump a | Next _ => False end.
Definition out_exit (r : result (ProgramCounterUpdate Z) Exception) (ex : Exit) : Prop :=
  match r with Ok u => pcu_exit u ex | Err e => ex = ExRaise e end.
Definition phi_exit (Phi : PhiValue)
  : IcbValue Z Z (fun A => result A Exception) Phi -> Exit -> Prop :=
  match Phi with PhiResult => err_exit | _ => no_exit end.

Section Sim.
Context {Mem : Type} `{Memory Mem} `{!MemoryLaws Mem} (xregisters_offset : Z).
Notation Core := (MachineCoreState Mem).
Notation St := (JitState Mem).
#[local] Instance sim_host : Host JsaFn St := jit_host xregisters_offset.
Implicit Types (F : Function JsaFn) (env : gmap nat Val) (h : St) (b : Builder) (s : Core).
Notation follows := (follows xregisters_offset).
Notation leaves := (leaves xregisters_offset).

(** In an environment with [e0], the code of [m] does what [m'] does. *)
Record sim {A A'} (e0 : gmap nat Val) (m : M Builder A) (m' : M Core A')
    (V : gmap nat Val -> A -> A' -> Prop) (X : A' -> Exit -> Prop) : Prop := {
  sim_onward : grows onward m;
  sim_runs b a b' F env h s r s' : m b = Some (a, b') -> m' s = Some (r, s') ->
    extends (fn_of b') F -> agree b env h s -> e0 ⊆ env ->
    (exists env' h', follows F (fb b) env h (fb b') env' h' /\ agree b' env' h' s' /\ V env' a r /\
       d_steps (dynamic b') = d_steps (dynamic b)) \/
    (exists ex, X r ex /\ leaves F (fb b) env h ex (d_steps (dynamic b)) s') }.
Arguments sim_onward {A A' e0 m m' V X}.
Arguments sim_runs {A A' e0 m m' V X}.

Lemma sim_bind {A A' B B'} e0 (m : M Builder A) (m' : M Core A') V1 X1 k (k' : A' -> M Core B') V X :
  sim e0 m m' V1 X1 -> (forall a, grows onward (k a : M Builder B)) ->
  (forall a r e1, e0 ⊆ e1 -> V1 e1 a r -> sim e1 (k a) (k' r) V X) ->
  (forall r ex s, X1 r ex -> exists r', k' r s = Some (r', s) /\ X r' ex) ->
  sim e0 (mbind m k) (mbind m' k') V X.
Proof.
  intros Hm Hg Hk Hx. split; [apply grows_bind; [typeclasses eauto | apply Hm | exact Hg]|].
  intros b a b' F env h s r s' E E' HF Ha He.
  apply bind_inv in E as (x & b1 & E1 & E2). apply bind_inv in E' as (y & s1 & E1' & E2').
  pose proof (sim_onward Hm _ _ _ E1 (ag_inv _ _ _ _ Ha)) as L1.
  pose proof (Hg _ _ _ _ E2 (lt_inv _ _ L1 (ag_inv _ _ _ _ Ha))) as L2.
  assert (HF1 : extends (fn_of b1) F) by (etransitivity; [apply (lt_extends _ _ L2) | exact HF]).
  destruct (sim_runs Hm _ _ _ F _ _ _ _ _ E1 E1' HF1 Ha He) as [(env1 & h1 & F1 & A1 & V1' & D1)|(ex & X1' & Hl)].
  - destruct (sim_runs (Hk _ _ env1 ltac:(etransitivity; [exact He | apply F1]) V1') _ _ _ F _ _ _ _ _ E2 E2' HF A1 ltac:(reflexivity))
      as [(env2 & h2 & F2 & A2 & V2' & D2)|(ex & X2' & Hl)].
    + left. exists env2, h2. split; [eapply follows_trans; eassumption|]. split; [exact A2|]. split; [exact V2' | congruence].
    + right. exists ex. split; [exact X2'|]. rewrite <- D1. eapply leaves_follows; eassumption.
  - destruct (Hx _ _ s1 X1') as (r' & Er & Xr). rewrite Er in E2'. injection E2' as -> ->. right. exists ex. auto.
Qed.

Lemma sim_ret {A A'} e0 (a : A) (r : A') (V : gmap nat Val -> A -> A' -> Prop) X `{!Mono V} :
  V e0 a r -> sim e0 (mret a) (mret r) V X.
Proof.
  intros Hv. split; [apply grows_ret; typeclasses eauto|].
  intros b a1 b' F env h s r1 s' [= <- <-] [= <- <-] HF Ha He. left. exists env, h.
  split; [apply follows_refl, Ha|]. split; [exact Ha|]. split; [eapply mono; eassumption | reflexivity].
Qed.

Lemma sim_weaken {A A'} e0 e1 (m : M Builder A) (m' : M Core A') V X (V1 : gmap nat Val -> A -> A' -> Prop) (X1 : A' -> Exit -> Prop) :
  sim e1 m m' V1 X1 -> e1 ⊆ e0 -> (forall env a r, e0 ⊆ env -> V1 env a r -> V env a r) -> (forall r ex, X1 r ex -> X r ex) -> sim e0 m m' V X.
Proof.
  intros Hm He Hv Hx. split; [apply Hm|]. intros b a b' F env h s r s' E E' HF Ha S.
  destruct (sim_runs Hm _ _ _ F _ _ _ _ _ E E' HF Ha) as [(env1 & h1 & F1 & A1 & V1' & D1)|(ex & X1' & Hl)].
  - etransitivity; eassumption.
  - left. exists env1, h1. split; [exact F1|]. split; [exact A1|]. split; [apply Hv; [etransitivity; [exact S | apply F1] | exact V1'] | exact D1].
  - right. eauto.
Qed.

Lemma sim_lift {A B B'} e0 (o : option A) (k : A -> M Builder B) (k' : A -> M Core B') V X :
  (forall a, grows onward (k a)) -> (forall a, o = Some a -> sim e0 (k a) (k' a) V X) -> sim e0 (mbind (mlift o) k) (mbind (mlift o) k') V X.
Proof.
  intros Hg Hk. split; [apply grows_bind; [typeclasses eauto | apply grows_lift; typeclasses eauto | exact Hg]|].
  destruct o as [a|]; [apply (Hk a eq_refl) | discriminate].
Qed.

(** *** Instructions that only compute *)
Lemma sim_value {A'} e0 mk (m : M Builder nat) (m' : M Core A') (V : gmap nat Val -> nat -> A' -> Prop) :
  grows onward m -> (forall b v b', m b = Some (v, b') -> exists ty, ir (ins_value ty mk) b = Some (v, b')) ->
  (forall v, is_terminator (mk v) = false) ->
  (forall F env h s r s' v, m' s = Some (r, s') -> core_ok s -> e0 ⊆ env ->
     s' = s /\ exists x, exec_inst F (mk v) env h = Some (<[v := x]> env, h) /\
       (env ⊆ <[v := x]> env -> V (<[v := x]> env) v r)) ->
  sim e0 m m' V no_exit.
Proof.
  intros Hg Hm Ht Hx. split; [exact Hg|]. intros b v b' F env h s r s' E E' HF Ha He. left.
  pose proof (Hg _ _ _ E (ag_inv _ _ _ _ Ha)) as L. apply Hm in E as [ty E].
  destruct (Hx F env h s r s' v E' (ag_ok _ _ _ _ Ha) He) as (-> & x & Hex & Hv). exists (<[v := x]> env), h.
  apply ir_inv in E as (E & _ & D & _).
  pose proof (value_follows xregisters_offset F _ _ _ _ _ env h x h E (ag_fresh _ _ _ _ Ha) HF (Ht v) Hex) as Fl.
  split; [exact Fl|]. split; [eapply agree_pure; eassumption|]. split; [apply Hv, Fl | congruence].
Qed.

(** The common shape: a computation of the interpreter that is a value. *)
Lemma sim_pure {A A'} (mkA : nat -> A) e0 mk (m : M Builder nat) (r : A') x (V : gmap nat Val -> A -> A' -> Prop) :
  grows onward m -> (forall b v b', m b = Some (v, b') -> exists ty, ir (ins_value ty mk) b = Some (v, b')) ->
  (forall v, is_terminator (mk v) = false) ->
  (forall F env h v, e0 ⊆ env -> exec_inst F (mk v) env h = Some (<[v := x]> env, h)) ->
  (forall s env v, core_ok s -> env !! v = Some x -> V env (mkA v) r) ->
  sim e0 (v <- m ;; mret (mkA v)) (mret r) V no_exit.
Proof.
  intros Hg Hm Ht Hx Hv.
  assert (Hs : sim e0 m (mret r) (fun env v r' => V env (mkA v) r') no_exit).
  { eapply sim_value; [exact Hg | exact Hm | exact Ht |]. intros F env h s r1 s' v [= <- <-] Hok He.
    split; [reflexivity|]. exists x. split; [apply Hx, He|]. intros _. eapply Hv; [exact Hok | apply lookup_insert_eq]. }
  split; [grows; exact Hg|]. intros b a b' F env h s r1 s' E E' HF Ha He.
  apply bind_inv in E as (v & b1 & E & [= <- <-]).
  destruct (sim_runs Hs _ _ _ F _ _ _ _ _ E E' HF Ha He) as [(env1 & h1 & F1 & A1 & V1 & D1)|(ex & [] & _)].
  left. eauto 10.
Qed.

Lemma sim_panic {A A'} e0 (m : M Builder A) (V : gmap nat Val -> A -> A' -> Prop) X : grows onward m ->
  sim e0 m mpanic V X.
Proof. intros Hg. split; [exact Hg|]. intros b a b' F env h s r s' _ [=]. Qed.

Lemma ir_ins_value ty mk b v b' : ir (ins_value ty mk) b = Some (v, b') ->
  exists ty, ir (ins_value ty mk) b = Some (v, b').
Proof. eauto. Qed.

(** *** Arithmetic *)
Lemma shiftr_range w a n : 0 <= w -> 0 <= n -> urange w a -> urange w (Z.shiftr a n).
Proof.
  intros Hw Hn [Ha Hb]. rewrite Z.shiftr_div_pow2 by assumption. pose proof (pow2_pos n Hn).
  split; [apply Z.div_pos; lia|]. apply Z.div_lt_upper_bound; nia.
Qed.
Lemma udiv_range w a c : urange w a -> 0 <= c -> c <> 0 -> urange w (a / c).
Proof. intros [Ha Hb] Hc Hn. split; [apply Z.div_pos; lia|]. apply Z.div_lt_upper_bound; nia. Qed.
Lemma umod_range w a c : urange w c -> c <> 0 -> urange w (a mod c).
Proof. intros [Ha Hb] Hn. pose proof (Z.mod_pos_bound a c ltac:(lia)). unfold urange in *. lia. Qed.

Lemma int_of_iv ty e0 env v z : iv ty e0 v z -> e0 ⊆ env -> int_of env v = Some (ty, z).
Proof. intros [Hv _] S. unfold int_of. rewrite (lookup_weaken _ _ _ _ Hv S). reflexivity. Qed.

Section Arithmetic.
Context {A : Type} (mk : nat -> A) (val : A -> nat) (Hval : forall v, val (mk v) = v) (ty : IrType).
Notation w := (type_bits ty).
Notation ar := (fun env x z => iv ty env (val x) z).
Implicit Types (x y : A) (p q : Z).

Lemma type_bits_pos : 8 <= w.
Proof. destruct ty; cbn; lia. Qed.

Lemma sim_binary op e0 x y p q r : iv ty e0 (val x) p -> iv ty e0 (val y) q ->
  binary_op op w p q = Some r -> urange w r ->
  sim e0 (builder_binary mk val op x y) (mret r) ar no_exit.
Proof.
  intros Hx Hy Hr Hu. unfold builder_binary. eapply (sim_pure mk); [grows | intros b v b'; apply ir_binary_inv | reflexivity | |].
  - intros F env h v He. cbn. rewrite (int_of_iv _ _ _ _ _ Hx He), (int_of_iv _ _ _ _ _ Hy He). cbn. rewrite Hr. reflexivity.
  - intros s env v _ Hv. cbn. rewrite Hval. split; assumption.
Qed.

Notation B := (builder_arithmetic mk val).
Notation U := (arithmetic_uint (I := Core) w).

Context (e0 : gmap nat Val) (x y : A) (p q : Z) (Hx : iv ty e0 (val x) p) (Hy : iv ty e0 (val y) q).
Notation sims m m' := (sim e0 m m' ar no_exit).

Lemma sim_add : sims (@add _ _ B x y) (@add _ _ U p q).
Proof. apply sim_binary with p q; [assumption..|reflexivity|]. apply wrap_range. pose proof type_bits_pos. lia. Qed.
Lemma sim_sub : sims (@sub _ _ B x y) (@sub _ _ U p q).
Proof. apply sim_binary with p q; [assumption..|reflexivity|]. apply wrap_range. pose proof type_bits_pos. lia. Qed.
Lemma sim_mul : sims (@mul _ _ B x y) (@mul _ _ U p q).
Proof. apply sim_binary with p q; [assumption..|reflexivity|]. apply wrap_range. pose proof type_bits_pos. lia. Qed.
Lemma sim_min_signed : sims (@min_signed _ _ B x y) (@min_signed _ _ U p q).
Proof. apply sim_binary with p q; [assumption..|reflexivity|]. apply wrap_range. pose proof type_bits_pos. lia. Qed.
Lemma sim_and : sims (@and _ _ B x y) (@and _ _ U p q).
Proof. pose proof type_bits_pos. apply sim_binary with p q; [assumption..|reflexivity|]. apply land_range; [lia | apply Hx | apply Hy]. Qed.
Lemma sim_or : sims (@or _ _ B x y) (@or _ _ U p q).
Proof. pose proof type_bits_pos. apply sim_binary with p q; [assumption..|reflexivity|]. apply lor_range; [lia | apply Hx | apply Hy]. Qed.
Lemma sim_xor : sims (@xor _ _ B x y) (@xor _ _ U p q).
Proof. pose proof type_bits_pos. apply sim_binary with p q; [assumption..|reflexivity|]. apply lxor_range; [lia | apply Hx | apply Hy]. Qed.

Lemma binary_grows_onward op : grows onward (builder_binary mk val op x y).
Proof. unfold builder_binary. grows. Qed.

Lemma sim_div_unsigned : sims (@div_unsigned _ _ B x y) (@div_unsigned _ _ U p q).
Proof.
  cbn. unfold uint_div_unsigned. destruct (Z.eqb_spec q 0) as [->|Hq]; [apply sim_panic, binary_grows_onward|].
  apply sim_binary with p q; [assumption..| |].
  - cbn. rewrite (proj2 (Z.eqb_neq _ _) Hq). reflexivity.
  - apply udiv_range; [apply Hx | apply Hy | exact Hq].
Qed.
Lemma sim_modulus_unsigned : sims (@modulus_unsigned _ _ B x y) (@modulus_unsigned _ _ U p q).
Proof.
  cbn. unfold uint_modulus_unsigned. destruct (Z.eqb_spec q 0) as [->|Hq]; [apply sim_panic, binary_grows_onward|].
  apply sim_binary with p q; [assumption..| |].
  - cbn. rewrite (proj2 (Z.eqb_neq _ _) Hq). reflexivity.
  - apply umod_range; [apply Hy | exact Hq].
Qed.
Lemma sext_is_zero : (sext w q =? 0) = (q =? 0).
Proof. pose proof type_bits_pos. rewrite sext_zero, wrap_small by (apply Hy || lia). reflexivity. Qed.
Lemma sim_div_signed : sims (@div_signed _ _ B x y) (@div_signed _ _ U p q).
Proof.
  cbn. unfold uint_div_signed. rewrite sext_is_zero. destruct (_ || _) eqn:E; [apply sim_panic, binary_grows_onward|].
  apply sim_binary with p q; [assumption..| |].
  - cbn. rewrite E. reflexivity.
  - apply wrap_range. pose proof type_bits_pos. lia.
Qed.
Lemma sim_modulus_signed : sims (@modulus_signed _ _ B x y) (@modulus_signed _ _ U p q).
Proof.
  cbn. unfold uint_modulus_signed. rewrite sext_is_zero. destruct (_ =? 0) eqn:E; [apply sim_panic, binary_grows_onward|].
  apply sim_binary with p q; [assumption..| |].
  - cbn. rewrite E. reflexivity.
  - apply wrap_range. pose proof type_bits_pos. lia.
Qed.
Lemma sim_shift c : sims (@shift _ _ B x c y) (@shift _ _ U p c q).
Proof.
  cbn. unfold uint_shift. destruct (Z.ltb_spec q w) as [Hq|_]; [|apply sim_panic, binary_grows_onward].
  pose proof type_bits_pos. destruct Hy as [_ [Hq0 _]].
  eapply sim_binary; [eassumption..| |].
  - destruct c; cbn; rewrite Z.mod_small by lia; reflexivity.
  - destruct c; [apply wrap_range; lia | apply shiftr_range; [lia | lia | apply Hx] | apply wrap_range; lia].
Qed.
Lemma sim_negate : sims (@negate _ _ B x) (@negate _ _ U p).
Proof.
  pose proof type_bits_pos. cbn. eapply (sim_pure mk); [grows | | | |].
  - intros b v b' E. apply ir_inv in E as (E & Ei). unfold ineg in E. apply bind_inv in E as (t & f & Ht & E).
    unfold value_type in Ht. apply bind_inv in Ht as (tys & f' & [= <- <-] & Ht). unfold mlift in Ht.
    destruct (_ !! _); [|discriminate]. injection Ht as <- <-. exists i.
    unfold ir, emit, ins. rewrite E. destruct b as [[] ], b' as [[] ]; cbn in *. destruct Ei as (-> & -> & -> & -> & ->). reflexivity.
  - reflexivity.
  - intros F env h v He. cbn. rewrite (int_of_iv _ _ _ _ _ Hx He). reflexivity.
  - intros s env v _ Hv. cbn. rewrite Hval. split; [exact Hv | apply wrap_range; lia].
Qed.
End Arithmetic.

(** *** Conversions and comparisons *)
Lemma bv_of env v c : env !! v = Some (VInt I8 (if c : bool then 1 else 0)) -> bv env v c.
Proof. exact id. Qed.
Lemma int_of_bv e0 env v c : bv e0 v c -> e0 ⊆ env -> int_of env v = Some (I8, if c then 1 else 0).
Proof. intros Hv S. unfold int_of. rewrite (lookup_weaken _ _ _ _ Hv S). reflexivity. Qed.

Lemma sim_value_id {A'} e0 mk (m : M Builder nat) (r : A') x (V : gmap nat Val -> nat -> A' -> Prop) :
  grows onward m -> (forall b v b', m b = Some (v, b') -> exists ty, ir (ins_value ty mk) b = Some (v, b')) ->
  (forall v, is_terminator (mk v) = false) ->
  (forall F env h v, e0 ⊆ env -> exec_inst F (mk v) env h = Some (<[v := x]> env, h)) ->
  (forall env v, env !! v = Some x -> V env v r) ->
  sim e0 m (mret r) V no_exit.
Proof.
  intros Hg Hm Ht Hx Hv. eapply sim_value; [exact Hg | exact Hm | exact Ht |]. intros F env h s r1 s' v [= <- <-] Hok He.
  split; [reflexivity|]. exists x. split; [apply Hx, He|]. intros _. apply Hv, lookup_insert_eq.
Qed.

Lemma int_compare_predicate w a c p : int_compare (intcc_of_predicate p) w a c = uint_compare w a c p.
Proof. destruct p; reflexivity. Qed.

Lemma sim_comparable {A} (val : A -> nat) ty e0 (x y : A) p q c : iv ty e0 (val x) p -> iv ty e0 (val y) q ->
  sim e0 (builder_comparable val x y c) (comparable_uint (I := Core) (type_bits ty) p q c) bv no_exit.
Proof.
  intros Hx Hy. unfold comparable_uint, builder_comparable.
  eapply sim_value_id; [grows | intros b v b'; apply ir_ins_value | reflexivity | |].
  - intros F env h v He. cbn. rewrite (int_of_iv _ _ _ _ _ Hx He), (int_of_iv _ _ _ _ _ Hy He). cbn. reflexivity.
  - intros env v Hv. rewrite int_compare_predicate in Hv. exact Hv.
Qed.

Lemma sim_iconst ty e0 imm {A} (mk : nat -> A) (val : A -> nat) : (forall v, val (mk v) = v) ->
  sim e0 (v <- ir (iconst ty imm) ;; mret (mk v)) (mret (wrap (type_bits ty) imm)) (fun env a z => iv ty env (val a) z) no_exit.
Proof.
  intros Hval. eapply (sim_pure mk); [grows | intros b v b'; apply ir_ins_value | reflexivity | reflexivity |].
  intros s env v _ Hv. rewrite Hval. split; [exact Hv|]. apply wrap_range. destruct ty; cbn; lia.
Qed.

Lemma sim_bool_and e0 u v c d : bv e0 u c -> bv e0 v d -> sim e0 (ir (binary Band u v)) (mret (c && d)) bv no_exit.
Proof.
  intros Hu Hv. eapply sim_value_id; [grows | intros b w b'; apply ir_binary_inv | reflexivity | |].
  - intros F env h w He. cbn. rewrite (int_of_bv _ _ _ _ Hu He), (int_of_bv _ _ _ _ Hv He). cbn. reflexivity.
  - intros env w Hw. unfold bv. rewrite Hw. destruct c, d; reflexivity.
Qed.

Lemma sim_narrow e0 x z : xv e0 x z -> sim e0 (builder_narrow x) (mret (wrap 32 z)) xw no_exit.
Proof.
  intros Hx. eapply (sim_pure mkX32); [grows | intros b v b'; apply ir_ins_value | reflexivity | |].
  - intros F env h v He. cbn. rewrite (int_of_iv _ _ _ _ _ Hx He). reflexivity.
  - intros s env v _ Hv. split; [exact Hv | apply wrap_range; cbn; lia].
Qed.
Lemma sim_extend_signed e0 x z : xw e0 x z -> sim e0 (builder_extend_signed x) (mret (wrap 64 (sext 32 z))) xv no_exit.
Proof.
  intros Hx. eapply (sim_pure mkX64); [grows | intros b v b'; apply ir_ins_value | reflexivity | |].
  - intros F env h v He. cbn. rewrite (int_of_iv _ _ _ _ _ Hx He). reflexivity.
  - intros s env v _ Hv. split; [exact Hv | apply wrap_range; cbn; lia].
Qed.
Lemma sim_extend_unsigned e0 x z : xw e0 x z -> sim e0 (builder_extend_unsigned x) (mret z) xv no_exit.
Proof.
  intros Hx. eapply (sim_pure mkX64); [grows | intros b v b'; apply ir_ins_value | reflexivity | |].
  - intros F env h v He. cbn. rewrite (int_of_iv _ _ _ _ _ Hx He). reflexivity.
  - intros s env v _ Hv. split; [exact Hv|]. destruct Hx as [_ Hx]. unfold urange in *. cbn in *. lia.
Qed.
Lemma sim_xvalue_from_bool e0 v c : bv e0 v c -> sim e0 (builder_xvalue_from_bool v) (mret (if c then 1 else 0)) xv no_exit.
Proof.
  intros Hv. eapply (sim_pure mkX64); [grows | intros b u b'; apply ir_ins_value | reflexivity | |].
  - intros F env h u He. cbn. rewrite (int_of_bv _ _ _ _ Hv He). reflexivity.
  - intros s env u _ Hu. split; [exact Hu | unfold urange; destruct c; cbn; lia].
Qed.

Lemma sim_map {A B A'} e0 (f : A -> B) (m : M Builder A) (m' : M Core A') (V : gmap nat Val -> B -> A' -> Prop) X :
  sim e0 m m' (fun env a r => V env (f a) r) X -> sim e0 (a <- m ;; mret (f a)) m' V X.
Proof.
  intros Hm. split; [apply grows_bind; [typeclasses eauto | apply Hm | intros; apply grows_ret; typeclasses eauto]|].
  intros b a b' F env h s r s' E E' HF Ha He. apply bind_inv in E as (x & b1 & E & [= <- <-]).
  exact (sim_runs Hm _ _ _ F _ _ _ _ _ E E' HF Ha He).
Qed.

Lemma sim_pc_read e0 : sim e0 builder_pc_read (on_hart (mget pc)) xv no_exit.
Proof.
  split; [apply builder_pc_read_onward|]. intros b a b' F env h s r s' E E' HF Ha He. left.
  rewrite exec_pc in E'. injection E' as <- <-.
  pose proof (builder_pc_read_grows _ _ _ E) as L. destruct Ha as [Hb Hc Hr Hp Hq Hres Hok Hf].
  destruct (read_pc_runs xregisters_offset F _ _ _ env h _ E Hf HF Hp) as (env1 & G & S & Hv & Hu & Hp1 & D).
  exists env1, h. split; [split; [apply (lt_extends _ _ L) | exact G | exact S]|].
  split; [split; auto|split; [split; [exact Hv | exact Hu] | exact D]].
  - apply (lt_inv _ _ L Hb).
  - rewrite (lt_core _ _ L). eapply lookup_weaken; eassumption.
  - rewrite (lt_result _ _ L). eapply lookup_weaken; eassumption.
  - apply G.
Qed.

(** *** The upper half of a product *)
Lemma sim_isplit_high e0 v z : iv I128 e0 v z ->
  sim e0 (parts <- ir (isplit v) ;; let '(_, high) := parts in mret (mkX64 high)) (mret (wrap 64 (Z.shiftr z 64))) xv no_exit.
Proof.
  intros Hv. split; [grows|]. intros b a b' F env h s r s' E [= <- <-] HF Ha He. left.
  apply bind_inv in E as ([lo hi] & b1 & E & [= <- <-]). pose proof (ir_grows _ (isplit_grows _) _ _ _ E) as L.
  apply ir_inv in E as (E & _ & D & _). unfold isplit in E.
  apply bind_inv in E as (lo' & f1 & E1 & E). apply bind_inv in E as (hi' & f2 & E2 & [= -> -> ->]).
  pose proof (new_value_grows _ _ _ _ E1) as [X1 M1].
  assert (Hlo : lo = nvalues (fn_of b) /\ position f1 = position (fb b) /\ blocks (func f1) = blocks (fn_of b) /\ nvalues (func f1) = S lo).
  { injection E1 as <- <-. cbn. rewrite length_app. cbn. split; [reflexivity|]. split; [reflexivity|]. split; [reflexivity | lia]. }
  destruct Hlo as (Elo & P1 & B1 & N1).
  set (zlo := VInt I64 (wrap 64 z)). set (zhi := VInt I64 (wrap 64 (Z.shiftr z 64))).
  (* the run, as one instruction *)
  pose proof (ins_value_grows _ _ _ _ _ E2) as [X2 M2].
  unfold ins_value in E2. apply bind_inv in E2 as (hv & f3 & E3 & E2). apply bind_inv in E2 as ([] & f4 & E4 & [= -> ->]).
  pose proof (new_value_grows _ _ _ _ E3) as [X3 M3].
  assert (Hhi : hi = S lo /\ position f3 = position (fb b) /\ blocks (func f3) = blocks (fn_of b) /\ nvalues (func f3) = S (S lo)).
  { injection E3 as <- <-. cbn. rewrite length_app, N1. cbn. split; [reflexivity|]. split; [exact P1|]. split; [exact B1 | lia]. }
  destruct Hhi as (Ehi & P3 & B3 & N3). apply push_inst_emitted in E4 as E5.
  exists (<[hi := zhi]> (<[lo := zlo]> env)), h.
  assert (Hn1 : env !! lo = None) by (eapply fresh_none; [apply Ha | lia]).
  assert (Hn2 : (<[lo := zlo]> env) !! hi = None).
  { rewrite lookup_insert_ne by lia. eapply fresh_none; [apply Ha | lia]. }
  assert (S0 : env ⊆ <[hi := zhi]> (<[lo := zlo]> env)).
  { etransitivity; [apply insert_subseteq, Hn1 | apply insert_subseteq, Hn2]. }
  assert (Hh : forall e, here f3 e h = here (fb b) e h).
  { intros e. unfold here, index. rewrite P3, B3. reflexivity. }
  assert (Fl : follows F (fb b) env h (fb b1) (<[hi := zhi]> (<[lo := zlo]> env)) h).
  { split; [etransitivity; eassumption | | exact S0]. split.
    - exists 1%nat. split.
      + apply nsteps_one. rewrite <- Hh. eapply step_emitted; [exact E5 | exact HF | reflexivity|].
        cbn. rewrite (int_of_iv _ _ _ _ _ Hv He). reflexivity.
      + rewrite (em_size _ _ _ E5). apply extends_size in X1, X3. lia.
    - intros u Hu. rewrite !lookup_insert_ne by lia. reflexivity.
    - assert (N4 : nvalues (fn_of b1) = S (S lo)) by (rewrite (em_values _ _ _ E5); exact N3).
      apply fresh_insert; [apply fresh_insert|]; [|lia|lia]. eapply fresh_mono; [apply Ha|]. etransitivity; eassumption. }
  split; [exact Fl|]. split; [eapply agree_pure; eassumption|].
  split; [split; [apply lookup_insert_eq | apply wrap_range; cbn; lia] | rewrite D; reflexivity].
Qed.

(** A part of the code without a counterpart. *)
Lemma sim_bind_l {A A' B B'} e0 (m : M Builder A) (r1 : A') V1 k (m' : M Core B') V X :
  sim e0 m (mret r1) V1 no_exit -> (forall a, grows onward (k a : M Builder B)) ->
  (forall a e1, e0 ⊆ e1 -> V1 e1 a r1 -> sim e1 (k a) m' V X) -> sim e0 (mbind m k) m' V X.
Proof.
  intros Hm Hg Hk. split; [apply grows_bind; [typeclasses eauto | apply Hm | exact Hg]|].
  intros b a b' F env h s r s' E E' HF Ha He. apply bind_inv in E as (x & b1 & E1 & E2).
  pose proof (sim_onward Hm _ _ _ E1 (ag_inv _ _ _ _ Ha)) as L1.
  pose proof (Hg _ _ _ _ E2 (lt_inv _ _ L1 (ag_inv _ _ _ _ Ha))) as L2.
  assert (HF1 : extends (fn_of b1) F) by (etransitivity; [apply (lt_extends _ _ L2) | exact HF]).
  destruct (sim_runs Hm _ _ _ F _ _ _ _ _ E1 eq_refl HF1 Ha He) as [(env1 & h1 & F1 & A1 & V1' & D1)|(ex & [] & _)].
  destruct (sim_runs (Hk _ env1 ltac:(etransitivity; [exact He | apply F1]) V1') _ _ _ F _ _ _ _ _ E2 E' HF A1 ltac:(reflexivity))
      as [(env2 & h2 & F2 & A2 & V2' & D2)|(ex & X2' & Hl)].
  - left. exists env2, h2. split; [eapply follows_trans; eassumption|]. split; [exact A2|]. split; [exact V2' | congruence].
  - right. exists ex. split; [exact X2'|]. rewrite <- D1. eapply leaves_follows; eassumption.
Qed.

Lemma sim_extend_128 e0 x z (signed_ : bool) : xv e0 x z ->
  sim e0 (ir ((if signed_ then sextend else uextend) I128 (x64_val x)))
    (mret (if signed_ then wrap 128 (sext 64 z) else z)) (iv I128) no_exit.
Proof.
  intros Hx. destruct signed_.
  - eapply sim_value_id; [grows | intros b v b'; apply ir_ins_value | reflexivity | |].
    + intros F env h v He. cbn. rewrite (int_of_iv _ _ _ _ _ Hx He). reflexivity.
    + intros env v Hv. split; [exact Hv | apply wrap_range; cbn; lia].
  - eapply sim_value_id; [grows | intros b v b'; apply ir_ins_value | reflexivity | |].
    + intros F env h v He. cbn. rewrite (int_of_iv _ _ _ _ _ Hx He). reflexivity.
    + intros env v Hv. split; [exact Hv|]. destruct Hx as [_ Hx]. unfold urange in *. cbn in *. lia.
Qed.

Lemma sim_mul_128 e0 u v p q : iv I128 e0 u p -> iv I128 e0 v q ->
  sim e0 (result <- ir (binary Imul u v) ;; parts <- ir (isplit result) ;;
          let '(_low, high) := parts in mret (mkX64 high))
    (mret (wrap 64 (Z.shiftr (wrap 128 (p * q)) 64))) xv no_exit.
Proof.
  intros Hu Hv. eapply (sim_bind_l _ _ (wrap 128 (p * q)) (iv I128)); [|intros; grows|].
  - eapply sim_value_id; [grows | intros b w b'; apply ir_binary_inv | reflexivity | |].
    + intros F env h w He. cbn. rewrite (int_of_iv _ _ _ _ _ Hu He), (int_of_iv _ _ _ _ _ Hv He). reflexivity.
    + intros env w Hw. split; [exact Hw | apply wrap_range; cbn; lia].
  - intros w e1 S Hw. apply sim_isplit_high, Hw.
Qed.

Lemma sim_mul_high e0 x y p q t : xv e0 x p -> xv e0 y q ->
  sim e0 (builder_mul_high x y t) (mret (mul_high_u128 p q t)) xv no_exit.
Proof.
  intros Hx Hy.
  assert (Hgen : forall sx sy : bool, sim e0
    (u <- ir ((if sx then sextend else uextend) I128 (x64_val x)) ;;
     v <- ir ((if sy then sextend else uextend) I128 (x64_val y)) ;;
     result <- ir (binary Imul u v) ;; parts <- ir (isplit result) ;; let '(_low, high) := parts in mret (mkX64 high))
    (mret (wrap 64 (Z.shiftr (wrap 128 ((if sx then wrap 128 (sext 64 p) else p) * (if sy then wrap 128 (sext 64 q) else q))) 64)))
    xv no_exit).
  { intros sx sy. eapply sim_bind_l; [apply sim_extend_128, Hx | intros; destruct sy; grows|].
    intros u e1 S1 Hu. eapply sim_bind_l; [apply sim_extend_128; eapply mono; [exact S1 | exact Hy] | intros; grows|].
    intros v e2 S2 Hv. apply sim_mul_128; [eapply mono; eassumption | exact Hv]. }
  assert (Heq : forall sx sy : bool, forall V X (m' : M Core Z),
    sim e0 (u <- ir ((if sx then sextend else uextend) I128 (x64_val x)) ;;
     v <- ir ((if sy then sextend else uextend) I128 (x64_val y)) ;;
     result <- ir (binary Imul u v) ;; parts <- ir (isplit result) ;; let '(_low, high) := parts in mret (mkX64 high)) m' V X ->
    sim e0 (operands <- (lhs <- ir ((if sx then sextend else uextend) I128 (x64_val x)) ;;
              rhs <- ir ((if sy then sextend else uextend) I128 (x64_val y)) ;; mret (lhs, rhs)) ;;
            let '(lhs, rhs) := operands in
            result <- ir (binary Imul lhs rhs) ;; parts <- ir (isplit result) ;; let '(_low, high) := parts in mret (mkX64 high)) m' V X).
  { intros sx sy V X m' [G R]. split; [destruct sx, sy; grows|]. intros b a b' F env h s r s' E. apply R. rewrite <- E.
    rewrite bind_assoc. apply bind_ext. intros u b1. rewrite bind_assoc. reflexivity. }
  destruct t; [apply (Heq true true), (Hgen true true) | apply (Heq false false), (Hgen false false) | apply (Heq true false), (Hgen true false)].
Qed.

(** *** Accesses that do not fail *)
Lemma sim_emit {A A'} e0 (m : nat -> M Emitter A) (m' : M Core A') V : (forall core, grows em_later (m core)) ->
  (forall F b e' env h s r s' a, m (core_ptr_val b) (emitter b) = Some (a, e') -> m' s = Some (r, s') ->
     extends (func (builder e')) F -> agree b env h s -> e0 ⊆ env ->
     exists env' h', follows F (fb b) env h (builder e') env' h' /\ V env' a r /\ pc (hart s') = pc (hart s) /\
       (exists q, js_core h' = with_hart (with_pc q (hart s')) s') /\ js_result h' = js_result h /\ core_ok s') ->
  sim e0 (core <- mget core_ptr_val ;; emit (m core)) m' V no_exit.
Proof.
  intros Hg Hm.
  assert (Hgl : grows later (core <- mget core_ptr_val ;; emit (m core))).
  { apply grows_bind; [typeclasses eauto | apply grows_get; typeclasses eauto | intros; apply emit_grows, Hg]. }
  split; [apply onward_of_later, Hgl|]. intros b a b' F env h s r s' E E' HF Ha He. left. pose proof (Hgl _ _ _ E) as L.
  apply bind_inv in E as (c & b0 & [= <- <-] & E). apply emit_inv in E as (E & _ & D & _).
  destruct (Hm F b _ _ _ _ _ _ _ E E' HF Ha He) as (env' & h' & Fl & Hv & Hp & Hq & Hr & Hok).
  exists env', h'. split; [exact Fl|]. split; [|split; [exact Hv | rewrite D; reflexivity]].
  eapply agree_follows; try eassumption. rewrite Hr. apply Ha.
Qed.

Context `{Acc : JitStateAccess} `{!AccessLaws xregisters_offset (H0 := Acc)}.

Lemma sim_read_nz e0 r : sim e0 (builder_xregister_read_nz r) (on_hart (hart_read_nz r)) xv no_exit.
Proof.
  apply sim_emit; [intros; apply (xreg_read_grows xregisters_offset)|].
  intros F b e' env h s z s' a E E' HF Ha He. rewrite exec_read_nz in E' by apply Ha. injection E' as <- <-.
  destruct (ag_core _ _ _ _ Ha) as [q Hq].
  destruct (xreg_read_follows xregisters_offset F _ _ _ _ _ env h (getx (xreg_of_nz r) s) E (proj1 (ag_inv _ _ _ _ Ha)) (ag_fresh _ _ _ _ Ha) HF)
    as (env' & Fl & Hv).
  - apply Ha.
  - rewrite Hq. cbn. rewrite xregisters_read_nz_eq. apply getx_some, Ha.
  - exists env', h. split; [exact Fl|]. split; [split; [exact Hv | apply getx_range, Ha]|]. split; [reflexivity|].
    split; [eauto|]. split; [reflexivity | apply Ha].
Qed.

Lemma sim_write_nz e0 r x z : xv e0 x z -> sim e0 (builder_xregister_write_nz r x) (on_hart (hart_write_nz r z)) uv no_exit.
Proof.
  intros [Hx Hr]. apply (sim_emit _ (fun core => ir_xreg_write core r x)); [intros; apply (xreg_write_grows xregisters_offset)|].
  intros F b e' env h s [] s' [] E E' HF Ha He. rewrite exec_write_nz in E' by apply Ha. injection E' as <-.
  destruct (ag_core _ _ _ _ Ha) as [q Hq].
  destruct (xreg_write_follows xregisters_offset F _ _ _ _ _ _ env h z (xregisters (hart (setx (xreg_of_nz r) z s))) E
    (proj1 (ag_inv _ _ _ _ Ha)) (ag_fresh _ _ _ _ Ha) HF) as (env' & Fl).
  - apply Ha.
  - eapply lookup_weaken; eassumption.
  - rewrite Hq. cbn [hart with_hart with_pc xregisters]. rewrite xregisters_write_nz_eq. apply setx_some, Ha.
  - exists env'. eexists. split; [exact Fl|]. split; [reflexivity|]. split; [reflexivity|].
    split; [|split; [reflexivity | apply setx_ok; [apply Ha | exact Hr]]]. exists q. cbn. rewrite Hq. reflexivity.
Qed.

Lemma jsa_call_follows F fn core args vals e vs e' env h ret h' : jsa_invoke fn (core :: args) e = Some (vs, e') ->
  calls_ok e -> fresh env (builder e) -> extends (func (builder e')) F -> env !! core = Some (VPtr PCore) ->
  mapM (fun v => env !! v) args = Some vals ->
  jit_call fn (VPtr PCore :: vals) h = Some (ret, h') -> (is_Some ret <-> is_Some (snd (jsa_signature fn))) ->
  exists env', follows F (builder e) env h (builder e') env' h' /\
    match ret with Some u => exists v, vs = [v] /\ env' !! v = Some u | None => vs = [] end.
Proof.
  intros Hi Hk Hf Hx Hc Ha Hj Hs. eapply jsa_invoke_follows; try eassumption. cbn. rewrite Hc. cbn. rewrite Ha. reflexivity.
Qed.

Lemma sim_reservation_write e0 x z : xv e0 x z ->
  sim e0 (builder_reservation_set_write x) (on_hart (mput (with_start_addr z))) uv no_exit.
Proof.
  intros [Hx Hr]. apply (sim_emit _ (fun core => jsa_reservation_set_write core x)); [intros; apply jsa_reservation_set_write_grows|].
  intros F b e' env h s [] s' [] E E' HF Ha He. injection E' as <-. destruct (ag_core _ _ _ _ Ha) as [q Hq].
  apply bind_inv in E as (vs & e1 & E & [= ->]).
  destruct (jsa_call_follows F _ _ [x64_val x] [VInt I64 z] _ _ _ env h None
    (mkJitState (with_hart (with_start_addr z (hart (js_core h))) (js_core h)) (js_result h) (js_slots h)) E
    (proj1 (ag_inv _ _ _ _ Ha)) (ag_fresh _ _ _ _ Ha) HF) as (env' & Fl & _).
  - apply Ha.
  - cbn. rewrite (lookup_weaken _ _ _ _ Hx He). reflexivity.
  - reflexivity.
  - cbn. split; intros [? [=]].
  - exists env'. eexists. split; [exact Fl|]. split; [reflexivity|]. split; [reflexivity|].
    split; [exists q; cbn; rewrite Hq; reflexivity|]. split; [reflexivity|].
    apply (set_reservation_ok s z); [apply Ha | exact Hr].
Qed.

Lemma sim_reservation_read e0 : sim e0 builder_reservation_set_read (on_hart (mget start_addr)) xv no_exit.
Proof.
  apply (sim_emit _ jsa_reservation_set_read); [intros; apply jsa_reservation_set_read_grows|].
  intros F b e' env h s z s' a E E' HF Ha He.
  assert (Hz : z = start_addr (hart s) /\ s' = s).
  { destruct s as [[] ]. cbn in E'. injection E' as <- <-. auto. }
  destruct Hz as [-> ->]. clear E'. destruct (ag_core _ _ _ _ Ha) as [q Hq].
  apply bind_inv in E as (v & e1 & E & [= <- ->]). apply first_result_inv in E as (vs & E & Hvs).
  destruct (jsa_call_follows F _ _ [] [] _ _ _ env h (Some (VInt I64 (start_addr (hart s)))) h E
    (proj1 (ag_inv _ _ _ _ Ha)) (ag_fresh _ _ _ _ Ha) HF) as (env' & Fl & u & -> & Hu).
  - apply Ha.
  - reflexivity.
  - cbn. unfold mbind, on_js_core. destruct h as [[[] ] ? ?]. cbn in *. injection Hq as -> -> -> -> -> ->. reflexivity.
  - cbn. split; eauto.
  - injection Hvs as ->. exists env', h. split; [exact Fl|]. split; [split; [exact Hu | apply Ha]|]. split; [reflexivity|].
    split; [eauto|]. split; [reflexivity | apply Ha].
Qed.

(** *** Branches *)
Lemma sim_branch e0 v c offset w : bv e0 v c ->
  sim e0 (builder_branch v offset w) (core_branch c offset w) pcv pcu_exit.
Proof.
  intros Hv. split.
  - unfold builder_branch. apply grows_bind; [typeclasses eauto | | intros; apply grows_ret; typeclasses eauto].
    intros b t b' E Hb. apply (exit_on_branch_spec xregisters_offset _ _ _ _ _ E Hb).
  - intros b u b' F env h s r s' E E' HF Ha He. apply bind_inv in E as ([] & b1 & E & [= <- <-]).
    destruct (exit_on_branch_spec xregisters_offset _ _ _ _ _ E (ag_inv _ _ _ _ Ha)) as (L & D & Hrun).
    destruct (Hrun F env h (if c then 1 else 0) I8 HF (ag_fresh _ _ _ _ Ha) (lookup_weaken _ _ _ _ Hv He) (ag_core_ptr _ _ _ _ Ha)) as [Hstay Hleave].
    unfold core_branch in E'. destruct c.
    + right. apply bind_inv in E' as (p & s1 & E' & [= <- <-]). rewrite exec_pc in E'. injection E' as <- <-.
      exists (ExJump (wrap 64 (pc (hart s) + wrap 64 offset))). split; [reflexivity|]. destruct (ag_pc _ _ _ _ Ha) as (z & Hz & Hr & Hp). destruct (ag_core _ _ _ _ Ha) as [q Hq].
      destruct (Hleave ltac:(lia) (wrap 64 (pc (hart s) + wrap 64 offset))) as (n & Hn & Hb).
      * exists z. split; [exact Hz|]. split; [exact Hr|]. cbn. rewrite <- Hp, wrap_add_wrap, wrap_wrap_add.
        rewrite <- (wrap_add_wrap 64 z), wrap_sext, wrap_add_wrap, Z.add_assoc by lia. reflexivity.
      * exists n. eexists _, _. split; [exact Hn|]. split; [exact Hb|]. cbn. rewrite Hq. split; [reflexivity|].
        split; [reflexivity | apply Ha].
    + injection E' as <- <-. left. specialize (Hstay eq_refl). exists env, h.
      assert (Fl : follows F (fb b) env h (fb b1) env h) by (split; [apply (lt_extends _ _ L) | exact Hstay | reflexivity]).
      split; [exact Fl|]. split; [eapply agree_pure; eassumption|]. split; [reflexivity | rewrite D; reflexivity].
Qed.

(** *** Memory *)
Lemma extern_store_eq V za zv q s r s' core : core_ok s -> urange 64 za -> core = with_hart (with_pc q (hart s)) s ->
  core_main_memory_store V za zv s = Some (r, s') ->
  exists err exc, extern_memory_store (unsigned_of V) za (wrap (bits_of V) zv) core =
      Some ((err, exc), with_hart (with_pc q (hart s')) s') /\
    core_ok s' /\ pc (hart s') = pc (hart s) /\
    match r with Ok _ => err = false | Err e => err = true /\ exc = Some e /\ s' = s end.
Proof.
  intros Hok Ha -> E. unfold core_main_memory_store, from_xvalue in E.
  pose proof (bits_of_pos V) as Hbits.
  assert (Ew : mem_write V za (cast_to V zv) (main_memory s) = mem_write (unsigned_of V) za (wrap (bits_of V) zv) (main_memory s)).
  { unfold unsigned_of. rewrite mem_write_sign. apply mem_write_cast. unfold cast_to.
    destruct (SIGNED V); [rewrite wrap_sext, wrap_wrap by lia|]; reflexivity. }
  destruct (mem_write_total (unsigned_of V) za (wrap (bits_of V) zv) _ (ok_memory _ Hok) Ha) as (r0 & m' & Er & Hm & Hs).
  apply bind_inv in E as (r1 & s1 & E & [= <- <-]). unfold on_memory in E. rewrite Ew, Er in E. injection E as <- <-.
  unfold extern_memory_store, mbind, on_memory. cbn [main_memory with_hart hart]. rewrite Er.
  destruct r0 as [[]|[]].
  - exists false, None. split; [reflexivity|]. split; [apply with_memory_ok; assumption|]. split; reflexivity.
  - exists true, (Some (StoreAMOAccessFault za)). split; [reflexivity|]. rewrite Hs by reflexivity.
    split; [apply with_memory_ok; [exact Hok | apply Hok]|]. split; [reflexivity|]. split; [reflexivity|]. split; [reflexivity|].
    destruct s; reflexivity.
Qed.

Lemma jsa_memory_store_on_ok V c a v e o e' : jsa_memory_store V c a v e = Some (o, e') -> on_ok o = mret tt.
Proof.
  unfold jsa_memory_store. intros Hm. apply bind_inv in Hm as (f & e1 & _ & Hm). apply bind_inv in Hm as (ep & e2 & _ & Hm).
  apply bind_inv in Hm as (w & e3 & _ & Hm). apply bind_inv in Hm as (er & e4 & _ & [= <- _]). reflexivity.
Qed.

Lemma sim_store V e0 a v za zv : xv e0 a za -> xv e0 v zv ->
  sim e0 (builder_main_memory_store V a v) (core_main_memory_store V za zv) (rv uv) err_exit.
Proof.
  intros [Ha Hra] [Hv Hrv].
  assert (Hinv : forall b t b', builder_main_memory_store V a v b = Some (t, b') -> exists o e1,
    jsa_memory_store V (core_ptr_val b) a v (emitter b) = Some (o, e1) /\ t = Some tt /\ on_ok o = mret tt /\
    emit (jsa_memory_store V (core_ptr_val b) a v) b = Some (o, mkBuilder e1 (core_ptr_val b) (dynamic b) (end_block b) (result_ptr_val b)) /\
    errno_handle o (mkBuilder e1 (core_ptr_val b) (dynamic b) (end_block b) (result_ptr_val b)) = Some (tt, b')).
  { unfold builder_main_memory_store. intros b t b' E. apply bind_inv in E as (c & b0 & [= <- <-] & E).
    apply bind_inv in E as (o & b1 & E1 & E). apply bind_inv in E as ([] & b2 & E2 & [= <- <-]).
    assert (E1' := E1). unfold emit in E1'. destruct (jsa_memory_store _ _ _ _ (emitter b)) as [[o' e1]|] eqn:Em; [|discriminate].
    injection E1' as <- <-. exists o', e1. split; [reflexivity|]. split; [reflexivity|].
    split; [eapply jsa_memory_store_on_ok, Em|]. auto. }
  split.
  - intros b t b' E Hb. destruct (Hinv _ _ _ E) as (o & e1 & _ & _ & Ho & E1 & E2).
    pose proof (emit_grows _ (jsa_memory_store_grows _ _ _ _) _ _ _ E1) as L1.
    destruct (errno_handle_spec xregisters_offset o _ _ _ E2 (lt_inv _ _ L1 Hb)) as (b1 & Hb1 & L2 & _).
    { rewrite Ho. apply grows_ret; typeclasses eauto. }
    rewrite Ho, ir_mret in Hb1. injection Hb1 as <-. etransitivity; eassumption.
  - intros b t b' F env h s r s' E E' HF Ag He. destruct (Hinv _ _ _ E) as (o & e1 & Em & -> & Ho & E1 & E2).
    set (b0 := mkBuilder e1 _ _ _ _) in *. pose proof (emit_grows _ (jsa_memory_store_grows _ _ _ _) _ _ _ E1) as L1.
    destruct (errno_handle_spec xregisters_offset o _ _ _ E2 (lt_inv _ _ L1 (ag_inv _ _ _ _ Ag))) as (b1 & Hb1 & L2 & D2 & Hrun).
    { rewrite Ho. apply grows_ret; typeclasses eauto. }
    rewrite Ho, ir_mret in Hb1. injection Hb1 as ->. destruct (ag_core _ _ _ _ Ag) as [q Hq].
    destruct (extern_store_eq V za zv q s r s' _ (ag_ok _ _ _ _ Ag) Hra Hq E') as (err & exc & Hx & Hok' & Hp' & Hr).
    destruct (jsa_memory_store_follows xregisters_offset F V _ a v _ _ _ env h za zv err exc
      (with_hart (with_pc q (hart s')) s') Em (proj1 (ag_inv _ _ _ _ Ag))
      (ag_fresh _ _ _ _ Ag)) as (env1 & h1 & slot & F1 & Her & Hep & Hlt & Hc1 & Hr1 & Hexc).
    + etransitivity; [apply (lt_extends _ _ L2) | exact HF].
    + apply Ag.
    + eapply lookup_weaken; eassumption.
    + eapply lookup_weaken; eassumption.
    + exact Hrv.
    + exact Hx.
    + assert (Ag1 : agree b0 env1 h1 s').
      { eapply agree_follows; [exact Ag | exact L1 | exact F1 | reflexivity | exact Hp' | eauto | | exact Hok'].
        rewrite Hr1. apply Ag. }
      destruct (Hrun F env1 h1 s' (if err then 1 else 0) I8 HF Ag1 Her) as [Hgo Herr].
      destruct r as [[]|e].
      * subst err. left. specialize (Hgo eq_refl). exists env1, h1. split; [eapply follows_trans; [exact F1 | exact Hgo]|].
        split; [eapply agree_pure; eassumption|]. split; [reflexivity | rewrite D2; reflexivity].
      * destruct Hr as (-> & Hexc1 & ->). right. exists (ExRaise e). split; [reflexivity|].
        eapply leaves_follows; [exact F1|]. apply (Herr ltac:(lia) slot e Hep Hlt). apply Hexc, Hexc1.
Qed.

Lemma cast_to_range V z : cast_to V z = z -> if SIGNED V then srange (bits_of V) z else urange (bits_of V) z.
Proof.
  intros E. pose proof (bits_of_pos V). unfold cast_to in E. rewrite <- E.
  destruct (SIGNED V); [apply sext_range | apply wrap_range]; lia.
Qed.

(** The extension of a loaded value. *)
Lemma load_on_ok_follows F V xptr xs b x b' env h z :
  ir (xval <- load (IR_TYPE V) xptr 0 ;;
      xval <- (if decide (IR_TYPE V = I64) then mret xval
               else if SIGNED V then sextend I64 xval else uextend I64 xval) ;;
      mret (mkX64 xval)) b = Some (x, b') -> fresh env (fb b) -> extends (fn_of b') F ->
  env !! xptr = Some (VPtr (PSlot xs)) -> js_slots h !! xs = Some (loaded V z) -> cast_to V z = z ->
  exists env', follows F (fb b) env h (fb b') env' h /\ env' !! x64_val x = Some (VInt I64 (wrap 64 z)).
Proof.
  intros E Hf HF Hp Hc Hz. apply ir_inv in E as (E & _). apply bind_inv in E as (v & f1 & E1 & E).
  apply bind_inv in E as (w & f2 & E2 & [= <- ->]). cbn [x64_val].
  pose proof (bits_of_pos V) as Hbits. pose proof (cast_to_range V z Hz) as Hrz.
  assert (G2 : extends (func f1) (fn_of b')).
  { destruct (decide _); [injection E2 as _ <-; reflexivity|]. destruct (SIGNED V).
    - apply (sextend_grows _ _ _ _ _ E2).
    - apply (uextend_grows _ _ _ _ _ E2). }
  assert (F1 : follows F (fb b) env h f1 (<[v := VInt (IR_TYPE V) (wrap (bits_of V) z)]> env) h).
  { eapply value_follows; [exact E1 | exact Hf | etransitivity; eassumption | reflexivity|].
    cbn. unfold pointer. rewrite Hp. cbn. rewrite Hc. cbn. rewrite decide_True by auto. reflexivity. }
  set (env1 := <[v := _]> env) in *.
  assert (Hv : int_of env1 v = Some (IR_TYPE V, wrap (bits_of V) z)) by (unfold int_of, env1; rewrite lookup_insert_eq; reflexivity).
  destruct (decide (IR_TYPE V = I64)) as [E64|_].
  - injection E2 as <- <-. exists env1. split; [exact F1|]. unfold env1. rewrite lookup_insert_eq, E64.
    replace (bits_of V) with 64 by (rewrite <- ir_type_bits, E64; reflexivity). reflexivity.
  - assert (Hx : exists x0, x0 = VInt I64 (wrap 64 z) /\ follows F f1 env1 h (fb b') (<[w := x0]> env1) h).
    { destruct (SIGNED V).
      - eexists. split; [|eapply value_follows; [exact E2 | exact (follows_fresh _ _ _ _ _ _ _ _ F1) | exact HF | reflexivity|]].
        2: { cbn. rewrite Hv. cbn. reflexivity. }
        rewrite ir_type_bits, sext_wrap, sext_small by (lia || exact Hrz). reflexivity.
      - eexists. split; [|eapply value_follows; [exact E2 | exact (follows_fresh _ _ _ _ _ _ _ _ F1) | exact HF | reflexivity|]].
        2: { cbn. rewrite Hv. cbn. reflexivity. }
        rewrite !wrap_small; [reflexivity | | exact Hrz]. unfold urange in *.
        pose proof (Z.pow_le_mono_r 2 (bits_of V) 64 ltac:(lia) ltac:(lia)). lia. }
    destruct Hx as (x0 & -> & F2). exists (<[w := VInt I64 (wrap 64 z)]> env1).
    split; [eapply follows_trans; eassumption | apply lookup_insert_eq].
Qed.

Lemma extern_load_eq V za q s r s' core : core_ok s -> urange 64 za -> core = with_hart (with_pc q (hart s)) s ->
  core_main_memory_load V za s = Some (r, s') -> s' = s /\
  exists err val exc, extern_memory_load V za core = Some ((err, val, exc), core) /\
    match r with
    | Ok z => exists v, err = false /\ val = Some v /\ exc = None /\ cast_to V v = v /\ z = wrap 64 v
    | Err e => err = true /\ exc = Some e
    end.
Proof.
  intros Hok Ha -> E. destruct (mem_read_total V za _ (ok_memory _ Hok) Ha) as (r0 & Er & Hr).
  apply bind_inv in E as (r1 & s1 & E & [= <- <-]). unfold on_memory in E. rewrite Er in E. injection E as <- <-.
  split; [destruct s; reflexivity|]. unfold extern_memory_load, mbind, on_memory. cbn [main_memory with_hart hart]. rewrite Er.
  destruct r0 as [v|[]].
  - exists false, (Some v), None. split; [reflexivity|]. exists v. cbn. pose proof (Hr v eq_refl). auto.
  - exists true, None, (Some (LoadAccessFault za)). split; [reflexivity|]. split; reflexivity.
Qed.

Lemma sim_load V e0 a za : xv e0 a za ->
  sim e0 (builder_main_memory_load V a) (core_main_memory_load V za) (rv xv) err_exit.
Proof.
  intros [Ha Hra].
  assert (Hinv : forall b t b', builder_main_memory_load V a b = Some (t, b') -> exists o e1 x,
    jsa_memory_load V (core_ptr_val b) a (emitter b) = Some (o, e1) /\ t = Some x /\
    emit (jsa_memory_load V (core_ptr_val b) a) b = Some (o, mkBuilder e1 (core_ptr_val b) (dynamic b) (end_block b) (result_ptr_val b)) /\
    errno_handle o (mkBuilder e1 (core_ptr_val b) (dynamic b) (end_block b) (result_ptr_val b)) = Some (x, b') /\
    grows fb_extends (on_ok o)).
  { unfold builder_main_memory_load. intros b t b' E. apply bind_inv in E as (c & b0 & [= <- <-] & E).
    apply bind_inv in E as (o & b1 & E1 & E). apply bind_inv in E as (x & b2 & E2 & [= <- <-]).
    assert (E1' := E1). unfold emit in E1'. destruct (jsa_memory_load _ _ _ (emitter b)) as [[o' e1]|] eqn:Em; [|discriminate].
    injection E1' as <- <-. exists o', e1, x. split; [reflexivity|]. split; [reflexivity|]. split; [exact E1|]. split; [exact E2|].
    clear E1 E2. unfold jsa_memory_load in Em. apply bind_inv in Em as (ep & f1 & _ & Em). apply bind_inv in Em as (xs & f2 & _ & Em).
    apply bind_inv in Em as (xp & f3 & _ & Em). apply bind_inv in Em as (f & f4 & _ & Em). apply bind_inv in Em as (er & f5 & _ & [= <- _]).
    cbn. grows. }
  split.
  - intros b t b' E Hb. destruct (Hinv _ _ _ E) as (o & e1 & x & _ & _ & E1 & E2 & Ho).
    pose proof (emit_grows _ (jsa_memory_load_grows _ _ _) _ _ _ E1) as L1.
    destruct (errno_handle_spec xregisters_offset o _ _ _ E2 (lt_inv _ _ L1 Hb) Ho) as (b1 & Hb1 & L2 & _).
    etransitivity; [exact L1|]. etransitivity; [exact L2|]. eapply ir_grows; eassumption.
  - intros b t b' F env h s r s' E E' HF Ag He. destruct (Hinv _ _ _ E) as (o & e1 & x & Em & -> & E1 & E2 & Ho).
    set (b0 := mkBuilder e1 _ _ _ _) in *. pose proof (emit_grows _ (jsa_memory_load_grows _ _ _) _ _ _ E1) as L1.
    destruct (errno_handle_spec xregisters_offset o _ _ _ E2 (lt_inv _ _ L1 (ag_inv _ _ _ _ Ag)) Ho) as (b1 & Hb1 & L2 & D2 & Hrun).
    pose proof (ir_grows _ Ho _ _ _ Hb1) as L3. destruct (ag_core _ _ _ _ Ag) as [q Hq].
    destruct (extern_load_eq V za q s r s' _ (ag_ok _ _ _ _ Ag) Hra Hq E') as (-> & err & val & exc & Hx & Hr).
    destruct (jsa_memory_load_follows xregisters_offset F V _ a _ _ _ env h za err val exc (js_core h) Em (proj1 (ag_inv _ _ _ _ Ag))
      (ag_fresh _ _ _ _ Ag)) as (env1 & h1 & slot & xp & xs & F1 & Her & Hep & Hlt & Hc1 & Hr1 & Hexc & Hxp & Hxs & Hon).
    + etransitivity; [apply (lt_extends _ _ L2)|]. etransitivity; [apply (lt_extends _ _ L3) | exact HF].
    + apply Ag.
    + eapply lookup_weaken; eassumption.
    + exact Hx.
    + assert (Ag1 : agree b0 env1 h1 s).
      { eapply agree_follows; [exact Ag | exact L1 | exact F1 | reflexivity | reflexivity | | | apply Ag].
        - exists q. congruence.
        - rewrite Hr1. apply Ag. }
      destruct (Hrun F env1 h1 s (if err then 1 else 0) I8 HF Ag1 Her) as [Hgo Herr].
      destruct r as [z|e].
      * destruct Hr as (v & -> & -> & -> & Hcast & ->). left. specialize (Hgo eq_refl). rewrite Hon in Hb1.
        destruct (load_on_ok_follows F V xp xs _ _ _ env1 h1 v Hb1 (follows_fresh _ _ _ _ _ _ _ _ Hgo) HF Hxp (Hxs v eq_refl eq_refl) Hcast)
          as (env2 & F2 & Hv).
        pose proof (follows_trans _ _ _ _ _ _ _ _ _ _ _ Hgo F2) as F02.
        assert (D3 : dynamic b' = dynamic b0).
        { apply ir_inv in Hb1 as (_ & _ & D3 & _). congruence. }
        exists env2, h1. split; [eapply follows_trans; [exact F1 | exact F02]|].
        split; [eapply agree_pure; [exact Ag1 | etransitivity; eassumption | exact F02 | exact D3]|].
        split; [|rewrite D3; reflexivity]. split; [exact Hv | apply wrap_range; cbn; lia].
      * destruct Hr as (-> & ->). right. exists (ExRaise e). split; [reflexivity|].
        eapply leaves_follows; [exact F1|]. apply (Herr ltac:(lia) slot e Hep Hlt). apply Hexc. reflexivity.
Qed.

(** *** Raised exceptions *)
Lemma sim_raise {A A'} e0 (m : nat -> M Emitter nat) ex (a : A) (r : A') (V : gmap nat Val -> A -> A' -> Prop) (X : A' -> Exit -> Prop) :
  (forall core, grows em_later (m core)) -> X r (ExRaise ex) ->
  (forall F b v e' env h, m (core_ptr_val b) (emitter b) = Some (v, e') -> extends (func (builder e')) F -> forall s, agree b env h s ->
     exists env' slot, follows F (fb b) env h (builder e') env' (set_slot slot (CellException ex) h) /\
       exception_at (set_slot slot (CellException ex) h) env' v ex (builder e')) ->
  sim e0 (core <- mget core_ptr_val ;; ptr <- emit (m core) ;; builder_handle_exception ptr ;;; mret a) (mret r) V X.
Proof.
  intros Hg HX Hm. split.
  - apply grows_bind; [typeclasses eauto | apply grows_get; typeclasses eauto | intros core].
    apply grows_bind; [typeclasses eauto | apply onward_of_later, emit_grows, Hg | intros ptr].
    apply grows_bind; [typeclasses eauto | apply (builder_handle_exception_onward xregisters_offset) | intros; apply grows_ret; typeclasses eauto].
  - intros b x b' F env h s r1 s' E [= <- <-] HF Ha He. right. exists (ExRaise ex). split; [exact HX|].
    apply bind_inv in E as (c & b0 & [= <- <-] & E). apply bind_inv in E as (v & b1 & E1 & E).
    apply bind_inv in E as (t & b2 & E2 & [= _ <-]). pose proof (emit_grows _ (Hg _) _ _ _ E1) as L1.
    destruct (builder_handle_exception_spec xregisters_offset _ _ _ _ E2 (lt_inv _ _ L1 (ag_inv _ _ _ _ Ha))) as [L2 Hl].
    apply emit_inv in E1 as (E1 & _ & D1 & _).
    destruct (Hm F b v _ env h E1 ltac:(etransitivity; [apply (lt_extends _ _ L2) | exact HF]) s Ha) as (env1 & slot & F1 & (sl & Hs & Hlt & Hc)).
    eapply leaves_follows; [exact F1|]. rewrite <- D1. eapply Hl; [exact HF | | exact Hs | exact Hlt | exact Hc].
    eapply agree_follows; [exact Ha | exact L1 | exact F1 | exact D1 | reflexivity | apply Ha | apply Ha | apply Ha].
Qed.

Lemma sim_illegal {A B} e0 (V : gmap nat Val -> option A -> result B Exception -> Prop) (X : result B Exception -> Exit -> Prop) :
  X (Err IllegalInstruction) (ExRaise IllegalInstruction) ->
  sim e0 (builder_err_illegal_instruction (A := A)) (mret (Err IllegalInstruction)) V X.
Proof.
  intros HX. apply (sim_raise e0 (fun _ => jsa_raise_illegal_instruction_exception) IllegalInstruction); [intros; apply jsa_raise_illegal_grows | exact HX |].
  intros F b v e' env h E HF s Ha.
  apply (raise_follows xregisters_offset F _ (fun p => [p]) (fun slot => [VPtr (PSlot slot)]) _ _ _ _ _ IllegalInstruction E); [apply Ha | apply Ha | exact HF | | reflexivity | reflexivity].
  intros env' p slot _ Hp. cbn. rewrite Hp. reflexivity.
Qed.

Lemma sim_ecall e0 (V : gmap nat Val -> option (ProgramCounterUpdate X64) -> result (ProgramCounterUpdate Z) Exception -> Prop) X : X (Err EnvCall) (ExRaise EnvCall) ->
  sim e0 builder_ecall (mret (Err EnvCall)) V X.
Proof.
  intros HX. apply (sim_raise e0 jsa_ecall EnvCall); [intros; apply jsa_ecall_grows | exact HX |].
  intros F b v e' env h E HF s Ha.
  apply (raise_follows xregisters_offset F _ (fun p => [core_ptr_val b; p]) (fun slot => [VPtr PCore; VPtr (PSlot slot)]) _ _ _ _ _ EnvCall E); [apply Ha | apply Ha | exact HF | | | reflexivity].
  - intros env' p slot S Hp. cbn. rewrite (lookup_weaken _ _ _ _ (ag_core_ptr _ _ _ _ Ha) S), Hp. reflexivity.
  - intros slot. cbn. destruct h; reflexivity.
Qed.

(** *** The guard of atomic accesses *)
Definition guard_body (address : nat) (option_ : ReservationSetOption) : M Builder unit :=
  exception_ptr <- emit (jsa_raise_store_amo_access_fault_exception address) ;;
  (match option_ with Reset => builder_reset_reservation_set | NoReset => mret tt end) ;;;
  builder_handle_exception exception_ptr.
Definition guard_state (option_ : ReservationSetOption) s : Core :=
  match option_ with Reset => set_reservation UNSET_VALUE s | NoReset => s end.

Lemma builder_reset_later : grows later builder_reset_reservation_set.
Proof.
  unfold builder_reset_reservation_set, builder_xvalue_of_imm, builder_reservation_set_write.
  apply grows_bind; [typeclasses eauto | grows | intros u].
  apply grows_bind; [typeclasses eauto | grows | intros core]. apply emit_grows, jsa_reservation_set_write_grows.
Qed.
Lemma guard_body_onward a o : grows onward (guard_body a o).
Proof.
  unfold guard_body. apply grows_bind; [typeclasses eauto | apply onward_of_later, emit_grows, jsa_raise_amo_grows | intros p].
  apply grows_bind; [typeclasses eauto | | intros; apply (builder_handle_exception_onward xregisters_offset)].
  destruct o; [apply grows_ret; typeclasses eauto | apply onward_of_later, builder_reset_later].
Qed.

Lemma reset_follows F b t b' env h : builder_reset_reservation_set b = Some (t, b') ->
  calls_ok (emitter b) -> fresh env (fb b) -> extends (fn_of b') F -> env !! core_ptr_val b = Some (VPtr PCore) ->
  exists env', follows F (fb b) env h (fb b') env'
    (mkJitState (with_hart (with_start_addr UNSET_VALUE (hart (js_core h))) (js_core h)) (js_result h) (js_slots h)) /\
    dynamic b' = dynamic b.
Proof.
  unfold builder_reset_reservation_set, builder_xvalue_of_imm, builder_reservation_set_write. intros E Hk Hf HF Hc.
  apply bind_inv in E as (u & b1 & E1 & E). apply bind_inv in E1 as (v & b1' & E1 & E1r). injection E1r as <- <-.
  apply bind_inv in E as (core & b2 & E2r & E). injection E2r as <- <-.
  pose proof (ir_grows _ (iconst_grows _ _) _ _ _ E1) as L1. pose proof (emit_grows _ (jsa_reservation_set_write_grows _ _) _ _ _ E) as L2.
  assert (X1 : extends (fn_of b1') F) by (etransitivity; [apply (lt_extends _ _ L2) | exact HF]).
  assert (K1 : calls_ok (emitter b1')).
  { apply ir_inv in E1 as (E1 & _ & _ & _ & _ & J1). intros fn r Hr. rewrite J1 in Hr. eapply extends_fn; [apply (lt_extends _ _ L1) | apply Hk, Hr]. }
  pose proof (lt_core _ _ L1) as C1. apply ir_inv in E1 as (E1 & _ & D1 & _).
  assert (F1 : follows F (fb b) env h (fb b1') (<[v := VInt I64 UNSET_VALUE]> env) h).
  { eapply value_follows; [exact E1 | exact Hf | exact X1 | reflexivity | reflexivity]. }
  apply emit_inv in E as (E & _ & D2 & _). apply bind_inv in E as (vs & e2 & E & E3r). injection E3r as _ ->.
  destruct (jsa_call_follows F _ _ [v] [VInt I64 UNSET_VALUE] _ _ _ _ h None
    (mkJitState (with_hart (with_start_addr UNSET_VALUE (hart (js_core h))) (js_core h)) (js_result h) (js_slots h)) E
    K1 (follows_fresh _ _ _ _ _ _ _ _ F1) HF) as (env' & Fl & _).
  - rewrite C1. eapply follows_lookup; [exact F1 | exact Hc].
  - cbn. rewrite lookup_insert_eq. reflexivity.
  - reflexivity.
  - cbn. split; intros [? [=]].
  - exists env'. split; [eapply follows_trans; eassumption | congruence].
Qed.

Lemma guard_body_leaves F a o b t b' env h s z : guard_body a o b = Some (t, b') -> extends (fn_of b') F ->
  agree b env h s -> env !! a = Some (VInt I64 z) ->
  leaves F (fb b) env h (ExRaise (StoreAMOAccessFault z)) (d_steps (dynamic b)) (guard_state o s).
Proof.
  unfold guard_body. intros E HF Ha Hz. apply bind_inv in E as (p & b1 & E1 & E). apply bind_inv in E as ([] & b2 & E2 & E3).
  pose proof (emit_grows _ (jsa_raise_amo_grows _) _ _ _ E1) as L1.
  assert (L2 : later b1 b2) by (destruct o; [injection E2 as <-; reflexivity | eapply builder_reset_later, E2]).
  pose proof (lt_inv _ _ L1 (ag_inv _ _ _ _ Ha)) as I1.
  destruct (builder_handle_exception_spec xregisters_offset _ _ _ _ E3 (lt_inv _ _ L2 I1)) as [L3 Hl].
  assert (X2 : extends (fn_of b2) F) by (etransitivity; [apply (lt_extends _ _ L3) | exact HF]).
  assert (X1 : extends (fn_of b1) F) by (etransitivity; [apply (lt_extends _ _ L2) | exact X2]).
  apply emit_inv in E1 as (E1 & C1 & D1 & _).
  destruct (raise_follows xregisters_offset F _ (fun p => [p; a]) (fun slot => [VPtr (PSlot slot); VInt I64 z]) _ _ _ env h (StoreAMOAccessFault z) E1) as (env1 & slot & F1 & (sl & Hs & Hlt & Hc)).
  1-3: first [apply Ha | exact X1].
  { intros env' q slot S Hq. cbn. rewrite Hq, (lookup_weaken _ _ _ _ Hz S). reflexivity. }
  1-2: reflexivity.
  assert (Ha1 : agree b1 env1 (set_slot slot (CellException (StoreAMOAccessFault z)) h) s).
  { eapply agree_follows; [exact Ha | exact L1 | exact F1 | exact D1 | reflexivity | apply Ha | apply Ha | apply Ha]. }
  eapply leaves_follows; [exact F1|]. rewrite <- D1. set (h1 := set_slot _ _ h) in *. destruct o; cbn [guard_state].
  - injection E2 as ->. eapply Hl; [exact HF | exact Ha1 | exact Hs | exact Hlt | exact Hc].
  - destruct (reset_follows F _ _ _ env1 h1 E2 (proj1 I1) (follows_fresh _ _ _ _ _ _ _ _ F1) X2 (ag_core_ptr _ _ _ _ Ha1)) as (env2 & F2 & D2).
    eapply leaves_follows; [exact F2|]. rewrite <- D2. destruct (ag_core _ _ _ _ Ha1) as [q Hq].
    eapply Hl; [exact HF | | eapply follows_lookup; [exact F2 | exact Hs] | | exact Hc].
    + eapply agree_follows; [exact Ha1 | exact L2 | exact F2 | exact D2 | reflexivity | | apply Ha1 |].
      * exists q. cbn [js_core]. rewrite Hq. reflexivity.
      * apply set_reservation_ok; [apply Ha1 | unfold urange, UNSET_VALUE; lia].
    + destruct (ext_slots _ _ (lt_extends _ _ L2)) as [k ->]. rewrite length_app. lia.
Qed.

Lemma guard_handle_spec o v a b t b' : (atomic_access_guard_handle v a o ;;; mret (Some tt)) b = Some (t, b') -> binv b ->
  t = Some tt /\ later b b' /\ dynamic b' = dynamic b /\
  forall F env h s z zc ty, extends (fn_of b') F -> agree b env h s -> env !! v = Some (VInt ty zc) -> env !! a = Some (VInt I64 z) ->
    (zc = 0 -> follows F (fb b) env h (fb b') env h) /\
    (zc <> 0 -> leaves F (fb b) env h (ExRaise (StoreAMOAccessFault z)) (d_steps (dynamic b)) (guard_state o s)).
Proof.
  unfold atomic_access_guard_handle. intros Hx Hb. apply bind_inv in Hx as ([] & b9 & Hx & [= <- <-]).
  apply bind_inv in Hx as (e1 & b1 & H1 & Hx). apply bind_inv in Hx as (e2 & b2 & H2 & Hx).
  apply bind_inv in Hx as (t3 & b3 & H3 & Hx). apply bind_inv in Hx as (d & b0 & [= <- <-] & Hx).
  apply bind_inv in Hx as (t4 & b4 & H4 & Hx). apply bind_inv in Hx as (p & b5 & H5 & Hx).
  apply bind_inv in Hx as (t6 & b6 & H6 & Hx). apply bind_inv in Hx as (t7 & b7 & H7 & Hx).
  apply bind_inv in Hx as (t8 & b8 & H8 & Hx). apply bind_inv in Hx as ([] & b10 & [= <-] & Hx).
  assert (Hbody : guard_body a o b4 = Some (t7, b7)).
  { unfold guard_body. rewrite (bind_eq _ _ _ _ _ H5), (bind_eq _ _ _ _ _ H6). exact H7. }
  destruct (error_branch_spec xregisters_offset _ _ _ _ _ _ _ _ _ _ _ _ _ _ _ _ _ Hb H1 H2 H3 H4 Hbody (guard_body_onward _ _) H8 Hx)
    as (L & D & D4 & C4 & _ & X7 & Hrun).
  split; [reflexivity|]. split; [exact L|]. split; [exact D|]. intros F env h s z zc ty HF Hag Hc Hz.
  destruct (Hrun F env h s zc ty HF Hag Hc) as [Hok Herr]. split; [exact Hok|].
  intros Hne. destruct (Herr Hne) as [Ha4 Hl]. apply Hl. rewrite <- D4.
  eapply guard_body_leaves; [exact Hbody | etransitivity; eassumption | exact Ha4 | exact Hz].
Qed.

Lemma sim_guard_handle o e0 v a c z : bv e0 v c -> xv e0 a z ->
  sim e0 (atomic_access_guard_handle v (x64_val a) o ;;; mret (Some tt))
    (if c then
       (match o with
        | Reset => on_hart (mput (with_start_addr (wrap 64 (sext 64 UNSET_VALUE))))
        | NoReset => mret tt
        end) ;;;
       mret (Err (StoreAMOAccessFault z))
     else mret (Ok tt)) (rv uv) err_exit.
Proof.
  intros Hv [Ha _].
  split; [intros b t b' E Hb; apply (guard_handle_spec _ _ _ _ _ _ E Hb)|]. intros b t b' F env h s r s' E E' HF Hag He.
  destruct (guard_handle_spec _ _ _ _ _ _ E (ag_inv _ _ _ _ Hag)) as (-> & L & D & Hrun).
  destruct (Hrun F env h s z (if c then 1 else 0) I8 HF Hag (lookup_weaken _ _ _ _ Hv He) (lookup_weaken _ _ _ _ Ha He)) as [Hok Herr].
  destruct c.
  - right. exists (ExRaise (StoreAMOAccessFault z)).
    assert (Hr : r = Err (StoreAMOAccessFault z) /\ s' = guard_state o s).
    { destruct o; [injection E' as <- <-; auto|]. destruct s as [[] ]. injection E' as <- <-. auto. }
    destruct Hr as [-> ->]. split; [reflexivity | apply Herr; lia].
  - injection E' as <- <-. left. exists env, h. specialize (Hok eq_refl). split; [exact Hok|].
    split; [eapply agree_pure; eassumption|]. split; [reflexivity | rewrite D; reflexivity].
Qed.

Lemma guard_handle_onward o v a : grows onward (atomic_access_guard_handle v a o).
Proof.
  intros b t b' E Hb. apply (guard_handle_spec o v a b (Some tt)); [|exact Hb]. rewrite (bind_eq _ _ _ _ _ E). reflexivity.
Qed.
#[local] Hint Resolve guard_handle_onward : grows.

Lemma sim_xvalue_of_imm e0 imm : sim e0 (builder_xvalue_of_imm imm) (mret (wrap 64 imm)) xv no_exit.
Proof. apply (sim_iconst I64 e0 imm mkX64 x64_val). reflexivity. Qed.
Lemma sim_xvalue32_of_imm e0 imm : sim e0 (builder_xvalue32_of_imm imm) (mret (wrap 32 imm)) xw no_exit.
Proof. apply (sim_iconst I32 e0 imm mkX32 x32_val). reflexivity. Qed.

Lemma sim_guard V e0 a z o : xv e0 a z ->
  sim e0 (builder_atomic_access_fault_guard V a o) (core_atomic_access_fault_guard V z o) (rv uv) err_exit.
Proof.
  intros Ha. unfold builder_atomic_access_fault_guard, core_atomic_access_fault_guard.
  set (width := wrap 64 (width_of (WIDTH V))).
  eapply sim_bind_l; [apply sim_xvalue_of_imm | intros; unfold builder_binary, builder_xvalue_of_imm, builder_comparable; grows|].
  fold width. intros wv e1 S1 Hw.
  eapply sim_bind; [|intros; unfold builder_xvalue_of_imm, builder_comparable; grows| |].
  { apply (sim_modulus_unsigned mkX64 x64_val ltac:(reflexivity) I64 e1 a wv z width); [eapply mono; eassumption | exact Hw]. }
  2: intros ? ? ? [].
  intros rem r e2 S2 Hr. eapply sim_bind_l; [apply sim_xvalue_of_imm | intros; unfold builder_comparable; grows|].
  intros zv e3 S3 Hz. eapply (sim_bind_l _ _ (uint_compare 64 r 0 NotEqual)); [|intros; grows|].
  { apply (sim_comparable x64_val I64 e3 rem zv r 0 NotEqual); [eapply iv_mono; [exact S3 | exact Hr] | exact Hz]. }
  intros c e4 S4 Hc. apply sim_guard_handle; [exact Hc|].
  eapply mono; [|exact Ha]. etransitivity; [exact S1|]. etransitivity; [exact S2|]. etransitivity; eassumption.
Qed.

(** *** [branch_merge]

    The values of the arms are passed to a block with parameters; the arms leave the
    program counter and the number of steps alone. *)
Definition kept b b' : Prop := dynamic b' = dynamic b.
#[local] Instance kept_preorder : PreOrder kept.
Proof. split; [intros b; reflexivity | intros x y z H1 H2; unfold kept in *; congruence]. Qed.

Lemma pc_is_unique b b' env p q : dynamic b' = dynamic b -> pc_is b env p -> pc_is b' env q -> p = q.
Proof. intros D (v & Hv & _ & <-) (w & Hw & _ & <-). rewrite D in *. congruence. Qed.

(** A value of an arm and the parameters of the block after it. *)
Definition phi_params (Phi : PhiValue) (ps : list nat) (lo hi : nat) : Prop :=
  length ps = length (phi_ir_types Phi) /\ Forall (fun p => lo <= p < hi)%nat ps.

Lemma phi_values Phi env a r ps lo hi : phi_rel Phi env a r -> phi_params Phi ps lo hi ->
  exists vals env2 res, mapM (fun v => env !! v) (to_ir_vals Phi a) = Some vals /\ bind_params ps vals env = Some env2 /\
    from_ir_vals Phi ps = Some res /\ phi_rel Phi env2 res r /\
    (forall v, (v < lo)%nat -> env2 !! v = env !! v) /\
    (forall v, is_Some (env2 !! v) -> (v < hi)%nat \/ is_Some (env !! v)).
Proof.
  intros Hr [Hl Hp].
  assert (Hnil : ps = [] -> bind_params ps [] env = Some env) by (intros ->; reflexivity).
  destruct Phi; cbn in *.
  1,4: destruct ps; [|discriminate]; eexists [], env, _; split; [reflexivity|]; split; [reflexivity|]; split; [reflexivity|];
    split; [|auto].
  1: destruct r; reflexivity.
  1: destruct r as [[]|]; [reflexivity | destruct a; destruct Hr].
  all: destruct ps as [|p [|? ?]]; try discriminate; inversion_clear Hp as [|? ? Hb _]; destruct Hr as [Hv Hu];
    eexists [_], _, _; split; [cbn; rewrite Hv; reflexivity|]; split; [reflexivity|]; split; [reflexivity|];
    split; [split; [apply lookup_insert_eq | exact Hu]|]; split;
    [intros v Hlt; apply lookup_insert_ne; lia |
     intros v Hv'; destruct (decide (v = p)) as [->|Hne]; [left; lia | rewrite lookup_insert_ne in Hv' by auto; auto]].
Qed.

Lemma append_param_binv blk ty b v b' : ir (append_block_param blk ty) b = Some (v, b') -> binv b ->
  binv b' /\ v = nvalues (fn_of b) /\ nvalues (fn_of b') = S (nvalues (fn_of b)) /\
  core_ptr_val b' = core_ptr_val b /\ result_ptr_val b' = result_ptr_val b /\ dynamic b' = dynamic b /\
  position (fb b') = position (fb b) /\ extends_below blk (fn_of b) (fn_of b') /\
  exists bd, blocks (fn_of b) !! blk = Some bd /\ insts bd = [] /\
    blocks (fn_of b') = <[blk := mkBlockData (params bd ++ [v]) [] (sealed bd)]> (blocks (fn_of b)).
Proof.
  intros E (Ik & Ic & Ie & Ip). apply ir_inv in E as (E & C & D & N & R & J).
  pose proof (append_block_param_below blk _ _ _ _ _ E ltac:(lia)) as X.
  pose proof (append_block_param_frame (S (length (blocks (fn_of b)))) _ _ _ _ _ E) as Fr.
  apply append_block_param_inv in E as (bd & B & Hi & -> & P & V & Fs & _ & Bs).
  assert (Hlen : nvalues (fn_of b') = S (nvalues (fn_of b))) by (rewrite V, length_app; cbn; lia).
  split; [|split; [reflexivity|split; [exact Hlen|split; [exact C|split; [exact R|split; [exact D|split; [exact P|split; [exact X|eauto]]]]]]]].
  split; [intros fn r Hr; rewrite Fs; apply Ik; congruence|]. split; [rewrite C; lia|].
  split; [|eapply frame_position_ok; eassumption].
  intros e He. rewrite N in He. destruct (Ie e He) as (p & s & bd' & rest & r & Hb & Hp & Hins & Hf & Hlt).
  exists p, s, bd', rest, r. rewrite C, Bs, Fs. split; [|auto].
  rewrite list_lookup_insert_ne; [exact Hb|]. intros ->. replace bd' with bd in Hins by congruence. rewrite Hi in Hins. discriminate.
Qed.

Lemma ir_bind_inv {A B} (m : M FB A) (k : A -> M FB B) b r b' : ir (mbind m k) b = Some (r, b') ->
  exists a b1, ir m b = Some (a, b1) /\ ir (k a) b1 = Some (r, b').
Proof.
  intros E. unfold ir, emit, ins, mbind in *. destruct (m (fb b)) as [[a f]|]; [|discriminate]. eexists a, _.
  split; [reflexivity|]. cbn. destruct (k a f) as [[r1 f1]|]; [|discriminate]. exact E.
Qed.

(** The block after the arms. *)
Lemma post_params Phi b0 b t b' bs : ir (append_block_params (length bs) (phi_ir_types Phi)) b = Some (t, b') ->
  binv b0 -> later b0 b -> (length (blocks (fn_of b0)) <= length bs)%nat ->
  blocks (fn_of b) = bs ++ [mkBlockData [] [] false] ->
  later b0 b' /\ dynamic b' = dynamic b /\ position (fb b') = position (fb b) /\
  exists ps, blocks (fn_of b') = bs ++ [mkBlockData ps [] false] /\ phi_params Phi ps (nvalues (fn_of b)) (nvalues (fn_of b')).
Proof.
  intros E Hb0 L Hn B.
  assert (Hcase : phi_ir_types Phi = [] \/ exists ty, phi_ir_types Phi = [ty]) by (destruct Phi; eauto).
  unfold phi_params. destruct Hcase as [Hp | [ty Hp]]; rewrite Hp in *; cbn [append_block_params] in E.
  - rewrite ir_mret in E. injection E as <- <-. split; [exact L|]. split; [reflexivity|]. split; [reflexivity|].
    exists []. split; [exact B|]. split; [reflexivity | constructor].
  - apply ir_bind_inv in E as (v & b1 & E & Er). rewrite ir_mret in Er. injection Er as <- <-.
    pose proof (ir_inv _ _ _ _ E) as (E0 & _). pose proof (append_block_param_frame (length (blocks (fn_of b0))) _ _ _ _ _ E0) as Fr.
    apply append_param_binv in E as (I1 & -> & Hv & C & R & D & P & X & bd & Hbd & Hi & Hbs); [|apply (lt_inv _ _ L Hb0)].
    split; [|split; [exact D|split; [exact P|]]].
    + eapply (later_of _ _ (length (blocks (fn_of b0)))); [exact Hb0 | | | lia | | | exact I1].
      * apply extends_of_below. eapply extends_below_trans; [apply extends_below_of, L|].
        destruct X as [X1 X2 X3 X4]. split; auto. intros i bd' Hlt. apply X4. lia.
      * eapply frame_trans; [apply L | exact Fr].
      * rewrite C. apply L.
      * rewrite R. apply L.
    + rewrite B, list_lookup_middle in Hbd by reflexivity. injection Hbd as <-. exists [nvalues (fn_of b)].
      split; [rewrite Hbs, B, insert_app_r_alt, Nat.sub_diag by lia; reflexivity|].
      split; [reflexivity|]. constructor; [lia | constructor].
Qed.

(** One of the arms, from the branch to the block after it. *)
Lemma merge_arm Phi e0 (m : M Builder (BuilderValue Phi)) m' X b b1 a b2 e t b3 b' ps res F env h s r s' :
  sim e0 m m' (phi_rel Phi) X -> m b1 = Some (a, b2) -> ir (jump e (to_ir_vals Phi a)) b2 = Some (t, b3) ->
  dynamic b1 = dynamic b -> dynamic b2 = dynamic b1 -> dynamic b' = dynamic b ->
  (code_size (fn_of b) < code_size (fn_of b1))%nat -> extends (fn_of b) (fn_of b1) -> extends (fn_of b3) (fn_of b') ->
  later b b' -> (forall env h, here (fb b') env h = mkConfig e 0 env h) ->
  (exists bd, blocks (fn_of b') !! e = Some bd /\ params bd = ps) ->
  phi_params Phi ps (nvalues (fn_of b)) (nvalues (fn_of b1)) -> from_ir_vals Phi ps = Some res ->
  extends (fn_of b') F -> agree b env h s -> agree b1 env h s -> e0 ⊆ env ->
  step F (here (fb b) env h) = Some (Running (here (fb b1) env h)) -> m' s = Some (r, s') ->
  (exists env' h', follows F (fb b) env h (fb b') env' h' /\ agree b' env' h' s' /\ phi_rel Phi env' res r /\ d_steps (dynamic b') = d_steps (dynamic b)) \/
  (exists ex, X r ex /\ leaves F (fb b) env h ex (d_steps (dynamic b)) s').
Proof.
  intros Hm E1 E2 D1 D2 D' Hsize X1 X3 L Hhere (bd & Hbd & Hps) Hphi Hres HF Ha Ha1 He Hstep E'.
  pose proof (ir_grows _ (jump_grows _ _) _ _ _ E2) as L3.
  assert (HF3 : extends (fn_of b3) F) by (etransitivity; eassumption).
  assert (HF2 : extends (fn_of b2) F) by (etransitivity; [apply (lt_extends _ _ L3) | exact HF3]).
  pose proof (sim_onward Hm _ _ _ E1 (ag_inv _ _ _ _ Ha1)) as L2.
  destruct (sim_runs Hm _ _ _ F _ _ _ _ _ E1 E' HF2 Ha1 He) as [(env2 & h2 & F2 & Ha2 & Hr & _)|(ex & HX & n & vals & h' & Hn & Hs & Hex)].
  - left. destruct (phi_values Phi env2 a r ps _ _ Hr Hphi) as (vals & env3 & res' & Hvals & Hbind & Hres' & Hr3 & Hold & Hnew).
    rewrite Hres in Hres'. injection Hres' as <-.
    assert (Henv : env ⊆ env3).
    { apply map_subseteq_spec. intros v u Hv. rewrite Hold; [eapply lookup_weaken; [exact Hv | apply F2]|].
      apply (ag_fresh _ _ _ _ Ha). eauto. }
    pose proof (extends_values_length _ _ X1) as N1. pose proof (extends_values_length _ _ (lt_extends _ _ L2)) as N2.
    pose proof (extends_values_length _ _ (lt_extends _ _ L3)) as N3. pose proof (extends_values_length _ _ X3) as N4.
    assert (Fl : follows F (fb b) env h (fb b') env3 h2).
    { split; [apply (lt_extends _ _ L) | split | exact Henv].
      - destruct (go_steps _ _ _ _ _ _ _ (fl_goes _ _ _ _ _ _ _ _ F2)) as (n & Hn & Hs). exists (S (n + 1))%nat. split.
        + eapply nsteps_step; [exact Hstep|]. eapply nsteps_trans; [exact Hn|]. apply nsteps_one. rewrite Hhere.
          apply ir_inv in E2 as (E2 & _). apply push_inst_emitted in E2. unfold step, here. cbn [c_block c_index c_env c_host].
          rewrite (extends_inst _ _ _ _ _ HF3 (em_inst _ _ _ E2)). cbn. rewrite Hvals. cbn. unfold goto.
          destruct (ext_blocks _ _ HF _ _ Hbd) as (bd' & -> & Hp' & _). cbn. rewrite Hp', Hps, Hbind. reflexivity.
        + apply ir_inv in E2 as (E2 & _). apply push_inst_emitted in E2. pose proof (em_size _ _ _ E2).
          pose proof (extends_size _ _ X3). lia.
      - intros v Hv. rewrite Hold by exact Hv. apply F2. lia.
      - intros v Hv. destruct (Hnew v Hv) as [Hlt|Hv2]; [lia|]. pose proof (ag_fresh _ _ _ _ Ha2 v Hv2). lia. }
    exists env3, h2. split; [exact Fl|]. split; [|split; [exact Hr3 | rewrite D'; reflexivity]].
    eapply agree_follows; [exact Ha | exact L | exact Fl | exact D' | | apply Ha2 | apply Ha2 | apply Ha2].
    symmetry. eapply (pc_is_unique b b2 env2); [congruence | eapply pc_is_env; [apply F2 | apply Ha] | apply Ha2].
  - right. exists ex. split; [exact HX|]. exists (S n), vals, h'. split; [eapply nsteps_step; eassumption|].
    split; [lia | rewrite <- D1; exact Hex].
Qed.

(** The emission of [branch_merge]. *)
Record merged Phi v (mt mf : M Builder (BuilderValue Phi)) b (res : BuilderValue Phi) b' (ps : list nat) (e : nat)
    (bt : Builder) rt bt1 bt2 (bf : Builder) rf bf1 bf2 : Prop := {
  mg_later : later b b';
  mg_dynamic : dynamic bt = dynamic b /\ dynamic bf = dynamic b /\ dynamic b' = dynamic bf1;
  mg_arms : mt bt = Some (rt, bt1) /\ mf bf = Some (rf, bf1);
  mg_jumps : ir (jump e (to_ir_vals Phi rt)) bt1 = Some (tt, bt2) /\ ir (jump e (to_ir_vals Phi rf)) bf1 = Some (tt, bf2);
  mg_size : (code_size (fn_of b) < code_size (fn_of bt))%nat /\ (code_size (fn_of b) < code_size (fn_of bf))%nat;
  mg_extends : extends (fn_of b) (fn_of bt) /\ extends (fn_of b) (fn_of bf) /\ extends (fn_of bt2) (fn_of b') /\ extends (fn_of bf2) (fn_of b');
  mg_here env h : here (fb b') env h = mkConfig e 0 env h;
  mg_params : (exists bd, blocks (fn_of b') !! e = Some bd /\ params bd = ps) /\ from_ir_vals Phi ps = Some res /\
    phi_params Phi ps (nvalues (fn_of b)) (nvalues (fn_of bt)) /\ phi_params Phi ps (nvalues (fn_of b)) (nvalues (fn_of bf));
  mg_agree env h s : agree b env h s -> agree bt env h s /\ agree bf env h s;
  mg_step F env h c : extends (fn_of b') F -> bv env v c ->
    step F (here (fb b) env h) = Some (Running (here (fb (if c : bool then bt else bf)) env h)) }.

Lemma phi_params_le Phi ps lo hi hi' : phi_params Phi ps lo hi -> (hi <= hi')%nat -> phi_params Phi ps lo hi'.
Proof. intros [Hl Hp] Hle. split; [exact Hl|]. eapply Forall_impl; [exact Hp|]. cbn. lia. Qed.

Lemma agree_moved b b1 env h s : agree b env h s -> binv b1 -> dynamic b1 = dynamic b -> core_ptr_val b1 = core_ptr_val b ->
  result_ptr_val b1 = result_ptr_val b -> extends (fn_of b) (fn_of b1) -> agree b1 env h s.
Proof.
  intros [? ? ? Hp ? ? ? Hf] Hb D C R X. split; auto.
  - rewrite C. assumption.
  - rewrite R. assumption.
  - unfold pc_is. rewrite D. exact Hp.
  - eapply fresh_mono; eassumption.
Qed.

(** The block after the arms is empty when the builder comes to it. *)
Lemma untouched b b' e bd p : later b b' -> blocks (fn_of b) !! e = Some bd -> position (fb b) = Some p -> p <> e ->
  exists bd', blocks (fn_of b') !! e = Some bd' /\ params bd' = params bd /\ insts bd' = insts bd.
Proof.
  intros L Hb Hp Hne. destruct (ext_blocks _ _ (lt_extends _ _ L) _ _ Hb) as (bd' & Hb' & Hpar & _).
  destruct (fr_insts _ _ _ (proj2 (lt_fb _ _ L)) e bd) as (bd2 & Hb2 & Hi); [eapply lookup_lt_Some, Hb | congruence | exact Hb |].
  exists bd'. split; [exact Hb'|]. split; [exact Hpar | congruence].
Qed.

Lemma ir_block_params_inv e b ps b' : ir (block_params e) b = Some (ps, b') ->
  b' = b /\ exists bd, blocks (fn_of b) !! e = Some bd /\ ps = params bd.
Proof.
  unfold ir, emit, ins, block_params, mbind, mget, mlift. destruct (blocks (fn_of b) !! e) as [bd|] eqn:Hb; [|discriminate].
  intros [= <- <-]. destruct b as [[] ]. eauto.
Qed.

(** The blocks of a merge: one for each arm, and one after them for the result. *)
Lemma merge_start Phi v b e1 b1 e2 b2 e3 b3 t4 b4 t5 b5 (n := length (blocks (fn_of b))) :
  ir create_block b = Some (e1, b1) -> ir create_block b1 = Some (e2, b2) -> ir create_block b2 = Some (e3, b3) ->
  ir (append_block_params e3 (phi_ir_types Phi)) b3 = Some (t4, b4) -> ir (brif v e1 e2) b4 = Some (t5, b5) -> binv b ->
  e1 = n /\ e2 = S n /\ e3 = S (S n) /\ later b4 b5 /\ forked xregisters_offset b v n (S n) b5 /\
  exists ps p, blocks (fn_of b4) !! e3 = Some (mkBlockData ps [] false) /\ position (fb b4) = Some p /\ (p < n)%nat /\
    phi_params Phi ps (nvalues (fn_of b)) (nvalues (fn_of b5)).
Proof.
  intros H1 H2 H3 H4 H5 Hb. subst n.
  apply ir_create_block_inv in H1 as (L1 & E1 & D1 & P1 & _ & B1). apply ir_create_block_inv in H2 as (L2 & E2 & D2 & P2 & _ & B2).
  apply ir_create_block_inv in H3 as (L3 & E3 & D3 & P3 & _ & B3).
  assert (Hn1 : length (blocks (fn_of b1)) = S (length (blocks (fn_of b)))) by (rewrite B1, length_app; cbn; lia).
  assert (Hn2 : length (blocks (fn_of b2)) = S (S (length (blocks (fn_of b))))) by (rewrite B2, length_app, Hn1; cbn; lia).
  rewrite E3 in H4. assert (L03 : later b b3) by (etransitivity; [exact L1|]; etransitivity; eassumption).
  destruct (post_params Phi b b3 _ _ _ H4 Hb L03 ltac:(lia) B3) as (L04 & D4 & P4 & ps & B4 & Hps).
  rewrite E1, E2, Hn1 in *. pose proof (ir_grows _ (brif_grows _ _ _) _ _ _ H5) as L5.
  pose proof (extends_values_length _ _ (lt_extends _ _ L03)) as N3.
  pose proof (extends_values_length _ _ (lt_extends _ _ L5)) as N5.
  split; [reflexivity|]. split; [reflexivity|]. split; [congruence|]. split; [exact L5|]. split.
  { eapply (fork_brif xregisters_offset b b4 v [mkBlockData ps [] false]); [exact Hb | exact L04 | congruence | congruence | | | exact H5].
    - rewrite B4, B2, B1, <- !app_assoc. reflexivity.
    - repeat constructor. }
  apply ir_inv in H5 as (H5 & _). apply push_inst_current in H5 as (p & Hp & _).
  exists ps, p. split; [rewrite B4, E3; apply list_lookup_middle; reflexivity|]. split; [exact Hp|]. split.
  - destruct Hb as (_ & _ & _ & Ho). apply Ho. congruence.
  - destruct Hps as [Hl Hf]. split; [exact Hl|]. eapply Forall_impl; [exact Hf|]. cbn. lia.
Qed.

(** An arm, with the jump to the block after it. *)
Lemma arm_later {A} (m : M Builder A) e args blk b r b1 t b2 u b3 : grows onward m -> m b = Some (r, b1) -> binv b ->
  ir (jump e args) b1 = Some (t, b2) -> ir (seal_block blk) b2 = Some (u, b3) -> later b b3.
Proof.
  intros Gm E Hb H1 H2. etransitivity; [apply (Gm _ _ _ E Hb)|].
  etransitivity; [apply (ir_grows _ (jump_grows _ _) _ _ _ H1) | apply (ir_grows _ (seal_block_grows _) _ _ _ H2)].
Qed.

(** The block after the arms, while the code of the arms is emitted. *)
Lemma post_block_untouched b4 b5 b6 b10 b11 b14 e ps p4 p6 p11 : later b4 b5 -> later b6 b10 -> later b11 b14 ->
  fn_of b6 = fn_of b5 -> fn_of b11 = fn_of b10 -> blocks (fn_of b4) !! e = Some (mkBlockData ps [] false) ->
  position (fb b4) = Some p4 -> position (fb b6) = Some p6 -> position (fb b11) = Some p11 ->
  p4 <> e -> p6 <> e -> p11 <> e ->
  exists bd, blocks (fn_of b14) !! e = Some bd /\ params bd = ps /\ insts bd = [].
Proof.
  intros L5 L10 L14 F6 F11 Hbd P4 P6 P11 N4 N6 N11.
  destruct (untouched _ _ _ _ _ L5 Hbd P4 N4) as (bd5 & Hbd5 & Hpar5 & Hi5). rewrite <- F6 in Hbd5.
  destruct (untouched _ _ _ _ _ L10 Hbd5 P6 N6) as (bd10 & Hbd10 & Hpar10 & Hi10). rewrite <- F11 in Hbd10.
  destruct (untouched _ _ _ _ _ L14 Hbd10 P11 N11) as (bd14 & Hbd14 & Hpar14 & Hi14).
  exists bd14. split; [exact Hbd14|]. split; [rewrite Hpar14, Hpar10, Hpar5 | rewrite Hi14, Hi10, Hi5]; reflexivity.
Qed.

Lemma branch_merge_inv Phi v mt mf b res b' : builder_branch_merge Phi v mt mf b = Some (res, b') -> binv b ->
  grows onward mt -> grows onward mf ->
  exists ps e bt rt bt1 bt2 bf rf bf1 bf2, merged Phi v mt mf b res b' ps e bt rt bt1 bt2 bf rf bf1 bf2.
Proof.
  unfold builder_branch_merge. intros Hx Hb Gt Gf.
  apply bind_inv in Hx as (e1 & b1 & H1 & Hx). apply bind_inv in Hx as (e2 & b2 & H2 & Hx).
  apply bind_inv in Hx as (e3 & b3 & H3 & Hx). apply bind_inv in Hx as (t4 & b4 & H4 & Hx).
  apply bind_inv in Hx as (t5 & b5 & H5 & Hx). apply bind_inv in Hx as (d & b0 & [= <- <-] & Hx).
  apply bind_inv in Hx as (t6 & b6 & H6 & Hx). apply bind_inv in Hx as (rt & b7 & H7 & Hx).
  apply bind_inv in Hx as ([] & b8 & H8 & Hx). apply bind_inv in Hx as (t9 & b9 & H9 & Hx).
  apply bind_inv in Hx as ([] & b10 & H10 & Hx). injection H10 as <-. apply bind_inv in Hx as (t11 & b11 & H11 & Hx).
  apply bind_inv in Hx as (rf & b12 & H12 & Hx). apply bind_inv in Hx as ([] & b13 & H13 & Hx).
  apply bind_inv in Hx as (t14 & b14 & H14 & Hx). apply bind_inv in Hx as (t15 & b15 & H15 & Hx).
  apply bind_inv in Hx as (ps & b16 & H16 & Hx).
  destruct (merge_start _ _ _ _ _ _ _ _ _ _ _ _ _ H1 H2 H3 H4 H5 Hb)
    as (-> & -> & -> & L5 & K & ps0 & p4 & Hpost4 & Hp4 & Hp4lt & Hph5).
  destruct (fork_first _ _ _ _ _ _ _ _ K H6 Hb) as (I6 & D6 & C6 & R6 & F6 & P6 & M6 & Hh6).
  pose proof (ir_grows _ (seal_block_grows _) _ _ _ H9) as L9.
  assert (L610 : later b6 (set_dynamic (dynamic b5) b9)).
  { etransitivity; [exact (arm_later _ _ _ _ _ _ _ _ _ _ _ Gt H7 I6 H8 H9)|]. split; auto; reflexivity. }
  destruct (fork_second _ _ _ _ _ _ _ _ _ _ K P6 F6 L610 H11) as (F11 & P11 & N11 & _ & Hh11).
  destruct (switch_binv _ _ _ _ H11 (lt_inv _ _ L610 I6)) as (I11 & _ & C11 & R11 & D11 & M11).
  pose proof (ir_grows _ (seal_block_grows _) _ _ _ H14) as L14.
  pose proof (arm_later _ _ _ _ _ _ _ _ _ _ _ Gf H12 I11 H13 H14) as L1114.
  destruct (switch_binv _ _ _ _ H15 (lt_inv _ _ L1114 I11)) as (I15 & F15 & C15 & R15 & D15 & M15).
  assert (Hlen5 : (length (blocks (fn_of b)) <= length (blocks (fn_of b5)))%nat) by apply extends_blocks_length, lt_extends, K.
  destruct (post_block_untouched _ _ _ _ _ _ _ _ _ _ _ L5 L610 L1114 F6 F11 Hpost4 Hp4 P6 P11 ltac:(lia) ltac:(lia) ltac:(lia))
    as (bd14 & Hbd14 & Hpar & Hins).
  apply ir_block_params_inv in H16 as (-> & bd & Hbd & ->). rewrite F15, Hbd14 in Hbd. injection Hbd as <-.
  rewrite Hpar in Hx. unfold mlift in Hx. destruct (from_ir_vals Phi ps0) as [res'|] eqn:Hres; [|discriminate].
  injection Hx as -> <-.
  exists ps0, (S (S (length (blocks (fn_of b))))), b6, rt, b7, b8, b11, rf, b12, b13.
  assert (X05 : extends (fn_of b) (fn_of b5)) by apply lt_extends, K.
  assert (X06 : extends (fn_of b) (fn_of b6)) by (rewrite F6; exact X05).
  assert (X611 : extends (fn_of b6) (fn_of b11)) by (rewrite F11; apply (lt_extends _ _ L610)).
  assert (X1115 : extends (fn_of b11) (fn_of b15)) by (rewrite F15; apply (lt_extends _ _ L1114)).
  assert (Hd15 : dynamic b15 = dynamic b12).
  { rewrite D15. apply ir_inv in H13 as (_ & _ & D13 & _). apply ir_inv in H14 as (_ & _ & D14 & _). congruence. }
  pose proof (extends_values_length _ _ X611) as N611. rewrite <- F6 in Hph5. rename Hph5 into Hph.
  split.
  - eapply (later_of _ _ (length (blocks (fn_of b)))); [exact Hb | | | lia | | | exact I15].
    + etransitivity; [exact X06|]. etransitivity; eassumption.
    + eapply frame_trans; [exact M6|]. eapply frame_trans; [eapply frame_weaken; [|apply L610]; rewrite F6; lia|].
      eapply frame_trans; [apply M11, N11|]. eapply frame_trans; [eapply frame_weaken; [|apply L1114]|].
      * apply extends_blocks_length in X06, X611. lia.
      * apply M15. lia.
    + rewrite C15, (lt_core _ _ L1114), C11, (lt_core _ _ L610). exact C6.
    + rewrite R15, (lt_result _ _ L1114), R11, (lt_result _ _ L610). exact R6.
  - split; [exact D6|]. split; [rewrite D11; cbn; apply K | exact Hd15].
  - split; assumption.
  - split; assumption.
  - rewrite F6, (fk_size _ _ _ _ _ _ K). apply extends_size in X611. rewrite F6, (fk_size _ _ _ _ _ _ K) in X611. lia.
  - split; [exact X06|]. split; [etransitivity; eassumption|]. split; [|rewrite F15; apply (lt_extends _ _ L14)].
    etransitivity; [apply (lt_extends _ _ L9)|]. cbn in F11. rewrite <- F11. exact X1115.
  - intros env h. apply ir_inv in H15 as (H15 & _). eapply here_switch; eassumption.
  - split; [exists bd14; rewrite F15; auto|]. split; [exact Hres|]. split; [exact Hph | eapply phi_params_le; [exact Hph | exact N611]].
  - intros env h s Ha. split.
    + eapply agree_moved; eassumption.
    + eapply agree_moved; [exact Ha | exact I11 | rewrite D11; cbn; apply K | | | etransitivity; eassumption].
      * rewrite C11, (lt_core _ _ L610). exact C6.
      * rewrite R11, (lt_result _ _ L610). exact R6.
  - intros F env h c HF Hv.
    etransitivity; [apply (fk_step _ _ _ _ _ _ K F env h I8 (if c then 1 else 0)); [|exact Hv]|].
    + rewrite <- F6. etransitivity; [exact X611|]. etransitivity; eassumption.
    + destruct c; cbn [Z.eqb]; [rewrite Hh6 | rewrite Hh11]; reflexivity.
Qed.

Lemma sim_branch_merge Phi e0 v c mt mf m't m'f : bv e0 v c ->
  sim e0 mt m't (phi_rel Phi) (phi_exit Phi) -> sim e0 mf m'f (phi_rel Phi) (phi_exit Phi) ->
  grows kept mt -> grows kept mf ->
  sim e0 (builder_branch_merge Phi v mt mf) (if c then m't else m'f) (phi_rel Phi) (phi_exit Phi).
Proof.
  intros Hv Ht Hf Kt Kf. split.
  - intros b res b' E Hb. destruct (branch_merge_inv _ _ _ _ _ _ _ E Hb (sim_onward Ht) (sim_onward Hf))
      as (ps & e & bt & rt & bt1 & bt2 & bf & rf & bf1 & bf2 & []). assumption.
  - intros b res b' F env h s r s' E E' HF Ha He.
    destruct (branch_merge_inv _ _ _ _ _ _ _ E (ag_inv _ _ _ _ Ha) (sim_onward Ht) (sim_onward Hf))
      as (ps & e & bt & rt & bt1 & bt2 & bf & rf & bf1 & bf2 & [L (D1 & D2 & D3) (A1 & A2) (J1 & J2) (S1 & S2) (X1 & X2 & X3 & X4) Hh (Hb & Hres & Hp1 & Hp2) Hag Hstep]).
    destruct (Hag env h s Ha) as [Ha1 Ha2]. pose proof (Kf _ _ _ A2) as Kf'. pose proof (Kt _ _ _ A1) as Kt'. unfold kept in *.
    specialize (Hstep F env h c HF (lookup_weaken _ _ _ _ Hv He)). destruct c.
    + eapply (merge_arm Phi e0 mt m't _ b bt rt bt1 e tt bt2 b' ps res F); try eassumption. congruence.
    + eapply (merge_arm Phi e0 mf m'f _ b bf rf bf1 e tt bf2 b' ps res F); try eassumption. congruence.
Qed.

End Sim.
