(* ===== verification/JitInstr.v ===== *)
(** * Compiled instructions

    Every opcode that is compiled: the code that its lowering emits does what the
    interpreter does with the same function. *)

From stdpp Require Import gmap.
From S2P Require Import Prelude.
From S2P Require Import Registers.
From S2P Require Import Csr.
From S2P Require Import Instr.
From S2P Require Import Parser.
From S2P Require Import Instruction.
From S2P Require Import Icb.
From S2P Require Import Integer.
From S2P Require Import Interpreter.
From S2P Require Import Memory.
From S2P Require Import MemorySpec.
From S2P Require Import Core.
From S2P Require Import Run.
From S2P Require Import Step.
From S2P Require Import IsaSpec.
From S2P Require Import CoreSpec.
From S2P Require Import Cranelift.
From S2P Require Import StateAccess.
From S2P Require Import JitBuilder.
From S2P Require Import JitRuns.
From S2P Require Import JitSim.

(** The functions over the context. *)
Create HintDb lower.
#[export] Hint Unfold run_neg run_mv run_nop run_add run_add_word run_sub run_sub_word run_and run_or
  run_x64_or_immediate run_x64_xor run_x64_xor_immediate run_addi run_add_word_immediate run_andi
  run_set_less_than_immediate_signed run_set_less_than_immediate_unsigned run_set_less_than_signed
  run_set_less_than_unsigned run_mul run_x32_mul run_x64_mul_high run_x64_div_signed run_x64_div_unsigned
  run_x32_div_signed run_x32_div_unsigned run_shift run_shift_immediate run_x32_shift run_x32_shift_immediate
  run_x64_rem_signed run_x64_rem_unsigned run_x32_rem_signed run_x32_rem_unsigned run_j run_jr run_jr_imm
  run_j_absolute run_jal run_jalr run_jalr_imm run_jalr_absolute run_add_immediate_to_pc run_branch
  run_branch_compare_zero run_li run_store run_load reset_reservation_set reservation_set_align_address
  test_and_unset_reservation_set run_x64_atomic run_atomic_load run_atomic_store run_atomic_swap
  run_x64_atomic_add run_x64_atomic_min_signed : lower.

(** The table's functions, from [Args]. *)
Create HintDb lower_args.
#[export] Hint Unfold
  next set_pc impl_r_type_non_zero impl_r_type_non_zero_rd impl_i_type_non_zero impl_i_type_non_zero_rd impl_load_type
  impl_store_type impl_branch impl_branch_compare_zero impl_amo_type impl_cr_nz_type impl_ci_type_non_zero
  run_x32_atomic_swap run_x64_atomic_swap run_x32_atomic_load run_x64_atomic_load run_x32_atomic_store
  run_x64_atomic_store
  args_run_add args_run_sub args_run_x64_xor args_run_and args_run_or args_run_shift_left
  args_run_shift_right_unsigned args_run_shift_right_signed args_run_set_less_than_signed
  args_run_set_less_than_unsigned args_run_add_word args_run_sub_word args_run_x32_shift_left
  args_run_x32_shift_right_unsigned args_run_x32_shift_right_signed args_run_addi
  args_run_x64_xor_immediate args_run_x64_or_immediate args_run_andi args_run_add_word_immediate
  args_run_set_less_than_immediate_signed args_run_set_less_than_immediate_unsigned
  args_run_shift_left_immediate args_run_shift_right_immediate_unsigned
  args_run_shift_right_immediate_signed args_run_x32_shift_left_imm
  args_run_x32_shift_right_imm_unsigned args_run_x32_shift_right_imm_signed
  args_run_x8_load_unsigned args_run_x16_load_unsigned args_run_x32_load_unsigned
  args_run_x64_load_signed args_run_x32_load_signed args_run_x16_load_signed
  args_run_x8_load_signed args_run_x64_store args_run_x32_store args_run_x16_store
  args_run_x8_store args_run_branch_equal args_run_branch_not_equal
  args_run_branch_less_than_signed args_run_branch_less_than_unsigned
  args_run_branch_greater_than_or_equal_signed args_run_branch_greater_than_or_equal_unsigned
  args_run_branch_equal_zero args_run_branch_not_equal_zero args_run_branch_less_than_zero
  args_run_branch_greater_than_or_equal_zero args_run_branch_less_than_equal_zero
  args_run_branch_greater_than_zero args_run_add_immediate_to_pc args_run_x32_atomic_load
  args_run_x32_atomic_store args_run_x32_atomic_swap args_run_x64_atomic_load
  args_run_x64_atomic_store args_run_x64_atomic_swap args_run_x64_atomic_add
  args_run_x64_atomic_min_signed args_run_x64_rem_signed args_run_x64_rem_unsigned
  args_run_x32_rem_signed args_run_x32_rem_unsigned args_run_x64_div_signed
  args_run_x64_div_unsigned args_run_x32_div_signed args_run_x32_div_unsigned args_run_mul
  args_run_x64_mul_high_signed args_run_x64_mul_high_signed_unsigned
  args_run_x64_mul_high_unsigned args_run_x32_mul args_run_mv args_run_neg args_run_li
  args_run_j args_run_j_absolute args_run_jr args_run_jr_imm args_run_jal args_run_jalr
  args_run_jalr_imm args_run_jalr_absolute args_run_nop args_run_ecall args_run_illegal : lower_args.

Create HintDb lower_fn.

Section Instructions.
Context {Mem : Type} `{Memory Mem} `{!MemoryLaws Mem} (xregisters_offset : Z).
Notation Core := (MachineCoreState Mem).
Notation St := (JitState Mem).
Context `{Acc : JitStateAccess} `{!AccessLaws xregisters_offset (H0 := Acc)}.
Notation sim := (sim xregisters_offset).

(** ** What the operations keep *)
Section Kept.
(** [R] is [onward] or [kept]. *)
Context (R : relation Builder) `{!PreOrder R}.
Hypothesis Hir : forall A (m : M FB A), grows fb_extends m -> grows R (ir m).
Hypothesis Hemit : forall A (m : M Emitter A), grows em_later m -> grows R (emit m).
#[local] Hint Extern 1 (grows R (emit _)) => apply Hemit : grows.
#[local] Hint Extern 1 (grows R (ir _)) => apply Hir : grows.
Notation X64_ := (@XValue Builder _).
Notation X32_ := (@XValue32 Builder _).
Notation ar := (@xvalue_arithmetic Builder _).
Notation ar32 := (@xvalue32_arithmetic Builder _).

Lemma keeps_binary {A} (mk : nat -> A) val op x y : grows R (builder_binary mk val op x y).
Proof. unfold builder_binary. grows. Qed.
Lemma keeps_add x y : grows R (@add _ _ ar x y). Proof. apply keeps_binary. Qed.
Lemma keeps_sub x y : grows R (@sub _ _ ar x y). Proof. apply keeps_binary. Qed.
Lemma keeps_and x y : grows R (@and _ _ ar x y). Proof. apply keeps_binary. Qed.
Lemma keeps_or x y : grows R (@or _ _ ar x y). Proof. apply keeps_binary. Qed.
Lemma keeps_xor x y : grows R (@xor _ _ ar x y). Proof. apply keeps_binary. Qed.
Lemma keeps_mul x y : grows R (@mul _ _ ar x y). Proof. apply keeps_binary. Qed.
Lemma keeps_mul_32 x y : grows R (@mul _ _ ar32 x y). Proof. apply keeps_binary. Qed.
Lemma keeps_div_unsigned x y : grows R (@div_unsigned _ _ ar x y). Proof. apply keeps_binary. Qed.
Lemma keeps_div_unsigned_32 x y : grows R (@div_unsigned _ _ ar32 x y). Proof. apply keeps_binary. Qed.
Lemma keeps_div_signed x y : grows R (@div_signed _ _ ar x y). Proof. apply keeps_binary. Qed.
Lemma keeps_div_signed_32 x y : grows R (@div_signed _ _ ar32 x y). Proof. apply keeps_binary. Qed.
Lemma keeps_modulus_unsigned x y : grows R (@modulus_unsigned _ _ ar x y). Proof. apply keeps_binary. Qed.
Lemma keeps_modulus_unsigned_32 x y : grows R (@modulus_unsigned _ _ ar32 x y). Proof. apply keeps_binary. Qed.
Lemma keeps_modulus_signed x y : grows R (@modulus_signed _ _ ar x y). Proof. apply keeps_binary. Qed.
Lemma keeps_modulus_signed_32 x y : grows R (@modulus_signed _ _ ar32 x y). Proof. apply keeps_binary. Qed.
Lemma keeps_min_signed x y : grows R (@min_signed _ _ ar x y). Proof. apply keeps_binary. Qed.
Lemma keeps_shift x c y : grows R (@shift _ _ ar x c y). Proof. apply keeps_binary. Qed.
Lemma keeps_shift_32 x c y : grows R (@shift _ _ ar32 x c y). Proof. apply keeps_binary. Qed.
Lemma keeps_negate x : grows R (@negate _ _ ar x). Proof. cbn. grows. Qed.
Lemma keeps_compare x y p : grows R (@compare _ _ _ (@xvalue_comparable Builder _) x y p).
Proof. cbn. unfold builder_comparable. grows. Qed.
Lemma keeps_compare_32 x y p : grows R (@compare _ _ _ (@xvalue32_comparable Builder _) x y p).
Proof. cbn. unfold builder_comparable. grows. Qed.
Lemma keeps_of_imm imm : grows R (@xvalue_of_imm Builder _ imm).
Proof. cbn. unfold builder_xvalue_of_imm. grows. Qed.
Lemma keeps_of_imm_32 imm : grows R (@xvalue32_of_imm Builder _ imm).
Proof. cbn. unfold builder_xvalue32_of_imm. grows. Qed.
Lemma keeps_bool_and x y : grows R (@bool_and Builder _ x y). Proof. cbn. grows. Qed.
Lemma keeps_narrow x : grows R (@narrow Builder _ x). Proof. cbn. unfold builder_narrow. grows. Qed.
Lemma keeps_extend_signed x : grows R (@extend_signed Builder _ x).
Proof. cbn. unfold builder_extend_signed. grows. Qed.
Lemma keeps_extend_unsigned x : grows R (@extend_unsigned Builder _ x).
Proof. cbn. unfold builder_extend_unsigned. grows. Qed.
Lemma keeps_from_bool x : grows R (@xvalue_from_bool Builder _ x).
Proof. cbn. unfold builder_xvalue_from_bool. grows. Qed.
Lemma keeps_mul_high x y t : grows R (@mul_high Builder _ x y t).
Proof. cbn. unfold builder_mul_high. destruct t; grows. Qed.
Lemma keeps_read_nz r : grows R (@xregister_read_nz Builder _ r).
Proof. cbn. unfold builder_xregister_read_nz. grows. apply Hemit, (xreg_read_grows xregisters_offset). Qed.
Lemma keeps_write_nz r x : grows R (@xregister_write_nz Builder _ r x).
Proof. cbn. unfold builder_xregister_write_nz. grows. apply Hemit, (xreg_write_grows xregisters_offset). Qed.
Lemma keeps_read r : grows R (@xregister_read Builder _ r).
Proof.
  cbn. unfold xregister_read_default. destruct (split_x0 r); [apply keeps_of_imm | apply keeps_read_nz].
Qed.
Lemma keeps_write r x : grows R (@xregister_write Builder _ r x).
Proof. cbn. unfold xregister_write_default. destruct (split_x0 r); [grows | apply keeps_write_nz]. Qed.
Lemma keeps_reservation_write x : grows R (@reservation_set_write Builder _ x).
Proof. cbn. unfold builder_reservation_set_write. grows. Qed.
Lemma keeps_reservation_read : grows R (@reservation_set_read Builder _).
Proof. cbn. unfold builder_reservation_set_read. grows. Qed.
Lemma keeps_ok {A} (a : A) : grows R (@ok Builder _ A a). Proof. cbn. grows. Qed.
Lemma keeps_and_then {A B} (res : option A) (f : A -> M Builder (option B)) : (forall a, grows R (f a)) ->
  grows R (@and_then Builder _ A B res f).
Proof. intros Hf. destruct res; [apply Hf | apply grows_ret; assumption]. Qed.
End Kept.

Lemma onward_ir A (m : M FB A) : grows fb_extends m -> grows onward (ir m).
Proof. intros Hm. apply onward_of_later, ir_grows, Hm. Qed.
Lemma onward_emit A (m : M Emitter A) : grows em_later m -> grows onward (emit m).
Proof. intros Hm. apply onward_of_later, emit_grows, Hm. Qed.
Lemma kept_emit A (m : M Emitter A) : grows kept (emit m).
Proof. intros b a b' E. apply emit_inv in E as (_ & _ & D & _). exact D. Qed.
#[local] Instance kept_order : PreOrder kept := kept_preorder.

(** Memory accesses and branches. *)
Lemma onward_branch c o w : grows onward (@branch Builder _ c o w).
Proof.
  cbn. unfold builder_branch. apply grows_bind; [typeclasses eauto | | intros; apply grows_ret; typeclasses eauto].
  intros b [] b' E Hb. apply (exit_on_branch_spec xregisters_offset _ _ _ _ _ E Hb).
Qed.
Lemma kept_errno_handle {A} (o : ErrnoImpl A) : grows kept (errno_handle o).
Proof.
  intros b a b' Hx. unfold errno_handle in Hx. unfold kept.
  apply bind_inv in Hx as (e1 & b1 & H1 & Hx). apply bind_inv in Hx as (e2 & b2 & H2 & Hx).
  apply bind_inv in Hx as (t3 & b3 & H3 & Hx). apply bind_inv in Hx as (d & b0 & [= <- <-] & Hx).
  apply bind_inv in Hx as (t4 & b4 & H4 & Hx). apply bind_inv in Hx as ([] & b5 & H5 & Hx).
  apply bind_inv in Hx as (t6 & b6 & H6 & Hx). apply bind_inv in Hx as (t7 & b7 & H7 & Hx).
  apply bind_inv in Hx as ([] & b8 & [= <-] & Hx). apply ir_inv in H1 as (_ & _ & D1 & _). apply ir_inv in H2 as (_ & _ & D2 & _). apply ir_inv in H3 as (_ & _ & D3 & _).
  apply ir_inv in Hx as (_ & _ & D & _). rewrite D. cbn. congruence.
Qed.
Lemma kept_store V a v : grows kept (@main_memory_store Builder _ V a v).
Proof.
  cbn. unfold builder_main_memory_store. apply grows_bind; [typeclasses eauto | apply grows_get; typeclasses eauto | intros core].
  apply grows_bind; [typeclasses eauto | apply kept_emit | intros o].
  apply grows_bind; [typeclasses eauto | apply kept_errno_handle | intros []; apply grows_ret; typeclasses eauto].
Qed.
Lemma kept_branch_merge Phi c mt mf : grows kept mf -> grows kept (@branch_merge Builder _ Phi c mt mf).
Proof.
  intros Kf b res b' Hx. change (builder_branch_merge Phi c mt mf b = Some (res, b')) in Hx. unfold builder_branch_merge in Hx. unfold kept.
  apply bind_inv in Hx as (e1 & b1 & H1 & Hx). apply bind_inv in Hx as (e2 & b2 & H2 & Hx).
  apply bind_inv in Hx as (e3 & b3 & H3 & Hx). apply bind_inv in Hx as (t4 & b4 & H4 & Hx).
  apply bind_inv in Hx as (t5 & b5 & H5 & Hx). apply bind_inv in Hx as (d & b0 & [= <- <-] & Hx).
  apply bind_inv in Hx as (t6 & b6 & _ & Hx). apply bind_inv in Hx as (rt & b7 & _ & Hx).
  apply bind_inv in Hx as (t8 & b8 & _ & Hx). apply bind_inv in Hx as (t9 & b9 & _ & Hx).
  apply bind_inv in Hx as ([] & b10 & H10 & Hx). injection H10 as <-. apply bind_inv in Hx as (t11 & b11 & H11 & Hx).
  apply bind_inv in Hx as (rf & b12 & H12 & Hx). apply bind_inv in Hx as (t13 & b13 & H13 & Hx).
  apply bind_inv in Hx as (t14 & b14 & H14 & Hx). apply bind_inv in Hx as (t15 & b15 & H15 & Hx).
  apply bind_inv in Hx as (ps & b16 & H16 & Hx). unfold mlift in Hx. destruct (from_ir_vals Phi ps); [|discriminate]. injection Hx as _ <-.
  apply Kf in H12. unfold kept in H12.
  apply ir_inv in H1 as (_ & _ & D1 & _). apply ir_inv in H2 as (_ & _ & D2 & _). apply ir_inv in H3 as (_ & _ & D3 & _). apply ir_inv in H4 as (_ & _ & D4 & _). apply ir_inv in H5 as (_ & _ & D5 & _).
  apply ir_inv in H11 as (_ & _ & D11 & _). apply ir_inv in H13 as (_ & _ & D13 & _). apply ir_inv in H14 as (_ & _ & D14 & _). apply ir_inv in H15 as (_ & _ & D15 & _). apply ir_inv in H16 as (_ & _ & D16 & _).
  cbn in D11. congruence.
Qed.
Lemma onward_branch_merge Phi c mt mf : grows onward mt -> grows onward mf -> grows onward (@branch_merge Builder _ Phi c mt mf).
Proof.
  intros Gt Gf b res b' E Hb. destruct (branch_merge_inv xregisters_offset _ _ _ _ _ _ _ E Hb Gt Gf)
    as (ps & e & bt & rt & bt1 & bt2 & bf & rf & bf1 & bf2 & []). assumption.
Qed.

(** ** The operations, as those of the two contexts *)
Notation ar := (@xvalue_arithmetic _ _).
Notation ar32 := (@xvalue32_arithmetic _ _).
Notation B := Builder.
Notation sims m m' := (sim _ m m' xv no_exit).
Notation sims32 m m' := (sim _ m m' xw no_exit).

Lemma op_add e0 x y p q : xv e0 x p -> xv e0 y q ->
  sim e0 (@add B (@XValue B _) ar x y) (@add Core (@XValue Core _) ar p q) xv no_exit.
Proof. intros Hx Hy. apply (sim_add xregisters_offset mkX64 x64_val ltac:(reflexivity) I64 e0 x y p q Hx Hy). Qed.
Lemma op_sub e0 x y p q : xv e0 x p -> xv e0 y q ->
  sim e0 (@sub B (@XValue B _) ar x y) (@sub Core (@XValue Core _) ar p q) xv no_exit.
Proof. intros Hx Hy. apply (sim_sub xregisters_offset mkX64 x64_val ltac:(reflexivity) I64 e0 x y p q Hx Hy). Qed.
Lemma op_and e0 x y p q : xv e0 x p -> xv e0 y q ->
  sim e0 (@and B (@XValue B _) ar x y) (@and Core (@XValue Core _) ar p q) xv no_exit.
Proof. intros Hx Hy. apply (sim_and xregisters_offset mkX64 x64_val ltac:(reflexivity) I64 e0 x y p q Hx Hy). Qed.
Lemma op_or e0 x y p q : xv e0 x p -> xv e0 y q ->
  sim e0 (@or B (@XValue B _) ar x y) (@or Core (@XValue Core _) ar p q) xv no_exit.
Proof. intros Hx Hy. apply (sim_or xregisters_offset mkX64 x64_val ltac:(reflexivity) I64 e0 x y p q Hx Hy). Qed.
Lemma op_xor e0 x y p q : xv e0 x p -> xv e0 y q ->
  sim e0 (@xor B (@XValue B _) ar x y) (@xor Core (@XValue Core _) ar p q) xv no_exit.
Proof. intros Hx Hy. apply (sim_xor xregisters_offset mkX64 x64_val ltac:(reflexivity) I64 e0 x y p q Hx Hy). Qed.
Lemma op_mul e0 x y p q : xv e0 x p -> xv e0 y q ->
  sim e0 (@mul B (@XValue B _) ar x y) (@mul Core (@XValue Core _) ar p q) xv no_exit.
Proof. intros Hx Hy. apply (sim_mul xregisters_offset mkX64 x64_val ltac:(reflexivity) I64 e0 x y p q Hx Hy). Qed.
Lemma op_mul_32 e0 x y p q : xw e0 x p -> xw e0 y q ->
  sim e0 (@mul B (@XValue32 B _) ar32 x y) (@mul Core (@XValue32 Core _) ar32 p q) xw no_exit.
Proof. intros Hx Hy. apply (sim_mul xregisters_offset mkX32 x32_val ltac:(reflexivity) I32 e0 x y p q Hx Hy). Qed.
Lemma op_div_unsigned e0 x y p q : xv e0 x p -> xv e0 y q ->
  sim e0 (@div_unsigned B (@XValue B _) ar x y) (@div_unsigned Core (@XValue Core _) ar p q) xv no_exit.
Proof. intros Hx Hy. apply (sim_div_unsigned xregisters_offset mkX64 x64_val ltac:(reflexivity) I64 e0 x y p q Hx Hy). Qed.
Lemma op_div_unsigned_32 e0 x y p q : xw e0 x p -> xw e0 y q ->
  sim e0 (@div_unsigned B (@XValue32 B _) ar32 x y) (@div_unsigned Core (@XValue32 Core _) ar32 p q) xw no_exit.
Proof. intros Hx Hy. apply (sim_div_unsigned xregisters_offset mkX32 x32_val ltac:(reflexivity) I32 e0 x y p q Hx Hy). Qed.
Lemma op_div_signed e0 x y p q : xv e0 x p -> xv e0 y q ->
  sim e0 (@div_signed B (@XValue B _) ar x y) (@div_signed Core (@XValue Core _) ar p q) xv no_exit.
Proof. intros Hx Hy. apply (sim_div_signed xregisters_offset mkX64 x64_val ltac:(reflexivity) I64 e0 x y p q Hx Hy). Qed.
Lemma op_div_signed_32 e0 x y p q : xw e0 x p -> xw e0 y q ->
  sim e0 (@div_signed B (@XValue32 B _) ar32 x y) (@div_signed Core (@XValue32 Core _) ar32 p q) xw no_exit.
Proof. intros Hx Hy. apply (sim_div_signed xregisters_offset mkX32 x32_val ltac:(reflexivity) I32 e0 x y p q Hx Hy). Qed.
Lemma op_modulus_unsigned e0 x y p q : xv e0 x p -> xv e0 y q ->
  sim e0 (@modulus_unsigned B (@XValue B _) ar x y) (@modulus_unsigned Core (@XValue Core _) ar p q) xv no_exit.
Proof. intros Hx Hy. apply (sim_modulus_unsigned xregisters_offset mkX64 x64_val ltac:(reflexivity) I64 e0 x y p q Hx Hy). Qed.
Lemma op_modulus_unsigned_32 e0 x y p q : xw e0 x p -> xw e0 y q ->
  sim e0 (@modulus_unsigned B (@XValue32 B _) ar32 x y) (@modulus_unsigned Core (@XValue32 Core _) ar32 p q) xw no_exit.
Proof. intros Hx Hy. apply (sim_modulus_unsigned xregisters_offset mkX32 x32_val ltac:(reflexivity) I32 e0 x y p q Hx Hy). Qed.
Lemma op_modulus_signed e0 x y p q : xv e0 x p -> xv e0 y q ->
  sim e0 (@modulus_signed B (@XValue B _) ar x y) (@modulus_signed Core (@XValue Core _) ar p q) xv no_exit.
Proof. intros Hx Hy. apply (sim_modulus_signed xregisters_offset mkX64 x64_val ltac:(reflexivity) I64 e0 x y p q Hx Hy). Qed.
Lemma op_modulus_signed_32 e0 x y p q : xw e0 x p -> xw e0 y q ->
  sim e0 (@modulus_signed B (@XValue32 B _) ar32 x y) (@modulus_signed Core (@XValue32 Core _) ar32 p q) xw no_exit.
Proof. intros Hx Hy. apply (sim_modulus_signed xregisters_offset mkX32 x32_val ltac:(reflexivity) I32 e0 x y p q Hx Hy). Qed.
Lemma op_min_signed e0 x y p q : xv e0 x p -> xv e0 y q ->
  sim e0 (@min_signed B (@XValue B _) ar x y) (@min_signed Core (@XValue Core _) ar p q) xv no_exit.
Proof. intros Hx Hy. apply (sim_min_signed xregisters_offset mkX64 x64_val ltac:(reflexivity) I64 e0 x y p q Hx Hy). Qed.
Lemma op_shift e0 x y p q c : xv e0 x p -> xv e0 y q ->
  sim e0 (@shift B (@XValue B _) ar x c y) (@shift Core (@XValue Core _) ar p c q) xv no_exit.
Proof. intros Hx Hy. apply (sim_shift xregisters_offset mkX64 x64_val ltac:(reflexivity) I64 e0 x y p q Hx Hy). Qed.
Lemma op_shift_32 e0 x y p q c : xw e0 x p -> xw e0 y q ->
  sim e0 (@shift B (@XValue32 B _) ar32 x c y) (@shift Core (@XValue32 Core _) ar32 p c q) xw no_exit.
Proof. intros Hx Hy. apply (sim_shift xregisters_offset mkX32 x32_val ltac:(reflexivity) I32 e0 x y p q Hx Hy). Qed.
Lemma op_negate e0 x p : xv e0 x p -> sim e0 (@negate B (@XValue B _) ar x) (@negate Core (@XValue Core _) ar p) xv no_exit.
Proof. intros Hx. apply (sim_negate xregisters_offset mkX64 x64_val ltac:(reflexivity) I64 e0 x p Hx). Qed.
Lemma op_compare e0 x y p q c : xv e0 x p -> xv e0 y q ->
  sim e0 (@compare B _ _ (@xvalue_comparable B _) x y c) (@compare Core _ _ (@xvalue_comparable Core _) p q c) bv no_exit.
Proof. intros Hx Hy. apply (sim_comparable xregisters_offset x64_val I64 e0 x y p q c Hx Hy). Qed.
Lemma op_compare_32 e0 x y p q c : xw e0 x p -> xw e0 y q ->
  sim e0 (@compare B _ _ (@xvalue32_comparable B _) x y c) (@compare Core _ _ (@xvalue32_comparable Core _) p q c) bv no_exit.
Proof. intros Hx Hy. apply (sim_comparable xregisters_offset x32_val I32 e0 x y p q c Hx Hy). Qed.
Lemma op_of_imm e0 imm : sim e0 (@xvalue_of_imm B _ imm) (@xvalue_of_imm Core _ imm) xv no_exit.
Proof. apply sim_xvalue_of_imm. Qed.
Lemma op_of_imm_32 e0 imm : sim e0 (@xvalue32_of_imm B _ imm) (@xvalue32_of_imm Core _ imm) xw no_exit.
Proof. apply sim_xvalue32_of_imm. Qed.
Lemma op_pc_read e0 : sim e0 (@pc_read B _) (@pc_read Core _) xv no_exit.
Proof. apply sim_pc_read. Qed.
Lemma op_bool_and e0 u v c d : bv e0 u c -> bv e0 v d -> sim e0 (@bool_and B _ u v) (@bool_and Core _ c d) bv no_exit.
Proof. apply sim_bool_and. Qed.
Lemma op_narrow e0 x z : xv e0 x z -> sim e0 (@narrow B _ x) (@narrow Core _ z) xw no_exit.
Proof. apply sim_narrow. Qed.
Lemma op_extend_signed e0 x z : xw e0 x z -> sim e0 (@extend_signed B _ x) (@extend_signed Core _ z) xv no_exit.
Proof. apply sim_extend_signed. Qed.
Lemma op_extend_unsigned e0 x z : xw e0 x z -> sim e0 (@extend_unsigned B _ x) (@extend_unsigned Core _ z) xv no_exit.
Proof. apply sim_extend_unsigned. Qed.
Lemma op_mul_high e0 x y p q t : xv e0 x p -> xv e0 y q ->
  sim e0 (@mul_high B _ x y t) (@mul_high Core _ p q t) xv no_exit.
Proof. apply sim_mul_high. Qed.
Lemma op_from_bool e0 v c : bv e0 v c -> sim e0 (@xvalue_from_bool B _ v) (@xvalue_from_bool Core _ c) xv no_exit.
Proof. apply sim_xvalue_from_bool. Qed.
Lemma op_branch e0 v c offset w : bv e0 v c -> sim e0 (@branch B _ v offset w) (@branch Core _ c offset w) pcv pcu_exit.
Proof. apply sim_branch. Qed.
Lemma op_branch_merge Phi e0 v c mt mf m't m'f : bv e0 v c ->
  sim e0 mt m't (phi_rel Phi) (phi_exit Phi) -> sim e0 mf m'f (phi_rel Phi) (phi_exit Phi) ->
  grows kept mt -> grows kept mf ->
  sim e0 (@branch_merge B _ Phi v mt mf) (@branch_merge Core _ Phi c m't m'f) (phi_rel Phi) (phi_exit Phi).
Proof. apply sim_branch_merge. Qed.
Lemma op_ok {A A'} e0 (a : A) (r : A') (V : gmap nat Val -> A -> A' -> Prop) X `{!Mono V} : V e0 a r ->
  sim e0 (@ok B _ A a) (@ok Core _ A' r) (rv V) X.
Proof. intros Hv. apply sim_ret; [typeclasses eauto | exact Hv]. Qed.
Lemma op_illegal {A A'} e0 (V : gmap nat Val -> option A -> result A' Exception -> Prop) (X : result A' Exception -> Exit -> Prop) :
  X (Err IllegalInstruction) (ExRaise IllegalInstruction) ->
  sim e0 (@err_illegal_instruction B _ A) (@err_illegal_instruction Core _ A') V X.
Proof. apply sim_illegal. Qed.
Lemma op_ecall e0 (V : gmap nat Val -> option (ProgramCounterUpdate X64) -> result (ProgramCounterUpdate Z) Exception -> Prop)
    (X : result (ProgramCounterUpdate Z) Exception -> Exit -> Prop) :
  X (Err EnvCall) (ExRaise EnvCall) -> sim e0 (@ecall B _) (@ecall Core _) V X.
Proof. apply sim_ecall. Qed.
Lemma op_guard V e0 a z o : xv e0 a z ->
  sim e0 (@atomic_access_fault_guard B _ V a o) (@atomic_access_fault_guard Core _ V z o) (rv uv) err_exit.
Proof. apply sim_guard. Qed.
Lemma op_store V e0 a v za zv : xv e0 a za -> xv e0 v zv ->
  sim e0 (@main_memory_store B _ V a v) (@main_memory_store Core _ V za zv) (rv uv) err_exit.
Proof. apply sim_store. Qed.
Lemma op_load V e0 a za : xv e0 a za -> sim e0 (@main_memory_load B _ V a) (@main_memory_load Core _ V za) (rv xv) err_exit.
Proof. apply sim_load. Qed.
Lemma op_reservation_write e0 x z : xv e0 x z ->
  sim e0 (@reservation_set_write B _ x) (@reservation_set_write Core _ z) uv no_exit.
Proof. apply sim_reservation_write. Qed.
Lemma op_reservation_read e0 : sim e0 (@reservation_set_read B _) (@reservation_set_read Core _) xv no_exit.
Proof. apply sim_reservation_read. Qed.
Lemma op_read_nz e0 r : sim e0 (@xregister_read_nz B _ r) (@xregister_read_nz Core _ r) xv no_exit.
Proof. apply (sim_read_nz xregisters_offset). Qed.
Lemma op_write_nz e0 r x z : xv e0 x z -> sim e0 (@xregister_write_nz B _ r x) (@xregister_write_nz Core _ r z) uv no_exit.
Proof. apply (sim_write_nz xregisters_offset). Qed.

(** The provided methods, which the core overrides. *)
Lemma sim_ext {A A'} e0 (m : M B A) (m' m'' : M Core A') V X : sim e0 m m' V X -> (forall s, m'' s = m' s) -> sim e0 m m'' V X.
Proof.
  intros Hm He. split; [apply Hm|]. intros b a b' F env h s r s' E E'. rewrite He in E'.
  exact (sim_runs _ _ _ _ _ _ Hm _ _ _ _ _ _ _ _ _ E E').
Qed.
Lemma nz_of_split_x0 r nz : split_x0 r = NonZero nz -> r = xreg_of_nz nz.
Proof. destruct r; cbn; intros [= <-]; reflexivity. Qed.
Lemma split_x0_x0 r : split_x0 r = X0 -> r = x0.
Proof. destruct r; cbn; intros [=]; reflexivity. Qed.
Lemma op_read e0 r : sim e0 (@xregister_read B _ r) (@xregister_read Core _ r) xv no_exit.
Proof.
  cbn. unfold xregister_read_default. destruct (split_x0 r) as [|nz] eqn:Hr.
  - apply split_x0_x0 in Hr as ->. eapply sim_ext; [apply (sim_xvalue_of_imm xregisters_offset e0 0)|]. intros [[] ]. reflexivity.
  - apply nz_of_split_x0 in Hr as ->. eapply sim_ext; [apply (sim_read_nz xregisters_offset e0 nz)|].
    intros s. unfold on_hart, hart_read, hart_read_nz, mbind, mget, mlift. rewrite xregisters_read_nz_eq. reflexivity.
Qed.
Lemma op_write e0 r x z : xv e0 x z -> sim e0 (@xregister_write B _ r x) (@xregister_write Core _ r z) uv no_exit.
Proof.
  intros Hx. cbn. unfold xregister_write_default. destruct (split_x0 r) as [|nz] eqn:Hr.
  - apply split_x0_x0 in Hr as ->. eapply sim_ext; [apply (sim_ret xregisters_offset e0 tt tt uv no_exit); reflexivity|].
    intros [[] ]. reflexivity.
  - apply nz_of_split_x0 in Hr as ->. eapply sim_ext; [apply (sim_write_nz xregisters_offset e0 nz x z Hx)|].
    intros s. unfold on_hart, hart_write, hart_write_nz, mbind, mget, mlift. rewrite xregisters_write_nz_eq. reflexivity.
Qed.

(** Environments in which operands have values. *)
Lemma xv_some x y : exists e0, xv e0 x 0 /\ xv e0 y 0.
Proof.
  exists (<[x64_val x := VInt I64 0]> (<[x64_val y := VInt I64 0]> ∅)).
  assert (Hu : urange (type_bits I64) 0) by (unfold urange; cbn; lia).
  split; (split; [|exact Hu]); [apply lookup_insert_eq|].
  destruct (decide (x64_val x = x64_val y)) as [->|Hne]; [apply lookup_insert_eq|].
  rewrite lookup_insert_ne by exact Hne. apply lookup_insert_eq.
Qed.
Lemma onward_store V a v : grows onward (@main_memory_store B _ V a v).
Proof. destruct (xv_some a v) as (e0 & Ha & Hv). exact (sim_onward _ _ _ _ _ _ (op_store V e0 a v 0 0 Ha Hv)). Qed.
Lemma onward_load V a : grows onward (@main_memory_load B _ V a).
Proof. destruct (xv_some a a) as (e0 & Ha & _). exact (sim_onward _ _ _ _ _ _ (op_load V e0 a 0 Ha)). Qed.
Lemma onward_guard V a o : grows onward (@atomic_access_fault_guard B _ V a o).
Proof. destruct (xv_some a a) as (e0 & Ha & _). exact (sim_onward _ _ _ _ _ _ (op_guard V e0 a 0 o Ha)). Qed.

Lemma sim_and_then {A A' C C'} e0 (a : option A) (r : result A' Exception) W (f : A -> M B (option C))
    (f' : A' -> M Core (result C' Exception)) V X : rv W e0 a r ->
  (forall x y, W e0 x y -> sim e0 (f x) (f' y) V X) -> sim e0 (@and_then B _ A C a f) (@and_then Core _ A' C' r f') V X.
Proof. intros Hr Hf. destruct a as [x|], r as [y|e]; try destruct Hr. apply Hf, Hr. Qed.

Lemma rv_next e w (a : @IResult B _ unit) (r : @IResult Core _ unit) : rv uv e a r ->
  rv pcv e (@ires_map B _ _ _ a (fun _ => Next w)) (@ires_map Core _ _ _ r (fun _ => Next w)).
Proof. destruct a as [[]|], r as [[]|]; cbn; auto. Qed.

(** ** Automation

    [keeps] shows that code over the context is [onward] or [kept]; [lower] relates the two
    runs of a function, operation by operation. *)
Ltac keeps_side := first [typeclasses eauto | exact onward_ir | exact onward_emit | intros; apply kept_emit].
Ltac keeps_op :=
  lazymatch goal with
  | |- grows _ (negate _) => apply keeps_negate
  | |- grows _ (@add _ _ (@xvalue_arithmetic _ _) _ _) => apply keeps_add
  | |- grows _ (@sub _ _ (@xvalue_arithmetic _ _) _ _) => apply keeps_sub
  | |- grows _ (@and _ _ (@xvalue_arithmetic _ _) _ _) => apply keeps_and
  | |- grows _ (@or _ _ (@xvalue_arithmetic _ _) _ _) => apply keeps_or
  | |- grows _ (@xor _ _ (@xvalue_arithmetic _ _) _ _) => apply keeps_xor
  | |- grows _ (@mul _ _ (@xvalue_arithmetic _ _) _ _) => apply keeps_mul
  | |- grows _ (@mul _ _ (@xvalue32_arithmetic _ _) _ _) => apply keeps_mul_32
  | |- grows _ (@div_unsigned _ _ (@xvalue_arithmetic _ _) _ _) => apply keeps_div_unsigned
  | |- grows _ (@div_unsigned _ _ (@xvalue32_arithmetic _ _) _ _) => apply keeps_div_unsigned_32
  | |- grows _ (@div_signed _ _ (@xvalue_arithmetic _ _) _ _) => apply keeps_div_signed
  | |- grows _ (@div_signed _ _ (@xvalue32_arithmetic _ _) _ _) => apply keeps_div_signed_32
  | |- grows _ (@modulus_unsigned _ _ (@xvalue_arithmetic _ _) _ _) => apply keeps_modulus_unsigned
  | |- grows _ (@modulus_unsigned _ _ (@xvalue32_arithmetic _ _) _ _) => apply keeps_modulus_unsigned_32
  | |- grows _ (@modulus_signed _ _ (@xvalue_arithmetic _ _) _ _) => apply keeps_modulus_signed
  | |- grows _ (@modulus_signed _ _ (@xvalue32_arithmetic _ _) _ _) => apply keeps_modulus_signed_32
  | |- grows _ (@min_signed _ _ (@xvalue_arithmetic _ _) _ _) => apply keeps_min_signed
  | |- grows _ (@shift _ _ (@xvalue_arithmetic _ _) _ _ _) => apply keeps_shift
  | |- grows _ (@shift _ _ (@xvalue32_arithmetic _ _) _ _ _) => apply keeps_shift_32
  | |- grows _ (@compare _ _ _ (@xvalue_comparable _ _) _ _ _) => apply keeps_compare
  | |- grows _ (@compare _ _ _ (@xvalue32_comparable _ _) _ _ _) => apply keeps_compare_32
  | |- grows _ (xvalue_of_imm _) => apply keeps_of_imm
  | |- grows _ (xvalue32_of_imm _) => apply keeps_of_imm_32
  | |- grows _ (bool_and _ _) => apply keeps_bool_and
  | |- grows _ (narrow _) => apply keeps_narrow
  | |- grows _ (extend_signed _) => apply keeps_extend_signed
  | |- grows _ (extend_unsigned _) => apply keeps_extend_unsigned
  | |- grows _ (xvalue_from_bool _) => apply keeps_from_bool
  | |- grows _ (mul_high _ _ _) => apply keeps_mul_high
  | |- grows _ (xregister_read_nz _) => apply keeps_read_nz
  | |- grows _ (xregister_write_nz _ _) => apply keeps_write_nz
  | |- grows _ (xregister_read _) => apply keeps_read
  | |- grows _ (xregister_write _ _) => apply keeps_write
  | |- grows _ (reservation_set_write _) => apply keeps_reservation_write
  | |- grows _ (reservation_set_read) => apply keeps_reservation_read
  | |- grows _ (ok _) => apply keeps_ok
  end; keeps_side.
Ltac keeps_step :=
  match goal with
  | |- forall _, _ => intro
  | |- grows _ (mbind _ _) => apply grows_bind; [typeclasses eauto | |]
  | |- grows _ (mret _) => apply grows_ret; typeclasses eauto
  | |- grows _ (mlift _) => apply grows_lift; typeclasses eauto
  | |- grows _ (and_then _ _) => apply keeps_and_then; [typeclasses eauto |]
  | |- grows onward (branch_merge _ _ _ _) => apply onward_branch_merge
  | |- grows kept (branch_merge _ _ _ _) => apply kept_branch_merge
  | |- grows onward (branch _ _ _) => apply onward_branch
  | |- grows onward pc_read => apply builder_pc_read_onward
  | |- grows onward (main_memory_store _ _ _) => apply onward_store
  | |- grows kept (main_memory_store _ _ _) => apply kept_store
  | |- grows onward (main_memory_load _ _) => apply onward_load
  | |- grows onward (atomic_access_fault_guard _ _ _) => apply onward_guard
  | |- grows _ _ => first [solve [keeps_op] | solve [auto 2] | progress autounfold with lower]
  end.
Ltac keeps := repeat keeps_step.

(** What is known of values, in the next environment. *)
Ltac lift_step :=
  match goal with
  | Hs : ?e ⊆ ?e', Hv : xv ?e _ _ |- _ => apply (xv_mono _ _ _ _ Hs) in Hv
  | Hs : ?e ⊆ ?e', Hv : xw ?e _ _ |- _ => apply (xw_mono _ _ _ _ Hs) in Hv
  | Hs : ?e ⊆ ?e', Hv : bv ?e _ _ |- _ => apply (bv_mono _ _ _ _ Hs) in Hv
  end.
Ltac lift :=
  let a := fresh "a" in let r := fresh "r" in let e := fresh "e" in let Hs := fresh "Hs" in let Hv := fresh "Hv" in
  intros a r e Hs Hv; cbn [phi_rel] in Hv; repeat lift_step; clear Hs.
(** An exit is passed on. *)
Ltac exits :=
  let r := fresh "r" in let ex := fresh "ex" in let s := fresh "s" in let Hx := fresh "Hx" in
  intros r ex s Hx; cbn [phi_exit] in Hx;
  solve [ destruct Hx
        | destruct r; cbn in Hx; [destruct Hx|]; eexists; split; [reflexivity | exact Hx]
        | destruct r; cbn in Hx; [|destruct Hx]; eexists; split; [reflexivity | exact Hx] ].
Ltac known := first [eassumption | exact eq_refl | reflexivity | apply rv_next; eassumption].
Ltac lower_op :=
  lazymatch goal with
  | |- JitSim.sim _ _ (negate _) _ _ _ => eapply op_negate
  | |- JitSim.sim _ _ (@add _ _ (@xvalue_arithmetic _ _) _ _) _ _ _ => eapply op_add
  | |- JitSim.sim _ _ (@sub _ _ (@xvalue_arithmetic _ _) _ _) _ _ _ => eapply op_sub
  | |- JitSim.sim _ _ (@and _ _ (@xvalue_arithmetic _ _) _ _) _ _ _ => eapply op_and
  | |- JitSim.sim _ _ (@or _ _ (@xvalue_arithmetic _ _) _ _) _ _ _ => eapply op_or
  | |- JitSim.sim _ _ (@xor _ _ (@xvalue_arithmetic _ _) _ _) _ _ _ => eapply op_xor
  | |- JitSim.sim _ _ (@mul _ _ (@xvalue_arithmetic _ _) _ _) _ _ _ => eapply op_mul
  | |- JitSim.sim _ _ (@mul _ _ (@xvalue32_arithmetic _ _) _ _) _ _ _ => eapply op_mul_32
  | |- JitSim.sim _ _ (@div_unsigned _ _ (@xvalue_arithmetic _ _) _ _) _ _ _ => eapply op_div_unsigned
  | |- JitSim.sim _ _ (@div_unsigned _ _ (@xvalue32_arithmetic _ _) _ _) _ _ _ => eapply op_div_unsigned_32
  | |- JitSim.sim _ _ (@div_signed _ _ (@xvalue_arithmetic _ _) _ _) _ _ _ => eapply op_div_signed
  | |- JitSim.sim _ _ (@div_signed _ _ (@xvalue32_arithmetic _ _) _ _) _ _ _ => eapply op_div_signed_32
  | |- JitSim.sim _ _ (@modulus_unsigned _ _ (@xvalue_arithmetic _ _) _ _) _ _ _ => eapply op_modulus_unsigned
  | |- JitSim.sim _ _ (@modulus_unsigned _ _ (@xvalue32_arithmetic _ _) _ _) _ _ _ => eapply op_modulus_unsigned_32
  | |- JitSim.sim _ _ (@modulus_signed _ _ (@xvalue_arithmetic _ _) _ _) _ _ _ => eapply op_modulus_signed
  | |- JitSim.sim _ _ (@modulus_signed _ _ (@xvalue32_arithmetic _ _) _ _) _ _ _ => eapply op_modulus_signed_32
  | |- JitSim.sim _ _ (@min_signed _ _ (@xvalue_arithmetic _ _) _ _) _ _ _ => eapply op_min_signed
  | |- JitSim.sim _ _ (@shift _ _ (@xvalue_arithmetic _ _) _ _ _) _ _ _ => eapply op_shift
  | |- JitSim.sim _ _ (@shift _ _ (@xvalue32_arithmetic _ _) _ _ _) _ _ _ => eapply op_shift_32
  | |- JitSim.sim _ _ (@compare _ _ _ (@xvalue_comparable _ _) _ _ _) _ _ _ => eapply op_compare
  | |- JitSim.sim _ _ (@compare _ _ _ (@xvalue32_comparable _ _) _ _ _) _ _ _ => eapply op_compare_32
  | |- JitSim.sim _ _ (xvalue_of_imm _) _ _ _ => eapply op_of_imm
  | |- JitSim.sim _ _ (xvalue32_of_imm _) _ _ _ => eapply op_of_imm_32
  | |- JitSim.sim _ _ (bool_and _ _) _ _ _ => eapply op_bool_and
  | |- JitSim.sim _ _ (narrow _) _ _ _ => eapply op_narrow
  | |- JitSim.sim _ _ (extend_signed _) _ _ _ => eapply op_extend_signed
  | |- JitSim.sim _ _ (extend_unsigned _) _ _ _ => eapply op_extend_unsigned
  | |- JitSim.sim _ _ (xvalue_from_bool _) _ _ _ => eapply op_from_bool
  | |- JitSim.sim _ _ (mul_high _ _ _) _ _ _ => eapply op_mul_high
  | |- JitSim.sim _ _ (xregister_read_nz _) _ _ _ => eapply op_read_nz
  | |- JitSim.sim _ _ (xregister_write_nz _ _) _ _ _ => eapply op_write_nz
  | |- JitSim.sim _ _ (xregister_read _) _ _ _ => eapply op_read
  | |- JitSim.sim _ _ (xregister_write _ _) _ _ _ => eapply op_write
  | |- JitSim.sim _ _ (reservation_set_write _) _ _ _ => eapply op_reservation_write
  | |- JitSim.sim _ _ (reservation_set_read) _ _ _ => eapply op_reservation_read
  | |- JitSim.sim _ _ (pc_read) _ _ _ => eapply op_pc_read
  | |- JitSim.sim _ _ (branch _ _ _) _ _ _ => eapply op_branch
  | |- JitSim.sim _ _ (atomic_access_fault_guard _ _ _) _ _ _ => eapply op_guard
  | |- JitSim.sim _ _ (main_memory_store _ _ _) _ _ _ => eapply op_store
  | |- JitSim.sim _ _ (main_memory_load _ _) _ _ _ => eapply op_load
  end; eassumption.
Ltac lower :=
  repeat (cbn [phi_rel phi_exit];
  match goal with
  | |- JitSim.sim _ _ (mbind (mlift _) _) _ _ _ => apply sim_lift; [intro; solve [keeps] | intros ? _]
  | |- JitSim.sim _ _ (mbind _ _) _ _ _ => eapply sim_bind; [solve [lower] | intro; solve [keeps] | lift | exits]
  | |- JitSim.sim _ _ (and_then _ _) _ _ _ => eapply sim_and_then; [eassumption | intros ? ? ?]
  | |- JitSim.sim _ _ (branch_merge _ _ _ _) _ _ _ =>
      eapply op_branch_merge; [eassumption | solve [lower] | solve [lower] | solve [keeps] | solve [keeps]]
  | |- JitSim.sim _ _ (ok _) _ _ _ => eapply op_ok; [typeclasses eauto | known]
  | |- JitSim.sim _ _ (mret _) _ _ _ => eapply sim_ret; [typeclasses eauto | known]
  | |- JitSim.sim _ _ _ _ _ _ => first [solve [lower_op] | solve [eauto 3 with lower_fn] | progress autounfold with lower]
  end).

(** ** Functions *)
(** A function over the context, at the two contexts. *)
Lemma sim_load_fn V imm rs1 rd : sim ∅ (@run_load B _ V imm rs1 rd) (@run_load Core _ V imm rs1 rd) (rv uv) err_exit.
Proof. unfold run_load. lower. Qed.
Lemma sim_store_fn V imm rs1 rs2 : sim ∅ (@run_store B _ V imm rs1 rs2) (@run_store Core _ V imm rs1 rs2) (rv uv) err_exit.
Proof. unfold run_store. lower. Qed.

Lemma sim_test_and_unset e0 a z : xv e0 a z ->
  sim e0 (@test_and_unset_reservation_set B _ a) (@test_and_unset_reservation_set Core _ z) bv no_exit.
Proof. intros Ha. unfold test_and_unset_reservation_set. lower. Qed.
#[local] Hint Resolve sim_load_fn sim_store_fn sim_test_and_unset : lower_fn.

Lemma sim_x64_atomic rs1 rs2 rd (f : @XValue B _ -> @XValue B _ -> M B (@XValue B _)) f' :
  (forall x y, grows onward (f x y)) ->
  (forall e0 x y p q, xv e0 x p -> xv e0 y q -> sim e0 (f x y) (f' p q) xv no_exit) ->
  sim ∅ (@run_x64_atomic B _ rs1 rs2 rd f) (@run_x64_atomic Core _ rs1 rs2 rd f') (rv uv) err_exit.
Proof.
  intros Gf Hf. unfold run_x64_atomic. lower.
Qed.
Lemma sim_atomic_load V rs1 rd : sim ∅ (@run_atomic_load B _ V rs1 rd) (@run_atomic_load Core _ V rs1 rd) (rv uv) err_exit.
Proof. unfold run_atomic_load, reservation_set_align_address. lower. Qed.
Lemma sim_atomic_swap V rs1 rs2 rd : sim ∅ (@run_atomic_swap B _ V rs1 rs2 rd) (@run_atomic_swap Core _ V rs1 rs2 rd) (rv uv) err_exit.
Proof. unfold run_atomic_swap. lower. Qed.
Lemma sim_atomic_store V rs1 rs2 rd : sim ∅ (@run_atomic_store B _ V rs1 rs2 rd) (@run_atomic_store Core _ V rs1 rs2 rd) (rv uv) err_exit.
Proof. unfold run_atomic_store. lower. Qed.


Lemma sim_nop e0 : sim e0 (@run_nop B) (@run_nop Core) uv no_exit.
Proof. apply sim_ret; [typeclasses eauto | reflexivity]. Qed.
Lemma sim_ecall_fn e0 : sim e0 (@ecall B _) (@ecall Core _) (rv pcv) out_exit.
Proof. apply op_ecall. reflexivity. Qed.
Lemma sim_illegal_fn e0 : sim e0 (@err_illegal_instruction B _ _) (@err_illegal_instruction Core _ _) (rv pcv) out_exit.
Proof. apply op_illegal. reflexivity. Qed.

Lemma sim_j imm : sim ∅ (@run_j B _ imm) (@run_j Core _ imm) xv no_exit.
Proof. unfold run_j. lower. Qed.
Lemma sim_jr rs1 : sim ∅ (@run_jr B _ rs1) (@run_jr Core _ rs1) xv no_exit.
Proof. unfold run_jr. lower. Qed.
Lemma sim_jr_imm imm rs1 : sim ∅ (@run_jr_imm B _ imm rs1) (@run_jr_imm Core _ imm rs1) xv no_exit.
Proof. unfold run_jr_imm. lower. Qed.
Lemma sim_j_absolute imm : sim ∅ (@run_j_absolute B _ imm) (@run_j_absolute Core _ imm) xv no_exit.
Proof. unfold run_j_absolute. lower. Qed.
Lemma sim_jal imm rd w : sim ∅ (@run_jal B _ imm rd w) (@run_jal Core _ imm rd w) xv no_exit.
Proof. unfold run_jal. lower. Qed.
Lemma sim_jalr rd rs1 w : sim ∅ (@run_jalr B _ rd rs1 w) (@run_jalr Core _ rd rs1 w) xv no_exit.
Proof. unfold run_jalr. lower. Qed.
Lemma sim_jalr_imm imm rs1 rd w : sim ∅ (@run_jalr_imm B _ imm rs1 rd w) (@run_jalr_imm Core _ imm rs1 rd w) xv no_exit.
Proof. unfold run_jalr_imm. lower. Qed.
Lemma sim_jalr_absolute imm rd w : sim ∅ (@run_jalr_absolute B _ imm rd w) (@run_jalr_absolute Core _ imm rd w) xv no_exit.
Proof. unfold run_jalr_absolute. lower. Qed.
Lemma sim_branch_fn p imm rs1 rs2 w : sim ∅ (@run_branch B _ p imm rs1 rs2 w) (@run_branch Core _ p imm rs1 rs2 w) pcv pcu_exit.
Proof. unfold run_branch. lower. Qed.
Lemma sim_branch_zero p imm rs1 w :
  sim ∅ (@run_branch_compare_zero B _ p imm rs1 w) (@run_branch_compare_zero Core _ p imm rs1 w) pcv pcu_exit.
Proof. unfold run_branch_compare_zero. lower. Qed.
#[local] Hint Resolve sim_nop sim_ecall_fn sim_illegal_fn sim_j sim_jr sim_jr_imm sim_j_absolute sim_jal sim_jalr
  sim_jalr_imm sim_jalr_absolute sim_branch_fn sim_branch_zero sim_atomic_load sim_atomic_store sim_atomic_swap : lower_fn.
Lemma sim_atomic_add rs1 rs2 rd aq rl :
  sim ∅ (@run_x64_atomic_add B _ rs1 rs2 rd aq rl) (@run_x64_atomic_add Core _ rs1 rs2 rd aq rl) (rv uv) err_exit.
Proof. apply sim_x64_atomic; [intros; keeps | intros; lower]. Qed.
Lemma sim_atomic_min rs1 rs2 rd aq rl :
  sim ∅ (@run_x64_atomic_min_signed B _ rs1 rs2 rd aq rl) (@run_x64_atomic_min_signed Core _ rs1 rs2 rd aq rl) (rv uv) err_exit.
Proof. apply sim_x64_atomic; [intros; keeps | intros; lower]. Qed.
#[local] Hint Resolve sim_atomic_add sim_atomic_min : lower_fn.

(** ** The table of the compiled opcodes *)
Lemma sim_lowering op f f' (args : Args) : @to_lowering B _ op = Some f -> @to_lowering Core _ op = Some f' ->
  sim ∅ (f args) (f' args) (rv pcv) out_exit.
Proof.
  destruct op; intros [= <-] [= <-]; autounfold with lower_args; lower.
Qed.

(** The interpreter runs the functions that are compiled. *)
Lemma lowering_run op f : @to_lowering Core _ op = Some f -> to_run op = Some f.
Proof. destruct op; intros [= <-]; reflexivity. Qed.

Lemma lowering_both op : @to_lowering B _ op = None <-> @to_lowering Core _ op = None.
Proof. destruct op; split; intros [=]; reflexivity. Qed.

(** The arms of a conditional store, to the builder. *)
Lemma sc_success_onward V rs2 rd a : grows onward
  (value_rs2 <- @xregister_read B _ rs2 ;; sc_success_imm <- @xvalue_of_imm B _ SC_SUCCESS ;;
   @xregister_write B _ rd sc_success_imm ;;; @main_memory_store B _ V a value_rs2).
Proof. keeps. Qed.
Lemma sc_failure_onward rd : grows onward
  (sc_failure_imm <- @xvalue_of_imm B _ SC_FAILURE ;; @xregister_write B _ rd sc_failure_imm ;;; @ok B _ unit tt).
Proof. keeps. Qed.

(** ** The interpreter's program counter

    The functions that are compiled leave it alone; the loop over a block writes it. *)
Definition same_pc (s s' : Core) : Prop := pc (hart s') = pc (hart s).
#[local] Instance same_pc_order : PreOrder same_pc.
Proof. split; [intros s; reflexivity | intros s t u H1 H2; unfold same_pc in *; congruence]. Qed.

Lemma same_pc_hart {A} (m : M HartState A) : grows (fun h h' => pc h' = pc h) m -> grows same_pc (on_hart m).
Proof.
  intros Hm s a s'. unfold on_hart. destruct (m (hart s)) as [[x h]|] eqn:E; [|discriminate].
  intros [= <- <-]. exact (Hm _ _ _ E).
Qed.
Lemma same_pc_memory {A} (m : M Mem A) : grows same_pc (on_memory m).
Proof.
  intros s a s'. unfold on_memory. destruct (m (main_memory s)) as [[x h]|]; [|discriminate].
  intros [= <- <-]. reflexivity.
Qed.
#[local] Instance hart_pc_order : PreOrder (fun h h' : HartState => pc h' = pc h).
Proof. split; [intros h; reflexivity | intros s t u H1 H2; congruence]. Qed.
Lemma hart_pc_put f : (forall h, pc (f h) = pc h) -> grows (fun h h' : HartState => pc h' = pc h) (mput f).
Proof. intros Hf h a h' [= <- <-]. apply Hf. Qed.
Ltac same_pc_step :=
  match goal with
  | |- forall _, _ => intro
  | |- grows _ (mbind _ _) => apply grows_bind; [typeclasses eauto | |]
  | |- grows _ (mret _) => apply grows_ret; typeclasses eauto
  | |- grows _ (mlift _) => apply grows_lift; typeclasses eauto
  | |- grows _ (mget _) => apply grows_get; typeclasses eauto
  | |- grows _ mpanic => apply grows_panic
  | |- grows _ (mput _) => apply hart_pc_put; reflexivity
  | |- grows _ (on_hart _) => apply same_pc_hart
  | |- grows _ (on_memory _) => apply same_pc_memory
  | |- grows _ (hart_read _) => unfold hart_read
  | |- grows _ (hart_read_nz _) => unfold hart_read_nz
  | |- grows _ (hart_write _ _) => unfold hart_write
  | |- grows _ (hart_write_nz _ _) => unfold hart_write_nz
  | |- grows _ (match ?x with _ => _ end) => destruct x
  | |- grows _ _ => progress icb
  | |- grows _ _ => progress autounfold with lower
  | |- grows _ _ => progress unfold core_branch, core_atomic_access_fault_guard, core_main_memory_store,
      core_main_memory_load, uint_div_unsigned, uint_div_signed, uint_modulus_unsigned, uint_modulus_signed, uint_shift, comparable_uint, run_load, run_store, reservation_set_align_address, run_x64_atomic
  end.
Lemma lowering_same_pc op f (args : Args) : @to_lowering Core _ op = Some f -> grows same_pc (f args).
Proof. destruct op; intros [= <-]; autounfold with lower_args; repeat same_pc_step. Qed.

End Instructions.
