(* ===== verification/JitTyped.v ===== *)
(** * Compilation succeeds, and its code verifies

    The builder of [src/riscv/lib/src/jit/builder.rs] never trips an assertion of Cranelift's
    function builder, and every function it finishes is accepted by the verifier: the
    operands have the types their instructions ask for, every block ends with its only
    terminator, calls match the signatures of the host's functions and jumps the parameters
    of their targets.  [etyped] and [typed] say so of what emits code, from a state that is
    typed so far; a lemma per operation composes to the table of compiled opcodes. *)

From stdpp Require Import gmap.
From S2P Require Import Prelude.
From S2P Require Import Registers.
From S2P Require Import Instr.
From S2P Require Import Instruction.
From S2P Require Import Constructors.
From S2P Require Import Tagged.
From S2P Require Import Icb.
From S2P Require Import Integer.
From S2P Require Import Interpreter.
From S2P Require Import Parser.
From S2P Require Import Memory.
From S2P Require Import MemorySpec.
From S2P Require Import Run.
From S2P Require Import CoreSpec.
From S2P Require Import IsaRefinement.
From S2P Require Import Cranelift.
From S2P Require Import StateAccess.
From S2P Require Import JitBuilder.
From S2P Require Import JitRuns.
From S2P Require Import JitSim.
From S2P Require Import JitInstr.
From S2P Require Import Jit.

(** The builder of a function that is being started. *)
Definition initial_builder : Builder :=
  mkBuilder
    (mkEmitter func_calls
       (mkFunctionBuilder
          (mkFunction [mkBlockData [0; 1; 2; 3; 4]%nat [] true] [I64; I64; I64; I64; I64] [] []) (Some 0%nat)))
    1%nat (dynamic_new (mkX64 2%nat)) None 3%nat.
Lemma builder_new_eq : builder_new = Some initial_builder.
Proof. reflexivity. Qed.

Notation Code := (Function JsaFn).
Implicit Types (f g : Code) (E : option nat).

(** ** What is known of a function under construction *)
Definition vt f (ty : IrType) (v : nat) : Prop := value_types f !! v = Some ty.
Definition x64 f (x : X64) : Prop := vt f I64 (x64_val x).
Definition x32 f (x : X32) : Prop := vt f I32 (x32_val x).
Definition flag f (v : nat) : Prop := vt f I8 v.

(** What stays true as the function grows. *)
Class Grows {A} (Q : Code -> A -> Prop) : Prop := grown f g a : extends f g -> Q f a -> Q g a.
Lemma vt_mono f g ty v : extends f g -> vt f ty v -> vt g ty v.
Proof. intros He Hv. eapply prefix_lookup_Some; [exact Hv | apply He]. Qed.
#[export] Instance vt_grows ty : Grows (fun f v => vt f ty v).
Proof. intros f g v. apply vt_mono. Qed.
#[export] Instance x64_grows : Grows x64. Proof. intros f g x. apply vt_mono. Qed.
#[export] Instance x32_grows : Grows x32. Proof. intros f g x. apply vt_mono. Qed.
#[export] Instance flag_grows : Grows flag. Proof. intros f g x. apply vt_mono. Qed.
#[export] Instance any_grows {A} : Grows (fun _ (_ : A) => True). Proof. intros f g a _ _. exact I. Qed.
Definition halves f (p : nat * nat) : Prop := vt f I64 (fst p) /\ vt f I64 (snd p).
#[export] Instance halves_grows : Grows halves.
Proof. intros f g p He [H1 H2]. split; eapply vt_mono; eassumption. Qed.
Definition single ty f (vs : list nat) : Prop := exists v, vs = [v] /\ vt f ty v.
#[export] Instance single_grows ty : Grows (single ty).
Proof. intros f g vs He (v & -> & Hv). exists v. split; [reflexivity | eapply vt_mono; eassumption]. Qed.
Definition slot_of f (s : nat) : Prop := is_Some (stack_slots f !! s).
#[export] Instance slot_grows : Grows slot_of.
Proof. intros f g s He [d Hd]. exists d. eapply prefix_lookup_Some; [exact Hd | apply He]. Qed.
Definition fn_ref (fn : JsaFn) f (r : nat) : Prop := ext_funcs f !! r = Some fn.
#[export] Instance fn_ref_grows fn : Grows (fn_ref fn).
Proof. intros f g r He Hr. eapply extends_fn; eassumption. Qed.

(** *** The verifier's conditions stay true *)
Lemma has_type_iff f v ty : has_type f v ty = true <-> vt f ty v.
Proof.
  unfold has_type, vt. destruct (value_types f !! v) as [ty'|]; [|split; discriminate].
  rewrite bool_decide_eq_true. split; [intros ->; reflexivity | intros [= ->]; reflexivity].
Qed.
Lemma have_types_mono f g vs tys : extends f g -> have_types f vs tys = true -> have_types g vs tys = true.
Proof.
  intros He. revert tys. induction vs as [|v vs IH]; intros [|ty tys]; cbn; try discriminate; [auto|].
  rewrite !andb_true_iff, !has_type_iff. intros [Hv Hs]. split; [eapply vt_mono; eassumption | auto].
Qed.
Lemma type_of_mono f g v k k' : extends f g -> (forall ty, k ty = true -> k' ty = true) ->
  type_of f v k = true -> type_of g v k' = true.
Proof.
  intros He Hk. unfold type_of. destruct (value_types f !! v) as [ty|] eqn:Hv; [|discriminate].
  rewrite (vt_mono f g ty v He Hv). apply Hk.
Qed.
Lemma target_ok_mono f g blk args : extends f g -> target_ok f blk args = true -> target_ok g blk args = true.
Proof.
  intros He. unfold target_ok. destruct (blocks f !! blk) as [bd|] eqn:Hb; [|discriminate].
  destruct (ext_blocks _ _ He _ _ Hb) as (bd' & -> & -> & _).
  destruct (mapM _ (params bd)) as [tys|] eqn:Hm; [|discriminate].
  assert (Hm' : mapM (fun p => value_types g !! p) (params bd) = Some tys).
  { apply mapM_Some in Hm. apply mapM_Some. eapply Forall2_impl; [exact Hm|]. intros p ty Hp. eapply vt_mono; eassumption. }
  rewrite Hm'. apply have_types_mono, He.
Qed.
Lemma slot_mono f g s : extends f g -> bool_decide (is_Some (stack_slots f !! s)) = true ->
  bool_decide (is_Some (stack_slots g !! s)) = true.
Proof. rewrite !bool_decide_eq_true. apply slot_grows. Qed.

Notation signature := jsa_signature.
Notation returns := jitfn_returns.

Lemma call_ok_mono f g res r args : extends f g ->
  inst_ok signature returns f (Call res r args) = true -> inst_ok signature returns g (Call res r args) = true.
Proof.
  intros He. cbn [inst_ok]. destruct (ext_funcs f !! r) as [fn|] eqn:Hf; [|discriminate]. rewrite (extends_fn _ _ _ _ He Hf).
  destruct (signature fn) as [tys ret]. rewrite !andb_true_iff. intros [Ha Hr]. split; [eapply have_types_mono; eassumption|].
  destruct res, ret; try discriminate; [|reflexivity]. rewrite has_type_iff in *. eapply vt_mono; eassumption.
Qed.
Lemma inst_ok_mono f g i : extends f g -> inst_ok signature returns f i = true -> inst_ok signature returns g i = true.
Proof.
  intros He. destruct i; [.. | apply call_ok_mono, He | | |]; cbn [inst_ok]; rewrite ?andb_true_iff, ?has_type_iff; intros Hi;
    try (eapply type_of_mono; [exact He | | exact Hi]; intros ty'); rewrite ?andb_true_iff, ?has_type_iff;
    try (intuition eauto using vt_mono, slot_mono, target_ok_mono; fail).
  - eapply have_types_mono; eassumption.
Qed.

(** The end block, [E], gets its parameters after the first jump to it. *)
Definition inst_typed E f (i : Inst) : Prop :=
  match i with
  | Jump blk args =>
      if decide (Some blk = E) then have_types f args [I64; I64] = true
      else inst_ok signature returns f i = true
  | Brif _ x y => Some x <> E /\ Some y <> E /\ inst_ok signature returns f i = true
  | _ => inst_ok signature returns f i = true
  end.
Lemma inst_typed_mono E f g i : extends f g -> inst_typed E f i -> inst_typed E g i.
Proof.
  intros He. destruct i; cbn [inst_typed]; try apply inst_ok_mono, He.
  - intros (H1 & H2 & Hi). split; [exact H1|]. split; [exact H2|]. eapply inst_ok_mono; eassumption.
  - destruct (decide _); [apply have_types_mono, He | apply inst_ok_mono, He].
Qed.
Lemma inst_typed_ok E f i : inst_ok signature returns f i = true -> E = None -> inst_typed E f i.
Proof. intros Hi ->. destruct i; cbn [inst_typed]; auto. Qed.

(** *** Blocks *)
Definition straight (l : list Inst) : Prop := Forall (fun i => is_terminator i = false) l.
Lemma straight_open bd : straight (insts bd) -> is_filled bd = false.
Proof.
  intros Hs. unfold is_filled. destruct (last (insts bd)) as [i|] eqn:Hl; [|reflexivity].
  apply last_Some in Hl as [k Hk]. unfold straight in Hs. rewrite Hk, Forall_app, Forall_singleton in Hs. apply Hs.
Qed.
Lemma straight_body l i : straight l -> is_terminator i = true -> body_ok (l ++ [i]) = true.
Proof.
  intros Hs Hi. induction Hs as [|x l Hx Hl IH]; [exact Hi|]. cbn. rewrite Hx.
  destruct (l ++ [i]) eqn:E; [destruct l; discriminate | exact IH].
Qed.
Lemma body_filled l : body_ok l = true -> exists i, last l = Some i /\ is_terminator i = true.
Proof.
  induction l as [|x l IH]; [discriminate|]. destruct l as [|y l]; [cbn; eauto|]. cbn [body_ok].
  rewrite andb_true_iff. intros [_ Hl]. destruct (IH Hl) as (i & Hi & Ht). exists i. cbn. split; [|exact Ht]. exact Hi.
Qed.

(** ** Emitters *)
Notation fe e := (func (builder e)).

(** Typed so far: the current block is open, or filled; every other block is empty or
    filled. *)
Record et (open : bool) E (e : Emitter) : Prop := {
  et_calls : calls_ok e;
  et_here : exists cur bd, position (builder e) = Some cur /\ blocks (fe e) !! cur = Some bd /\
    (if open then straight (insts bd) else body_ok (insts bd) = true);
  et_shape blk bd : blocks (fe e) !! blk = Some bd -> position (builder e) <> Some blk ->
    insts bd = [] \/ body_ok (insts bd) = true;
  et_code blk bd : blocks (fe e) !! blk = Some bd -> Forall (inst_typed E (fe e)) (insts bd) }.

Definition etyped {A} E f (m : M Emitter A) (Q : Code -> A -> Prop) : Prop :=
  forall e, et true E e -> extends f (fe e) ->
    exists a e', m e = Some (a, e') /\ et true E e' /\ em_later e e' /\ Q (fe e') a.

Lemma code_mono E f g (l : list Inst) : extends f g -> Forall (inst_typed E f) l -> Forall (inst_typed E g) l.
Proof. intros He Hl. eapply Forall_impl; [exact Hl|]. intros i. apply inst_typed_mono, He. Qed.

Lemma et_still o E e e' : et o E e -> extends (fe e) (fe e') -> blocks (fe e') = blocks (fe e) ->
  position (builder e') = position (builder e) -> calls_ok e' -> et o E e'.
Proof.
  intros [Hc Hh Hs Hk] He Hb Hp Hc'. split; rewrite ?Hb, ?Hp; try assumption.
  intros blk bd H. eapply code_mono; [exact He | eauto].
Qed.

Section Etyped.
Context (E : option nat).
Notation etyped := (etyped E).

Lemma etyped_ret {A} f (a : A) Q `{!Grows Q} : Q f a -> etyped f (mret a) Q.
Proof. intros Ha e He Hx. exists a, e. split_and!; [reflexivity | assumption | reflexivity | eapply grown; eassumption]. Qed.
Lemma etyped_bind {A B} f (m : M Emitter A) (k : A -> M Emitter B) Q1 Q : etyped f m Q1 ->
  (forall a g, extends f g -> Q1 g a -> etyped g (k a) Q) -> etyped f (mbind m k) Q.
Proof.
  intros Hm Hk e He Hx. destruct (Hm e He Hx) as (a & e1 & E1 & He1 & L1 & Q1a).
  destruct (Hk a (fe e1) ltac:(etransitivity; [exact Hx | apply L1]) Q1a e1 He1 ltac:(reflexivity))
    as (b & e2 & E2 & He2 & L2 & Qb).
  exists b, e2. unfold mbind. rewrite E1. split_and!; [exact E2 | exact He2 | etransitivity; eassumption | exact Qb].
Qed.
Lemma etyped_ext {A} f (m m' : M Emitter A) Q : (forall e, m e = m' e) -> etyped f m Q -> etyped f m' Q.
Proof. intros Hm H e He Hx. destruct (H e He Hx) as (a & e' & E1 & R). exists a, e'. rewrite <- Hm. auto. Qed.
Lemma etyped_weaken {A} f g (m : M Emitter A) Q (Q' : Code -> A -> Prop) : etyped f m Q -> extends f g ->
  (forall k a, extends g k -> Q k a -> Q' k a) -> etyped g m Q'.
Proof.
  intros Hm Hx Hq e He Hg. destruct (Hm e He) as (a & e' & E1 & He' & L & Qa); [etransitivity; eassumption|].
  exists a, e'. split_and!; try assumption. apply Hq; [etransitivity; [exact Hg | apply L] | exact Qa].
Qed.
Lemma etyped_lift {A} f (o : option A) a (Q : Code -> A -> Prop) `{!Grows Q} : o = Some a -> Q f a -> etyped f (mlift o) Q.
Proof. intros -> Ha. apply etyped_ret; assumption. Qed.

Lemma ins_bind {A B} (m : M FB A) (k : A -> M FB B) e : ins (mbind m k) e = mbind (ins m) (fun a => ins (k a)) e.
Proof. unfold ins, mbind. destruct (m (builder e)) as [[a b]|]; reflexivity. Qed.
Lemma etyped_ins_bind {A B} f (m : M FB A) (k : A -> M FB B) Q1 Q : etyped f (ins m) Q1 ->
  (forall a g, extends f g -> Q1 g a -> etyped g (ins (k a)) Q) -> etyped f (ins (mbind m k)) Q.
Proof. intros Hm Hk. eapply etyped_ext; [intros e; symmetry; apply ins_bind | eapply etyped_bind; eassumption]. Qed.
Lemma etyped_ins_ret {A} f (a : A) Q `{!Grows Q} : Q f a -> etyped f (ins (mret a)) Q.
Proof. intros Ha. eapply etyped_ext; [|apply (etyped_ret f a Q Ha)]. intros [c b]. reflexivity. Qed.

(** *** What leaves the blocks alone *)
Lemma etyped_still {A} f (m : M FB A) (Q : Code -> A -> Prop) : grows fb_extends m ->
  (forall b, extends f (func b) -> exists a b', m b = Some (a, b') /\ blocks (func b') = blocks (func b) /\
     position b' = position b /\ Q (func b') a) ->
  etyped f (ins m) Q.
Proof.
  intros Hg Hm e He Hx. destruct (Hm _ Hx) as (a & b & E1 & Hb & Hp & Hq).
  assert (E2 : ins m e = Some (a, mkEmitter (jsa_call e) b)) by (unfold ins; rewrite E1; reflexivity).
  pose proof (ins_grows _ Hg _ _ _ E2) as L. exists a. eexists. split; [exact E2|].
  split; [|split; [exact L | exact Hq]]. eapply et_still; [exact He | apply L | assumption..|]. apply L, He.
Qed.

Lemma new_value_vt (b : FB) ty v b' : new_value ty b = Some (v, b') -> vt (func b') ty v.
Proof. intros [= <- <-]. unfold vt. cbn. rewrite lookup_app_r, Nat.sub_diag by lia. reflexivity. Qed.
Lemma etyped_new_value f ty : etyped f (ins (new_value ty)) (fun g v => vt g ty v).
Proof.
  apply etyped_still; [apply new_value_grows|]. intros b Hx. eexists _, _.
  split_and!; [reflexivity..|]. eapply new_value_vt. reflexivity.
Qed.
Lemma etyped_value_type f v ty : vt f ty v -> etyped f (ins (value_type v)) (fun _ ty' => ty' = ty).
Proof.
  intros Hv. apply etyped_still; [apply value_type_grows|]. intros b Hx. exists ty, b. split_and!; try reflexivity.
  unfold value_type, mbind, mget, mlift. rewrite (vt_mono _ _ _ _ Hx Hv : value_types (func b) !! v = Some ty). reflexivity.
Qed.
Lemma etyped_slot_new f T : etyped f (ins (slot_new T)) slot_of.
Proof.
  apply etyped_still; [apply slot_new_grows|]. intros b Hx. eexists _, _. split_and!; [reflexivity..|].
  exists (STACK_SLOT_DATA T). cbn. rewrite lookup_app_r, Nat.sub_diag by lia. reflexivity.
Qed.

Lemma etyped_func_ref f fn : etyped f (func_ref fn) (fn_ref fn).
Proof.
  intros e He Hx. destruct (func_ref fn e) as [[r e']|] eqn:E1.
  - pose proof (func_ref_grows _ _ _ _ E1) as L. apply func_ref_inv in E1 as E2.
    destruct E2 as (_ & Hr & Hp & Hb & _). exists r, e'. split_and!; [reflexivity | | exact L | apply Hr, He].
    eapply et_still; [exact He | apply L | assumption..|]. apply L, He.
  - exfalso. unfold func_ref, mbind, mget in E1. destruct (jsa_call e fn); discriminate.
Qed.

(** *** Instructions *)
Lemma push_inst_eq i e cur bd : position (builder e) = Some cur -> blocks (fe e) !! cur = Some bd ->
  is_filled bd = false ->
  ins (push_inst i) e =
    Some (tt, mkEmitter (jsa_call e)
      (mkFunctionBuilder
         (with_blocks (<[cur := mkBlockData (params bd) (insts bd ++ [i]) (sealed bd)]> (blocks (fe e))) (fe e)) (Some cur))).
Proof.
  intros Hp Hb Hf. unfold ins, push_inst, mbind, mget. cbn. rewrite Hp. cbn. unfold on_block. rewrite Hb. cbn. rewrite Hf.
  unfold with_func. rewrite Hp. reflexivity.
Qed.

Lemma push_et i e : et true E e -> inst_typed E (fe e) i ->
  exists e', ins (push_inst i) e = Some (tt, e') /\ et (negb (is_terminator i)) E e' /\ em_later e e'.
Proof.
  intros [Hc (cur & bd & Hp & Hb & Hs) Hsh Hk] Hi.
  pose proof (push_inst_eq i e cur bd Hp Hb (straight_open _ Hs)) as Eq. eexists. split; [exact Eq|].
  pose proof (ins_grows _ (push_inst_grows i) _ _ _ Eq) as L. split; [|exact L].
  pose proof (lookup_lt_Some _ _ _ Hb) as Hlt. split.
  - apply L, Hc.
  - exists cur. eexists. split; [reflexivity|]. cbn. rewrite list_lookup_insert_eq by exact Hlt. split; [reflexivity|]. cbn.
    destruct (is_terminator i) eqn:Ht; cbn; [apply straight_body; assumption|].
    apply Forall_app. split; [exact Hs | apply Forall_singleton, Ht].
  - cbn. intros blk x Hx Hn. rewrite list_lookup_insert_ne in Hx by congruence. apply (Hsh _ _ Hx). congruence.
  - intros blk x Hx. cbn in Hx. apply list_lookup_insert_Some in Hx as [(<- & <- & _)|[_ Hx]].
    + cbn. apply Forall_app. split; [eapply code_mono; [apply L | eauto]|]. apply Forall_singleton.
      eapply inst_typed_mono; [apply L | exact Hi].
    + eapply code_mono; [apply L | eauto].
Qed.

Lemma etyped_push f i : is_terminator i = false -> (forall g, extends f g -> inst_typed E g i) ->
  etyped f (ins (push_inst i)) (fun _ _ => True).
Proof.
  intros Ht Hi e He Hx. destruct (push_et i e He (Hi _ Hx)) as (e' & E1 & He' & L). rewrite Ht in He'.
  exists tt, e'. auto.
Qed.
Lemma etyped_value f ty mk : (forall v, is_terminator (mk v) = false) ->
  (forall g v, extends f g -> vt g ty v -> inst_typed E g (mk v)) ->
  etyped f (ins (ins_value ty mk)) (fun g v => vt g ty v).
Proof.
  intros Ht Hi. unfold ins_value. eapply etyped_ins_bind; [apply etyped_new_value|]. intros v g Hg Hv.
  eapply etyped_ins_bind; [apply etyped_push; [apply Ht|] | intros [] k Hk _].
  - intros k Hk. apply Hi; [etransitivity; eassumption | eapply vt_mono; eassumption].
  - apply (etyped_ins_ret k v (fun g v => vt g ty v)). eapply vt_mono; eassumption.
Qed.

Lemma type_of_vt f v ty k : vt f ty v -> type_of f v k = k ty.
Proof. unfold type_of, vt. intros ->. reflexivity. Qed.
Lemma slot_of_ok f s : slot_of f s -> bool_decide (is_Some (stack_slots f !! s)) = true.
Proof. apply bool_decide_eq_true. Qed.
Ltac verified :=
  let g := fresh "g" in let Hg := fresh "Hg" in
  intros g; intros; cbv beta in *;
  repeat match goal with
  | He : extends ?f g, Hv : vt ?f _ _ |- _ => apply (vt_mono _ _ _ _ He) in Hv
  | He : extends ?f g, Hs : slot_of ?f _ |- _ => apply (slot_grows _ _ _ He) in Hs
  end;
  cbn [inst_typed inst_ok]; rewrite ?andb_true_iff, ?has_type_iff;
  repeat (erewrite type_of_vt by eassumption); rewrite ?andb_true_iff, ?has_type_iff;
  eauto 6 using slot_of_ok.

Lemma etyped_iconst f ty imm : type_bits ty <= 64 -> etyped f (ins (iconst ty imm)) (fun g v => vt g ty v).
Proof. intros Ht. apply etyped_value; [reflexivity|]. rewrite <- Z.leb_le in Ht. verified. Qed.
Lemma etyped_binary f ty op x y : vt f ty x -> vt f ty y -> etyped f (ins (binary op x y)) (fun g v => vt g ty v).
Proof.
  intros Hx Hy. unfold binary. eapply etyped_ins_bind; [apply etyped_value_type, Hx|]. intros ty' g Hg ->.
  apply etyped_value; [reflexivity|]. intros k v Hk Hv. assert (extends f k) by (etransitivity; eassumption). revert k H Hv Hk. verified.
Qed.
Lemma etyped_iadd_imm f ty x imm : vt f ty x -> etyped f (ins (iadd_imm x imm)) (fun g v => vt g ty v).
Proof.
  intros Hx. unfold iadd_imm. eapply etyped_ins_bind; [apply etyped_value_type, Hx|]. intros ty' g Hg ->.
  apply (vt_mono _ _ _ _ Hg) in Hx. apply etyped_value; [reflexivity|]. verified.
Qed.
Lemma etyped_ineg f ty x : vt f ty x -> etyped f (ins (ineg x)) (fun g v => vt g ty v).
Proof.
  intros Hx. unfold ineg. eapply etyped_ins_bind; [apply etyped_value_type, Hx|]. intros ty' g Hg ->.
  apply (vt_mono _ _ _ _ Hg) in Hx. apply etyped_value; [reflexivity|]. verified.
Qed.
Lemma etyped_icmp f ty cc x y : vt f ty x -> vt f ty y -> etyped f (ins (icmp cc x y)) flag.
Proof. intros Hx Hy. apply etyped_value; [reflexivity|]. verified. Qed.
Lemma etyped_ireduce f ty ty' x : vt f ty' x -> type_bits ty < type_bits ty' ->
  etyped f (ins (ireduce ty x)) (fun g v => vt g ty v).
Proof. intros Hx Hlt. rewrite <- Z.ltb_lt in Hlt. apply etyped_value; [reflexivity|]. verified. Qed.
Lemma etyped_uextend f ty ty' x : vt f ty' x -> type_bits ty' < type_bits ty ->
  etyped f (ins (uextend ty x)) (fun g v => vt g ty v).
Proof. intros Hx Hlt. rewrite <- Z.ltb_lt in Hlt. apply etyped_value; [reflexivity|]. verified. Qed.
Lemma etyped_sextend f ty ty' x : vt f ty' x -> type_bits ty' < type_bits ty ->
  etyped f (ins (sextend ty x)) (fun g v => vt g ty v).
Proof. intros Hx Hlt. rewrite <- Z.ltb_lt in Hlt. apply etyped_value; [reflexivity|]. verified. Qed.
Lemma etyped_isplit f x : vt f I128 x -> etyped f (ins (isplit x)) halves.
Proof.
  intros Hx. unfold isplit. eapply etyped_ins_bind; [apply etyped_new_value|]. intros lo g Hg Hlo.
  apply (vt_mono _ _ _ _ Hg) in Hx.
  eapply etyped_ins_bind; [apply etyped_value; [reflexivity | verified]|]. intros hi k Hk Hhi.
  apply (etyped_ins_ret k (lo, hi) halves). split; [eapply vt_mono; eassumption | exact Hhi].
Qed.
Lemma etyped_slot_ptr f s : slot_of f s -> etyped f (ins (slot_ptr s)) (fun g v => vt g I64 v).
Proof. intros Hs. apply etyped_value; [reflexivity|]. verified. Qed.
Lemma etyped_slot_load f s : slot_of f s -> etyped f (ins (slot_load s)) (fun g v => vt g I64 v).
Proof. intros Hs. apply etyped_value; [reflexivity|]. verified. Qed.
Lemma etyped_slot_store f s v ty : slot_of f s -> vt f ty v -> etyped f (ins (slot_store s v)) (fun _ _ => True).
Proof. intros Hs Hv. apply etyped_push; [reflexivity|]. verified. Qed.
Lemma etyped_load f ty p o : vt f I64 p -> etyped f (ins (load ty p o)) (fun g v => vt g ty v).
Proof. intros Hp. apply etyped_value; [reflexivity|]. verified. Qed.
Lemma etyped_store f ty v p o : vt f ty v -> vt f I64 p -> etyped f (ins (store v p o)) (fun _ _ => True).
Proof. intros Hv Hp. apply etyped_push; [reflexivity|]. verified. Qed.

(** *** Calls *)
Definition ret_typed (fn : JsaFn) f (vs : list nat) : Prop :=
  match snd (signature fn) with Some ty => single ty f vs | None => True end.
Lemma call_typed f fn res r args : fn_ref fn f r -> have_types f args (fst (signature fn)) = true ->
  match res, snd (signature fn) with Some v, Some ty => vt f ty v | None, None => True | _, _ => False end ->
  inst_typed E f (Call res r args).
Proof.
  intros Hr Ha Hv. cbn [inst_typed inst_ok]. unfold fn_ref in Hr. rewrite Hr. destruct (signature fn) as [tys ret]. cbn in *.
  rewrite Ha. destruct res, ret; try contradiction; [apply has_type_iff, Hv | reflexivity].
Qed.
Lemma etyped_call f fn r args : fn_ref fn f r -> have_types f args (fst (signature fn)) = true ->
  etyped f (ins (call signature r args)) (ret_typed fn).
Proof.
  intros Hr Ha. unfold call.
  eapply etyped_ins_bind; [apply (etyped_still f _ (fun g fns => fns !! r = Some fn)); [apply grows_get; typeclasses eauto|]|].
  { intros b Hb. eexists _, _. split_and!; [reflexivity..|]. exact (fn_ref_grows _ _ _ _ Hb Hr). }
  intros fns g Hg Hfns. eapply etyped_ins_bind; [apply (etyped_still g _ (fun _ fn' => fn' = fn)); [apply grows_lift; typeclasses eauto|]|].
  { intros b Hb. exists fn, b. unfold mlift. rewrite Hfns. auto. }
  intros fn' k Hk ->. assert (Hx : extends f k) by (etransitivity; eassumption).
  unfold ret_typed. destruct (snd (signature fn)) as [ty|] eqn:Hs.
  - eapply etyped_ins_bind; [apply etyped_value; [reflexivity|]|].
    { intros g' v Hg' Hv. apply (call_typed g' fn); [eapply fn_ref_grows; [|exact Hr] | eapply have_types_mono; [|exact Ha] | rewrite Hs; exact Hv];
        etransitivity; eassumption. }
    intros v g' Hg' Hv. apply (etyped_ins_ret g' [v] (single ty)). exists v. auto.
  - eapply etyped_ins_bind; [apply etyped_push; [reflexivity|]|].
    { intros g' Hg'. apply (call_typed g' fn); [eapply fn_ref_grows; [|exact Hr] | eapply have_types_mono; [|exact Ha] | rewrite Hs; exact I];
        etransitivity; eassumption. }
    intros [] g' Hg' _. apply (etyped_ins_ret g' [] (fun _ _ => True)). exact I.
Qed.
Lemma etyped_first_result f fn m ty : etyped f m (ret_typed fn) -> snd (signature fn) = Some ty ->
  etyped f (first_result m) (fun g v => vt g ty v).
Proof.
  intros Hm Hs. unfold first_result. eapply etyped_bind; [exact Hm|]. intros vs g Hg Hv. unfold ret_typed in Hv. rewrite Hs in Hv.
  destruct Hv as (v & -> & Hv). apply (etyped_lift g _ v (fun g v => vt g ty v)); [reflexivity | exact Hv].
Qed.
Lemma etyped_jsa_invoke f fn args : have_types f args (fst (signature fn)) = true ->
  etyped f (jsa_invoke fn args) (ret_typed fn).
Proof.
  intros Ha. unfold jsa_invoke. eapply etyped_bind; [apply etyped_func_ref|]. intros r g Hg Hr.
  apply etyped_call; [exact Hr | eapply have_types_mono; eassumption].
Qed.
End Etyped.

(** *** The accesses of [state_access.rs] *)
Ltac lift_typed Hg :=
  cbv beta in *; unfold x64, x32, flag in *;
  repeat match goal with
  | Hv : vt ?f _ _ |- _ =>
      match type of Hg with extends f _ => apply (vt_mono _ _ _ _ Hg) in Hv end
  | Hs : slot_of ?f _ |- _ =>
      match type of Hg with extends f _ => apply (slot_grows _ _ _ Hg) in Hs end
  | Hs : fn_ref _ ?f _ |- _ =>
      match type of Hg with extends f _ => apply (fn_ref_grows _ _ _ _ Hg) in Hs end
  end.
Ltac ebind_by B L :=
  let a := fresh "a" in let g := fresh "g" in let Hg := fresh "Hg" in let Ha := fresh "Ha" in
  eapply B; [L | intros a g Hg Ha; lift_typed Hg].
Tactic Notation "ebind" tactic3(L) := ebind_by etyped_bind ltac:(L).
Ltac args_ok := cbn; rewrite ?andb_true_iff, ?has_type_iff; auto 8.
Ltac ereturn := eapply etyped_ret; [typeclasses eauto | assumption || exact I].

Class AccessTyped `{JitStateAccess} : Prop := {
  xreg_read_typed E f c r : vt f I64 c -> etyped E f (ir_xreg_read c r) x64;
  xreg_write_typed E f c r v : vt f I64 c -> x64 f v -> etyped E f (ir_xreg_write c r v) (fun _ _ => True) }.

Section Accesses.
Context (E : option nat).
Notation etyped := (etyped E).

Lemma provided_read_typed f c r : vt f I64 c -> etyped f (provided_xreg_read c r) x64.
Proof.
  intros Hc. unfold provided_xreg_read. ebind (apply etyped_func_ref). ebind (apply etyped_iconst; cbn; lia).
  ebind (apply etyped_first_result with Jsa.xreg_read; [apply etyped_call; [eassumption | args_ok] | reflexivity]).
  ereturn.
Qed.
Lemma provided_write_typed f c r v : vt f I64 c -> x64 f v -> etyped f (provided_xreg_write c r v) (fun _ _ => True).
Proof.
  intros Hc Hv. unfold provided_xreg_write. ebind (apply etyped_func_ref). ebind (apply etyped_iconst; cbn; lia).
  ebind (apply etyped_call; [eassumption | args_ok]). ereturn.
Qed.
Lemma owned_read_typed o f c r : vt f I64 c -> etyped f (owned_xreg_read o c r) x64.
Proof. intros Hc. unfold owned_xreg_read. ebind (apply etyped_load, Hc). ereturn. Qed.
Lemma owned_write_typed o f c r v : vt f I64 c -> x64 f v -> etyped f (owned_xreg_write o c r v) (fun _ _ => True).
Proof. intros Hc Hv. eapply etyped_store; eassumption. Qed.

Lemma pc_write_typed f c v : vt f I64 c -> x64 f v -> etyped f (jsa_pc_write c v) (fun _ _ => True).
Proof. intros Hc Hv. unfold jsa_pc_write. ebind (apply etyped_jsa_invoke; args_ok). ereturn. Qed.
Lemma reservation_write_typed f c v : vt f I64 c -> x64 f v ->
  etyped f (jsa_reservation_set_write c v) (fun _ _ => True).
Proof. intros Hc Hv. unfold jsa_reservation_set_write. ebind (apply etyped_jsa_invoke; args_ok). ereturn. Qed.
Lemma reservation_read_typed f c : vt f I64 c -> etyped f (jsa_reservation_set_read c) x64.
Proof.
  intros Hc. unfold jsa_reservation_set_read.
  ebind (eapply etyped_first_result; [apply etyped_jsa_invoke; args_ok | reflexivity]). ereturn.
Qed.

Lemma exception_slot_typed f : etyped f exception_slot (fun g v => vt g I64 v).
Proof. unfold exception_slot. ebind (apply etyped_slot_new). apply etyped_slot_ptr. assumption. Qed.
Lemma raise_illegal_typed f : etyped f jsa_raise_illegal_instruction_exception (fun g v => vt g I64 v).
Proof.
  unfold jsa_raise_illegal_instruction_exception. ebind (apply exception_slot_typed).
  ebind (apply etyped_jsa_invoke; args_ok). ereturn.
Qed.
Lemma raise_amo_typed f v : vt f I64 v -> etyped f (jsa_raise_store_amo_access_fault_exception v) (fun g v => vt g I64 v).
Proof.
  intros Hv. unfold jsa_raise_store_amo_access_fault_exception. ebind (apply exception_slot_typed).
  ebind (apply etyped_jsa_invoke; args_ok). ereturn.
Qed.
Lemma ecall_typed f c : vt f I64 c -> etyped f (jsa_ecall c) (fun g v => vt g I64 v).
Proof.
  intros Hc. unfold jsa_ecall. ebind (apply exception_slot_typed). ebind (apply etyped_jsa_invoke; args_ok). ereturn.
Qed.

Definition outcome_typed f (o : ExceptionHandledOutcome) : Prop := flag f (handled o) /\ x64 f (new_pc o).
#[export] Instance outcome_grows : Grows outcome_typed.
Proof. intros f g o He [H1 H2]. split; eapply vt_mono; eassumption. Qed.
Lemma handle_exception_typed f c x r p : vt f I64 c -> vt f I64 x -> vt f I64 r -> x64 f p ->
  etyped f (jsa_handle_exception c x r p) outcome_typed.
Proof.
  intros Hc Hx Hr Hp. unfold jsa_handle_exception. ebind (apply etyped_func_ref). ebind (apply etyped_slot_new).
  ebind (eapply etyped_slot_store; eassumption). ebind (apply etyped_slot_ptr; assumption).
  ebind (apply etyped_first_result with Jsa.handle_exception; [apply etyped_call; [eassumption | args_ok] | reflexivity]).
  ebind (apply etyped_slot_load; assumption). eapply etyped_ret; [typeclasses eauto | split; assumption].
Qed.
End Accesses.

#[export] Instance owned_typed o : AccessTyped (H := owned_access o).
Proof. split; [intros E; exact (owned_read_typed E o) | intros E; exact (owned_write_typed E o)]. Qed.
#[export] Instance proof_gen_typed : AccessTyped (H := proof_gen_access).
Proof. split; [exact provided_read_typed | exact provided_write_typed]. Qed.

(** What a fallible access gives: the code it is followed by when it did not fail is typed
    wherever it is put. *)
Definition errno_typed {A} (Q : Code -> A -> Prop) f (r : ErrnoImpl A) : Prop :=
  flag f (errno r) /\ vt f I64 (exception_ptr r) /\
  forall E g, extends f g -> etyped E g (ins (on_ok r)) Q.
#[export] Instance errno_grows {A} (Q : Code -> A -> Prop) : Grows (errno_typed Q).
Proof.
  intros f g r He (H1 & H2 & H3). split_and!; [eapply vt_mono; eassumption..|].
  intros E k Hk. apply H3. etransitivity; eassumption.
Qed.

Lemma ir_type_width V s : ir_type (IntType (mkStoreLoadInt (WIDTH V) s)) = IR_TYPE V.
Proof. destruct V as [[] s']; reflexivity. Qed.
Lemma IR_TYPE_cases V : IR_TYPE V = I64 \/ type_bits (IR_TYPE V) < 64.
Proof. destruct V as [[] s]; cbn; auto; lia. Qed.

Section Memory.
Context (E : option nat).
Notation etyped := (etyped E).

Lemma memory_store_typed f V c a v : vt f I64 c -> x64 f a -> x64 f v ->
  etyped f (jsa_memory_store V c a v) (errno_typed (fun _ _ => True)).
Proof.
  intros Hc Ha Hv. unfold jsa_memory_store. ebind (apply etyped_func_ref). ebind (apply exception_slot_typed).
  eapply (etyped_bind _ _ _ _ (fun g v => vt g (IR_TYPE V) v)); [|intros v' g1 Hg1 Hv'; lift_typed Hg1].
  { destruct V as [[] s]; cbn [WIDTH]; try (eapply etyped_ireduce; [eassumption | cbn; lia]).
    apply (etyped_ret E _ _ (fun g v => vt g I64 v)). assumption. }
  ebind (apply etyped_first_result with (Jsa.memory_store (WIDTH V));
    [apply etyped_call; [eassumption | cbn [signature jsa_signature abi_of abi_params fmap list_fmap fst]] | reflexivity]).
  { cbn [have_types]. rewrite ir_type_width. args_ok. }
  eapply etyped_ret; [typeclasses eauto|]. split_and!; [assumption..|]. intros E' k Hk. apply etyped_ins_ret; [typeclasses eauto | exact I].
Qed.

Lemma memory_load_typed f V c a : vt f I64 c -> x64 f a -> etyped f (jsa_memory_load V c a) (errno_typed x64).
Proof.
  intros Hc Ha. unfold jsa_memory_load. ebind (apply exception_slot_typed). ebind (apply etyped_slot_new).
  ebind (apply etyped_slot_ptr; eassumption). ebind (apply etyped_func_ref).
  ebind (apply etyped_first_result with (Jsa.memory_load (WIDTH V) (SIGNED V)); [apply etyped_call; [eassumption | args_ok] | reflexivity]).
  eapply etyped_ret; [typeclasses eauto|]. split_and!; [assumption..|]. intros E' k Hk. lift_typed Hk. cbn [on_ok].
  ebind_by etyped_ins_bind ltac:(apply etyped_load; assumption).
  eapply (etyped_ins_bind _ _ _ _ (fun g v => vt g I64 v)).
  - destruct (decide (IR_TYPE V = I64)) as [E1|Hn]; [rewrite E1 in *; apply (etyped_ins_ret _ _ _ (fun g v => vt g I64 v)); assumption|].
    destruct (IR_TYPE_cases V) as [|Hlt]; [contradiction|].
    destruct (SIGNED V); [eapply etyped_sextend | eapply etyped_uextend]; eassumption.
  - intros x g' Hg' Hx. apply (etyped_ins_ret _ _ _ x64). exact Hx.
Qed.
End Memory.

(** ** The builder *)
Notation etb b := (emitter b).

Definition params_typed f (tys : list IrType) (blk : nat) : Prop :=
  exists bd, blocks f !! blk = Some bd /\ mapM (fun p => value_types f !! p) (params bd) = Some tys.
#[export] Instance params_typed_grows tys : Grows (fun f => params_typed f tys).
Proof.
  intros f g blk He (bd & Hb & Hm). destruct (ext_blocks _ _ He _ _ Hb) as (bd' & Hb' & Hp & _).
  exists bd'. split; [exact Hb'|]. rewrite Hp. apply mapM_Some in Hm. apply mapM_Some.
  eapply Forall2_impl; [exact Hm|]. intros p ty Hv. eapply vt_mono; eassumption.
Qed.

Record wt (open : bool) (b : Builder) : Prop := {
  wt_inv : binv b;
  wt_et : et open (end_block b) (etb b);
  wt_core : vt (fn_of b) I64 (core_ptr_val b);
  wt_result : vt (fn_of b) I64 (result_ptr_val b);
  wt_pc : x64 (fn_of b) (pc_val (dynamic b));
  wt_end e : end_block b = Some e -> params_typed (fn_of b) [I64; I64] e }.

Definition typed {A} f (m : M Builder A) (Q : Code -> A -> Prop) : Prop :=
  forall b, wt true b -> extends f (fn_of b) ->
    exists a b', m b = Some (a, b') /\ wt true b' /\ later b b' /\ Q (fn_of b') a.
(** Code after which the current block is filled. *)
Definition closes {A} f (m : M Builder A) : Prop :=
  forall b, wt true b -> extends f (fn_of b) ->
    exists a b', m b = Some (a, b') /\ wt false b' /\ later b b'.

Lemma wt_of o o' b b' : wt o b -> later b b' -> et o' (end_block b) (etb b') ->
  end_block b' = end_block b -> x64 (fn_of b') (pc_val (dynamic b')) -> wt o' b'.
Proof.
  intros [Hi _ Hc Hr _ He] L Het Heb Hpc. pose proof (lt_extends _ _ L) as Hx. split.
  - apply L, Hi.
  - rewrite Heb. exact Het.
  - rewrite (lt_core _ _ L). eapply vt_mono; eassumption.
  - rewrite (lt_result _ _ L). eapply vt_mono; eassumption.
  - exact Hpc.
  - rewrite Heb. intros e H. eapply params_typed_grows; eauto.
Qed.
Lemma wt_dynamic o d b : wt o b -> x64 (fn_of b) (pc_val d) -> wt o (set_dynamic d b).
Proof.
  intros Hw Hd. eapply wt_of; [exact Hw | apply (set_dynamic_grows d b tt _ eq_refl) | apply Hw | reflexivity | exact Hd].
Qed.

Lemma typed_ret {A} f (a : A) Q `{!Grows Q} : Q f a -> typed f (mret a) Q.
Proof. intros Ha b Hb Hx. exists a, b. split_and!; [reflexivity | assumption | reflexivity | eapply grown; eassumption]. Qed.
Lemma typed_bind {A B} f (m : M Builder A) (k : A -> M Builder B) Q1 Q : typed f m Q1 ->
  (forall a g, extends f g -> Q1 g a -> typed g (k a) Q) -> typed f (mbind m k) Q.
Proof.
  intros Hm Hk b Hb Hx. destruct (Hm b Hb Hx) as (a & b1 & E1 & Hb1 & L1 & Q1a).
  destruct (Hk a (fn_of b1) ltac:(etransitivity; [exact Hx | apply (lt_extends _ _ L1)]) Q1a b1 Hb1 ltac:(reflexivity))
    as (c & b2 & E2 & Hb2 & L2 & Qb).
  exists c, b2. unfold mbind. rewrite E1. split_and!; [exact E2 | exact Hb2 | etransitivity; eassumption | exact Qb].
Qed.
Lemma closes_bind {A B} f (m : M Builder A) (k : A -> M Builder B) Q1 : typed f m Q1 ->
  (forall a g, extends f g -> Q1 g a -> closes g (k a)) -> closes f (mbind m k).
Proof.
  intros Hm Hk b Hb Hx. destruct (Hm b Hb Hx) as (a & b1 & E1 & Hb1 & L1 & Q1a).
  destruct (Hk a (fn_of b1) ltac:(etransitivity; [exact Hx | apply (lt_extends _ _ L1)]) Q1a b1 Hb1 ltac:(reflexivity))
    as (c & b2 & E2 & Hb2 & L2).
  exists c, b2. unfold mbind. rewrite E1. split_and!; [exact E2 | exact Hb2 | etransitivity; eassumption].
Qed.
Lemma typed_weaken {A} f g (m : M Builder A) (Q Q' : Code -> A -> Prop) : typed f m Q -> extends f g ->
  (forall k a, extends g k -> Q k a -> Q' k a) -> typed g m Q'.
Proof.
  intros Hm Hx Hq b Hb Hg. destruct (Hm b Hb) as (a & b' & E1 & Hb' & L & Qa); [etransitivity; eassumption|].
  exists a, b'. split_and!; try assumption. apply Hq; [etransitivity; [exact Hg | apply (lt_extends _ _ L)] | exact Qa].
Qed.

Lemma typed_emit {A} f (m : M Emitter A) Q : (forall E, etyped E f m Q) -> typed f (emit m) Q.
Proof.
  intros Hm b Hb Hx. destruct (Hm (end_block b) (etb b) (wt_et _ _ Hb) Hx) as (a & e & E1 & He & L & Qa).
  pose proof (emitter_later b e L) as L2. exists a. eexists. unfold emit. rewrite E1.
  split; [reflexivity|]. split; [|split; [exact L2 | exact Qa]].
  eapply wt_of; [exact Hb | exact L2 | exact He | reflexivity|]. eapply x64_grows; [apply (lt_extends _ _ L2) | apply Hb].
Qed.
Lemma typed_ir {A} f (m : M FB A) Q : (forall E, etyped E f (ins m) Q) -> typed f (ir m) Q.
Proof. apply typed_emit. Qed.

Definition pc_typed f (d : DynamicValues) : Prop := x64 f (pc_val d).
#[export] Instance pc_typed_grows : Grows pc_typed. Proof. intros f g d. apply vt_mono. Qed.

Lemma typed_core_ptr f : typed f (mget core_ptr_val) (fun g v => vt g I64 v).
Proof. intros b Hb Hx. eexists _, _. split_and!; [reflexivity | exact Hb | reflexivity | apply Hb]. Qed.
Lemma typed_result_ptr f : typed f (mget result_ptr_val) (fun g v => vt g I64 v).
Proof. intros b Hb Hx. eexists _, _. split_and!; [reflexivity | exact Hb | reflexivity | apply Hb]. Qed.
Lemma typed_dynamic f : typed f (mget dynamic) pc_typed.
Proof. intros b Hb Hx. eexists _, _. split_and!; [reflexivity | exact Hb | reflexivity | apply Hb]. Qed.
Lemma typed_set_dynamic f d : pc_typed f d -> typed f (mput (set_dynamic d)) (fun _ _ => True).
Proof.
  intros Hd b Hb Hx. eexists _, _. split_and!; [reflexivity | | apply (set_dynamic_grows d b tt _ eq_refl) | exact I].
  apply wt_dynamic; [exact Hb | eapply x64_grows; eassumption].
Qed.

Ltac lift_more Hg :=
  lift_typed Hg;
  repeat match goal with
  | Hd : pc_typed ?f _ |- _ => match type of Hg with extends f _ => apply (pc_typed_grows _ _ _ Hg) in Hd end
  end.
Ltac tbind_by B L :=
  let a := fresh "a" in let g := fresh "g" in let Hg := fresh "Hg" in let Ha := fresh "Ha" in
  eapply B; [L | intros a g Hg Ha; lift_more Hg].
Tactic Notation "tbind" tactic3(L) := tbind_by typed_bind ltac:(L).
Tactic Notation "cbind" tactic3(L) := tbind_by closes_bind ltac:(L).
Ltac treturn := eapply typed_ret; [typeclasses eauto | assumption || exact I].
Ltac tir L := apply typed_ir; intros ?; L.

Lemma typed_complete_step f u :
  match u with Absolute a => x64 f a | Offset _ => True end -> typed f (complete_step u) (fun _ _ => True).
Proof.
  intros Hu. unfold complete_step. destruct u as [o|x]; tbind (apply typed_dynamic); cbn [dynamic_complete_step].
  - tbind (apply typed_set_dynamic, Ha). treturn.
  - tbind (apply typed_set_dynamic; exact Hu). treturn.
Qed.

Definition read_typed f (r : X64 * DynamicValues) : Prop := x64 f (fst r) /\ pc_typed f (snd r).
#[export] Instance read_typed_grows : Grows read_typed.
Proof. intros f g r He [H1 H2]. split; eapply vt_mono; eassumption. Qed.
Lemma typed_read_pc f d : pc_typed f d -> typed f (ir (read_pc d)) read_typed.
Proof.
  intros Hd. apply typed_ir. intros E. unfold read_pc. destruct (pc_offset d =? 0).
  - apply (etyped_ins_ret E f (pc_val d, d) read_typed). split; exact Hd.
  - eapply etyped_ins_bind; [apply etyped_iadd_imm, Hd|]. intros v g Hg Hv.
    apply (etyped_ins_ret E g (mkX64 v, mkDynamic (d_steps d) (mkX64 v) 0) read_typed). split; exact Hv.
Qed.
Lemma typed_pc_read f : typed f builder_pc_read x64.
Proof.
  unfold builder_pc_read. tbind (apply typed_dynamic). tbind (apply typed_read_pc, Ha). destruct a0 as [x d], Ha0 as [Hx Hd]; cbn in *.
  tbind (apply typed_set_dynamic, Hd). eapply typed_ret; [typeclasses eauto|]. exact Hx.
Qed.

(** ** Blocks *)
Lemma is_filled_body bd : body_ok (insts bd) = true -> is_filled bd = true.
Proof. intros Hb. destruct (body_filled _ Hb) as (i & Hl & Ht). unfold is_filled. rewrite Hl. exact Ht. Qed.

Lemma add_block_et o E e e' bd : et o E e -> em_later e e' -> position (builder e') = position (builder e) ->
  blocks (fe e') = blocks (fe e) ++ [bd] -> insts bd = [] -> et o E e'.
Proof.
  intros [Hc (cur & cd & Hp & Hb & Hs) Hsh Hk] L P B Hi.
  assert (Hx : forall blk x, blocks (fe e') !! blk = Some x -> blocks (fe e) !! blk = Some x \/ insts x = []).
  { intros blk x. rewrite B, lookup_app_Some. intros [?|[_ Hx]]; [auto|]. apply list_lookup_singleton_Some in Hx as [_ <-]. auto. }
  split.
  - apply L, Hc.
  - exists cur, cd. split; [congruence|]. rewrite B. split; [apply lookup_app_l_Some, Hb | exact Hs].
  - rewrite P. intros blk x Hx' Hn. destruct (Hx _ _ Hx') as [Hy|Hy]; [exact (Hsh _ _ Hy Hn) | auto].
  - intros blk x Hx'. destruct (Hx _ _ Hx') as [Hy|Hy]; [eapply code_mono; [apply L | eauto] | rewrite Hy; constructor].
Qed.
Lemma create_et o E e : et o E e ->
  exists e', ins create_block e = Some (length (blocks (fe e)), e') /\ et o E e' /\ em_later e e' /\
    position (builder e') = position (builder e) /\
    blocks (fe e') = blocks (fe e) ++ [mkBlockData [] [] false].
Proof.
  intros He. eexists. split; [reflexivity|].
  assert (L : em_later e (mkEmitter (jsa_call e) (with_func (with_blocks (blocks (fe e) ++ [mkBlockData [] [] false])) (builder e)))).
  { eapply (ins_grows _ create_block_grows). reflexivity. }
  split; [eapply add_block_et; [exact He | exact L | reflexivity..]|]. auto.
Qed.

Lemma seal_et o E e blk bd : et o E e -> blocks (fe e) !! blk = Some bd ->
  exists e', ins (seal_block blk) e = Some (tt, e') /\ et o E e' /\ em_later e e' /\
    position (builder e') = position (builder e).
Proof.
  intros [Hc (cur & cd & Hp & Hb & Hs) Hsh Hk] Hbd.
  set (e' := mkEmitter (jsa_call e) (with_func (fun f => with_blocks (<[blk := seal bd]> (blocks f)) f) (builder e))).
  assert (Eq : ins (seal_block blk) e = Some (tt, e')).
  { unfold ins, seal_block, on_block. rewrite Hbd. reflexivity. }
  pose proof (ins_grows _ (seal_block_grows blk) _ _ _ Eq) as L. exists e'. split; [exact Eq|].
  split; [|split; [exact L | reflexivity]].
  assert (Hx : forall i x, blocks (fe e') !! i = Some x -> exists y, blocks (fe e) !! i = Some y /\ insts x = insts y).
  { intros i x Hx. cbn in Hx. apply list_lookup_insert_Some in Hx as [(<- & <- & _)|[_ Hx]]; eauto. }
  split.
  - apply L, Hc.
  - exists cur. destruct (decide (cur = blk)) as [->|Hn].
    + exists (seal bd). split; [exact Hp|]. cbn. rewrite list_lookup_insert_eq by (eapply lookup_lt_Some, Hbd).
      split; [reflexivity|]. replace bd with cd by congruence. exact Hs.
    + exists cd. split; [exact Hp|]. cbn. rewrite list_lookup_insert_ne by congruence. auto.
  - intros i x Hi Hn. destruct (Hx _ _ Hi) as (y & Hy & ->). exact (Hsh _ _ Hy Hn).
  - intros i x Hi. destruct (Hx _ _ Hi) as (y & Hy & ->). eapply code_mono; [apply L | eauto].
Qed.

Lemma switch_et E e blk bd : et false E e -> blocks (fe e) !! blk = Some bd -> insts bd = [] ->
  exists e', ins (switch_to_block blk) e = Some (tt, e') /\ et true E e' /\ fe e' = fe e /\
    position (builder e') = Some blk.
Proof.
  intros [Hc (cur & cd & Hp & Hb & Hs) Hsh Hk] Hbd Hi.
  exists (mkEmitter (jsa_call e) (mkFunctionBuilder (fe e) (Some blk))). split; [|split; [|auto]].
  - unfold ins, switch_to_block. rewrite Hbd. unfold may_leave. rewrite Hp, Hb, (is_filled_body _ Hs). cbn.
    unfold is_filled. rewrite Hi. reflexivity.
  - split; [exact Hc | | | exact Hk].
    + exists blk, bd. split; [reflexivity|]. split; [exact Hbd|]. rewrite Hi. constructor.
    + intros i x Hx Hn. cbn in Hx. destruct (decide (i = cur)) as [->|Hne]; [right; congruence|]. apply (Hsh _ _ Hx). congruence.
Qed.

(** The end block: as long as it has no parameters, only jumps lead to it. *)
Lemma target_ok_blocks f bs blk args : bs !! blk = blocks f !! blk ->
  target_ok (with_blocks bs f) blk args = target_ok f blk args.
Proof. intros Hb. unfold target_ok. cbn. rewrite Hb. reflexivity. Qed.
Lemma inst_typed_blocks f bs blk i : (forall j, j <> blk -> bs !! j = blocks f !! j) ->
  inst_typed (Some blk) f i -> inst_typed (Some blk) (with_blocks bs f) i.
Proof.
  intros Hb Hi. destruct i; cbn [inst_typed] in *; try exact Hi.
  - destruct Hi as (H1 & H2 & Hi). split; [exact H1|]. split; [exact H2|]. cbn [inst_ok] in *.
    rewrite !target_ok_blocks by (apply Hb; congruence). exact Hi.
  - destruct (decide _) as [|Hn]; [exact Hi|]. cbn [inst_ok] in *. rewrite target_ok_blocks by (apply Hb; congruence). exact Hi.
Qed.

Lemma param_et e blk ty bd : et true (Some blk) e -> position (builder e) = Some blk ->
  blocks (fe e) !! blk = Some bd -> insts bd = [] ->
  exists v e', ins (append_block_param blk ty) e = Some (v, e') /\ et true (Some blk) e' /\
    position (builder e') = Some blk /\ vt (fe e') ty v /\ value_types (fe e) `prefix_of` value_types (fe e') /\
    blocks (fe e') !! blk = Some (mkBlockData (params bd ++ [v]) [] (sealed bd)).
Proof.
  intros He Hp Hb Hi. destruct (etyped_new_value (Some blk) (fe e) ty e He ltac:(reflexivity)) as (v & e1 & E1 & He1 & L1 & Hv).
  assert (Hb1 : blocks (fe e1) = blocks (fe e) /\ position (builder e1) = Some blk).
  { unfold ins, new_value in E1. injection E1 as <- <-. auto. }
  destruct Hb1 as [Hb1 Hp1]. set (bs := <[blk := mkBlockData (params bd ++ [v]) [] (sealed bd)]> (blocks (fe e1))).
  exists v, (mkEmitter (jsa_call e1) (with_func (with_blocks bs) (builder e1))).
  pose proof (lookup_lt_Some _ _ _ Hb) as Hlt. rewrite <- Hb1 in Hlt.
  split; [|split; [|split; [exact Hp1 | split; [exact Hv | split; [apply L1 | apply list_lookup_insert_eq, Hlt]]]]].
  - unfold append_block_param. rewrite ins_bind. unfold mbind at 1. rewrite E1, ins_bind. unfold mbind, ins, on_block.
    rewrite Hb1, Hb. cbn. rewrite Hi. cbn. unfold bs, with_func. reflexivity.
  - destruct He1 as [Hc (cur & cd & Hcp & Hcb & Hs) Hsh Hk].
    assert (Hx : forall i x, bs !! i = Some x -> exists y, blocks (fe e1) !! i = Some y /\ insts x = insts y).
    { intros i x Hx. apply list_lookup_insert_Some in Hx as [(<- & <- & _)|[_ Hx]]; [|eauto].
      exists bd. rewrite Hb1, Hi. auto. }
    split; [exact Hc | | |].
    + exists blk. eexists. split; [exact Hp1|]. split; [apply list_lookup_insert_eq, Hlt | constructor].
    + intros i x Hi' Hn. destruct (Hx _ _ Hi') as (y & Hy & ->). exact (Hsh _ _ Hy Hn).
    + intros i x Hi'. destruct (Hx _ _ Hi') as (y & Hy & ->). eapply Forall_impl; [apply (Hk _ _ Hy)|].
      intros j. apply inst_typed_blocks. intros j' Hj. apply list_lookup_insert_ne. congruence.
Qed.

(** What is emitted before the end block exists does not lead to it. *)
Lemma inst_ok_targets f i : inst_ok signature returns f i = true ->
  match i with
  | Jump x _ => (x < length (blocks f))%nat
  | Brif _ x y => (x < length (blocks f))%nat /\ (y < length (blocks f))%nat
  | _ => True
  end.
Proof.
  assert (Ht : forall x args, target_ok f x args = true -> (x < length (blocks f))%nat).
  { intros x args. unfold target_ok. destruct (blocks f !! x) eqn:Hx; [|discriminate]. intros _. eapply lookup_lt_Some, Hx. }
  destruct i; cbn [inst_ok]; try exact (fun _ => I); [|apply Ht].
  unfold type_of. destruct (value_types f !! cond); [|discriminate]. rewrite andb_true_iff. intros [H1 H2]. eauto.
Qed.
Lemma inst_typed_raise f i : inst_typed None f i -> inst_typed (Some (length (blocks f))) f i.
Proof.
  intros Hi. assert (Ho : inst_ok signature returns f i = true).
  { destruct i; cbn [inst_typed] in Hi; try exact Hi. apply Hi. }
  pose proof (inst_ok_targets _ _ Ho) as Ht. destruct i; cbn [inst_typed]; try exact Ho.
  - split; [|split; [|exact Ho]]; intros [= E]; lia.
  - destruct (decide _) as [[= E]|]; [lia | exact Ho].
Qed.
Lemma raise_et o e : et o None e -> et o (Some (length (blocks (fe e)))) e.
Proof.
  intros [Hc Hh Hs Hk]. split; try assumption. intros blk bd Hb. eapply Forall_impl; [apply (Hk _ _ Hb)|].
  intros i. apply inst_typed_raise.
Qed.

(** ** Ways out of the function *)
Definition with_emitter (e : Emitter) (b : Builder) : Builder :=
  mkBuilder e (core_ptr_val b) (dynamic b) (end_block b) (result_ptr_val b).
Lemma ir_bind {A B} (m : M FB A) (k : A -> M Builder B) b a e : ins m (etb b) = Some (a, e) ->
  mbind (ir m) k b = k a (with_emitter e b).
Proof. intros E. unfold mbind, ir, emit. rewrite E. reflexivity. Qed.
Lemma ir_next {A B} (m : M FB A) (k : A -> M Builder B) b e0 a e : ins m e0 = Some (a, e) ->
  mbind (ir m) k (with_emitter e0 b) = k a (with_emitter e b).
Proof. exact (ir_bind m k (with_emitter e0 b) a e). Qed.
Lemma typed_step {A B} f (m : M Builder A) Q (k : A -> M Builder B) b : typed f m Q -> wt true b -> extends f (fn_of b) ->
  exists a b', mbind m k b = k a b' /\ m b = Some (a, b') /\ wt true b' /\ later b b' /\ Q (fn_of b') a.
Proof.
  intros Hm Hb Hx. destruct (Hm b Hb Hx) as (a & b' & E1 & R). exists a, b'. split; [|split; [exact E1 | exact R]].
  unfold mbind. rewrite E1. reflexivity.
Qed.

Lemma jump_et e blk args : et true (Some blk) e -> have_types (fe e) args [I64; I64] = true ->
  exists e', ins (jump blk args) e = Some (tt, e') /\ et false (Some blk) e' /\ em_later e e'.
Proof.
  intros He Ha. destruct (push_et (Some blk) (Jump blk args) e He) as (e' & E1 & He' & L); [|eauto].
  cbn. destruct (decide _); [exact Ha | contradiction].
Qed.

Lemma finalise_typed e c bd b : et false (Some e) (etb b) -> end_block b = None -> core_ptr_val b = c -> vt (fn_of b) I64 c ->
  blocks (fn_of b) !! e = Some bd -> insts bd = [] -> params bd = [] ->
  exists b', finalise_end_block e b = Some (tt, b') /\ et false (Some e) (etb b') /\ dynamic b' = dynamic b /\
    end_block b' = Some e /\ value_types (fn_of b) `prefix_of` value_types (fn_of b') /\
    params_typed (fn_of b') [I64; I64] e.
Proof.
  intros He Hn Hc Hcv Hb Hi Hp. unfold finalise_end_block. rewrite (bind_eq _ _ b None b) by (unfold mget; rewrite Hn; reflexivity).
  destruct (switch_et _ _ _ _ He Hb Hi) as (e1 & E1 & He1 & F1 & P1). rewrite (ir_bind _ _ _ _ _ E1).
  destruct (param_et e1 e I64 bd He1 P1) as (pv & e2 & E2 & He2 & P2 & Hpv & V2 & B2); [rewrite F1; exact Hb | exact Hi|].
  rewrite (ir_next _ _ _ _ _ _ E2). rewrite Hp in B2. cbn in B2.
  destruct (param_et e2 e I64 _ He2 P2 B2 eq_refl) as (sv & e3 & E3 & He3 & P3 & Hsv & V3 & B3).
  rewrite (ir_next _ _ _ _ _ _ E3). cbn in B3. rewrite (bind_eq (mget core_ptr_val) _ (with_emitter e3 b) c (with_emitter e3 b)) by (unfold mget; cbn; rewrite Hc; reflexivity).
  assert (Hc3 : vt (fe e3) I64 c).
  { eapply prefix_lookup_Some; [|etransitivity; [exact V2 | exact V3]]. rewrite F1. exact Hcv. }
  assert (Hpv3 : vt (fe e3) I64 pv) by (eapply prefix_lookup_Some; eassumption).
  destruct (pc_write_typed (Some e) (fe e3) c (mkX64 pv) Hc3 Hpv3 e3 He3 ltac:(reflexivity)) as ([] & e4 & E4 & He4 & L4 & _).
  rewrite (bind_eq (emit _) _ (with_emitter e3 b) tt (with_emitter e4 b)) by (unfold emit; cbn; rewrite E4; reflexivity).
  assert (Hsv4 : vt (fe e4) I64 sv) by (eapply vt_mono; [apply L4 | exact Hsv]).
  destruct (push_et (Some e) (Return [sv]) e4 He4) as (e5 & E5 & He5 & L5).
  { cbn. rewrite (proj2 (has_type_iff _ _ _) Hsv4). reflexivity. }
  rewrite (ir_next _ _ _ _ _ _ E5). eexists. split; [reflexivity|]. split; [exact He5|]. split; [reflexivity|]. split; [reflexivity|].
  split.
  { cbn. rewrite <- F1. etransitivity; [exact V2|]. etransitivity; [exact V3|].
    etransitivity; [apply L4 | apply L5]. }
  eapply params_typed_grows; [etransitivity; [apply L4 | apply L5]|].
  eexists. split; [exact B3|]. cbn [params]. cbn. unfold vt in *. rewrite Hpv3. cbn. rewrite Hsv. reflexivity.
Qed.

Lemma jump_to_end_closes f : closes f jump_to_end.
Proof.
  intros b Hb Hx.
  enough (H : exists b', jump_to_end b = Some (tt, b') /\ et false (end_block b') (etb b') /\
              x64 (fn_of b') (pc_val (dynamic b')) /\
              forall e, end_block b' = Some e -> params_typed (fn_of b') [I64; I64] e).
  { destruct H as (b' & Ej & He & Hpc & Hend). destruct (jump_to_end_inv _ _ _ Ej (wt_inv _ _ Hb)) as
      (? & ? & ? & ? & ? & ? & ? & _ & _ & _ & _ & _ & _ & L & _). exists tt, b'. split; [exact Ej|]. split; [|exact L].
    split; [apply L, Hb | exact He | | | exact Hpc | exact Hend].
    - rewrite (lt_core _ _ L). eapply vt_mono; [apply (lt_extends _ _ L) | apply Hb].
    - rewrite (lt_result _ _ L). eapply vt_mono; [apply (lt_extends _ _ L) | apply Hb]. }
  unfold jump_to_end. rewrite (bind_eq (mget dynamic) _ b _ b eq_refl).
  destruct (typed_step (fn_of b) _ _ (fun sv => pc <- builder_pc_read ;; existing <- mget end_block ;;
      e <- (match existing with Some e => mret e | None => ir create_block end) ;;
      ir (jump e [x64_val pc; sv]) ;;; finalise_end_block e)
    b (typed_ir _ _ _ (fun E => etyped_iconst E _ I64 (d_steps (dynamic b)) ltac:(cbn; lia))) Hb ltac:(reflexivity))
    as (sv & b1 & -> & _ & Hb1 & L1 & Hsv).
  destruct (typed_step (fn_of b1) _ _ (fun pc => existing <- mget end_block ;;
      e <- (match existing with Some e => mret e | None => ir create_block end) ;;
      ir (jump e [x64_val pc; sv]) ;;; finalise_end_block e) b1 (typed_pc_read _) Hb1 ltac:(reflexivity))
    as (pc & b2 & -> & _ & Hb2 & L2 & Hpc).
  assert (Hargs : have_types (fn_of b2) [x64_val pc; sv] [I64; I64] = true).
  { cbn. rewrite (proj2 (has_type_iff _ _ _) Hpc), (proj2 (has_type_iff _ _ _) (vt_mono _ _ _ _ (lt_extends _ _ L2) Hsv)). reflexivity. }
  rewrite (bind_eq (mget end_block) _ b2 _ b2 eq_refl). pose proof (wt_et _ _ Hb2) as He2.
  destruct (end_block b2) as [e|] eqn:Hend.
  - rewrite bind_ret. destruct (jump_et (etb b2) e _ He2 Hargs) as (e3 & E3 & He3 & L3).
    rewrite (ir_bind _ _ _ _ e3 E3). unfold finalise_end_block.
    rewrite (bind_eq (mget end_block) _ _ (Some e) (with_emitter e3 b2)) by (unfold mget; cbn; rewrite Hend; reflexivity).
    eexists. split; [reflexivity|]. cbn. rewrite Hend. split; [exact He3|].
    split; [eapply x64_grows; [apply L3 | apply Hb2]|]. intros e' [= <-].
    eapply params_typed_grows; [apply L3 | apply (wt_end _ _ Hb2), Hend].
  - destruct (create_et _ _ _ He2) as (e3 & E3 & He3 & L3 & P3 & B3). rewrite (ir_bind _ _ _ _ e3 E3).
    set (e := length (blocks (fn_of b2))) in *.
    assert (He3' : et true (Some e) e3).
    { destruct He3 as [Hc Hh Hs Hk]. split; try assumption. intros blk bd Hbd.
      rewrite B3 in Hbd. apply lookup_app_Some in Hbd as [Hbd|[_ Hbd]].
      - eapply code_mono; [apply L3|]. apply (et_code _ _ _ (raise_et _ _ He2) _ _ Hbd).
      - apply list_lookup_singleton_Some in Hbd as [_ <-]. constructor. }
    destruct (jump_et e3 e [x64_val pc; sv] He3') as (e4 & E4 & He4 & L4); [eapply have_types_mono; [apply L3 | exact Hargs]|].
    rewrite (ir_next _ _ _ _ _ _ E4). cbn [with_emitter emitter].
    assert (B4 : exists bd, blocks (fe e4) !! e = Some bd /\ insts bd = [] /\ params bd = []).
    { assert (Bn : blocks (fe e3) !! e = Some (mkBlockData [] [] false)).
      { rewrite B3. unfold e. rewrite lookup_app_r, Nat.sub_diag by lia. reflexivity. }
      destruct (et_here _ _ _ He2) as (cur & cd & Hcp & Hcb & _). apply lookup_lt_Some in Hcb.
      destruct (fr_insts _ _ _ (proj2 (proj1 L4)) e _ ltac:(eapply lookup_lt_Some, Bn) ltac:(rewrite P3, Hcp; intros [= Hce]; unfold e in Hce; lia) Bn)
        as (bd & Hbd & Hi).
      destruct (ext_blocks _ _ (proj1 (proj1 L4)) _ _ Bn) as (bd' & Hbd' & Hp' & _). exists bd.
      split; [exact Hbd|]. split; [exact Hi|]. replace bd with bd' by congruence. exact Hp'. }
    destruct B4 as (bd & Hbd & Hi & Hp).
    destruct (finalise_typed e (core_ptr_val b2) bd (with_emitter e4 b2) He4 Hend eq_refl) as (b' & E5 & He5 & D5 & N5 & V5 & T5); [|assumption..|].
    { eapply vt_mono; [etransitivity; [apply L3 | apply L4] | apply Hb2]. }
    exists b'. split; [exact E5|]. rewrite N5. split; [exact He5|]. split; [|intros e' [= <-]; exact T5].
    rewrite D5. eapply prefix_lookup_Some; [|exact V5]. eapply vt_mono; [etransitivity; [apply L3 | apply L4] | apply Hb2].
Qed.

(** ** Branches in the code of an instruction *)
Lemma step_create o b : wt o b ->
  exists b', ir create_block b = Some (length (blocks (fn_of b)), b') /\ wt o b' /\ later b b' /\ dynamic b' = dynamic b /\
    end_block b' = end_block b /\ position (fb b') = position (fb b) /\
    blocks (fn_of b') = blocks (fn_of b) ++ [mkBlockData [] [] false].
Proof.
  intros Hb. destruct (create_et _ _ _ (wt_et _ _ Hb)) as (e & E1 & He & L & P & B).
  exists (with_emitter e b). pose proof (emitter_later b e L) as L'. split; [unfold ir, emit; rewrite E1; reflexivity|].
  split; [|auto 10]. eapply wt_of; [exact Hb | exact L' | exact He | reflexivity|].
  eapply x64_grows; [apply L | apply Hb].
Qed.
Lemma step_seal o b blk bd : wt o b -> blocks (fn_of b) !! blk = Some bd ->
  exists b', ir (seal_block blk) b = Some (tt, b') /\ wt o b' /\ later b b' /\ dynamic b' = dynamic b /\
    position (fb b') = position (fb b).
Proof.
  intros Hb Hbd. destruct (seal_et _ _ _ _ _ (wt_et _ _ Hb) Hbd) as (e & E1 & He & L & P).
  exists (with_emitter e b). pose proof (emitter_later b e L) as L'. split; [unfold ir, emit; rewrite E1; reflexivity|].
  split; [|auto]. eapply wt_of; [exact Hb | exact L' | exact He | reflexivity|].
  eapply x64_grows; [apply L | apply Hb].
Qed.
Lemma step_switch b blk bd : wt false b -> blocks (fn_of b) !! blk = Some bd -> insts bd = [] ->
  exists b', ir (switch_to_block blk) b = Some (tt, b') /\ wt true b' /\ fn_of b' = fn_of b /\ position (fb b') = Some blk /\
    dynamic b' = dynamic b.
Proof.
  intros Hb Hbd Hi. destruct (switch_et _ _ _ _ (wt_et _ _ Hb) Hbd Hi) as (e & E1 & He & F & P).
  assert (Eq : ir (switch_to_block blk) b = Some (tt, with_emitter e b)) by (unfold ir, emit; rewrite E1; reflexivity).
  exists (with_emitter e b). split; [exact Eq|]. split; [|auto].
  destruct Hb as [Hinv _ Hc Hr Hpc Hend]. destruct (switch_binv _ _ _ _ Eq Hinv) as (Hinv' & _).
  split; [exact Hinv' | exact He|..]; cbn; rewrite F; assumption.
Qed.
Lemma step_push i b : wt true b -> inst_typed (end_block b) (fn_of b) i ->
  exists b', ir (push_inst i) b = Some (tt, b') /\ wt (negb (is_terminator i)) b' /\ later b b' /\ dynamic b' = dynamic b.
Proof.
  intros Hb Hi. destruct (push_et _ _ _ (wt_et _ _ Hb) Hi) as (e & E1 & He & L).
  exists (with_emitter e b). pose proof (emitter_later b e L) as L'. split; [unfold ir, emit; rewrite E1; reflexivity|].
  split; [|auto]. eapply wt_of; [exact Hb | exact L' | exact He | reflexivity|].
  eapply x64_grows; [apply L | apply Hb].
Qed.

(** A block with neither parameters nor instructions. *)
Definition blank f (blk : nat) : Prop := exists bd, blocks f !! blk = Some bd /\ params bd = [] /\ insts bd = [].
Lemma blank_later b b' blk : later b b' -> position (fb b) <> Some blk -> blank (fn_of b) blk -> blank (fn_of b') blk.
Proof.
  intros L Hp (bd & Hb & Hps & Hi).
  destruct (fr_insts _ _ _ (proj2 (lt_fb _ _ L)) blk bd ltac:(eapply lookup_lt_Some, Hb) Hp Hb) as (bd1 & H1 & I1).
  destruct (ext_blocks _ _ (lt_extends _ _ L) _ _ Hb) as (bd2 & H2 & P2 & _). replace bd2 with bd1 in P2 by congruence.
  exists bd1. split; [exact H1|]. split; congruence.
Qed.
Lemma wt_position o b : wt o b -> exists cur, position (fb b) = Some cur /\ (cur < length (blocks (fn_of b)))%nat.
Proof. intros Hb. destruct (et_here _ _ _ (wt_et _ _ Hb)) as (cur & bd & Hp & Hc & _). exists cur. split; [exact Hp | eapply lookup_lt_Some, Hc]. Qed.
Lemma wt_end_lt o b e : wt o b -> end_block b = Some e -> (e < length (blocks (fn_of b)))%nat.
Proof. intros Hb He. destruct (wt_end _ _ Hb _ He) as (bd & Hbd & _). eapply lookup_lt_Some, Hbd. Qed.

Lemma step_brif cond ty e1 e2 b : wt true b -> vt (fn_of b) ty cond -> blank (fn_of b) e1 -> blank (fn_of b) e2 ->
  end_block b <> Some e1 -> end_block b <> Some e2 ->
  exists b', ir (brif cond e1 e2) b = Some (tt, b') /\ wt false b' /\ later b b' /\ dynamic b' = dynamic b.
Proof.
  intros Hb Hc (d1 & B1 & P1 & _) (d2 & B2 & P2 & _) N1 N2. apply (step_push (Brif cond e1 e2) b Hb).
  cbn [inst_typed]. split; [congruence|]. split; [congruence|]. cbn [inst_ok]. rewrite (type_of_vt _ _ _ _ Hc).
  unfold target_ok. rewrite B1, B2, P1, P2. reflexivity.
Qed.

(** Two new blocks, and a branch to them. *)
Lemma step_fork cond ty b : wt true b -> vt (fn_of b) ty cond ->
  exists e1 e2 b1 b2 b3, ir create_block b = Some (e1, b1) /\ ir create_block b1 = Some (e2, b2) /\
    ir (brif cond e1 e2) b2 = Some (tt, b3) /\ wt false b3 /\ later b b3 /\ dynamic b3 = dynamic b /\
    e1 <> e2 /\ blank (fn_of b3) e1 /\ blank (fn_of b3) e2.
Proof.
  intros Hb Hc. destruct (step_create _ _ Hb) as (b1 & E1 & Hb1 & L1 & D1 & N1 & P1 & B1).
  destruct (step_create _ _ Hb1) as (b2 & E2 & Hb2 & L2 & D2 & N2 & P2 & B2). rewrite B1, length_app in E2. cbn in E2.
  set (e := length (blocks (fn_of b))) in *. destruct (wt_position _ _ Hb) as (cur & Hp & Hlt). fold e in Hlt.
  assert (K : forall i, i = e \/ i = (e + 1)%nat -> blank (fn_of b2) i).
  { intros i Hi. exists (mkBlockData [] [] false). split; [|auto]. rewrite B2, B1.
    destruct Hi as [-> | ->]; [rewrite <- app_assoc|]; rewrite lookup_app_r by (rewrite ?length_app; cbn; fold e; lia); [fold e; rewrite Nat.sub_diag; reflexivity|].
    rewrite length_app. cbn. fold e. replace (e + 1 - (e + 1))%nat with 0%nat by lia. reflexivity. }
  destruct (step_brif cond ty e (e + 1)%nat b2 Hb2) as (b3 & E3 & Hb3 & L3 & D3).
  { eapply vt_mono; [etransitivity; [apply (lt_extends _ _ L1) | apply (lt_extends _ _ L2)] | exact Hc]. }
  { auto. } { auto. }
  { intros He. rewrite N2, N1 in He. pose proof (wt_end_lt _ _ _ Hb He). fold e in H. lia. }
  { intros He. rewrite N2, N1 in He. pose proof (wt_end_lt _ _ _ Hb He). fold e in H. lia. }
  exists e, (e + 1)%nat, b1, b2, b3. split_and!; try assumption.
  - etransitivity; [exact L1|]. etransitivity; eassumption.
  - congruence.
  - lia.
  - eapply blank_later; [exact L3 | rewrite P2, P1, Hp; intros [= ->]; lia | auto].
  - eapply blank_later; [exact L3 | rewrite P2, P1, Hp; intros [= ->]; lia | auto].
Qed.

Section Control.
Context {Mem : Type} `{Memory Mem} `{!MemoryLaws Mem} (xregisters_offset : Z).
Context `{Acc : JitStateAccess} `{!AccessLaws xregisters_offset (H0 := Acc)} `{!AccessTyped (H := Acc)}.

(** A branch whose body leaves the function. *)
Lemma step_region cond ty (body : M Builder unit) b : wt true b -> vt (fn_of b) ty cond ->
  closes (fn_of b) body -> grows onward body ->
  exists e1 e2 b1 b2 b3 b4 b5 b6 b7, ir create_block b = Some (e1, b1) /\ ir create_block b1 = Some (e2, b2) /\
    ir (brif cond e1 e2) b2 = Some (tt, b3) /\ dynamic b3 = dynamic b /\ ir (switch_to_block e1) b3 = Some (tt, b4) /\
    body b4 = Some (tt, b5) /\ ir (seal_block e1) b5 = Some (tt, b6) /\
    ir (switch_to_block e2) (set_dynamic (dynamic b) b6) = Some (tt, b7) /\ wt true b7 /\ later b b7.
Proof.
  intros Hb Hc Hbody Hg.
  destruct (step_fork cond ty b Hb Hc) as (e1 & e2 & b1 & b2 & b3 & E1 & E2 & E3 & Hb3 & L3 & D3 & Hne & (d1 & B1 & _ & I1) & Hk2).
  destruct (step_switch b3 e1 d1 Hb3 B1 I1) as (b4 & E4 & Hb4 & F4 & P4 & D4).
  destruct (Hbody b4 Hb4) as ([] & b5 & E5 & Hb5 & L5); [rewrite F4; apply (lt_extends _ _ L3)|].
  assert (B5 : exists d, blocks (fn_of b5) !! e1 = Some d).
  { destruct (ext_blocks _ _ (lt_extends _ _ L5) e1 d1) as (d & Hd & _); [rewrite F4; exact B1 | eauto]. }
  destruct B5 as (d5 & B5). destruct (step_seal _ _ _ _ Hb5 B5) as (b6 & E6 & Hb6 & L6 & D6 & P6).
  assert (X36 : extends (fn_of b) (fn_of b6)).
  { etransitivity; [apply (lt_extends _ _ L3)|]. rewrite <- F4. etransitivity; [apply (lt_extends _ _ L5) | apply (lt_extends _ _ L6)]. }
  assert (K6 : blank (fn_of b6) e2).
  { eapply (blank_later b4); [etransitivity; [exact L5 | exact L6] | rewrite P4; congruence | rewrite F4; exact Hk2]. }
  destruct K6 as (d6 & B6 & _ & I6).
  assert (Hd : wt false (set_dynamic (dynamic b) b6)) by (apply wt_dynamic; [exact Hb6 | eapply x64_grows; [exact X36 | apply Hb]]).
  destruct (step_switch _ e2 d6 Hd B6 I6) as (b7 & E7 & Hb7 & _).
  rewrite <- D3 in E7.
  destruct (error_branch_spec xregisters_offset cond body b _ _ _ _ _ _ _ _ _ _ _ _ _ _ (wt_inv _ _ Hb) E1 E2 E3 E4 E5 Hg E6 E7) as (L7 & _).
  rewrite D3 in E7. exists e1, e2, b1, b2, b3, b4, b5, b6, b7. auto 20.
Qed.

Lemma complete_step_typed f u : match u with Absolute a => x64 f a | Offset _ => True end ->
  typed f (complete_step u ;;; mret tt) (fun _ _ => True).
Proof. intros Hu. tbind (apply (typed_complete_step f u), Hu). treturn. Qed.

Lemma complete_step_onward u : grows onward (complete_step u ;;; mret tt).
Proof. apply onward_of_later. grows. Qed.
Lemma jump_to_end_onward : grows onward jump_to_end.
Proof. intros b [] b' E Hb. apply (jump_to_end_spec xregisters_offset _ _ _ E Hb). Qed.

Lemma exit_on_branch_typed f ty cond u : vt f ty cond ->
  match u with Absolute a => x64 f a | Offset _ => True end ->
  typed f (exit_on_branch cond (complete_step u ;;; mret tt)) (fun _ _ => True).
Proof.
  intros Hc Hu b Hb Hx. lift_more Hx.
  destruct (step_region cond ty ((complete_step u ;;; mret tt) ;;; jump_to_end) b Hb Hc)
    as (e1 & e2 & b1 & b2 & b3 & b4 & b5 & b6 & b7 & E1 & E2 & E3 & D3 & E4 & E5 & E6 & E7 & Hb7 & L7).
  - eapply closes_bind; [apply complete_step_typed; destruct u; [exact I | eapply x64_grows; [exact Hx | exact Hu]]|].
    intros [] g Hg _. apply jump_to_end_closes.
  - apply grows_bind; [typeclasses eauto | apply complete_step_onward | intros _; apply jump_to_end_onward].
  - exists tt, b7. split; [|auto]. apply bind_inv in E5 as ([] & bx & E5a & E5b). unfold exit_on_branch.
    rewrite (bind_eq _ _ _ _ _ E1), (bind_eq _ _ _ _ _ E2), (bind_eq _ _ _ _ _ E3), (bind_eq (mget dynamic) _ b3 _ b3 eq_refl),
      (bind_eq _ _ _ _ _ E4), (bind_eq _ _ _ _ _ E5a), (bind_eq _ _ _ _ _ E5b), (bind_eq _ _ _ _ _ E6),
      (bind_eq (mput _) _ b6 tt (set_dynamic (dynamic b3) b6) eq_refl), D3. exact E7.
Qed.

Lemma typed_handle_exception f c x r p : vt f I64 c -> vt f I64 x -> vt f I64 r -> x64 f p ->
  typed f (emit (jsa_handle_exception c x r p)) outcome_typed.
Proof. intros Hc Hx Hr Hp. apply typed_emit. intros E. apply handle_exception_typed; assumption. Qed.
Lemma handle_exception_closes f x : vt f I64 x -> closes f (builder_handle_exception x).
Proof.
  intros Hx. unfold builder_handle_exception.
  cbind (apply typed_pc_read). cbind (apply typed_core_ptr).
  cbind (apply typed_result_ptr).
  cbind (apply typed_handle_exception; eassumption).
  match goal with Ho : outcome_typed _ _ |- _ => destruct Ho as [Hh Hn] end.
  cbind (eapply exit_on_branch_typed; [exact Hh | exact Hn]). apply jump_to_end_closes.
Qed.
Lemma handle_exception_onward x : grows onward (builder_handle_exception x).
Proof. exact (builder_handle_exception_onward xregisters_offset x). Qed.

(** The switch after an error branch, before or after the values are restored. *)
Lemma switch_then_restore e d b b' : ir (switch_to_block e) (set_dynamic d b) = Some (tt, b') ->
  exists b1, ir (switch_to_block e) b = Some (tt, b1) /\ set_dynamic d b1 = b'.
Proof.
  intros Es. pose proof (set_dynamic_ir _ (dynamic b) _ _ _ Es) as E1. exists (set_dynamic (dynamic b) b'). split.
  - rewrite <- E1. destruct b; reflexivity.
  - apply ir_inv in Es as (_ & _ & D & _). destruct b'. cbn in *. subst. reflexivity.
Qed.

Lemma errno_handle_typed {A} f (r : ErrnoImpl A) Q : errno_typed Q f r -> typed f (errno_handle r) Q.
Proof.
  intros (He & Hp & Hk) b Hb Hx.
  destruct (step_region (errno r) I8 (builder_handle_exception (exception_ptr r)) b Hb)
    as (e1 & e2 & b1 & b2 & b3 & b4 & b5 & b6 & b7 & E1 & E2 & E3 & D3 & E4 & E5 & E6 & E7 & Hb7 & L7).
  - eapply vt_mono; eassumption.
  - apply handle_exception_closes. eapply vt_mono; eassumption.
  - apply handle_exception_onward.
  - destruct (typed_ir f (on_ok r) Q) with (b := b7) as (a & b8 & E8 & Hb8 & L8 & Qa).
    + intros E. apply Hk. reflexivity.
    + exact Hb7.
    + etransitivity; [exact Hx | apply (lt_extends _ _ L7)].
    + exists a, b8. split; [|split; [exact Hb8 | split; [etransitivity; eassumption | exact Qa]]].
      destruct (switch_then_restore _ _ _ _ E7) as (bs & Es & Hs). unfold errno_handle.
      rewrite (bind_eq _ _ _ _ _ E1), (bind_eq _ _ _ _ _ E2), (bind_eq _ _ _ _ _ E3), (bind_eq (mget dynamic) _ b3 _ b3 eq_refl),
        (bind_eq _ _ _ _ _ E4), (bind_eq _ _ _ _ _ E5), (bind_eq _ _ _ _ _ E6), (bind_eq _ _ _ _ _ Es),
        (bind_eq (mput _) _ bs tt (set_dynamic (dynamic b3) bs) eq_refl), D3, Hs. exact E8.
Qed.

Lemma typed_imm f imm : typed f (builder_xvalue_of_imm imm) x64.
Proof. unfold builder_xvalue_of_imm. tbind (tir ltac:(apply etyped_iconst; cbn; lia)). treturn. Qed.
Lemma typed_imm_32 f imm : typed f (builder_xvalue32_of_imm imm) x32.
Proof. unfold builder_xvalue32_of_imm. tbind (tir ltac:(apply etyped_iconst; cbn; lia)). treturn. Qed.
Lemma typed_reservation_write f v : x64 f v -> typed f (builder_reservation_set_write v) (fun _ _ => True).
Proof.
  intros Hv. unfold builder_reservation_set_write. tbind (apply typed_core_ptr).
  apply typed_emit. intros E. apply reservation_write_typed; assumption.
Qed.
Lemma guard_reset_typed f o :
  typed f (match o with Reset => builder_reset_reservation_set | NoReset => mret tt end) (fun _ _ => True).
Proof.
  destruct o; [treturn|]. unfold builder_reset_reservation_set. tbind (apply typed_imm). apply typed_reservation_write. assumption.
Qed.
Lemma guard_body_closes f a o : vt f I64 a ->
  closes f (x <- emit (jsa_raise_store_amo_access_fault_exception a) ;;
            (match o with Reset => builder_reset_reservation_set | NoReset => mret tt end) ;;; builder_handle_exception x).
Proof.
  intros Ha. cbind (apply typed_emit; intros E; apply raise_amo_typed, Ha).
  cbind (apply (guard_reset_typed _ o)). apply handle_exception_closes. assumption.
Qed.

Lemma guard_code_onward a o : grows onward
  (x <- emit (jsa_raise_store_amo_access_fault_exception a) ;;
   (match o with Reset => builder_reset_reservation_set | NoReset => mret tt end) ;;; builder_handle_exception x).
Proof.
  apply grows_bind; [typeclasses eauto | grows | intros x]. apply grows_bind; [typeclasses eauto | | intros _; apply handle_exception_onward].
  destruct o; [grows|]. unfold builder_reset_reservation_set, builder_xvalue_of_imm, builder_reservation_set_write. grows.
Qed.

Lemma guard_handle_typed f ty c a o : vt f ty c -> vt f I64 a ->
  typed f (atomic_access_guard_handle c a o) (fun _ _ => True).
Proof.
  intros Hc Ha b Hb Hx. apply (vt_mono _ _ _ _ Hx) in Hc, Ha.
  destruct (step_region c ty _ b Hb Hc (guard_body_closes _ a o Ha) (guard_code_onward a o))
    as (e1 & e2 & b1 & b2 & b3 & b4 & b5 & b6 & b7 & E1 & E2 & E3 & D3 & E4 & E5 & E6 & E7 & Hb7 & L7).
  exists tt, b7. split; [|auto]. apply bind_inv in E5 as (x & bx & E5a & E5). apply bind_inv in E5 as ([] & by_ & E5b & E5c).
  unfold atomic_access_guard_handle.
  rewrite (bind_eq _ _ _ _ _ E1), (bind_eq _ _ _ _ _ E2), (bind_eq _ _ _ _ _ E3), (bind_eq (mget dynamic) _ b3 _ b3 eq_refl),
    (bind_eq _ _ _ _ _ E4), (bind_eq _ _ _ _ _ E5a), (bind_eq _ _ _ _ _ E5b), (bind_eq _ _ _ _ _ E5c), (bind_eq _ _ _ _ _ E6),
    (bind_eq (mput _) _ b6 tt (set_dynamic (dynamic b3) b6) eq_refl), D3. exact E7.
Qed.

(** *** Branches that merge *)
Definition phi_typed (Phi : PhiValue) f : BuilderValue Phi -> Prop :=
  match Phi with
  | PhiUnit => fun _ => True
  | PhiXValue => x64 f
  | PhiXValue32 => x32 f
  | PhiResult => fun r => r = Some tt
  end.
#[export] Instance phi_typed_grows Phi : Grows (phi_typed Phi).
Proof. intros f g v He. destruct Phi; cbn; auto; apply vt_mono, He. Qed.
Lemma phi_vals Phi f v : phi_typed Phi f v -> have_types f (to_ir_vals Phi v) (phi_ir_types Phi) = true.
Proof. destruct Phi; cbn; try reflexivity; intros Hv; rewrite (proj2 (has_type_iff _ _ _) Hv); reflexivity. Qed.
Lemma phi_params Phi f ps : mapM (fun p => value_types f !! p) ps = Some (phi_ir_types Phi) ->
  exists v, from_ir_vals Phi ps = Some v /\ phi_typed Phi f v.
Proof.
  intros Hm. apply mapM_Some in Hm.
  destruct Phi; cbn in *; inversion Hm as [|p ty l l' Hp Hl]; subst; try (inversion Hl; subst); eexists; split; try reflexivity; auto.
Qed.

(** The block after the arms, with its parameters. *)
Definition post_block f tys (e : nat) : Prop := params_typed f tys e /\ exists bd, blocks f !! e = Some bd /\ insts bd = [].
Lemma step_post b Phi : wt true b ->
  exists b1 b2, ir create_block b = Some (length (blocks (fn_of b)), b1) /\
    ir (append_block_params (length (blocks (fn_of b))) (phi_ir_types Phi)) b1 = Some (tt, b2) /\
    wt true b2 /\ later b b2 /\ dynamic b2 = dynamic b /\ end_block b2 = end_block b /\ position (fb b2) = position (fb b) /\
    post_block (fn_of b2) (phi_ir_types Phi) (length (blocks (fn_of b))).
Proof.
  intros Hb. set (e := length (blocks (fn_of b))). destruct (step_create _ _ Hb) as (b1 & E1 & Hb1 & L1 & D1 & N1 & P1 & B1).
  assert (Bn : blocks (fn_of b1) !! e = Some (mkBlockData [] [] false)).
  { rewrite B1. unfold e. rewrite lookup_app_r, Nat.sub_diag by lia. reflexivity. }
  exists b1. assert (Hc : phi_ir_types Phi = [] \/ exists ty, phi_ir_types Phi = [ty]) by (destruct Phi; cbn; eauto).
  destruct Hc as [-> | (ty & ->)].
  - exists b1. split; [exact E1|]. split; [destruct b1 as [[] ]; reflexivity|]. split_and!; try assumption.
    split; [exists (mkBlockData [] [] false); auto | eauto].
  - set (v := length (value_types (fn_of b1))).
    set (e' := mkEmitter (jsa_call (etb b)) (mkFunctionBuilder
           (mkFunction (blocks (fn_of b) ++ [mkBlockData [v] [] false]) (value_types (fn_of b) ++ [ty])
              (ext_funcs (fn_of b)) (stack_slots (fn_of b))) (position (fb b)))).
    assert (L : em_later (etb b) e').
    { split; [|intros Hk; exact Hk]. split.
      - split; cbn; try reflexivity; [apply prefix_app_r; reflexivity|]. intros i bd Hi. exists bd. split; [apply lookup_app_l_Some, Hi | auto].
      - apply frame_still; [reflexivity | cbn; rewrite length_app; lia |]. cbn. intros i bd _ Hi. exists bd. split; [apply lookup_app_l_Some, Hi | reflexivity]. }
    pose proof (emitter_later b e' L) as L'. exists (with_emitter e' b).
    assert (He' : et true (end_block b) e') by (eapply add_block_et; [apply Hb | exact L | reflexivity..]).
    assert (Hv : v = length (value_types (fn_of b))).
    { unfold v. unfold ir, emit in E1. injection E1 as <-. reflexivity. }
    assert (Hl : forall bd, (blocks (fn_of b) ++ [bd]) !! e = Some bd) by (intros bd; unfold e; rewrite lookup_app_r, Nat.sub_diag by lia; reflexivity).
    split; [exact E1|]. split; [|split; [|split; [exact L'|split_and!; try reflexivity]]].
    + unfold ir, emit in E1. injection E1 as <-. unfold ir, emit, ins, append_block_params, append_block_param, new_value, on_block, mbind.
      cbn. rewrite Hl. cbn. unfold with_func, with_blocks, e', v, e. cbn. rewrite insert_app_r_alt, Nat.sub_diag by lia. reflexivity.
    + eapply wt_of; [exact Hb | exact L' | exact He' | reflexivity|]. eapply x64_grows; [apply L | apply Hb].
    + split; [|exists (mkBlockData [v] [] false); cbn; auto]. exists (mkBlockData [v] [] false). cbn. split; [apply Hl|].
      rewrite Hv, lookup_app_r, Nat.sub_diag by lia. reflexivity.
Qed.

Lemma post_later b b' tys e : later b b' -> position (fb b) <> Some e -> post_block (fn_of b) tys e -> post_block (fn_of b') tys e.
Proof.
  intros L Hp [Ht (bd & Hb & Hi)]. split; [eapply params_typed_grows; [apply (lt_extends _ _ L) | exact Ht]|].
  destruct (fr_insts _ _ _ (proj2 (lt_fb _ _ L)) e bd ltac:(eapply lookup_lt_Some, Hb) Hp Hb) as (bd1 & H1 & I1).
  exists bd1. split; [exact H1 | congruence].
Qed.

(** A block that waits for its code is not the end block. *)
Lemma post_not_end b tys e : wt true b -> post_block (fn_of b) tys e -> end_block b <> Some e.
Proof.
  intros Hb [_ (bd & Hbd & Hi)] He. destruct (proj1 (proj2 (proj2 (wt_inv _ _ Hb))) e He) as (p & s & bd' & rest & r & Hbd' & _ & Hi' & _).
  replace bd' with bd in Hi' by congruence. congruence.
Qed.

Lemma step_jump b Phi e v : wt true b -> post_block (fn_of b) (phi_ir_types Phi) e -> phi_typed Phi (fn_of b) v ->
  exists b', ir (jump e (to_ir_vals Phi v)) b = Some (tt, b') /\ wt false b' /\ later b b' /\ dynamic b' = dynamic b.
Proof.
  intros Hb Hp Hv. apply (step_push (Jump e (to_ir_vals Phi v)) b Hb). cbn [inst_typed].
  destruct (decide _) as [Heq|_]; [exfalso; eapply post_not_end; [exact Hb | exact Hp | congruence]|].
  destruct Hp as [(bd & Hbd & Hm) _]. cbn [inst_ok]. unfold target_ok. rewrite Hbd, Hm. apply phi_vals, Hv.
Qed.

Lemma step_arm f b e1 e3 Phi (mt : M Builder (BuilderValue Phi)) : wt false b -> blank (fn_of b) e1 ->
  post_block (fn_of b) (phi_ir_types Phi) e3 -> e1 <> e3 -> typed f mt (phi_typed Phi) -> extends f (fn_of b) ->
  exists b1 r b2 b3 b4, ir (switch_to_block e1) b = Some (tt, b1) /\ mt b1 = Some (r, b2) /\
    ir (jump e3 (to_ir_vals Phi r)) b2 = Some (tt, b3) /\ ir (seal_block e1) b3 = Some (tt, b4) /\ wt false b4 /\
    extends (fn_of b) (fn_of b4) /\ post_block (fn_of b4) (phi_ir_types Phi) e3 /\
    (forall k, k <> e1 -> blank (fn_of b) k -> blank (fn_of b4) k).
Proof.
  intros Hb (d1 & B1 & _ & I1) H3 Hne Hm Hx.
  destruct (step_switch b e1 d1 Hb B1 I1) as (b1 & E1 & Hb1 & F1 & P1 & D1).
  destruct (Hm b1 Hb1) as (r & b2 & E2 & Hb2 & L2 & Qr); [rewrite F1; exact Hx|].
  assert (N3 : position (fb b1) <> Some e3) by congruence.
  assert (H32 : post_block (fn_of b2) (phi_ir_types Phi) e3) by (eapply post_later; [exact L2 | exact N3 | rewrite F1; exact H3]).
  destruct (step_jump b2 Phi e3 r Hb2 H32 Qr) as (b3 & E3 & Hb3 & L3 & D3).
  assert (L13 : later b1 b3) by (etransitivity; eassumption).
  destruct (ext_blocks _ _ (lt_extends _ _ L13) e1 d1) as (d3 & B3 & _); [rewrite F1; exact B1|].
  destruct (step_seal _ _ _ _ Hb3 B3) as (b4 & E4 & Hb4 & L4 & D4 & _).
  assert (L14 : later b1 b4) by (etransitivity; eassumption).
  exists b1, r, b2, b3, b4. split_and!; try assumption.
  - rewrite <- F1. apply (lt_extends _ _ L14).
  - eapply post_later; [exact L14 | exact N3 | rewrite F1; exact H3].
  - intros k Hk Hblank. eapply blank_later; [exact L14 | congruence | rewrite F1; exact Hblank].
Qed.

Lemma branch_merge_typed f Phi c (mt mf : M Builder (BuilderValue Phi)) : flag f c -> typed f mt (phi_typed Phi) ->
  typed f mf (phi_typed Phi) -> grows onward mt -> grows onward mf ->
  typed f (builder_branch_merge Phi c mt mf) (phi_typed Phi).
Proof.
  intros Hc Ht Hf Gt Gf b Hb Hx. apply (vt_mono _ _ _ _ Hx) in Hc.
  enough (H' : exists r b', builder_branch_merge Phi c mt mf b = Some (r, b') /\ wt true b' /\ phi_typed Phi (fn_of b') r).
  { destruct H' as (r & b' & E & Hb' & Hr). exists r, b'. split; [exact E|]. split; [exact Hb'|]. split; [|exact Hr].
    destruct (branch_merge_inv xregisters_offset _ _ _ _ _ _ _ E (wt_inv _ _ Hb) Gt Gf)
      as (ps & e & bt & rt & bt1 & bt2 & bf & rf & bf1 & bf2 & []). assumption. }
  destruct (step_create _ _ Hb) as (b1 & E1 & Hb1 & L1 & D1 & N1 & P1 & B1).
  destruct (step_create _ _ Hb1) as (b2 & E2 & Hb2 & L2 & D2 & N2 & P2 & B2).
  destruct (step_post b2 Phi Hb2) as (b3 & b4 & E3 & E4 & Hb4 & L4 & D4 & N4 & P4 & H4).
  set (e1 := length (blocks (fn_of b))) in *. set (e2 := length (blocks (fn_of b1))) in *. set (e3 := length (blocks (fn_of b2))) in *.
  destruct (wt_position _ _ Hb) as (cur & Hp & Hlt). fold e1 in Hlt.
  assert (He2 : e2 = S e1) by (unfold e2; rewrite B1, length_app; cbn; fold e1; lia).
  assert (He3 : e3 = S e2) by (unfold e3; rewrite B2, length_app; cbn; fold e2; lia).
  assert (K1 : blank (fn_of b4) e1).
  { eapply blank_later; [exact L4 | rewrite P2, P1, Hp; intros [= ->]; lia|].
    eapply blank_later; [exact L2 | rewrite P1, Hp; intros [= ->]; lia|].
    exists (mkBlockData [] [] false). split; [|auto]. rewrite B1. unfold e1. rewrite lookup_app_r, Nat.sub_diag by lia. reflexivity. }
  assert (K2 : blank (fn_of b4) e2).
  { eapply blank_later; [exact L4 | rewrite P2, P1, Hp; intros [= ->]; lia|].
    exists (mkBlockData [] [] false). split; [|auto]. rewrite B2. unfold e2. rewrite lookup_app_r, Nat.sub_diag by lia. reflexivity. }
  assert (X4 : extends (fn_of b) (fn_of b4)).
  { etransitivity; [apply (lt_extends _ _ L1)|]. etransitivity; [apply (lt_extends _ _ L2) | apply (lt_extends _ _ L4)]. }
  assert (Nend : forall e, end_block b4 = Some e -> (e < e1)%nat).
  { intros e He. rewrite N4, N2, N1 in He. apply (wt_end_lt _ _ _ Hb He). }
  destruct (step_brif c I8 e1 e2 b4 Hb4) as (b5 & E5 & Hb5 & L5 & D5);
    [eapply vt_mono; eassumption | exact K1 | exact K2 | intros He; specialize (Nend _ He); lia.. |].
  assert (P45 : forall e, (e1 <= e)%nat -> position (fb b4) <> Some e) by (intros e He; rewrite P4, P2, P1, Hp; intros [= ->]; lia).
  assert (X5 : extends f (fn_of b5)) by (etransitivity; [exact Hx|]; etransitivity; [exact X4 | apply (lt_extends _ _ L5)]).
  destruct (step_arm f b5 e1 e3 Phi mt Hb5) as (b6 & rt & b7 & b8 & b9 & E6 & E7 & E8 & E9 & Hb9 & X9 & H9 & K9);
    [eapply blank_later; [exact L5 | apply P45; lia | exact K1] | eapply post_later; [exact L5 | apply P45; lia | exact H4] | lia | exact Ht | exact X5 |].
  set (b10 := set_dynamic (dynamic b5) b9).
  assert (Hb10 : wt false b10) by (apply wt_dynamic; [exact Hb9 | eapply x64_grows; [exact X9 | apply Hb5]]).
  destruct (step_arm f b10 e2 e3 Phi mf Hb10) as (b11 & rf & b12 & b13 & b14 & E11 & E12 & E13 & E14 & Hb14 & X14 & H14 & _);
    [apply K9; [lia | eapply blank_later; [exact L5 | apply P45; lia | exact K2]] | exact H9 | lia | exact Hf | etransitivity; [exact X5 | exact X9] |].
  destruct H14 as [(d14 & B14 & M14) (d14' & B14' & I14)]. replace d14' with d14 in I14 by congruence.
  destruct (step_switch b14 e3 d14 Hb14 B14 I14) as (b15 & E15 & Hb15 & F15 & P15 & D15).
  destruct (phi_params Phi (fn_of b14) (params d14) M14) as (v & Ev & Hv).
  exists v, b15. split; [|split; [exact Hb15 | rewrite F15; exact Hv]]. unfold builder_branch_merge.
  rewrite (bind_eq _ _ _ _ _ E1), (bind_eq _ _ _ _ _ E2), (bind_eq _ _ _ _ _ E3), (bind_eq _ _ _ _ _ E4), (bind_eq _ _ _ _ _ E5),
    (bind_eq (mget dynamic) _ b5 _ b5 eq_refl), (bind_eq _ _ _ _ _ E6), (bind_eq _ _ _ _ _ E7), (bind_eq _ _ _ _ _ E8),
    (bind_eq _ _ _ _ _ E9), (bind_eq (mput (set_dynamic (dynamic b5))) _ b9 tt b10 eq_refl), (bind_eq _ _ _ _ _ E11), (bind_eq _ _ _ _ _ E12),
    (bind_eq _ _ _ _ _ E13), (bind_eq _ _ _ _ _ E14), (bind_eq _ _ _ _ _ E15), (bind_eq _ _ b15 (params d14) b15).
  - rewrite Ev. reflexivity.
  - unfold ir, emit, ins, block_params, mbind, mget, mlift. rewrite F15, B14. destruct b15 as [[] ]. reflexivity.
Qed.

(** ** The operations of the instruction context *)
Definition pcu_typed f (u : ProgramCounterUpdate X64) : Prop := match u with Next _ => True | Set_ x => x64 f x end.
#[export] Instance pcu_typed_grows : Grows pcu_typed.
Proof. intros f g [x|w] He; cbn; auto. apply x64_grows, He. Qed.
Definition res_typed {A} (Q : Code -> A -> Prop) f (r : option A) : Prop := exists a, r = Some a /\ Q f a.
#[export] Instance res_typed_grows {A} (Q : Code -> A -> Prop) `{!Grows Q} : Grows (res_typed Q).
Proof. intros f g r He (a & -> & Ha). exists a. split; [reflexivity | eapply grown; eassumption]. Qed.
Definition any {A} (f : Code) (_ : A) : Prop := True.

Notation B := Builder.
Notation ar := (@xvalue_arithmetic B _).
Notation ar32 := (@xvalue32_arithmetic B _).

Lemma typed_binary f op x y : x64 f x -> x64 f y -> typed f (builder_binary mkX64 x64_val op x y) x64.
Proof. intros Hx Hy. unfold builder_binary. tbind (tir ltac:(eapply etyped_binary; eassumption)). treturn. Qed.
Lemma typed_binary_32 f op x y : x32 f x -> x32 f y -> typed f (builder_binary mkX32 x32_val op x y) x32.
Proof. intros Hx Hy. unfold builder_binary. tbind (tir ltac:(eapply etyped_binary; eassumption)). treturn. Qed.
Lemma ty_negate f x : x64 f x -> typed f (@negate _ _ ar x) x64.
Proof. intros Hx. cbn. tbind (tir ltac:(eapply etyped_ineg; eassumption)). treturn. Qed.
Lemma ty_shift f x s y : x64 f x -> x64 f y -> typed f (@shift _ _ ar x s y) x64. Proof. apply typed_binary. Qed.
Lemma ty_shift_32 f x s y : x32 f x -> x32 f y -> typed f (@shift _ _ ar32 x s y) x32. Proof. apply typed_binary_32. Qed.
Lemma ty_compare f x y p : x64 f x -> x64 f y -> typed f (@compare _ _ _ (@xvalue_comparable B _) x y p) flag.
Proof. intros Hx Hy. cbn. unfold builder_comparable. tir ltac:(eapply etyped_icmp; eassumption). Qed.
Lemma ty_compare_32 f x y p : x32 f x -> x32 f y -> typed f (@compare _ _ _ (@xvalue32_comparable B _) x y p) flag.
Proof. intros Hx Hy. cbn. unfold builder_comparable. tir ltac:(eapply etyped_icmp; eassumption). Qed.
Lemma ty_bool_and f x y : flag f x -> flag f y -> typed f (@bool_and B _ x y) flag.
Proof. intros Hx Hy. cbn. tir ltac:(eapply etyped_binary; eassumption). Qed.
Lemma ty_narrow f x : x64 f x -> typed f (@narrow B _ x) x32.
Proof. intros Hx. cbn. unfold builder_narrow. tbind (tir ltac:(eapply etyped_ireduce; [eassumption | cbn; lia])). treturn. Qed.
Lemma ty_extend_signed f x : x32 f x -> typed f (@extend_signed B _ x) x64.
Proof. intros Hx. cbn. unfold builder_extend_signed. tbind (tir ltac:(eapply etyped_sextend; [eassumption | cbn; lia])). treturn. Qed.
Lemma ty_extend_unsigned f x : x32 f x -> typed f (@extend_unsigned B _ x) x64.
Proof. intros Hx. cbn. unfold builder_extend_unsigned. tbind (tir ltac:(eapply etyped_uextend; [eassumption | cbn; lia])). treturn. Qed.
Lemma ty_from_bool f x : flag f x -> typed f (@xvalue_from_bool B _ x) x64.
Proof. intros Hx. cbn. unfold builder_xvalue_from_bool. tbind (tir ltac:(eapply etyped_uextend; [eassumption | cbn; lia])). treturn. Qed.

Definition wide f (p : nat * nat) : Prop := vt f I128 (fst p) /\ vt f I128 (snd p).
#[local] Instance wide_grows : Grows wide.
Proof. intros f g p He [H1 H2]. split; eapply vt_mono; eassumption. Qed.
Ltac extend128 := first [tir ltac:(eapply etyped_sextend; [eassumption | cbn; lia]) | tir ltac:(eapply etyped_uextend; [eassumption | cbn; lia])].
Lemma ty_mul_high f x y t : x64 f x -> x64 f y -> typed f (@mul_high B _ x y t) x64.
Proof.
  intros Hx Hy. cbn. unfold builder_mul_high. eapply (typed_bind _ _ _ wide).
  - destruct t; tbind extend128; tbind extend128; (eapply typed_ret; [typeclasses eauto | split; assumption]).
  - intros [lhs rhs] g Hg [Hl Hr]. tbind (tir ltac:(eapply etyped_binary; eassumption)). tbind (tir ltac:(eapply etyped_isplit; eassumption)).
    destruct a0 as [lo hi], Ha0 as [_ Hhi]. eapply typed_ret; [typeclasses eauto | exact Hhi].
Qed.

Lemma ty_read_nz f r : typed f (@xregister_read_nz B _ r) x64.
Proof.
  cbn. unfold builder_xregister_read_nz. tbind (apply typed_core_ptr). apply typed_emit. intros E. apply xreg_read_typed. assumption.
Qed.
Lemma ty_write_nz f r v : x64 f v -> typed f (@xregister_write_nz B _ r v) any.
Proof.
  intros Hv. cbn. unfold builder_xregister_write_nz. tbind (apply typed_core_ptr). apply typed_emit. intros E. apply xreg_write_typed; assumption.
Qed.
Lemma ty_read f r : typed f (@xregister_read B _ r) x64.
Proof. cbn. unfold xregister_read_default. destruct (split_x0 r); [apply typed_imm | apply ty_read_nz]. Qed.
Lemma ty_write f r v : x64 f v -> typed f (@xregister_write B _ r v) any.
Proof. intros Hv. cbn. unfold xregister_write_default. destruct (split_x0 r); [treturn | apply ty_write_nz, Hv]. Qed.
Lemma ty_reservation_read f : typed f (@reservation_set_read B _) x64.
Proof. cbn. unfold builder_reservation_set_read. tbind (apply typed_core_ptr). apply typed_emit. intros E. apply reservation_read_typed. assumption. Qed.
Lemma ty_branch f c o w : flag f c -> typed f (@branch B _ c o w) pcu_typed.
Proof. intros Hc. cbn. unfold builder_branch. tbind (eapply exit_on_branch_typed; [exact Hc | exact I]). eapply typed_ret; [typeclasses eauto | exact I]. Qed.

Lemma ty_ok {A} f (a : A) Q `{!Grows Q} : Q f a -> typed f (@ok B _ A a) (res_typed Q).
Proof. intros Ha. cbn. eapply typed_ret; [typeclasses eauto|]. exists a. auto. Qed.
Lemma ty_guard f V a o : x64 f a -> typed f (@atomic_access_fault_guard B _ V a o) (res_typed any).
Proof.
  intros Ha. cbn. unfold builder_atomic_access_fault_guard. tbind (apply typed_imm). tbind (apply typed_binary; eassumption).
  tbind (apply typed_imm). tbind (tir ltac:(eapply etyped_icmp; eassumption)). tbind (eapply guard_handle_typed; eassumption).
  eapply typed_ret; [typeclasses eauto|]. exists tt. split; [reflexivity | exact I].
Qed.
Lemma ty_store f V a v : x64 f a -> x64 f v -> typed f (@main_memory_store B _ V a v) (res_typed any).
Proof.
  intros Ha Hv. cbn. unfold builder_main_memory_store. tbind (apply typed_core_ptr).
  tbind (apply typed_emit; intros E; eapply memory_store_typed; eassumption). tbind (eapply errno_handle_typed; eassumption).
  eapply typed_ret; [typeclasses eauto|]. exists tt. split; [reflexivity | exact I].
Qed.
Lemma ty_load f V a : x64 f a -> typed f (@main_memory_load B _ V a) (res_typed x64).
Proof.
  intros Ha. cbn. unfold builder_main_memory_load. tbind (apply typed_core_ptr).
  tbind (apply typed_emit; intros E; eapply memory_load_typed; eassumption). tbind (eapply errno_handle_typed; eassumption).
  eapply typed_ret; [typeclasses eauto|]. eexists. split; [reflexivity | assumption].
Qed.

(** ** Functions

    [check_op] types an operation, [check] a function over the context; an operand is read
    through a view that has a register in it. *)
Lemma typed_view {A C} f (o : option A) a (k : A -> M B C) Q : o = Some a -> typed f (k a) Q -> typed f (mbind (mlift o) k) Q.
Proof. intros -> Hk. exact Hk. Qed.
Lemma ty_and_then {A C} f (r : option A) (k : A -> M B (option C)) Q Q' : res_typed Q f r ->
  (forall a, Q f a -> typed f (k a) Q') -> typed f (@and_then B _ A C r k) Q'.
Proof. intros (a & -> & Ha) Hk. exact (Hk a Ha). Qed.
Lemma ty_map {A} f (r : option A) w Q : res_typed Q f r ->
  typed f (mret (@ires_map B _ A (ProgramCounterUpdate X64) r (fun _ => Next w))) (res_typed pcu_typed).
Proof.
  intros (a & -> & Ha). eapply typed_ret; [typeclasses eauto|]. exists (Next w). split; [reflexivity | exact I].
Qed.
Ltac check_op :=
  lazymatch goal with
  | |- typed _ (negate _) _ => eapply ty_negate
  | |- typed _ (@add _ _ (@xvalue_arithmetic _ _) _ _) _ => eapply typed_binary
  | |- typed _ (@sub _ _ (@xvalue_arithmetic _ _) _ _) _ => eapply typed_binary
  | |- typed _ (@and _ _ (@xvalue_arithmetic _ _) _ _) _ => eapply typed_binary
  | |- typed _ (@or _ _ (@xvalue_arithmetic _ _) _ _) _ => eapply typed_binary
  | |- typed _ (@xor _ _ (@xvalue_arithmetic _ _) _ _) _ => eapply typed_binary
  | |- typed _ (@mul _ _ (@xvalue_arithmetic _ _) _ _) _ => eapply typed_binary
  | |- typed _ (@div_unsigned _ _ (@xvalue_arithmetic _ _) _ _) _ => eapply typed_binary
  | |- typed _ (@div_signed _ _ (@xvalue_arithmetic _ _) _ _) _ => eapply typed_binary
  | |- typed _ (@modulus_unsigned _ _ (@xvalue_arithmetic _ _) _ _) _ => eapply typed_binary
  | |- typed _ (@modulus_signed _ _ (@xvalue_arithmetic _ _) _ _) _ => eapply typed_binary
  | |- typed _ (@min_signed _ _ (@xvalue_arithmetic _ _) _ _) _ => eapply typed_binary
  | |- typed _ (@shift _ _ (@xvalue_arithmetic _ _) _ _ _) _ => eapply ty_shift
  | |- typed _ (@mul _ _ (@xvalue32_arithmetic _ _) _ _) _ => eapply typed_binary_32
  | |- typed _ (@div_unsigned _ _ (@xvalue32_arithmetic _ _) _ _) _ => eapply typed_binary_32
  | |- typed _ (@div_signed _ _ (@xvalue32_arithmetic _ _) _ _) _ => eapply typed_binary_32
  | |- typed _ (@modulus_unsigned _ _ (@xvalue32_arithmetic _ _) _ _) _ => eapply typed_binary_32
  | |- typed _ (@modulus_signed _ _ (@xvalue32_arithmetic _ _) _ _) _ => eapply typed_binary_32
  | |- typed _ (@shift _ _ (@xvalue32_arithmetic _ _) _ _ _) _ => eapply ty_shift_32
  | |- typed _ (@compare _ _ _ (@xvalue_comparable _ _) _ _ _) _ => eapply ty_compare
  | |- typed _ (@compare _ _ _ (@xvalue32_comparable _ _) _ _ _) _ => eapply ty_compare_32
  | |- typed _ (xvalue_of_imm _) _ => eapply typed_imm
  | |- typed _ (xvalue32_of_imm _) _ => eapply typed_imm_32
  | |- typed _ (bool_and _ _) _ => eapply ty_bool_and
  | |- typed _ (narrow _) _ => eapply ty_narrow
  | |- typed _ (extend_signed _) _ => eapply ty_extend_signed
  | |- typed _ (extend_unsigned _) _ => eapply ty_extend_unsigned
  | |- typed _ (xvalue_from_bool _) _ => eapply ty_from_bool
  | |- typed _ (mul_high _ _ _) _ => eapply ty_mul_high
  | |- typed _ (xregister_read_nz _) _ => eapply ty_read_nz
  | |- typed _ (xregister_write_nz _ _) _ => eapply ty_write_nz
  | |- typed _ (xregister_read _) _ => eapply ty_read
  | |- typed _ (xregister_write _ _) _ => eapply ty_write
  | |- typed _ (reservation_set_write _) _ => eapply typed_reservation_write
  | |- typed _ (reservation_set_read) _ => eapply ty_reservation_read
  | |- typed _ (pc_read) _ => eapply typed_pc_read
  | |- typed _ (branch _ _ _) _ => eapply ty_branch
  | |- typed _ (atomic_access_fault_guard _ _ _) _ => eapply ty_guard
  | |- typed _ (main_memory_store _ _ _) _ => eapply ty_store
  | |- typed _ (main_memory_load _ _) _ => eapply ty_load
  end; eassumption.
Ltac lift_check Hg :=
  cbn [phi_typed] in *; lift_more Hg;
  repeat match goal with
  | Hr : res_typed ?Q ?f _ |- _ =>
      match type of Hg with extends f _ => apply (res_typed_grows Q _ _ _ Hg) in Hr end
  end.
Create HintDb check_fn.
(** An arm of a branch, to the builder. *)
Ltac arm_step :=
  match goal with
  | |- forall _, _ => intro
  | |- grows _ (mbind _ _) => apply grows_bind; [typeclasses eauto | |]
  | |- grows _ (mret _) => apply grows_ret; typeclasses eauto
  | |- grows onward (branch_merge _ _ _ _) => apply (onward_branch_merge xregisters_offset)
  | |- grows _ _ =>
      solve [cbn; unfold builder_xvalue_of_imm, builder_xvalue32_of_imm, builder_comparable, builder_binary; grows]
  end.
Ltac arm := repeat arm_step.
Ltac check_step :=
  lazymatch goal with
  | |- typed _ (branch_merge PhiXValue _ _ _) _ =>
      eapply (branch_merge_typed _ PhiXValue);
      [eassumption | change (phi_typed PhiXValue) with x64; solve [check] .. | arm | arm]
  | |- typed _ (branch_merge PhiXValue32 _ _ _) _ =>
      eapply (branch_merge_typed _ PhiXValue32);
      [eassumption | change (phi_typed PhiXValue32) with x32; solve [check] .. | arm | arm]
  | |- typed _ (mbind (mlift _) _) _ => eapply typed_view; [eassumption|]
  | |- typed _ (mbind (and_then _ _) _) _ => eapply typed_bind; [solve [check] | bound]
  | |- typed _ (mbind _ _) _ => eapply typed_bind; [solve [check] | bound]
  | |- typed _ (and_then _ _) _ => eapply ty_and_then; [eassumption | intros ? ?]
  | |- typed _ (ok _) _ => eapply ty_ok; [typeclasses eauto | first [eassumption | exact I]]
  | |- typed _ (mret (ires_map _ _)) _ => eapply ty_map; eassumption
  | |- typed _ (mret _) _ => eapply typed_ret; [typeclasses eauto | first [eassumption | exact I]]
  | |- typed _ _ _ => first [solve [check_op] | solve [eauto 3 with check_fn] | progress autounfold with lower]
  end
with bound :=
  let a := fresh "a" in let g := fresh "g" in let Hg := fresh "Hg" in let Ha := fresh "Ha" in
  intros a g Hg Ha; lift_check Hg
with check := repeat check_step.


Notation unit_typed f m := (typed f m (res_typed any)).
Lemma ty_load_fn f V imm rs1 rd : unit_typed f (@run_load B _ V imm rs1 rd). Proof. unfold run_load. check. Qed.
Lemma ty_store_fn f V imm rs1 rs2 : unit_typed f (@run_store B _ V imm rs1 rs2). Proof. unfold run_store. check. Qed.
Lemma ty_test_and_unset f a : x64 f a -> typed f (@test_and_unset_reservation_set B _ a) flag.
Proof. intros Ha. unfold test_and_unset_reservation_set. check. Qed.
#[local] Hint Resolve ty_load_fn ty_store_fn ty_test_and_unset : check_fn.
Lemma ty_x64_atomic f rs1 rs2 rd (op : X64 -> X64 -> M B X64) :
  (forall g x y, x64 g x -> x64 g y -> typed g (op x y) x64) -> unit_typed f (@run_x64_atomic B _ rs1 rs2 rd op).
Proof. intros Hop. unfold run_x64_atomic. check. Qed.
Lemma ty_atomic_load f V rs1 rd : unit_typed f (@run_atomic_load B _ V rs1 rd). Proof. unfold run_atomic_load. check. Qed.
Lemma ty_atomic_swap f V rs1 rs2 rd : unit_typed f (@run_atomic_swap B _ V rs1 rs2 rd). Proof. unfold run_atomic_swap. check. Qed.

(** The arms of a conditional store merge with [Some tt]. *)
Lemma any_unit f m : unit_typed f m -> typed f m (phi_typed PhiResult).
Proof. intros Hm. eapply typed_weaken; [exact Hm | reflexivity|]. intros k r _ ([] & -> & _). reflexivity. Qed.
Lemma ty_sc_success f V rs2 rd a : x64 f a -> unit_typed f
  (value_rs2 <- @xregister_read B _ rs2 ;; sc_success_imm <- @xvalue_of_imm B _ SC_SUCCESS ;;
   @xregister_write B _ rd sc_success_imm ;;; @main_memory_store B _ V a value_rs2).
Proof. intros Ha. check. Qed.
Lemma ty_sc_failure f rd : unit_typed f
  (sc_failure_imm <- @xvalue_of_imm B _ SC_FAILURE ;; @xregister_write B _ rd sc_failure_imm ;;; @ok B _ unit tt).
Proof. check. Qed.
Lemma ty_atomic_store f V rs1 rs2 rd : unit_typed f (@run_atomic_store B _ V rs1 rs2 rd).
Proof.
  unfold run_atomic_store. eapply typed_bind; [solve [check]|]. bound. eapply typed_bind; [solve [check]|]. bound.
  eapply ty_and_then; [eassumption | intros [] _]. eapply typed_bind; [solve [check]|]. bound.
  eapply typed_weaken; [apply (branch_merge_typed _ PhiResult) | reflexivity | intros k r _ Hr; exists tt; split; [exact Hr | exact I]].
  - assumption.
  - apply any_unit, ty_sc_success. assumption.
  - apply any_unit, ty_sc_failure.
  - apply (sc_success_onward xregisters_offset).
  - apply (sc_failure_onward xregisters_offset).
Qed.

Lemma ty_j f imm : typed f (@run_j B _ imm) x64. Proof. unfold run_j. check. Qed.
Lemma ty_jr f rs1 : typed f (@run_jr B _ rs1) x64. Proof. unfold run_jr. check. Qed.
Lemma ty_jr_imm f imm rs1 : typed f (@run_jr_imm B _ imm rs1) x64. Proof. unfold run_jr_imm. check. Qed.
Lemma ty_j_absolute f imm : typed f (@run_j_absolute B _ imm) x64. Proof. unfold run_j_absolute. check. Qed.
Lemma ty_jal f imm rd w : typed f (@run_jal B _ imm rd w) x64. Proof. unfold run_jal. check. Qed.
Lemma ty_jalr f rd rs1 w : typed f (@run_jalr B _ rd rs1 w) x64. Proof. unfold run_jalr. check. Qed.
Lemma ty_jalr_imm f imm rs1 rd w : typed f (@run_jalr_imm B _ imm rs1 rd w) x64. Proof. unfold run_jalr_imm. check. Qed.
Lemma ty_jalr_absolute f imm rd w : typed f (@run_jalr_absolute B _ imm rd w) x64. Proof. unfold run_jalr_absolute. check. Qed.
Lemma ty_nop f : typed f (@run_nop B) any. Proof. unfold run_nop. check. Qed.
Lemma ty_set_pc f m : typed f m x64 -> typed f (@set_pc B _ m) (res_typed pcu_typed).
Proof. intros Hm. unfold set_pc. eapply typed_bind; [exact Hm|]. bound. apply ty_ok; [typeclasses eauto | assumption]. Qed.
#[local] Hint Resolve ty_j ty_jr ty_jr_imm ty_j_absolute ty_jal ty_jalr ty_jalr_imm ty_jalr_absolute ty_set_pc ty_nop
  ty_atomic_load ty_atomic_store ty_atomic_swap : check_fn.
Lemma ty_atomic_add f rs1 rs2 rd aq rl : unit_typed f (@run_x64_atomic_add B _ rs1 rs2 rd aq rl).
Proof. apply ty_x64_atomic. intros g x y Hx Hy. check. Qed.
Lemma ty_atomic_min f rs1 rs2 rd aq rl : unit_typed f (@run_x64_atomic_min_signed B _ rs1 rs2 rd aq rl).
Proof. apply ty_x64_atomic. intros g x y Hx Hy. check. Qed.
#[local] Hint Resolve ty_atomic_add ty_atomic_min : check_fn.

(** *** The table of the compiled opcodes

    The registers that a lowered function reads, through the views of [Register] that it
    reads them through: the contract of the arguments of an instruction. *)
Definition operands_ok (op : OpCode) (args : Args) : bool :=
  let nz r := bool_decide (is_Some (register_nzx r)) in
  let xr r := bool_decide (is_Some (register_x r)) in
  match op with
  | OpCodes.Mv | OpCodes.Neg
      => nz (a_rd args) && nz (a_rs2 args)
  | OpCodes.Add | OpCodes.Sub | OpCodes.And | OpCodes.Or | OpCodes.X64Xor | OpCodes.Mul
  | OpCodes.X64MulHighSigned | OpCodes.X64MulHighSignedUnsigned | OpCodes.X64MulHighUnsigned
  | OpCodes.ShiftLeft | OpCodes.ShiftRightUnsigned | OpCodes.ShiftRightSigned
      => nz (a_rd args) && nz (a_rs1 args) && nz (a_rs2 args)
  | OpCodes.AddWord | OpCodes.SubWord | OpCodes.X32Mul | OpCodes.X64DivSigned
  | OpCodes.X64DivUnsigned | OpCodes.X32DivSigned | OpCodes.X32DivUnsigned | OpCodes.X64RemSigned
  | OpCodes.X64RemUnsigned | OpCodes.X32RemSigned | OpCodes.X32RemUnsigned
  | OpCodes.SetLessThanSigned | OpCodes.SetLessThanUnsigned | OpCodes.X32ShiftLeft
  | OpCodes.X32ShiftRightUnsigned | OpCodes.X32ShiftRightSigned
      => nz (a_rd args) && xr (a_rs1 args) && xr (a_rs2 args)
  | OpCodes.AddWordImmediate | OpCodes.SetLessThanImmediateSigned
  | OpCodes.SetLessThanImmediateUnsigned
      => nz (a_rd args) && xr (a_rs1 args)
  | OpCodes.X64OrImm | OpCodes.X64XorImm | OpCodes.Jalr | OpCodes.JalrImm | OpCodes.Addi
  | OpCodes.Andi | OpCodes.ShiftLeftImmediate | OpCodes.ShiftRightImmediateUnsigned
  | OpCodes.ShiftRightImmediateSigned | OpCodes.X32ShiftLeftImm
  | OpCodes.X32ShiftRightImmUnsigned | OpCodes.X32ShiftRightImmSigned
      => nz (a_rd args) && nz (a_rs1 args)
  | OpCodes.Li | OpCodes.AddImmediateToPC | OpCodes.Jal | OpCodes.JalrAbsolute
      => nz (a_rd args)
  | OpCodes.Jr | OpCodes.JrImm | OpCodes.BranchEqualZero | OpCodes.BranchNotEqualZero
  | OpCodes.BranchLessThanZero | OpCodes.BranchLessThanOrEqualZero
  | OpCodes.BranchGreaterThanOrEqualZero | OpCodes.BranchGreaterThanZero
      => nz (a_rs1 args)
  | OpCodes.BranchEqual | OpCodes.BranchNotEqual | OpCodes.BranchLessThanSigned
  | OpCodes.BranchLessThanUnsigned | OpCodes.BranchGreaterThanOrEqualSigned
  | OpCodes.BranchGreaterThanOrEqualUnsigned
      => nz (a_rs1 args) && nz (a_rs2 args)
  | OpCodes.X64Store | OpCodes.X32Store | OpCodes.X16Store | OpCodes.X8Store
      => xr (a_rs1 args) && xr (a_rs2 args)
  | OpCodes.X64LoadSigned | OpCodes.X32LoadSigned | OpCodes.X32LoadUnsigned
  | OpCodes.X16LoadSigned | OpCodes.X16LoadUnsigned | OpCodes.X8LoadSigned
  | OpCodes.X8LoadUnsigned
      => xr (a_rd args) && xr (a_rs1 args)
  | OpCodes.X32AtomicLoad | OpCodes.X64AtomicLoad | OpCodes.X32AtomicStore
  | OpCodes.X64AtomicStore | OpCodes.X64AtomicAdd | OpCodes.X32AtomicSwap | OpCodes.X64AtomicSwap
  | OpCodes.X64AtomicMinSigned
      => xr (a_rd args) && xr (a_rs1 args) && xr (a_rs2 args)
  | _ => true
  end.

Ltac views :=
  repeat match goal with
  | Hv : _ && _ = true |- _ => apply andb_prop in Hv as [? ?]
  | Hv : bool_decide _ = true |- _ => apply bool_decide_eq_true in Hv; destruct Hv as [? ?]
  end.
Lemma typed_lowering op fn args f : @to_lowering B _ op = Some fn -> operands_ok op args = true ->
  op <> OpCodes.ECall -> op <> OpCodes.Unknown -> typed f (fn args) (res_typed pcu_typed).
Proof.
  intros E Hv N1 N2. destruct op; try discriminate E; try contradiction; injection E as <-; cbn [operands_ok] in Hv; views;
    autounfold with lower_args; check.
Qed.

(** The two that always raise. *)
Lemma raise_closes f (m : M Emitter nat) : (forall E, etyped E f m (fun g v => vt g I64 v)) ->
  closes f (x <- emit m ;; builder_handle_exception x ;;; @mret B _ (None (A := ProgramCounterUpdate X64))).
Proof.
  intros Hm. cbind (apply typed_emit, Hm). intros b Hb Hx.
  destruct (handle_exception_closes _ _ Ha b Hb Hx) as ([] & b' & E & Hb' & L). exists None, b'.
  split; [|auto]. rewrite (bind_eq _ _ _ _ _ E). reflexivity.
Qed.

Lemma raises_dec op : (op = OpCodes.ECall \/ op = OpCodes.Unknown) \/ (op <> OpCodes.ECall /\ op <> OpCodes.Unknown).
Proof. destruct op; first [left; auto; fail | right; split; discriminate]. Qed.
Lemma lowering_raises op fn args f : @to_lowering B _ op = Some fn -> op = OpCodes.ECall \/ op = OpCodes.Unknown ->
  forall b, wt true b -> extends f (fn_of b) ->
    exists b', fn args b = Some (None, b') /\ wt false b' /\ later b b'.
Proof.
  intros E Hop b Hb Hx.
  enough (Hc : closes f (fn args) /\ forall b r b', fn args b = Some (r, b') -> r = None).
  { destruct Hc as [Hc Hn]. destruct (Hc b Hb Hx) as (r & b' & E1 & R). pose proof (Hn _ _ _ E1) as ->. eauto. }
  destruct Hop as [-> | ->]; injection E as <-; cbn.
  - split.
    + unfold builder_ecall. cbind (apply typed_core_ptr). apply raise_closes. intros E. apply ecall_typed. assumption.
    + intros b0 r b' E. unfold builder_ecall in E. repeat (apply bind_inv in E as (? & ? & _ & E)). injection E as <- _. reflexivity.
  - split.
    + apply raise_closes. intros E. apply raise_illegal_typed.
    + intros b0 r b' E. repeat (apply bind_inv in E as (? & ? & _ & E)). injection E as <- _. reflexivity.
Qed.

(** ** Whole functions *)
Definition shaped f : Prop := Forall (fun bd => insts bd = [] \/ body_ok (insts bd) = true) (blocks f).
Lemma wt_shaped b : wt false b -> shaped (fn_of b).
Proof.
  intros Hb. apply Forall_lookup. intros i bd Hi. destruct (wt_et _ _ Hb) as [_ (cur & cd & Hp & Hc & Hs) Hsh _].
  destruct (decide (cur = i)) as [->|Hne]; [right; congruence|]. apply (Hsh _ _ Hi). congruence.
Qed.
Lemma finish_total b : shaped (fn_of b) ->
  exists b', end_unconditional_exception b = Some (tt, b') /\
    fn_of b' = with_blocks (seal <$> blocks (fn_of b)) (fn_of b).
Proof.
  intros Hs.
  assert (Hd : forallb Cranelift.block_done (seal <$> blocks (fn_of b)) = true).
  { apply forallb_forall. intros bd Hbd. apply list_elem_of_In, list_elem_of_fmap in Hbd as (bd0 & -> & Hbd).
    unfold shaped in Hs. rewrite Forall_forall in Hs. specialize (Hs _ Hbd). unfold Cranelift.block_done. cbn. destruct (insts bd0) as [|i l] eqn:E; [reflexivity|].
    destruct Hs as [[=]|Hb]. cbn. apply is_filled_body. cbn. rewrite E. exact Hb. }
  eexists. split.
  - unfold end_unconditional_exception, ir, emit, ins, seal_all_blocks, finalize, mput, mbind. cbn. rewrite Hd. reflexivity.
  - reflexivity.
Qed.

Lemma inst_typed_verified b i : wt false b -> inst_typed (end_block b) (fn_of b) i -> inst_ok signature returns (fn_of b) i = true.
Proof.
  intros Hb Hi. destruct i; cbn [inst_typed] in Hi; try exact Hi; [apply Hi|].
  destruct (decide _) as [He|]; [|exact Hi]. destruct (wt_end _ _ Hb block) as (bd & Hbd & Hm); [congruence|].
  cbn [inst_ok]. unfold target_ok. rewrite Hbd, Hm. exact Hi.
Qed.
Lemma finish_verified b b' : wt false b -> end_unconditional_exception b = Some (tt, b') ->
  verify_function signature returns (fn_of b') = true.
Proof.
  intros Hb E. destruct (finish_total b (wt_shaped _ Hb)) as (b1 & E1 & F). replace b1 with b' in F by congruence.
  assert (X : extends (fn_of b) (fn_of b')).
  { unfold end_unconditional_exception in E. apply bind_inv in E as ([] & b2 & H1 & H2).
    etransitivity; [apply (lt_extends _ _ (ir_grows _ seal_all_blocks_grows _ _ _ H1)) | apply (lt_extends _ _ (ir_grows _ finalize_grows _ _ _ H2))]. }
  unfold verify_function. rewrite F. cbn. apply forallb_forall. intros bd Hbd.
  apply list_elem_of_In, list_elem_of_fmap in Hbd as (bd0 & -> & Hbd). apply list_elem_of_lookup in Hbd as [i Hi].
  pose proof (wt_shaped _ Hb) as Hs. unfold shaped in Hs. rewrite Forall_lookup in Hs. specialize (Hs _ _ Hi).
  unfold block_ok. cbn [seal insts]. destruct (insts bd0) as [|x l] eqn:El; [reflexivity|]. destruct Hs as [[=]|Hs]. rewrite Hs. cbn [andb].
  apply forallb_forall. intros y Hy. rewrite <- F. eapply inst_ok_mono; [exact X|]. apply inst_typed_verified; [exact Hb|].
  pose proof (et_code _ _ _ (wt_et _ _ Hb) _ _ Hi) as Hk. rewrite El in Hk. rewrite Forall_forall in Hk. apply Hk, list_elem_of_In, Hy.
Qed.

Definition instr_ok (i : Instruction) : Prop := operands_ok (i_opcode i) (i_args i) = true.

Lemma builder_fail_total b : wt true b -> exists b', builder_fail b = Some (tt, b').
Proof.
  intros Hb. destruct (wt_et _ _ Hb) as [_ (cur & cd & Hp & Hc & Hs) Hsh _]. unfold builder_fail.
  pose proof (push_inst_eq (Return []) (etb b) cur cd Hp Hc (straight_open _ Hs)) as E1.
  rewrite (ir_bind _ _ _ _ _ E1). destruct (finish_total (with_emitter (mkEmitter (jsa_call (etb b)) (mkFunctionBuilder
    (with_blocks (<[cur := mkBlockData (params cd) (insts cd ++ [Return []]) (sealed cd)]> (blocks (fn_of b))) (fn_of b)) (Some cur))) b))
    as (b' & E2 & _); [|exists b'; exact E2].
  apply Forall_lookup. intros i bd Hi. cbn in Hi. apply list_lookup_insert_Some in Hi as [(<- & <- & _)|[Hn Hi]].
  - right. cbn. apply straight_body; [exact Hs | reflexivity].
  - apply (Hsh _ _ Hi). congruence.
Qed.

Definition verified (r : bool) b : Prop := r = true -> verify_function signature returns (fn_of b) = true.
Lemma builder_end_total b : wt true b -> exists b', (builder_end ;;; mret true) b = Some (true, b') /\ verified true b'.
Proof.
  intros Hb. destruct (jump_to_end_closes (fn_of b) b Hb ltac:(reflexivity)) as ([] & b1 & E1 & Hb1 & _).
  destruct (finish_total b1 (wt_shaped _ Hb1)) as (b2 & E2 & _). exists b2.
  assert (E : builder_end b = Some (tt, b2)) by (unfold builder_end; rewrite (bind_eq _ _ _ _ _ E1); exact E2).
  rewrite (bind_eq _ _ _ _ _ E). split; [reflexivity|]. intros _. eapply finish_verified; eassumption.
Qed.

Lemma lower_instrs_total l : Forall instr_ok l -> forall b, wt true b ->
  exists r b', lower_instrs l b = Some (r, b') /\ verified r b'.
Proof.
  intros Hl. induction Hl as [|i l Hi Hl IH]; intros b Hb; cbn [lower_instrs].
  { destruct (builder_end_total b Hb) as (b' & E). eauto. }
  destruct (to_lowering (i_opcode i)) as [fn|] eqn:Ef.
  2:{ destruct (builder_fail_total b Hb) as (b' & E). exists false, b'. rewrite (bind_eq _ _ _ _ _ E). split; [reflexivity | intros [=]]. }
  destruct (raises_dec (i_opcode i)) as [Hr|[N1 N2]].
  - destruct (lowering_raises _ _ (i_args i) (fn_of b) Ef Hr b Hb ltac:(reflexivity)) as (b1 & E1 & Hb1 & _).
    rewrite (bind_eq _ _ _ _ _ E1). destruct (finish_total b1 (wt_shaped _ Hb1)) as (b2 & E2 & _).
    exists true, b2. rewrite (bind_eq _ _ _ _ _ E2). split; [reflexivity|]. intros _. eapply finish_verified; eassumption.
  - destruct (typed_lowering _ _ (i_args i) (fn_of b) Ef Hi N1 N2 b Hb ltac:(reflexivity))
      as (r & b1 & E1 & Hb1 & L1 & u & -> & Hu).
    rewrite (bind_eq _ _ _ _ _ E1).
    destruct (typed_complete_step (fn_of b1) (pc_update_from u)) with (b := b1) as (c & b2 & E2 & Hb2 & _);
      [destruct u; [exact Hu | exact I] | exact Hb1 | reflexivity|].
    rewrite (bind_eq _ _ _ _ _ E2). destruct c; [apply IH, Hb2|]. destruct (builder_end_total b2 Hb2) as (b' & E). eauto.
Qed.

Lemma initial_wt : wt true initial_builder.
Proof.
  split; try reflexivity.
  - split; [intros fn r [=]|]. split; [cbn; lia|]. split; [intros e [=]|]. intros i [= <-]. cbn. lia.
  - split; [intros fn r [=] | | |].
    + eexists _, _. split; [reflexivity|]. split; [reflexivity | constructor].
    + intros [|[]] bd [= <-]; auto.
    + intros [|[]] bd [= <-]; constructor.
  - intros e [=].
Qed.

Lemma lower_function_total l : Forall instr_ok l ->
  exists r, lower_function l = Some r /\ forall F, r = Some F -> verify_function signature returns F = true.
Proof.
  intros Hl. unfold lower_function. rewrite builder_new_eq.
  destruct (lower_instrs_total l Hl _ initial_wt) as (r & b & E & Hv). rewrite E. destruct r.
  - eexists. split; [reflexivity|]. intros F [= <-]. apply Hv. reflexivity.
  - exists None. split; [reflexivity | intros F [=]].
Qed.

End Control.

(** *** Decoded instructions

    They have the registers that their functions read, but for [mulw] to [x0]: it is read
    through the view of the other registers. *)
Lemma nzx_into_x r : r <> x0 -> is_Some (register_nzx (into_x r)).
Proof. destruct r; intros Hr; try contradiction; cbn; eauto. Qed.
Lemma decoded_instr_ok c : mulw_x0 c = false -> instr_ok (instruction_of_cacheable c).
Proof.
  unfold instr_ok. intros Hm. destruct c; cbn [instruction_of_cacheable];
    match goal with |- context [i_args (?f ?a)] => try unfold f | _ => idtac end;
    repeat case_match; try reflexivity.
  all: unfold operands_ok; cbn; unfold into; autorewrite with pvm; try reflexivity.
  cbn in Hm. rewrite !andb_true_iff, !bool_decide_eq_true.
  split; [split; [apply nzx_into_x; intros E; rewrite E in Hm; discriminate Hm | eauto] | eauto].
Qed.
