(* ===== verification/JitSpec.v ===== *)
(** * Compiled blocks do what interpreted blocks do

    The code that [lower_instrs] emits for a sequence of instructions, run from the state
    at the start of a block, returns the steps, the core and the error of the interpreted
    block, within a number of instructions that its size bounds ([lower_instrs_runs]). *)

From stdpp Require Import gmap.
From S2P Require Import Prelude.
From S2P Require Import Instr.
From S2P Require Import Instruction.
From S2P Require Import Icb.
From S2P Require Import Interpreter.
From S2P Require Import Memory.
From S2P Require Import MemorySpec.
From S2P Require Import Core.
From S2P Require Import Run.
From S2P Require Import Step.
From S2P Require Import IsaSpec.
From S2P Require Import CoreSpec.
From S2P Require Import IntegerSpec.
From S2P Require Import BlockCache.
From S2P Require Import Hash.
From S2P Require Import Cranelift.
From S2P Require Import StateAccess.
From S2P Require Import JitBuilder.
From S2P Require Import JitRuns.
From S2P Require Import JitSim.
From S2P Require Import JitInstr.
From S2P Require Import Jit.
From S2P Require Import Registers.
From S2P Require Import Csr.
From S2P Require Import Tagged.
From S2P Require Import BlockCacheSpec.
From S2P Require Import JitTyped.

Section Block.
Context {Mem : Type} `{Memory Mem} `{!MemoryLaws Mem} (xregisters_offset : Z).
Notation Core := (MachineCoreState Mem).
Notation St := (JitState Mem).
Context `{Acc : JitStateAccess} `{!AccessLaws xregisters_offset (H0 := Acc)}.
#[local] Instance block_host : Host JsaFn St := jit_host xregisters_offset.
Implicit Types (F : Function JsaFn) (env : gmap nat Val) (h : St) (b : Builder) (s : Core).
Notation follows := (follows xregisters_offset).

(** What [Interpreted::run_block] does with the outcome of the loop. *)
Definition finish_block (instr_pc : Z) (res : StepManyResult Exception)
  : M Core (StepManyResult EnvironException) :=
  match error res with
  | Some exc =>
      h <- handle_step_result instr_pc (Err exc) ;;
      match h with
      | Err err => mret {| steps := steps res; error := Some err |}
      | Ok _ => mret {| steps := steps res + 1; error := None |}
      end
  | None => mret {| steps := steps res; error := None |}
  end.
(** The instructions of an interpreted block, run. *)
Definition run_instrs (instrs : list Instruction) (instr_pc : Z) : M Core (StepManyResult EnvironException) :=
  r <- run_block_inner instrs instr_pc ;; finish_block (fst r) (snd r).

Lemma interpreted_run_block_eq bl instr_pc s instrs : block_instr bl = Some instrs ->
  interpreted_run_block bl instr_pc s = run_instrs instrs instr_pc s.
Proof.
  intros E. unfold interpreted_run_block. rewrite E, bind_lift. unfold run_instrs, mbind.
  destruct (run_block_inner instrs instr_pc s) as [[[p r] s']|]; reflexivity.
Qed.

Definition result_of (r : StepManyResult EnvironException) : result unit EnvironException :=
  match error r with Some e => Err e | None => Ok tt end.

(** What a finished function leaves, of an interpreted block's outcome. *)
Definition block_done (r : StepManyResult EnvironException) s (vals : list Val) h : Prop :=
  vals = [VInt I64 (wrap 64 (steps r))] /\ js_core h = s /\ js_result h = result_of r.

(** A run to the end of the function. *)
Definition finishes F b env h (r : StepManyResult EnvironException) s : Prop :=
  exists n vals h', nsteps F n (here (fb b) env h) (Returned vals h') /\
    (n + code_size (fn_of b) <= code_size F + 3)%nat /\ block_done r s vals h'.

Lemma finishes_follows F b env h b' env' h' r s :
  follows F (fb b) env h (fb b') env' h' -> finishes F b' env' h' r s -> finishes F b env h r s.
Proof.
  intros [_ [(m & M & S) _ _] _] (n & vals & hh & N & B & E). exists (m + n)%nat, vals, hh.
  split; [eapply nsteps_trans; eassumption|]. split; [lia | exact E].
Qed.
Lemma finishes_dynamic F b b' env h r s : fb b' = fb b -> finishes F b' env h r s -> finishes F b env h r s.
Proof. unfold finishes. intros ->. auto. Qed.

(** *** Leaving *)
Lemma builder_end_later b t b' : builder_end b = Some (t, b') -> binv b ->
  exists b1, jump_to_end b = Some (tt, b1) /\ extends (fn_of b1) (fn_of b').
Proof.
  unfold builder_end. intros E Hb. apply bind_inv in E as ([] & b1 & H1 & E).
  apply bind_inv in E as ([] & b2 & H2 & H3). exists b1. split; [exact H1|].
  etransitivity; [apply (lt_extends _ _ (ir_grows _ seal_all_blocks_grows _ _ _ H2))|].
  apply (lt_extends _ _ (ir_grows _ finalize_grows _ _ _ H3)).
Qed.

(** The end of a block reached by its instructions, or by a jump. *)
Lemma builder_end_finishes F b t b' env h p s r : builder_end b = Some (t, b') -> binv b ->
  extends (fn_of b') F -> fresh env (fb b) -> env !! core_ptr_val b = Some (VPtr PCore) ->
  pc_is b env p -> (exists q, js_core h = with_hart (with_pc q (hart s)) s) -> js_result h = Ok tt ->
  steps r = d_steps (dynamic b) -> error r = None ->
  finishes F b env h r (with_hart (with_pc p (hart s)) s).
Proof.
  intros E Hb HF Hf Hc Hp [q Hq] Hr Hs He. destruct (builder_end_later _ _ _ E Hb) as (b1 & H1 & X1).
  destruct (jump_to_end_spec xregisters_offset _ _ _ H1 Hb) as [L Hend].
  destruct (Hend F env h p) as (n & Hn & Hle); [etransitivity; eassumption | assumption..|].
  exists n. eexists _, _. split; [exact Hn|]. split; [exact Hle|].
  unfold block_done, result_of. rewrite Hs, He. cbn. rewrite Hq, with_pc_with_pc. auto.
Qed.

(** An instruction that leaves the function does what the interpreter's loop does after it. *)
Lemma leaves_finishes F b env h ex o s s' r rest (instr_pc n : Z) (res : StepManyResult Exception) :
  leaves xregisters_offset F (fb b) env h ex n s -> out_exit o ex -> pc (hart s) = instr_pc ->
  steps res = n -> error res = None ->
  (r0 <- match o with
         | Ok (Next width) => rest width
         | Ok (Set_ new_pc) =>
             on_hart (mput (with_pc new_pc)) ;;;
             mret (instr_pc, {| steps := steps res + 1; error := error res |})
         | Err e => mret (instr_pc, {| steps := steps res; error := Some e |})
         end ;; finish_block (fst r0) (snd r0)) s = Some (r, s') ->
  finishes F b env h r s'.
Proof.
  intros (k & vals & h' & N & B & E) Hx Hpc Hn He Hr. exists k, vals, h'. split; [exact N|]. split; [exact B|].
  unfold block_done, result_of. destruct o as [[a|w]|e]; cbn in Hx; [subst ex | destruct Hx | subst ex].
  - cbn in E. destruct E as (-> & Ec & Er). unfold finish_block in Hr. cbn in Hr. rewrite He in Hr.
    injection Hr as <- <-. cbn. rewrite Hn. auto.
  - cbn in E. destruct E as (rr & Eh & E). unfold finish_block in Hr. cbn in Hr. rewrite Hpc in Eh.
    unfold mbind at 1 in Hr. rewrite Eh in Hr.
    destruct rr as [x|err]; injection Hr as <- <-; cbn; rewrite Hn; destruct E as [-> E]; auto.
Qed.

(** *** The loop *)
Lemma step_core i s : run_cached_instr i s =
  match to_run (i_opcode i) with Some f => f (i_args i) s | None => None end.
Proof.
  unfold run_cached_instr, instruction_run, mbind, mlift. destruct (to_run (i_opcode i)); reflexivity.
Qed.

Lemma builder_end_onward : grows onward builder_end.
Proof.
  intros b t b' E Hb. unfold builder_end in E. apply bind_inv in E as ([] & b1 & H1 & E).
  apply bind_inv in E as ([] & b2 & H2 & H3).
  destruct (jump_to_end_spec xregisters_offset _ _ _ H1 Hb) as [L _].
  etransitivity; [exact L|]. etransitivity; [eapply (ir_grows _ seal_all_blocks_grows), H2|].
  eapply (ir_grows _ finalize_grows), H3.
Qed.

Lemma lowered_core op f : @to_lowering Builder _ op = Some f ->
  exists f', @to_lowering Core _ op = Some f' /\ to_run op = Some f'.
Proof.
  intros E. destruct (@to_lowering Core _ op) as [f'|] eqn:E'.
  - exists f'. split; [reflexivity | apply lowering_run, E'].
  - apply lowering_both in E'. congruence.
Qed.

Lemma lowering_onward op f args : @to_lowering Builder _ op = Some f -> grows onward (f args).
Proof.
  intros E. destruct (lowered_core _ _ E) as (f' & E' & _). apply (sim_lowering xregisters_offset _ _ _ args E E').
Qed.

(** What is emitted after an instruction. *)
Definition lower_rest (l : list Instruction) (u : option (ProgramCounterUpdate X64)) : M Builder bool :=
  match u with
  | None => end_unconditional_exception ;;; mret true
  | Some pc_update =>
      continue <- complete_step (pc_update_from pc_update) ;;
      if continue : bool then lower_instrs l else builder_end ;;; mret true
  end.
Lemma builder_end_true_onward : grows onward (builder_end ;;; mret true).
Proof. apply grows_bind; [typeclasses eauto | apply builder_end_onward | intros _; apply grows_ret; typeclasses eauto]. Qed.
Lemma lower_rest_onward l u : grows onward (lower_instrs l) -> grows onward (lower_rest l u).
Proof.
  intros Hl. destruct u as [u|]; cbn; [|unfold end_unconditional_exception; grows].
  apply grows_bind; [typeclasses eauto | apply onward_of_later, complete_step_grows | intros []; [exact Hl|]].
  apply builder_end_true_onward.
Qed.
Lemma lower_instrs_onward l : grows onward (lower_instrs l).
Proof.
  induction l as [|i l IH]; cbn [lower_instrs]; [apply builder_end_true_onward|].
  destruct (to_lowering (i_opcode i)) as [f|] eqn:E; [|unfold builder_fail; grows].
  apply grows_bind; [typeclasses eauto | exact (lowering_onward _ _ _ E) | intros u; apply (lower_rest_onward l u IH)].
Qed.

(** The program counter after an instruction that falls through. *)
Lemma agree_next b env h s w : agree b env h s ->
  let b' := set_dynamic (snd (dynamic_complete_step (dynamic b) (Offset (width_bytes w)))) b in
  agree b' env h (with_hart (with_pc (wrap 64 (pc (hart s) + width_bytes w)) (hart s)) s).
Proof.
  intros [Hb Hc Hr (v & Hv & Hu & Hp) [q Hq] Hres Hok Hf] b'. split; try assumption.
  - exists v. split; [exact Hv|]. split; [exact Hu|]. cbn. rewrite <- Hp.
    rewrite <- (wrap_add_wrap _ v (sext 64 _)), wrap_sext, wrap_add_wrap, wrap_wrap_add by lia. f_equal. lia.
  - exists q. rewrite Hq, with_pc_with_pc. reflexivity.
  - apply with_pc_ok; [exact Hok | apply wrap_range; lia].
Qed.

Lemma lower_instrs_runs l : forall b b' F env h s res r s',
  lower_instrs l b = Some (true, b') -> extends (fn_of b') F -> agree b env h s ->
  steps res = d_steps (dynamic b) -> error res = None ->
  (r0 <- run_block_loop l (pc (hart s)) res ;; finish_block (fst r0) (snd r0)) s = Some (r, s') ->
  finishes F b env h r s'.
Proof.
  induction l as [|i l IH]; intros b b' F env h s res r s' E HF Ha Hs He Hr.
  - apply bind_inv in E as ([] & b1 & E & [= <-]). cbn in Hr. unfold finish_block in Hr. cbn in Hr. rewrite He in Hr.
    injection Hr as <- <-. rewrite <- (with_pc_same s).
    eapply builder_end_finishes; [exact E | apply Ha | exact HF | apply Ha | apply Ha | apply Ha | apply Ha | apply Ha | exact Hs | reflexivity].
  - cbn [lower_instrs] in E. destruct (to_lowering (i_opcode i)) as [f|] eqn:Ef.
    2:{ apply bind_inv in E as ([] & b1 & _ & [=]). }
    destruct (lowered_core _ _ Ef) as (f' & Ef' & Hrun).
    pose proof (sim_lowering xregisters_offset _ _ _ (i_args i) Ef Ef') as Hsim.
    apply bind_inv in E as (u & b1 & E1 & E). cbn [run_block_loop] in Hr. rewrite bind_assoc in Hr.
    apply bind_inv in Hr as (o & s1 & E1' & Hr). rewrite step_core, Hrun in E1'.
    pose proof (lowering_same_pc _ _ _ Ef' _ _ _ E1' : pc (hart s1) = pc (hart s)) as Hpc.
    change (lower_rest l u b1 = Some (true, b')) in E.
    pose proof (lowering_onward _ _ _ Ef _ _ _ E1 (ag_inv _ _ _ _ Ha)) as L1.
    pose proof (lower_rest_onward l u (lower_instrs_onward l) _ _ _ E (lt_inv _ _ L1 (ag_inv _ _ _ _ Ha))) as L2.
    destruct (sim_runs _ _ _ _ _ _ Hsim _ _ _ F env h _ _ _ E1 E1') as [(env1 & h1 & F1 & A1 & V1 & D1)|(ex & X1 & Hl)];
      [etransitivity; [apply (lt_extends _ _ L2) | exact HF] | exact Ha | apply map_empty_subseteq | |].
    + eapply finishes_follows; [exact F1|]. rewrite <- D1 in Hs.
      destruct u as [[x|w]|], o as [[a|w']|e]; cbn in V1; try contradiction; cbn [lower_rest] in E.
      * apply bind_inv in E as (c & b2 & [= <- <-] & E). apply bind_inv in E as ([] & b3 & E & [= <-]).
        unfold finish_block in Hr. cbn in Hr. rewrite He in Hr. injection Hr as <- <-.
        destruct V1 as [Vx Ux]. eapply finishes_dynamic; [|eapply builder_end_finishes; [exact E|..]]; try reflexivity.
        -- exact (lt_inv _ _ (set_dynamic_grows _ _ _ _ eq_refl) (ag_inv _ _ _ _ A1)).
        -- exact HF.
        -- exact (ag_fresh _ _ _ _ A1).
        -- exact (ag_core_ptr _ _ _ _ A1).
        -- exists a. cbn. rewrite Z.add_0_r. auto using wrap_small.
        -- apply A1.
        -- apply A1.
        -- cbn. rewrite Hs. reflexivity.
      * subst w'. apply bind_inv in E as (c & b2 & [= <- <-] & E).
        eapply finishes_dynamic; [|eapply (IH _ _ F env1 h1); [exact E | exact HF | apply agree_next, A1 | | | cbn; rewrite Hpc; exact Hr]].
        -- reflexivity.
        -- cbn. rewrite Hs. reflexivity.
        -- exact He.
    + eapply leaves_finishes; [exact Hl | exact X1 | exact Hpc | exact Hs | exact He | exact Hr].
Qed.

(** *** The whole function *)
(** The arguments of a [JitFn]: the first and the last are not looked at. *)
Definition jitfn_args (first last : Val) (instr_pc : Z) : list Val :=
  [first; VPtr PCore; VInt I64 instr_pc; VPtr PResult; last].
Definition jitfn_env (first last : Val) (instr_pc : Z) : gmap nat Val :=
  <[4%nat := last]> (<[3%nat := VPtr PResult]> (<[2%nat := VInt I64 instr_pc]> (<[1%nat := VPtr PCore]>
    (<[0%nat := first]> ∅)))).

Lemma initial_agree first last s : core_ok s ->
  agree initial_builder (jitfn_env first last (pc (hart s))) (mkJitState s (Ok tt) ∅) s.
Proof.
  intros Hok. split; try reflexivity; try assumption.
  - split; [intros fn r [=]|]. split; [cbn; lia|]. split; [intros e [=]|]. intros i [= <-]. cbn. lia.
  - exists (pc (hart s)). split; [reflexivity|]. split; [apply Hok|]. cbn. rewrite Z.add_0_r. apply wrap_small, Hok.
  - exists (pc (hart s)). cbn. symmetry. apply with_pc_same.
  - intros v [u Hv]. unfold jitfn_env in Hv. cbn.
    destruct (decide (v < 5)%nat) as [|Hn]; [assumption|].
    rewrite !lookup_insert_ne, lookup_empty in Hv by lia. discriminate.
Qed.

Lemma lower_function_runs l F s r s' first last : lower_function l = Some (Some F) -> core_ok s ->
  run_instrs l (pc (hart s)) s = Some (r, s') ->
  exists vals h', invoke (code_size F + 3) F (jitfn_args first last (pc (hart s))) (mkJitState s (Ok tt) ∅) = Some (vals, h') /\
    block_done r s' vals h'.
Proof.
  unfold lower_function. rewrite builder_new_eq. intros E Hok Hr.
  destruct (lower_instrs l initial_builder) as [[[] b']|] eqn:El; [|discriminate..]. injection E as <-.
  pose proof (initial_agree first last s Hok) as Ha.
  pose proof (lower_instrs_onward l _ _ _ El (ag_inv _ _ _ _ Ha)) as L.
  destruct (lower_instrs_runs l _ _ (fn_of b') _ _ _ ZERO _ _ El ltac:(reflexivity) Ha eq_refl eq_refl Hr)
    as (n & vals & h' & N & B & D).
  exists vals, h'. split; [|exact D]. unfold invoke, enter.
  destruct (ext_blocks _ _ (lt_extends _ _ L) 0%nat _ eq_refl) as (bd & Hbd & Hp & _). rewrite Hbd. cbn. rewrite Hp. cbn.
  eapply run_nsteps; [exact N|]. lia.
Qed.

End Block.

(** ** Compilation *)

#[export] Instance RoundingMode_eq_dec : EqDecision RoundingMode.
Proof. solve_decision. Defined.
#[export] Instance InstrRoundingMode_eq_dec : EqDecision InstrRoundingMode.
Proof. solve_decision. Defined.
#[export] Instance OpCode_eq_dec : EqDecision OpCode.
Proof. solve_decision. Defined.
#[export] Instance Args_eq_dec : EqDecision Args.
Proof. solve_decision. Defined.
#[export] Instance Instruction_eq_dec : EqDecision Instruction.
Proof. solve_decision. Defined.

(** What is assumed of the crates: [hex] is injective, and the machine code of a verified
    function does what the function means, for as many instructions as the code has. *)
Class JitCratesLaws `{JitCrates} : Prop := hex_inj : Inj (=) (=) hex_encode.

Class NativeLaws (Mem : Type) `{Memory Mem} `{NativeCode Mem} (xregisters_offset : Z) : Prop :=
  native_runs F instr_pc (s : MachineCoreState Mem) n h :
    verify_function jsa_signature jitfn_returns F = true ->
    (let _ := jit_host (Mem := Mem) xregisters_offset in
     invoke (code_size F + 3) F (jitfn_args (VPtr (PArg 0)) (VPtr (PArg 4)) instr_pc) (mkJitState s (Ok tt) ∅))
      = Some ([VInt I64 n], h) ->
    call_native (native F) instr_pc (Ok tt) s = Some ((n, js_result h), js_core h).

(** The laws hold of the functions themselves, run by their meaning. *)
Section IrNative.
Context {Mem : Type} `{Memory Mem} (xregisters_offset : Z).
Definition ir_native : NativeCode Mem := {|
  JitFn := Function JsaFn;
  native F := F;
  call_native F instr_pc r s :=
    let _ := jit_host (Mem := Mem) xregisters_offset in
    match invoke (code_size F + 3) F (jitfn_args (VPtr (PArg 0)) (VPtr (PArg 4)) instr_pc) (mkJitState s r ∅) with
    | Some ([VInt I64 n], h) => Some ((n, js_result h), js_core h)
    | _ => None
    end |}.
Lemma ir_native_laws : NativeLaws Mem (H0 := ir_native) xregisters_offset.
Proof. intros F pc s n h _ E. cbn in *. rewrite E. reflexivity. Qed.
End IrNative.

Section Compile.
Context {Mem : Type} `{Memory Mem} `{!MemoryLaws Mem} (xregisters_offset : Z).
Context `{Acc : JitStateAccess} `{!AccessLaws xregisters_offset (H0 := Acc)} `{!AccessTyped (H := Acc)}.
Context `{Nat : NativeCode Mem} `{!NativeLaws Mem xregisters_offset} `{Crates : JitCrates} `{!JitCratesLaws} `{Blake2b}.
Notation Core := (MachineCoreState Mem).
Implicit Types (s : Core) (j : JIT Mem) (l : list Instruction) (hist : list (list Instruction)).

(** *** Steps *)
Lemma run_block_loop_steps l : forall instr_pc res s p r s',
  run_block_loop l instr_pc res s = Some ((p, r), s') -> error res = None ->
  steps res <= steps r <= steps res + Z.of_nat (length l) /\
  (error r <> None -> steps r < steps res + Z.of_nat (length l)).
Proof.
  induction l as [|i l IH]; intros instr_pc res s p r s' E He.
  - injection E as <- <- <-. cbn. split; [lia | congruence].
  - cbn [run_block_loop] in E. apply Cranelift.bind_inv in E as (o & s1 & _ & E). cbn [length].
    destruct o as [[a|w]|e].
    + apply Cranelift.bind_inv in E as ([] & s2 & _ & [= <- <- <-]). cbn. split; [lia | congruence].
    + apply Cranelift.bind_inv in E as ([] & s2 & _ & E). apply IH in E; [|exact He]. cbn in E.
      split; [lia|]. intros Hn. apply E in Hn. lia.
    + injection E as <- <- <-. cbn. split; lia.
Qed.
Lemma run_instrs_steps l instr_pc s r s' : run_instrs l instr_pc s = Some (r, s') ->
  0 <= steps r <= Z.of_nat (length l).
Proof.
  unfold run_instrs, run_block_inner. intros E. apply Cranelift.bind_inv in E as ([p res] & s1 & E1 & E2).
  apply run_block_loop_steps in E1 as [Hs He]; [|reflexivity]. cbn in Hs, He. unfold finish_block in E2. cbn in E2.
  destruct (error res) as [e|].
  - specialize (He ltac:(discriminate)). apply Cranelift.bind_inv in E2 as (h & s2 & _ & E2).
    destruct h; injection E2 as <- <-; cbn; lia.
  - injection E2 as <- <-. cbn. lia.
Qed.

(** *** Machine code that does what the instructions do *)
Definition good_fn (f : JitFn Mem) l : Prop := forall s r s', core_ok s ->
  run_instrs l (pc (hart s)) s = Some (r, s') ->
  call_native f (pc (hart s)) (Ok tt) s = Some ((wrap 64 (steps r), result_of r), s').

(** The hash of [l] is that of another sequence among those compiled, [hist]. *)
Definition collides (hist : list (list Instruction)) l : Prop :=
  exists l', l' ∈ hist /\ l' <> l /\ blake2b_hash l' = blake2b_hash l.
Definition serves hist (f : JitFn Mem) l : Prop := good_fn f l \/ collides hist l.

Record jit_inv hist j : Prop := {
  ji_cache hash f : cache j !! hash = Some (Some f) -> exists l, l ∈ hist /\ blake2b_hash l = Some hash /\ good_fn f l;
  ji_module name : name ∈ module j -> exists hash f, name = hex_encode (digest hash) /\ cache j !! hash = Some (Some f) }.

Lemma collides_mono hist hist' l : hist ⊆ hist' -> collides hist l -> collides hist' l.
Proof. intros Hs (l' & Hl & Hc). exists l'. auto. Qed.
Lemma serves_mono hist hist' f l : hist ⊆ hist' -> serves hist f l -> serves hist' f l.
Proof. intros Hs [Hg|Hc]; [left; exact Hg | right; eapply collides_mono; eassumption]. Qed.
Lemma jit_inv_mono hist hist' j : hist ⊆ hist' -> jit_inv hist j -> jit_inv hist' j.
Proof.
  intros Hs [Hc Hm]. split; [|exact Hm]. intros hash f Hf. destruct (Hc _ _ Hf) as (l & Hl & Hg). exists l. auto.
Qed.

Lemma jit_new_inv : jit_inv [] jit_new.
Proof. split; [intros hash f Hf; discriminate Hf | intros name Hn; apply elem_of_empty in Hn as []]. Qed.

Lemma native_good F l : lower_function l = Some (Some F) -> verify_function jsa_signature jitfn_returns F = true ->
  good_fn (native F) l.
Proof.
  intros El Hv s r s' Hok Hr.
  destruct (lower_function_runs xregisters_offset l F s r s' (VPtr (PArg 0)) (VPtr (PArg 4)) El Hok Hr) as (vals & h & E & -> & <- & <-).
  exact (native_runs F (pc (hart s)) s _ h Hv E).
Qed.

Lemma cache_insert_none hist j hash : jit_inv hist j -> cache j !! hash = None -> jit_inv hist (cache_insert hash None j).
Proof.
  intros [Hc Hm] Hn. split; cbn.
  - intros h f. rewrite lookup_insert_Some. intros [[_ [=]]|[_ Hf]]. eauto.
  - intros name Hname. destruct (Hm _ Hname) as (h & f & Hh & Hf). exists h, f. split; [exact Hh|].
    rewrite lookup_insert_ne by congruence. exact Hf.
Qed.

(** Compilation never panics, and gives machine code that serves the instructions. *)
Lemma compile_spec hist l j : Forall instr_ok l -> jit_inv hist j ->
  exists r j', compile l j = Some (r, j') /\ jit_inv (l :: hist) j' /\ forall f, r = Some f -> serves hist f l.
Proof.
  intros Hl Hj. pose proof (jit_inv_mono hist (l :: hist) j ltac:(set_solver) Hj) as Hj1. unfold compile. destruct (blake2b_hash l) as [hash|] eqn:Eh.
  2:{ exists None, j. split; [reflexivity|]. split; [exact Hj1 | intros f [=]]. }
  rewrite (bind_eq (mget cache) _ j _ j eq_refl). destruct (cache j !! hash) as [r|] eqn:Ec.
  - exists r, j. split; [reflexivity|]. split; [exact Hj1|]. intros f ->.
    destruct (ji_cache _ _ Hj _ _ Ec) as (l' & Hin & Hl' & Hg). destruct (decide (l' = l)) as [->|Hne]; [left; exact Hg|].
    right. exists l'. split; [exact Hin|]. split; [exact Hne | congruence].
  - destruct (lower_function_total xregisters_offset l Hl) as (r & El & Hv). rewrite El, bind_lift.
    destruct r as [F|].
    + specialize (Hv F eq_refl). pose proof (native_good F l El Hv) as Hg. exists (Some (native F)). eexists.
      split; [|split; [|intros f [= <-]; left; exact Hg]].
      * unfold produce_function, jit_finalise, mbind, mget. rewrite bool_decide_eq_false_2, Hv; [reflexivity|].
        intros Hin. destruct (ji_module _ _ Hj _ Hin) as (h & f & Hh & Hf). apply hex_inj in Hh.
        destruct hash, h. cbn in Hh. congruence.
      * split; cbn.
        -- intros h f. rewrite lookup_insert_Some. intros [[<- [= <-]]|[_ Hf]]; [exists l; split; [left | auto] | eapply (ji_cache _ _ Hj1), Hf].
        -- intros name Hn. apply elem_of_union in Hn as [Hn|Hn].
           ++ apply elem_of_singleton in Hn as ->. exists hash, (native F). split; [reflexivity | apply lookup_insert_eq].
           ++ destruct (ji_module _ _ Hj _ Hn) as (h & f & Hh & Hf). exists h, f. split; [exact Hh|].
              rewrite lookup_insert_ne by congruence. exact Hf.
    + exists None, (cache_insert hash None j). split; [reflexivity|]. split; [apply cache_insert_none; assumption | intros f [=]].
Qed.

(** A second compilation of the same instructions gives the first result. *)
Lemma compile_again l j r j' : compile l j = Some (r, j') -> compile l j' = Some (r, j').
Proof.
  unfold compile. destruct (blake2b_hash l) as [hash|]; [|intros [= <- <-]; reflexivity].
  rewrite (bind_eq (mget cache) _ j _ j eq_refl). intros E.
  assert (Hc : cache j' !! hash = Some r).
  { destruct (cache j !! hash) as [r0|] eqn:Ec; [injection E as <- <-; exact Ec|].
    apply Cranelift.bind_inv in E as (lo & j1 & _ & E). destruct lo as [F|].
    - apply Cranelift.bind_inv in E as (fn & j2 & E1 & [= <- <-]). unfold produce_function in E1.
      apply Cranelift.bind_inv in E1 as (fn' & j3 & _ & E1). apply Cranelift.bind_inv in E1 as ([] & j4 & [= <-] & [= <- <-]).
      apply lookup_insert_eq.
    - apply Cranelift.bind_inv in E as ([] & j2 & [= <-] & [= <- <-]). apply lookup_insert_eq. }
  rewrite (bind_eq (mget cache) _ j' _ j' eq_refl), Hc. reflexivity.
Qed.
End Compile.
