(* ===== verification/DispatchSpec.v ===== *)
(** * Compiled blocks, dispatched

    A block that is run through its dispatch target does what the interpreted block does,
    whatever the target is at that time, and whatever the interleaving of runs, changes of
    blocks and steps of the background thread that led there ([dispatch_inv]).  The way out
    of these statements is a collision: another sequence of instructions with the same
    hash, among those that were run. *)

From stdpp Require Import gmap.
From S2P Require Import Prelude.
From S2P Require Import Registers.
From S2P Require Import Csr.
From S2P Require Import Instr.
From S2P Require Import Instruction.
From S2P Require Import Tagged.
From S2P Require Import Icb.
From S2P Require Import Memory.
From S2P Require Import MemorySpec.
From S2P Require Import Core.
From S2P Require Import Step.
From S2P Require Import CoreSpec.
From S2P Require Import BlockCache.
From S2P Require Import BlockCacheSpec.
From S2P Require Import Hash.
From S2P Require Import Cranelift.
From S2P Require Import StateAccess.
From S2P Require Import JitBuilder.
From S2P Require Import JitRuns.
From S2P Require Import Jit.
From S2P Require Import JitSpec.
From S2P Require Import JitTyped.

Section Dispatch.
Context {Mem : Type} `{Memory Mem} `{!MemoryLaws Mem} (xregisters_offset : Z).
Context `{Acc : JitStateAccess} `{!AccessLaws xregisters_offset (H0 := Acc)} `{!AccessTyped (H := Acc)}.
Context `{Nat : NativeCode Mem} `{!NativeLaws Mem xregisters_offset} `{Crates : JitCrates} `{!JitCratesLaws} `{Blake2b}.
Notation Core := (MachineCoreState Mem).
Implicit Types (s : Core) (j : JIT Mem) (l : list Instruction) (hist : list (list Instruction)).

(** ** Compilers, to their client

    What a block relies on: its compiler has an invariant; compiling for a target writes the
    target's cell only, with machine code that serves the instructions or with the
    interpreter, and at most leaves a request for the same instructions and cell; what the
    compiler does in the background answers the oldest request, if anything.  All of it is
    relative to the sequences that it was asked to compile, [hist]. *)
Definition answer hist (r : CompilationRequest) (cs cs' : Cells) : Prop :=
  cs' = cs \/ exists g, serves hist g (req_instr r) /\ cs' = <[req_fun r := jitted_fn g]> cs.
Definition answerable (hist : list (list Instruction)) (r : CompilationRequest) (cs : Cells) : Prop :=
  (req_instr r ∈ hist /\ Forall instr_ok (req_instr r)) /\ cs !! req_fun r = Some run_block_not_compiled_fn.

Class DispatchCompilerLaws (D : Type) `{!DispatchCompiler D} : Type := {
  dc_inv : list (list Instruction) -> D -> Prop;
  dc_pending : D -> list CompilationRequest;
  dc_background : D -> Cells -> D * Cells;
  dc_inv_mono hist hist' d : hist ⊆ hist' -> dc_inv hist d -> dc_inv hist' d;
  should_compile_fun d t : fun_ (snd (should_compile d t)) = fun_ t;
  dispatch_compile_spec hist d cs t l : dc_inv hist d -> Forall instr_ok l -> (fun_ t < length cs)%nat ->
    exists f d', dispatch_compile t l (d, cs) = Some (f, (d', <[fun_ t := f]> cs)) /\ dc_inv (l :: hist) d' /\
      f <> run_block_interpreted_fn /\ (forall g, f = jitted_fn g -> serves hist g l) /\
      (dc_pending d' = dc_pending d \/
       (dc_pending d' = dc_pending d ++ [mkRequest l (fun_ t)] /\ f = run_block_not_compiled_fn));
  dc_background_spec hist d cs d' cs' : dc_inv hist d -> dc_background d cs = (d', cs') ->
    (forall r, head (dc_pending d) = Some r -> answerable hist r cs) ->
    dc_inv hist d' /\ ((cs' = cs /\ dc_pending d' = dc_pending d) \/
      exists r, dc_pending d = r :: dc_pending d' /\ answer hist r cs cs') }.

Lemma cell_store_eq c f (cs : Cells) : (c < length cs)%nat -> cell_store c f cs = Some (tt, <[c := f]> cs).
Proof.
  intros Hc. unfold cell_store. assert (Hs : is_Some (cs !! c)) by (apply lookup_lt_is_Some_2; exact Hc).
  destruct Hs as [x ->]. reflexivity.
Qed.

#[export] Instance inline_laws : DispatchCompilerLaws InlineCompiler.
Proof.
  refine {| dc_inv := fun hist d => jit_inv hist (inline_jit d); dc_pending := fun _ => []; dc_background := pair |};
    [intros hist hist' d; apply jit_inv_mono | reflexivity | |].
  - intros hist d cs t l Hd Hl Ht. destruct (compile_spec xregisters_offset hist l (inline_jit d) Hl Hd) as (r & j & E & Hj & Hr).
    exists (match r with Some g => jitted_fn g | None => run_block_not_compiled_fn end), (mkInline j).
    split; [|split; [exact Hj|split; [destruct r; discriminate|split; [|left; reflexivity]]]].
    + cbn. unfold inline_compile, on_first, inline_compile_jit, mbind. rewrite E. cbn. unfold target_set.
      rewrite cell_store_eq by exact Ht. reflexivity.
    + intros g Hg. destruct r as [g'|]; [|discriminate]. injection Hg as <-. apply Hr. reflexivity.
  - intros hist d cs d' cs' Hd [= <- <-] _. auto.
Defined.

(** The thread of [OutlineCompiler] never panics. *)
Lemma serve_request_spec hist r j cs : jit_inv hist j -> answerable hist r cs ->
  exists j' cs', serve_request r (j, cs) = Some (tt, (j', cs')) /\ jit_inv hist j' /\ answer hist r cs cs'.
Proof.
  intros Hj [[Hin Hl] Hc]. destruct (compile_spec xregisters_offset hist (req_instr r) j Hl Hj) as (res & j' & E & Hj' & Hr).
  apply (jit_inv_mono _ hist) in Hj'; [|set_solver].
  exists j'. unfold serve_request, on_first, mbind. rewrite E. destruct res as [g|].
  - exists (<[req_fun r := jitted_fn g]> cs). unfold on_cells, cell_load. rewrite Hc.
    rewrite cell_store_eq by (eapply lookup_lt_Some, Hc). split; [reflexivity|]. split; [exact Hj'|].
    right. exists g. split; [apply Hr; reflexivity | reflexivity].
  - exists cs. split; [reflexivity|]. split; [exact Hj' | left; reflexivity].
Qed.

#[export] Instance outline_laws : DispatchCompilerLaws OutlineCompiler.
Proof.
  refine {| dc_inv := fun hist d => jit_inv hist (outline_jit d) /\ alive d = true; dc_pending := channel;
            dc_background := background_step |}.
  - intros hist hist' d Hs [Hd Ha]. split; [eapply jit_inv_mono; eassumption | exact Ha].
  - intros d t. cbn. unfold outline_should_compile. destruct (remaining_calls t =? 0); reflexivity.
  - intros hist d cs t l [Hd Ha] Hl Ht. exists run_block_not_compiled_fn, (send (mkRequest l (fun_ t)) d).
    split; [|split; [|split; [discriminate|split; [discriminate|]]]].
    + cbn. unfold outline_compile, on_cells, mbind, target_set. rewrite cell_store_eq by exact Ht. reflexivity.
    + unfold send. rewrite Ha. split; [eapply jit_inv_mono; [|exact Hd]; set_solver | reflexivity].
    + unfold send. rewrite Ha. right. split; reflexivity.
  - intros hist d cs d' cs' [Hd Ha]. unfold background_step. rewrite Ha. intros E Hr. destruct (channel d) as [|r rest] eqn:Ec.
    + injection E as <- <-. rewrite Ec. auto.
    + destruct (serve_request_spec hist r (outline_jit d) cs Hd (Hr r eq_refl)) as (j' & cs1 & Es & Hj & Han).
      rewrite Es in E. injection E as <- <-. split; [split; [exact Hj | reflexivity]|]. right. exists r. split; [reflexivity | exact Han].
Defined.

(** ** Blocks and their compiler *)
Section Blocks.
Context {D : Type} `{DC : !DispatchCompiler D} `{Laws : !DispatchCompilerLaws D}.

(** A list of blocks with one compiler. *)
Record System : Type := mkSystem { sys_blocks : list Jitted; sys_compiler : D; sys_cells : Cells }.
Definition cell_of (b : Jitted) : nat := fun_ (dispatch b).
Definition code (b : Jitted) : list Instruction := instrs (fallback b).

(** The function in the cell of a block serves the block's instructions. *)
Record jitted_ok hist (cs : Cells) (b : Jitted) : Prop := {
  bk_wf : block_wf (fallback b);
  bk_instr : Forall instr_ok (code b);
  bk_target : exists f, cs !! cell_of b = Some f /\ forall g, f = jitted_fn g -> serves hist g (code b) }.
Record request_ok hist (bs : list Jitted) (cs : Cells) (r : CompilationRequest) : Prop := {
  rq_answerable : answerable hist r cs;
  rq_block b : b ∈ bs -> cell_of b = req_fun r -> code b = req_instr r }.

Record dispatch_inv hist (w : System) : Prop := {
  di_compiler : dc_inv hist (sys_compiler w);
  di_blocks b : b ∈ sys_blocks w -> jitted_ok hist (sys_cells w) b;
  di_distinct : NoDup (cell_of <$> sys_blocks w);
  di_requests r : r ∈ dc_pending (sys_compiler w) -> request_ok hist (sys_blocks w) (sys_cells w) r;
  di_pending : NoDup (req_fun <$> dc_pending (sys_compiler w)) }.
Implicit Types (b : Jitted) (w : System) (cs : Cells) (d : D).

(** *** Running a block: the function is chosen first, then it runs on the core *)
Definition run_chosen (f : DispatchFn) b (instr_pc : Z) : M Core Outcome :=
  match f with
  | jitted_fn g => call_native g instr_pc (Ok tt)
  | _ =>
      r <- interpreted_run_block (fallback b) instr_pc ;;
      mret (steps r, match error r with Some exc => Err exc | None => Ok tt end)
  end.
Definition many_of (out : Outcome) : StepManyResult EnvironException :=
  {| steps := fst out; error := match snd out with Err e => Some e | Ok _ => None end |}.
Definition on_core {A B T} (m : M Core A) (f : A -> B) (t : T) : M (Core * T) B := fun '(s, _) =>
  match m s with Some (a, s) => Some (f a, (s, t)) | None => None end.

(** What the choice does to the block, the compiler and the cells. *)
Record chosen hist w b (f : DispatchFn) (b' : Jitted) (d' : D) (cs' : Cells) : Prop := {
  ch_fallback : fallback b' = fallback b;
  ch_cell : cell_of b' = cell_of b;
  ch_final : f <> run_block_interpreted_fn;
  ch_serves g : f = jitted_fn g -> serves hist g (code b);
  ch_system : (d' = sys_compiler w /\ cs' = sys_cells w) \/
    (sys_cells w !! cell_of b = Some run_block_interpreted_fn /\ dc_inv (code b :: hist) d' /\ cs' = <[cell_of b := f]> (sys_cells w) /\
      (dc_pending d' = dc_pending (sys_compiler w) \/
       (dc_pending d' = dc_pending (sys_compiler w) ++ [mkRequest (code b) (cell_of b)] /\ f = run_block_not_compiled_fn))) }.

Lemma call_chosen n f b b' instr_pc s (t : D * Cells) : f <> run_block_interpreted_fn -> fallback b' = fallback b ->
  call_dispatch (S n) f b' instr_pc (Ok tt) (s, t) = on_core (run_chosen f b instr_pc) (fun out => (out, b')) t (s, t).
Proof.
  intros Hf Hb. unfold on_core. destruct f as [| |g]; [contradiction| |];
    cbn [call_dispatch run_chosen]; unfold run_block_not_compiled, on_first, mbind, mret.
  - rewrite Hb. destruct (interpreted_run_block (fallback b) instr_pc s) as [[r s']|]; reflexivity.
  - destruct (call_native g instr_pc (Ok tt) s) as [[out s']|]; reflexivity.
Qed.
Lemma call_interpreted n b instr_pc r s d cs :
  call_dispatch (S n) run_block_interpreted_fn b instr_pc r (s, (d, cs)) =
    let '(compile_now, t) := should_compile d (dispatch b) in
    let b := mkJitted (fallback b) t in
    if compile_now then
      match dispatch_compile t (code b) (d, cs) with
      | Some (f, dc) => call_dispatch n f b instr_pc r (s, dc)
      | None => None
      end
    else call_dispatch 1 run_block_not_compiled_fn b instr_pc r (s, (d, cs)).
Proof.
  unfold code. cbn [call_dispatch]. unfold mbind at 1, mget. cbn [fst snd].
  destruct (should_compile d (dispatch b)) as [[|] t]; [|reflexivity]. cbn. unfold mbind.
  change (take _ _) with (instrs (fallback b)). destruct (dispatch_compile t (instrs (fallback b)) (d, cs)) as [[f dc]|]; reflexivity.
Qed.
Lemma run_block_eq b instr_pc s d cs f : cs !! cell_of b = Some f ->
  jitted_run_block b instr_pc (s, (d, cs)) =
    match call_dispatch 2 f b instr_pc (Ok tt) (s, (d, cs)) with
    | Some ((out, b'), w) => Some ((many_of out, b'), w)
    | None => None
    end.
Proof.
  intros Hf. unfold jitted_run_block, mbind, target_get, cell_load. fold (cell_of b). rewrite Hf.
  destruct (call_dispatch 2 f b instr_pc (Ok tt) (s, (d, cs))) as [[[[n [u|e]] b'] w]|]; reflexivity.
Qed.
Lemma on_core_many f b b' instr_pc s (t : D * Cells) :
  match on_core (run_chosen f b instr_pc) (fun out => (out, b')) t (s, t) with
  | Some ((out, b'), w) => Some ((many_of out, b'), w)
  | None => None
  end = on_core (run_chosen f b instr_pc) (fun out => (many_of out, b')) t (s, t).
Proof. unfold on_core. destruct (run_chosen f b instr_pc s) as [[out s']|]; reflexivity. Qed.

Lemma jitted_run_block_chooses hist w b : dispatch_inv hist w -> b ∈ sys_blocks w ->
  exists f b' d' cs', chosen hist w b f b' d' cs' /\ forall instr_pc s,
    jitted_run_block b instr_pc (s, (sys_compiler w, sys_cells w)) =
    on_core (run_chosen f b instr_pc) (fun out => (many_of out, b')) (d', cs') (s, (d', cs')).
Proof.
  intros Hw Hb. destruct w as [bs d cs]. cbn [sys_blocks sys_compiler sys_cells] in *.
  destruct (di_blocks _ _ Hw b Hb) as [Hwf Hio (f & Hf & Hs)]. cbn [sys_cells] in Hf.
  assert (Hd : f = run_block_interpreted_fn \/ f <> run_block_interpreted_fn) by (destruct f; auto; right; discriminate).
  destruct Hd as [->|Hn].
  2:{ exists f, b, d, cs. split; [split; auto|]. intros pc s.
      rewrite (run_block_eq _ _ _ _ _ f Hf), (call_chosen _ f b b) by auto. apply on_core_many. }
  destruct (should_compile d (dispatch b)) as [now t] eqn:Ec.
  assert (Ht : fun_ t = cell_of b) by (pose proof (should_compile_fun d (dispatch b)) as Ht; rewrite Ec in Ht; exact Ht).
  destruct now.
  - destruct (dispatch_compile_spec hist d cs t (code b) (di_compiler _ _ Hw) Hio) as (f & d' & Ed & Hd' & Hn & Hsv & Hp).
    { rewrite Ht. eapply lookup_lt_Some, Hf. }
    rewrite Ht in Ed, Hp. exists f, (mkJitted (fallback b) t), d', (<[cell_of b := f]> cs).
    split; [split; auto; right; auto|]. intros pc s. rewrite (run_block_eq _ _ _ _ _ _ Hf), call_interpreted, Ec. cbv zeta.
    change (code (mkJitted (fallback b) t)) with (code b). rewrite Ed, (call_chosen _ f b) by auto. apply on_core_many.
  - exists run_block_not_compiled_fn, (mkJitted (fallback b) t), d, cs.
    split; [split; [reflexivity | exact Ht | discriminate | discriminate | left; auto]|]. intros pc s.
    rewrite (run_block_eq _ _ _ _ _ _ Hf), call_interpreted, Ec; cbv zeta; rewrite (call_chosen _ _ b) by (try discriminate; reflexivity).
    apply on_core_many.
Qed.

(** It does what the interpreted block does. *)
Lemma run_chosen_spec hist f b s r s' : block_wf (fallback b) -> core_ok s ->
  (forall g, f = jitted_fn g -> serves hist g (code b)) ->
  interpreted_run_block (fallback b) (pc (hart s)) s = Some (r, s') ->
  run_chosen f b (pc (hart s)) s = Some ((steps r, result_of r), s') \/ collides hist (code b).
Proof.
  intros Hw Hok Hs E.
  assert (Hi : run_chosen run_block_not_compiled_fn b (pc (hart s)) s = Some ((steps r, result_of r), s')).
  { cbn. unfold mbind. rewrite E. reflexivity. }
  destruct f as [| |g]; [left; exact Hi | left; exact Hi |]. destruct (Hs g eq_refl) as [Hg|Hc]; [left | right; exact Hc].
  cbn. rewrite (interpreted_run_block_eq _ _ _ _ (block_instr_eq _ Hw)) in E.
  rewrite (Hg s r s' Hok E). do 3 f_equal. apply wrap_small. apply run_instrs_steps in E. rewrite (instrs_length _ Hw) in E.
  pose proof (wf_len _ Hw). unfold CACHE_INSTR in *. unfold urange. lia.
Qed.
Lemma many_of_result (r : StepManyResult EnvironException) : many_of (steps r, result_of r) = r.
Proof. destruct r as [n [e|]]; reflexivity. Qed.

Lemma jitted_run_block_spec hist w b s r s' : dispatch_inv hist w -> b ∈ sys_blocks w -> core_ok s ->
  interpreted_run_block (fallback b) (pc (hart s)) s = Some (r, s') ->
  (exists b' t, jitted_run_block b (pc (hart s)) (s, (sys_compiler w, sys_cells w)) = Some ((r, b'), (s', t)) /\
     fallback b' = fallback b) \/ collides hist (code b).
Proof.
  intros Hw Hb Hok Hr. destruct (jitted_run_block_chooses hist w b Hw Hb) as (f & b' & d' & cs' & Hc & E).
  destruct (run_chosen_spec hist f b s r s' (bk_wf _ _ _ (di_blocks _ _ Hw b Hb)) Hok (ch_serves _ _ _ _ _ _ _ Hc) Hr) as [Er|Hcol];
    [left | right; exact Hcol].
  exists b', (d', cs'). rewrite E. unfold on_core. rewrite Er, many_of_result. split; [reflexivity | apply (ch_fallback _ _ _ _ _ _ _ Hc)].
Qed.

(** *** The invariant, kept by what happens to the cells *)
Lemma inv_mono hist hist' w : hist ⊆ hist' -> dispatch_inv hist w -> dispatch_inv hist' w.
Proof.
  intros Hs [Hd Hb Hn Hr Hp]. split; [eapply dc_inv_mono; eassumption | | exact Hn | | exact Hp].
  - intros b Hin. destruct (Hb b Hin) as [Hw Hi (f & Hf & Ht)]. split; [exact Hw | exact Hi|]. exists f.
    split; [exact Hf|]. intros g Hg. eapply serves_mono; [exact Hs | apply Ht, Hg].
  - intros r Hin. destruct (Hr r Hin) as [[[Hh Hi] Hc] Hblk]. split; [split; [split; [apply Hs, Hh | exact Hi] | exact Hc] | exact Hblk].
Qed.
Lemma inv_alike hist bs bs' d cs : dispatch_inv hist (mkSystem bs d cs) ->
  cell_of <$> bs' = cell_of <$> bs -> fallback <$> bs' = fallback <$> bs -> dispatch_inv hist (mkSystem bs' d cs).
Proof.
  intros [Hd Hb Hn Hr Hp] Hcell Hfall. cbn in *.
  assert (Halike : forall b', b' ∈ bs' -> exists b, b ∈ bs /\ cell_of b' = cell_of b /\ fallback b' = fallback b).
  { intros b' Hb'. apply list_elem_of_lookup in Hb' as (i & Hi).
    assert (Hc' : (cell_of <$> bs) !! i = Some (cell_of b')) by (rewrite <- Hcell, list_lookup_fmap, Hi; reflexivity).
    assert (Hf' : (fallback <$> bs) !! i = Some (fallback b')) by (rewrite <- Hfall, list_lookup_fmap, Hi; reflexivity).
    rewrite list_lookup_fmap in Hc'. rewrite list_lookup_fmap in Hf'. destruct (bs !! i) as [b|] eqn:E; [|discriminate].
    injection Hc' as Hc'. injection Hf' as Hf'. exists b. split; [eapply list_elem_of_lookup_2, E | auto]. }
  split; cbn; [exact Hd | | rewrite Hcell; exact Hn | | exact Hp].
  - intros b' Hb'. destruct (Halike b' Hb') as (b & Hin & Ec & Ef). destruct (Hb b Hin) as [Hw Hi Ht].
    split; unfold code; rewrite ?Ec, Ef; assumption.
  - intros r Hr0. destruct (Hr r Hr0) as [Ha Hblk]. split; [exact Ha|]. intros b' Hb' E.
    destruct (Halike b' Hb') as (b & Hin & Ec & Ef). unfold code. rewrite Ef. apply Hblk; [exact Hin | congruence].
Qed.

Lemma request_ok_store hist bs cs r c f : request_ok hist bs cs r -> req_fun r <> c -> request_ok hist bs (<[c := f]> cs) r.
Proof.
  intros [[Hl Hc] Hb] Hne. split; [split; [exact Hl|] | exact Hb]. rewrite list_lookup_insert_ne by congruence. exact Hc.
Qed.
Lemma inv_store hist bs d cs d' c f : dispatch_inv hist (mkSystem bs d cs) ->
  (forall b g, b ∈ bs -> cell_of b = c -> f = jitted_fn g -> serves hist g (code b)) -> dc_inv hist d' ->
  (forall r, r ∈ dc_pending d' -> request_ok hist bs (<[c := f]> cs) r) -> NoDup (req_fun <$> dc_pending d') ->
  dispatch_inv hist (mkSystem bs d' (<[c := f]> cs)).
Proof.
  intros [Hd Hb Hn Hr Hp] Hs Hd' Hr' Hp'. cbn in *. split; cbn; try assumption.
  intros b Hin. destruct (Hb b Hin) as [Hw Hi (f0 & Hf0 & Ht)]. split; [exact Hw | exact Hi|].
  destruct (decide (cell_of b = c)) as [Ec|Hne].
  - exists f. rewrite Ec, list_lookup_insert_eq by (rewrite <- Ec; eapply lookup_lt_Some, Hf0). split; [reflexivity|].
    intros g Hg. eapply Hs; eassumption.
  - exists f0. rewrite list_lookup_insert_ne by congruence. auto.
Qed.
Lemma same_cell hist bs d cs b b' : dispatch_inv hist (mkSystem bs d cs) -> b ∈ bs -> b' ∈ bs -> cell_of b = cell_of b' -> b = b'.
Proof.
  intros Hw Hb Hb' E. apply list_elem_of_lookup in Hb as (i & Hi). apply list_elem_of_lookup in Hb' as (k & Hk).
  assert (i = k) as ->; [|congruence].
  apply (NoDup_lookup _ _ _ (cell_of b) (di_distinct _ _ Hw)); cbn; rewrite list_lookup_fmap; [rewrite Hi | rewrite Hk, E]; reflexivity.
Qed.

Lemma inv_chosen hist bs d cs b f b' d' cs' : dispatch_inv hist (mkSystem bs d cs) -> b ∈ bs ->
  chosen hist (mkSystem bs d cs) b f b' d' cs' -> dispatch_inv (code b :: hist) (mkSystem bs d' cs').
Proof.
  intros Hw Hb [_ _ _ Hs Hsys]. pose proof (inv_mono hist (code b :: hist) _ ltac:(set_solver) Hw) as Hw1.
  destruct Hsys as [[-> ->]|(Hf & Hd' & -> & Hp)]; [exact Hw1|]. cbn in *.
  assert (Hold : forall r, r ∈ dc_pending d -> req_fun r <> cell_of b /\ request_ok (code b :: hist) bs (<[cell_of b := f]> cs) r).
  { intros r Hr. pose proof (di_requests _ _ Hw1 r Hr) as Hok. cbn in Hok.
    assert (Hne : req_fun r <> cell_of b) by (intros E; destruct Hok as [[_ Hc] _]; rewrite E in Hc; congruence).
    split; [exact Hne | apply request_ok_store; assumption]. }
  apply (inv_store _ bs d cs); [exact Hw1 | | exact Hd' | |].
  - intros b0 g Hb0 E Hg. rewrite (same_cell hist bs d cs b0 b Hw Hb0 Hb E).
    eapply serves_mono; [|apply Hs, Hg]. set_solver.
  - destruct Hp as [->|[-> ->]]; [apply Hold|]. intros r Hr. apply elem_of_app in Hr as [Hr|Hr]; [apply Hold, Hr|].
    apply list_elem_of_singleton in Hr as ->. split; [split; [split|]|]; cbn.
    + left.
    + apply (bk_instr _ _ _ (di_blocks _ _ Hw b Hb)).
    + apply list_lookup_insert_eq. eapply lookup_lt_Some, Hf.
    + intros b0 Hb0 E. rewrite (same_cell hist bs d cs b0 b Hw Hb0 Hb E). reflexivity.
  - destruct Hp as [->|[-> _]]; [exact (di_pending _ _ Hw)|]. rewrite fmap_app. apply NoDup_app.
    split; [exact (di_pending _ _ Hw)|]. split; [|apply NoDup_singleton].
    intros c Hc Hc'. apply list_elem_of_singleton in Hc'. cbn in Hc'. subst c. apply list_elem_of_fmap in Hc as (r & E & Hr).
    destruct (Hold r Hr) as [Hne _]. congruence.
Qed.

Lemma inv_background hist bs d cs d' cs' : dispatch_inv hist (mkSystem bs d cs) -> dc_background d cs = (d', cs') ->
  dispatch_inv hist (mkSystem bs d' cs').
Proof.
  intros Hw E. destruct (dc_background_spec hist d cs d' cs' (di_compiler _ _ Hw) E) as [Hd' Hans].
  { intros r Hr. apply head_Some_elem_of in Hr. apply (rq_answerable _ _ _ _ (di_requests _ _ Hw r Hr)). }
  pose proof (di_pending _ _ Hw) as Hp. pose proof (di_requests _ _ Hw) as Hreq. cbn in Hp, Hreq.
  destruct Hans as [[-> Hsame]|(r & Hr & Hans)].
  - destruct Hw as [_ Hb Hn Hrq Hpd]. split; cbn in *; rewrite ?Hsame; assumption.
  - rewrite Hr in Hp, Hreq. rewrite fmap_cons in Hp. apply NoDup_cons in Hp as [Hnin Hp].
    assert (Hrest : forall r', r' ∈ dc_pending d' -> req_fun r' <> req_fun r /\ request_ok hist bs cs r').
    { intros r' Hr'. split; [intros Eq; apply Hnin; rewrite <- Eq; apply list_elem_of_fmap_2, Hr' | apply Hreq; right; exact Hr']. }
    destruct Hans as [->|(g & Hg & ->)].
    + destruct Hw as [_ Hb Hn _ _]. split; cbn in *; try assumption. intros r' Hr'. apply Hrest, Hr'.
    + apply (inv_store hist bs d cs); [exact Hw | | exact Hd' | | exact Hp].
      * intros b g' Hb Eq [= <-]. rewrite (rq_block _ _ _ _ (Hreq r ltac:(left)) b Hb Eq). exact Hg.
      * intros r' Hr'. destruct (Hrest r' Hr') as [Hne Hok]. apply request_ok_store; assumption.
Qed.

Lemma inv_drop hist bs1 b bs2 d cs : dispatch_inv hist (mkSystem (bs1 ++ b :: bs2) d cs) -> dispatch_inv hist (mkSystem (bs1 ++ bs2) d cs).
Proof.
  intros [Hd Hb Hn Hr Hp]. cbn in *.
  assert (Hsub : forall b0, b0 ∈ bs1 ++ bs2 -> b0 ∈ bs1 ++ b :: bs2) by (intros b0; rewrite !elem_of_app, elem_of_cons; tauto).
  split; cbn; [exact Hd | auto | | | exact Hp].
  - eapply sublist_NoDup; [exact Hn|]. rewrite !fmap_app, fmap_cons. apply sublist_app; [reflexivity | apply sublist_cons; reflexivity].
  - intros r Hr0. destruct (Hr r Hr0) as [Ha Hblk]. split; [exact Ha | auto].
Qed.
Lemma inv_fresh hist bs1 b bs2 d cs : dispatch_inv hist (mkSystem (bs1 ++ bs2) d cs) -> cell_of b = length cs ->
  block_wf (fallback b) -> Forall instr_ok (code b) ->
  dispatch_inv hist (mkSystem (bs1 ++ b :: bs2) d (cs ++ [run_block_interpreted_fn])).
Proof.
  intros [Hd Hb Hn Hr Hp] Hc Hwf Hi. cbn in *.
  assert (Hkeep : forall c f, cs !! c = Some f -> (cs ++ [run_block_interpreted_fn]) !! c = Some f).
  { intros c f Hf. rewrite lookup_app_l by (eapply lookup_lt_Some, Hf). exact Hf. }
  assert (Hsplit : forall b0, b0 ∈ bs1 ++ b :: bs2 -> b0 = b \/ b0 ∈ bs1 ++ bs2) by (intros b0; rewrite !elem_of_app, elem_of_cons; tauto).
  split; cbn; [exact Hd | | | | exact Hp].
  - intros b0 Hb0. destruct (Hsplit b0 Hb0) as [->|Hold].
    + split; [exact Hwf | exact Hi|]. exists run_block_interpreted_fn. split; [|discriminate].
      rewrite Hc, lookup_app_r, Nat.sub_diag by lia. reflexivity.
    + destruct (Hb b0 Hold) as [Hw0 Hi0 (f & Hf & Hs)]. split; [exact Hw0 | exact Hi0 | exists f; auto].
  - rewrite fmap_app, fmap_cons, <- Permutation_middle. apply NoDup_cons. rewrite <- fmap_app. split; [|exact Hn].
    intros Hin. apply list_elem_of_fmap in Hin as (b0 & E & Hb0). destruct (Hb b0 Hb0) as [_ _ (f & Hf & _)].
    apply lookup_lt_Some in Hf. lia.
  - intros r Hr0. destruct (Hr r Hr0) as [[Hl Hcr] Hblk]. split; [split; auto|].
    intros b0 Hb0 E. destruct (Hsplit b0 Hb0) as [->|Hold]; [|auto]. apply lookup_lt_Some in Hcr. lia.
Qed.

(** *** Every interleaving *)
Inductive edited : Jitted -> M Cells Jitted -> Prop :=
| by_start_block b : edited b (jitted_start_block b)
| by_invalidate b : edited b (jitted_invalidate b)
| by_reset b : edited b (jitted_reset b)
| by_push_instr b i : instr_ok i -> edited b (jitted_push_instr i b).
Inductive created (bs : list Jitted) : M Cells Jitted -> Prop :=
| by_new : created bs jitted_new
| by_clone b : b ∈ bs -> created bs (jitted_clone b)
| by_bind space : block_wf space -> Forall instr_ok (instrs space) -> created bs (jitted_bind space).

(** A new block, a change of a block, a run of a block on any core, or what the compiler
    does in the background; labelled with the sequence of instructions that was run. *)
Inductive dispatch_step : list (list Instruction) -> System -> System -> Prop :=
| step_create bs d cs m b cs' : created bs m -> m cs = Some (b, cs') ->
    dispatch_step [] (mkSystem bs d cs) (mkSystem (b :: bs) d cs')
| step_edit bs1 b bs2 d cs m b' cs' : edited b m -> m cs = Some (b', cs') ->
    dispatch_step [] (mkSystem (bs1 ++ b :: bs2) d cs) (mkSystem (bs1 ++ b' :: bs2) d cs')
| step_run bs1 b bs2 d cs instr_pc s r b' s' d' cs' :
    jitted_run_block b instr_pc (s, (d, cs)) = Some ((r, b'), (s', (d', cs'))) ->
    dispatch_step [code b] (mkSystem (bs1 ++ b :: bs2) d cs) (mkSystem (bs1 ++ b' :: bs2) d' cs')
| step_background bs d cs d' cs' : dc_background d cs = (d', cs') ->
    dispatch_step [] (mkSystem bs d cs) (mkSystem bs d' cs').

(** The systems that steps lead to from one without blocks, each with the sequences of
    instructions that were run on the way. *)
Inductive dispatched (d : D) : list (list Instruction) -> System -> Prop :=
| dispatched_new : dispatched d [] (mkSystem [] d [])
| dispatched_step hist w ran w' : dispatched d hist w -> dispatch_step ran w w' -> dispatched d (ran ++ hist) w'.

Lemma edited_spec b m cs b' cs' : edited b m -> block_wf (fallback b) -> Forall instr_ok (code b) -> m cs = Some (b', cs') ->
  cs' = cs ++ [run_block_interpreted_fn] /\ cell_of b' = length cs /\ block_wf (fallback b') /\ Forall instr_ok (code b').
Proof.
  intros He Hw Hi E. pose proof (wf_slots _ Hw) as Hs.
  assert (Hempty : forall f t, length (slots f) = length (slots (fallback b)) -> len_instr f = 0 ->
    block_wf f /\ Forall instr_ok (code (mkJitted f t))).
  { intros f t Hf Hz. split; [split; unfold num_instr; [rewrite Hf; exact Hs | unfold CACHE_INSTR; lia]|].
    unfold code, instrs, num_instr. cbn. rewrite Hz. constructor. }
  destruct He as [b|b|b|b i Hok]; cbn in E.
  - injection E as <- <-. split; [reflexivity|]. split; [reflexivity | apply Hempty; reflexivity].
  - injection E as <- <-. split; [reflexivity|]. split; [reflexivity | apply Hempty; reflexivity].
  - injection E as <- <-. split; [reflexivity|]. split; [reflexivity | apply Hempty; [apply length_fmap | reflexivity]].
  - unfold jitted_push_instr, mbind, mlift in E. cbn in E. unfold block_push_instr in E.
    destruct (len_instr (fallback b) <? Z.of_nat (length (slots (fallback b)))) eqn:Elt; [|discriminate].
    injection E as <- <-. split; [reflexivity|]. split; [reflexivity|].
    apply Z.ltb_lt in Elt. pose proof (wf_len _ Hw) as Hl. unfold num_instr in Hl. split.
    + split; unfold num_instr; cbn; [rewrite length_insert; exact Hs | lia].
    + unfold code, instrs, num_instr in *. cbn. rewrite Z2Nat.inj_add, Nat.add_1_r, (take_S_r _ _ i) by lia || (apply list_lookup_insert_eq; lia).
      rewrite take_insert_ge by lia. apply Forall_app. split; [exact Hi | constructor; [exact Hok | constructor]].
Qed.
Lemma created_spec hist bs m cs b cs' : created bs m -> (forall b, b ∈ bs -> jitted_ok hist cs b) -> m cs = Some (b, cs') ->
  cs' = cs ++ [run_block_interpreted_fn] /\ cell_of b = length cs /\ block_wf (fallback b) /\ Forall instr_ok (code b).
Proof.
  intros Hm Hbs E. assert (Hnew : block_wf block_new) by (split; [reflexivity | cbn; unfold CACHE_INSTR; lia]).
  destruct Hm as [|b0 Hb0|space Hsp Hin]; injection E as <- <-; (split; [reflexivity|]); (split; [reflexivity|]).
  - split; [exact Hnew | constructor].
  - destruct (Hbs b0 Hb0) as [Hw Hi _]. split; [exact Hw | exact Hi].
  - split; [exact Hsp | exact Hin].
Qed.

Lemma dispatch_step_inv hist ran w w' : dispatch_step ran w w' -> dispatch_inv hist w -> dispatch_inv (ran ++ hist) w'.
Proof.
  intros [bs d cs m b cs' Hm E|bs1 b bs2 d cs m b' cs' He E|bs1 b bs2 d cs pc s r b' s' d' cs' E|bs d cs d' cs' E] Hw.
  - destruct (created_spec hist bs m cs b cs' Hm (di_blocks _ _ Hw) E) as (-> & Hc & Hwf & Hi).
    apply (inv_fresh hist []); [exact Hw | assumption..].
  - assert (Hb : jitted_ok hist cs b) by (apply (di_blocks _ _ Hw); cbn; set_solver).
    destruct (edited_spec b m cs b' cs' He (bk_wf _ _ _ Hb) (bk_instr _ _ _ Hb) E) as (-> & Hc & Hwf & Hi).
    apply inv_fresh; [eapply inv_drop, Hw | assumption..].
  - destruct (jitted_run_block_chooses hist _ b Hw) as (f & b1 & d1 & cs1 & Hc & Er); [cbn; set_solver|].
    cbn [sys_compiler sys_cells] in Er. rewrite Er in E. unfold on_core in E.
    destruct (run_chosen f b pc s) as [[out s1]|]; [|discriminate]. injection E as Er1 <- Es1 <- <-.
    eapply inv_alike; [eapply (inv_chosen _ _ _ _ b); [exact Hw | set_solver | exact Hc] | |].
    + rewrite !fmap_app, !fmap_cons, (ch_cell _ _ _ _ _ _ _ Hc). reflexivity.
    + rewrite !fmap_app, !fmap_cons, (ch_fallback _ _ _ _ _ _ _ Hc). reflexivity.
  - eapply inv_background; eassumption.
Qed.
Lemma dispatched_inv d hist w : dc_inv [] d -> dc_pending d = [] -> dispatched d hist w -> dispatch_inv hist w.
Proof.
  intros Hd Hp Hw. induction Hw as [|hist w ran w' _ IH Hs]; [|eapply dispatch_step_inv; eassumption].
  split; cbn; rewrite ?Hp; [exact Hd | set_solver | constructor | set_solver | constructor].
Qed.

End Blocks.
Arguments System D : clear implicits.
End Dispatch.
