(* ===== verification/JitTheorems.v ===== *)
(** * Theorems on compiled blocks

    The lowered code of a block does what the interpreted block does; the builder and the
    verifier accept every block of decoded instructions but [mulw] to [x0], which neither
    runs nor compiles; compilation never panics and gives machine code that serves the
    instructions it was asked for; and a block that is run through its dispatch target
    does what the interpreted block does, with both compilers and under every
    interleaving. *)

From stdpp Require Import gmap.
From S2P Require Import Prelude.
From S2P Require Import Registers.
From S2P Require Import Instr.
From S2P Require Import Instruction.
From S2P Require Import Constructors.
From S2P Require Import Parser.
From S2P Require Import Icb.
From S2P Require Import Interpreter.
From S2P Require Import Buddy.
From S2P Require Import Memory.
From S2P Require Import MemorySpec.
From S2P Require Import Core.
From S2P Require Import Run.
From S2P Require Import Step.
From S2P Require Import CoreSpec.
From S2P Require Import IsaRefinement.
From S2P Require Import IsaTheorems.
From S2P Require Import BlockCache.
From S2P Require Import BlockCacheSpec.
From S2P Require Import Hash.
From S2P Require Import Cranelift.
From S2P Require Import StateAccess.
From S2P Require Import JitBuilder.
From S2P Require Import JitRuns.
From S2P Require Import Jit.
From S2P Require Import JitTyped.
From S2P Require Import JitSpec.
From S2P Require Import DispatchSpec.

Section Code.
Context `{Acc : JitStateAccess}.

(** The opcodes that the compiler knows. *)
Definition supported (i : Instruction) : bool :=
  match to_lowering (i_opcode i) with Some _ => true | None => false end.

Lemma lower_instrs_supported l : Forall (fun i => supported i = true) l ->
  forall b b', lower_instrs l b <> Some (false, b').
Proof.
  intros Hl. induction Hl as [|i l Hi Hl IH]; intros b b' E; cbn [lower_instrs] in E.
  - apply Cranelift.bind_inv in E as ([] & b1 & _ & [=]).
  - unfold supported in Hi. destruct (to_lowering (i_opcode i)) as [fn|]; [|discriminate].
    apply Cranelift.bind_inv in E as ([u|] & b1 & _ & E).
    + apply Cranelift.bind_inv in E as ([] & b2 & _ & E); [exact (IH _ _ E)|].
      apply Cranelift.bind_inv in E as ([] & b3 & _ & [=]).
    + apply Cranelift.bind_inv in E as ([] & b2 & _ & [=]).
Qed.

(** A [mulw] to [x0] has no lowering: the view of its destination does not exist. *)
Lemma mulw_x0_not_lowered c l : mulw_x0 c = true -> lower_function (instruction_of_cacheable c :: l) = None.
Proof.
  destruct c; try discriminate. destruct args as [rd rs1 rs2]; cbn [mulw_x0 r_rd]. intros Hz. destruct rd; try discriminate Hz.
  unfold lower_function. rewrite builder_new_eq. destruct rs1, rs2; reflexivity.
Qed.
End Code.

Section Theorems.
Context {Mem : Type} `{Memory Mem} `{!MemoryLaws Mem} (xregisters_offset : Z).
Context `{Acc : JitStateAccess} `{!AccessLaws xregisters_offset (H0 := Acc)} `{!AccessTyped (H := Acc)}.
Notation Core := (MachineCoreState Mem).
Implicit Types s : Core.

(** C8: lowering a block of decoded instructions, none of them a [mulw] to [x0], never
    panics; a function that it gives passes Cranelift's verifier against the signature of a
    [JitFn]; and it gives one when all opcodes are supported. *)
Theorem decoded_blocks_compile (l : list InstrCacheable) :
  Forall (fun c => mulw_x0 c = false) l ->
  exists r, lower_function (instruction_of_cacheable <$> l) = Some r /\
    (forall F, r = Some F -> verify_function jsa_signature jitfn_returns F = true) /\
    (Forall (fun c => supported (instruction_of_cacheable c) = true) l -> is_Some r).
Proof.
  intros Hl. assert (Hok : Forall instr_ok (instruction_of_cacheable <$> l)).
  { apply Forall_fmap. eapply Forall_impl; [exact Hl | apply decoded_instr_ok]. }
  destruct (lower_function_total xregisters_offset _ Hok) as (r & E & Hv). exists r. split; [exact E|]. split; [exact Hv|].
  intros Hs. assert (Hs' : Forall (fun i => supported i = true) (instruction_of_cacheable <$> l)) by (apply Forall_fmap, Hs).
  unfold lower_function in E. rewrite builder_new_eq in E.
  destruct (lower_instrs (instruction_of_cacheable <$> l) initial_builder) as [[[] b]|] eqn:El; [| |discriminate].
  - injection E as <-. eauto.
  - contradiction (lower_instrs_supported _ Hs' _ _ El).
Qed.

(** C7: the function that a block is lowered to, run on a core, ends within as many
    instructions as it has, and returns the steps, the core and the error of the interpreted
    block, whatever the registers that it does not use hold at the start. *)
Theorem compiled_code_refines_interpreted (b : Interpreted) l F s r s' first last :
  block_instr b = Some l -> lower_function l = Some (Some F) -> core_ok s ->
  interpreted_run_block b (pc (hart s)) s = Some (r, s') ->
  exists h, (let _ := jit_host xregisters_offset in
      invoke (code_size F + 3) F (jitfn_args first last (pc (hart s))) (mkJitState s (Ok tt) ∅))
        = Some ([VInt I64 (wrap 64 (steps r))], h) /\
    js_core h = s' /\ js_result h = match error r with Some e => Err e | None => Ok tt end.
Proof.
  intros Hb El Hok Hr. rewrite (interpreted_run_block_eq _ _ _ _ Hb) in Hr.
  destruct (lower_function_runs xregisters_offset l F s r s' first last El Hok Hr) as (vals & h & E & -> & Hc & Hres).
  exists h. auto.
Qed.

Context `{Nat : NativeCode Mem} `{!NativeLaws Mem xregisters_offset} `{Crates : JitCrates} `{!JitCratesLaws} `{Blake2b}.

(** A compiler, with the sequences of instructions that it was asked to compile. *)
Inductive compiled : list (list Instruction) -> JIT Mem -> Prop :=
| compiled_new : compiled [] jit_new
| compiled_next hist j l r j' : compiled hist j -> Forall instr_ok l -> compile l j = Some (r, j') -> compiled (l :: hist) j'.

(** A compiler that has compiled any sequences compiles another one without a panic,
    gives the same result when it is asked again, and the machine code that it gives does
    what the instructions do, unless one of the sequences before has the same hash. *)
Theorem compile_never_panics hist (j : JIT Mem) l : compiled hist j -> Forall instr_ok l ->
  exists r j', compile l j = Some (r, j') /\ compile l j' = Some (r, j') /\
    forall f, r = Some f ->
      (forall s r s', core_ok s -> run_instrs l (pc (hart s)) s = Some (r, s') ->
         call_native f (pc (hart s)) (Ok tt) s = Some ((wrap 64 (steps r), result_of r), s')) \/
      exists l', l' ∈ hist /\ l' <> l /\ blake2b_hash l' = blake2b_hash l.
Proof.
  intros Hj Hl. assert (Hi : jit_inv hist j).
  { induction Hj as [|hist j l1 r1 j1 _ IH Hl1 E]; [apply jit_new_inv|].
    destruct (compile_spec xregisters_offset hist l1 j Hl1 IH) as (r & j' & E' & Hj' & _).
    rewrite E in E'. injection E' as _ <-. exact Hj'. }
  destruct (compile_spec xregisters_offset hist l j Hl Hi) as (r & j' & E & _ & Hf).
  exists r, j'. split; [exact E|]. split; [apply (compile_again l j), E | exact Hf].
Qed.

(** C9: with [InlineCompiler], a block run through its dispatch target does what the
    interpreted block does, after any sequence of creations, changes and runs of blocks
    whose instructions have the registers that their functions read: all that the decoder
    gives, but for [mulw] to [x0].  The one way out is that the block's hash is that of
    another sequence of instructions, which was run before. *)
Theorem inline_dispatch_transparent hist (w : System (D := InlineCompiler)) b s r s' :
  dispatched (Laws := inline_laws xregisters_offset) inline_new hist w ->
  b ∈ sys_blocks w -> core_ok s -> interpreted_run_block (fallback b) (pc (hart s)) s = Some (r, s') ->
  (exists b' t, jitted_run_block b (pc (hart s)) (s, (sys_compiler w, sys_cells w)) = Some ((r, b'), (s', t)) /\
     fallback b' = fallback b) \/
  exists l, l ∈ hist /\ l <> code b /\ blake2b_hash l = blake2b_hash (code b).
Proof.
  intros Hw. assert (Hi : dispatch_inv (Laws := inline_laws xregisters_offset) hist w).
  { eapply (dispatched_inv xregisters_offset (Laws := inline_laws xregisters_offset)); [| | exact Hw];
      [exact jit_new_inv | reflexivity]. }
  eapply (jitted_run_block_spec (Laws := inline_laws xregisters_offset)). exact Hi.
Qed.

(** C6: with [OutlineCompiler], whatever the interleaving of creations, changes and runs of
    blocks with the steps of the thread that compiles, the thread has not panicked, and a
    block run through its dispatch target does what the interpreted block does.  The blocks
    hold instructions that have the registers that their functions read: all that the decoder
    gives, but for [mulw] to [x0].  The one way out is that the block's hash is that of
    another sequence of instructions, which was run before. *)
Theorem outline_dispatch_transparent hist (w : System (D := OutlineCompiler)) b s r s' :
  dispatched (Laws := outline_laws xregisters_offset) outline_new hist w ->
  b ∈ sys_blocks w -> core_ok s -> interpreted_run_block (fallback b) (pc (hart s)) s = Some (r, s') ->
  alive (sys_compiler w) = true /\
  ((exists b' t, jitted_run_block b (pc (hart s)) (s, (sys_compiler w, sys_cells w)) = Some ((r, b'), (s', t)) /\
      fallback b' = fallback b) \/
   exists l, l ∈ hist /\ l <> code b /\ blake2b_hash l = blake2b_hash (code b)).
Proof.
  intros Hw Hb Hok Hr. assert (Hi : dispatch_inv (Laws := outline_laws xregisters_offset) hist w).
  { eapply (dispatched_inv xregisters_offset (Laws := outline_laws xregisters_offset)); [| | exact Hw];
      [split; [exact jit_new_inv | reflexivity] | reflexivity]. }
  split; [apply (di_compiler _ _ Hi) | eapply (jitted_run_block_spec (Laws := outline_laws xregisters_offset)); eassumption].
Qed.
End Theorems.

(** ** Instances

    A block of [addi x1, x2, 5] and [ecall], compiled for the state of a manager that owns
    its memory, whose machine code is the lowered function itself. *)
#[local] Existing Instance two_pages_memory.
#[local] Existing Instance two_pages_laws.
#[local] Instance demo_access : JitStateAccess := owned_access 64.
#[local] Instance demo_native : NativeCode (MemoryImpl (BuddyLeaf 2)) := ir_native 64.
#[local] Instance demo_native_laws : NativeLaws (MemoryImpl (BuddyLeaf 2)) 64 := ir_native_laws 64.

Definition demo_cacheable : list InstrCacheable :=
  [Instrs.Addi (mkSplitITypeArgs (NonZero NZ.x1) (NonZero NZ.x2) 5); Instrs.Ecall].
Definition demo_code : list Instruction := instruction_of_cacheable <$> demo_cacheable.
Definition demo_block : Interpreted := mkInterpreted (demo_code ++ replicate 18 Instruction_DEFAULT) 2.
#[local] Instance demo_crates : JitCrates := {
  serialize l := Some [Z.of_nat (length l)];
  hex_encode bytes := bytes }.
#[local] Instance demo_crates_laws : JitCratesLaws.
Proof. intros l l' E. exact E. Qed.
#[local] Instance demo_blake2b : Blake2b := { digest_256 bytes := take 32 (bytes ++ replicate 32 0) }.

Lemma demo_cacheable_ok : Forall (fun c => mulw_x0 c = false) demo_cacheable.
Proof. repeat constructor. Qed.
Lemma demo_code_ok : Forall instr_ok demo_code.
Proof. repeat constructor. Qed.
(** The interpreted block: one step, then the environment call. *)
Definition demo_outcome : option (StepManyResult EnvironException * MachineCoreState (MemoryImpl (BuddyLeaf 2))) :=
  interpreted_run_block demo_block (pc (hart new_core)) new_core.
Lemma demo_interpreted : exists s, demo_outcome = Some ({| steps := 1; error := Some EnvironEnvCall |}, s).
Proof.
  assert (Hb : match demo_outcome with
               | Some (r, _) => (steps r =? 1) && match error r with Some EnvironEnvCall => true | _ => false end
               | None => false end = true) by (vm_compute; reflexivity).
  destruct demo_outcome as [[[n e] s]|]; [|discriminate]. exists s. cbn in Hb. apply andb_true_iff in Hb as [Hn He].
  apply Z.eqb_eq in Hn as ->. destruct e as [[]|]; try discriminate. reflexivity.
Qed.

Lemma decoded_blocks_compile_witness :
  exists F, lower_function demo_code = Some (Some F) /\
    verify_function jsa_signature jitfn_returns F = true /\ length (blocks F) = 4%nat.
Proof.
  destruct (decoded_blocks_compile (Mem := MemoryImpl (BuddyLeaf 2)) 64 demo_cacheable demo_cacheable_ok)
    as (r & E & Hv & Hs).
  destruct (Hs ltac:(repeat constructor)) as [F ->]. exists F. split; [exact E|]. split; [apply Hv; reflexivity|].
  assert (Hl : match lower_function demo_code with Some (Some F) => length (blocks F) | _ => 0%nat end = 4%nat)
    by (vm_compute; reflexivity).
  fold demo_code in E. rewrite E in Hl. exact Hl.
Defined.

Lemma compiled_code_refines_interpreted_witness :
  exists F h, lower_function demo_code = Some (Some F) /\
    (let _ := jit_host 64 in
     invoke (code_size F + 3) F (jitfn_args (VPtr (PArg 0)) (VPtr (PArg 4)) 0) (mkJitState new_core (Ok tt) ∅))
      = Some ([VInt I64 1], h) /\ js_result h = Err EnvironEnvCall.
Proof.
  destruct (lower_function demo_code) as [[F|]|] eqn:EF; [|vm_compute in EF; discriminate EF ..].
  destruct demo_interpreted as (s & Hr).
  destruct (compiled_code_refines_interpreted 64 demo_block demo_code F new_core _ s (VPtr (PArg 0)) (VPtr (PArg 4))
    eq_refl EF new_core_ok Hr) as (h & E & _ & Hres).
  exists F, h. split; [reflexivity|]. split; [exact E | exact Hres].
Defined.

Lemma compile_never_panics_witness :
  exists f j, compile demo_code jit_new = Some (Some f, j) /\ compile demo_code j = Some (Some f, j).
Proof.
  destruct (compile_never_panics 64 [] jit_new demo_code ltac:(constructor) demo_code_ok) as (r & j & E & E2 & _).
  assert (Hs : match compile demo_code jit_new with Some (Some _, _) => true | _ => false end = true)
    by (vm_compute; reflexivity).
  rewrite E in Hs. destruct r as [f|]; [|discriminate]. exists f, j. split; [exact E | exact E2].
Defined.

(** A system whose only block is [demo_block], built by its operations. *)
Definition demo_jitted (remaining : Z) : Jitted := mkJitted demo_block (mkTarget 2 remaining).
Definition demo_cells : Cells := replicate 3 run_block_interpreted_fn.
Definition demo_addi : Instruction :=
  instruction_of_cacheable (Instrs.Addi (mkSplitITypeArgs (NonZero NZ.x1) (NonZero NZ.x2) 5)).
Definition demo_half : Interpreted := mkInterpreted (<[0%nat := demo_addi]> (slots block_new)) 1.
Lemma demo_built {D} `{DC : !DispatchCompiler D} `{Laws : !DispatchCompilerLaws D} (d : D) :
  dispatched d [] (mkSystem [demo_jitted 1000] d demo_cells).
Proof.
  assert (H1 : dispatched d [] (mkSystem [mkJitted block_new (mkTarget 0 1000)] d [run_block_interpreted_fn])).
  { eapply (dispatched_step _ [] _ []); [apply dispatched_new|]. eapply step_create; [apply by_new | reflexivity]. }
  assert (H2 : dispatched d [] (mkSystem [mkJitted demo_half (mkTarget 1 1000)] d (replicate 2 run_block_interpreted_fn))).
  { eapply (dispatched_step _ [] _ []); [exact H1|].
    eapply (step_edit []); [apply (by_push_instr _ demo_addi); reflexivity | reflexivity]. }
  eapply (dispatched_step _ [] _ []); [exact H2|].
  eapply (step_edit []); [apply (by_push_instr _ (instruction_of_cacheable Instrs.Ecall)); reflexivity | reflexivity].
Qed.
(** Only one sequence was run. *)
Lemma demo_no_collision hist : Forall (fun l => l = demo_code) hist ->
  ~ exists l, l ∈ hist /\ l <> demo_code /\ blake2b_hash l = blake2b_hash demo_code.
Proof. rewrite Forall_forall. intros Hh (l & Hl & Hn & _). exact (Hn (Hh l Hl)). Qed.

(** The first run compiles the block, the second runs the machine code. *)
Lemma inline_dispatch_transparent_witness :
  exists hist (w : System (D := InlineCompiler)) b f s b' t,
    dispatched (Laws := inline_laws 64) inline_new hist w /\ b ∈ sys_blocks w /\
    sys_cells w !! cell_of b = Some (jitted_fn f) /\
    jitted_run_block b 0 (new_core, (sys_compiler w, sys_cells w))
      = Some (({| steps := 1; error := Some EnvironEnvCall |}, b'), (s, t)).
Proof.
  destruct demo_interpreted as (s & Hr).
  pose proof (demo_built (Laws := inline_laws 64) inline_new) as H1.
  destruct (inline_dispatch_transparent 64 _ _ (demo_jitted 1000) new_core _ s H1 ltac:(left) new_core_ok Hr)
    as [(b & [d cs] & E & Hb)|Hc]; [|destruct (demo_no_collision [] ltac:(constructor) Hc)].
  assert (Hf : match jitted_run_block (demo_jitted 1000) 0 (new_core, (inline_new, demo_cells)) with
               | Some ((_, b), (_, (_, cs))) => match cs !! cell_of b with Some (jitted_fn _) => true | _ => false end
               | None => false end = true) by (vm_compute; reflexivity).
  change (jitted_run_block (demo_jitted 1000) 0 (new_core, (inline_new, demo_cells))
    = Some (({| steps := 1; error := Some EnvironEnvCall |}, b), (s, (d, cs)))) in E. rewrite E in Hf.
  destruct (cs !! cell_of b) as [[| |f]|] eqn:Ef; [discriminate Hf | discriminate Hf | | discriminate Hf].
  assert (H2 : dispatched (Laws := inline_laws 64) inline_new [demo_code] (mkSystem [b] d cs)).
  { eapply (dispatched_step _ [] _ [demo_code]); [exact H1|]. eapply (step_run [] (demo_jitted 1000) []), E. }
  assert (Hr2 : interpreted_run_block (fallback b) (pc (hart new_core)) new_core
    = Some ({| steps := 1; error := Some EnvironEnvCall |}, s)) by (rewrite Hb; exact Hr).
  destruct (inline_dispatch_transparent 64 _ _ b new_core _ s H2 ltac:(left) new_core_ok Hr2) as [(b' & t & E2 & _)|Hc].
  - exists [demo_code], (mkSystem [b] d cs), b, f, s, b', t. split; [exact H2|]. split; [left|]. split; [exact Ef | exact E2].
  - unfold code in Hc. rewrite Hb in Hc. destruct (demo_no_collision [demo_code] ltac:(repeat constructor) Hc).
Defined.

(** A run that only counts down. *)
Lemma demo_count k : k <> 0 ->
  dispatch_step (Laws := outline_laws 64) [demo_code] (mkSystem [demo_jitted k] outline_new demo_cells)
    (mkSystem [demo_jitted (k - 1)] outline_new demo_cells).
Proof.
  intros Hk. destruct demo_interpreted as (s & Hr). apply Z.eqb_neq in Hk.
  eapply (step_run [] (demo_jitted k) [] _ _ (pc (hart new_core)) new_core).
  rewrite (run_block_eq (demo_jitted k) _ _ _ demo_cells run_block_interpreted_fn eq_refl), call_interpreted.
  cbn [should_compile outline_compiler]. unfold outline_should_compile. cbn [remaining_calls dispatch demo_jitted]. rewrite Hk.
  cbv zeta. rewrite (call_chosen _ _ (demo_jitted k)) by (discriminate || reflexivity).
  unfold on_core, run_chosen, mbind. change (fallback (demo_jitted k)) with demo_block. unfold demo_outcome in Hr. rewrite Hr. reflexivity.
Qed.
Lemma demo_counts n : Z.of_nat n <= 1000 ->
  dispatched (Laws := outline_laws 64) outline_new (replicate n demo_code)
    (mkSystem [demo_jitted (1000 - Z.of_nat n)] outline_new demo_cells).
Proof.
  induction n as [|n IH]; intros Hn; [apply demo_built|].
  replace (1000 - Z.of_nat (S n)) with (1000 - Z.of_nat n - 1) by lia.
  eapply (dispatched_step _ (replicate n demo_code) _ [demo_code]); [apply IH; lia | apply demo_count; lia].
Qed.
Lemma demo_alike n : Forall (fun l => l = demo_code) (replicate n demo_code).
Proof. apply Forall_replicate. reflexivity. Qed.

(** After a thousand runs, a run asks for the block, and the thread compiles it. *)
Lemma outline_dispatch_transparent_witness :
  exists hist (w : System (D := OutlineCompiler)) b f s b' t,
    dispatched (Laws := outline_laws 64) outline_new hist w /\ b ∈ sys_blocks w /\
    sys_cells w !! cell_of b = Some (jitted_fn f) /\ alive (sys_compiler w) = true /\
    jitted_run_block b 0 (new_core, (sys_compiler w, sys_cells w))
      = Some (({| steps := 1; error := Some EnvironEnvCall |}, b'), (s, t)).
Proof.
  destruct demo_interpreted as (s & Hr).
  pose proof (demo_counts 1000 ltac:(lia)) as H1. change (1000 - Z.of_nat 1000) with 0 in H1.
  destruct (outline_dispatch_transparent 64 _ _ (demo_jitted 0) new_core _ s H1 ltac:(left) new_core_ok Hr)
    as [_ [(b & [d cs] & E & Hb)|Hc]]; [|destruct (demo_no_collision _ (demo_alike 1000) Hc)].
  change (jitted_run_block (demo_jitted 0) 0 (new_core, (outline_new, demo_cells))
    = Some (({| steps := 1; error := Some EnvironEnvCall |}, b), (s, (d, cs)))) in E.
  destruct (background_step d cs) as [d' cs'] eqn:Eb.
  assert (Hf : match jitted_run_block (demo_jitted 0) 0 (new_core, (outline_new, demo_cells)) with
               | Some ((_, b), (_, (d, cs))) =>
                   match snd (background_step d cs) !! cell_of b with Some (jitted_fn _) => true | _ => false end
               | None => false end = true) by (vm_compute; reflexivity).
  rewrite E, Eb in Hf. cbn [snd] in Hf.
  destruct (cs' !! cell_of b) as [[| |f]|] eqn:Ef; [discriminate Hf | discriminate Hf | | discriminate Hf].
  set (hist := [] ++ [demo_code] ++ replicate 1000 demo_code).
  assert (H2 : dispatched (Laws := outline_laws 64) outline_new hist (mkSystem [b] d' cs')).
  { eapply dispatched_step; [eapply dispatched_step; [exact H1 | eapply (step_run [] (demo_jitted 0) []), E] | apply step_background, Eb]. }
  assert (Hr2 : interpreted_run_block (fallback b) (pc (hart new_core)) new_core
    = Some ({| steps := 1; error := Some EnvironEnvCall |}, s)) by (rewrite Hb; exact Hr).
  destruct (outline_dispatch_transparent 64 _ _ b new_core _ s H2 ltac:(left) new_core_ok Hr2)
    as [Ha [(b' & t & E2 & _)|Hc]].
  - exists hist, (mkSystem [b] d' cs'), b, f, s, b', t. split; [exact H2|]. split; [left|]. split; [exact Ef|]. split; [exact Ha | exact E2].
  - unfold code in Hc. rewrite Hb in Hc. destruct (demo_no_collision hist (demo_alike 1001) Hc).
Defined.

(** A block of a load of the byte at [2^64 - 1], which faults, and [mulw x0, rs1, rs2]. *)
Definition faulting_block (rs1 rs2 : XRegister) : list Instruction :=
  instruction_of_cacheable <$> [Instrs.Lb (mkITypeArgs x1 x0 (-1)); Instrs.Mulw (mkRTypeArgs x0 rs1 rs2)].

(** C34: the decoder takes every word that encodes [mulw x0, rs1, rs2]; running the
    instruction it gives reads the byte of [x0] as a non-zero register, whose behaviour is
    undefined, in every state; and so does lowering a block that starts with it.  Behind an
    instruction that faults, where the interpreter never reaches it, it still makes the
    compilation of the block undefined. *)
Theorem mulw_x0_undefined rs1 rs2 :
  let w := 0x0200003B + xreg_num rs1 * 2 ^ 15 + xreg_num rs2 * 2 ^ 20 in
  let i := Instrs.Mulw (mkRTypeArgs x0 rs1 rs2) in
  parse_uncompressed_instruction w = Cacheable i /\
  (forall Mem (M : Memory Mem) (s : MachineCoreState Mem),
     exists run, run_instr_cacheable i = Some run /\ run s = None) /\
  (forall (Acc : JitStateAccess) l, lower_function (instruction_of_cacheable i :: l) = None) /\
  lower_function (faulting_block rs1 rs2) = None /\
  exists s, run_instrs (faulting_block rs1 rs2) 0 new_core = Some ({| steps := 1; error := None |}, s).
Proof.
  intros w i. split; [destruct rs1, rs2; reflexivity|]. split.
  { intros Mem M s. destruct (mulw_x0_dispatched (Mem := Mem) i eq_refl) as [run Hr].
    exists run. split; [exact Hr | exact (mulw_x0_stuck i run s eq_refl Hr)]. }
  split; [intros Acc l; apply mulw_x0_not_lowered; reflexivity|].
  split; [destruct rs1, rs2; vm_compute; reflexivity|].
  eexists. reflexivity.
Qed.
